(* ===== verification/_CoqProject ===== *)
-Q . S2P
Prelude.v
Lifecycle.v
Sched.v
Restore.v
Registry.v
RegistryProps.v
RegistryWorld.v
Tick.v
Handlers.v
HandlersProps.v
Restart.v
Crc.v
GoBytes.v
GoText.v
Md5.v
Regex.v
Sanitize.v
SanitizeProps.v
Nzb.v
NzbProps.v
Par2Parse.v
Par2Props.v
Par2Set.v
Par2Roundtrip.v
Par2Identify.v
Par2IdentifyProps.v
Decoder.v
DecoderProps.v
Article.v
UU.v
Nntp.v
NntpConn.v
NntpProps.v
Ranges.v
FileWriter.v
Assembler.v
AssemblerProps.v
Bitset.v
Tracker.v
FileTable.v
Rows.v
Progress.v
ProgressOps.v
Figures.v
Downloader.v
DownloaderProps.v
Dispatch.v
Cover.v
Content.v
ContentSafe.v
ContentProps.v
RarSize.v
RarSizeProps.v
PostEngine.v
PostEngineProps.v
GoPath.v
FileTree.v
FileTreeProps.v
PostJob.v
Finalize.v
FinalizeMove.v
FinalizeProps.v
PostPipeline.v
PostPipelineProps.v
Extract.v
ExtractProps.v
PublishProps.v
Durable.v
DurableProps.v
Recorder.v
RecorderProps.v
Verify.v
VerifyProps.v
