(* ===== verification/Prelude.v ===== *)
(** * GoNZBD: a verification library

    GoNZBD takes an NZB document (the list of Usenet articles that make up
    some files), downloads the articles from NNTP servers, writes the decoded
    bytes into the files, checks and repairs them with PAR2 and unpacks them.
    This library models the parts of it that decide something, on the code's
    own data, and proves what makes each of them correct.  Names follow the
    Go source; a function's definition carries its Go name, with the receiver
    dropped, and every file opens with the files it models.

    ** The parts of the program and where they are

    - The job ([internal/job]).  [Lifecycle]: states, verdicts, intents, the
      edge table, attempts and the doors [Job.mu] guards.  [Bitset],
      [FileTable], [Rows], [Progress], [ProgressOps], [Figures], [Cover]:
      the tables of the content tier.  [Content]: every method [contentMu]
      guards; [ContentSafe] is their step relation and invariant,
      [ContentProps] what it gives a caller.
    - The scheduler ([internal/sched]).  [Sched]: the two resource pools and
      the doors of [Queue]; [World] is the queue with all its jobs.
    - The dispatcher ([internal/dispatch]).  [Registry]: one definition per
      span that holds [Dispatcher.mu]; [RegistryProps]: their interleavings;
      [RegistryWorld]: the registry stepping together with the scheduler, and
      the abstract world it refines.  [Tick]: the tick and the workers'
      reports.  [Handlers]: each exported operation as a whole
      ([Add], [removeFor], [restore], [StartWith], [Stop], pause, resume,
      cancel); [HandlersProps] and [Restart] are their properties.
      [Restore]: the replay of one stored row.
    - The article path.  [Downloader] and [Tracker] ([internal/downloader]):
      penalties, choice of a server, one attempt, the end of a request, and
      the masks of tried servers; [Dispatch]: the pass over the queue that
      plans attempts.  [Decoder], [UU] ([internal/decoder]): the yEnc and UU
      decoders with their buffer pools; [Crc] ([internal/crc32util]).
      [Ranges], [FileWriter], [Assembler] ([internal/assembler]): who owns
      which bytes, the open files and the disk, and the worker that answers
      one request at a time.
    - What comes in and what is checked.  [Nzb] ([internal/nzb]): the
      document's segments, files, limits and digest, file names in subject
      lines, compression envelopes.  [Sanitize] ([internal/fsutil]): names
      made safe.  [Par2Parse] and [Par2Identify] ([internal/par2]): the packet
      scanner, the sets, which file is which entry and the checksum verdict.
      [GoBytes], [GoText], [GoPath], [Md5], [Regex]: what these use of Go's
      standard library, as executable definitions.
    - The NNTP client ([internal/nntp]).  [Nntp]: lines, statuses, bodies and
      the handshake; [NntpConn]: one connection with its callers, its reader
      and [Close], stepping in any order; [NntpProps].
    - The file system ([internal/fsutil], package [os]).  [FileTree]: a tree
      of files on which every call may fail, with the retrying removal and
      the move built on it; [FileTreeProps] reasons about every pattern of
      failures.
    - What happens to a finished download.  [PostEngine]: the queue of
      post-processing and its worker; [PostJob], [PostPipeline]: the job's
      record and the run of its stages; [Finalize], [FinalizeMove]: delivery
      and what a retry finds of an interrupted one ([internal/postproc]).
      [Extract]: a tar archive extracted through a stage
      ([internal/unpack]), with [ExtractProps] and [PublishProps].
      [RarSize]: the declared sizes of RAR members ([internal/rarheader]).
    - What survives a restart.  [Durable]: the tables of files and written
      rows as statements in transactions ([internal/durability]);
      [Recorder]: facts on their way into it; [Verify]: reading them back
      from disk ([internal/app]: [record.go], [verify.go]).

    The parts meet where the code makes them meet: [Tick] and [Handlers] call
    [Sched] on the jobs of [Lifecycle]; [Dispatch] calls [Downloader], which
    calls [Tracker], [Decoder] and [Figures]; [Content] is built on
    [Progress], which is built on [Bitset], [Rows] and [Crc]; [Par2Parse] uses
    the same [Crc] the decoder does.  [Recorder] writes [Durable]; [Verify]
    reads it and the [FileTree]; [Finalize], [PostPipeline] and [Extract] act
    on the [FileTree], each stage in the order [PostPipeline.run_stages] has.

    ** How code became definitions

    A Go function that returns a value and an error returns [result]; one that
    changes state returns the new state, next to an [option] of the error,
    because Go does not roll state back.  A method that may panic returns an
    [option], and a theorem says it never does.  Machine integers are [Z] (or
    [nat] where the code only counts), with the wrap-around written out where
    it can matter: offsets of [Ranges] are [int64], checksums are [uint32]
    reduced modulo 2^32, PAR2 lengths are [uint64].  Byte strings are lists of
    integers from 0 to 255.  Maps are [gmap]; where Go's iteration order can
    be seen the model either sorts as the code does or leaves the order to an
    argument.  What a system call, the clock, a socket, the store or a library
    answers is an argument ([answers], [tick_env], [env] records); goroutines
    are the interleaving of the spans that hold a lock, as step relations in
    [RegistryProps], [RegistryWorld], [ContentSafe], [DownloaderProps],
    [NntpConn], [PostEngine] and [Recorder].  A computation on the file tree
    is a state monad over the tree and the list of faults to come, so a
    theorem stated with [wp] holds for every pattern of failing calls, one
    stated with [calm] when no call fails of itself.

    Recursion that is not structural has a measure or fuel, and a theorem that
    the fuel is enough: the packet scanner and the PAR2 parser run on the
    number of bytes left ([Par2Props.parsePar2Set_total]); stripping
    compression envelopes runs on the code's own depth limit; the regular
    expression matcher runs on the length of the text ([Regex]); the
    knapsack of [Cover] and the loops of [Crc] run on the code's own counters;
    the walks of the file tree ([Finalize.moveRecursive],
    [Extract.publish_dir]) run on the depth of the tree
    ([FinalizeProps.moveRecursive_ends] shows it enough); the size walk of
    [RarSize] runs on fuel: a RAR5 volume always ends it
    ([RarSizeProps.unpacked_size_ends]), a crafted RAR3 volume need not
    ([RarSizeProps.rar3_walk_can_loop]).

    ** What the theorems show

    - Life of a job: every reachable job is well-formed, the boundary between
      repairing and unpacking is crossed once, the pools account for every
      lease and slot and are never overcommitted by [Advance], and a job that
      can run does.
    - The dispatcher: a well-formed registry under every interleaving; a
      removal excludes workers, occupiers and later writes of the row; the
      registry refines a world in which a job is simply there or not; a tick
      leaves every row current; one worker per report; adding is all or
      nothing, removing is final, and a restart gives the queue back.
    - The article path: one fetch at a time and a bounded number of attempts
      for every article; a request always settles; the plan of a pass is
      complete; a decoded article is the posted one, and what decodes is
      sound; written bytes survive, every article is reported once, and a file
      completes exactly when its articles are settled.
    - Content: the cached counters are exact, eviction is invisible, the
      downloader is handed exactly the unfinished articles, no method panics,
      and verification completes a file.
    - The NNTP connection: every caller gets the answer to its own request,
      the pipeline never goes out of step, nobody waits for ever, and
      the handshake writes one command at a time, whatever the credentials.
    - After the download: every job pushed is answered once and the worker
      drains its queue; a failed job keeps its files, delivery keeps every
      file, and an interrupted delivery resumes where it was; an extraction
      stays in its directory whatever the archive says, and one that fails
      takes back what it added.
    - Durability: the record holds exactly what was written; no fact noted is
      lost, or recorded of a file no longer trusted; after a restart only
      bytes read back from the disk count.
    - Documents and checks: what the NZB parser returns is well-formed and it
      keeps a well-formed file; stripping envelopes undoes wrapping; a
      sanitized name is one safe path component; the PAR2 scanner finds the
      leftmost packet, always returns, returns a well-formed set and recovers
      what a writer wrote; files are matched once and on evidence, and a clean
      verdict means every protected file is there with its checksum.

    ** Not modelled, and why

    The ticker goroutine, channels between goroutines, and the wiring of
    [internal/app]: lifetimes and plumbing without decisions of their own.
    The HTTP API, the configuration's loading and defaults, the command line,
    notifications, directory scanning, history and the web interface: they
    render, parse with libraries, or pass a call on.  Dialling, TLS and
    deadlines of a connection; SQLite below the statements of [Durable]; the
    XML, compression, RAR and 7-Zip libraries; the external programs of
    unpacking and repair, whose behaviour is not in this repository.  Links
    in the file tree: a name that is not a file or a directory is [Special]
    and is never followed. *)
From stdpp Require Import base gmap sorting list strings fin_maps.
From Stdlib Require Import ZArith Lia.
Local Open Scope Z_scope.

(** ** Go results

    A Go function that returns [(T, error)] returns [Ok v] or [Err e].  A
    function that changes state and returns an error returns the new state
    next to an [option] of the error instead, because Go does not roll state
    back. *)
Inductive result (E A : Type) : Type :=
| Ok (a : A)
| Err (e : E).
Arguments Ok {E A} a.
Arguments Err {E A} e.

Definition rbind {E A B} (c : result E A) (k : A -> result E B) : result E B :=
  match c with
  | Ok a => k a
  | Err e => Err e
  end.

Declare Scope go_scope.
Delimit Scope go_scope with go.
Notation "'let?' x ':=' c 'in' k" := (rbind c (fun x => k))
  (at level 10, x pattern, c at level 100, k at level 200)
  : go_scope.

Definition is_ok {E A} (r : result E A) : bool :=
  match r with
  | Ok _ => true
  | Err _ => false
  end.

#[export] Instance result_eq_dec {E A} `{EqDecision E, EqDecision A} :
  EqDecision (result E A).
Proof. solve_decision. Defined.

Lemma rbind_Ok_inv {E A B} (c : result E A) (k : A -> result E B) (b : B) :
  rbind c k = Ok b -> exists a, c = Ok a /\ k a = Ok b.
Proof. destruct c; simpl; [eauto | discriminate]. Qed.

(** ** Machine integers

    Go's conversions and arithmetic wrap.  [wrapu w x] is [x] stored in
    [w] unsigned bits, [wraps w x] in [w] signed bits. *)
Definition wrapu (w x : Z) : Z := x mod 2 ^ w.

Definition wraps (w x : Z) : Z :=
  let r := x mod 2 ^ w in
  if decide (r < 2 ^ (w - 1)) then r else r - 2 ^ w.

Definition MaxInt64 : Z := 2 ^ 63 - 1.
Definition MinInt64 : Z := - 2 ^ 63.

Definition in_i64 (x : Z) : Prop := MinInt64 <= x <= MaxInt64.

(** A 64-bit word by its bits. *)
Lemma bits_bound x : (forall j, 64 <= j -> Z.testbit x j = false) -> 0 <= x < 2 ^ 64.
Proof.
  intros H. assert (x mod 2 ^ 64 = x) as <-; [|apply Z.mod_pos_bound; lia].
  rewrite <- Z.land_ones by lia. apply Z.bits_inj'. intros j Hj. rewrite Z.land_spec.
  destruct (decide (j < 64)); [rewrite Z.ones_spec_low by lia; apply andb_true_r|by rewrite H by lia].
Qed.

Lemma high_bits x j : 0 <= x < 2 ^ 64 -> 64 <= j -> Z.testbit x j = false.
Proof. intros Hx Hj. rewrite <- (Z.mod_small x (2 ^ 64)) by done. apply Z.mod_pow2_bits_high. lia. Qed.

Lemma wraps64_id x : in_i64 x -> wraps 64 x = x.
Proof.
  unfold in_i64, MinInt64, MaxInt64, wraps. intros H.
  change (2 ^ (64 - 1)) with 9223372036854775808.
  change (2 ^ 63) with 9223372036854775808 in H.
  change (2 ^ 64) with 18446744073709551616.
  case_decide as Hd.
  - destruct (decide (0 <= x)); [rewrite Z.mod_small in *; lia |].
    rewrite <- (Z.mod_unique x 18446744073709551616 (-1) (x + 18446744073709551616)) in Hd; lia.
  - destruct (decide (0 <= x)).
    + rewrite Z.mod_small in Hd; lia.
    + rewrite <- (Z.mod_unique x 18446744073709551616 (-1) (x + 18446744073709551616)); lia.
Qed.

Lemma wrapu_bound w x : 0 <= w -> 0 <= wrapu w x < 2 ^ w.
Proof. intros. unfold wrapu. apply Z.mod_pos_bound. lia. Qed.

Lemma wrapu_id w x : 0 <= x < 2 ^ w -> wrapu w x = x.
Proof. apply Z.mod_small. Qed.

(** ** Sums *)
Definition sumZ (l : list Z) : Z := foldr Z.add 0 l.

Lemma sumZ_app l1 l2 : sumZ (l1 ++ l2) = sumZ l1 + sumZ l2.
Proof. induction l1; simpl; lia. Qed.

Lemma sumZ_nonneg l : Forall (fun x => 0 <= x) l -> 0 <= sumZ l.
Proof. induction 1; simpl; lia. Qed.

Lemma sumZ_insert l i x y :
  l !! i = Some x -> sumZ (<[i := y]> l) = sumZ l - x + y.
Proof.
  revert i. induction l as [|a l IH]; intros [|i] H; simplify_eq/=; [lia|].
  rewrite (IH _ H). lia.
Qed.

(** [sum_range f lo n] is [f lo + f (lo+1) + ... + f (lo+n-1)]. *)
Definition sum_range (f : nat -> Z) (lo n : nat) : Z := sumZ (f <$> seq lo n).

Lemma sum_range_0 f lo : sum_range f lo 0 = 0.
Proof. done. Qed.

Lemma sum_range_S f lo n : sum_range f lo (S n) = f lo + sum_range f (S lo) n.
Proof. done. Qed.

Lemma sum_range_app f lo n m :
  sum_range f lo (n + m) = sum_range f lo n + sum_range f (lo + n) m.
Proof. unfold sum_range. by rewrite seq_app, fmap_app, sumZ_app. Qed.

Lemma sum_range_ext f g lo n :
  (forall i, (lo <= i < lo + n)%nat -> f i = g i) ->
  sum_range f lo n = sum_range g lo n.
Proof.
  revert lo. induction n as [|n IH]; intros lo H; [done|].
  rewrite !sum_range_S, (IH (S lo)); [rewrite (H lo)|intros; apply H]; lia.
Qed.

(** Changing one term changes the sum by that term's difference. *)
Lemma sum_range_change f g lo n i :
  (lo <= i < lo + n)%nat ->
  (forall k, k <> i -> f k = g k) ->
  sum_range g lo n = sum_range f lo n + (g i - f i).
Proof.
  revert lo. induction n as [|n IH]; intros lo Hi H; [lia|].
  rewrite !sum_range_S. destruct (decide (lo = i)) as [->|Hne].
  - rewrite (sum_range_ext f g (S i) n); [lia|]. intros k Hk. apply H. lia.
  - rewrite (IH (S lo)); [rewrite (H lo); [lia|done] | lia | done].
Qed.

Lemma sum_range_nonneg f lo n :
  (forall i, (lo <= i < lo + n)%nat -> 0 <= f i) -> 0 <= sum_range f lo n.
Proof.
  revert lo. induction n as [|n IH]; intros lo H; [by rewrite sum_range_0|].
  rewrite sum_range_S. specialize (IH (S lo)). pose proof (H lo). 
  assert (0 <= sum_range f (S lo) n) by (apply IH; intros; apply H; lia). lia.
Qed.

Lemma sum_range_le f g lo n :
  (forall i, (lo <= i < lo + n)%nat -> f i <= g i) ->
  sum_range f lo n <= sum_range g lo n.
Proof.
  revert lo. induction n as [|n IH]; intros lo H; [by rewrite !sum_range_0|].
  rewrite !sum_range_S. pose proof (H lo).
  assert (sum_range f (S lo) n <= sum_range g (S lo) n)
    by (apply IH; intros; apply H; lia). lia.
Qed.

(** ** Sorted lists *)
Lemma StronglySorted_lookup_lt {A} (R : relation A) l i j x y :
  StronglySorted R l -> (i < j)%nat -> l !! i = Some x -> l !! j = Some y -> R x y.
Proof.
  intros H. revert i j. induction H as [|z l H IH Hz]; intros i j Hij Hx Hy; [done|].
  destruct j as [|j]; [lia|]. destruct i as [|i]; simpl in *; simplify_eq.
  - by eapply Forall_lookup_1 in Hz.
  - apply (IH i j); [lia|done|done].
Qed.

(** ** Go's [sort.Search]

    The binary search of the standard library: the least index in [0, n) at
    which [f] holds, or [n]. *)
Fixpoint Search_loop (fuel : nat) (f : nat -> bool) (i j : nat) : nat :=
  match fuel with
  | O => i
  | S k =>
      if decide (i < j)%nat then
        let h := ((i + j) / 2)%nat in
        if negb (f h) then Search_loop k f (h + 1) j else Search_loop k f i h
      else i
  end.

Definition Search (n : nat) (f : nat -> bool) : nat := Search_loop n f 0 n.

Definition monotone_upto (n : nat) (f : nat -> bool) : Prop :=
  forall i j, (i <= j < n)%nat -> f i = true -> f j = true.

Lemma Search_loop_spec fuel f n i j :
  monotone_upto n f ->
  (j - i <= fuel)%nat -> (i <= j <= n)%nat ->
  (forall k, (k < i)%nat -> f k = false) ->
  (forall k, (j <= k < n)%nat -> f k = true) ->
  (Search_loop fuel f i j <= n)%nat /\
  (forall k, (k < Search_loop fuel f i j)%nat -> f k = false) /\
  (forall k, (Search_loop fuel f i j <= k < n)%nat -> f k = true).
Proof.
  intros Hm. revert i j. induction fuel as [|fuel IH]; intros i j Hf Hij Hlo Hhi; cbn [Search_loop].
  - assert (i = j) by lia. subst. auto with lia.
  - case_decide as Hd; [|assert (i = j) by lia; subst; auto with lia].
    assert (i <= (i + j) / 2 < j)%nat as Hh
      by (split; [apply Nat.div_le_lower_bound | apply Nat.Div0.div_lt_upper_bound]; lia).
    revert Hh. cbv zeta. generalize ((i + j) / 2)%nat as h. intros h Hh.
    destruct (f h) eqn:Ef; cbn [negb]; apply IH; try lia; try done.
    + intros k Hk. destruct (decide (j <= k)%nat); [apply Hhi; lia|].
      apply (Hm h k); [lia|exact Ef].
    + intros k Hk. destruct (f k) eqn:Ek; [|done].
      rewrite (Hm k h) in Ef; [done| |done]. lia.
Qed.

Lemma Search_spec n f :
  monotone_upto n f ->
  (Search n f <= n)%nat /\
  (forall k, (k < Search n f)%nat -> f k = false) /\
  (forall k, (Search n f <= k < n)%nat -> f k = true).
Proof. intros Hm. apply Search_loop_spec; try lia; done. Qed.

Lemma Search_unique n f r :
  monotone_upto n f -> (r <= n)%nat ->
  (forall k, (k < r)%nat -> f k = false) ->
  ((r < n)%nat -> f r = true) ->
  Search n f = r.
Proof.
  intros Hm Hr Hlo Hhi. destruct (Search_spec n f Hm) as (H1 & H2 & H3).
  destruct (lt_eq_lt_dec (Search n f) r) as [[H|H]|H]; [|done|].
  - pose proof (H3 (Search n f)) as H4. rewrite Hlo in H4 by done. by discriminate H4; lia.
  - rewrite H2 in Hhi by done. by discriminate Hhi; lia.
Qed.

(** ** Automation *)
Create HintDb gonzbd.

(** Case analysis on every test the goal or a hypothesis is stuck on. *)
Ltac go_case :=
  repeat first
    [ progress simplify_eq/=
    | case_decide
    | case_match ].

(** Case analysis on every test that [H] is stuck on; the branches in which
    [H] equates different constructors are closed. *)
Ltac case_in H :=
  repeat match type of H with
    | context [match ?x with _ => _ end] => destruct x eqn:?; try discriminate H
    end; simplify_eq/=.
