(* ===== verification/Lifecycle.v ===== *)
(** * The job lifecycle state machine ([internal/job])

    States, intents, outcomes and activities; the edge table; [Attempt] and
    its package-private mutators; the part of [Job] that [Job.mu] guards and
    its exported doors; the step relation those doors generate and the
    invariants every reachable job satisfies.  The content tier of [Job]
    ([Job.contentMu]) is in [Content]. *)
From S2P Require Import Prelude.
From stdpp Require Import base gmap list strings relations.
From Stdlib Require Import ZArith Lia.
Local Open Scope Z_scope.
Local Open Scope go_scope.

(** ** Enumerations

    Go's enumerations are [uint8]: a value no constant declares can exist, and
    [Attempt.finish] and [Job.SetIntent] test for it.  Each type carries those
    values in its last constructor. *)
Inductive State : Type :=
| StateUnset
| Fetching
| Assessing
| Repairing
| Extracting
| Finalizing
| StateUndeclared (n : Z).

Inductive Intent : Type :=
| IntentRun
| IntentPause
| IntentCancel
| IntentUndeclared (n : Z).

Inductive Outcome : Type :=
| OutcomePending
| OutcomeOK
| OutcomeFailed
| OutcomeUnrecoverable
| OutcomeCancelled
| OutcomeUndeclared (n : Z).

Inductive Activity : Type :=
| ActNone
| ActCRCCheck
| ActPar2Verify
| ActPar2Repair
| ActVolumeRecovery
| ActUnpack
| ActDeobfuscate
| ActCleanup
| ActMove
| ActScript
| ActUndeclared (n : Z).

#[export] Instance State_eq_dec : EqDecision State.
Proof. solve_decision. Defined.
#[export] Instance Intent_eq_dec : EqDecision Intent.
Proof. solve_decision. Defined.
#[export] Instance Outcome_eq_dec : EqDecision Outcome.
Proof. solve_decision. Defined.
#[export] Instance Activity_eq_dec : EqDecision Activity.
Proof. solve_decision. Defined.

Definition AllStates : list State :=
  [Fetching; Assessing; Repairing; Extracting; Finalizing].

Definition AllIntents : list Intent := [IntentRun; IntentPause; IntentCancel].

Definition AllOutcomes : list Outcome :=
  [OutcomePending; OutcomeOK; OutcomeFailed; OutcomeUnrecoverable; OutcomeCancelled].

Definition AllActivities : list Activity :=
  [ActNone; ActCRCCheck; ActPar2Verify; ActPar2Repair; ActVolumeRecovery;
   ActUnpack; ActDeobfuscate; ActCleanup; ActMove; ActScript].

(** [Intent.IsLatched]. *)
Definition IsLatched (i : Intent) : bool := bool_decide (i = IntentCancel).

(** [Outcome.IsSettled]. *)
Definition IsSettled (o : Outcome) : bool := negb (bool_decide (o = OutcomePending)).

(** ** The sentinels of [internal/job]

    [errors_Is] is Go's [errors.Is] on them: two sentinels wrap
    [ErrIllegalTransition]. *)
Inductive job_err : Type :=
| ErrIllegalTransition
| ErrCrossRequired
| ErrTransitionRequired
| errOutcomeAlreadySet
| ErrUnrecoverableAfterBoundary
| ErrInvalidOutcome
| ErrNextAlreadySet
| ErrNoOpenAttempt
| ErrBoundaryConsumed
| ErrIntentLatched
| ErrInvalidIntent
| ErrAlreadyLeased
| ErrNilLease
| ErrUnidentifiedLease
| ErrLeaseAfterBoundary.

#[export] Instance job_err_eq_dec : EqDecision job_err.
Proof. solve_decision. Defined.

Definition errors_Is (e target : job_err) : bool :=
  bool_decide (e = target)
  || match e with
     | ErrCrossRequired | ErrTransitionRequired => bool_decide (target = ErrIllegalTransition)
     | _ => false
     end.

(** ** The edge table *)
Inductive door : Type := byTransition | byCross.

Record edge : Type := mkEdge { edge_to : State; edge_door : door }.

Definition legalEdges (from : State) : list edge :=
  match from with
  | Fetching => [mkEdge Assessing byTransition]
  | Assessing =>
      [mkEdge Fetching byTransition; mkEdge Repairing byTransition; mkEdge Extracting byCross]
  | Repairing => [mkEdge Assessing byTransition]
  | Extracting => [mkEdge Finalizing byTransition]
  | Finalizing => []
  | _ => []
  end.

Definition edgeFrom (from to : State) : option edge :=
  List.find (fun e => bool_decide (edge_to e = to)) (legalEdges from).

Definition CanTransition (from to : State) : bool :=
  match edgeFrom from to with
  | Some _ => true
  | None => false
  end.

Definition IsCorrectness (s : State) : bool :=
  bool_decide (s = Fetching) || bool_decide (s = Assessing) || bool_decide (s = Repairing).

Definition IsProduction (s : State) : bool :=
  bool_decide (s = Extracting) || bool_decide (s = Finalizing).

(** [admissibleAt]: the positions at which each verdict may be recorded. *)
Definition admissibleAt (o : Outcome) : list State :=
  match o with
  | OutcomeOK => [Finalizing]
  | OutcomeFailed => [Fetching; Assessing; Repairing; Extracting; Finalizing]
  | OutcomeUnrecoverable => [Fetching; Assessing; Repairing]
  | OutcomeCancelled => [Fetching; Assessing; Repairing; Extracting; Finalizing]
  | _ => []
  end.

Definition admits (o : Outcome) (s : State) : bool := bool_decide (s ∈ admissibleAt o).

Definition inadmissible (o : Outcome) (s : State) : job_err :=
  if bool_decide (o = OutcomeUnrecoverable) then ErrUnrecoverableAfterBoundary
  else ErrInvalidOutcome.

(** ** [Attempt]

    Times are nanoseconds since Go's zero [time.Time], so 0 is [IsZero]. *)
Record Attempt : Type := mkAttempt {
  a_state : State;
  a_next : State;
  a_activity : Activity;
  a_outcome : Outcome;
  a_assessed : bool;
  a_started : Z;
  a_ended : Z
}.

#[export] Instance Attempt_eq_dec : EqDecision Attempt.
Proof. solve_decision. Defined.

Record StateView : Type := mkView {
  v_state : State;
  v_next : State;
  v_activity : Activity;
  v_outcome : Outcome;
  v_assessed : bool
}.

#[export] Instance StateView_eq_dec : EqDecision StateView.
Proof. solve_decision. Defined.

(** The zero [StateView]. *)
Definition zeroView : StateView := mkView StateUnset StateUnset ActNone OutcomePending false.

Definition newAttempt (now : Z) : Attempt :=
  mkAttempt Fetching StateUnset ActNone OutcomePending false now 0.

Definition isOpen (a : Attempt) : bool := bool_decide (a_outcome a = OutcomePending).

Definition crossed (a : Attempt) : bool := IsProduction (a_state a).

Definition view (a : Attempt) : StateView :=
  mkView (a_state a) (a_next a) (a_activity a) (a_outcome a) (a_assessed a).

Definition setNext (a : Attempt) (n : State) : result job_err Attempt :=
  if bool_decide (n = StateUnset) then Err ErrIllegalTransition
  else if negb (CanTransition (a_state a) n) then Err ErrIllegalTransition
  else if bool_decide (a_next a <> StateUnset /\ a_next a <> n) then Err ErrNextAlreadySet
  else Ok (mkAttempt (a_state a) n (a_activity a) (a_outcome a) (a_assessed a)
             (a_started a) (a_ended a)).

Definition transition (a : Attempt) (to : State) : result job_err Attempt :=
  if bool_decide (to = StateUnset) then Err ErrIllegalTransition
  else if bool_decide (a_next a <> StateUnset /\ to <> a_next a) then Err ErrIllegalTransition
  else match edgeFrom (a_state a) to with
       | None => Err ErrIllegalTransition
       | Some e =>
           match edge_door e with
           | byCross => Err ErrCrossRequired
           | byTransition =>
               Ok (mkAttempt to StateUnset ActNone (a_outcome a)
                     (if bool_decide (to = Assessing) then true else a_assessed a)
                     (a_started a) (a_ended a))
           end
       end.

Definition cross (a : Attempt) (to : State) : result job_err Attempt :=
  if bool_decide (a_next a <> StateUnset /\ a_next a <> to) then Err ErrIllegalTransition
  else match edgeFrom (a_state a) to with
       | None => Err ErrIllegalTransition
       | Some e =>
           match edge_door e with
           | byTransition => Err ErrTransitionRequired
           | byCross =>
               if bool_decide (a_next a = StateUnset) then Err ErrIllegalTransition
               else Ok (mkAttempt to StateUnset ActNone (a_outcome a) (a_assessed a)
                          (a_started a) (a_ended a))
           end
       end.

Definition setActivity (a : Attempt) (x : Activity) : Attempt :=
  mkAttempt (a_state a) (a_next a) x (a_outcome a) (a_assessed a) (a_started a) (a_ended a).

Definition finish (a : Attempt) (o : Outcome) (now : Z) : result job_err Attempt :=
  if negb (IsSettled o) then Err ErrInvalidOutcome
  else if negb (bool_decide (o ∈ AllOutcomes)) then Err ErrInvalidOutcome
  else if IsSettled (a_outcome a) then Err errOutcomeAlreadySet
  else if negb (admits o (a_state a)) then Err (inadmissible o (a_state a))
  else Ok (mkAttempt (a_state a) StateUnset ActNone o (a_assessed a) (a_started a) now).

(** ** [Job]: the fields [Job.mu] guards *)
Record Policy : Type := mkPolicy { Verify : bool; Repair : bool; Unpack : bool; Delete : bool }.

#[export] Instance Policy_eq_dec : EqDecision Policy.
Proof. solve_decision. Defined.

(** A [*Lease] is its id; [None] is the nil pointer and [LeaseUnset] is 0. *)
Notation LeaseID := Z (only parsing).
Definition LeaseUnset : LeaseID := 0.

(** [Lease.ID]. *)
Definition Lease_ID (l : option LeaseID) : LeaseID :=
  match l with
  | None => LeaseUnset
  | Some id => id
  end.

Record Job : Type := mkJob {
  j_id : string;
  j_name : string;
  j_policy : Policy;
  j_attempts : list Attempt;
  j_intent : Intent;
  j_lease : option LeaseID;
  j_created : Z
}.

Definition New (id name : string) (p : Policy) (now : Z) : Job :=
  mkJob id name p [] IntentRun None now.

Definition currentLocked (j : Job) : option Attempt := last (j_attempts j).

(** Writing through the pointer [currentLocked] returns. *)
Definition setCurrent (j : Job) (a : Attempt) : Job :=
  mkJob (j_id j) (j_name j) (j_policy j)
    (<[(length (j_attempts j) - 1)%nat := a]> (j_attempts j))
    (j_intent j) (j_lease j) (j_created j).

Definition setLease (j : Job) (l : option LeaseID) : Job :=
  mkJob (j_id j) (j_name j) (j_policy j) (j_attempts j) (j_intent j) l (j_created j).

(** [Job.State]. *)
Definition Job_State (j : Job) : StateView :=
  match currentLocked j with
  | Some a => view a
  | None => zeroView
  end.

Definition HasRun (j : Job) : bool := bool_decide (0 < length (j_attempts j))%nat.

Definition Attempts (j : Job) : nat := length (j_attempts j).

Definition BeginAttempt (j : Job) (now : Z) : result job_err Job :=
  let append :=
    Ok (mkJob (j_id j) (j_name j) (j_policy j) (j_attempts j ++ [newAttempt now])
          (j_intent j) (j_lease j) (j_created j)) in
  match currentLocked j with
  | None => append
  | Some a =>
      if isOpen a then Ok j
      else if crossed a then Err ErrBoundaryConsumed
      else append
  end.

Definition withOpenAttempt (j : Job) (fn : Attempt -> result job_err Attempt) :
    result job_err Job :=
  match currentLocked j with
  | None => Err ErrNoOpenAttempt
  | Some a =>
      if negb (isOpen a) then Err ErrNoOpenAttempt
      else let? a' := fn a in Ok (setCurrent j a')
  end.

Definition Transition (j : Job) (to : State) : result job_err Job :=
  withOpenAttempt j (fun a => transition a to).

Definition SetNext (j : Job) (n : State) : result job_err Job :=
  withOpenAttempt j (fun a => setNext a n).

Definition SetActivity (j : Job) (x : Activity) : result job_err Job :=
  withOpenAttempt j (fun a => Ok (setActivity a x)).

(** [Job.surrenderLocked] and [Job.Surrender]. *)
Definition Surrender (j : Job) : Job * option LeaseID := (setLease j None, j_lease j).

(** [Job.withOpenAttemptLease] over a mutator that then surrenders. *)
Definition withOpenAttemptLease (j : Job) (fn : Attempt -> result job_err Attempt) :
    result job_err (Job * option LeaseID) :=
  let? j' := withOpenAttempt j fn in Ok (Surrender j').

Definition Cross (j : Job) (to : State) : result job_err (Job * option LeaseID) :=
  withOpenAttemptLease j (fun a => cross a to).

Definition Finish (j : Job) (o : Outcome) (now : Z) : result job_err (Job * option LeaseID) :=
  withOpenAttemptLease j (fun a => finish a o now).

Definition SetIntent (j : Job) (i : Intent) : result job_err Job :=
  if negb (bool_decide (i ∈ AllIntents)) then Err ErrInvalidIntent
  else if IsLatched (j_intent j) && bool_decide (i <> j_intent j) then Err ErrIntentLatched
  else Ok (mkJob (j_id j) (j_name j) (j_policy j) (j_attempts j) i (j_lease j) (j_created j)).

Definition HoldsLease (j : Job) : bool := bool_decide (is_Some (j_lease j)).

Definition Grant (j : Job) (l : option LeaseID) : result job_err Job :=
  match l with
  | None => Err ErrNilLease
  | Some id =>
      if bool_decide (id = LeaseUnset) then Err ErrUnidentifiedLease
      else match currentLocked j with
           | None => Err ErrNoOpenAttempt
           | Some a =>
               if negb (isOpen a) then Err ErrNoOpenAttempt
               else if crossed a then Err ErrLeaseAfterBoundary
               else if bool_decide (is_Some (j_lease j)) then Err ErrAlreadyLeased
               else Ok (setLease j (Some id))
           end
  end.

Definition SetPolicy (j : Job) (p : Policy) : Job :=
  mkJob (j_id j) (j_name j) p (j_attempts j) (j_intent j) (j_lease j) (j_created j).

Definition SetAdded (j : Job) (t : Z) : Job :=
  mkJob (j_id j) (j_name j) (j_policy j) (j_attempts j) (j_intent j) (j_lease j) t.

(** [Snapshot] and [Job.Snapshot]. *)
Record Snapshot : Type := mkSnapshot {
  s_state : StateView;
  s_intent : Intent;
  s_holdsLease : bool;
  s_hasRun : bool
}.

Definition Job_Snapshot (j : Job) : Snapshot :=
  mkSnapshot (Job_State j) (j_intent j) (HoldsLease j) (HasRun j).

(** [Snapshot.IsOpen]. *)
Definition Snapshot_IsOpen (s : Snapshot) : bool :=
  s_hasRun s && negb (IsSettled (v_outcome (s_state s))).

(** [SetNext], [SetActivity], ... in any order: one successful call of a door
    of [Job], the only ways the fields under [Job.mu] change. *)
Inductive jstep : Job -> Job -> Prop :=
| js_begin j j' now : BeginAttempt j now = Ok j' -> jstep j j'
| js_transition j j' to : Transition j to = Ok j' -> jstep j j'
| js_setNext j j' n : SetNext j n = Ok j' -> jstep j j'
| js_setActivity j j' x : SetActivity j x = Ok j' -> jstep j j'
| js_cross j j' to l : Cross j to = Ok (j', l) -> jstep j j'
| js_finish j j' o now l : Finish j o now = Ok (j', l) -> jstep j j'
| js_setIntent j j' i : SetIntent j i = Ok j' -> jstep j j'
| js_grant j j' l : Grant j l = Ok j' -> jstep j j'
| js_surrender j : jstep j (fst (Surrender j))
| js_setPolicy j p : jstep j (SetPolicy j p)
| js_setAdded j t : jstep j (SetAdded j t).

Definition reachable (j : Job) : Prop :=
  exists id name p now, rtc jstep (New id name p now) j.

(** ** Executable runs

    [jrun] performs a list of door calls and stops at the first refusal, so a
    concrete history can be evaluated. *)
Inductive jop : Type :=
| OpBeginAttempt (now : Z)
| OpTransition (to : State)
| OpSetNext (n : State)
| OpSetActivity (x : Activity)
| OpCross (to : State)
| OpFinish (o : Outcome) (now : Z)
| OpSetIntent (i : Intent)
| OpGrant (l : option LeaseID)
| OpSurrender.

Definition japply (j : Job) (op : jop) : result job_err Job :=
  match op with
  | OpBeginAttempt now => BeginAttempt j now
  | OpTransition to => Transition j to
  | OpSetNext n => SetNext j n
  | OpSetActivity x => SetActivity j x
  | OpCross to => let? (j', _) := Cross j to in Ok j'
  | OpFinish o now => let? (j', _) := Finish j o now in Ok j'
  | OpSetIntent i => SetIntent j i
  | OpGrant l => Grant j l
  | OpSurrender => Ok (fst (Surrender j))
  end.

Fixpoint jrun (j : Job) (ops : list jop) : result job_err Job :=
  match ops with
  | [] => Ok j
  | op :: ops => let? j' := japply j op in jrun j' ops
  end.

(** The concrete history the witnesses use: fetch, assess, cross, extract and
    move to [Finalizing]. *)
Definition ex_job : Job := New "j1" "name" (mkPolicy true true true true) 1.

Definition ex_at (ops : list jop) : Job :=
  match jrun ex_job ops with
  | Ok j => j
  | Err _ => ex_job
  end.

Definition ex_to_assessing : list jop :=
  [OpBeginAttempt 2; OpGrant (Some 1); OpSetNext Assessing; OpTransition Assessing].

Definition ex_to_extracting : list jop :=
  ex_to_assessing ++ [OpSetNext Extracting; OpCross Extracting].

Definition ex_to_finalizing : list jop :=
  ex_to_extracting ++ [OpSetNext Finalizing; OpTransition Finalizing].

(** ** Well-formedness *)

(** What every attempt of a reachable job satisfies. *)
Record wf_attempt (a : Attempt) : Prop := {
  wfa_state : a_state a ∈ AllStates;
  wfa_next : a_next a = StateUnset \/ CanTransition (a_state a) (a_next a) = true;
  wfa_outcome : a_outcome a = OutcomePending \/ admits (a_outcome a) (a_state a) = true;
  wfa_settled : isOpen a = false -> a_next a = StateUnset /\ a_activity a = ActNone;
  wfa_assessed : a_state a <> Fetching -> a_assessed a = true
}.

(** Only the last attempt may be open or past the boundary, and a lease is
    held only by an open attempt in the Correctness zone. *)
Record wf_job (j : Job) : Prop := {
  wfj_attempts : Forall wf_attempt (j_attempts j);
  wfj_earlier : forall i a, j_attempts j !! i = Some a ->
    (S i < length (j_attempts j))%nat -> isOpen a = false /\ crossed a = false;
  wfj_intent : j_intent j ∈ AllIntents;
  wfj_lease : forall l, j_lease j = Some l ->
    l <> LeaseUnset /\
    exists a, currentLocked j = Some a /\ isOpen a = true /\ crossed a = false
}.

(** The reference reading of "this job has crossed the boundary". *)
Definition job_crossed (j : Job) : bool :=
  match currentLocked j with
  | Some a => crossed a
  | None => false
  end.

(** ** Lemmas *)

(** Unfold a door that returned and case on everything it tests. *)
Ltac unfold_doors :=
  unfold BeginAttempt, Transition, SetNext, SetActivity, Cross, Finish, withOpenAttemptLease,
    withOpenAttempt, SetIntent, Grant, setNext, transition, cross, finish, rbind in *.

Lemma bool_decide_neg_false (P : Prop) `{Decision P} : negb (bool_decide P) = false -> P.
Proof. rewrite negb_false_iff. apply bool_decide_eq_true_1. Qed.

(** The test "a different destination is recorded" of the three doors. *)
Lemma next_guard_false (n x y : State) :
  bool_decide (n <> StateUnset /\ x <> y) = false -> n <> StateUnset -> x = y.
Proof. rewrite bool_decide_eq_false. intros H Hn. apply dec_stable. naive_solver. Qed.

Lemma CanTransition_edge s to e : edgeFrom s to = Some e -> CanTransition s to = true.
Proof. unfold CanTransition. by intros ->. Qed.

Lemma CanTransition_cases s to :
  CanTransition s to = true ->
  (s = Fetching /\ to = Assessing) \/ (s = Assessing /\ to = Fetching) \/
  (s = Assessing /\ to = Repairing) \/ (s = Assessing /\ to = Extracting) \/
  (s = Repairing /\ to = Assessing) \/ (s = Extracting /\ to = Finalizing).
Proof. destruct s, to; simpl; try discriminate; tauto. Qed.

Lemma edgeFrom_cross s to e :
  edgeFrom s to = Some e -> edge_door e = byCross -> s = Assessing /\ to = Extracting.
Proof.
  intros H D. destruct s, to; vm_compute in H; try discriminate H; simplify_eq; try discriminate D; done.
Qed.

Lemma edgeFrom_transition s to e :
  edgeFrom s to = Some e -> edge_door e = byTransition ->
  IsProduction to = IsProduction s /\ to ∈ AllStates /\
  (to <> Fetching -> to = Assessing \/ s <> Fetching).
Proof.
  intros H D. destruct s, to; vm_compute in H; try discriminate H; simplify_eq; try discriminate D;
    (split; [done|split; [set_solver|intros; naive_solver]]).
Qed.

Lemma wf_newAttempt now : wf_attempt (newAttempt now).
Proof. split; simpl; [set_solver | by left | by left | done | done]. Qed.

(** Each mutator of [Attempt] keeps a well-formed open attempt well-formed. *)
Lemma open_outcome a : isOpen a = true -> a_outcome a = OutcomePending.
Proof. apply bool_decide_eq_true_1. Qed.

Lemma IsSettled_isOpen a : IsSettled (a_outcome a) = negb (isOpen a).
Proof. done. Qed.

Lemma wf_setNext a n a' :
  isOpen a = true -> wf_attempt a -> setNext a n = Ok a' -> wf_attempt a' /\ isOpen a' = true.
Proof.
  intros Ho [Wst Wnx Wout Wset Wass] E. unfold setNext in E. case_in E.
  split; [|done]. split; simpl; auto.
  - right. by apply negb_false_iff.
  - unfold isOpen at 1; simpl. rewrite (open_outcome _ Ho). done.
Qed.

Lemma wf_setActivity a x :
  isOpen a = true -> wf_attempt a -> wf_attempt (setActivity a x) /\ isOpen (setActivity a x) = true.
Proof.
  intros Ho [Wst Wnx Wout Wset Wass]. split; [|done]. split; simpl; auto.
  unfold isOpen at 1; simpl. rewrite (open_outcome _ Ho). done.
Qed.

Lemma wf_transition a to a' :
  isOpen a = true -> wf_attempt a -> transition a to = Ok a' ->
  wf_attempt a' /\ isOpen a' = true /\ crossed a' = crossed a.
Proof.
  intros Ho [Wst Wnx Wout Wset Wass] E. unfold transition in E. case_in E.
  all: match goal with E : edgeFrom _ _ = Some _, D : edge_door _ = _ |- _ =>
    destruct (edgeFrom_transition _ _ _ E D) as (Hp & Hs & Hf) end.
  all: split; [|done]; split; simpl; auto; try (left; by apply open_outcome); try done.
  all: intros Hne; destruct (Hf Hne) as [->|Hf']; [done|auto].
Qed.

Lemma wf_cross a to a' :
  isOpen a = true -> wf_attempt a -> cross a to = Ok a' ->
  wf_attempt a' /\ isOpen a' = true /\ crossed a' = true /\
  a_state a = Assessing /\ a_next a = Extracting /\ a_state a' = Extracting.
Proof.
  intros Ho [Wst Wnx Wout Wset Wass] E. unfold cross in E. case_in E.
  match goal with E : edgeFrom _ _ = Some _, D : edge_door _ = _ |- _ =>
    destruct (edgeFrom_cross _ _ _ E D) as (Hs & ->) end.
  rewrite !bool_decide_eq_false in *.
  split_and!; try done.
  - split; simpl; auto; try (left; by apply open_outcome); [set_solver|].
    intros _. apply Wass. by rewrite Hs.
  - destruct (decide (a_next a = Extracting)); [done|]. naive_solver.
Qed.

Lemma wf_finish a o now a' :
  isOpen a = true -> wf_attempt a -> finish a o now = Ok a' ->
  wf_attempt a' /\ isOpen a' = false /\ a_state a' = a_state a /\ a_outcome a' = o.
Proof.
  intros Ho [Wst Wnx Wout Wset Wass] E. unfold finish in E. case_in E.
  rewrite !negb_false_iff in *. split_and!; try done.
  - split; simpl; auto.
  - by apply negb_true_iff.
Qed.

(** A job reached through [withOpenAttempt] differs in its open attempt only. *)
Lemma withOpenAttempt_inv j fn j' :
  withOpenAttempt j fn = Ok j' ->
  exists a a', currentLocked j = Some a /\ isOpen a = true /\ fn a = Ok a' /\
    j' = setCurrent j a'.
Proof.
  unfold withOpenAttempt. destruct (currentLocked j) as [a|] eqn:E; [|done].
  destruct (isOpen a) eqn:Ho; simpl; [|done].
  destruct (fn a) as [a'|] eqn:Ef; simpl; [|done]. intros; simplify_eq. eauto 10.
Qed.

Lemma withOpenAttemptLease_inv j fn j' l :
  withOpenAttemptLease j fn = Ok (j', l) ->
  exists a a', currentLocked j = Some a /\ isOpen a = true /\ fn a = Ok a' /\
    j' = setLease (setCurrent j a') None /\ l = j_lease j.
Proof.
  unfold withOpenAttemptLease. intros H. apply rbind_Ok_inv in H as (j1 & H & ?).
  apply withOpenAttempt_inv in H as (a & a' & ? & ? & ? & ->). simplify_eq. eauto 10.
Qed.

Lemma last_insert_last {A} (l : list A) x y :
  last l = Some x -> last (<[(length l - 1)%nat := y]> l) = Some y.
Proof.
  intros H. apply last_Some in H as [l' ->]. rewrite length_app; simpl.
  replace (length l' + 1 - 1)%nat with (length l' + 0)%nat by lia.
  rewrite insert_app_r. simpl. by rewrite last_snoc.
Qed.

Lemma currentLocked_setCurrent j a a' :
  currentLocked j = Some a -> currentLocked (setCurrent j a') = Some a'.
Proof. apply last_insert_last. Qed.

Lemma currentLocked_lookup j a :
  currentLocked j = Some a -> j_attempts j !! (length (j_attempts j) - 1)%nat = Some a.
Proof.
  unfold currentLocked. intros H. rewrite last_lookup in H. rewrite <- H. f_equal. lia.
Qed.

Lemma currentLocked_None j : currentLocked j = None <-> j_attempts j = [].
Proof. apply last_None. Qed.

(** Replacing the current attempt by a well-formed one. *)
Lemma wf_setCurrent j a a' :
  wf_job j -> currentLocked j = Some a -> wf_attempt a' ->
  (is_Some (j_lease j) -> isOpen a' = true /\ crossed a' = false) ->
  wf_job (setCurrent j a').
Proof.
  intros [Watt Wear Wint Wlea] Hc Ha Hl. split; simpl; auto.
  - by apply Forall_insert.
  - intros i b. rewrite length_insert. intros Hi Hlt.
    rewrite list_lookup_insert_ne in Hi by lia. eauto.
  - intros l Hjl. destruct (Wlea _ Hjl) as [? _]. split; [done|].
    exists a'. split; [by eapply currentLocked_setCurrent|]. apply Hl. eauto.
Qed.

Lemma wf_setLease_None j : wf_job j -> wf_job (setLease j None).
Proof. intros [Watt Wear Wint Wlea]. by split. Qed.

Lemma wf_current j a : wf_job j -> currentLocked j = Some a -> wf_attempt a.
Proof.
  intros [Watt _ _ _] Hc. apply currentLocked_lookup in Hc.
  by eapply Forall_lookup_1 in Watt.
Qed.

Lemma wf_New id name p now : wf_job (New id name p now).
Proof. split; simpl; [done|done|set_solver|done]. Qed.

Lemma wf_BeginAttempt j now j' : wf_job j -> BeginAttempt j now = Ok j' -> wf_job j'.
Proof.
  intros Hwf E. unfold BeginAttempt in E.
  destruct (currentLocked j) as [a|] eqn:Hc.
  - destruct (isOpen a) eqn:Ho; simplify_eq/=; [done|].
    destruct (crossed a) eqn:Hx; simplify_eq/=. destruct Hwf as [Watt Wear Wint Wlea]. split; simpl; auto.
    + apply Forall_app; split; [done|]. constructor; [apply wf_newAttempt|done].
    + intros i b Hi. rewrite length_app; simpl. intros Hlt.
      rewrite lookup_app_l in Hi by lia.
      destruct (decide (S i < length (j_attempts j))%nat); [eauto|].
      apply currentLocked_lookup in Hc. replace (length (j_attempts j) - 1)%nat with i in Hc by lia.
      simplify_eq. done.
    + intros l Hl. destruct (Wlea _ Hl) as (_ & a1 & Ha1 & Ho1 & _).
      unfold currentLocked in *. simplify_eq. congruence.
  - simplify_eq. pose proof Hc as Hnil. apply currentLocked_None in Hnil.
    destruct Hwf as [Watt Wear Wint Wlea].
    split; simpl; auto.
    + rewrite Hnil. constructor; [apply wf_newAttempt|done].
    + rewrite Hnil. intros [|i] b; simpl; [lia|done].
    + intros l Hl. destruct (Wlea _ Hl) as (_ & a1 & Ha1 & _). congruence.
Qed.

Lemma wf_Grant j l j' : wf_job j -> Grant j l = Ok j' -> wf_job j'.
Proof.
  intros [Watt Wear Wint Wlea] E. unfold Grant in E. case_in E.
  split; simpl; auto. intros l' ?; simplify_eq.
  rewrite !bool_decide_eq_false, ?negb_false_iff in *. split; [done|]. eauto.
Qed.

Lemma wf_jstep j j' : wf_job j -> jstep j j' -> wf_job j'.
Proof.
  intros Hwf Hs. destruct Hs as [j j' now E|j j' to E|j j' n E|j j' x E|j j' to l E|j j' o now l E
    |j j' i E|j j' l E|j|j p|j t].
  - by eapply wf_BeginAttempt.
  - apply withOpenAttempt_inv in E as (a & a' & Hc & Ho & E & ->).
    apply wf_transition in E as (? & ? & ?); [|done|by eapply wf_current].
    eapply wf_setCurrent; eauto. intros [l Hl].
    destruct (wfj_lease _ Hwf l Hl) as (_ & b & ? & ? & ?). split; congruence.
  - apply withOpenAttempt_inv in E as (a & a' & Hc & Ho & E & ->).
    pose proof E as E2. apply wf_setNext in E as (? & ?); [|done|by eapply wf_current].
    eapply wf_setCurrent; eauto. intros [l Hl].
    destruct (wfj_lease _ Hwf l Hl) as (_ & b & ? & ? & ?). split; [done|].
    unfold setNext in E2; case_in E2; unfold crossed in *; simpl; congruence.
  - apply withOpenAttempt_inv in E as (a & a' & Hc & Ho & E & ->). simplify_eq.
    destruct (wf_setActivity a x); [done|by eapply wf_current|].
    eapply wf_setCurrent; eauto. intros [l Hl].
    destruct (wfj_lease _ Hwf l Hl) as (_ & b & ? & ? & ?). split; [done|]. unfold crossed in *; simpl; congruence.
  - apply withOpenAttemptLease_inv in E as (a & a' & Hc & Ho & E & -> & ->).
    apply wf_cross in E as (? & ? & ? & _); [|done|by eapply wf_current].
    change (wf_job (setCurrent (setLease j None) a')).
    eapply wf_setCurrent; eauto using wf_setLease_None. by intros [? ?].
  - apply withOpenAttemptLease_inv in E as (a & a' & Hc & Ho & E & -> & ->).
    apply wf_finish in E as (? & ? & _); [|done|by eapply wf_current].
    change (wf_job (setCurrent (setLease j None) a')).
    eapply wf_setCurrent; eauto using wf_setLease_None. by intros [? ?].
  - unfold SetIntent in E. case_in E. destruct Hwf. split; simpl; auto.
    eapply bool_decide_neg_false; eassumption.
  - by eapply wf_Grant.
  - by apply wf_setLease_None.
  - destruct Hwf; by split.
  - destruct Hwf; by split.
Qed.

Lemma wf_jsteps j j' : wf_job j -> rtc jstep j j' -> wf_job j'.
Proof. intros Hwf. induction 1; eauto using wf_jstep. Qed.

Lemma wf_reachable j : reachable j -> wf_job j.
Proof. intros (? & ? & ? & ? & H). eauto using wf_jsteps, wf_New. Qed.

(** Settled attempts sit below the open one, which is the last. *)
Lemma setCurrent_lookup j a a' i b :
  currentLocked j = Some a -> isOpen a = true -> isOpen b = false ->
  j_attempts j !! i = Some b -> j_attempts (setCurrent j a') !! i = Some b.
Proof.
  intros Hc Ho Hb Hi. simpl. rewrite list_lookup_insert_ne; [done|]. intros <-.
  apply currentLocked_lookup in Hc. congruence.
Qed.

Lemma withOpenAttempt_settled j fn j' i b :
  withOpenAttempt j fn = Ok j' -> isOpen b = false ->
  j_attempts j !! i = Some b -> j_attempts j' !! i = Some b.
Proof.
  intros E. apply withOpenAttempt_inv in E as (a & a' & Hc & Ho & E & ->).
  by eapply setCurrent_lookup.
Qed.

Lemma withOpenAttemptLease_settled j fn j' l i b :
  withOpenAttemptLease j fn = Ok (j', l) -> isOpen b = false ->
  j_attempts j !! i = Some b -> j_attempts j' !! i = Some b.
Proof.
  intros E. apply withOpenAttemptLease_inv in E as (a & a' & Hc & Ho & E & -> & ->).
  by eapply (setCurrent_lookup j).
Qed.

Lemma jstep_settled j j' i b :
  jstep j j' -> isOpen b = false ->
  j_attempts j !! i = Some b -> j_attempts j' !! i = Some b.
Proof.
  intros Hs Hb Hi.
  destruct Hs; eauto using withOpenAttempt_settled, withOpenAttemptLease_settled;
    unfold_doors; repeat case_match; simplify_eq/=; try done; by apply lookup_app_l_Some.
Qed.

(** What one step does to a crossed job. *)
Lemma jstep_crossed j j' :
  wf_job j -> jstep j j' -> job_crossed j = true ->
  job_crossed j' = true /\ Attempts j' = Attempts j.
Proof.
  unfold job_crossed. intros Hwf Hs. destruct (currentLocked j) as [a|] eqn:Hc; [|done].
  pose proof (wf_current _ _ Hwf Hc) as Ha. intros Hx.
  assert (Hset : forall a', crossed a' = true ->
    match currentLocked (setCurrent j a') with Some a => crossed a | None => false end = true /\
    Attempts (setCurrent j a') = Attempts j).
  { intros a' ?. erewrite currentLocked_setCurrent by done. split; [done|].
    unfold Attempts; simpl. apply length_insert. }
  destruct Hs as [j j' now E|j j' to E|j j' n E|j j' x E|j j' to l E|j j' o now l E
    |j j' i E|j j' l E|j|j p|j t].
  - unfold BeginAttempt in E. rewrite Hc, Hx in E. destruct (isOpen a); simplify_eq. by rewrite Hc.
  - apply withOpenAttempt_inv in E as (b & a' & ? & Ho & E & ->). simplify_eq.
    apply Hset. apply wf_transition in E as (? & ? & ->); done.
  - apply withOpenAttempt_inv in E as (b & a' & ? & Ho & E & ->). simplify_eq.
    apply Hset. unfold setNext in E; case_in E; done.
  - apply withOpenAttempt_inv in E as (b & a' & ? & Ho & E & ->). simplify_eq. by apply Hset.
  - apply withOpenAttemptLease_inv in E as (b & a' & ? & Ho & E & -> & ->). simplify_eq.
    apply wf_cross in E as (? & ? & ? & _); [by apply Hset|done..].
  - apply withOpenAttemptLease_inv in E as (b & a' & ? & Ho & E & -> & ->). simplify_eq.
    apply Hset. apply wf_finish in E as (? & ? & Hs & _); [|done..]. unfold crossed. by rewrite Hs.
  - unfold SetIntent in E. case_in E. unfold currentLocked in *; simpl in *. by rewrite Hc.
  - unfold Grant in E. case_in E; congruence.
  - unfold currentLocked in *; simpl in *. by rewrite Hc.
  - unfold currentLocked in *; simpl in *. by rewrite Hc.
  - unfold currentLocked in *; simpl in *. by rewrite Hc.
Qed.

Lemma jstep_intent j j' : jstep j j' -> j_intent j = IntentCancel -> j_intent j' = IntentCancel.
Proof.
  intros Hs Hi. destruct Hs; try done.
  all: try (by unfold_doors; repeat case_match; simplify_eq/=).
  - unfold SetIntent, IsLatched in *. repeat case_match; simplify_eq/=.
    rewrite Hi in *. rewrite bool_decide_eq_true_2 in * by done. simpl in *.
    by match goal with H : bool_decide _ = false |- _ =>
      apply bool_decide_eq_false, dec_stable in H end.
Qed.

Lemma japply_jstep j op j' : japply j op = Ok j' -> jstep j j'.
Proof.
  destruct op; simpl; eauto using jstep.
  - intros H. apply rbind_Ok_inv in H as ([j1 l] & ? & ?). simplify_eq. eauto using jstep.
  - intros H. apply rbind_Ok_inv in H as ([j1 l] & ? & ?). simplify_eq. eauto using jstep.
  - intros; simplify_eq. apply js_surrender.
Qed.

Lemma jrun_rtc j ops j' : jrun j ops = Ok j' -> rtc jstep j j'.
Proof.
  revert j. induction ops as [|op ops IH]; simpl; intros j H; [by simplify_eq|].
  apply rbind_Ok_inv in H as (j1 & H1 & H2). eapply rtc_l; eauto using japply_jstep.
Qed.

Lemma jrun_reachable id name p now ops j :
  jrun (New id name p now) ops = Ok j -> reachable j.
Proof. intros H. exists id, name, p, now. by eapply jrun_rtc. Qed.

(** ** Properties *)

(** C1: every job reachable from [New] through the doors of [Job] is
    well-formed: its positions are declared states, a recorded [next] is a
    legal edge, a verdict is admissible where it was recorded, every attempt
    but the last is settled on the near side of the boundary, and a lease is
    held only by an open attempt in the Correctness zone. *)
Theorem reachable_well_formed j : reachable j -> wf_job j.
Proof. apply wf_reachable. Qed.

(** C2: the Correctness/Production boundary is one-way.  Once a reachable job
    has crossed, no sequence of door calls takes it back: it stays in
    Production, gains no attempt, holds no lease, and [BeginAttempt] either
    finds the attempt open or refuses with [ErrBoundaryConsumed]. *)
Theorem boundary_one_way j j' now :
  reachable j -> job_crossed j = true -> rtc jstep j j' ->
  job_crossed j' = true /\ Attempts j' = Attempts j /\ j_lease j' = None /\
  (BeginAttempt j' now = Ok j' \/ BeginAttempt j' now = Err ErrBoundaryConsumed).
Proof.
  intros Hr Hx Hs. apply wf_reachable in Hr.
  assert (wf_job j' /\ job_crossed j' = true /\ Attempts j' = Attempts j) as (Hwf & Hx' & Hn).
  { induction Hs as [|j j1 j2 H12 Hs IH]; [done|].
    destruct (jstep_crossed _ _ Hr H12 Hx) as [H1 H2].
    destruct IH as (? & ? & ?); eauto using wf_jstep. split_and!; [done..|congruence]. }
  split_and!; [done..| |].
  - destruct (j_lease j') as [l|] eqn:Hl; [|done].
    destruct (wfj_lease _ Hwf l Hl) as (_ & a & Ha & _ & Hc).
    unfold job_crossed in Hx'. by rewrite Ha, Hc in Hx'.
  - unfold BeginAttempt, job_crossed in *. destruct (currentLocked j') as [a|]; [|done].
    rewrite Hx'. destruct (isOpen a); auto.
Qed.

(** a verdict is write-once and history is append-only.  A settled attempt
    is never changed, moved or removed by any sequence of door calls. *)
Theorem settled_attempts_are_final j j' i a :
  rtc jstep j j' -> j_attempts j !! i = Some a -> isOpen a = false ->
  j_attempts j' !! i = Some a.
Proof. induction 1; eauto using jstep_settled. Qed.

(** cancel is latched.  Once a job's intent is [IntentCancel] no sequence
    of door calls replaces it. *)
Theorem cancel_is_latched j j' :
  rtc jstep j j' -> j_intent j = IntentCancel -> j_intent j' = IntentCancel.
Proof. induction 1; eauto using jstep_intent. Qed.

(** a recorded verdict cannot be skipped.  Once an open attempt has
    recorded where it continues to, one door call leaves that destination
    recorded at the same position, takes exactly that move, or settles the
    attempt where it stands. *)
Theorem recorded_next_is_obeyed j j' a :
  jstep j j' -> currentLocked j = Some a -> isOpen a = true -> a_next a <> StateUnset ->
  exists a', currentLocked j' = Some a' /\
    ((isOpen a' = true /\ a_state a' = a_state a /\ a_next a' = a_next a) \/
     (isOpen a' = true /\ a_state a' = a_next a /\ a_next a' = StateUnset) \/
     (isOpen a' = false /\ a_state a' = a_state a /\ a_next a' = StateUnset)).
Proof.
  intros Hs Hc Ho Hn.
  assert (Hset : forall a' (P : Attempt -> Prop), P a' ->
    exists b, currentLocked (setCurrent j a') = Some b /\ P b).
  { intros a' P ?. exists a'. split; [by eapply currentLocked_setCurrent|done]. }
  destruct Hs as [j j' now E|j j' to E|j j' n E|j j' x E|j j' to l E|j j' o now l E
    |j j' i E|j j' l E|j|j p|j t].
  - unfold BeginAttempt in E. rewrite Hc, Ho in E. simplify_eq. eauto 10.
  - apply withOpenAttempt_inv in E as (b & a' & ? & _ & E & ->). simplify_eq.
    apply Hset. unfold transition in E; case_in E.
    all: right; left; split_and!; [done|by eapply next_guard_false|done].
  - apply withOpenAttempt_inv in E as (b & a' & ? & _ & E & ->). simplify_eq.
    apply Hset. unfold setNext in E; case_in E.
    left. split_and!; [done..|]. symmetry. by eapply next_guard_false.
  - apply withOpenAttempt_inv in E as (b & a' & ? & _ & E & ->). simplify_eq.
    apply Hset. by left.
  - apply withOpenAttemptLease_inv in E as (b & a' & ? & _ & E & -> & ->). simplify_eq.
    apply Hset. unfold cross in E; case_in E.
    right; left. split_and!; [done|symmetry; by eapply next_guard_false|done].
  - apply withOpenAttemptLease_inv in E as (b & a' & ? & _ & E & -> & ->). simplify_eq.
    apply Hset. unfold finish in E; case_in E. right; right.
    split_and!; [|done..]. unfold isOpen; simpl. by apply negb_true_iff, negb_false_iff.
  - unfold SetIntent in E. case_in E. eauto 10.
  - unfold Grant in E. case_in E; eauto 10.
  - simpl. eauto 10.
  - simpl. eauto 10.
  - simpl. eauto 10.
Qed.

(** what [Finish] does on every branch.  With no open attempt it refuses
    with [ErrNoOpenAttempt]; with one it records the verdict exactly when the
    verdict is admissible at the attempt's position, yielding the lease and
    clearing [next] and [activity]; otherwise [Unrecoverable] past the boundary
    is [ErrUnrecoverableAfterBoundary] and every other refusal is
    [ErrInvalidOutcome].  The write-once sentinel is never returned here. *)
Theorem Finish_spec j o now :
  Finish j o now =
    match currentLocked j with
    | Some a =>
        if isOpen a then
          if admits o (a_state a) then
            Ok (setLease (setCurrent j (mkAttempt (a_state a) StateUnset ActNone o
                  (a_assessed a) (a_started a) now)) None, j_lease j)
          else Err (if bool_decide (o = OutcomeUnrecoverable)
                    then ErrUnrecoverableAfterBoundary else ErrInvalidOutcome)
        else Err ErrNoOpenAttempt
    | None => Err ErrNoOpenAttempt
    end.
Proof.
  unfold Finish, withOpenAttemptLease, withOpenAttempt.
  destruct (currentLocked j) as [a|]; [|done]. destruct (isOpen a) eqn:Ho; [|done].
  cbn [negb rbind]. unfold finish. rewrite IsSettled_isOpen, Ho.
  destruct o; simpl; try done; destruct (admits _ _) eqn:E; simpl; try done.
Qed.

(** the one door across the boundary.  On a reachable job [Cross] succeeds
    exactly for an open attempt at [Assessing] whose recorded verdict is
    [Extracting], and then it moves the attempt, clears the verdict and yields
    the lease in the same call; [Transition] never takes that edge. *)
Theorem Cross_spec j to j' l :
  reachable j ->
  Cross j to = Ok (j', l) <->
  exists a, currentLocked j = Some a /\ isOpen a = true /\ a_state a = Assessing /\
    a_next a = Extracting /\ to = Extracting /\ l = j_lease j /\
    j' = setLease (setCurrent j (mkAttempt Extracting StateUnset ActNone (a_outcome a)
           (a_assessed a) (a_started a) (a_ended a))) None /\
    Transition j to = Err ErrCrossRequired.
Proof.
  intros Hr. apply wf_reachable in Hr. split.
  - intros E. apply withOpenAttemptLease_inv in E as (a & a' & Hc & Ho & E & -> & ->).
    pose proof E as E'. apply wf_cross in E' as (_ & _ & _ & Hs & Hn & Hs'); [|done|by eapply wf_current].
    assert (to = Extracting) as ->.
    { unfold cross in E; case_in E; done. }
    exists a. split_and!; try done.
    + unfold cross in E. rewrite Hs, Hn in E. simpl in E. by simplify_eq.
    + unfold Transition, withOpenAttempt. rewrite Hc, Ho. simpl.
      unfold transition. rewrite Hs, Hn. done.
  - intros (a & Hc & Ho & Hs & Hn & -> & -> & -> & _).
    unfold Cross, withOpenAttemptLease, withOpenAttempt. rewrite Hc, Ho. simpl.
    unfold cross. rewrite Hs, Hn. done.
Qed.

(** ** Witnesses *)
Lemma reachable_well_formed_witness : wf_job (ex_at ex_to_extracting).
Proof.
  apply reachable_well_formed. apply (jrun_reachable "j1" "name" (mkPolicy true true true true) 1
    ex_to_extracting). reflexivity.
Defined.

Lemma boundary_one_way_witness :
  job_crossed (ex_at ex_to_extracting) = true /\
  job_crossed (ex_at ex_to_finalizing) = true /\ Attempts (ex_at ex_to_finalizing) = 1%nat.
Proof.
  split; [reflexivity|].
  destruct (boundary_one_way (ex_at ex_to_extracting) (ex_at ex_to_finalizing) 9) as (H1 & H2 & _).
  - apply (jrun_reachable "j1" "name" (mkPolicy true true true true) 1 ex_to_extracting). reflexivity.
  - reflexivity.
  - apply (jrun_rtc _ [OpSetNext Finalizing; OpTransition Finalizing]). reflexivity.
  - split; [exact H1|exact H2].
Defined.

Lemma settled_attempts_are_final_witness :
  exists a, isOpen a = false /\
    j_attempts (ex_at [OpBeginAttempt 2; OpFinish OutcomeFailed 3; OpBeginAttempt 4]) !! 0%nat = Some a.
Proof.
  exists (mkAttempt Fetching StateUnset ActNone OutcomeFailed false 2 3). split; [reflexivity|].
  apply (settled_attempts_are_final (ex_at [OpBeginAttempt 2; OpFinish OutcomeFailed 3])).
  - apply (jrun_rtc _ [OpBeginAttempt 4]). reflexivity.
  - reflexivity.
  - reflexivity.
Defined.

Lemma cancel_is_latched_witness :
  j_intent (ex_at [OpSetIntent IntentCancel; OpBeginAttempt 2]) = IntentCancel.
Proof.
  apply (cancel_is_latched (ex_at [OpSetIntent IntentCancel])).
  - apply (jrun_rtc _ [OpBeginAttempt 2]). reflexivity.
  - reflexivity.
Defined.

Lemma recorded_next_is_obeyed_witness :
  exists a', currentLocked (ex_at ex_to_extracting) = Some a' /\
    ((isOpen a' = true /\ a_state a' = Assessing /\ a_next a' = Extracting) \/
     (isOpen a' = true /\ a_state a' = Extracting /\ a_next a' = StateUnset) \/
     (isOpen a' = false /\ a_state a' = Assessing /\ a_next a' = StateUnset)).
Proof.
  apply (recorded_next_is_obeyed (ex_at (ex_to_assessing ++ [OpSetNext Extracting]))
    _ (mkAttempt Assessing Extracting ActNone OutcomePending true 2 0)).
  - apply (japply_jstep _ (OpCross Extracting)). reflexivity.
  - reflexivity.
  - reflexivity.
  - discriminate.
Defined.

Lemma Cross_spec_witness :
  Cross (ex_at (ex_to_assessing ++ [OpSetNext Extracting])) Extracting
    = Ok (ex_at ex_to_extracting, Some 1).
Proof.
  apply (Cross_spec (ex_at (ex_to_assessing ++ [OpSetNext Extracting]))).
  - apply (jrun_reachable "j1" "name" (mkPolicy true true true true) 1
      (ex_to_assessing ++ [OpSetNext Extracting])). reflexivity.
  - exists (mkAttempt Assessing Extracting ActNone OutcomePending true 2 0).
    repeat split; reflexivity.
Defined.
