(* ===== verification/Sched.v ===== *)
(** * Scheduling decisions ([internal/sched])

    The two resource pools, the [Queue] and its exported doors, each as a
    function of the queue and the one job the call is about.  [World] puts the
    queue and every job it has been handed together; its steps are the doors
    in any order. *)
From S2P Require Import Prelude Lifecycle.
From stdpp Require Import base gmap list strings relations.
From Stdlib Require Import ZArith Lia.
Local Open Scope Z_scope.
Local Open Scope go_scope.

(** ** Errors: the sentinels of [internal/sched], a refusal of [internal/job]
    passed through, and [errors.Join]. *)
Inductive sched_err : Type :=
| ErrNotSettled
| ErrCancelReserved
| ErrNotOutstanding
| ErrJob (e : job_err)
| ErrJoin (e1 e2 : sched_err).

#[export] Instance sched_err_eq_dec : EqDecision sched_err.
Proof. solve_decision. Defined.

(** ** Pools

    A Go map whose values are all [true] is the set of its keys. *)
Record leasePool : Type := mkLeasePool {
  lp_capacity : Z;
  lp_next : LeaseID;
  lp_issued : gset LeaseID
}.

Definition newLeasePool (capacity : Z) : leasePool := mkLeasePool capacity 0 ∅.

(** [leasePool.issue]: [next] is a [uint64]. *)
Definition issue (p : leasePool) : leasePool * option LeaseID :=
  if decide (lp_capacity p <= Z.of_nat (size (lp_issued p))) then (p, None)
  else
    let id := wrapu 64 (lp_next p + 1) in
    (mkLeasePool (lp_capacity p) id ({[id]} ∪ lp_issued p), Some id).

(** [leasePool.reclaim]. *)
Definition pool_reclaim (p : leasePool) (l : option LeaseID) : leasePool * option sched_err :=
  match l with
  | None => (p, None)
  | Some id =>
      if decide (id ∈ lp_issued p)
      then (mkLeasePool (lp_capacity p) (lp_next p) (lp_issued p ∖ {[id]}), None)
      else (p, Some ErrNotOutstanding)
  end.

(** [leasePool.outstanding]. *)
Definition outstanding (p : leasePool) : nat := size (lp_issued p).

(** [leasePool.setCapacity]. *)
Definition lease_setCapacity (p : leasePool) (c : Z) : leasePool :=
  mkLeasePool (if decide (c < 1) then 1 else c) (lp_next p) (lp_issued p).

Record slotPool : Type := mkSlotPool {
  sp_capacity : Z;
  sp_held : gset string
}.

Definition newSlotPool (capacity : Z) : slotPool := mkSlotPool capacity ∅.

(** [slotPool.acquire]. *)
Definition acquire (p : slotPool) (id : string) : slotPool * bool :=
  if decide (id ∈ sp_held p) then (p, true)
  else if decide (sp_capacity p <= Z.of_nat (size (sp_held p))) then (p, false)
  else (mkSlotPool (sp_capacity p) ({[id]} ∪ sp_held p), true).

(** [slotPool.release]. *)
Definition release (p : slotPool) (id : string) : slotPool :=
  mkSlotPool (sp_capacity p) (sp_held p ∖ {[id]}).

(** [slotPool.holds]. *)
Definition slot_holds (p : slotPool) (id : string) : bool := bool_decide (id ∈ sp_held p).

(** [slotPool.setCapacity]. *)
Definition slot_setCapacity (p : slotPool) (c : Z) : slotPool :=
  mkSlotPool (if decide (c < 1) then 1 else c) (sp_held p).

(** ** Requirements *)
Definition needsLease (s : State) : bool :=
  bool_decide (s = Fetching) || bool_decide (s = Assessing) || bool_decide (s = Repairing).

Definition needsSlot (s : State) : bool :=
  bool_decide (s = Assessing) || bool_decide (s = Repairing)
  || bool_decide (s = Extracting) || bool_decide (s = Finalizing).

(** ** [Queue] and its predicates *)
Record Queue : Type := mkQueue {
  q_paused : bool;
  q_leases : leasePool;
  q_slots : slotPool
}.

(** [sched.New]; the clock is an argument of each door that reads it. *)
Definition New (leaseCap slotCap : Z) : Queue :=
  mkQueue false (newLeasePool leaseCap) (newSlotPool slotCap).

Definition setPaused (q : Queue) (b : bool) : Queue := mkQueue b (q_leases q) (q_slots q).
Definition setLeases (q : Queue) (p : leasePool) : Queue := mkQueue (q_paused q) p (q_slots q).
Definition setSlots (q : Queue) (p : slotPool) : Queue := mkQueue (q_paused q) (q_leases q) p.

Definition Pause (q : Queue) : Queue := setPaused q true.
Definition Resume (q : Queue) : Queue := setPaused q false.

Definition SetCaps (q : Queue) (leaseCap slotCap : Z) : Queue :=
  mkQueue (q_paused q) (lease_setCapacity (q_leases q) leaseCap)
    (slot_setCapacity (q_slots q) slotCap).

Inductive WaitReason : Type := NoLease | NoComputeSlot | UserPaused | GlobalPause.

#[export] Instance WaitReason_eq_dec : EqDecision WaitReason.
Proof. solve_decision. Defined.

(** [WaitReason.IsPause]. *)
Definition IsPause (r : WaitReason) : bool :=
  bool_decide (r = UserPaused) || bool_decide (r = GlobalPause).

(** [Queue.holds]. *)
Definition holds (q : Queue) (id : string) (s : Snapshot) : bool :=
  let pos := v_state (s_state s) in
  if bool_decide (pos = StateUnset) then false
  else if needsLease pos && negb (s_holdsLease s) then false
  else if needsSlot pos && negb (slot_holds (q_slots q) id) then false
  else true.

(** [Queue.running]. *)
Definition running (q : Queue) (id : string) (s : Snapshot) : bool :=
  Snapshot_IsOpen s && bool_decide (v_next (s_state s) = StateUnset) && holds q id s.

(** [Queue.gatedBy]: [None] is [(0, false)]. *)
Definition gatedBy (q : Queue) (s : Snapshot) : option WaitReason :=
  if bool_decide (s_intent s = IntentPause) then Some UserPaused
  else if q_paused q then Some GlobalPause
  else None.

(** [Queue.waitReason]: [None] is [(0, false)]. *)
Definition waitReason (q : Queue) (id : string) (s : Snapshot) : option WaitReason :=
  if IsSettled (v_outcome (s_state s)) then None
  else if running q id s then None
  else match gatedBy q s with
       | Some r => Some r
       | None =>
           if bool_decide (v_state (s_state s) = StateUnset) then Some NoLease
           else
             let want := if bool_decide (v_next (s_state s) <> StateUnset)
                         then v_next (s_state s) else v_state (s_state s) in
             if needsLease want && negb (s_holdsLease s) then Some NoLease
             else if needsSlot want && negb (slot_holds (q_slots q) id) then Some NoComputeSlot
             else None
       end.

(** ** Doors

    A door runs under [Queue.mu] on one job.  It threads the queue, that job
    and whether [Workers.Abort] was called for it. *)
Record St : Type := mkSt { st_q : Queue; st_j : Job; st_abort : bool }.

Definition QM (A : Type) : Type := St -> A * St.

Definition qret {A} (a : A) : QM A := fun st => (a, st).

Definition qbind {A B} (m : QM A) (k : A -> QM B) : QM B :=
  fun st => let '(a, st') := m st in k a st'.

Notation "'let!' x ':=' c 'in' k" := (qbind c (fun x => k))
  (at level 10, x pattern, c at level 100, k at level 200) : go_scope.

Definition getSnapshot : QM Snapshot := fun st => (Job_Snapshot (st_j st), st).

(** [Queue.work.Abort]. *)
Definition abort : QM unit := fun st => (tt, mkSt (st_q st) (st_j st) true).

(** Calling a door of [Job] that returns only an error. *)
Definition call (f : Job -> result job_err Job) : QM (option sched_err) := fun st =>
  match f (st_j st) with
  | Ok j => (None, mkSt (st_q st) j (st_abort st))
  | Err e => (Some (ErrJob e), st)
  end.

(** Calling a door of [Job] that yields a lease. *)
Definition callLease (f : Job -> result job_err (Job * option LeaseID)) :
    QM (result sched_err (option LeaseID)) := fun st =>
  match f (st_j st) with
  | Ok (j, l) => (Ok l, mkSt (st_q st) j (st_abort st))
  | Err e => (Err (ErrJob e), st)
  end.

Definition surrender : QM (option LeaseID) := fun st =>
  let '(j, l) := Surrender (st_j st) in (l, mkSt (st_q st) j (st_abort st)).

Definition issueLease : QM (option LeaseID) := fun st =>
  let '(p, l) := issue (q_leases (st_q st)) in
  (l, mkSt (setLeases (st_q st) p) (st_j st) (st_abort st)).

(** [Queue.reclaim]. *)
Definition reclaim (l : option LeaseID) : QM (option sched_err) := fun st =>
  let '(p, e) := pool_reclaim (q_leases (st_q st)) l in
  (e, mkSt (setLeases (st_q st) p) (st_j st) (st_abort st)).

Definition acquireSlot : QM bool := fun st =>
  let '(p, b) := acquire (q_slots (st_q st)) (j_id (st_j st)) in
  (b, mkSt (setSlots (st_q st) p) (st_j st) (st_abort st)).

(** [Queue.releaseFor]. *)
Definition releaseFor (s : State) : QM unit := fun st =>
  if needsSlot s then (tt, st)
  else (tt, mkSt (setSlots (st_q st) (release (q_slots (st_q st)) (j_id (st_j st))))
              (st_j st) (st_abort st)).

(** [Queue.holds], [running] and [gatedBy] of the current queue. *)
Definition q_holds (s : Snapshot) : QM bool := fun st =>
  (holds (st_q st) (j_id (st_j st)) s, st).
Definition q_running (s : Snapshot) : QM bool := fun st =>
  (running (st_q st) (j_id (st_j st)) s, st).
Definition q_gatedBy (s : Snapshot) : QM (option WaitReason) := fun st =>
  (gatedBy (st_q st) s, st).

(** [Queue.parkLocked]. *)
Definition parkLocked : QM (option sched_err) :=
  let! _ := releaseFor StateUnset in
  let! l := surrender in
  reclaim l.

(** [Queue.grantFor]. *)
Definition grantLease : QM bool :=
  let! l := issueLease in
  match l with
  | None => qret false
  | Some _ =>
      let! e := call (fun j => Grant j l) in
      match e with
      | Some _ => let! _ := reclaim l in qret false
      | None => qret true
      end
  end.

Definition grantFor (s : State) : QM bool := fun st =>
  (if needsLease s && negb (HoldsLease (st_j st)) then
     let! ok := grantLease in
     if negb ok then qret false
     else if needsSlot s then acquireSlot else qret true
   else if needsSlot s then acquireSlot else qret true) st.

(** [Queue.moveTo]. *)
Definition moveTo (from to : State) : QM (option sched_err) :=
  let! ok := grantFor to in
  if negb ok then qret None
  else
    let! e := call (fun j => Transition j to) in
    match e with
    | Some err => let! _ := releaseFor from in qret (Some err)
    | None => let! _ := releaseFor to in qret None
    end.

(** [cancelInterrupts]. *)
Definition cancelInterrupts (s : State) : bool := negb (IsProduction s).

(** [Queue.settleLocked]. *)
Definition settleLocked (o : Outcome) (s : Snapshot) (now : Z) : QM (option sched_err) :=
  let o' := if bool_decide (s_intent s = IntentCancel) && cancelInterrupts (v_state (s_state s))
            then OutcomeCancelled else o in
  let! r := callLease (fun j => Finish j o' now) in
  match r with
  | Err e => qret (Some e)
  | Ok l => let! _ := releaseFor StateUnset in reclaim l
  end.

(** [Queue.finishCancel]. *)
Definition finishCancel (s : Snapshot) (now : Z) : QM (option sched_err) :=
  if bool_decide (v_state (s_state s) = StateUnset) then qret None
  else if IsSettled (v_outcome (s_state s)) then
    let! _ := releaseFor StateUnset in qret None
  else
    let! r := q_running s in
    if r then
      if negb (cancelInterrupts (v_state (s_state s))) then qret None
      else let! _ := abort in qret None
    else settleLocked OutcomeCancelled s now.

(** [Queue.Cancel]. *)
Definition Cancel (now : Z) : QM (option sched_err) :=
  let! e := call (fun j => SetIntent j IntentCancel) in
  match e with
  | Some err => qret (Some err)
  | None => let! s := getSnapshot in finishCancel s now
  end.

(** [Queue.Settle]. *)
Definition Settle (o : Outcome) (now : Z) : QM (option sched_err) :=
  if bool_decide (o = OutcomeCancelled) then qret (Some ErrCancelReserved)
  else let! s := getSnapshot in settleLocked o s now.

(** [Queue.Park]. *)
Definition Park : QM (option sched_err) := parkLocked.

(** [Queue.Handoff]: the callback [handed] is the caller's, and runs exactly
    when the door returns [true]. *)
Definition Handoff (from next : State) (now : Z) : QM (bool * option sched_err) :=
  let! s := getSnapshot in
  if negb (Snapshot_IsOpen s) || bool_decide (v_state (s_state s) <> from)
     || bool_decide (v_next (s_state s) <> StateUnset)
  then qret (false, None)
  else
    let! err :=
      if bool_decide (next <> StateUnset) then
        let! e := call (fun j => SetNext j next) in
        match e with
        | None => qret None
        | Some err =>
            let! s' := getSnapshot in
            let! serr := settleLocked OutcomeFailed s' now in
            qret (Some (match serr with Some se => ErrJoin err se | None => err end))
        end
      else qret None in
    let! err' :=
      match err with
      | None => parkLocked
      | Some _ => qret err
      end in
    qret (true, err').

(** [Queue.Retry]. *)
Definition Retry (now : Z) : QM (option sched_err) :=
  let! s := getSnapshot in
  if negb (IsSettled (v_outcome (s_state s))) then qret (Some ErrNotSettled)
  else let! _ := releaseFor StateUnset in call (fun j => BeginAttempt j now).

(** [Queue.Advance]. *)
Definition Advance (now : Z) : QM (option sched_err) :=
  let! s := getSnapshot in
  let state := v_state (s_state s) in
  let next := v_next (s_state s) in
  if bool_decide (s_intent s = IntentCancel) then finishCancel s now
  else if bool_decide (state = StateUnset) then
    let! g := q_gatedBy s in
    match g with
    | Some _ => qret None
    | None => call (fun j => BeginAttempt j now)
    end
  else if IsSettled (v_outcome (s_state s)) then
    let! _ := releaseFor StateUnset in qret None
  else if bool_decide (next = StateUnset) then
    let! h := q_holds s in
    if h then qret None
    else let! g := q_gatedBy s in
      match g with
      | Some _ => parkLocked
      | None => let! _ := grantFor state in qret None
      end
  else
    let! g := q_gatedBy s in
    match g with
    | Some _ => parkLocked
    | None =>
        if IsCorrectness state && IsProduction next then
          let! r := callLease (fun j => Cross j next) in
          match r with
          | Err e => qret (Some e)
          | Ok l =>
              let! e := reclaim l in
              match e with
              | Some err => qret (Some err)
              | None => let! _ := grantFor next in qret None
              end
          end
        else moveTo state next
    end.

(** ** Rendering *)
Record RenderView : Type := mkRenderView {
  rv_state : StateView;
  rv_running : bool;
  rv_reason : WaitReason;
  rv_intent : Intent;
  rv_holds : bool
}.

(** [Queue.renderLocked], which [Render] calls; the zero [WaitReason] is [NoLease]. *)
Definition renderLocked (q : Queue) (j : Job) : RenderView :=
  let s := Job_Snapshot j in
  mkRenderView (s_state s) (running q (j_id j) s)
    (default NoLease (waitReason q (j_id j) s)) (s_intent s) (holds q (j_id j) s).

(** [Queue.RenderAll]. *)
Definition RenderAll (q : Queue) (js : list Job) : list RenderView := renderLocked q <$> js.

(** ** The world: the queue and every job handed to it

    A door is atomic (it holds [Queue.mu]); the doors of [Job] the rest of the
    program calls directly are [SetIntent], [SetActivity] and [SetPolicy]. *)
Inductive qdoor : Type :=
| DAdvance (now : Z)
| DCancel (now : Z)
| DSettle (o : Outcome) (now : Z)
| DPark
| DHandoff (from next : State) (now : Z)
| DRetry (now : Z).

Definition run_door (d : qdoor) : QM (option sched_err) :=
  match d with
  | DAdvance now => Advance now
  | DCancel now => Cancel now
  | DSettle o now => Settle o now
  | DPark => Park
  | DHandoff from next now => let! r := Handoff from next now in qret (snd r)
  | DRetry now => Retry now
  end.

Record World : Type := mkWorld { w_q : Queue; w_jobs : gmap string Job }.

(** One door on the job registered under [k]: the error and the new world. *)
Definition wdoor (w : World) (k : string) (j : Job) (d : qdoor) : option sched_err * World :=
  let '(e, st) := run_door d (mkSt (w_q w) j false) in
  (e, mkWorld (st_q st) (<[k := st_j st]> (w_jobs w))).

Inductive job_call : Job -> Job -> Prop :=
| jc_setIntent j j' i : SetIntent j i = Ok j' -> job_call j j'
| jc_setActivity j j' x : SetActivity j x = Ok j' -> job_call j j'
| jc_setPolicy j p : job_call j (SetPolicy j p).

Inductive wstep : World -> World -> Prop :=
| ws_add w j : Lifecycle.reachable j -> j_lease j = None -> w_jobs w !! j_id j = None ->
    wstep w (mkWorld (w_q w) (<[j_id j := j]> (w_jobs w)))
| ws_door w k j d : w_jobs w !! k = Some j -> wstep w (snd (wdoor w k j d))
| ws_job w k j j' : w_jobs w !! k = Some j -> job_call j j' ->
    wstep w (mkWorld (w_q w) (<[k := j']> (w_jobs w)))
| ws_remove w k j : w_jobs w !! k = Some j -> j_lease j = None ->
    k ∉ sp_held (q_slots (w_q w)) -> wstep w (mkWorld (w_q w) (delete k (w_jobs w)))
| ws_pause w : wstep w (mkWorld (Pause (w_q w)) (w_jobs w))
| ws_resume w : wstep w (mkWorld (Resume (w_q w)) (w_jobs w))
| ws_setCaps w a b : wstep w (mkWorld (SetCaps (w_q w) a b) (w_jobs w)).

(** A world [n] steps after [New]. *)
Inductive wreach (a b : Z) : nat -> World -> Prop :=
| wr_init : wreach a b 0 (mkWorld (New a b) ∅)
| wr_step n w w' : wreach a b n w -> wstep w w' -> wreach a b (S n) w'.

(** An executable door, for concrete histories. *)
Definition wrun (w : World) (k : string) (d : qdoor) : World :=
  match w_jobs w !! k with
  | Some j => snd (wdoor w k j d)
  | None => w
  end.

(** The world the witnesses use: one lease and one slot per pool, one job that
    began, was granted its lease and fetches. *)
Definition ex_added : World :=
  mkWorld (New 1 1) (<["j1" := ex_job]> ∅).
Definition ex_fetching : World := wrun (wrun ex_added "j1" (DAdvance 2)) "j1" (DAdvance 3).
Definition ex_handed : World := wrun ex_fetching "j1" (DHandoff Fetching Assessing 4).
Definition ex_jobof (w : World) : Job := default ex_job (w_jobs w !! "j1").

(** A slot is held by an open attempt at a position that needs one. *)
Definition slot_ok (j : Job) : Prop :=
  exists a, currentLocked j = Some a /\ isOpen a = true /\ needsSlot (a_state a) = true.

(** The pool accounting of a world after [n] steps. *)
Record winv (n : nat) (w : World) : Prop := {
  wi_job : forall k j, w_jobs w !! k = Some j -> j_id j = k /\ wf_job j;
  wi_lease : forall k j l, w_jobs w !! k = Some j -> j_lease j = Some l ->
    l ∈ lp_issued (q_leases (w_q w));
  wi_inj : forall k1 k2 j1 j2 l, w_jobs w !! k1 = Some j1 -> w_jobs w !! k2 = Some j2 ->
    j_lease j1 = Some l -> j_lease j2 = Some l -> k1 = k2;
  wi_issued : forall l, l ∈ lp_issued (q_leases (w_q w)) ->
    0 < l <= lp_next (q_leases (w_q w)) /\
    exists k j, w_jobs w !! k = Some j /\ j_lease j = Some l;
  wi_slot : forall k, k ∈ sp_held (q_slots (w_q w)) ->
    exists j, w_jobs w !! k = Some j /\ slot_ok j;
  wi_next : 0 <= lp_next (q_leases (w_q w)) <= Z.of_nat n
}.

(** ** What a door may do: local conditions and frame *)

(** The lease this job holds, as a set. *)
Definition own (j : Job) : gset LeaseID :=
  match j_lease j with
  | Some l => {[l]}
  | None => ∅
  end.

(** The part of [winv] a door on one job relies on. *)
Record good (st : St) : Prop := {
  g_wf : wf_job (st_j st);
  g_lease : forall l, j_lease (st_j st) = Some l -> l ∈ lp_issued (q_leases (st_q st));
  g_pool : forall l, l ∈ lp_issued (q_leases (st_q st)) -> 0 < l <= lp_next (q_leases (st_q st));
  g_next : 0 <= lp_next (q_leases (st_q st))
}.

(** A door that issues at most [n] leases touches nothing but its own job, its
    own lease and its own slot. *)
Record frame (n : Z) (st st' : St) : Prop := {
  fr_id : j_id (st_j st') = j_id (st_j st);
  fr_steps : rtc jstep (st_j st) (st_j st');
  fr_paused : q_paused (st_q st') = q_paused (st_q st);
  fr_lcap : lp_capacity (q_leases (st_q st')) = lp_capacity (q_leases (st_q st));
  fr_scap : sp_capacity (q_slots (st_q st')) = sp_capacity (q_slots (st_q st));
  fr_next : lp_next (q_leases (st_q st)) <= lp_next (q_leases (st_q st'))
            <= lp_next (q_leases (st_q st)) + n;
  fr_issued : lp_issued (q_leases (st_q st')) ∖ own (st_j st') =
              lp_issued (q_leases (st_q st)) ∖ own (st_j st);
  fr_own : j_lease (st_j st') = None \/ j_lease (st_j st') = j_lease (st_j st) \/
           exists l, j_lease (st_j st') = Some l /\
             lp_next (q_leases (st_q st)) < l <= lp_next (q_leases (st_q st'));
  fr_slots : sp_held (q_slots (st_q st')) ∖ {[j_id (st_j st)]} =
             sp_held (q_slots (st_q st)) ∖ {[j_id (st_j st)]}
}.

(** The room a pool has for one more. *)
Definition lease_room (q : Queue) : Prop :=
  Z.of_nat (size (lp_issued (q_leases q))) < lp_capacity (q_leases q).
Definition slot_room (q : Queue) : Prop :=
  Z.of_nat (size (sp_held (q_slots q))) < sp_capacity (q_slots q).

(** Neither pool grows past the larger of its capacity and what it held. *)
Record bounded (st st' : St) : Prop := {
  bd_leases : Z.of_nat (size (lp_issued (q_leases (st_q st')))) <=
    Z.max (lp_capacity (q_leases (st_q st))) (Z.of_nat (size (lp_issued (q_leases (st_q st)))));
  bd_slots : Z.of_nat (size (sp_held (q_slots (st_q st')))) <=
    Z.max (sp_capacity (q_slots (st_q st))) (Z.of_nat (size (sp_held (q_slots (st_q st)))))
}.

(** A slot the job holds is one its position needs. *)
Definition slotted (st : St) : Prop :=
  j_id (st_j st) ∈ sp_held (q_slots (st_q st)) -> slot_ok (st_j st).

(** What a door needs of the world, and what every door guarantees. *)
Record pre (st : St) : Prop := {
  pre_good : good st;
  pre_slot : slotted st;
  pre_next : lp_next (q_leases (st_q st)) + 1 < 2 ^ 64
}.

Record step_ok (st st' : St) : Prop := {
  so_frame : frame 1 st st';
  so_good : good st';
  so_slot : slotted st';
  so_bounded : bounded st st'
}.

(** A job in the position to be granted a lease. *)
Definition grantable (j : Job) : Prop :=
  exists a, currentLocked j = Some a /\ isOpen a = true /\ crossed a = false.

(** The verdict [settleLocked] records when its caller asks for [o]. *)
Definition settle_verdict (o : Outcome) (s : Snapshot) : Outcome :=
  if bool_decide (s_intent s = IntentCancel) && cancelInterrupts (v_state (s_state s))
  then OutcomeCancelled else o.

(** The job keeps no resource. *)
Definition idle (st : St) : Prop :=
  j_lease (st_j st) = None /\ j_id (st_j st) ∉ sp_held (q_slots (st_q st)).

(** The job after its open attempt [a] is settled with [o]. *)
Definition settled (j : Job) (a : Attempt) (o : Outcome) (now : Z) : Job :=
  setLease (setCurrent j (mkAttempt (a_state a) StateUnset ActNone o (a_assessed a)
    (a_started a) now)) None.

(** The pools have what [s] needs and the job lacks. *)
Definition room_for (st : St) (s : State) : Prop :=
  (needsLease s = true -> HoldsLease (st_j st) = true \/ lease_room (st_q st)) /\
  (needsSlot s = true -> j_id (st_j st) ∈ sp_held (q_slots (st_q st)) \/ slot_room (st_q st)).

(** The job's snapshot counts as running ([Queue.running]). *)
Definition st_running (st : St) : bool :=
  running (st_q st) (j_id (st_j st)) (Job_Snapshot (st_j st)).

(** The attempt [a] has moved to where it recorded it continues, and runs there. *)
Definition arrived (a : Attempt) (st' : St) : Prop :=
  exists a', currentLocked (st_j st') = Some a' /\ isOpen a' = true /\
    a_state a' = a_next a /\ a_next a' = StateUnset.

Definition moved (a : Attempt) (st' : St) : Prop := st_running st' = true /\ arrived a st'.

(** What [finishCancel] does at each position. *)
Definition cancel_result (st st' : St) (now : Z) : Prop :=
  match currentLocked (st_j st) with
  | None => st' = st
  | Some a =>
      if isOpen a then
        if running (st_q st) (j_id (st_j st)) (Job_Snapshot (st_j st)) then
          st' = if IsProduction (a_state a) then st else mkSt (st_q st) (st_j st) true
        else idle st' /\ st_j st' = settled (st_j st) a OutcomeCancelled now /\
             st_abort st' = st_abort st
      else st_j st' = st_j st /\ st_abort st' = st_abort st /\ idle st'
  end.

(** What [Advance] does, case by case. *)
Definition advance_result (st st' : St) (now : Z) : Prop :=
  if bool_decide (j_intent (st_j st) = IntentCancel) then cancel_result st st' now
  else
    let gated := gatedBy (st_q st) (Job_Snapshot (st_j st)) in
    match currentLocked (st_j st) with
    | None =>
        match gated with
        | Some _ => st' = st
        | None => st_q st' = st_q st /\ currentLocked (st_j st') = Some (newAttempt now)
        end
    | Some a =>
        if isOpen a then
          if st_running st then st' = st
          else match gated with
               | Some _ => idle st' /\ st_j st' = setLease (st_j st) None
               | None =>
                   (currentLocked (st_j st') = Some a \/ (a_next a <> StateUnset /\ arrived a st')) /\
                   (a_next a = StateUnset -> room_for st (a_state a) -> st_running st' = true) /\
                   (a_next a <> StateUnset -> room_for st (a_next a) -> moved a st')
               end
        else idle st' /\ st_j st' = st_j st
    end.

(** The job after its open attempt [a] recorded [n]. *)
Definition recorded (j : Job) (a : Attempt) (n : State) : Job :=
  setCurrent j (mkAttempt (a_state a) n (a_activity a) (a_outcome a) (a_assessed a)
    (a_started a) (a_ended a)).

(** What [Handoff] does, case by case. *)
Definition handoff_result (st : St) (from next : State) (now : Z)
    (r : (bool * option sched_err) * St) : Prop :=
  match currentLocked (st_j st) with
  | Some a =>
      if isOpen a && bool_decide (a_state a = from) && bool_decide (a_next a = StateUnset) then
        idle (snd r) /\
        if bool_decide (next = StateUnset) then
          fst r = (true, None) /\ st_j (snd r) = setLease (st_j st) None
        else if CanTransition from next then
          fst r = (true, None) /\ st_j (snd r) = setLease (recorded (st_j st) a next) None
        else
          fst r = (true, Some (ErrJob ErrIllegalTransition)) /\
          st_j (snd r) = settled (st_j st) a
            (settle_verdict OutcomeFailed (Job_Snapshot (st_j st))) now
      else r = ((false, None), st)
  | None => r = ((false, None), st)
  end.

(** ** Lemmas *)
Lemma jstep_id j j' : jstep j j' -> j_id j' = j_id j.
Proof.
  intros [? ? ? E|? ? ? E|? ? ? E|? ? ? E|? ? ? ? E|? ? ? ? ? E|? ? ? E|? ? ? E|?|? ?|? ?]; try done.
  - unfold BeginAttempt in E. by case_in E.
  - by apply withOpenAttempt_inv in E as (? & ? & ? & ? & ? & ->).
  - by apply withOpenAttempt_inv in E as (? & ? & ? & ? & ? & ->).
  - by apply withOpenAttempt_inv in E as (? & ? & ? & ? & ? & ->).
  - by apply withOpenAttemptLease_inv in E as (? & ? & ? & ? & ? & -> & ?).
  - by apply withOpenAttemptLease_inv in E as (? & ? & ? & ? & ? & -> & ?).
  - unfold SetIntent in E. by case_in E.
  - unfold Grant in E. by case_in E.
Qed.

Lemma frame_refl st : frame 0 st st.
Proof. split; auto; [done|lia]. Qed.

Lemma frame_trans n m st1 st2 st3 :
  frame n st1 st2 -> frame m st2 st3 -> frame (n + m) st1 st3.
Proof.
  intros [A1 A2 A3 A4 A5 A6 A7 A8 A9] [B1 B2 B3 B4 B5 B6 B7 B8 B9].
  rewrite A1 in *. split; try congruence.
  - by etrans.
  - lia.
  - destruct B8 as [B8|[B8|(l & B8 & ?)]]; [by left| |].
    + rewrite B8. destruct A8 as [A8|[A8|(l & A8 & ?)]]; [by left|by right; left|].
      right; right. exists l. split; [done|lia].
    + right; right. exists l. split; [done|lia].
Qed.

Lemma frame_weaken n m st st' : frame n st st' -> n <= m -> frame m st st'.
Proof. intros []. split; auto. lia. Qed.

(** Calling a door of [Job] that leaves the lease alone. *)
Lemma frame_job q j j' b b' :
  rtc jstep j j' -> j_lease j' = j_lease j -> frame 0 (mkSt q j b) (mkSt q j' b').
Proof.
  intros Hs Hl. split; simpl; auto; try lia; [|unfold own; by rewrite Hl].
  clear Hl. induction Hs; [done|]. by rewrite IHHs, (jstep_id _ _ H).
Qed.

Lemma good_job q j j' b b' :
  rtc jstep j j' -> j_lease j' = j_lease j -> good (mkSt q j b) -> good (mkSt q j' b').
Proof.
  intros Hs Hl [G1 G2 G3 G4]. split; simpl in *; auto; [by eapply wf_jsteps|].
  rewrite Hl. auto.
Qed.

Lemma withOpenAttempt_lease j fn j' : withOpenAttempt j fn = Ok j' -> j_lease j' = j_lease j.
Proof. intros E. by apply withOpenAttempt_inv in E as (? & ? & ? & ? & ? & ->). Qed.

Lemma BeginAttempt_lease j now j' : BeginAttempt j now = Ok j' -> j_lease j' = j_lease j.
Proof. intros E. unfold BeginAttempt in E. by case_in E. Qed.

Lemma SetIntent_lease j i j' : SetIntent j i = Ok j' -> j_lease j' = j_lease j.
Proof. intros E. unfold SetIntent in E. by case_in E. Qed.

(** Releasing one's own slot. *)
Lemma releaseFor_spec s st :
  exists st', releaseFor s st = (tt, st') /\ frame 0 st st' /\ st_j st' = st_j st /\
    st_abort st' = st_abort st /\ q_leases (st_q st') = q_leases (st_q st) /\
    (needsSlot s = true -> st' = st) /\
    (needsSlot s = false ->
       sp_held (q_slots (st_q st')) = sp_held (q_slots (st_q st)) ∖ {[j_id (st_j st)]}).
Proof.
  unfold releaseFor. destruct (needsSlot s).
  - exists st. split_and!; auto using frame_refl; done.
  - eexists. split; [done|]. split_and!; try done. split; simpl; auto; [done|lia|set_solver].
Qed.

Lemma good_release st st' :
  st_j st' = st_j st -> q_leases (st_q st') = q_leases (st_q st) -> good st -> good st'.
Proof. intros Hj Hq [G1 G2 G3 G4]. split; rewrite ?Hj, ?Hq; auto. Qed.

(** Giving the lease a job held back to the pool succeeds. *)
Lemma reclaim_own st st0 :
  good st0 -> q_leases (st_q st) = q_leases (st_q st0) -> j_lease (st_j st) = None ->
  exists st', reclaim (j_lease (st_j st0)) st = (None, st') /\
    st_j st' = st_j st /\ st_abort st' = st_abort st /\ q_slots (st_q st') = q_slots (st_q st) /\
    q_paused (st_q st') = q_paused (st_q st) /\
    lp_capacity (q_leases (st_q st')) = lp_capacity (q_leases (st_q st0)) /\
    lp_next (q_leases (st_q st')) = lp_next (q_leases (st_q st0)) /\
    lp_issued (q_leases (st_q st')) = lp_issued (q_leases (st_q st0)) ∖ own (st_j st0).
Proof.
  intros [G1 G2 G3 G4] Hq Hl. unfold reclaim, pool_reclaim, own. rewrite Hq.
  destruct (j_lease (st_j st0)) as [l|] eqn:El.
  - rewrite decide_True by (by apply G2). eexists. split; [done|]. by simpl.
  - eexists. split; [done|]. split_and!; try done. set_solver.
Qed.

(** A job door that surrenders, followed by the releases its caller makes. *)
Lemma surrendered_frame st0 st st1 st' l :
  good st0 -> q_leases (st_q st) = q_leases (st_q st0) -> q_paused (st_q st) = q_paused (st_q st0) ->
  q_slots (st_q st) = q_slots (st_q st0) ->
  rtc jstep (st_j st0) (st_j st) -> j_lease (st_j st) = None -> l = j_lease (st_j st0) ->
  releaseFor StateUnset st = (tt, st1) -> reclaim l st1 = (None, st') ->
  frame 0 st0 st' /\ good st' /\ st_j st' = st_j st /\ st_abort st' = st_abort st /\
  own (st_j st') = ∅ /\
  sp_held (q_slots (st_q st')) = sp_held (q_slots (st_q st0)) ∖ {[j_id (st_j st0)]}.
Proof.
  intros G Hq Hp Hsl Hs Hl -> H1 H2.
  assert (j_id (st_j st) = j_id (st_j st0)) as Hid.
  { clear -Hs. induction Hs; [done|]. by rewrite IHHs, (jstep_id _ _ H). }
  destruct (releaseFor_spec StateUnset st) as (st1' & E1 & _ & Ej & Eb & Eq & _ & Es).
  assert (st1 = st1') as <- by congruence. specialize (Es eq_refl).
  assert (q_paused (st_q st1) = q_paused (st_q st)) as Hp1
    by (unfold releaseFor in H1; simpl in H1; by simplify_eq).
  assert (sp_capacity (q_slots (st_q st1)) = sp_capacity (q_slots (st_q st))) as Hc1
    by (unfold releaseFor in H1; simpl in H1; by simplify_eq).
  destruct (reclaim_own st1 st0) as (st2 & E2 & Fj & Fb & Fs & Fp & Fc & Fn & Fi);
    [done|congruence|congruence|].
  assert (st' = st2) as -> by congruence.
  assert (own (st_j st2) = ∅) as Ho by (unfold own; by rewrite Fj, Ej, Hl).
  pose proof G as [G1 G2 G3 G4].
  split_and!; try congruence.
  - split; rewrite ?Fj, ?Ej, ?Hid, ?Fc, ?Fn, ?Fs; try done; try lia; try congruence.
    + by rewrite <- Ej, <- Fj, Ho, Fi, difference_empty_L.
    + by left.
    + rewrite Es, Hsl, Hid. set_solver.
  - split; rewrite ?Fj, ?Ej, ?Fn, ?Fi; auto.
    + by eapply wf_jsteps.
    + intros l. rewrite Hl. done.
    + set_solver.
Qed.

(** Parking: every resource goes back, and no error can occur. *)
Lemma parkLocked_spec st :
  good st ->
  exists st', parkLocked st = (None, st') /\ frame 0 st st' /\ good st' /\
    st_j st' = setLease (st_j st) None /\ st_abort st' = st_abort st /\
    sp_held (q_slots (st_q st')) = sp_held (q_slots (st_q st)) ∖ {[j_id (st_j st)]}.
Proof.
  intros G. unfold parkLocked, qbind.
  destruct (releaseFor_spec StateUnset st) as (st1 & E1 & F1 & Ej & Eb & Eq & _ & Es).
  specialize (Es eq_refl). rewrite E1. unfold surrender, Surrender. rewrite Ej.
  pose proof (good_release _ _ Ej Eq G) as G1.
  destruct (reclaim_own (mkSt (st_q st1) (setLease (st_j st) None) (st_abort st1)) st)
    as (st2 & E2 & Fj & Fb & Fs & Fp & Fc & Fn & Fi); [done|done|done|].
  simpl in *. rewrite E2. exists st2. pose proof G as [A1 A2 A3 A4].
  assert (own (st_j st2) = ∅) as Ho by (unfold own; by rewrite Fj).
  assert (rtc jstep (st_j st) (setLease (st_j st) None)) as Hs
    by (apply rtc_once; apply js_surrender).
  split_and!; try congruence.
  - split; rewrite ?Fj, ?Fc, ?Fn, ?Fs, ?Fp; simpl; try done; try lia; try by apply F1.
    + rewrite <- Fj, Ho, Fi. set_solver.
    + by left.
  - split; rewrite ?Fj, ?Fn, ?Fi; auto; [by eapply wf_jsteps|done|set_solver].
Qed.

Lemma grantLease_spec st :
  good st -> lp_next (q_leases (st_q st)) + 1 < 2 ^ 64 -> j_lease (st_j st) = None ->
  exists b st', grantLease st = (b, st') /\ frame 1 st st' /\ good st' /\
    q_slots (st_q st') = q_slots (st_q st) /\ st_abort st' = st_abort st /\ bounded st st' /\
    (b = true -> exists l, st_j st' = setLease (st_j st) (Some l)) /\
    (b = false -> st_j st' = st_j st) /\
    (lease_room (st_q st) ->
     (exists a, currentLocked (st_j st) = Some a /\ isOpen a = true /\ crossed a = false) ->
     b = true).
Proof.
  intros G Hn Hl. pose proof G as [A1 A2 A3 A4].
  unfold grantLease, qbind, issueLease, issue, lease_room.
  destruct (decide (lp_capacity (q_leases (st_q st)) <= _)) as [Hfull|Hroom].
  { exists false. eexists. split; [done|]. split_and!; simpl; try done; try lia.
    - split; simpl; auto; [done|lia].
    - split; simpl; lia. }
  set (l := wrapu 64 (lp_next (q_leases (st_q st)) + 1)).
  assert (l = lp_next (q_leases (st_q st)) + 1) as Hle by (apply wrapu_id; lia).
  assert (l ∉ lp_issued (q_leases (st_q st))) as Hfresh by (intros ?%A3; lia).
  assert (Hsz : Z.of_nat (size ({[l]} ∪ lp_issued (q_leases (st_q st)))) =
    1 + Z.of_nat (size (lp_issued (q_leases (st_q st))))).
  { rewrite size_union by set_solver. rewrite size_singleton. lia. }
  unfold call. cbn [st_q st_j st_abort]. destruct (Grant (st_j st) (Some l)) as [j'|e] eqn:Eg; simpl.
  - exists true. eexists. split; [done|]. simpl.
    assert (j' = setLease (st_j st) (Some l)) as -> by (unfold Grant in Eg; by case_in Eg).
    assert (jstep (st_j st) (setLease (st_j st) (Some l))) as Hs by (by eapply js_grant).
    split_and!; try done.
    + split; simpl; try done; try lia; [by apply rtc_once|unfold own; simpl; rewrite Hl; set_solver|].
      right; right. exists l. split; [done|lia].
    + split; simpl; [by eapply wf_jstep|intros; simplify_eq; set_solver| |lia].
      intros l' [->%elem_of_singleton|?%A3]%elem_of_union; lia.
    + split; simpl; lia.
    + eauto.
  - unfold reclaim, pool_reclaim; simpl. rewrite decide_True by set_solver. simpl.
    assert (({[l]} ∪ lp_issued (q_leases (st_q st))) ∖ {[l]} = lp_issued (q_leases (st_q st)))
      as Hback by set_solver.
    exists false. eexists. split; [done|]. simpl. split_and!; try done.
    + split; simpl; rewrite ?Hback; auto; [done|lia].
    + split; simpl; rewrite ?Hback; auto; [|lia]. intros l' ?%A3. lia.
    + split; simpl; rewrite ?Hback; lia.
    + intros _ (a & Hc & Ho & Hx). unfold Grant in Eg. rewrite Hc, Ho, Hx, Hl in Eg. simpl in Eg.
      rewrite bool_decide_eq_false_2 in Eg; [done|]. unfold LeaseUnset. lia.
Qed.

Lemma acquireSlot_spec st :
  good st ->
  exists b st', acquireSlot st = (b, st') /\ frame 0 st st' /\ good st' /\
    st_j st' = st_j st /\ st_abort st' = st_abort st /\ q_leases (st_q st') = q_leases (st_q st) /\
    bounded st st' /\
    (b = true -> j_id (st_j st) ∈ sp_held (q_slots (st_q st')) /\
       sp_held (q_slots (st_q st')) = {[j_id (st_j st)]} ∪ sp_held (q_slots (st_q st))) /\
    (b = false -> st' = st) /\
    (j_id (st_j st) ∈ sp_held (q_slots (st_q st)) \/ slot_room (st_q st) -> b = true).
Proof.
  intros G. unfold acquireSlot, acquire, slot_room.
  assert (mkSt (setSlots (st_q st) (q_slots (st_q st))) (st_j st) (st_abort st) = st) as Hst
    by (by destruct st as [[] ? ?]).
  destruct (decide (j_id (st_j st) ∈ sp_held (q_slots (st_q st)))) as [Hin|Hni].
  { exists true. eexists. split; [done|]. rewrite Hst.
    split_and!; try done; [apply frame_refl|split; lia|].
    intros _. split; [done|set_solver]. }
  destruct (decide (sp_capacity (q_slots (st_q st)) <= _)).
  { exists false. eexists. split; [done|]. rewrite Hst.
    split_and!; try done; [apply frame_refl|split; lia|]. intros [?|?]; [done|lia]. }
  exists true. eexists. split; [done|]. simpl. split_and!; try done.
  - split; simpl; auto; [done|lia|set_solver].
  - by apply (good_release st).
  - split; simpl; [lia|]. rewrite size_union by set_solver. rewrite size_singleton. lia.
  - intros _. split; [set_solver|done].
Qed.

Lemma size_difference_le {A} `{Countable A} (X Y : gset A) : (size (X ∖ Y) <= size X)%nat.
Proof. apply subseteq_size. set_solver. Qed.

(** A job left with nothing has only shrunk the pools. *)
Lemma bounded_idle n st st' : frame n st st' -> idle st' -> bounded st st'.
Proof.
  intros F [Hl Hs]. pose proof (fr_issued _ _ _ F) as Hi. pose proof (fr_slots _ _ _ F) as Hh.
  unfold own in Hi. rewrite Hl, difference_empty_L in Hi.
  assert (sp_held (q_slots (st_q st')) = sp_held (q_slots (st_q st)) ∖ {[j_id (st_j st)]}) as Hh'.
  { rewrite <- Hh. rewrite (fr_id _ _ _ F) in Hs. set_solver. }
  split; rewrite ?Hi, ?Hh'.
  - pose proof (size_difference_le (lp_issued (q_leases (st_q st))) (own (st_j st))).
    unfold own in *. lia.
  - pose proof (size_difference_le (sp_held (q_slots (st_q st))) {[j_id (st_j st)]}). lia.
Qed.

Lemma bounded_refl st : bounded st st.
Proof. split; lia. Qed.

Lemma bounded_trans st1 st2 st3 :
  frame 1 st1 st2 -> bounded st1 st2 -> bounded st2 st3 -> bounded st1 st3.
Proof. intros [] [] []. split; lia. Qed.

(** Granting for [s]: what [grantFor] changes, and when it succeeds. *)
Lemma grantFor_spec s st :
  good st -> lp_next (q_leases (st_q st)) + 1 < 2 ^ 64 ->
  exists b st', grantFor s st = (b, st') /\ frame 1 st st' /\ good st' /\ bounded st st' /\
    st_abort st' = st_abort st /\
    (st_j st' = st_j st \/ exists l, st_j st' = setLease (st_j st) (Some l)) /\
    (j_id (st_j st) ∈ sp_held (q_slots (st_q st')) ->
       j_id (st_j st) ∈ sp_held (q_slots (st_q st)) \/ (needsSlot s = true /\ b = true)) /\
    (b = true -> (needsLease s = true -> HoldsLease (st_j st') = true) /\
                 (needsSlot s = true -> j_id (st_j st) ∈ sp_held (q_slots (st_q st')))) /\
    ((needsLease s = true -> HoldsLease (st_j st) = true \/
        (lease_room (st_q st) /\ grantable (st_j st))) ->
     (needsSlot s = true -> j_id (st_j st) ∈ sp_held (q_slots (st_q st)) \/ slot_room (st_q st)) ->
     b = true).
Proof.
  intros G Hn. unfold grantFor.
  destruct (needsLease s && negb (HoldsLease (st_j st))) eqn:El.
  - apply andb_true_iff in El as [El Eh]. apply negb_true_iff in Eh.
    assert (j_lease (st_j st) = None) as Hl.
    { unfold HoldsLease in Eh. apply bool_decide_eq_false in Eh.
      by apply eq_None_not_Some. }
    destruct (grantLease_spec st G Hn Hl) as (b & st1 & E1 & F1 & G1 & Es & Ea & B1 & Ht & Hf & Hr).
    unfold qbind at 1. rewrite E1. destruct b; simpl.
    + destruct (Ht eq_refl) as [l Hj].
      destruct (needsSlot s) eqn:Esl.
      * destruct (acquireSlot_spec st1 G1) as (b & st2 & E2 & F2 & G2 & Ej & Ea2 & Eq & B2 & Ht2 & Hf2 & Hr2).
        rewrite E2. exists b, st2. rewrite Ej, Hj in *. simpl in *.
        pose proof (frame_trans _ _ _ _ _ F1 F2).
        split_and!; try done; try congruence; try by right; eauto.
        -- by apply (bounded_trans st st1).
        -- intros Hin. destruct b; [by right|left]. by rewrite Hf2, Es in Hin.
        -- intros ->. split; [done|]. intros _. by apply Ht2.
        -- intros _ Hs. apply Hr2. simpl. unfold slot_room. rewrite Es. by apply Hs.
      * exists true, st1. rewrite Hj, Es. split_and!; try done; eauto.
    + exists false, st1. rewrite Es, (Hf eq_refl). split_and!; try done; auto.
      intros [?|[? ?]]%(fun H => H El) _; [congruence|]. auto.
  - assert (needsLease s = true -> HoldsLease (st_j st) = true) as Hh.
    { intros Hnl. rewrite Hnl in El. by apply negb_false_iff. }
    destruct (needsSlot s) eqn:Esl.
    + destruct (acquireSlot_spec st G) as (b & st2 & E2 & F2 & G2 & Ej & Ea2 & Eq & B2 & Ht2 & Hf2 & Hr2).
      rewrite E2. exists b, st2. rewrite Ej. split_and!; try done; auto.
      * by eapply frame_weaken; [done|lia].
      * intros Hin. destruct b; [by right|left]. by rewrite Hf2 in Hin.
      * intros ->. split; [auto|]. intros _. by apply Ht2.
    + exists true, st. split_and!; try done; auto using bounded_refl.
      eapply frame_weaken; [apply frame_refl|lia].
Qed.

(** ** Doors *)
Lemma step_ok_refl st : pre st -> step_ok st st.
Proof.
  intros [G S _]. split; auto using bounded_refl. eapply frame_weaken; [apply frame_refl|lia].
Qed.

Lemma step_ok_abort st b : pre st -> step_ok st (mkSt (st_q st) (st_j st) b).
Proof.
  intros P. destruct (step_ok_refl st P) as [F [] S B]. split; [|by split|done|by destruct B].
  by destruct F.
Qed.

Lemma frame_bounded_trans st1 st2 st3 :
  frame 0 st1 st2 -> bounded st1 st2 -> bounded st2 st3 -> bounded st1 st3.
Proof. intros [] [] []. split; lia. Qed.

Lemma step_ok_trans st st1 st' :
  frame 0 st st1 -> step_ok st st1 -> step_ok st1 st' -> step_ok st st'.
Proof.
  intros F [_ _ _ B] [F' ? ? B']. split; auto.
  - apply (frame_trans 0 1 _ _ _ F F').
  - by apply (frame_bounded_trans st st1).
Qed.

(** A door of [Job] that keeps the lease and cannot lose the slot's reason. *)
Lemma step_ok_job st j' b :
  pre st -> jstep (st_j st) j' -> j_lease j' = j_lease (st_j st) ->
  (slot_ok (st_j st) -> slot_ok j') -> step_ok st (mkSt (st_q st) j' b).
Proof.
  intros [G S _] Hs Hl Hk. destruct st as [q j b0]; simpl in *.
  assert (rtc jstep j j') as Hr by (by apply rtc_once). split.
  - eapply frame_weaken; [by apply frame_job|lia].
  - by eapply good_job.
  - unfold slotted in *; simpl in *. rewrite (jstep_id _ _ Hs). auto.
  - split; simpl; lia.
Qed.

(** Releasing the slot, the job untouched. *)
Lemma step_ok_release st :
  pre st -> exists st', releaseFor StateUnset st = (tt, st') /\ frame 0 st st' /\ step_ok st st' /\
    st_j st' = st_j st /\ st_abort st' = st_abort st /\
    q_leases (st_q st') = q_leases (st_q st) /\
    sp_held (q_slots (st_q st')) = sp_held (q_slots (st_q st)) ∖ {[j_id (st_j st)]}.
Proof.
  intros [G S Hn]. destruct (releaseFor_spec StateUnset st) as (st' & E & F & Ej & Eb & Eq & _ & Es).
  specialize (Es eq_refl). exists st'. split; [done|]. split_and!; try done. split.
  - eapply frame_weaken; [done|lia].
  - by eapply good_release.
  - unfold slotted. rewrite Ej, Es. set_solver.
  - split; rewrite ?Eq, ?Es; [lia|].
    pose proof (size_difference_le (sp_held (q_slots (st_q st))) {[j_id (st_j st)]}). lia.
Qed.

Lemma step_ok_park st :
  pre st -> exists st', parkLocked st = (None, st') /\ step_ok st st' /\ idle st' /\
    st_j st' = setLease (st_j st) None /\ st_abort st' = st_abort st.
Proof.
  intros [G S Hn]. destruct (parkLocked_spec st G) as (st' & E & F & G' & Ej & Ea & Es).
  exists st'. split; [done|].
  assert (idle st') as Hi by (unfold idle; rewrite Ej, Es; split; [done|set_solver]).
  split_and!; try done. split.
  - eapply frame_weaken; [done|lia].
  - done.
  - intros ?. by destruct Hi.
  - by eapply bounded_idle.
Qed.

Lemma Finish_steps j o now j' l :
  Finish j o now = Ok (j', l) -> jstep j j' /\ j_lease j' = None /\ l = j_lease j.
Proof.
  intros E. split; [by eapply js_finish|].
  by apply withOpenAttemptLease_inv in E as (? & ? & ? & ? & ? & -> & ->).
Qed.

(** Settling: the verdict is recorded and every resource goes back, or the
    refusal of [Finish] is returned and nothing changes. *)
Lemma settleLocked_spec o s now st :
  pre st ->
  match Finish (st_j st) (settle_verdict o s) now with
  | Ok (j', _) => exists st', settleLocked o s now st = (None, st') /\ step_ok st st' /\ idle st' /\
      st_j st' = j' /\ st_abort st' = st_abort st
  | Err e => settleLocked o s now st = (Some (ErrJob e), st)
  end.
Proof.
  intros [G S Hn]. unfold settleLocked. cbv zeta. fold (settle_verdict o s).
  unfold callLease, qbind. destruct (Finish _ _ _) as [[j' l]|e] eqn:E; [|done].
  destruct (Finish_steps _ _ _ _ _ E) as (Hs & Hl & Hl').
  destruct (releaseFor_spec StateUnset (mkSt (st_q st) j' (st_abort st)))
    as (st1 & E1 & F1 & Ej & Eb & Eq & _ & Es1). rewrite E1.
  assert (exists e' st', reclaim l st1 = (e', st')) as (e' & st' & E2) by (destruct (reclaim l st1); eauto).
  assert (e' = None) as ->.
  { destruct (reclaim_own st1 st) as (st2 & E2' & _); [done|done|by rewrite Ej|]. congruence. }
  rewrite E2. exists st'. split; [done|].
  destruct (surrendered_frame st (mkSt (st_q st) j' (st_abort st)) st1 st' l) as (F & G' & Ej' & Ea' & Ho & Eh);
    try done; [by apply rtc_once|].
  assert (idle st') as Hi.
  { split; [by rewrite Ej'|]. rewrite Ej', Eh. simpl. rewrite (jstep_id _ _ Hs). set_solver. }
  split_and!; try done. split; [|done|by intros ?; destruct Hi|by eapply bounded_idle].
  eapply frame_weaken; [done|lia].
Qed.

(** Reading a snapshot back. *)
Lemma Snapshot_Some j a :
  currentLocked j = Some a -> Job_Snapshot j = mkSnapshot (view a) (j_intent j) (HoldsLease j) true.
Proof.
  intros Hc. unfold Job_Snapshot, Job_State, HasRun. rewrite Hc. f_equal.
  apply bool_decide_eq_true. apply currentLocked_lookup, lookup_lt_Some in Hc. lia.
Qed.

Lemma Snapshot_None j :
  currentLocked j = None -> Job_Snapshot j = mkSnapshot zeroView (j_intent j) (HoldsLease j) false.
Proof.
  intros Hc. unfold Job_Snapshot, Job_State, HasRun. rewrite Hc. f_equal.
  apply currentLocked_None in Hc. by rewrite Hc.
Qed.

Lemma wf_state_set j a : wf_job j -> currentLocked j = Some a -> a_state a <> StateUnset.
Proof. intros Hwf Hc He. pose proof (wfa_state _ (wf_current _ _ Hwf Hc)). rewrite He in *. set_solver. Qed.

Lemma Finish_at j a o now :
  currentLocked j = Some a -> isOpen a = true -> admits o (a_state a) = true ->
  Finish j o now = Ok (settled j a o now, j_lease j).
Proof.
  intros Hc Ho Ha. unfold Finish, withOpenAttemptLease, withOpenAttempt. rewrite Hc, Ho. simpl.
  unfold finish. rewrite IsSettled_isOpen, Ho, Ha. unfold admits in Ha. by destruct o.
Qed.

Lemma currentLocked_settled j a o now :
  currentLocked j = Some a ->
  currentLocked (settled j a o now) = Some (mkAttempt (a_state a) StateUnset ActNone o
    (a_assessed a) (a_started a) now).
Proof. apply currentLocked_setCurrent. Qed.

(** Cancelled and Failed are admissible at every declared position. *)
Lemma admits_anywhere o s :
  o = OutcomeCancelled \/ o = OutcomeFailed -> s ∈ AllStates -> admits o s = true.
Proof. intros [->| ->] Hs; by apply bool_decide_eq_true. Qed.

(** Over a settled attempt only the slot can be left to give back. *)
Lemma release_settled a st :
  pre st -> currentLocked (st_j st) = Some a -> isOpen a = false ->
  exists st', releaseFor StateUnset st = (tt, st') /\ frame 0 st st' /\ step_ok st st' /\
    idle st' /\
    st_j st' = st_j st /\ st_abort st' = st_abort st.
Proof.
  intros P Hc Ho. destruct (step_ok_release st P) as (st' & E & F & Hso & Hj & Ha & Hq & Hh).
  exists st'. split_and!; try done. split; rewrite Hj; [|rewrite Hh; set_solver].
  destruct (j_lease (st_j st)) as [l|] eqn:Hl; [|done].
  destruct (wfj_lease _ (g_wf _ (pre_good _ P)) l Hl) as (_ & ? & ? & ? & _). simplify_eq. congruence.
Qed.

Lemma BeginAttempt_first j now :
  currentLocked j = None -> exists j', BeginAttempt j now = Ok j' /\
    currentLocked j' = Some (newAttempt now).
Proof.
  intros Hc. unfold BeginAttempt. rewrite Hc. eexists. split; [done|].
  unfold currentLocked; simpl. by rewrite last_snoc.
Qed.

Lemma finishCancel_spec now st :
  pre st -> exists st', finishCancel (Job_Snapshot (st_j st)) now st = (None, st') /\
    step_ok st st' /\ cancel_result st st' now.
Proof.
  intros P. pose proof P as [G S Hn]. pose proof (g_wf _ G) as Hwf. unfold cancel_result.
  destruct (currentLocked (st_j st)) as [a|] eqn:Hc.
  - rewrite (Snapshot_Some _ _ Hc). unfold finishCancel; simpl.
    rewrite bool_decide_eq_false_2 by (by eapply wf_state_set).
    rewrite IsSettled_isOpen. destruct (isOpen a) eqn:Ho; simpl.
    + unfold qbind, q_running, cancelInterrupts; simpl.
      destruct (running _ _ _) eqn:Hr; simpl.
      * destruct (IsProduction (a_state a)); simpl; eexists; (split; [done|]); (split; [|done]).
        -- by apply step_ok_refl.
        -- by apply step_ok_abort.
      * pose proof (settleLocked_spec OutcomeCancelled (Job_Snapshot (st_j st)) now st P) as Hs.
        assert (settle_verdict OutcomeCancelled (Job_Snapshot (st_j st)) = OutcomeCancelled) as Hv
          by (unfold settle_verdict; by destruct (_ && _)).
        rewrite Hv, (Finish_at _ a) in Hs; [|done..|apply admits_anywhere;
          [by left|by eapply wfa_state, wf_current]].
        rewrite (Snapshot_Some _ _ Hc) in Hs.
        destruct Hs as (st' & E & Hso & Hi & Hj & Ha). exists st'. eauto 10.
    + destruct (release_settled a st P Hc Ho) as (st' & E & _ & Hso & Hid & Hj & Ha).
      unfold qbind. rewrite E. by exists st'.
  - rewrite (Snapshot_None _ Hc). exists st. split_and!; [done|by apply step_ok_refl|done].
Qed.

(** Doors of [Job] that move the open attempt. *)
Lemma withOpenAttempt_at j a fn a' :
  currentLocked j = Some a -> isOpen a = true -> fn a = Ok a' ->
  withOpenAttempt j fn = Ok (setCurrent j a').
Proof. intros Hc Ho Hf. unfold withOpenAttempt. by rewrite Hc, Ho, Hf. Qed.

(** A recorded destination can be taken by its door. *)
Lemma transition_next a :
  a_next a <> StateUnset -> CanTransition (a_state a) (a_next a) = true ->
  IsCorrectness (a_state a) && IsProduction (a_next a) = false ->
  exists a', transition a (a_next a) = Ok a' /\ a_state a' = a_next a /\ a_next a' = StateUnset /\
    a_outcome a' = a_outcome a /\ crossed a' = crossed a.
Proof.
  intros Hn Hc Hx. unfold transition.
  rewrite bool_decide_eq_false_2 by done. rewrite bool_decide_eq_false_2 by naive_solver.
  destruct a as [s n ? ? ? ? ?]; unfold crossed; simpl in *.
  destruct (CanTransition_cases _ _ Hc) as [[-> ->]|[[-> ->]|[[-> ->]|[[-> ->]|[[-> ->]|[-> ->]]]]]];
    simpl in *; try discriminate Hx; eexists; (split; [reflexivity|done]).
Qed.

Lemma cross_next a :
  IsCorrectness (a_state a) && IsProduction (a_next a) = true ->
  CanTransition (a_state a) (a_next a) = true ->
  a_next a = Extracting /\
  cross a Extracting = Ok (mkAttempt Extracting StateUnset ActNone (a_outcome a) (a_assessed a)
    (a_started a) (a_ended a)).
Proof.
  intros Hx Hc. destruct a as [s n ? ? ? ? ?]; simpl in *.
  destruct (CanTransition_cases _ _ Hc) as [[-> ->]|[[-> ->]|[[-> ->]|[[-> ->]|[[-> ->]|[-> ->]]]]]];
    simpl in *; try discriminate Hx. done.
Qed.

(** [slot_ok] read at the current attempt. *)
Lemma slot_ok_current j a :
  currentLocked j = Some a -> slot_ok j <-> isOpen a = true /\ needsSlot (a_state a) = true.
Proof.
  intros Hc. unfold slot_ok. split; [|by eauto]. intros (b & ? & ? & ?). by simplify_eq.
Qed.

(** Granting in place: the attempt does not move. *)
Lemma step_ok_grant st a :
  pre st -> currentLocked (st_j st) = Some a -> isOpen a = true ->
  exists b st', grantFor (a_state a) st = (b, st') /\ step_ok st st'.
Proof.
  intros [G S Hn] Hc Ho.
  destruct (grantFor_spec (a_state a) st G Hn) as (b & st' & E & F & G' & B & Ea & Hj & Hs & _ & _).
  exists b, st'. split; [done|]. split; auto. unfold slotted. rewrite (fr_id _ _ _ F).
  intros Hin. assert (currentLocked (st_j st') = Some a) as Hc' by (by destruct Hj as [->|[l ->]]).
  apply (slot_ok_current _ _ Hc'). split; [done|].
  destruct (Hs Hin) as [Hin'|[? _]]; [|done]. apply S in Hin'. by destruct (proj1 (slot_ok_current _ _ Hc) Hin').
Qed.

(** [running] read at the current attempt. *)
Lemma running_at q j a :
  wf_job j -> currentLocked j = Some a ->
  running q (j_id j) (Job_Snapshot j) = true <->
  isOpen a = true /\ a_next a = StateUnset /\
  (needsLease (a_state a) = true -> HoldsLease j = true) /\
  (needsSlot (a_state a) = true -> j_id j ∈ sp_held (q_slots q)).
Proof.
  intros Hwf Hc. rewrite (Snapshot_Some _ _ Hc). unfold running, holds, Snapshot_IsOpen; simpl.
  rewrite IsSettled_isOpen, negb_involutive.
  rewrite (bool_decide_eq_false_2 (a_state a = StateUnset)) by (by eapply wf_state_set).
  unfold slot_holds.
  destruct (isOpen a), (needsLease (a_state a)), (HoldsLease j), (needsSlot (a_state a)); simpl;
    repeat case_bool_decide; simpl; naive_solver.
Qed.

(** [slotted] after the open attempt became [a']. *)
Lemma slotted_at st' a' :
  currentLocked (st_j st') = Some a' -> isOpen a' = true ->
  (needsSlot (a_state a') = false -> j_id (st_j st') ∉ sp_held (q_slots (st_q st'))) ->
  slotted st'.
Proof.
  intros Hc Ho Hn Hin. apply (slot_ok_current _ _ Hc). split; [done|].
  destruct (needsSlot (a_state a')); [done|]. by destruct Hn.
Qed.

Lemma setCurrent_steps_frame st j' s :
  jstep (st_j st) j' -> j_lease j' = j_lease (st_j st) -> good st ->
  exists st', releaseFor s (mkSt (st_q st) j' (st_abort st)) = (tt, st') /\
    frame 0 st st' /\ good st' /\ bounded st st' /\ st_j st' = j' /\ st_abort st' = st_abort st /\
    (needsSlot s = false -> j_id j' ∉ sp_held (q_slots (st_q st'))) /\
    (needsSlot s = true -> sp_held (q_slots (st_q st')) = sp_held (q_slots (st_q st))).
Proof.
  intros Hs Hl G. assert (rtc jstep (st_j st) j') as Hr by (by apply rtc_once).
  destruct (releaseFor_spec s (mkSt (st_q st) j' (st_abort st)))
    as (st' & E & F & Ej & Ea & Eq & H1 & H2). simpl in *.
  assert (frame 0 st (mkSt (st_q st) j' (st_abort st))) as F0 by (destruct st; by apply frame_job).
  assert (good (mkSt (st_q st) j' (st_abort st))) as G0 by (destruct st; by eapply good_job).
  exists st'. split_and!; try done.
  - by apply (frame_trans 0 0 _ _ _ F0).
  - by apply (good_release (mkSt (st_q st) j' (st_abort st))).
  - split; rewrite ?Eq; [lia|]. destruct (needsSlot s).
    + rewrite H1 by done. simpl. lia.
    + rewrite H2 by done. pose proof (size_difference_le (sp_held (q_slots (st_q st))) {[j_id j']}). lia.
  - intros Hf. rewrite H2 by done. set_solver.
  - intros Hf. by rewrite H1.
Qed.

Lemma moveTo_spec a st :
  pre st -> currentLocked (st_j st) = Some a -> isOpen a = true -> a_next a <> StateUnset ->
  IsCorrectness (a_state a) && IsProduction (a_next a) = false ->
  exists st', moveTo (a_state a) (a_next a) st = (None, st') /\ step_ok st st' /\
    st_abort st' = st_abort st /\
    (currentLocked (st_j st') = Some a \/ arrived a st') /\
    (room_for st (a_next a) -> moved a st').
Proof.
  intros P Hc Ho Hn Hx. pose proof P as [G S Hb].
  pose proof (wf_current _ _ (g_wf _ G) Hc) as Hwa.
  destruct (wfa_next _ Hwa) as [?|Hct]; [done|].
  destruct (transition_next _ Hn Hct Hx) as (a' & Et & Es & En & Eo & Ec).
  destruct (grantFor_spec (a_next a) st G Hb) as (b & st1 & E1 & F1 & G1 & B1 & Ea1 & Hj1 & Hs1 & Ht1 & Hr1).
  assert (currentLocked (st_j st1) = Some a) as Hc1 by (by destruct Hj1 as [->|[l ->]]).
  unfold moveTo, qbind. rewrite E1. destruct b; simpl.
  - assert (Transition (st_j st1) (a_next a) = Ok (setCurrent (st_j st1) a')) as Etr
      by (by apply (withOpenAttempt_at _ a)).
    unfold call. rewrite Etr. simpl.
    destruct (setCurrent_steps_frame st1 (setCurrent (st_j st1) a') (a_next a))
      as (st2 & E2 & F2 & G2 & B2 & Ej2 & Ea2 & Hs2 & Hk2); [|done|done|].
    { by eapply js_transition. }
    rewrite E2. exists st2. split; [done|].
    assert (currentLocked (st_j st2) = Some a') as Hc2
      by (rewrite Ej2; by eapply currentLocked_setCurrent).
    assert (isOpen a' = true) as Ho' by (unfold isOpen in *; by rewrite Eo).
    assert (arrived a st2) as Har by (exists a'; eauto).
    split_and!; [split|congruence|by right|].
    + apply (frame_trans 1 0 _ _ _ F1 F2).
    + done.
    + eapply slotted_at; [done|done|]. rewrite Es, Ej2. done.
    + by apply (bounded_trans st st1).
    + intros _. split; [|done].
      destruct (Ht1 eq_refl) as [Hl Hsl]. unfold st_running. apply (running_at _ _ a'); [apply G2|done|].
      rewrite Es, En, Ej2. split_and!; [done|done|done|]. intros Hns. rewrite (Hk2 Hns). simpl.
      rewrite (fr_id _ _ _ F1). auto.
  - exists st1. split; [done|]. split_and!; [split|congruence|by left|].
    + done.
    + done.
    + intros Hin. rewrite (fr_id _ _ _ F1) in Hin. destruct (Hs1 Hin) as [Hin'|[_ ?]]; [|done].
      apply (slot_ok_current _ _ Hc1). apply (slot_ok_current _ _ Hc). auto.
    + done.
    + intros [Hl Hs]. discriminate Hr1; [|done]. intros Hnl. destruct (Hl Hnl); [by left|right].
      split; [done|]. exists a. split_and!; [done|done|].
      rewrite <- Ec. unfold crossed. rewrite Es. by destruct (a_next a).
Qed.

(** Crossing: the lease comes back and the attempt is at [Extracting]. *)
Lemma cross_reclaim a st :
  pre st -> currentLocked (st_j st) = Some a -> isOpen a = true ->
  IsCorrectness (a_state a) && IsProduction (a_next a) = true -> a_next a <> StateUnset ->
  exists j' st', Cross (st_j st) (a_next a) = Ok (j', j_lease (st_j st)) /\
    reclaim (j_lease (st_j st)) (mkSt (st_q st) j' (st_abort st)) = (None, st') /\
    frame 0 st st' /\ good st' /\ slotted st' /\ bounded st st' /\ arrived a st' /\
    st_abort st' = st_abort st /\ q_slots (st_q st') = q_slots (st_q st) /\ HoldsLease (st_j st') = false.
Proof.
  intros P Hc Ho Hx Hn. pose proof P as [G S Hb].
  destruct (wfa_next _ (wf_current _ _ (g_wf _ G) Hc)) as [?|Hct]; [done|].
  destruct (cross_next _ Hx Hct) as [He Hcr]. set (a' := mkAttempt _ _ _ _ _ _ _) in Hcr.
  set (j' := setLease (setCurrent (st_j st) a') None).
  assert (Cross (st_j st) (a_next a) = Ok (j', j_lease (st_j st))) as Ecr.
  { unfold Cross, withOpenAttemptLease. rewrite He.
    by rewrite (withOpenAttempt_at _ a _ a' Hc Ho Hcr). }
  assert (jstep (st_j st) j') as Hs by (by eapply js_cross).
  destruct (reclaim_own (mkSt (st_q st) j' (st_abort st)) st)
    as (st2 & E2 & Fj & Fb & Fs & Fp & Fc & Fn & Fi); [done|done|done|]. simpl in *.
  exists j', st2. split_and!; try done.
  - pose proof G as [G1 G2 G3 G4]. split; rewrite ?Fj, ?Fs, ?Fc, ?Fn, ?Fp, ?Fi; simpl; try done; try lia.
    + by apply rtc_once.
    + set_solver.
    + by left.
  - pose proof G as [G1 G2 G3 G4]. split; rewrite ?Fj, ?Fn, ?Fi; [by eapply wf_jstep|done|set_solver|done].
  - unfold slotted. rewrite Fj, Fs. intros Hin. apply (slot_ok_current _ a'); [|done].
    by eapply currentLocked_setCurrent.
  - split; rewrite ?Fs, ?Fi; [|lia].
    pose proof (size_difference_le (lp_issued (q_leases (st_q st))) (own (st_j st))). lia.
  - exists a'. rewrite Fj. split_and!; try done. by eapply currentLocked_setCurrent.
  - by rewrite Fj.
Qed.

Lemma cross_branch_spec a st :
  pre st -> currentLocked (st_j st) = Some a -> isOpen a = true ->
  IsCorrectness (a_state a) && IsProduction (a_next a) = true -> a_next a <> StateUnset ->
  exists j' st1 b st', Cross (st_j st) (a_next a) = Ok (j', j_lease (st_j st)) /\
    reclaim (j_lease (st_j st)) (mkSt (st_q st) j' (st_abort st)) = (None, st1) /\
    grantFor (a_next a) st1 = (b, st') /\ step_ok st st' /\ st_abort st' = st_abort st /\
    arrived a st' /\ (room_for st (a_next a) -> moved a st').
Proof.
  intros P Hc Ho Hx Hn. pose proof P as [G S Hb].
  destruct (cross_reclaim a st P Hc Ho Hx Hn)
    as (j' & st1 & Ecr & Er & F1 & G1 & S1 & B1 & Har & Ea1 & Hsl & Hhl).
  assert (lp_next (q_leases (st_q st1)) + 1 < 2 ^ 64) as Hb1 by (destruct F1; lia).
  destruct (grantFor_spec (a_next a) st1 G1 Hb1)
    as (b & st2 & E2 & F2 & G2 & B2 & Ea2 & Hj2 & Hs2 & Ht2 & Hr2).
  exists j', st1, b, st2. destruct Har as (a' & Hc' & Ho' & Hs' & Hn').
  assert (currentLocked (st_j st2) = Some a') as Hc2 by (by destruct Hj2 as [->|[l ->]]).
  assert (arrived a st2) as Har2 by (exists a'; auto).
  destruct (wfa_next _ (wf_current _ _ (g_wf _ G) Hc)) as [?|Hct]; [done|].
  destruct (cross_next _ Hx Hct) as [He _].
  split_and!; try done; [split|congruence|].
  - apply (frame_trans 0 1 _ _ _ F1 F2).
  - done.
  - apply (slotted_at _ a'); [done|done|]. by rewrite Hs', He.
  - by apply (frame_bounded_trans st st1).
  - intros [_ Hs]. split; [|done]. apply (running_at _ _ a'); [apply G2|done|].
    rewrite Hs', He in *. simpl in *. split_and!; [done..|]. intros _.
    destruct (Ht2 ltac:(apply Hr2; [done|]; intros _; unfold slot_room; rewrite Hsl, (fr_id _ _ _ F1); auto))
      as [_ Hh]. rewrite (fr_id _ _ _ F2). by apply Hh.
Qed.

(** The open branches of [Advance]. *)
Lemma advance_in_place a st :
  pre st -> currentLocked (st_j st) = Some a -> isOpen a = true -> a_next a = StateUnset ->
  exists b st', grantFor (a_state a) st = (b, st') /\ step_ok st st' /\
    currentLocked (st_j st') = Some a /\ (room_for st (a_state a) -> st_running st' = true).
Proof.
  intros P Hc Ho Hn. pose proof P as [G S Hb].
  destruct (step_ok_grant st a P Hc Ho) as (b & st' & E & Hok).
  destruct (grantFor_spec (a_state a) st G Hb) as (b1 & st1 & E1 & F & G1 & _ & _ & Hj & _ & Ht & Hr).
  assert (b1 = b /\ st1 = st') as [-> ->] by (split; congruence).
  assert (currentLocked (st_j st') = Some a) as Hc' by (by destruct Hj as [->|[l ->]]).
  exists b, st'. split_and!; try done. intros [Hl Hs].
  destruct Ht as [Ht1 Ht2]; [apply Hr; [|done]|].
  - intros Hnl. destruct (Hl Hnl); [by left|right]. split; [done|]. exists a. split_and!; [done..|].
    unfold crossed. by destruct (a_state a).
  - apply (running_at _ _ a); [apply G1|done|]. rewrite (fr_id _ _ _ F). auto.
Qed.

Lemma Advance_open a now st :
  pre st -> currentLocked (st_j st) = Some a -> isOpen a = true ->
  j_intent (st_j st) <> IntentCancel ->
  exists st', Advance now st = (None, st') /\ step_ok st st' /\
    if st_running st then st' = st
    else match gatedBy (st_q st) (Job_Snapshot (st_j st)) with
         | Some _ => idle st' /\ st_j st' = setLease (st_j st) None
         | None =>
             (currentLocked (st_j st') = Some a \/ (a_next a <> StateUnset /\ arrived a st')) /\
             (a_next a = StateUnset -> room_for st (a_state a) -> st_running st' = true) /\
             (a_next a <> StateUnset -> room_for st (a_next a) -> moved a st')
         end.
Proof.
  intros P Hc Ho Hi. pose proof P as [G S Hb].
  assert (holds (st_q st) (j_id (st_j st)) (Job_Snapshot (st_j st)) &&
          bool_decide (a_next a = StateUnset) = st_running st) as Hrun.
  { unfold st_running, running. rewrite (Snapshot_Some _ _ Hc). unfold Snapshot_IsOpen; simpl.
    rewrite IsSettled_isOpen, Ho. simpl. apply andb_comm. }
  unfold Advance, qbind at 1. cbn [getSnapshot]. cbv zeta. rewrite (Snapshot_Some _ _ Hc) in *; simpl.
  rewrite (bool_decide_eq_false_2 _ Hi).
  rewrite (bool_decide_eq_false_2 (a_state a = StateUnset)) by (by eapply wf_state_set, Hc; apply G).
  rewrite IsSettled_isOpen, Ho. simpl. rewrite <- Hrun.
  destruct (step_ok_park st P) as (stp & Ep & Hp & Hip & Hjp & _).
  destruct (decide (a_next a = StateUnset)) as [Hn|Hn].
  - rewrite !(bool_decide_eq_true_2 _ Hn), andb_true_r. unfold qbind, q_holds, q_gatedBy.
    destruct (holds _ _ _); [exists st; auto using step_ok_refl|].
    destruct (gatedBy _ _); [by exists stp|].
    destruct (advance_in_place a st P Hc Ho Hn) as (b & st' & E & Hok & Hc' & Hr).
    rewrite E. exists st'. split_and!; auto; done.
  - rewrite !(bool_decide_eq_false_2 _ Hn), andb_false_r. unfold qbind, q_gatedBy.
    destruct (gatedBy _ _); [by exists stp|].
    destruct (IsCorrectness (a_state a) && IsProduction (a_next a)) eqn:Hx.
    + destruct (cross_branch_spec a st P Hc Ho Hx Hn)
        as (j' & st1 & b & st' & Ec & Er & Eg & Hok & _ & Har & Hm).
      unfold callLease. rewrite Ec, Er, Eg. exists st'. split_and!; auto; done.
    + destruct (moveTo_spec a st P Hc Ho Hn Hx) as (st' & E & Hok & _ & Har & Hm).
      exists st'. split_and!; auto; try done. destruct Har; auto.
Qed.

Lemma Advance_spec now st :
  pre st -> exists st', Advance now st = (None, st') /\ step_ok st st' /\ advance_result st st' now.
Proof.
  intros P. pose proof P as [G S Hb]. unfold advance_result. cbv zeta.
  case_bool_decide as Hi.
  { unfold Advance, qbind at 1. cbn [getSnapshot]. cbv zeta.
    change (s_intent _) with (j_intent (st_j st)). rewrite (bool_decide_eq_true_2 _ Hi).
    by apply finishCancel_spec. }
  destruct (currentLocked (st_j st)) as [a|] eqn:Hc; [destruct (isOpen a) eqn:Ho|].
  - by apply Advance_open.
  - unfold Advance, qbind at 1. cbn [getSnapshot]. rewrite (Snapshot_Some _ _ Hc); simpl.
    rewrite (bool_decide_eq_false_2 _ Hi), bool_decide_eq_false_2 by (by eapply wf_state_set, Hc; apply G).
    rewrite IsSettled_isOpen, Ho. simpl.
    destruct (release_settled a st P Hc Ho) as (st' & E & _ & Hok & Hid & Hj & _).
    unfold qbind. rewrite E. exists st'. auto.
  - unfold Advance, qbind at 1. cbn [getSnapshot]. rewrite (Snapshot_None _ Hc); simpl.
    rewrite (bool_decide_eq_false_2 _ Hi). unfold qbind, q_gatedBy; simpl.
    destruct (gatedBy _ _); [exists st; auto using step_ok_refl|].
    destruct (BeginAttempt_first (st_j st) now Hc) as (j' & Eb & Hc').
    unfold call. rewrite Eb. eexists. split_and!; [done| |done|done].
    apply step_ok_job; [done|by eapply js_begin|by eapply BeginAttempt_lease|].
    intros (b & ? & _). congruence.
Qed.

Lemma Cancel_spec now st :
  pre st ->
  exists st1 st', SetIntent (st_j st) IntentCancel = Ok (st_j st1) /\ st_q st1 = st_q st /\
    st_abort st1 = st_abort st /\ Cancel now st = (None, st') /\ step_ok st st' /\
    cancel_result st1 st' now.
Proof.
  intros P. pose proof P as [G S Hb].
  assert (exists j', SetIntent (st_j st) IntentCancel = Ok j') as [j' Ej].
  { unfold SetIntent. rewrite bool_decide_eq_true_2 by set_solver. simpl.
    destruct (IsLatched (j_intent (st_j st))) eqn:El; [|eauto].
    apply bool_decide_eq_true in El. rewrite El. eauto. }
  set (st1 := mkSt (st_q st) j' (st_abort st)).
  assert (jstep (st_j st) j') as Hs by (by eapply js_setIntent).
  assert (step_ok st st1) as Hok.
  { apply step_ok_job; [done|done|by eapply SetIntent_lease|].
    unfold SetIntent in Ej. by case_in Ej. }
  assert (pre st1) as P1 by (split; [apply Hok|apply Hok|done]).
  destruct (finishCancel_spec now st1 P1) as (st' & E & Hok' & Hr).
  exists st1, st'. split_and!; try done.
  - unfold Cancel, qbind, call. rewrite Ej. exact E.
  - apply (step_ok_trans st st1); [|done..].
    destruct st. apply frame_job; [by apply rtc_once|by eapply SetIntent_lease].
Qed.

Lemma SetNext_at j a n :
  currentLocked j = Some a -> isOpen a = true -> a_next a = StateUnset -> n <> StateUnset ->
  SetNext j n = if CanTransition (a_state a) n then Ok (recorded j a n) else Err ErrIllegalTransition.
Proof.
  intros Hc Ho Hn Hne. unfold SetNext, withOpenAttempt. rewrite Hc, Ho. simpl.
  unfold setNext. rewrite bool_decide_eq_false_2 by done.
  destruct (CanTransition _ _); [|done]. simpl. rewrite bool_decide_eq_false_2 by naive_solver. done.
Qed.

(** The three ways [Handoff] hands off. *)
Lemma Handoff_record a next st :
  pre st -> currentLocked (st_j st) = Some a -> isOpen a = true -> a_next a = StateUnset ->
  next <> StateUnset -> CanTransition (a_state a) next = true ->
  exists st', parkLocked (mkSt (st_q st) (recorded (st_j st) a next) (st_abort st)) = (None, st') /\
    step_ok st st' /\ idle st' /\ st_j st' = setLease (recorded (st_j st) a next) None.
Proof.
  intros P Hc Ho Hn Hne Hct. pose proof P as [G S Hb].
  set (st1 := mkSt (st_q st) (recorded (st_j st) a next) (st_abort st)).
  assert (SetNext (st_j st) next = Ok (recorded (st_j st) a next)) as Es
    by (by rewrite (SetNext_at _ a), Hct).
  assert (jstep (st_j st) (st_j st1)) as Hs by (by eapply js_setNext).
  assert (step_ok st st1) as Hok.
  { apply step_ok_job; [done..|]. intros Hsl. apply (slot_ok_current _ _ Hc) in Hsl.
    eapply slot_ok_current; [by eapply currentLocked_setCurrent|]. done. }
  assert (pre st1) as P1 by (split; [apply Hok|apply Hok|done]).
  destruct (step_ok_park st1 P1) as (st' & E & [F' ? ? ?] & Hi & Hj & _). exists st'. split_and!; try done.
  apply (step_ok_trans st st1); [|done|by split].
  destruct st. apply frame_job; [by apply rtc_once|done].
Qed.

Lemma Handoff_spec from next now st :
  pre st -> step_ok st (snd (Handoff from next now st)) /\
    handoff_result st from next now (Handoff from next now st).
Proof.
  intros P. destruct (Handoff from next now st) as [r st'] eqn:E. unfold handoff_result.
  unfold Handoff, qret, qbind at 1 in E. cbn [getSnapshot] in E.
  destruct (currentLocked (st_j st)) as [a|] eqn:Hc.
  2:{ rewrite (Snapshot_None _ Hc) in E. simplify_eq/=. by split; [apply step_ok_refl|]. }
  rewrite (Snapshot_Some _ _ Hc) in *. unfold Snapshot_IsOpen in E; simpl in E.
  rewrite IsSettled_isOpen, !negb_involutive in E.
  destruct (isOpen a) eqn:Ho; simpl in *; [|simplify_eq/=; by split; [apply step_ok_refl|]].
  destruct (decide (a_state a = from)) as [<-|Hf].
  2:{ rewrite (bool_decide_eq_true_2 _ Hf) in E. rewrite (bool_decide_eq_false_2 _ Hf).
      simplify_eq/=; by split; [apply step_ok_refl|]. }
  destruct (decide (a_next a = StateUnset)) as [Hn|Hn].
  2:{ rewrite (bool_decide_eq_true_2 _ Hn), orb_true_r in E.
      rewrite (bool_decide_eq_false_2 _ Hn), andb_false_r.
      simplify_eq/=; by split; [apply step_ok_refl|]. }
  rewrite Hn in *. simpl. rewrite !bool_decide_eq_true_2 by done.
  rewrite !(bool_decide_eq_false_2 (_ <> _)) in E by naive_solver. simpl in *.
  destruct (decide (next = StateUnset)) as [->|Hne]; simpl in *.
  { destruct (step_ok_park st P) as (stp & Ep & Hp & Hip & Hjp & _).
    unfold qbind in E. simpl in E. rewrite Ep in E. simplify_eq/=. done. }
  rewrite (bool_decide_eq_true_2 _ Hne) in E. rewrite (bool_decide_eq_false_2 _ Hne).
  unfold qbind, call in E. rewrite (SetNext_at _ _ _ Hc Ho Hn Hne) in E.
  destruct (CanTransition (a_state a) next) eqn:Hct; simpl in *.
  - destruct (Handoff_record a next st P Hc Ho Hn Hne Hct) as (st2 & E2 & Hok & Hi & Hj).
    rewrite E2 in E. simplify_eq/=. done.
  - pose proof (settleLocked_spec OutcomeFailed (Job_Snapshot (st_j st)) now st P) as Hs.
    rewrite (Finish_at _ a) in Hs; [|done..|apply admits_anywhere;
      [unfold settle_verdict; destruct (_ && _); auto|eapply wfa_state, wf_current, Hc; apply P]].
    destruct Hs as (st2 & E2 & Hok & Hi & Hj & _). rewrite E2 in E. simplify_eq/=.
    rewrite (Snapshot_Some _ _ Hc) in Hj. done.
Qed.

Lemma Retry_spec now st :
  pre st -> step_ok st (snd (Retry now st)) /\
    match currentLocked (st_j st) with
    | Some a =>
        if isOpen a then Retry now st = (Some ErrNotSettled, st)
        else idle (snd (Retry now st)) /\
          if crossed a then
            fst (Retry now st) = Some (ErrJob ErrBoundaryConsumed) /\
            st_j (snd (Retry now st)) = st_j st
          else
            fst (Retry now st) = None /\
            BeginAttempt (st_j st) now = Ok (st_j (snd (Retry now st))) /\
            j_attempts (st_j (snd (Retry now st))) = j_attempts (st_j st) ++ [newAttempt now]
    | None => Retry now st = (Some ErrNotSettled, st)
    end.
Proof.
  intros P. destruct (Retry now st) as [r st'] eqn:E. unfold Retry, qret, qbind at 1 in E. cbn [getSnapshot] in E.
  destruct (currentLocked (st_j st)) as [a|] eqn:Hc.
  2:{ rewrite (Snapshot_None _ Hc) in E. simplify_eq/=. by split; [apply step_ok_refl|]. }
  rewrite (Snapshot_Some _ _ Hc) in E; simpl in E. rewrite IsSettled_isOpen, negb_involutive in E.
  destruct (isOpen a) eqn:Ho; [simplify_eq/=; by split; [apply step_ok_refl|]|].
  destruct (release_settled a st P Hc Ho) as (st1 & E1 & F & Hok & Hid & Hj & _).
  unfold qbind in E. rewrite E1 in E. unfold call in E. rewrite Hj in E.
  unfold BeginAttempt in *. rewrite Hc, Ho in *.
  destruct (crossed a) eqn:Hx; simplify_eq/=; [done|]. split_and!; try done.
  2:{ unfold idle in *. simpl. by rewrite Hj in Hid. }
  set (j' := mkJob _ _ _ _ _ _ _).
  assert (jstep (st_j st1) j') as Hs.
  { eapply (js_begin _ _ now). unfold BeginAttempt. by rewrite Hj, Hc, Ho, Hx. }
  assert (pre st1) as P1 by (split; [apply Hok..|destruct F, P; lia]).
  apply (step_ok_trans st st1); [done|done|]. apply step_ok_job; [done|done|by subst j'; simpl; rewrite Hj|].
  rewrite Hj. intros (b & ? & ? & _). congruence.
Qed.

Lemma Settle_spec o now st :
  pre st -> o <> OutcomeCancelled ->
  match Finish (st_j st) (settle_verdict o (Job_Snapshot (st_j st))) now with
  | Ok (j', _) => exists st', Settle o now st = (None, st') /\ step_ok st st' /\ idle st' /\
      st_j st' = j' /\ st_abort st' = st_abort st
  | Err e => Settle o now st = (Some (ErrJob e), st)
  end.
Proof.
  intros P Ho. pose proof (settleLocked_spec o (Job_Snapshot (st_j st)) now st P) as H.
  unfold Settle. by rewrite bool_decide_eq_false_2.
Qed.

(** Every door keeps what a door relies on. *)
Lemma door_ok d st : pre st -> step_ok st (snd (run_door d st)).
Proof.
  intros P. destruct d as [now|now|o now| |from next now|now]; simpl.
  - by destruct (Advance_spec now st P) as (st' & -> & ? & _).
  - by destruct (Cancel_spec now st P) as (st1 & st' & _ & _ & _ & -> & ? & _).
  - destruct (decide (o = OutcomeCancelled)) as [->|Ho]; [by apply step_ok_refl|].
    pose proof (Settle_spec o now st P Ho) as H. destruct (Finish _ _ _) as [[j' l]|e].
    + by destruct H as (st' & -> & ? & _).
    + rewrite H. by apply step_ok_refl.
  - unfold Park. by destruct (step_ok_park st P) as (st' & -> & ? & _).
  - unfold qbind. destruct (Handoff_spec from next now st P) as [H _].
    by destruct (Handoff from next now st) as [[] ?].
  - by destruct (Retry_spec now st P).
Qed.

(** ** The world *)
Lemma winv_pre n w k j b :
  winv n w -> w_jobs w !! k = Some j -> Z.of_nat n + 1 < 2 ^ 64 -> pre (mkSt (w_q w) j b).
Proof.
  intros [I1 I2 I3 I4 I5 I6] Hk Hn. destruct (I1 _ _ Hk) as [<- Hwf]. split.
  - split; simpl; [done|intros; by eapply I2|intros ? ?%I4; tauto|lia].
  - intros Hin. simpl in Hin. destruct (I5 _ Hin) as (j2 & Hj2 & ?). simpl. by simplify_eq.
  - simpl. lia.
Qed.

(** A door on one registered job keeps the accounting of the whole world. *)
Lemma winv_step n w k j st' :
  winv n w -> w_jobs w !! k = Some j -> step_ok (mkSt (w_q w) j false) st' ->
  winv (S n) (mkWorld (st_q st') (<[k := st_j st']> (w_jobs w))).
Proof.
  intros [I1 I2 I3 I4 I5 I6] Hk [F G S _]. destruct (I1 _ _ Hk) as [Hjk Hwf].
  destruct F as [F1 F2 F3 F4 F5 F6 F7 F8 F9]; simpl in *. destruct G as [G1 G2 G3 G4].
  assert (Hold : forall k2 j2 l, k2 <> k -> w_jobs w !! k2 = Some j2 -> j_lease j2 = Some l ->
    j_lease (st_j st') <> Some l /\ l ∈ lp_issued (q_leases (st_q st'))).
  { intros k2 j2 l Hne Hk2 Hl. pose proof (I2 _ _ _ Hk2 Hl) as Hin.
    assert (j_lease j <> Some l) as Hjl by (intros Hjl; by eapply Hne, (I3 k2 k)).
    assert (j_lease (st_j st') <> Some l) as Hnl.
    { destruct F8 as [->|[->|(l' & -> & ?)]]; [done|done|]. intros ?; simplify_eq.
      destruct (I4 _ Hin). lia. }
    split; [done|]. unfold own in F7.
    destruct (j_lease (st_j st')), (j_lease j); set_solver. }
  split; simpl.
  - intros k2 j2 [[<- <-]|[Hne H2]]%lookup_insert_Some; [|eauto]. split; [congruence|done].
  - intros k2 j2 l [[<- <-]|[Hne H2]]%lookup_insert_Some; [auto|]. by eapply Hold.
  - intros k1 k2 j1 j2 l [[<- <-]|[Hne1 H1]]%lookup_insert_Some [[<- <-]|[Hne2 H2]]%lookup_insert_Some Hl1 Hl2;
      [done|by edestruct (Hold k2)|by edestruct (Hold k1)|by eapply I3].
  - intros l Hin. split; [auto|]. destruct (decide (j_lease (st_j st') = Some l)) as [Hl|Hl].
    { exists k, (st_j st'). by rewrite lookup_insert_eq. }
    assert (l ∈ lp_issued (q_leases (w_q w)) /\ j_lease j <> Some l) as [Hin2 Hjl].
    { unfold own in F7. destruct (j_lease (st_j st')), (j_lease j); set_solver. }
    destruct (I4 _ Hin2) as (_ & k2 & j2 & Hk2 & Hl2). exists k2, j2.
    rewrite lookup_insert_ne; [done|]. intros ->. congruence.
  - intros k2 Hin. destruct (decide (k2 = k)) as [->|Hne].
    { exists (st_j st'). rewrite lookup_insert_eq. split; [done|]. apply S. congruence. }
    rewrite lookup_insert_ne by done. apply I5. set_solver.
  - lia.
Qed.

Lemma job_call_step j j' :
  job_call j j' -> jstep j j' /\ j_lease j' = j_lease j /\ (slot_ok j -> slot_ok j').
Proof.
  intros [j1 j2 i E|j1 j2 x E|j1 p].
  - split; [by eapply js_setIntent|]. unfold SetIntent in E. by case_in E.
  - split; [by eapply js_setActivity|]. split; [by eapply withOpenAttempt_lease|].
    apply withOpenAttempt_inv in E as (a & a' & Hc & Ho & E & ->). simplify_eq.
    intros Hs%(slot_ok_current _ _ Hc). eapply slot_ok_current; [by eapply currentLocked_setCurrent|done].
  - split; [apply js_setPolicy|done].
Qed.

(** Registering a job that holds nothing. *)
Lemma winv_add n w j :
  winv n w -> wf_job j -> j_lease j = None -> w_jobs w !! j_id j = None ->
  winv (S n) (mkWorld (w_q w) (<[j_id j := j]> (w_jobs w))).
Proof.
  intros [I1 I2 I3 I4 I5 I6] Hwf Hl Hnone. split; simpl.
  - intros k2 j2 [[<- <-]|[Hne H2]]%lookup_insert_Some; eauto.
  - intros k2 j2 l [[<- <-]|[Hne H2]]%lookup_insert_Some; [congruence|eauto].
  - intros k1 k2 j1 j2 l [[<- <-]|[? H1]]%lookup_insert_Some [[<- <-]|[? H2]]%lookup_insert_Some; try congruence.
    by eapply I3.
  - intros l Hin. destruct (I4 _ Hin) as (? & k2 & j2 & Hk2 & ?). split; [done|].
    exists k2, j2. rewrite lookup_insert_ne; [done|]. intros <-. congruence.
  - intros k2 Hin. destruct (I5 _ Hin) as (j2 & Hk2 & ?). exists j2.
    rewrite lookup_insert_ne; [done|]. intros <-. congruence.
  - lia.
Qed.

Lemma winv_remove n w k j :
  winv n w -> w_jobs w !! k = Some j -> j_lease j = None -> k ∉ sp_held (q_slots (w_q w)) ->
  winv (S n) (mkWorld (w_q w) (delete k (w_jobs w))).
Proof.
  intros [I1 I2 I3 I4 I5 I6] Hk Hl Hs. split; simpl.
  - intros k2 j2 [_ H2]%lookup_delete_Some. eauto.
  - intros k2 j2 l [_ H2]%lookup_delete_Some. eauto.
  - intros k1 k2 j1 j2 l [_ H1]%lookup_delete_Some [_ H2]%lookup_delete_Some. by eapply I3.
  - intros l Hin. destruct (I4 _ Hin) as (? & k2 & j2 & Hk2 & ?). split; [done|].
    exists k2, j2. rewrite lookup_delete_ne; [done|]. intros <-. congruence.
  - intros k2 Hin. destruct (I5 _ Hin) as (j2 & Hk2 & ?). exists j2.
    rewrite lookup_delete_ne; [done|]. intros <-. done.
  - lia.
Qed.

Lemma winv_weaken n w q :
  winv n w -> lp_next (q_leases q) = lp_next (q_leases (w_q w)) ->
  lp_issued (q_leases q) = lp_issued (q_leases (w_q w)) ->
  sp_held (q_slots q) = sp_held (q_slots (w_q w)) -> winv (S n) (mkWorld q (w_jobs w)).
Proof.
  intros [I1 I2 I3 I4 I5 I6] H1 H2 H3. split; simpl; rewrite ?H1, ?H2, ?H3; auto. lia.
Qed.

Lemma wreach_winv a b n w : wreach a b n w -> Z.of_nat n < 2 ^ 64 - 1 -> winv n w.
Proof.
  induction 1 as [|n w w' Hr IH Hs]; intros Hn.
  { split; simpl; try done; set_solver. }
  assert (winv n w) as I by (apply IH; lia). clear IH.
  destruct Hs as [w j Hj Hl Hk|w k j d Hk|w k j j' Hk Hc|w k j Hk Hl Hsl|w|w|w c d].
  - apply winv_add; auto using wf_reachable.
  - pose proof (winv_pre n w k j false I Hk ltac:(lia)) as P. unfold wdoor.
    pose proof (door_ok d _ P) as Hok. destruct (run_door d _) as [e st'].
    by apply (winv_step n w k j st').
  - pose proof (winv_pre n w k j false I Hk ltac:(lia)) as P.
    destruct (job_call_step _ _ Hc) as (Hs & Hl & Hsl).
    apply (winv_step n w k j (mkSt (w_q w) j' false)); [done|done|].
    by apply step_ok_job.
  - by eapply winv_remove.
  - by apply winv_weaken.
  - by apply winv_weaken.
  - by apply winv_weaken.
Qed.

Lemma wreach_pre a b n w k j f :
  wreach a b n w -> Z.of_nat n < 2 ^ 64 - 1 -> w_jobs w !! k = Some j -> pre (mkSt (w_q w) j f).
Proof. intros Hr Hn Hk. eapply winv_pre; [by eapply wreach_winv|done|lia]. Qed.

Lemma wrun_reach a b n w k d :
  wreach a b n w -> is_Some (w_jobs w !! k) -> wreach a b (S n) (wrun w k d).
Proof.
  intros Hr [j Hj]. unfold wrun. rewrite Hj. eapply wr_step; [done|]. by apply ws_door.
Qed.

Lemma ex_added_reach : wreach 1 1 1 ex_added.
Proof.
  eapply wr_step; [apply wr_init|].
  apply (ws_add (mkWorld (New 1 1) ∅) ex_job); [|reflexivity|reflexivity].
  by apply (jrun_reachable "j1" "name" (mkPolicy true true true true) 1 []).
Qed.

Lemma ex_fetching_reach : wreach 1 1 3 ex_fetching.
Proof.
  apply wrun_reach; [apply wrun_reach; [apply ex_added_reach|]|]; eexists; vm_compute; reflexivity.
Qed.

Lemma ex_handed_reach : wreach 1 1 4 ex_handed.
Proof. apply wrun_reach; [apply ex_fetching_reach|]; eexists; vm_compute; reflexivity. Qed.

(** ** Properties

    Each is about every world reachable from [New] in fewer than [2^64 - 1]
    steps, the point at which the lease counter would wrap. *)
Section Reachable.
  Context (a b : Z) (n : nat) (w : World) (k : string) (j : Job).
  Hypothesis Hreach : wreach a b n w.
  Hypothesis Hn : Z.of_nat n < 2 ^ 64 - 1.
  Hypothesis Hjob : w_jobs w !! k = Some j.


  #[local] Notation st := (mkSt (w_q w) j false).

Lemma reach_pre : pre st.
Proof using Hreach Hn Hjob. by eapply wreach_pre. Qed.

(** C3: pool accounting.  In every reachable world an issued lease is held by
    exactly one registered job, every lease a job holds is an issued one, and a
    compute slot is held only under the id of a job whose open attempt is at a
    position that needs one. *)
Theorem pool_accounting :
  (forall l, l ∈ lp_issued (q_leases (w_q w)) <->
     exists k1 j1, w_jobs w !! k1 = Some j1 /\ j_lease j1 = Some l) /\
  (forall l k1 k2 j1 j2, w_jobs w !! k1 = Some j1 -> w_jobs w !! k2 = Some j2 ->
     j_lease j1 = Some l -> j_lease j2 = Some l -> k1 = k2) /\
  (forall k1, k1 ∈ sp_held (q_slots (w_q w)) ->
     exists j1 at1, w_jobs w !! k1 = Some j1 /\ currentLocked j1 = Some at1 /\
       isOpen at1 = true /\ needsSlot (a_state at1) = true).
Proof.
  destruct (wreach_winv _ _ _ _ Hreach Hn) as [I1 I2 I3 I4 I5 I6]. split_and!.
  - intros l. split; [by intros [_ ?]%I4|]. intros (k1 & j1 & ? & ?). by eapply I2.
  - intros l k1 k2 j1 j2 ? ? ? ?. by eapply I3.
  - intros k1 (j1 & ? & at1 & ? & ? & ?)%I5. eauto 10.
Qed.

(** the scheduling tick never fails.  On a registered job [Advance],
    [Cancel] and [Park] return no error, at any position and under any pool
    pressure: every edge they take is legal and every lease they give back is
    one the pool issued. *)
Theorem doors_never_fail now :
  fst (wdoor w k j (DAdvance now)) = None /\ fst (wdoor w k j (DCancel now)) = None /\
  fst (wdoor w k j DPark) = None.
Proof.
  unfold wdoor; simpl.
  destruct (Advance_spec now st reach_pre) as (s1 & -> & _).
  destruct (Cancel_spec now st reach_pre) as (? & s2 & _ & _ & _ & -> & _).
  unfold Park. destruct (step_ok_park st reach_pre) as (s3 & -> & _). done.
Qed.

(** resources are never taken from a live worker.  Over a job that is
    running, [Advance] changes neither the queue nor the job; if the job is
    cancelled and short of the boundary it asks the worker to abort, and does
    nothing else. *)
Theorem Advance_spares_running now :
  running (w_q w) (j_id j) (Job_Snapshot j) = true ->
  Advance now st = (None, mkSt (w_q w) j
    (bool_decide (j_intent j = IntentCancel) && negb (job_crossed j))).
Proof.
  intros Hr. destruct (Advance_spec now st reach_pre) as (st' & E & _ & H). rewrite E. f_equal.
  unfold advance_result, cancel_result, job_crossed in *. simpl in *.
  destruct (currentLocked j) as [at1|] eqn:Hc.
  2:{ unfold running, Snapshot_IsOpen in Hr. by rewrite (Snapshot_None _ Hc) in Hr. }
  assert (isOpen at1 = true) as Ho by (by eapply running_at in Hr; [|apply reach_pre|]; [destruct Hr|]).
  rewrite Ho in H. unfold st_running in H; simpl in H. rewrite Hr in H.
  case_bool_decide; [|done]. rewrite H. unfold crossed. by destruct (IsProduction _).
Qed.

(** progress.  If a job is not cancelled and not paused and the pools have
    what its next position needs, one [Advance] leaves it running there: at the
    position it recorded it continues to, across the boundary included, or in
    place when it recorded none. *)
Theorem Advance_progress now at1 :
  currentLocked j = Some at1 -> isOpen at1 = true -> j_intent j <> IntentCancel ->
  gatedBy (w_q w) (Job_Snapshot j) = None ->
  let want := if bool_decide (a_next at1 = StateUnset) then a_state at1 else a_next at1 in
  room_for st want ->
  let st' := snd (Advance now st) in
  running (st_q st') k (Job_Snapshot (st_j st')) = true /\
  exists at2, currentLocked (st_j st') = Some at2 /\ isOpen at2 = true /\
    a_state at2 = want /\ a_next at2 = StateUnset.
Proof.
  intros Hc Ho Hi Hg want Hroom st'. destruct (Advance_open at1 now st reach_pre Hc Ho Hi) as (st2 & E & Hok & H).
  assert (st' = st2) as -> by (unfold st'; by rewrite E).
  assert (j_id (st_j st2) = k) as Hk.
  { destruct Hok as [F _ _ _]. rewrite (fr_id _ _ _ F).
    by destruct (wi_job _ _ (wreach_winv _ _ _ _ Hreach Hn) _ _ Hjob). }
  rewrite <- Hk. fold (st_running st2). revert want Hroom. case_bool_decide as Hnx; intros want Hroom.
  - destruct (st_running st) eqn:Hr; [rewrite H; eauto 10|].
    change (st_q st) with (w_q w) in H. change (st_j st) with j in H. rewrite Hg in H.
    destruct H as (Ha & Hb & _). split; [auto|]. destruct Ha as [?|[? _]]; [eauto 10|done].
  - assert (st_running st = false) as Hr.
    { apply not_true_is_false. intros Hr. eapply running_at in Hr; [|apply reach_pre|done]. naive_solver. }
    rewrite Hr in H. change (st_q st) with (w_q w) in H. change (st_j st) with j in H. rewrite Hg in H.
    destruct H as (_ & _ & Hm). by apply Hm.
Qed.

(** a paused job gives its resources back and keeps its place.  Over an
    open job that is not running, under a user or a global pause, [Advance]
    leaves it holding no lease and no slot and changes nothing else of it, the
    recorded destination included. *)
Theorem Advance_gated_parks now at1 r :
  currentLocked j = Some at1 -> isOpen at1 = true -> j_intent j <> IntentCancel ->
  gatedBy (w_q w) (Job_Snapshot j) = Some r ->
  running (w_q w) (j_id j) (Job_Snapshot j) = false ->
  let st' := snd (Advance now st) in
  st_j st' = setLease j None /\ j_id j ∉ sp_held (q_slots (st_q st')).
Proof.
  intros Hc Ho Hi Hg Hr st'. destruct (Advance_open at1 now st reach_pre Hc Ho Hi) as (st2 & E & Hok & H).
  assert (st' = st2) as -> by (unfold st'; by rewrite E).
  unfold st_running in H. change (st_q st) with (w_q w) in H. change (st_j st) with j in H.
  rewrite Hr, Hg in H. destruct H as [[_ H1] H2]. by rewrite H2 in H1.
Qed.

(** what [Cancel] does to an open job.  The intent is latched; a running
    job short of the boundary is asked to abort and left as it is, a running
    job past it is left to finish, and a job nothing is working on is settled
    as cancelled at once, at any position, with its lease and slot returned. *)
Theorem Cancel_open now at1 :
  currentLocked j = Some at1 -> isOpen at1 = true ->
  let st' := snd (Cancel now st) in
  j_intent (st_j st') = IntentCancel /\
  if running (w_q w) (j_id j) (Job_Snapshot j)
  then st_abort st' = negb (crossed at1) /\ st_q st' = w_q w /\ currentLocked (st_j st') = Some at1
  else st_abort st' = false /\ j_lease (st_j st') = None /\
       j_id j ∉ sp_held (q_slots (st_q st')) /\
       exists at2, currentLocked (st_j st') = Some at2 /\ a_outcome at2 = OutcomeCancelled /\
         a_state at2 = a_state at1.
Proof.
  intros Hc Ho st'. destruct (Cancel_spec now st reach_pre) as (s1 & s2 & Ei & Eq & Ea & E & Hok & H).
  assert (st' = s2) as -> by (unfold st'; by rewrite E).
  simpl in *.
  assert (j_intent (st_j s1) = IntentCancel /\ j_attempts (st_j s1) = j_attempts j /\
    j_lease (st_j s1) = j_lease j /\ j_id (st_j s1) = j_id j) as (Hi & Hat & Hl & Hid).
  { unfold SetIntent in Ei. clear -Ei. destruct s1 as [q1 j1 b1]. simpl in *. by case_in Ei. }
  unfold cancel_result, currentLocked in H. rewrite Hat in H. fold (currentLocked j) in H.
  rewrite Hc, Ho in H.
  assert (running (st_q s1) (j_id (st_j s1)) (Job_Snapshot (st_j s1)) =
          running (w_q w) (j_id j) (Job_Snapshot j)) as Hrr.
  { rewrite Eq, Hid. rewrite (Snapshot_Some j at1 Hc), (Snapshot_Some (st_j s1) at1)
      by (unfold currentLocked; by rewrite Hat).
    unfold HoldsLease. by rewrite Hl. }
  rewrite Hrr in H. destruct (running _ _ _).
  - unfold crossed. destruct (IsProduction (a_state at1)); subst s2; simpl;
      unfold currentLocked; rewrite ?Hat; done.
  - destruct H as ([H1 H2] & Hj & Hab). rewrite Hj in *. simpl in *. split; [done|].
    split_and!; [congruence|done|congruence|]. eexists.
    split; [apply currentLocked_settled; unfold currentLocked; by rewrite Hat|done].
Qed.

(** settling under cancel.  When the intent is cancel and the attempt is
    short of the boundary, whatever verdict the worker reports is recorded as
    cancelled; past the boundary, or without a cancel, an admissible verdict is
    recorded as reported.  Either way the lease and the slot go back. *)
Theorem Settle_records o now at1 :
  o <> OutcomeCancelled -> currentLocked j = Some at1 -> isOpen at1 = true ->
  let v := if bool_decide (j_intent j = IntentCancel) && negb (crossed at1)
           then OutcomeCancelled else o in
  admits v (a_state at1) = true ->
  let r := Settle o now st in
  fst r = None /\ j_lease (st_j (snd r)) = None /\
  j_id j ∉ sp_held (q_slots (st_q (snd r))) /\
  exists at2, currentLocked (st_j (snd r)) = Some at2 /\ a_outcome at2 = v /\
    a_state at2 = a_state at1 /\ a_ended at2 = now.
Proof.
  intros Hoc Hc Ho v Hv r. pose proof (Settle_spec o now st reach_pre Hoc) as H.
  assert (settle_verdict o (Job_Snapshot (st_j st)) = v) as Hsv.
  { unfold settle_verdict. cbn [st_j]. by rewrite (Snapshot_Some _ _ Hc). }
  rewrite Hsv, (Finish_at _ at1) in H by done. destruct H as (s2 & E & Hok & [H1 H2] & Hj & _).
  unfold r. rewrite E. simpl. rewrite Hj in H2. split_and!; [done|by rewrite Hj|done|].
  rewrite Hj. eexists. split; [by apply currentLocked_settled|done].
Qed.

(** [Handoff] acts only on the attempt it was computed for.  It returns
    [true] exactly when the attempt is open, still at [from] and has recorded
    no destination; then it leaves the job holding nothing, having recorded
    [next] if that edge is legal and having settled the attempt if it is not.
    Otherwise it changes nothing. *)
Theorem Handoff_exact from next now :
  handoff_result st from next now (Handoff from next now st) /\
  (fst (fst (Handoff from next now st)) = true <->
   exists at1, currentLocked j = Some at1 /\ isOpen at1 = true /\ a_state at1 = from /\
     a_next at1 = StateUnset).
Proof.
  destruct (Handoff_spec from next now st reach_pre) as [_ H]. split; [done|].
  unfold handoff_result in H. change (st_j st) with j in H.
  destruct (currentLocked j) as [at1|] eqn:Hc.
  - destruct (isOpen at1 && bool_decide (a_state at1 = from) && bool_decide (a_next at1 = StateUnset)) eqn:Hg.
    + rewrite !andb_true_iff, !bool_decide_eq_true in Hg. destruct H as [_ H].
      split; [naive_solver|intros _]. repeat case_match; destruct H as [-> _]; done.
    + rewrite H. split; [done|]. intros (at2 & ? & H1 & H2 & H3). simplify_eq.
      rewrite H1, H3, !bool_decide_eq_true_2 in Hg by done. done.
  - rewrite H. split; [done|]. intros (? & ? & _). congruence.
Qed.

(** C17: the pools never overcommit.  No door raises the number of leases or of
    slots outstanding above the larger of the pool's capacity and what was
    already outstanding (a capacity lowered by [SetCaps] strips nobody), and no
    door changes a capacity. *)
Theorem pools_never_overcommit d :
  let q' := w_q (snd (wdoor w k j d)) in
  Z.of_nat (outstanding (q_leases q')) <=
    Z.max (lp_capacity (q_leases (w_q w))) (Z.of_nat (outstanding (q_leases (w_q w)))) /\
  Z.of_nat (size (sp_held (q_slots q'))) <=
    Z.max (sp_capacity (q_slots (w_q w))) (Z.of_nat (size (sp_held (q_slots (w_q w))))) /\
  lp_capacity (q_leases q') = lp_capacity (q_leases (w_q w)) /\
  sp_capacity (q_slots q') = sp_capacity (q_slots (w_q w)).
Proof.
  unfold wdoor. pose proof (door_ok d st reach_pre) as [F _ _ B].
  destruct (run_door d st) as [e st']. simpl in *.
  split_and!; [apply B|apply B|apply F|apply F].
Qed.
End Reachable.

(** ** Witnesses *)
Lemma pool_accounting_witness :
  lp_issued (q_leases (w_q ex_fetching)) = {[1]} /\
  exists k1 j1, w_jobs ex_fetching !! k1 = Some j1 /\ j_lease j1 = Some 1.
Proof.
  assert (lp_issued (q_leases (w_q ex_fetching)) = {[1]}) as H by (vm_compute; reflexivity).
  split; [exact H|].
  apply (pool_accounting 1 1 3 ex_fetching ex_fetching_reach); [reflexivity|].
  rewrite H. set_solver.
Defined.

Lemma doors_never_fail_witness :
  fst (wdoor ex_handed "j1" (ex_jobof ex_handed) (DAdvance 9)) = None /\
  fst (wdoor ex_handed "j1" (ex_jobof ex_handed) (DCancel 9)) = None /\
  fst (wdoor ex_handed "j1" (ex_jobof ex_handed) DPark) = None.
Proof.
  apply (doors_never_fail 1 1 4 ex_handed "j1" (ex_jobof ex_handed) ex_handed_reach);
    [reflexivity|vm_compute; reflexivity].
Defined.

Lemma Advance_spares_running_witness :
  Advance 9 (mkSt (w_q ex_fetching) (ex_jobof ex_fetching) false)
    = (None, mkSt (w_q ex_fetching) (ex_jobof ex_fetching) false).
Proof.
  apply (Advance_spares_running 1 1 3 ex_fetching "j1" (ex_jobof ex_fetching) ex_fetching_reach);
    [reflexivity|vm_compute; reflexivity|vm_compute; reflexivity].
Defined.

Lemma Advance_progress_witness :
  exists at2, currentLocked (st_j (snd (Advance 9 (mkSt (w_q ex_handed) (ex_jobof ex_handed) false))))
    = Some at2 /\ a_state at2 = Assessing.
Proof.
  destruct (Advance_progress 1 1 4 ex_handed "j1" (ex_jobof ex_handed) ex_handed_reach eq_refl
    ltac:(vm_compute; reflexivity) 9
    (mkAttempt Fetching Assessing ActNone OutcomePending false 2 0)) as [_ H].
  - vm_compute; reflexivity.
  - reflexivity.
  - vm_compute; discriminate.
  - vm_compute; reflexivity.
  - split; intros _; right; vm_compute; reflexivity.
  - destruct H as (at2 & H1 & _ & H2 & _). exists at2. split; [exact H1|exact H2].
Defined.

(** The same world under a global pause, and a step later. *)
Lemma Advance_gated_parks_witness :
  st_j (snd (Advance 9 (mkSt (Pause (w_q ex_handed)) (ex_jobof ex_handed) false)))
    = setLease (ex_jobof ex_handed) None.
Proof.
  apply (Advance_gated_parks 1 1 5 (mkWorld (Pause (w_q ex_handed)) (w_jobs ex_handed)) "j1"
    (ex_jobof ex_handed) (wr_step _ _ _ _ _ ex_handed_reach (ws_pause ex_handed)) eq_refl
    ltac:(vm_compute; reflexivity) 9
    (mkAttempt Fetching Assessing ActNone OutcomePending false 2 0) GlobalPause).
  - vm_compute; reflexivity.
  - reflexivity.
  - vm_compute; discriminate.
  - vm_compute; reflexivity.
  - vm_compute; reflexivity.
Defined.

Lemma Cancel_open_witness :
  st_abort (snd (Cancel 9 (mkSt (w_q ex_fetching) (ex_jobof ex_fetching) false))) = true /\
  j_intent (st_j (snd (Cancel 9 (mkSt (w_q ex_fetching) (ex_jobof ex_fetching) false)))) = IntentCancel.
Proof.
  destruct (Cancel_open 1 1 3 ex_fetching "j1" (ex_jobof ex_fetching) ex_fetching_reach eq_refl
    ltac:(vm_compute; reflexivity) 9
    (mkAttempt Fetching StateUnset ActNone OutcomePending false 2 0)) as [H1 H2].
  - vm_compute; reflexivity.
  - reflexivity.
  - split; [|exact H1].
    assert (running (w_q ex_fetching) (j_id (ex_jobof ex_fetching))
      (Job_Snapshot (ex_jobof ex_fetching)) = true) as Hr by (vm_compute; reflexivity).
    rewrite Hr in H2. exact (proj1 H2).
Defined.

Lemma Settle_records_witness :
  fst (Settle OutcomeFailed 9 (mkSt (w_q ex_fetching) (ex_jobof ex_fetching) false)) = None.
Proof.
  apply (Settle_records 1 1 3 ex_fetching "j1" (ex_jobof ex_fetching) ex_fetching_reach eq_refl
    ltac:(vm_compute; reflexivity) OutcomeFailed 9
    (mkAttempt Fetching StateUnset ActNone OutcomePending false 2 0)).
  - discriminate.
  - vm_compute; reflexivity.
  - reflexivity.
  - vm_compute; reflexivity.
Defined.

Lemma Handoff_exact_witness :
  fst (fst (Handoff Fetching Assessing 9
    (mkSt (w_q ex_fetching) (ex_jobof ex_fetching) false))) = true.
Proof.
  apply (Handoff_exact 1 1 3 ex_fetching "j1" (ex_jobof ex_fetching) ex_fetching_reach eq_refl
    ltac:(vm_compute; reflexivity)).
  exists (mkAttempt Fetching StateUnset ActNone OutcomePending false 2 0).
  split; [vm_compute; reflexivity|]. split; [reflexivity|]. split; reflexivity.
Defined.

Lemma pools_never_overcommit_witness :
  Z.of_nat (outstanding (q_leases (w_q (wrun ex_fetching "j1" (DAdvance 9))))) <= 1.
Proof.
  destruct (pools_never_overcommit 1 1 3 ex_fetching "j1" (ex_jobof ex_fetching) ex_fetching_reach
    eq_refl ltac:(vm_compute; reflexivity) (DAdvance 9)) as [H _].
  etransitivity; [exact H|]. vm_compute. discriminate.
Defined.
