(* ===== verification/Restore.v ===== *)
(** * Restoring a job after a restart ([internal/dispatch], [reconstruct])

    A persisted row carries a [StateView] and an intent; [reconstruct] replays
    it through the doors of [Job], never through a second constructor. *)
From S2P Require Import Prelude Lifecycle.
From stdpp Require Import base gmap list strings relations.
From Stdlib Require Import ZArith Lia.
Local Open Scope Z_scope.
Local Open Scope go_scope.

(** The ways [reconstruct] refuses a row: a never-run row that claims more, a
    state no constant declares, or the refusal of a door. *)
Inductive restore_err : Type :=
| ErrUnsetRow
| ErrUndeclared
| ErrReplay (e : job_err).

Record hop : Type := mkHop { hop_to : State; hop_cross : bool }.

Definition takeHop (j : Job) (h : hop) : result job_err Job :=
  if hop_cross h then
    let? j1 := SetNext j (hop_to h) in
    let? (j2, _) := Cross j1 (hop_to h) in
    Ok j2
  else Transition j (hop_to h).

(** The map [replayPath]; [None] is a missing key. *)
Definition replayPath (s : State) : option (list hop) :=
  match s with
  | Assessing => Some [mkHop Assessing false]
  | Repairing => Some [mkHop Assessing false; mkHop Repairing false]
  | Extracting => Some [mkHop Assessing false; mkHop Extracting true]
  | Finalizing => Some [mkHop Assessing false; mkHop Extracting true; mkHop Finalizing false]
  | _ => None
  end.

Fixpoint takeHops (j : Job) (hs : list hop) : result job_err Job :=
  match hs with
  | [] => Ok j
  | h :: hs => let? j' := takeHop j h in takeHops j' hs
  end.

(** The switch that chooses the path. *)
Definition replay_of (v : StateView) : result restore_err (list hop) :=
  if bool_decide (v_state v = Fetching) && v_assessed v then
    Ok [mkHop Assessing false; mkHop Fetching false]
  else if bool_decide (v_state v = Fetching) then Ok []
  else match replayPath (v_state v) with
       | None => Err ErrUndeclared
       | Some hs => Ok hs
       end.

(** A refusal of a door, wrapped. *)
Definition replayed {A} (r : result job_err A) : result restore_err A :=
  match r with
  | Ok a => Ok a
  | Err e => Err (ErrReplay e)
  end.

(** [reconstruct]; [created] is the clock [job.New] reads. *)
Definition reconstruct (id name : string) (pol : Policy) (v : StateView) (intent : Intent)
    (created now : Z) : result restore_err Job :=
  let j := New id name pol created in
  if bool_decide (v_state v = StateUnset) then
    if bool_decide (v <> zeroView) then Err ErrUnsetRow
    else replayed (SetIntent j intent)
  else
    let? j := replayed (BeginAttempt j now) in
    let? path := replay_of v in
    let? j := replayed (takeHops j path) in
    let? j := replayed (if bool_decide (v_next v <> StateUnset) then SetNext j (v_next v) else Ok j) in
    let? j := replayed (if bool_decide (v_activity v <> ActNone) then SetActivity j (v_activity v)
                        else Ok j) in
    let? j := replayed (if bool_decide (v_outcome v <> OutcomePending)
                        then let? (j', _) := Finish j (v_outcome v) now in Ok j' else Ok j) in
    replayed (SetIntent j intent).

(** A job with the single attempt [a] and no lease. *)
Definition restored (id name : string) (pol : Policy) (i : Intent) (c : Z) (a : Attempt) : Job :=
  mkJob id name pol [a] i None c.

Definition setIntentTo (j : Job) (i : Intent) : Job :=
  mkJob (j_id j) (j_name j) (j_policy j) (j_attempts j) i (j_lease j) (j_created j).

(** ** Lemmas *)
Lemma takeHop_steps j h j' : takeHop j h = Ok j' -> rtc jstep j j'.
Proof.
  unfold takeHop. destruct (hop_cross h).
  - intros E. apply rbind_Ok_inv in E as (j1 & E1 & E).
    apply rbind_Ok_inv in E as ([j2 l] & E2 & E). simplify_eq.
    eapply rtc_l; [by eapply js_setNext|]. apply rtc_once. by eapply js_cross.
  - intros E. apply rtc_once. by eapply js_transition.
Qed.

Lemma takeHops_steps j hs j' : takeHops j hs = Ok j' -> rtc jstep j j'.
Proof.
  revert j. induction hs as [|h hs IH]; simpl; intros j E; [by simplify_eq|].
  apply rbind_Ok_inv in E as (j1 & E1 & E2). etrans; [by eapply takeHop_steps|auto].
Qed.

Lemma replayed_Ok {A} (r : result job_err A) a : replayed r = Ok a -> r = Ok a.
Proof. destruct r; simpl; intros; by simplify_eq. Qed.

(** Every path lands with nothing recorded, in an open attempt at its state. *)
Lemma replay_lands id name pol c now v path :
  v_state v <> StateUnset -> replay_of v = Ok path ->
  takeHops (restored id name pol IntentRun c (newAttempt now)) path =
    Ok (restored id name pol IntentRun c
      (mkAttempt (v_state v) StateUnset ActNone OutcomePending
         (match v_state v with Fetching => v_assessed v | _ => true end) now 0)).
Proof.
  intros Hs Hp. destruct v as [s nx act o asd]; simpl in *.
  destruct s; try done; destruct asd; vm_compute in Hp; simplify_eq; reflexivity.
Qed.

(** The rest of the replay, one mutator at a time. *)
Lemma restored_SetNext id name pol i c a n :
  isOpen a = true -> a_next a = StateUnset -> n = StateUnset \/ CanTransition (a_state a) n = true ->
  (if bool_decide (n <> StateUnset) then SetNext (restored id name pol i c a) n
   else Ok (restored id name pol i c a)) =
  Ok (restored id name pol i c (mkAttempt (a_state a) n (a_activity a) (a_outcome a) (a_assessed a)
    (a_started a) (a_ended a))).
Proof.
  intros Ho Hn Hc. case_bool_decide as Hne; [|subst n; rewrite <- Hn; by destruct a].
  destruct Hc as [?|Hc]; [done|].
  unfold SetNext, withOpenAttempt, currentLocked; simpl. rewrite Ho. simpl.
  unfold setNext. rewrite Hc, Hn. by rewrite bool_decide_eq_false_2.
Qed.

Lemma restored_SetActivity id name pol i c a x :
  isOpen a = true -> a_activity a = ActNone ->
  (if bool_decide (x <> ActNone) then SetActivity (restored id name pol i c a) x
   else Ok (restored id name pol i c a)) =
  Ok (restored id name pol i c (setActivity a x)).
Proof.
  intros Ho Ha. case_bool_decide as Hne.
  - unfold SetActivity, withOpenAttempt, currentLocked; simpl. rewrite Ho. reflexivity.
  - subst x. unfold setActivity. rewrite <- Ha. by destruct a.
Qed.

Lemma restored_Finish id name pol i c a o now :
  isOpen a = true -> o <> OutcomePending -> admits o (a_state a) = true ->
  Finish (restored id name pol i c a) o now =
  Ok (restored id name pol i c (mkAttempt (a_state a) StateUnset ActNone o (a_assessed a)
    (a_started a) now), None).
Proof.
  intros Ho Hne Ha. unfold Finish, withOpenAttemptLease, withOpenAttempt, currentLocked; simpl.
  rewrite Ho. simpl. unfold finish. rewrite IsSettled_isOpen, Ho, Ha.
  unfold admits in Ha. by destruct o.
Qed.

Lemma restored_SetIntent id name pol c a i :
  i ∈ AllIntents -> SetIntent (restored id name pol IntentRun c a) i = Ok (restored id name pol i c a).
Proof. intros Hi. unfold SetIntent. by rewrite bool_decide_eq_true_2. Qed.

Lemma replay_of_declared v : v_state v ∈ AllStates -> exists p, replay_of v = Ok p.
Proof.
  unfold replay_of. intros Hs. destruct (v_state v) eqn:E; simpl; eauto; try (exfalso; set_solver).
  destruct (v_assessed v); simpl; eauto.
Qed.

(** The whole replay of a view a well-formed attempt has. *)
Lemma reconstruct_attempt id name pol i c now a :
  wf_attempt a -> i ∈ AllIntents ->
  exists a', reconstruct id name pol (view a) i c now = Ok (restored id name pol i c a') /\
    view a' = view a.
Proof.
  intros [W1 W2 W3 W4 W5] Hi.
  assert (a_state a <> StateUnset) as Hs by (intros E; rewrite E in W1; set_solver).
  destruct (replay_of_declared (view a) W1) as [path Hp].
  unfold reconstruct. cbv zeta. cbn [view v_state v_next v_activity v_outcome] in *.
  rewrite bool_decide_eq_false_2 by done.
  change (BeginAttempt _ now) with (@Ok job_err _ (restored id name pol IntentRun c (newAttempt now))).
  cbn [replayed rbind]. rewrite Hp. cbn [rbind].
  rewrite (replay_lands _ _ _ _ _ (view a)) by done. cbn [replayed rbind view v_state v_assessed].
  assert (match a_state a with Fetching => a_assessed a | _ => true end = a_assessed a) as ->.
  { destruct (a_state a); try done; symmetry; by apply W5. }
  rewrite restored_SetNext by done. cbn [replayed rbind].
  rewrite restored_SetActivity by done. cbn [replayed rbind]. unfold setActivity; simpl.
  destruct (decide (a_outcome a = OutcomePending)) as [Hout|Hout].
  - rewrite bool_decide_eq_false_2 by naive_solver. cbn [replayed rbind].
    rewrite restored_SetIntent by done. eexists. split; [reflexivity|]. unfold view; simpl. by rewrite Hout.
  - rewrite bool_decide_eq_true_2 by done. destruct W3 as [?|W3]; [done|].
    rewrite restored_Finish by done. cbn [replayed rbind]. rewrite restored_SetIntent by done.
    eexists. split; [reflexivity|]. destruct W4 as [W4a W4b]; [by apply bool_decide_eq_false|].
    unfold view; simpl. by rewrite W4a, W4b.
Qed.

(** An optional door. *)
Lemma opt_steps (b : bool) (r : result job_err Job) j j' :
  (if b then r else Ok j) = Ok j' -> (forall j1, r = Ok j1 -> jstep j j1) -> rtc jstep j j'.
Proof. destruct b; intros E H; [by apply rtc_once, H|by simplify_eq]. Qed.

Lemma restored_SetNext_inv id name pol i c a n j :
  isOpen a = true -> a_next a = StateUnset ->
  (if bool_decide (n <> StateUnset) then SetNext (restored id name pol i c a) n
   else Ok (restored id name pol i c a)) = Ok j ->
  n = StateUnset \/ CanTransition (a_state a) n = true.
Proof.
  intros Ho Hn. case_bool_decide; [|auto]. intros E.
  apply withOpenAttempt_inv in E as (b & b' & Hb & _ & E & _).
  assert (b = a) as -> by (unfold currentLocked in Hb; simpl in Hb; congruence).
  unfold setNext in E. case_in E. right. by apply negb_false_iff.
Qed.

(** ** Properties *)

(** restore is the inverse of persist.  For every reachable job,
    reconstructing its own [StateView] and intent succeeds and yields a job
    with the same [StateView] and intent, the same side of the boundary, and
    no lease. *)
Theorem reconstruct_roundtrip j created now :
  reachable j ->
  exists j', reconstruct (j_id j) (j_name j) (j_policy j) (Job_State j) (j_intent j) created now = Ok j' /\
    Job_State j' = Job_State j /\ j_intent j' = j_intent j /\ j_lease j' = None /\
    j_id j' = j_id j /\ j_name j' = j_name j /\ j_policy j' = j_policy j /\
    job_crossed j' = job_crossed j.
Proof.
  intros Hr%wf_reachable. destruct (currentLocked j) as [a|] eqn:Hc.
  - assert (Job_State j = view a) as -> by (unfold Job_State; by rewrite Hc).
    assert (job_crossed j = crossed a) as -> by (unfold job_crossed; by rewrite Hc).
    destruct (reconstruct_attempt (j_id j) (j_name j) (j_policy j) (j_intent j) created now a)
      as (a' & -> & Hv); [by eapply wf_current|apply Hr|].
    eexists. split; [reflexivity|]. split_and!; try done.
    unfold job_crossed, currentLocked, crossed; simpl. by injection Hv as -> _.
  - assert (Job_State j = zeroView) as -> by (unfold Job_State; by rewrite Hc).
    assert (job_crossed j = false) as -> by (unfold job_crossed; by rewrite Hc).
    unfold reconstruct. simpl. unfold SetIntent. rewrite bool_decide_eq_true_2 by apply Hr.
    eexists. split; [reflexivity|]. done.
Qed.

(** a row is validated, never trusted.  Whatever row it is given, what
    [reconstruct] returns is a job reachable through the doors, with no lease,
    at the row's state, verdict and intent; so a row no door could have
    produced is refused. *)
Theorem reconstruct_sound id name pol v intent created now j :
  reconstruct id name pol v intent created now = Ok j ->
  reachable j /\ j_lease j = None /\ j_intent j = intent /\
  v_state (Job_State j) = v_state v /\ v_outcome (Job_State j) = v_outcome v /\
  (v_outcome v = OutcomePending -> v_next (Job_State j) = v_next v /\
     v_activity (Job_State j) = v_activity v).
Proof.
  unfold reconstruct. cbv zeta. case_bool_decide as Hs.
  { case_bool_decide as Hv; [done|]. intros E%replayed_Ok.
    assert (j = mkJob id name pol [] intent None created) as -> by (unfold SetIntent in E; by case_in E).
    subst v. split_and!; try done. exists id, name, pol, created. apply rtc_once. by eapply js_setIntent. }
  set (j0 := New id name pol created). set (j1 := restored id name pol IntentRun created (newAttempt now)).
  change (BeginAttempt j0 now) with (@Ok job_err _ j1). cbn [replayed rbind]. intros E.
  apply rbind_Ok_inv in E as (path & Ep & E). apply rbind_Ok_inv in E as (j2 & E2%replayed_Ok & E).
  pose proof (takeHops_steps _ _ _ E2) as S2. subst j1.
  rewrite (replay_lands _ _ _ _ _ v) in E2 by done. injection E2 as <-.
  apply rbind_Ok_inv in E as (j3 & E3%replayed_Ok & E).
  assert (S3 := opt_steps _ _ _ _ E3 ltac:(intros; by eapply js_setNext)).
  assert (v_next v = StateUnset \/ CanTransition (v_state v) (v_next v) = true) as Hn3
    by (by eapply restored_SetNext_inv in E3).
  rewrite restored_SetNext in E3 by done. injection E3 as <-.
  apply rbind_Ok_inv in E as (j4 & E4%replayed_Ok & E).
  assert (S4 := opt_steps _ _ _ _ E4 ltac:(intros; by eapply js_setActivity)).
  rewrite restored_SetActivity in E4 by done. injection E4 as <-.
  apply rbind_Ok_inv in E as (j5 & E5%replayed_Ok & E%replayed_Ok).
  assert (S5 : rtc jstep (restored id name pol IntentRun created (setActivity
    (mkAttempt (v_state v) (v_next v) ActNone OutcomePending
      (match v_state v with Fetching => v_assessed v | _ => true end) now 0) (v_activity v))) j5).
  { eapply opt_steps; [exact E5|]. intros jf Ef. apply rbind_Ok_inv in Ef as ([jf' l] & Ef & ?).
    simplify_eq. by eapply js_finish. }
  assert (Hr : reachable j).
  { exists id, name, pol, created. etrans; [apply rtc_once, (js_begin _ _ now); reflexivity|].
    etrans; [exact S2|]. etrans; [exact S3|]. etrans; [exact S4|]. etrans; [exact S5|].
    apply rtc_once. by eapply js_setIntent. }
  split; [done|].
  assert (j = setIntentTo j5 intent) as ->.
  { unfold SetIntent in E. by case_in E. }
  case_bool_decide as Hout.
  - apply rbind_Ok_inv in E5 as ([jf l] & Ef & ?). simplify_eq.
    apply withOpenAttemptLease_inv in Ef as (b & b' & Hb & _ & Ef & -> & _).
    unfold currentLocked in Hb; simpl in Hb. injection Hb as <-.
    unfold finish in Ef. case_in Ef; split_and!; try done; by intros.
  - simplify_eq. done.
Qed.

(** ** Witnesses *)
Lemma reconstruct_roundtrip_witness :
  exists j', reconstruct "j1" "name" (mkPolicy true true true true)
    (Job_State (ex_at ex_to_extracting)) IntentRun 7 8 = Ok j' /\
    Job_State j' = Job_State (ex_at ex_to_extracting) /\ job_crossed j' = true.
Proof.
  destruct (reconstruct_roundtrip (ex_at ex_to_extracting) 7 8) as (j' & H1 & H2 & _ & _ & _ & _ & _ & H3).
  - apply (jrun_reachable "j1" "name" (mkPolicy true true true true) 1 ex_to_extracting). reflexivity.
  - exists j'. split; [exact H1|]. split; [exact H2|exact H3].
Defined.

Lemma reconstruct_sound_witness :
  exists j, reconstruct "j1" "name" (mkPolicy true true true true)
    (mkView Assessing Repairing ActCRCCheck OutcomePending true) IntentPause 7 8 = Ok j /\ reachable j.
Proof.
  eexists. split; [reflexivity|].
  apply (reconstruct_sound "j1" "name" (mkPolicy true true true true)
    (mkView Assessing Repairing ActCRCCheck OutcomePending true) IntentPause 7 8). reflexivity.
Defined.
