(* ===== verification/Registry.v ===== *)
(** * The dispatcher's registry ([internal/dispatch/registry.go, occupy.go,
    worker.go, tick.go, dispatch.go], [internal/keyedlatch])

    The maps [Dispatcher.mu] guards, and one definition per span of code that
    holds it.  A job instance, an occupancy token and a wait channel are
    numbers. *)
From S2P Require Import Prelude Lifecycle.
From stdpp Require Import base numbers gmap sorting list strings.
From Stdlib Require Import ZArith Lia.
Local Open Scope Z_scope.
Local Open Scope go_scope.

Inductive disp_err : Type :=
| ErrNotFound
| ErrNotRestored
| ErrStopped
| ErrNotConcrete        (* [checkPriority] *)
| ErrDuplicate
| errPreemptedByRemoval
| ErrInvalidJobName
| ErrJobNameTaken       (* wraps [ErrInvalidJobName] *)
| ErrJobStarted
| ErrUnwantedBlocked.

(** ** Data *)
Definition RepairPriority : Z := 3.
Definition ForcePriority : Z := 2.
Definition HighPriority : Z := 1.
Definition NormalPriority : Z := 0.
Definition LowPriority : Z := -1.

Definition IsConcrete (p : Z) : bool :=
  bool_decide (p ∈ [RepairPriority; ForcePriority; HighPriority; NormalPriority; LowPriority]).

(** [unwanted.State]. *)
Inductive unwantedState : Type := StateNone | StateBlocked | StateApproved | StateFailOwed.
#[export] Instance unwantedState_eq_dec : EqDecision unwantedState.
Proof. solve_decision. Defined.

Record Header : Type := mkHeader {
  h_Name : string;
  h_Filename : string;
  h_Category : string;
  h_Priority : Z;
  h_Bytes : Z;
  h_IngestAnomaly : string;
  h_FailReason : string;
  h_DuplicateReason : string;
  h_OperationalError : string;
  h_Unwanted : unwantedState;
  h_Script : string;
  h_Password : string;
  h_PP : Z;
  h_NZBBackup : string;
  h_URL : string;
  h_MD5 : string;
  h_Added : Z;
}.
#[export] Instance Header_eq_dec : EqDecision Header.
Proof. solve_decision. Defined.

(** The fields the doors write. *)
Definition h_setName (h : Header) (x : string) : Header :=
  mkHeader x (h_Filename h) (h_Category h) (h_Priority h) (h_Bytes h) (h_IngestAnomaly h) (h_FailReason h)
    (h_DuplicateReason h) (h_OperationalError h) (h_Unwanted h) (h_Script h) (h_Password h) (h_PP h) (h_NZBBackup h)
    (h_URL h) (h_MD5 h) (h_Added h).
Definition h_setCategory (h : Header) (x : string) : Header :=
  mkHeader (h_Name h) (h_Filename h) x (h_Priority h) (h_Bytes h) (h_IngestAnomaly h) (h_FailReason h)
    (h_DuplicateReason h) (h_OperationalError h) (h_Unwanted h) (h_Script h) (h_Password h) (h_PP h) (h_NZBBackup h)
    (h_URL h) (h_MD5 h) (h_Added h).
Definition h_setPriority (h : Header) (x : Z) : Header :=
  mkHeader (h_Name h) (h_Filename h) (h_Category h) x (h_Bytes h) (h_IngestAnomaly h) (h_FailReason h)
    (h_DuplicateReason h) (h_OperationalError h) (h_Unwanted h) (h_Script h) (h_Password h) (h_PP h) (h_NZBBackup h)
    (h_URL h) (h_MD5 h) (h_Added h).
Definition h_setFailReason (h : Header) (x : string) : Header :=
  mkHeader (h_Name h) (h_Filename h) (h_Category h) (h_Priority h) (h_Bytes h) (h_IngestAnomaly h) x
    (h_DuplicateReason h) (h_OperationalError h) (h_Unwanted h) (h_Script h) (h_Password h) (h_PP h) (h_NZBBackup h)
    (h_URL h) (h_MD5 h) (h_Added h).
Definition h_setOperationalError (h : Header) (x : string) : Header :=
  mkHeader (h_Name h) (h_Filename h) (h_Category h) (h_Priority h) (h_Bytes h) (h_IngestAnomaly h) (h_FailReason h)
    (h_DuplicateReason h) x (h_Unwanted h) (h_Script h) (h_Password h) (h_PP h) (h_NZBBackup h)
    (h_URL h) (h_MD5 h) (h_Added h).
Definition h_setUnwanted (h : Header) (x : unwantedState) : Header :=
  mkHeader (h_Name h) (h_Filename h) (h_Category h) (h_Priority h) (h_Bytes h) (h_IngestAnomaly h) (h_FailReason h)
    (h_DuplicateReason h) (h_OperationalError h) x (h_Script h) (h_Password h) (h_PP h) (h_NZBBackup h)
    (h_URL h) (h_MD5 h) (h_Added h).
Definition h_setScript (h : Header) (x : string) : Header :=
  mkHeader (h_Name h) (h_Filename h) (h_Category h) (h_Priority h) (h_Bytes h) (h_IngestAnomaly h) (h_FailReason h)
    (h_DuplicateReason h) (h_OperationalError h) (h_Unwanted h) x (h_Password h) (h_PP h) (h_NZBBackup h)
    (h_URL h) (h_MD5 h) (h_Added h).
Definition h_setPP (h : Header) (x : Z) : Header :=
  mkHeader (h_Name h) (h_Filename h) (h_Category h) (h_Priority h) (h_Bytes h) (h_IngestAnomaly h) (h_FailReason h)
    (h_DuplicateReason h) (h_OperationalError h) (h_Unwanted h) (h_Script h) (h_Password h) x (h_NZBBackup h)
    (h_URL h) (h_MD5 h) (h_Added h).
Definition h_setAdded (h : Header) (x : Z) : Header :=
  mkHeader (h_Name h) (h_Filename h) (h_Category h) (h_Priority h) (h_Bytes h) (h_IngestAnomaly h) (h_FailReason h)
    (h_DuplicateReason h) (h_OperationalError h) (h_Unwanted h) (h_Script h) (h_Password h) (h_PP h) (h_NZBBackup h)
    (h_URL h) (h_MD5 h) x.

Record Persisted : Type := mkPersisted {
  p_ID : string;
  p_SortKey : Z;
  p_Header : Header;
  p_Policy : Policy;
  p_State : StateView;
  p_Intent : Intent;
  p_DownloadStarted : Z;
  p_DownloadFinished : Z;
  p_Par2ReleaseReason : string;
}.
#[export] Instance Persisted_eq_dec : EqDecision Persisted.
Proof. solve_decision. Defined.

(** An entry: the registered instance, its header and its queue position. *)
Record entry : Type := mkEntry { e_j : nat; e_h : Header; e_seq : Z }.

(** [launched] is the [keyedlatch.Latch]: the keys it holds.  [d_closed] are
    the wait channels closed so far, [d_next] the next number to give out. *)
Record Dispatcher : Type := mkDisp {
  byID : gmap string entry;
  order : list string;
  resident : gset string;
  launched : gset string;
  written : gmap string Persisted;
  removing : gmap string Z;
  reservedNames : gmap string string;
  occupiers : gmap string Z;
  occupancyTokens : gmap string (gset nat);
  occupyDrained : gmap string nat;
  occupyStep : gmap string nat;
  nextSeq : Z;
  d_closed : gset nat;
  d_next : nat;
}.

Definition New : Dispatcher := mkDisp ∅ [] ∅ ∅ ∅ ∅ ∅ ∅ ∅ ∅ ∅ 0 ∅ 0.

(** ** Field updates *)
Definition set_byID (d : Dispatcher) (x : gmap string entry) : Dispatcher :=
  mkDisp x (order d) (resident d) (launched d) (written d) (removing d) (reservedNames d)
    (occupiers d) (occupancyTokens d) (occupyDrained d) (occupyStep d) (nextSeq d) (d_closed d) (d_next d).
Definition set_order (d : Dispatcher) (x : list string) : Dispatcher :=
  mkDisp (byID d) x (resident d) (launched d) (written d) (removing d) (reservedNames d)
    (occupiers d) (occupancyTokens d) (occupyDrained d) (occupyStep d) (nextSeq d) (d_closed d) (d_next d).
Definition set_resident (d : Dispatcher) (x : gset string) : Dispatcher :=
  mkDisp (byID d) (order d) x (launched d) (written d) (removing d) (reservedNames d)
    (occupiers d) (occupancyTokens d) (occupyDrained d) (occupyStep d) (nextSeq d) (d_closed d) (d_next d).
Definition set_launched (d : Dispatcher) (x : gset string) : Dispatcher :=
  mkDisp (byID d) (order d) (resident d) x (written d) (removing d) (reservedNames d)
    (occupiers d) (occupancyTokens d) (occupyDrained d) (occupyStep d) (nextSeq d) (d_closed d) (d_next d).
Definition set_written (d : Dispatcher) (x : gmap string Persisted) : Dispatcher :=
  mkDisp (byID d) (order d) (resident d) (launched d) x (removing d) (reservedNames d)
    (occupiers d) (occupancyTokens d) (occupyDrained d) (occupyStep d) (nextSeq d) (d_closed d) (d_next d).
Definition set_removing (d : Dispatcher) (x : gmap string Z) : Dispatcher :=
  mkDisp (byID d) (order d) (resident d) (launched d) (written d) x (reservedNames d)
    (occupiers d) (occupancyTokens d) (occupyDrained d) (occupyStep d) (nextSeq d) (d_closed d) (d_next d).
Definition set_reservedNames (d : Dispatcher) (x : gmap string string) : Dispatcher :=
  mkDisp (byID d) (order d) (resident d) (launched d) (written d) (removing d) x
    (occupiers d) (occupancyTokens d) (occupyDrained d) (occupyStep d) (nextSeq d) (d_closed d) (d_next d).
Definition set_occupiers (d : Dispatcher) (x : gmap string Z) : Dispatcher :=
  mkDisp (byID d) (order d) (resident d) (launched d) (written d) (removing d) (reservedNames d)
    x (occupancyTokens d) (occupyDrained d) (occupyStep d) (nextSeq d) (d_closed d) (d_next d).
Definition set_occupancyTokens (d : Dispatcher) (x : gmap string (gset nat)) : Dispatcher :=
  mkDisp (byID d) (order d) (resident d) (launched d) (written d) (removing d) (reservedNames d)
    (occupiers d) x (occupyDrained d) (occupyStep d) (nextSeq d) (d_closed d) (d_next d).
Definition set_occupyDrained (d : Dispatcher) (x : gmap string nat) : Dispatcher :=
  mkDisp (byID d) (order d) (resident d) (launched d) (written d) (removing d) (reservedNames d)
    (occupiers d) (occupancyTokens d) x (occupyStep d) (nextSeq d) (d_closed d) (d_next d).
Definition set_occupyStep (d : Dispatcher) (x : gmap string nat) : Dispatcher :=
  mkDisp (byID d) (order d) (resident d) (launched d) (written d) (removing d) (reservedNames d)
    (occupiers d) (occupancyTokens d) (occupyDrained d) x (nextSeq d) (d_closed d) (d_next d).
Definition set_nextSeq (d : Dispatcher) (x : Z) : Dispatcher :=
  mkDisp (byID d) (order d) (resident d) (launched d) (written d) (removing d) (reservedNames d)
    (occupiers d) (occupancyTokens d) (occupyDrained d) (occupyStep d) x (d_closed d) (d_next d).
Definition set_closed (d : Dispatcher) (x : gset nat) : Dispatcher :=
  mkDisp (byID d) (order d) (resident d) (launched d) (written d) (removing d) (reservedNames d)
    (occupiers d) (occupancyTokens d) (occupyDrained d) (occupyStep d) (nextSeq d) x (d_next d).
Definition set_next (d : Dispatcher) (x : nat) : Dispatcher :=
  mkDisp (byID d) (order d) (resident d) (launched d) (written d) (removing d) (reservedNames d)
    (occupiers d) (occupancyTokens d) (occupyDrained d) (occupyStep d) (nextSeq d) (d_closed d) x.

(** ** Lookups *)
Definition admitsLocked (d : Dispatcher) (id : string) : bool :=
  bool_decide (is_Some (byID d !! id)) && bool_decide (default 0 (removing d !! id) = 0).

(** [lookupFor]; no instance expected is [None]. *)
Definition lookupFor (d : Dispatcher) (id : string) (expected : option nat) : option entry :=
  e ← byID d !! id;
  match expected with
  | None => Some e
  | Some inst => if decide (e_j e = inst) then Some e else None
  end.

Definition checkPriority (p : Z) : option disp_err := if negb (IsConcrete p) then Some ErrNotConcrete else None.

(** The bytes a name may not contain: slash, backslash and NUL. *)
Definition bad_name_char (c : Ascii.ascii) : bool :=
  bool_decide (c = Ascii.ascii_of_nat 47) || bool_decide (c = Ascii.ascii_of_nat 92) || bool_decide (c = Ascii.ascii_of_nat 0).

Definition is_component (name : string) : bool :=
  negb (bool_decide (name ∈ [""; "."; ".."]%string) || existsb bad_name_char (String.list_ascii_of_string name)).

(** [nameHolderLocked]: which holder Go's map iteration finds is left open. *)
Definition nameHolderLocked (d : Dispatcher) (id name : string) : bool :=
  existsb (fun x => negb (bool_decide (fst x = id)) && bool_decide (h_Name (e_h (snd x)) = name)) (map_to_list (byID d)) ||
  match reservedNames d !! name with
  | Some holder => negb (bool_decide (holder = id))
  | None => false
  end.

Definition admitNameLocked (d : Dispatcher) (id name : string) : option disp_err :=
  if negb (is_component name) then Some ErrInvalidJobName
  else if nameHolderLocked d id name then Some ErrJobNameTaken
  else None.

(** ** Registration *)
Definition seqNext : Z := -1.

Definition advanceSeqLocked (d : Dispatcher) (seq : Z) : Dispatcher := set_nextSeq d (Z.max (nextSeq d) (seq + 1)).

(** [register]; [name] is the job's own name.  The second component says
    whether the tick is woken. *)
Definition register (d : Dispatcher) (id : string) (inst : nat) (name : string) (h : Header) (seq : Z) :
    result disp_err (Dispatcher * bool) :=
  match checkPriority (h_Priority h) with
  | Some err => Err err
  | None =>
      if bool_decide (is_Some (byID d !! id)) then Err ErrDuplicate
      else if bool_decide (default 0 (removing d !! id) > 0) then Err errPreemptedByRemoval
      else
        let h := h_setName h name in
        match admitNameLocked d id (h_Name h) with
        | Some err => Err err
        | None =>
            let added := bool_decide (seq = seqNext) in
            let seq := if added then nextSeq d else seq in
            let d := set_byID d (<[id := mkEntry inst h seq]> (byID d)) in
            let d := set_order d (order d ++ [id]) in
            Ok (advanceSeqLocked d seq, negb added)
        end
  end.

Definition sortKeyOf (d : Dispatcher) (id : string) : Z :=
  match byID d !! id with
  | None => -1
  | Some e => e_seq e
  end.

(** ** Dispatch order *)
Definition prio_of (d : Dispatcher) (id : string) : Z :=
  match byID d !! id with
  | Some e => h_Priority (e_h e)
  | None => 0
  end.

(** An ID with its priority and its position. *)
Notation ranked := (string * Z * nat)%type (only parsing).
Definition ranked_le (a b : ranked) : Prop :=
  let '(_, pa, ia) := a in let '(_, pb, ib) := b in pb < pa \/ (pa = pb /\ (ia <= ib)%nat).
#[export] Instance ranked_le_dec : RelDecision ranked_le.
Proof. intros [[? ?] ?] [[? ?] ?]. unfold ranked_le. apply _. Defined.

Definition ranked_jobs (d : Dispatcher) : list ranked := imap (fun i id => (id, prio_of d id, i)) (order d).

Definition sorted_jobs (d : Dispatcher) : list ranked := merge_sort ranked_le (ranked_jobs d).

(** [dispatchOrderLocked]: by priority, and by position within one. *)
Definition dispatchOrderLocked (d : Dispatcher) : list string := (fun r => fst (fst r)) <$> sorted_jobs d.

(** [snapshotOrder]: the jobs with a stored row. *)
Definition snapshotOrder (d : Dispatcher) : list string :=
  base.filter (fun id => is_Some (written d !! id)) (dispatchOrderLocked d).

Definition Len_jobs (d : Dispatcher) : nat := length (order d).

(** ** Removal *)
Definition beginRemovalLocked (d : Dispatcher) (id : string) : Dispatcher :=
  set_removing d (<[id := default 0 (removing d !! id) + 1]> (removing d)).

Definition beginRemovalFor (d : Dispatcher) (id : string) (expected : option nat) : option Dispatcher :=
  match lookupFor d id expected with
  | None => None
  | Some _ => Some (beginRemovalLocked d id)
  end.

Definition beginRemoval (d : Dispatcher) (id : string) : option Dispatcher := beginRemovalFor d id None.

(** [beginRemovalIfIdle]: the removal, if it may begin, and whether the job
    is live. *)
Definition beginRemovalIfIdle (d : Dispatcher) (id : string) : option Dispatcher * bool :=
  match byID d !! id with
  | None => (None, false)
  | Some _ =>
      if bool_decide (default ∅ (occupancyTokens d !! id) <> ∅) || bool_decide (id ∈ launched d) then (None, true)
      else (Some (beginRemovalLocked d id), false)
  end.

(** The marker's count lowered by one. *)
Definition unmark (d : Dispatcher) (id : string) : Dispatcher :=
  let n := default 0 (removing d !! id) - 1 in
  set_removing d (if decide (n <= 0) then base.delete id (removing d) else <[id := n]> (removing d)).

(** [removal.abort], of a removal not done. *)
Definition removal_abort (d : Dispatcher) (id : string) : Dispatcher := unmark d id.

(** A channel of a map of wait channels, closed and dropped. *)
Definition close_of (chans : gmap string nat) (id : string) (closed : gset nat) : gset nat :=
  match chans !! id with
  | Some ch => {[ch]} ∪ closed
  | None => closed
  end.

(** The span of [deregister] under [mu]; [clearLaunched] follows it. *)
Definition deregister (d : Dispatcher) (id : string) : Dispatcher :=
  let d := set_byID d (base.delete id (byID d)) in
  let d := set_written d (base.delete id (written d)) in
  let d := set_resident d (resident d ∖ {[id]}) in
  let d := unmark d id in
  let d := set_occupiers d (base.delete id (occupiers d)) in
  let d := set_occupancyTokens d (base.delete id (occupancyTokens d)) in
  let d := set_closed d (close_of (occupyStep d) id (close_of (occupyDrained d) id (d_closed d))) in
  let d := set_occupyDrained d (base.delete id (occupyDrained d)) in
  let d := set_occupyStep d (base.delete id (occupyStep d)) in
  match list_find (fun x => x = id) (order d) with
  | Some (i, _) => set_order d (base.delete i (order d))
  | None => d
  end.

(** ** Launch claims *)
Definition claimLaunched (d : Dispatcher) (id : string) : Dispatcher * bool :=
  if negb (admitsLocked d id) then (d, false)
  else if bool_decide (id ∈ launched d) then (d, false)
  else (set_launched d ({[id]} ∪ launched d), true).

Definition clearLaunched (d : Dispatcher) (id : string) : Dispatcher := set_launched d (launched d ∖ {[id]}).

(** ** Occupancy *)

(** [occupyFor] up to the call of its function, with the token it makes. *)
Definition occupy_enter (d : Dispatcher) (id : string) (expected : option nat) : result disp_err (Dispatcher * nat) :=
  if negb (admitsLocked d id) then Err ErrNotFound
  else match lookupFor d id expected with
       | None => Err ErrNotFound
       | Some _ =>
           let tok := d_next d in
           let d := set_next d (S tok) in
           let d := set_occupancyTokens d (<[id := {[tok]} ∪ default ∅ (occupancyTokens d !! id)]> (occupancyTokens d)) in
           Ok (set_occupiers d (<[id := default 0 (occupiers d !! id) + 1]> (occupiers d)), tok)
       end.

(** Its deferred end. *)
Definition occupy_exit (d : Dispatcher) (id : string) (tok : nat) : Dispatcher :=
  let d := match occupancyTokens d !! id with
           | None => d
           | Some tokens =>
               let tokens := tokens ∖ {[tok]} in
               set_occupancyTokens d (if decide (tokens = ∅) then base.delete id (occupancyTokens d)
                                      else <[id := tokens]> (occupancyTokens d))
           end in
  let n := default 0 (occupiers d !! id) - 1 in
  if decide (n <= 0) then
    let d := set_occupiers d (base.delete id (occupiers d)) in
    let d := set_closed d (close_of (occupyStep d) id (close_of (occupyDrained d) id (d_closed d))) in
    let d := set_occupyDrained d (base.delete id (occupyDrained d)) in
    set_occupyStep d (base.delete id (occupyStep d))
  else
    let d := set_occupiers d (<[id := n]> (occupiers d)) in
    match occupyStep d !! id with
    | None => d
    | Some _ =>
        let d := set_closed d (close_of (occupyStep d) id (d_closed d)) in
        set_next (set_occupyStep d (<[id := d_next d]> (occupyStep d))) (S (d_next d))
    end.

(** [waitLive]: the channel to wait on, if there is anything to wait for. *)
Definition waitLive (d : Dispatcher) (id : string) : Dispatcher * option nat :=
  if decide (default 0 (occupiers d !! id) <= 0) then (d, None)
  else match occupyDrained d !! id with
       | Some ch => (d, Some ch)
       | None => (set_next (set_occupyDrained d (<[id := d_next d]> (occupyDrained d))) (S (d_next d)), Some (d_next d))
       end.

(** One round of [waitLiveExcept] for the occupier with token [tok]. *)
Inductive except_result : Type :=
| ExceptDone
| ExceptAll             (* falls back to [waitLive] *)
| ExceptWait (ch : nat).

Definition waitLiveExcept (d : Dispatcher) (id : string) (tok : nat) : Dispatcher * except_result :=
  match occupancyTokens d !! id with
  | None => (d, ExceptAll)
  | Some tokens =>
      if negb (bool_decide (tok ∈ tokens)) then (d, ExceptAll)
      else if decide (size tokens <= 1)%nat then (d, ExceptDone)
      else match occupyStep d !! id with
           | Some ch => (d, ExceptWait ch)
           | None => (set_next (set_occupyStep d (<[id := d_next d]> (occupyStep d))) (S (d_next d)), ExceptWait (d_next d))
           end
  end.

Definition IsOccupied (d : Dispatcher) (id : string) : bool := bool_decide (default 0 (occupiers d !! id) > 0).

(** ** Bookkeeping of the tick *)
Definition isResident (d : Dispatcher) (id : string) : bool := bool_decide (id ∈ resident d).
Definition markResident (d : Dispatcher) (id : string) : Dispatcher :=
  if bool_decide (is_Some (byID d !! id)) then set_resident d ({[id]} ∪ resident d) else d.
Definition markNotResident (d : Dispatcher) (id : string) : Dispatcher := set_resident d (resident d ∖ {[id]}).

Definition lastWritten (d : Dispatcher) (id : string) : option Persisted := written d !! id.
Definition markWritten (d : Dispatcher) (p : Persisted) : Dispatcher :=
  if bool_decide (is_Some (byID d !! p_ID p)) then set_written d (<[p_ID p := p]> (written d)) else d.

(** ** Header doors *)
Definition upd_header (d : Dispatcher) (id : string) (expected : option nat) (f : Header -> Header) : result disp_err Dispatcher :=
  match lookupFor d id expected with
  | None => Err ErrNotFound
  | Some e => Ok (set_byID d (<[id := mkEntry (e_j e) (f (e_h e)) (e_seq e)]> (byID d)))
  end.

Definition SetFailReason (d : Dispatcher) (id : string) (inst : nat) (reason : string) : result disp_err Dispatcher :=
  upd_header d id (Some inst) (fun h => h_setFailReason h reason).
Definition SetOperationalError (d : Dispatcher) (id msg : string) : result disp_err Dispatcher :=
  upd_header d id None (fun h => h_setOperationalError h msg).
Definition SetPriority (d : Dispatcher) (id : string) (priority : Z) : result disp_err Dispatcher :=
  match checkPriority priority with
  | Some err => Err err
  | None => upd_header d id None (fun h => h_setPriority h priority)
  end.
Definition SetCategory (d : Dispatcher) (id category : string) : result disp_err Dispatcher :=
  upd_header d id None (fun h => h_setCategory h category).
Definition SetScript (d : Dispatcher) (id script : string) : result disp_err Dispatcher :=
  upd_header d id None (fun h => h_setScript h script).
Definition SetPP (d : Dispatcher) (id : string) (pp : Z) : result disp_err Dispatcher :=
  upd_header d id None (fun h => h_setPP h pp).

(** [SetName] once the progress is loaded; [begun] is the job's own refusal. *)
Definition SetName (d : Dispatcher) (begun : bool) (id name : string) : result disp_err Dispatcher :=
  match byID d !! id with
  | None => Err ErrNotFound
  | Some _ =>
      match admitNameLocked d id name with
      | Some err => Err err
      | None => if begun then Err ErrJobStarted else upd_header d id None (fun h => h_setName h name)
      end
  end.

Definition ReserveName (d : Dispatcher) (id name : string) : result disp_err Dispatcher :=
  match admitNameLocked d id name with
  | Some err => Err err
  | None =>
      if bool_decide (is_Some (reservedNames d !! name)) then Err ErrJobNameTaken
      else Ok (set_reservedNames d (<[name := id]> (reservedNames d)))
  end.
Definition release_name (d : Dispatcher) (id name : string) : Dispatcher :=
  if bool_decide (reservedNames d !! name = Some id) then set_reservedNames d (base.delete name (reservedNames d)) else d.

Definition UnwantedState (d : Dispatcher) (id : string) : unwantedState * bool :=
  match byID d !! id with
  | None => (StateNone, false)
  | Some e => (h_Unwanted (e_h e), true)
  end.

(** [BlockUnwanted]'s span: whether the state moved. *)
Definition BlockUnwanted (d : Dispatcher) (id : string) (inst : nat) (pause : bool) : result disp_err (Dispatcher * bool) :=
  match lookupFor d id (Some inst) with
  | None => Err ErrNotFound
  | Some e =>
      if negb (bool_decide (h_Unwanted (e_h e) = StateNone)) then Ok (d, false)
      else let? d := upd_header d id (Some inst) (fun h => h_setUnwanted h (if pause then StateBlocked else StateFailOwed)) in
           Ok (d, true)
  end.

(** [resume]'s span, up to the job's intent. *)
Definition resume (d : Dispatcher) (id : string) (expected : option nat) (byUser : bool) : result disp_err Dispatcher :=
  match lookupFor d id expected with
  | None => Err ErrNotFound
  | Some e =>
      if bool_decide (h_Unwanted (e_h e) = StateBlocked) then
        if negb byUser then Err ErrUnwantedBlocked
        else upd_header d id expected (fun h => h_setUnwanted h StateApproved)
      else Ok d
  end.
