(* ===== verification/RegistryProps.v ===== *)
(** * Properties of the registry

    Every interleaving of the spans that hold [Dispatcher.mu] or
    [Dispatcher.storeMu], over any number of removals, occupiers, workers and
    store writes. *)
From stdpp Require Import base numbers gmap sorting list strings.
From Stdlib Require Import ZArith Lia.
From S2P Require Import Prelude Lifecycle Registry.
Local Open Scope Z_scope.

(** ** Dispatch order *)
#[local] Instance ranked_total : Total ranked_le.
Proof. intros [[? p] i] [[? q] j]. unfold ranked_le. lia. Qed.
#[local] Instance ranked_trans : Transitive ranked_le.
Proof. intros [[? p] i] [[? q] j] [[? r] k]. unfold ranked_le. lia. Qed.

Lemma rank_ids d : (fun r => fst (fst r)) <$> ranked_jobs d = order d.
Proof.
  unfold ranked_jobs. rewrite fmap_imap. apply list_eq. intros i. rewrite list_lookup_imap. by destruct (order d !! i).
Qed.

Lemma dispatchOrder_perm d : dispatchOrderLocked d ≡ₚ order d.
Proof. unfold dispatchOrderLocked. rewrite <- (rank_ids d). apply fmap_Permutation, merge_sort_Permutation. Qed.

Lemma rank_elem d id p i : (id, p, i) ∈ ranked_jobs d <-> order d !! i = Some id /\ p = prio_of d id.
Proof.
  unfold ranked_jobs. rewrite elem_of_lookup_imap. split.
  - intros (j & y & [= -> -> ->] & H). done.
  - intros [H ->]. by exists i, id.
Qed.

(** Of two jobs, the one first in dispatch order has the higher priority, or
    the same and the earlier position. *)
Lemma dispatchOrder_sorted d i j a b : (i < j)%nat ->
  dispatchOrderLocked d !! i = Some a -> dispatchOrderLocked d !! j = Some b ->
  prio_of d b < prio_of d a \/
  (prio_of d a = prio_of d b /\ exists pa pb, (pa <= pb)%nat /\ order d !! pa = Some a /\ order d !! pb = Some b).
Proof.
  intros Hij. unfold dispatchOrderLocked. rewrite !list_lookup_fmap.
  destruct (sorted_jobs d !! i) as [[[a' pa] ia]|] eqn:Ea; [|done].
  destruct (sorted_jobs d !! j) as [[[b' pb] jb]|] eqn:Eb; [|done]. intros [= <-] [= <-]. cbn.
  assert (forall x k, sorted_jobs d !! k = Some x -> x ∈ ranked_jobs d) as Hin.
  { intros x k Hk. rewrite <- (merge_sort_Permutation ranked_le (ranked_jobs d)). fold (sorted_jobs d). by apply list_elem_of_lookup_2 in Hk. }
  pose proof (Hin _ _ Ea) as [Ha ->]%rank_elem. pose proof (Hin _ _ Eb) as [Hb ->]%rank_elem.
  pose proof (StronglySorted_lookup_lt _ _ _ _ _ _ (StronglySorted_merge_sort ranked_le (ranked_jobs d)) Hij Ea Eb) as H.
  unfold ranked_le in H. destruct H as [H|[H1 H2]]; [by left|]. right. split; [done|]. by exists ia, jb.
Qed.

(** ** The registry's own consistency *)

(** What some map of the dispatcher knows of a job. *)
Definition mentioned (d : Dispatcher) (id : string) : Prop :=
  id ∈ resident d \/ is_Some (written d !! id) \/ is_Some (occupiers d !! id) \/
  is_Some (occupancyTokens d !! id) \/ is_Some (occupyDrained d !! id) \/ is_Some (occupyStep d !! id).

Record reg_ok (d : Dispatcher) : Prop := {
  ro_nodup : NoDup (order d);
  ro_dom : forall id, id ∈ order d <-> is_Some (byID d !! id);
  ro_entry : forall id e, byID d !! id = Some e ->
    e_seq e < nextSeq d /\ IsConcrete (h_Priority (e_h e)) = true /\ is_component (h_Name (e_h e)) = true;
  ro_unique : forall id1 id2 e1 e2, byID d !! id1 = Some e1 -> byID d !! id2 = Some e2 ->
    h_Name (e_h e1) = h_Name (e_h e2) -> id1 = id2;
  ro_reserved : forall name holder id e, reservedNames d !! name = Some holder -> byID d !! id = Some e ->
    h_Name (e_h e) = name -> id = holder;
  ro_known : forall id, mentioned d id -> is_Some (byID d !! id);
}.

(** A name the registry admits for [id] is nobody else's. *)
Lemma admitName_spec d id name : admitNameLocked d id name = None ->
  is_component name = true /\
  (forall id' e, byID d !! id' = Some e -> h_Name (e_h e) = name -> id' = id) /\
  (forall holder, reservedNames d !! name = Some holder -> holder = id).
Proof.
  unfold admitNameLocked, nameHolderLocked. destruct (is_component name); cbn; [|done].
  destruct (_ || _) eqn:E; [done|]. intros _. apply orb_false_iff in E as [E1 E2]. split; [done|]. split.
  - intros id' e He Hn. destruct (decide (id' = id)) as [|Hne]; [done|]. exfalso.
    assert (existsb (fun x => negb (bool_decide (fst x = id)) && bool_decide (h_Name (e_h (snd x)) = name)) (map_to_list (byID d)) = true);
      [|congruence].
    apply existsb_exists. exists (id', e). split; [by apply list_elem_of_In, elem_of_map_to_list|]. cbn.
    by rewrite bool_decide_eq_false_2, bool_decide_eq_true_2.
  - intros holder Hh. rewrite Hh in E2. apply negb_false_iff, bool_decide_eq_true in E2. done.
Qed.

Lemma list_find_Index (l : list string) id : NoDup l -> id ∈ l ->
  exists i, list_find (fun x => x = id) l = Some (i, id) /\ l !! i = Some id.
Proof.
  intros _ Hin. destruct (list_find (fun x => x = id) l) as [[i x]|] eqn:E.
  - apply list_find_Some in E as (H & -> & _). by exists i.
  - rewrite list_find_None, Forall_forall in E. by apply E in Hin.
Qed.

Lemma NoDup_delete_lookup {A} (l : list A) i x : NoDup l -> l !! i = Some x ->
  NoDup (base.delete i l) /\ forall y, y ∈ base.delete i l <-> y ∈ l /\ y <> x.
Proof.
  intros Hnd Hi. pose proof (delete_Permutation l i x Hi) as Hp. rewrite Hp in Hnd. apply NoDup_cons in Hnd as [Hx Hnd].
  split; [done|]. intros y. rewrite Hp at 2. rewrite elem_of_cons. split; [intros Hy; split; [by right|intros ->; done]|].
  intros [[->|Hy] Hne]; done.
Qed.

Lemma New_ok : reg_ok New.
Proof.
  split; try done.
  - apply NoDup_nil. done.
  - intros id. cbn. rewrite lookup_empty. split; [by intros ?%elem_of_nil|by intros [? ?]].
  - intros id [H|[[? H]|[[? H]|[[? H]|[[? H]|[? H]]]]]]; cbn in H; [set_solver|done..].
Qed.

Lemma register_ok d id inst name h seq d' k : reg_ok d -> register d id inst name h seq = Ok (d', k) ->
  reg_ok d' /\ byID d !! id = None /\ default 0 (removing d !! id) <= 0 /\
  byID d' = <[id := mkEntry inst (h_setName h name) (if bool_decide (seq = seqNext) then nextSeq d else seq)]> (byID d) /\
  removing d' = removing d /\ launched d' = launched d /\ written d' = written d.
Proof.
  intros [R1 R2 R3 R4 R5 R6]. unfold register, checkPriority. destruct (IsConcrete (h_Priority h)) eqn:Ep; cbn [negb]; [|done].
  case_bool_decide as Hd; [done|]. case_bool_decide as Hr; [done|]. cbv zeta.
  destruct (admitNameLocked d id _) eqn:En; [done|]. apply admitName_spec in En as (Hc & Hn1 & Hn2). cbn in Hc, Hn1, Hn2.
  intros [= <- <-]. apply eq_None_not_Some in Hd.
  set (sq := if bool_decide (seq = seqNext) then nextSeq d else seq).
  split; [|cbn; split_and!; try done; lia]. split; cbn.
  - apply NoDup_app. split; [done|]. split; [|by apply NoDup_singleton]. intros x Hx ->%list_elem_of_singleton.
    apply R2 in Hx. rewrite Hd in Hx. by destruct Hx.
  - intros x. rewrite elem_of_app, list_elem_of_singleton, R2. destruct (decide (x = id)) as [->|Hne].
    + rewrite lookup_insert_eq. naive_solver.
    + rewrite lookup_insert_ne by done. naive_solver.
  - intros x e [[<- <-]|[Hne H]]%lookup_insert_Some; cbn; [split_and!; try done; lia|].
    destruct (R3 _ _ H) as (? & ? & ?). split_and!; try done. lia.
  - intros x y e1 e2 [[<- <-]|[Hne1 H1]]%lookup_insert_Some [[<- <-]|[Hne2 H2]]%lookup_insert_Some Heq; cbn in *; [done| | |by eapply R4].
    + symmetry. by apply (Hn1 y e2).
    + by apply (Hn1 x e1).
  - intros nm holder x e Hh [[<- <-]|[Hne H]]%lookup_insert_Some Heq; cbn in *; [subst; symmetry; by apply Hn2|by eapply R5].
  - intros x Hx. destruct (decide (x = id)) as [->|Hne]; [rewrite lookup_insert_eq; eauto|]. rewrite lookup_insert_ne by done. by apply R6.
Qed.

(** A change that keeps the registered jobs and mentions only them. *)
Lemma reg_ok_same d d' : reg_ok d -> byID d' = byID d -> order d' = order d -> reservedNames d' = reservedNames d ->
  nextSeq d' = nextSeq d -> (forall id, mentioned d' id -> mentioned d id \/ is_Some (byID d !! id)) -> reg_ok d'.
Proof.
  intros [R1 R2 R3 R4 R5 R6] E1 E2 E3 E4 Hm. split; rewrite ?E1, ?E2, ?E3, ?E4; try done.
  intros id [H|H]%Hm; [by apply R6|done].
Qed.

(** A change of one job's header to another name the registry admits. *)
Lemma upd_header_ok d id expected f d' : reg_ok d -> upd_header d id expected f = Ok d' ->
  (forall h, IsConcrete (h_Priority h) = true -> IsConcrete (h_Priority (f h)) = true) ->
  (forall e, byID d !! id = Some e -> h_Name (f (e_h e)) = h_Name (e_h e) \/ admitNameLocked d id (h_Name (f (e_h e))) = None) ->
  reg_ok d' /\ (forall x, is_Some (byID d' !! x) <-> is_Some (byID d !! x)) /\ removing d' = removing d /\
  launched d' = launched d /\ written d' = written d.
Proof.
  intros [R1 R2 R3 R4 R5 R6] H Hp Hn. unfold upd_header in H. destruct (lookupFor d id expected) as [e|] eqn:El; [|done].
  injection H as <-. assert (byID d !! id = Some e) as He.
  { unfold lookupFor in El. destruct (byID d !! id) as [e0|]; [|done]. cbn in El. destruct expected; [|by simplify_eq].
    by case_decide; simplify_eq. }
  destruct (R3 _ _ He) as (Hs & Hpr & Hc). specialize (Hn _ He).
  assert (forall x, is_Some (<[id := mkEntry (e_j e) (f (e_h e)) (e_seq e)]> (byID d) !! x) <-> is_Some (byID d !! x)) as Hdom.
  { intros x. destruct (decide (x = id)) as [->|Hne]; [rewrite lookup_insert_eq, He; naive_solver|by rewrite lookup_insert_ne]. }
  assert (is_component (h_Name (f (e_h e))) = true /\
    (forall x e', byID d !! x = Some e' -> h_Name (e_h e') = h_Name (f (e_h e)) -> x = id) /\
    (forall holder, reservedNames d !! h_Name (f (e_h e)) = Some holder -> holder = id)) as (Hc' & Hu & Hrv).
  { destruct Hn as [->|Hn]; [|by apply admitName_spec in Hn]. split; [done|]. split.
    - intros x e' Hx Heq. by apply (R4 x id e' e).
    - intros holder Hh. symmetry. by apply (R5 (h_Name (e_h e)) holder id e). }
  split; [|cbn; done]. split; cbn; try done.
  - intros x. by rewrite R2, Hdom.
  - intros x e' [[<- <-]|[Hne H]]%lookup_insert_Some; cbn; [split_and!; [done|by apply Hp|done]|exact (R3 x e' H)].
  - intros x y e1 e2 [[<- <-]|[Hne1 H1]]%lookup_insert_Some [[<- <-]|[Hne2 H2]]%lookup_insert_Some Heq; cbn in *; [done| | |by eapply R4].
    + symmetry. by apply (Hu y e2).
    + by apply (Hu x e1).
  - intros nm holder x e' Hh [[<- <-]|[Hne H]]%lookup_insert_Some Heq; cbn in *; [subst; symmetry; by apply Hrv|by eapply R5].
  - intros x Hx. apply Hdom. by apply R6.
Qed.

(** Deregistering forgets the job in every map. *)
Lemma deregister_fields d id : reg_ok d ->
  byID (deregister d id) = base.delete id (byID d) /\ removing (deregister d id) = removing (unmark d id) /\
  launched (deregister d id) = launched d /\ written (deregister d id) = base.delete id (written d) /\
  resident (deregister d id) = resident d ∖ {[id]} /\ occupiers (deregister d id) = base.delete id (occupiers d) /\
  occupancyTokens (deregister d id) = base.delete id (occupancyTokens d) /\
  occupyDrained (deregister d id) = base.delete id (occupyDrained d) /\ occupyStep (deregister d id) = base.delete id (occupyStep d) /\
  reservedNames (deregister d id) = reservedNames d /\ nextSeq (deregister d id) = nextSeq d /\
  d_next (deregister d id) = d_next d /\
  d_closed (deregister d id) = close_of (occupyStep d) id (close_of (occupyDrained d) id (d_closed d)) /\
  NoDup (order (deregister d id)) /\ forall x, x ∈ order (deregister d id) <-> x ∈ order d /\ x <> id.
Proof.
  intros [R1 _ _ _ _ _]. unfold deregister. cbv zeta. cbn [order set_byID set_written set_resident unmark set_removing set_occupiers
    set_occupancyTokens set_closed set_occupyDrained set_occupyStep].
  destruct (decide (id ∈ order d)) as [Hin|Hin].
  - destruct (list_find_Index (order d) id R1 Hin) as (i & -> & Hi). destruct (NoDup_delete_lookup (order d) i id R1 Hi) as [Hnd Hel].
    cbn. split_and!; try done.
  - assert (list_find (fun x => x = id) (order d) = None) as ->.
    { apply list_find_None, Forall_forall. intros x Hx ->. done. }
    cbn. split_and!; try done. intros x. split; [intros Hx; split; [done|intros ->; done]|naive_solver].
Qed.

Lemma deregister_ok d id : reg_ok d -> reg_ok (deregister d id).
Proof.
  intros R. destruct (deregister_fields d id R) as (E1 & _ & _ & E4 & E5 & E6 & E7 & E8 & E9 & E10 & E11 & _ & _ & E14 & E15).
  destruct R as [R1 R2 R3 R4 R5 R6]. split.
  - done.
  - intros x. rewrite E15, E1, R2. destruct (decide (x = id)) as [->|Hne].
    + rewrite lookup_delete_eq. split; [naive_solver|by intros [? ?]].
    + rewrite lookup_delete_ne by done. naive_solver.
  - intros x e. rewrite E1, E11. intros [_ H]%lookup_delete_Some. by apply (R3 x).
  - intros x y e1 e2. rewrite E1. intros [_ H1]%lookup_delete_Some [_ H2]%lookup_delete_Some. by eapply R4.
  - intros nm holder x e. rewrite E1, E10. intros Hh [_ H]%lookup_delete_Some. by eapply R5.
  - intros x Hx. unfold mentioned in Hx. rewrite E4, E5, E6, E7, E8, E9 in Hx. rewrite E1. destruct (decide (x = id)) as [->|Hne].
    + rewrite !lookup_delete_eq in Hx. destruct Hx as [Hx|Hx]; [set_solver|].
      destruct Hx as [[? ?]|[[? ?]|[[? ?]|[[? ?]|[? ?]]]]]; done.
    + rewrite !lookup_delete_ne in * by done. apply R6. unfold mentioned. set_solver.
Qed.

(** ** Wait channels *)
Definition holds_chan (d : Dispatcher) (step : bool) (id : string) (ch : nat) : Prop :=
  (if step then occupyStep d else occupyDrained d) !! id = Some ch.

(** A channel the dispatcher may still close is open, and is one job's. *)
Record chan_ok (d : Dispatcher) : Prop := {
  co_open : forall b id ch, holds_chan d b id ch -> (ch < d_next d)%nat /\ ch ∉ d_closed d;
  co_inj : forall b id b' id' ch, holds_chan d b id ch -> holds_chan d b' id' ch -> b = b' /\ id = id';
  co_closed : forall ch, ch ∈ d_closed d -> (ch < d_next d)%nat;
}.

Lemma close_of_spec chans id closed ch : ch ∈ close_of chans id closed <-> chans !! id = Some ch \/ ch ∈ closed.
Proof. unfold close_of. destruct (chans !! id) as [c|]; set_solver. Qed.

(** Closing a job's two channels and dropping them. *)
Lemma chan_ok_drop d d' id : chan_ok d -> occupyStep d' = base.delete id (occupyStep d) ->
  occupyDrained d' = base.delete id (occupyDrained d) -> d_next d' = d_next d ->
  d_closed d' = close_of (occupyStep d) id (close_of (occupyDrained d) id (d_closed d)) -> chan_ok d'.
Proof.
  intros [C1 C2 C3] E1 E2 E3 E4.
  assert (forall b x ch, holds_chan d' b x ch <-> x <> id /\ holds_chan d b x ch) as Hh.
  { intros b x ch. unfold holds_chan. destruct b; rewrite ?E1, ?E2, lookup_delete_Some; naive_solver. }
  split.
  - intros b x ch [Hne H]%Hh. rewrite E3, E4, !close_of_spec. destruct (C1 _ _ _ H) as [Hlt Hcl]. split; [done|].
    intros [Hc|[Hc|Hc]]; [|by apply Hne; destruct (C2 b x false id ch)|done].
    apply Hne. by destruct (C2 b x true id ch).
  - intros b x b' x' ch [_ H]%Hh [_ H']%Hh. by apply (C2 b x b' x' ch).
  - intros ch. rewrite E3, E4, !close_of_spec. intros [Hc|[Hc|Hc]]; [by apply (C1 true id)|by apply (C1 false id)|by apply C3].
Qed.

(** A fresh channel for a job that had none, or whose old one is closed. *)
Lemma chan_ok_fresh d d' (b : bool) id : chan_ok d -> d_next d' = S (d_next d) ->
  (forall b' x ch, holds_chan d' b' x ch -> (b' = b /\ x = id /\ ch = d_next d) \/ (holds_chan d b' x ch /\ ~ (b' = b /\ x = id))) ->
  (forall ch, ch ∈ d_closed d' -> ch ∈ d_closed d \/ holds_chan d b id ch) -> chan_ok d'.
Proof.
  intros [C1 C2 C3] En Hh Hc. split.
  - intros b' x ch [(-> & -> & ->)|[H Hne]]%Hh; rewrite En.
    + split; [lia|]. intros [Hcl|Hcl]%Hc; [apply C3 in Hcl; lia|]. apply C1 in Hcl. lia.
    + destruct (C1 _ _ _ H) as [Hlt Hcl]. split; [lia|]. intros [?|Hold]%Hc; [done|]. apply Hne. by apply (C2 b' x b id ch).
  - intros b1 x1 b2 x2 ch [(-> & -> & ->)|[H1 _]]%Hh [(-> & -> & E)|[H2 _]]%Hh; [done| | |by eapply C2].
    + apply C1 in H2. lia.
    + subst. apply C1 in H1. lia.
  - intros ch [H|H]%Hc; rewrite En; [apply C3 in H; lia|apply C1 in H; lia].
Qed.

Lemma chan_ok_same d d' : chan_ok d -> occupyStep d' = occupyStep d -> occupyDrained d' = occupyDrained d ->
  d_closed d' = d_closed d -> (d_next d <= d_next d')%nat -> chan_ok d'.
Proof.
  intros [C1 C2 C3] E1 E2 E3 E4.
  assert (forall b id ch, holds_chan d' b id ch <-> holds_chan d b id ch) as Hh by (intros; unfold holds_chan; by rewrite E1, E2).
  split.
  - intros b id ch. rewrite Hh, E3. intros H. destruct (C1 b id ch H). split; [lia|done].
  - intros b id b' id' ch. rewrite !Hh. apply C2.
  - intros ch. rewrite E3. intros ?%C3. lia.
Qed.

(** The occupancy spans. *)
Lemma enter_fields d id expected d' tok : occupy_enter d id expected = Ok (d', tok) ->
  admitsLocked d id = true /\ tok = d_next d /\ byID d' = byID d /\ order d' = order d /\ reservedNames d' = reservedNames d /\
  nextSeq d' = nextSeq d /\ removing d' = removing d /\ launched d' = launched d /\ written d' = written d /\
  resident d' = resident d /\ occupyStep d' = occupyStep d /\ occupyDrained d' = occupyDrained d /\ d_closed d' = d_closed d /\
  d_next d' = S (d_next d) /\
  occupancyTokens d' = <[id := {[tok]} ∪ default ∅ (occupancyTokens d !! id)]> (occupancyTokens d) /\
  (forall x, is_Some (occupiers d' !! x) -> is_Some (occupiers d !! x) \/ x = id).
Proof.
  unfold occupy_enter. destruct (admitsLocked d id); cbn [negb]; [|done]. destruct (lookupFor d id expected); [|done].
  intros [= <- <-]. cbn. split_and!; try done. intros x. destruct (decide (x = id)) as [->|Hne]; [by right|].
  rewrite lookup_insert_ne by done. by left.
Qed.

Lemma exit_fields d id tok : let d' := occupy_exit d id tok in
  byID d' = byID d /\ order d' = order d /\ reservedNames d' = reservedNames d /\ nextSeq d' = nextSeq d /\
  removing d' = removing d /\ launched d' = launched d /\ written d' = written d /\ resident d' = resident d /\
  (forall x, x <> id -> occupancyTokens d' !! x = occupancyTokens d !! x) /\
  (forall toks, occupancyTokens d' !! id = Some toks -> exists toks', occupancyTokens d !! id = Some toks' /\ toks = toks' ∖ {[tok]}) /\
  (forall x, is_Some (occupiers d' !! x) -> is_Some (occupiers d !! x)) /\
  (forall x, is_Some (occupyDrained d' !! x) -> is_Some (occupyDrained d !! x)) /\
  (forall x, is_Some (occupyStep d' !! x) -> is_Some (occupyStep d !! x)).
Proof.
  cbv zeta. unfold occupy_exit. set (d1 := match occupancyTokens d !! id with None => d | Some _ => _ end).
  assert (byID d1 = byID d /\ order d1 = order d /\ reservedNames d1 = reservedNames d /\ nextSeq d1 = nextSeq d /\
    removing d1 = removing d /\ launched d1 = launched d /\ written d1 = written d /\ resident d1 = resident d /\
    occupiers d1 = occupiers d /\ occupyDrained d1 = occupyDrained d /\ occupyStep d1 = occupyStep d /\
    (forall x, x <> id -> occupancyTokens d1 !! x = occupancyTokens d !! x) /\
    (forall toks, occupancyTokens d1 !! id = Some toks -> exists toks', occupancyTokens d !! id = Some toks' /\ toks = toks' ∖ {[tok]}))
    as (E1 & E2 & E3 & E4 & E5 & E6 & E7 & E8 & E9 & E10 & E11 & E12 & E13).
  { subst d1. destruct (occupancyTokens d !! id) as [toks|] eqn:Et; cbn; [|by split_and!; try done; congruence].
    split_and!; try done; case_decide as He.
    - intros x Hx. by rewrite lookup_delete_ne.
    - intros x Hx. by rewrite lookup_insert_ne.
    - by rewrite lookup_delete_eq.
    - rewrite lookup_insert_eq. intros t [= <-]. eauto. }
  rewrite E9. case_decide as Hn; cbn [occupancyTokens byID order reservedNames nextSeq removing launched written resident occupiers
    occupyDrained occupyStep set_occupiers set_closed set_occupyDrained set_occupyStep].
  - rewrite E1, E2, E3, E4, E5, E6, E7, E8, E10, E11. split_and!; try done;
      intros x [y H]; destruct (decide (x = id)) as [->|Hne]; by rewrite ?lookup_delete_eq, ?lookup_delete_ne in H by done.
  - assert (is_Some (occupiers d !! id)) as Ho by (destruct (occupiers d !! id); [by eexists|cbn in Hn; lia]).
    destruct (occupyStep d1 !! id) as [ch|] eqn:Es; cbn; rewrite ?E1, ?E2, ?E3, ?E4, ?E5, ?E6, ?E7, ?E8, ?E10, ?E11;
      (split_and!; try done);
      intros x [y H]; destruct (decide (x = id)) as [->|Hne]; rewrite ?lookup_insert_eq, ?lookup_insert_ne in H by done;
      try done; try (by eexists); rewrite E11 in Es; try (by eexists).
Qed.

Lemma exit_chan d id tok : chan_ok d -> chan_ok (occupy_exit d id tok).
Proof.
  intros C. unfold occupy_exit. set (d1 := match occupancyTokens d !! id with None => d | Some _ => _ end).
  assert (chan_ok d1) as C1 by (subst d1; destruct (occupancyTokens d !! id); [|done]; by apply (chan_ok_same d)).
  assert (occupyDrained d1 = occupyDrained d) as _ by (subst d1; by destruct (occupancyTokens d !! id)).
  case_decide; [by apply (chan_ok_drop d1 _ id)|]. cbn [occupyStep set_occupiers].
  destruct (occupyStep d1 !! id) as [ch|] eqn:Es; [|by apply (chan_ok_same d1)].
  apply (chan_ok_fresh d1 _ true id C1); [done| |].
  - intros [] x c; unfold holds_chan; cbn.
    + intros [[<- <-]|[Hne H']]%lookup_insert_Some; [by left|right]. split; [done|naive_solver].
    + intros H'. right. split; [done|naive_solver].
  - intros c. cbn. rewrite close_of_spec. unfold holds_chan. tauto.
Qed.

Lemma waitLive_fields d id : let d' := fst (waitLive d id) in
  byID d' = byID d /\ order d' = order d /\ reservedNames d' = reservedNames d /\ nextSeq d' = nextSeq d /\
  removing d' = removing d /\ launched d' = launched d /\ written d' = written d /\ resident d' = resident d /\
  occupancyTokens d' = occupancyTokens d /\ occupiers d' = occupiers d /\ occupyStep d' = occupyStep d /\
  (forall x, is_Some (occupyDrained d' !! x) -> is_Some (occupyDrained d !! x) \/ is_Some (occupiers d !! x)).
Proof.
  cbv zeta. unfold waitLive. case_decide as Hn; [by split_and!; eauto|].
  destruct (occupyDrained d !! id) eqn:Ed; cbn; (split_and!; eauto).
  intros x. destruct (decide (x = id)) as [->|Hne]; [|rewrite lookup_insert_ne by done; by left].
  intros _. right. destruct (occupiers d !! id); [by eexists|cbn in Hn; lia].
Qed.

Lemma waitLive_chan d id : chan_ok d -> chan_ok (fst (waitLive d id)).
Proof.
  intros C. unfold waitLive. case_decide; [done|]. destruct (occupyDrained d !! id) eqn:Ed; [done|].
  apply (chan_ok_fresh d _ false id C); [done| |].
  - intros [] x c; unfold holds_chan; cbn.
    + intros H'. right. split; [done|naive_solver].
    + intros [[<- <-]|[Hne H']]%lookup_insert_Some; [by left|right]. split; [done|naive_solver].
  - intros c. cbn. by left.
Qed.

Lemma waitExcept_fields d id tok : let d' := fst (waitLiveExcept d id tok) in
  byID d' = byID d /\ order d' = order d /\ reservedNames d' = reservedNames d /\ nextSeq d' = nextSeq d /\
  removing d' = removing d /\ launched d' = launched d /\ written d' = written d /\ resident d' = resident d /\
  occupancyTokens d' = occupancyTokens d /\ occupiers d' = occupiers d /\ occupyDrained d' = occupyDrained d /\
  (forall x, is_Some (occupyStep d' !! x) -> is_Some (occupyStep d !! x) \/ is_Some (occupancyTokens d !! x)).
Proof.
  cbv zeta. unfold waitLiveExcept. destruct (occupancyTokens d !! id) as [toks|] eqn:Et; [|by split_and!; eauto].
  destruct (negb _); [by split_and!; eauto|]. case_decide; [by split_and!; eauto|].
  destruct (occupyStep d !! id) eqn:Es; cbn; (split_and!; eauto).
  intros x. destruct (decide (x = id)) as [->|Hne]; [|rewrite lookup_insert_ne by done; by left].
  intros _. right. by eexists.
Qed.

Lemma waitExcept_chan d id tok : chan_ok d -> chan_ok (fst (waitLiveExcept d id tok)).
Proof.
  intros C. unfold waitLiveExcept. destruct (occupancyTokens d !! id); [|done]. destruct (negb _); [done|].
  case_decide; [done|]. destruct (occupyStep d !! id) eqn:Es; [done|].
  apply (chan_ok_fresh d _ true id C); [done| |].
  - intros [] x c; unfold holds_chan; cbn.
    + intros [[<- <-]|[Hne H']]%lookup_insert_Some; [by left|right]. split; [done|naive_solver].
    + intros H'. right. split; [done|naive_solver].
  - intros c. cbn. by left.
Qed.

(** ** The dispatcher among everything that calls it

    The removals under way (with whether the stored row is deleted yet), the
    occupiers inside their function, the claims a removal is still to clear,
    the stored rows, the save that holds [storeMu], and the jobs whose
    removal deleted the row and ended. *)
Record sys : Type := mkSys {
  s_d : Dispatcher;
  s_rms : list (string * bool);
  s_occs : list (string * nat);
  s_unlatch : list string;
  s_store : gmap string Persisted;
  s_saving : option Persisted;
  s_gone : gset string;
}.

(** A door that rewrites one header. *)
Inductive header_step (d : Dispatcher) : Dispatcher -> Prop :=
| hs_failReason id inst r d' : SetFailReason d id inst r = Ok d' -> header_step d d'
| hs_operational id m d' : SetOperationalError d id m = Ok d' -> header_step d d'
| hs_priority id p d' : SetPriority d id p = Ok d' -> header_step d d'
| hs_category id c d' : SetCategory d id c = Ok d' -> header_step d d'
| hs_script id c d' : SetScript d id c = Ok d' -> header_step d d'
| hs_pp id pp d' : SetPP d id pp = Ok d' -> header_step d d'
| hs_name begun id name d' : SetName d begun id name = Ok d' -> header_step d d'
| hs_block id inst pause d' moved : BlockUnwanted d id inst pause = Ok (d', moved) -> header_step d d'
| hs_resume id expected byUser d' : resume d id expected byUser = Ok d' -> header_step d d'.

Inductive sys_step : sys -> sys -> Prop :=
| st_register d rms occs un store sv gone id inst name h seq d' k : register d id inst name h seq = Ok (d', k) ->
    sys_step (mkSys d rms occs un store sv gone) (mkSys d' rms occs un store sv (gone ∖ {[id]}))
| st_restored d rms occs un store sv gone p : store !! p_ID p = Some p ->
    sys_step (mkSys d rms occs un store sv gone) (mkSys (markWritten d p) rms occs un store sv gone)
| st_begin d rms occs un store sv gone id expected d' : beginRemovalFor d id expected = Some d' ->
    sys_step (mkSys d rms occs un store sv gone) (mkSys d' (rms ++ [(id, false)]) occs un store sv gone)
| st_begin_idle d rms occs un store sv gone id d' live : beginRemovalIfIdle d id = (Some d', live) ->
    sys_step (mkSys d rms occs un store sv gone) (mkSys d' (rms ++ [(id, false)]) occs un store sv gone)
| st_abort d l1 l2 occs un store sv gone id :
    sys_step (mkSys d (l1 ++ (id, false) :: l2) occs un store sv gone) (mkSys (removal_abort d id) (l1 ++ l2) occs un store sv gone)
| st_delete d l1 l2 occs un store gone id :
    sys_step (mkSys d (l1 ++ (id, false) :: l2) occs un store None gone)
      (mkSys d (l1 ++ (id, true) :: l2) occs un (base.delete id store) None gone)
| st_end d l1 l2 occs un store sv gone id (deleted : bool) :
    sys_step (mkSys d (l1 ++ (id, deleted) :: l2) occs un store sv gone)
      (mkSys (deregister d id) (l1 ++ l2) occs (un ++ [id]) store sv (if deleted then {[id]} ∪ gone else gone))
| st_unlatch d rms occs l1 l2 store sv gone id :
    sys_step (mkSys d rms occs (l1 ++ id :: l2) store sv gone) (mkSys (clearLaunched d id) rms occs (l1 ++ l2) store sv gone)
| st_claim d rms occs un store sv gone id :
    sys_step (mkSys d rms occs un store sv gone) (mkSys (fst (claimLaunched d id)) rms occs un store sv gone)
| st_report d rms occs un store sv gone id :
    sys_step (mkSys d rms occs un store sv gone) (mkSys (clearLaunched d id) rms occs un store sv gone)
| st_enter d rms occs un store sv gone id expected d' tok : occupy_enter d id expected = Ok (d', tok) ->
    sys_step (mkSys d rms occs un store sv gone) (mkSys d' rms (occs ++ [(id, tok)]) un store sv gone)
| st_exit d rms l1 l2 un store sv gone id tok :
    sys_step (mkSys d rms (l1 ++ (id, tok) :: l2) un store sv gone) (mkSys (occupy_exit d id tok) rms (l1 ++ l2) un store sv gone)
| st_wait d rms occs un store sv gone id :
    sys_step (mkSys d rms occs un store sv gone) (mkSys (fst (waitLive d id)) rms occs un store sv gone)
| st_wait_except d rms occs un store sv gone id tok :
    sys_step (mkSys d rms occs un store sv gone) (mkSys (fst (waitLiveExcept d id tok)) rms occs un store sv gone)
| st_check d rms occs un store gone p : admitsLocked d (p_ID p) = true ->
    sys_step (mkSys d rms occs un store None gone) (mkSys d rms occs un store (Some p) gone)
| st_saved d rms occs un store gone p :
    sys_step (mkSys d rms occs un store (Some p) gone) (mkSys (markWritten d p) rms occs un (<[p_ID p := p]> store) None gone)
| st_save_failed d rms occs un store gone p :
    sys_step (mkSys d rms occs un store (Some p) gone) (mkSys d rms occs un store None gone)
| st_header d rms occs un store sv gone d' : header_step d d' ->
    sys_step (mkSys d rms occs un store sv gone) (mkSys d' rms occs un store sv gone)
| st_reserve d rms occs un store sv gone id name d' : ReserveName d id name = Ok d' ->
    sys_step (mkSys d rms occs un store sv gone) (mkSys d' rms occs un store sv gone)
| st_release d rms occs un store sv gone id name :
    sys_step (mkSys d rms occs un store sv gone) (mkSys (release_name d id name) rms occs un store sv gone)
| st_resident d rms occs un store sv gone id :
    sys_step (mkSys d rms occs un store sv gone) (mkSys (markResident d id) rms occs un store sv gone)
| st_notResident d rms occs un store sv gone id :
    sys_step (mkSys d rms occs un store sv gone) (mkSys (markNotResident d id) rms occs un store sv gone).

(** From an empty registry over whatever rows are stored. *)
Inductive sys_reachable : sys -> Prop :=
| sys_start store : sys_reachable (mkSys New [] [] [] store None ∅)
| sys_next s s' : sys_reachable s -> sys_step s s' -> sys_reachable s'.

Definition marks (rms : list (string * bool)) (id : string) : Z :=
  sumZ ((fun r => if decide (fst r = id) then 1 else 0) <$> rms).
#[local] Arguments marks : simpl never.

Record sys_ok (s : sys) : Prop := {
  so_reg : reg_ok (s_d s);
  so_chan : chan_ok (s_d s);
  so_count : forall id, default 0 (removing (s_d s) !! id) = marks (s_rms s) id;
  so_launch : forall id, id ∈ launched (s_d s) -> is_Some (byID (s_d s) !! id) \/ id ∈ s_unlatch s;
  so_tokens : forall id toks tok, occupancyTokens (s_d s) !! id = Some toks -> tok ∈ toks -> (id, tok) ∈ s_occs s;
  so_deleted : forall id, (id, true) ∈ s_rms s ->
    s_store s !! id = None /\ forall p, s_saving s = Some p -> p_ID p <> id;
  so_gone : forall id, id ∈ s_gone s -> byID (s_d s) !! id = None /\
    s_store s !! id = None /\ forall p, s_saving s = Some p -> p_ID p <> id;
}.

Lemma marks_app l1 l2 id : marks (l1 ++ l2) id = marks l1 id + marks l2 id.
Proof. unfold marks. by rewrite fmap_app, sumZ_app. Qed.
Lemma marks_cons r l id : marks (r :: l) id = (if decide (fst r = id) then 1 else 0) + marks l id.
Proof. done. Qed.
Lemma marks_nonneg l id : 0 <= marks l id.
Proof. apply sumZ_nonneg, Forall_forall. intros x (r & -> & _)%list_elem_of_fmap. by case_decide. Qed.
Lemma marks_pos l id b : (id, b) ∈ l -> 0 < marks l id.
Proof.
  intros (l1 & l2 & ->)%list_elem_of_split. rewrite marks_app, marks_cons, decide_True by done.
  pose proof (marks_nonneg l1 id). pose proof (marks_nonneg l2 id). lia.
Qed.

(** The count after one mark is taken off. *)
Lemma unmark_count d id n x : (forall y, default 0 (removing d !! y) = n y) -> 0 < n id -> (forall y, 0 <= n y) ->
  default 0 (removing (unmark d id) !! x) = if decide (x = id) then n x - 1 else n x.
Proof.
  intros Hn Hid Hnn. unfold unmark. cbn. rewrite Hn. case_decide as Hz; case_decide as Hx; subst.
  - rewrite lookup_delete_eq. cbn. lia.
  - rewrite lookup_delete_ne by done. apply Hn.
  - by rewrite lookup_insert_eq.
  - rewrite lookup_insert_ne by done. apply Hn.
Qed.

Lemma admits_spec d id : admitsLocked d id = true <-> is_Some (byID d !! id) /\ default 0 (removing d !! id) = 0.
Proof. unfold admitsLocked. rewrite andb_true_iff, !bool_decide_eq_true. done. Qed.

Lemma markWritten_fields d p : let d' := markWritten d p in
  byID d' = byID d /\ order d' = order d /\ reservedNames d' = reservedNames d /\ nextSeq d' = nextSeq d /\
  removing d' = removing d /\ launched d' = launched d /\ resident d' = resident d /\ occupancyTokens d' = occupancyTokens d /\
  occupiers d' = occupiers d /\ occupyDrained d' = occupyDrained d /\ occupyStep d' = occupyStep d /\
  d_closed d' = d_closed d /\ d_next d' = d_next d /\
  forall x, is_Some (written d' !! x) -> is_Some (written d !! x) \/ is_Some (byID d !! x).
Proof.
  cbv zeta. unfold markWritten. case_bool_decide as H; cbn; split_and!; try done; [|by left].
  intros x. destruct (decide (x = p_ID p)) as [->|Hne]; [by right|]. rewrite lookup_insert_ne by done. by left.
Qed.

(** A header door keeps the registry and touches nothing else. *)
Lemma header_step_ok d d' : reg_ok d -> header_step d d' ->
  reg_ok d' /\ (forall x, is_Some (byID d' !! x) <-> is_Some (byID d !! x)) /\ removing d' = removing d /\
  launched d' = launched d /\ occupancyTokens d' = occupancyTokens d /\ occupyDrained d' = occupyDrained d /\
  occupyStep d' = occupyStep d /\ d_closed d' = d_closed d /\ d_next d' = d_next d.
Proof.
  intros R Hs.
  assert (forall id expected f d', upd_header d id expected f = Ok d' ->
    (forall h, IsConcrete (h_Priority h) = true -> IsConcrete (h_Priority (f h)) = true) ->
    (forall e, byID d !! id = Some e -> h_Name (f (e_h e)) = h_Name (e_h e) \/ admitNameLocked d id (h_Name (f (e_h e))) = None) ->
    reg_ok d' /\ (forall x, is_Some (byID d' !! x) <-> is_Some (byID d !! x)) /\ removing d' = removing d /\
    launched d' = launched d /\ occupancyTokens d' = occupancyTokens d /\ occupyDrained d' = occupyDrained d /\
    occupyStep d' = occupyStep d /\ d_closed d' = d_closed d /\ d_next d' = d_next d) as Hu.
  { intros id expected f d0 H Hp Hn. destruct (upd_header_ok d id expected f d0 R H Hp Hn) as (H1 & H2 & H3 & H4 & _).
    unfold upd_header in H. destruct (lookupFor d id expected); [|done]. injection H as <-. split_and!; done. }
  destruct Hs as [id inst r d' H|id m d' H|id p d' H|id c d' H|id c d' H|id pp d' H|begun id name d' H|id inst pause d' mv H|id ex bu d' H].
  1,2,4,5,6: by eapply Hu; [exact H| |intros; left].
  - unfold SetPriority, checkPriority in H. destruct (IsConcrete p) eqn:Ep; [|done]. by eapply Hu; [exact H| |intros; left].
  - unfold SetName in H. destruct (byID d !! id); [|done]. destruct (admitNameLocked d id name) eqn:En; [done|].
    destruct begun; [done|]. by eapply Hu; [exact H| |intros; right].
  - unfold BlockUnwanted in H. destruct (lookupFor d id (Some inst)) as [e|]; [|done]. destruct (negb _); [by simplify_eq|].
    apply rbind_Ok_inv in H as (d1 & H & [= <- <-]). by eapply Hu; [exact H| |intros; left].
  - unfold resume in H. destruct (lookupFor d id ex) as [e|]; [|done]. case_bool_decide; [|by simplify_eq].
    destruct (negb bu); [done|]. by eapply Hu; [exact H| |intros; left].
Qed.

(** ** Every step keeps it *)

(** A step that changes the dispatcher only, and neither the registered IDs
    nor the removal marks. *)
Lemma sys_ok_frame d d' rms occs occs' un store sv gone :
  sys_ok (mkSys d rms occs un store sv gone) -> reg_ok d' -> chan_ok d' ->
  (forall x, is_Some (byID d' !! x) <-> is_Some (byID d !! x)) -> removing d' = removing d ->
  (forall x, x ∈ launched d' -> x ∈ launched d \/ is_Some (byID d !! x)) ->
  (forall id toks tok, occupancyTokens d' !! id = Some toks -> tok ∈ toks -> (id, tok) ∈ occs') ->
  sys_ok (mkSys d' rms occs' un store sv gone).
Proof.
  intros [S1 S2 S3 S4 S5 S6 S7] R C Hb Hr Hl Ht; cbn in *. split; cbn; try done.
  - intros id. by rewrite Hr.
  - intros id [Hin|Hs]%Hl; rewrite Hb; [by apply S4|by left].
  - intros id Hg. destruct (S7 id Hg) as (Hn & H). split; [|done]. apply eq_None_not_Some. rewrite Hb. apply eq_None_not_Some. done.
Qed.

Lemma step_occupancy s s' : sys_ok s ->
  (exists id expected d' tok, occupy_enter (s_d s) id expected = Ok (d', tok) /\
     s' = mkSys d' (s_rms s) (s_occs s ++ [(id, tok)]) (s_unlatch s) (s_store s) (s_saving s) (s_gone s)) \/
  (exists l1 l2 id tok, s_occs s = l1 ++ (id, tok) :: l2 /\
     s' = mkSys (occupy_exit (s_d s) id tok) (s_rms s) (l1 ++ l2) (s_unlatch s) (s_store s) (s_saving s) (s_gone s)) ->
  sys_ok s'.
Proof.
  destruct s as [d rms occs un store sv gone]. cbn. intros S H. pose proof S as [R C _ _ Ht _ _]; cbn in *.
  destruct H as [(id & expected & d' & tok & E & ->)|(l1 & l2 & id & tok & -> & ->)].
  - apply enter_fields in E as (Ha & -> & E1 & E2 & E3 & E4 & E5 & E6 & E7 & E8 & E9 & E10 & E11 & E12 & E13 & E14).
    apply admits_spec in Ha as [Ha _]. apply (sys_ok_frame d d' rms occs); try done.
    + apply (reg_ok_same d); try done. intros x. unfold mentioned. rewrite E7, E8, E9, E10, E13.
      destruct (decide (x = id)) as [->|Hne]; [by right|]. rewrite lookup_insert_ne by done. specialize (E14 x). naive_solver.
    + apply (chan_ok_same d); try done. lia.
    + intros x. by rewrite E1.
    + intros x. rewrite E6. by left.
    + intros x toks t. rewrite E13, elem_of_app, list_elem_of_singleton.
      intros [[<- <-]|[Hne H]]%lookup_insert_Some Hin; [|left; by eapply Ht].
      apply elem_of_union in Hin as [->%elem_of_singleton|Hin]; [by right|]. left.
      destruct (occupancyTokens d !! id) as [ts|] eqn:Et; [by eapply Ht|set_solver].
  - pose proof (exit_fields d id tok) as (E1 & E2 & E3 & E4 & E5 & E6 & E7 & E8 & E9 & E10 & E11 & E12 & E13).
    apply (sys_ok_frame d _ rms (l1 ++ (id, tok) :: l2)); try done.
    + apply (reg_ok_same d); try done. intros x Hx. left. unfold mentioned in *. rewrite E7, E8 in Hx.
      specialize (E11 x). specialize (E12 x). specialize (E13 x). destruct (decide (x = id)) as [->|Hne].
      * destruct Hx as [?|[?|[?|[[toks Hx]|[?|?]]]]]; eauto 10. destruct (E10 _ Hx) as (t' & Hx' & _). eauto 10.
      * rewrite E9 in Hx by done. naive_solver.
    + by apply exit_chan.
    + intros x. by rewrite E1.
    + intros x. rewrite E6. by left.
    + intros x toks t Hx Hin. destruct (decide (x = id)) as [->|Hne].
      * destruct (E10 _ Hx) as (t' & Hx' & ->). apply elem_of_difference in Hin as [Hin Hnt].
        pose proof (Ht _ _ _ Hx' Hin) as H. rewrite elem_of_app, elem_of_cons in *. destruct H as [?|[[= ->]|?]]; [by left|set_solver|by right].
      * rewrite E9 in Hx by done. pose proof (Ht _ _ _ Hx Hin) as H. rewrite elem_of_app, elem_of_cons in *.
        destruct H as [?|[[= -> ->]|?]]; [by left|done|by right].
Qed.

(** A step of the dispatcher's bookkeeping alone. *)
Inductive plain_step (d : Dispatcher) : Dispatcher -> Prop :=
| pl_claim id : plain_step d (fst (claimLaunched d id))
| pl_clear id : plain_step d (clearLaunched d id)
| pl_wait id : plain_step d (fst (waitLive d id))
| pl_except id tok : plain_step d (fst (waitLiveExcept d id tok))
| pl_written p : plain_step d (markWritten d p)
| pl_header d' : header_step d d' -> plain_step d d'
| pl_reserve id name d' : ReserveName d id name = Ok d' -> plain_step d d'
| pl_release id name : plain_step d (release_name d id name)
| pl_resident id : plain_step d (markResident d id)
| pl_notResident id : plain_step d (markNotResident d id).

Lemma reserve_ok d id name d' : reg_ok d -> ReserveName d id name = Ok d' ->
  reg_ok d' /\ exists r, d' = set_reservedNames d r.
Proof.
  intros [R1 R2 R3 R4 R5 R6]. unfold ReserveName. destruct (admitNameLocked d id name) eqn:En; [done|].
  apply admitName_spec in En as (Hc & Hn & _). case_bool_decide; [done|]. intros [= <-]. split; [|by eexists].
  split; cbn; try done. intros nm holder x e [[<- <-]|[Hne Hr]]%lookup_insert_Some He Hnm; [by eapply Hn|by eapply R5].
Qed.

Lemma release_ok d id name : reg_ok d -> reg_ok (release_name d id name) /\ exists r, release_name d id name = set_reservedNames d r.
Proof.
  intros R. unfold release_name. case_bool_decide; [|split; [done|exists (reservedNames d); by destruct d]].
  split; [|by eexists]. destruct R as [R1 R2 R3 R4 R5 R6]. split; cbn; try done.
  intros nm holder x e [_ Hr]%lookup_delete_Some. by eapply R5.
Qed.

Lemma plain_step_ok d d' rms occs un store sv gone :
  sys_ok (mkSys d rms occs un store sv gone) -> plain_step d d' -> sys_ok (mkSys d' rms occs un store sv gone).
Proof.
  intros S Hs. pose proof S as [R C _ _ Ht _ _]; cbn in R, C, Ht.
  destruct Hs as [id|id|id|id tok|p|d' H|id name d' H|id name|id|id].
  - unfold claimLaunched. destruct (admitsLocked d id) eqn:Ea; cbn [negb fst]; [|done]. apply admits_spec in Ea as [Ha _].
    case_bool_decide; cbn [fst]; [done|]. apply (sys_ok_frame d _ rms occs); try done; [by apply (reg_ok_same d); try done; auto|by apply (chan_ok_same d)|].
    intros x. cbn. rewrite elem_of_union, elem_of_singleton. intros [->|?]; [by right|by left].
  - apply (sys_ok_frame d _ rms occs); try done; [apply (reg_ok_same d); try done; auto|by apply (chan_ok_same d)|]. intros x. cbn. set_solver.
  - destruct (waitLive_fields d id) as (E1 & E2 & E3 & E4 & E5 & E6 & E7 & E8 & E9 & E10 & E11 & E12).
    apply (sys_ok_frame d _ rms occs); try done; [|by apply waitLive_chan|intros x; by rewrite E1|intros x; rewrite E6; auto|by rewrite E9].
    apply (reg_ok_same d); try done. intros x. unfold mentioned. rewrite E7, E8, E9, E10, E11. specialize (E12 x). naive_solver.
  - destruct (waitExcept_fields d id tok) as (E1 & E2 & E3 & E4 & E5 & E6 & E7 & E8 & E9 & E10 & E11 & E12).
    apply (sys_ok_frame d _ rms occs); try done; [|by apply waitExcept_chan|intros x; by rewrite E1|intros x; rewrite E6; auto|by rewrite E9].
    apply (reg_ok_same d); try done. intros x. unfold mentioned. rewrite E7, E8, E9, E10, E11. specialize (E12 x). naive_solver.
  - destruct (markWritten_fields d p) as (E1 & E2 & E3 & E4 & E5 & E6 & E7 & E8 & E9 & E10 & E11 & E12 & E13 & E14).
    apply (sys_ok_frame d _ rms occs); try done; [|apply (chan_ok_same d); try done; lia|intros x; by rewrite E1|intros x; rewrite E6; auto|by rewrite E8].
    apply (reg_ok_same d); try done. intros x. unfold mentioned. rewrite E7, E8, E9, E10, E11. specialize (E14 x). naive_solver.
  - destruct (header_step_ok d d' R H) as (H1 & H2 & H3 & H4 & H5 & H6 & H7 & H8 & H9).
    apply (sys_ok_frame d _ rms occs); try done; [apply (chan_ok_same d); try done; lia|intros x; rewrite H4; auto|by rewrite H5].
  - destruct (reserve_ok d id name d' R H) as (H1 & r & ->). apply (sys_ok_frame d _ rms occs); try done; [by apply (chan_ok_same d)|auto].
  - destruct (release_ok d id name R) as (H1 & r & Hr). apply (sys_ok_frame d _ rms occs); try done; rewrite Hr; try done; [by apply (chan_ok_same d)|auto].
  - unfold markResident. case_bool_decide as Hb; [|done]. apply (sys_ok_frame d _ rms occs); try done; [|by apply (chan_ok_same d)|auto].
    apply (reg_ok_same d); try done. intros x. unfold mentioned. cbn. destruct (decide (x = id)) as [->|]; [by right|]. set_solver.
  - apply (sys_ok_frame d _ rms occs); try done; [|by apply (chan_ok_same d)|auto].
    apply (reg_ok_same d); try done. intros x. unfold mentioned. cbn. set_solver.
Qed.

(** Marking a removal. *)
Lemma begin_ok d rms occs un store sv gone id :
  sys_ok (mkSys d rms occs un store sv gone) ->
  sys_ok (mkSys (beginRemovalLocked d id) (rms ++ [(id, false)]) occs un store sv gone).
Proof.
  intros [S1 S2 S3 S4 S5 S6 S7]; cbn in *. split; cbn; try done.
  - by apply (reg_ok_same d); try done; auto.
  - by apply (chan_ok_same d).
  - intros x. rewrite marks_app, marks_cons. cbn [fst]. change (marks [] x) with 0. destruct (decide (id = x)) as [->|Hne].
    + rewrite lookup_insert_eq. cbn. rewrite S3. lia.
    + rewrite lookup_insert_ne by done. rewrite S3. lia.
  - intros x. rewrite elem_of_app, list_elem_of_singleton. intros [H|[=]]. by apply S6.
Qed.

Lemma split_mark {A} (l1 l2 : list A) b x : x ∈ l1 ++ b :: l2 <-> x = b \/ x ∈ l1 ++ l2.
Proof. rewrite !elem_of_app, elem_of_cons. tauto. Qed.

Lemma marks_split l1 l2 id b x : marks (l1 ++ (id, b) :: l2) x = (if decide (id = x) then 1 else 0) + marks (l1 ++ l2) x.
Proof. rewrite !marks_app, marks_cons. cbn [fst]. lia. Qed.

Lemma unmark_marks d l1 l2 id b x : (forall y, default 0 (removing d !! y) = marks (l1 ++ (id, b) :: l2) y) ->
  default 0 (removing (unmark d id) !! x) = marks (l1 ++ l2) x.
Proof.
  intros H. rewrite (unmark_count d id _ x H); [|apply (marks_pos _ id b); apply split_mark; by left|intros; apply marks_nonneg].
  rewrite marks_split. case_decide as Hx; [subst; rewrite decide_True by done|rewrite decide_False by congruence]; lia.
Qed.

Lemma abort_ok d l1 l2 occs un store sv gone id :
  sys_ok (mkSys d (l1 ++ (id, false) :: l2) occs un store sv gone) ->
  sys_ok (mkSys (removal_abort d id) (l1 ++ l2) occs un store sv gone).
Proof.
  intros [S1 S2 S3 S4 S5 S6 S7]; cbn in *. split; cbn; try done.
  - by apply (reg_ok_same d); try done; auto.
  - by apply (chan_ok_same d).
  - intros x. by apply (unmark_marks d l1 l2 id false).
  - intros x Hx. apply S6. apply split_mark; by right.
Qed.

Lemma end_ok d l1 l2 occs un store sv gone id (b : bool) :
  sys_ok (mkSys d (l1 ++ (id, b) :: l2) occs un store sv gone) ->
  sys_ok (mkSys (deregister d id) (l1 ++ l2) occs (un ++ [id]) store sv (if b then {[id]} ∪ gone else gone)).
Proof.
  intros [S1 S2 S3 S4 S5 S6 S7]; cbn in *.
  destruct (deregister_fields d id S1) as (E1 & E2 & E3 & _ & _ & _ & E7 & E8 & E9 & _ & _ & E12 & E13 & _).
  split; cbn.
  - by apply deregister_ok.
  - by apply (chan_ok_drop d _ id).
  - intros x. rewrite E2. by apply (unmark_marks d l1 l2 id b).
  - intros x Hx. rewrite E3 in Hx. rewrite E1, elem_of_app, list_elem_of_singleton. destruct (decide (x = id)) as [->|Hne]; [by right; right|].
    rewrite lookup_delete_ne by done. destruct (S4 x Hx); [by left|by right; left].
  - intros x toks t. rewrite E7. intros [_ H]%lookup_delete_Some. by apply S5.
  - intros x Hx. apply S6. apply split_mark; by right.
  - intros x Hx. rewrite E1. destruct (decide (x = id)) as [->|Hne].
    + rewrite lookup_delete_eq. split; [done|]. destruct b; [apply S6; apply split_mark; by left|].
      by destruct (S7 id Hx).
    + rewrite lookup_delete_ne by done. apply S7. destruct b; set_solver.
Qed.

Lemma register_sys_ok d rms occs un store sv gone id inst name h seq d' k :
  sys_ok (mkSys d rms occs un store sv gone) -> register d id inst name h seq = Ok (d', k) ->
  sys_ok (mkSys d' rms occs un store sv (gone ∖ {[id]})).
Proof.
  intros [S1 S2 S3 S4 S5 S6 S7] E; cbn in *. destruct (register_ok _ _ _ _ _ _ _ _ S1 E) as (R & Hnew & Hrm & Eb & Er & El & _).
  assert (occupyStep d' = occupyStep d /\ occupyDrained d' = occupyDrained d /\ d_closed d' = d_closed d /\ d_next d' = d_next d /\
    occupancyTokens d' = occupancyTokens d) as (F1 & F2 & F3 & F4 & F5).
  { unfold register in E. repeat case_match; simplify_eq; by cbn. }
  split; cbn; try done.
  - apply (chan_ok_same d); try done. lia.
  - intros x. by rewrite Er.
  - intros x. rewrite El, Eb. intros Hx. destruct (decide (x = id)) as [->|Hne]; [rewrite lookup_insert_eq; left; by eexists|].
    rewrite lookup_insert_ne by done. by apply S4.
  - intros x. rewrite F5. apply S5.
  - intros x [Hx Hne]%elem_of_difference. rewrite Eb, lookup_insert_ne by set_solver. by apply S7.
Qed.

Lemma delete_ok d l1 l2 occs un store gone id :
  sys_ok (mkSys d (l1 ++ (id, false) :: l2) occs un store None gone) ->
  sys_ok (mkSys d (l1 ++ (id, true) :: l2) occs un (base.delete id store) None gone).
Proof.
  intros [S1 S2 S3 S4 S5 S6 S7]; cbn in *. split; cbn; try done.
  - intros x. rewrite S3, !marks_split. done.
  - intros x [[= ->]|Hx]%split_mark; [by rewrite lookup_delete_eq|]. destruct (decide (x = id)) as [->|Hne]; [by rewrite lookup_delete_eq|].
    rewrite lookup_delete_ne by done. apply S6. apply split_mark. by right.
  - intros x Hx. destruct (S7 x Hx) as (? & Hn & ?). split; [done|]. split; [|done]. by rewrite lookup_delete_None; right.
Qed.

(** A save holds [storeMu] only for a job no removal has marked. *)
Lemma check_ok d rms occs un store gone p :
  sys_ok (mkSys d rms occs un store None gone) -> admitsLocked d (p_ID p) = true ->
  sys_ok (mkSys d rms occs un store (Some p) gone).
Proof.
  intros [S1 S2 S3 S4 S5 S6 S7] [Hb Hr]%admits_spec; cbn in *. split; cbn; try done.
  - intros x Hx. destruct (S6 x Hx) as [Hn _]. split; [done|]. intros p' [= <-] Heq. rewrite <- Heq in Hx.
    pose proof (marks_pos _ _ _ Hx) as Hm. rewrite <- S3 in Hm. lia.
  - intros x Hx. destruct (S7 x Hx) as (Hn & Hst & _). split; [done|]. split; [done|]. intros p' [= <-] Heq. rewrite Heq, Hn in Hb. by destruct Hb.
Qed.

Lemma save_end_ok d rms occs un store gone p :
  sys_ok (mkSys d rms occs un store (Some p) gone) ->
  sys_ok (mkSys d rms occs un (<[p_ID p := p]> store) None gone) /\ sys_ok (mkSys d rms occs un store None gone).
Proof.
  intros [S1 S2 S3 S4 S5 S6 S7]; cbn in *. split; (split; cbn; try done).
  - intros x Hx. destruct (S6 x Hx) as [Hn Hp]. split; [|done]. rewrite lookup_insert_ne; [done|]. by apply Hp.
  - intros x Hx. destruct (S7 x Hx) as (Hb & Hn & Hp). split; [done|]. split; [|done]. rewrite lookup_insert_ne; [done|]. by apply Hp.
  - intros x Hx. by destruct (S6 x Hx).
  - intros x Hx. by destruct (S7 x Hx) as (? & ? & _).
Qed.

Lemma unlatch_ok d rms occs l1 l2 store sv gone id :
  sys_ok (mkSys d rms occs (l1 ++ id :: l2) store sv gone) -> sys_ok (mkSys (clearLaunched d id) rms occs (l1 ++ l2) store sv gone).
Proof.
  intros S. pose proof (plain_step_ok _ _ _ _ _ _ _ _ S (pl_clear d id)) as [T1 T2 T3 T4 T5 T6 T7]. cbn in *.
  split; cbn; try done. intros x Hx. destruct (T4 x Hx) as [|Hu]; [by left|]. apply split_mark in Hu as [->|]; [set_solver|by right].
Qed.

Lemma sys_step_ok s s' : sys_ok s -> sys_step s s' -> sys_ok s'.
Proof.
  intros S Hs. destruct Hs.
  - by eapply register_sys_ok.
  - eapply plain_step_ok; [exact S|apply pl_written].
  - unfold beginRemovalFor in H. destruct (lookupFor d id expected); [|done]. injection H as <-. by apply begin_ok.
  - unfold beginRemovalIfIdle in H. destruct (byID d !! id); [|done]. destruct (_ || _); [done|]. injection H as <- _. by apply begin_ok.
  - by apply abort_ok.
  - by apply delete_ok.
  - by apply end_ok.
  - by apply unlatch_ok.
  - eapply plain_step_ok; [exact S|apply pl_claim].
  - eapply plain_step_ok; [exact S|apply pl_clear].
  - apply (step_occupancy _ _ S). left. by exists id, expected, d', tok.
  - apply (step_occupancy _ _ S). right. by exists l1, l2, id, tok.
  - eapply plain_step_ok; [exact S|apply pl_wait].
  - eapply plain_step_ok; [exact S|apply pl_except].
  - by apply check_ok.
  - apply save_end_ok in S as [S _]. eapply plain_step_ok; [exact S|apply pl_written].
  - by apply save_end_ok in S as [_ S].
  - eapply plain_step_ok; [exact S|by apply pl_header].
  - eapply plain_step_ok; [exact S|by eapply pl_reserve].
  - eapply plain_step_ok; [exact S|apply pl_release].
  - eapply plain_step_ok; [exact S|apply pl_resident].
  - eapply plain_step_ok; [exact S|apply pl_notResident].
Qed.

Lemma sys_reachable_ok s : sys_reachable s -> sys_ok s.
Proof.
  induction 1 as [store|]; [|by eapply sys_step_ok]. split; cbn; try done; try set_solver.
  - apply New_ok.
  - split; [intros [] id ch H|intros [] id b' id' ch H|intros ch H]; unfold holds_chan in *; cbn in *; set_solver.
Qed.

(** ** The properties *)

(** the registry is consistent under every interleaving of its doors.
    The order lists each registered job once; no two jobs share a name, and a
    reserved name is no other job's; every job has a concrete priority, a name
    that is one path component and a queue position already given out.  No map
    remembers a job that is not registered, so a later job of the same ID
    starts from nothing, except for a launch claim its removal is about to
    clear.  A wait channel is one job's and is closed at most once. *)
Theorem registry_wf s :
  sys_reachable s ->
  let d := s_d s in
  NoDup (order d) /\ (forall id, id ∈ order d <-> is_Some (byID d !! id)) /\
  (forall id1 id2 e1 e2, byID d !! id1 = Some e1 -> byID d !! id2 = Some e2 ->
     h_Name (e_h e1) = h_Name (e_h e2) -> id1 = id2) /\
  (forall name holder id e, reservedNames d !! name = Some holder -> byID d !! id = Some e ->
     h_Name (e_h e) = name -> id = holder) /\
  (forall id e, byID d !! id = Some e ->
     e_seq e < nextSeq d /\ IsConcrete (h_Priority (e_h e)) = true /\ is_component (h_Name (e_h e)) = true) /\
  (forall id, mentioned d id -> is_Some (byID d !! id)) /\
  (forall id, id ∈ launched d -> is_Some (byID d !! id) \/ id ∈ s_unlatch s) /\
  (forall b id ch, holds_chan d b id ch -> ch ∉ d_closed d) /\
  (forall b id b' id' ch, holds_chan d b id ch -> holds_chan d b' id' ch -> b = b' /\ id = id').
Proof.
  intros [[R1 R2 R3 R4 R5 R6] [C1 C2 C3] _ S4 _ _ _]%sys_reachable_ok. cbv zeta. split_and!; try done.
  intros b id ch H. by apply (C1 b id ch).
Qed.

(** C6: a removal excludes new work, and its row stays deleted.  While a
    removal of a job is under way, no worker can claim it, no occupier can
    enter it, no job can be registered under its ID and no save of it can
    begin; from the deletion of its row on, there is no row and none is being
    written, up to and after the removal's end, until the ID is registered
    again.  The mark counts the removals under way exactly. *)
Theorem removal_excludes s :
  sys_reachable s ->
  (forall id, default 0 (removing (s_d s) !! id) = marks (s_rms s) id) /\
  (forall id b, (id, b) ∈ s_rms s ->
     claimLaunched (s_d s) id = (s_d s, false) /\
     (forall expected, occupy_enter (s_d s) id expected = Err ErrNotFound) /\
     (forall inst name h seq, is_ok (register (s_d s) id inst name h seq) = false) /\
     admitsLocked (s_d s) id = false) /\
  (forall id, (id, true) ∈ s_rms s \/ id ∈ s_gone s ->
     s_store s !! id = None /\ forall p, s_saving s = Some p -> p_ID p <> id).
Proof.
  intros [_ _ S3 _ _ S6 S7]%sys_reachable_ok. split; [done|]. split.
  - intros id b Hin. pose proof (marks_pos _ _ _ Hin) as Hm. rewrite <- S3 in Hm.
    assert (admitsLocked (s_d s) id = false) as Ha by (apply not_true_is_false; intros [_ H]%admits_spec; lia).
    split; [by unfold claimLaunched; rewrite Ha|]. split; [intros ex; by unfold occupy_enter; rewrite Ha|]. split; [|done].
    intros inst name h seq. unfold register. destruct (checkPriority _); [done|]. case_bool_decide; [done|].
    rewrite bool_decide_eq_true_2 by lia. done.
  - intros id [H|H]; [by apply S6|]. by destruct (S7 id H) as [_ H'].
Qed.

(** the dispatch order.  [dispatchOrderLocked] lists every registered job
    exactly once; of two jobs, the earlier one has the higher priority, or
    the same priority and the earlier queue position; and the tick offers
    exactly those of them with a stored row, in that order. *)
Theorem dispatch_order s :
  sys_reachable s ->
  let d := s_d s in
  NoDup (dispatchOrderLocked d) /\ (forall id, id ∈ dispatchOrderLocked d <-> is_Some (byID d !! id)) /\
  (forall i j a b, (i < j)%nat -> dispatchOrderLocked d !! i = Some a -> dispatchOrderLocked d !! j = Some b ->
     prio_of d b < prio_of d a \/
     (prio_of d a = prio_of d b /\ exists pa pb, (pa < pb)%nat /\ order d !! pa = Some a /\ order d !! pb = Some b)) /\
  sublist (snapshotOrder d) (dispatchOrderLocked d) /\
  forall id, id ∈ snapshotOrder d <-> is_Some (byID d !! id) /\ is_Some (written d !! id).
Proof.
  intros [[R1 R2 _ _ _ R6] _ _ _ _ _ _]%sys_reachable_ok. cbv zeta. pose proof (dispatchOrder_perm (s_d s)) as Hp.
  assert (NoDup (dispatchOrderLocked (s_d s))) as Hnd by (by rewrite Hp).
  assert (forall id, id ∈ dispatchOrderLocked (s_d s) <-> is_Some (byID (s_d s) !! id)) as Hin by (intros id; by rewrite Hp, R2).
  split_and!; try done.
  - intros i j a b Hij Ha Hb. destruct (dispatchOrder_sorted _ _ _ _ _ Hij Ha Hb) as [|(He & pa & pb & Hle & Hpa & Hpb)]; [by left|].
    right. split; [done|]. exists pa, pb. split_and!; try done. destruct (decide (pa = pb)) as [->|]; [|lia].
    assert (a = b) as -> by congruence. pose proof (NoDup_lookup _ _ _ _ Hnd Ha Hb). lia.
  - apply sublist_filter.
  - intros id. unfold snapshotOrder. rewrite list_elem_of_filter, Hin. tauto.
Qed.

(** ** Witnesses: two jobs, the second more urgent and stored, then removed *)
Definition ex_header (p : Z) : Header :=
  mkHeader "" "f.nzb" "" p 100 "" "" "" "" StateNone "" "" 3 "" "" "" 1.
Definition ex_disp : Dispatcher :=
  match register New "a" 0 "first" (ex_header NormalPriority) seqNext with
  | Ok (d, _) => match register d "b" 1 "second" (ex_header HighPriority) seqNext with Ok (d, _) => d | Err _ => New end
  | Err _ => New
  end.
Definition ex_row : Persisted := mkPersisted "b" 1 (ex_header HighPriority) (mkPolicy true true true true) zeroView IntentRun 0 0 "".
Definition ex_two : sys := mkSys ex_disp [] [] [] ∅ None (∅ ∖ {["a"%string]} ∖ {["b"%string]}).
Definition ex_stored : sys := mkSys (markWritten ex_disp ex_row) [] [] [] (<["b"%string := ex_row]> ∅) None (s_gone ex_two).
Definition ex_removing : sys :=
  mkSys (beginRemovalLocked (s_d ex_stored) "b") [("b"%string, false)] [] [] (s_store ex_stored) None (s_gone ex_two).
Definition ex_deleted : sys :=
  mkSys (s_d ex_removing) [("b"%string, true)] [] [] (base.delete "b"%string (s_store ex_stored)) None (s_gone ex_two).

Lemma ex_two_reach : sys_reachable ex_two.
Proof.
  destruct (register New "a" 0 "first" (ex_header NormalPriority) seqNext) as [[d1 k1]|e] eqn:E1; [|vm_compute in E1; discriminate E1].
  destruct (register d1 "b" 1 "second" (ex_header HighPriority) seqNext) as [[d2 k2]|e] eqn:E2;
    [|vm_compute in E1; injection E1 as <- <-; vm_compute in E2; discriminate E2].
  assert (ex_disp = d2) as Hd by (unfold ex_disp; rewrite E1, E2; reflexivity).
  unfold ex_two. rewrite Hd. eapply sys_next; [eapply sys_next; [apply sys_start|]|].
  - eapply st_register. exact E1.
  - eapply st_register. exact E2.
Qed.

Lemma ex_stored_reach : sys_reachable ex_stored.
Proof.
  eapply sys_next; [eapply sys_next; [apply ex_two_reach|apply (st_check ex_disp [] [] [] ∅ _ ex_row)]|apply st_saved].
  vm_compute. reflexivity.
Qed.

Lemma ex_deleted_reach : sys_reachable ex_deleted.
Proof.
  eapply sys_next; [eapply sys_next; [apply ex_stored_reach|apply (st_begin (s_d ex_stored) [] [] [] _ _ _ "b" None)]|].
  - vm_compute. reflexivity.
  - apply (st_delete _ [] [] [] [] _ _ "b").
Qed.

Lemma registry_wf_witness :
  order (s_d ex_stored) = ["a"; "b"]%string /\ written (s_d ex_stored) !! "b"%string = Some ex_row /\
  forall id, mentioned (s_d ex_stored) id -> is_Some (byID (s_d ex_stored) !! id).
Proof.
  split; [vm_compute; reflexivity|]. split; [vm_compute; reflexivity|].
  destruct (registry_wf ex_stored ex_stored_reach) as (_ & _ & _ & _ & _ & H & _). exact H.
Defined.

Lemma removal_excludes_witness :
  s_store ex_stored !! "b"%string = Some ex_row /\ s_store ex_deleted !! "b"%string = None /\
  claimLaunched (s_d ex_deleted) "b" = (s_d ex_deleted, false).
Proof.
  split; [vm_compute; reflexivity|]. destruct (removal_excludes ex_deleted ex_deleted_reach) as (_ & H1 & H2). split.
  - apply H2. left. left.
  - apply (H1 "b"%string true). left.
Defined.

Lemma dispatch_order_witness :
  dispatchOrderLocked (s_d ex_stored) = ["b"; "a"]%string /\ snapshotOrder (s_d ex_stored) = ["b"%string] /\
  NoDup (dispatchOrderLocked (s_d ex_stored)).
Proof.
  split; [vm_compute; reflexivity|]. split; [vm_compute; reflexivity|].
  destruct (dispatch_order ex_stored ex_stored_reach) as [H _]. exact H.
Defined.
