(* ===== verification/RegistryWorld.v ===== *)
(** * The registry over the scheduler

    The dispatcher's registry and the scheduler's world step together: every
    removal goes through its phases, the tick advances stored jobs, workers
    and users use the other doors, in any interleaving.  The jobs of the
    scheduler's world are the registered ones, and each of its steps is one
    the scheduler allows; in particular a job is deregistered only when it
    holds neither lease nor slot. *)
From stdpp Require Import base numbers gmap sorting list strings.
From Stdlib Require Import ZArith Lia.
From S2P Require Import Prelude Lifecycle Sched Registry RegistryProps.
Local Open Scope Z_scope.

(** Where a removal is: [removeFor]'s steps in order, or the tick's eviction
    of a job cancelled before it ran. *)
Inductive phase : Type := RBegun | RCancelled | RWaited | RDrained | RParked | REvict | RDeleted.
#[export] Instance phase_eq_dec : EqDecision phase.
Proof. solve_decision. Defined.

Record wsys : Type := mkWsys { x_sys : sys; x_rms : list (string * phase); x_w : World }.

Definition deleted_of (r : string * phase) : string * bool := (fst r, bool_decide (snd r = RDeleted)).

Definition with_world (x : wsys) (w : World) : wsys := mkWsys (x_sys x) (x_rms x) w.

(** [d.q]'s door on the job registered under [id], if there is one. *)
Definition try_door (w : World) (id : string) (dr : qdoor) : World :=
  match w_jobs w !! id with
  | Some j => snd (wdoor w id j dr)
  | None => w
  end.

Inductive xstep : wsys -> wsys -> Prop :=
| xs_quiet x s' : sys_step (x_sys x) s' -> s_rms s' = s_rms (x_sys x) ->
    (forall id, is_Some (byID (s_d s') !! id) <-> is_Some (byID (s_d (x_sys x)) !! id)) ->
    xstep x (mkWsys s' (x_rms x) (x_w x))
| xs_register x j inst h seq d' k : Lifecycle.reachable j -> j_lease j = None ->
    register (s_d (x_sys x)) (j_id j) inst (j_name j) h seq = Ok (d', k) ->
    xstep x (mkWsys (mkSys d' (s_rms (x_sys x)) (s_occs (x_sys x)) (s_unlatch (x_sys x)) (s_store (x_sys x)) (s_saving (x_sys x))
                       (s_gone (x_sys x) ∖ {[j_id j]})) (x_rms x) (mkWorld (w_q (x_w x)) (<[j_id j := j]> (w_jobs (x_w x)))))
| xs_advance x id now : id ∈ snapshotOrder (s_d (x_sys x)) -> xstep x (with_world x (try_door (x_w x) id (DAdvance now)))
| xs_door x id dr : (forall now, dr <> DAdvance now) -> xstep x (with_world x (try_door (x_w x) id dr))
| xs_job x id j j' : w_jobs (x_w x) !! id = Some j -> job_call j j' ->
    xstep x (with_world x (mkWorld (w_q (x_w x)) (<[id := j']> (w_jobs (x_w x)))))
| xs_pause x : xstep x (with_world x (mkWorld (Sched.Pause (w_q (x_w x))) (w_jobs (x_w x))))
| xs_resume x : xstep x (with_world x (mkWorld (Sched.Resume (w_q (x_w x))) (w_jobs (x_w x))))
| xs_setCaps x a b : xstep x (with_world x (mkWorld (SetCaps (w_q (x_w x)) a b) (w_jobs (x_w x))))
| xs_begin x s' id expected d' : beginRemovalFor (s_d (x_sys x)) id expected = Some d' ->
    s' = mkSys d' (s_rms (x_sys x) ++ [(id, false)]) (s_occs (x_sys x)) (s_unlatch (x_sys x)) (s_store (x_sys x)) (s_saving (x_sys x)) (s_gone (x_sys x)) ->
    xstep x (mkWsys s' (x_rms x ++ [(id, RBegun)]) (x_w x))
| xs_evict x s' id j d' live : w_jobs (x_w x) !! id = Some j -> v_state (Job_State j) = StateUnset -> j_intent j = IntentCancel ->
    beginRemovalIfIdle (s_d (x_sys x)) id = (Some d', live) ->
    s' = mkSys d' (s_rms (x_sys x) ++ [(id, false)]) (s_occs (x_sys x)) (s_unlatch (x_sys x)) (s_store (x_sys x)) (s_saving (x_sys x)) (s_gone (x_sys x)) ->
    xstep x (mkWsys s' (x_rms x ++ [(id, REvict)]) (x_w x))
| xs_cancel x l1 l2 id now : x_rms x = l1 ++ (id, RBegun) :: l2 ->
    xstep x (mkWsys (x_sys x) (l1 ++ (id, RCancelled) :: l2) (try_door (x_w x) id (DCancel now)))
| xs_waited x l1 l2 id : x_rms x = l1 ++ (id, RCancelled) :: l2 -> id ∉ launched (s_d (x_sys x)) ->
    xstep x (mkWsys (x_sys x) (l1 ++ (id, RWaited) :: l2) (x_w x))
| xs_drained x l1 l2 id : x_rms x = l1 ++ (id, RWaited) :: l2 ->
    (snd (waitLive (s_d (x_sys x)) id) = None \/ exists tok, snd (waitLiveExcept (s_d (x_sys x)) id tok) = ExceptDone) ->
    xstep x (mkWsys (x_sys x) (l1 ++ (id, RDrained) :: l2) (x_w x))
| xs_park x l1 l2 id : x_rms x = l1 ++ (id, RDrained) :: l2 ->
    xstep x (mkWsys (x_sys x) (l1 ++ (id, RParked) :: l2) (try_door (x_w x) id DPark))
| xs_abort x d l1 l2 occs un store sv gone id ph : ph <> RDeleted ->
    x_sys x = mkSys d (map deleted_of (l1 ++ (id, ph) :: l2)) occs un store sv gone -> x_rms x = l1 ++ (id, ph) :: l2 ->
    xstep x (mkWsys (mkSys (removal_abort d id) (map deleted_of (l1 ++ l2)) occs un store sv gone) (l1 ++ l2) (x_w x))
| xs_delete x d l1 l2 occs un store gone id ph : ph = RParked \/ ph = REvict ->
    x_sys x = mkSys d (map deleted_of (l1 ++ (id, ph) :: l2)) occs un store None gone -> x_rms x = l1 ++ (id, ph) :: l2 ->
    xstep x (mkWsys (mkSys d (map deleted_of (l1 ++ (id, RDeleted) :: l2)) occs un (base.delete id store) None gone)
               (l1 ++ (id, RDeleted) :: l2) (x_w x))
| xs_end x d l1 l2 occs un store sv gone id :
    x_sys x = mkSys d (map deleted_of (l1 ++ (id, RDeleted) :: l2)) occs un store sv gone -> x_rms x = l1 ++ (id, RDeleted) :: l2 ->
    xstep x (mkWsys (mkSys (deregister d id) (map deleted_of (l1 ++ l2)) occs (un ++ [id]) store sv ({[id]} ∪ gone))
               (l1 ++ l2) (mkWorld (w_q (x_w x)) (base.delete id (w_jobs (x_w x)))))
| xs_unwind x d occs un store sv gone id :   (* [Add], whose own save failed *)
    x_sys x = mkSys d (map deleted_of (x_rms x)) occs un store sv gone ->
    is_Some (byID d !! id) -> written d !! id = None ->
    xstep x (mkWsys (mkSys (deregister (beginRemovalLocked d id) id) (map deleted_of (x_rms x)) occs (un ++ [id]) store sv gone)
               (x_rms x) (mkWorld (w_q (x_w x)) (base.delete id (w_jobs (x_w x))))).

Inductive xreach (a b : Z) : nat -> wsys -> Prop :=
| xr_init store : xreach a b 0 (mkWsys (mkSys Registry.New [] [] [] store None ∅) [] (mkWorld (Sched.New a b) ∅))
| xr_step n x x' : xreach a b n x -> xstep x x' -> xreach a b (S n) x'.

(** ** Doors that grant nothing *)
Lemma door_intent dr st : pre st -> j_intent (st_j st) = IntentCancel -> j_intent (st_j (snd (run_door dr st))) = IntentCancel.
Proof. intros P Hi. eapply cancel_is_latched; [|exact Hi]. apply (fr_steps _ _ _ (so_frame _ _ (door_ok dr st P))). Qed.

Lemma cancel_idle st st' now : idle st -> cancel_result st st' now -> idle st'.
Proof.
  intros Hi. unfold cancel_result. destruct (currentLocked (st_j st)) as [a|]; [|by intros ->].
  destruct (isOpen a); [|by intros (_ & _ & ?)]. destruct (running _ _ _); [|by intros (? & _)].
  intros ->. by destruct (IsProduction (a_state a)).
Qed.

Lemma door_idle dr st : pre st -> idle st -> (forall now, dr = DAdvance now -> j_intent (st_j st) = IntentCancel) ->
  idle (snd (run_door dr st)).
Proof.
  intros P Hi Ha. destruct dr as [now|now|o now| |from next now|now]; cbn [run_door].
  - destruct (Advance_spec now st P) as (st' & -> & _ & Hr). cbn. unfold advance_result in Hr.
    rewrite bool_decide_eq_true_2 in Hr by (by eapply Ha). by eapply cancel_idle.
  - destruct (Cancel_spec now st P) as (st1 & st' & Hs & Hq & _ & -> & _ & Hr). cbn. eapply cancel_idle; [|exact Hr].
    destruct Hi as [Hl Hsl]. pose proof (SetIntent_lease _ _ _ Hs) as Hl'. assert (j_id (st_j st1) = j_id (st_j st)) as Hid
      by (apply jstep_id; by eapply js_setIntent). split; [by rewrite Hl'|]. by rewrite Hid, Hq.
  - destruct (decide (o = OutcomeCancelled)) as [->|Ho]; [done|]. pose proof (Settle_spec o now st P Ho) as H.
    destruct (Finish _ _ _) as [[j' l]|e]; [by destruct H as (st' & -> & _ & ? & _)|by rewrite H].
  - unfold Park. destruct (parkLocked_spec st (pre_good _ P)) as (st' & -> & F & _ & Hj & _ & Hs). cbn.
    split; [by rewrite Hj|]. rewrite Hs, (fr_id _ _ _ F). set_solver.
  - destruct (Handoff_spec from next now st P) as [_ H]. unfold qbind. unfold handoff_result in H.
    destruct (Handoff from next now st) as [r st'] eqn:E. cbn. destruct (currentLocked (st_j st)) as [a|]; [|by simplify_eq].
    destruct (_ && _ && _); [by destruct H|by simplify_eq].
  - destruct (Retry_spec now st P) as [_ H]. destruct (currentLocked (st_j st)) as [a|] eqn:Hc.
    + destruct (isOpen a); [by rewrite H|by destruct H].
    + by rewrite H.
Qed.

(** The job registered under [id], if there is one, holds nothing. *)
Definition rests (w : World) (id : string) : Prop :=
  forall j, w_jobs w !! id = Some j -> j_lease j = None /\ id ∉ sp_held (q_slots (w_q w)).

(** The job's intent is latched to cancel. *)
Definition cancelled (w : World) (id : string) : Prop := forall j, w_jobs w !! id = Some j -> j_intent j = IntentCancel.

Definition never_ran (w : World) (id : string) : Prop := forall j, w_jobs w !! id = Some j -> currentLocked j = None.

(** ** Every step keeps it *)
Section world.
Context (a b : Z).

(** A world a few steps on. *)
Definition on_by (m : nat) (w : World) : Prop := exists m', (m' <= m)%nat /\ wreach a b m' w.

Lemma on_by_pre m w k j : on_by m w -> Z.of_nat m < 2 ^ 64 - 1 -> w_jobs w !! k = Some j -> pre (mkSt (w_q w) j false) /\ j_id j = k.
Proof.
  intros (m' & Hle & Hr) Hm Hk. split; [eapply wreach_pre; [exact Hr|lia|done]|].
  by destruct (wi_job _ _ (wreach_winv _ _ _ _ Hr ltac:(lia)) k j Hk).
Qed.

(** What a door leaves alone: the registered jobs, cancellation, and the rest
    of every job it does not advance. *)
Record keeps (w w' : World) (moved : string -> Prop) : Prop := {
  kp_dom : forall x, is_Some (w_jobs w' !! x) <-> is_Some (w_jobs w !! x);
  kp_cancelled : forall x, cancelled w x -> cancelled w' x;
  kp_rests : forall x, rests w x -> ~ moved x -> rests w' x;
}.

Lemma keeps_refl w moved : keeps w w moved.
Proof. by split. Qed.

Lemma try_door_keeps m w id dr : on_by m w -> Z.of_nat m < 2 ^ 64 - 1 ->
  on_by (S m) (try_door w id dr) /\
  keeps w (try_door w id dr) (fun x => x = id /\ ~ cancelled w id /\ exists now, dr = DAdvance now).
Proof.
  intros Hw Hm. unfold try_door. destruct (w_jobs w !! id) as [j|] eqn:Hj.
  2: { split; [destruct Hw as (m' & ? & ?); exists m'; split; [lia|done]|apply keeps_refl]. }
  destruct (on_by_pre m w id j Hw Hm Hj) as [P Hid]. split.
  { destruct Hw as (m' & Hle & Hr). exists (S m'). split; [lia|]. eapply wr_step; [exact Hr|]. by apply ws_door. }
  pose proof (so_frame _ _ (door_ok dr _ P)) as F. unfold wdoor. destruct (run_door dr (mkSt (w_q w) j false)) as [e st'] eqn:E. cbn in *.
  assert (st' = snd (run_door dr (mkSt (w_q w) j false))) as Est by (by rewrite E). split; cbn.
  - intros x. destruct (decide (x = id)) as [->|Hne]; [rewrite lookup_insert_eq, Hj; split; eauto|by rewrite lookup_insert_ne].
  - intros x Hc j'. cbn. intros [[<- <-]|[Hne H]]%lookup_insert_Some; [|by apply Hc]. rewrite Est. apply door_intent; [done|]. by apply Hc.
  - intros x Hr Hmv j'. cbn. intros [[<- <-]|[Hne H]]%lookup_insert_Some.
    + destruct (Hr j Hj) as [Hl Hs]. rewrite Est. assert (idle (mkSt (w_q w) j false)) as Hi by (split; [done|cbn; by rewrite Hid]).
      destruct (door_idle dr _ P Hi) as [Hl' Hs']; [|split; [done|]].
      * intros now ->. cbn. destruct (decide (j_intent j = IntentCancel)) as [|Hn]; [done|]. exfalso. apply Hmv.
        split; [done|]. split; [|eauto]. intros Hc. by apply Hn, Hc.
      * rewrite <- Est in *. pose proof (fr_id _ _ _ F) as Hid'. cbn in Hid'. by rewrite Hid', Hid in Hs'.
    + destruct (Hr j' H) as [Hl Hs]. split; [done|]. pose proof (fr_slots _ _ _ F) as Fs. cbn in Fs. rewrite Hid in Fs. set_solver.
Qed.

Lemma try_cancel m w id now : on_by m w -> Z.of_nat m < 2 ^ 64 - 1 -> cancelled (try_door w id (DCancel now)) id.
Proof.
  intros Hw Hm j' Hj'. unfold try_door in Hj'. destruct (w_jobs w !! id) as [j|] eqn:Hj; [|congruence].
  destruct (on_by_pre m w id j Hw Hm Hj) as [P _]. unfold wdoor in Hj'. cbn [run_door] in Hj'.
  destruct (Cancel_spec now _ P) as (st1 & st' & Hs & _ & _ & E & Hok & Hr). rewrite E in Hj'. cbn in Hj'.
  rewrite lookup_insert_eq in Hj'. injection Hj' as <-. pose proof (door_intent (DCancel now)) as _.
  assert (j_intent (st_j st1) = IntentCancel) as Hi by (unfold SetIntent in Hs; repeat case_match; try done; injection Hs as Hs; by rewrite <- Hs).
  unfold cancel_result in Hr. destruct (currentLocked (st_j st1)) as [at1|]; [|by subst].
  destruct (isOpen at1); [|destruct Hr as (-> & _); done].
  destruct (running _ _ _); [subst; by destruct (IsProduction (a_state at1))|]. destruct Hr as (_ & -> & _). done.
Qed.

Lemma try_park m w id : on_by m w -> Z.of_nat m < 2 ^ 64 - 1 -> rests (try_door w id DPark) id.
Proof.
  intros Hw Hm j' Hj'. unfold try_door in *. destruct (w_jobs w !! id) as [j|] eqn:Hj; [|congruence].
  destruct (on_by_pre m w id j Hw Hm Hj) as [P Hid]. unfold wdoor in *. cbn [run_door] in *. unfold Park in *.
  destruct (parkLocked_spec _ (pre_good _ P)) as (st' & E & F & _ & Hpj & _ & Hs). rewrite E in *. cbn in *.
  rewrite lookup_insert_eq in Hj'. injection Hj' as <-. split; [by rewrite Hpj|]. rewrite Hs. cbn. rewrite Hid. set_solver.
Qed.

(** ** The invariant *)
Definition phase_ok (w : World) (r : string * phase) : Prop :=
  match snd r with
  | RBegun => True
  | RCancelled | RWaited | RDrained => cancelled w (fst r)
  | RParked | REvict | RDeleted => cancelled w (fst r) /\ rests w (fst r)
  end.

Record xok (x : wsys) : Prop := {
  xo_sys : sys_ok (x_sys x);
  xo_rms : s_rms (x_sys x) = map deleted_of (x_rms x);
  xo_dom : forall id, is_Some (w_jobs (x_w x) !! id) <-> is_Some (byID (s_d (x_sys x)) !! id);
  xo_unwritten : forall id, written (s_d (x_sys x)) !! id = None -> rests (x_w x) id;
  xo_phase : Forall (phase_ok (x_w x)) (x_rms x);
}.

Lemma keeps_phase w w' moved r : keeps w w' moved -> (forall id, moved id -> ~ cancelled w id) -> phase_ok w r -> phase_ok w' r.
Proof.
  intros [_ Hc Hr] Hm. destruct r as [id ph]. unfold phase_ok. cbn.
  destruct ph; try done; try (by apply Hc); intros [H1 H2]; (split; [by apply Hc|]); apply Hr; try done; intros Hmv; by apply (Hm _ Hmv).
Qed.

(** A step of the world alone. *)
Lemma xok_world x w' moved : xok x -> keeps (x_w x) w' moved -> (forall id, moved id -> ~ cancelled (x_w x) id) ->
  (forall id, moved id -> is_Some (written (s_d (x_sys x)) !! id)) -> xok (with_world x w').
Proof.
  intros [X1 X2 X3 X4 X5] K Hm Hw. split; cbn; try done.
  - intros id. by rewrite (kp_dom _ _ _ K).
  - intros id Hn. apply (kp_rests _ _ _ K); [by apply X4|]. intros H. destruct (Hw _ H). congruence.
  - eapply Forall_impl; [exact X5|]. intros r. by eapply keeps_phase.
Qed.

Lemma header_written d d' : header_step d d' -> written d' = written d.
Proof.
  assert (forall id ex f d0, upd_header d id ex f = Ok d0 -> written d0 = written d) as Hu
    by (intros id ex f d0; unfold upd_header; case_match; [by intros [= <-]|done]).
  intros H. destruct H; unfold SetFailReason, SetOperationalError, SetPriority, SetCategory, SetScript, SetPP, SetName, BlockUnwanted, resume in *;
    repeat case_match; simplify_eq; try (by eapply Hu); try done.
  all: apply rbind_Ok_inv in H as (d1 & H & [= <- _]); by eapply Hu.
Qed.

(** No quiet step forgets a stored row. *)
Lemma quiet_written s s' : reg_ok (s_d s) -> sys_step s s' -> s_rms s' = s_rms s ->
  forall id, written (s_d s') !! id = None -> written (s_d s) !! id = None.
Proof.
  assert (forall d p id, written (markWritten d p) !! id = None -> written d !! id = None) as Hmw.
  { intros d p id. unfold markWritten. case_bool_decide; [|done]. cbn. by intros [? _]%lookup_insert_None. }
  intros R Hs He id. destruct Hs; cbn in *; try done; try apply Hmw.
  all: try (apply (f_equal length) in He; rewrite !length_app in He; cbn in He; lia).
  - destruct (register_ok _ _ _ _ _ _ _ _ R H) as (_ & _ & _ & _ & _ & _ & ->). done.
  - unfold claimLaunched. repeat case_match; done.
  - apply enter_fields in H as (_ & _ & _ & _ & _ & _ & _ & _ & -> & _). done.
  - destruct (exit_fields d id0 tok) as (_ & _ & _ & _ & _ & _ & -> & _). done.
  - destruct (waitLive_fields d id0) as (_ & _ & _ & _ & _ & _ & -> & _). done.
  - destruct (waitExcept_fields d id0 tok) as (_ & _ & _ & _ & _ & _ & -> & _). done.
  - by rewrite (header_written _ _ H).
  - unfold ReserveName in H. repeat case_match; simplify_eq. done.
  - unfold release_name. case_match; done.
  - unfold markResident. case_match; done.
Qed.

Lemma map_split_deleted l1 l2 id ph : map deleted_of (l1 ++ (id, ph) :: l2) =
  map deleted_of l1 ++ (id, bool_decide (ph = RDeleted)) :: map deleted_of l2.
Proof. by rewrite map_app. Qed.

Lemma phase_replace w l1 l2 r r' : Forall (phase_ok w) (l1 ++ r :: l2) -> (phase_ok w r -> phase_ok w r') ->
  Forall (phase_ok w) (l1 ++ r' :: l2).
Proof. rewrite !Forall_app, !Forall_cons. naive_solver. Qed.

Lemma phase_drop w l1 l2 r : Forall (phase_ok w) (l1 ++ r :: l2) -> Forall (phase_ok w) (l1 ++ l2) /\ phase_ok w r.
Proof. rewrite !Forall_app, !Forall_cons. naive_solver. Qed.

(** A removal that moves to another phase, neither deleted. *)
Lemma xok_phase x l1 l2 id ph ph' w' moved : xok x -> x_rms x = l1 ++ (id, ph) :: l2 -> ph <> RDeleted -> ph' <> RDeleted ->
  keeps (x_w x) w' moved -> (forall y, ~ moved y) -> (phase_ok w' (id, ph) -> phase_ok w' (id, ph')) ->
  xok (mkWsys (x_sys x) (l1 ++ (id, ph') :: l2) w').
Proof.
  intros X E Hn Hn' K Hm Hp. assert (xok (with_world x w')) as [X1 X2 X3 X4 X5]
    by (eapply xok_world; [exact X|exact K|naive_solver|naive_solver]). cbn in *. rewrite E in *.
  split; cbn; try done.
  - rewrite X2, !map_split_deleted. by rewrite !bool_decide_eq_false_2.
  - by eapply phase_replace.
Qed.

(** Registering and deregistering. *)
Lemma xok_add x d' j inst h seq k : xok x -> j_lease j = None ->
  (forall k', k' ∈ sp_held (q_slots (w_q (x_w x))) -> is_Some (w_jobs (x_w x) !! k')) ->
  register (s_d (x_sys x)) (j_id j) inst (j_name j) h seq = Ok (d', k) ->
  xok (mkWsys (mkSys d' (s_rms (x_sys x)) (s_occs (x_sys x)) (s_unlatch (x_sys x)) (s_store (x_sys x)) (s_saving (x_sys x))
                (s_gone (x_sys x) ∖ {[j_id j]})) (x_rms x) (mkWorld (w_q (x_w x)) (<[j_id j := j]> (w_jobs (x_w x))))).
Proof.
  intros [X1 X2 X3 X4 X5] Hl Hslots E. pose proof X1 as [R _ Hcount _ _ _ _].
  destruct (register_ok _ _ _ _ _ _ _ _ R E) as (_ & Hnew & Hrm & Eb & _ & _ & Ew).
  assert (w_jobs (x_w x) !! j_id j = None) as Hnone.
  { apply eq_None_not_Some. rewrite X3, Hnew. by intros [? ?]. }
  assert (forall y, rests (x_w x) y -> rests (mkWorld (w_q (x_w x)) (<[j_id j := j]> (w_jobs (x_w x)))) y) as Hrest.
  { intros y Hy j'. cbn. intros [[<- <-]|[Hne H]]%lookup_insert_Some; [|by apply Hy]. split; [done|].
    intros Hin%Hslots. rewrite Hnone in Hin. by destruct Hin. }
  split; cbn; try done.
  - destruct (x_sys x). by eapply register_sys_ok.
  - intros y. rewrite Eb. destruct (decide (y = j_id j)) as [->|Hne]; [rewrite !lookup_insert_eq; split; eauto|].
    rewrite !lookup_insert_ne by done. apply X3.
  - intros y. rewrite Ew. intros Hy. by apply Hrest, X4.
  - rewrite Forall_forall in *. intros [y ph] Hin. specialize (X5 _ Hin).
    assert (y <> j_id j) as Hne.
    { intros ->. specialize (Hcount (j_id j)). rewrite X2 in Hcount.
      assert (0 < marks (map deleted_of (x_rms x)) (j_id j)) as Hpos; [|lia].
      apply (marks_pos _ _ (bool_decide (ph = RDeleted))). apply list_elem_of_fmap. by exists (j_id j, ph). }
    assert (cancelled (x_w x) y -> cancelled (mkWorld (w_q (x_w x)) (<[j_id j := j]> (w_jobs (x_w x)))) y) as Hc.
    { intros Hc j'. cbn. rewrite lookup_insert_ne by done. apply Hc. }
    unfold phase_ok in *. cbn in *. destruct ph; naive_solver.
Qed.

Lemma delete_keeps w id x : (cancelled w x -> cancelled (mkWorld (w_q w) (base.delete id (w_jobs w))) x) /\
  (rests w x -> rests (mkWorld (w_q w) (base.delete id (w_jobs w))) x).
Proof. split; intros Hr j; cbn; intros [_ H]%lookup_delete_Some; by apply Hr. Qed.

(** The end of a removal, given what the dispatcher knows after it. *)
Lemma xok_remove s' l w id d : sys_ok s' -> s_rms s' = map deleted_of l ->
  s_d s' = deregister d id -> reg_ok d ->
  (forall x, is_Some (w_jobs w !! x) <-> is_Some (byID d !! x)) -> (forall x, written d !! x = None -> rests w x) ->
  Forall (phase_ok w) l -> rests w id ->
  xok (mkWsys s' l (mkWorld (w_q w) (base.delete id (w_jobs w)))).
Proof.
  intros S Er Ed R Hdom Hwr Hl Hid. destruct (deregister_fields d id R) as (E1 & _ & _ & E4 & _). split; cbn; try done.
  - intros x. rewrite Ed, E1. destruct (decide (x = id)) as [->|Hne]; [by rewrite !lookup_delete_eq|].
    rewrite !lookup_delete_ne by done. apply Hdom.
  - intros x. rewrite Ed, E4. intros Hx. apply (delete_keeps w id x).
    destruct (decide (x = id)) as [->|Hne]; [done|]. rewrite lookup_delete_ne in Hx by done. by apply Hwr.
  - eapply Forall_impl; [exact Hl|]. intros [x ph]. destruct (delete_keeps w id x) as (Hc & Hr).
    unfold phase_ok. cbn. destruct ph; naive_solver.
Qed.

Lemma wreach_remove m w id : on_by m w -> Z.of_nat m < 2 ^ 64 - 1 -> rests w id ->
  on_by (S m) (mkWorld (w_q w) (base.delete id (w_jobs w))).
Proof.
  intros (m' & Hle & Hr) Hm Hid. destruct (w_jobs w !! id) as [j|] eqn:Hj.
  - exists (S m'). split; [lia|]. eapply wr_step; [exact Hr|]. destruct (Hid j Hj). by apply (ws_remove _ _ j).
  - exists m'. split; [lia|]. rewrite delete_id by done. by destruct w.
Qed.

Lemma world_step_on m w w' : on_by m w -> wstep w w' -> on_by (S m) w'.
Proof. intros (m' & ? & ?) Hs. exists (S m'). split; [lia|]. by eapply wr_step. Qed.

Lemma on_by_le m w : on_by m w -> on_by (S m) w.
Proof. intros (m' & ? & ?). exists m'. split; [lia|done]. Qed.

(** The world after the steps that are not doors of one job. *)
Lemma keeps_pool w q : sp_held (q_slots q) = sp_held (q_slots (w_q w)) -> keeps w (mkWorld q (w_jobs w)) (fun _ => False).
Proof. intros E. split; [done|done|]. intros x Hr _ j Hj. destruct (Hr j Hj). cbn. by rewrite E. Qed.

Lemma keeps_job w id j j' : w_jobs w !! id = Some j -> wf_job j -> job_call j j' ->
  keeps w (mkWorld (w_q w) (<[id := j']> (w_jobs w))) (fun _ => False).
Proof.
  intros Hj Hwf Hc. destruct (job_call_step _ _ Hc) as (Hs & Hl & _). split; cbn.
  - intros x. destruct (decide (x = id)) as [->|Hne]; [rewrite lookup_insert_eq, Hj; split; eauto|by rewrite lookup_insert_ne].
  - intros x Hx j0. cbn. intros [[<- <-]|[Hne H]]%lookup_insert_Some; [|by apply Hx].
    eapply cancel_is_latched; [by apply rtc_once|]. by apply Hx.
  - intros x Hx _ j0. cbn. intros [[<- <-]|[Hne H]]%lookup_insert_Some; [|by apply Hx]. rewrite Hl. by apply Hx.
Qed.

Lemma never_ran_rests m w id j : on_by m w -> Z.of_nat m < 2 ^ 64 - 1 -> w_jobs w !! id = Some j ->
  v_state (Job_State j) = StateUnset -> rests w id.
Proof.
  intros (m' & Hle & Hr) Hm Hj Hs j' Hj'. assert (j' = j) as -> by congruence.
  pose proof (wreach_winv _ _ _ _ Hr ltac:(lia)) as [I1 _ _ _ I5 _]. destruct (I1 _ _ Hj) as [Hid Hwf].
  destruct (currentLocked j) as [at1|] eqn:Hc.
  - exfalso. eapply (wf_state_set j at1); [done|done|]. unfold Job_State in Hs. by rewrite Hc in Hs.
  - split.
    + destruct (j_lease j) as [l|] eqn:El; [|done]. destruct (wfj_lease _ Hwf l El) as (_ & a0 & H & _). congruence.
    + intros Hin. destruct (I5 _ Hin) as (j2 & H2 & a0 & H & _). congruence.
Qed.

Lemma xstep_ok m x x' : xok x -> on_by m (x_w x) -> Z.of_nat m < 2 ^ 64 - 1 -> xstep x x' ->
  xok x' /\ on_by (S m) (x_w x').
Proof.
  intros X W Hm Hs. pose proof X as [X1 X2 X3 X4 X5]. pose proof (so_reg _ X1) as R.
  destruct Hs as [x s' Hq He Hd|x j inst h seq d' k Hj Hl E|x id now Hin|x id dr Hdr|x id j j' Hj Hc|x|x|x c1 c2
    |x s' id ex d' E ->|x s' id j d' live Hj Hs Hi E ->|x l1 l2 id now E|x l1 l2 id E Hl|x l1 l2 id E Hl|x l1 l2 id E
    |x d l1 l2 occs un store sv gone id ph Hph Ex El|x d l1 l2 occs un store gone id ph Hph Ex El
    |x d l1 l2 occs un store sv gone id Ex El|x d occs un store sv gone id Ex Hreg Hw].
  - split; [|by apply on_by_le]. split; cbn; try done.
    + by eapply sys_step_ok.
    + by rewrite He.
    + intros id. by rewrite X3, Hd.
    + intros id Hn. apply X4. by eapply quiet_written.
  - split.
    + eapply xok_add; [done|done| |exact E]. intros k' Hk'. destruct W as (m' & Hle & Hr).
      destruct (wi_slot _ _ (wreach_winv _ _ _ _ Hr ltac:(lia)) _ Hk') as (j2 & ? & _). by eexists.
    + eapply world_step_on; [exact W|]. apply ws_add; [done|done|]. destruct (register_ok _ _ _ _ _ _ _ _ R E) as (_ & Hn & _).
      apply eq_None_not_Some. rewrite X3, Hn. by intros [? ?].
  - destruct (try_door_keeps m (x_w x) id (DAdvance now) W Hm) as [W' K]. split; [|done].
    eapply xok_world; [done|exact K|by intros y (-> & ? & _)|]. intros y (-> & _ & _). by apply list_elem_of_filter in Hin as [? _].
  - destruct (try_door_keeps m (x_w x) id dr W Hm) as [W' K]. split; [|done].
    eapply xok_world; [done|exact K|by intros y (-> & ? & _)|]. intros y (_ & _ & now & ->). by destruct (Hdr now).
  - split; [|eapply world_step_on; [exact W|by eapply ws_job]]. destruct W as (m' & Hle & Hr).
    destruct (wi_job _ _ (wreach_winv _ _ _ _ Hr ltac:(lia)) _ _ Hj). eapply xok_world; [done|by eapply keeps_job|done|done].
  - split; [|eapply world_step_on; [exact W|apply ws_pause]]. eapply xok_world; [done|by apply keeps_pool|done|done].
  - split; [|eapply world_step_on; [exact W|apply ws_resume]]. eapply xok_world; [done|by apply keeps_pool|done|done].
  - split; [|eapply world_step_on; [exact W|apply ws_setCaps]]. eapply xok_world; [done|by apply keeps_pool|done|done].
  - split; [|by apply on_by_le]. unfold beginRemovalFor in E. destruct (lookupFor _ id ex); [|done]. injection E as <-. split; cbn; try done.
    + destruct (x_sys x). by apply begin_ok.
    + by rewrite X2, map_app.
    + apply Forall_app. split; [done|]. by constructor.
  - split; [|by apply on_by_le]. unfold beginRemovalIfIdle in E. destruct (byID _ !! id); [|done]. destruct (_ || _); [done|]. injection E as <- _.
    split; cbn; try done.
    + destruct (x_sys x). by apply begin_ok.
    + by rewrite X2, map_app.
    + apply Forall_app. split; [done|]. constructor; [|done]. split; cbn; [intros j2 H2; congruence|]. by eapply never_ran_rests.
  - destruct (try_door_keeps m (x_w x) id (DCancel now) W Hm) as [W' K]. split; [|done].
    eapply xok_phase; [done|exact E|done|done|exact K|by intros y (_ & _ & t & [=])|]. intros _. by eapply try_cancel.
  - split; [|by apply on_by_le]. eapply (xok_phase _ _ _ _ _ _ _ (fun _ => False)); [done|exact E|done|done|apply keeps_refl|tauto|done].
  - split; [|by apply on_by_le]. eapply (xok_phase _ _ _ _ _ _ _ (fun _ => False)); [done|exact E|done|done|apply keeps_refl|tauto|done].
  - destruct (try_door_keeps m (x_w x) id DPark W Hm) as [W' K]. split; [|done].
    eapply xok_phase; [done|exact E|done|done|exact K|by intros y (_ & _ & t & [=])|]. intros Hc. split; [done|]. by eapply try_park.
  - split; [|by apply on_by_le]. rewrite Ex in *. cbn in *. rewrite El in *. split; cbn; try done.
    + rewrite map_app. apply abort_ok. by rewrite map_split_deleted, bool_decide_eq_false_2 in X1.
    + by apply phase_drop in X5 as [? _].
  - split; [|by apply on_by_le]. rewrite Ex in *. cbn in *. rewrite El in *. split; cbn; try done.
    + rewrite map_split_deleted, bool_decide_eq_true_2 by done. apply delete_ok. rewrite map_split_deleted, bool_decide_eq_false_2 in X1; [done|].
      by destruct Hph as [-> | ->].
    + eapply phase_replace; [exact X5|]. by destruct Hph as [-> | ->].
  - rewrite Ex in *. cbn in *. rewrite El in *. apply phase_drop in X5 as [Hp [_ Hr]]. split; [|by apply wreach_remove].
    eapply (xok_remove _ _ _ _ d); try done. cbn. rewrite map_app. apply (end_ok d _ _ occs un store sv gone id true).
    by rewrite map_split_deleted, bool_decide_eq_true_2 in X1.
  - rewrite Ex in *. cbn in *. pose proof (X4 _ Hw) as Hr. split; [|by apply wreach_remove].
    eapply (xok_remove _ _ _ _ (beginRemovalLocked d id)); try done.
    + apply begin_ok with (id := id) in X1. pose proof (end_ok _ _ [] _ _ _ _ _ _ _ X1) as H. by rewrite app_nil_r in H.
    + apply begin_ok with (id := id) in X1. apply X1.
Qed.

Lemma xreach_ok n x : xreach a b n x -> Z.of_nat n < 2 ^ 64 - 1 -> xok x /\ on_by n (x_w x).
Proof.
  induction 1 as [store|n x x' Hr IH Hs]; intros Hn.
  - split; [|exists 0%nat; split; [lia|apply wr_init]]. split; cbn; try done.
    + apply sys_reachable_ok, sys_start.
    + intros id. by rewrite !lookup_empty.
  - destruct (IH ltac:(lia)) as [X W]. apply (xstep_ok n x); [done|done|lia|done].
Qed.

End world.

(** ** Witness: a job is registered, stored, advanced to its lease, cancelled
    and parked by a removal *)
Definition ex_row1 : Persisted := mkPersisted "j1" 0 (ex_header NormalPriority) (mkPolicy true true true true) zeroView IntentRun 0 0 "".

