(* ===== verification/Tick.v ===== *)
(** * The tick ([internal/dispatch/tick.go, worker.go])

    What one tick does with each stored job: advance it, evict it if it was
    cancelled before it ran, bring its content in or out, launch its worker,
    and write its row when it changed; and the reports a worker makes.  The
    store, the residency and the runner are answers given to the model and
    calls it records. *)
From stdpp Require Import base numbers gmap sorting list strings.
From Stdlib Require Import ZArith Lia.
From S2P Require Import Prelude Lifecycle Sched Registry RegistryProps RegistryWorld.
Local Open Scope Z_scope.

(** What [persistIfChanged] reads of a job besides its snapshot; [None] is
    the zero time. *)
Record job_meta : Type := mkMeta { jm_started : option Z; jm_finished : option Z; jm_par2 : string }.

Inductive hydrated : Type :=
| HydrateOk
| HydrateContext   (* a context error *)
| HydrateFault     (* wraps [ErrResidencyFault] *)
| HydrateFailed.

Record tick_env : Type := mkTickEnv {
  te_now : Z;
  te_meta : string -> job_meta;
  te_save : string -> bool;      (* whether [Store.Save] succeeds *)
  te_delete : string -> bool;
  te_hydrate : string -> hydrated;
}.

(** The dispatcher, the scheduler's world, the stored rows, and the calls of
    [Runner.Run] and [Residency.Evict]. *)
Record dsys : Type := mkDsys {
  y_d : Dispatcher;
  y_w : World;
  y_store : gmap string Persisted;
  y_runs : list (string * State);
  y_evicts : list string;
}.
Definition y_setD (y : dsys) (d : Dispatcher) : dsys := mkDsys d (y_w y) (y_store y) (y_runs y) (y_evicts y).
Definition y_setW (y : dsys) (w : World) : dsys := mkDsys (y_d y) w (y_store y) (y_runs y) (y_evicts y).

(** A door of the queue on the job registered under [id]. *)
Definition y_door (y : dsys) (id : string) (dr : qdoor) : dsys * option sched_err :=
  match w_jobs (y_w y) !! id with
  | Some j => let '(e, w) := wdoor (y_w y) id j dr in (y_setW y w, e)
  | None => (y, None)
  end.

(** ** Rows *)
Definition row_of (m : job_meta) (id : string) (e : entry) (j : Job) : Persisted :=
  let v := Job_State j in
  mkPersisted id (e_seq e) (e_h e) (j_policy j) v (j_intent j) (default 0 (jm_started m))
    (match jm_finished m with
     | Some t => if negb (bool_decide (v_state v = Fetching)) || negb (bool_decide (v_next v = StateUnset)) then t else 0
     | None => 0
     end)
    (jm_par2 m).

(** [persistIfChanged]: whether the save failed. *)
Definition persistIfChanged (env : tick_env) (y : dsys) (id : string) : dsys * bool :=
  match byID (y_d y) !! id, w_jobs (y_w y) !! id with
  | Some e, Some j =>
      let p := row_of (te_meta env id) id e j in
      if bool_decide (lastWritten (y_d y) id = Some p) then (y, false)
      else if negb (admitsLocked (y_d y) id) then (y, false)
      else if te_save env id
      then (mkDsys (markWritten (y_d y) p) (y_w y) (<[id := p]> (y_store y)) (y_runs y) (y_evicts y), false)
      else (y, true)
  | _, _ => (y, false)
  end.

(** ** Eviction *)

(** [evictCancelledNeverRun]: whether the job's pass is over. *)
Definition evictCancelledNeverRun (env : tick_env) (y : dsys) (id : string) : dsys * bool :=
  match w_jobs (y_w y) !! id with
  | None => (y, false)
  | Some j =>
      if negb (bool_decide (v_state (Job_State j) = StateUnset)) || negb (bool_decide (j_intent j = IntentCancel)) then (y, false)
      else match beginRemovalIfIdle (y_d y) id with
           | (_, true) => (y, false)
           | (None, false) => (y, true)
           | (Some d, false) =>
               if te_delete env id
               then (mkDsys (clearLaunched (deregister d id) id) (mkWorld (w_q (y_w y)) (base.delete id (w_jobs (y_w y))))
                       (base.delete id (y_store y)) (y_runs y) (y_evicts y ++ [id]), true)
               else (y_setD y (removal_abort d id), true)
           end
  end.

(** ** Residency *)

(** [reconcileResidency]: whether it failed. *)
Definition reconcileResidency (env : tick_env) (y : dsys) (id : string) : dsys * bool :=
  match w_jobs (y_w y) !! id with
  | None => (y, false)
  | Some j =>
      let v := renderLocked (w_q (y_w y)) j in
      if rv_holds v && negb (bool_decide (rv_intent v = IntentPause)) && negb (isResident (y_d y) id) then
        match te_hydrate env id with
        | HydrateOk => (y_setD y (markResident (y_d y) id), false)
        | HydrateContext | HydrateFault => (y, true)
        | HydrateFailed =>
            let '(y, serr) := y_door y id (DSettle OutcomeFailed (te_now env)) in
            match serr with
            | Some _ => (y, true)
            | None => (y_setD y (markNotResident (y_d y) id), true)
            end
        end
      else if negb (rv_holds v) && negb (bool_decide (rv_intent v = IntentPause)) && isResident (y_d y) id then
        (mkDsys (markNotResident (y_d y) id) (y_w y) (y_store y) (y_runs y) (y_evicts y ++ [id]), false)
      else (y, false)
  end.

(** ** Launching *)
Definition parkGrant (y : dsys) (id : string) : dsys := fst (y_door y id DPark).

Definition parkUnlaunched (y : dsys) (id : string) : dsys :=
  if bool_decide (id ∈ launched (y_d y)) then y else parkGrant y id.

(** [launch]; the job is rendered again after the claim. *)
Definition launch (y : dsys) (id : string) : dsys :=
  match w_jobs (y_w y) !! id with
  | None => y
  | Some j =>
      let v := renderLocked (w_q (y_w y)) j in
      if negb (rv_running v) then y
      else if negb (bool_decide (rv_intent v = IntentRun)) then parkUnlaunched y id
      else
        let '(d, claimed) := claimLaunched (y_d y) id in
        if negb claimed then y
        else
          let y := y_setD y d in
          let v := renderLocked (w_q (y_w y)) j in
          if negb (rv_running v) || negb (bool_decide (rv_intent v = IntentRun))
          then y_setD y (clearLaunched (y_d y) id)
          else mkDsys (y_d y) (y_w y) (y_store y) (y_runs y ++ [(id, v_state (rv_state v))]) (y_evicts y)
  end.

(** ** The tick *)
Definition tick_job (env : tick_env) (y : dsys) (id : string) : dsys :=
  let '(y, err) := y_door y id (DAdvance (te_now env)) in
  match err with
  | Some _ => y
  | None =>
      let '(y, over) := evictCancelledNeverRun env y id in
      if over then y
      else
        let '(y, failed) := reconcileResidency env y id in
        if failed then fst (persistIfChanged env y id)
        else fst (persistIfChanged env (launch y id) id)
  end.

Definition tick (env : tick_env) (y : dsys) : dsys := foldl (tick_job env) y (snapshotOrder (y_d y)).

(** ** A worker's reports *)

(** Why a report is refused; the errors of a door are one. *)
Inductive report_err : Type := ReportNotFound | ErrStaleReport | ReportRefused.
#[export] Instance report_err_eq_dec : EqDecision report_err.
Proof. solve_decision. Defined.

Definition refused (e : option sched_err) : option report_err :=
  match e with
  | Some _ => Some ReportRefused
  | None => None
  end.

(** [finishedFor]. *)
Definition finishedFor (y : dsys) (id : string) (expected : option nat) (o : Outcome) (now : Z) : dsys * option report_err :=
  match lookupFor (y_d y) id expected with
  | None => (y, Some ReportNotFound)
  | Some _ =>
      let '(y, err) := if bool_decide (o = OutcomeCancelled) then (y, Some ReportRefused)
                       else let '(y, e) := y_door y id (DSettle o now) in (y, refused e) in
      (y_setD y (clearLaunched (y_d y) id), err)
  end.

(** [YieldedFor]. *)
Definition YieldedFor (y : dsys) (id : string) (expected : option nat) : dsys * option report_err :=
  match lookupFor (y_d y) id expected with
  | None => (y, Some ReportNotFound)
  | Some _ =>
      let '(y, e) := y_door y id DPark in (y_setD y (clearLaunched (y_d y) id), refused e)
  end.

(** [handoff]: [ErrNotFound] and [ErrStaleReport] change nothing; the claim is
    cleared exactly when the report was taken. *)
Definition handoff (y : dsys) (id : string) (inst : nat) (from next : State) (now : Z) : dsys * option report_err :=
  match lookupFor (y_d y) id (Some inst), w_jobs (y_w y) !! id with
  | Some _, Some j =>
      let '((handed, err), st) := Handoff from next now (mkSt (w_q (y_w y)) j false) in
      let y := y_setW y (mkWorld (st_q st) (<[id := st_j st]> (w_jobs (y_w y)))) in
      if negb handed then (y, Some ErrStaleReport)
      else (y_setD y (clearLaunched (y_d y) id), refused err)
  | _, _ => (y, Some ReportNotFound)
  end.

Definition AdvanceFrom (y : dsys) (id : string) (inst : nat) (from next : State) (now : Z) : dsys * option report_err :=
  if bool_decide (next = StateUnset) then (y, Some ReportRefused) else handoff y id inst from next now.
Definition YieldedFrom (y : dsys) (id : string) (inst : nat) (from : State) (now : Z) : dsys * option report_err :=
  handoff y id inst from StateUnset now.

(** ** One job's pass touches one job *)
Definition same_job (y y' : dsys) (x : string) : Prop :=
  byID (y_d y') !! x = byID (y_d y) !! x /\ w_jobs (y_w y') !! x = w_jobs (y_w y) !! x /\ y_store y' !! x = y_store y !! x /\
  written (y_d y') !! x = written (y_d y) !! x.

Lemma same_job_trans y1 y2 y3 x : same_job y1 y2 x -> same_job y2 y3 x -> same_job y1 y3 x.
Proof. intros (?&?&?&?) (?&?&?&?). split_and!; congruence. Qed.

Lemma y_door_local y id dr x : x <> id -> same_job y (fst (y_door y id dr)) x.
Proof.
  intros Hx. unfold y_door. destruct (w_jobs (y_w y) !! id) as [j|]; [|done]. unfold wdoor. destruct (run_door dr _) as [e st'].
  split_and!; try done. cbn. by rewrite lookup_insert_ne.
Qed.

Lemma markWritten_local d p x : x <> p_ID p -> written (markWritten d p) !! x = written d !! x.
Proof. intros H. unfold markWritten. case_bool_decide; [|done]. cbn. by rewrite lookup_insert_ne. Qed.

Lemma persist_local env y id x : x <> id -> same_job y (fst (persistIfChanged env y id)) x.
Proof.
  intros Hx. unfold persistIfChanged. repeat case_match; try done. split_and!; cbn; try done.
  - by rewrite (proj1 (markWritten_fields _ _)).
  - by rewrite lookup_insert_ne.
  - by apply markWritten_local.
Qed.

Lemma reconcile_local env y id x : x <> id -> same_job y (fst (reconcileResidency env y id)) x.
Proof.
  intros Hx. unfold reconcileResidency. destruct (w_jobs (y_w y) !! id) as [j|]; [|done]. cbv zeta.
  destruct (_ && _ && _); [|destruct (_ && _ && _); done]. destruct (te_hydrate env id); try done.
  - split_and!; try done; cbn; unfold markResident; by case_match.
  - pose proof (y_door_local y id (DSettle OutcomeFailed (te_now env)) x Hx) as H.
    destruct (y_door y id _) as [y1 [e|]]; [exact H|]. eapply same_job_trans; [exact H|]. done.
Qed.

Lemma launch_local y id x : x <> id -> same_job y (launch y id) x.
Proof.
  intros Hx. unfold launch. destruct (w_jobs (y_w y) !! id) as [j|]; [|done]. cbv zeta. destruct (negb _); [done|].
  destruct (negb _).
  - unfold parkUnlaunched. case_match; [done|]. by apply y_door_local.
  - unfold claimLaunched. repeat case_match; simplify_eq; done.
Qed.

Lemma idle_removal d id d' live : beginRemovalIfIdle d id = (Some d', live) ->
  d' = beginRemovalLocked d id /\ live = false /\ is_Some (byID d !! id) /\ id ∉ launched d.
Proof.
  unfold beginRemovalIfIdle. destruct (byID d !! id); [|done]. destruct (_ || _) eqn:E; [done|]. intros [= <- <-].
  apply orb_false_iff in E as [_ E]. apply bool_decide_eq_false in E. eauto.
Qed.

Lemma begin_reg_ok d id : reg_ok d -> reg_ok (beginRemovalLocked d id).
Proof. intros R. apply (reg_ok_same d); auto. Qed.

(** The registry after an eviction. *)
Definition evicted (d : Dispatcher) (id : string) : Dispatcher := clearLaunched (deregister (beginRemovalLocked d id) id) id.

Lemma clear_byID d id : byID (clearLaunched d id) = byID d.
Proof. done. Qed.
Lemma clear_written d id : written (clearLaunched d id) = written d.
Proof. done. Qed.

Lemma evicted_fields d id : reg_ok d -> byID (evicted d id) = base.delete id (byID d) /\ written (evicted d id) = base.delete id (written d).
Proof.
  intros R. pose proof (deregister_fields _ id (begin_reg_ok d id R)) as (E1 & _ & _ & E4 & _). unfold evicted.
  rewrite clear_byID, clear_written, E1, E4. done.
Qed.

Lemma evict_local env y id x : x <> id -> reg_ok (y_d y) -> same_job y (fst (evictCancelledNeverRun env y id)) x.
Proof.
  intros Hx R. unfold evictCancelledNeverRun. destruct (w_jobs (y_w y) !! id) as [j|]; [|done]. destruct (_ || _); [done|].
  destruct (beginRemovalIfIdle (y_d y) id) as [[d|] live] eqn:E; [|by destruct live].
  apply idle_removal in E as (-> & -> & _ & _). destruct (te_delete env id); cbn [fst].
  - fold (evicted (y_d y) id). destruct (evicted_fields (y_d y) id R) as [E1 E4]. split_and!; cbn [y_d y_w y_store w_jobs].
    + by rewrite E1, lookup_delete_ne.
    + by rewrite lookup_delete_ne.
    + by rewrite lookup_delete_ne.
    + by rewrite E4, lookup_delete_ne.
  - by split_and!.
Qed.

(** ** Between two passes *)

(** No removal is under way, the scheduler's jobs are the registered ones and
    what the dispatcher remembers of a row is the row. *)
Record ticking (a b : Z) (m : nat) (occs : list (string * nat)) (y : dsys) : Prop := {
  tk_sys : sys_ok (mkSys (y_d y) [] occs [] (y_store y) None ∅);
  tk_world : exists m', (m' <= m)%nat /\ wreach a b m' (y_w y);
  tk_dom : forall id, is_Some (w_jobs (y_w y) !! id) <-> is_Some (byID (y_d y) !! id);
  tk_rows : forall id p, written (y_d y) !! id = Some p -> y_store y !! id = Some p;
}.

Lemma sys_ok_store d occs store store' : sys_ok (mkSys d [] occs [] store None ∅) -> sys_ok (mkSys d [] occs [] store' None ∅).
Proof. intros [S1 S2 S3 S4 S5 _ _]. split; cbn in *; try done. - intros id H. by apply elem_of_nil in H. Qed.

Lemma ticking_door a b m occs y id dr : ticking a b m occs y -> Z.of_nat m < 2 ^ 64 - 1 -> ticking a b (S m) occs (fst (y_door y id dr)).
Proof.
  intros [T1 T2 T3 T4] Hm. destruct (try_door_keeps a b m (y_w y) id dr T2 Hm) as [W K]. unfold try_door, y_door in *.
  destruct (w_jobs (y_w y) !! id) as [j|]; [destruct (wdoor (y_w y) id j dr) as [e w]|]; (split; cbn; try done).
  intros x. by rewrite (kp_dom _ _ _ K).
Qed.

Lemma ticking_plain a b m occs y d' : ticking a b m occs y -> plain_step (y_d y) d' -> written d' = written (y_d y) ->
  (forall id, is_Some (byID d' !! id) <-> is_Some (byID (y_d y) !! id)) -> ticking a b m occs (y_setD y d').
Proof.
  intros [T1 T2 T3 T4] Hp Hw Hb. split; cbn; try done.
  - by eapply plain_step_ok.
  - intros id. by rewrite T3, Hb.
  - intros id p. rewrite Hw. apply T4.
Qed.

Lemma ticking_more a b m n occs y : ticking a b m occs y -> (m <= n)%nat -> ticking a b n occs y.
Proof. intros [T1 (m' & Hle & Hr) T3 T4] Hmn. split; try done. exists m'. split; [lia|done]. Qed.

(** The job's row is as the job stands, or the job is gone with its row. *)
Definition row_current (env : tick_env) (y : dsys) (id : string) : Prop :=
  match byID (y_d y) !! id, w_jobs (y_w y) !! id with
  | Some e, Some j => y_store y !! id = Some (row_of (te_meta env id) id e j)
  | None, None => y_store y !! id = None
  | _, _ => False
  end.

Lemma row_current_same env y y' x : same_job y y' x -> row_current env y x -> row_current env y' x.
Proof. intros (E1 & E2 & E3 & _). unfold row_current. by rewrite E1, E2, E3. Qed.

Lemma ticking_persist a b m occs env y id : ticking a b m occs y -> te_save env id = true -> is_Some (byID (y_d y) !! id) ->
  ticking a b m occs (fst (persistIfChanged env y id)) /\ row_current env (fst (persistIfChanged env y id)) id.
Proof.
  intros [T1 T2 T3 T4] Hsave Hb. pose proof (proj2 (T3 id) Hb) as [j Hj]. destruct Hb as [e He].
  unfold persistIfChanged. rewrite He, Hj. set (p := row_of (te_meta env id) id e j). case_bool_decide as Hl.
  { cbn. split; [by split|]. unfold row_current. rewrite He, Hj. by apply T4. }
  assert (admitsLocked (y_d y) id = true) as Ha.
  { apply admits_spec. split; [by eexists|]. by rewrite (so_count _ T1). }
  rewrite Ha, Hsave. cbn [negb fst]. pose proof (markWritten_fields (y_d y) p) as F. cbv zeta in F. destruct F as (E1 & _).
  assert (forall x, written (markWritten (y_d y) p) !! x = if decide (x = id) then Some p else written (y_d y) !! x) as Hw.
  { intros x. unfold markWritten. change (p_ID p) with id. rewrite bool_decide_eq_true_2 by (by eexists). cbn.
    case_decide; [subst; by rewrite lookup_insert_eq|by rewrite lookup_insert_ne]. }
  split; [split; cbn; try done|].
  - eapply sys_ok_store. eapply plain_step_ok; [exact T1|apply pl_written].
  - intros x. by rewrite E1.
  - intros x q. rewrite Hw. case_decide as Hx; [subst; intros [= <-]; by rewrite lookup_insert_eq|].
    rewrite lookup_insert_ne by done. apply T4.
  - unfold row_current. cbn. rewrite E1, He, Hj. by rewrite lookup_insert_eq.
Qed.

(** An eviction, with a store that deletes. *)
Lemma ticking_evict a b m occs env y id : ticking a b m occs y -> Z.of_nat m < 2 ^ 64 - 1 -> te_delete env id = true ->
  is_Some (byID (y_d y) !! id) ->
  let '(y', over) := evictCancelledNeverRun env y id in
  if over then ticking a b (S m) occs y' /\ row_current env y' id else y' = y.
Proof.
  intros T Hm Hdel Hb. pose proof T as [T1 T2 T3 T4]. unfold evictCancelledNeverRun. pose proof (proj2 (T3 id) Hb) as [j Hj]. rewrite Hj.
  destruct (negb _ || negb _) eqn:Ec; [done|]. apply orb_false_iff in Ec as [Hs%negb_false_iff%bool_decide_eq_true _].
  destruct (beginRemovalIfIdle (y_d y) id) as [[d|] live] eqn:E.
  2: { destruct live; [done|]. unfold beginRemovalIfIdle in E. destruct Hb as [e He]. rewrite He in E. by destruct (_ || _). }
  apply idle_removal in E as (-> & -> & _ & Hl). rewrite Hdel. fold (evicted (y_d y) id).
  destruct (evicted_fields (y_d y) id (so_reg _ T1)) as [E1 E4].
  assert (rests (y_w y) id) as Hr by (by eapply never_ran_rests).
  split; [split; cbn [y_d y_w y_store w_jobs]|].
  - pose proof (begin_ok _ _ _ _ _ _ _ id T1) as B. pose proof (end_ok _ [] [] _ _ _ _ _ _ _ B) as C. cbn [app] in C.
    pose proof (unlatch_ok _ _ _ [] [] _ _ _ _ C) as D. cbn [app] in D. by eapply sys_ok_store.
  - exact (wreach_remove a b m (y_w y) id T2 Hm Hr).
  - intros x. rewrite E1. destruct (decide (x = id)) as [->|Hne]; [by rewrite !lookup_delete_eq|].
    rewrite !lookup_delete_ne by done. apply T3.
  - intros x p. rewrite E4. intros [Hne H]%lookup_delete_Some. rewrite lookup_delete_ne by done. by apply T4.
  - unfold row_current. cbn [y_d y_w y_store w_jobs]. by rewrite E1, !lookup_delete_eq.
Qed.

Lemma ticking_reconcile a b m occs env y id : ticking a b m occs y -> Z.of_nat m < 2 ^ 64 - 1 ->
  ticking a b (S m) occs (fst (reconcileResidency env y id)).
Proof.
  intros T Hm. pose proof (ticking_more _ _ _ (S m) _ _ T ltac:(lia)) as T'. unfold reconcileResidency.
  destruct (w_jobs (y_w y) !! id) as [j|]; [|done]. cbv zeta. destruct (_ && _ && _).
  - destruct (te_hydrate env id); try done.
    + apply ticking_plain; [done|apply pl_resident| |]; unfold markResident; by case_match.
    + pose proof (ticking_door a b m occs y id (DSettle OutcomeFailed (te_now env)) T Hm) as Td.
      destruct (y_door y id _) as [y1 [e|]]; [exact Td|]. cbn [fst] in *. apply ticking_plain; [done|apply pl_notResident|done|done].
  - destruct (_ && _ && _); [|done]. pose proof (ticking_plain a b (S m) occs y _ T' (pl_notResident _ id) eq_refl ltac:(done)) as [Q1 Q2 Q3 Q4].
    by split.
Qed.

Lemma claim_written d id : written (fst (claimLaunched d id)) = written d /\ byID (fst (claimLaunched d id)) = byID d.
Proof. unfold claimLaunched. by repeat case_match. Qed.

Lemma ticking_launch a b m occs y id : ticking a b m occs y -> Z.of_nat m < 2 ^ 64 - 1 -> ticking a b (S m) occs (launch y id).
Proof.
  intros T Hm. pose proof (ticking_more _ _ _ (S m) _ _ T ltac:(lia)) as T'. unfold launch.
  destruct (w_jobs (y_w y) !! id) as [j|]; [|done]. cbv zeta. destruct (negb _); [done|]. destruct (negb _).
  - unfold parkUnlaunched. case_match; [done|]. by apply ticking_door.
  - pose proof (pl_claim (y_d y) id) as Hp. destruct (claim_written (y_d y) id) as [Hw Hb].
    pose proof (ticking_plain a b (S m) occs y _ T' Hp Hw ltac:(intros; by rewrite Hb)) as T1.
    destruct (claimLaunched (y_d y) id) as [d []]; [|done]. cbn [negb fst] in *. destruct (negb _ || negb _).
    + apply (ticking_plain a b (S m) occs (y_setD y d)); [done|apply pl_clear|done|done].
    + destruct T1 as [Q1 Q2 Q3 Q4]. by split.
Qed.

(** One job's pass. *)
Lemma tick_job_local env y id x : x <> id -> reg_ok (y_d y) -> same_job y (tick_job env y id) x.
Proof.
  intros Hx R. unfold tick_job. pose proof (y_door_local y id (DAdvance (te_now env)) x Hx) as H1.
  assert (y_d (fst (y_door y id (DAdvance (te_now env)))) = y_d y) as Hd.
  { unfold y_door. destruct (w_jobs (y_w y) !! id); [|done]. by destruct (wdoor _ _ _ _). }
  destruct (y_door y id _) as [y1 [e|]]; [exact H1|]. cbn [fst] in *.
  pose proof (evict_local env y1 id x Hx ltac:(by rewrite Hd)) as H2.
  destruct (evictCancelledNeverRun env y1 id) as [y2 []]; cbn [fst] in *; [by eapply same_job_trans|].
  pose proof (reconcile_local env y2 id x Hx) as H3. destruct (reconcileResidency env y2 id) as [y3 []]; cbn [fst] in *.
  - pose proof (persist_local env y3 id x Hx). eauto using same_job_trans.
  - pose proof (launch_local y3 id x Hx). pose proof (persist_local env (launch y3 id) id x Hx). eauto 6 using same_job_trans.
Qed.

Lemma tick_job_ok a b m occs env y id : ticking a b m occs y -> Z.of_nat m + 4 < 2 ^ 64 - 1 ->
  te_save env id = true -> te_delete env id = true -> is_Some (byID (y_d y) !! id) ->
  ticking a b (m + 4) occs (tick_job env y id) /\ row_current env (tick_job env y id) id.
Proof.
  intros T Hm Hsave Hdel Hb. unfold tick_job.
  pose proof (ticking_door a b m occs y id (DAdvance (te_now env)) T ltac:(lia)) as T1.
  assert (snd (y_door y id (DAdvance (te_now env))) = None /\ y_d (fst (y_door y id (DAdvance (te_now env)))) = y_d y) as [He Hd].
  { destruct (proj2 (tk_dom _ _ _ _ _ T id) Hb) as [j Hj]. destruct (on_by_pre a b m _ _ _ (tk_world _ _ _ _ _ T) ltac:(lia) Hj) as [P _].
    unfold y_door. rewrite Hj. unfold wdoor. cbn [run_door]. destruct (Advance_spec (te_now env) _ P) as (st' & -> & _). done. }
  destruct (y_door y id _) as [y1 e]. cbn [fst snd] in *. subst e. rewrite <- Hd in Hb.
  pose proof (ticking_evict a b (S m) occs env y1 id T1 ltac:(lia) Hdel Hb) as T2.
  destruct (evictCancelledNeverRun env y1 id) as [y2 []].
  { destruct T2 as [T2 Hr]. split; [eapply ticking_more; [exact T2|lia]|done]. }
  subst y2. pose proof (ticking_reconcile a b (S m) occs env y1 id T1 ltac:(lia)) as T3.
  assert (is_Some (byID (y_d (fst (reconcileResidency env y1 id))) !! id)) as Hb3.
  { unfold reconcileResidency. repeat case_match; simplify_eq; cbn; try done; unfold markResident in *; repeat case_match; try done;
      by (unfold y_door in *; repeat case_match; simplify_eq). }
  destruct (reconcileResidency env y1 id) as [y3 []]; cbn [fst] in *.
  - destruct (ticking_persist a b _ occs env y3 id T3 Hsave Hb3) as [T4 Hr]. split; [eapply ticking_more; [exact T4|lia]|done].
  - pose proof (ticking_launch a b _ occs y3 id T3 ltac:(lia)) as T4.
    assert (is_Some (byID (y_d (launch y3 id)) !! id)) as Hb4.
    { rewrite <- (tk_dom _ _ _ _ _ T4). unfold launch, parkUnlaunched, parkGrant, y_door, claimLaunched.
      destruct (proj2 (tk_dom _ _ _ _ _ T3 id) Hb3) as [j Hj]. rewrite Hj. cbv zeta. unfold wdoor.
      repeat case_match; simplify_eq; cbn; rewrite ?lookup_insert_eq; eauto. }
    destruct (ticking_persist a b _ occs env _ id T4 Hsave Hb4) as [T5 Hr]. split; [eapply ticking_more; [exact T5|lia]|done].
Qed.

(** A whole tick: the offered jobs have current rows, the others are as they
    were. *)
Lemma tick_fold a b occs env l : forall m y, ticking a b m occs y -> NoDup l -> Z.of_nat m + 4 * Z.of_nat (length l) < 2 ^ 64 - 1 ->
  (forall id, id ∈ l -> te_save env id = true /\ te_delete env id = true /\ is_Some (byID (y_d y) !! id)) ->
  let y' := foldl (tick_job env) y l in
  ticking a b (m + 4 * length l) occs y' /\ (forall id, id ∈ l -> row_current env y' id) /\ (forall x, x ∉ l -> same_job y y' x).
Proof.
  induction l as [|id l IH]; intros m y T Hnd Hm Hl; cbn [foldl length] in *.
  - split; [eapply ticking_more; [exact T|lia]|]. split; [by intros id ?%elem_of_nil|done].
  - apply NoDup_cons in Hnd as [Hid Hnd]. destruct (Hl id ltac:(left)) as (Hs & Hd & Hb).
    destruct (tick_job_ok a b m occs env y id T ltac:(lia) Hs Hd Hb) as [T1 Hr].
    pose proof (fun x H => tick_job_local env y id x H (so_reg _ (tk_sys _ _ _ _ _ T))) as Hloc.
    destruct (IH (m + 4)%nat (tick_job env y id) T1 Hnd ltac:(lia)) as (T2 & Hr2 & Hs2).
    { intros x Hx. destruct (Hl x ltac:(by right)) as (? & ? & Hbx). destruct (Hloc x ltac:(set_solver)) as (E & _). by rewrite E. }
    split; [|split].
    + eapply ticking_more; [exact T2|lia].
    + intros x [->|Hx]%elem_of_cons; [|by apply Hr2]. by eapply row_current_same; [apply Hs2|].
    + intros x [Hne Hx]%not_elem_of_cons. eapply same_job_trans; [by apply Hloc|by apply Hs2].
Qed.

(** ** What a worker is launched for *)
Definition lcount (y : dsys) (id : string) : nat := if decide (id ∈ launched (y_d y)) then 1 else 0.
Lemma lcount_le y id : (lcount y id <= 1)%nat.
Proof. unfold lcount. case_decide; lia. Qed.

Definition runs_of (l : list (string * State)) (id : string) : nat := length (base.filter (fun r => r.1 = id) l).

(** [y'] follows [y]: its runs extend those of [y], and a job has been run
    only as its claim was taken. *)
Definition claims (y y' : dsys) : Prop :=
  exists new, y_runs y' = y_runs y ++ new /\ forall id, (runs_of new id + lcount y id <= lcount y' id)%nat.

Lemma runs_of_app l1 l2 id : runs_of (l1 ++ l2) id = (runs_of l1 id + runs_of l2 id)%nat.
Proof. unfold runs_of. by rewrite filter_app, length_app. Qed.

Lemma claims_trans y1 y2 y3 : claims y1 y2 -> claims y2 y3 -> claims y1 y3.
Proof.
  intros (n1 & E1 & H1) (n2 & E2 & H2). exists (n1 ++ n2). split; [by rewrite E2, E1, app_assoc|].
  intros id. specialize (H1 id). specialize (H2 id). rewrite runs_of_app. lia.
Qed.

Lemma claims_same y y' : y_runs y' = y_runs y -> launched (y_d y') = launched (y_d y) -> claims y y'.
Proof. intros E1 E2. exists []. rewrite app_nil_r. split; [done|]. intros id. unfold lcount. rewrite E2. by cbn. Qed.

Lemma door_same y id dr : y_runs (fst (y_door y id dr)) = y_runs y /\ launched (y_d (fst (y_door y id dr))) = launched (y_d y).
Proof. unfold y_door. destruct (w_jobs (y_w y) !! id); [|done]. by destruct (wdoor _ _ _ _). Qed.

Lemma claims_door y id dr : claims y (fst (y_door y id dr)).
Proof. destruct (door_same y id dr). by apply claims_same. Qed.

Lemma claims_persist env y id : claims y (fst (persistIfChanged env y id)).
Proof.
  apply claims_same; unfold persistIfChanged; repeat case_match; try done. cbn. unfold markWritten. by case_match.
Qed.

Lemma deregister_launched d id : launched (deregister d id) = launched d.
Proof. unfold deregister. cbv zeta. destruct (list_find _ _) as [[i x]|]; reflexivity. Qed.

Lemma clear_launched d id : launched (clearLaunched d id) = launched d ∖ {[id]}.
Proof. reflexivity. Qed.

Lemma evicted_launched d id : launched (evicted d id) = launched d ∖ {[id]}.
Proof. unfold evicted. rewrite clear_launched, deregister_launched. reflexivity. Qed.

Lemma claims_evict env y id : claims y (fst (evictCancelledNeverRun env y id)).
Proof.
  unfold evictCancelledNeverRun. destruct (w_jobs (y_w y) !! id); [|by apply claims_same]. destruct (_ || _); [by apply claims_same|].
  destruct (beginRemovalIfIdle (y_d y) id) as [[d|] live] eqn:E; [|destruct live; by apply claims_same].
  apply idle_removal in E as (-> & -> & _ & Hl). destruct (te_delete env id); [|by apply claims_same].
  fold (evicted (y_d y) id). exists []. rewrite app_nil_r. split; [reflexivity|]. intros x. unfold lcount. cbn [fst y_d].
  rewrite evicted_launched. cbn. destruct (decide (x ∈ launched (y_d y))) as [Hx|]; [|lia].
  rewrite decide_True; [done|set_solver].
Qed.

Lemma claims_reconcile env y id : claims y (fst (reconcileResidency env y id)).
Proof.
  destruct (door_same y id (DSettle OutcomeFailed (te_now env))) as [E1 E2].
  apply claims_same; unfold reconcileResidency; repeat case_match; simplify_eq; try done; cbn in *; unfold markResident; try done; by case_match.
Qed.

Lemma claims_launch y id : claims y (launch y id).
Proof.
  unfold launch. destruct (w_jobs (y_w y) !! id) as [j|]; [|by apply claims_same]. cbv zeta. destruct (negb _); [by apply claims_same|].
  destruct (negb _) eqn:Ei.
  { clear Ei. unfold parkUnlaunched, parkGrant. destruct (bool_decide _); [by apply claims_same|apply claims_door]. }
  unfold claimLaunched. destruct (admitsLocked (y_d y) id); cbn [negb]; [|by apply claims_same].
  destruct (bool_decide (id ∈ launched (y_d y))) eqn:Hl; cbn [negb]; [by apply claims_same|]. apply bool_decide_eq_false in Hl.
  cbn [y_setD y_w y_d]. rewrite Ei. destruct (negb (rv_running _) || _).
  - exists []. rewrite app_nil_r. split; [done|]. intros x. unfold lcount, y_setD, clearLaunched. cbn.
    destruct (decide (x ∈ launched (y_d y))); [|lia]. rewrite decide_True; [done|set_solver].
  - eexists. split; [reflexivity|]. intros x. unfold lcount, runs_of. cbn.
    destruct (decide (id = x)) as [->|Hne].
    + rewrite decide_False by done. rewrite decide_True by set_solver. cbn. lia.
    + cbn. destruct (decide (x ∈ launched (y_d y))); [|lia]. rewrite decide_True; [done|set_solver].
Qed.

Lemma claims_tick env y : claims y (tick env y).
Proof.
  unfold tick. generalize (snapshotOrder (y_d y)). intros l. revert y. induction l as [|id l IH]; intros y; [by apply claims_same|].
  cbn [foldl]. eapply claims_trans; [|apply IH]. clear IH. unfold tick_job. pose proof (claims_door y id (DAdvance (te_now env))) as H1.
  destruct (y_door y id _) as [y1 [e|]]; [exact H1|]. eapply claims_trans; [exact H1|].
  pose proof (claims_evict env y1 id) as H2. destruct (evictCancelledNeverRun env y1 id) as [y2 []]; [exact H2|]. eapply claims_trans; [exact H2|].
  pose proof (claims_reconcile env y2 id) as H3. destruct (reconcileResidency env y2 id) as [y3 []]; (eapply claims_trans; [exact H3|]).
  - apply claims_persist.
  - eapply claims_trans; [apply claims_launch|apply claims_persist].
Qed.

(** The calls the dispatcher takes between ticks. *)
Inductive disp_op : Type :=
| OpTick (env : tick_env)
| OpFinished (id : string) (expected : option nat) (o : Outcome) (now : Z)
| OpYielded (id : string) (expected : option nat)
| OpAdvanceFrom (id : string) (inst : nat) (from next : State) (now : Z)
| OpYieldedFrom (id : string) (inst : nat) (from : State) (now : Z).

Definition op_step (y : dsys) (op : disp_op) : dsys :=
  match op with
  | OpTick env => tick env y
  | OpFinished id expected o now => fst (finishedFor y id expected o now)
  | OpYielded id expected => fst (YieldedFor y id expected)
  | OpAdvanceFrom id inst from next now => fst (AdvanceFrom y id inst from next now)
  | OpYieldedFrom id inst from now => fst (YieldedFrom y id inst from now)
  end.

Definition is_report (id : string) (op : disp_op) : bool :=
  match op with
  | OpTick _ => false
  | OpFinished x _ _ _ | OpYielded x _ | OpAdvanceFrom x _ _ _ _ | OpYieldedFrom x _ _ _ => bool_decide (x = id)
  end.
Definition reports_for (id : string) (ops : list disp_op) : nat := length (base.filter (fun op => is_report id op = true) ops).

(** A report runs nothing and clears no other job's claim. *)
Lemma report_claims y op : (forall env, op <> OpTick env) ->
  y_runs (op_step y op) = y_runs y /\
  forall id, is_report id op = false -> lcount (op_step y op) id = lcount y id.
Proof.
  assert (forall y' x, launched (y_d y') = launched (y_d y) -> forall id, x <> id ->
    lcount (y_setD y' (clearLaunched (y_d y') x)) id = lcount y id) as Hc.
  { intros y' x E id Hne. unfold lcount. cbn. rewrite E. destruct (decide (id ∈ launched (y_d y))); [rewrite decide_True|rewrite decide_False]; set_solver. }
  assert (forall y' id, launched (y_d y') = launched (y_d y) -> lcount y' id = lcount y id) as Hs.
  { intros y' id E. unfold lcount. by rewrite E. }
  destruct op as [env|x ex o now|x ex|x inst from next now|x inst from now]; intros Hop; cbn [op_step is_report]; [by destruct (Hop env)| | | |].
  - unfold finishedFor. destruct (lookupFor _ _ _); [|done]. destruct (door_same y x (DSettle o now)) as [E1 E2].
    case_bool_decide; cbn [fst].
    + split; [done|]. intros id ?%bool_decide_eq_false. by apply Hc.
    + destruct (y_door y x _) as [y1 res]. cbn [fst] in *. split; [done|]. intros id ?%bool_decide_eq_false. by apply Hc.
  - unfold YieldedFor. destruct (lookupFor _ _ _); [|done]. destruct (door_same y x DPark) as [E1 E2].
    destruct (y_door y x _) as [y1 res]. cbn [fst] in *. split; [done|]. intros id ?%bool_decide_eq_false. by apply Hc.
  - unfold AdvanceFrom. case_bool_decide; [done|]. unfold handoff. destruct (lookupFor _ _ _); [|done]. destruct (w_jobs _ !! _); [|done].
    destruct (Handoff _ _ _ _) as [[[] err] st]; cbn [negb fst]; (split; [done|]); intros id ?%bool_decide_eq_false; [by apply Hc|by apply Hs].
  - unfold YieldedFrom, handoff. destruct (lookupFor _ _ _); [|done]. destruct (w_jobs _ !! _); [|done].
    destruct (Handoff _ _ _ _) as [[[] err] st]; cbn [negb fst]; (split; [done|]); intros id ?%bool_decide_eq_false; [by apply Hc|by apply Hs].
Qed.

(** what a tick leaves behind.  With every save and delete succeeding,
    each job the tick offered afterwards has a stored row that is exactly
    what the job and its entry now say, or was evicted and has neither entry
    nor row; every other job and row is as it was; and the dispatcher is
    again in a state a tick may start from, its jobs those of a history of
    the scheduler. *)
Theorem tick_persists a b m occs env y :
  ticking a b m occs y -> Z.of_nat m + 4 * Z.of_nat (length (snapshotOrder (y_d y))) < 2 ^ 64 - 1 ->
  (forall id, id ∈ snapshotOrder (y_d y) -> te_save env id = true /\ te_delete env id = true) ->
  ticking a b (m + 4 * length (snapshotOrder (y_d y))) occs (tick env y) /\
  (forall id, id ∈ snapshotOrder (y_d y) -> row_current env (tick env y) id) /\
  (forall id, id ∉ snapshotOrder (y_d y) -> same_job y (tick env y) id).
Proof.
  intros T Hm Hs. pose proof (so_reg _ (tk_sys _ _ _ _ _ T)) as [R1 R2 _ _ _ _]. cbn [s_d] in *.
  pose proof (dispatchOrder_perm (y_d y)) as Hp. apply tick_fold; [done| |done|].
  - apply NoDup_filter. by rewrite Hp.
  - intros id Hin. destruct (Hs id Hin). split_and!; try done. apply R2. rewrite <- Hp.
    by apply list_elem_of_filter in Hin as [_ Hin].
Qed.

(** one worker per claim.  Over any sequence of ticks and worker
    reports, a job is handed to the runner at most once more than it was
    reported on: a launched job stays claimed until a report for it, and a
    job already claimed at the start is not launched before one. *)
Theorem one_worker_per_report y ops :
  exists new, y_runs (foldl op_step y ops) = y_runs y ++ new /\
  forall id, (runs_of new id + lcount y id <= lcount (foldl op_step y ops) id + reports_for id ops)%nat.
Proof.
  revert y. induction ops as [|op ops IH]; intros y; cbn [foldl].
  { exists []. rewrite app_nil_r. split; [done|]. intros id. cbn. lia. }
  destruct (IH (op_step y op)) as (new & E & H).
  destruct op as [env|x ex o now|x ex|x inst from next now|x inst from now] eqn:Hop.
  { destruct (claims_tick env y) as (new1 & E1 & H1). exists (new1 ++ new). split; [by rewrite E; cbn [op_step]; rewrite E1, app_assoc|].
    intros id. specialize (H id). specialize (H1 id). rewrite runs_of_app. unfold reports_for in *.
    rewrite filter_cons_False by done. cbn [op_step] in *. lia. }
  all: rewrite <- Hop in *; destruct (report_claims y op) as [E1 H1]; [by intros env' ?; simplify_eq|]; exists new; split; [by rewrite E, E1|];
    intros id; specialize (H id); unfold reports_for in *; rewrite filter_cons; case_decide as Hr; cbn [length];
    [pose proof (lcount_le y id)|rewrite (H1 id) in H by (by destruct (is_report id op))]; lia.
Qed.

(** ** Witness: a stored job is ticked *)
Definition ex_reg : Dispatcher :=
  match register Registry.New "j1" 0 (j_name ex_job) (ex_header NormalPriority) seqNext with Ok (d, _) => d | Err _ => Registry.New end.
Definition ex_y : dsys :=
  mkDsys (markWritten ex_reg ex_row1) (mkWorld (Sched.New 1 1) (<["j1"%string := ex_job]> ∅)) (<["j1"%string := ex_row1]> ∅) [] [].
Definition ex_env : tick_env :=
  mkTickEnv 5 (fun _ => mkMeta None None "") (fun _ => true) (fun _ => true) (fun _ => HydrateOk).

Lemma ex_ticking : ticking 1 1 1 [] ex_y.
Proof.
  split.
  - assert (sys_reachable (mkSys (y_d ex_y) [] [] [] (y_store ex_y) None (∅ ∖ {["j1"%string]}))) as R.
    { destruct (register Registry.New "j1" 0 (j_name ex_job) (ex_header NormalPriority) seqNext) as [[d k]|e] eqn:E;
        [|vm_compute in E; discriminate E].
      assert (ex_reg = d) as Hd by (unfold ex_reg; rewrite E; reflexivity). unfold ex_y. cbn [y_d y_store]. rewrite Hd.
      eapply sys_next; [eapply sys_next; [eapply sys_next; [apply (sys_start ∅)|eapply st_register; exact E]|]|apply st_saved].
      apply st_check. rewrite <- Hd. vm_compute. reflexivity. }
    apply sys_reachable_ok in R. replace (∅ ∖ {["j1"%string]} : gset string) with (∅ : gset string) in R by set_solver. exact R.
  - exists 1%nat. split; [lia|]. eapply wr_step; [apply wr_init|].
    apply (ws_add (mkWorld (Sched.New 1 1) ∅) ex_job); [|reflexivity|reflexivity].
    by apply (jrun_reachable "j1" "name" (mkPolicy true true true true) 1 []).
  - intros id. cbn [ex_y y_d y_w w_jobs]. rewrite (proj1 (markWritten_fields ex_reg ex_row1)).
    destruct (decide (id = "j1"%string)) as [->|Hne]; [by split; intros _; vm_compute; eexists|]. rewrite lookup_insert_ne by done.
    assert (byID ex_reg !! id = None) as ->; [|by rewrite lookup_empty].
    assert (id ∉ dom (byID ex_reg)) as Hd; [|by apply not_elem_of_dom in Hd].
    assert (dom (byID ex_reg) = {["j1"%string]}) as ->; [|set_solver].
    apply (bool_decide_unpack _). vm_compute. reflexivity.
  - intros id p. cbn [ex_y y_d y_store]. intros H. change (written (markWritten ex_reg ex_row1)) with (<["j1"%string := ex_row1]> ∅ : gmap string Persisted) in H.
    exact H.
Qed.

Lemma tick_persists_witness :
  y_store ex_y !! "j1"%string = Some ex_row1 /\ row_current ex_env (tick ex_env ex_y) "j1" /\
  y_store (tick ex_env ex_y) !! "j1"%string <> Some ex_row1.
Proof.
  split; [reflexivity|]. split; [|vm_compute; intros H; discriminate H].
  assert (snapshotOrder (y_d ex_y) = ["j1"%string]) as E by (vm_compute; reflexivity).
  destruct (tick_persists 1 1 1 [] ex_env ex_y ex_ticking) as (_ & H & _).
  - rewrite E. vm_compute. reflexivity.
  - intros id _. split; reflexivity.
  - apply H. rewrite E. left.
Defined.
