(* ===== verification/Handlers.v ===== *)
(** * The dispatcher's own doors ([internal/dispatch: dispatch.go, registry.go])

    Each exported operation of a [Dispatcher] as a whole: its phases, the
    registry, the scheduler and the store together, read as if no other
    goroutine ran between its spans except where it waits, where anything may
    happen that the caller supplies.  How the spans interleave is
    [RegistryWorld]'s. *)
From stdpp Require Import base numbers gmap sorting list strings.
From Stdlib Require Import ZArith Lia.
From S2P Require Import Prelude Lifecycle Sched Registry RegistryProps RegistryWorld Tick Restore.
Local Open Scope Z_scope.

Inductive restorePhase : Type := phaseUnrestored | phaseRestoring | phaseRestored.
#[export] Instance restorePhase_eq_dec : EqDecision restorePhase.
Proof. solve_decision. Defined.

Inductive door_err : Type :=
| DoorNotFound
| DoorNotRestored
| DoorStopped
| DoorStarted
| DoorAlreadyRestored
| DoorRestoring
| DoorRegister (e : disp_err)
| DoorJob (e : job_err)
| DoorSched (e : sched_err)
| DoorReport (e : report_err)
| DoorUnwanted
| DoorPersist            (* the save failed *)
| DoorPreempted          (* the job was removed before its first write *)
| DoorWait               (* a wait ended with its context *)
| DoorDelete             (* the store's delete failed *)
| DoorLoad
| DoorHook.              (* [beforeFirstTick] failed *)

(** The dispatcher with its store and scheduler; what each job carries that
    its row records, its progress times and release reason; and whether the
    tick's wake and the owner's notification are pending. *)
Record disp : Type := mkDispatch {
  z_y : dsys;
  z_meta : gmap string job_meta;
  z_phase : restorePhase;
  z_started : bool;
  z_stopped : bool;
  z_wake : bool;
  z_notify : bool;
  z_inst : nat;             (* the next job object *)
}.

Definition z_d (z : disp) : Dispatcher := y_d (z_y z).
Definition z_w (z : disp) : World := y_w (z_y z).
Definition z_setY (z : disp) (y : dsys) : disp :=
  mkDispatch y (z_meta z) (z_phase z) (z_started z) (z_stopped z) (z_wake z) (z_notify z) (z_inst z).
Definition z_setD (z : disp) (d : Dispatcher) : disp := z_setY z (y_setD (z_y z) d).
Definition z_setQ (z : disp) (q : Queue) : disp := z_setY z (y_setW (z_y z) (mkWorld q (w_jobs (z_w z)))).
Definition z_setPhase (z : disp) (p : restorePhase) : disp :=
  mkDispatch (z_y z) (z_meta z) p (z_started z) (z_stopped z) (z_wake z) (z_notify z) (z_inst z).
Definition z_setRun (z : disp) (started stopped : bool) : disp :=
  mkDispatch (z_y z) (z_meta z) (z_phase z) started stopped (z_wake z) (z_notify z) (z_inst z).

Definition NewDispatcher (leaseCap slotCap : Z) (store : gmap string Persisted) : disp :=
  mkDispatch (mkDsys Registry.New (mkWorld (Sched.New leaseCap slotCap) ∅) store [] []) ∅ phaseUnrestored false false false false 0.

(** [kick]: both channels hold one signal at most. *)
Definition kick (z : disp) : disp :=
  mkDispatch (z_y z) (z_meta z) (z_phase z) (z_started z) (z_stopped z) true true (z_inst z).

Definition zero_meta : job_meta := mkMeta None None "".
Definition meta_of (z : disp) (id : string) : job_meta := default zero_meta (z_meta z !! id).

(** The answers of the store and of residency, and the clock. *)
Record answers : Type := mkAnswers {
  an_now : Z;
  an_save : string -> bool;
  an_delete : string -> bool;
  an_hydrate : string -> hydrated;
}.
Definition env_of (z : disp) (an : answers) : tick_env :=
  mkTickEnv (an_now an) (meta_of z) (an_save an) (an_delete an) (an_hydrate an).

Definition Tick (an : answers) (z : disp) : disp := z_setY z (tick (env_of z an) (z_y z)).

(** One turn of [run] that the wake or the ticker starts. *)
Definition run_turn (an : answers) (z : disp) : disp :=
  Tick an (mkDispatch (z_y z) (z_meta z) (z_phase z) (z_started z) (z_stopped z) false (z_notify z) (z_inst z)).

(** ** Cancel, pause and resume *)
Definition cancelFor (z : disp) (id : string) (expected : option nat) (now : Z) : disp * option door_err :=
  match lookupFor (z_d z) id expected with
  | None => (z, Some DoorNotFound)
  | Some _ =>
      let '(y, e) := y_door (z_y z) id (DCancel now) in
      match e with
      | Some e => (z_setY z y, Some (DoorSched e))
      | None => (kick (z_setY z y), None)
      end
  end.

Definition PauseAll (z : disp) : disp := kick (z_setQ z (Sched.Pause (w_q (z_w z)))).
Definition ResumeAll (z : disp) : disp := kick (z_setQ z (Sched.Resume (w_q (z_w z)))).
Definition SetCapsAll (z : disp) (leaseCap slotCap : Z) : disp := kick (z_setQ z (SetCaps (w_q (z_w z)) leaseCap slotCap)).

(** A call on the job registered under [id]. *)
Definition set_job (z : disp) (id : string) (j : Job) : disp :=
  z_setY z (y_setW (z_y z) (mkWorld (w_q (z_w z)) (<[id := j]> (w_jobs (z_w z))))).

Definition intent_call (z : disp) (id : string) (i : Intent) : disp * option door_err :=
  match w_jobs (z_w z) !! id with
  | None => (z, Some DoorNotFound)
  | Some j => match SetIntent j i with
              | Err e => (z, Some (DoorJob e))
              | Ok j => (set_job z id j, None)
              end
  end.

(** [YieldedFrom] with its kick, which follows every report that was taken. *)
Definition reported (z : disp) (r : dsys * option report_err) : disp * option report_err :=
  let '(y, e) := r in
  (if bool_decide (e = Some ReportNotFound \/ e = Some ErrStaleReport) then z_setY z y else kick (z_setY z y), e).

Definition yieldPaused (z : disp) (id : string) (inst : nat) (now : Z) : disp * option door_err :=
  let '(z, e) := reported z (YieldedFrom (z_y z) id inst Fetching now) in
  if bool_decide (e = None \/ e = Some ErrStaleReport) then (kick z, None)
  else (z, DoorReport <$> e).

Definition pauseJob (z : disp) (id : string) (inst : nat) (now : Z) : disp * option door_err :=
  let '(z, e) := intent_call z id IntentPause in
  match e with
  | Some e => (z, Some e)
  | None => yieldPaused z id inst now
  end.

Definition pauseFor (z : disp) (id : string) (expected : option nat) (now : Z) : disp * option door_err :=
  match lookupFor (z_d z) id expected with
  | None => (z, Some DoorNotFound)
  | Some e => pauseJob z id (e_j e) now
  end.

(** [resume]. *)
Definition resumeFor (z : disp) (id : string) (expected : option nat) (byUser : bool) : disp * option door_err :=
  match Registry.resume (z_d z) id expected byUser with
  | Err Registry.ErrNotFound => (z, Some DoorNotFound)
  | Err _ => (z, Some DoorUnwanted)
  | Ok d =>
      let '(z, e) := intent_call (z_setD z d) id IntentRun in
      match e with
      | Some e => (z, Some e)
      | None => (kick z, None)
      end
  end.

(** [BlockUnwanted]: whether the state moved, and the error. *)
Definition BlockUnwantedJob (z : disp) (id : string) (inst : nat) (pause : bool) (now : Z) : disp * (bool * option door_err) :=
  match Registry.BlockUnwanted (z_d z) id inst pause with
  | Err _ => (z, (false, Some DoorNotFound))
  | Ok (_, false) => (z, (false, None))
  | Ok (d, true) =>
      let z := z_setD z d in
      if pause then
        let '(z, e) := intent_call z id IntentPause in
        match e with
        | Some e => (kick z, (true, Some e))
        | None => let '(z, e) := yieldPaused z id inst now in (z, (true, e))
        end
      else (kick z, (true, None))
  end.

(** ** Adding a job *)

(** The registry, the scheduler's jobs and the latch without a job. *)
Definition drop_job (z : disp) (d : Dispatcher) (id : string) : disp :=
  let y := z_y z in
  mkDispatch (mkDsys (clearLaunched (deregister d id) id) (mkWorld (w_q (y_w y)) (base.delete id (w_jobs (y_w y)))) (y_store y) (y_runs y) (y_evicts y))
    (base.delete id (z_meta z)) (z_phase z) (z_started z) (z_stopped z) (z_wake z) (z_notify z) (z_inst z).

(** [register], with the job object it enters. *)
Definition enter_job (z : disp) (j : Job) (m : job_meta) (h : Header) (seq : Z) : result disp_err disp :=
  match register (z_d z) (j_id j) (z_inst z) (j_name j) h seq with
  | Err e => Err e
  | Ok (d, woken) =>
      let y := z_y z in
      let z := mkDispatch (mkDsys d (mkWorld (w_q (y_w y)) (<[j_id j := j]> (w_jobs (y_w y)))) (y_store y) (y_runs y) (y_evicts y))
                 (<[j_id j := m]> (z_meta z)) (z_phase z) (z_started z) (z_stopped z) (z_wake z) (z_notify z) (S (z_inst z)) in
      Ok (if woken : bool then kick z else z)
  end.

Definition Add (an : answers) (z : disp) (j : Job) (m : job_meta) (h : Header) : disp * option door_err :=
  if z_stopped z then (z, Some DoorStopped)
  else if negb (bool_decide (z_phase z = phaseRestored)) then (z, Some DoorNotRestored)
  else
    let h := if decide (h_Added h <= 0) then h_setAdded h (an_now an) else h in
    let j := SetAdded j (h_Added h) in
    match enter_job z j m h seqNext with
    | Err e => (z, Some (DoorRegister e))
    | Ok z =>
        let '(y, failed) := persistIfChanged (env_of z an) (z_y z) (j_id j) in
        let z := z_setY z y in
        let err := if failed : bool then Some DoorPersist
                   else match lastWritten (z_d z) (j_id j) with
                        | None => Some DoorPreempted
                        | Some _ => None
                        end in
        match err with
        | Some e =>
            (match beginRemoval (z_d z) (j_id j) with
             | Some d => drop_job z d (j_id j)
             | None => z
             end, Some e)
        | None => (kick z, None)
        end
    end.

(** ** Removing a job

    [wait] and [drain] are what the other goroutines do while the removal
    waits for the worker and for the occupiers; [token] is the caller's own
    occupancy, if its context carries one.  A wait that is not over then ends
    with its context. *)
Section remove.
Variable an : answers.
Variables wait drain : disp -> disp.

Definition live_drained (d : Dispatcher) (id : string) (token : option nat) : bool :=
  match token with
  | None => bool_decide (snd (waitLive d id) = None)
  | Some tok =>
      match snd (waitLiveExcept d id tok) with
      | ExceptDone => true
      | ExceptAll => bool_decide (snd (waitLive d id) = None)
      | ExceptWait _ => false
      end
  end.

(** The mark of this removal is taken off. *)
Definition aborted (z : disp) (id : string) (e : door_err) : disp * option door_err :=
  (z_setD z (removal_abort (z_d z) id), Some e).

(** The removal once the job is cancelled. *)
Definition removeCancelled (z : disp) (id : string) (expected : option nat) (token : option nat) : disp * option door_err :=
  let z := wait z in
  if bool_decide (id ∈ launched (z_d z)) then aborted z id DoorWait
  else
    let z := drain z in
    if negb (live_drained (z_d z) id token) then aborted z id DoorWait
    else
      let z := match lookupFor (z_d z) id expected with
               | Some _ => z_setY z (parkGrant (z_y z) id)
               | None => z
               end in
      if negb (an_delete an id) then aborted z id DoorDelete
      else
        let y := z_y z in
        let z := z_setY z (mkDsys (y_d y) (y_w y) (base.delete id (y_store y)) (y_runs y) (y_evicts y ++ [id])) in
        (kick (drop_job z (z_d z) id), None).

Definition removeFor (z : disp) (id : string) (expected : option nat) (token : option nat) : disp * option door_err :=
  match beginRemovalFor (z_d z) id expected with
  | None => (z, Some DoorNotFound)
  | Some d =>
      let '(z, e) := cancelFor (z_setD z d) id None (an_now an) in
      match e with
      | Some (DoorSched e) => aborted z id (DoorSched e)
      | _ => removeCancelled z id expected token
      end
  end.
End remove.

(** ** Restoring the queue *)
Definition persisted_le (a b : Persisted) : Prop :=
  p_SortKey a < p_SortKey b \/ p_SortKey a = p_SortKey b /\ String.leb (p_ID a) (p_ID b) = true.
#[export] Instance persisted_le_dec : RelDecision persisted_le.
Proof. intros a b. unfold persisted_le. apply _. Defined.

(** [restoreJobMetadata]: what a restored job carries; times not after 1970
    are none. *)
Definition restored_meta (p : Persisted) : job_meta :=
  mkMeta (if decide (0 < p_DownloadStarted p) then Some (p_DownloadStarted p) else None)
    (if decide (0 < p_DownloadFinished p) then Some (p_DownloadFinished p) else None) (p_Par2ReleaseReason p).

(** One row; a row that cannot be restored is logged and skipped. *)
Definition restore_row (now : Z) (z : disp) (p : Persisted) : disp :=
  let z := z_setD z (advanceSeqLocked (z_d z) (p_SortKey p)) in
  match reconstruct (p_ID p) (h_Name (p_Header p)) (p_Policy p) (p_State p) (p_Intent p) now now with
  | Err _ => z
  | Ok j =>
      match enter_job z (SetAdded j (h_Added (p_Header p))) (restored_meta p) (p_Header p) (p_SortKey p) with
      | Err _ => z
      | Ok z => z_setD z (markWritten (z_d z) p)
      end
  end.

(** [restore]; [loaded] is what the store's [Load] returns. *)
Definition restore (now : Z) (loaded : option (list Persisted)) (reuse : bool) (z : disp) : disp * option door_err :=
  if z_stopped z then (z, Some DoorStopped)
  else match z_phase z with
       | phaseRestored => (z, if reuse then None else Some DoorAlreadyRestored)
       | phaseRestoring => (z, Some DoorRestoring)
       | phaseUnrestored =>
           match loaded with
           | None => (z_setPhase z phaseUnrestored, Some DoorLoad)
           | Some rows => (z_setPhase (foldl (restore_row now) (z_setPhase z phaseRestoring) (merge_sort persisted_le rows)) phaseRestored, None)
           end
       end.

(** ** Start and stop

    [hook] is [beforeFirstTick] and what happens while it runs; the goroutine
    of [run] is one [run_turn] after another. *)
Definition StartWith (now : Z) (loaded : option (list Persisted)) (hook : disp -> disp * bool) (z : disp) : disp * option door_err :=
  if z_stopped z then (z, Some DoorStopped)
  else if z_started z then (z, Some DoorStarted)
  else
    let '(z, e) := restore now loaded true (z_setRun z true (z_stopped z)) in
    let '(z, e) := match e with
                   | Some e => (z, Some e)
                   | None => let '(z, ok) := hook z in (z, if ok then None else Some DoorHook)
                   end in
    match e with
    | Some e => (z_setRun z false (z_stopped z), Some e)
    | None => if z_stopped z then (z_setRun z false true, Some DoorStopped) else (z, None)
    end.

(** A job's part of [Stop]: [wait] and [drain] as in a removal. *)
Definition stop_job (an : answers) (wait drain : disp -> disp) (acc : disp * list door_err) (id : string) : disp * list door_err :=
  let '(z, errs) := acc in
  let z := wait z in
  if bool_decide (id ∈ launched (z_d z)) then (z, errs ++ [DoorWait])
  else
    let z := drain z in
    if negb (live_drained (z_d z) id None) then (z, errs ++ [DoorWait])
    else
      let '(y, pe) := y_door (z_y z) id DPark in
      let errs := match pe with Some e => errs ++ [DoorSched e] | None => errs end in
      let '(y, failed) := persistIfChanged (env_of z an) y id in
      let errs := if failed : bool then errs ++ [DoorPersist] else errs in
      let y := mkDsys (clearLaunched (markNotResident (y_d y) id) id) (y_w y) (y_store y) (y_runs y) (y_evicts y ++ [id]) in
      (z_setY z y, errs).

(** [Stop]'s single run, after the goroutine of [run] has ended. *)
Definition Stop (an : answers) (wait drain : disp -> disp) (z : disp) : disp * list door_err :=
  let z := z_setRun z false true in
  foldl (stop_job an wait drain) (z, []) (snapshotOrder (z_d z)).
