(* ===== verification/HandlersProps.v ===== *)
(** * Adding and removing a job, as whole operations

    What one call of [Handlers.Add] and [Handlers.removeFor] leaves of the
    registry, the store and the scheduler, errors included. *)
From stdpp Require Import base numbers gmap sorting list strings.
From Stdlib Require Import ZArith Lia.
From S2P Require Import Prelude Lifecycle Sched Registry RegistryProps RegistryWorld Tick Restore Handlers.
Local Open Scope Z_scope.

(** The dispatcher between its doors. *)
Record z_ok (z : disp) : Prop := {
  zo_reg : reg_ok (z_d z);
  zo_marks : forall id, 0 <= default 0 (removing (z_d z) !! id);
  zo_dom : forall id, is_Some (w_jobs (z_w z) !! id) <-> is_Some (byID (z_d z) !! id);
  zo_rows : forall id p, written (z_d z) !! id = Some p -> y_store (z_y z) !! id = Some p;
}.

(** Two dispatchers with the same jobs: entries, order, names, what is
    remembered of the rows, the rows, and the scheduler's jobs and pools. *)
Record same_jobs (z z' : disp) : Prop := {
  sj_byID : byID (z_d z') = byID (z_d z);
  sj_order : order (z_d z') = order (z_d z);
  sj_reserved : reservedNames (z_d z') = reservedNames (z_d z);
  sj_written : written (z_d z') = written (z_d z);
  sj_store : y_store (z_y z') = y_store (z_y z);
  sj_world : z_w z' = z_w z;
}.

Lemma same_jobs_refl z : same_jobs z z.
Proof. by split. Qed.

Lemma markWritten_ok d p : reg_ok d -> reg_ok (markWritten d p).
Proof.
  intros R. pose proof (markWritten_fields d p) as F. cbv zeta in F. destruct F as (F1 & F2 & F3 & F4 & _).
  eapply reg_ok_same; [exact R|done..|]. intros x H. unfold markWritten in H. case_bool_decide; [|by left].
  destruct (decide (x = p_ID p)) as [->|Hne]; [by right|left]. unfold mentioned in *. cbn in H. by rewrite lookup_insert_ne in H.
Qed.

(** ** Entering and dropping a job *)
Lemma enter_job_spec z j m h seq z' : reg_ok (z_d z) -> enter_job z j m h seq = Ok z' ->
  let id := j_id j in
  let sq := if bool_decide (seq = seqNext) then nextSeq (z_d z) else seq in
  reg_ok (z_d z') /\ byID (z_d z) !! id = None /\ default 0 (removing (z_d z) !! id) <= 0 /\
  byID (z_d z') = <[id := mkEntry (z_inst z) (h_setName h (j_name j)) sq]> (byID (z_d z)) /\
  order (z_d z') = order (z_d z) ++ [id] /\ nextSeq (z_d z') = Z.max (nextSeq (z_d z)) (sq + 1) /\
  reservedNames (z_d z') = reservedNames (z_d z) /\ removing (z_d z') = removing (z_d z) /\ launched (z_d z') = launched (z_d z) /\
  written (z_d z') = written (z_d z) /\ z_w z' = mkWorld (w_q (z_w z)) (<[id := j]> (w_jobs (z_w z))) /\
  y_store (z_y z') = y_store (z_y z) /\ z_meta z' = <[id := m]> (z_meta z) /\ z_phase z' = z_phase z /\
  z_started z' = z_started z /\ z_stopped z' = z_stopped z /\ y_runs (z_y z') = y_runs (z_y z) /\ resident (z_d z') = resident (z_d z) /\
  occupiers (z_d z') = occupiers (z_d z).
Proof.
  intros R. unfold enter_job. destruct (register _ _ _ _ _ _) as [[d woken]|e] eqn:E; [|done].
  intros [= <-]. destruct (register_ok _ _ _ _ _ _ _ _ R E) as (R' & Hnone & Hrm & Hb & Hr & Hl & Hw).
  assert (order d = order (z_d z) ++ [j_id j] /\ nextSeq d = Z.max (nextSeq (z_d z)) ((if bool_decide (seq = seqNext) then nextSeq (z_d z) else seq) + 1) /\
    reservedNames d = reservedNames (z_d z) /\ resident d = resident (z_d z) /\ occupiers d = occupiers (z_d z)) as (Ho & Hn & Hres & Hre & Hoc).
  { unfold register in E. repeat case_match; try done; injection E as <- _.
    all: unfold advanceSeqLocked; repeat case_match; cbn; split_and!; try done; lia. }
  cbv zeta. destruct woken; cbn; unfold z_d, z_w in *; cbn; split_and!; try done.
Qed.

Lemma beginRemoval_spec d id : is_Some (byID d !! id) -> beginRemoval d id = Some (beginRemovalLocked d id).
Proof. intros [e He]. unfold beginRemoval, beginRemovalFor, lookupFor. by rewrite He. Qed.

(** The order without the job entered last. *)
Lemma list_find_snoc (l : list string) id : id ∉ l -> list_find (fun x => x = id) (l ++ [id]) = Some (length l, id).
Proof.
  intros H. apply list_find_Some. split; [by rewrite lookup_app_r, Nat.sub_diag by lia|]. split; [done|].
  intros j y Hj Hlt ->. rewrite lookup_app_l in Hj by done. apply H. by eapply list_elem_of_lookup_2.
Qed.

Lemma delete_last {A} (l : list A) x : base.delete (length l) (l ++ [x]) = l.
Proof. induction l as [|y l IH]; [done|]. exact (f_equal (cons y) IH). Qed.

Lemma deregister_order d id l : order d = l ++ [id] -> id ∉ l -> order (deregister d id) = l.
Proof.
  intros E H. unfold deregister. cbv zeta. cbn [order set_byID set_written set_resident unmark set_removing set_occupiers
    set_occupancyTokens set_closed set_occupyDrained set_occupyStep]. rewrite E, list_find_snoc by done. cbn [order set_order].
  cbn [order set_byID set_written set_resident unmark set_removing set_occupiers
    set_occupancyTokens set_closed set_occupyDrained set_occupyStep]. apply delete_last.
Qed.
(* [deregister] is read through its lemmas from here on. *)
#[local] Opaque deregister.

Lemma drop_job_fields z d id : reg_ok d ->
  byID (z_d (drop_job z d id)) = base.delete id (byID d) /\ written (z_d (drop_job z d id)) = base.delete id (written d) /\
  reservedNames (z_d (drop_job z d id)) = reservedNames d /\ w_jobs (z_w (drop_job z d id)) = base.delete id (w_jobs (z_w z)) /\
  w_q (z_w (drop_job z d id)) = w_q (z_w z) /\ order (z_d (drop_job z d id)) = order (deregister d id) /\
  y_store (z_y (drop_job z d id)) = y_store (z_y z) /\ removing (z_d (drop_job z d id)) = removing (unmark d id) /\
  launched (z_d (drop_job z d id)) = launched d ∖ {[id]}.
Proof.
  intros R. destruct (deregister_fields d id R) as (E1 & E2 & E3 & E4 & _ & _ & _ & _ & _ & E10 & _).
  clear -E1 E2 E3 E4 E10. unfold drop_job. generalize dependent (deregister d id). intros dd E1 E2 E3 E4 E10.
  unfold z_d, z_w, clearLaunched, set_launched. cbn. rewrite E1, E2, E3, E4, E10. by split_and!.
Qed.

(** ** Adding *)

Lemma Add_cases an z j m h z' e :
  z_ok z -> Add an z j m h = (z', e) ->
  let id := j_id j in
  match e with
  | Some _ => same_jobs z z'
  | None =>
      exists ent j', byID (z_d z') = <[id := ent]> (byID (z_d z)) /\ byID (z_d z) !! id = None /\
      h_Name (e_h ent) = j_name j /\ e_seq ent = nextSeq (z_d z) /\ order (z_d z') = order (z_d z) ++ [id] /\
      z_w z' = mkWorld (w_q (z_w z)) (<[id := j']> (w_jobs (z_w z))) /\ j' = SetAdded j (h_Added (e_h ent)) /\
      y_store (z_y z') = <[id := row_of m id ent j']> (y_store (z_y z)) /\
      written (z_d z') !! id = Some (row_of m id ent j') /\ z_wake z' = true /\
      reg_ok (z_d z') /\ removing (z_d z') = removing (z_d z) /\ written (z_d z') = <[id := row_of m id ent j']> (written (z_d z)) /\
      z_meta z' = <[id := m]> (z_meta z) /\ nextSeq (z_d z') = Z.max (nextSeq (z_d z)) (nextSeq (z_d z) + 1)
  end.
Proof.
  intros Z. unfold Add. destruct (z_stopped z); [intros [= <- <-]; apply same_jobs_refl|].
  destruct (negb _); [intros [= <- <-]; apply same_jobs_refl|]. set (h' := if decide (h_Added h <= 0) then _ else h).
  set (j1 := SetAdded j (h_Added h')). destruct (enter_job z j1 m h' seqNext) as [z1|er] eqn:E; [|intros [= <- <-]; apply same_jobs_refl].
  destruct Z as [R Hm Hd Hrows]. destruct (enter_job_spec _ _ _ _ _ _ R E) as (R1 & Hnone & Hrm & Hb & Ho & Hn & Hrn & Hrem & Hl & Hw & Hwd & Hst & Hmeta & Hrest).
  change (j_id j1) with (j_id j) in *. set (id := j_id j) in *. rewrite bool_decide_eq_true_2 in * by done.
  set (ent := mkEntry (z_inst z) (h_setName h' (j_name j1)) (nextSeq (z_d z))) in *.
  assert (w_jobs (z_w z) !! id = None) as Hjn.
  { apply eq_None_not_Some. intros H%Hd. rewrite Hnone in H. by destruct H. }
  assert (written (z_d z) !! id = None) as Hwn.
  { apply eq_None_not_Some. intros H. assert (is_Some (byID (z_d z) !! id)) as [? H'] by (apply (ro_known _ R); right; by left). congruence. }
  unfold persistIfChanged. unfold z_d in Hb, Hw, Hrem. rewrite Hb, lookup_insert_eq. unfold z_w in Hwd. rewrite Hwd. cbn [w_jobs]. rewrite lookup_insert_eq.
  cbn [te_meta env_of]. unfold meta_of. rewrite Hmeta, lookup_insert_eq. change (default zero_meta (Some m)) with m. set (p := row_of m id ent j1).
  rewrite bool_decide_eq_false_2 by (unfold lastWritten; rewrite Hw; change (written (y_d (z_y z)) !! id <> Some p); unfold z_d in Hwn; congruence).
  assert (admitsLocked (y_d (z_y z1)) id = true) as Ha.
  { apply admits_spec. rewrite Hb, lookup_insert_eq. split; [by eexists|]. rewrite Hrem. specialize (Hm id). unfold z_d in Hrm, Hm. lia. }
  rewrite Ha. cbn [negb te_save env_of]. destruct (an_save an id).
  - assert (lastWritten (markWritten (y_d (z_y z1)) p) id = Some p) as Hlast.
    { unfold lastWritten, markWritten. change (p_ID p) with id. rewrite Hb, lookup_insert_eq, bool_decide_eq_true_2 by (by eexists). cbn. by rewrite lookup_insert_eq. }
    unfold z_d, z_w, z_setY in *. cbn [z_y y_d]. rewrite Hlast. intros [= <- <-]. exists ent, j1. cbn.
    pose proof (markWritten_fields (y_d (z_y z1)) p) as F. cbv zeta in F. destruct F as (F1 & F2 & _ & F4 & F5 & _).
    assert (written (markWritten (y_d (z_y z1)) p) = <[id := p]> (written (y_d (z_y z)))) as Hwr.
    { unfold markWritten. change (p_ID p) with id. rewrite bool_decide_eq_true_2 by (rewrite Hb, lookup_insert_eq; by eexists). cbn. by rewrite Hw. }
    split_and!; try done; [by rewrite F1, Hb|rewrite F2; exact Ho|by rewrite Hst|..].
    all: rewrite ?Hwr, ?lookup_insert_eq, ?F5, ?F4; try done. by apply markWritten_ok.
  - unfold z_setY. cbn [z_d z_y y_d]. rewrite beginRemoval_spec by (unfold z_d; cbn; rewrite Hb, lookup_insert_eq; by eexists).
    intros [= <- <-]. set (d1 := beginRemovalLocked _ id). assert (reg_ok d1) as R2 by (apply begin_reg_ok; exact R1).
    match goal with |- same_jobs z (drop_job ?zz d1 id) => destruct (drop_job_fields zz d1 id R2) as (F1 & F2 & F3 & F4 & F5 & F6 & F7 & _) end.
    split.
    + rewrite F1. change (byID d1) with (byID (y_d (z_y z1))). rewrite Hb. by rewrite delete_insert_id.
    + rewrite F6. apply deregister_order; [exact Ho|]. intros Hin%(ro_dom _ R). rewrite Hnone in Hin. by destruct Hin.
    + rewrite F3. exact Hrn.
    + rewrite F2. change (written d1) with (written (y_d (z_y z1))). rewrite Hw. by apply delete_id.
    + rewrite F7. exact Hst.
    + unfold z_w in *. cbn in F4, F5. rewrite Hwd in F4, F5. cbn in F4, F5.
      rewrite delete_insert_id in F4 by done. destruct (y_w (z_y z)) as [q jobs]. cbn in F4, F5. cbn. by rewrite Hwd; cbn; rewrite delete_insert_id.
Qed.

(** C5: adding a job is all or nothing.  Where [Add] returns an error, the
    dispatcher's jobs, their order, its rows and the scheduler are as they
    were; where it returns none, the job is registered behind the others
    under its own name, its row is stored and is exactly what the job and its
    entry say, and the tick is woken. *)
Theorem Add_all_or_nothing an z j m h z' e :
  z_ok z -> Add an z j m h = (z', e) ->
  let id := j_id j in
  match e with
  | Some _ => same_jobs z z'
  | None =>
      exists ent j', byID (z_d z') = <[id := ent]> (byID (z_d z)) /\ byID (z_d z) !! id = None /\
      h_Name (e_h ent) = j_name j /\ e_seq ent = nextSeq (z_d z) /\ order (z_d z') = order (z_d z) ++ [id] /\
      z_w z' = mkWorld (w_q (z_w z)) (<[id := j']> (w_jobs (z_w z))) /\ j' = SetAdded j (h_Added (e_h ent)) /\
      y_store (z_y z') = <[id := row_of m id ent j']> (y_store (z_y z)) /\
      written (z_d z') !! id = Some (row_of m id ent j') /\ z_wake z' = true
  end.
Proof.
  intros Z E. pose proof (Add_cases an z j m h z' e Z E) as H. cbv zeta in *. destruct e; [done|].
  destruct H as (ent & j' & H). exists ent, j'. naive_solver.
Qed.

(** ** Removing *)
Definition keeps_registry (f : disp -> disp) : Prop := forall z, reg_ok (z_d z) -> reg_ok (z_d (f z)).

(** Nothing in the dispatcher names the job any more. *)
Record forgotten (z : disp) (id : string) : Prop := {
  fg_entry : byID (z_d z) !! id = None;
  fg_job : w_jobs (z_w z) !! id = None;
  fg_store : y_store (z_y z) !! id = None;
  fg_launched : id ∉ launched (z_d z);
  fg_mentioned : ~ mentioned (z_d z) id;
  fg_order : id ∉ order (z_d z);
  fg_meta : z_meta z !! id = None;
}.

Lemma y_door_d y id dr : y_d (fst (y_door y id dr)) = y_d y.
Proof. unfold y_door. destruct (w_jobs (y_w y) !! id); [|done]. by destruct (wdoor _ _ _ _). Qed.

Lemma cancelFor_registry z id expected now : z_d (fst (cancelFor z id expected now)) = z_d z.
Proof.
  unfold cancelFor. destruct (lookupFor _ _ _); [|done]. pose proof (y_door_d (z_y z) id (DCancel now)) as H.
  destruct (y_door _ _ _) as [y [er|]]; exact H.
Qed.

Lemma unmark_reg_ok d id : reg_ok d -> reg_ok (unmark d id).
Proof. intros R. eapply reg_ok_same; [exact R|done..|]. intros x H. by left. Qed.

Lemma clearLaunched_reg_ok d id : reg_ok d -> reg_ok (clearLaunched d id).
Proof. intros R. eapply reg_ok_same; [exact R|done..|]. intros x H. by left. Qed.
Lemma drop_job_d z d id : z_d (drop_job z d id) = clearLaunched (deregister d id) id.
Proof. unfold drop_job. cbv zeta. unfold z_d. cbn [z_y y_d]. reflexivity. Qed.
Lemma drop_job_meta z d id : z_meta (drop_job z d id) !! id = None.
Proof. unfold drop_job. cbv zeta. cbn [z_meta]. apply lookup_delete_eq. Qed.

(** The state a removal drops its job from. *)
Lemma drop_reg_ok z id : reg_ok (z_d z) -> reg_ok (z_d (drop_job z (z_d z) id)).
Proof. intros R. pose proof (deregister_ok (z_d z) id R). rewrite drop_job_d. by apply clearLaunched_reg_ok. Qed.
Lemma drop_entry z id : reg_ok (z_d z) -> byID (z_d (drop_job z (z_d z) id)) !! id = None.
Proof. intros R. destruct (drop_job_fields z (z_d z) id R) as (G1 & _). rewrite G1. apply lookup_delete_eq. Qed.
Lemma drop_world z id : reg_ok (z_d z) -> w_jobs (z_w (drop_job z (z_d z) id)) !! id = None.
Proof. intros R. destruct (drop_job_fields z (z_d z) id R) as (_ & _ & _ & G4 & _). rewrite G4. apply lookup_delete_eq. Qed.
Lemma drop_store z id : reg_ok (z_d z) -> y_store (z_y (drop_job z (z_d z) id)) = y_store (z_y z).
Proof. intros R. by destruct (drop_job_fields z (z_d z) id R) as (_ & _ & _ & _ & _ & _ & G7 & _). Qed.
Lemma drop_launched z id : reg_ok (z_d z) -> id ∉ launched (z_d (drop_job z (z_d z) id)).
Proof. intros R. destruct (drop_job_fields z (z_d z) id R) as (_ & _ & _ & _ & _ & _ & _ & _ & G9). rewrite G9. set_solver. Qed.
Lemma drop_order z id : reg_ok (z_d z) -> id ∉ order (z_d (drop_job z (z_d z) id)).
Proof. intros R H%(ro_dom _ (drop_reg_ok z id R)). rewrite drop_entry in H by done. by destruct H. Qed.
Lemma drop_mentioned z id : reg_ok (z_d z) -> ~ mentioned (z_d (drop_job z (z_d z) id)) id.
Proof. intros R H%(ro_known _ (drop_reg_ok z id R)). rewrite drop_entry in H by done. by destruct H. Qed.

Lemma drop_forgets z id : reg_ok (z_d z) -> y_store (z_y z) !! id = None -> forgotten (drop_job z (z_d z) id) id.
Proof.
  intros R Hst. apply Build_forgotten; [by apply drop_entry|by apply drop_world| |by apply drop_launched|by apply drop_mentioned|by apply drop_order|apply drop_job_meta].
  rewrite drop_store by done. exact Hst.
Qed.

Lemma kick_forgotten z id : forgotten z id -> forgotten (kick z) id.
Proof. by intros []. Qed.

(** How a removal ends. *)
Definition removal_end (z z' : disp) (id : string) (e : option door_err) : Prop :=
  reg_ok (z_d z') /\
  match e with
  | None => forgotten z' id /\ z_wake z' = true
  | Some DoorNotFound => z' = z
  | Some _ => True
  end.

Lemma aborted_end z0 z id e : reg_ok (z_d z) -> e <> DoorNotFound -> removal_end z0 (fst (aborted z id e)) id (snd (aborted z id e)).
Proof. intros R Hne. split; [by apply (unmark_reg_ok (z_d z) id)|by destruct e]. Qed.

Lemma removeCancelled_end an wait drain z0 z id expected token : reg_ok (z_d z) -> keeps_registry wait -> keeps_registry drain ->
  removal_end z0 (fst (removeCancelled an wait drain z id expected token)) id (snd (removeCancelled an wait drain z id expected token)).
Proof.
  intros R Hw Hd. apply Hw in R. unfold removeCancelled. cbv zeta. case_bool_decide; [by apply aborted_end|].
  apply Hd in R. destruct (negb (live_drained _ _ _)); [by apply aborted_end|].
  set (z1 := match lookupFor _ _ _ with Some _ => _ | None => _ end).
  assert (z_d z1 = z_d (drain (wait z))) as E1 by (subst z1; destruct (lookupFor _ _ _); [apply y_door_d|done]).
  rewrite <- E1 in R. clearbody z1. destruct (negb (an_delete an id)); [by apply aborted_end|].
  set (z2 := z_setY z1 _). assert (y_store (z_y z2) !! id = None) as Hst by apply lookup_delete_eq.
  change (reg_ok (z_d z2)) in R. clearbody z2.
  cbv iota. cbn [fst snd]. exact (conj (drop_reg_ok z2 id R) (conj (kick_forgotten _ _ (drop_forgets z2 id R Hst)) eq_refl)).
Qed.

(** removing a job is final.  Whatever other goroutines do to the
    dispatcher while the removal waits for the job's worker and occupiers, as
    long as its registry stays well-formed, a removal that reports no error
    leaves nothing of the job: no entry, place in the queue, row, worker,
    name of a map, or scheduler job; and a removal that reports one leaves a
    well-formed registry, the one it found where the job is not the expected
    one. *)
Theorem removeFor_forgets an wait drain z id expected token z' e :
  reg_ok (z_d z) -> keeps_registry wait -> keeps_registry drain ->
  removeFor an wait drain z id expected token = (z', e) -> removal_end z z' id e.
Proof.
  intros R Hw Hd. unfold removeFor. destruct (beginRemovalFor _ _ _) as [d|] eqn:Eb; [|by intros [= <- <-]].
  assert (reg_ok d) as R1 by (unfold beginRemovalFor in Eb; case_match; simplify_eq; by apply begin_reg_ok).
  pose proof (cancelFor_registry (z_setD z d) id None (an_now an)) as Hc. destruct (cancelFor _ _ _ _) as [z1 e1]. cbn [fst] in Hc.
  change (z_d (z_setD z d)) with d in Hc. assert (reg_ok (z_d z1)) as R2 by (by rewrite Hc).
  pose proof (removeCancelled_end an wait drain z z1 id expected token R2 Hw Hd) as Hmain.
  assert (forall er, er <> DoorNotFound -> aborted z1 id er = (z', e) -> removal_end z z' id e) as Habort.
  { intros er Hne E. pose proof (aborted_end z z1 id er R2 Hne) as H. by rewrite E in H. }
  destruct (removeCancelled _ _ _ z1 _ _ _) as [z2 e2]. cbn in Hmain.
  destruct e1 as [[]|]; try (by intros [= <- <-]); by apply Habort.
Qed.
