(* ===== verification/Restart.v ===== *)
(** * A restart keeps the queue

    The rows [Add] writes, loaded in any order by [Handlers.restore] into a new
    dispatcher, give the queue back. *)
From stdpp Require Import base numbers gmap sorting list strings relations.
From Stdlib Require Import ZArith Lia.
From S2P Require Import Prelude Lifecycle Sched Registry RegistryProps RegistryWorld Tick Restore Handlers HandlersProps.
Local Open Scope Z_scope.

(** ** Restart *)
#[export] Instance persisted_le_trans : Transitive persisted_le.
Proof.
  intros a b c. unfold persisted_le. intros [H|[H L]] [H'|[H' L']]; [left; lia|left; lia|left; lia|]. right. split; [lia|].
  apply Is_true_true in L, L'. apply Is_true_true. exact (transitivity (R := String.le) L L').
Qed.
#[export] Instance persisted_le_total : Total persisted_le.
Proof.
  intros a b. unfold persisted_le. destruct (Z.lt_trichotomy (p_SortKey a) (p_SortKey b)) as [H|[H|H]]; [left; by left| |right; by left].
  destruct (String.leb_total (p_ID a) (p_ID b)); [left|right]; right; split; congruence.
Qed.

(** Two jobs a restart does not tell apart. *)
Record same_progress (j j' : Job) : Prop := {
  sp_id : j_id j' = j_id j;
  sp_name : j_name j' = j_name j;
  sp_policy : j_policy j' = j_policy j;
  sp_state : Job_State j' = Job_State j;
  sp_intent : j_intent j' = j_intent j;
  sp_lease : j_lease j' = None;
}.

(** What a job carries is either absent or after 1970. *)
Definition meta_dated (m : job_meta) : Prop :=
  (forall t, jm_started m = Some t -> 0 < t) /\ (forall t, jm_finished m = Some t -> 0 < t).

(** Every registered job is stored as it stands, nothing else is stored, and
    the queue is in the order its positions were given out. *)
Record persisted_queue (z : disp) : Prop := {
  pq_rows : forall id e, byID (z_d z) !! id = Some e -> exists j, w_jobs (z_w z) !! id = Some j /\ reachable j /\ j_id j = id /\
    j_name j = h_Name (e_h e) /\ y_store (z_y z) !! id = Some (row_of (meta_of z id) id e j) /\ meta_dated (meta_of z id);
  pq_dom : forall id, is_Some (y_store (z_y z) !! id) -> is_Some (byID (z_d z) !! id);
  pq_seqs : StronglySorted Z.lt (sortKeyOf (z_d z) <$> order (z_d z));
  pq_next : 0 <= nextSeq (z_d z);
  pq_pos : forall id e, byID (z_d z) !! id = Some e -> 0 <= e_seq e;
}.

Lemma row_of_roundtrip m id e j e' j' : meta_dated m -> e_h e' = e_h e -> e_seq e' = e_seq e -> same_progress j j' ->
  meta_dated (restored_meta (row_of m id e j)) /\ row_of (restored_meta (row_of m id e j)) id e' j' = row_of m id e j.
Proof.
  intros [M1 M2] Hh Hs [_ _ Hp Hv Hi _]. unfold row_of, restored_meta. cbn. rewrite Hh, Hs, Hp, Hv, Hi.
  set (b := negb (bool_decide (v_state (Job_State j) = Fetching)) || negb (bool_decide (v_next (Job_State j) = StateUnset))). split.
  - split; cbn; intros t; case_decide; intros [= <-]; done.
  - f_equal.
    + destruct (jm_started m) as [t|] eqn:E; cbn; [|done]. specialize (M1 _ eq_refl). by rewrite decide_True.
    + destruct (jm_finished m) as [t|] eqn:E; cbn; [|by destruct b]. specialize (M2 _ eq_refl).
      destruct b; [by rewrite decide_True|done].
Qed.

Lemma admitName_free d id name : is_component name = true -> reservedNames d = ∅ ->
  (forall id' e, byID d !! id' = Some e -> h_Name (e_h e) = name -> id' = id) -> admitNameLocked d id name = None.
Proof.
  intros Hc Hr Hu. unfold admitNameLocked, nameHolderLocked. rewrite Hc, Hr. cbn [negb].
  destruct (existsb _ (map_to_list (byID d))) eqn:E; [|by rewrite lookup_empty].
  apply existsb_exists in E as ([id' e] & Hin & Hb). apply andb_true_iff in Hb as [Hb1 Hb2]. cbn in *.
  apply bool_decide_eq_true in Hb2. apply list_elem_of_In, elem_of_map_to_list in Hin.
  specialize (Hu _ _ Hin Hb2). subst. by rewrite bool_decide_eq_true_2 in Hb1.
Qed.

(** The doors the replay needs are open to every reachable job. *)
Lemma reconstruct_returns j now : reachable j ->
  exists j', reconstruct (j_id j) (j_name j) (j_policy j) (Job_State j) (j_intent j) now now = Ok j' /\ same_progress j j' /\ reachable j'.
Proof.
  intros Hr. pose proof (wf_reachable _ Hr) as W.
  assert (exists j', reconstruct (j_id j) (j_name j) (j_policy j) (Job_State j) (j_intent j) now now = Ok j' /\ same_progress j j') as (j' & E & H).
  { destruct (currentLocked j) as [a|] eqn:Hc.
    - assert (Job_State j = view a) as Hv by (unfold Job_State; by rewrite Hc). rewrite Hv.
      destruct (reconstruct_attempt (j_id j) (j_name j) (j_policy j) (j_intent j) now now a) as (a' & -> & Hv');
        [by eapply wf_current|apply W|]. eexists. split; [reflexivity|]. by split; rewrite ?Hv.
    - assert (Job_State j = zeroView) as Hv by (unfold Job_State; by rewrite Hc). rewrite Hv. unfold reconstruct, SetIntent. simpl.
      rewrite (bool_decide_eq_true_2 (j_intent j ∈ AllIntents)) by apply W. eexists. split; [reflexivity|]. by split; rewrite ?Hv. }
  exists j'. split; [done|]. split; [done|]. by eapply reconstruct_sound in E as [? _].
Qed.

(** A dispatcher that is being restored. *)
Record restoring (z : disp) : Prop := {
  rs_reg : reg_ok (z_d z);
  rs_removing : removing (z_d z) = ∅;
  rs_reserved : reservedNames (z_d z) = ∅;
  rs_next : 0 <= nextSeq (z_d z);
}.

(** The names of [z]'s jobs leave [name] to [id]. *)
Definition name_free (z : disp) (id name : string) : Prop :=
  forall id' e, byID (z_d z) !! id' = Some e -> h_Name (e_h e) = name -> id' = id.

Lemma h_setName_same h name : h_Name h = name -> h_setName h name = h.
Proof. intros <-. by destruct h. Qed.

Lemma advanceSeq_restoring z seq : restoring z -> restoring (z_setD z (advanceSeqLocked (z_d z) seq)).
Proof.
  intros [[R1 R2 R3 R4 R5 R6] R7 R8 R9]. split; try done; [|cbn; lia]. split; try done. intros id e H.
  destruct (R3 id e H) as (H1 & H2). split; [|done]. cbn. lia.
Qed.

Lemma enter_job_admitted z j m h seq : restoring z -> byID (z_d z) !! j_id j = None -> IsConcrete (h_Priority h) = true ->
  is_component (j_name j) = true -> name_free z (j_id j) (j_name j) -> exists z', enter_job z j m h seq = Ok z'.
Proof.
  intros [R1 R2 R3 _] Hn Hp Hc Hf. unfold enter_job, register, checkPriority. rewrite Hp. cbn [negb].
  rewrite bool_decide_eq_false_2 by (rewrite Hn; by intros [? ?]). rewrite R2, lookup_empty, bool_decide_eq_false_2 by (cbn; lia).
  cbv zeta. rewrite (admitName_free _ (j_id j) (h_Name (h_setName h (j_name j)))) by done. by eexists.
Qed.

(** A row of a job is replayed into a job the row describes. *)
Lemma restore_row_enters now z m id e j : restoring z -> byID (z_d z) !! id = None -> IsConcrete (h_Priority (e_h e)) = true ->
  is_component (h_Name (e_h e)) = true -> name_free z id (h_Name (e_h e)) -> 0 <= e_seq e -> reachable j -> j_id j = id ->
  j_name j = h_Name (e_h e) ->
  let p := row_of m id e j in let z' := restore_row now z p in
  restoring z' /\ order (z_d z') = order (z_d z) ++ [id] /\ z_meta z' = <[id := restored_meta p]> (z_meta z) /\
  written (z_d z') = <[id := p]> (written (z_d z)) /\ y_store (z_y z') = y_store (z_y z) /\ z_stopped z' = z_stopped z /\
  (exists e', byID (z_d z') = <[id := e']> (byID (z_d z)) /\ e_h e' = e_h e /\ e_seq e' = e_seq e) /\
  (exists j', w_jobs (z_w z') = <[id := j']> (w_jobs (z_w z)) /\ same_progress j j' /\ reachable j').
Proof.
  intros R Hn Hp Hc Hf Hpos Hr Hid Hname. cbv zeta. set (p := row_of m id e j). unfold restore_row.
  pose proof (advanceSeq_restoring z (p_SortKey p) R) as R1. set (z1 := z_setD z (advanceSeqLocked (z_d z) (p_SortKey p))) in *.
  destruct (reconstruct_returns j now Hr) as (j' & E & S & Hr'). subst id. rewrite Hname in E.
  change (p_ID p) with (j_id j). change (h_Name (p_Header p)) with (h_Name (e_h e)). change (p_Policy p) with (j_policy j).
  change (p_State p) with (Job_State j). change (p_Intent p) with (j_intent j). rewrite E.
  change (p_Header p) with (e_h e). set (j1 := SetAdded j' (h_Added (e_h e))).
  assert (j_id j1 = j_id j) as Hid by apply S. assert (j_name j1 = h_Name (e_h e)) as Hname1 by (rewrite <- Hname; apply S).
  destruct (enter_job_admitted z1 j1 (restored_meta p) (e_h e) (p_SortKey p)) as [z2 Ez]; try done;
    [by rewrite Hid|by rewrite Hname1|by rewrite Hid, Hname1|]. rewrite Ez.
  destruct (enter_job_spec _ _ _ _ _ _ (rs_reg _ R1) Ez) as (F1 & _ & _ & Fb & Fo & Fnx & Fn & Frm & _ & Fw & Fwd & Fst & Fm & Fph & Fs1 & Fs2 & _).
  rewrite Hid in *. rewrite bool_decide_eq_false_2 in Fb by (cbn; unfold seqNext; lia).
  rewrite Hname1, h_setName_same in Fb by done.
  pose proof (markWritten_fields (z_d z2) p) as G. cbv zeta in G. destruct G as (G1 & G2 & G3 & G4 & G5 & _ & _ & _ & _ & _ & _ & _ & _ & G6).
  assert (is_Some (byID (z_d z2) !! j_id j)) as Hin by (rewrite Fb, lookup_insert_eq; by eexists).
  assert (written (markWritten (z_d z2) p) = <[j_id j := p]> (written (z_d z2))) as Hw.
  { unfold markWritten. change (p_ID p) with (j_id j). by rewrite bool_decide_eq_true_2. }
  split_and!; try done.
  - split; cbn.
    + by apply markWritten_ok.
    + change (removing (markWritten (z_d z2) p) = ∅). rewrite G5, Frm. apply R1.
    + change (reservedNames (markWritten (z_d z2) p) = ∅). rewrite G3, Fn. apply R1.
    + change (0 <= nextSeq (markWritten (z_d z2) p)). rewrite G4, Fnx. pose proof (rs_next _ R1). lia.
  - change (order (markWritten (z_d z2) p) = order (z_d z) ++ [j_id j]). by rewrite G2.
  - change (written (markWritten (z_d z2) p) = <[j_id j := p]> (written (z_d z))). by rewrite Hw, Fw.
  - exists (mkEntry (z_inst z1) (e_h e) (p_SortKey p)). split; [|done].
    change (byID (markWritten (z_d z2) p) = <[j_id j := mkEntry (z_inst z1) (e_h e) (p_SortKey p)]> (byID (z_d z))). by rewrite G1, Fb.
  - exists j1. split; [change (w_jobs (z_w z2) = <[j_id j := j1]> (w_jobs (z_w z))); by rewrite Fwd|]. split; [by destruct S|].
    destruct Hr' as (a1 & a2 & a3 & a4 & Hs). exists a1, a2, a3, a4. eapply rtc_r; [exact Hs|]. apply js_setAdded.
Qed.

(** [id] is in the restored [z] as it is in [z0]. *)
Definition job_restored (z0 z : disp) (id : string) : Prop :=
  exists e e' j j', byID (z_d z0) !! id = Some e /\ byID (z_d z) !! id = Some e' /\ e_h e' = e_h e /\ e_seq e' = e_seq e /\
    w_jobs (z_w z0) !! id = Some j /\ w_jobs (z_w z) !! id = Some j' /\ same_progress j j' /\ reachable j' /\
    y_store (z_y z0) !! id = Some (row_of (meta_of z id) id e' j') /\ written (z_d z) !! id = Some (row_of (meta_of z id) id e' j') /\
    meta_dated (meta_of z id).

(** [z] is [z0] restored up to the jobs of [pre]. *)
Record restored_upto (z0 : disp) (pre : list string) (z : disp) : Prop := {
  ru_restoring : restoring z;
  ru_order : order (z_d z) = pre;
  ru_jobs : forall id, id ∈ pre -> job_restored z0 z id;
  ru_only : forall id, id ∉ pre -> byID (z_d z) !! id = None /\ w_jobs (z_w z) !! id = None /\ written (z_d z) !! id = None;
  ru_store : y_store (z_y z) = y_store (z_y z0);
}.

Definition rows_in (z0 : disp) (l : list string) : list Persisted := omap (fun id => y_store (z_y z0) !! id) l.

Lemma restore_step now z0 pre id z : z_ok z0 -> persisted_queue z0 -> is_Some (byID (z_d z0) !! id) -> id ∉ pre ->
  restored_upto z0 pre z -> exists p, y_store (z_y z0) !! id = Some p /\ restored_upto z0 (pre ++ [id]) (restore_row now z p).
Proof.
  intros Z Q [e He] Hnin [U1 U2 U3 U4 U5]. destruct (pq_rows _ Q _ _ He) as (j & Hj & Hr & Hid & Hname & Hp & Hm).
  exists (row_of (meta_of z0 id) id e j). split; [done|]. destruct (ro_entry _ (zo_reg _ Z) _ _ He) as (_ & Hprio & Hcomp).
  destruct (restore_row_enters now z (meta_of z0 id) id e j) as (F1 & F2 & F3 & F4 & F5 & _ & (e' & Fb & Fh & Fs) & (j' & Fw & Fsp & Fr));
    try done; [by apply U4| |by eapply pq_pos|].
  { intros id' e1 He1 Hn. destruct (decide (id' ∈ pre)) as [Hin|Hout]; [|apply U4 in Hout as [? _]; congruence].
    destruct (U3 _ Hin) as (e0 & e2 & _ & _ & H0 & H2 & Hh & _). assert (e2 = e1) as -> by congruence.
    eapply (ro_unique _ (zo_reg _ Z)); [exact H0|exact He|congruence]. }
  set (z' := restore_row _ _ _) in *. set (p := row_of (meta_of z0 id) id e j) in *.
  destruct (row_of_roundtrip (meta_of z0 id) id e j e' j' Hm Fh Fs Fsp) as [Hd Hrow].
  assert (meta_of z' id = restored_meta p) as Hmeta by (unfold meta_of; by rewrite F3, lookup_insert_eq).
  split; [done|by rewrite F2, U2| | |by rewrite F5].
  - intros x [Hx|Hx%list_elem_of_singleton]%elem_of_app.
    + assert (x <> id) as Hne by (intros ->; done).
      destruct (U3 _ Hx) as (e0 & e2 & j0 & j2 & H1 & H2 & H3 & H4 & H5 & H6 & H7 & H8 & H9 & H10 & H11).
      assert (meta_of z' x = meta_of z x) as Hmx by (unfold meta_of; by rewrite F3, lookup_insert_ne by done).
      exists e0, e2, j0, j2. rewrite Fb, Fw, F4, Hmx, !lookup_insert_ne by done. by split_and!.
    + subst x. exists e, e', j, j'. rewrite Fb, Fw, F4, Hmeta, !lookup_insert_eq. fold p in Hrow. rewrite Hrow. by split_and!.
  - intros x Hx. rewrite not_elem_of_app, list_elem_of_singleton in Hx. destruct Hx as [Hx Hne].
    rewrite Fb, Fw, F4, !lookup_insert_ne by done. by apply U4.
Qed.

Lemma restore_rows now z0 l : z_ok z0 -> persisted_queue z0 -> forall pre z, pre ++ l = order (z_d z0) -> restored_upto z0 pre z ->
  restored_upto z0 (order (z_d z0)) (foldl (restore_row now) z (rows_in z0 l)).
Proof.
  intros Z Q. induction l as [|id l IH]; intros pre z E U; [rewrite app_nil_r in E; by rewrite <- E|].
  pose proof (ro_nodup _ (zo_reg _ Z)) as Hnd. rewrite <- E in Hnd. apply NoDup_app in Hnd as (_ & Hnd & _).
  destruct (restore_step now z0 pre id z) as (p & Hp & U'); try done.
  - apply (ro_dom _ (zo_reg _ Z)). rewrite <- E. set_solver.
  - intros H. by apply (Hnd _ H), list_elem_of_here.
  - unfold rows_in. cbn [omap list_omap]. rewrite Hp. cbn [foldl]. apply (IH (pre ++ [id])); [by rewrite <- app_assoc|done].
Qed.

Lemma omap_lookup_keys (m : gmap string Persisted) l : (forall kv, kv ∈ l -> m !! fst kv = Some (snd kv)) ->
  omap (fun id => m !! id) l.*1 = l.*2.
Proof.
  induction l as [|[k v] l IH]; intros H; [done|]. cbn. pose proof (H (k, v) (list_elem_of_here _ _)) as Hk. cbn in Hk. rewrite Hk.
  f_equal. apply IH. intros kv Hkv. apply H. by apply list_elem_of_further.
Qed.

Lemma rows_in_perm z : z_ok z -> persisted_queue z -> rows_in z (order (z_d z)) ≡ₚ (map_to_list (y_store (z_y z))).*2.
Proof.
  intros Z Q. rewrite <- (omap_lookup_keys (y_store (z_y z))) by (intros [k v]; cbn; apply elem_of_map_to_list).
  unfold rows_in. apply omap_Permutation. apply NoDup_Permutation; [apply Z|apply NoDup_fst_map_to_list|]. intros id.
  rewrite (ro_dom _ (zo_reg _ Z)), list_elem_of_fmap. split.
  - intros [e He]. destruct (pq_rows _ Q _ _ He) as (j & _ & _ & _ & _ & Hp & _). eexists (id, _). split; [done|]. by apply elem_of_map_to_list.
  - intros ([k v] & -> & Hkv%elem_of_map_to_list). apply (pq_dom _ Q). by eexists.
Qed.

(** A job's row carries its key and its place in the queue. *)
Lemma stored_row z id p : persisted_queue z -> y_store (z_y z) !! id = Some p -> p_ID p = id /\ p_SortKey p = sortKeyOf (z_d z) id.
Proof.
  intros Q Hp. assert (is_Some (byID (z_d z) !! id)) as [e He] by (apply (pq_dom _ Q); by eexists).
  destruct (pq_rows _ Q _ _ He) as (j & _ & _ & _ & _ & Hp' & _). rewrite Hp in Hp'. injection Hp' as ->. unfold sortKeyOf. by rewrite He.
Qed.

Lemma rows_in_sorted z l : persisted_queue z -> StronglySorted Z.lt (sortKeyOf (z_d z) <$> l) -> StronglySorted persisted_le (rows_in z l).
Proof.
  intros Q. induction l as [|id l IH]; intros Hs; [constructor|]. cbn in Hs. inversion Hs as [|? ? Hs' Hf]; subst.
  unfold rows_in. cbn. destruct (y_store (z_y z) !! id) as [p|] eqn:Hp; [|by apply IH]. constructor; [by apply IH|].
  apply Forall_forall. intros q (x & Hx & Hq)%list_elem_of_omap. left.
  destruct (stored_row _ _ _ Q Hp) as [_ ->], (stored_row _ _ _ Q Hq) as [_ ->].
  rewrite Forall_forall in Hf. apply Hf. by apply list_elem_of_fmap_2.
Qed.

Lemma rows_sorted z rows : z_ok z -> persisted_queue z -> rows ≡ₚ (map_to_list (y_store (z_y z))).*2 ->
  merge_sort persisted_le rows = rows_in z (order (z_d z)).
Proof.
  intros Z Q Hp. assert (forall p, p ∈ (map_to_list (y_store (z_y z))).*2 -> y_store (z_y z) !! p_ID p = Some p) as Hrow.
  { intros p ([k v] & -> & Hkv%elem_of_map_to_list)%list_elem_of_fmap. cbn. by rewrite (proj1 (stored_row _ _ _ Q Hkv)). }
  assert (merge_sort persisted_le rows ≡ₚ (map_to_list (y_store (z_y z))).*2) as Hm by (by rewrite merge_sort_Permutation).
  apply (StronglySorted_unique_strong persisted_le).
  - intros p q Hin Hin' [H|[K H]] [H'|[K' H']]; try lia. rewrite Hm in Hin. rewrite rows_in_perm in Hin' by done.
    apply Hrow in Hin, Hin'. assert (p_ID p = p_ID q) as E by (by apply String.leb_antisym, H'). rewrite E in Hin. congruence.
  - apply StronglySorted_merge_sort; apply _.
  - apply rows_in_sorted; [done|apply Q].
  - by rewrite Hm, rows_in_perm.
Qed.

Lemma restored_upto_new z leaseCap slotCap : restored_upto z [] (z_setPhase (NewDispatcher leaseCap slotCap (y_store (z_y z))) phaseRestoring).
Proof. split; try done; [split; try done; apply New_ok|]. intros id H. by apply elem_of_nil in H. Qed.

Lemma restored_ok z z' : z_ok z -> persisted_queue z -> restored_upto z (order (z_d z)) z' -> z_ok z' /\ persisted_queue z'.
Proof.
  intros Z Q [[R1 R2 R3 R4] U2 U3 U4 U5].
  assert (forall id, is_Some (byID (z_d z') !! id) -> job_restored z z' id) as Hjob.
  { intros id [e He]. apply U3. destruct (decide (id ∈ order (z_d z))) as [|H]; [done|]. apply U4 in H as [? _]. congruence. }
  split; split; try done.
  - intros id. rewrite R2, lookup_empty. cbn. lia.
  - intros id. destruct (decide (id ∈ order (z_d z))) as [H|H].
    + destruct (U3 _ H) as (e & e' & j & j' & _ & E1 & _ & _ & _ & E2 & _). rewrite E1, E2. by split; eexists.
    + destruct (U4 _ H) as (-> & -> & _). split; by intros [? ?].
  - intros id p Hp. destruct (decide (id ∈ order (z_d z))) as [H|H].
    + destruct (U3 _ H) as (e & e' & j & j' & _ & _ & _ & _ & _ & _ & _ & _ & E1 & E2 & _). rewrite U5. congruence.
    + destruct (U4 _ H) as (_ & _ & E). congruence.
  - intros id e' He'. destruct (Hjob id) as (e & e1 & j & j' & He & E1 & Eh & Es & Hj & Hj' & S & Hr & Hp & _ & Hd); [by eexists|].
    assert (e1 = e') as -> by congruence. exists j'. destruct (pq_rows _ Q _ _ He) as (j0 & Hj0 & _ & Hid & Hname & _).
    assert (j0 = j) as -> by congruence. rewrite U5, Eh, (sp_id _ _ S), (sp_name _ _ S). by split_and!.
  - intros id. rewrite U5. intros H%(pq_dom _ Q)%(ro_dom _ (zo_reg _ Z)).
    destruct (U3 _ H) as (e & e' & _ & _ & _ & E1 & _). by eexists.
  - rewrite U2. replace (sortKeyOf (z_d z') <$> order (z_d z)) with (sortKeyOf (z_d z) <$> order (z_d z)); [apply Q|].
    apply list_fmap_ext. intros i id Hi%list_elem_of_lookup_2. destruct (U3 _ Hi) as (e & e' & _ & _ & E0 & E1 & _ & Es & _).
    unfold sortKeyOf. by rewrite E0, E1.
  - intros id e' He'. destruct (Hjob id) as (e & e1 & _ & _ & He & E1 & _ & Es & _); [by eexists|]. assert (e1 = e') as -> by congruence.
    rewrite Es. by eapply pq_pos.
Qed.

(** C4: a restart loses no job and no place in the queue.  From a queue
    whose rows are as its jobs are, whatever order the store's [Load] lists
    the rows in, [restore] into a new dispatcher succeeds and leaves the same
    jobs in the same queue order, each with its header, its position, its
    name, policy, intent and [StateView], and no lease; the rows are
    untouched, known as written, and again what the jobs say, so a second
    restart does the same. *)
Theorem queue_survives_restart z now rows leaseCap slotCap reuse :
  z_ok z -> persisted_queue z -> rows ≡ₚ (map_to_list (y_store (z_y z))).*2 ->
  exists z', restore now (Some rows) reuse (NewDispatcher leaseCap slotCap (y_store (z_y z))) = (z', None) /\
    z_phase z' = phaseRestored /\ order (z_d z') = order (z_d z) /\ y_store (z_y z') = y_store (z_y z) /\
    (forall id, id ∈ order (z_d z) -> job_restored z z' id) /\ z_ok z' /\ persisted_queue z'.
Proof.
  intros Z Q Hp. unfold restore. cbn [NewDispatcher z_stopped z_phase]. eexists. split; [reflexivity|].
  pose proof (restore_rows now z (order (z_d z)) Z Q [] _ eq_refl (restored_upto_new z leaseCap slotCap)) as U.
  rewrite <- (rows_sorted z rows) in U by done. pose proof (restored_ok _ _ Z Q U) as [Z' Q'].
  destruct U as [_ U2 U3 _ U5]. split_and!; try done; [by destruct Z'; split|by destruct Q'; split].
Qed.

(** ** The queue is persisted *)
Lemma new_persisted leaseCap slotCap : let z := NewDispatcher leaseCap slotCap ∅ in z_ok z /\ persisted_queue z.
Proof.
  cbv zeta. split; split; try done.
  - apply New_ok.
  - intros id. split; by intros [? ?].
  - by intros id [? ?].
  - constructor.
Qed.

Lemma StronglySorted_snoc (l : list Z) x : StronglySorted Z.lt l -> (forall y, y ∈ l -> y < x) -> StronglySorted Z.lt (l ++ [x]).
Proof.
  intros H1 H2. apply StronglySorted_app_2; [|done|by repeat constructor]. intros y1 y2 H ->%list_elem_of_singleton. by apply H2.
Qed.

(** [Add] keeps the queue persisted. *)
Lemma Add_keeps an z j m h z' : z_ok z -> persisted_queue z -> reachable j -> meta_dated m -> Add an z j m h = (z', None) ->
  z_ok z' /\ persisted_queue z'.
Proof.
  intros Z Q Hr Hm E. pose proof (Add_cases an z j m h z' None Z E) as H. cbv zeta in H.
  destruct H as (e & j' & Hb & Hn & Hname & Hseq & Ho & Hw & Hj' & Hst & _ & _ & Hreg & Hrm & Hwr & Hmeta & Hnx).
  set (id := j_id j) in *. assert (forall x, x <> id -> meta_of z' x = meta_of z x) as Hmx.
  { intros x Hx. unfold meta_of. by rewrite Hmeta, lookup_insert_ne. }
  assert (meta_of z' id = m) as Hmi by (unfold meta_of; by rewrite Hmeta, lookup_insert_eq).
  split; split; try done.
  - intros x. rewrite Hrm. apply (zo_marks _ Z).
  - intros x. rewrite Hb, Hw. cbn [w_jobs]. rewrite !lookup_insert_is_Some, (zo_dom _ Z). done.
  - intros x p. rewrite Hwr, Hst. destruct (decide (x = id)) as [->|Hx]; [by rewrite !lookup_insert_eq|].
    rewrite !lookup_insert_ne by done. apply (zo_rows _ Z).
  - intros x e1. rewrite Hb, Hst, Hw. cbn [w_jobs]. destruct (decide (x = id)) as [->|Hx].
    + rewrite !lookup_insert_eq. intros [= <-]. exists j'. rewrite Hmi. split_and!; try done; [|by rewrite Hj'|by rewrite Hj'].
      rewrite Hj'. destruct Hr as (a1 & a2 & a3 & a4 & Hs). exists a1, a2, a3, a4. eapply rtc_r; [exact Hs|]. apply js_setAdded.
    + rewrite !lookup_insert_ne, Hmx by done. apply (pq_rows _ Q).
  - intros x. rewrite Hb, Hst, !lookup_insert_is_Some. intros [->|[? ?%(pq_dom _ Q)]]; [by left|by right].
  - assert (forall x, x ∈ order (z_d z) -> sortKeyOf (z_d z') x = sortKeyOf (z_d z) x /\ sortKeyOf (z_d z) x < nextSeq (z_d z)) as Hk.
    { intros x Hx%(ro_dom _ (zo_reg _ Z)). unfold sortKeyOf. rewrite Hb. destruct (decide (x = id)) as [->|Hne]; [rewrite Hn in Hx; by destruct Hx|].
      rewrite lookup_insert_ne by done. destruct Hx as [e1 He1]. rewrite He1. split; [done|]. by apply (ro_entry _ (zo_reg _ Z) _ _ He1). }
    rewrite Ho, fmap_app. cbn. replace (sortKeyOf (z_d z') <$> order (z_d z)) with (sortKeyOf (z_d z) <$> order (z_d z)).
    + replace (sortKeyOf (z_d z') id) with (nextSeq (z_d z)) by (unfold sortKeyOf; by rewrite Hb, lookup_insert_eq).
      apply StronglySorted_snoc; [apply Q|]. intros y (x & -> & Hx)%list_elem_of_fmap. by apply Hk.
    + apply list_fmap_ext. intros i x Hi%list_elem_of_lookup_2. symmetry. by apply Hk.
  - rewrite Hnx. pose proof (pq_next _ Q). lia.
  - intros x e1. rewrite Hb. destruct (decide (x = id)) as [->|Hx]; [rewrite lookup_insert_eq; intros [= <-]; rewrite Hseq; apply (pq_next _ Q)|].
    rewrite lookup_insert_ne by done. apply (pq_pos _ Q).
Qed.


(** ** Witnesses: two jobs are added, stored, restored and removed *)
Definition ex_jobA : Job := Lifecycle.New "a" "first" (mkPolicy true true true true) 5.
Definition ex_jobB : Job :=
  match jrun (Lifecycle.New "b" "second" (mkPolicy true true true true) 6) ex_to_extracting with Ok j => j | Err _ => ex_jobA end.
Definition ex_metaB : job_meta := mkMeta (Some 7) (Some 9) "crc".
Definition ex_answers : answers := mkAnswers 11 (fun _ => true) (fun _ => true) (fun _ => HydrateOk).
Definition ex_restored : disp := fst (restore 1 (Some []) false (NewDispatcher 2 2 ∅)).
Definition ex_oneJob : disp := fst (Add ex_answers ex_restored ex_jobA zero_meta (ex_header NormalPriority)).
Definition ex_twoJobs : disp := fst (Add ex_answers ex_oneJob ex_jobB ex_metaB (ex_header HighPriority)).

Lemma ex_restored_ok : z_ok ex_restored /\ persisted_queue ex_restored.
Proof. destruct (new_persisted 2 2) as [[] []]. by split; split. Qed.

Lemma ex_oneJob_ok : z_ok ex_oneJob /\ persisted_queue ex_oneJob.
Proof.
  destruct ex_restored_ok as [H1 H2]. apply (Add_keeps ex_answers ex_restored ex_jobA zero_meta (ex_header NormalPriority)); [done..| |by split|].
  - exists "a"%string, "first"%string, (mkPolicy true true true true), 5. constructor.
  - vm_compute. reflexivity.
Qed.

Lemma ex_twoJobs_ok : z_ok ex_twoJobs /\ persisted_queue ex_twoJobs.
Proof.
  destruct ex_oneJob_ok as [H1 H2]. apply (Add_keeps ex_answers ex_oneJob ex_jobB ex_metaB (ex_header HighPriority)); [done..| | |].
  - apply (jrun_reachable "b" "second" (mkPolicy true true true true) 6 ex_to_extracting). reflexivity.
  - by split; cbn; intros t [= <-].
  - vm_compute. reflexivity.
Qed.

Lemma Add_all_or_nothing_witness :
  order (z_d ex_oneJob) = ["a"%string] /\ z_wake ex_oneJob = true /\
  same_jobs ex_oneJob (fst (Add ex_answers ex_oneJob ex_jobA zero_meta (ex_header NormalPriority))).
Proof.
  destruct (Add_all_or_nothing ex_answers ex_restored ex_jobA zero_meta (ex_header NormalPriority) ex_oneJob None) as (e & j' & H);
    [apply ex_restored_ok|vm_compute; reflexivity|].
  split; [etrans; [apply H|reflexivity]|]. split; [apply H|].
  apply (Add_all_or_nothing ex_answers ex_oneJob ex_jobA zero_meta (ex_header NormalPriority) _ (Some (DoorRegister ErrDuplicate)));
    [apply ex_oneJob_ok|vm_compute; reflexivity].
Defined.

Lemma queue_survives_restart_witness :
  exists z', restore 20 (Some (reverse (map_to_list (y_store (z_y ex_twoJobs))).*2)) false (NewDispatcher 1 1 (y_store (z_y ex_twoJobs))) = (z', None) /\
    order (z_d z') = ["a"; "b"]%string /\ job_restored ex_twoJobs z' "b".
Proof.
  destruct (queue_survives_restart ex_twoJobs 20 (reverse (map_to_list (y_store (z_y ex_twoJobs))).*2) 1 1 false) as (z' & E & _ & Ho & _ & Hj & _);
    [apply ex_twoJobs_ok..|apply reverse_Permutation|].
  exists z'. split; [exact E|]. split; [rewrite Ho; vm_compute; reflexivity|]. apply Hj.
  replace (order (z_d ex_twoJobs)) with ["a"; "b"]%string by (vm_compute; reflexivity). set_solver.
Defined.

Lemma removeFor_forgets_witness :
  let r := removeFor ex_answers (fun z => z) (fun z => z) ex_twoJobs "a" None None in
  snd r = None /\ forgotten (fst r) "a" /\ order (z_d (fst r)) = ["b"%string].
Proof.
  cbv zeta. split; [vm_compute; reflexivity|]. split; [|vm_compute; reflexivity].
  apply (removeFor_forgets ex_answers (fun z => z) (fun z => z) ex_twoJobs "a" None None _ None); [apply ex_twoJobs_ok|by intros z H..|].
  vm_compute. reflexivity.
Defined.
