(* ===== verification/Crc.v ===== *)
(** * CRC-32 combination ([internal/crc32util])

    A [uint32] is a [Z], a [32]-row GF(2) matrix is the list of its rows.  The
    reference is the checksum itself ([hash/crc32], reflected polynomial
    0xEDB88320), processed bit by bit. *)
From S2P Require Import Prelude.
From stdpp Require Import base list.
From Stdlib Require Import ZArith Lia.
Local Open Scope Z_scope.

Definition poly : Z := 0xEDB88320.
Definition ones32 : Z := 0xFFFFFFFF.

(** ** Matrices *)
Definition row (mat : list Z) (i : nat) : Z := nth i mat 0.

(** The loop of [gf2MatrixMul], [n] rows from [i] left. *)
Fixpoint mul_loop (n i : nat) (mat : list Z) (vec sum : Z) : Z :=
  match n with
  | O => sum
  | S n' =>
      if decide (vec = 0) then sum
      else mul_loop n' (S i) mat (Z.shiftr vec 1)
             (if Z.testbit vec 0 then Z.lxor sum (row mat i) else sum)
  end.

Definition gf2MatrixMul (mat : list Z) (vec : Z) : Z := mul_loop 32 0 mat vec 0.

Definition gf2MatrixSquare (src : list Z) : list Z :=
  (fun i => gf2MatrixMul src (row src i)) <$> seq 0 32.

(** The first pivot row at or below [col]. *)
Fixpoint find_pivot (n row0 : nat) (aug : list Z) (col : nat) : option nat :=
  match n with
  | O => None
  | S n' =>
      if Z.testbit (row aug row0) (Z.of_nat col) then Some row0
      else find_pivot n' (S row0) aug col
  end.

(** One column of the elimination: swap the pivot in and clear the column. *)
Definition eliminate (aug : list Z) (col : nat) : option (list Z) :=
  match find_pivot (32 - col) col aug col with
  | None => None
  | Some pivot =>
      let a := <[col := row aug pivot]> (<[pivot := row aug col]> aug) in
      Some (imap (fun r x =>
        if bool_decide (r <> col) && Z.testbit x (Z.of_nat col) then Z.lxor x (row a col) else x) a)
  end.

Fixpoint eliminate_all (cols : list nat) (aug : list Z) : option (list Z) :=
  match cols with
  | [] => Some aug
  | c :: cs =>
      match eliminate aug c with
      | None => None
      | Some aug' => eliminate_all cs aug'
      end
  end.

Definition gf2MatrixInvert (src : list Z) : list Z :=
  let aug := (fun i => Z.lor (row src i) (Z.shiftl 1 (32 + Z.of_nat i))) <$> seq 0 32 in
  match eliminate_all (seq 0 32) aug with
  | None => repeat 0 32
  | Some aug => (fun x => Z.shiftr x 32) <$> aug
  end.

(** The operator for one zero bit: [odd] in [Combine], [a] in [oneByteShift]. *)
Definition oneBitShift : list Z :=
  poly :: ((fun n => Z.shiftl 1 (Z.of_nat n)) <$> seq 0 31).

Definition oneByteShift : list Z :=
  gf2MatrixSquare (gf2MatrixSquare (gf2MatrixSquare oneBitShift)).

(** ** [applyShift] and [applyInverseShift]: square and multiply.  An [int64]
    takes at most 63 halvings. *)
Fixpoint shift_loop (fuel : nat) (p : list Z) (val n : Z) : Z :=
  match fuel with
  | O => val
  | S fuel' =>
      if decide (0 < n) then
        let val' := if Z.testbit n 0 then gf2MatrixMul p val else val in
        let n' := Z.shiftr n 1 in
        if decide (n' = 0) then val' else shift_loop fuel' (gf2MatrixSquare p) val' n'
      else val
  end.

Definition applyShift (val n : Z) : Z :=
  if decide (n <= 0) then val else shift_loop 64 oneByteShift val n.

Definition applyInverseShift (val n : Z) : Z :=
  if decide (n <= 0) then val else shift_loop 64 (gf2MatrixInvert oneByteShift) val n.

Definition crcOfZeros (n : Z) : Z :=
  if decide (n <= 0) then 0 else Z.lxor (applyShift ones32 n) ones32.

Definition ZeroUnpad (crc n : Z) : Z :=
  if decide (n <= 0) then crc else applyInverseShift (Z.lxor crc (crcOfZeros n)) n.

(** ** [Combine] *)
Fixpoint combine_loop (fuel : nat) (odd : list Z) (crc1 n : Z) : Z :=
  match fuel with
  | O => crc1
  | S fuel' =>
      let even := gf2MatrixSquare odd in
      let crc1 := if Z.testbit n 0 then gf2MatrixMul even crc1 else crc1 in
      let n := Z.shiftr n 1 in
      if decide (n = 0) then crc1
      else
        let odd := gf2MatrixSquare even in
        let crc1 := if Z.testbit n 0 then gf2MatrixMul odd crc1 else crc1 in
        let n := Z.shiftr n 1 in
        if decide (n = 0) then crc1 else combine_loop fuel' odd crc1 n
  end.

Definition Combine (crc1 crc2 len2 : Z) : Z :=
  if decide (len2 <= 0) then crc1
  else
    let even := gf2MatrixSquare oneBitShift in
    let odd := gf2MatrixSquare even in
    Z.lxor (combine_loop 32 odd crc1 len2) crc2.

(** ** The reference: [hash/crc32]'s IEEE checksum *)
Definition crc_bit (c : Z) : Z :=
  Z.lxor (Z.shiftr c 1) (if Z.testbit c 0 then poly else 0).

Definition crc_byte (c b : Z) : Z := Nat.iter 8 crc_bit (Z.lxor c b).

Definition crc_raw (c : Z) (bs : list Z) : Z := foldl crc_byte c bs.

Definition ChecksumIEEE (bs : list Z) : Z := Z.lxor (crc_raw ones32 bs) ones32.

Definition is_byte (b : Z) : Prop := 0 <= b < 256.
Definition is_u32 (x : Z) : Prop := 0 <= x < 2 ^ 32.

(** ** Linearity over GF(2) *)
Definition linear (f : Z -> Z) : Prop := forall x y, f (Z.lxor x y) = Z.lxor (f x) (f y).

(** [mat] is the matrix of [f]. *)
Definition represents (mat : list Z) (f : Z -> Z) : Prop :=
  linear f /\ forall i, (i < 32)%nat -> row mat i = f (2 ^ Z.of_nat i).

Example crc_check : ChecksumIEEE [49; 50; 51; 52; 53; 54; 55; 56; 57] = 0xCBF43926.
Proof. vm_compute. reflexivity. Qed.

(** ** Lemmas *)
Lemma linear_0 f : linear f -> f 0 = 0.
Proof. intros H. pose proof (H 0 0) as H0. rewrite Z.lxor_0_l in H0. by rewrite H0, Z.lxor_nilpotent. Qed.

Lemma linear_iter f n : linear f -> linear (Nat.iter n f).
Proof. intros H. induction n as [|n IH]; intros x y; [done|]. simpl. by rewrite IH, H. Qed.

Lemma lxor_bound k x y : 0 <= k -> 0 <= x < 2 ^ k -> 0 <= y < 2 ^ k -> 0 <= Z.lxor x y < 2 ^ k.
Proof.
  intros Hk Hx Hy. assert (Z.lxor x y = Z.lxor x y mod 2 ^ k) as ->.
  { apply Z.bits_inj'. intros i Hi. destruct (decide (i < k)).
    - by rewrite Z.mod_pow2_bits_low.
    - rewrite Z.mod_pow2_bits_high by lia. rewrite Z.lxor_spec.
      rewrite <- (Z.mod_small x (2 ^ k)), <- (Z.mod_small y (2 ^ k)) by done.
      by rewrite !Z.mod_pow2_bits_high by lia. }
  apply Z.mod_pos_bound. lia.
Qed.

(** A linear function is determined by its values on the basis. *)
Lemma linear_ext f g k v :
  linear f -> linear g -> (forall i, (i < k)%nat -> f (2 ^ Z.of_nat i) = g (2 ^ Z.of_nat i)) ->
  0 <= v < 2 ^ Z.of_nat k -> f v = g v.
Proof.
  intros Hf Hg. revert v. induction k as [|k IH]; intros v Hb Hv.
  { assert (v = 0) as -> by (simpl in Hv; lia). by rewrite !linear_0. }
  assert (v = Z.lxor (if Z.testbit v (Z.of_nat k) then 2 ^ Z.of_nat k else 0) (v mod 2 ^ Z.of_nat k)) as E.
  { apply Z.bits_inj'. intros i Hi. rewrite Z.lxor_spec.
    destruct (Z.lt_trichotomy i (Z.of_nat k)) as [H|[H|H]].
    - rewrite Z.mod_pow2_bits_low by done. destruct (Z.testbit v (Z.of_nat k)).
      + rewrite Z.pow2_bits_false by lia. by rewrite xorb_false_l.
      + rewrite Z.bits_0. by rewrite xorb_false_l.
    - subst i. rewrite Z.mod_pow2_bits_high by lia. rewrite xorb_false_r.
      destruct (Z.testbit v (Z.of_nat k)) eqn:Eb; [by rewrite Z.pow2_bits_true|by rewrite Z.bits_0].
    - rewrite Z.mod_pow2_bits_high by lia. rewrite xorb_false_r.
      rewrite <- (Z.mod_small v (2 ^ Z.of_nat (S k))) at 1 by done.
      rewrite Z.mod_pow2_bits_high by lia.
      destruct (Z.testbit v (Z.of_nat k)); [by rewrite Z.pow2_bits_false by lia|by rewrite Z.bits_0]. }
  rewrite E, Hf, Hg. f_equal.
  - destruct (Z.testbit v (Z.of_nat k)); [apply Hb; lia|]. by rewrite !linear_0.
  - apply IH; [intros; apply Hb; lia|]. apply Z.mod_pos_bound. lia.
Qed.

(** The matrix product, one bit at a time. *)
Fixpoint mulR (n i : nat) (mat : list Z) (v : Z) : Z :=
  match n with
  | O => 0
  | S n' => Z.lxor (if Z.testbit v 0 then row mat i else 0) (mulR n' (S i) mat (Z.shiftr v 1))
  end.

Lemma mulR_0 n i mat : mulR n i mat 0 = 0.
Proof. revert i. induction n as [|n IH]; intros i; simpl; [done|]. by rewrite IH. Qed.

Lemma mul_loop_mulR n i mat v s : mul_loop n i mat v s = Z.lxor s (mulR n i mat v).
Proof.
  revert i v s. induction n as [|n IH]; intros i v s; cbn [mul_loop mulR]; [by rewrite Z.lxor_0_r|].
  case_decide as Hv.
  - subst v. rewrite Z.bits_0. rewrite mulR_0. by rewrite !Z.lxor_0_r.
  - rewrite IH. destruct (Z.testbit v 0); [by rewrite Z.lxor_assoc|by rewrite Z.lxor_0_l].
Qed.

Lemma lxor_swap a b c d : Z.lxor (Z.lxor a b) (Z.lxor c d) = Z.lxor (Z.lxor a c) (Z.lxor b d).
Proof.
  rewrite !Z.lxor_assoc. f_equal. rewrite <- !Z.lxor_assoc. f_equal. apply Z.lxor_comm.
Qed.

Lemma mulR_linear n i mat : linear (mulR n i mat).
Proof.
  intros x y. revert i x y. induction n as [|n IH]; intros i x y; cbn [mulR]; [done|].
  rewrite Z.shiftr_lxor, IH, Z.lxor_spec, lxor_swap. f_equal.
  destruct (Z.testbit x 0), (Z.testbit y 0); simpl;
    by rewrite ?Z.lxor_nilpotent, ?Z.lxor_0_l, ?Z.lxor_0_r.
Qed.

Lemma gf2MatrixMul_mulR mat : forall v, gf2MatrixMul mat v = mulR 32 0 mat v.
Proof. intros v. unfold gf2MatrixMul. by rewrite mul_loop_mulR, Z.lxor_0_l. Qed.

Lemma mulR_basis n i mat k : (k < n)%nat -> mulR n i mat (2 ^ Z.of_nat k) = row mat (i + k).
Proof.
  revert i k. induction n as [|n IH]; intros i [|k] Hk; try lia; cbn [mulR].
  - change (Z.testbit (2 ^ Z.of_nat 0) 0) with true. change (Z.shiftr (2 ^ Z.of_nat 0) 1) with 0.
    cbn iota. by rewrite mulR_0, Z.lxor_0_r, Nat.add_0_r.
  - rewrite Z.pow2_bits_false by lia. rewrite Z.lxor_0_l.
    rewrite Z.shiftr_div_pow2 by lia. replace (2 ^ Z.of_nat (S k) / 2 ^ 1) with (2 ^ Z.of_nat k).
    + rewrite IH by lia. f_equal. lia.
    + rewrite Nat2Z.inj_succ, Z.pow_succ_r by lia. change (2 ^ 1) with 2.
      rewrite Z.mul_comm, Z.div_mul; lia.
Qed.

Lemma gf2MatrixMul_linear mat : linear (gf2MatrixMul mat).
Proof. intros x y. rewrite !gf2MatrixMul_mulR. apply mulR_linear. Qed.

(** Multiplying by the matrix of [f] is [f]. *)
Lemma gf2MatrixMul_spec mat f v : represents mat f -> is_u32 v -> gf2MatrixMul mat v = f v.
Proof.
  intros [Hl Hr] Hv. apply (linear_ext _ _ 32); [apply gf2MatrixMul_linear|done| |done].
  intros i Hi. by rewrite gf2MatrixMul_mulR, mulR_basis, Hr.
Qed.

Lemma row_fmap_seq f i : (i < 32)%nat -> row (f <$> seq 0 32) i = f i.
Proof.
  intros Hi. unfold row. apply nth_lookup_Some. rewrite list_lookup_fmap.
  by rewrite lookup_seq_lt.
Qed.

Definition closed32 (f : Z -> Z) : Prop := forall x, is_u32 x -> is_u32 (f x).

Lemma pow2_u32 i : (i < 32)%nat -> is_u32 (2 ^ Z.of_nat i).
Proof. intros. split; [lia|]. apply Z.pow_lt_mono_r; lia. Qed.

(** Squaring the matrix squares the function. *)
Lemma square_represents mat f m :
  closed32 f -> represents mat (Nat.iter m f) -> represents (gf2MatrixSquare mat) (Nat.iter (m + m) f).
Proof.
  intros Hc Hr. pose proof Hr as [Hl Hb]. assert (closed32 (Nat.iter m f)) as Hcm.
  { intros x Hx. clear -Hc Hx. induction m; simpl; auto. }
  split.
  - intros x y. rewrite !Nat.iter_add. by rewrite Hl, Hl.
  - intros i Hi. unfold gf2MatrixSquare. rewrite row_fmap_seq, Hb by done.
    rewrite (gf2MatrixMul_spec _ _ _ Hr) by (by apply Hcm, pow2_u32). by rewrite Nat.iter_add.
Qed.

Lemma crc_bit_linear : linear crc_bit.
Proof.
  intros x y. unfold crc_bit. rewrite Z.shiftr_lxor, Z.lxor_spec, lxor_swap. f_equal.
  destruct (Z.testbit x 0), (Z.testbit y 0); simpl;
    by rewrite ?Z.lxor_nilpotent, ?Z.lxor_0_l, ?Z.lxor_0_r.
Qed.

Lemma crc_bit_closed : closed32 crc_bit.
Proof.
  intros x [H1 H2]. apply lxor_bound; [lia| |destruct (Z.testbit x 0); split; vm_compute; congruence].
  rewrite Z.shiftr_div_pow2 by lia. change (2 ^ 1) with 2. split; [apply Z.div_pos; lia|].
  apply Z.div_lt_upper_bound; lia.
Qed.

Lemma oneBitShift_represents : represents oneBitShift (Nat.iter 1 crc_bit).
Proof.
  split; [apply linear_iter, crc_bit_linear|]. intros i Hi.
  assert (Forall (fun i => row oneBitShift i = Nat.iter 1 crc_bit (2 ^ Z.of_nat i)) (seq 0 32)) as H
    by (repeat constructor).
  rewrite Forall_forall in H. apply H. apply elem_of_seq. lia.
Qed.

Lemma iter_closed f n : closed32 f -> closed32 (Nat.iter n f).
Proof. intros Hc x Hx. induction n; simpl; auto. Qed.

Lemma oneByteShift_represents : represents oneByteShift (Nat.iter 8 crc_bit).
Proof.
  unfold oneByteShift.
  apply (square_represents _ crc_bit 4 crc_bit_closed), (square_represents _ crc_bit 2 crc_bit_closed),
    (square_represents _ crc_bit 1 crc_bit_closed), oneBitShift_represents.
Qed.

(** Halving [n]: the bit tested and what is left. *)
Lemma halve n : 0 < n ->
  n = 2 * Z.shiftr n 1 + (if Z.testbit n 0 then 1 else 0) /\ 0 <= Z.shiftr n 1 < n.
Proof.
  intros Hn. rewrite Z.shiftr_div_pow2 by lia. change (2 ^ 1) with 2.
  pose proof (Z.div_mod n 2 ltac:(lia)) as H. rewrite Z.bit0_mod in H || idtac.
  assert ((if Z.testbit n 0 then 1 else 0) = n mod 2) as ->.
  { pose proof (Z.bit0_mod n) as Hb. unfold Z.b2z in Hb. by destruct (Z.testbit n 0). }
  pose proof (Z.mod_pos_bound n 2). lia.
Qed.

Lemma iter_split {A} (f : A -> A) a b c x : a = (b + c)%nat -> Nat.iter a f x = Nat.iter b f (Nat.iter c f x).
Proof. intros ->. apply Nat.iter_add. Qed.

(** Square and multiply computes the iterate. *)
Lemma shift_loop_spec f fuel p m val n :
  closed32 f -> represents p (Nat.iter m f) -> is_u32 val -> 0 < n < 2 ^ Z.of_nat fuel ->
  shift_loop fuel p val n = Nat.iter (m * Z.to_nat n) f val.
Proof.
  intros Hc. revert p m val n. induction fuel as [|fuel IH]; intros p m val n Hr Hv Hn; [simpl in Hn; lia|].
  cbn [shift_loop]. rewrite decide_True by lia.
  destruct (halve n) as [En Hh]; [lia|]. revert En Hh. generalize (Z.shiftr n 1). intros n' En Hh.
  assert (is_u32 (if Z.testbit n 0 then gf2MatrixMul p val else val) /\
    (if Z.testbit n 0 then gf2MatrixMul p val else val) =
      Nat.iter (m * (if Z.testbit n 0 then 1 else 0)) f val) as [Hv' Ev].
  { destruct (Z.testbit n 0).
    - rewrite (gf2MatrixMul_spec _ _ _ Hr) by done. rewrite Nat.mul_1_r. split; [|done]. by apply iter_closed.
    - by rewrite Nat.mul_0_r. }
  cbv zeta. case_decide as Hz.
  - rewrite Ev. f_equal. f_equal. destruct (Z.testbit n 0); lia.
  - rewrite (IH _ (m + m)%nat), Ev; [|by apply square_represents|done|].
    2:{ rewrite Nat2Z.inj_succ, Z.pow_succ_r in Hn by lia. destruct (Z.testbit n 0); lia. }
    symmetry. apply iter_split. rewrite En at 1. destruct (Z.testbit n 0); nia.
Qed.

Lemma combine_loop_spec f fuel odd m val n :
  closed32 f -> represents odd (Nat.iter m f) -> is_u32 val -> 0 < n < 2 ^ Z.of_nat (2 * fuel) ->
  combine_loop fuel odd val n = Nat.iter ((m + m) * Z.to_nat n) f val.
Proof.
  intros Hc. revert odd m val n. induction fuel as [|fuel IH]; intros odd m val n Hr Hv Hn; [simpl in Hn; lia|].
  cbn [combine_loop]. pose proof (square_represents _ f m Hc Hr) as Hr2.
  pose proof (square_represents _ f _ Hc Hr2) as Hr4.
  assert (Hmul : forall p k b v, represents p (Nat.iter k f) -> is_u32 v ->
    is_u32 (if b : bool then gf2MatrixMul p v else v) /\
    (if b then gf2MatrixMul p v else v) = Nat.iter (k * (if b then 1 else 0)) f v).
  { intros p k [] v Hp Hv1; [|by rewrite Nat.mul_0_r].
    rewrite (gf2MatrixMul_spec _ _ _ Hp) by done. rewrite Nat.mul_1_r. split; [|done]. by apply iter_closed. }
  destruct (halve n) as [En Hh]; [lia|]. revert En Hh. generalize (Z.shiftr n 1). intros n1 En Hh. cbv zeta.
  destruct (Hmul _ _ (Z.testbit n 0) val Hr2 Hv) as [Hv1 Ev1].
  case_decide as Hz1; [rewrite Ev1; f_equal; f_equal; destruct (Z.testbit n 0); lia|].
  destruct (halve n1) as [En1 Hh1]; [lia|]. revert En1 Hh1. generalize (Z.shiftr n1 1). intros n2 En1 Hh1.
  destruct (Hmul _ _ (Z.testbit n1 0) _ Hr4 Hv1) as [Hv2 Ev2]. rewrite Ev2, Ev1, <- Nat.iter_add.
  rewrite Ev2, Ev1, <- Nat.iter_add in Hv2.
  case_decide as Hz2; [f_equal; f_equal; destruct (Z.testbit n 0), (Z.testbit n1 0); nia|].
  rewrite (IH _ (m + m + (m + m))%nat); [|done|done|].
  - symmetry. apply iter_split. destruct (Z.testbit n 0), (Z.testbit n1 0); nia.
  - replace (Z.of_nat (2 * S fuel)) with (Z.succ (Z.succ (Z.of_nat (2 * fuel)))) in Hn by lia.
    rewrite !Z.pow_succ_r in Hn by lia. destruct (Z.testbit n 0), (Z.testbit n1 0); lia.
Qed.

(** The raw register is affine in its start. *)
Lemma crc_byte_lxor c d b : crc_byte (Z.lxor c d) b = Z.lxor (crc_byte c b) (Nat.iter 8 crc_bit d).
Proof.
  unfold crc_byte. rewrite <- linear_iter by apply crc_bit_linear. f_equal.
  rewrite !Z.lxor_assoc. f_equal. apply Z.lxor_comm.
Qed.

Lemma crc_raw_lxor c d bs :
  crc_raw (Z.lxor c d) bs = Z.lxor (crc_raw c bs) (Nat.iter (8 * length bs) crc_bit d).
Proof.
  revert c d. induction bs as [|b bs IH]; intros c d; [done|].
  change (crc_raw (Z.lxor c d) (b :: bs)) with (crc_raw (crc_byte (Z.lxor c d) b) bs).
  rewrite crc_byte_lxor, IH. f_equal. rewrite <- Nat.iter_add. f_equal. simpl. lia.
Qed.

Lemma crc_raw_u32 c bs : is_u32 c -> Forall is_byte bs -> is_u32 (crc_raw c bs).
Proof.
  intros Hc Hb. revert c Hc. induction Hb as [|b bs Hb _ IH]; intros c Hc; [done|].
  apply IH. apply iter_closed; [apply crc_bit_closed|]. apply lxor_bound; [lia|done|].
  unfold is_byte in Hb. lia.
Qed.

Lemma ChecksumIEEE_u32 bs : Forall is_byte bs -> is_u32 (ChecksumIEEE bs).
Proof.
  intros H. apply lxor_bound; [lia| |vm_compute; split; congruence].
  apply crc_raw_u32; [vm_compute; split; congruence|done].
Qed.

(** The checksum of a concatenation, by shifting the first part's. *)
Lemma ChecksumIEEE_app A B :
  ChecksumIEEE (A ++ B) =
    Z.lxor (Nat.iter (8 * length B) crc_bit (ChecksumIEEE A)) (ChecksumIEEE B).
Proof.
  unfold ChecksumIEEE at 1 2. unfold crc_raw at 1. rewrite foldl_app. fold (crc_raw ones32 A).
  fold (crc_raw (crc_raw ones32 A) B).
  replace (crc_raw ones32 A) with (Z.lxor ones32 (Z.lxor (crc_raw ones32 A) ones32)) at 1
    by (rewrite (Z.lxor_comm (crc_raw _ _)), <- Z.lxor_assoc, Z.lxor_nilpotent; apply Z.lxor_0_l).
  rewrite crc_raw_lxor. unfold ChecksumIEEE. rewrite <- Z.lxor_assoc. f_equal. apply Z.lxor_comm.
Qed.

Lemma crc_byte_0 c : crc_byte c 0 = Nat.iter 8 crc_bit c.
Proof. unfold crc_byte. by rewrite Z.lxor_0_r. Qed.

Lemma crc_raw_zeros c n : crc_raw c (repeat 0 n) = Nat.iter (8 * n) crc_bit c.
Proof.
  revert c. induction n as [|n IH]; intros c; [done|].
  change (crc_raw c (repeat 0 (S n))) with (crc_raw (crc_byte c 0) (repeat 0 n)).
  rewrite IH, crc_byte_0, <- Nat.iter_add. f_equal. lia.
Qed.

(** The inverse of the one-byte shift, found by [gf2MatrixInvert]. *)
Lemma inverse_basis :
  forallb (fun i => gf2MatrixMul (gf2MatrixInvert oneByteShift) (Nat.iter 8 crc_bit (2 ^ Z.of_nat i))
             =? 2 ^ Z.of_nat i) (seq 0 32) = true.
Proof. vm_compute. reflexivity. Qed.

Lemma inverse_byte v : is_u32 v ->
  gf2MatrixMul (gf2MatrixInvert oneByteShift) (Nat.iter 8 crc_bit v) = v.
Proof.
  apply (linear_ext (fun v => gf2MatrixMul (gf2MatrixInvert oneByteShift) (Nat.iter 8 crc_bit v)) id 32).
  - intros x y. rewrite linear_iter by apply crc_bit_linear. apply gf2MatrixMul_linear.
  - done.
  - intros i Hi. pose proof inverse_basis as H. rewrite forallb_forall in H.
    apply Z.eqb_eq. apply H. apply in_seq. lia.
Qed.

Lemma inverse_iter n v : is_u32 v ->
  Nat.iter n (gf2MatrixMul (gf2MatrixInvert oneByteShift)) (Nat.iter (8 * n) crc_bit v) = v.
Proof.
  intros Hv. induction n as [|n IH]; [done|].
  rewrite (iter_split _ (S n) n 1) by lia.
  rewrite (iter_split crc_bit (8 * S n) 8 (8 * n)) by lia. change (Nat.iter 1 ?f ?x) with (f x).
  rewrite inverse_byte; [done|]. apply iter_closed; [apply crc_bit_closed|done].
Qed.

Lemma inverse_closed : closed32 (gf2MatrixMul (gf2MatrixInvert oneByteShift)).
Proof.
  intros v Hv. rewrite gf2MatrixMul_mulR.
  assert (H : forall n i x, Forall is_u32 (gf2MatrixInvert oneByteShift) ->
    is_u32 (mulR n i (gf2MatrixInvert oneByteShift) x)).
  { intros n i x HF. revert i x. induction n as [|n IH]; intros i x; cbn [mulR]; [split; lia|].
    apply lxor_bound; [lia| |apply IH]. destruct (Z.testbit x 0); [|lia]. unfold row.
    destruct (nth_in_or_default i (gf2MatrixInvert oneByteShift) 0) as [Hin| ->]; [|lia].
    rewrite Forall_forall in HF. apply HF. by apply list_elem_of_In. }
  apply H. assert (forallb (fun x => (0 <=? x) && (x <? 2 ^ 32)) (gf2MatrixInvert oneByteShift) = true) as HF
    by (vm_compute; reflexivity).
  rewrite forallb_forall in HF. apply Forall_forall. intros x Hx%list_elem_of_In%HF.
  apply andb_true_iff in Hx as [?%Z.leb_le ?%Z.ltb_lt]. done.
Qed.

Lemma applyShift_spec val n :
  is_u32 val -> n < 2 ^ 63 -> applyShift val n = Nat.iter (8 * Z.to_nat n) crc_bit val.
Proof.
  intros Hv Hn. unfold applyShift. case_decide; [by replace (Z.to_nat n) with O by lia|].
  apply shift_loop_spec; [apply crc_bit_closed|apply oneByteShift_represents|done|].
  change (Z.of_nat 64) with 64. lia.
Qed.

Lemma applyInverseShift_spec v n :
  is_u32 v -> n < 2 ^ 63 -> applyInverseShift (Nat.iter (8 * Z.to_nat n) crc_bit v) n = v.
Proof.
  intros Hv Hn. unfold applyInverseShift. case_decide; [by replace (Z.to_nat n) with O by lia|].
  rewrite (shift_loop_spec (gf2MatrixMul (gf2MatrixInvert oneByteShift)) 64 _ 1).
  - rewrite Nat.mul_1_l. by apply inverse_iter.
  - apply inverse_closed.
  - split; [apply linear_iter, gf2MatrixMul_linear|]. intros i Hi. simpl.
    rewrite gf2MatrixMul_mulR, mulR_basis by done. done.
  - apply iter_closed; [apply crc_bit_closed|done].
  - change (Z.of_nat 64) with 64. lia.
Qed.

Lemma Combine_concat A B :
  Forall is_byte A -> Z.of_nat (length B) < 2 ^ 63 ->
  Combine (ChecksumIEEE A) (ChecksumIEEE B) (Z.of_nat (length B)) = ChecksumIEEE (A ++ B).
Proof.
  intros HA HB. rewrite ChecksumIEEE_app. unfold Combine. case_decide as Hz.
  - assert (B = []) as -> by (destruct B; [done|simpl in Hz; lia]).
    change (ChecksumIEEE []) with 0. by rewrite Z.lxor_0_r.
  - cbv zeta. f_equal.
    rewrite (combine_loop_spec crc_bit 32 _ 4); [by rewrite Nat2Z.id|apply crc_bit_closed| | |].
    + apply (square_represents _ crc_bit 2 crc_bit_closed), (square_represents _ crc_bit 1 crc_bit_closed),
        oneBitShift_represents.
    + by apply ChecksumIEEE_u32.
    + change (Z.of_nat (2 * 32)) with 64. lia.
Qed.

Lemma ZeroUnpad_pad D n :
  Forall is_byte D -> Z.of_nat n < 2 ^ 63 ->
  ZeroUnpad (ChecksumIEEE (D ++ repeat 0 n)) (Z.of_nat n) = ChecksumIEEE D.
Proof.
  intros HD Hn. unfold ZeroUnpad. case_decide as Hz.
  - assert (n = O) as -> by lia. by rewrite app_nil_r.
  - assert (crcOfZeros (Z.of_nat n) = ChecksumIEEE (repeat 0 n)) as ->.
    { unfold crcOfZeros. rewrite decide_False by done. unfold ChecksumIEEE. f_equal.
      rewrite applyShift_spec by (done || (split; vm_compute; congruence)).
      by rewrite crc_raw_zeros, Nat2Z.id. }
    rewrite ChecksumIEEE_app, Z.lxor_assoc, Z.lxor_nilpotent, Z.lxor_0_r, repeat_length.
    pose proof (applyInverseShift_spec (ChecksumIEEE D) (Z.of_nat n)) as H.
    rewrite Nat2Z.id in H. by apply H; [apply ChecksumIEEE_u32|].
Qed.

(** ** Properties *)

(** [Combine] is concatenation.  From the checksums of two byte strings
    and the second's length, with no byte of either, it computes the checksum
    of their concatenation. *)
Theorem Combine_app A B :
  Forall is_byte A -> Z.of_nat (length B) < 2 ^ 63 ->
  Combine (ChecksumIEEE A) (ChecksumIEEE B) (Z.of_nat (length B)) = ChecksumIEEE (A ++ B).
Proof. apply Combine_concat. Qed.

(** [ZeroUnpad] undoes zero padding.  Given the checksum of data followed
    by [n] zero bytes it recovers the checksum of the data alone; the matrix
    elimination it relies on always finds its inverse. *)
Theorem ZeroUnpad_padded D n :
  Forall is_byte D -> Z.of_nat n < 2 ^ 63 ->
  ZeroUnpad (ChecksumIEEE (D ++ repeat 0 n)) (Z.of_nat n) = ChecksumIEEE D.
Proof. apply ZeroUnpad_pad. Qed.

(** ** Witnesses *)
Lemma Combine_app_witness :
  Combine (ChecksumIEEE [49; 50; 51; 52]) (ChecksumIEEE [53; 54; 55; 56; 57]) 5 = 0xCBF43926.
Proof.
  transitivity (ChecksumIEEE ([49; 50; 51; 52] ++ [53; 54; 55; 56; 57])).
  - apply (Combine_app [49; 50; 51; 52] [53; 54; 55; 56; 57]).
    + repeat constructor; unfold is_byte; lia.
    + reflexivity.
  - vm_compute. reflexivity.
Defined.

Lemma ZeroUnpad_padded_witness :
  ZeroUnpad (ChecksumIEEE [1; 2; 3; 0; 0; 0; 0; 0]) 5 = ChecksumIEEE [1; 2; 3].
Proof.
  apply (ZeroUnpad_padded [1; 2; 3] 5).
  - repeat constructor; unfold is_byte; lia.
  - reflexivity.
Defined.
