(* ===== verification/GoBytes.v ===== *)
(** * Byte strings of the Go standard library

    What the decoder and the PAR2 parser use of [bytes], [strconv] and
    [encoding/binary], on lists of bytes (integers from 0 to 255). *)
From S2P Require Import Prelude Crc.
From stdpp Require Import base numbers list strings.
From Stdlib Require Import ZArith Lia.
Local Open Scope Z_scope.

(** A byte string literal. *)
Definition bs (s : string) : list Z := (fun c => Z.of_N (Ascii.N_of_ascii c)) <$> String.list_ascii_of_string s.

(** A [uint8]. *)
Definition u8 (x : Z) : Z := wrapu 8 x.

(** ** [bytes] *)
Fixpoint HasPrefix (s p : list Z) {struct p} : bool :=
  match p, s with
  | [], _ => true
  | a :: p, b :: s => (a =? b) && HasPrefix s p
  | _ :: _, [] => false
  end.

(** [bytes.Index]; [None] is -1. *)
Fixpoint Index (s p : list Z) : option nat :=
  if HasPrefix s p then Some 0%nat
  else match s with
       | [] => None
       | _ :: s => S <$> Index s p
       end.

Fixpoint IndexByte (s : list Z) (c : Z) : option nat :=
  match s with
  | [] => None
  | b :: s => if b =? c then Some 0%nat else S <$> IndexByte s c
  end.

(** [bytes.TrimRight] with the bytes of [cut]. *)
Fixpoint TrimRight (s cut : list Z) : list Z :=
  match s with
  | [] => []
  | b :: s =>
      match TrimRight s cut with
      | [] => if existsb (Z.eqb b) cut then [] else [b]
      | s' => b :: s'
      end
  end.

(** [bytes.Cut] at a single byte: what is before and after it. *)
Fixpoint Cut (s : list Z) (c : Z) : option (list Z * list Z) :=
  match s with
  | [] => None
  | b :: s => if b =? c then Some ([], s)
              else '(l, r) ← Cut s c; Some (b :: l, r)
  end.

(** ** [strconv] *)
Definition decimal (b : Z) : option Z := if decide (48 <= b <= 57) then Some (b - 48) else None.
Definition hexdigit (b : Z) : option Z :=
  if decide (48 <= b <= 57) then Some (b - 48)
  else if decide (97 <= b <= 102) then Some (b - 87)
  else if decide (65 <= b <= 70) then Some (b - 55)
  else None.

(** The value of a non-empty digit string in [base]; [None] is an error. *)
Fixpoint digits_value (dig : Z -> option Z) (base acc : Z) (s : list Z) : option Z :=
  match s with
  | [] => Some acc
  | b :: s => d ← dig b; digits_value dig base (acc * base + d) s
  end.

(** [strconv.ParseUint] of width [w]: syntax or range error is [None]. *)
Definition parse_digits (dig : Z -> option Z) (base limit : Z) (s : list Z) : option Z :=
  if decide (s = []) then None
  else n ← digits_value dig base 0 s; if decide (n > limit) then None else Some n.

Definition ParseUintHex32 (s : list Z) : option Z := parse_digits hexdigit 16 (2 ^ 32 - 1) s.

(** [strconv.ParseInt(s, 10, 64)]. *)
Definition ParseInt (s : list Z) : option Z :=
  match s with
  | 43 :: s => parse_digits decimal 10 MaxInt64 s
  | 45 :: s => n ← parse_digits decimal 10 (2 ^ 63) s; Some (- n)
  | _ => parse_digits decimal 10 MaxInt64 s
  end.

(** ** [binary.LittleEndian] *)
Fixpoint LittleEndian (s : list Z) : Z :=
  match s with
  | [] => 0
  | b :: s => b + 256 * LittleEndian s
  end.

Definition PutLittleEndian (n : nat) (x : Z) : list Z := (fun i => x / 256 ^ Z.of_nat i mod 256) <$> seq 0 n.

(** ** Printing (the encoders of the round trips) *)
Fixpoint print_digits (fuel : nat) (base : Z) (chr : Z -> Z) (n : Z) : list Z :=
  match fuel with
  | O => []
  | S k => (if decide (n < base) then [] else print_digits k base chr (n / base)) ++ [chr (n mod base)]
  end.

Definition print_dec (n : Z) : list Z := print_digits 20 10 (fun d => 48 + d) n.
Definition print_hex (n : Z) : list Z :=
  print_digits 8 16 (fun d => if decide (d < 10) then 48 + d else 87 + d) n.

Example parse1 : ParseInt (print_dec 9223372036854775807) = Some 9223372036854775807 /\ ParseInt [45; 49] = Some (-1).
Proof. vm_compute. done. Qed.
Example parse2 : ParseInt [57; 50; 50; 51; 51; 55; 50; 48; 51; 54; 56; 53; 52; 55; 55; 53; 56; 48; 56] = None.
Proof. vm_compute. done. Qed.

(** ** Lemmas *)
Lemma digits_value_app dig base acc s1 s2 :
  digits_value dig base acc (s1 ++ s2) = a ← digits_value dig base acc s1; digits_value dig base a s2.
Proof.
  revert acc. induction s1 as [|b s1 IH]; intros acc; [done|]. simpl. destruct (dig b); [|done]. apply IH.
Qed.

Lemma print_value dig base chr n fuel :
  1 < base -> 0 <= n < base ^ Z.of_nat fuel -> (forall d, 0 <= d < base -> dig (chr d) = Some d) ->
  digits_value dig base 0 (print_digits fuel base chr n) = Some n /\ (0 < fuel -> print_digits fuel base chr n <> [])%nat.
Proof.
  intros Hb Hn Hd. revert n Hn. induction fuel as [|k IH]; intros n Hn; cbn [print_digits].
  - change (base ^ Z.of_nat 0) with 1 in Hn. assert (n = 0) as -> by lia. split; [done|lia].
  - pose proof (Z.mod_pos_bound n base ltac:(lia)). pose proof (Z.div_mod n base ltac:(lia)).
    split; [|by destruct (if decide (n < base) then _ else _)].
    rewrite digits_value_app. case_decide as Hlt.
    + simpl. rewrite Hd by done. simpl. rewrite Z.mod_small by lia. done.
    + assert (0 <= n / base < base ^ Z.of_nat k) as Hq.
      { split; [apply Z.div_pos; lia|]. apply Z.div_lt_upper_bound; [lia|].
        rewrite Nat2Z.inj_succ, Z.pow_succ_r in Hn by lia. lia. }
      rewrite (proj1 (IH _ Hq)). simpl. rewrite Hd by done. simpl. f_equal. lia.
Qed.

Lemma print_digits_all P fuel base chr n :
  1 < base -> 0 <= n -> (forall d, 0 <= d < base -> P (chr d)) -> Forall P (print_digits fuel base chr n).
Proof.
  intros Hb Hn Hc. revert n Hn. induction fuel as [|k IH]; intros n Hn; [constructor|]. cbn [print_digits].
  apply Forall_app. split; [case_decide; [constructor|apply IH, Z.div_pos; lia]|].
  constructor; [|constructor]. apply Hc, Z.mod_pos_bound. lia.
Qed.

Lemma decimal_print n : 0 <= n < 10 ^ 20 -> Forall (fun b => 48 <= b <= 57) (print_dec n).
Proof. intros H. apply print_digits_all; [lia|lia|]. intros d Hd. lia. Qed.

Lemma hex_print n : 0 <= n -> Forall (fun b => 48 <= b <= 57 \/ 97 <= b <= 102) (print_hex n).
Proof. intros H. apply print_digits_all; [lia|lia|]. intros d Hd. case_decide; lia. Qed.

Lemma ParseInt_print n : 0 <= n <= MaxInt64 -> ParseInt (print_dec n) = Some n.
Proof.
  intros Hn. assert (0 <= n < 10 ^ Z.of_nat 20) as Hr by (unfold MaxInt64 in Hn; lia).
  destruct (print_value decimal 10 (fun d => 48 + d) n 20) as [Hv Hne]; [lia|done| |].
  { intros d Hd. unfold decimal. rewrite decide_True by lia. f_equal. lia. }
  assert (Forall (fun b => 48 <= b <= 57) (print_dec n)) as Hd by (apply decimal_print; lia).
  unfold print_dec in *. specialize (Hne ltac:(lia)).
  assert (parse_digits decimal 10 MaxInt64 (print_digits 20 10 (fun d => 48 + d) n) = Some n) as Hp.
  { unfold parse_digits. rewrite decide_False by done. rewrite Hv. simpl. by rewrite decide_False by lia. }
  destruct (print_digits 20 10 (fun d => 48 + d) n) as [|b l] eqn:E; [done|]. inversion Hd; subst.
  unfold ParseInt. destruct (decide (b = 43)) as [->|]; [lia|]. destruct (decide (b = 45)) as [->|]; [lia|].
  destruct b as [|b|b]; try lia. do 6 (destruct b as [b|b|]; try lia; try done).
Qed.

Lemma ParseHex_print n : 0 <= n < 2 ^ 32 -> ParseUintHex32 (print_hex n) = Some n.
Proof.
  intros Hn. destruct (print_value hexdigit 16 (fun d => if decide (d < 10) then 48 + d else 87 + d) n 8)
    as [Hv Hne]; [lia|change (16 ^ Z.of_nat 8) with (2 ^ 32); lia| |].
  { intros d Hd. unfold hexdigit. destruct (decide (d < 10)); [rewrite decide_True by lia; f_equal; lia|].
    rewrite decide_False by lia. rewrite decide_True by lia. f_equal. lia. }
  unfold ParseUintHex32, parse_digits, print_hex. rewrite decide_False by (apply Hne; lia). rewrite Hv. simpl.
  by rewrite decide_False by lia.
Qed.

Lemma print_hex_nonempty n : 0 <= n < 2 ^ 32 -> print_hex n <> [].
Proof.
  intros Hn. unfold print_hex. cbn [print_digits]. by destruct (if decide (n < 16) then _ else _).
Qed.

Lemma HasPrefix_app p s : HasPrefix (p ++ s) p = true.
Proof. induction p; simpl; [by destruct s|]. by rewrite Z.eqb_refl. Qed.

Lemma HasPrefix_spec s p : HasPrefix s p = true <-> exists r, s = p ++ r.
Proof.
  split.
  - revert s. induction p as [|a p IH]; intros s H; [by exists s|]. destruct s as [|b s]; [done|]. simpl in H.
    apply andb_true_iff in H as [E H]. apply Z.eqb_eq in E. destruct (IH s H) as [r ->]. exists r. by subst.
  - intros [r ->]. apply HasPrefix_app.
Qed.

(** The first occurrence. *)
Lemma Index_first s p k : (forall j, (j < k)%nat -> HasPrefix (drop j s) p = false) ->
  HasPrefix (drop k s) p = true -> (k <= length s)%nat -> Index s p = Some k.
Proof.
  revert k. induction s as [|b s IH]; intros k H1 H2 Hk; simpl in Hk.
  - assert (k = 0%nat) as -> by lia. simpl in *. by rewrite H2.
  - destruct k as [|k].
    + simpl in *. by rewrite H2.
    + pose proof (H1 0%nat ltac:(lia)) as H0. rewrite drop_0 in H0. cbn [Index]. rewrite H0.
      rewrite (IH k); [done| |exact H2|lia]. intros j Hj. apply (H1 (S j)). lia.
Qed.

Lemma Index_Some s p k : Index s p = Some k -> HasPrefix (drop k s) p = true /\ (k <= length s)%nat.
Proof.
  revert k. induction s as [|b s IH]; intros k; cbn [Index].
  - destruct (HasPrefix [] p) eqn:E; [|done]. intros [= <-]. by split.
  - destruct (HasPrefix (b :: s) p) eqn:E; [intros [= <-]; split; [done|simpl; lia]|].
    destruct (Index s p) as [j|]; [|done]. intros [= <-]. destruct (IH j eq_refl). simpl. split; [done|lia].
Qed.

Lemma IndexByte_app s c r : Forall (fun b => b <> c) s -> IndexByte (s ++ c :: r) c = Some (length s).
Proof.
  induction 1 as [|b s Hb H IH]; simpl; [by rewrite Z.eqb_refl|].
  apply Z.eqb_neq in Hb. by rewrite Hb, IH.
Qed.

Lemma IndexByte_None s c : Forall (fun b => b <> c) s -> IndexByte s c = None.
Proof. induction 1 as [|b s Hb H IH]; simpl; [done|]. apply Z.eqb_neq in Hb. by rewrite Hb, IH. Qed.

Lemma Cut_app s c r : Forall (fun b => b <> c) s -> Cut (s ++ c :: r) c = Some (s, r).
Proof.
  induction 1 as [|b s Hb H IH]; simpl; [by rewrite Z.eqb_refl|].
  apply Z.eqb_neq in Hb. by rewrite Hb, IH.
Qed.

Lemma TrimRight_id s cut : (forall b, last s = Some b -> existsb (Z.eqb b) cut = false) -> TrimRight s cut = s.
Proof.
  induction s as [|b s IH]; intros H; [done|]. simpl. destruct s as [|c s].
  - simpl. by rewrite (H b).
  - rewrite IH; [done|]. intros d Hd. apply H. by rewrite last_cons, Hd.
Qed.

Lemma TrimRight_app s r cut : Forall (fun b => existsb (Z.eqb b) cut = true) r ->
  TrimRight (s ++ r) cut = TrimRight s cut.
Proof.
  intros H. induction s as [|b s IH]; simpl; [|by rewrite IH].
  induction H as [|b r Hb H IH]; [done|]. simpl. by rewrite IH, Hb.
Qed.

Lemma TrimRight_Forall (P : Z -> Prop) s cut : Forall P s -> Forall P (TrimRight s cut).
Proof.
  induction 1 as [|b s Hb H IH]; simpl; [constructor|]. destruct (TrimRight s cut).
  - case_match; [constructor|by repeat constructor].
  - by constructor.
Qed.

Lemma length_PutLittleEndian n x : length (PutLittleEndian n x) = n.
Proof. unfold PutLittleEndian. by rewrite length_fmap, length_seq. Qed.

Lemma LittleEndian_Put n x : 0 <= x < 256 ^ Z.of_nat n -> LittleEndian (PutLittleEndian n x) = x.
Proof.
  unfold PutLittleEndian. revert x. induction n as [|n IH]; intros x Hx.
  - change (256 ^ Z.of_nat 0) with 1 in Hx. simpl. lia.
  - rewrite Nat2Z.inj_succ, Z.pow_succ_r in Hx by lia. cbn [seq fmap list_fmap LittleEndian].
    assert (((fun i => x / 256 ^ Z.of_nat i mod 256) <$> seq 1 n) =
      ((fun i => (x / 256) / 256 ^ Z.of_nat i mod 256) <$> seq 0 n)) as ->.
    { rewrite <- fmap_S_seq, <- list_fmap_compose. apply list_fmap_ext. intros _ i _. simpl.
      change (Z.pos (Pos.of_succ_nat i)) with (Z.of_nat (S i)). rewrite Nat2Z.inj_succ, Z.pow_succ_r by lia.
      by rewrite Zdiv.Zdiv_Zdiv by lia. }
    rewrite IH by (split; [apply Z.div_pos; lia|apply Z.div_lt_upper_bound; lia]).
    change (256 ^ Z.of_nat 0) with 1. rewrite Z.div_1_r. pose proof (Z.div_mod x 256 ltac:(lia)). lia.
Qed.
