(* ===== verification/GoText.v ===== *)
(** * Text: UTF-8, the parts of [strings], [unicode], [path/filepath] and
    [regexp] the source uses

    A string is its bytes.  Functions that look at runes decode them as
    [unicode/utf8] does: a byte that starts no valid encoding is the rune
    U+FFFD of width one. *)
From S2P Require Import Prelude GoBytes.
From stdpp Require Import base numbers gmap sorting list strings.
From Stdlib Require Import ZArith Lia.
Local Open Scope Z_scope.

(** ** UTF-8 *)
Definition cont (b : Z) : bool := bool_decide (128 <= b <= 191).
Definition within (lo hi b : Z) : bool := bool_decide (lo <= b <= hi).

(** [utf8.Valid]. *)
Fixpoint utf8_Valid (s : list Z) : bool :=
  match s with
  | [] => true
  | b :: s =>
      if b <? 128 then utf8_Valid s
      else if within 194 223 b then
        match s with c1 :: s => cont c1 && utf8_Valid s | _ => false end
      else if within 224 239 b then
        match s with
        | c1 :: c2 :: s =>
            within (if b =? 224 then 160 else 128) (if b =? 237 then 159 else 191) c1 && cont c2 && utf8_Valid s
        | _ => false
        end
      else if within 240 244 b then
        match s with
        | c1 :: c2 :: c3 :: s =>
            within (if b =? 240 then 144 else 128) (if b =? 244 then 143 else 191) c1 && cont c2 && cont c3 && utf8_Valid s
        | _ => false
        end
      else false
  end.

Definition RuneError : Z := 65533.

(** [utf8.RuneStart]. *)
Definition RuneStart (b : Z) : bool := negb (Z.land b 192 =? 128).

(** [utf8.DecodeRune] of [b :: s]: the rune and its width. *)
Definition DecodeRune (b : Z) (s : list Z) : Z * nat :=
  let bad := (RuneError, 1%nat) in
  if b <? 128 then (b, 1%nat)
  else if within 194 223 b then
    match s with
    | c1 :: _ => if cont c1 then ((b - 192) * 64 + (c1 - 128), 2%nat) else bad
    | _ => bad
    end
  else if within 224 239 b then
    match s with
    | c1 :: c2 :: _ =>
        if within (if b =? 224 then 160 else 128) (if b =? 237 then 159 else 191) c1 && cont c2
        then ((b - 224) * 4096 + (c1 - 128) * 64 + (c2 - 128), 3%nat) else bad
    | _ => bad
    end
  else if within 240 244 b then
    match s with
    | c1 :: c2 :: c3 :: _ =>
        if within (if b =? 240 then 144 else 128) (if b =? 244 then 143 else 191) c1 && cont c2 && cont c3
        then ((b - 240) * 262144 + (c1 - 128) * 4096 + (c2 - 128) * 64 + (c3 - 128), 4%nat) else bad
    | _ => bad
    end
  else bad.

(** A string as its runes, each with the bytes it stands for. *)
Notation rune := (Z * list Z)%type (only parsing).

Fixpoint runes_loop (fuel : nat) (s : list Z) : list rune :=
  match fuel, s with
  | S k, b :: r => let '(c, n) := DecodeRune b r in (c, take n s) :: runes_loop k (drop n s)
  | _, _ => []
  end.
Definition runes (s : list Z) : list rune := runes_loop (length s) s.
Definition unrune (l : list rune) : list Z := concat (snd <$> l).

(** ** [unicode.IsSpace], and trimming *)
Definition IsSpace (r : Z) : bool :=
  within 9 13 r || (r =? 32) || (r =? 133) || (r =? 160) || (r =? 5760) || within 8192 8202 r || (r =? 8232) || (r =? 8233) ||
  (r =? 8239) || (r =? 8287) || (r =? 12288).

Fixpoint drop_while {A} (p : A -> bool) (l : list A) : list A :=
  match l with
  | x :: l' => if p x then drop_while p l' else l
  | [] => []
  end.

Definition TrimLeftFunc (p : Z -> bool) (s : list Z) : list Z := unrune (drop_while (fun r => p (fst r)) (runes s)).

(** [strings.TrimRightFunc], which decodes runes from the end: the shortest
    suffix that is one rune's encoding, or a byte of none.  [last_rune] is
    the rune and how many bytes it has. *)
Definition last_rune (s : list Z) : Z * nat :=
  let n := length s in
  let try k := match drop (n - k) s with
               | b :: r => let '(c, w) := DecodeRune b r in if (k <=? n)%nat && (w =? k)%nat && RuneStart b then Some (c, k) else None
               | [] => None
               end in
  match try 1%nat with
  | Some r => r
  | None => match try 2%nat with
            | Some r => r
            | None => match try 3%nat with
                      | Some r => r
                      | None => match try 4%nat with
                                | Some r => r
                                | None => (RuneError, 1%nat)
                                end
                      end
            end
  end.

Fixpoint trim_right (fuel : nat) (p : Z -> bool) (s : list Z) : list Z :=
  match fuel with
  | O => s
  | S k =>
      if decide (s = []) then []
      else let '(c, n) := last_rune s in if p c then trim_right k p (take (length s - n) s) else s
  end.
Definition TrimRightFunc (p : Z -> bool) (s : list Z) : list Z := trim_right (length s) p s.

(** [strings.TrimSpace]. *)
Definition TrimSpace (s : list Z) : list Z := TrimRightFunc IsSpace (TrimLeftFunc IsSpace s).

(** ** [path/filepath] and [strings] *)
Notation slash := 47 (only parsing).
Notation dot := 46 (only parsing).

(** What follows the last [c], and whether there is one. *)
Fixpoint after_last (c : Z) (s : list Z) : option (list Z) :=
  match s with
  | [] => None
  | b :: s =>
      match after_last c s with
      | Some r => Some r
      | None => if b =? c then Some s else None
      end
  end.

(** [filepath.Base]. *)
Definition Base (path : list Z) : list Z :=
  if decide (path = []) then [dot]
  else
    let p := TrimRight path [slash] in
    if decide (p = []) then [slash] else default p (after_last slash p).

(** [filepath.Ext]. *)
Definition Ext (path : list Z) : list Z :=
  match after_last dot (default path (after_last slash path)) with
  | Some r => dot :: r
  | None => []
  end.

Definition lower (b : Z) : Z := if decide (65 <= b <= 90) then b + 32 else b.
Definition ToLower (s : list Z) : list Z := lower <$> s.
Definition ReplaceAll (s : list Z) (a b : Z) : list Z := (fun x => if x =? a then b else x) <$> s.
Definition ContainsByte (s : list Z) (c : Z) : bool := existsb (Z.eqb c) s.

(** The order of strings. *)
Fixpoint str_leb (a b : list Z) : bool :=
  match a, b with
  | [], _ => true
  | _ :: _, [] => false
  | x :: a, y :: b => (x <? y) || ((x =? y) && str_leb a b)
  end.
Definition str_le (a b : list Z) : Prop := str_leb a b = true.
#[export] Instance str_le_dec : RelDecision str_le.
Proof. intros a b. unfold str_le. apply _. Defined.

(** [strings.ReplaceAll] of one byte by a string. *)
Definition ReplaceAllByte (s : list Z) (c : Z) (new : list Z) : list Z := concat ((fun b => if b =? c then new else [b]) <$> s).

(** [strings.ContainsAny], [strings.IndexAny(s, chars) >= 0], for ASCII
    [chars]. *)
Definition ContainsAny (s chars : list Z) : bool := existsb (fun b => existsb (Z.eqb b) chars) s.

(** ** Lemmas *)
Lemma DecodeRune_width b s : (1 <= snd (DecodeRune b s) <= length (b :: s))%nat.
Proof. unfold DecodeRune. repeat case_match; cbn; lia. Qed.

Lemma DecodeRune_ascii b s : b < 128 -> DecodeRune b s = (b, 1%nat).
Proof. intros H. unfold DecodeRune. by rewrite (proj2 (Z.ltb_lt _ _) H). Qed.

Lemma unrune_loop fuel s : (length s <= fuel)%nat -> unrune (runes_loop fuel s) = s.
Proof.
  unfold unrune. revert s. induction fuel as [|fuel IH]; intros [|b s] H; cbn in H; try done; [lia|].
  cbn [runes_loop]. pose proof (DecodeRune_width b s) as Hw. destruct (DecodeRune b s) as [c n]. cbn in Hw.
  cbn [fmap list_fmap snd concat]. rewrite IH by (rewrite length_drop; cbn; lia). apply take_drop.
Qed.

Lemma unrune_runes s : unrune (runes s) = s.
Proof. by apply unrune_loop. Qed.

Lemma drop_while_suffix {A} (p : A -> bool) l : exists k, l = k ++ drop_while p l /\ Forall (fun x => p x = true) k.
Proof.
  induction l as [|x l (k & IH & Hk)]; cbn; [by exists []|]. destruct (p x) eqn:E; [|by exists []].
  exists (x :: k). split; [cbn; by f_equal|by constructor].
Qed.

Lemma TrimLeftFunc_suffix p s : exists k, s = k ++ TrimLeftFunc p s.
Proof.
  unfold TrimLeftFunc. destruct (drop_while_suffix (fun r => p (fst r)) (runes s)) as (k & E & _). exists (unrune k).
  rewrite <- (unrune_runes s) at 1. unfold unrune. rewrite <- concat_app, <- fmap_app. by do 2 f_equal.
Qed.

Lemma last_rune_width s : s <> [] -> (1 <= snd (last_rune s) <= length s)%nat.
Proof.
  intros Hs. assert (1 <= length s)%nat by (destruct s; [done|cbn; lia]). unfold last_rune.
  repeat match goal with |- context [match ?m with Some _ => _ | None => _ end] =>
    let E := fresh "E" in destruct m eqn:E; [repeat case_match; simplify_eq; cbn;
      repeat match goal with H : (_ && _) = true |- _ => apply andb_true_iff in H as [? ?] | H : (_ <=? _)%nat = true |- _ => apply Nat.leb_le in H end; lia|] end.
  cbn. lia.
Qed.

Lemma last_rune_ascii s b : b < 128 -> 0 <= b -> last_rune (s ++ [b]) = (b, 1%nat).
Proof.
  intros H H0. unfold last_rune. rewrite length_app. cbn [length]. rewrite Nat.add_sub, drop_app_length, DecodeRune_ascii by done.
  assert (RuneStart b = true) as ->; [|by replace (1 <=? length s + 1)%nat with true by (symmetry; apply Nat.leb_le; lia)].
  unfold RuneStart. apply negb_true_iff, Z.eqb_neq. intros E.
  assert (Z.testbit (Z.land b 192) 7 = true) as Hb by (rewrite E; done). rewrite Z.land_spec in Hb. apply andb_true_iff in Hb as [Hb _].
  rewrite Z.testbit_true in Hb by lia. rewrite Z.div_small in Hb by lia. done.
Qed.

Lemma trim_right_prefix p fuel : forall s, exists k, s = trim_right fuel p s ++ k.
Proof.
  induction fuel as [|fuel IH]; intros s; cbn; [exists []; by rewrite app_nil_r|].
  case_decide; [exists []; by subst|]. destruct (last_rune s) as [c n]. destruct (p c); [|exists []; by rewrite app_nil_r].
  destruct (IH (take (length s - n) s)) as [k E]. exists (k ++ drop (length s - n) s). rewrite app_assoc, <- E. by rewrite take_drop.
Qed.

Lemma TrimRightFunc_prefix p s : exists k, s = TrimRightFunc p s ++ k.
Proof. apply trim_right_prefix. Qed.

(** What is left does not end in a rune that is trimmed. *)
Lemma trim_right_last p fuel : forall s, (length s <= fuel)%nat -> trim_right fuel p s = [] \/ p (fst (last_rune (trim_right fuel p s))) = false.
Proof.
  induction fuel as [|fuel IH]; intros s H; [left; destruct s; [done|cbn in H; lia]|]. cbn. case_decide as Hs; [by left|].
  pose proof (last_rune_width s Hs) as Hw. destruct (last_rune s) as [c n] eqn:E. cbn in Hw.
  destruct (p c) eqn:Ep; [apply IH; rewrite length_take; lia|]. right. by rewrite E.
Qed.

Lemma TrimRightFunc_last p s b : last (TrimRightFunc p s) = Some b -> 0 <= b < 128 -> p b = false.
Proof.
  intros Hl Hb. destruct (trim_right_last p (length s) s) as [E|E]; [done| |].
  - unfold TrimRightFunc in Hl. rewrite E in Hl. done.
  - fold (TrimRightFunc p s) in E. destruct (TrimRightFunc p s) as [|x t _] using rev_ind; [done|].
    rewrite last_snoc in Hl. injection Hl as ->. rewrite last_rune_ascii in E by lia. done.
Qed.

Lemma trimmed_sub (P : Z -> Prop) p s : Forall P s -> Forall P (TrimLeftFunc p s) /\ Forall P (TrimRightFunc p s).
Proof.
  intros H. destruct (TrimLeftFunc_suffix p s) as [k1 E1]. destruct (TrimRightFunc_prefix p s) as [k2 E2].
  split; [rewrite E1 in H|rewrite E2 in H]; apply Forall_app in H as [? ?]; done.
Qed.

Lemma TrimSpace_sub (P : Z -> Prop) s : Forall P s -> Forall P (TrimSpace s).
Proof. intros H. apply trimmed_sub, trimmed_sub, H. Qed.

(** *** ASCII text *)
Definition ascii (s : list Z) : Prop := Forall (fun b => 0 <= b < 128) s.

Lemma runes_ascii s : ascii s -> runes s = (fun b => (b, [b])) <$> s.
Proof.
  unfold runes. intros H. induction H as [|b s Hb _ IH]; [done|]. cbn [length runes_loop]. rewrite DecodeRune_ascii by lia. cbn [take drop firstn skipn fmap list_fmap]. rewrite !drop_0, take_0, IH. done.
Qed.

Lemma TrimLeft_ascii p s : ascii s -> TrimLeftFunc p s = drop_while p s.
Proof.
  intros H. unfold TrimLeftFunc. rewrite runes_ascii by done. unfold unrune. induction H as [|b s _ _ IH]; [done|].
  cbn. destruct (p b); [done|]. cbn. f_equal. clear. induction s as [|b s IH]; [done|]. cbn. by f_equal.
Qed.

Lemma trim_right_fuel p f1 : forall f2 s, (length s <= f1)%nat -> (length s <= f2)%nat -> trim_right f1 p s = trim_right f2 p s.
Proof.
  induction f1 as [|f1 IH]; intros [|f2] s H1 H2; cbn; try (case_decide as Hs; [done|]); try done;
    try (destruct s; [done|cbn in *; lia]).
  pose proof (last_rune_width s Hs) as Hw. destruct (last_rune s) as [c k]. cbn in Hw. destruct (p c); [|done].
  apply IH; rewrite length_take; lia.
Qed.

(** One byte at a time, from the end. *)
Lemma TrimRight_snoc p s b : 0 <= b < 128 -> TrimRightFunc p (s ++ [b]) = if p b then TrimRightFunc p s else s ++ [b].
Proof.
  intros H. unfold TrimRightFunc at 1. rewrite length_app. cbn [length]. rewrite Nat.add_comm. cbn [Nat.add trim_right].
  case_decide as Hs; [by destruct s|]. rewrite last_rune_ascii by lia. destruct (p b); [|done].
  rewrite length_app. cbn [length]. rewrite Nat.add_sub, take_app_length. done.
Qed.

Lemma TrimRight_id_ascii p s b : last s = Some b -> 0 <= b < 128 -> p b = false -> TrimRightFunc p s = s.
Proof.
  intros Hl Hb Hp. destruct s as [|x t _] using rev_ind; [done|]. rewrite last_snoc in Hl. injection Hl as ->. by rewrite TrimRight_snoc, Hp.
Qed.

Lemma TrimLeft_id_ascii p s b : head s = Some b -> 0 <= b < 128 -> p b = false -> TrimLeftFunc p s = s.
Proof.
  intros Hl Hb Hp. destruct s as [|x t]; [done|]. injection Hl as ->. unfold TrimLeftFunc.
  pose proof (unrune_runes (b :: t)) as H. unfold runes in *. cbn [length runes_loop] in *. rewrite DecodeRune_ascii in * by lia. cbn in *. by rewrite Hp.
Qed.
