(* ===== verification/Md5.v ===== *)
(** * MD5 (Go's [crypto/md5])

    The digest PAR2 packets carry, as the standard library computes it, on
    lists of bytes. *)
From S2P Require Import Prelude Crc GoBytes.
From stdpp Require Import base numbers list strings.
From Stdlib Require Import ZArith Lia.
Local Open Scope Z_scope.

Definition u32 (x : Z) : Z := wrapu 32 x.

Definition rotl32 (x : Z) (n : Z) : Z := u32 (Z.lor (Z.shiftl x n) (Z.shiftr x (32 - n))).

Definition md5_K : list Z :=
  [0xd76aa478; 0xe8c7b756; 0x242070db; 0xc1bdceee;
   0xf57c0faf; 0x4787c62a; 0xa8304613; 0xfd469501;
   0x698098d8; 0x8b44f7af; 0xffff5bb1; 0x895cd7be;
   0x6b901122; 0xfd987193; 0xa679438e; 0x49b40821;
   0xf61e2562; 0xc040b340; 0x265e5a51; 0xe9b6c7aa;
   0xd62f105d; 0x02441453; 0xd8a1e681; 0xe7d3fbc8;
   0x21e1cde6; 0xc33707d6; 0xf4d50d87; 0x455a14ed;
   0xa9e3e905; 0xfcefa3f8; 0x676f02d9; 0x8d2a4c8a;
   0xfffa3942; 0x8771f681; 0x6d9d6122; 0xfde5380c;
   0xa4beea44; 0x4bdecfa9; 0xf6bb4b60; 0xbebfbc70;
   0x289b7ec6; 0xeaa127fa; 0xd4ef3085; 0x04881d05;
   0xd9d4d039; 0xe6db99e5; 0x1fa27cf8; 0xc4ac5665;
   0xf4292244; 0x432aff97; 0xab9423a7; 0xfc93a039;
   0x655b59c3; 0x8f0ccc92; 0xffeff47d; 0x85845dd1;
   0x6fa87e4f; 0xfe2ce6e0; 0xa3014314; 0x4e0811a1;
   0xf7537e82; 0xbd3af235; 0x2ad7d2bb; 0xeb86d391].

Definition md5_S : list Z :=
  concat (concat ((fun r => replicate 4 r) <$> [[7; 12; 17; 22]; [5; 9; 14; 20]; [4; 11; 16; 23]; [6; 10; 15; 21]])).

Definition md5_state : Type := Z * Z * Z * Z.
Definition md5_init : md5_state := (0x67452301, 0xefcdab89, 0x98badcfe, 0x10325476).

Definition not32 (x : Z) : Z := Z.lxor x ones32.

(** One of the 64 rounds of a block: the mixing function, the word it takes. *)
Definition md5_mix (i : nat) (b c d : Z) : Z * nat :=
  if decide (i < 16)%nat then (Z.lor (Z.land b c) (Z.land (not32 b) d), i)
  else if decide (i < 32)%nat then (Z.lor (Z.land d b) (Z.land (not32 d) c), ((5 * i + 1) mod 16)%nat)
  else if decide (i < 48)%nat then (Z.lxor (Z.lxor b c) d, ((3 * i + 5) mod 16)%nat)
  else (Z.lxor c (Z.lor b (not32 d)), ((7 * i) mod 16)%nat).

Definition md5_round (words : list Z) (s : md5_state) (i : nat) : md5_state :=
  let '(a, b, c, d) := s in
  let '(f, g) := md5_mix i b c d in
  let f := u32 (f + a + nth i md5_K 0 + nth g words 0) in
  (d, u32 (b + rotl32 f (nth i md5_S 0)), b, c).

(** The bytes in groups of [n]; what is left over is dropped. *)
Definition chunks (n : nat) (l : list Z) : list (list Z) :=
  (fun k => take n (drop (n * k) l)) <$> seq 0 (length l / n).

Definition md5_block (s : md5_state) (block : list Z) : md5_state :=
  let '(a, b, c, d) := s in
  let '(a', b', c', d') := foldl (md5_round (LittleEndian <$> chunks 4 block)) s (seq 0 64) in
  (u32 (a + a'), u32 (b + b'), u32 (c + c'), u32 (d + d')).

Definition md5_pad (msg : list Z) : list Z :=
  msg ++ 128 :: replicate ((119 - length msg mod 64) mod 64) 0 ++
  PutLittleEndian 8 (wrapu 64 (8 * Z.of_nat (length msg))).

Definition md5 (msg : list Z) : list Z :=
  let '(a, b, c, d) := foldl md5_block md5_init (chunks 64 (md5_pad msg)) in
  PutLittleEndian 4 a ++ PutLittleEndian 4 b ++ PutLittleEndian 4 c ++ PutLittleEndian 4 d.

(** The digests of RFC 1321 and of a message of two blocks. *)
Example md5_digests :
  md5 [] = [212; 29; 140; 217; 143; 0; 178; 4; 233; 128; 9; 152; 236; 248; 66; 126] /\
  md5 (bs "abc") = [144; 1; 80; 152; 60; 210; 79; 176; 214; 150; 63; 125; 40; 225; 127; 114] /\
  md5 (bs "message digest") = [249; 107; 105; 125; 124; 183; 147; 141; 82; 90; 47; 49; 170; 241; 97; 208] /\
  md5 (concat (replicate 8 (bs "1234567890"))) = [87; 237; 244; 162; 43; 227; 201; 85; 172; 73; 218; 46; 33; 7; 182; 122] /\
  md5 (replicate 55 120) = [4; 54; 68; 32; 226; 92; 81; 47; 217; 88; 167; 7; 56; 170; 143; 114] /\
  md5 (replicate 56 120) = [102; 138; 114; 213; 186; 23; 240; 142; 98; 218; 188; 175; 173; 109; 177; 75] /\
  md5 (replicate 64 120) = [193; 187; 79; 129; 216; 146; 178; 213; 121; 71; 104; 42; 235; 37; 36; 86].
Proof. vm_compute. repeat split. Qed.

Lemma md5_length msg : length (md5 msg) = 16%nat.
Proof. unfold md5. destruct (foldl _ _ _) as [[[a b] c] d]. by rewrite !length_app, !length_PutLittleEndian. Qed.
