(* ===== verification/Regex.v ===== *)
(** * Regular expressions as [regexp] matches them

    Leftmost-first matching over runes by backtracking: alternatives in
    order, repetition greedy.  The source's patterns have no repetition of an
    expression that matches nothing. *)
From S2P Require Import Prelude GoBytes GoText.
From stdpp Require Import base numbers gmap list strings.
From Stdlib Require Import ZArith Lia.
Local Open Scope Z_scope.

Inductive re : Type :=
| Eps
| Cls (p : Z -> bool)
| Cat (a b : re)
| Alt (a b : re)
| Star (a : re).

Definition Opt (a : re) : re := Alt a Eps.
Definition Chr (c : Z) : re := Cls (Z.eqb c).
Definition OneOf (cs : list Z) : re := Cls (fun r => existsb (Z.eqb r) cs).
Definition Plus (a : re) : re := Cat a (Star a).

(** [a{n}] then [b]; [a{0,n}] *)
Fixpoint times (n : nat) (a b : re) : re :=
  match n with
  | O => b
  | S n => Cat a (times n a b)
  end.
Fixpoint upto (n : nat) (a : re) : re :=
  match n with
  | O => Eps
  | S n => Opt (Cat a (upto n a))
  end.

(** ** What an expression matches *)
Inductive denotes : re -> list rune -> Prop :=
| d_eps : denotes Eps []
| d_cls p c : p (fst c) = true -> denotes (Cls p) [c]
| d_cat a b s t : denotes a s -> denotes b t -> denotes (Cat a b) (s ++ t)
| d_alt_l a b s : denotes a s -> denotes (Alt a b) s
| d_alt_r a b s : denotes b s -> denotes (Alt a b) s
| d_star_nil a : denotes (Star a) []
| d_star a s t : denotes a s -> s <> [] -> denotes (Star a) t -> denotes (Star a) (s ++ t).

(** ** Matching at a position

    [match_re r s k] tries the ways [r] matches a prefix of [s], best first,
    until [k] accepts the rest. *)
Fixpoint match_re {X} (r : re) (s : list rune) (k : list rune -> option X) : option X :=
  match r with
  | Eps => k s
  | Cls p => match s with
             | c :: s => if p (fst c) then k s else None
             | [] => None
             end
  | Cat a b => match_re a s (fun s => match_re b s k)
  | Alt a b => match match_re a s k with
               | Some x => Some x
               | None => match_re b s k
               end
  | Star a =>
      (fix star (n : nat) (s : list rune) : option X :=
         match n with
         | O => k s
         | S n => match match_re a s (fun s' => if decide (length s' < length s)%nat then star n s' else None) with
                  | Some x => Some x
                  | None => k s
                  end
         end) (length s) s
  end.

(** The match the leftmost position has: what is before it, itself, and what
    is after. *)
Fixpoint find (r : re) (s : list rune) : option (list rune * list rune * list rune) :=
  match match_re r s Some with
  | Some rest => Some ([], take (length s - length rest) s, rest)
  | None =>
      match s with
      | [] => None
      | c :: s => match find r s with
                  | Some (pre, m, post) => Some (c :: pre, m, post)
                  | None => None
                  end
      end
  end.

(** [FindString]. *)
Definition FindString (r : re) (s : list Z) : list Z :=
  match find r (runes s) with
  | Some (_, m, _) => unrune m
  | None => []
  end.

(** The matches one after the other, as [FindAll] does where none is empty. *)
Fixpoint find_all (fuel : nat) (r : re) (s : list rune) : list (list rune) :=
  match fuel with
  | O => []
  | S fuel =>
      match find r s with
      | Some (_, m, post) => m :: if decide (m = []) then [] else find_all fuel r post
      | None => []
      end
  end.
Definition FindAll (r : re) (s : list Z) : list (list rune) := find_all (S (length s)) r (runes s).

(** [MatchString] of [^r$]. *)
Definition MatchWhole (r : re) (s : list Z) : bool :=
  match match_re r (runes s) (fun rest => match rest with [] => Some tt | _ => None end) with
  | Some _ => true
  | None => false
  end.

(** ** The matcher is sound and complete *)
Lemma match_re_sound {X} r : forall s (k : list rune -> option X) x, match_re r s k = Some x ->
  exists a b, s = a ++ b /\ denotes r a /\ k b = Some x.
Proof.
  induction r as [|p|a IHa b IHb|a IHa b IHb|a IHa]; intros s k x H; cbn in H.
  - exists [], s. split; [done|]. split; [constructor|done].
  - destruct s as [|c s]; [done|]. destruct (p (fst c)) eqn:E; [|done]. exists [c], s. split; [done|]. split; [by constructor|done].
  - apply IHa in H as (u & v & -> & Hu & H). apply IHb in H as (v1 & v2 & -> & Hv & H). exists (u ++ v1), v2.
    rewrite <- app_assoc. split; [done|]. split; [by constructor|done].
  - destruct (match_re a s k) as [y|] eqn:E.
    + injection H as ->. apply IHa in E as (u & v & -> & Hu & E). exists u, v. split; [done|]. split; [by apply d_alt_l|done].
    + apply IHb in H as (u & v & -> & Hu & H). exists u, v. split; [done|]. split; [by apply d_alt_r|done].
  - revert H. generalize (length s) at 1. intros n. revert s. induction n as [|n IHn]; intros s H.
    + exists [], s. split; [done|]. split; [constructor|done].
    + match type of H with context [match ?m with Some _ => _ | None => _ end] => destruct m as [y|] eqn:E end.
      * injection H as ->. apply IHa in E as (u & v & -> & Hu & E). case_decide as El; [|done].
        apply IHn in E as (v1 & v2 & -> & Hv & E). exists (u ++ v1), v2. rewrite <- app_assoc. split; [done|]. split; [|done].
        constructor; [done| |done]. intros ->. cbn in El. lia.
      * exists [], s. split; [done|]. split; [constructor|done].
Qed.

Lemma denotes_star_steps a s : denotes (Star a) s -> s = [] \/ exists u v, s = u ++ v /\ u <> [] /\ denotes a u /\ denotes (Star a) v.
Proof.
  intros H. inversion H; subst; [by left|]. right. by exists s0, t.
Qed.

Lemma match_re_complete {X} r : forall a b (k : list rune -> option X), denotes r a -> is_Some (k b) -> is_Some (match_re r (a ++ b) k).
Proof.
  induction r as [|p|r1 IH1 r2 IH2|r1 IH1 r2 IH2|r IH]; intros a b k Hd Hk; cbn.
  - inversion Hd; subst. done.
  - inversion Hd; subst. cbn. by match goal with H : p _ = true |- _ => rewrite H end.
  - inversion Hd; subst. rewrite <- app_assoc. apply IH1; [done|]. by apply IH2.
  - destruct (match_re r1 (a ++ b) k) eqn:E; [by eexists|]. inversion Hd; subst; [|by apply IH2].
    destruct (IH1 a b k) as [y Hy]; [done|done|]. congruence.
  - assert (forall n, (length a <= n)%nat -> is_Some ((fix star (n : nat) (s : list rune) : option X :=
         match n with
         | O => k s
         | S n => match match_re r s (fun s' => if decide (length s' < length s)%nat then star n s' else None) with
                  | Some x => Some x
                  | None => k s
                  end
         end) n (a ++ b))) as H; [|by apply H; rewrite length_app; lia].
    intros n. revert a Hd. induction n as [|n IHn]; intros a Hd Hn.
    + destruct a; [done|cbn in Hn; lia].
    + match goal with |- context [match ?m with Some _ => _ | None => _ end] => destruct m as [y|] eqn:E end; [by eexists|].
      apply denotes_star_steps in Hd as [->|(u & v & -> & Hu & H1 & H2)]; [done|].
      exfalso. rewrite length_app in Hn. assert (1 <= length u)%nat by (destruct u; [done|cbn; lia]).
      rewrite <- app_assoc in E. edestruct (IH u (v ++ b)) as [y Hy]; [exact H1| |by erewrite E in Hy].
      cbn. rewrite decide_True by (rewrite !length_app; lia). apply IHn; [done|lia].
Qed.

Lemma find_spec r s :
  match find r s with
  | Some (pre, m, post) => s = pre ++ m ++ post /\ denotes r m /\
      forall i a b, (i < length pre)%nat -> drop i s = a ++ b -> ~ denotes r a
  | None => forall i a b, (i <= length s)%nat -> drop i s = a ++ b -> ~ denotes r a
  end.
Proof.
  induction s as [|c s IH]; cbn [find].
  - destruct (match_re r [] Some) as [rest|] eqn:E.
    + apply match_re_sound in E as (a & b & Hab & Ha & [= ->]). symmetry in Hab. apply app_eq_nil in Hab as [-> ->]. cbn. split; [done|]. split; [done|lia].
    + intros i a b Hi Hd Ha. destruct i; [|cbn in Hi; lia]. cbn in Hd. rewrite Hd in E. edestruct (match_re_complete r a b Some Ha); [by eexists|congruence].
  - destruct (match_re r (c :: s) Some) as [rest|] eqn:E.
    + apply match_re_sound in E as (a & b & Hab & Ha & [= ->]). rewrite Hab, length_app, Nat.add_sub, take_app_length. split; [done|]. split; [done|cbn; lia].
    + assert (forall a b, c :: s = a ++ b -> ~ denotes r a) as H0.
      { intros a b Hab Ha. rewrite Hab in E. edestruct (match_re_complete r a b Some Ha); [by eexists|congruence]. }
      destruct (find r s) as [[[pre m] post]|].
      * destruct IH as (-> & Hm & Hleft). split; [done|]. split; [done|]. intros [|i] a b Hi Hd; [by eapply H0|]. eapply Hleft; [|exact Hd]. cbn in Hi. lia.
      * intros [|i] a b Hi Hd; [by eapply H0|]. eapply IH; [|exact Hd]. cbn in Hi. lia.
Qed.

(** ** Examples *)
Definition digit : re := Cls (within 48 57).
Example regex_find : FindString (Cat (Plus digit) (Chr 46)) (bs "ab12.3.") = bs "12.".
Proof. vm_compute. reflexivity. Qed.
