(* ===== verification/Sanitize.v ===== *)
(** * Names made safe ([internal/fsutil/sanitize.go])

    [norm.NFC.String] and the diacritics transformer of [golang.org/x/text]
    are parameters, and so are the compiled patterns of a cleanup list and
    what [os.Lstat] answers. *)
From S2P Require Import Prelude GoBytes GoText.
From stdpp Require Import base numbers gmap list strings.
From Stdlib Require Import ZArith Lia.
Local Open Scope Z_scope.

Definition reservedNames : list (list Z) :=
  [bs "CON"; bs "PRN"; bs "AUX"; bs "NUL";
   bs "COM1"; bs "COM2"; bs "COM3"; bs "COM4"; bs "COM5"; bs "COM6"; bs "COM7"; bs "COM8"; bs "COM9";
   bs "LPT1"; bs "LPT2"; bs "LPT3"; bs "LPT4"; bs "LPT5"; bs "LPT6"; bs "LPT7"; bs "LPT8"; bs "LPT9"].

Definition maxFilenameBytes : Z := 255.
Definition maxExtensionLen : Z := 20.

(** A cleanup pattern is what replacing its matches by nothing does. *)
Record SanitizeOptions : Type := mkSanitize {
  ReplaceIllegalWith : list Z;
  ReplaceSpacesWith : list Z;
  StripDiacritics : bool;
  CleanupRegexps : list (list Z -> list Z);
}.
Definition noSanitizeOptions : SanitizeOptions := mkSanitize [] [] false [].

(** Bytes 0 to 31 and the characters after them. *)
Definition illegalChars : list Z := (Z.of_nat <$> seq 0 32) ++ bs "\/:*?" ++ [34] ++ bs "<>|".

(** Whether [CheckReplacement] accepts [s]. *)
Definition CheckReplacement (s : list Z) : bool := negb (ContainsAny s illegalChars).

(** [strings.ToLower] changes no rune outside ASCII into a character of the
    names compared with, so only ASCII letters matter here. *)
Fixpoint device_in (lower : list Z) (names : list (list Z)) : bool :=
  match names with
  | [] => false
  | res :: names =>
      let resLower := ToLower res in
      bool_decide (lower = resLower) || HasPrefix lower (resLower ++ [dot]) || device_in lower names
  end.

Definition replaceWinDevices (name : list Z) : list Z :=
  let lower := ToLower name in
  if device_in lower reservedNames then 95 :: name
  else if HasPrefix lower (bs "$mft") then 83 :: drop 1 name
  else name.

Fixpoint cut_back (cut : nat) (s : list Z) : nat :=
  match cut with
  | O => O
  | S k => match s !! cut with
           | Some b => if RuneStart b then cut else cut_back k s
           | None => cut
           end
  end.

Definition truncateOnRuneBoundary (s : list Z) (maxBytes : Z) : list Z :=
  if decide (maxBytes < 1) then []
  else if decide (Z.of_nat (length s) <= maxBytes) then s
  else take (cut_back (Z.to_nat maxBytes) s) s.

Definition truncateFilename (filename : list Z) (maxBytes : Z) : list Z :=
  if decide (Z.of_nat (length filename) <= maxBytes) then filename
  else
    let ext := truncateOnRuneBoundary (Ext filename) maxExtensionLen in
    let base := take (length filename - length (Ext filename)) filename in
    let maxBaseBytes := maxBytes - Z.of_nat (length ext) in
    if decide (maxBaseBytes <= 0) then truncateOnRuneBoundary filename maxBytes
    else truncateOnRuneBoundary base maxBaseBytes ++ ext.

Definition dot_or_space (r : Z) : bool := (r =? dot) || IsSpace r.
Definition trimTrailingDotAndSpace (s : list Z) : list Z := TrimRightFunc dot_or_space s.

Section sanitize.
Variable NFC : list Z -> list Z.
Variable stripDiacritics : list Z -> list Z.

(** The replacements the options give, where they are usable. *)
Definition illegalReplacement (opts : SanitizeOptions) : list Z :=
  if bool_decide (ReplaceIllegalWith opts = []) || negb (CheckReplacement (ReplaceIllegalWith opts)) then [95] else ReplaceIllegalWith opts.

Definition replace_spaces (opts : SanitizeOptions) (name : list Z) : list Z :=
  if negb (bool_decide (ReplaceSpacesWith opts = [])) && CheckReplacement (ReplaceSpacesWith opts)
  then ReplaceAllByte name 32 (ReplaceSpacesWith opts) else name.

Definition sanitizeCore (name : list Z) (opts : SanitizeOptions) : list Z :=
  let name := NFC name in
  let name := if StripDiacritics opts then stripDiacritics name else name in
  let name := foldl (fun name char => ReplaceAllByte name char (illegalReplacement opts)) name illegalChars in
  let name := replace_spaces opts name in
  replaceWinDevices (TrimSpace name).

Definition SanitizeFilename (filename : list Z) (opts : SanitizeOptions) : list Z :=
  if decide (filename = []) then bs "unknown"
  else
    let filename := sanitizeCore filename opts in
    let filename := trimTrailingDotAndSpace filename in
    let filename := truncateFilename filename maxFilenameBytes in
    let filename := trimTrailingDotAndSpace filename in
    if decide (filename = []) then bs "unknown" else filename.

Definition SanitizeFolderName (foldername : list Z) (opts : SanitizeOptions) : list Z :=
  if decide (foldername = []) then bs "unknown"
  else
    let foldername := sanitizeCore foldername opts in
    let foldername := if decide (Z.of_nat (length foldername) > maxFilenameBytes)
                      then truncateFilename foldername maxFilenameBytes else foldername in
    let foldername := trimTrailingDotAndSpace foldername in
    if decide (foldername = []) then bs "unknown" else foldername.

(** [JoinSafe] up to [filepath.Join]: the components it joins to the base. *)
Definition JoinSafe (folder file : list Z) (opts : SanitizeOptions) : list (list Z) :=
  let folder := if decide (folder = []) then [] else SanitizeFolderName folder opts in
  let file := if decide (file = []) then [] else SanitizeFilename file opts in
  if decide (folder <> [] /\ file <> []) then [folder; file]
  else if decide (folder <> []) then [folder]
  else if decide (file <> []) then [file]
  else [].
End sanitize.

Definition CleanupName (name : list Z) (opts : SanitizeOptions) : list Z :=
  TrimSpace (foldl (fun name re => re name) name (CleanupRegexps opts)).

(** ** A free name *)
Inductive lstat_result : Type := Exists_ | NotExist | OtherError.
#[export] Instance lstat_result_eq_dec : EqDecision lstat_result.
Proof. solve_decision. Defined.

Definition maxAttempts : Z := 10000.

(** [base.i.ext] *)
Definition numbered (base : list Z) (i : Z) (ext : list Z) : list Z := base ++ [dot] ++ print_dec i ++ ext.

Fixpoint try_suffixes (fuel : nat) (lstat : list Z -> lstat_result) (base ext : list Z) (i : Z) : list Z :=
  match fuel with
  | O => numbered base maxAttempts ext
  | S k =>
      let newPath := numbered base i ext in
      if decide (lstat newPath = Exists_) then try_suffixes k lstat base ext (i + 1) else newPath
  end.

Definition GetUniqueFilename (lstat : list Z -> lstat_result) (path : list Z) : list Z :=
  if decide (lstat path = NotExist) then path
  else
    let ext := Ext path in
    let base := take (length path - length ext) path in
    try_suffixes (Z.to_nat maxAttempts) lstat base ext 1.

(** ** Examples *)
Example sanitize_traversal : SanitizeFilename id id (bs "../../etc/passwd") noSanitizeOptions = bs ".._.._etc_passwd".
Proof. vm_compute. reflexivity. Qed.
Example sanitize_device : SanitizeFilename id id (bs "Con.txt") noSanitizeOptions = bs "_Con.txt".
Proof. vm_compute. reflexivity. Qed.
