(* ===== verification/SanitizeProps.v ===== *)
(** * Sanitized names are path components

    Whatever the name and the options: one non-empty component of at most
    255 bytes, without separators or control characters, that does not end
    in a dot or a space; and sanitizing an ASCII name again changes nothing
    unless trimming has uncovered a device name. *)
From S2P Require Import Prelude GoBytes GoText Sanitize.
From stdpp Require Import base numbers gmap list strings.
From Stdlib Require Import ZArith Lia.
Local Open Scope Z_scope.

Definition legal (b : Z) : Prop := b ∉ illegalChars.

Record component (s : list Z) : Prop := {
  co_nonempty : s <> [];
  co_length : Z.of_nat (length s) <= maxFilenameBytes;
  co_legal : Forall legal s;
  co_last : forall b, last s = Some b -> b <> dot /\ b <> 32;
}.

(** ** Pieces of a name *)
Section pieces.
Variable P : Z -> Prop.

Lemma after_last_Forall c s r : after_last c s = Some r -> Forall P s -> Forall P r.
Proof.
  revert r. induction s as [|b s IH]; intros r H HP; [done|]. apply Forall_cons in HP as [_ HP]. cbn in H.
  destruct (after_last c s) as [r'|]; [injection H as <-; by apply IH|]. destruct (b =? c); [by injection H as <-|done].
Qed.

Lemma Ext_Forall s : P dot -> Forall P s -> Forall P (Ext s).
Proof.
  intros Hd HP. unfold Ext. destruct (after_last dot _) as [r|] eqn:E; [|constructor]. constructor; [done|].
  eapply after_last_Forall; [exact E|]. destruct (after_last slash s) as [t|] eqn:Et; [by eapply after_last_Forall|done].
Qed.

Lemma truncateOnRuneBoundary_Forall s n : Forall P s -> Forall P (truncateOnRuneBoundary s n).
Proof. intros H. unfold truncateOnRuneBoundary. repeat case_decide; [constructor|done|by apply Forall_take]. Qed.

Lemma truncateFilename_Forall s n : P dot -> Forall P s -> Forall P (truncateFilename s n).
Proof.
  intros Hd H. unfold truncateFilename. repeat case_decide; [done|by apply truncateOnRuneBoundary_Forall|].
  apply Forall_app. split; apply truncateOnRuneBoundary_Forall; [by apply Forall_take|by apply Ext_Forall].
Qed.

Lemma ReplaceAllByte_Forall s c new : Forall P new -> (forall b, b ∈ s -> b <> c -> P b) -> Forall P (ReplaceAllByte s c new).
Proof.
  intros Hn Hs. unfold ReplaceAllByte. induction s as [|b s IH]; [constructor|]. cbn. apply Forall_app. split.
  - destruct (b =? c) eqn:E; [done|]. apply Forall_singleton, Hs; [by left|]. by apply Z.eqb_neq.
  - apply IH. intros x Hx. apply Hs. by right.
Qed.

Lemma replaceWinDevices_Forall s : P 95 -> P 83 -> Forall P s -> Forall P (replaceWinDevices s).
Proof.
  intros H1 H2 H. unfold replaceWinDevices. repeat case_match; [by constructor|constructor; [done|by apply Forall_drop]|done].
Qed.
End pieces.

Lemma cut_back_le n s : (cut_back n s <= n)%nat.
Proof. induction n as [|n IH]; [done|]. unfold cut_back; fold cut_back. destruct (s !! S n) as [b|]; [destruct (RuneStart b)|]; lia. Qed.

Lemma truncateOnRuneBoundary_length s n : 0 <= n -> Z.of_nat (length (truncateOnRuneBoundary s n)) <= n.
Proof.
  intros Hn. unfold truncateOnRuneBoundary. repeat case_decide; cbn; try lia. rewrite length_take. pose proof (cut_back_le (Z.to_nat n) s). lia.
Qed.

Lemma truncateFilename_length s n : maxExtensionLen <= n -> Z.of_nat (length (truncateFilename s n)) <= n.
Proof.
  intros Hn. unfold truncateFilename. pose proof (truncateOnRuneBoundary_length (Ext s) maxExtensionLen) as He. unfold maxExtensionLen in *.
  repeat case_decide; [lia|apply truncateOnRuneBoundary_length; lia|]. rewrite length_app.
  pose proof (truncateOnRuneBoundary_length (take (length s - length (Ext s)) s) (n - Z.of_nat (length (truncateOnRuneBoundary (Ext s) 20)))) as Hb. lia.
Qed.

Lemma truncateFilename_id s n : Z.of_nat (length s) <= n -> truncateFilename s n = s.
Proof. intros H. unfold truncateFilename. by rewrite decide_True. Qed.

Lemma trimTrailing_length s : (length (trimTrailingDotAndSpace s) <= length s)%nat.
Proof. destruct (TrimRightFunc_prefix dot_or_space s) as [k E]. unfold trimTrailingDotAndSpace. rewrite E at 2. rewrite length_app. lia. Qed.

(** ** The core *)
Lemma CheckReplacement_legal s : CheckReplacement s = true <-> Forall legal s.
Proof.
  unfold CheckReplacement, ContainsAny. rewrite negb_true_iff. split.
  - intros H. apply Forall_forall. intros b Hb Hi. apply not_true_iff_false in H. apply H, existsb_exists.
    exists b. split; [by apply list_elem_of_In|]. apply existsb_exists. exists b. split; [by apply list_elem_of_In|apply Z.eqb_refl].
  - intros H. apply not_true_iff_false. intros (b & Hb & Hi)%existsb_exists. rewrite Forall_forall in H. apply (H b); [by apply list_elem_of_In|].
    apply existsb_exists in Hi as (c & Hc & ->%Z.eqb_eq). by apply list_elem_of_In.
Qed.

Lemma illegalReplacement_legal opts : Forall legal (illegalReplacement opts).
Proof.
  unfold illegalReplacement. destruct (_ || _) eqn:E; [apply CheckReplacement_legal; reflexivity|].
  apply orb_false_iff in E as [_ E]. apply CheckReplacement_legal. by apply negb_false_iff.
Qed.

(** Replacing every illegal character, one after the other. *)
Lemma replace_illegal_legal new chars : forall done s, Forall (fun b => b ∉ done) s -> Forall legal new ->
  (forall c, c ∈ done ++ chars -> c ∈ illegalChars) ->
  Forall (fun b => b ∉ done ++ chars) (foldl (fun name char => ReplaceAllByte name char new) s chars).
Proof.
  induction chars as [|c chars IH]; intros done s Hs Hn Hc; cbn [foldl]; [by rewrite app_nil_r|].
  rewrite (cons_middle c done chars), app_assoc. apply IH; [|done|].
  - apply ReplaceAllByte_Forall.
    + eapply Forall_impl; [exact Hn|]. intros b Hb Hin. apply Hb, Hc. set_solver.
    + intros b Hb Hne. rewrite Forall_forall in Hs. specialize (Hs b Hb). rewrite elem_of_app, list_elem_of_singleton. tauto.
  - intros x Hx. apply Hc. set_solver.
Qed.

Lemma replace_spaces_legal opts s : Forall legal s -> Forall legal (replace_spaces opts s).
Proof.
  intros H. unfold replace_spaces. destruct (_ && _) eqn:E; [|done]. apply andb_true_iff in E as [_ E]. apply ReplaceAllByte_Forall; [by apply CheckReplacement_legal|].
  intros b Hb _. rewrite Forall_forall in H. by apply H.
Qed.

Lemma legal_unpack b : bool_decide (b ∈ illegalChars) = false -> legal b.
Proof. by intros H%bool_decide_eq_false. Qed.

Lemma sanitizeCore_legal NFC strip name opts : Forall legal (sanitizeCore NFC strip name opts).
Proof.
  unfold sanitizeCore. apply replaceWinDevices_Forall; [by apply legal_unpack|by apply legal_unpack|].
  apply TrimSpace_sub, replace_spaces_legal.
  apply (replace_illegal_legal _ _ []); [apply Forall_forall; by intros ? _ ?%elem_of_nil|apply illegalReplacement_legal|done].
Qed.

Lemma dot_legal : legal dot.
Proof. by apply legal_unpack. Qed.

(** The last step of both sanitizers. *)
Lemma trimmed_component s : Forall legal s -> Z.of_nat (length s) <= maxFilenameBytes ->
  component (let s := trimTrailingDotAndSpace s in if decide (s = []) then bs "unknown" else s).
Proof.
  intros Hl Hn. cbv zeta. case_decide as He.
  - split; [done|by cbn|apply CheckReplacement_legal; reflexivity|]. by intros b [= <-].
  - split; [done| |by apply trimmed_sub|].
    + pose proof (trimTrailing_length s). lia.
    + intros b Hb. assert (forall x, b = x -> dot_or_space x = true -> 0 <= x < 128 -> False) as H.
      { intros x -> Hx Hr. pose proof (TrimRightFunc_last _ _ _ Hb Hr). congruence. }
      split; intros ->; eapply H; done.
Qed.

Lemma legal_trim s : Forall legal s -> Forall legal (trimTrailingDotAndSpace s).
Proof. intros H. by apply trimmed_sub. Qed.

(** ** Sanitizing an ASCII name again *)
Section again.
Variable NFC : list Z -> list Z.
Variable strip : list Z -> list Z.

(** NFC leaves ASCII alone. *)
Hypothesis NFC_ascii : forall s, ascii s -> NFC s = s.

Variable opts : SanitizeOptions.
Hypothesis no_strip : StripDiacritics opts = false.
Hypothesis ascii_illegal : ascii (ReplaceIllegalWith opts).
Hypothesis ascii_spaces : ascii (ReplaceSpacesWith opts).
Hypothesis spaces_gone : 32 ∉ ReplaceSpacesWith opts.

Definition spaces_replaced : bool := negb (bool_decide (ReplaceSpacesWith opts = [])) && CheckReplacement (ReplaceSpacesWith opts).

(** A name that sanitizing leaves alone, device names apart. *)
Record settled (s : list Z) : Prop := {
  st_ascii : ascii s;
  st_component : component s;
  st_first : forall b, head s = Some b -> IsSpace b = false;
  st_last : forall b, last s = Some b -> dot_or_space b = false;
  st_spaces : spaces_replaced = true -> 32 ∉ s;
}.

Lemma ReplaceAllByte_id s c new : c ∉ s -> ReplaceAllByte s c new = s.
Proof.
  unfold ReplaceAllByte. induction s as [|b s IH]; [done|]. intros H. cbn. rewrite IH by set_solver.
  destruct (b =? c) eqn:E; [|done]. apply Z.eqb_eq in E as ->. set_solver.
Qed.

Lemma replace_illegal_id new chars s : Forall legal s -> (forall c, c ∈ chars -> c ∈ illegalChars) ->
  foldl (fun name char => ReplaceAllByte name char new) s chars = s.
Proof.
  intros Hs. induction chars as [|c chars IH]; intros Hc; [done|]. cbn. rewrite ReplaceAllByte_id; [apply IH; set_solver|].
  intros Hin. rewrite Forall_forall in Hs. apply (Hs c Hin), Hc. by left.
Qed.

Lemma settled_again s : settled s -> replaceWinDevices s = s -> SanitizeFilename NFC strip s opts = s.
Proof.
  intros [H1 [C1 C2 C3 C4] H3 H4 H5] Hd. destruct (last s) as [z|] eqn:El; [|by apply last_None in El].
  assert (0 <= z < 128) as Hz.
  { unfold ascii in H1. rewrite Forall_forall in H1. apply H1. by apply last_Some_elem_of in El. }
  assert (trimTrailingDotAndSpace s = s) as Ht by (eapply TrimRight_id_ascii; [exact El|done|by apply H4]).
  destruct s as [|a s']; [done|]. set (s := a :: s') in *.
  assert (sanitizeCore NFC strip s opts = s) as Hc.
  { unfold sanitizeCore. rewrite NFC_ascii, no_strip by done. rewrite replace_illegal_id by done. unfold replace_spaces. fold spaces_replaced.
    replace (if spaces_replaced then _ else s) with s; [|destruct spaces_replaced; [by rewrite ReplaceAllByte_id by auto|done]].
    unfold TrimSpace. rewrite (TrimLeft_id_ascii IsSpace s a); [|done| |by apply H3].
    - rewrite (TrimRight_id_ascii IsSpace s z); [done|done|done|]. specialize (H4 z eq_refl). apply orb_false_iff in H4. apply H4.
    - unfold ascii in H1. rewrite Forall_forall in H1. apply H1. by left. }
  unfold SanitizeFilename. rewrite decide_False by done. rewrite Hc, Ht, truncateFilename_id by done.
  rewrite Ht. by rewrite decide_False.
Qed.

(** *** What sanitizing returns is settled *)
Definition first_ok (s : list Z) : Prop := forall b, head s = Some b -> IsSpace b = false.

Lemma first_ok_prefix s t k : s = t ++ k -> first_ok s -> first_ok t.
Proof. intros -> H b Hb. apply H. by destruct t. Qed.

Lemma first_ok_boundary s n : first_ok s -> first_ok (truncateOnRuneBoundary s n).
Proof.
  intros H. unfold truncateOnRuneBoundary. repeat case_decide; [by intros b|done|]. eapply first_ok_prefix; [|exact H]. symmetry. apply take_drop.
Qed.

Lemma first_ok_truncate s n : first_ok s -> first_ok (truncateFilename s n).
Proof.
  intros H. unfold truncateFilename. repeat case_decide; [done|by apply first_ok_boundary|].
  assert (first_ok (truncateOnRuneBoundary (Ext s) maxExtensionLen)) as He.
  { apply first_ok_boundary. unfold Ext. destruct (after_last _ _); [by intros b [= <-]|by intros b]. }
  assert (forall u v, first_ok u -> first_ok v -> first_ok (u ++ v)) as Happ by (intros [|x u] v Hu Hv; [done|exact Hu]).
  apply Happ; [|done]. apply first_ok_boundary. eapply first_ok_prefix; [|exact H]. symmetry. apply take_drop.
Qed.

Lemma first_ok_trim s : first_ok s -> first_ok (trimTrailingDotAndSpace s).
Proof. intros H. destruct (TrimRightFunc_prefix dot_or_space s) as [k E]. by eapply first_ok_prefix. Qed.

Lemma first_ok_device s : first_ok s -> first_ok (replaceWinDevices s).
Proof. intros H. unfold replaceWinDevices. repeat case_match; [by intros b [= <-]|by intros b [= <-]|done]. Qed.

Lemma first_ok_TrimSpace s : ascii s -> first_ok (TrimSpace s).
Proof.
  intros Hs. unfold TrimSpace. destruct (TrimRightFunc_prefix IsSpace (TrimLeftFunc IsSpace s)) as [k E]. eapply first_ok_prefix; [exact E|].
  rewrite TrimLeft_ascii by done. clear. intros b Hb.
  induction s as [|x s IH]; [done|]. cbn in Hb. destruct (IsSpace x) eqn:Ex; [by apply IH|by injection Hb as <-].
Qed.

(** A property of bytes the whole pipeline keeps. *)
Lemma sanitized_Forall (P : Z -> Prop) name : P dot -> P 95 -> P 83 -> Forall P (bs "unknown") ->
  Forall P (replace_spaces opts (foldl (fun name char => ReplaceAllByte name char (illegalReplacement opts)) name illegalChars)) ->
  Forall P (let s := trimTrailingDotAndSpace (truncateFilename (trimTrailingDotAndSpace (replaceWinDevices (TrimSpace
    (replace_spaces opts (foldl (fun name char => ReplaceAllByte name char (illegalReplacement opts)) name illegalChars))))) maxFilenameBytes)
    in if decide (s = []) then bs "unknown" else s).
Proof.
  intros H1 H2 H3 H4 H. cbv zeta. case_decide; [done|].
  by apply trimmed_sub, truncateFilename_Forall, trimmed_sub, replaceWinDevices_Forall, TrimSpace_sub.
Qed.

Lemma replaced_ascii name : ascii name -> ascii (replace_spaces opts (foldl (fun name char => ReplaceAllByte name char (illegalReplacement opts)) name illegalChars)).
Proof.
  intros Hn. assert (ascii (illegalReplacement opts)) as Hr.
  { unfold illegalReplacement. destruct (_ || _); [by repeat constructor|done]. }
  assert (ascii (foldl (fun name char => ReplaceAllByte name char (illegalReplacement opts)) name illegalChars)) as Hf.
  { generalize illegalChars. intros chars. revert name Hn. induction chars as [|c chars IH]; intros name Hn; [done|]. cbn. apply IH.
    apply ReplaceAllByte_Forall; [done|]. intros b Hb _. unfold ascii in Hn. rewrite Forall_forall in Hn. by apply Hn. }
  unfold replace_spaces. destruct (_ && _); [|done]. apply ReplaceAllByte_Forall; [done|]. intros b Hb _. unfold ascii in Hf. rewrite Forall_forall in Hf. by apply Hf.
Qed.

Lemma SanitizeFilename_settled name : ascii name -> settled (SanitizeFilename NFC strip name opts).
Proof.
  intros Hn. unfold SanitizeFilename. case_decide as He.
  { split; [by repeat constructor| |by intros b [= <-]|by intros b [= <-]|].
    - split; [done|done|apply CheckReplacement_legal; reflexivity|by intros b [= <-]].
    - intros _. assert (Forall (fun b => b <> 32) (bs "unknown")) as H by (by repeat constructor). rewrite Forall_forall in H. by intros H'%H. }
  unfold sanitizeCore. rewrite no_strip, NFC_ascii by done.
  set (core := replaceWinDevices (TrimSpace _)).
  assert (Forall legal core) as Hlegal.
  { subst core. pose proof (sanitizeCore_legal NFC strip name opts) as H. unfold sanitizeCore in H. by rewrite no_strip, NFC_ascii in H by done. }
  split.
  - apply sanitized_Forall; [done|done|done|by repeat constructor|by apply replaced_ascii].
  - apply trimmed_component; [apply truncateFilename_Forall; [apply dot_legal|by apply legal_trim]|by apply truncateFilename_length].
  - cbv zeta. case_decide; [by intros b [= <-]|]. apply first_ok_trim, first_ok_truncate, first_ok_trim, first_ok_device, first_ok_TrimSpace. by apply replaced_ascii.
  - cbv zeta. case_decide; [by intros b [= <-]|]. intros b Hb. eapply TrimRightFunc_last; [exact Hb|].
    assert (ascii core) as Hcore by (subst core; apply replaceWinDevices_Forall; [done|done|by apply TrimSpace_sub, replaced_ascii]).
    assert (ascii (trimTrailingDotAndSpace (truncateFilename (trimTrailingDotAndSpace core) maxFilenameBytes))) as Ha.
    { apply trimmed_sub, truncateFilename_Forall; [done|]. by apply trimmed_sub. }
    unfold ascii in Ha. rewrite Forall_forall in Ha. apply Ha. by apply last_Some_elem_of.
  - intros Hsp Hin. assert (Forall (fun b => b <> 32) (replace_spaces opts (foldl (fun name char => ReplaceAllByte name char (illegalReplacement opts)) name illegalChars))) as H.
    { unfold replace_spaces. fold spaces_replaced. rewrite Hsp. apply ReplaceAllByte_Forall; [|done]. apply Forall_forall. intros b Hb ->. done. }
    pose proof (sanitized_Forall (fun b => b <> 32) name ltac:(done) ltac:(done) ltac:(done) ltac:(by repeat constructor) H) as Hall.
    fold core in Hall. cbv zeta in Hall. rewrite Forall_forall in Hall. by apply (Hall 32 Hin).
Qed.
End again.

Lemma unknown_component : component (bs "unknown").
Proof. split; [done|done|apply CheckReplacement_legal; reflexivity|by intros b [= <-]]. Qed.

Lemma SanitizeFilename_component NFC strip name opts : component (SanitizeFilename NFC strip name opts).
Proof.
  unfold SanitizeFilename. case_decide; [apply unknown_component|].
  apply trimmed_component; [apply truncateFilename_Forall; [apply dot_legal|apply legal_trim, sanitizeCore_legal]|by apply truncateFilename_length].
Qed.

(** ** Properties *)

(** C29: a sanitized name is one path component.  For any name, any options
    and whatever normalisation does, the result of [SanitizeFilename] and of
    [SanitizeFolderName] is not empty, has at most 255 bytes, no control
    character, separator or other reserved character, and does not end in a
    dot or a space; so it is neither "." nor "..". *)
Theorem sanitized_component NFC strip name opts :
  component (SanitizeFilename NFC strip name opts) /\ component (SanitizeFolderName NFC strip name opts).
Proof.
  pose proof (sanitizeCore_legal NFC strip name opts) as Hl. split; [apply SanitizeFilename_component|].
  unfold SanitizeFolderName. case_decide; [apply unknown_component|]. apply trimmed_component; case_decide.
  - apply truncateFilename_Forall; [apply dot_legal|done].
  - done.
  - by apply truncateFilename_length.
  - lia.
Qed.

(** sanitizing is stable.  An ASCII name, sanitized, is left alone by
    sanitizing it again, except where the first pass has trimmed it down to a
    device name. *)
Theorem sanitize_stable NFC strip opts name :
  (forall s, ascii s -> NFC s = s) -> StripDiacritics opts = false -> ascii (ReplaceIllegalWith opts) -> ascii (ReplaceSpacesWith opts) ->
  32 ∉ ReplaceSpacesWith opts -> ascii name ->
  let r := SanitizeFilename NFC strip name opts in
  replaceWinDevices r = r -> SanitizeFilename NFC strip r opts = r.
Proof. intros. by apply settled_again; [..|by apply SanitizeFilename_settled|]. Qed.

Lemma sanitize_stable_witness : let r := SanitizeFilename id id (bs " a/b  c. ") noSanitizeOptions in
  r = bs "a_b  c" /\ SanitizeFilename id id r noSanitizeOptions = r.
Proof.
  split; [vm_compute; reflexivity|]. apply (sanitize_stable id id noSanitizeOptions (bs " a/b  c. ")).
  - done.
  - reflexivity.
  - constructor.
  - constructor.
  - by intros ?%elem_of_nil.
  - apply (bool_decide_unpack _). vm_compute. reflexivity.
  - vm_compute. reflexivity.
Defined.

(** The trim after the device check can uncover a device name: the result is
    one, and sanitizing it again changes it. *)
Example trimmed_to_device : SanitizeFilename id id (bs "con .") noSanitizeOptions = bs "con" /\
  SanitizeFilename id id (bs "con") noSanitizeOptions = bs "_con".
Proof. split; vm_compute; reflexivity. Qed.

(** ** A free name *)
Lemma try_suffixes_spec lstat base ext n : forall i, 
  (exists j, i <= j < i + Z.of_nat n /\ try_suffixes n lstat base ext i = numbered base j ext /\ lstat (numbered base j ext) <> Exists_ /\
    forall k, i <= k < j -> lstat (numbered base k ext) = Exists_) \/
  (try_suffixes n lstat base ext i = numbered base maxAttempts ext /\ forall k, i <= k < i + Z.of_nat n -> lstat (numbered base k ext) = Exists_).
Proof.
  induction n as [|n IH]; intros i; [right; split; [done|lia]|]. cbn [try_suffixes]. case_decide as Hl.
  - destruct (IH (i + 1)) as [(j & H1 & H2 & H3 & H4)|[H1 H2]].
    + left. exists j. split; [lia|]. split; [done|]. split; [done|]. intros k Hk. destruct (decide (k = i)) as [->|]; [done|apply H4; lia].
    + right. split; [done|]. intros k Hk. destruct (decide (k = i)) as [->|]; [done|apply H2; lia].
  - left. exists i. split; [lia|]. split; [done|]. split; [done|lia].
Qed.

(** [GetUniqueFilename] returns a path that exists only if its path and all
    its ten thousand numbered forms do. *)
Lemma GetUniqueFilename_free lstat path : let r := GetUniqueFilename lstat path in
  lstat r = Exists_ -> forall k, 1 <= k <= maxAttempts -> lstat (numbered (take (length path - length (Ext path)) path) k (Ext path)) = Exists_.
Proof.
  unfold GetUniqueFilename. cbv zeta. case_decide as Hp; [by rewrite Hp|]. intros Hr k Hk.
  destruct (try_suffixes_spec lstat (take (length path - length (Ext path)) path) (Ext path) (Z.to_nat maxAttempts) 1) as [(j & _ & H2 & H3 & _)|[_ H]].
  - by rewrite <- H2 in H3.
  - apply H. unfold maxAttempts in *. lia.
Qed.

