(* ===== verification/Nzb.v ===== *)
(** * NZB documents ([internal/nzb])

    Subject lines, the checks of a segment, a document's files and counters,
    and compression envelopes.  The XML decoder is what it delivers: the
    start elements the parser sees, each with what decoding it yields.  The
    decompressors, normalisation and the Unicode letter and number tables
    beyond ASCII are parameters. *)
From S2P Require Import Prelude GoBytes GoText Md5 Regex Sanitize.
From stdpp Require Import base numbers gmap sorting list strings.
From Stdlib Require Import ZArith Lia.
Local Open Scope Z_scope.

(** ** The file name in a subject line *)
Section subject.
(** Letters and numbers among the runes from 128. *)
Variable unicode_LN : Z -> bool.

Definition upper_lower (r : Z) : bool := within 65 90 r || within 97 122 r.
Definition word (r : Z) : bool := (if r <? 128 then upper_lower r || within 48 57 r else unicode_LN r) || (r =? 95).
Definition name_char (r : Z) : bool := word r || existsb (Z.eqb r) (bs "-_+()' .,").
Definition bracket_char (r : Z) : bool := word r || existsb (Z.eqb r) (bs "-_/+()' .,").
Definition ext_char (r : Z) : bool := upper_lower r || within 48 57 r.

Definition reSubjectBasicFilename : re :=
  Cat (Cls word) (Cat (Star (Cls name_char))
    (Cat (Star (Cat (Chr 91) (Cat (Star (Cls bracket_char)) (Cat (Chr 93) (Star (Cls name_char))))))
      (Cat (Chr 46) (times 2 (Cls ext_char) (upto 2 (Cls ext_char)))))).

Definition reSubjectFilenameQuotes : re := Cat (Chr 34) (Cat (Star (Cls (fun r => negb (r =? 34)))) (Chr 34)).
Definition reBracketGroups : re := Cat (Chr 91) (Cat (Plus (Cls (fun r => negb (r =? 93)))) (Chr 93)).

Definition hex_char (r : Z) : bool := within 48 57 r || within 65 70 r || within 97 102 r.
Definition rePureHex : re := times 16 (Cls hex_char) (Star (Cls hex_char)).

(** Without regard to case, [[a-z0-9]] takes in the long s and the Kelvin
    sign. *)
Definition folded_char (r : Z) : bool := ext_char r || (r =? 383) || (r =? 8490).
Definition reExcessiveObfuscation : re :=
  times 16 (Cls hex_char) (Cat (Star (Cls hex_char)) (Cat (Chr 46) (times 2 (Cls folded_char) (upto 2 (Cls folded_char))))).

Definition isExcessivelyObfuscated (name : list Z) : bool := MatchWhole reExcessiveObfuscation name.

(** The first group of a match between two delimiters. *)
Definition inner (m : list rune) : list Z := unrune (removelast (tail m)).

Definition parsePRiVATESubject (subject : list Z) : list Z :=
  if negb (bool_decide (ToLower (take 9 subject) = bs "[private]")) then []
  else match FindAll reBracketGroups subject !! 2%nat with
       | Some m => if MatchWhole rePureHex (inner m) then [] else inner m
       | None => []
       end.

(** [pick]: whether the name is to be used now, and the hexadecimal fallback
    kept so far. *)
Definition pick (hexName name : list Z) : bool * list Z :=
  if decide (name = []) then (false, hexName)
  else if negb (isExcessivelyObfuscated name) then (true, hexName)
  else (false, if decide (hexName = []) then name else hexName).

Definition trim_cutset (cut s : list Z) : list Z := TrimRight (drop_while (fun b => existsb (Z.eqb b) cut) s) cut.

Fixpoint pick_quoted (hexName : list Z) (matches : list (list rune)) : option (list Z) * list Z :=
  match matches with
  | [] => (None, hexName)
  | m :: matches =>
      let name := trim_cutset [32; 34] (inner m) in
      let '(use, hexName) := pick hexName name in
      if use then (Some name, hexName) else pick_quoted hexName matches
  end.

Definition ExtractFilenameFromSubject (subject : list Z) : list Z :=
  let private := parsePRiVATESubject subject in
  let '(use, hexName) := pick [] private in
  if use then private
  else
    let '(quoted, hexName) := pick_quoted hexName (FindAll reSubjectFilenameQuotes subject) in
    match quoted with
    | Some name => name
    | None =>
        if decide (hexName <> []) then hexName
        else
          let name := TrimSpace (FindString reSubjectBasicFilename subject) in
          if decide (name <> []) then name else subject
    end.
End subject.

(** ** Message identifiers *)
Definition maxArticleSize : Z := 8388608.
Definition maxMessageIDOctets : Z := 495.
Definition rfcMessageIDOctets : Z := 248.
Definition unfetchableMessageIDBytes : list Z := [32; 9; 13; 10; 0; 60; 62].

Definition MessageIDIsFetchable (id : list Z) : bool :=
  negb (bool_decide (id = [])) && bool_decide (Z.of_nat (length id) <= maxMessageIDOctets) && negb (ContainsAny id unfetchableMessageIDBytes).

Definition normaliseMessageID (raw : list Z) : list Z :=
  let id := TrimSpace raw in
  if bool_decide (2 <= length id)%nat && bool_decide (head id = Some 60) && bool_decide (last id = Some 62)
  then TrimSpace (take (length id - 2) (drop 1 id)) else id.

Definition nonPrintableASCII (id : list Z) : bool := existsb (fun b => bool_decide (b < 33 \/ b > 126)) id.

(** ** Segments and files *)
Record xmlSegment : Type := mkXmlSegment { xs_Bytes : Z; xs_Number : Z; xs_ID : list Z }.
Record xmlFile : Type := mkXmlFile { xf_Subject : list Z; xf_Date : list Z; xf_Groups : list (list Z); xf_Segments : list xmlSegment }.
Record xmlMeta : Type := mkXmlMeta { xm_Type : list Z; xm_Value : list Z }.

Record NArticle : Type := mkNArticle { na_ID : list Z; na_Bytes : Z; na_Number : Z }.
Record NFile : Type := mkNFile { nf_Subject : list Z; nf_Date : Z; nf_Groups : list (list Z); nf_Articles : list NArticle; nf_Bytes : Z }.

Record articleCounters : Type := mkCounters {
  dupes : Z; dupeIDs : Z; bad : Z; emptyID : Z; oversizeID : Z; malformedID : Z; nonConformantID : Z; nonASCIIID : Z; missingAtID : Z;
}.
Definition zeroCounters : articleCounters := mkCounters 0 0 0 0 0 0 0 0 0.
Definition addCounters (a b : articleCounters) : articleCounters :=
  mkCounters (dupes a + dupes b) (dupeIDs a + dupeIDs b) (bad a + bad b) (emptyID a + emptyID b) (oversizeID a + oversizeID b)
    (malformedID a + malformedID b) (nonConformantID a + nonConformantID b) (nonASCIIID a + nonASCIIID b) (missingAtID a + missingAtID b).

(** What a segment adds to the counters. *)
Inductive rejection : Type := RDupe | RDupeID | RBad | REmpty | ROversize | RMalformed.
Definition count_rejection (c : articleCounters) (r : rejection) : articleCounters :=
  addCounters c
    match r with
    | RDupe => mkCounters 1 0 0 0 0 0 0 0 0
    | RDupeID => mkCounters 0 1 0 0 0 0 0 0 0
    | RBad => mkCounters 0 0 1 0 0 0 0 0 0
    | REmpty => mkCounters 0 0 0 1 0 0 0 0 0
    | ROversize => mkCounters 0 0 0 0 1 0 0 0 0
    | RMalformed => mkCounters 0 0 0 0 0 1 0 0 0
    end.

(** The parser's running state: the digest is over the bytes written to it. *)
Record partitioned : Type := mkPartition {
  byPart : gmap Z NArticle;
  counters : articleCounters;
  digest : list Z;
  seenIDs : gset (list Z);
}.

Definition reject (p : partitioned) (r : rejection) : partitioned := mkPartition (byPart p) (count_rejection (counters p) r) (digest p) (seenIDs p).

Definition one (b : bool) : Z := if b then 1 else 0.

Definition partition_step (p : partitioned) (s : xmlSegment) : partitioned :=
  let id := normaliseMessageID (xs_ID s) in
  if decide (xs_Number s <= 0) then p
  else if decide (id = []) then reject p REmpty
  else if decide (Z.of_nat (length id) > maxMessageIDOctets) then reject p ROversize
  else if ContainsAny id unfetchableMessageIDBytes then reject p RMalformed
  else match byPart p !! xs_Number s with
       | Some prev => if decide (na_ID prev <> id) then reject p RDupe else p
       | None =>
           if decide (id ∈ seenIDs p) then reject p RDupeID
           else if decide (xs_Bytes s <= 0 \/ xs_Bytes s >= maxArticleSize) then reject p RBad
           else
             mkPartition (<[xs_Number s := mkNArticle id (xs_Bytes s) (xs_Number s)]> (byPart p))
               (addCounters (counters p) (mkCounters 0 0 0 0 0 0 (one (bool_decide (Z.of_nat (length id) > rfcMessageIDOctets)))
                  (one (nonPrintableASCII id)) (one (negb (ContainsByte id 64)))))
               (digest p ++ id) ({[id]} ∪ seenIDs p)
       end.

Definition partitionSegments (segments : list xmlSegment) (digest : list Z) (seenIDs : gset (list Z)) : partitioned :=
  foldl partition_step (mkPartition ∅ zeroCounters digest seenIDs) segments.

(** [normalizeFileStruct]: the articles by part number, and their bytes in
    64 bits. *)
Definition sorted_parts (byPart : gmap Z NArticle) : list Z := merge_sort Z.le (fst <$> map_to_list byPart).
Definition sorted_articles (byPart : gmap Z NArticle) : list NArticle := omap (fun p => byPart !! p) (sorted_parts byPart).
Definition total_bytes (l : list NArticle) : Z := foldl (fun n a => wraps 64 (n + na_Bytes a)) 0 l.

Section convert.
Variable unicode_LN : Z -> bool.
Variable NFC : list Z -> list Z.
Variable stripDiacritics : list Z -> list Z.

(** A file with the timestamp it contributes and the state after it. *)
Definition convertFile (xf : xmlFile) (now : Z) (digest : list Z) (seenIDs : gset (list Z)) : NFile * Z * partitioned :=
  let subject := SanitizeFilename NFC stripDiacritics (ExtractFilenameFromSubject unicode_LN (xf_Subject xf)) noSanitizeOptions in
  let ts := match ParseInt (TrimSpace (xf_Date xf)) with Some n => n | None => now end in
  let p := partitionSegments (xf_Segments xf) digest seenIDs in
  let articles := sorted_articles (byPart p) in
  (mkNFile subject ts (xf_Groups xf) articles (total_bytes articles), if decide (articles = []) then 0 else ts, p).

(** ** A document *)
Record ParserLimits : Type := mkLimits { MaxNZBSize : Z; MaxFiles : Z; MaxSegments : Z }.
Definition maxNZBSize : Z := 256 * 1024 * 1024.
Definition maxFiles : Z := 50000.
Definition maxSegments : Z := 500000.
Definition normalized (l : ParserLimits) : ParserLimits :=
  mkLimits (if decide (MaxNZBSize l <= 0) then maxNZBSize else MaxNZBSize l)
    (if decide (MaxFiles l <= 0) then maxFiles else MaxFiles l)
    (if decide (MaxSegments l <= 0) then maxSegments else MaxSegments l).

Inductive nzb_err : Type :=
| ErrNoFiles | ErrReadToken | ErrDecodeHead | ErrDecodeFile | ErrFileLimit | ErrSegmentLimit | ErrEmptyInput | ErrEnvelope
| ErrTooLarge | ErrDepth.
#[export] Instance nzb_err_eq_dec : EqDecision nzb_err.
Proof. solve_decision. Defined.

(** What the XML decoder delivers next, before the end: a start element of
    some local name, with what decoding it as either kind of element yields;
    or an error. *)
Inductive event : Type :=
| Start (name : list Z) (asHead : option (list xmlMeta)) (asFile : option xmlFile)
| TokenError.

Record NZB : Type := mkNZB {
  Meta : gmap (list Z) (list (list Z));
  NFiles : list NFile;
  Groups : list (list Z);
  MD5 : list Z;
  AvgAge : option Z;
  n_counters : articleCounters;
  SkippedFiles : Z;
}.

Record parsing : Type := mkParsing {
  p_out : NZB;
  p_digest : list Z;
  p_seenIDs : gset (list Z);
  ageSum : Z;
  ageCount : Z;
  totalSegments : Z;
}.

(** [strings.ToLower] for comparing with an ASCII word: the two runes outside
    ASCII whose lower case is in it are U+0130 and U+212A. *)
Definition lower_rune (r : Z) : Z := if r =? 304 then 105 else if r =? 8490 then 107 else lower r.
Definition lowers_to (s target : list Z) : bool := bool_decide (lower_rune <$> (fst <$> runes s) = target).

Section parse.
(** The whole of [strings.ToLower], for the keys of [Meta]. *)
Variable strings_ToLower : list Z -> list Z.

Definition absorb_meta (meta : gmap (list Z) (list (list Z))) (m : xmlMeta) : gmap (list Z) (list (list Z)) :=
  let k := strings_ToLower (TrimSpace (xm_Type m)) in
  let v := TrimSpace (xm_Value m) in
  if decide (k = [] \/ v = []) then meta else <[k := default [] (meta !! k) ++ [v]]> meta.

Definition absorbHead (out : NZB) (metas : list xmlMeta) : NZB :=
  mkNZB (foldl absorb_meta (Meta out) metas) (NFiles out) (Groups out) (MD5 out) (AvgAge out) (n_counters out) (SkippedFiles out).

(** The groups not seen before, in order. *)
Definition absorb_group (groups : list (list Z)) (g : list Z) : list (list Z) := if decide (g ∈ groups) then groups else groups ++ [g].

Definition absorbFile (s : parsing) (xf : xmlFile) (now : Z) : parsing * Z * Z :=
  let '(file, ts, p) := convertFile xf now (p_digest s) (p_seenIDs s) in
  let out := p_out s in
  let counts := addCounters (n_counters out) (counters p) in
  let segs := Z.of_nat (length (xf_Segments xf)) in
  let next out := mkParsing out (digest p) (seenIDs p) (ageSum s) (ageCount s) (totalSegments s) in
  if decide (nf_Articles file = [])
  then (next (mkNZB (Meta out) (NFiles out) (Groups out) (MD5 out) (AvgAge out) counts (SkippedFiles out + 1)), 0, segs)
  else (next (mkNZB (Meta out) (NFiles out ++ [file]) (foldl absorb_group (Groups out) (nf_Groups file)) (MD5 out) (AvgAge out) counts
                (SkippedFiles out)), ts, segs).

Definition parse_event (limits : ParserLimits) (now : Z) (s : parsing) (e : event) : result nzb_err parsing :=
  match e with
  | TokenError => Err ErrReadToken
  | Start name asHead asFile =>
      if lowers_to name (bs "head") then
        match asHead with
        | None => Err ErrDecodeHead
        | Some metas => Ok (mkParsing (absorbHead (p_out s) metas) (p_digest s) (p_seenIDs s) (ageSum s) (ageCount s) (totalSegments s))
        end
      else if lowers_to name (bs "file") then
        if decide (Z.of_nat (length (NFiles (p_out s))) + SkippedFiles (p_out s) >= MaxFiles limits) then Err ErrFileLimit
        else match asFile with
             | None => Err ErrDecodeFile
             | Some xf =>
                 let '(s, ts, segs) := absorbFile s xf now in
                 let total := totalSegments s + segs in
                 if decide (total > MaxSegments limits) then Err ErrSegmentLimit
                 else Ok (mkParsing (p_out s) (p_digest s) (p_seenIDs s)
                            (if decide (ts <> 0) then wraps 64 (ageSum s + ts) else ageSum s)
                            (if decide (ts <> 0) then ageCount s + 1 else ageCount s) total)
             end
      else Ok s
  end.

Fixpoint parse_events (limits : ParserLimits) (now : Z) (s : parsing) (l : list event) : result nzb_err parsing :=
  match l with
  | [] => Ok s
  | e :: l => match parse_event limits now s e with
              | Ok s => parse_events limits now s l
              | Err e => Err e
              end
  end.

Definition emptyNZB : NZB := mkNZB ∅ [] [] (replicate 16 0) None zeroCounters 0.

Definition parseXML (limits : ParserLimits) (now : Z) (l : list event) : result nzb_err NZB :=
  match parse_events (normalized limits) now (mkParsing emptyNZB [] ∅ 0 0 0) l with
  | Err e => Err e
  | Ok s =>
      let out := p_out s in
      if decide (NFiles out = []) then Err ErrNoFiles
      else Ok (mkNZB (Meta out) (NFiles out) (Groups out) (md5 (p_digest s))
                 (if decide (ageCount s > 0) then Some (Z.quot (ageSum s) (ageCount s)) else AvgAge out) (n_counters out) (SkippedFiles out))
  end.

(** ** Envelopes

    A reader is the bytes it yields and whether it then ends cleanly. *)
Notation reader := (list Z * bool)%type (only parsing).

Definition LimitReader (r : reader) (limit : Z) : reader :=
  if decide (Z.of_nat (length (fst r)) >= limit) then (take (Z.to_nat limit) (fst r), true) else r.

(** [gzip.NewReader] may refuse the header; [bzip2.NewReader] reads nothing. *)
Variable gunzip : list Z -> option reader.
Variable bunzip2 : list Z -> reader.

Definition isGzip (data : list Z) : bool := bool_decide (take 2 data = [31; 139]).
Definition isBzip2 (data : list Z) : bool := bool_decide (take 2 data = bs "BZ").
Definition isEnvelopeMagic (data : list Z) : bool := isGzip data || isBzip2 data.

Definition unwrapEnvelope (data : list Z) (maxSize : Z) : result nzb_err reader :=
  let limit := if decide (maxSize > 0) then maxSize else maxNZBSize in
  if isGzip data then
    match gunzip data with
    | Some r => Ok (LimitReader r limit)
    | None => Err ErrEnvelope
    end
  else if isBzip2 data then Ok (LimitReader (bunzip2 data) limit)
  else Ok (data, true).

Definition maxEnvelopeDepth : nat := 4.

Fixpoint strip_loop (depth : nat) (data : list Z) (limit : Z) : result nzb_err (list Z) :=
  match depth with
  | O => if isEnvelopeMagic data then Err ErrDepth else Ok data
  | S depth =>
      if negb (isEnvelopeMagic data) then Ok data
      else match unwrapEnvelope data (wraps 64 (limit + 1)) with
           | Err e => Err e
           | Ok src =>
               let '(out, clean) := LimitReader src (wraps 64 (limit + 1)) in
               if negb clean then Err ErrEnvelope
               else if decide (Z.of_nat (length out) > limit) then Err ErrTooLarge
               else strip_loop depth out limit
           end
  end.
Definition StripEnvelope (data : list Z) (limits : ParserLimits) : result nzb_err (list Z) :=
  strip_loop maxEnvelopeDepth data (MaxNZBSize (normalized limits)).

(** [ParseWithLimits] on an input that reads without error; [decode] is the
    XML decoder over a reader. *)
Variable decode : reader -> list event.
Definition ParseWithLimits (data : list Z) (limits : ParserLimits) (now : Z) : result nzb_err NZB :=
  let limits := normalized limits in
  if decide (data = []) then Err ErrEmptyInput
  else match unwrapEnvelope data (MaxNZBSize limits) with
       | Err e => Err e
       | Ok src => parseXML limits now (decode (LimitReader src (MaxNZBSize limits)))
       end.
End parse.
End convert.

(** ** Examples *)
Example subject_quoted : ExtractFilenameFromSubject (fun _ => false) (bs "[1/2] - " ++ [34] ++ bs "My.Show.mkv" ++ [34] ++ bs " yEnc (1/9)") = bs "My.Show.mkv".
Proof. vm_compute. reflexivity. Qed.
