(* ===== verification/NzbProps.v ===== *)
(** * Properties of NZB parsing *)
From S2P Require Import Prelude GoBytes GoText Md5 Regex Sanitize Nzb.
From stdpp Require Import base numbers gmap sorting list strings.
From Stdlib Require Import ZArith Lia.
Local Open Scope Z_scope.

(** ** Articles of one file *)
Record article_ok (a : NArticle) : Prop := {
  ao_number : 0 < na_Number a;
  ao_id : MessageIDIsFetchable (na_ID a) = true;
  ao_bytes : 0 < na_Bytes a < maxArticleSize;
}.

(** A file's state against the articles accepted, in the order of the
    document. *)
Record part_ok (dig : list Z) (seen : gset (list Z)) (p : partitioned) (order : list NArticle) : Prop := {
  po_parts : forall k a, byPart p !! k = Some a -> na_Number a = k;
  po_order : order ≡ₚ (snd <$> map_to_list (byPart p));
  po_ok : Forall article_ok order;
  po_digest : digest p = dig ++ concat (na_ID <$> order);
  po_seen : seenIDs p = seen ∪ list_to_set (na_ID <$> order);
  po_nodup : NoDup (na_ID <$> order);
  po_fresh : forall a, a ∈ order -> na_ID a ∉ seen;
}.

Lemma not_fetchable_false id : id <> [] -> ~ Z.of_nat (length id) > maxMessageIDOctets -> ContainsAny id unfetchableMessageIDBytes = false ->
  MessageIDIsFetchable id = true.
Proof.
  intros H1 H2 H3. unfold MessageIDIsFetchable. rewrite H3, bool_decide_eq_false_2, bool_decide_eq_true_2 by (done || lia). done.
Qed.

Lemma part_ok_start dig seen : part_ok dig seen (mkPartition ∅ zeroCounters dig seen) [].
Proof.
  split; cbn; try done.
  - by rewrite app_nil_r.
  - set_solver.
  - constructor.
  - intros a Ha. by apply elem_of_nil in Ha.
Qed.

Lemma part_ok_counters dig seen p order c : part_ok dig seen p order -> part_ok dig seen (mkPartition (byPart p) c (digest p) (seenIDs p)) order.
Proof. intros [? ? ? ? ? ? ?]. by split. Qed.

(** Accepting a segment. *)
Lemma part_ok_accept dig seen p order a c : part_ok dig seen p order -> article_ok a -> byPart p !! na_Number a = None -> na_ID a ∉ seenIDs p ->
  part_ok dig seen (mkPartition (<[na_Number a := a]> (byPart p)) c (digest p ++ na_ID a) ({[na_ID a]} ∪ seenIDs p)) (order ++ [a]).
Proof.
  intros [P1 P2 P3 P4 P5 P6 P7] Ha Hn Hid. rewrite P5 in Hid. split; cbn.
  - intros k b [[<- <-]|[_ H]]%lookup_insert_Some; [done|by apply P1].
  - rewrite map_to_list_insert by done. cbn. rewrite <- P2. apply Permutation_app_comm.
  - apply Forall_app. split; [done|by constructor].
  - rewrite P4, fmap_app, concat_app, <- app_assoc. cbn. by rewrite app_nil_r.
  - rewrite P5, fmap_app, list_to_set_app_L. cbn. set_solver.
  - rewrite fmap_app. apply NoDup_app. split; [done|]. split; [|apply NoDup_singleton].
    intros x Hx ->%list_elem_of_singleton. apply Hid, elem_of_union. right. by apply elem_of_list_to_set.
  - intros b [Hb| ->%list_elem_of_singleton]%elem_of_app; [by apply P7|]. intros H. apply Hid, elem_of_union. by left.
Qed.

Lemma partition_step_ok dig seen p order s : part_ok dig seen p order -> exists more, part_ok dig seen (partition_step p s) (order ++ more).
Proof.
  intros H. assert (forall q, q = p \/ (exists r, q = reject p r) -> exists more, part_ok dig seen q (order ++ more)) as Hsame.
  { intros q [->|[r ->]]; exists []; rewrite app_nil_r; [done|by apply part_ok_counters]. }
  unfold partition_step. case_decide as Hn; [apply Hsame; by left|]. case_decide as He; [apply Hsame; right; by eexists|].
  case_decide as Ho; [apply Hsame; right; by eexists|]. destruct (ContainsAny _ _) eqn:Em; [apply Hsame; right; by eexists|].
  destruct (byPart p !! xs_Number s) as [prev|] eqn:Eb; [case_decide; apply Hsame; [right; by eexists|by left]|].
  case_decide as Hs; [apply Hsame; right; by eexists|]. case_decide as Hb; [apply Hsame; right; by eexists|].
  eexists [_]. apply (part_ok_accept dig seen p order (mkNArticle (normaliseMessageID (xs_ID s)) (xs_Bytes s) (xs_Number s))); try done.
  split; cbn; [lia|by apply not_fetchable_false|lia].
Qed.

Lemma partitionSegments_ok segs dig seen : exists order, part_ok dig seen (partitionSegments segs dig seen) order.
Proof.
  unfold partitionSegments. assert (forall p order, part_ok dig seen p order -> exists more, part_ok dig seen (foldl partition_step p segs) (order ++ more)) as H.
  { induction segs as [|s segs IH]; intros p order Hp; cbn; [exists []; by rewrite app_nil_r|].
    destruct (partition_step_ok dig seen p order s Hp) as [m1 H1]. destruct (IH _ _ H1) as [m2 H2]. exists (m1 ++ m2). by rewrite app_assoc. }
  destruct (H _ _ (part_ok_start dig seen)) as [more Hm]. by exists more.
Qed.

(** *** By part number *)
#[export] Instance Zle_total : Total Z.le.
Proof. intros x y. lia. Qed.

Definition by_number (l : list NArticle) : Prop := StronglySorted Z.lt (na_Number <$> l).

Lemma omap_keys {A} (m : gmap Z A) l : l ≡ₚ (map_to_list m).*1 -> omap (fun p => m !! p) l ≡ₚ (map_to_list m).*2.
Proof.
  intros H. rewrite (omap_Permutation _ _ _ H). clear H. assert (forall k a, (k, a) ∈ map_to_list m -> m !! k = Some a) as Hm by (intros k a; apply elem_of_map_to_list).
  induction (map_to_list m) as [|[k a] t IH]; [done|]. cbn. rewrite (Hm k a) by left. cbn. constructor. apply IH. intros k' a' Hin. apply Hm. by right.
Qed.

Lemma omap_numbers (m : gmap Z NArticle) l : (forall k a, m !! k = Some a -> na_Number a = k) -> Forall (fun k => is_Some (m !! k)) l ->
  na_Number <$> omap (fun p => m !! p) l = l.
Proof.
  intros Hm. induction 1 as [|k l [a Ha] _ IH]; [done|]. cbn. rewrite Ha. cbn. by rewrite (Hm k a Ha), IH.
Qed.

Lemma sorted_lt l : StronglySorted Z.le l -> NoDup l -> StronglySorted Z.lt l.
Proof.
  induction 1 as [|x l _ IH Hx]; intros Hnd; [constructor|]. apply NoDup_cons in Hnd as [Hn Hnd]. constructor; [by apply IH|].
  rewrite Forall_forall in Hx |- *. intros y Hy. specialize (Hx y Hy). assert (x <> y) by (intros ->; done). lia.
Qed.

Lemma sorted_articles_spec m : (forall k a, m !! k = Some a -> na_Number a = k) ->
  sorted_articles m ≡ₚ (map_to_list m).*2 /\ by_number (sorted_articles m).
Proof.
  intros Hm. assert (sorted_parts m ≡ₚ (map_to_list m).*1) as Hp by apply merge_sort_Permutation. split; [by apply omap_keys|].
  unfold by_number, sorted_articles. rewrite omap_numbers; [|done|].
  - apply sorted_lt; [apply (StronglySorted_merge_sort Z.le)|]. rewrite Hp. apply NoDup_fst_map_to_list.
  - rewrite Hp. apply Forall_forall. intros k ([k' a] & -> & Hin)%list_elem_of_fmap. apply elem_of_map_to_list in Hin. by eexists.
Qed.

(** The bytes of a file, where they fit. *)
Lemma total_bytes_sum l : Forall article_ok l -> Z.of_nat (length l) < 2 ^ 40 -> total_bytes l = sumZ (na_Bytes <$> l).
Proof.
  intros Hl Hn. unfold total_bytes. assert (forall k n, Forall article_ok k -> 0 <= n -> n + maxArticleSize * Z.of_nat (length k) < 2 ^ 63 ->
    foldl (fun n a => wraps 64 (n + na_Bytes a)) n k = n + sumZ (na_Bytes <$> k)) as H.
  { induction k as [|a k IH]; intros n Hk H0 Hb; [cbn; lia|]. apply Forall_cons in Hk as [[_ _ Ha] Hk]. cbn [length] in Hb. unfold maxArticleSize in *.
    cbn [foldl fmap list_fmap]. rewrite wraps64_id by (unfold in_i64, MinInt64, MaxInt64; lia). rewrite IH by (done || lia).
    unfold sumZ. cbn [foldr]. fold (sumZ (na_Bytes <$> k)). lia. }
  rewrite H; [lia|done|lia|]. unfold maxArticleSize. lia.
Qed.

(** ** Documents *)
Record file_ok (f : NFile) : Prop := {
  fo_articles : nf_Articles f <> [];
  fo_sorted : by_number (nf_Articles f);
  fo_ok : Forall article_ok (nf_Articles f);
  fo_bytes : Z.of_nat (length (nf_Articles f)) < 2 ^ 40 -> nf_Bytes f = sumZ (na_Bytes <$> nf_Articles f);
}.

Definition all_articles (fs : list NFile) : list NArticle := concat (nf_Articles <$> fs).

Section doc.
Variable unicode_LN : Z -> bool.
Variable NFC stripDiacritics strings_ToLower : list Z -> list Z.
Variable limits : ParserLimits.
Variable now : Z.

Record doc_ok (s : parsing) (order : list NArticle) : Prop := {
  do_files : Forall file_ok (NFiles (p_out s));
  do_order : order ≡ₚ all_articles (NFiles (p_out s));
  do_digest : p_digest s = concat (na_ID <$> order);
  do_seen : p_seenIDs s = list_to_set (na_ID <$> order);
  do_nodup : NoDup (na_ID <$> order);
  do_groups : NoDup (Groups (p_out s));
  do_union : forall g, g ∈ Groups (p_out s) <-> exists f, f ∈ NFiles (p_out s) /\ g ∈ nf_Groups f;
  do_count : Z.of_nat (length (NFiles (p_out s))) + SkippedFiles (p_out s) <= MaxFiles limits;
  do_skipped : 0 <= SkippedFiles (p_out s);
  do_segments : Z.of_nat (length order) <= totalSegments s <= MaxSegments limits;
}.

Lemma absorb_groups_spec gs : forall groups, NoDup groups ->
  NoDup (foldl absorb_group groups gs) /\ forall g, g ∈ foldl absorb_group groups gs <-> g ∈ groups \/ g ∈ gs.
Proof.
  induction gs as [|x gs IH]; intros groups Hn; cbn [foldl]; [split; [done|]; intros g; rewrite elem_of_nil; tauto|].
  unfold absorb_group at 2 4. case_decide as Hx.
  - destruct (IH groups Hn) as [H1 H2]. split; [done|]. intros g. rewrite H2, elem_of_cons. split; [tauto|]. intros [?|[->|?]]; tauto.
  - destruct (IH (groups ++ [x])) as [H1 H2].
    { apply NoDup_app. split; [done|]. split; [|apply NoDup_singleton]. by intros y Hy ->%list_elem_of_singleton. }
    split; [done|]. intros g. rewrite H2, elem_of_app, list_elem_of_singleton, elem_of_cons. tauto.
Qed.

(** At most one article per segment. *)
Lemma partition_size segs : forall p, (size (byPart (foldl partition_step p segs)) <= size (byPart p) + length segs)%nat.
Proof.
  induction segs as [|s segs IH]; intros p; cbn [foldl length]; [lia|]. etrans; [apply IH|].
  enough (size (byPart (partition_step p s)) <= S (size (byPart p)))%nat by lia.
  unfold partition_step, reject. repeat case_match; cbn; try lia. rewrite map_size_insert_None by done. lia.
Qed.

Lemma absorbFile_ok s order xf : doc_ok s order -> Z.of_nat (length (NFiles (p_out s))) + SkippedFiles (p_out s) < MaxFiles limits ->
  let '(s', ts, segs) := absorbFile unicode_LN NFC stripDiacritics s xf now in
  let total := totalSegments s' + segs in
  total <= MaxSegments limits -> forall sum count, exists more,
  doc_ok (mkParsing (p_out s') (p_digest s') (p_seenIDs s') sum count total) (order ++ more).
Proof.
  intros [D1 D2 D3 D4 D5 D6 D7 D8 D9 D10] Hroom. unfold absorbFile, convertFile.
  set (p := partitionSegments (xf_Segments xf) (p_digest s) (p_seenIDs s)).
  destruct (partitionSegments_ok (xf_Segments xf) (p_digest s) (p_seenIDs s)) as [more [P1 P2 P3 P4 P5 P6 P7]]. fold p in P1, P2, P4, P5.
  destruct (sorted_articles_spec (byPart p) P1) as [S1 S2].
  assert (length more <= length (xf_Segments xf))%nat as Hlen.
  { rewrite (Permutation_length P2), length_fmap. pose proof (partition_size (xf_Segments xf) (mkPartition ∅ zeroCounters (p_digest s) (p_seenIDs s))) as H.
    fold (partitionSegments (xf_Segments xf) (p_digest s) (p_seenIDs s)) in H. fold p in H. cbn in H. rewrite map_size_empty in H.
    rewrite length_map_to_list. lia. }
  assert (NoDup (na_ID <$> order ++ more)) as Hnd.
  { rewrite fmap_app. apply NoDup_app. split; [done|]. split; [|done]. intros x Hx (a & -> & Ha)%list_elem_of_fmap.
    apply (P7 a Ha). rewrite D4. by apply elem_of_list_to_set. }
  assert (digest p = concat (na_ID <$> order ++ more)) as Hdig by (by rewrite P4, D3, fmap_app, concat_app).
  assert (seenIDs p = list_to_set (na_ID <$> order ++ more)) as Hseen by (rewrite P5, D4, fmap_app, list_to_set_app_L; done).
  cbn [nf_Articles]. case_decide as He; cbn; intros Htotal sum count; exists more.
  - assert (more = []) as -> by (rewrite He in S1; apply Permutation_nil_r; by rewrite P2, <- S1).
    rewrite app_nil_r in *. split; cbn; try done; lia.
  - split; cbn; try done; try lia.
    + apply Forall_app. split; [done|]. constructor; [|constructor]. split; cbn; [done|done| |].
      * rewrite S1, <- P2. done.
      * intros Hb. apply total_bytes_sum; [|done]. rewrite S1, <- P2. done.
    + unfold all_articles. rewrite fmap_app, concat_app. cbn. rewrite app_nil_r. apply Permutation_app; [done|]. by rewrite P2, S1.
    + by apply absorb_groups_spec.
    + intros g. rewrite (proj2 (absorb_groups_spec _ _ D6)), D7. split.
      * intros [(f & Hf & Hg)|Hg]; [exists f; split; [apply elem_of_app; by left|done]|].
        eexists. split; [apply elem_of_app; right; by left|done].
      * intros (f & [Hf| ->%list_elem_of_singleton]%elem_of_app & Hg); [left; by exists f|by right].
    + rewrite length_app. cbn. lia.
    + rewrite length_app. lia.
Qed.

Lemma parse_event_ok s order e s' : doc_ok s order -> parse_event unicode_LN NFC stripDiacritics strings_ToLower limits now s e = Ok s' ->
  exists more, doc_ok s' (order ++ more).
Proof.
  intros Hd. destruct e as [name asHead asFile|]; cbn [parse_event]; [|done]. destruct (lowers_to name (bs "head")).
  { destruct asHead as [metas|]; [|done]. intros [= <-]. exists []. rewrite app_nil_r. destruct Hd as [? ? ? ? ? ? ? ? ? ?]. by split. }
  destruct (lowers_to name (bs "file")); [|intros [= <-]; exists []; by rewrite app_nil_r].
  case_decide as Hroom; [done|]. destruct asFile as [xf|]; [|done].
  pose proof (absorbFile_ok s order xf Hd ltac:(lia)) as H. destruct (absorbFile _ _ _ s xf now) as [[s1 ts] segs].
  case_decide; [done|]. intros [= <-]. apply H. lia.
Qed.

Lemma parse_events_ok l : forall s order s', doc_ok s order -> parse_events unicode_LN NFC stripDiacritics strings_ToLower limits now s l = Ok s' ->
  exists order', doc_ok s' order'.
Proof.
  induction l as [|e l IH]; intros s order s' Hd H; cbn in H; [injection H as <-; by exists order|].
  destruct (parse_event _ _ _ _ limits now s e) as [s1|] eqn:E; [|done]. destruct (parse_event_ok _ _ _ _ Hd E) as [more Hm]. by eapply IH.
Qed.
End doc.

(** A parsed document. *)
Record nzb_wf (limits : ParserLimits) (n : NZB) : Prop := {
  wf_some : NFiles n <> [];
  wf_files : Forall file_ok (NFiles n);
  wf_ids : NoDup (na_ID <$> all_articles (NFiles n));
  wf_md5 : exists order, order ≡ₚ all_articles (NFiles n) /\ MD5 n = md5 (concat (na_ID <$> order));
  wf_groups : NoDup (Groups n) /\ forall g, g ∈ Groups n <-> exists f, f ∈ NFiles n /\ g ∈ nf_Groups f;
  wf_count : Z.of_nat (length (NFiles n)) + SkippedFiles n <= MaxFiles limits;
  wf_segments : Z.of_nat (length (all_articles (NFiles n))) <= MaxSegments limits;
}.

(** C28: what a parsed document is.  It has a file; every file has articles,
    in strictly increasing part number, each with a positive number, an
    identifier a server could be asked for and a size below 8 MiB, and its
    size is their sum; no identifier occurs twice in the document; the digest
    is of the accepted identifiers; the groups are the files' groups, once
    each; and the limits hold. *)
Theorem parsed_nzb_wf unicode_LN NFC strip lower limits now events n :
  parseXML unicode_LN NFC strip lower limits now events = Ok n -> nzb_wf (normalized limits) n.
Proof.
  unfold parseXML. destruct (parse_events _ _ _ _ _ _ _ events) as [s|] eqn:E; [|done]. case_decide as He; [done|]. intros [= <-].
  assert (doc_ok (normalized limits) (mkParsing emptyNZB [] ∅ 0 0 0) []) as H0.
  { split; cbn; try done; try constructor; try set_solver; unfold normalized; cbn; try (case_decide; unfold maxFiles, maxSegments; lia). }
  destruct (parse_events_ok unicode_LN NFC strip lower (normalized limits) now events _ [] s H0 E) as [order [D1 D2 D3 D4 D5 D6 D7 D8 D9 D10]].
  split; cbn; try done.
  - by rewrite <- D2.
  - exists order. split; [done|]. by rewrite D3.
  - apply Permutation_length in D2. unfold all_articles in *. cbn in *. lia.
Qed.

(** ** A file without defects *)
Definition segment_of (s : xmlSegment) (a : NArticle) : Prop :=
  xs_Number s = na_Number a /\ xs_Bytes s = na_Bytes a /\ normaliseMessageID (xs_ID s) = na_ID a.

Definition rejected (c : articleCounters) : Z := dupes c + dupeIDs c + bad c + emptyID c + oversizeID c + malformedID c.

Lemma fetchable_true id : MessageIDIsFetchable id = true ->
  id <> [] /\ ~ Z.of_nat (length id) > maxMessageIDOctets /\ ContainsAny id unfetchableMessageIDBytes = false.
Proof.
  unfold MessageIDIsFetchable. intros [[H1 H2]%andb_true_iff H3]%andb_true_iff.
  split; [by apply negb_true_iff, bool_decide_eq_false in H1|]. apply bool_decide_eq_true in H2. split; [lia|by apply negb_true_iff].
Qed.

Lemma step_accepts p s a : segment_of s a -> article_ok a -> byPart p !! na_Number a = None -> na_ID a ∉ seenIDs p ->
  let p' := partition_step p s in byPart p' = <[na_Number a := a]> (byPart p) /\ digest p' = digest p ++ na_ID a /\
  seenIDs p' = {[na_ID a]} ∪ seenIDs p /\ rejected (counters p') = rejected (counters p).
Proof.
  intros (H1 & H2 & H3) [A1 A2 A3] Hn Hid. destruct (fetchable_true _ A2) as (F1 & F2 & F3). unfold partition_step.
  rewrite H3, H1, H2. rewrite decide_False by lia. rewrite decide_False by done. rewrite decide_False by done. rewrite F3, Hn.
  rewrite decide_False by done. rewrite decide_False by lia. cbn. split_and!; try done; [by destruct a|]. unfold rejected. cbn. lia.
Qed.

Lemma partition_accepts segs arts : Forall2 segment_of segs arts -> forall p, Forall article_ok arts -> NoDup (na_Number <$> arts) ->
  NoDup (na_ID <$> arts) -> (forall a, a ∈ arts -> byPart p !! na_Number a = None /\ na_ID a ∉ seenIDs p) ->
  let p' := foldl partition_step p segs in (map_to_list (byPart p')).*2 ≡ₚ (map_to_list (byPart p)).*2 ++ arts /\
  digest p' = digest p ++ concat (na_ID <$> arts) /\ rejected (counters p') = rejected (counters p).
Proof.
  induction 1 as [|s a segs arts Hs _ IH]; intros p Hok Hnum Hids Hnew; cbn [foldl]; [by rewrite !app_nil_r|].
  apply Forall_cons in Hok as [Ha Hok]. apply NoDup_cons in Hnum as [Hn1 Hnum]. apply NoDup_cons in Hids as [Hi1 Hids].
  destruct (Hnew a ltac:(by left)) as [N1 N2]. destruct (step_accepts p s a Hs Ha N1 N2) as (E1 & E2 & E3 & E4).
  destruct (IH (partition_step p s) Hok Hnum Hids) as (I1 & I2 & I3).
  { intros b Hb. destruct (Hnew b ltac:(by right)) as [M1 M2]. rewrite E1, E3. split.
    - rewrite lookup_insert_ne; [done|]. intros E. apply Hn1. rewrite E. by apply list_elem_of_fmap_2.
    - rewrite elem_of_union, elem_of_singleton. intros [E|?]; [|done]. apply Hi1. rewrite <- E. by apply list_elem_of_fmap_2. }
  split_and!.
  - rewrite I1, E1, map_to_list_insert by done. cbn. by rewrite Permutation_middle.
  - rewrite I2, E2. cbn. by rewrite app_assoc.
  - by rewrite I3.
Qed.

(** a file without defects loses nothing.  Whatever the order its
    segments are listed in, and however their identifiers are wrapped, a file
    whose segments have distinct positive numbers, distinct fetchable
    identifiers not yet claimed and plausible sizes becomes exactly those
    articles, in the order of their numbers; all its identifiers enter the
    digest and no segment is counted as rejected. *)
Theorem wellformed_file_kept unicode_LN NFC strip xf now dig seen arts :
  Forall2 segment_of (xf_Segments xf) arts -> Forall article_ok arts -> NoDup (na_Number <$> arts) -> NoDup (na_ID <$> arts) ->
  (forall a, a ∈ arts -> na_ID a ∉ seen) ->
  let '(f, _, p) := convertFile unicode_LN NFC strip xf now dig seen in
  nf_Articles f ≡ₚ arts /\ by_number (nf_Articles f) /\ digest p = dig ++ concat (na_ID <$> arts) /\ rejected (counters p) = 0.
Proof.
  intros H1 H2 H3 H4 H5. unfold convertFile, partitionSegments.
  destruct (partition_accepts _ _ H1 (mkPartition ∅ zeroCounters dig seen) H2 H3 H4) as (E1 & E2 & E3).
  { intros a Ha. split; [apply lookup_empty|by apply H5]. }
  destruct (partitionSegments_ok (xf_Segments xf) dig seen) as [order [P1 _ _ _ _ _ _]]. unfold partitionSegments in P1.
  destruct (sorted_articles_spec _ P1) as [S1 S2]. cbn. split; [by rewrite S1, E1|]. split; [done|]. split; [done|]. by rewrite E3.
Qed.

Definition ex_segments : list xmlSegment :=
  [mkXmlSegment 700000 2 (bs "<b@x>"); mkXmlSegment 1000 3 (bs " c@x "); mkXmlSegment 700000 1 (bs "a@x")].
Definition ex_articles : list NArticle :=
  [mkNArticle (bs "b@x") 700000 2; mkNArticle (bs "c@x") 1000 3; mkNArticle (bs "a@x") 700000 1].

Lemma wellformed_file_kept_witness :
  let '(f, _, p) := convertFile (fun _ => false) id id (mkXmlFile (bs "x") [] [] ex_segments) 0 [] ∅ in
  nf_Articles f ≡ₚ ex_articles /\ by_number (nf_Articles f) /\ digest p = bs "b@xc@xa@x" /\ rejected (counters p) = 0.
Proof.
  apply (wellformed_file_kept (fun _ => false) id id (mkXmlFile (bs "x") [] [] ex_segments) 0 [] ∅ ex_articles).
  - repeat constructor; vm_compute; reflexivity.
  - repeat constructor; vm_compute; reflexivity.
  - apply (bool_decide_unpack _). vm_compute. reflexivity.
  - apply (bool_decide_unpack _). vm_compute. reflexivity.
  - intros a _ H. by apply elem_of_empty in H.
Defined.

(** Three files, one with an unusable segment and one that repeats another's
    identifier. *)
Definition ex_events : list event :=
  [Start (bs "nzb") None None;
   Start (bs "FILE") None (Some (mkXmlFile (bs "one") (bs "100") [bs "a.b"] ex_segments));
   Start (bs "file") None (Some (mkXmlFile (bs "two") (bs "300") [bs "a.b"; bs "c.d"]
     [mkXmlSegment 5 1 (bs "d@x"); mkXmlSegment 5 2 (bs "bad id"); mkXmlSegment 5 3 (bs "a@x")]));
   Start (bs "file") None (Some (mkXmlFile (bs "three") [] [] [mkXmlSegment 0 1 (bs "e@x")]))].

Lemma parsed_nzb_wf_witness : exists n, parseXML (fun _ => false) id id ToLower (mkLimits 0 0 0) 0 ex_events = Ok n /\
  (length (NFiles n), SkippedFiles n, AvgAge n) = (2%nat, 1, Some 200) /\ NoDup (na_ID <$> all_articles (NFiles n)).
Proof.
  eexists. split; [vm_compute; reflexivity|]. split; [vm_compute; reflexivity|].
  eapply (wf_ids _ _ (parsed_nzb_wf (fun _ => false) id id ToLower (mkLimits 0 0 0) 0 ex_events _ _)). Unshelve. vm_compute. reflexivity.
Defined.

(** ** The name in the subject *)
Section subject_spec.
Variable unicode_LN : Z -> bool.

(** The names a subject offers in brackets and in quotes. *)
Definition offered (subject : list Z) : list (list Z) :=
  base.filter (fun n => n <> []) (parsePRiVATESubject subject :: ((fun m => trim_cutset [32; 34] (inner m)) <$> FindAll reSubjectFilenameQuotes subject)).

Definition readable_name (n : list Z) : Prop := isExcessivelyObfuscated n = false.
#[local] Instance readable_dec n : Decision (readable_name n).
Proof. unfold readable_name. apply _. Defined.

Lemma pick_quoted_spec ms : forall hex, let names := base.filter (fun n => n <> []) ((fun m => trim_cutset [32; 34] (inner m)) <$> ms) in
  pick_quoted hex ms = match head (base.filter readable_name names) with
                       | Some n => (Some n, snd (pick_quoted hex ms))
                       | None => (None, if decide (hex = []) then default [] (head names) else hex)
                       end.
Proof.
  induction ms as [|m ms IH]; intros hex; cbn [fmap list_fmap pick_quoted]; [by case_decide; subst|].
  set (n := trim_cutset [32; 34] (inner m)). unfold pick. cbv zeta. destruct (decide (n = [])) as [->|Hn].
  { rewrite (filter_cons_False (fun n => n <> [])) by (intros H; by apply H). apply IH. }
  rewrite (filter_cons_True (fun n => n <> [])) by done. destruct (isExcessivelyObfuscated n) eqn:Eo; cbn [negb].
  - rewrite (filter_cons_False readable_name) by (unfold readable_name; congruence). rewrite IH. cbv zeta.
    destruct (head (base.filter readable_name _)); [done|]. f_equal. cbn. destruct (decide (hex = [])) as [->|Hh]; by rewrite decide_False.
  - rewrite (filter_cons_True readable_name) by done. done.
Qed.

(** which name a subject gives.  The first readable name among the
    bracketed and the quoted ones; or else the first of those, a hexadecimal
    one; or else the first thing that looks like a file name, and the whole
    subject only when there is none. *)
Theorem ExtractFilename_spec subject :
  ExtractFilenameFromSubject unicode_LN subject =
  match head (base.filter readable_name (offered subject)), head (offered subject) with
  | Some n, _ => n
  | None, Some n => n
  | None, None => let n := TrimSpace (FindString (reSubjectBasicFilename unicode_LN) subject) in if decide (n = []) then subject else n
  end.
Proof.
  unfold ExtractFilenameFromSubject, offered. set (p := parsePRiVATESubject subject). set (ms := FindAll _ _).
  assert (forall hex, pick_quoted hex ms = _) as Hq by (apply pick_quoted_spec). cbv zeta in Hq.
  assert (forall n, (if decide (n <> []) then n else subject) = (if decide (n = []) then subject else n)) as Hlast by (intros n; do 2 case_decide; done || tauto).
  unfold pick. destruct (decide (p = [])) as [Ep|Ep].
  - rewrite Ep, (filter_cons_False (fun n => n <> [])) by (intros H; by apply H). rewrite Hq.
    set (names := base.filter (fun n : list Z => n <> []) _). destruct (head (base.filter readable_name names)); [done|]. destruct (decide (([] : list Z) = [])); [|done].
    assert (forall n, n ∈ names -> n <> []) as Hne by (intros n [Hn _]%list_elem_of_filter; done).
    destruct names as [|n names]; cbn; [apply Hlast|]. rewrite decide_True; [done|]. apply Hne. by left.
  - rewrite (filter_cons_True (fun n => n <> [])) by done. destruct (isExcessivelyObfuscated p) eqn:Eo; cbn [negb].
    + rewrite (filter_cons_False readable_name) by (unfold readable_name; congruence). destruct (decide (([] : list Z) = [])); [|done]. rewrite Hq.
      set (names := base.filter (fun n : list Z => n <> []) _). destruct (head (base.filter readable_name names)); [done|]. destruct (decide (p = [])); [done|]. by rewrite decide_True.
    + by rewrite (filter_cons_True readable_name).
Qed.
End subject_spec.

(** ** Envelopes *)
Section envelope.
Variable gunzip : list Z -> option (list Z * bool).
Variable bunzip2 : list Z -> list Z * bool.

(** One envelope around [data]. *)
Definition encloses (e data : list Z) : Prop :=
  isGzip e = true /\ gunzip e = Some (data, true) \/ isGzip e = false /\ isBzip2 e = true /\ bunzip2 e = (data, true).

(** [n] envelopes, the contents of each at most [limit] bytes. *)
Inductive enclosed (limit : Z) : nat -> list Z -> list Z -> Prop :=
| enclosed_0 data : isEnvelopeMagic data = false -> enclosed limit 0 data data
| enclosed_S n e d data : encloses e d -> Z.of_nat (length d) <= limit -> enclosed limit n d data -> enclosed limit (S n) e data.

Lemma LimitReader_id data limit : Z.of_nat (length data) < limit -> LimitReader (data, true) limit = (data, true).
Proof. intros H. unfold LimitReader. by rewrite decide_False by (cbn; lia). Qed.

Lemma unwrap_encloses e d limit : encloses e d -> Z.of_nat (length d) < limit -> unwrapEnvelope gunzip bunzip2 e limit = Ok (d, true).
Proof.
  intros [[H1 H2]|(H1 & H2 & H3)] Hl; unfold unwrapEnvelope; rewrite H1; [rewrite H2|rewrite H2, H3];
    rewrite decide_True, LimitReader_id by lia; done.
Qed.

Lemma encloses_magic e d : encloses e d -> isEnvelopeMagic e = true.
Proof. unfold isEnvelopeMagic. intros [[-> _]|(-> & -> & _)]; done. Qed.

Lemma enclosed_magic limit n e d : enclosed limit (S n) e d -> isEnvelopeMagic e = true.
Proof. intros H. inversion H; subst. by eapply encloses_magic. Qed.

Lemma strip_enclosed limit n e data depth : 0 < limit < MaxInt64 -> enclosed limit n e data ->
  strip_loop gunzip bunzip2 depth e limit = if decide (n <= depth)%nat then Ok data else Err ErrDepth.
Proof.
  intros Hl H. revert depth. induction H as [data Hm|n e d data He Hd Hn IH]; intros depth.
  - rewrite decide_True by lia. destruct depth; cbn [strip_loop]; by rewrite Hm.
  - pose proof (encloses_magic e d He) as Hm. destruct depth as [|depth]; cbn [strip_loop]; rewrite Hm; cbn [negb]; [by rewrite decide_False by lia|].
    rewrite (wraps64_id (limit + 1)) by (unfold in_i64, MinInt64, MaxInt64 in *; lia).
    rewrite (unwrap_encloses e d) by (done || lia). rewrite LimitReader_id by lia. cbn [negb]. rewrite decide_False by lia.
    rewrite IH. repeat case_decide; (done || lia).
Qed.

Lemma strip_ok limit out depth : forall e, strip_loop gunzip bunzip2 depth e limit = Ok out ->
  isEnvelopeMagic out = false /\ (out = e \/ Z.of_nat (length out) <= limit).
Proof.
  induction depth as [|depth IH]; intros e H; cbn [strip_loop] in H.
  - destruct (isEnvelopeMagic e) eqn:E; [done|]. injection H as ->. split; [done|by left].
  - destruct (isEnvelopeMagic e) eqn:E; cbn [negb] in H; [|injection H as ->; split; [done|by left]].
    destruct (unwrapEnvelope _ _ _ _) as [src|]; [|done]. destruct (LimitReader src _) as [o clean]. destruct clean; [|done].
    cbn [negb] in H. case_decide; [done|]. destruct (IH o H) as [H1 [->|H2]]; (split; [done|right; lia]).
Qed.

(** envelopes come off.  Up to four envelopes, each enclosing at most the
    size limit, are all removed, and more than four are refused; and whatever
    the input and the decompressors, what is returned carries no envelope and
    is the input itself or within the limit. *)
Theorem StripEnvelope_peels limits e :
  let limit := MaxNZBSize (normalized limits) in limit < MaxInt64 ->
  (forall n data, enclosed limit n e data -> StripEnvelope gunzip bunzip2 e limits = if decide (n <= 4)%nat then Ok data else Err ErrDepth) /\
  (forall out, StripEnvelope gunzip bunzip2 e limits = Ok out -> isEnvelopeMagic out = false /\ (out = e \/ Z.of_nat (length out) <= limit)).
Proof.
  intros limit Hl. split; [intros n data|intros out].
  - apply strip_enclosed. split; [|done]. unfold limit, normalized. cbn. case_decide; unfold maxNZBSize; lia.
  - apply strip_ok.
Qed.
End envelope.

(** A toy compressor: the magic, then the contents. *)
Definition toy_gunzip (e : list Z) : option (list Z * bool) := Some (drop 2 e, true).
Definition toy_bunzip2 (e : list Z) : list Z * bool := (drop 2 e, true).

Lemma StripEnvelope_peels_witness :
  StripEnvelope toy_gunzip toy_bunzip2 ([31; 139] ++ bs "BZ" ++ bs "<nzb/>") (mkLimits 0 0 0) = Ok (bs "<nzb/>") /\
  StripEnvelope toy_gunzip toy_bunzip2 ([31; 139; 31; 139; 31; 139; 31; 139; 31; 139] ++ bs "<nzb/>") (mkLimits 0 0 0) = Err ErrDepth.
Proof.
  assert (forall e d, isGzip e = true -> d = drop 2 e -> encloses toy_gunzip toy_bunzip2 e d) as Hg by (intros e d H ->; by left).
  assert (forall e d, isGzip e = false -> isBzip2 e = true -> d = drop 2 e -> encloses toy_gunzip toy_bunzip2 e d) as Hb by (intros e d H1 H2 ->; by right).
  split.
  - apply (proj1 (StripEnvelope_peels toy_gunzip toy_bunzip2 (mkLimits 0 0 0) _ ltac:(reflexivity)) 2%nat).
    eapply enclosed_S; [by apply Hg|done|]. eapply enclosed_S; [by apply Hb|done|]. by apply enclosed_0.
  - apply (proj1 (StripEnvelope_peels toy_gunzip toy_bunzip2 (mkLimits 0 0 0) _ ltac:(reflexivity)) 5%nat (bs "<nzb/>")).
    do 5 (eapply enclosed_S; [by apply Hg|done|]). by apply enclosed_0.
Defined.
