(* ===== verification/Par2Parse.v ===== *)
(** * PAR2 packets ([internal/par2/parser.go])

    A PAR2 file is a sequence of packets, each with a magic, its length and an
    MD5 digest.  A file is the list of its bytes; a position is the offset of
    the open file. *)
From S2P Require Import Prelude Crc GoBytes GoText Md5.
From stdpp Require Import base numbers gmap list strings.
From Stdlib Require Import ZArith Lia.
Local Open Scope Z_scope.
Local Open Scope go_scope.

Inductive par2_err : Type :=
| EOF
| ErrUnexpectedEOF
| ErrSeek                    (* a negative offset *)
| ErrPacketBodySizeExceeded
| ErrJunkScanLimitExceeded.
#[export] Instance par2_err_eq_dec : EqDecision par2_err.
Proof. solve_decision. Defined.

(** ** Data *)
Record FileDesc : Type := mkFileDesc {
  FileID : list Z;
  FileName : list Z;
  FullHash : list Z;
  Hash16k : list Z;
  FileSize : Z;
  FileCRC32 : Z;
  HasDuplicate : bool;
  fd_Set : list Z;
  Undescribed : bool;
}.
#[export] Instance FileDesc_eq_dec : EqDecision FileDesc.
Proof. solve_decision. Defined.

Definition set_crc (fd : FileDesc) (crc : Z) : FileDesc :=
  mkFileDesc (FileID fd) (FileName fd) (FullHash fd) (Hash16k fd) (FileSize fd) crc (HasDuplicate fd) (fd_Set fd) (Undescribed fd).
Definition set_dup (fd : FileDesc) : FileDesc :=
  mkFileDesc (FileID fd) (FileName fd) (FullHash fd) (Hash16k fd) (FileSize fd) (FileCRC32 fd) true (fd_Set fd) (Undescribed fd).
Definition set_Set (fd : FileDesc) (name : list Z) : FileDesc :=
  mkFileDesc (FileID fd) (FileName fd) (FullHash fd) (Hash16k fd) (FileSize fd) (FileCRC32 fd) (HasDuplicate fd) name (Undescribed fd).

(** The maps hold positions in [Files], where the code holds pointers. *)
Record ParsedSet : Type := mkSet {
  SetID : list Z;
  SliceSize : Z;
  RecoveryFileIDs : list (list Z);
  Files : list FileDesc;
  FilesByID : gmap (list Z) nat;
  By16k : gmap (list Z) nat;
  RecoveryBlocks : Z;
  Creator : list Z;
}.

Record ifscSlice : Type := mkSlice { md5Hash : list Z; crc32 : Z }.
Record ifscData : Type := mkIfsc { fileID : list Z; slices : list ifscSlice }.

Record ParseOptions : Type := mkOpts { MaxJunkScanBytes : Z; MaxPacketBodySize : Z }.

Definition MinPar2JunkScanBytes : Z := 1024.
Definition MinPar2PacketBodySize : Z := 65536.
Definition defaultMaxJunkScan : Z := 65536.
Definition defaultMaxPacketBodySize : Z := 67108864.
Definition DefaultParseOptions : ParseOptions := mkOpts defaultMaxJunkScan defaultMaxPacketBodySize.

Definition magic : list Z := [80; 65; 82; 50; 0; 80; 75; 84].                      (* PAR2\0PKT *)
Definition type_prefix : list Z := [80; 65; 82; 32; 50; 46; 48; 0].               (* PAR 2.0\0 *)
Definition typeMain : list Z := type_prefix ++ [77; 97; 105; 110; 0; 0; 0; 0].
Definition typeFileDesc : list Z := type_prefix ++ [70; 105; 108; 101; 68; 101; 115; 99].
Definition typeIFSC : list Z := type_prefix ++ [73; 70; 83; 67; 0; 0; 0; 0].
Definition typeRecovery : list Z := type_prefix ++ [82; 101; 99; 118; 83; 108; 105; 99].
Definition typeCreator : list Z := type_prefix ++ [67; 114; 101; 97; 116; 111; 114; 0].

(** ** The open file *)

(** [io.ReadFull] of [n] bytes: the bytes read, the new position, the error. *)
Definition ReadFull (f : list Z) (pos n : nat) : list Z * nat * option par2_err :=
  let b := take n (drop pos f) in
  (b, (pos + length b)%nat,
   if decide (length b = n) then None else if decide (b = []) then Some EOF else Some ErrUnexpectedEOF).

(** [f.Seek(off, io.SeekCurrent)]. *)
Definition Seek (pos : nat) (off : Z) : result par2_err nat :=
  if decide (Z.of_nat pos + off < 0) then Err ErrSeek else Ok (Z.to_nat (Z.of_nat pos + off)).

(** The bytes from [a] up to [b]. *)
Definition slice (l : list Z) (a b : nat) : list Z := take (b - a) (drop a l).

(** ** Finding packets *)
Definition isValidPacketLen (packetLen fileSize : Z) : bool :=
  bool_decide (64 <= packetLen) && bool_decide (packetLen <= fileSize) && bool_decide (packetLen mod 4 = 0).

Definition validatePacketMD5 (header body : list Z) : bool :=
  bool_decide (md5 (slice header 32 48 ++ slice header 48 64 ++ body) = slice header 16 32).

(** [scanForMagicWithOptions], which leaves the file at the next magic. *)
Definition scanForMagic (f : list Z) (pos : nat) (maxJunkScan : Z) : result par2_err nat :=
  let maxJunkScan := if decide (maxJunkScan < MinPar2JunkScanBytes) then defaultMaxJunkScan else maxJunkScan in
  let? p := Seek pos (-63) in
  let '(scanBuf, p, readErr) := ReadFull f p (Z.to_nat maxJunkScan) in
  let n := length scanBuf in
  let failed := match readErr with Some e => Err e | None => Ok p end in
  if decide (n = 0)%nat then failed
  else match Index scanBuf magic with
       | Some idx => Seek p (- Z.of_nat (n - idx))
       | None => if decide (Z.of_nat n >= maxJunkScan) then Err ErrJunkScanLimitExceeded else failed
       end.

(** The longest prefix of [magic] of at most [k] bytes that ends [tail]. *)
Fixpoint partial_magic (k : nat) (tail : list Z) : option nat :=
  match k with
  | O => None
  | S k' => if decide (drop (length tail - k) tail = take k magic) then Some k else partial_magic k' tail
  end.

(** [rewindToEmbeddedMagic], with the file after the body of a failed
    candidate. *)
Definition rewindToEmbeddedMagic (fileSize : Z) (header body : list Z) (pos : nat) : result par2_err nat :=
  let fitsHeader b := bool_decide (Z.of_nat pos >= b /\ Z.of_nat pos - b + 64 <= fileSize) in
  let rewind b := if fitsHeader b then Seek pos (- b) else Ok pos in
  let totalAfterStart := (63 + length body)%nat in
  let boundOverlap := Nat.min (length body) 7 in
  match Index (slice header 1 64 ++ take boundOverlap body) magic with
  | Some idx => rewind (Z.of_nat (totalAfterStart - idx))
  | None =>
      match Index body magic with
      | Some idx => rewind (Z.of_nat (length body - idx))
      | None =>
          let tailLen := Nat.min 7 totalAfterStart in
          let tail :=
            if decide (tailLen <= length body)%nat then drop (length body - tailLen) body
            else slice header (64 - (tailLen - length body)) 64 ++ body in
          match partial_magic tailLen tail with
          | Some k => rewind (Z.of_nat k)
          | None => Ok pos
          end
      end
  end.

(** One turn of the loop of [readNextPacketWithOptions]. *)
Inductive read_turn : Type :=
| Packet (header body : list Z) (pos : nat)
| Again (pos : nat)
| Failed (e : par2_err).

Definition again (r : result par2_err nat) : read_turn :=
  match r with
  | Ok pos => Again pos
  | Err e => Failed e
  end.

Definition read_packet (f : list Z) (opts : ParseOptions) (pos : nat) : read_turn :=
  let fileSize := Z.of_nat (length f) in
  let maxBody := if decide (MaxPacketBodySize opts < MinPar2PacketBodySize) then defaultMaxPacketBodySize
                 else MaxPacketBodySize opts in
  let '(header, pos, err) := ReadFull f pos 64 in
  match err with
  | Some e => Failed e
  | None =>
      if negb (bool_decide (slice header 0 8 = magic)) then again (scanForMagic f pos (MaxJunkScanBytes opts))
      else
        let packetLen := LittleEndian (slice header 8 16) in
        if negb (isValidPacketLen packetLen fileSize) then again (scanForMagic f pos (MaxJunkScanBytes opts))
        else
          let bodyLen := packetLen - 64 in
          if decide (bodyLen > maxBody) then Failed ErrPacketBodySizeExceeded
          else
            let '(body, p, err) := ReadFull f pos (Z.to_nat bodyLen) in
            match err with
            | Some _ => again (let? p := Seek p (- Z.of_nat (length body)) in scanForMagic f p (MaxJunkScanBytes opts))
            | None =>
                if negb (validatePacketMD5 header body) then again (rewindToEmbeddedMagic fileSize header body p)
                else Packet header body p
            end
  end.

(** [readNextPacketWithOptions]; [None] is fuel exhausted. *)
Fixpoint readNextPacket (fuel : nat) (f : list Z) (opts : ParseOptions) (pos : nat) :
    option (result par2_err (list Z * list Z * nat)) :=
  match fuel with
  | O => None
  | S k =>
      match read_packet f opts pos with
      | Packet header body pos => Some (Ok (header, body, pos))
      | Again pos => readNextPacket k f opts pos
      | Failed e => Some (Err e)
      end
  end.

(** ** Packet bodies *)

(** A rune below 256, encoded. *)
Definition latin1 (b : Z) : list Z := if b <? 128 then [b] else [192 + b / 64; 128 + b mod 64].

(** [NFC] is [norm.NFC.String] of [golang.org/x/text]. *)
Section parse.
Variable NFC : list Z -> list Z.

Definition correctEncoding (raw : list Z) : list Z :=
  if utf8_Valid raw then NFC raw else NFC (concat (latin1 <$> raw)).

Definition parseFileDescBody (body : list Z) : option FileDesc :=
  if decide (length body < 56)%nat then None
  else Some (mkFileDesc (slice body 0 16)
               (if decide (56 < length body)%nat then correctEncoding (TrimRight (drop 56 body) [0]) else [])
               (slice body 16 32) (slice body 32 48) (LittleEndian (slice body 48 56)) 0 false [] false).

(** The checksum pairs of an IFSC body; fewer than twenty bytes end them. *)
Fixpoint ifsc_slices (fuel : nat) (remaining : list Z) : list ifscSlice :=
  match fuel with
  | O => []
  | S k =>
      if decide (20 <= length remaining)%nat
      then mkSlice (slice remaining 0 16) (LittleEndian (slice remaining 16 20)) :: ifsc_slices k (drop 20 remaining)
      else []
  end.

Definition parseIFSCBody (body : list Z) : option ifscData :=
  if decide (length body < 16)%nat then None
  else Some (mkIfsc (slice body 0 16) (ifsc_slices (length body) (drop 16 body))).

Definition maxRecoverySetFiles : Z := 32768.

Definition recoveryFileIDs (body : list Z) : list (list Z) :=
  if decide (length body < 12)%nat then []
  else
    let n := LittleEndian (slice body 8 12) in
    if decide (n > (Z.of_nat (length body) - 12) / 16) then []
    else if decide (n > maxRecoverySetFiles) then []
    else (fun i => slice body (12 + 16 * i) (12 + 16 * i + 16)) <$> seq 0 (Z.to_nat n).

(** ** Handling a packet *)
Record parse_state : Type := mkParse {
  ps_set : ParsedSet;
  ps_ifsc : list ifscData;
  ps_expected : Z;             (* -1: unknown *)
  ps_descs : gset (list Z);
  ps_ifscs : gset (list Z);
}.

Definition emptySet : ParsedSet := mkSet (replicate 16 0) 0 [] [] ∅ ∅ 0 [].
Definition parse_start : parse_state := mkParse emptySet [] (-1) ∅ ∅.

Definition handlePacket (st : parse_state) (header body : list Z) : parse_state :=
  let set := ps_set st in
  let type := slice header 48 64 in
  if decide (type = typeMain) then
    if decide (length body < 8)%nat then st
    else mkParse
           (mkSet (slice header 32 48) (LittleEndian (slice body 0 8)) (recoveryFileIDs body) (Files set) (FilesByID set)
              (By16k set) (RecoveryBlocks set) (Creator set))
           (ps_ifsc st) (if decide (12 < length body)%nat then (Z.of_nat (length body) - 12) / 16 else ps_expected st)
           (ps_descs st) (ps_ifscs st)
  else if decide (type = typeFileDesc) then
    match parseFileDescBody body with
    | None => st
    | Some fd =>
        if decide (FileID fd ∈ ps_descs st) then st
        else mkParse
               (mkSet (SetID set) (SliceSize set) (RecoveryFileIDs set) (Files set ++ [fd]) (FilesByID set) (By16k set)
                  (RecoveryBlocks set) (Creator set))
               (ps_ifsc st) (ps_expected st) ({[FileID fd]} ∪ ps_descs st) (ps_ifscs st)
    end
  else if decide (type = typeIFSC) then
    match parseIFSCBody body with
    | None => st
    | Some idata =>
        if decide (fileID idata ∈ ps_ifscs st) then st
        else mkParse set (ps_ifsc st ++ [idata]) (ps_expected st) (ps_descs st) ({[fileID idata]} ∪ ps_ifscs st)
    end
  else if decide (type = typeRecovery) then
    mkParse (mkSet (SetID set) (SliceSize set) (RecoveryFileIDs set) (Files set) (FilesByID set) (By16k set)
               (RecoveryBlocks set + 1) (Creator set)) (ps_ifsc st) (ps_expected st) (ps_descs st) (ps_ifscs st)
  else if decide (type = typeCreator) then
    mkParse (mkSet (SetID set) (SliceSize set) (RecoveryFileIDs set) (Files set) (FilesByID set) (By16k set)
               (RecoveryBlocks set) (TrimRight body [0])) (ps_ifsc st) (ps_expected st) (ps_descs st) (ps_ifscs st)
  else st.

(** ** After the packets *)

(** A slice size as [int64]. *)
Definition i64 (x : Z) : Z := wraps 64 x.

(** One slice's checksum appended to the file's; the last slice may be
    shorter, and its checksum is of the slice padded with zeros. *)
Definition combine_slice (sliceSize fileSize : Z) (numSlices : nat) (combined : Z) (r : nat * ifscSlice) : Z :=
  let '(i, s) := r in
  if decide (i = numSlices - 1)%nat then
    let tail := fileSize mod sliceSize in
    if decide (tail = 0) then Combine combined (crc32 s) (i64 sliceSize)
    else
      let unpadded := ZeroUnpad (crc32 s) (i64 (sliceSize - tail)) in
      Combine combined unpadded (i64 tail)
  else Combine combined (crc32 s) (i64 sliceSize).

Definition combine_slices (sliceSize fileSize : Z) (l : list ifscSlice) : Z :=
  foldl (combine_slice sliceSize fileSize (length l)) 0 (imap (fun i s => (i, s)) l).

Definition reconstruct_one (sliceSize : Z) (byID : gmap (list Z) nat) (files : list FileDesc) (idata : ifscData) : list FileDesc :=
  match byID !! fileID idata with
  | None => files
  | Some i =>
      match files !! i with
      | None => files
      | Some fd =>
          if decide (FileSize fd = 0 \/ slices idata = []) then files
          else <[i := set_crc fd (combine_slices sliceSize (FileSize fd) (slices idata))]> files
      end
  end.

Definition reconstructCRCs (sliceSize : Z) (byID : gmap (list Z) nat) (files : list FileDesc) (ifsc : list ifscData) : list FileDesc :=
  foldl (reconstruct_one sliceSize byID) files ifsc.

Definition count_hash (files : list FileDesc) (h : list Z) : nat := length (base.filter (fun fd => Hash16k fd = h) files).

Definition buildBy16k (files : list FileDesc) : list FileDesc * gmap (list Z) nat :=
  ((fun fd => if decide (1 < count_hash files (Hash16k fd))%nat then set_dup fd else fd) <$> files,
   list_to_map (omap (fun r => if decide (1 < count_hash files (Hash16k (snd r)))%nat then None else Some (Hash16k (snd r), fst r))
                  (imap (fun i fd => (i, fd)) files))).

Definition postProcessSet (set : ParsedSet) (ifsc : list ifscData) : ParsedSet :=
  let byID := foldl (fun m r => <[FileID (snd r) := fst r]> m) (FilesByID set) (imap (fun i fd => (i, fd)) (Files set)) in
  let files := if decide (0 < SliceSize set) then reconstructCRCs (SliceSize set) byID (Files set) ifsc else Files set in
  let '(files, by16k) := buildBy16k files in
  mkSet (SetID set) (SliceSize set) (RecoveryFileIDs set) files byID by16k (RecoveryBlocks set) (Creator set).

(** ** Parsing a file *)
Definition earlyExitThreshold : Z := 10 * 1024 * 1024.

Definition clamp (opts : ParseOptions) : ParseOptions :=
  mkOpts (if decide (MaxJunkScanBytes opts < MinPar2JunkScanBytes) then defaultMaxJunkScan else MaxJunkScanBytes opts)
         (if decide (MaxPacketBodySize opts < MinPar2PacketBodySize) then defaultMaxPacketBodySize else MaxPacketBodySize opts).

(** Whether every description and checksum packet the Main packet announces
    has been seen, in a large file. *)
Definition seen_all (f : list Z) (st : parse_state) : bool :=
  bool_decide (ps_expected st > 0 /\ Z.of_nat (length f) > earlyExitThreshold /\
    Z.of_nat (size (ps_descs st)) >= ps_expected st /\ Z.of_nat (size (ps_ifscs st)) >= ps_expected st).

Fixpoint parse_loop (fuel : nat) (f : list Z) (opts : ParseOptions) (untilDescribed : bool) (validPackets : nat)
    (st : parse_state) (pos : nat) : option (result par2_err parse_state) :=
  match fuel with
  | O => None
  | S k =>
      match readNextPacket (S (length f)) f opts pos with
      | None => None
      | Some (Err e) =>
          if bool_decide (e = EOF) || (bool_decide (e = ErrUnexpectedEOF) && bool_decide (0 < validPackets)%nat)
          then Some (Ok st) else Some (Err e)
      | Some (Ok (header, body, pos)) =>
          let st := handlePacket st header body in
          if untilDescribed && bool_decide (Files (ps_set st) <> []) then Some (Ok st)
          else if seen_all f st then Some (Ok st)
          else parse_loop k f opts untilDescribed (S validPackets) st pos
      end
  end.

(** [parsePar2Set] on a file that opens. *)
Definition parsePar2Set (f : list Z) (opts : ParseOptions) (untilDescribed : bool) : option (result par2_err ParsedSet) :=
  match parse_loop (S (length f)) f (clamp opts) untilDescribed 0 parse_start 0 with
  | None => None
  | Some (Err e) => Some (Err e)
  | Some (Ok st) => Some (Ok (postProcessSet (ps_set st) (ps_ifsc st)))
  end.

Definition ParsePar2Set (f : list Z) : option (result par2_err ParsedSet) := parsePar2Set f DefaultParseOptions false.

Definition ParseFileDescriptions (f : list Z) (opts : ParseOptions) : option (result par2_err (list FileDesc)) :=
  match parsePar2Set f opts false with
  | None => None
  | Some (Err e) => Some (Err e)
  | Some (Ok set) => Some (Ok (Files set))
  end.
End parse.

Definition HasMagic (f : list Z) : bool :=
  let '(buf, _, err) := ReadFull f 0 8 in
  match err with
  | Some _ => false
  | None => bool_decide (buf = magic)
  end.

Definition describesAFile (p : ParsedSet) : bool := negb (bool_decide (Files p = [])) || negb (bool_decide (RecoveryFileIDs p = [])).
