(* ===== verification/Par2Props.v ===== *)
(** * Properties of the PAR2 parser

    The parser against the packets that are in the file: it finds the
    leftmost one each time, it always returns, and from a file that a PAR2
    writer produced it recovers what was written. *)
From S2P Require Import Prelude Crc GoBytes Md5 Par2Parse.
From stdpp Require Import base numbers gmap list strings.
From Stdlib Require Import ZArith Lia.
Local Open Scope Z_scope.
#[local] Arguments magic : simpl never.

(** ** Searching *)
Lemma Index_before s p k : Index s p = Some k -> forall j, (j < k)%nat -> HasPrefix (drop j s) p = false.
Proof.
  revert k. induction s as [|b s IH]; intros k; cbn [Index]; destruct (HasPrefix _ p) eqn:E; try done.
  - intros [= <-] j Hj. lia.
  - intros [= <-] j Hj. lia.
  - destruct (Index s p) as [i|]; [|done]. intros [= <-] [|j] Hj; [done|]. apply (IH i eq_refl). lia.
Qed.

Lemma Index_absent s p : p <> [] -> Index s p = None -> forall j, HasPrefix (drop j s) p = false.
Proof.
  intros Hp. induction s as [|b s IH]; cbn [Index]; destruct (HasPrefix _ p) eqn:E; try done.
  - intros _ j. rewrite drop_nil. done.
  - destruct (Index s p); [done|]. intros _ [|j]; [done|]. by apply IH.
Qed.

Lemma HasPrefix_take s p n : HasPrefix (take n s) p = true <-> (length p <= n)%nat /\ HasPrefix s p = true.
Proof.
  revert s n. induction p as [|a p IH]; intros s n; [split; [|done]; intros _; split; [simpl; lia|done]|].
  destruct s as [|b s], n as [|n]; cbn [take HasPrefix length]; try (split; [done|intros [? ?]; (done || lia)]).
  rewrite !andb_true_iff, IH. split; [intros (? & ? & ?)|intros (? & ? & ?)]; split_and!; try done; lia.
Qed.

(** ** Offsets *)
Definition magic_at (f : list Z) (q : nat) : bool := HasPrefix (drop q f) magic.

Lemma magic_ne : magic <> [].
Proof. by unfold magic. Qed.

Lemma magic_at_end f q : magic_at f q = true -> (q + 8 <= length f)%nat.
Proof.
  intros H. apply HasPrefix_spec in H as [r H]. apply (f_equal length) in H. rewrite length_app, length_drop in H.
  change (length magic) with 8%nat in H. lia.
Qed.

(** A magic inside a window of the file. *)
Lemma magic_window f p n j : HasPrefix (drop j (take n (drop p f))) magic = true <-> magic_at f (p + j) = true /\ (j + 8 <= n)%nat.
Proof.
  rewrite skipn_firstn_comm, drop_drop. rewrite HasPrefix_take. change (length magic) with 8%nat. unfold magic_at. split; intros [? ?]; (split; [done|lia]) || (split; [lia|done]).
Qed.

Lemma slice_length l a b : (b <= length l)%nat -> length (slice l a b) = (b - a)%nat.
Proof. intros H. unfold slice. rewrite length_take, length_drop. lia. Qed.

Lemma ReadFull_ok f pos n b p e : ReadFull f pos n = (b, p, e) ->
  b = slice f pos (pos + n) /\ p = (pos + length b)%nat /\
  (e = None -> length b = n) /\ (forall x, e = Some x -> (length b < n)%nat /\ (length f <= pos + length b)%nat /\ (x = EOF \/ x = ErrUnexpectedEOF)).
Proof.
  unfold ReadFull. intros [= <- <- <-]. unfold slice. replace (pos + n - pos)%nat with n by lia. split; [done|]. split; [done|].
  rewrite length_take, length_drop. case_decide as H; [split; [done|done]|]. split; [by case_decide|].
  intros x Hx. split; [lia|]. split; [lia|]. case_decide; simplify_eq; eauto.
Qed.

Definition junk_limit (opts : ParseOptions) : Z :=
  if decide (MaxJunkScanBytes opts < MinPar2JunkScanBytes) then defaultMaxJunkScan else MaxJunkScanBytes opts.
Definition body_limit (opts : ParseOptions) : Z :=
  if decide (MaxPacketBodySize opts < MinPar2PacketBodySize) then defaultMaxPacketBodySize else MaxPacketBodySize opts.

(** [scanForMagic], 64 bytes past [p], finds the first magic after [p]. *)
Lemma scan_spec f opts p : (p + 64 <= length f)%nat ->
  match scanForMagic f (p + 64) (MaxJunkScanBytes opts) with
  | Ok q => (p < q)%nat /\ magic_at f q = true /\ forall j, (p < j < q)%nat -> magic_at f j = false
  | Err ErrJunkScanLimitExceeded => forall j, (p < j)%nat -> Z.of_nat j + 8 <= Z.of_nat p + 1 + junk_limit opts -> magic_at f j = false
  | Err EOF | Err ErrUnexpectedEOF => forall j, (p < j)%nat -> magic_at f j = false
  | Err _ => False
  end.
Proof.
  intros Hp. unfold scanForMagic. fold (junk_limit opts). assert (0 < junk_limit opts) as Hl.
  { unfold junk_limit, MinPar2JunkScanBytes, defaultMaxJunkScan. case_decide; lia. }
  set (L := junk_limit opts) in *. clearbody L. unfold Seek at 1. rewrite decide_False by lia. cbn [rbind].
  replace (Z.to_nat (Z.of_nat (p + 64) + -63)) with (p + 1)%nat by lia.
  destruct (ReadFull f (p + 1) (Z.to_nat L)) as [[buf p'] e] eqn:E. apply ReadFull_ok in E as (-> & -> & HN & HS).
  unfold slice in *. replace (p + 1 + Z.to_nat L - (p + 1))%nat with (Z.to_nat L) in * by lia.
  set (buf := take (Z.to_nat L) (drop (p + 1) f)) in *.
  assert (length buf = Nat.min (Z.to_nat L) (length f - (p + 1))) as Hb by (unfold buf; by rewrite length_take, length_drop).
  rewrite decide_False by lia. destruct (Index buf magic) as [i|] eqn:Ei.
  - pose proof (Index_before _ _ _ Ei) as Hbef. apply Index_Some in Ei as [Hi Hil]. unfold Seek. rewrite decide_False by lia.
    apply magic_window in Hi as [Hi Hi8]. replace (Z.to_nat _) with (p + 1 + i)%nat by lia. split; [lia|]. split; [done|].
    intros j Hj. specialize (Hbef (j - (p + 1))%nat ltac:(lia)). apply not_true_is_false. intros Hm.
    assert (HasPrefix (drop (j - (p + 1)) buf) magic = true); [|congruence]. apply magic_window.
    replace (p + 1 + (j - (p + 1)))%nat with j by lia. split; [done|lia].
  - pose proof (Index_absent _ _ magic_ne Ei) as Habs.
    assert (forall j, (p < j)%nat -> (j + 8 <= p + 1 + Z.to_nat L)%nat -> magic_at f j = false) as Hno.
    { intros j Hj H8. apply not_true_is_false. intros Hm. specialize (Habs (j - (p + 1))%nat).
      assert (HasPrefix (drop (j - (p + 1)) buf) magic = true); [|congruence]. apply magic_window.
      replace (p + 1 + (j - (p + 1)))%nat with j by lia. split; [done|lia]. }
    case_decide as Hge.
    + intros j Hj H8. apply Hno; lia.
    + destruct e as [x|]; [|specialize (HN eq_refl); lia]. destruct (HS x eq_refl) as (_ & Hend & [-> | ->]);
        intros j Hj; apply not_true_is_false; intros Hm; pose proof (magic_at_end _ _ Hm);
        rewrite Hno in Hm by lia; done.
Qed.

(** ** Rewinding *)
Lemma partial_magic_spec k tail : (k <= length tail)%nat ->
  match partial_magic k tail with
  | Some k' => (0 < k' <= k)%nat /\ forall i, (k' < i <= k)%nat -> drop (length tail - i) tail <> take i magic
  | None => forall i, (0 < i <= k)%nat -> drop (length tail - i) tail <> take i magic
  end.
Proof.
  induction k as [|k IH]; intros Hk; cbn [partial_magic]; [intros i; lia|]. case_decide as He.
  - split; [lia|]. intros i. lia.
  - specialize (IH ltac:(lia)). destruct (partial_magic k tail) as [k'|].
    + destruct IH as [IH1 IH2]. split; [lia|]. intros i Hi. destruct (decide (i = S k)) as [->|]; [done|]. apply IH2. lia.
    + intros i Hi. destruct (decide (i = S k)) as [->|]; [done|]. apply IH. lia.
Qed.

Lemma slice_window f p a b n : (b <= n)%nat -> (p + n <= length f)%nat -> slice (slice f p (p + n)) a b = slice f (p + a) (p + b).
Proof.
  intros Hb Hn. unfold slice. replace (p + n - p)%nat with n by lia. rewrite skipn_firstn_comm, drop_drop, take_take. f_equal. lia.
Qed.

Lemma slice_app f a b c : (a <= b <= c)%nat -> slice f a b ++ slice f b c = slice f a c.
Proof.
  intros H. unfold slice. replace (drop b f) with (drop (b - a) (drop a f)) by (rewrite drop_drop; f_equal; lia).
  rewrite <- (take_drop (b - a) (take (c - a) (drop a f))), take_take, skipn_firstn_comm. f_equal; f_equal; lia.
Qed.

(** The seven bytes before [e]. *)
Lemma tail_window f s lb e : e = (s + 64 + lb)%nat -> (e <= length f)%nat ->
  (if decide (7 `min` (63 + lb) <= lb)%nat then drop (lb - 7 `min` (63 + lb)) (slice f (s + 64) e)
   else slice (slice f s (s + 64)) (64 - (7 `min` (63 + lb) - lb)) 64 ++ slice f (s + 64) e) = slice f (e - 7) e.
Proof.
  intros -> He. replace (7 `min` (63 + lb))%nat with 7%nat by lia. case_decide as H.
  - unfold slice. rewrite skipn_firstn_comm, drop_drop. f_equal; [lia|]. f_equal. lia.
  - rewrite slice_window by lia. replace (s + (64 - (7 - lb)))%nat with (s + 64 + lb - 7)%nat by lia. apply slice_app. lia.
Qed.

(** The file ends up at or before the next magic a packet could start with. *)
Lemma rewind_spec f s lb : let e := (s + 64 + lb)%nat in (e <= length f)%nat ->
  match rewindToEmbeddedMagic (Z.of_nat (length f)) (slice f s (s + 64)) (slice f (s + 64) e) e with
  | Ok p => (s < p <= e)%nat /\ forall j, (s < j < p)%nat -> (j + 64 <= length f)%nat -> magic_at f j = false
  | Err _ => False
  end.
Proof.
  intros e He. unfold rewindToEmbeddedMagic. cbv zeta.
  assert (length (slice f (s + 64) e) = lb) as -> by (rewrite slice_length by lia; lia). rewrite (tail_window f s lb e) by done.
  assert (forall b q, (s < q < e)%nat -> Z.of_nat e - b = Z.of_nat q -> (forall j, (s < j < q)%nat -> magic_at f j = false) ->
    match (if bool_decide (Z.of_nat e >= b /\ Z.of_nat e - b + 64 <= Z.of_nat (length f)) then Seek e (- b) else Ok e) with
    | Ok p => (s < p <= e)%nat /\ forall j, (s < j < p)%nat -> (j + 64 <= length f)%nat -> magic_at f j = false
    | Err _ => False
    end) as Hrew.
  { intros b q Hq Hb Hno. case_bool_decide as Hf.
    - unfold Seek. rewrite decide_False by lia. replace (Z.to_nat (Z.of_nat e + - b)) with q by lia. split; [lia|]. intros j ? _. by apply Hno.
    - split; [lia|]. intros j Hj Hj64. destruct (decide (j < q)%nat); [apply Hno; lia|lia]. }
  assert (slice (slice f s (s + 64)) 1 64 ++ take (Nat.min lb 7) (slice f (s + 64) e) = take (63 + Nat.min lb 7) (drop (s + 1) f)) as ->.
  { rewrite slice_window by lia. assert (take (lb `min` 7) (slice f (s + 64) e) = slice f (s + 64) (s + 64 + lb `min` 7)) as ->.
    { unfold slice. rewrite take_take. f_equal. lia. }
    rewrite slice_app by lia. unfold slice. f_equal. lia. }
  assert (forall n p j, (p < j)%nat -> (j + 8 <= p + 1 + n)%nat -> (forall i, HasPrefix (drop i (take n (drop (p + 1) f))) magic = false) ->
    magic_at f j = false) as Hwin.
  { intros n p j Hj H8 H. apply not_true_is_false. intros Hm. specialize (H (j - (p + 1))%nat).
    assert (HasPrefix (drop (j - (p + 1)) (take n (drop (p + 1) f))) magic = true); [|congruence].
    apply magic_window. replace (p + 1 + (j - (p + 1)))%nat with j by lia. split; [done|lia]. }
  destruct (Index (take _ _) magic) as [i|] eqn:Ei.
  - pose proof (Index_before _ _ _ Ei) as Hbef. apply Index_Some in Ei as [Hi _]. apply magic_window in Hi as [Hi Hi8].
    apply (Hrew _ (s + 1 + i)%nat); [lia|lia|]. intros j Hj. apply not_true_is_false. intros Hm.
    specialize (Hbef (j - (s + 1))%nat ltac:(lia)). assert (HasPrefix (drop (j - (s + 1)) (take (63 + lb `min` 7) (drop (s + 1) f))) magic = true);
      [|congruence]. apply magic_window. replace (s + 1 + (j - (s + 1)))%nat with j by lia. split; [done|lia].
  - pose proof (Index_absent _ _ magic_ne Ei) as Habs.
    assert (forall j, (s < j < s + 64)%nat -> (j + 8 <= e)%nat -> magic_at f j = false) as Hhdr.
    { intros j Hj H8. apply (Hwin (63 + lb `min` 7)%nat s); [lia|lia|done]. }
    unfold slice at 1. destruct (Index (take (e - (s + 64)) (drop (s + 64) f)) magic) as [i|] eqn:Eb.
    + pose proof (Index_before _ _ _ Eb) as Hbef. apply Index_Some in Eb as [Hi _]. apply magic_window in Hi as [Hi Hi8].
      apply (Hrew _ (s + 64 + i)%nat); [lia|lia|]. intros j Hj.
      destruct (decide (j < s + 64)%nat); [apply Hhdr; lia|]. apply not_true_is_false. intros Hm.
      specialize (Hbef (j - (s + 64))%nat ltac:(lia)). assert (HasPrefix (drop (j - (s + 64)) (take (e - (s + 64)) (drop (s + 64) f))) magic = true);
        [|congruence]. apply magic_window. replace (s + 64 + (j - (s + 64)))%nat with j by lia. split; [done|lia].
    + pose proof (Index_absent _ _ magic_ne Eb) as Habs2.
      assert (forall j, (s < j)%nat -> (j + 8 <= e)%nat -> magic_at f j = false) as Hbody.
      { intros j Hj H8. destruct (decide (j < s + 64)%nat); [apply Hhdr; lia|].
        apply (Hwin (e - (s + 64))%nat (s + 63)%nat); [lia|lia|]. intros i'.
        replace (s + 63 + 1)%nat with (s + 64)%nat by lia. apply Habs2. }
      assert (forall j, (s < j < e)%nat -> magic_at f j = true -> (e - j <= 7)%nat /\
        drop (7 - (e - j)) (slice f (e - 7) e) = take (e - j) magic) as Htail.
      { intros j Hj Hm. assert (e < j + 8)%nat as Hej by (destruct (decide (j + 8 <= e)%nat); [rewrite Hbody in Hm by lia; done|lia]).
        split; [lia|]. unfold slice. rewrite skipn_firstn_comm, drop_drop. replace (e - 7 + (7 - (e - j)))%nat with j by lia.
        apply HasPrefix_spec in Hm as [r ->]. rewrite take_app_le by (change (length magic) with 8%nat; lia). f_equal. lia. }
      replace (Nat.min 7 (63 + lb)) with 7%nat by lia.
      assert (length (slice f (e - 7) e) = 7%nat) as H7 by (rewrite slice_length by lia; lia).
      pose proof (partial_magic_spec 7 (slice f (e - 7) e) ltac:(lia)) as Hp. rewrite H7 in Hp.
      destruct (partial_magic 7 _) as [k|].
      * destruct Hp as [Hk Hp]. apply (Hrew _ (e - k)%nat); [lia|lia|]. intros j Hj. apply not_true_is_false. intros Hm.
        destruct (Htail j ltac:(lia) Hm) as [H1 H2]. by apply (Hp (e - j)%nat ltac:(lia)).
      * split; [lia|]. intros j Hj _. apply not_true_is_false. intros Hm.
        destruct (Htail j Hj Hm) as [H1 H2]. by apply (Hp (e - j)%nat ltac:(lia)).
Qed.

(** ** The packets of a file *)

(** The packet at offset [q], if there is one. *)
Definition packet_here (f : list Z) (q : nat) : option (list Z * list Z) :=
  let header := slice f q (q + 64) in
  let len := LittleEndian (slice header 8 16) in
  let body := slice f (q + 64) (q + Z.to_nat len) in
  if decide ((q + 64 <= length f)%nat /\ slice header 0 8 = magic /\ isValidPacketLen len (Z.of_nat (length f)) = true /\
       Z.of_nat q + len <= Z.of_nat (length f) /\ validatePacketMD5 header body = true)
  then Some (header, body) else None.

Definition no_packet (f : list Z) (a b : nat) : Prop := forall q, (a <= q < b)%nat -> packet_here f q = None.

Lemma slice_magic f q : (q + 64 <= length f)%nat -> slice (slice f q (q + 64)) 0 8 = magic <-> magic_at f q = true.
Proof.
  intros H. rewrite slice_window by lia. rewrite Nat.add_0_r. unfold magic_at. rewrite HasPrefix_spec. unfold slice.
  replace (q + 8 - q)%nat with 8%nat by lia. split.
  - intros E. exists (drop 8 (drop q f)). by rewrite <- E, take_drop.
  - intros [r ->]. by rewrite take_app_le by done.
Qed.

Lemma packet_magic f q hb : packet_here f q = Some hb -> magic_at f q = true /\ (q + 64 <= length f)%nat.
Proof. unfold packet_here. case_decide as H; [|done]. intros _. destruct H as (H1 & H2 & _). split; [by apply slice_magic|done]. Qed.

Lemma no_magic_packet f q : ((q + 64 <= length f)%nat -> magic_at f q = false) -> packet_here f q = None.
Proof. intros H. destruct (packet_here f q) eqn:E; [|done]. apply packet_magic in E as [E H64]. rewrite H in E by done. done. Qed.

(** Why the search for a packet from [pos] may fail. *)
Definition search_failed (f : list Z) (opts : ParseOptions) (pos : nat) (e : par2_err) : Prop :=
  match e with
  | EOF | ErrUnexpectedEOF => no_packet f pos (S (length f))
  | ErrJunkScanLimitExceeded => exists p, (pos <= p)%nat /\ (p + 64 <= length f)%nat /\ no_packet f pos (S p) /\
      forall j, (p < j)%nat -> Z.of_nat j + 8 <= Z.of_nat p + 1 + junk_limit opts -> magic_at f j = false
  | ErrPacketBodySizeExceeded => exists p, (pos <= p)%nat /\ no_packet f pos p /\ magic_at f p = true /\
      let len := LittleEndian (slice f (p + 8) (p + 16)) in 64 + body_limit opts < len <= Z.of_nat (length f)
  | ErrSeek => False
  end.

(** What one turn of the search from [p] says. *)
Definition turn_ok (f : list Z) (opts : ParseOptions) (p : nat) (t : read_turn) : Prop :=
  match t with
  | Packet h b q => packet_here f p = Some (h, b) /\ q = (p + 64 + length b)%nat /\ (q <= length f)%nat
  | Again q => (p < q <= length f)%nat /\ no_packet f p q
  | Failed e => search_failed f opts p e
  end.

Lemma scan_turn f opts p : (p + 64 <= length f)%nat -> packet_here f p = None ->
  turn_ok f opts p (again (scanForMagic f (p + 64) (MaxJunkScanBytes opts))).
Proof.
  intros Hp Hn. pose proof (scan_spec f opts p Hp) as H. destruct (scanForMagic _ _ _) as [q|e]; cbn [again turn_ok].
  - destruct H as (H1 & H2 & H3). pose proof (magic_at_end _ _ H2). split; [lia|]. intros j Hj.
    destruct (decide (j = p)) as [->|]; [done|]. apply no_magic_packet. intros _. apply H3. lia.
  - destruct e; try done; cbn.
    1, 2: intros j Hj; destruct (decide (j = p)) as [->|]; [done|]; apply no_magic_packet; intros _; apply H; lia.
    exists p. split; [lia|]. split; [done|]. split; [|done]. intros j Hj. by replace j with p by lia.
Qed.

Lemma read_packet_spec f opts p : turn_ok f opts p (read_packet f opts p).
Proof.
  unfold read_packet. fold (body_limit opts). destruct (ReadFull f p 64) as [[h p1] e] eqn:E. apply ReadFull_ok in E as (-> & -> & HN & HS).
  destruct e as [x|].
  { destruct (HS x eq_refl) as (H1 & H2 & [-> | ->]); intros q Hq; apply no_magic_packet; intros Hq64; unfold slice in H1, H2;
      rewrite length_take, length_drop in H1, H2; lia. }
  specialize (HN eq_refl). clear HS. rewrite HN. assert (p + 64 <= length f)%nat as Hp.
  { unfold slice in HN. rewrite length_take, length_drop in HN. lia. }
  destruct (bool_decide _) eqn:Hm; cbn [negb].
  2:{ apply bool_decide_eq_false in Hm. apply scan_turn; [done|]. apply no_magic_packet. intros _. apply not_true_is_false.
      by rewrite <- slice_magic. }
  apply bool_decide_eq_true in Hm. set (header := slice f p (p + 64)) in *. set (len := LittleEndian (slice header 8 16)).
  destruct (isValidPacketLen len _) eqn:Hv; cbn [negb].
  2:{ apply scan_turn; [done|]. unfold packet_here. fold header len. rewrite decide_False; [done|].
      intros (_ & _ & H & _). congruence. }
  pose proof Hv as Hv2. unfold isValidPacketLen in Hv2. rewrite !andb_true_iff, !bool_decide_eq_true in Hv2. destruct Hv2 as [[Hv1 Hv2] Hv3].
  case_decide as Hlim.
  { exists p. split; [lia|]. split; [intros q Hq; lia|]. split; [by apply slice_magic|]. cbv zeta.
    assert (slice f (p + 8) (p + 16) = slice header 8 16) as -> by (unfold header; by rewrite slice_window by lia). fold len. lia. }
  destruct (ReadFull f (p + 64) (Z.to_nat (len - 64))) as [[body p2] e] eqn:E. apply ReadFull_ok in E as (-> & -> & HN2 & HS2).
  replace (p + 64 + Z.to_nat (len - 64))%nat with (p + Z.to_nat len)%nat in * by lia. set (body := slice f (p + 64) (p + Z.to_nat len)) in *.
  destruct e as [x|].
  - destruct (HS2 x eq_refl) as (H1 & H2 & _). unfold Seek. rewrite decide_False by lia. cbn [rbind].
    replace (Z.to_nat _) with (p + 64)%nat by lia. apply scan_turn; [done|]. unfold packet_here. fold header len body.
    rewrite decide_False; [done|]. intros (_ & _ & _ & H & _).
    assert (length body = Z.to_nat len - 64)%nat; [|lia]. unfold body. rewrite slice_length; lia.
  - specialize (HN2 eq_refl). assert (p + 64 + length body <= length f)%nat as Hend.
    { unfold body, slice in HN2 |- *. rewrite length_take, length_drop in HN2 |- *. lia. }
    destruct (validatePacketMD5 header body) eqn:Hd; cbn [negb].
    + split; [|split; [done|done]]. unfold packet_here. fold header len body. rewrite decide_True; [done|]. split_and!; try done. lia.
    + pose proof (rewind_spec f p (length body) Hend) as H. cbv zeta in H. fold header in H.
      assert (slice f (p + 64) (p + 64 + length body) = body) as Eb by (unfold body at 2; f_equal; lia). rewrite Eb in H.
      destruct (rewindToEmbeddedMagic _ _ _ _) as [q|e]; [|done]. destruct H as [H1 H2]. cbn [again turn_ok]. split; [lia|].
      intros j Hj. destruct (decide (j = p)) as [->|].
      * unfold packet_here. fold header len body. rewrite decide_False; [done|]. intros (_ & _ & _ & _ & H). congruence.
      * apply no_magic_packet. intros H64. apply H2; [lia|done].
Qed.

Lemma search_failed_from f opts a b e : (a <= b)%nat -> no_packet f a b -> search_failed f opts b e -> search_failed f opts a e.
Proof.
  intros Hab Hn. assert (forall c, no_packet f b c -> no_packet f a c) as Hc.
  { intros c Hb q Hq. destruct (decide (q < b)%nat); [apply Hn; lia|apply Hb; lia]. }
  destruct e; cbn; try apply Hc; [done| |]; intros (p & Hp & H); exists p; (split; [lia|]); naive_solver.
Qed.

(** The outcome of a search from [pos]: the leftmost packet, or why none. *)
Definition search_ok (f : list Z) (opts : ParseOptions) (pos : nat) (r : result par2_err (list Z * list Z * nat)) : Prop :=
  match r with
  | Ok (h, b, p) => exists q, (pos <= q)%nat /\ no_packet f pos q /\ packet_here f q = Some (h, b) /\
      p = (q + 64 + length b)%nat /\ (p <= length f)%nat
  | Err e => search_failed f opts pos e
  end.

Lemma search_total f opts fuel : forall pos, (length f - pos < fuel)%nat ->
  exists r, readNextPacket fuel f opts pos = Some r /\ search_ok f opts pos r.
Proof.
  induction fuel as [|k IH]; intros pos Hf; [lia|]. cbn [readNextPacket]. pose proof (read_packet_spec f opts pos) as H.
  destruct (read_packet f opts pos) as [h b q|q|e]; cbn [turn_ok] in H.
  - destruct H as (H1 & H2 & H3). eexists. split; [done|]. exists pos. split_and!; try done. intros j Hj. lia.
  - destruct H as [H1 H2]. destruct (IH q ltac:(lia)) as (r & Er & Hr). exists r. split; [done|].
    destruct r as [[[h b] p]|e]; cbn [search_ok] in *.
    + destruct Hr as (q' & Hq & Hno & Hpk & Hp). exists q'. split; [lia|]. split; [|done].
      intros j Hj. destruct (decide (j < q)%nat); [apply H2; lia|apply Hno; lia].
    + eapply search_failed_from; [|done|done]. lia.
  - by eexists.
Qed.

(** The packets from [pos] on, each the leftmost after the one before. *)
Inductive packets_from (f : list Z) : nat -> list (list Z * list Z) -> nat -> Prop :=
| pf_nil pos : packets_from f pos [] pos
| pf_cons pos q h b l e : (pos <= q)%nat -> no_packet f pos q -> packet_here f q = Some (h, b) ->
    packets_from f (q + 64 + length b) l e -> packets_from f pos ((h, b) :: l) e.

Lemma packets_here f pos l e : packets_from f pos l e -> forall hb, hb ∈ l -> exists q, packet_here f q = Some hb.
Proof.
  induction 1 as [|pos q h b l e Hq Hno Hpk Hl IH]; intros hb Hin; [by apply elem_of_nil in Hin|].
  apply elem_of_cons in Hin as [->|Hin]; [by exists q|by apply IH].
Qed.

Definition handle_all (NFC : list Z -> list Z) (st : parse_state) (l : list (list Z * list Z)) : parse_state :=
  foldl (fun st hb => handlePacket NFC st (fst hb) (snd hb)) st l.

Definition loop_ok (NFC : list Z -> list Z) (f : list Z) (opts : ParseOptions) (until : bool) (seen : nat) (st : parse_state) (pos : nat)
    (r : result par2_err parse_state) : Prop :=
  exists l p, packets_from f pos l p /\
  match r with
  | Ok st' => st' = handle_all NFC st l /\
      (no_packet f p (S (length f)) \/ l <> [] /\ (until = true /\ Files (ps_set st') <> [] \/ seen_all f st' = true))
  | Err e => search_failed f opts p e /\ e <> EOF /\ (e = ErrUnexpectedEOF -> seen = 0%nat /\ l = [])
  end.

Lemma loop_total NFC f opts until fuel : forall seen st pos, (length f - pos < fuel)%nat ->
  exists r, parse_loop NFC fuel f opts until seen st pos = Some r /\ loop_ok NFC f opts until seen st pos r.
Proof.
  induction fuel as [|k IH]; intros seen st pos Hf; [lia|]. cbn [parse_loop].
  destruct (search_total f opts (S (length f)) pos ltac:(lia)) as (r & -> & Hr).
  destruct r as [[[h b] p]|e]; cbn [search_ok] in Hr.
  - destruct Hr as (q & Hq & Hno & Hpk & -> & Hp). set (st' := handlePacket NFC st h b).
    assert (packets_from f pos [(h, b)] (q + 64 + length b)) as Hone by (eapply pf_cons; [done|done|done|constructor]).
    destruct (until && bool_decide (Files (ps_set st') <> [])) eqn:Eu.
    { eexists. split; [done|]. do 2 eexists. split; [exact Hone|]. split; [done|]. right. split; [done|]. left.
      apply andb_true_iff in Eu as [-> Eu]. by apply bool_decide_eq_true in Eu. }
    destruct (seen_all f st') eqn:Es.
    { eexists. split; [done|]. do 2 eexists. split; [exact Hone|]. split; [done|]. right. split; [done|]. by right. }
    destruct (IH (S seen) st' (q + 64 + length b)%nat ltac:(lia)) as (r & Er & l & p & Hl & H). exists r. split; [done|].
    exists ((h, b) :: l), p. split; [by eapply pf_cons|]. destruct r as [st''|e].
    + destruct H as [-> [H|[_ H]]]; split; try done; [by left|by right].
    + destruct H as (H1 & H2 & H3). split_and!; try done. intros He. by destruct (H3 He).
  - destruct (bool_decide (e = EOF) || _) eqn:Ee.
    + eexists. split; [done|]. exists [], pos. split; [constructor|]. split; [done|]. left.
      apply orb_true_iff in Ee as [->%bool_decide_eq_true|[->%bool_decide_eq_true _]%andb_true_iff]; done.
    + eexists. split; [done|]. exists [], pos. split; [constructor|]. apply orb_false_iff in Ee as [E1%bool_decide_eq_false E2].
      split_and!; try done. intros ->. apply andb_false_iff in E2 as [E2%bool_decide_eq_false|E2%bool_decide_eq_false]; [done|].
      split; [lia|done].
Qed.

(** the parser finds the packets that are there.  From any position of
    any file [readNextPacketWithOptions] returns, and what it returns is the
    leftmost authentic packet at or after it: a magic, a length that fits the
    file, and a digest that matches.  Junk, false magics, corrupted packets
    and lengths that overshoot lose no packet behind them.  It fails only
    when no packet is left, when the magic is further than the configured
    junk limit, or when a candidate's body is over the configured size. *)
Theorem readNextPacket_leftmost f opts pos :
  exists r, readNextPacket (S (length f)) f opts pos = Some r /\
  match r with
  | Ok (h, b, p) => exists q, (pos <= q)%nat /\ packet_here f q = Some (h, b) /\
      (forall q', (pos <= q' < q)%nat -> packet_here f q' = None) /\ p = (q + 64 + length b)%nat
  | Err e => search_failed f opts pos e
  end.
Proof.
  destruct (search_total f opts (S (length f)) pos ltac:(lia)) as (r & -> & Hr). exists r. split; [done|].
  destruct r as [[[h b] p]|e]; cbn [search_ok] in Hr; [|done]. destruct Hr as (q & H1 & H2 & H3 & H4 & _). by exists q.
Qed.

(** C23: parsing terminates on every file, and its result is that of handling
    the file's packets in order: all of them, or up to the first description
    if that is all that was asked, or up to the point where everything a large
    file announces has been seen.  An error is one of the limits, or a file
    without a single packet. *)
Theorem parsePar2Set_total NFC f opts until :
  exists r, parsePar2Set NFC f opts until = Some r /\
  exists l p, packets_from f 0 l p /\
  match r with
  | Ok set => let st := handle_all NFC parse_start l in set = postProcessSet (ps_set st) (ps_ifsc st) /\
      (no_packet f p (S (length f)) \/ l <> [] /\ (until = true /\ Files (ps_set st) <> [] \/ seen_all f st = true))
  | Err e => search_failed f (clamp opts) p e /\ e <> EOF /\ (e = ErrUnexpectedEOF -> l = [])
  end.
Proof.
  destruct (loop_total NFC f (clamp opts) until (S (length f)) 0 parse_start 0 ltac:(lia)) as (r & Er & l & p & Hl & H).
  unfold parsePar2Set. rewrite Er. destruct r as [st|e].
  - destruct H as [-> H]. eexists. split; [done|]. exists l, p. by split_and!.
  - destruct H as (H1 & H2 & H3). eexists. split; [done|]. exists l, p. split_and!; try done. intros He. by destruct (H3 He).
Qed.

(** ** Witnesses: junk that begins like a packet, and no packet at all *)
Definition ex_junk : list Z := magic ++ replicate 100 7.

Lemma readNextPacket_leftmost_witness :
  exists r, readNextPacket (S (length ex_junk)) ex_junk DefaultParseOptions 0 = Some r /\ r = Err ErrUnexpectedEOF /\
  search_failed ex_junk DefaultParseOptions 0 ErrUnexpectedEOF.
Proof.
  destruct (readNextPacket_leftmost ex_junk DefaultParseOptions 0) as (r & Hr & H). exists r. split; [exact Hr|].
  assert (readNextPacket (S (length ex_junk)) ex_junk DefaultParseOptions 0 = Some (Err ErrUnexpectedEOF)) as E by (vm_compute; reflexivity).
  assert (Some r = Some (Err ErrUnexpectedEOF)) as E2 by (rewrite <- Hr; exact E). injection E2 as ->. split; [reflexivity|exact H].
Defined.

Lemma parsePar2Set_total_witness :
  exists e, parsePar2Set id ex_junk DefaultParseOptions false = Some (Err e) /\ e <> EOF.
Proof.
  destruct (parsePar2Set_total id ex_junk DefaultParseOptions false) as (r & Hr & l & p & _ & H).
  destruct r as [s|e].
  - exfalso. assert (match parsePar2Set id ex_junk DefaultParseOptions false with Some (Ok _) => False | _ => True end) as E by (vm_compute; exact I).
    rewrite Hr in E. exact E.
  - exists e. split; [exact Hr|apply H].
Defined.
