(* ===== verification/Par2Set.v ===== *)
(** * The parsed PAR2 set

    What [postProcessSet] leaves: the indices are exact and every file
    description is that of an authentic packet; and for a file a PAR2 writer
    produced, each description's checksum is that of the file described. *)
From S2P Require Import Prelude Crc GoBytes Md5 Par2Parse Par2Props.
From stdpp Require Import base numbers gmap list strings.
From Stdlib Require Import ZArith Lia.
Local Open Scope Z_scope.

(** ** The descriptions *)

(** [fd] as parsed, its checksum and duplicate mark filled in later. *)
Definition described (fd fd0 : FileDesc) : Prop :=
  exists crc dup, fd = mkFileDesc (FileID fd0) (FileName fd0) (FullHash fd0) (Hash16k fd0) (FileSize fd0) crc dup [] false.

Section desc.
Variable NFC : list Z -> list Z.

Definition from_packet (l : list (list Z * list Z)) (fd : FileDesc) : Prop :=
  exists h b, (h, b) ∈ l /\ slice h 48 64 = typeFileDesc /\ parseFileDescBody NFC b = Some fd.

Record state_ok (l : list (list Z * list Z)) (st : parse_state) : Prop := {
  sk_descs : forall id, id ∈ ps_descs st <-> id ∈ FileID <$> Files (ps_set st);
  sk_nodup : NoDup (FileID <$> Files (ps_set st));
  sk_from : Forall (from_packet l) (Files (ps_set st));
  sk_ids : FilesByID (ps_set st) = ∅;
  sk_blocks : 0 <= RecoveryBlocks (ps_set st);
}.

Lemma from_packet_more l1 l2 fd : from_packet l1 fd -> from_packet (l1 ++ l2) fd.
Proof. intros (h & b & H & H'). exists h, b. split; [|done]. apply elem_of_app. by left. Qed.

Lemma state_ok_more l1 l2 st : state_ok l1 st -> state_ok (l1 ++ l2) st.
Proof. intros [S1 S2 S3 S4 S5]. split; try done. eapply Forall_impl; [done|]. intros fd. apply from_packet_more. Qed.

Lemma handle_ok l st h b : state_ok l st -> state_ok (l ++ [(h, b)]) (handlePacket NFC st h b).
Proof.
  intros S. pose proof (state_ok_more l [(h, b)] st S) as S'. unfold handlePacket.
  case_decide as T1; [case_decide; [done|]; by destruct S'; split|].
  case_decide as T2.
  { destruct (parseFileDescBody NFC b) as [fd|] eqn:E; [|done]. case_decide as Hin; [done|]. destruct S' as [S1 S2 S3 S4 S5].
    split; cbn; try done.
    - intros id. rewrite elem_of_union, elem_of_singleton, fmap_app, elem_of_app, S1. cbn. rewrite list_elem_of_singleton. naive_solver.
    - rewrite fmap_app. apply NoDup_app. split; [done|]. split; [|apply NoDup_singleton].
      intros id Hid. cbn. rewrite list_elem_of_singleton. intros ->. by apply Hin, S1.
    - apply Forall_app. split; [done|]. constructor; [|constructor]. exists h, b. split; [|done].
      apply elem_of_app. right. left. }
  case_decide as T3; [destruct (parseIFSCBody b); [case_decide|]; try done; by destruct S'; split|].
  case_decide as T4; [destruct S'; split; cbn; try done; lia|].
  case_decide; by destruct S'; split.
Qed.

Lemma handle_all_ok l0 l st : state_ok l0 st -> state_ok (l0 ++ l) (handle_all NFC st l).
Proof.
  revert l0 st. induction l as [|[h b] l IH]; intros l0 st S; [by rewrite app_nil_r|].
  cbn. rewrite (cons_middle (h, b) l0 l), app_assoc. apply IH. by apply handle_ok.
Qed.

Lemma start_ok : state_ok [] parse_start.
Proof. split; cbn; try done; [intros id; split; [by intros ?%elem_of_empty|by intros ?%elem_of_nil]|constructor]. Qed.
End desc.

(** ** The indices *)
Lemma index_fold (l : list FileDesc) : forall k m,
  NoDup (FileID <$> l) -> (forall fd, fd ∈ l -> m !! FileID fd = None) ->
  forall id j, foldl (fun (m : gmap (list Z) nat) r => <[FileID (snd r) := fst r]> m) m (imap (fun i fd => ((k + i)%nat, fd)) l) !! id = Some j <->
    m !! id = Some j \/ exists i fd, l !! i = Some fd /\ FileID fd = id /\ j = (k + i)%nat.
Proof.
  induction l as [|fd l IH]; intros k m Hnd Hm id j; cbn [imap foldl].
  - split; [by left|]. intros [H|(i & fd & H & _)]; [done|]. by rewrite lookup_nil in H.
  - cbn in Hnd. apply NoDup_cons in Hnd as [Hfd Hnd]. rewrite (imap_ext _ (fun i fd => ((S k + i)%nat, fd))) by (intros i x _; cbn; f_equal; lia).
    cbn [fst snd]. rewrite Nat.add_0_r. rewrite IH; [|done|].
    + destruct (decide (id = FileID fd)) as [->|Hne].
      * rewrite lookup_insert_eq. split.
        -- intros [[= <-]|(i & fd' & H1 & H2 & _)]; [right; exists 0%nat, fd; split_and!; try done; lia|].
           destruct Hfd. rewrite <- H2. apply list_elem_of_fmap. exists fd'. split; [done|]. by eapply list_elem_of_lookup_2.
        -- intros [H|(i & fd' & H1 & H2 & ->)]; [by rewrite (Hm fd ltac:(left)) in H|]. destruct i as [|i]; [left; f_equal; lia|].
           destruct Hfd. rewrite <- H2. apply list_elem_of_fmap. exists fd'. split; [done|]. by eapply list_elem_of_lookup_2.
      * rewrite lookup_insert_ne by done. split.
        -- intros [H|(i & fd' & H1 & H2 & ->)]; [by left|right]. exists (S i), fd'. split_and!; try done. lia.
        -- intros [H|(i & fd' & H1 & H2 & ->)]; [by left|right]. destruct i as [|i]; [cbn in H1; simplify_eq|].
           exists i, fd'. split_and!; try done. lia.
    + intros fd' Hin. rewrite lookup_insert_ne; [apply Hm; by right|]. intros E. apply Hfd. rewrite E. by apply list_elem_of_fmap_2.
Qed.

(** The fields a checksum does not change. *)
Definition same_but_crc (fd fd' : FileDesc) : Prop := exists crc, fd' = set_crc fd crc.

Lemma reconstruct_same sliceSize byID ifsc files : Forall2 same_but_crc files (reconstructCRCs sliceSize byID files ifsc).
Proof.
  assert (forall fd, same_but_crc fd fd) as Hrefl by (intros fd; exists (FileCRC32 fd); by destruct fd).
  assert (forall fs, Forall2 same_but_crc fs fs) as Hr.
  { intros fs. induction fs; constructor; auto. }
  unfold reconstructCRCs. revert files. induction ifsc as [|idata ifsc IH]; intros files; [apply Hr|]. cbn [foldl].
  assert (Forall2 same_but_crc files (reconstruct_one sliceSize byID files idata)) as H1.
  { unfold reconstruct_one. destruct (byID !! _) as [i|]; [|apply Hr]. destruct (files !! i) as [fd|] eqn:E; [|apply Hr].
    case_decide; [apply Hr|]. apply Forall2_same_length_lookup. split; [by rewrite length_insert|].
    intros j x y Hx Hy. apply list_lookup_insert_Some in Hy as [(-> & <- & _)|[Hne Hy]].
    - rewrite E in Hx. injection Hx as <-. by eexists.
    - rewrite Hx in Hy. by injection Hy as <-. }
  specialize (IH (reconstruct_one sliceSize byID files idata)). revert H1 IH. generalize (reconstruct_one sliceSize byID files idata).
  intros mid H1 H2. apply Forall2_same_length_lookup. apply Forall2_same_length_lookup in H1 as [L1 H1].
  apply Forall2_same_length_lookup in H2 as [L2 H2]. split; [congruence|]. intros j x z Hx Hz.
  destruct (mid !! j) as [y|] eqn:Ey; [|apply lookup_ge_None in Ey; apply lookup_lt_Some in Hx; lia].
  destruct (H1 j x y Hx Ey) as [c1 ->]. destruct (H2 j _ z Ey Hz) as [c2 ->]. by exists c2.
Qed.

Lemma same_ids files files' : Forall2 same_but_crc files files' -> FileID <$> files' = FileID <$> files /\ Hash16k <$> files' = Hash16k <$> files.
Proof. induction 1 as [|fd fd' l l' [crc ->] _ [IH1 IH2]]; [done|]. cbn. by rewrite IH1, IH2. Qed.

Lemma count_hash_fmap files files' h : Hash16k <$> files' = Hash16k <$> files -> count_hash files' h = count_hash files h.
Proof.
  unfold count_hash. revert files'. induction files as [|fd files IH]; intros [|fd' files'] H; try done. cbn in H. injection H as H1 H2.
  specialize (IH files' H2). rewrite !filter_cons, H1. case_decide; cbn; lia.
Qed.

Lemma count_hash_zero files h : (count_hash files h <= 0)%nat <-> forall j fd', files !! j = Some fd' -> Hash16k fd' <> h.
Proof.
  unfold count_hash. split.
  - intros Hl j fd' Hj E. assert (fd' ∈ base.filter (fun fd => Hash16k fd = h) files) as Hin.
    { apply list_elem_of_filter. split; [done|]. by eapply list_elem_of_lookup_2. }
    destruct (base.filter _ files); [by apply elem_of_nil in Hin|cbn in Hl; lia].
  - intros H. destruct (base.filter _ files) as [|y l] eqn:E; [done|]. assert (y ∈ base.filter (fun fd => Hash16k fd = h) files) as Hin by (rewrite E; left).
    apply list_elem_of_filter in Hin as [Hy [j Hj]%list_elem_of_lookup]. by destruct (H j y Hj).
Qed.

Lemma count_hash_one files i fd : files !! i = Some fd ->
  (count_hash files (Hash16k fd) <= 1)%nat <-> forall j fd', files !! j = Some fd' -> Hash16k fd' = Hash16k fd -> j = i.
Proof.
  revert i. induction files as [|x files IH]; intros i Hi; [done|].
  assert (count_hash (x :: files) (Hash16k fd) = if decide (Hash16k x = Hash16k fd) then S (count_hash files (Hash16k fd)) else count_hash files (Hash16k fd)) as ->.
  { unfold count_hash. rewrite filter_cons. by case_decide. }
  pose proof (count_hash_zero files (Hash16k fd)) as H0.
  destruct i as [|i]; cbn in Hi.
  - injection Hi as ->. rewrite decide_True by done. rewrite <- Nat.succ_le_mono, H0. split.
    + intros H [|j] fd' Hj E; [done|]. by destruct (H j fd' Hj).
    + intros H j fd' Hj E. by specialize (H (S j) fd' Hj E).
  - case_decide as Hx.
    + rewrite <- Nat.succ_le_mono, H0. split; [intros H; by destruct (H i fd Hi)|]. intros H. by specialize (H 0%nat x eq_refl Hx).
    + rewrite (IH i Hi). split.
      * intros H [|j] fd' Hj E; [cbn in Hj; by simplify_eq|]. by rewrite (H j fd' Hj E).
      * intros H j fd' Hj E. specialize (H (S j) fd' Hj E). by injection H.
Qed.

Lemma hash_map_spec files : forall k (c : list Z -> nat) h j,
  (forall i fd i' fd', files !! i = Some fd -> files !! i' = Some fd' -> Hash16k fd = Hash16k fd' -> (c (Hash16k fd) <= 1)%nat -> i = i') ->
  (list_to_map (omap (fun r : nat * FileDesc => if decide (1 < c (Hash16k (snd r)))%nat then None else Some (Hash16k (snd r), fst r))
     (imap (fun i fd => ((k + i)%nat, fd)) files)) : gmap (list Z) nat) !! h = Some j <->
  exists i fd, files !! i = Some fd /\ Hash16k fd = h /\ (c h <= 1)%nat /\ j = (k + i)%nat.
Proof.
  induction files as [|fd files IH]; intros k c h j Hc; cbn [imap omap list_omap].
  - cbn. rewrite lookup_empty. split; [done|]. intros (i & fd & H & _). by rewrite lookup_nil in H.
  - rewrite (imap_ext _ (fun i fd => ((S k + i)%nat, fd))) by (intros i x _; cbn; f_equal; lia). cbn [fst snd]. rewrite Nat.add_0_r.
    assert (forall i fd i' fd', files !! i = Some fd -> files !! i' = Some fd' -> Hash16k fd = Hash16k fd' -> (c (Hash16k fd) <= 1)%nat -> i = i') as Hc'.
    { intros i fd1 i' fd2 H1 H2 H3 H4. pose proof (Hc (S i) fd1 (S i') fd2 H1 H2 H3 H4). lia. }
    specialize (IH (S k) c h j Hc').
    assert ((exists i fd', (fd :: files) !! S i = Some fd' /\ Hash16k fd' = h /\ (c h <= 1)%nat /\ j = (k + S i)%nat) <->
            exists i fd', files !! i = Some fd' /\ Hash16k fd' = h /\ (c h <= 1)%nat /\ j = (S k + i)%nat) as HS.
    { split; intros (i & fd' & H1 & H2 & H3 & ->); exists i, fd'; split_and!; try done; lia. }
    case_decide as Hd.
    + rewrite IH, <- HS. split; [intros (i & fd' & H); by exists (S i), fd'|]. intros ([|i] & fd' & H1 & H2 & H3 & H4).
      * cbn in H1. simplify_eq. lia.
      * by exists i, fd'.
    + rewrite list_to_map_cons. destruct (decide (h = Hash16k fd)) as [->|Hne].
      * rewrite lookup_insert_eq. split.
        -- intros [= <-]. exists 0%nat, fd. split_and!; try done; lia.
        -- intros (i & fd' & H1 & H2 & H3 & ->). pose proof (Hc 0%nat fd i fd' eq_refl H1 (eq_sym H2) H3) as <-. f_equal. lia.
      * rewrite lookup_insert_ne by done. rewrite IH, <- HS. split; [intros (i & fd' & H); by exists (S i), fd'|].
        intros ([|i] & fd' & H1 & H2 & H3 & H4); [cbn in H1; simplify_eq|]. by exists i, fd'.
Qed.

(** A set whose indices are exact. *)
Record set_wf (s : ParsedSet) : Prop := {
  wf_ids : NoDup (FileID <$> Files s);
  wf_byID : forall id i, FilesByID s !! id = Some i <-> exists fd, Files s !! i = Some fd /\ FileID fd = id;
  wf_by16k : forall h i, By16k s !! h = Some i <-> exists fd, Files s !! i = Some fd /\ Hash16k fd = h /\
    forall j fd', Files s !! j = Some fd' -> Hash16k fd' = h -> j = i;
  wf_dup : forall i fd, Files s !! i = Some fd ->
    HasDuplicate fd = false <-> (forall j fd', Files s !! j = Some fd' -> Hash16k fd' = Hash16k fd -> j = i);
  wf_blocks : 0 <= RecoveryBlocks s;
}.

Lemma by16k_wf files : (forall fd, fd ∈ files -> HasDuplicate fd = false) ->
  let '(files', m) := buildBy16k files in
  (FileID <$> files' = FileID <$> files) /\ (Hash16k <$> files' = Hash16k <$> files) /\
  Forall2 (fun fd fd' => exists d, fd' = mkFileDesc (FileID fd) (FileName fd) (FullHash fd) (Hash16k fd) (FileSize fd) (FileCRC32 fd) d (fd_Set fd) (Undescribed fd)) files files' /\
  (forall i fd, files' !! i = Some fd ->
    HasDuplicate fd = false <-> (forall j fd', files' !! j = Some fd' -> Hash16k fd' = Hash16k fd -> j = i)) /\
  (forall h i, m !! h = Some i <-> exists fd, files' !! i = Some fd /\ Hash16k fd = h /\
    forall j fd', files' !! j = Some fd' -> Hash16k fd' = h -> j = i).
Proof.
  intros Hd. unfold buildBy16k. set (mark := fun fd => if decide _ then set_dup fd else fd).
  assert (forall fd, FileID (mark fd) = FileID fd /\ Hash16k (mark fd) = Hash16k fd) as Hm by (intros fd; unfold mark; by case_decide).
  assert (forall i fd', (mark <$> files) !! i = Some fd' <-> exists fd, files !! i = Some fd /\ fd' = mark fd) as Hl.
  { intros i fd'. rewrite list_lookup_fmap. destruct (files !! i); cbn; [|naive_solver]. split; [intros [= <-]; eauto|naive_solver]. }
  assert (forall i fd, files !! i = Some fd ->
    (forall j fd', (mark <$> files) !! j = Some fd' -> Hash16k fd' = Hash16k fd -> j = i) <-> (count_hash files (Hash16k fd) <= 1)%nat) as Hone.
  { intros i fd Hi. rewrite (count_hash_one files i fd Hi). split.
    - intros H j fd' Hj E. apply (H j (mark fd')); [by apply Hl; eauto|by rewrite (proj2 (Hm fd'))].
    - intros H j fd' (fd1 & Hj & ->)%Hl E. rewrite (proj2 (Hm _)) in E. by eapply H. }
  split; [rewrite <- list_fmap_compose; apply list_fmap_ext; intros ? fd _; apply (Hm fd)|].
  split; [rewrite <- list_fmap_compose; apply list_fmap_ext; intros ? fd _; apply (Hm fd)|].
  split; [|split].
  - rewrite Forall2_fmap_r. apply Forall_Forall2_diag, Forall_forall. intros fd _. unfold mark, compose. case_decide.
    + by exists true.
    + exists (HasDuplicate fd). by destruct fd.
  - intros i fd' (fd & Hi & ->)%Hl. rewrite (proj2 (Hm fd)). rewrite (Hone i fd Hi). unfold mark. case_decide; cbn; [split; [done|lia]|].
    rewrite (Hd fd) by (by eapply list_elem_of_lookup_2). split; [intros _; lia|done].
  - intros h i. rewrite (hash_map_spec files 0 (count_hash files) h i).
    2:{ intros i1 fd1 i2 fd2 H1 H2 E Hc. symmetry. by eapply (proj1 (count_hash_one files i1 fd1 H1)). }
    split.
    + intros (i' & fd & Hi & E & Hc & ->). exists (mark fd). split; [apply Hl; eauto|]. rewrite (proj2 (Hm fd)). split; [done|].
      subst h. by apply (Hone i' fd Hi).
    + intros (fd' & (fd & Hi & ->)%Hl & E & H). rewrite (proj2 (Hm fd)) in E. subst h. exists i, fd. split_and!; try done. by apply (Hone i fd Hi).
Qed.

Lemma post_ok NFC l st : state_ok NFC l st ->
  let s := postProcessSet (ps_set st) (ps_ifsc st) in
  set_wf s /\ Forall2 (fun fd0 fd => described fd fd0) (Files (ps_set st)) (Files s).
Proof.
  intros [S1 S2 S3 S4 S5]. unfold postProcessSet. set (files0 := Files (ps_set st)).
  set (byID := foldl _ _ _). set (files1 := if decide _ then _ else _).
  assert (Forall2 same_but_crc files0 files1) as H1.
  { unfold files1. case_decide; [apply reconstruct_same|]. apply Forall_Forall2_diag, Forall_forall. intros fd _.
    exists (FileCRC32 fd). by destruct fd. }
  assert (forall fd, fd ∈ files0 -> HasDuplicate fd = false /\ fd_Set fd = [] /\ Undescribed fd = false) as Hplain.
  { intros fd Hin. unfold files0 in Hin. rewrite Forall_forall in S3. destruct (S3 fd Hin) as (h & b & _ & _ & E).
    unfold parseFileDescBody in E. case_decide; [done|]. by injection E as <-. }
  assert (forall fd, fd ∈ files1 -> HasDuplicate fd = false) as Hplain1.
  { intros fd [i Hi]%list_elem_of_lookup. destruct (Forall2_lookup_r _ _ _ _ _ H1 Hi) as (fd0 & H0 & crc & ->).
    cbn. by apply Hplain, list_elem_of_lookup_2 with i. }
  pose proof (by16k_wf files1 Hplain1) as H. destruct (buildBy16k files1) as [files2 m]. destruct H as (E1 & E2 & E3 & E4 & E5).
  destruct (same_ids files0 files1 H1) as [F1 F2]. assert (FileID <$> files2 = FileID <$> files0) as Hids by congruence. split.
  - split; cbn; try done.
    + by rewrite Hids.
    + intros id i. unfold byID. rewrite S4. rewrite (imap_ext _ (fun i fd => ((0 + i)%nat, fd))) by done.
      rewrite (index_fold files0 0 ∅ S2) by (intros; apply lookup_empty). rewrite lookup_empty.
      split.
      * intros [H|(i' & fd & Hi & <- & ->)]; [done|]. assert ((FileID <$> files2) !! i' = Some (FileID fd)) as H.
        { by rewrite Hids, list_lookup_fmap, Hi. }
        rewrite list_lookup_fmap in H. destruct (files2 !! i') as [fd'|] eqn:E'; [|done]. injection H as H. cbn. by exists fd'.
      * intros (fd & Hi & <-). assert ((FileID <$> files0) !! i = Some (FileID fd)) as H.
        { by rewrite <- Hids, list_lookup_fmap, Hi. }
        rewrite list_lookup_fmap in H. destruct (files0 !! i) as [fd'|] eqn:E'; [|done]. injection H as H. right. by exists i, fd'.
  - cbn. clearbody files1. clear -H1 E3 Hplain. clearbody files0. revert files1 files2 H1 E3. induction files0 as [|fd0 files0 IH]; intros files1 files2 H1 H2.
    + inversion H1; subst. inversion H2; subst. constructor.
    + inversion H1 as [|? fd1 ? l1 [crc ->] H1']; subst. inversion H2 as [|? fd2 ? l2 [d ->] H2']; subst. constructor.
      * exists crc, d. cbn. destruct (Hplain fd0 ltac:(left)) as (_ & -> & ->). done.
      * apply (IH (fun fd H => Hplain fd ltac:(by right)) l1); done.
Qed.

(** C24: the parsed set is well formed.  File identifiers are distinct, both
    indices hold exactly the positions they should, a description is marked
    duplicate exactly when another shares its first-16k hash, and every
    description is that of an authentic File Description packet of the file;
    only its checksum and duplicate mark were computed afterwards. *)
Theorem parsed_set_wf NFC f opts until s :
  parsePar2Set NFC f opts until = Some (Ok s) ->
  set_wf s /\
  forall fd, fd ∈ Files s -> exists q h b fd0, packet_here f q = Some (h, b) /\ slice h 48 64 = typeFileDesc /\
    parseFileDescBody NFC b = Some fd0 /\ described fd fd0.
Proof.
  unfold parsePar2Set. destruct (loop_total NFC f (clamp opts) until (S (length f)) 0 parse_start 0 ltac:(lia)) as (r & -> & l & p & Hl & H).
  destruct r as [st|e]; [|done]. destruct H as [-> _]. intros [= <-].
  pose proof (handle_all_ok NFC [] l parse_start (start_ok NFC)) as S. cbn [app] in S. destruct (post_ok NFC l _ S) as [Hwf Hd].
  split; [done|]. intros fd [i Hi]%list_elem_of_lookup. destruct (Forall2_lookup_r _ _ _ _ _ Hd Hi) as (fd0 & H0 & Hdesc).
  pose proof (Forall_lookup_1 _ _ _ _ (sk_from _ _ _ S) H0) as (h & b & Hin & Ht & Hp).
  destruct (packets_here f 0 l p Hl (h, b) Hin) as [q Hq]. exists q, h, b, fd0. by split_and!.
Qed.

(** ** Witness: a file with one File Description packet after junk *)
Definition write_packet (setid type body : list Z) : list Z :=
  magic ++ PutLittleEndian 8 (64 + Z.of_nat (length body)) ++ md5 (setid ++ type ++ body) ++ setid ++ type ++ body.

Definition ex_desc_file : list Z :=
  replicate 5 65 ++ write_packet (replicate 16 0) typeFileDesc (replicate 16 1 ++ replicate 32 2 ++ PutLittleEndian 8 42 ++ bs "name").

Lemma parsed_set_wf_witness :
  match parsePar2Set id ex_desc_file DefaultParseOptions false with
  | Some (Ok s) => set_wf s /\ length (Files s) = 1%nat
  | _ => False
  end.
Proof.
  pose proof (parsed_set_wf id ex_desc_file DefaultParseOptions false) as H.
  assert (match parsePar2Set id ex_desc_file DefaultParseOptions false with
    | Some (Ok s) => length (Files s) = 1%nat | _ => False end) as E by (vm_compute; reflexivity).
  destruct (parsePar2Set id ex_desc_file DefaultParseOptions false) as [[s|e]|]; [|destruct E|destruct E].
  destruct (H s eq_refl) as [H1 _]. split; [exact H1|exact E].
Defined.
