(* ===== verification/Par2Roundtrip.v ===== *)
(** * Writing and parsing a PAR2 set

    A writer of PAR2 packets, and what the parser makes of its output. *)
From S2P Require Import Prelude Crc GoBytes Md5 Par2Parse Par2Props Par2Set.
From stdpp Require Import base numbers gmap list strings.
From Stdlib Require Import ZArith Lia.
Local Open Scope Z_scope.

(** ** The writer *)
(** A file the set protects. *)
Record source : Type := mkSource { src_id : list Z; src_name : list Z; src_data : list Z }.

Definition pad_to (n : nat) (l : list Z) : list Z := l ++ repeat 0 (n - length l).

(** The data in slices of [n] bytes, the last padded with zeros. *)
Fixpoint blocks (fuel n : nat) (data : list Z) : list (list Z) :=
  match fuel with
  | O => []
  | S k => if decide (data = []) then [] else pad_to n (take n data) :: blocks k n (drop n data)
  end.
Definition slices_of (n : nat) (data : list Z) : list ifscSlice :=
  (fun b => mkSlice (md5 b) (ChecksumIEEE b)) <$> blocks (length data) n data.

Definition main_body (n : nat) (srcs : list source) : list Z :=
  PutLittleEndian 8 (Z.of_nat n) ++ PutLittleEndian 4 (Z.of_nat (length srcs)) ++ concat (src_id <$> srcs).
Definition desc_body (s : source) : list Z :=
  src_id s ++ md5 (src_data s) ++ md5 (take 16384 (src_data s)) ++ PutLittleEndian 8 (Z.of_nat (length (src_data s))) ++
  src_name s ++ repeat 0 ((4 - length (src_name s) mod 4) mod 4).
Definition ifsc_body (n : nat) (s : source) : list Z :=
  src_id s ++ concat ((fun x => md5Hash x ++ PutLittleEndian 4 (crc32 x)) <$> slices_of n (src_data s)).

Definition set_packets (n : nat) (srcs : list source) : list (list Z * list Z) :=
  (typeMain, main_body n srcs) :: ((fun s => (typeFileDesc, desc_body s)) <$> srcs) ++ ((fun s => (typeIFSC, ifsc_body n s)) <$> srcs).

Definition write_all (setid : list Z) (pks : list (list Z * list Z)) : list Z :=
  concat ((fun p => write_packet setid (fst p) (snd p)) <$> pks).
Definition write_set (n : nat) (setid : list Z) (srcs : list source) : list Z := write_all setid (set_packets n srcs).

(** ** Checksums of the slices *)
Lemma blocks_length fuel n data : (length data <= fuel)%nat -> (0 < n)%nat ->
  (0 < length (blocks fuel n data))%nat <-> data <> [].
Proof.
  destruct fuel as [|k]; cbn [blocks]; intros H Hn; [destruct data; [cbn; split; [lia|done]|cbn in H; lia]|].
  case_decide; cbn; split; (done || lia).
Qed.

Lemma combine_blocks n N L fuel : (0 < n)%nat -> Z.of_nat n < 2 ^ 63 -> forall data pre idx,
  Forall is_byte (pre ++ data) -> (length data <= fuel)%nat -> data <> [] ->
  (idx + length (blocks fuel n data) = N)%nat -> (exists k, length pre = n * k)%nat -> L = (length pre + length data)%nat ->
  foldl (combine_slice (Z.of_nat n) (Z.of_nat L) N) (ChecksumIEEE pre)
    (imap (fun i s => ((idx + i)%nat, s)) ((fun b => mkSlice (md5 b) (ChecksumIEEE b)) <$> blocks fuel n data)) = ChecksumIEEE (pre ++ data).
Proof.
  intros Hn Hn63. assert (i64 (Z.of_nat n) = Z.of_nat n) as Hi64 by (apply wraps64_id; unfold in_i64, MinInt64, MaxInt64; lia).
  induction fuel as [|fuel IH]; intros data pre idx Hb Hf Hne Hlen [k Hk] ->; [destruct data; [done|cbn in Hf; lia]|].
  cbn [blocks] in *. rewrite decide_False in * by done. cbn [fmap list_fmap imap foldl length] in *.
  rewrite (imap_ext _ (fun i s => ((S idx + i)%nat, s))) by (intros i x _; cbn; f_equal; lia).
  rewrite Nat.add_0_r. unfold combine_slice at 2. cbn [crc32].
  pose proof (proj1 (Forall_app _ _ _) Hb) as [Hbp Hbd].
  destruct (decide (n < length data)%nat) as [Hlong|Hshort].
  - (* a full slice, more follow *)
    assert (drop n data <> []) as Hd by (intros E; apply (f_equal length) in E; rewrite length_drop in E; cbn in E; lia).
    pose proof (proj2 (blocks_length fuel n (drop n data) ltac:(rewrite length_drop; lia) Hn) Hd) as Hpos.
    rewrite decide_False by lia. unfold pad_to. rewrite length_take, Nat.min_l, Nat.sub_diag, app_nil_r by lia. rewrite Hi64.
    pose proof (Combine_concat pre (take n data) Hbp) as Hc. rewrite length_take, Nat.min_l in Hc by lia. rewrite Hc by done.
    rewrite (IH (drop n data) (pre ++ take n data) (S idx)).
    + by rewrite <- app_assoc, take_drop.
    + by rewrite <- app_assoc, take_drop.
    + rewrite length_drop. lia.
    + done.
    + lia.
    + exists (S k). rewrite length_app, length_take. lia.
    + rewrite length_app, length_take, length_drop. lia.
  - (* the last slice *)
    assert (drop n data = []) as Hd by (apply drop_ge; lia). rewrite Hd in *.
    assert (blocks fuel n [] = []) as Hb0 by (by destruct fuel). rewrite Hb0 in *. cbn [length fmap list_fmap imap foldl] in *.
    rewrite decide_True by lia. rewrite (take_ge data n) by lia. unfold pad_to.
    assert (Z.of_nat (length pre + length data) mod Z.of_nat n = Z.of_nat (length data) mod Z.of_nat n) as Hmod.
    { rewrite Nat2Z.inj_add, Hk, Nat2Z.inj_mul, Z.add_comm, Z.mul_comm. by apply Z_mod_plus_full. }
    rewrite Hmod. destruct (decide (length data = n)) as [Heq|Hneq].
    + rewrite Heq, Z_mod_same_full, decide_True by done. rewrite Nat.sub_diag, app_nil_r, Hi64, <- Heq. apply Combine_concat; [done|lia].
    + rewrite Z.mod_small by lia. assert (0 < length data)%nat by (destruct data; [done|cbn; lia]). rewrite decide_False by lia.
      assert (i64 (Z.of_nat n - Z.of_nat (length data)) = Z.of_nat (n - length data)) as ->.
      { unfold i64. rewrite wraps64_id by (unfold in_i64, MinInt64, MaxInt64; lia). lia. }
      assert (i64 (Z.of_nat (length data)) = Z.of_nat (length data)) as ->.
      { apply wraps64_id. unfold in_i64, MinInt64, MaxInt64. lia. }
      rewrite ZeroUnpad_pad by (done || lia). apply Combine_concat; [done|lia].
Qed.

Lemma combine_slices_of n data : (0 < n)%nat -> Z.of_nat n < 2 ^ 63 -> Forall is_byte data -> data <> [] ->
  combine_slices (Z.of_nat n) (Z.of_nat (length data)) (slices_of n data) = ChecksumIEEE data.
Proof.
  intros Hn Hn63 Hb Hne. unfold combine_slices, slices_of. rewrite length_fmap.
  change 0 with (ChecksumIEEE []). rewrite <- (app_nil_l data) at 6.
  rewrite <- (combine_blocks n (length (blocks (length data) n data)) (length data) (length data) Hn Hn63 data [] 0); try done.
  exists 0%nat. cbn. lia.
Qed.

(** ** Reading a written packet *)
Definition packet_fits (setid : list Z) (p : list Z * list Z) : Prop :=
  length setid = 16%nat /\ length (fst p) = 16%nat /\ (length (snd p) mod 4 = 0)%nat /\ Z.of_nat (length (snd p)) + 64 < 2 ^ 64.

Lemma write_packet_length setid p : packet_fits setid p -> length (write_packet setid (fst p) (snd p)) = (64 + length (snd p))%nat.
Proof.
  intros (H1 & H2 & _ & _). unfold write_packet. rewrite !length_app, length_PutLittleEndian, md5_length.
  change (length magic) with 8%nat. lia.
Qed.

Lemma slice_app_l (a b : list Z) i j : (j <= length a)%nat -> slice (a ++ b) i j = slice a i j.
Proof.
  intros H. unfold slice. destruct (decide (i <= length a)%nat).
  - rewrite drop_app_le by lia. rewrite take_app_le; [done|]. rewrite length_drop. lia.
  - replace (j - i)%nat with 0%nat by lia. done.
Qed.

Lemma slice_app_r (a b : list Z) i j : (length a <= i)%nat -> slice (a ++ b) i j = slice b (i - length a) (j - length a).
Proof.
  intros H. unfold slice. rewrite drop_app_ge by lia. f_equal. lia.
Qed.

Lemma slice_all (a : list Z) n : length a = n -> slice a 0 n = a.
Proof. intros <-. unfold slice. rewrite Nat.sub_0_r. apply take_ge. done. Qed.

Lemma slice_mid (pre a post : list Z) : slice (pre ++ a ++ post) (length pre) (length pre + length a) = a.
Proof.
  rewrite slice_app_r by lia. rewrite Nat.sub_diag. replace (length pre + length a - length pre)%nat with (length a) by lia.
  rewrite slice_app_l by lia. by apply slice_all.
Qed.

(** The header of a written packet. *)
Definition write_header (setid type body : list Z) : list Z :=
  magic ++ PutLittleEndian 8 (64 + Z.of_nat (length body)) ++ md5 (setid ++ type ++ body) ++ setid ++ type.

Lemma header_fields setid type body : length setid = 16%nat -> length type = 16%nat -> let h := write_header setid type body in
  length h = 64%nat /\ slice h 0 8 = magic /\ slice h 8 16 = PutLittleEndian 8 (64 + Z.of_nat (length body)) /\
  slice h 16 32 = md5 (setid ++ type ++ body) /\ slice h 32 48 = setid /\ slice h 48 64 = type.
Proof.
  intros H1 H2 h. unfold h, write_header. pose proof (md5_length (setid ++ type ++ body)) as H3.
  pose proof (length_PutLittleEndian 8 (64 + Z.of_nat (length body))) as H4. assert (length magic = 8%nat) as H5 by done.
  set (len := PutLittleEndian 8 _) in *. set (dig := md5 _) in *.
  split; [rewrite !length_app; lia|]. split; [rewrite slice_app_l by lia; by apply slice_all|].
  rewrite !(slice_app_r magic) by lia. rewrite !H5. split; [rewrite slice_app_l by lia; by apply slice_all|].
  rewrite !(slice_app_r len) by lia. rewrite !H4. split; [rewrite slice_app_l by lia; by apply slice_all|].
  rewrite !(slice_app_r dig) by lia. rewrite !H3. split; [rewrite slice_app_l by lia; by apply slice_all|].
  rewrite !(slice_app_r setid) by lia. rewrite !H1. by apply slice_all.
Qed.

Lemma write_packet_split setid type body : write_packet setid type body = write_header setid type body ++ body.
Proof. unfold write_packet, write_header. by rewrite <- !app_assoc. Qed.

Lemma written_here setid p pre post : packet_fits setid p ->
  packet_here (pre ++ write_packet setid (fst p) (snd p) ++ post) (length pre) = Some (write_header setid (fst p) (snd p), snd p).
Proof.
  intros (H1 & H2 & H3 & H4). set (f := pre ++ _). destruct (header_fields setid (fst p) (snd p) H1 H2) as (L & F1 & F2 & F3 & F4 & F5).
  set (h := write_header setid (fst p) (snd p)) in *. set (body := snd p) in *.
  assert (f = pre ++ h ++ (body ++ post)) as Hf by (unfold f; rewrite write_packet_split, <- app_assoc; done).
  assert (slice f (length pre) (length pre + 64) = h) as Eh by (rewrite Hf, <- L; apply slice_mid).
  assert (LittleEndian (slice h 8 16) = 64 + Z.of_nat (length body)) as El.
  { rewrite F2. apply LittleEndian_Put. change (256 ^ Z.of_nat 8) with (2 ^ 64). lia. }
  assert (slice f (length pre + 64) (length pre + Z.to_nat (64 + Z.of_nat (length body))) = body) as Eb.
  { rewrite Hf, app_assoc, <- L. rewrite <- length_app. replace (length pre + _)%nat with (length (pre ++ h) + length body)%nat by (rewrite length_app; lia).
    apply slice_mid. }
  assert (length f = (length pre + 64 + length body + length post)%nat) as Hlen by (rewrite Hf, !length_app; lia).
  unfold packet_here. rewrite Eh, El, Eb. rewrite decide_True; [done|]. split_and!.
  - lia.
  - done.
  - unfold isValidPacketLen. rewrite !andb_true_iff, !bool_decide_eq_true. split_and!; [lia|lia|].
    rewrite Z.add_mod by lia. rewrite <- (Nat2Z.inj_mod _ 4), H3. done.
  - lia.
  - unfold validatePacketMD5. by rewrite F3, F4, F5, bool_decide_true.
Qed.

(** ** The packets of a written file are the packets written *)
Definition headed (setid : list Z) (p : list Z * list Z) : list Z * list Z := (write_header setid (fst p) (snd p), snd p).

Lemma write_all_cons setid p pks : write_all setid (p :: pks) = write_packet setid (fst p) (snd p) ++ write_all setid pks.
Proof. done. Qed.

Lemma written_packets setid : forall pks pre l e, Forall (packet_fits setid) pks ->
  packets_from (pre ++ write_all setid pks) (length pre) l e ->
  exists k, (k <= length pks)%nat /\ l = headed setid <$> take k pks /\ e = (length pre + length (write_all setid (take k pks)))%nat.
Proof.
  induction pks as [|p pks IH]; intros pre l e Hf Hp.
  - exists 0%nat. split; [done|]. inversion Hp as [|? q h b l' ? Hq _ Hpk]; subst; [split; [done|]; cbn; lia|].
    apply packet_magic in Hpk as [_ Hb]. cbn in Hb. rewrite app_nil_r in Hb. lia.
  - inversion Hf as [|? ? Hfp Hfs]; subst. rewrite write_all_cons in Hp. pose proof (written_here setid p pre (write_all setid pks) Hfp) as Hhere.
    inversion Hp as [|? q h b l' ? Hq Hno Hpk Hrest]; subst; [exists 0%nat; split; [lia|]; split; [done|]; cbn; lia|].
    assert (q = length pre) as ->.
    { destruct (decide (q = length pre)); [done|]. rewrite (Hno (length pre)) in Hhere by lia. done. }
    rewrite Hhere in Hpk. injection Hpk as <- <-. pose proof (write_packet_length setid p Hfp) as Hlen.
    rewrite app_assoc in Hrest. replace (length pre + 64 + length (snd p))%nat with (length (pre ++ write_packet setid (fst p) (snd p))) in Hrest
      by (rewrite length_app; lia).
    destruct (IH _ _ _ Hfs Hrest) as (k & Hk & -> & ->). exists (S k). cbn [length take]. split; [lia|]. split; [done|].
    rewrite write_all_cons, !length_app. lia.
Qed.

Lemma written_at setid pks k : Forall (packet_fits setid) pks -> (k < length pks)%nat ->
  exists p, pks !! k = Some p /\ packet_here (write_all setid pks) (length (write_all setid (take k pks))) = Some (headed setid p).
Proof.
  intros Hf Hk. destruct (lookup_lt_is_Some_2 pks k Hk) as [p Hp]. exists p. split; [done|].
  pose proof (take_drop_middle pks k p Hp) as E. rewrite <- E at 1.
  assert (write_all setid (take k pks ++ p :: drop (S k) pks) =
    write_all setid (take k pks) ++ write_packet setid (fst p) (snd p) ++ write_all setid (drop (S k) pks)) as ->.
  { unfold write_all. rewrite fmap_app, concat_app. done. }
  apply written_here. by eapply Forall_lookup_1.
Qed.

(** Parsing a file of whole packets handles exactly those packets. *)
Lemma parse_written NFC setid pks opts : pks <> [] -> Forall (packet_fits setid) pks ->
  Forall (fun p => Z.of_nat (length (snd p)) <= body_limit (clamp opts)) pks ->
  Z.of_nat (length (write_all setid pks)) <= earlyExitThreshold ->
  parsePar2Set NFC (write_all setid pks) opts false =
  Some (Ok (let st := handle_all NFC parse_start (headed setid <$> pks) in postProcessSet (ps_set st) (ps_ifsc st))).
Proof.
  intros Hne Hf Hlim Hsmall. set (f := write_all setid pks) in *.
  destruct (loop_total NFC f (clamp opts) false (S (length f)) 0 parse_start 0 ltac:(lia)) as (r & Er & l & e & Hl & H).
  unfold parsePar2Set. rewrite Er. destruct (written_packets setid pks [] l e Hf Hl) as (k & Hk & -> & ->). cbn [length Nat.add] in *.
  assert (k < length pks -> exists p, pks !! k = Some p /\ packet_here f (length (write_all setid (take k pks))) = Some (headed setid p))%nat as Hat
    by (intros; by apply written_at).
  destruct (decide (k < length pks)%nat) as [Hlt|Hge].
  - destruct (Hat Hlt) as (p & Hp & Hhere). exfalso. destruct r as [st|er].
    + destruct H as [_ [H|[_ [[? _]|H]]]]; [|done|].
      * pose proof (packet_magic _ _ _ Hhere) as [_ Hb]. rewrite (H _) in Hhere by lia. done.
      * unfold seen_all in H. apply bool_decide_eq_true in H. lia.
    + destruct H as (H1 & H2 & H3). destruct er; cbn in H1; try done.
      * pose proof (packet_magic _ _ _ Hhere) as [_ Hb]. rewrite (H1 _) in Hhere by lia. done.
      * destruct H1 as (q & Hq & Hno & Hm & H1). assert (q = length (write_all setid (take k pks))) as ->.
        { destruct (decide (q = length (write_all setid (take k pks)))); [done|]. rewrite (Hno _) in Hhere by lia. done. }
        pose proof (Forall_lookup_1 _ _ _ _ Hlim Hp) as Hpl. cbv beta in Hpl. cbv zeta in H1. pose proof (Forall_lookup_1 _ _ _ _ Hf Hp) as (E1 & E2 & E3 & E4).
        pose proof (packet_magic _ _ _ Hhere) as [_ Hb].
        unfold packet_here in Hhere. case_decide as Hc; [|done]. injection Hhere as Hh Hbody.
        rewrite <- (slice_window f _ 8 16 64) in H1 by lia. rewrite Hh in H1.
        destruct (header_fields setid (fst p) (snd p) E1 E2) as (_ & _ & F2 & _). rewrite F2, LittleEndian_Put in H1; [lia|].
        change (256 ^ Z.of_nat 8) with (2 ^ 64). lia.
      * destruct H1 as (q & Hq & _ & Hno & _). rewrite (Hno _) in Hhere by lia. done.
  - rewrite take_ge in * by lia. fold f in H. destruct r as [st|er]; [destruct H as [-> _]; done|].
    exfalso. destruct H as (H1 & H2 & H3). destruct er; cbn in H1; try done.
    + destruct (H3 eq_refl) as [_ H]. destruct pks; done.
    + destruct H1 as (q & Hq & _ & Hm & _). apply magic_at_end in Hm. fold f in Hq. lia.
    + destruct H1 as (q & Hq & H64 & _). lia.
Qed.

(** ** Reading the bodies *)
Lemma body_field (a b : list Z) i j n : length a = n -> (n <= i)%nat -> slice (a ++ b) i j = slice b (i - n) (j - n).
Proof. intros <- H. by apply slice_app_r. Qed.

Lemma body_head (a b : list Z) n : length a = n -> slice (a ++ b) 0 n = a.
Proof. intros <-. rewrite slice_app_l by lia. by apply slice_all. Qed.

Lemma ids_slices (srcs : list source) : forall pre, Forall (fun s => length (src_id s) = 16%nat) srcs ->
  (fun i => slice (pre ++ concat (src_id <$> srcs)) (length pre + 16 * i) (length pre + 16 * i + 16)) <$> seq 0 (length srcs) = src_id <$> srcs.
Proof.
  induction srcs as [|s srcs IH]; intros pre H; [done|]. inversion H as [|? ? Hs Hr]; subst. cbn [length seq fmap list_fmap concat]. f_equal.
  - replace (length pre + 16 * 0)%nat with (length pre) by lia. rewrite <- Hs. apply slice_mid.
  - rewrite <- fmap_S_seq, <- list_fmap_compose. etransitivity; [|apply (IH (pre ++ src_id s) Hr)].
    apply list_fmap_ext. intros _ i _. unfold compose. rewrite length_app, <- app_assoc. f_equal; lia.
Qed.

Lemma concat_length_16 (srcs : list source) : Forall (fun s => length (src_id s) = 16%nat) srcs ->
  length (concat (src_id <$> srcs)) = (16 * length srcs)%nat.
Proof. induction 1 as [|s srcs Hs _ IH]; [done|]. cbn. rewrite length_app, IH, Hs. lia. Qed.

Lemma read_main_ids n srcs : Forall (fun s => length (src_id s) = 16%nat) srcs -> Z.of_nat (length srcs) <= maxRecoverySetFiles ->
  recoveryFileIDs (main_body n srcs) = src_id <$> srcs /\ length (main_body n srcs) = (12 + 16 * length srcs)%nat.
Proof.
  intros Hs Hmax. pose proof (concat_length_16 srcs Hs) as Hc.
  assert (length (main_body n srcs) = 12 + 16 * length srcs)%nat as Hl.
  { unfold main_body. rewrite !length_app, !length_PutLittleEndian, Hc. lia. }
  split; [|done]. unfold recoveryFileIDs. rewrite Hl. rewrite decide_False by lia.
  assert (LittleEndian (slice (main_body n srcs) 8 12) = Z.of_nat (length srcs)) as ->.
  { unfold main_body. rewrite (body_field _ _ _ _ 8) by (rewrite ?length_PutLittleEndian; lia). rewrite body_head by apply length_PutLittleEndian.
    apply LittleEndian_Put. unfold maxRecoverySetFiles in Hmax. change (256 ^ Z.of_nat 4) with 4294967296. lia. }
  replace (Z.of_nat (12 + 16 * length srcs) - 12) with (Z.of_nat (length srcs) * 16) by lia. rewrite Z_div_mult by lia.
  rewrite !decide_False by lia. rewrite Nat2Z.id. unfold main_body. rewrite app_assoc.
  set (pre := PutLittleEndian 8 _ ++ PutLittleEndian 4 _). assert (length pre = 12%nat) as Hp by (unfold pre; by rewrite length_app, !length_PutLittleEndian).
  etransitivity; [|apply (ids_slices srcs pre Hs)]. apply list_fmap_ext. intros _ i _. by rewrite Hp.
Qed.

Definition source_ok (s : source) : Prop :=
  length (src_id s) = 16%nat /\ (exists b, last (src_name s) = Some b /\ b <> 0) /\ Forall is_byte (src_data s) /\
  Z.of_nat (length (src_data s)) < 2 ^ 63.

(** The description as parsed, before its checksum is known. *)
Definition parsed_desc (NFC : list Z -> list Z) (s : source) : FileDesc :=
  mkFileDesc (src_id s) (correctEncoding NFC (src_name s)) (md5 (src_data s)) (md5 (take 16384 (src_data s)))
    (Z.of_nat (length (src_data s))) 0 false [] false.

Lemma read_desc NFC s : source_ok s -> parseFileDescBody NFC (desc_body s) = Some (parsed_desc NFC s).
Proof.
  intros (H1 & (b & H2 & Hb) & _ & H4). unfold parseFileDescBody, desc_body.
  pose proof (md5_length (src_data s)) as M1. pose proof (md5_length (take 16384 (src_data s))) as M2.
  set (d1 := md5 (src_data s)) in *. set (d2 := md5 (take 16384 (src_data s))) in *.
  pose proof (length_PutLittleEndian 8 (Z.of_nat (length (src_data s)))) as M3. set (sz := PutLittleEndian 8 _) in *.
  set (pad := repeat 0 _). assert (0 < length (src_name s))%nat as Hn by (destruct (src_name s); [done|cbn; lia]).
  assert (length (src_id s ++ d1 ++ d2 ++ sz ++ src_name s ++ pad) = 56 + length (src_name s) + length pad)%nat as Hl by (rewrite !length_app; lia).
  rewrite Hl, decide_False, decide_True by lia. unfold parsed_desc. fold d1 d2. do 2 f_equal.
  - by apply body_head.
  - replace (src_id s ++ d1 ++ d2 ++ sz ++ src_name s ++ pad) with ((src_id s ++ d1 ++ d2 ++ sz) ++ src_name s ++ pad) by (by rewrite <- !app_assoc).
    rewrite drop_app_ge by (rewrite !length_app; lia). replace (56 - _)%nat with 0%nat by (rewrite !length_app; lia). rewrite drop_0.
    rewrite TrimRight_app.
    + rewrite TrimRight_id; [done|]. intros b' Hb'. assert (b' = b) as -> by congruence. cbn. rewrite orb_false_r. by apply Z.eqb_neq.
    + apply Forall_forall. intros x Hx%list_elem_of_In%repeat_spec. by subst.
  - rewrite (body_field _ _ _ _ 16) by lia. by apply body_head.
  - rewrite (body_field _ _ _ _ 16), (body_field _ _ _ _ 16) by lia. by apply body_head.
  - rewrite (body_field _ _ _ _ 16), (body_field _ _ _ _ 16), (body_field _ _ _ _ 16) by lia. rewrite body_head by done.
    unfold sz. apply LittleEndian_Put. change (256 ^ Z.of_nat 8) with (2 ^ 64). lia.
Qed.

Lemma read_slices l : Forall (fun x => length (md5Hash x) = 16%nat /\ is_u32 (crc32 x)) l -> forall fuel, (length l <= fuel)%nat ->
  ifsc_slices fuel (concat ((fun x => md5Hash x ++ PutLittleEndian 4 (crc32 x)) <$> l)) = l.
Proof.
  induction 1 as [|x l [H1 H2] _ IH]; intros fuel Hf; [by destruct fuel|]. destruct fuel as [|fuel]; [cbn in Hf; lia|].
  cbn [ifsc_slices fmap list_fmap concat]. pose proof (length_PutLittleEndian 4 (crc32 x)) as M.
  rewrite decide_True by (rewrite !length_app; lia). f_equal.
  - destruct x as [h c]. cbn [md5Hash crc32] in *. rewrite <- app_assoc. f_equal; [by apply body_head|].
    rewrite (body_field _ _ _ _ 16) by lia. rewrite body_head by done. apply LittleEndian_Put. exact H2.
  - rewrite drop_app_ge by (rewrite !length_app; lia). replace (20 - _)%nat with 0%nat by (rewrite !length_app; lia). rewrite drop_0.
    apply IH. cbn in Hf. lia.
Qed.

Lemma blocks_bytes n fuel : forall data, Forall is_byte data -> Forall (Forall is_byte) (blocks fuel n data).
Proof.
  induction fuel as [|k IH]; intros data H; cbn [blocks]; [constructor|]. case_decide; [constructor|]. constructor; [|apply IH, Forall_drop, H].
  apply Forall_app. split; [by apply Forall_take|]. apply Forall_forall. intros x Hx%list_elem_of_In%repeat_spec. subst. unfold is_byte. lia.
Qed.

Lemma read_ifsc n s : source_ok s -> parseIFSCBody (ifsc_body n s) = Some (mkIfsc (src_id s) (slices_of n (src_data s))).
Proof.
  intros (H1 & _ & H3 & _). unfold parseIFSCBody, ifsc_body. set (rest := concat _). rewrite decide_False by (rewrite length_app; lia).
  do 2 f_equal; [by apply body_head|]. rewrite drop_app_ge by lia. replace (16 - _)%nat with 0%nat by lia. rewrite drop_0. unfold rest.
  assert (Forall (fun x => length (md5Hash x) = 16%nat /\ is_u32 (crc32 x)) (slices_of n (src_data s))) as Hok.
  { unfold slices_of. apply Forall_fmap. eapply Forall_impl; [by apply blocks_bytes|]. intros b Hb. unfold compose. cbn.
    split; [apply md5_length|by apply ChecksumIEEE_u32]. }
  apply read_slices; [done|]. rewrite length_app. fold rest.
  assert (length (slices_of n (src_data s)) <= length rest)%nat; [|lia]. unfold rest. clear -Hok. induction Hok as [|x l [Hx _] _ IH]; [done|].
  cbn [length fmap list_fmap concat]. rewrite !length_app, Hx. lia.
Qed.

(** ** Handling the packets of a set *)
Section handle.
Variable NFC : list Z -> list Z.
Variable setid : list Z.
Hypothesis setid_len : length setid = 16%nat.

Definition push_files (st : parse_state) (l : list source) : parse_state :=
  let set := ps_set st in
  mkParse (mkSet (SetID set) (SliceSize set) (RecoveryFileIDs set) (Files set ++ (parsed_desc NFC <$> l)) (FilesByID set) (By16k set)
             (RecoveryBlocks set) (Creator set))
    (ps_ifsc st) (ps_expected st) (list_to_set (src_id <$> l) ∪ ps_descs st) (ps_ifscs st).

Lemma handle_typed type body : length type = 16%nat ->
  slice (write_header setid type body) 48 64 = type /\ slice (write_header setid type body) 32 48 = setid.
Proof. intros Ht. by destruct (header_fields setid type body setid_len Ht) as (_ & _ & _ & _ & ? & ?). Qed.

Lemma handle_desc st s : source_ok s -> src_id s ∉ ps_descs st ->
  handlePacket NFC st (write_header setid typeFileDesc (desc_body s)) (desc_body s) = push_files st [s].
Proof.
  intros Hs Hf. unfold handlePacket. rewrite (proj1 (handle_typed typeFileDesc (desc_body s) eq_refl)).
  rewrite decide_False by done. rewrite decide_True by done. rewrite read_desc by done. change (FileID (parsed_desc NFC s)) with (src_id s).
  rewrite decide_False by done. unfold push_files. cbn [fmap list_fmap]. f_equal. set_solver.
Qed.

Lemma push_files_app st l1 l2 : push_files (push_files st l1) l2 = push_files st (l1 ++ l2).
Proof. unfold push_files. cbn. rewrite !fmap_app, <- app_assoc. f_equal. set_solver. Qed.

Lemma push_files_nil st : push_files st [] = st.
Proof. unfold push_files. cbn. rewrite app_nil_r, union_empty_l_L. by destruct st as [[] ? ? ? ?]. Qed.

Lemma handle_descs l : forall st, Forall source_ok l -> NoDup (src_id <$> l) -> (forall s, s ∈ l -> src_id s ∉ ps_descs st) ->
  handle_all NFC st (headed setid <$> ((fun s => (typeFileDesc, desc_body s)) <$> l)) = push_files st l.
Proof.
  induction l as [|s l IH]; intros st Hok Hnd Hfresh; [by rewrite push_files_nil|].
  inversion Hok as [|? ? Hs Hl]; subst. cbn in Hnd. apply NoDup_cons in Hnd as [Hn Hnd]. cbn [fmap list_fmap handle_all foldl headed fst snd].
  rewrite handle_desc by (try done; apply Hfresh; left). unfold handle_all in IH. rewrite IH; [by rewrite push_files_app|done|done|].
  intros s' Hin. cbn. rewrite elem_of_union, elem_of_union, elem_of_singleton. intros [[E|H]|H].
  - apply Hn. rewrite <- E. by apply list_elem_of_fmap_2.
  - by apply elem_of_empty in H.
  - by apply (Hfresh s'); [right|].
Qed.

Definition push_ifsc (n : nat) (st : parse_state) (l : list source) : parse_state :=
  mkParse (ps_set st) (ps_ifsc st ++ ((fun s => mkIfsc (src_id s) (slices_of n (src_data s))) <$> l)) (ps_expected st) (ps_descs st)
    (list_to_set (src_id <$> l) ∪ ps_ifscs st).

Lemma handle_ifsc n st s : source_ok s -> src_id s ∉ ps_ifscs st ->
  handlePacket NFC st (write_header setid typeIFSC (ifsc_body n s)) (ifsc_body n s) = push_ifsc n st [s].
Proof.
  intros Hs Hf. unfold handlePacket. rewrite (proj1 (handle_typed typeIFSC (ifsc_body n s) eq_refl)).
  do 2 rewrite decide_False by done. rewrite decide_True by done. rewrite read_ifsc by done. cbn [fileID].
  rewrite decide_False by done. unfold push_ifsc. cbn [fmap list_fmap]. f_equal. set_solver.
Qed.

Lemma push_ifsc_app n st l1 l2 : push_ifsc n (push_ifsc n st l1) l2 = push_ifsc n st (l1 ++ l2).
Proof. unfold push_ifsc. cbn. rewrite !fmap_app, <- app_assoc. f_equal. set_solver. Qed.

Lemma push_ifsc_nil n st : push_ifsc n st [] = st.
Proof. unfold push_ifsc. cbn. rewrite app_nil_r, union_empty_l_L. by destruct st. Qed.

Lemma handle_ifscs n l : forall st, Forall source_ok l -> NoDup (src_id <$> l) -> (forall s, s ∈ l -> src_id s ∉ ps_ifscs st) ->
  handle_all NFC st (headed setid <$> ((fun s => (typeIFSC, ifsc_body n s)) <$> l)) = push_ifsc n st l.
Proof.
  induction l as [|s l IH]; intros st Hok Hnd Hfresh; [by rewrite push_ifsc_nil|].
  inversion Hok as [|? ? Hs Hl]; subst. cbn in Hnd. apply NoDup_cons in Hnd as [Hn Hnd]. cbn [fmap list_fmap handle_all foldl headed fst snd].
  rewrite handle_ifsc by (try done; apply Hfresh; left). unfold handle_all in IH. rewrite IH; [by rewrite push_ifsc_app|done|done|].
  intros s' Hin. cbn. rewrite elem_of_union, elem_of_union, elem_of_singleton. intros [[E|H]|H].
  - apply Hn. rewrite <- E. by apply list_elem_of_fmap_2.
  - by apply elem_of_empty in H.
  - by apply (Hfresh s'); [right|].
Qed.

Lemma handle_main n srcs : Z.of_nat n < 2 ^ 63 -> srcs <> [] -> Forall (fun s => length (src_id s) = 16%nat) srcs ->
  Z.of_nat (length srcs) <= maxRecoverySetFiles ->
  handlePacket NFC parse_start (write_header setid typeMain (main_body n srcs)) (main_body n srcs) =
  mkParse (mkSet setid (Z.of_nat n) (src_id <$> srcs) [] ∅ ∅ 0 []) [] (Z.of_nat (length srcs)) ∅ ∅.
Proof.
  intros Hn Hne Hids Hmax. destruct (read_main_ids n srcs Hids Hmax) as [Hmain Hml].
  assert (LittleEndian (slice (main_body n srcs) 0 8) = Z.of_nat n) as Hsz.
  { unfold main_body. rewrite body_head by apply length_PutLittleEndian. apply LittleEndian_Put. change (256 ^ Z.of_nat 8) with (2 ^ 64). lia. }
  assert ((Z.of_nat (12 + 16 * length srcs) - 12) / 16 = Z.of_nat (length srcs)) as Hex.
  { replace (Z.of_nat (12 + 16 * length srcs) - 12) with (Z.of_nat (length srcs) * 16) by lia. by apply Z_div_mult. }
  unfold handlePacket. destruct (handle_typed typeMain (main_body n srcs) eq_refl) as [-> ->].
  rewrite decide_True by done. rewrite Hml, decide_False by lia. rewrite decide_True by (destruct srcs; [done|cbn [length]; lia]).
  by rewrite Hmain, Hsz, Hex.
Qed.

Definition set_start (n : nat) (srcs : list source) : parse_state :=
  mkParse (mkSet setid (Z.of_nat n) (src_id <$> srcs) [] ∅ ∅ 0 []) [] (Z.of_nat (length srcs)) ∅ ∅.

Lemma handle_set n srcs : Z.of_nat n < 2 ^ 63 -> srcs <> [] -> Forall source_ok srcs -> NoDup (src_id <$> srcs) ->
  Z.of_nat (length srcs) <= maxRecoverySetFiles ->
  handle_all NFC parse_start (headed setid <$> set_packets n srcs) = push_ifsc n (push_files (set_start n srcs) srcs) srcs.
Proof.
  intros Hn Hne Hok Hnd Hmax. unfold set_packets. rewrite fmap_cons, fmap_app. unfold handle_all. cbn [foldl]. rewrite foldl_app.
  change (headed setid (typeMain, main_body n srcs)) with (write_header setid typeMain (main_body n srcs), main_body n srcs).
  cbn [fst snd]. rewrite handle_main; [|done|done| |done].
  2:{ eapply Forall_impl; [exact Hok|]. intros s H. apply H. }
  pose proof handle_descs as Hd. unfold handle_all in Hd. rewrite Hd by (try done; intros; apply not_elem_of_empty).
  pose proof (handle_ifscs n) as Hi. unfold handle_all in Hi. by rewrite Hi by (try done; intros; apply not_elem_of_empty).
Qed.
End handle.

Definition crc_filled (NFC : list Z -> list Z) (s : source) : FileDesc := set_crc (parsed_desc NFC s) (ChecksumIEEE (src_data s)).

(** Each checksum packet fills in its file's checksum. *)
Lemma reconstruct_sources NFC n byID todo : forall dn, (0 < n)%nat -> Z.of_nat n < 2 ^ 63 -> Forall source_ok todo ->
  (forall i s, (dn ++ todo) !! i = Some s -> byID !! src_id s = Some i) ->
  foldl (reconstruct_one (Z.of_nat n) byID) ((crc_filled NFC <$> dn) ++ (parsed_desc NFC <$> todo))
    ((fun s => mkIfsc (src_id s) (slices_of n (src_data s))) <$> todo) = crc_filled NFC <$> (dn ++ todo).
Proof.
  induction todo as [|s todo IH]; intros dn Hn Hn63 Hok Hby; [cbn; by rewrite !app_nil_r|].
  inversion Hok as [|? ? Hs Hr]; subst. cbn [fmap list_fmap foldl]. unfold reconstruct_one at 2. cbn [fileID].
  rewrite (Hby (length dn) s) by (by rewrite list_lookup_middle).
  assert (((crc_filled NFC <$> dn) ++ parsed_desc NFC s :: (parsed_desc NFC <$> todo)) !! length dn = Some (parsed_desc NFC s)) as ->.
  { rewrite <- (length_fmap (crc_filled NFC)). by apply list_lookup_middle. }
  cbn [FileSize slices parsed_desc].
  replace (dn ++ s :: todo) with ((dn ++ [s]) ++ todo) by (by rewrite <- app_assoc). rewrite <- IH; [|done|done|done|by rewrite <- app_assoc].
  f_equal. rewrite fmap_app, <- app_assoc. cbn [fmap list_fmap app]. case_decide as Hz.
  - do 2 f_equal. assert (src_data s = []) as Hd.
    { destruct Hz as [Hz|Hz]; [destruct (src_data s); [done|cbn in Hz; lia]|]. destruct (src_data s) as [|x d] eqn:E; [done|].
      unfold slices_of in Hz. cbn [length blocks] in Hz. by rewrite decide_False in Hz. }
    unfold crc_filled, parsed_desc, set_crc. cbn. rewrite Hd. reflexivity.
  - rewrite <- (length_fmap (crc_filled NFC) dn) at 1. rewrite insert_app_r_alt by lia. rewrite Nat.sub_diag. cbn. do 2 f_equal.
    unfold crc_filled. f_equal. destruct Hs as (_ & _ & Hb & _). apply combine_slices_of; try done. intros Hd. apply Hz. left. by rewrite Hd.
Qed.

Lemma body_in_file setid pks p : p ∈ pks -> (length (snd p) <= length (write_all setid pks))%nat.
Proof.
  induction pks as [|q pks IH]; [by intros ?%elem_of_nil|]. rewrite write_all_cons, length_app. intros [->|Hin]%elem_of_cons; [|specialize (IH Hin); lia].
  unfold write_packet. rewrite !length_app. lia.
Qed.

Lemma pad4 (n : nat) : ((n + (4 - n mod 4) mod 4) mod 4 = 0)%nat.
Proof.
  pose proof (Nat.mod_upper_bound n 4 ltac:(lia)). destruct (decide (n mod 4 = 0)%nat) as [E|E].
  - rewrite E. cbn. rewrite Nat.add_0_r. done.
  - rewrite (Nat.mod_small (4 - n mod 4)) by lia. rewrite <- Nat.Div0.add_mod_idemp_l. replace (n mod 4 + (4 - n mod 4))%nat with 4%nat by lia. done.
Qed.

Lemma ifsc_length n s : length (src_id s) = 16%nat -> exists k, length (ifsc_body n s) = (4 * k)%nat.
Proof.
  intros H. unfold ifsc_body, slices_of. rewrite length_app, H. rewrite <- list_fmap_compose. generalize (blocks (length (src_data s)) n (src_data s)). intros l.
  assert (length (concat ((((fun x => md5Hash x ++ PutLittleEndian 4 (crc32 x)) ∘ (fun b => mkSlice (md5 b) (ChecksumIEEE b))) <$> l))) = 20 * length l)%nat as ->.
  { induction l as [|b l IH]; [done|]. cbn [fmap list_fmap concat length]. rewrite length_app, IH. unfold compose. cbn [md5Hash crc32].
    rewrite length_app, md5_length, length_PutLittleEndian. lia. }
  exists (4 + 5 * length l)%nat. lia.
Qed.

Lemma set_packets_fit n setid srcs : length setid = 16%nat -> Forall source_ok srcs -> Z.of_nat (length srcs) <= maxRecoverySetFiles ->
  Z.of_nat (length (write_set n setid srcs)) <= earlyExitThreshold -> Forall (packet_fits setid) (set_packets n srcs).
Proof.
  intros Hsid Hok Hmax Hsmall. apply Forall_forall. intros p Hp. pose proof (body_in_file setid _ p Hp) as Hlen. fold (write_set n setid srcs) in Hlen.
  unfold earlyExitThreshold in Hsmall. assert (Z.of_nat (length (snd p)) + 64 < 2 ^ 64) by lia.
  assert (Forall (fun s => length (src_id s) = 16%nat) srcs) as Hids by (eapply Forall_impl; [exact Hok|]; intros s H'; apply H').
  apply elem_of_cons in Hp as [->|[(s & -> & Hs)%list_elem_of_fmap|(s & -> & Hs)%list_elem_of_fmap]%elem_of_app]; (split; [done|]; split; [done|]; split; [|done]); cbn [snd].
  - rewrite (proj2 (read_main_ids n srcs Hids Hmax)). replace (12 + 16 * length srcs)%nat with ((3 + 4 * length srcs) * 4)%nat by lia. by rewrite Nat.Div0.mod_mul.
  - unfold desc_body. rewrite !length_app, !md5_length, length_PutLittleEndian, repeat_length. rewrite Forall_forall in Hids. rewrite (Hids s Hs).
    rewrite !Nat.add_assoc. replace (16 + 16 + 16 + 8 + length (src_name s) + _)%nat
      with ((length (src_name s) + (4 - length (src_name s) mod 4) mod 4) + 14 * 4)%nat by lia. rewrite Nat.Div0.mod_add. apply pad4.
  - rewrite Forall_forall in Hids. destruct (ifsc_length n s (Hids s Hs)) as [k ->]. rewrite Nat.mul_comm. apply Nat.Div0.mod_mul.
Qed.

(** C25: a PAR2 set survives writing and parsing.  For files of any contents,
    with distinct identifiers, written as a Main packet, their descriptions
    and their slice checksums, the parser returns the slice size, the list of
    protected files, and for each file its name, length and digests, and the
    CRC-32 of the whole file, put together from the checksums of its slices
    although the last of those was taken over zero padding. *)
Theorem par2_roundtrip NFC n setid srcs opts :
  (0 < n)%nat -> Z.of_nat n < 2 ^ 63 -> length setid = 16%nat -> srcs <> [] -> Forall source_ok srcs -> NoDup (src_id <$> srcs) ->
  Z.of_nat (length srcs) <= maxRecoverySetFiles ->
  Forall (fun p => Z.of_nat (length (snd p)) <= body_limit (clamp opts)) (set_packets n srcs) ->
  Z.of_nat (length (write_set n setid srcs)) <= earlyExitThreshold ->
  exists s, parsePar2Set NFC (write_set n setid srcs) opts false = Some (Ok s) /\
  SetID s = setid /\ SliceSize s = Z.of_nat n /\ RecoveryFileIDs s = src_id <$> srcs /\
  Forall2 (fun src fd => exists dup, fd = mkFileDesc (src_id src) (correctEncoding NFC (src_name src)) (md5 (src_data src))
      (md5 (take 16384 (src_data src))) (Z.of_nat (length (src_data src))) (ChecksumIEEE (src_data src)) dup [] false) srcs (Files s).
Proof.
  intros Hn Hn63 Hsid Hne Hok Hnd Hmax Hlim Hsmall.
  assert (Forall (fun s => length (src_id s) = 16%nat) srcs) as Hids by (eapply Forall_impl; [exact Hok|]; intros s H; apply H).
  unfold write_set in *. rewrite parse_written by (try done; by apply set_packets_fit). eexists. split; [reflexivity|].
  rewrite handle_set by done. unfold push_ifsc, push_files, postProcessSet, set_start. cbn [ps_set ps_ifsc SetID SliceSize RecoveryFileIDs Files FilesByID By16k RecoveryBlocks Creator app].
  rewrite decide_True by lia.
  set (byID := foldl _ _ _). unfold reconstructCRCs.
  pose proof (reconstruct_sources NFC n byID srcs [] Hn Hn63 Hok) as Hrec. cbn [fmap list_fmap app] in Hrec. rewrite Hrec.
  2:{ intros i s Hi. unfold byID. apply (index_fold (parsed_desc NFC <$> srcs) 0 ∅).
      - rewrite <- list_fmap_compose. exact Hnd.
      - intros; apply lookup_empty.
      - right. exists i, (parsed_desc NFC s). split_and!; try done. by rewrite list_lookup_fmap, Hi. }
  pose proof (by16k_wf (crc_filled NFC <$> srcs)) as Hb. destruct (buildBy16k (crc_filled NFC <$> srcs)) as [files m]. cbn.
  split_and!; try done. destruct Hb as (_ & _ & Hb & _); [by intros fd (s & -> & _)%list_elem_of_fmap|].
  rewrite Forall2_fmap_l in Hb. eapply Forall2_impl; [exact Hb|]. intros s fd [d ->]. by exists d.
Qed.

(** ** Witness: two files, one of them shorter than a slice *)
Definition ex_sources : list source :=
  [mkSource (replicate 16 1) (bs "a.bin") [1; 2; 3; 4; 5; 6]; mkSource (replicate 16 2) (bs "b.bin") [7]].

Lemma par2_roundtrip_witness :
  exists s, parsePar2Set id (write_set 4 (replicate 16 9) ex_sources) DefaultParseOptions false = Some (Ok s) /\ length (Files s) = 2%nat.
Proof.
  destruct (par2_roundtrip id 4 (replicate 16 9) ex_sources DefaultParseOptions) as (s & Hs & _ & _ & _ & HF).
  - lia.
  - reflexivity.
  - reflexivity.
  - discriminate.
  - apply Forall_forall. intros s Hs. unfold ex_sources in Hs. rewrite !elem_of_cons, elem_of_nil in Hs.
    destruct Hs as [-> | [-> | []]]; (split; [reflexivity|]; split; [eexists; split; [vm_compute; reflexivity|intros E; discriminate E]|]; split; [|reflexivity]);
      cbn [src_data]; repeat (constructor; [unfold is_byte; lia|]); constructor.
  - apply (bool_decide_unpack _). vm_compute. reflexivity.
  - vm_compute. discriminate.
  - apply (bool_decide_unpack _). vm_compute. reflexivity.
  - vm_compute. discriminate.
  - exists s. split; [exact Hs|]. apply Forall2_length in HF. rewrite <- HF. reflexivity.
Defined.
