(* ===== verification/Par2Identify.v ===== *)
(** * Which PAR2 entry is which file ([internal/par2: par2.go, fsops.go,
    identify.go, assess.go, results.go])

    Sets of PAR2 files, the entries they list together, the passes that match
    the files of a directory to those entries, and the verdict over their
    checksums.  Names and paths are byte strings; the directory is what its
    listing, the files' contents and [Lstat] under its root answer. *)
From S2P Require Import Prelude Crc GoBytes GoText Md5 Par2Parse.
From stdpp Require Import base numbers gmap sorting list strings.
From Stdlib Require Import ZArith Lia.
Local Open Scope Z_scope.

(** ** Sets *)
Record PSet : Type := mkPSet { Name : list Z; MainFile : list Z; ExtraFiles : list (list Z); readable : list Z }.

Definition ParseFile (s : PSet) : list Z :=
  if decide (readable s <> []) then readable s
  else if decide (MainFile s <> []) then MainFile s
  else default [] (head (ExtraFiles s)).

Definition all_digits (s : list Z) : bool := negb (bool_decide (s = [])) && forallb (fun b => bool_decide (48 <= b <= 57)) s.

(** The digits before the first byte that is not one, and the rest. *)
Fixpoint span_digits (s : list Z) : list Z * list Z :=
  match s with
  | [] => ([], [])
  | b :: s' => if decide (48 <= b <= 57) then let '(d, r) := span_digits s' in (b :: d, r) else ([], s)
  end.

(** [vol] digits, a sign, digits to the end: the tail [volPattern] matches. *)
Definition vol_tail (s : list Z) : bool :=
  bool_decide (ToLower (take 4 s) = bs ".vol") &&
  (let '(d, r) := span_digits (drop 4 s) in
   negb (bool_decide (d = [])) &&
   match r with
   | sign :: r => ((sign =? 45) || (sign =? 43)) && all_digits r
   | [] => false
   end).

(** [volPattern.ReplaceAllString(s, "")]. *)
Fixpoint trim_volume (s : list Z) : list Z :=
  if vol_tail s then []
  else match s with
       | [] => []
       | b :: s => b :: trim_volume s
       end.

Definition IsPar2Name (name : list Z) : bool := bool_decide (ToLower (Ext name) = bs ".par2").

Definition setName (base : list Z) : list Z :=
  let ext := Ext base in
  if negb (bool_decide (ToLower ext = bs ".par2")) then base else trim_volume (take (length base - length ext) base).

Definition isVolume (name : list Z) : bool :=
  let stem := take (length name - length (Ext name)) name in
  negb (bool_decide (trim_volume stem = stem)).

Section identify.
Variable NFC : list Z -> list Z.

(** The contents of the file at a path, if it opens. *)
Variable read : list Z -> option (list Z).

Definition parse_path (opts : ParseOptions) (until : bool) (path : list Z) : option ParsedSet :=
  f ← read path;
  match parsePar2Set NFC f opts until with
  | Some (Ok s) => Some s
  | _ => None
  end.

(** The first candidate that describes a file, or else the first that only
    lists some. *)
Fixpoint resolve_candidates (opts : ParseOptions) (mainOnly : list Z) (candidates : list (list Z)) : list Z :=
  match candidates with
  | [] => mainOnly
  | path :: rest =>
      match parse_path opts true path with
      | None => resolve_candidates opts mainOnly rest
      | Some parsed =>
          if negb (bool_decide (Files parsed = [])) then path
          else resolve_candidates opts (if bool_decide (mainOnly = []) && describesAFile parsed then path else mainOnly) rest
      end
  end.

Definition resolveReadable (opts : ParseOptions) (s : PSet) : PSet :=
  let candidates := if decide (MainFile s <> []) then MainFile s :: ExtraFiles s else ExtraFiles s in
  mkPSet (Name s) (MainFile s) (ExtraFiles s) (resolve_candidates opts [] candidates).

(** Filing one PAR2 file under its set. *)
Definition add_par2 (byName : gmap (list Z) PSet) (path : list Z) : gmap (list Z) PSet :=
  let base := Base path in
  let name := setName base in
  let s := default (mkPSet name [] [] []) (byName !! name) in
  <[name := if isVolume base then mkPSet (Name s) (MainFile s) (ExtraFiles s ++ [path]) (readable s)
            else mkPSet (Name s) path (ExtraFiles s) (readable s)]> byName.

Definition set_le (a b : PSet) : Prop := str_le (Name a) (Name b).
#[local] Instance set_le_dec : RelDecision set_le.
Proof. intros a b. unfold set_le. apply _. Defined.

(** [FindPar2Files] over a directory's file names. *)
Definition FindPar2Files (opts : ParseOptions) (names : list (list Z)) : list PSet :=
  let byName := foldl add_par2 ∅ (base.filter (fun n => IsPar2Name n = true) names) in
  merge_sort set_le (resolveReadable opts <$> (snd <$> map_to_list byName)).

(** ** The entries of several sets *)
Notation parsedSetInfo := (list Z * Z)%type (only parsing).
Notation fileKey := (list Z * Z * list Z)%type (only parsing).

Record collected : Type := mkCollected {
  entries : list FileDesc;
  undescribed : list FileDesc;
  infos : list parsedSetInfo;
  unreadable : list (list Z);
}.

Record collecting : Type := mkCollecting {
  g_c : collected;
  owner : gmap parsedSetInfo (list Z);
  at_ : gmap fileKey nat;
  declared : list fileKey;          (* in order, each once *)
}.

Definition add_entry (info : parsedSetInfo) (name : list Z) (g : collecting) (fd : FileDesc) : collecting :=
  let fd := set_Set fd name in
  let k := (info, FileID fd) in
  let c := g_c g in
  match at_ g !! k with
  | None => mkCollecting (mkCollected (entries c ++ [fd]) (undescribed c) (infos c) (unreadable c)) (owner g)
              (<[k := length (entries c)]> (at_ g)) (declared g)
  | Some i =>
      match entries c !! i with
      | Some old =>
          if bool_decide (FileCRC32 old = 0) && negb (bool_decide (FileCRC32 fd = 0))
          then mkCollecting (mkCollected (<[i := fd]> (entries c)) (undescribed c) (infos c) (unreadable c)) (owner g) (at_ g) (declared g)
          else g
      | None => g
      end
  end.

Definition add_declared (info : parsedSetInfo) (g : collecting) (id : list Z) : collecting :=
  let k := (info, id) in
  if decide (k ∈ declared g) then g else mkCollecting (g_c g) (owner g) (at_ g) (declared g ++ [k]).

Definition skip_set (g : collecting) (s : PSet) : collecting :=
  let c := g_c g in
  mkCollecting (mkCollected (entries c) (undescribed c) (infos c) (unreadable c ++ [Name s])) (owner g) (at_ g) (declared g).

Definition collect_set (opts : ParseOptions) (g : collecting) (s : PSet) : collecting :=
  let parFile := ParseFile s in
  if decide (parFile = []) then skip_set g s
  else match parse_path opts false parFile with
       | None => skip_set g s
       | Some parsed =>
           if negb (describesAFile parsed) then skip_set g s
           else
             let info := (SetID parsed, SliceSize parsed) in
             let c := g_c g in
             let '(name, g) :=
               match owner g !! info with
               | Some name => (name, g)
               | None => (Name s, mkCollecting (mkCollected (entries c) (undescribed c) (infos c ++ [info]) (unreadable c))
                                    (<[info := Name s]> (owner g)) (at_ g) (declared g))
               end in
             let g := foldl (add_entry info name) g (Files parsed) in
             foldl (add_declared info) g (RecoveryFileIDs parsed)
       end.

Definition hex_byte (b : Z) : list Z :=
  let digit d := if decide (d < 10) then 48 + d else 87 + d in [digit (b / 16); digit (b mod 16)].

Definition undescribed_desc (g : collecting) (k : fileKey) : FileDesc :=
  mkFileDesc (snd k) (bs "<undescribed par2 file " ++ concat (hex_byte <$> snd k) ++ bs ">") (replicate 16 0) (replicate 16 0) 0 0 false
    (default [] (owner g !! fst k)) true.

(** [collectManifestsWithOptions]. *)
Definition collectManifests (opts : ParseOptions) (sets : list PSet) : collected :=
  let g := foldl (collect_set opts) (mkCollecting (mkCollected [] [] [] []) ∅ ∅ []) sets in
  let c := g_c g in
  mkCollected (entries c)
    (undescribed_desc g <$> base.filter (fun k => at_ g !! k = None) (declared g)) (infos c) (unreadable c).

(** ** Matching files to entries *)
Inductive MatchMethod : Type := MatchName | MatchFlattenedName | MatchHash16k | MatchCRC32.
#[export] Instance MatchMethod_eq_dec : EqDecision MatchMethod.
Proof. solve_decision. Defined.

Record Identified : Type := mkIdentified { OnDisk : list Z; Desc : FileDesc; By : MatchMethod; lengthDiffers : bool }.

Definition NeedsRename (i : Identified) : bool := negb (bool_decide (FileName (Desc i) = OnDisk i)).

Record Identification : Type := mkIdentification {
  id_Files : list Identified;
  Unaccounted : list FileDesc;
  Ignored : list (list Z);
  Unreadable : list (list Z);
  id_sets : list parsedSetInfo;
}.

(** [Identification.SliceSize]. *)
Definition id_SliceSize (i : Identification) : option Z :=
  match id_sets i with
  | [] => None
  | first :: rest =>
      if existsb (fun s => negb (bool_decide (s = first))) rest then None
      else if snd first =? 0 then None else Some (snd first)
  end.

Definition Accounted (i : Identification) : bool := bool_decide (Unaccounted i = []).
Definition NothingIdentified (i : Identification) : bool :=
  bool_decide (id_Files i = []) && negb (bool_decide (Unaccounted i = [])).

Definition isIgnoredForIdentification (name : list Z) : bool :=
  bool_decide (ToLower (Ext name) ∈ [bs ".par2"; bs ".sfv"; bs ".nfo"]).

(** A directory entry that is not a directory: what [Info] says its size is
    and what reading it yields. *)
Record dirent : Type := mkDirent { de_size : option Z; de_data : option (list Z) }.

(** The job directory: its listing, if it could be read; [Lstat] under its
    root (whether the file is regular, and its size), if the root opens. *)
Record jobdir : Type := mkJobdir {
  flatFiles : gmap (list Z) dirent;
  root_lstat : option (list Z -> option (bool * Z));
}.

Record matching : Type := mkMatching { claimedFile : gset (list Z); claimedEntry : gset nat; m_files : list Identified }.

Definition claim (m : matching) (file : option (list Z)) (ei : nat) (i : Identified) : matching :=
  mkMatching (match file with Some name => {[name]} ∪ claimedFile m | None => claimedFile m end) ({[ei]} ∪ claimedEntry m) (m_files m ++ [i]).

(** Whether [size] is not the length the entry records, where it records one. *)
Definition size_differs (fd : FileDesc) (size : option Z) : bool :=
  match size with
  | None => true
  | Some n => bool_decide (0 < FileSize fd) && negb (bool_decide (n = FileSize fd))
  end.

(** Pass 0: entries in a subdirectory that are already where they belong. *)
Definition pass0 (lstat : list Z -> option (bool * Z)) (m : matching) (e : nat * FileDesc) : matching :=
  let '(ei, fd) := e in
  if negb (ContainsByte (FileName fd) slash) then m
  else match lstat (FileName fd) with
       | Some (true, size) =>
           if bool_decide (0 < FileSize fd) && negb (bool_decide (size = FileSize fd)) then m
           else claim m None ei (mkIdentified (FileName fd) fd MatchName false)
       | _ => m
       end.

(** [claimName]. *)
Definition claimName (dir : jobdir) (by_ : MatchMethod) (name_of : FileDesc -> list Z) (m : matching) (e : nat * FileDesc) : matching :=
  let '(ei, fd) := e in
  let name := name_of fd in
  match flatFiles dir !! name with
  | None => m
  | Some de =>
      if decide (name ∈ claimedFile m \/ ei ∈ claimedEntry m) then m
      else
        let differs := bool_decide (0 < FileSize fd) && size_differs fd (de_size de) in
        claim m (Some name) ei (mkIdentified name fd by_ differs)
  end.

(** An index of the unclaimed entries by a key, without those that share it. *)
Definition index_by {K} `{Countable K} (key : FileDesc -> option K) (m : matching) (manifest : list (nat * FileDesc)) : gmap K nat :=
  let step (acc : gmap K nat * gset K) (e : nat * FileDesc) :=
    let '(ei, fd) := e in
    if decide (ei ∈ claimedEntry m) then acc
    else match key fd with
         | None => acc
         | Some k =>
             match fst acc !! k with
             | Some _ => (fst acc, {[k]} ∪ snd acc)
             | None => (<[k := ei]> (fst acc), snd acc)
             end
         end in
  let '(index, ambiguous) := foldl step (∅, ∅) manifest in
  base.filter (fun kv => fst kv ∉ ambiguous) index.

Definition ComputeHash16k (data : list Z) : list Z := md5 (take 16384 data).

(** Pass 2: one candidate against the first-16k hashes still sought. *)
Definition pass2 (dir : jobdir) (manifest : list (nat * FileDesc)) (acc : matching * gmap (list Z) nat) (name : list Z) :
    matching * gmap (list Z) nat :=
  let '(m, hashIndex) := acc in
  if decide (name ∈ claimedFile m) then acc
  else match flatFiles dir !! name with
       | None => acc
       | Some de =>
           match de_data de with
           | None => acc
           | Some data =>
               let hash := ComputeHash16k data in
               match hashIndex !! hash with
               | None => acc
               | Some ei =>
                   match snd <$> manifest !! ei with
                   | None => acc
                   | Some fd =>
                       if size_differs fd (de_size de) then acc
                       else (claim m (Some name) ei (mkIdentified name fd MatchHash16k false), base.delete hash hashIndex)
                   end
               end
           end
       end.

Definition crc_key (fd : FileDesc) : option (Z * Z) :=
  if decide (FileCRC32 fd = 0 \/ FileSize fd = 0) then None else Some (FileCRC32 fd, FileSize fd).

(** Pass 3: one candidate against the whole-file checksums still sought. *)
Definition pass3 (dir : jobdir) (manifest : list (nat * FileDesc)) (acc : matching * gmap (Z * Z) nat) (name : list Z) :
    matching * gmap (Z * Z) nat :=
  let '(m, crcIndex) := acc in
  if decide (crcIndex = ∅ \/ name ∈ claimedFile m) then acc
  else match flatFiles dir !! name with
       | None => acc
       | Some de =>
           match de_size de with
           | None => acc
           | Some size =>
               if negb (existsb (fun kv => snd (fst kv) =? size) (map_to_list crcIndex)) then acc
               else match de_data de with
                    | None => acc
                    | Some data =>
                        let key := (ChecksumIEEE data, size) in
                        match crcIndex !! key with
                        | None => acc
                        | Some ei =>
                            match snd <$> manifest !! ei with
                            | None => acc
                            | Some fd => (claim m (Some name) ei (mkIdentified name fd MatchCRC32 false), base.delete key crcIndex)
                            end
                        end
                    end
           end
       end.

Definition sorted_names (l : list (list Z)) : list (list Z) := merge_sort str_le l.

(** [IdentifyWithOptions] once the sets are collected; [None] is a directory
    that could not be read. *)
Definition identify_entries (c : collected) (dir : option jobdir) : option Identification :=
  if decide (entries c = []) then Some (mkIdentification [] (undescribed c) [] (unreadable c) (infos c))
  else
    dir ← dir;
    let names := fst <$> map_to_list (flatFiles dir) in
    let ignored := sorted_names (base.filter (fun n => isIgnoredForIdentification n = true) names) in
    let candidates := sorted_names (base.filter (fun n => isIgnoredForIdentification n = false) names) in
    let manifest := imap (fun i fd => (i, fd)) (entries c) in
    let m := mkMatching ∅ ∅ [] in
    let m := match root_lstat dir with
             | Some lstat => foldl (pass0 lstat) m manifest
             | None => m
             end in
    let m := foldl (claimName dir MatchName (fun fd => Base (FileName fd))) m manifest in
    let m := foldl (claimName dir MatchFlattenedName (fun fd => ReplaceAll (FileName fd) slash 95)) m manifest in
    let '(m, _) := foldl (pass2 dir manifest) (m, index_by (fun fd => Some (Hash16k fd)) m manifest) candidates in
    let '(m, _) := foldl (pass3 dir manifest) (m, index_by crc_key m manifest) candidates in
    Some (mkIdentification (m_files m)
            ((snd <$> base.filter (fun e => fst e ∉ claimedEntry m) manifest) ++ undescribed c) ignored (unreadable c) (infos c)).

Definition Identify (opts : ParseOptions) (sets : list PSet) (dir : option jobdir) : option Identification :=
  identify_entries (collectManifests opts sets) dir.

(** ** The verdict *)
Record AssembledFile : Type := mkAssembled { af_Name : list Z; af_CRC32 : Z }.

Record CRCResult : Type := mkCRCResult { cr_FileName : list Z; AssembledCRC : Z; Par2CRC : Z; Match : bool; Par2FileName : list Z }.

Record CRCVerifyResult : Type := mkVerify {
  Checked : Z;
  Matched : Z;
  Mismatched : Z;
  NoCRC : Z;
  NotInPar2 : Z;
  Unverified : Z;
  vr_Files : list CRCResult;
  NoCRCFiles : list (list Z);
  UnverifiedFiles : list (list Z);
}.

Definition joinKey (name : list Z) : list Z := Base name.

(** [deliveredIndex]: positions in the list of delivered files. *)
Record deliveredIndex : Type := mkIndex { byName : gmap (list Z) nat; byBase : gmap (list Z) nat }.

Definition add_delivered (acc : deliveredIndex * gset (list Z)) (e : nat * AssembledFile) : deliveredIndex * gset (list Z) :=
  let '(idx, ambiguous) := acc in
  let '(i, af) := e in
  let byName' := <[af_Name af := i]> (byName idx) in
  let base := joinKey (af_Name af) in
  match byBase idx !! base with
  | Some _ => (mkIndex byName' (byBase idx), {[base]} ∪ ambiguous)
  | None => (mkIndex byName' (<[base := i]> (byBase idx)), ambiguous)
  end.

Definition newDeliveredIndex (files : list AssembledFile) : deliveredIndex :=
  let '(idx, ambiguous) := foldl add_delivered (mkIndex ∅ ∅, ∅) (imap (fun i af => (i, af)) files) in
  mkIndex (byName idx) (base.filter (fun kv => fst kv ∉ ambiguous) (byBase idx)).

Definition match_ (idx : deliveredIndex) (onDisk : list Z) : option nat :=
  match byName idx !! onDisk with
  | Some d => Some d
  | None => byBase idx !! joinKey onDisk
  end.

(** One identified file; the second component is which delivered files were
    matched. *)
Definition verify_one (files : list AssembledFile) (idx : deliveredIndex) (acc : CRCVerifyResult * gset nat) (f : Identified) :
    CRCVerifyResult * gset nat :=
  let '(r, matched) := acc in
  let unverified := mkVerify (Checked r) (Matched r) (Mismatched r) (NoCRC r) (NotInPar2 r) (Unverified r + 1) (vr_Files r)
                      (NoCRCFiles r) (UnverifiedFiles r ++ [FileName (Desc f)]) in
  match match_ idx (OnDisk f) with
  | None => (unverified, matched)
  | Some d =>
      let matched := {[d]} ∪ matched in
      let crc := default 0 (af_CRC32 <$> files !! d) in
      if lengthDiffers f then (unverified, matched)
      else if decide (crc = 0 \/ FileCRC32 (Desc f) = 0) then
        (mkVerify (Checked r) (Matched r) (Mismatched r) (NoCRC r + 1) (NotInPar2 r) (Unverified r) (vr_Files r)
           (NoCRCFiles r ++ [OnDisk f]) (UnverifiedFiles r), matched)
      else
        let ok := bool_decide (crc = FileCRC32 (Desc f)) in
        (mkVerify (Checked r + 1) (Matched r + if ok then 1 else 0) (Mismatched r + if ok then 0 else 1) (NoCRC r) (NotInPar2 r)
           (Unverified r) (vr_Files r ++ [mkCRCResult (OnDisk f) crc (FileCRC32 (Desc f)) ok (FileName (Desc f))])
           (NoCRCFiles r) (UnverifiedFiles r), matched)
  end.

Definition verifyIdentified (i : Identification) (files : list AssembledFile) : CRCVerifyResult :=
  let idx := newDeliveredIndex files in
  let '(r, matched) := foldl (verify_one files idx) (mkVerify 0 0 0 0 0 0 [] [] [], ∅) (id_Files i) in
  mkVerify (Checked r) (Matched r) (Mismatched r) (NoCRC r)
    (Z.of_nat (length (base.filter (fun kv => snd kv ∉ matched) (map_to_list (byName idx)))))
    (Unverified r + Z.of_nat (length (Unaccounted i))) (vr_Files r) (sorted_names (NoCRCFiles r))
    (sorted_names (UnverifiedFiles r ++ (FileName <$> Unaccounted i))).

Record Rename : Type := mkRename { From : list Z; To : list Z }.

Record Assessment : Type := mkAssessment {
  a_ID : Identification;
  a_CRC : CRCVerifyResult;
  Renames : list Rename;
  a_files : list AssembledFile;
}.

Definition assess_identified (i : Identification) (files : list AssembledFile) : Assessment :=
  mkAssessment i (verifyIdentified i files)
    ((fun f => mkRename (OnDisk f) (FileName (Desc f))) <$> base.filter (fun f => NeedsRename f = true) (id_Files i)) files.

Definition Assess (opts : ParseOptions) (sets : list PSet) (dir : option jobdir) (files : list AssembledFile) : option Assessment :=
  i ← Identify opts sets dir; Some (assess_identified i files).

Definition CRCExcluding (a : Assessment) (sets : gset (list Z)) : CRCVerifyResult :=
  if decide (sets = ∅) then a_CRC a
  else verifyIdentified
         (mkIdentification (base.filter (fun f => fd_Set (Desc f) ∉ sets) (id_Files (a_ID a)))
            (base.filter (fun fd => fd_Set fd ∉ sets) (Unaccounted (a_ID a))) [] [] (id_sets (a_ID a))) (a_files a).

Definition Undelivered (a : Assessment) : list FileDesc :=
  if decide (a_files a = []) then Unaccounted (a_ID a)
  else (Desc <$> base.filter (fun f => match_ (newDeliveredIndex (a_files a)) (OnDisk f) = None) (id_Files (a_ID a))) ++ Unaccounted (a_ID a).

(** [DeliveredIndices]; [None] is -1. *)
Definition DeliveredIndices (a : Assessment) : list (option nat) :=
  (fun f => match_ (newDeliveredIndex (a_files a)) (OnDisk f)) <$> id_Files (a_ID a).
End identify.

(** ** Moving the files *)

(** A file of the job directory: whether it is regular, and its contents. *)
Record finfo : Type := mkFinfo { fi_regular : bool; fi_data : list Z }.

(** The directory by relative path, with the answers of [MkdirAll] for a
    destination and of [Rename]; a rename replaces what is there. *)
Record fsroot : Type := mkFsroot {
  tree : gmap (list Z) finfo;
  mkdir_ok : list Z -> bool;
  rename_ok : list Z -> list Z -> bool;
}.

Definition relocateFile (r : fsroot) (flatName : list Z) (fd : FileDesc) : option fsroot :=
  info ← tree r !! flatName;
  if negb (fi_regular info) then None
  else if bool_decide (0 < FileSize fd) && negb (bool_decide (Z.of_nat (length (fi_data info)) = FileSize fd)) then None
  else if negb (mkdir_ok r (FileName fd)) then None
  else if negb (rename_ok r flatName (FileName fd)) then None
  else Some (mkFsroot (<[FileName fd := info]> (base.delete flatName (tree r))) (mkdir_ok r) (rename_ok r)).

(** [ApplyRenames] under an open root: the moves made. *)
Definition apply_rename (descOf : gmap (list Z) FileDesc) (acc : fsroot * list Rename) (r : Rename) : fsroot * list Rename :=
  let '(root, applied) := acc in
  match descOf !! From r with
  | None => acc
  | Some fd =>
      match relocateFile root (From r) fd with
      | None => acc
      | Some root => (root, applied ++ [r])
      end
  end.

Definition ApplyRenames (root : fsroot) (a : Assessment) : fsroot * list Rename :=
  let descOf := foldl (fun (m : gmap (list Z) FileDesc) f => <[OnDisk f := Desc f]> m) ∅ (id_Files (a_ID a)) in
  foldl (apply_rename descOf) (root, []) (Renames a).
