(* ===== verification/Par2IdentifyProps.v ===== *)
(** * Properties of PAR2 identification and verification

    Each entry and each file is matched once, on the evidence its match
    method claims; and a clean verdict means every file the sets protect was
    delivered with the checksum they record. *)
From S2P Require Import Prelude Crc GoBytes GoText Md5 Par2Parse Par2Set Par2Roundtrip Par2Identify.
From stdpp Require Import base numbers gmap sorting list strings.
From Stdlib Require Import ZArith Lia Decidable.
Local Open Scope Z_scope.

(** ** What a match rests on *)
Section passes.
Variable dir : jobdir.

Definition by_flat_name (name : list Z) (f : Identified) : Prop :=
  OnDisk f = name /\ exists de, flatFiles dir !! name = Some de /\
    lengthDiffers f = bool_decide (0 < FileSize (Desc f)) && size_differs (Desc f) (de_size de).

Definition by_path (f : Identified) : Prop :=
  OnDisk f = FileName (Desc f) /\ ContainsByte (FileName (Desc f)) slash = true /\ lengthDiffers f = false /\
  exists lstat size, root_lstat dir = Some lstat /\ lstat (FileName (Desc f)) = Some (true, size) /\
    (0 < FileSize (Desc f) -> size = FileSize (Desc f)).

Definition by_content (P : list Z -> Z -> Prop) (f : Identified) : Prop :=
  lengthDiffers f = false /\ exists de data size, flatFiles dir !! OnDisk f = Some de /\ de_data de = Some data /\ de_size de = Some size /\
    P data size.

Definition evidence (f : Identified) : Prop :=
  match By f with
  | MatchName => by_path f \/ by_flat_name (Base (FileName (Desc f))) f
  | MatchFlattenedName => by_flat_name (ReplaceAll (FileName (Desc f)) slash 95) f
  | MatchHash16k => by_content (fun data size => md5 (take 16384 data) = Hash16k (Desc f) /\
      (0 < FileSize (Desc f) -> size = FileSize (Desc f))) f
  | MatchCRC32 => by_content (fun data size => ChecksumIEEE data = FileCRC32 (Desc f) /\ FileCRC32 (Desc f) <> 0 /\
      size = FileSize (Desc f) /\ size <> 0) f
  end.

(** Whether [f] was matched in the listing of the directory (passes 1 to 3). *)
Definition flat_match (f : Identified) : Prop := is_Some (flatFiles dir !! OnDisk f) /\ ~ by_path f.

(** The matches so far, with the entries they took. *)
Record matching_ok (es : list FileDesc) (m : matching) (taken : list nat) : Prop := {
  mt_taken : forall ei, ei ∈ claimedEntry m <-> ei ∈ taken;
  mt_nodup : NoDup taken;
  mt_files : Forall2 (fun ei f => es !! ei = Some (Desc f) /\ evidence f) taken (m_files m);
  mt_claimed : exists flags, length flags = length (m_files m) /\
    (forall k f, m_files m !! k = Some f -> flags !! k = Some false -> by_path f) /\
    NoDup (omap (fun x => if snd x : bool then Some (OnDisk (fst x)) else None) (zip (m_files m) flags)) /\
    forall n, n ∈ claimedFile m <-> n ∈ omap (fun x => if snd x : bool then Some (OnDisk (fst x)) else None) (zip (m_files m) flags);
}.

(** The manifest the passes walk. *)
Definition manifest_of (es : list FileDesc) : list (nat * FileDesc) := imap (fun i fd => (i, fd)) es.

Lemma manifest_lookup es ei e : manifest_of es !! ei = Some e -> fst e = ei /\ es !! ei = Some (snd e).
Proof. unfold manifest_of. rewrite list_lookup_imap. destruct (es !! ei); cbn; [|done]. by intros [= <-]. Qed.

Lemma matching_start es : matching_ok es (mkMatching ∅ ∅ []) [].
Proof.
  split; cbn.
  - intros ei. split; [by intros ?%elem_of_empty|by intros ?%elem_of_nil].
  - constructor.
  - constructor.
  - exists []. cbn. split; [done|]. split; [done|]. split; [constructor|]. intros n. split; [by intros ?%elem_of_empty|by intros ?%elem_of_nil].
Qed.

Lemma zip_snoc {A B} (l : list A) (k : list B) a b : length k = length l -> zip (l ++ [a]) (k ++ [b]) = zip l k ++ [(a, b)].
Proof. intros H. rewrite zip_with_app by done. done. Qed.

Lemma claim_step_ok es m taken file ei i : matching_ok es m taken -> ei ∉ claimedEntry m -> es !! ei = Some (Desc i) -> evidence i ->
  (file = None -> by_path i) -> (forall n, file = Some n -> OnDisk i = n /\ n ∉ claimedFile m) ->
  matching_ok es (claim m file ei i) (taken ++ [ei]).
Proof.
  intros [M1 M2 M3 (flags & F1 & F2 & F3 & F4)] Hei Hes Hev Hnone Hsome. split; cbn.
  - intros x. rewrite elem_of_union, elem_of_singleton, elem_of_app, list_elem_of_singleton, M1. tauto.
  - apply NoDup_app. split; [done|]. split; [|apply NoDup_singleton]. intros x Hx ->%list_elem_of_singleton. by apply Hei, M1.
  - apply Forall2_app; [done|]. by constructor.
  - exists (flags ++ [if file then true else false]). split; [rewrite !length_app; cbn; lia|]. rewrite zip_snoc by done. rewrite omap_app. split; [|split].
    + intros k f Hk Hf. destruct (decide (k < length (m_files m))%nat) as [Hlt|Hge].
      * rewrite lookup_app_l in Hk by done. rewrite lookup_app_l in Hf by lia. by eapply F2.
      * rewrite lookup_app_r in Hk by lia. rewrite lookup_app_r in Hf by lia. rewrite F1 in Hf. destruct (k - length (m_files m))%nat; [|done].
        cbn in Hk, Hf. simplify_eq. destruct file; [done|]. by apply Hnone.
    + destruct file as [n|]; cbn; [|by rewrite app_nil_r]. destruct (Hsome n eq_refl) as [E Hn]. apply NoDup_app. split; [done|].
      split; [|apply NoDup_singleton]. intros x Hx ->%list_elem_of_singleton. apply Hn. rewrite <- E. by apply F4.
    + intros x. destruct file as [n|]; cbn; [|rewrite app_nil_r; apply F4]. destruct (Hsome n eq_refl) as [E Hn].
      rewrite elem_of_union, elem_of_singleton, elem_of_app, list_elem_of_singleton, F4, E. tauto.
Qed.

(** A pass over a list, each step of which takes at most one more entry. *)
Definition grows (es : list FileDesc) (m m' : matching) : Prop :=
  forall taken, matching_ok es m taken -> exists more, matching_ok es m' (taken ++ more).

Lemma grows_refl es m : grows es m m.
Proof. intros taken H. exists []. by rewrite app_nil_r. Qed.
Lemma grows_trans es m1 m2 m3 : grows es m1 m2 -> grows es m2 m3 -> grows es m1 m3.
Proof. intros H1 H2 taken H. destruct (H1 _ H) as [l1 K1]. destruct (H2 _ K1) as [l2 K2]. exists (l1 ++ l2). by rewrite app_assoc. Qed.

Lemma grows_fold {A} es (step : matching -> A -> matching) (P : A -> Prop) l : Forall P l ->
  (forall m x, P x -> grows es m (step m x)) -> forall m, grows es m (foldl step m l).
Proof.
  intros HP Hs. induction HP as [|x l Hx _ IH]; intros m; [apply grows_refl|]. cbn. eapply grows_trans; [by apply Hs|apply IH].
Qed.

(** ** The passes *)
Lemma pass0_ok es lstat l : root_lstat dir = Some lstat -> forall k m taken, (forall i fd, l !! i = Some fd -> es !! (k + i)%nat = Some fd) ->
  matching_ok es m taken -> (forall ei, ei ∈ taken -> (ei < k)%nat) ->
  exists more, matching_ok es (foldl (pass0 lstat) m (imap (fun i fd => ((k + i)%nat, fd)) l)) (taken ++ more).
Proof.
  intros Hroot. induction l as [|fd l IH]; intros k m taken Hl Hm Hlt; cbn [imap foldl]; [exists []; by rewrite app_nil_r|].
  rewrite (imap_ext _ (fun i fd => ((S k + i)%nat, fd))) by (intros i x _; cbn; f_equal; lia). rewrite Nat.add_0_r.
  assert (exists more, matching_ok es (pass0 lstat m (k, fd)) (taken ++ more) /\ forall ei, ei ∈ more -> ei = k) as (more & Hm' & Hmore).
  { assert (forall m', m' = m -> exists more, matching_ok es m' (taken ++ more) /\ forall ei, ei ∈ more -> ei = k) as Hsame.
    { intros m' ->. exists []. rewrite app_nil_r. split; [done|]. by intros ei ?%elem_of_nil. }
    unfold pass0. destruct (ContainsByte (FileName fd) slash) eqn:Ec; cbn [negb]; [|by apply Hsame].
    destruct (lstat (FileName fd)) as [[[] size]|] eqn:El; [|by apply Hsame|by apply Hsame].
    destruct (bool_decide (0 < FileSize fd) && _) eqn:Es; [by apply Hsame|].
    assert (by_path (mkIdentified (FileName fd) fd MatchName false)) as Hp.
    { split; [done|]. split; [done|]. split; [done|]. exists lstat, size. split; [done|]. split; [done|]. cbn. intros Hs.
      apply andb_false_iff in Es as [Es|Es]; [by apply bool_decide_eq_false in Es|]. by apply negb_false_iff, bool_decide_eq_true in Es. }
    exists [k]. split; [|by intros ei ->%list_elem_of_singleton]. apply claim_step_ok; try done.
    - intros Hin%(mt_taken _ _ _ Hm). specialize (Hlt _ Hin). lia.
    - rewrite <- (Nat.add_0_r k). by apply Hl.
    - by left. }
  assert (forall i fd', l !! i = Some fd' -> es !! (S k + i)%nat = Some fd') as Hl'.
  { intros i fd' H. rewrite <- (Hl (S i) fd' H). f_equal. lia. }
  destruct (IH (S k) _ _ Hl' Hm') as [more2 H2].
  - intros ei [Hin|Hin]%elem_of_app; [specialize (Hlt _ Hin); lia|apply Hmore in Hin; lia].
  - exists (more ++ more2). by rewrite app_assoc.
Qed.

Lemma claimName_ok es by_ name_of m ei fd : es !! ei = Some fd ->
  (forall i, Desc i = fd -> By i = by_ -> by_flat_name (name_of fd) i -> evidence i) ->
  grows es m (claimName dir by_ name_of m (ei, fd)).
Proof.
  intros Hes Hev taken Hm. unfold claimName. destruct (flatFiles dir !! name_of fd) as [de|] eqn:E; [|by apply grows_refl].
  case_decide as Hc; [by apply grows_refl|]. exists [ei]. apply Decidable.not_or in Hc as [H1 H2]. apply claim_step_ok; try done.
  - apply Hev; [done|done|]. split; [done|]. exists de. by split.
  - intros n [= <-]. done.
Qed.

(** ** Indices *)
Definition index_ok {K} `{Countable K} (es : list FileDesc) (key : FileDesc -> option K) (m : matching) (idx : gmap K nat) : Prop :=
  forall k ei, idx !! k = Some ei -> ei ∉ claimedEntry m /\ exists fd, es !! ei = Some fd /\ key fd = Some k.

Lemma index_by_ok {K} `{Countable K} es (key : FileDesc -> option K) m : index_ok es key m (index_by key m (manifest_of es)).
Proof.
  unfold index_by. set (step := fun (acc : gmap K nat * gset K) (e : nat * FileDesc) => _).
  assert (forall l acc, (forall e, e ∈ l -> es !! fst e = Some (snd e)) -> index_ok es key m (fst acc) -> index_ok es key m (fst (foldl step acc l))) as Hf.
  { induction l as [|[ei fd] l IH]; intros acc Hl Hacc; [done|]. cbn [foldl]. apply IH; [intros e He; apply Hl; by right|].
    unfold step. case_decide as Hc; [done|]. destruct (key fd) as [k|] eqn:Ek; [|done]. destruct (fst acc !! k); [done|].
    intros k' ei' Hi. cbn [fst] in Hi. apply lookup_insert_Some in Hi as [[<- <-]|[_ Hi]]; [|by apply Hacc]. split; [done|]. exists fd. split; [|done].
    apply (Hl (ei, fd)). left. }
  specialize (Hf (manifest_of es) (∅, ∅)). destruct (foldl step (∅, ∅) (manifest_of es)) as [index ambiguous]. cbn in Hf.
  intros k ei [Hi _]%map_lookup_filter_Some. apply Hf; [|by intros ? ? ?%lookup_empty_Some|done].
  intros e [j Hj]%list_elem_of_lookup. apply manifest_lookup in Hj as [-> Hj]. done.
Qed.

(** A step of a pass by content. *)
Definition content_step {K} `{Countable K} (es : list FileDesc) (m : matching) (idx : gmap K nat) (r : matching * gmap K nat) : Prop :=
  r = (m, idx) \/ exists k ei i name, idx !! k = Some ei /\ es !! ei = Some (Desc i) /\ OnDisk i = name /\ name ∉ claimedFile m /\
    evidence i /\ r = (claim m (Some name) ei i, base.delete k idx).

Lemma content_fold {K} `{Countable K} es (key : FileDesc -> option K) (step : matching * gmap K nat -> list Z -> matching * gmap K nat) names :
  (forall m idx name, index_ok es key m idx -> content_step es m idx (step (m, idx) name)) ->
  forall m idx taken, matching_ok es m taken -> index_ok es key m idx ->
  exists more, matching_ok es (fst (foldl step (m, idx) names)) (taken ++ more).
Proof.
  intros Hs. induction names as [|name names IH]; intros m idx taken Hm Hi; [exists []; by rewrite app_nil_r|]. cbn [foldl].
  destruct (Hs m idx name Hi) as [-> | (k & ei & i & n & H1 & H2 & H3 & H4 & H5 & ->)]; [by apply IH|].
  destruct (Hi k ei H1) as [Hei (fd & Hfd & Hk)]. simplify_eq.
  destruct (IH (claim m (Some (OnDisk i)) ei i) (base.delete k idx) (taken ++ [ei])) as [more Hmore].
  - apply claim_step_ok; try done. by intros ? [= <-].
  - intros k' ei' [Hne Hk']%lookup_delete_Some. destruct (Hi k' ei' Hk') as [Hei' (fd' & Hfd' & Hkk)]. split; [|by exists fd'].
    cbn. rewrite elem_of_union, elem_of_singleton. intros [->|?]; [|done]. congruence.
  - exists ([ei] ++ more). by rewrite app_assoc.
Qed.

Lemma pass2_step es m idx name : index_ok es (fun fd => Some (Hash16k fd)) m idx -> content_step es m idx (pass2 dir (manifest_of es) (m, idx) name).
Proof.
  intros Hi. unfold pass2. case_decide as Hn; [by left|]. destruct (flatFiles dir !! name) as [de|] eqn:Ed; [|by left].
  destruct (de_data de) as [data|] eqn:Edata; [|by left]. destruct (idx !! _) as [ei|] eqn:Ei; [|by left].
  destruct (Hi _ _ Ei) as [_ (fd & Hfd & [= Hk])]. destruct (manifest_of es !! ei) as [e|] eqn:Em; cbn [fmap option_fmap option_map]; [|by left].
  apply manifest_lookup in Em as [_ Em]. assert (snd e = fd) as -> by congruence. destruct (size_differs fd (de_size de)) eqn:Es; [by left|].
  right. exists (ComputeHash16k data), ei, (mkIdentified name fd MatchHash16k false), name. split_and!; try done.
  split; [done|]. unfold size_differs in Es. destruct (de_size de) as [size|] eqn:Esz; [|done]. exists de, data, size. split_and!; try done.
  cbn. intros Hs. apply andb_false_iff in Es as [Es|Es]; [by apply bool_decide_eq_false in Es|]. by apply negb_false_iff, bool_decide_eq_true in Es.
Qed.

Lemma pass3_step es m idx name : index_ok es crc_key m idx -> content_step es m idx (pass3 dir (manifest_of es) (m, idx) name).
Proof.
  intros Hi. unfold pass3. case_decide as Hn; [by left|]. apply Decidable.not_or in Hn as [_ Hn]. destruct (flatFiles dir !! name) as [de|] eqn:Ed; [|by left].
  destruct (de_size de) as [size|] eqn:Esz; [|by left]. destruct (negb _); [by left|]. destruct (de_data de) as [data|] eqn:Edata; [|by left].
  destruct (idx !! _) as [ei|] eqn:Ei; [|by left]. destruct (Hi _ _ Ei) as [_ (fd & Hfd & Hk)].
  destruct (manifest_of es !! ei) as [e|] eqn:Em; cbn [fmap option_fmap option_map]; [|by left].
  apply manifest_lookup in Em as [_ Em]. assert (snd e = fd) as -> by congruence. unfold crc_key in Hk. case_decide as Hz; [done|].
  injection Hk as Hc Hs. apply Decidable.not_or in Hz as [Hz1 Hz2].
  right. exists (ChecksumIEEE data, size), ei, (mkIdentified name fd MatchCRC32 false), name. split_and!; try done.
  split; [done|]. exists de, data, size. cbn. split_and!; try done; congruence.
Qed.
End passes.

(** The result of identification, and the entries its matches took. *)
Lemma identify_ok c dir i : identify_entries c (Some dir) = Some i -> exists taken m,
  matching_ok dir (entries c) m taken /\ id_Files i = m_files m /\
  Unaccounted i = (snd <$> base.filter (fun e => fst e ∉ taken) (manifest_of (entries c))) ++ undescribed c /\
  Unreadable i = unreadable c /\ id_sets i = infos c.
Proof.
  unfold identify_entries. case_decide as He.
  { intros [= <-]. exists [], (mkMatching ∅ ∅ []). rewrite He. split_and!; try done. apply matching_start. }
  cbn [mbind option_bind]. set (es := entries c). fold (manifest_of es). set (names := sorted_names (base.filter (fun n => isIgnoredForIdentification n = false) _)).
  set (m0 := match root_lstat dir with Some _ => _ | None => _ end).
  assert (exists t, matching_ok dir es m0 t) as [t0 H0].
  { unfold m0. destruct (root_lstat dir) as [lstat|] eqn:Er; [|exists []; apply matching_start].
    destruct (pass0_ok dir es lstat es Er 0 (mkMatching ∅ ∅ []) []) as [t H]; [done|apply matching_start|by intros ei ?%elem_of_nil|].
    exists ([] ++ t). exact H. }
  assert (Forall (fun e => es !! fst e = Some (snd e)) (manifest_of es)) as Hman.
  { apply Forall_forall. intros e [j Hj]%list_elem_of_lookup. by apply manifest_lookup in Hj as [-> Hj]. }
  set (m1 := foldl (claimName dir MatchName _) m0 _). set (m2 := foldl (claimName dir MatchFlattenedName _) m1 _).
  assert (exists t, matching_ok dir es m2 t) as [t2 H2].
  { assert (grows dir es m0 m2) as Hg.
    { eapply grows_trans.
      - eapply (grows_fold dir es (claimName dir MatchName (fun fd => Base (FileName fd)))); [exact Hman|]. intros m [ei fd] Hes. apply claimName_ok; [done|].
        intros f <- Hby Hf. unfold evidence. rewrite Hby. by right.
      - eapply (grows_fold dir es (claimName dir MatchFlattenedName (fun fd => ReplaceAll (FileName fd) slash 95))); [exact Hman|].
        intros m [ei fd] Hes. apply claimName_ok; [done|]. intros f <- Hby Hf. unfold evidence. by rewrite Hby. }
    destruct (Hg _ H0) as [more H]. by eexists. }
  pose proof (content_fold dir es _ (pass2 dir (manifest_of es)) names (pass2_step dir es) m2 _ t2 H2 (index_by_ok es _ m2)) as [more3 H3].
  destruct (foldl (pass2 dir (manifest_of es)) _ names) as [m3 idx3]. cbn [fst] in H3.
  pose proof (content_fold dir es _ (pass3 dir (manifest_of es)) names (pass3_step dir es) m3 _ _ H3 (index_by_ok es _ m3)) as [more4 H4].
  destruct (foldl (pass3 dir (manifest_of es)) _ names) as [m4 idx4]. cbn [fst] in H4.
  intros [= <-]. eexists _, m4. split; [exact H4|]. split; [done|]. split; [|done]. cbn. f_equal. f_equal.
  apply list_filter_iff. intros e. by rewrite (mt_taken _ _ _ _ H4).
Qed.

(** Two positions of a list without duplicates after a partial map. *)
Lemma NoDup_omap_distinct {A B} (f : A -> option B) (l : list A) j k x y b : NoDup (omap f l) -> j <> k ->
  l !! j = Some x -> l !! k = Some y -> f x = f y -> f y = Some b -> False.
Proof.
  revert j k. induction l as [|a l IH]; intros j k Hnd Hjk Hj Hk Hxy Hb; [done|].
  assert (forall i z, l !! i = Some z -> f z = Some b -> b ∈ omap f l) as Hin.
  { intros i z Hi Hz. apply list_elem_of_omap. exists z. split; [by eapply list_elem_of_lookup_2|done]. }
  cbn [omap list_omap] in Hnd. destruct j as [|j], k as [|k]; cbn in Hj, Hk; [done| | |].
  - simplify_eq. rewrite Hxy, Hb in Hnd. apply NoDup_cons in Hnd as [Hn _]. by apply Hn, (Hin k y).
  - simplify_eq. rewrite Hb in Hnd. apply NoDup_cons in Hnd as [Hn _]. apply Hn, (Hin j x); [done|congruence].
  - assert (NoDup (omap f l)) as Hnd' by (destruct (f a); [by apply NoDup_cons in Hnd as [_ ?]|done]).
    apply (IH j k); try done. congruence.
Qed.

(** ** The verdict *)
Definition delivered_good (files : list AssembledFile) (f : Identified) : Prop :=
  exists d af, match_ (newDeliveredIndex files) (OnDisk f) = Some d /\ files !! d = Some af /\
  lengthDiffers f = false /\ af_CRC32 af = FileCRC32 (Desc f) /\ FileCRC32 (Desc f) <> 0.

(** Nothing missing, nothing unchecked, nothing different. *)
Definition clean (r : CRCVerifyResult) : Prop := NoCRC r = 0 /\ Mismatched r = 0 /\ Unverified r = 0.

Definition verdict_total (r : CRCVerifyResult) : Z := Checked r + NoCRC r + Unverified r.

(** How one file moves the counts. *)
Lemma verify_one_spec files f r matched : let r' := fst (verify_one files (newDeliveredIndex files) (r, matched) f) in
  verdict_total r' = verdict_total r + 1 /\ Checked r' - Matched r' - Mismatched r' = Checked r - Matched r - Mismatched r /\
  NoCRC r <= NoCRC r' /\ Mismatched r <= Mismatched r' /\ Unverified r <= Unverified r' /\
  (NoCRC r' = NoCRC r /\ Mismatched r' = Mismatched r /\ Unverified r' = Unverified r <-> delivered_good files f).
Proof.
  unfold verify_one, verdict_total, delivered_good. destruct (match_ _ (OnDisk f)) as [d|] eqn:Ed.
  2:{ cbn. split_and!; try lia. split; [lia|]. intros (d & af & H & _). congruence. }
  destruct (lengthDiffers f) eqn:El.
  { cbn. split_and!; try lia. split; [lia|]. intros (d' & af & _ & _ & H & _). done. }
  case_decide as Hz.
  { cbn. split_and!; try lia. split; [lia|]. intros (d' & af & H1 & H2 & _ & H3 & H4). injection H1 as <-.
    rewrite H2 in Hz. cbn in Hz. destruct Hz; congruence. }
  apply not_or in Hz as [Hz1 Hz2]. destruct (files !! d) as [af|] eqn:Ef; [|done]. cbn in Hz1 |- *.
  case_bool_decide as Hc; cbn; (split_and!; try lia).
  - split; [|lia]. intros _. by exists d, af.
  - split; [lia|]. intros (d' & af' & H1 & H2 & _ & H3 & H4). injection H1 as <-. congruence.
Qed.

Lemma verify_fold files l : forall r matched, let r' := fst (foldl (verify_one files (newDeliveredIndex files)) (r, matched) l) in
  verdict_total r' = verdict_total r + Z.of_nat (length l) /\ Checked r' - Matched r' - Mismatched r' = Checked r - Matched r - Mismatched r /\
  NoCRC r <= NoCRC r' /\ Mismatched r <= Mismatched r' /\ Unverified r <= Unverified r' /\
  (NoCRC r' = NoCRC r /\ Mismatched r' = Mismatched r /\ Unverified r' = Unverified r <-> Forall (delivered_good files) l).
Proof.
  induction l as [|f l IH]; intros r matched; [cbn; split_and!; try lia; split; [constructor|done]|]. cbn [foldl length].
  pose proof (verify_one_spec files f r matched) as H1. destruct (verify_one _ _ (r, matched) f) as [r1 m1]. cbn [fst] in H1.
  specialize (IH r1 m1). cbv zeta in IH, H1 |- *. destruct H1 as (A1 & A2 & A3 & A4 & A5 & A6). destruct IH as (B1 & B2 & B3 & B4 & B5 & B6).
  split_and!; try lia. rewrite Forall_cons, <- A6, <- B6. lia.
Qed.

Lemma verdict_spec i files : let r := verifyIdentified i files in
  verdict_total r = Z.of_nat (length (id_Files i) + length (Unaccounted i)) /\ Checked r = Matched r + Mismatched r /\
  (clean r <-> Unaccounted i = [] /\ Forall (delivered_good files) (id_Files i)).
Proof.
  unfold verifyIdentified. pose proof (verify_fold files (id_Files i) (mkVerify 0 0 0 0 0 0 [] [] []) ∅) as H.
  destruct (foldl _ _ _) as [r m]. cbn [fst] in H. unfold verdict_total, clean in *. cbn in *. destruct H as (H1 & H2 & H3 & H4 & H5 & H6).
  split; [lia|]. split; [lia|]. rewrite <- H6. destruct (Unaccounted i); cbn; [split; [split; [done|lia]|lia]|split; [lia|by intros [? _]]].
Qed.

(** ** Collecting the sets *)
Section collect.
Variable NFC : list Z -> list Z.
Variable read : list Z -> option (list Z).
Variable opts : ParseOptions.

Definition at_ok (g : collecting) : Prop :=
  forall k i, at_ g !! k = Some i -> exists e, entries (g_c g) !! i = Some e /\ FileID e = snd k.

(** What collecting never loses. *)
Record keeps_more (g g' : collecting) : Prop := {
  km_at : forall k, is_Some (at_ g !! k) -> is_Some (at_ g' !! k);
  km_declared : forall k, k ∈ declared g -> k ∈ declared g';
  km_unreadable : forall n, n ∈ unreadable (g_c g) -> n ∈ unreadable (g_c g');
}.
Lemma keeps_more_refl g : keeps_more g g.
Proof. by split. Qed.
Lemma keeps_more_trans g1 g2 g3 : keeps_more g1 g2 -> keeps_more g2 g3 -> keeps_more g1 g3.
Proof. intros [A1 A2 A3] [B1 B2 B3]. split; auto. Qed.

Lemma add_entry_ok info name g fd : at_ok g ->
  at_ok (add_entry info name g fd) /\ keeps_more g (add_entry info name g fd) /\ is_Some (at_ (add_entry info name g fd) !! (info, FileID fd)).
Proof.
  intros Hg. unfold add_entry. change (FileID (set_Set fd name)) with (FileID fd). destruct (at_ g !! (info, FileID fd)) as [i|] eqn:Ea.
  - destruct (entries (g_c g) !! i) as [old|] eqn:Eo; [|split; [done|split; [apply keeps_more_refl|by eexists]]].
    destruct (_ && _); [|split; [done|split; [apply keeps_more_refl|by eexists]]]. split; [|split; [by split|by eexists]].
    intros k j Hj. cbn in Hj |- *. destruct (Hg k j Hj) as (e & He & Hid). destruct (decide (j = i)) as [->|Hne].
    + exists (set_Set fd name). split; [apply list_lookup_insert_eq; by eapply lookup_lt_Some|].
      destruct (Hg (info, FileID fd) i Ea) as (e' & He' & Hid'). cbn in Hid' |- *. congruence.
    + exists e. by rewrite list_lookup_insert_ne.
  - split; [|split; [split; cbn; try done|]].
    + intros k j. cbn. intros [[<- <-]|[_ Hj]]%lookup_insert_Some.
      * exists (set_Set fd name). split; [by rewrite lookup_app_r, Nat.sub_diag by lia|done].
      * destruct (Hg k j Hj) as (e & He & Hid). exists e. split; [by apply lookup_app_l_Some|done].
    + intros k Hk. destruct (decide (k = (info, FileID fd))) as [->|]; [rewrite lookup_insert_eq; by eexists|by rewrite lookup_insert_ne].
    + cbn. rewrite lookup_insert_eq. by eexists.
Qed.

Lemma add_entries_ok info name l : forall g, at_ok g -> let g' := foldl (add_entry info name) g l in
  at_ok g' /\ keeps_more g g' /\ forall fd, fd ∈ l -> is_Some (at_ g' !! (info, FileID fd)).
Proof.
  induction l as [|fd l IH]; intros g Hg; [split; [done|]; split; [apply keeps_more_refl|by intros fd ?%elem_of_nil]|]. cbn [foldl].
  destruct (add_entry_ok info name g fd Hg) as (A1 & A2 & A3). destruct (IH _ A1) as (B1 & B2 & B3). cbv zeta.
  split; [done|]. split; [by eapply keeps_more_trans|]. intros fd' [->|Hin]%elem_of_cons; [|by apply B3]. by apply (km_at _ _ B2).
Qed.

Lemma add_declareds_ok info l : forall g, at_ok g -> let g' := foldl (add_declared info) g l in
  at_ok g' /\ keeps_more g g' /\ forall id, id ∈ l -> (info, id) ∈ declared g'.
Proof.
  induction l as [|id l IH]; intros g Hg; [split; [done|]; split; [apply keeps_more_refl|by intros id ?%elem_of_nil]|]. cbn [foldl].
  assert (at_ok (add_declared info g id) /\ keeps_more g (add_declared info g id) /\ (info, id) ∈ declared (add_declared info g id)) as (A1 & A2 & A3).
  { unfold add_declared. case_decide as Hd; [split; [done|]; split; [apply keeps_more_refl|done]|]. split; [done|]. split; [split; cbn; try done|].
    - intros k Hk. apply elem_of_app. by left.
    - cbn. apply elem_of_app. right. by left. }
  destruct (IH _ A1) as (B1 & B2 & B3). cbv zeta. split; [done|]. split; [by eapply keeps_more_trans|].
  intros id' [->|Hin]%elem_of_cons; [|by apply B3]. by apply (km_declared _ _ B2).
Qed.

(** What became of one set. *)
Definition set_done (g : collecting) (s : PSet) : Prop :=
  Name s ∈ unreadable (g_c g) \/
  exists parsed info, parse_path NFC read opts false (ParseFile s) = Some parsed /\
    (forall fd, fd ∈ Files parsed -> is_Some (at_ g !! (info, FileID fd))) /\ (forall id, id ∈ RecoveryFileIDs parsed -> (info, id) ∈ declared g).

Lemma set_done_more g g' s : keeps_more g g' -> set_done g s -> set_done g' s.
Proof.
  intros [K1 K2 K3] [H|(parsed & info & H1 & H2 & H3)]; [left; auto|right]. exists parsed, info. split_and!; auto.
Qed.

Lemma skip_ok g s : at_ok g -> at_ok (skip_set g s) /\ keeps_more g (skip_set g s) /\ set_done (skip_set g s) s.
Proof.
  intros Hg. split; [done|]. split; [split; cbn; try done; intros n Hn; apply elem_of_app; by left|]. left. cbn. apply elem_of_app. right. by left.
Qed.

Lemma collect_set_ok g s : at_ok g ->
  at_ok (collect_set NFC read opts g s) /\ keeps_more g (collect_set NFC read opts g s) /\ set_done (collect_set NFC read opts g s) s.
Proof.
  intros Hg. unfold collect_set. case_decide; [by apply skip_ok|]. destruct (parse_path _ _ _ _ _) as [parsed|] eqn:Ep; [|by apply skip_ok].
  destruct (describesAFile parsed); cbn [negb]; [|by apply skip_ok]. set (info := (SetID parsed, SliceSize parsed)).
  set (start := match owner g !! info with Some _ => _ | None => _ end).
  assert (at_ok (snd start) /\ keeps_more g (snd start)) as [S1 S2].
  { unfold start. destruct (owner g !! info); cbn; [split; [done|apply keeps_more_refl]|]. split; [exact Hg|]. by split. }
  destruct start as [name g1]. cbn [snd] in *. destruct (add_entries_ok info name (Files parsed) g1 S1) as (A1 & A2 & A3).
  destruct (add_declareds_ok info (RecoveryFileIDs parsed) _ A1) as (B1 & B2 & B3). split; [done|]. split; [eauto using keeps_more_trans|].
  right. exists parsed, info. split; [done|]. split; [|done]. intros fd Hin. by apply (km_at _ _ B2), A3.
Qed.

Lemma collect_sets_ok sets : forall g, at_ok g -> let g' := foldl (collect_set NFC read opts) g sets in
  at_ok g' /\ keeps_more g g' /\ forall s, s ∈ sets -> set_done g' s.
Proof.
  induction sets as [|s sets IH]; intros g Hg; [split; [done|]; split; [apply keeps_more_refl|by intros s ?%elem_of_nil]|]. cbn [foldl].
  destruct (collect_set_ok g s Hg) as (A1 & A2 & A3). destruct (IH _ A1) as (B1 & B2 & B3). cbv zeta.
  split; [done|]. split; [by eapply keeps_more_trans|]. intros s' [->|Hin]%elem_of_cons; [|by apply B3]. by eapply set_done_more.
Qed.

(** Every file a readable set describes or lists is an entry, or is recorded
    as undescribed. *)
Lemma collect_complete sets s : s ∈ sets -> let c := collectManifests NFC read opts sets in
  Name s ∈ unreadable c \/
  exists parsed, parse_path NFC read opts false (ParseFile s) = Some parsed /\
    forall id, id ∈ (FileID <$> Files parsed) ++ RecoveryFileIDs parsed ->
      (exists e, e ∈ entries c /\ FileID e = id) \/ (exists u, u ∈ undescribed c /\ FileID u = id).
Proof.
  intros Hs. unfold collectManifests. destruct (collect_sets_ok sets (mkCollecting (mkCollected [] [] [] []) ∅ ∅ [])) as (A1 & _ & A3).
  { intros k i H. cbn in H. by apply lookup_empty_Some in H. }
  specialize (A3 s Hs). set (g := foldl _ _ sets) in *. cbv zeta. cbn. destruct A3 as [H|(parsed & info & H1 & H2 & H3)]; [by left|right].
  exists parsed. split; [done|]. assert (forall k, is_Some (at_ g !! k) -> exists e, e ∈ entries (g_c g) /\ FileID e = snd k) as Hat.
  { intros k [i Hi]. destruct (A1 k i Hi) as (e & He & Hid). exists e. split; [by eapply list_elem_of_lookup_2|done]. }
  intros id [(fd & -> & Hfd)%list_elem_of_fmap|Hid]%elem_of_app.
  - left. apply (Hat (info, FileID fd)). by apply H2.
  - destruct (at_ g !! (info, id)) as [i|] eqn:Ea; [left; apply (Hat (info, id)); by eexists|right].
    exists (undescribed_desc g (info, id)). split; [|done]. apply list_elem_of_fmap_2, list_elem_of_filter. split; [done|by apply H3].
Qed.
End collect.

(** ** Properties *)


(** C27: a clean verdict is a guarantee.  When an assessment finds nothing
    unchecked, nothing different and nothing unverified, and no set was
    unreadable, every file that any of the sets describes or lists was
    matched to a delivered file of the right length whose checksum is the one
    the set records.  This is what lets a job skip PAR2 repair. *)
Theorem clean_assessment_covers NFC read opts sets dir files a :
  Assess NFC read opts sets dir files = Some a -> clean (a_CRC a) -> Unreadable (a_ID a) = [] ->
  forall s, s ∈ sets -> exists parsed, parse_path NFC read opts false (ParseFile s) = Some parsed /\
  forall id, id ∈ (FileID <$> Files parsed) ++ RecoveryFileIDs parsed ->
  exists f, f ∈ id_Files (a_ID a) /\ FileID (Desc f) = id /\ delivered_good files f.
Proof.
  unfold Assess, Identify. intros Ha Hclean Hun s Hs.
  pose proof (collect_complete NFC read opts sets s Hs) as Hcol. cbv zeta in Hcol.
  set (c := collectManifests NFC read opts sets) in *. clearbody c.
  destruct (identify_entries c dir) as [i|] eqn:Ei; [|done]. injection Ha as <-. cbn in Hclean, Hun |- *.
  destruct (verdict_spec i files) as (_ & _ & Hv). apply Hv in Hclean as [Hunacc Hgood].
  assert (Unreadable i = unreadable c /\ (entries c <> [] -> exists d, dir = Some d)) as [Hu Hdir].
  { unfold identify_entries in Ei. case_decide; [by injection Ei as <-|]. destruct dir as [d|]; [|done]. split; [|by exists d].
    destruct (identify_ok c d i) as (? & ? & _ & _ & _ & H' & _); [|done]. unfold identify_entries. by rewrite decide_False. }
  destruct Hcol as [Hbad|(parsed & Hp & Hids)].
  { rewrite Hu in Hun. rewrite Hun in Hbad. by apply elem_of_nil in Hbad. }
  exists parsed. split; [done|]. intros id Hid.
  assert (forall x, x ∈ undescribed c -> False) as Hnone.
  { intros x Hx. unfold identify_entries in Ei. case_decide as He.
    - injection Ei as <-. cbn in Hunacc. rewrite Hunacc in Hx. by apply elem_of_nil in Hx.
    - destruct (Hdir He) as [d ->]. destruct (identify_ok c d i) as (? & ? & _ & _ & H' & _); [unfold identify_entries; by rewrite decide_False|].
      rewrite Hunacc in H'. symmetry in H'. apply app_eq_nil in H' as [_ H']. rewrite H' in Hx. by apply elem_of_nil in Hx. }
  destruct (Hids id Hid) as [(e & He & Heid)|(x & Hx & _)]; [|by destruct (Hnone x Hx)].
  destruct (Hdir ltac:(intros E; rewrite E in He; by apply elem_of_nil in He)) as [d ->].
  destruct (identify_ok c d i Ei) as (taken & m & [_ _ M3 _] & E1 & E2 & _). apply list_elem_of_lookup in He as [ei Hei].
  assert (ei ∈ taken) as Hin.
  { destruct (decide (ei ∈ taken)) as [|Hn]; [done|exfalso]. rewrite Hunacc in E2. symmetry in E2. apply app_eq_nil in E2 as [E2 _].
    apply fmap_nil_inv in E2. assert ((ei, e) ∈ base.filter (fun x => fst x ∉ taken) (manifest_of (entries c))) as H'.
    { apply list_elem_of_filter. split; [done|]. apply list_elem_of_lookup. exists ei. unfold manifest_of. by rewrite list_lookup_imap, Hei. }
    rewrite E2 in H'. by apply elem_of_nil in H'. }
  apply list_elem_of_lookup in Hin as [k Hk]. destruct (Forall2_lookup_l _ _ _ _ _ M3 Hk) as (f & Hf & Hdesc & _). rewrite <- E1 in Hf.
  exists f. split; [by eapply list_elem_of_lookup_2|]. split; [congruence|]. by eapply Forall_lookup_1 in Hgood.
Qed.

(** ** Witnesses *)

(** Two entries, one found by its name and one by its first bytes; a third
    is missing. *)
Definition ex_desc (id : Z) (name data : list Z) : FileDesc :=
  mkFileDesc (replicate 16 id) name (md5 data) (md5 data) (Z.of_nat (length data)) (ChecksumIEEE data) false (bs "set") false.
Definition ex_collected : collected :=
  mkCollected [ex_desc 1 (bs "a.bin") [1; 2; 3]; ex_desc 2 (bs "sub/b.bin") [4; 5]; ex_desc 3 (bs "c.bin") [6]] [] [(replicate 16 9, 4)] [].
Definition ex_file (data : list Z) : dirent := mkDirent (Some (Z.of_nat (length data))) (Some data).
Definition ex_dir : jobdir :=
  mkJobdir (<[bs "a.bin" := ex_file [1; 2; 3]]> (<[bs "xyzzy" := ex_file [4; 5]]> (<[bs "x.nfo" := ex_file [6]]> ∅))) None.


(** The set of the round trip, its two files delivered under other names. *)
Definition ex_par2 : list Z := write_set 4 (replicate 16 9) ex_sources.
Definition ex_read (path : list Z) : option (list Z) := if decide (path = bs "s.par2") then Some ex_par2 else None.
Definition ex_sets : list PSet := FindPar2Files id ex_read DefaultParseOptions [bs "s.par2"; bs "readme.nfo"].
Definition ex_jobdir : jobdir :=
  mkJobdir (<[bs "a.bin" := ex_file [1; 2; 3; 4; 5; 6]]> (<[bs "0f3a" := ex_file [7]]> ∅)) None.
Definition ex_delivered : list AssembledFile :=
  [mkAssembled (bs "a.bin") (ChecksumIEEE [1; 2; 3; 4; 5; 6]); mkAssembled (bs "0f3a") (ChecksumIEEE [7])].

Lemma clean_assessment_covers_witness : exists a, Assess id ex_read DefaultParseOptions ex_sets (Some ex_jobdir) ex_delivered = Some a /\
  Renames a = [mkRename (bs "0f3a") (bs "b.bin")] /\
  forall s, s ∈ ex_sets -> exists parsed, parse_path id ex_read DefaultParseOptions false (ParseFile s) = Some parsed /\
  forall id, id ∈ (FileID <$> Files parsed) ++ RecoveryFileIDs parsed ->
  exists f, f ∈ id_Files (a_ID a) /\ FileID (Desc f) = id /\ delivered_good ex_delivered f.
Proof.
  destruct (Assess id ex_read DefaultParseOptions ex_sets (Some ex_jobdir) ex_delivered) as [a|] eqn:Ea; [|vm_compute in Ea; discriminate Ea].
  exists a. split; [done|]. assert (Some a = Some a) as Ha by done. rewrite <- Ea in Ha at 1. clear Ea. split.
  - vm_compute in Ha. by injection Ha as <-.
  - apply (clean_assessment_covers id ex_read DefaultParseOptions ex_sets (Some ex_jobdir) ex_delivered a Ha); vm_compute in Ha; by injection Ha as <-.
Defined.

(** ** Two sets naming one path *)

(** Pass 0 takes a file for every entry that names it: the directory has one
    file, and both entries are accounted for by it. *)
Example one_file_two_entries : forall e1 e2,
  e1 = ex_desc 1 (bs "sub/b.bin") [4; 5] -> e2 = ex_desc 2 (bs "sub/b.bin") [6; 7] ->
  option_map (fun i => (OnDisk <$> id_Files i, Unaccounted i))
    (identify_entries (mkCollected [e1; e2] [] [] []) (Some (mkJobdir ∅ (Some (fun _ => Some (true, 2)))))) =
  Some ([bs "sub/b.bin"; bs "sub/b.bin"], []).
Proof. intros e1 e2 -> ->. vm_compute. reflexivity. Qed.

(** Two delivered files that two sets call by one name are both moved to it:
    both moves are reported made, and one file's contents are gone. *)
Example renames_collide :
  let d1 := ex_desc 1 (bs "movie.mkv") [1; 2; 3] in
  let d2 := ex_desc 2 (bs "movie.mkv") [4; 5] in
  let dir := mkJobdir (<[bs "aaa" := ex_file [1; 2; 3]]> (<[bs "bbb" := ex_file [4; 5]]> ∅)) None in
  let root := mkFsroot (<[bs "aaa" := mkFinfo true [1; 2; 3]]> (<[bs "bbb" := mkFinfo true [4; 5]]> ∅)) (fun _ => true) (fun _ _ => true) in
  option_map (fun i => let '(r, made) := ApplyRenames root (assess_identified i []) in (map_to_list (tree r), length made))
    (identify_entries (mkCollected [d1; d2] [] [] []) (Some dir)) =
  Some ([(bs "movie.mkv", mkFinfo true [4; 5])], 2%nat).
Proof. vm_compute. reflexivity. Qed.
