(* ===== verification/Decoder.v ===== *)
(** * The yEnc decoder ([internal/decoder/decoder.go])

    An article body is a list of bytes.  The decoder's output buffers are
    values; of the memory behind them the model keeps the capacity and the
    origin (the caller's scratch, a pool, or an array that [append] grew),
    which decide what is given back to a pool.  A [sync.Pool] may forget a
    buffer at any time. *)
From S2P Require Import Prelude Crc GoBytes.
From stdpp Require Import base numbers list strings.
From Stdlib Require Import ZArith Lia.
Local Open Scope Z_scope.

Inductive decErr : Type :=
| ErrNotYEnc
| errMalformed
| ErrCRCMismatch
| errMissingTrailer
| errSizeMismatch
| ErrBodyTooLarge
| ErrNotUU.
#[export] Instance decErr_eq_dec : EqDecision decErr.
Proof. solve_decision. Defined.

Definition maxDecodeSize : Z := 10 * 1024 * 1024.
Definition maxPartOffset : Z := Z.shiftl 1 48.

(** ** Buffer classes *)
Definition minBufferClass : Z := 16 * 1024.
Definition minBufferClassShift : Z := 14.
Definition numBufferClasses : nat := 38.

(** [bits.Len64]. *)
Definition Len64 (x : Z) : Z := if decide (x = 0) then 0 else Z.log2 x + 1.

Definition bufferClass (n : Z) : Z * Z :=
  if decide (n <= minBufferClass) then (0, minBufferClass)
  else
    let k := Len64 (n - 1) - 1 in
    let step := Z.shiftl 1 (k - 2) in
    let size := (n + step - 1) `quot` step * step in
    ((k - minBufferClassShift) * 4 + size `quot` step - 4, size).

Definition clampBufferRequest (capReq : Z) : Z := Z.max (Z.min capReq maxDecodeSize) 1.

Definition BufferCap (capReq : Z) : Z := snd (bufferClass (clampBufferRequest capReq)).

(** [decodePools]: the capacities of the buffers each pool holds. *)
Notation pools := (list (list Z)) (only parsing).
Definition emptyPools : pools := replicate numBufferClasses [].

(** [GetBuffer]: the capacity of the buffer returned and the pools after it.
    [pick] is the buffer the pool hands out, [None] when it hands out none.
    [None] is an index out of range. *)
Definition GetBuffer (ps : pools) (capReq : Z) (pick : option nat) : option (Z * pools) :=
  let '(idx, size) := bufferClass (clampBufferRequest capReq) in
  if decide (idx < 0) then None
  else
    p ← ps !! Z.to_nat idx;
    Some (match i ← pick; c ← p !! i; Some (c, base.delete i p) with
          | Some (c, p') => (c, <[Z.to_nat idx := p']> ps)
          | None => (size, ps)
          end).

Definition PutBuffer (ps : pools) (c : Z) : option pools :=
  if decide (c < minBufferClass \/ c > maxDecodeSize) then Some ps
  else
    let '(idx, size) := bufferClass c in
    if decide (size <> c) then Some ps
    else if decide (idx < 0) then None
    else p ← ps !! Z.to_nat idx; Some (<[Z.to_nat idx := c :: p]> ps).

(** ** Decoding the body *)
Definition CR : Z := 13.
Definition LF : Z := 10.
Definition EQ : Z := 61.
Definition SP : Z := 32.

Definition specialLUT (b : Z) : bool := (b =? CR) || (b =? LF) || (b =? EQ).

Fixpoint indexSpecial (b : list Z) : option nat :=
  match b with
  | [] => None
  | c :: b => if specialLUT c then Some 0%nat else S <$> indexSpecial b
  end.

Definition sub42 (c : Z) : Z := u8 (c - 42).

(** The two loops of [sub42Span]: eight bytes at a time, then the rest. *)
Fixpoint sub42_loop (src : list Z) : list Z :=
  match src with
  | a0 :: a1 :: a2 :: a3 :: a4 :: a5 :: a6 :: a7 :: src =>
      sub42 a0 :: sub42 a1 :: sub42 a2 :: sub42 a3 :: sub42 a4 :: sub42 a5 :: sub42 a6 :: sub42 a7
      :: sub42_loop src
  | _ => sub42 <$> src
  end.

Definition sub42Span (dst src : list Z) : list Z := dst ++ sub42_loop src.

(** The loop of [decodeBody]: every round consumes a byte, so the fuel is the
    length of what remains. *)
Fixpoint decode_loop (fuel : nat) (escaped : bool) (remaining out : list Z) : list Z :=
  match fuel with
  | O => out
  | S fuel =>
      if decide (remaining = []) then out
      else
        match (if escaped then Some 0%nat else indexSpecial remaining) with
        | None => sub42Span out remaining
        | Some next =>
            let out := if decide (0 < next)%nat then sub42Span out (take next remaining) else out in
            let remaining := drop next remaining in
            match remaining with
            | [] => out
            | c :: remaining =>
                if (c =? CR) || (c =? LF) then decode_loop fuel escaped remaining out
                else if escaped then decode_loop fuel false remaining (out ++ [u8 (c - 106)])
                else if c =? EQ then decode_loop fuel true remaining out
                else decode_loop fuel escaped remaining (out ++ [u8 (c - 42)])
            end
        end
  end.

(** Where an output buffer's array comes from. *)
Inductive backing : Type :=
| Scratch (cap : Z)
| Pooled (cap : Z)
| Grown.

(** The capacity [decodeBody] asks for. *)
Definition decode_capacity (encoded : list Z) (sizeHint : Z) : Z :=
  let maxCap := Z.min (Z.of_nat (length encoded)) maxDecodeSize in
  if decide (sizeHint <= 0 \/ sizeHint > maxCap) then maxCap else sizeHint.

Definition out_buffer (scratch : option Z) (capacity : Z) : backing :=
  match scratch with
  | Some c => if decide (c >= capacity) then Scratch c else Pooled (BufferCap capacity)
  | None => Pooled (BufferCap capacity)
  end.

(** [append] allocates once the bytes do not fit. *)
Definition after_append (b : backing) (n : nat) : backing :=
  match b with
  | Scratch c | Pooled c => if decide (Z.of_nat n <= c) then b else Grown
  | Grown => Grown
  end.

(** [scratch] is the caller's buffer's capacity, [None] for nil. *)
Definition decodeBody (encoded : list Z) (sizeHint : Z) (scratch : option Z) : list Z * Z * backing :=
  let b := out_buffer scratch (decode_capacity encoded sizeHint) in
  let out := decode_loop (length encoded) false encoded [] in
  (out, ChecksumIEEE out, after_append b (length out)).

(** ** Header and trailer lines *)
Record yencHeader : Type := mkHeader {
  h_size : Z;
  h_offset : Z;
  h_name : list Z;
  h_isPart : bool;
  h_hasYPart : bool;
}.

Record yencTrailer : Type := mkTrailer { t_size : Z; t_crc : Z; t_valid : bool }.

Record Article : Type := mkArticle {
  Filename : list Z;
  Offset : Z;
  HasOffset : bool;
  TotalSize : Z;
  Data : list Z;
  CRC : Z;
}.
Definition zeroArticle : Article := mkArticle [] 0 false 0 [] 0.

Definition latin1ToUTF8 (b : list Z) : list Z :=
  let isASCII := negb (existsb (fun c => bool_decide (c >= 128)) b) in
  if isASCII then b
  else flat_map (fun c => if decide (c < 128) then [c]
                          else [Z.lor 0xC0 (Z.shiftr c 6); Z.lor 0x80 (Z.land c 0x3F)]) b.

Fixpoint skip_spaces (rest : list Z) : list Z :=
  match rest with
  | b :: rest' => if b =? SP then skip_spaces rest' else rest
  | [] => []
  end.

(** The loop of [parseKeyValues]: [fn] sees each pair in order.  Every round
    consumes an [=]. *)
Fixpoint kv_loop {A} (fuel : nat) (fn : A -> list Z -> list Z -> A) (rest : list Z) (a : A) : A :=
  match fuel with
  | O => a
  | S fuel =>
      let rest := skip_spaces rest in
      match IndexByte rest EQ with
      | None => a
      | Some eq =>
          let key := TrimRight (take eq rest) [SP] in
          let rest := drop (eq + 1) rest in
          if decide (key = bs "name") then fn a key (latin1ToUTF8 (TrimRight rest [SP; 9; CR; LF; 0]))
          else
            match IndexByte rest SP with
            | None => fn a key (TrimRight rest [CR; LF])
            | Some nextSp => kv_loop fuel fn (drop (nextSp + 1) rest) (fn a key (take nextSp rest))
            end
      end
  end.

Definition parseKeyValues {A} (line : list Z) (fn : A -> list Z -> list Z -> A) (a : A) : A :=
  match Cut line SP with
  | None => a
  | Some (_, after) => kv_loop (S (length after)) fn after a
  end.

(** The visitor of the [=ybegin] line. *)
Definition ybegin_field (h : yencHeader) (k v : list Z) : yencHeader :=
  if decide (k = bs "size") then
    match ParseInt v with
    | Some n => mkHeader n (h_offset h) (h_name h) (h_isPart h) (h_hasYPart h)
    | None => h
    end
  else if decide (k = bs "name") then mkHeader (h_size h) (h_offset h) v (h_isPart h) (h_hasYPart h)
  else if decide (k = bs "part") then
    if decide (v <> []) then mkHeader (h_size h) (h_offset h) (h_name h) true (h_hasYPart h) else h
  else h.

(** The visitor of the [=ypart] line: [beginVal] and [beginBad]. *)
Definition ypart_field (b : Z * bool) (k v : list Z) : Z * bool :=
  if decide (k = bs "begin") then
    match ParseInt v with
    | None => (fst b, true)
    | Some n => (n, snd b)
    end
  else b.

Definition parseHeader (body : list Z) : result decErr (yencHeader * nat) :=
  match Index body (bs "=ybegin") with
  | None => Err ErrNotYEnc
  | Some start =>
      let body := drop start body in
      match IndexByte body LF with
      | None => Err errMalformed
      | Some ybeginEnd =>
          let hdr := parseKeyValues (take ybeginEnd body) ybegin_field (mkHeader 0 0 [] false false) in
          let bodyStart := (start + ybeginEnd + 1)%nat in
          let rest := drop (ybeginEnd + 1) body in
          if HasPrefix rest (bs "=ypart") then
            match IndexByte rest LF with
            | None => Err errMalformed
            | Some ypartEnd =>
                let '(beginVal, beginBad) := parseKeyValues (take ypartEnd rest) ypart_field (0, false) in
                if decide (beginBad = true \/ beginVal < 0 \/ beginVal > maxPartOffset) then Err errMalformed
                else
                  let offset := if decide (beginVal > 0) then beginVal - 1 else h_offset hdr in
                  Ok (mkHeader (h_size hdr) offset (h_name hdr) true true, (bodyStart + (ypartEnd + 1))%nat)
            end
          else Ok (hdr, bodyStart)
      end
  end.

(** The state of [parseTrailer]'s visitor. *)
Record trailerScan : Type := mkScan { s_trailer : yencTrailer; s_hasSize : bool; s_err : bool }.

(** The [crc32] and [pcrc32] cases. *)
Definition crc_field (s : trailerScan) (v : list Z) : trailerScan :=
  match ParseUintHex32 v with
  | Some n => mkScan (mkTrailer (t_size (s_trailer s)) n true) (s_hasSize s) (s_err s)
  | None => mkScan (s_trailer s) (s_hasSize s) true
  end.

Definition yend_field (isPart : bool) (s : trailerScan) (k v : list Z) : trailerScan :=
  if decide (k = bs "size") then
    match ParseInt v with
    | Some n => mkScan (mkTrailer n (t_crc (s_trailer s)) (t_valid (s_trailer s))) true (s_err s)
    | None => mkScan (s_trailer s) (s_hasSize s) true
    end
  else if decide (k = bs "crc32") then if isPart then s else crc_field s v
  else if decide (k = bs "pcrc32") then if isPart then crc_field s v else s
  else s.

Definition parseTrailer (line : list Z) (isPart : bool) : result decErr yencTrailer :=
  if negb (HasPrefix line (bs "=yend")) then Err errMissingTrailer
  else
    let s := parseKeyValues line (yend_field isPart) (mkScan (mkTrailer 0 0 false) false false) in
    if s_err s then Err errMalformed
    else if negb (s_hasSize s) then Err errMalformed
    else Ok (s_trailer s).

(** ** The article *)

(** What a call returns: the article and error, and the buffer given to
    [PutBuffer], if any. *)
Record decoded : Type := mkDecoded { d_art : Article; d_err : option decErr; d_put : option backing }.
Definition failed (e : decErr) : decoded := mkDecoded zeroArticle (Some e) None.

(** Where the [=yend] line begins; [None] is [errMissingTrailer]. *)
Definition find_trailer (body : list Z) (bodyStart : nat) : option nat :=
  match Index (drop bodyStart body) (LF :: bs "=yend") with
  | Some i => Some (i + (bodyStart + 1))%nat
  | None => if HasPrefix (drop bodyStart body) (bs "=yend") then Some bodyStart else None
  end.

(** The [=yend] line alone. *)
Definition trailer_line (l : list Z) : list Z :=
  TrimRight (match IndexByte l LF with Some nl => take nl l | None => l end) [CR].

Definition DecodeArticleBuf (body : list Z) (scratch : option Z) : decoded :=
  if decide (Z.of_nat (length body) > maxDecodeSize) then failed ErrBodyTooLarge
  else
    match parseHeader body with
    | Err e => failed e
    | Ok (hdr, bodyStart) =>
        match find_trailer body bodyStart with
        | None => failed errMissingTrailer
        | Some trailerIdx =>
            let encoded := drop bodyStart (take trailerIdx body) in
            let '(out, computedCRC, b) := decodeBody encoded (h_size hdr) scratch in
            match parseTrailer (trailer_line (drop trailerIdx body)) (h_isPart hdr) with
            | Err e =>
                mkDecoded zeroArticle (Some e) (match b with Scratch _ => None | _ => Some b end)
            | Ok trailer =>
                let art := mkArticle (h_name hdr) (h_offset hdr) (h_hasYPart hdr) (h_size hdr) out computedCRC in
                if decide (t_size trailer <> Z.of_nat (length out)) then mkDecoded art (Some errSizeMismatch) None
                else if decide (t_valid trailer = true /\ computedCRC <> t_crc trailer)
                then mkDecoded art (Some ErrCRCMismatch) None
                else mkDecoded art None None
            end
        end
    end.

Definition DecodeArticle (body : list Z) : decoded := DecodeArticleBuf body None.
