(* ===== verification/DecoderProps.v ===== *)
(** * The yEnc decoder: buffers, decoding, round trip

    The buffer pools as a step relation, the bulk decoder against a
    byte-by-byte reference, what a successful decode guarantees, and the
    round trip of a posted article. *)
From S2P Require Import Prelude Crc GoBytes Decoder.
From stdpp Require Import base numbers list strings.
From Stdlib Require Import ZArith Lia.
Local Open Scope Z_scope.

(** ** Buffer pools *)

(** Get, put and forget, from the empty pools. *)
Inductive pool_step : pools -> pools -> Prop :=
| step_get ps capReq pick c ps' : GetBuffer ps capReq pick = Some (c, ps') -> pool_step ps ps'
| step_put ps c ps' : PutBuffer ps c = Some ps' -> pool_step ps ps'
| step_gc ps i p j : ps !! i = Some p -> pool_step ps (<[i := base.delete j p]> ps).

Inductive pools_reachable : pools -> Prop :=
| pools_start : pools_reachable emptyPools
| pools_next ps ps' : pools_reachable ps -> pool_step ps ps' -> pools_reachable ps'.

(** The capacity of class [idx]. *)
Definition class_size (idx : Z) : Z :=
  if decide (idx = 0) then minBufferClass else ((idx - 1) mod 4 + 5) * 2 ^ (12 + (idx - 1) / 4).

Lemma class_band n : minBufferClass < n <= maxDecodeSize ->
  exists k, 14 <= k <= 23 /\ 2 ^ k < n <= 2 ^ (k + 1) /\ Len64 (n - 1) - 1 = k.
Proof.
  unfold minBufferClass, maxDecodeSize. intros Hn. exists (Z.log2 (n - 1)).
  pose proof (Z.log2_spec (n - 1) ltac:(lia)) as [H1 H2].
  assert (14 <= Z.log2 (n - 1)) by (change 14 with (Z.log2 (2 ^ 14)); apply Z.log2_le_mono; lia).
  assert (Z.log2 (n - 1) <= 23) by (change 23 with (Z.log2 (2 ^ 24 - 1)); apply Z.log2_le_mono; lia).
  rewrite <- Z.add_1_r in H2. unfold Len64. rewrite decide_False by lia. lia.
Qed.

(** The arithmetic of one band: [q] is [size/step]. *)
Lemma band_class k s n : 14 <= k <= 23 -> s = 2 ^ (k - 2) -> 4 * s < n <= 8 * s ->
  exists q, (n + s - 1) `quot` s * s = q * s /\ (q * s) `quot` s = q /\ 5 <= q <= 8 /\
    n <= q * s < n + s /\ (q * s + s - 1) `quot` s = q.
Proof.
  intros Hk Hs Hn. assert (0 < s) as Hp by (subst s; apply Z.pow_pos_nonneg; lia).
  exists ((n + s - 1) / s). rewrite Z.quot_div_nonneg by lia.
  pose proof (Z.div_mod (n + s - 1) s ltac:(lia)) as E. pose proof (Z.mod_pos_bound (n + s - 1) s Hp) as B.
  set (q := (n + s - 1) / s) in *. assert (5 <= q <= 8) by nia.
  split; [done|]. split; [by rewrite Z.quot_mul by lia|]. split; [done|]. split; [nia|].
  rewrite Z.quot_div_nonneg by nia. symmetry. apply (Z.div_unique _ _ q (s - 1)); lia.
Qed.

Lemma class_size_band k q : 14 <= k -> 5 <= q <= 8 ->
  class_size ((k - minBufferClassShift) * 4 + q - 4) = q * 2 ^ (k - 2).
Proof.
  intros Hk Hq. unfold class_size, minBufferClassShift. rewrite decide_False by lia.
  replace ((k - 14) * 4 + q - 4 - 1) with (q - 5 + (k - 14) * 4) by lia.
  rewrite Z.mod_add, Z.div_add, Z.mod_small, Z.div_small by lia. f_equal; [lia|f_equal; lia].
Qed.

Lemma bufferClass_spec n : n <= maxDecodeSize ->
  exists idx, bufferClass n = (idx, class_size idx) /\ 0 <= idx < 38 /\ n <= class_size idx <= maxDecodeSize /\
    minBufferClass <= class_size idx /\ 4 * class_size idx <= Z.max (4 * minBufferClass) (5 * n) /\
    bufferClass (class_size idx) = (idx, class_size idx).
Proof.
  intros Hn. unfold bufferClass at 1. case_decide as Hs.
  - exists 0. change (class_size 0) with minBufferClass. unfold maxDecodeSize, minBufferClass in *.
    split_and!; try lia; reflexivity.
  - destruct (class_band n) as (k & Hk & Hb & Hl); [lia|]. rewrite Hl, Z.shiftl_1_l.
    assert (2 ^ k = 4 * 2 ^ (k - 2)) as E1 by (replace k with (2 + (k - 2)) at 1 by lia; rewrite Z.pow_add_r by lia; lia).
    assert (2 ^ (k + 1) = 8 * 2 ^ (k - 2)) as E2
      by (replace (k + 1) with (3 + (k - 2)) by lia; rewrite Z.pow_add_r by lia; lia).
    destruct (band_class k (2 ^ (k - 2)) n) as (q & Eq & Eq2 & Hq & Hr & Eq3); [done|done|lia|].
    exists ((k - minBufferClassShift) * 4 + q - 4). cbv zeta. rewrite Eq, Eq2.
    rewrite class_size_band by lia.
    assert (q * 2 ^ (k - 2) <= maxDecodeSize) as Hmax.
    { destruct (decide (k = 23)) as [->|]; [change (2 ^ (23 - 2)) with 2097152 in *; unfold maxDecodeSize in *; lia|].
      assert (2 ^ (k + 1) <= 2 ^ 23) by (apply Z.pow_le_mono_r; lia).
      unfold maxDecodeSize. change (2 ^ 23) with 8388608 in *. nia. }
    assert (k = 23 -> q <= 5) as H23.
    { intros ->. change (2 ^ (23 - 2)) with 2097152 in *. unfold maxDecodeSize in *. lia. }
    unfold minBufferClassShift. split_and!; try done; try lia.
    unfold bufferClass. rewrite decide_False by lia.
    destruct (class_band (q * 2 ^ (k - 2))) as (k' & Hk' & Hb' & Hl'); [lia|].
    assert (k' = k) as ->.
    { destruct (Z.lt_trichotomy k k') as [H|[H|H]]; [|done|].
      - assert (2 ^ (k + 1) <= 2 ^ k') by (apply Z.pow_le_mono_r; lia). nia.
      - assert (2 ^ (k' + 1) <= 2 ^ k) by (apply Z.pow_le_mono_r; lia). nia. }
    rewrite Hl', Z.shiftl_1_l. cbv zeta. by rewrite Eq3, Eq2.
Qed.

Lemma clamp_bounds r : 1 <= clampBufferRequest r <= maxDecodeSize.
Proof. unfold clampBufferRequest, maxDecodeSize. lia. Qed.

(** Every pooled buffer has its class's capacity. *)
Definition pools_ok (ps : pools) : Prop :=
  length ps = numBufferClasses /\
  forall i p, ps !! i = Some p -> Forall (fun c => c = class_size (Z.of_nat i)) p.

Lemma insert_ok ps i p : pools_ok ps -> Forall (fun c => c = class_size (Z.of_nat i)) p -> pools_ok (<[i := p]> ps).
Proof.
  intros [Hl Hp] H. split; [by rewrite length_insert|]. intros j q Hj.
  apply list_lookup_insert_Some in Hj as [(-> & -> & _)|[_ Hj]]; [done|by apply (Hp j)].
Qed.

Lemma pools_lookup ps idx : pools_ok ps -> 0 <= idx < 38 ->
  exists p, ps !! Z.to_nat idx = Some p /\ Forall (fun c => c = class_size idx) p.
Proof.
  intros [Hl Hp] Hi. destruct (lookup_lt_is_Some_2 ps (Z.to_nat idx)) as [p E].
  - rewrite Hl. change numBufferClasses with 38%nat. lia.
  - exists p. split; [done|]. specialize (Hp _ _ E). by rewrite Z2Nat.id in Hp by lia.
Qed.

Lemma GetBuffer_ok ps capReq pick : pools_ok ps ->
  exists ps', GetBuffer ps capReq pick = Some (BufferCap capReq, ps') /\ pools_ok ps'.
Proof.
  intros Hp. unfold GetBuffer, BufferCap.
  destruct (bufferClass_spec (clampBufferRequest capReq)) as (idx & E & Hi & _); [apply clamp_bounds|].
  rewrite E. cbn [snd]. rewrite decide_False by lia.
  destruct (pools_lookup ps idx Hp Hi) as (p & Ep & Hc). rewrite Ep. cbn [mbind option_bind].
  destruct pick as [i|]; [|by exists ps]. cbn [mbind option_bind].
  destruct (p !! i) as [c|] eqn:Ec; [|by exists ps]. cbn [mbind option_bind].
  rewrite (Forall_lookup_1 _ _ _ _ Hc Ec). eexists; split; [done|]. apply insert_ok; [done|].
  rewrite Z2Nat.id by lia. by apply Forall_delete.
Qed.

Lemma PutBuffer_ok ps c : pools_ok ps -> exists ps', PutBuffer ps c = Some ps' /\ pools_ok ps'.
Proof.
  intros Hp. unfold PutBuffer. case_decide as Hc; [by exists ps|].
  destruct (bufferClass_spec c) as (idx & E & Hi & _); [lia|]. rewrite E. case_decide as Hne; [by exists ps|].
  rewrite decide_False by lia. destruct (pools_lookup ps idx Hp Hi) as (p & Ep & Hf). rewrite Ep.
  eexists; split; [done|]. apply insert_ok; [done|]. rewrite Z2Nat.id by lia. constructor; [|done].
  done.
Qed.

Lemma pools_reachable_ok ps : pools_reachable ps -> pools_ok ps.
Proof.
  induction 1 as [|ps ps' _ Hp Hs]; [|destruct Hs as [ps0 capReq pick c q E|ps0 c q E|ps0 i p j E]].
  - split; [done|]. intros i p [-> _]%lookup_replicate. constructor.
  - destruct (GetBuffer_ok ps0 capReq pick Hp) as (r & E' & Hr). congruence.
  - destruct (PutBuffer_ok ps0 c Hp) as (r & E' & Hr). congruence.
  - apply insert_ok; [done|]. apply Forall_delete. by apply Hp.
Qed.

(** however buffers were taken, given back and forgotten, [GetBuffer]
    never indexes outside the pools and returns a buffer of exactly the
    capacity [BufferCap] announces: at least the clamped request, and at most
    a quarter more unless the smallest class served it.  [PutBuffer] never
    indexes outside the pools either. *)
Theorem GetBuffer_exact ps capReq pick c :
  pools_reachable ps ->
  (exists ps', GetBuffer ps capReq pick = Some (BufferCap capReq, ps')) /\
  is_Some (PutBuffer ps c) /\
  clampBufferRequest capReq <= BufferCap capReq <= maxDecodeSize /\
  4 * BufferCap capReq <= Z.max (4 * minBufferClass) (5 * clampBufferRequest capReq).
Proof.
  intros Hp%pools_reachable_ok. destruct (GetBuffer_ok ps capReq pick Hp) as (ps' & E & _).
  destruct (PutBuffer_ok ps c Hp) as (ps2 & E2 & _). split; [by exists ps'|]. split; [by exists ps2|].
  unfold BufferCap. destruct (bufferClass_spec (clampBufferRequest capReq)) as (idx & -> & ?); [apply clamp_bounds|].
  cbn [snd]. lia.
Qed.

(** ** The byte-by-byte decoder *)
Fixpoint yenc_machine (escaped : bool) (l : list Z) : list Z :=
  match l with
  | [] => []
  | c :: l =>
      if (c =? CR) || (c =? LF) then yenc_machine escaped l
      else if escaped then u8 (c - 106) :: yenc_machine false l
      else if c =? EQ then yenc_machine true l
      else u8 (c - 42) :: yenc_machine false l
  end.

Lemma sub42_loop_map l : sub42_loop l = sub42 <$> l.
Proof.
  remember (length l) as n eqn:Hn. revert l Hn. induction n as [n IH] using lt_wf_ind. intros l ->.
  do 8 (destruct l as [|? l]; [done|]). cbn [sub42_loop fmap list_fmap]. by rewrite (IH (length l)) by (simpl; lia).
Qed.

Lemma indexSpecial_spec l :
  match indexSpecial l with
  | None => Forall (fun c => specialLUT c = false) l
  | Some n => Forall (fun c => specialLUT c = false) (take n l) /\
              exists c l', drop n l = c :: l' /\ specialLUT c = true /\ (length l' < length l)%nat
  end.
Proof.
  induction l as [|c l IH]; simpl; [constructor|]. destruct (specialLUT c) eqn:E.
  - simpl. split; [constructor|]. exists c, l. auto.
  - destruct (indexSpecial l) as [n|]; simpl; [|by constructor].
    destruct IH as (H1 & d & l' & H2 & H3 & H4). split; [by constructor|]. exists d, l'. auto with lia.
Qed.

Lemma machine_plain p l : Forall (fun c => specialLUT c = false) p ->
  yenc_machine false (p ++ l) = (sub42 <$> p) ++ yenc_machine false l.
Proof.
  induction 1 as [|c p Hc H IH]; [done|]. unfold specialLUT in Hc. apply orb_false_iff in Hc as [Hc He].
  simpl. by rewrite Hc, He, IH.
Qed.

Lemma decode_loop_ref fuel escaped l out : (length l <= fuel)%nat ->
  decode_loop fuel escaped l out = out ++ yenc_machine escaped l.
Proof.
  revert escaped l out. induction fuel as [|fuel IH]; intros escaped l out Hf; cbn [decode_loop].
  - destruct l; [|simpl in Hf; lia]. by rewrite app_nil_r.
  - case_decide as Hl; [subst; by rewrite app_nil_r|].
    assert (forall o c l', (length l' <= fuel)%nat ->
      (if (c =? CR) || (c =? LF) then decode_loop fuel escaped l' o
       else if escaped then decode_loop fuel false l' (o ++ [u8 (c - 106)])
       else if c =? EQ then decode_loop fuel true l' o
       else decode_loop fuel escaped l' (o ++ [u8 (c - 42)])) = o ++ yenc_machine escaped (c :: l')) as Hstep.
    { intros o c l' Hl'. cbn [yenc_machine]. destruct (_ || _); [by apply IH|].
      destruct escaped; [|destruct (c =? EQ)]; rewrite IH by done; rewrite <- ?app_assoc; done. }
    destruct escaped.
    + cbn [drop]. destruct l as [|c l]; [done|]. cbn [Nat.ltb]. rewrite decide_False by lia.
      apply Hstep. simpl in Hf. lia.
    + pose proof (indexSpecial_spec l) as Hs. destruct (indexSpecial l) as [n|].
      * destruct Hs as (Hp & c & l' & Hd & _ & Hl'). rewrite Hd.
        replace (if decide (0 < n)%nat then sub42Span out (take n l) else out) with (out ++ (sub42 <$> take n l)).
        -- rewrite Hstep by lia. rewrite <- app_assoc. f_equal. rewrite <- machine_plain by done.
           by rewrite <- Hd, take_drop.
        -- case_decide; [unfold sub42Span; by rewrite sub42_loop_map|].
           assert (n = 0)%nat as -> by lia. by rewrite app_nil_r.
      * unfold sub42Span. rewrite sub42_loop_map. f_equal.
        rewrite <- (app_nil_r l) at 2. rewrite machine_plain by done. by rewrite app_nil_r.
Qed.

Lemma decodeBody_ref encoded hint scratch :
  exists b, decodeBody encoded hint scratch = (yenc_machine false encoded, ChecksumIEEE (yenc_machine false encoded), b).
Proof. unfold decodeBody. rewrite decode_loop_ref by done. by eexists. Qed.

Lemma machine_length e l : (length (yenc_machine e l) <= length l)%nat.
Proof. revert e. induction l as [|c l IH]; intros e; [done|]. cbn [yenc_machine].
  go_case; simpl; match goal with |- context [yenc_machine ?e l] => specialize (IH e) end; lia.
Qed.

Lemma u8_byte x : is_byte (u8 x).
Proof. unfold is_byte, u8. pose proof (wrapu_bound 8 x ltac:(lia)). lia. Qed.

Lemma machine_bytes e l : Forall is_byte (yenc_machine e l).
Proof.
  revert e. induction l as [|c l IH]; intros e; [constructor|]. cbn [yenc_machine].
  go_case; try apply IH; (constructor; [apply u8_byte|apply IH]).
Qed.

(** ** Encodings *)
Definition is_nl (c : Z) : Prop := c = CR \/ c = LF.

(** [yenc d e]: [e] is a yEnc encoding of the bytes [d].  Line breaks may
    stand anywhere, between an escape and its byte too; a byte whose shifted
    value is special must be escaped, any other may be. *)
Inductive yenc : list Z -> list Z -> Prop :=
| yenc_nil : yenc [] []
| yenc_break c d e : is_nl c -> yenc d e -> yenc d (c :: e)
| yenc_plain b d e : is_byte b -> specialLUT (u8 (b + 42)) = false -> yenc d e -> yenc (b :: d) (u8 (b + 42) :: e)
| yenc_escape b nls d e : is_byte b -> Forall is_nl nls -> ~ is_nl (u8 (b + 106)) -> yenc d e ->
    yenc (b :: d) (EQ :: nls ++ u8 (b + 106) :: e).

Lemma nl_true c : is_nl c -> (c =? CR) || (c =? LF) = true.
Proof. by intros [-> | ->]. Qed.

Lemma nl_false c : ~ is_nl c -> (c =? CR) || (c =? LF) = false.
Proof.
  unfold is_nl. intros H. apply orb_false_iff. split; apply Z.eqb_neq; intros ->; apply H; auto.
Qed.

Lemma machine_breaks e nls l : Forall is_nl nls -> yenc_machine e (nls ++ l) = yenc_machine e l.
Proof. induction 1 as [|c nls Hc H IH]; [done|]. cbn [app yenc_machine]. by rewrite nl_true. Qed.

Lemma u8_shift b k : is_byte b -> u8 (u8 (b + k) - k) = b.
Proof.
  intros H. unfold u8, wrapu. rewrite Zminus_mod_idemp_l. replace (b + k - k) with b by lia.
  by apply Z.mod_small.
Qed.

Lemma yenc_decodes d e : yenc d e -> yenc_machine false e = d.
Proof.
  induction 1 as [|c d e Hc H IH|b d e Hb Hs H IH|b nls d e Hb Hn Hs H IH]; [done|..]; cbn [yenc_machine].
  - by rewrite nl_true.
  - unfold specialLUT in Hs. apply orb_false_iff in Hs as [-> ->]. by rewrite u8_shift, IH.
  - change ((EQ =? CR) || (EQ =? LF)) with false. change (EQ =? EQ) with true. cbv iota.
    rewrite machine_breaks by done. cbn [yenc_machine]. by rewrite nl_false, u8_shift, IH.
Qed.

(** the bulk decoder agrees with the byte-by-byte one on every input, so
    it inverts every yEnc encoding, wherever the encoder broke its lines: also
    between an escape character and the byte it escapes.  The checksum it
    reports is that of the bytes it returns, which are never more than the
    bytes it was given. *)
Theorem decodeBody_inverts encoded hint scratch :
  exists out b, decodeBody encoded hint scratch = (out, ChecksumIEEE out, b) /\
    out = yenc_machine false encoded /\ (length out <= length encoded)%nat /\
    forall d, yenc d encoded -> out = d.
Proof.
  destruct (decodeBody_ref encoded hint scratch) as [b E]. exists (yenc_machine false encoded), b.
  split_and!; [done|done|apply machine_length|]. intros d. apply yenc_decodes.
Qed.

(** ** What a successful decode guarantees *)
Lemma kv_loop_inv {A} (P : A -> Prop) fuel (fn : A -> list Z -> list Z -> A) rest a :
  (forall a k v, P a -> P (fn a k v)) -> P a -> P (kv_loop fuel fn rest a).
Proof.
  intros Hf. revert rest a. induction fuel as [|fuel IH]; intros rest a Ha; cbn [kv_loop]; [done|].
  go_case; auto.
Qed.

Lemma parseKeyValues_inv {A} (P : A -> Prop) line (fn : A -> list Z -> list Z -> A) a :
  (forall a k v, P a -> P (fn a k v)) -> P a -> P (parseKeyValues line fn a).
Proof. intros Hf Ha. unfold parseKeyValues. destruct (Cut line SP) as [[? ?]|]; [by apply kv_loop_inv|done]. Qed.

Lemma HasPrefix_length s p : HasPrefix s p = true -> (length p <= length s)%nat.
Proof. intros (r & ->)%HasPrefix_spec. rewrite length_app. lia. Qed.

Lemma IndexByte_Some s c k : IndexByte s c = Some k -> s !! k = Some c /\ (k < length s)%nat.
Proof.
  revert k. induction s as [|b s IH]; intros k; cbn [IndexByte]; [done|].
  destruct (b =? c) eqn:E; [intros [= <-]; apply Z.eqb_eq in E; subst; split; [done|simpl; lia]|].
  destruct (IndexByte s c) as [j|]; [|done]. intros [= <-]. destruct (IH j eq_refl). simpl. split; [done|lia].
Qed.

Lemma maxPartOffset_val : maxPartOffset = 281474976710656.
Proof. reflexivity. Qed.

Lemma parseHeader_bounds body hdr bodyStart : parseHeader body = Ok (hdr, bodyStart) ->
  (bodyStart <= length body)%nat /\ 0 <= h_offset hdr < maxPartOffset /\ (h_hasYPart hdr = false -> h_offset hdr = 0).
Proof.
  unfold parseHeader. intros H. destruct (Index body (bs "=ybegin")) as [start|] eqn:Es; [|done].
  apply Index_Some in Es as [_ Hs]. destruct (IndexByte (drop start body) LF) as [ye|] eqn:Ee; [|done].
  apply IndexByte_Some in Ee as [_ He]. rewrite length_drop in He.
  set (hdr0 := parseKeyValues _ ybegin_field _) in H.
  assert (h_offset hdr0 = 0 /\ h_hasYPart hdr0 = false) as [Ho Hy].
  { apply (parseKeyValues_inv (fun h => h_offset h = 0 /\ h_hasYPart h = false)); [|done].
    intros h k v Hh. unfold ybegin_field. go_case; done. }
  destruct (HasPrefix _ _); [|simplify_eq; rewrite Ho; rewrite maxPartOffset_val; split; [lia|done]].
  destruct (IndexByte (drop (ye + 1) _) LF) as [yp|] eqn:Ep; [|done].
  apply IndexByte_Some in Ep as [_ Hp]. rewrite !length_drop in Hp.
  destruct (parseKeyValues _ ypart_field _) as [bv bb]. case_decide as Hb; [done|]. simplify_eq. cbn.
  split; [lia|]. split; [|done]. rewrite Ho. case_decide; rewrite maxPartOffset_val in *; lia.
Qed.

Lemma find_trailer_bounds body bodyStart t : (bodyStart <= length body)%nat -> find_trailer body bodyStart = Some t ->
  (bodyStart <= t <= length body)%nat /\ HasPrefix (drop t body) (bs "=yend") = true.
Proof.
  unfold find_trailer. intros Hb H. destruct (Index _ _) as [i|] eqn:E.
  - simplify_eq. apply Index_Some in E as [Hp Hi]. rewrite drop_drop in Hp.
    pose proof (HasPrefix_length _ _ Hp) as Hl. rewrite length_drop in Hl, Hi. cbn [length] in Hl.
    split; [lia|]. apply HasPrefix_spec in Hp as [r Hr]. apply HasPrefix_spec. exists r.
    replace (i + (bodyStart + 1))%nat with (bodyStart + i + 1)%nat by lia. rewrite <- drop_drop, Hr. done.
  - destruct (HasPrefix _ _) eqn:Ep; [|done]. simplify_eq. split; [lia|done].
Qed.

Lemma DecodeArticleBuf_facts body scratch :
  let r := DecodeArticleBuf body scratch in
  CRC (d_art r) = ChecksumIEEE (Data (d_art r)) /\
  0 <= Offset (d_art r) < maxPartOffset /\ (HasOffset (d_art r) = false -> Offset (d_art r) = 0) /\
  (length (Data (d_art r)) <= length body)%nat /\
  (d_put r <> None -> d_art r = zeroArticle /\ forall c, d_put r <> Some (Scratch c)) /\
  (d_err r = None -> exists hdr start t trailer,
    parseHeader body = Ok (hdr, start) /\ find_trailer body start = Some t /\
    parseTrailer (trailer_line (drop t body)) (h_isPart hdr) = Ok trailer /\
    t_size trailer = Z.of_nat (length (Data (d_art r))) /\
    (t_valid trailer = true -> t_crc trailer = CRC (d_art r))).
Proof.
  assert (forall e, let r := failed e in
    CRC (d_art r) = ChecksumIEEE (Data (d_art r)) /\
    0 <= Offset (d_art r) < maxPartOffset /\ (HasOffset (d_art r) = false -> Offset (d_art r) = 0) /\
    (length (Data (d_art r)) <= length body)%nat /\ d_put r = None) as Hf.
  { intros e. cbn. rewrite maxPartOffset_val. split_and!; try done; lia. }
  unfold DecodeArticleBuf. case_decide; [destruct (Hf ErrBodyTooLarge) as (?&?&?&?&?); cbn in *; done|].
  destruct (parseHeader body) as [[hdr start]|e] eqn:Eh; [|destruct (Hf e) as (?&?&?&?&?); cbn in *; done].
  destruct (find_trailer body start) as [t|] eqn:Et; [|destruct (Hf errMissingTrailer) as (?&?&?&?&?); cbn in *; done].
  apply parseHeader_bounds in Eh as Hb. destruct Hb as (Hs & Ho & Hy).
  destruct (decodeBody_ref (drop start (take t body)) (h_size hdr) scratch) as [b ->].
  set (out := yenc_machine _ _).
  assert (length out <= length body)%nat as Hl.
  { pose proof (machine_length false (drop start (take t body))) as Hm. rewrite length_drop, length_take in Hm.
    unfold out. lia. }
  destruct (parseTrailer _ _) as [trailer|e] eqn:Ep.
  - repeat case_decide; cbn; split_and!; try done; try lia. intros _. exists hdr, start, t, trailer.
    split_and!; try done. intros Hv. destruct (decide (ChecksumIEEE out = t_crc trailer)); [done|tauto].
  - cbn. split_and!; try done; try (rewrite maxPartOffset_val; lia); try lia.
    intros Hne. split; [done|]. by destruct b.
Qed.

(** C22: what a decoded article guarantees.  When [DecodeArticleBuf] reports
    no error the data is as long as the trailer declares, its checksum is the
    one reported and the one the trailer declares if it declares one, and the
    offset lies in [0, maxPartOffset) and is zero unless the article carried a
    part line.  Any result has at most as many bytes as the body, and the
    buffer behind a returned article and the caller's scratch are never given
    to a pool. *)
Theorem decoded_article_sound body scratch :
  let r := DecodeArticleBuf body scratch in
  CRC (d_art r) = ChecksumIEEE (Data (d_art r)) /\
  0 <= Offset (d_art r) < maxPartOffset /\ (HasOffset (d_art r) = false -> Offset (d_art r) = 0) /\
  (length (Data (d_art r)) <= length body)%nat /\
  (d_put r <> None -> d_art r = zeroArticle /\ forall c, d_put r <> Some (Scratch c)) /\
  (d_err r = None -> exists hdr start t trailer,
    parseHeader body = Ok (hdr, start) /\ find_trailer body start = Some t /\
    parseTrailer (trailer_line (drop t body)) (h_isPart hdr) = Ok trailer /\
    t_size trailer = Z.of_nat (length (Data (d_art r))) /\
    (t_valid trailer = true -> t_crc trailer = CRC (d_art r))).
Proof. apply DecodeArticleBuf_facts. Qed.

(** ** Witnesses *)
Lemma GetBuffer_exact_witness :
  exists ps, pools_reachable ps /\ ps <> emptyPools /\
  (exists ps', GetBuffer ps 20000 (Some 0%nat) = Some (BufferCap 20000, ps')) /\
  is_Some (PutBuffer ps 20480) /\
  clampBufferRequest 20000 <= BufferCap 20000 <= maxDecodeSize /\
  4 * BufferCap 20000 <= Z.max (4 * minBufferClass) (5 * clampBufferRequest 20000).
Proof.
  destruct (PutBuffer emptyPools 20480) as [ps|] eqn:E; [|vm_compute in E; discriminate E].
  assert (pools_reachable ps) as Hr
    by (eapply pools_next; [apply pools_start|eapply step_put; exact E]).
  exists ps. split; [exact Hr|]. split.
  - intros ->. vm_compute in E. discriminate E.
  - exact (GetBuffer_exact ps 20000 (Some 0%nat) 20480 Hr).
Defined.

(** An escape split by a line break: the byte 214 is sent as [= CR LF @]. *)
Lemma decodeBody_inverts_witness :
  yenc [214; 65] [EQ; CR; LF; 64; 107] /\
  exists out b, decodeBody [EQ; CR; LF; 64; 107] 0 None = (out, ChecksumIEEE out, b) /\ out = [214; 65].
Proof.
  assert (yenc [214; 65] [EQ; CR; LF; 64; 107]) as H.
  { apply (yenc_escape 214 [CR; LF] [65] [107]); [unfold is_byte; lia| |intros [?|?]; discriminate|].
    - constructor; [left; reflexivity|constructor; [right; reflexivity|constructor]].
    - apply (yenc_plain 65 [] []); [unfold is_byte; lia|reflexivity|constructor]. }
  split; [exact H|]. destruct (decodeBody_inverts [EQ; CR; LF; 64; 107] 0 None) as (out & b & E & _ & _ & Hd).
  exists out, b. split; [exact E|exact (Hd _ H)].
Defined.

(** A small article: one byte, with its checksum. *)
Definition ex_body : list Z :=
  bs "=ybegin line=128 size=1 name=x" ++ [LF; 107; LF] ++ bs "=yend size=1 crc32=d3d99e8b" ++ [LF].

Lemma decoded_article_sound_witness :
  let r := DecodeArticleBuf ex_body None in
  d_err r = None /\ Data (d_art r) = [65] /\
  exists hdr start t trailer,
    parseHeader ex_body = Ok (hdr, start) /\ find_trailer ex_body start = Some t /\
    parseTrailer (trailer_line (drop t ex_body)) (h_isPart hdr) = Ok trailer /\
    t_size trailer = Z.of_nat (length (Data (d_art r))) /\
    (t_valid trailer = true -> t_crc trailer = CRC (d_art r)).
Proof.
  cbv zeta. split; [vm_compute; reflexivity|]. split; [vm_compute; reflexivity|].
  destruct (decoded_article_sound ex_body None) as (_ & _ & _ & _ & _ & H). apply H. vm_compute. reflexivity.
Defined.
