(* ===== verification/Article.v ===== *)
(** * The round trip of a posted yEnc article *)
From S2P Require Import Prelude Crc GoBytes Decoder DecoderProps.
From stdpp Require Import base numbers list strings.
From Stdlib Require Import ZArith Lia.
Local Open Scope Z_scope.

(** ** A poster's encoder *)

(** NUL, LF, CR and [=] are escaped. *)
Definition critical (c : Z) : bool := (c =? 0) || (c =? LF) || (c =? CR) || (c =? EQ).

Definition encode_byte (b : Z) : list Z :=
  if critical (u8 (b + 42)) then [EQ; u8 (b + 106)] else [u8 (b + 42)].

(** A line break after every [width] bytes; [k] are left on this line. *)
Fixpoint encode (width k : nat) (d : list Z) : list Z :=
  match d with
  | [] => []
  | b :: d =>
      encode_byte b ++ match k with
                       | O => CR :: LF :: encode width width d
                       | S k => encode width k d
                       end
  end.

Record post : Type := mkPost { p_total : Z; p_name : list Z; p_off : Z; p_data : list Z; p_width : nat }.

Definition ybegin_line (p : post) : list Z :=
  bs "=ybegin part=1 line=128 size=" ++ print_dec (p_total p) ++ bs " name=" ++ p_name p ++ [CR].
Definition ypart_line (p : post) : list Z :=
  bs "=ypart begin=" ++ print_dec (p_off p + 1) ++ bs " end="
  ++ print_dec (p_off p + Z.of_nat (length (p_data p))) ++ [CR].
Definition yend_line (p : post) : list Z :=
  bs "=yend size=" ++ print_dec (Z.of_nat (length (p_data p))) ++ bs " pcrc32=" ++ print_hex (ChecksumIEEE (p_data p)).

Definition article_of (p : post) : list Z :=
  ybegin_line p ++ [LF] ++ ypart_line p ++ [LF] ++ encode (p_width p) (p_width p) (p_data p) ++ [CR; LF]
  ++ yend_line p ++ [CR; LF].

Record post_ok (p : post) : Prop := {
  ok_total : 0 <= p_total p <= MaxInt64;
  ok_off : 0 <= p_off p < maxPartOffset;
  ok_data : Forall is_byte (p_data p);
  (** an ASCII name that trimming leaves alone *)
  ok_name : Forall (fun b => 0 <= b < 128 /\ b <> LF) (p_name p);
  ok_trim : forall b, last (p_name p) = Some b -> existsb (Z.eqb b) [SP; 9; CR; LF; 0] = false;
  ok_size : Z.of_nat (length (article_of p)) <= maxDecodeSize;
}.

Definition ex_post : post :=
  mkPost 300 (bs "a name.bin") 128 ((fun i => Z.of_nat i) <$> seq 0 256) 60.
Example ex_decode : DecodeArticle (article_of ex_post) =
  mkDecoded (mkArticle (bs "a name.bin") 128 true 300 (p_data ex_post) (ChecksumIEEE (p_data ex_post))) None None.
Proof. vm_compute. reflexivity. Qed.

(** ** The encoder is an encoding *)
Lemma byte_cases (f : Z -> bool) b : forallb f (Z.of_nat <$> seq 0 256) = true -> is_byte b -> f b = true.
Proof.
  intros H Hb. unfold is_byte in Hb. rewrite forallb_forall in H. apply H, list_elem_of_In, list_elem_of_fmap.
  exists (Z.to_nat b). split; [lia|]. apply elem_of_seq. lia.
Qed.

(** An escape is followed by a byte of the escape alphabet, never by [y]. *)
Definition escaped_ok (b : Z) : bool :=
  let c := u8 (b + 106) in
  if critical (u8 (b + 42)) then (negb (c =? 121)) && negb ((c =? CR) || (c =? LF))
  else negb (specialLUT (u8 (b + 42))).

Lemma escape_alphabet b : is_byte b -> escaped_ok b = true.
Proof. apply byte_cases. by vm_compute. Qed.

Lemma encode_yenc width k d : Forall is_byte d -> yenc d (encode width k d).
Proof.
  intros H. revert k. induction H as [|b d Hb H IH]; intros k; [constructor|]. cbn [encode].
  assert (forall e, yenc d e -> yenc (b :: d) (encode_byte b ++ e)) as Hstep.
  { intros e He. pose proof (escape_alphabet b Hb) as Ha. unfold encode_byte, escaped_ok in *.
    destruct (critical _).
    - apply (yenc_escape b [] d e); [done|constructor| |done]. intros Hn%nl_true. rewrite Hn, andb_false_r in Ha. done.
    - apply yenc_plain; [done| |done]. by apply negb_true_iff in Ha. }
  apply Hstep. destruct k as [|k]; [|apply IH].
  apply yenc_break; [by left|]. apply yenc_break; [by right|]. apply IH.
Qed.

(** No [=y] in a list. *)
Fixpoint no_ey (l : list Z) : Prop :=
  match l with
  | [] => True
  | c :: l' => (c = EQ -> match l' with c' :: _ => c' <> 121 | [] => True end) /\ no_ey l'
  end.

Lemma encode_no_ey width k d : Forall is_byte d -> no_ey (encode width k d).
Proof.
  intros H. revert k. induction H as [|b d Hb H IH]; intros k; [done|]. cbn [encode].
  assert (forall e, no_ey e -> no_ey (encode_byte b ++ e)) as Hstep.
  { intros e He. pose proof (escape_alphabet b Hb) as Ha. unfold encode_byte, escaped_ok in *.
    destruct (critical (u8 (b + 42))) eqn:Ec.
    - apply andb_true_iff in Ha as [Ha%negb_true_iff Hn%negb_true_iff]. apply Z.eqb_neq in Ha.
      split; [done|]. split; [|done]. intros He'. rewrite He' in *. unfold critical in Ec.
      assert (b = 211) as ->; [|by vm_compute in Ec].
      pose proof (byte_cases (fun b => implb (u8 (b + 106) =? EQ) (b =? 211)) b ltac:(by vm_compute) Hb) as Hi.
      cbv beta in Hi. rewrite He' in Hi. by apply Z.eqb_eq in Hi.
    - apply negb_true_iff in Ha. split; [|done]. intros Heq. cbn in Heq. unfold specialLUT in Ha. rewrite Heq in Ha. done. }
  apply Hstep. destruct k as [|k]; [|apply IH]. split; [done|]. split; [done|]. apply IH.
Qed.

Lemma Index_trailer e r : no_ey e -> Index (e ++ CR :: LF :: bs "=yend" ++ r) (LF :: bs "=yend") = Some (length e + 1)%nat.
Proof.
  intros He. induction e as [|c e IH]; [reflexivity|]. destruct He as [Hc He].
  cbn [app Index length]. rewrite (IH He). destruct (HasPrefix _ _) eqn:Hp; [|done]. exfalso.
  cbn [HasPrefix] in Hp. apply andb_true_iff in Hp as [_ Hp]. destruct e as [|c1 e]; [done|].
  cbn in Hp. apply andb_true_iff in Hp as [H1 Hp]. apply Z.eqb_eq in H1. destruct He as [Hy _].
  destruct e as [|c2 e]; [done|]. apply andb_true_iff in Hp as [H2 _]. apply Z.eqb_eq in H2.
  by apply (Hy (eq_sym H1)).
Qed.

(** ** Parsing the lines back *)
Definition kv {A} (fn : A -> list Z -> list Z -> A) (rest : list Z) (a : A) : A := kv_loop (S (length rest)) fn rest a.

Lemma skip_length l : (length (skip_spaces l) <= length l)%nat.
Proof. induction l as [|b l IH]; [done|]. cbn [skip_spaces]. case_match; simpl; lia. Qed.

Lemma kv_loop_fuel {A} (fn : A -> list Z -> list Z -> A) f1 f2 rest a :
  (length rest < f1)%nat -> (length rest < f2)%nat -> kv_loop f1 fn rest a = kv_loop f2 fn rest a.
Proof.
  revert f2 rest a. induction f1 as [|f1 IH]; intros [|f2] rest a H1 H2; try lia. cbn [kv_loop].
  pose proof (skip_length rest). destruct (IndexByte (skip_spaces rest) EQ) as [eq|] eqn:E; [|done].
  apply IndexByte_Some in E as [_ E]. case_decide; [done|].
  destruct (IndexByte _ SP) as [sp|]; [|done]. apply IH; rewrite !length_drop; lia.
Qed.

Lemma skip_id l : (forall b, head l = Some b -> b <> SP) -> skip_spaces l = l.
Proof. destruct l as [|b l]; [done|]. intros H. cbn [skip_spaces]. destruct (Z.eqb_spec b SP); [|done]. by destruct (H b). Qed.

Definition key_ok (k : list Z) : Prop := k <> [] /\ Forall (fun b => b <> EQ /\ b <> SP) k.

Lemma kv_key {A} (fn : A -> list Z -> list Z -> A) key v a : key_ok key ->
  kv fn (key ++ EQ :: v) a =
  if decide (key = bs "name") then fn a key (latin1ToUTF8 (TrimRight v [SP; 9; CR; LF; 0]))
  else match IndexByte v SP with
       | None => fn a key (TrimRight v [CR; LF])
       | Some nextSp => kv fn (drop (nextSp + 1) v) (fn a key (take nextSp v))
       end.
Proof.
  intros [Hne Hk]. unfold kv at 1. cbn [kv_loop].
  assert (skip_spaces (key ++ EQ :: v) = key ++ EQ :: v) as ->.
  { apply skip_id. destruct Hk as [|b key [_ Hb] _]; [done|]. by intros c [= <-]. }
  rewrite IndexByte_app by (eapply Forall_impl; [exact Hk|by intros ? [? ?]]).
  rewrite take_app_length, drop_app_ge by lia. replace (length key + 1 - length key)%nat with 1%nat by lia. cbn [drop].
  rewrite (TrimRight_id key), (drop_0 v).
  - case_decide; [done|]. destruct (IndexByte v SP) as [sp|] eqn:Es; [|done]. apply IndexByte_Some in Es as [_ Es].
    apply kv_loop_fuel; rewrite ?length_app, ?length_drop; cbn [length]; lia.
  - intros b Hb. cbn. rewrite orb_false_r. apply Z.eqb_neq. apply last_Some in Hb as [k' ->].
    apply Forall_app in Hk as [_ Hk]. by inversion Hk as [|? ? [_ ?]].
Qed.

Lemma kv_pair {A} (fn : A -> list Z -> list Z -> A) key v rest a : key_ok key -> key <> bs "name" ->
  Forall (fun b => b <> SP) v -> kv fn (key ++ EQ :: v ++ SP :: rest) a = kv fn rest (fn a key v).
Proof.
  intros Hk Hn Hv. rewrite kv_key, decide_False, IndexByte_app by done.
  rewrite take_app_length, drop_app_ge by lia. by replace (length v + 1 - length v)%nat with 1%nat by lia.
Qed.

Lemma kv_last {A} (fn : A -> list Z -> list Z -> A) key v a : key_ok key -> key <> bs "name" ->
  Forall (fun b => b <> SP) v -> kv fn (key ++ EQ :: v) a = fn a key (TrimRight v [CR; LF]).
Proof. intros Hk Hn Hv. by rewrite kv_key, decide_False, IndexByte_None by done. Qed.

Lemma parse_directive {A} (fn : A -> list Z -> list Z -> A) dir rest a :
  Forall (fun b => b <> SP) dir -> parseKeyValues (dir ++ SP :: rest) fn a = kv fn rest a.
Proof. intros H. unfold parseKeyValues. by rewrite Cut_app. Qed.

(** ** The round trip *)
Lemma dec_plain n c : 0 <= n <= MaxInt64 -> ~ (48 <= c <= 57) -> Forall (fun b => b <> c) (print_dec n).
Proof.
  intros Hn Hc. eapply Forall_impl; [apply decimal_print; unfold MaxInt64 in Hn; lia|]. intros b Hb. cbv beta in Hb. lia.
Qed.

Lemma trim_plain l : Forall (fun b => 48 <= b) l -> TrimRight l [CR; LF] = l.
Proof.
  intros H. apply TrimRight_id. intros b Hb. apply last_Some in Hb as [l' ->].
  apply Forall_app in H as [_ H]. inversion H as [|? ? Hb _]. subst. cbv beta in Hb. unfold CR, LF. cbn [existsb].
  rewrite !orb_false_iff. split_and!; try done; apply Z.eqb_neq; lia.
Qed.

Lemma latin1_ascii l : Forall (fun b => b < 128) l -> latin1ToUTF8 l = l.
Proof.
  intros H. unfold latin1ToUTF8. replace (existsb _ l) with false; [done|]. symmetry.
  induction H as [|b l Hb H IH]; [done|]. cbn [existsb]. rewrite IH, bool_decide_eq_false_2 by lia. done.
Qed.

Ltac plain_key := split; [discriminate | repeat constructor; discriminate].

Section line_parsers.
  Context (p : post) (Hp : post_ok p).

Lemma ybegin_parse :
  parseKeyValues (ybegin_line p) ybegin_field (mkHeader 0 0 [] false false) =
  mkHeader (p_total p) 0 (p_name p) true false.
Proof.
  destruct Hp as [Ht _ _ Hn Htr _]. unfold ybegin_line.
  change (parseKeyValues (bs "=ybegin" ++ SP :: bs "part" ++ EQ :: bs "1" ++ SP :: bs "line" ++ EQ :: bs "128" ++ SP ::
    bs "size" ++ EQ :: print_dec (p_total p) ++ SP :: bs "name" ++ EQ :: p_name p ++ [CR]) ybegin_field
    (mkHeader 0 0 [] false false) = mkHeader (p_total p) 0 (p_name p) true false).
  rewrite parse_directive by (repeat constructor; discriminate).
  do 2 (rewrite kv_pair; [|plain_key|discriminate|repeat constructor; discriminate]).
  rewrite kv_pair; [|plain_key|discriminate|apply dec_plain; [done|unfold SP; lia]].
  rewrite kv_key, decide_True by (try plain_key; done).
  rewrite TrimRight_app by (repeat constructor). rewrite TrimRight_id by done.
  rewrite latin1_ascii by (eapply Forall_impl; [exact Hn|by intros ? [[? ?] ?]]).
  unfold ybegin_field. cbn -[ParseInt print_dec]. by rewrite ParseInt_print.
Qed.

Lemma data_small : Z.of_nat (length (p_data p)) <= maxDecodeSize.
Proof.
  destruct Hp as [_ _ _ _ _ Hs]. unfold article_of in Hs. rewrite !length_app in Hs.
  assert (forall w k d, length d <= length (encode w k d))%nat as He.
  { intros w k d. revert k. induction d as [|b d IH]; intros k; [done|]. cbn [encode]. rewrite length_app.
    unfold encode_byte. pose proof (IH w). destruct (critical _), k as [|k]; cbn [length]; try specialize (IH k); lia. }
  specialize (He (p_width p) (p_width p) (p_data p)). lia.
Qed.

Lemma ypart_parse : parseKeyValues (ypart_line p) ypart_field (0, false) = (p_off p + 1, false).
Proof.
  pose proof data_small as Hd. destruct Hp as [_ Ho _ _ _ _]. unfold ypart_line.
  rewrite maxPartOffset_val in Ho. unfold maxDecodeSize in Hd.
  change (parseKeyValues (bs "=ypart" ++ SP :: bs "begin" ++ EQ :: print_dec (p_off p + 1) ++ SP ::
    bs "end" ++ EQ :: print_dec (p_off p + Z.of_nat (length (p_data p))) ++ [CR]) ypart_field (0, false) =
    (p_off p + 1, false)).
  rewrite parse_directive by (repeat constructor; discriminate).
  rewrite kv_pair; [|plain_key|discriminate|apply dec_plain; [unfold MaxInt64; lia|unfold SP; lia]].
  rewrite kv_last; [|plain_key|discriminate|].
  - unfold ypart_field. cbn -[ParseInt print_dec Z.add]. rewrite ParseInt_print by (unfold MaxInt64; lia). done.
  - apply Forall_app. split; [|repeat constructor; discriminate].
    apply dec_plain; [unfold MaxInt64; lia|unfold SP; lia].
Qed.

Lemma hex_plain n c : is_u32 n -> ~ (48 <= c <= 57 \/ 97 <= c <= 102) -> Forall (fun b => b <> c) (print_hex n).
Proof. intros [Hn _] Hc. eapply Forall_impl; [by apply hex_print|]. intros b Hb. cbv beta in Hb. intros ->. done. Qed.

Lemma crc_u32 : is_u32 (ChecksumIEEE (p_data p)).
Proof. apply ChecksumIEEE_u32, Hp. Qed.

Lemma yend_fields :
  parseKeyValues (yend_line p) (yend_field true) (mkScan (mkTrailer 0 0 false) false false) =
  mkScan (mkTrailer (Z.of_nat (length (p_data p))) (ChecksumIEEE (p_data p)) true) true false.
Proof.
  pose proof data_small as Hd. pose proof crc_u32 as Hc. unfold maxDecodeSize in Hd. unfold yend_line.
  change (parseKeyValues (bs "=yend" ++ SP :: bs "size" ++ EQ :: print_dec (Z.of_nat (length (p_data p))) ++ SP ::
    bs "pcrc32" ++ EQ :: print_hex (ChecksumIEEE (p_data p))) (yend_field true) (mkScan (mkTrailer 0 0 false) false false) =
    mkScan (mkTrailer (Z.of_nat (length (p_data p))) (ChecksumIEEE (p_data p)) true) true false).
  rewrite parse_directive by (repeat constructor; discriminate).
  rewrite kv_pair; [|plain_key|discriminate|apply dec_plain; [unfold MaxInt64; lia|unfold SP; lia]].
  rewrite kv_last; [|plain_key|discriminate|apply hex_plain; [done|unfold SP; lia]].
  rewrite trim_plain by (eapply Forall_impl; [apply hex_print, Hc|intros b Hb; cbv beta in Hb; lia]).
  unfold yend_field, crc_field. cbn -[ParseInt print_dec ParseUintHex32 print_hex ChecksumIEEE].
  rewrite ParseInt_print by (unfold MaxInt64; lia). by rewrite ParseHex_print.
Qed.

Lemma yend_parse : parseTrailer (yend_line p) true =
  Ok (mkTrailer (Z.of_nat (length (p_data p))) (ChecksumIEEE (p_data p)) true).
Proof. unfold parseTrailer. change (HasPrefix (yend_line p) (bs "=yend")) with true. by rewrite yend_fields. Qed.

Lemma ybegin_no_lf : Forall (fun b => b <> LF) (ybegin_line p).
Proof.
  destruct Hp as [Ht _ _ Hn _ _]. unfold ybegin_line.
  rewrite !Forall_app. split_and!; try (repeat constructor; discriminate); [apply dec_plain; [done|unfold LF; lia]|].
  eapply Forall_impl; [exact Hn|by intros ? [? ?]].
Qed.

Lemma ypart_no_lf : Forall (fun b => b <> LF) (ypart_line p).
Proof.
  pose proof data_small as Hd. destruct Hp as [_ Ho _ _ _ _]. unfold ypart_line.
  rewrite maxPartOffset_val in Ho. unfold maxDecodeSize in Hd.
  rewrite !Forall_app. split_and!; try (repeat constructor; discriminate); apply dec_plain; unfold MaxInt64, LF; lia.
Qed.

Lemma yend_no_lf : Forall (fun b => b <> LF) (yend_line p).
Proof.
  pose proof data_small as Hd. unfold yend_line. unfold maxDecodeSize in Hd.
  rewrite !Forall_app. split_and!; try (repeat constructor; discriminate); [apply dec_plain; unfold MaxInt64, LF; lia|].
  apply hex_plain; [apply crc_u32|unfold LF; lia].
Qed.

Lemma header_parse rest :
  parseHeader (ybegin_line p ++ LF :: ypart_line p ++ LF :: rest) =
  Ok (mkHeader (p_total p) (p_off p) (p_name p) true true, (length (ybegin_line p) + 1 + (length (ypart_line p) + 1))%nat).
Proof.
  unfold parseHeader. rewrite (Index_first _ _ 0); [|lia|reflexivity|lia]. rewrite drop_0.
  rewrite IndexByte_app by apply ybegin_no_lf. rewrite take_app_length, ybegin_parse.
  rewrite drop_app_ge by lia. replace (length (ybegin_line p) + 1 - length (ybegin_line p))%nat with 1%nat by lia.
  cbn [drop]. rewrite drop_0. change (HasPrefix (ypart_line p ++ LF :: rest) (bs "=ypart")) with true.
  cbv iota. rewrite IndexByte_app by apply ypart_no_lf. rewrite take_app_length, ypart_parse.
  destruct Hp as [_ Ho _ _ _ _]. rewrite maxPartOffset_val in *. rewrite decide_False by (intros [?|?]; [done|lia]).
  rewrite decide_True by lia. cbn [h_size h_name]. by replace (p_off p + 1 - 1) with (p_off p) by lia.
Qed.
End line_parsers.

(** C21: posting and decoding an article is the identity: whatever bytes are
    posted, at whatever part offset, under whatever name and line width,
    [DecodeArticleBuf] returns exactly the data, its place and its checksum,
    with no error and no buffer given away. *)
Theorem article_roundtrip p scratch :
  post_ok p ->
  DecodeArticleBuf (article_of p) scratch =
  mkDecoded (mkArticle (p_name p) (p_off p) true (p_total p) (p_data p) (ChecksumIEEE (p_data p))) None None.
Proof.
  intros Hp. pose proof (ok_size _ Hp) as Hs. pose proof (ok_data _ Hp) as Hd.
  unfold DecodeArticleBuf. rewrite decide_False by lia. clear Hs.
  set (enc := encode (p_width p) (p_width p) (p_data p)). set (tail := yend_line p ++ [CR; LF]).
  assert (article_of p = (ybegin_line p ++ [LF] ++ ypart_line p ++ [LF]) ++ (enc ++ [CR; LF]) ++ tail) as E
    by (unfold article_of; rewrite <- !app_assoc; reflexivity).
  assert (parseHeader (article_of p) = Ok (mkHeader (p_total p) (p_off p) (p_name p) true true,
    length (ybegin_line p ++ [LF] ++ ypart_line p ++ [LF]))) as ->.
  { rewrite E, <- !app_assoc. etrans; [apply header_parse, Hp|]. do 2 f_equal. rewrite !length_app. cbn [length]. lia. }
  rewrite E. set (head := ybegin_line p ++ _). unfold find_trailer. rewrite drop_app_length.
  replace (Index ((enc ++ [CR; LF]) ++ tail) (LF :: bs "=yend")) with (Some (length enc + 1)%nat).
  2:{ symmetry. rewrite <- app_assoc. unfold tail, yend_line. change (bs "=yend size=") with (bs "=yend" ++ bs " size=").
      rewrite <- !app_assoc. apply Index_trailer, encode_no_ey, Hd. }
  replace (length enc + 1 + (length head + 1))%nat with (length (head ++ enc ++ [CR; LF]))
    by (rewrite !length_app; cbn [length]; lia).
  rewrite (app_assoc head (enc ++ [CR; LF]) tail), take_app_length, drop_app_length, drop_app_length.
  cbn [h_size h_isPart].
  destruct (decodeBody_ref (enc ++ [CR; LF]) (p_total p) scratch) as [b ->].
  assert (yenc_machine false (enc ++ [CR; LF]) = p_data p) as ->.
  { apply yenc_decodes. assert (forall d e, yenc d e -> yenc d (e ++ [CR; LF])) as Hz; [|apply Hz, encode_yenc, Hd].
    induction 1; [|constructor; done|constructor; done|].
    - apply yenc_break; [by left|]. apply yenc_break; [by right|constructor].
    - cbn [app]. rewrite <- app_assoc. by constructor. }
  replace (trailer_line tail) with (yend_line p).
  - rewrite yend_parse by done. cbn [t_size t_valid t_crc h_name h_offset h_hasYPart].
    by rewrite !decide_False by tauto.
  - symmetry. unfold trailer_line, tail. change (yend_line p ++ [CR; LF]) with (yend_line p ++ [CR] ++ [LF]).
    rewrite app_assoc, IndexByte_app by (apply Forall_app; split; [by apply yend_no_lf|repeat constructor; discriminate]).
    rewrite take_app_length, TrimRight_app by repeat constructor. apply TrimRight_id.
    unfold yend_line. rewrite !app_assoc. intros c Hc.
    assert (48 <= c); [|unfold CR; cbn; rewrite orb_false_r; apply Z.eqb_neq; lia].
    pose proof (crc_u32 p Hp) as Hu. pose proof (hex_print _ (proj1 Hu)) as Hx.
    pose proof (print_hex_nonempty _ Hu) as Hne. destruct (exists_last Hne) as (h & x & Eh). rewrite Eh in Hc, Hx.
    rewrite app_assoc, last_snoc in Hc. simplify_eq. apply Forall_app in Hx as [_ Hx].
    inversion Hx as [|? ? Hb _]. subst. cbv beta in Hb. lia.
Qed.

Lemma ex_post_ok : post_ok ex_post.
Proof.
  split; try (vm_compute; intuition congruence).
  - rewrite Forall_forall. intros b [i [-> Hi]]%list_elem_of_fmap. apply elem_of_seq in Hi. unfold is_byte. lia.
  - repeat constructor; discriminate.
  - intros b Hb. vm_compute in Hb. by simplify_eq.
Qed.

Lemma article_roundtrip_witness :
  post_ok ex_post /\
  DecodeArticleBuf (article_of ex_post) (Some 100) =
  mkDecoded (mkArticle (bs "a name.bin") 128 true 300 (p_data ex_post) (ChecksumIEEE (p_data ex_post))) None None.
Proof. split; [exact ex_post_ok|]. exact (article_roundtrip ex_post (Some 100) ex_post_ok). Defined.
