(* ===== verification/UU.v ===== *)
(** * The UU decoder ([internal/decoder/uu.go]) *)
From S2P Require Import Prelude Crc GoBytes Decoder.
From stdpp Require Import base numbers list strings.
From Stdlib Require Import ZArith Lia.
Local Open Scope Z_scope.

(** [strings.SplitN(s, " ", n)]. *)
Fixpoint SplitN (n : nat) (s : list Z) : list (list Z) :=
  match n with
  | O => []
  | 1%nat => [s]
  | S n => match Cut s SP with
           | None => [s]
           | Some (l, r) => l :: SplitN n r
           end
  end.

(** [(c - 0x20) & 0x3f] on a byte. *)
Definition sextet (c : Z) : Z := Z.land (u8 (c - 32)) 63.

(** The group loop of [decodeUULine]: [want] bytes are still missing.  [None]
    is an index out of range. *)
Fixpoint uu_groups (fuel want : nat) (enc : list Z) : option (list Z) :=
  match fuel with
  | O => None
  | S fuel =>
      match want, enc with
      | O, _ => Some []
      | S w, c0 :: c1 :: c2 :: c3 :: enc =>
          let a := sextet c0 in
          let b := sextet c1 in
          let c := sextet c2 in
          let d := sextet c3 in
          let o0 := Z.lor (u8 (Z.shiftl a 2)) (Z.shiftr b 4) in
          let o1 := Z.lor (u8 (Z.shiftl b 4)) (Z.shiftr c 2) in
          let o2 := Z.lor (u8 (Z.shiftl c 6)) d in
          match w with
          | O => Some [o0]
          | 1%nat => Some [o0; o1]
          | S (S w) => r ← uu_groups fuel w enc; Some (o0 :: o1 :: o2 :: r)
          end
      | S _, _ => None
      end
  end.

Definition decodeUULine (enc : list Z) (rawLen : nat) : option (list Z) :=
  let needed := ((rawLen + 2) / 3 * 4)%nat in
  let enc := if decide (length enc < needed)%nat then enc ++ replicate (needed - length enc) SP else enc in
  r ← uu_groups (S rawLen) rawLen enc;
  if decide (rawLen <= length r)%nat then Some (take rawLen r) else None.

(** The line loop of [DecodeUUBuf]; every round consumes a line. *)
Fixpoint uu_lines (fuel : nat) (rest out : list Z) : option (list Z) :=
  match fuel with
  | O => None
  | S fuel =>
      match Cut rest LF with
      | None => Some out
      | Some (line, rest) =>
          let line := TrimRight line [CR] in
          if decide (line = bs "end") then Some out
          else
            match line with
            | [] => uu_lines fuel rest out
            | c :: encoded =>
                let rawLen := Z.to_nat (sextet c) in
                if decide (rawLen = 0)%nat then Some out
                else l ← decodeUULine encoded rawLen; uu_lines fuel rest (out ++ l)
            end
      end
  end.

(** The data and the filename; the outer [None] is a panic.  The buffer the
    bytes are collected in is not part of the value. *)
Definition DecodeUUBuf (body : list Z) : option (result decErr (list Z * list Z)) :=
  if decide (Z.of_nat (length body) > maxDecodeSize) then Some (Err ErrBodyTooLarge)
  else
    match Cut body LF with
    | None => Some (Err ErrNotUU)
    | Some (line, rest) =>
        match SplitN 3 (TrimRight line [CR; SP]) with
        | [b; _; filename] =>
            if decide (b <> bs "begin") then Some (Err ErrNotUU)
            else out ← uu_lines (S (length rest)) rest []; Some (Ok (out, filename))
        | _ => Some (Err ErrNotUU)
        end
    end.

Definition DecodeUU (body : list Z) : option (result decErr (list Z * list Z)) := DecodeUUBuf body.

(** ** The decoder always returns *)
Lemma uu_groups_total fuel want enc : (want < fuel)%nat -> ((want + 2) / 3 * 4 <= length enc)%nat ->
  exists r, uu_groups fuel want enc = Some r /\ length r = want.
Proof.
  revert want enc. induction fuel as [|fuel IH]; intros want enc Hf He; [lia|]. cbn [uu_groups].
  destruct want as [|w]; [by exists []|].
  assert (1 <= (S w + 2) / 3)%nat by (apply Nat.div_le_lower_bound; lia).
  do 4 (destruct enc as [|? enc]; [cbn [length] in He; lia|]).
  destruct w as [|[|w]]; [by eexists|by eexists|].
  destruct (IH w enc) as (r & -> & Hr); [lia| |].
  - replace (S (S (S w)) + 2)%nat with (w + 2 + 1 * 3)%nat in He by lia. rewrite Nat.div_add in He by lia.
    cbn [length] in He. lia.
  - eexists. split; [done|]. simpl. lia.
Qed.

Lemma decodeUULine_total enc rawLen : exists r, decodeUULine enc rawLen = Some r /\ length r = rawLen.
Proof.
  unfold decodeUULine. set (needed := ((rawLen + 2) / 3 * 4)%nat).
  destruct (uu_groups_total (S rawLen) rawLen
    (if decide (length enc < needed)%nat then enc ++ replicate (needed - length enc) SP else enc))
    as (r & -> & Hr); [lia| |].
  - case_decide; [rewrite length_app, length_replicate|]; lia.
  - cbn [mbind option_bind]. rewrite decide_True by lia. eexists. split; [done|]. rewrite length_take. lia.
Qed.

Lemma Cut_length s c l r : Cut s c = Some (l, r) -> (length l + length r + 1 = length s)%nat.
Proof.
  revert l r. induction s as [|b s IH]; intros l r; cbn [Cut]; [done|]. case_match; [intros [= <- <-]; simpl; lia|].
  destruct (Cut s c) as [[l' r']|]; [|done]. intros [= <- <-]. specialize (IH _ _ eq_refl). simpl. lia.
Qed.

Lemma sextet_range c : 0 <= sextet c < 64.
Proof.
  unfold sextet. change 63 with (Z.ones 6). rewrite Z.land_ones by lia. apply Z.mod_pos_bound. lia.
Qed.

Lemma uu_lines_total fuel rest out : (length rest < fuel)%nat ->
  exists r, uu_lines fuel rest out = Some r /\ (length r <= length out + 63 * length rest)%nat.
Proof.
  revert rest out. induction fuel as [|fuel IH]; intros rest out Hf; [lia|]. cbn [uu_lines].
  destruct (Cut rest LF) as [[line r]|] eqn:E; [|exists out; split; [done|lia]].
  apply Cut_length in E. case_decide; [exists out; split; [done|lia]|].
  destruct (TrimRight line [CR]) as [|c enc].
  - destruct (IH r out) as (x & -> & Hx); [lia|]. exists x. split; [done|lia].
  - case_decide; [exists out; split; [done|lia]|].
    destruct (decodeUULine_total enc (Z.to_nat (sextet c))) as (l & -> & Hl). cbn [mbind option_bind].
    destruct (IH r (out ++ l)) as (x & -> & Hx); [lia|]. exists x. split; [done|].
    rewrite length_app, Hl in Hx. pose proof (sextet_range c). lia.
Qed.

Lemma DecodeUU_cases body : exists r, DecodeUU body = Some r /\
  match r with
  | Ok (out, _) => (length out <= 63 * length body)%nat
  | Err e => e = ErrBodyTooLarge \/ e = ErrNotUU
  end.
Proof.
  unfold DecodeUU, DecodeUUBuf. case_decide; [eexists; split; [done|by left]|].
  destruct (Cut body LF) as [[line rest]|] eqn:E; [|eexists; split; [done|by right]]. apply Cut_length in E.
  destruct (SplitN 3 _) as [|b [|m [|f [|]]]]; try (eexists; split; [done|by right]).
  case_decide; [eexists; split; [done|by right]|].
  destruct (uu_lines_total (S (length rest)) rest []) as (r & -> & Hr); [lia|].
  eexists. split; [done|]. cbn [length] in Hr. cbv beta iota. lia.
Qed.

(** [DecodeUU] returns on every input: the line loop ends and no line,
    however short for the length it declares, is read past its end.  A
    decoded body is at most 63 bytes for each byte of input. *)
Theorem DecodeUU_total body :
  exists r, DecodeUU body = Some r /\
  match r with
  | Ok (out, _) => (length out <= 63 * length body)%nat
  | Err e => e = ErrBodyTooLarge \/ e = ErrNotUU
  end.
Proof. apply DecodeUU_cases. Qed.

(** ** A UU encoder *)
Definition uu_chr (v : Z) : Z := if decide (v = 0) then 96 else 32 + v.

Definition uu_group (a b c : Z) : list Z :=
  [uu_chr (Z.shiftr a 2); uu_chr (Z.lor (Z.shiftl (Z.land a 3) 4) (Z.shiftr b 4));
   uu_chr (Z.lor (Z.shiftl (Z.land b 15) 2) (Z.shiftr c 6)); uu_chr (Z.land c 63)].

Fixpoint uu_encode (d : list Z) : list Z :=
  match d with
  | [] => []
  | [a] => uu_group a 0 0
  | [a; b] => uu_group a b 0
  | a :: b :: c :: d => uu_group a b c ++ uu_encode d
  end.

Definition uu_line (d : list Z) : list Z := uu_chr (Z.of_nat (length d)) :: uu_encode d ++ [CR; LF].

Definition uu_post (name : list Z) (chunks : list (list Z)) : list Z :=
  bs "begin 644 " ++ name ++ [LF] ++ concat (uu_line <$> chunks) ++ [96; LF] ++ bs "end" ++ [LF].

Example ex_uu : DecodeUU (uu_post (bs "cat.txt") [bs "Cat"; bs "sleeps"; bs "here"]) =
  Some (Ok (bs "Catsleepshere", bs "cat.txt")).
Proof. vm_compute. reflexivity. Qed.

Lemma range2 m n (f : Z -> Z -> bool) x y :
  forallb (fun x => forallb (f x) (Z.of_nat <$> seq 0 n)) (Z.of_nat <$> seq 0 m) = true ->
  0 <= x < Z.of_nat m -> 0 <= y < Z.of_nat n -> f x y = true.
Proof.
  intros H Hx Hy. rewrite forallb_forall in H.
  assert (forall k z, 0 <= z < Z.of_nat k -> In z (Z.of_nat <$> seq 0 k)) as Hin.
  { intros k z Hz. apply list_elem_of_In, list_elem_of_fmap. exists (Z.to_nat z). split; [lia|]. apply elem_of_seq. lia. }
  specialize (H x (Hin _ _ Hx)). rewrite forallb_forall in H. by apply H, Hin.
Qed.

Lemma land_range x k : 0 <= k -> 0 <= Z.land x (Z.ones k) < 2 ^ k.
Proof. intros Hk. rewrite Z.land_ones by lia. apply Z.mod_pos_bound. lia. Qed.

Lemma shiftr_range x k n : 0 <= k -> 0 <= x < n * 2 ^ k -> 0 <= Z.shiftr x k < n.
Proof.
  intros Hk Hx. rewrite Z.shiftr_div_pow2 by lia. assert (0 < 2 ^ k) by (apply Z.pow_pos_nonneg; lia).
  split; [apply Z.div_pos; lia|apply Z.div_lt_upper_bound; lia].
Qed.

(** The three output bytes of a group, from the pieces of its characters. *)
Definition out0 (a y : Z) : Z :=
  Z.lor (u8 (Z.shiftl (sextet (uu_chr (Z.shiftr a 2))) 2)) (Z.shiftr (sextet (uu_chr (Z.lor (Z.shiftl (Z.land a 3) 4) y))) 4).
Definition out1 (x b z : Z) : Z :=
  Z.lor (u8 (Z.shiftl (sextet (uu_chr (Z.lor (Z.shiftl x 4) (Z.shiftr b 4)))) 4))
    (Z.shiftr (sextet (uu_chr (Z.lor (Z.shiftl (Z.land b 15) 2) z))) 2).
Definition out2 (y c : Z) : Z :=
  Z.lor (u8 (Z.shiftl (sextet (uu_chr (Z.lor (Z.shiftl y 2) (Z.shiftr c 6)))) 6)) (sextet (uu_chr (Z.land c 63))).

Lemma out0_id a y : is_byte a -> 0 <= y < 16 -> out0 a y = a.
Proof.
  intros Ha Hy. apply Z.eqb_eq. apply (range2 256 16 (fun a y => out0 a y =? a)); [vm_compute; reflexivity|exact Ha|lia].
Qed.

Lemma out1_id x b z : 0 <= x < 4 -> is_byte b -> 0 <= z < 4 -> out1 x b z = b.
Proof.
  intros Hx Hb Hz.
  pose proof (range2 16 256 (fun k b => out1 (k / 4) b (k mod 4) =? b) (x * 4 + z) b
    ltac:(vm_compute; reflexivity) ltac:(lia) Hb) as H. cbv beta in H.
  rewrite Z.add_comm, Z.div_add, Z.mod_add, Z.div_small, Z.mod_small in H by lia. by apply Z.eqb_eq.
Qed.

Lemma out2_id y c : 0 <= y < 16 -> is_byte c -> out2 y c = c.
Proof.
  intros Hy Hc. apply Z.eqb_eq. apply (range2 16 256 (fun y c => out2 y c =? c)); [vm_compute; reflexivity|lia|exact Hc].
Qed.

Lemma group_out a b c : is_byte a -> is_byte b -> is_byte c ->
  out0 a (Z.shiftr b 4) = a /\ out1 (Z.land a 3) b (Z.shiftr c 6) = b /\ out2 (Z.land b 15) c = c.
Proof.
  unfold is_byte. intros Ha Hb Hc. split_and!.
  - apply out0_id; [done|]. apply shiftr_range; lia.
  - apply out1_id; [apply (land_range a 2); lia|done|]. apply shiftr_range; lia.
  - apply out2_id; [apply (land_range b 4); lia|done].
Qed.

Lemma uu_groups_encode fuel d : Forall is_byte d -> (length d < fuel)%nat ->
  uu_groups fuel (length d) (uu_encode d) = Some d.
Proof.
  assert (is_byte 0) as H0 by (unfold is_byte; lia).
  revert d. induction fuel as [|fuel IH]; intros d Hd Hf; [lia|].
  destruct d as [|a [|b [|c d]]]; [done|..]; cbn [length] in *; rewrite ?Forall_cons in Hd; cbn [uu_groups uu_encode uu_group app].
  - destruct Hd as [Ha _]. destruct (group_out a 0 0) as (E & _ & _); [done..|]. unfold out0 in E. by rewrite E.
  - destruct Hd as (Ha & Hb & _). destruct (group_out a b 0) as (E1 & E2 & _); [done..|]. unfold out0, out1 in *.
    by rewrite E1, E2.
  - destruct Hd as (Ha & Hb & Hc & Hd). destruct (group_out a b c) as (E1 & E2 & E3); [done..|].
    unfold out0, out1, out2 in *. rewrite E1, E2, E3, IH by (done || lia). done.
Qed.

Lemma uu_encode_length d : length (uu_encode d) = ((length d + 2) / 3 * 4)%nat.
Proof.
  remember (length d) as n eqn:Hn. revert d Hn. induction n as [n IH] using lt_wf_ind. intros d ->.
  destruct d as [|a [|b [|c d]]]; [done..|]. cbn [uu_encode length]. rewrite length_app.
  rewrite (IH (length d)) by (simpl; lia || done).
  replace (S (S (S (length d))) + 2)%nat with (length d + 2 + 1 * 3)%nat by lia. rewrite Nat.div_add by lia.
  cbn [uu_group length]. lia.
Qed.

Lemma decodeUULine_encode d : Forall is_byte d -> decodeUULine (uu_encode d) (length d) = Some d.
Proof.
  intros Hd. unfold decodeUULine. rewrite decide_False by (rewrite uu_encode_length; lia).
  rewrite uu_groups_encode by (done || lia). cbn [mbind option_bind]. rewrite decide_True by lia.
  by rewrite firstn_all.
Qed.

(** The characters of a line. *)
Definition uu_alphabet (c : Z) : Prop := 32 < c <= 96.

Lemma uu_chr_alphabet v : 0 <= v < 64 -> uu_alphabet (uu_chr v).
Proof. intros Hv. unfold uu_chr, uu_alphabet. case_decide; lia. Qed.

Lemma sextet_chr v : 0 <= v < 64 -> sextet (uu_chr v) = v.
Proof.
  intros Hv. apply Z.eqb_eq.
  apply (range2 64 1 (fun v _ => sextet (uu_chr v) =? v) v 0); [vm_compute; reflexivity|lia|lia].
Qed.

Lemma second_range x b : 0 <= x < 4 -> is_byte b -> 0 <= Z.lor (Z.shiftl x 4) (Z.shiftr b 4) < 64.
Proof.
  intros Hx Hb. pose proof (range2 4 256 (fun x b => let v := Z.lor (Z.shiftl x 4) (Z.shiftr b 4) in (0 <=? v) && (v <? 64))
    x b ltac:(vm_compute; reflexivity) Hx Hb) as H. cbv beta zeta in H. lia.
Qed.

Lemma third_range y c : 0 <= y < 16 -> is_byte c -> 0 <= Z.lor (Z.shiftl y 2) (Z.shiftr c 6) < 64.
Proof.
  intros Hy Hc. pose proof (range2 16 256 (fun x b => let v := Z.lor (Z.shiftl x 2) (Z.shiftr b 6) in (0 <=? v) && (v <? 64))
    y c ltac:(vm_compute; reflexivity) Hy Hc) as H. cbv beta zeta in H. lia.
Qed.

Lemma uu_group_alphabet a b c : is_byte a -> is_byte b -> is_byte c -> Forall uu_alphabet (uu_group a b c).
Proof.
  intros Ha Hb Hc. unfold uu_group. rewrite !Forall_cons. split_and!; try apply uu_chr_alphabet.
  - apply (shiftr_range a 2 64); unfold is_byte in *; lia.
  - apply second_range; [apply (land_range a 2); lia|done].
  - apply third_range; [apply (land_range b 4); lia|done].
  - apply (land_range c 6). lia.
  - constructor.
Qed.

Lemma uu_encode_alphabet d : Forall is_byte d -> Forall uu_alphabet (uu_encode d).
Proof.
  assert (is_byte 0) as H0 by (unfold is_byte; lia).
  remember (length d) as n eqn:Hn. revert d Hn. induction n as [n IH] using lt_wf_ind. intros d -> Hd.
  destruct d as [|a [|b [|c d]]]; rewrite ?Forall_cons in Hd; cbn [uu_encode]; [constructor|..].
  - destruct Hd. by apply uu_group_alphabet.
  - destruct Hd as (? & ? & _). by apply uu_group_alphabet.
  - destruct Hd as (? & ? & ? & Hd). apply Forall_app. split; [by apply uu_group_alphabet|]. by apply (IH (length d)); [simpl; lia|..].
Qed.

Lemma alphabet_trim l : Forall uu_alphabet l -> TrimRight l [CR] = l.
Proof.
  intros H. apply TrimRight_id. intros b Hb. apply last_Some in Hb as [l' ->]. apply Forall_app in H as [_ H].
  inversion H as [|? ? Hb _]. subst. unfold uu_alphabet, CR in *. cbn. rewrite orb_false_r. apply Z.eqb_neq. lia.
Qed.

Lemma uu_lines_encode fuel chunks rest out :
  Forall (fun d => Forall is_byte d /\ (1 <= length d < 64)%nat) chunks ->
  (length (concat (uu_line <$> chunks) ++ rest) < fuel)%nat ->
  exists fuel', (length rest < fuel')%nat /\
  uu_lines fuel (concat (uu_line <$> chunks) ++ rest) out = uu_lines fuel' rest (out ++ concat chunks).
Proof.
  intros H. revert fuel out. induction H as [|d chunks [Hd Hl] H IH]; intros fuel out Hf.
  - exists fuel. split; [done|]. by rewrite app_nil_r.
  - cbn [fmap list_fmap concat] in *. destruct fuel as [|fuel]; [lia|].
    assert (Forall uu_alphabet (uu_chr (Z.of_nat (length d)) :: uu_encode d)) as Ha
      by (constructor; [apply uu_chr_alphabet; lia|by apply uu_encode_alphabet]).
    rewrite <- app_assoc. unfold uu_line at 1.
    set (X := concat (uu_line <$> chunks) ++ rest) in *. cbn [uu_lines].
    assert (Cut ((uu_chr (Z.of_nat (length d)) :: uu_encode d ++ [CR; LF]) ++ X) LF =
      Some ((uu_chr (Z.of_nat (length d)) :: uu_encode d) ++ [CR], X)) as ->.
    { etrans; [|apply Cut_app].
      - f_equal. cbn [app]. rewrite <- !app_assoc. done.
      - apply Forall_app. split; [|repeat constructor; discriminate].
        eapply Forall_impl; [exact Ha|]. unfold uu_alphabet, LF. intros b Hb. lia. }
    rewrite TrimRight_app by repeat constructor. rewrite alphabet_trim by done.
    rewrite decide_False.
    2:{ intros E. assert (uu_chr (Z.of_nat (length d)) = 101) as Hx by (by injection E).
        rewrite Forall_cons in Ha. unfold uu_alphabet in Ha. lia. }
    rewrite sextet_chr, Nat2Z.id, decide_False by lia. rewrite decodeUULine_encode by done. cbn [mbind option_bind].
    destruct (IH fuel (out ++ d)) as (f' & Hf' & E).
    + assert (1 <= length (uu_line d))%nat by (unfold uu_line; cbn [length]; lia).
      rewrite !length_app in Hf. unfold X. rewrite length_app. lia.
    + exists f'. split; [done|]. rewrite E. by rewrite <- app_assoc.
Qed.

(** UU-decoding a UU-encoded file is the identity, whatever its bytes
    and however they were cut into lines of at most 63, for a file name that
    may hold spaces but does not end in one. *)
Theorem uu_roundtrip name chunks :
  name <> [] -> Forall (fun b => b <> LF) name ->
  (forall b, last name = Some b -> existsb (Z.eqb b) [CR; SP] = false) ->
  Forall (fun d => Forall is_byte d /\ (1 <= length d < 64)%nat) chunks ->
  Z.of_nat (length (uu_post name chunks)) <= maxDecodeSize ->
  DecodeUU (uu_post name chunks) = Some (Ok (concat chunks, name)).
Proof.
  intros Hne Hn Ht Hc Hs. unfold DecodeUU, DecodeUUBuf. rewrite decide_False by lia. clear Hs. unfold uu_post.
  set (rest := [96; LF] ++ bs "end" ++ [LF]). set (body := concat (uu_line <$> chunks) ++ rest).
  rewrite (app_assoc (bs "begin 644 ")). change ([LF] ++ body) with (LF :: body).
  rewrite Cut_app by (apply Forall_app; split; [repeat constructor; discriminate|done]).
  rewrite TrimRight_id.
  - change (SplitN 3 (bs "begin 644 " ++ name)) with [bs "begin"; bs "644"; name].
    cbv iota. rewrite decide_False by tauto.
    destruct (uu_lines_encode (S (length body)) chunks rest [] Hc) as (f & Hf & E); [unfold body; lia|].
    fold body in E. rewrite E. destruct f as [|f]; [lia|]. reflexivity.
  - intros b Hb. apply Ht. destruct name as [|c name] using rev_ind; [done|]. rewrite app_assoc, last_snoc in Hb.
    by rewrite last_snoc.
Qed.

Lemma uu_roundtrip_witness :
  DecodeUU (uu_post (bs "a b.txt") [[0; 255; 10; 13]; [61]]) = Some (Ok ([0; 255; 10; 13; 61], bs "a b.txt")).
Proof.
  apply (uu_roundtrip (bs "a b.txt") [[0; 255; 10; 13]; [61]]).
  - discriminate.
  - repeat constructor; discriminate.
  - intros b Hb. vm_compute in Hb. injection Hb as <-. reflexivity.
  - unfold is_byte. repeat constructor; simpl; lia.
  - vm_compute. discriminate.
Defined.
