(* ===== verification/Nntp.v ===== *)
(** * The NNTP wire ([internal/nntp: io.go, state.go, errors.go,
    capabilities.go, pipeline.go, conn.go])

    Lines, statuses and dot-stuffed bodies as a [bufio.Reader] delivers them,
    the tables of commands and responses, and the handshake.  A stream is the
    bytes that will arrive and how it ends. *)
From S2P Require Import Prelude GoBytes GoText Decoder UU.
From stdpp Require Import base numbers gmap list strings.
From Stdlib Require Import ZArith Lia.
Local Open Scope Z_scope.

(** ** Connection states *)
Inductive State : Type := StateDisconnected | StateConnected | StateAuthenticated | StateReady | StateClosed.
#[export] Instance State_eq_dec : EqDecision State.
Proof. solve_decision. Defined.

Definition canTransition (s next : State) : bool :=
  match s with
  | StateDisconnected => bool_decide (next ∈ [StateConnected; StateClosed])
  | StateConnected => bool_decide (next ∈ [StateAuthenticated; StateReady; StateClosed])
  | StateAuthenticated => bool_decide (next ∈ [StateReady; StateClosed])
  | StateReady => bool_decide (next ∈ [StateConnected; StateClosed])
  | StateClosed => false
  end.

(** ** Errors

    A wrapping keeps the error callers test for. *)
Inductive nntp_err : Type :=
| ErrClosed
| ErrIdleClosed
| ErrInvalidState
| ErrAuthRequired
| ErrAuthRejected
| ErrNoArticle
| ErrServerUnavailable
| ErrTransient
| ErrInvalidCredential
| ErrDesynced
| ServerError (code : Z)
| ErrEOF
| ErrUnexpectedEOF
| ErrSocket            (* a read failed *)
| ErrWrite             (* a write or a flush failed *)
| ErrTooLong           (* a line or a body over its limit *)
| ErrStatus            (* a malformed status line *)
| ErrContext           (* the caller's context ended *)
| ErrUnderflow.
#[export] Instance nntp_err_eq_dec : EqDecision nntp_err.
Proof. solve_decision. Defined.

Definition classifyStatus (code : Z) : option nntp_err :=
  if decide (code = 430 \/ code = 423) then Some ErrNoArticle
  else if decide (code = 480) then Some ErrAuthRequired
  else if decide (code = 481 \/ code = 482) then Some ErrAuthRejected
  else if decide (code = 502 \/ code = 503) then Some ErrServerUnavailable
  else if decide (400 <= code < 600) then Some ErrTransient
  else None.

(** ** Text whose letters become ASCII ones

    [strings.ToLower] and [strings.ToUpper] as far as ASCII letters can be
    found in the result: two runes beyond ASCII become one each way; the other
    runes beyond ASCII stay beyond it and are left as they are. *)
Definition ToLowerText (s : list Z) : list Z :=
  concat ((fun r => if fst r =? 304 then [105] else if fst r =? 8490 then [107] else lower <$> snd r) <$> runes s).
Definition upper (b : Z) : Z := if decide (97 <= b <= 122) then b - 32 else b.
Definition ToUpperText (s : list Z) : list Z :=
  concat ((fun r => if fst r =? 305 then [73] else if fst r =? 383 then [83] else upper <$> snd r) <$> runes s).
Definition Contains (s t : list Z) : bool := bool_decide (is_Some (Index s t)).

(** ** Reading *)
Inductive io_end : Type := EndEOF | EndErr.

(** What [ReadSlice] returns: a line, a full buffer, or what was left with the
    stream's end. *)
Inductive slice : Type :=
| SliceLine (chunk : list Z)
| SliceFull (chunk : list Z)
| SliceEnd (chunk : list Z).

Definition maxResponseLineLen : Z := 2048.
Definition maxBodySize : Z := 10 * 1024 * 1024.

Definition trimCRLF (s : list Z) : list Z :=
  let n := length s in
  if decide (2 <= n /\ s !! (n - 2) = Some CR /\ s !! (n - 1) = Some LF)%nat then take (n - 2) s
  else if decide (1 <= n /\ s !! (n - 1) = Some LF)%nat then take (n - 1) s
  else s.

Definition end_err (e : io_end) : nntp_err := match e with EndEOF => ErrEOF | EndErr => ErrSocket end.

Section reader.
(** The size of the reader's buffer. *)
Variable size : nat.

(** [ReadSlice('\n')], and the rest of the stream. *)
Definition ReadSlice (s : list Z) : slice * list Z :=
  match IndexByte (take size s) LF with
  | Some i => (SliceLine (take (S i) s), drop (S i) s)
  | None => if decide (size <= length s)%nat then (SliceFull (take size s), drop size s) else (SliceEnd s, [])
  end.

(** The rest of an oversized line is read and dropped. *)
Fixpoint discard_line (fuel : nat) (s : list Z) : list Z :=
  match fuel with
  | O => s
  | S k => match ReadSlice s with
           | (SliceFull _, s) => discard_line k s
           | (_, s) => s
           end
  end.

Fixpoint line_loop (fuel : nat) (line s : list Z) (e : io_end) : result nntp_err (list Z) * list Z :=
  match fuel with
  | O => (Err ErrTooLong, s)
  | S k =>
      match ReadSlice s with
      | (SliceLine chunk, s) =>
          let line := line ++ chunk in
          (if decide (Z.of_nat (length line) > maxResponseLineLen) then Err ErrTooLong else Ok (trimCRLF line), s)
      | (SliceFull chunk, s) =>
          let line := line ++ chunk in
          if decide (Z.of_nat (length line) > maxResponseLineLen) then (Err ErrTooLong, discard_line k s)
          else line_loop k line s e
      | (SliceEnd chunk, s) =>
          (Err match e with
               | EndEOF => if decide (line ++ chunk = []) then ErrEOF else ErrUnexpectedEOF
               | EndErr => ErrSocket
               end, s)
      end
  end.
Definition readResponseLine (s : list Z) (e : io_end) : result nntp_err (list Z) * list Z := line_loop (S (length s)) [] s e.

(** One line of a body: its content without the line's end. *)
Definition body_line (line : list Z) : list Z :=
  let fin := (length line - 1)%nat in
  take (if decide (0 < fin /\ line !! (fin - 1) = Some CR)%nat then fin - 1 else fin) line.

Fixpoint body_loop (fuel : nat) (buf s : list Z) (e : io_end) : result nntp_err (list Z) * list Z :=
  match fuel with
  | O => (Err ErrUnexpectedEOF, s)
  | S k =>
      match ReadSlice s with
      | (SliceEnd _, s) => (Err match e with EndEOF => ErrUnexpectedEOF | EndErr => ErrSocket end, s)
      | (SliceFull _, s) => (Err ErrTooLong, s)
      | (SliceLine line, s) =>
          let body := body_line line in
          if decide (body = [dot]) then (Ok buf, s)
          else
            let body := match body with b :: r => if b =? dot then r else body | [] => body end in
            if decide (Z.of_nat (length buf + length body + 1) > maxBodySize) then (Err ErrTooLong, s)
            else body_loop k (buf ++ body ++ [LF]) s e
      end
  end.
Definition readDotStuffedBody (s : list Z) (e : io_end) : result nntp_err (list Z) * list Z := body_loop (S (length s)) [] s e.
End reader.

Definition parseStatus (line : list Z) : result nntp_err (Z * list Z) :=
  match line with
  | a :: b :: c :: rest =>
      match decimal a, decimal b, decimal c with
      | Some x, Some y, Some z =>
          let code := x * 100 + y * 10 + z in
          match rest with
          | [] => Ok (code, [])
          | d :: text => if d =? SP then Ok (code, text) else Err ErrStatus
          end
      | _, _, _ => Err ErrStatus
      end
  | _ => Err ErrStatus
  end.

(** ** Commands *)
Inductive cmdKind : Type :=
| cmdBody | cmdArticle | cmdHead | cmdStat | cmdCapabilities | cmdDate | cmdQuit | cmdAuthInfoUser | cmdAuthInfoPass.
#[export] Instance cmdKind_eq_dec : EqDecision cmdKind.
Proof. solve_decision. Defined.

(** The success code, whether a body follows, and whether the status line
    echoes the Message-ID. *)
Definition successResponse (k : cmdKind) : Z * bool * bool :=
  match k with
  | cmdBody => (222, true, true)
  | cmdArticle => (220, true, true)
  | cmdHead => (221, true, true)
  | cmdStat => (223, false, true)
  | cmdCapabilities => (101, true, false)
  | _ => (0, false, false)
  end.

Definition verb (k : cmdKind) : list Z :=
  match k with
  | cmdBody => bs "BODY"
  | cmdArticle => bs "ARTICLE"
  | cmdHead => bs "HEAD"
  | cmdStat => bs "STAT"
  | _ => []
  end.

Notation LT := 60 (only parsing).
Notation GT := 62 (only parsing).
Definition crlf : list Z := [CR; LF].

(** The bytes of [newArticleCmd]. *)
Definition article_wire (k : cmdKind) (messageID : list Z) : list Z := verb k ++ [SP; LT] ++ messageID ++ [GT] ++ crlf.

(** A field in angle brackets, and what is in them. *)
Definition bracketed (field : list Z) : option (list Z) :=
  match field with
  | a :: r => if decide (a = LT /\ 3 <= length field /\ last field = Some GT)%nat then Some (take (length field - 2) r) else None
  | [] => None
  end.

Fixpoint msgid_loop (fuel : nat) (rest : list Z) : option (list Z) :=
  match fuel, rest with
  | S k, _ :: _ =>
      let '(field, rest) := match Cut rest SP with Some p => p | None => (rest, []) end in
      match bracketed field with
      | Some id => Some id
      | None => msgid_loop k rest
      end
  | _, _ => None
  end.
Definition messageIDFromStatusLine (text : list Z) : option (list Z) := msgid_loop (length text) text.

Definition isServerIdleDisconnect (code : Z) (text : list Z) : bool :=
  if decide (code = 205) then true
  else if negb (bool_decide (code = 400)) then false
  else let l := ToLowerText text in Contains l (bs "idle") || Contains l (bs "timeout").

Record cmdResult : Type := mkResult {
  r_code : Z;
  r_line : list Z;
  r_body : list Z;
  r_err : option nntp_err;
  r_success : bool;
}.
Definition failed_result (e : nntp_err) : cmdResult := mkResult 0 [] [] (Some e) false.
Definition with_err (r : cmdResult) (e : nntp_err) : cmdResult := mkResult (r_code r) (r_line r) (r_body r) (Some e) (r_success r).

(** What [Fetch] returns for a delivered result. *)
Definition fetched (r : cmdResult) : result nntp_err (list Z) :=
  match r_err r with
  | Some e => Err e
  | None =>
      match classifyStatus (r_code r) with
      | Some sentinel => Err sentinel
      | None => if r_success r then Ok (r_body r) else Err (ServerError (r_code r))
      end
  end.
(** And [Stat]. *)
Definition stated (r : cmdResult) : result nntp_err unit :=
  match fetched r with Ok _ => Ok tt | Err e => Err e end.

(** ** Capabilities *)
Record Capabilities : Type := mkCaps {
  HasBody : bool;
  HasStat : bool;
  HasOver : bool;
  HasHDR : bool;
  HasPost : bool;
  HasIHave : bool;
  HasCompress : bool;
  Version : Z;
  Raw : list (list Z);
}.
Definition defaultCapabilities : Capabilities := mkCaps true true false false false false false 0 [].

Fixpoint Split (fuel : nat) (s : list Z) (c : Z) : list (list Z) :=
  match fuel with
  | O => [s]
  | S k => match Cut s c with
           | Some (l, r) => l :: Split k r c
           | None => [s]
           end
  end.

(** One advertised line. *)
Definition capability (caps : Capabilities) (line : list Z) : Capabilities :=
  let line := TrimSpace (TrimRight line [CR]) in
  if decide (line = []) then caps
  else
    let '(mkCaps b s o h p i c v raw) := caps in
    let raw := raw ++ [line] in
    let '(word, arg) := match Cut line SP with Some (l, r) => (l, Some r) | None => (line, None) end in
    let v' := match arg with Some r => default v (ParseInt (TrimSpace r)) | None => v end in
    let w := ToUpperText word in
    if decide (w = bs "VERSION") then mkCaps b s o h p i c v' raw
    else if decide (w = bs "READER") then mkCaps true true o h p i c v raw
    else if decide (w = bs "BODY") then mkCaps true s o h p i c v raw
    else if decide (w = bs "STAT") then mkCaps b true o h p i c v raw
    else if decide (w = bs "OVER") then mkCaps b s true h p i c v raw
    else if decide (w = bs "HDR") then mkCaps b s o true p i c v raw
    else if decide (w = bs "POST") then mkCaps b s o h true i c v raw
    else if decide (w = bs "IHAVE") then mkCaps b s o h p true c v raw
    else if decide (w = bs "XFEATURE-COMPRESS") then mkCaps b s o h p i true v raw
    else mkCaps b s o h p i c v raw.

Definition parseCapabilities (body : list Z) : Capabilities :=
  foldl capability (mkCaps false false false false false false false 0 []) (Split (length body) body LF).

(** ** The handshake

    [k_in] and [k_end] are the server's stream, [k_out] what was written, and
    [k_sends] says of each write in turn whether it goes through. *)
Record wire : Type := mkWire {
  k_in : list Z;
  k_end : io_end;
  k_out : list (list Z);
  k_sends : list bool;
  k_state : State;
}.

Definition setState (w : wire) (next : State) : wire * option nntp_err :=
  if canTransition (k_state w) next then (mkWire (k_in w) (k_end w) (k_out w) (k_sends w) next, None)
  else (w, Some ErrInvalidState).

(** A write and its flush. *)
Definition send (w : wire) (cmd : list Z) : wire * bool :=
  let ok := match k_sends w with b :: _ => b | [] => true end in
  (mkWire (k_in w) (k_end w) (if ok then k_out w ++ [cmd] else k_out w) (tail (k_sends w)) (k_state w), ok).

Section handshake.
Variable size : nat.

(** A response line and its status. *)
Definition readStatus (w : wire) : wire * result nntp_err (Z * list Z) :=
  let '(r, rest) := readResponseLine size (k_in w) (k_end w) in
  (mkWire rest (k_end w) (k_out w) (k_sends w) (k_state w),
   match r with Ok line => parseStatus line | Err e => Err e end).

Definition expectGreeting (w : wire) : wire * option nntp_err :=
  let '(w, r) := readStatus w in
  match r with
  | Err e => (w, Some e)
  | Ok (code, _) => if decide (code <> 200 /\ code <> 201) then (w, Some (ServerError code)) else setState w StateConnected
  end.

Definition validateCredential (val : list Z) : bool := negb (ContainsAny val [CR; LF; 0]).

(** The answer to one AUTHINFO command; [None] is a prompt for a password. *)
Definition auth_answer (w : wire) (prompt : bool) : wire * option (option nntp_err) :=
  let '(w, r) := readStatus w in
  match r with
  | Err e => (w, Some (Some e))
  | Ok (code, _) =>
      if decide (code = 281) then let '(w, e) := setState w StateAuthenticated in (w, Some e)
      else if decide (prompt = true /\ code = 381) then (w, None)
      else if decide (code = 481 \/ code = 482) then (w, Some (Some ErrAuthRejected))
      else (w, Some (Some (ServerError code)))
  end.

Definition authenticate (w : wire) (user pass : list Z) : wire * option nntp_err :=
  if negb (validateCredential user) then (w, Some ErrInvalidCredential)
  else if negb (validateCredential pass) then (w, Some ErrInvalidCredential)
  else
    let '(w, ok) := send w (bs "AUTHINFO USER " ++ user ++ crlf) in
    if negb ok then (w, Some ErrWrite)
    else
      let '(w, a) := auth_answer w true in
      match a with
      | Some e => (w, e)
      | None =>
          let '(w, ok) := send w (bs "AUTHINFO PASS " ++ pass ++ crlf) in
          if negb ok then (w, Some ErrWrite)
          else let '(w, a) := auth_answer w false in (w, default None a)
      end.

Definition probeCapabilities (w : wire) : wire * Capabilities :=
  let '(w, ok) := send w (bs "CAPABILITIES" ++ crlf) in
  if negb ok then (w, defaultCapabilities)
  else
    let '(w, r) := readStatus w in
    match r with
    | Ok (101, _) =>
        let '(r, rest) := readDotStuffedBody size (k_in w) (k_end w) in
        (mkWire rest (k_end w) (k_out w) (k_sends w) (k_state w),
         match r with Ok body => parseCapabilities body | Err _ => defaultCapabilities end)
    | _ => (w, defaultCapabilities)
    end.

Definition handshake (w : wire) (user pass : list Z) : wire * Capabilities * option nntp_err :=
  let '(w, e) := expectGreeting w in
  match e with
  | Some e => (w, defaultCapabilities, Some e)
  | None =>
      let '(w, e) := if decide (user = []) then (w, None) else authenticate w user pass in
      match e with
      | Some e => (w, defaultCapabilities, Some e)
      | None =>
          let '(w, caps) := probeCapabilities w in
          let '(w, e) := setState w StateReady in
          (w, caps, e)
      end
  end.
End handshake.
