(* ===== verification/NntpConn.v ===== *)
(** * A live NNTP connection ([internal/nntp: pipeline.go, conn.go])

    Callers, the reader goroutine and [Close] over one connection, one event
    per span that holds a lock or works on the reader's own data.  Commands
    are numbered in the order their callers start; a [done] channel is closed
    when its command has a result, and closing one twice is a panic.  The
    stream is what the server will have sent; it may be cut short at any time,
    which is every way the socket can fail. *)
From S2P Require Import Prelude GoBytes GoText Decoder Nntp.
From stdpp Require Import base numbers gmap list strings.
From Stdlib Require Import ZArith Lia.
Local Open Scope Z_scope.

(** Where the caller of a command is. *)
Inductive caller : Type :=
| Acquired              (* holds a pipelining slot, not submitted *)
| Writing               (* on the FIFO, its bytes being written *)
| Waiting
| Orphaned              (* its context ended while it waited *)
| Refused (e : nntp_err)      (* the connection was closed before it was submitted *)
| WriteFailed (e : nntp_err)
| Returned (r : cmdResult).

Record command : Type := mkCommand {
  m_kind : cmdKind;
  m_msgID : list Z;
  m_at : caller;
  m_done : option cmdResult;
}.

Inductive reader : Type :=
| RdLoop                                        (* at the top of the loop *)
| RdPopped (n : nat) (code : Z) (text : list Z) (* a command is off the FIFO *)
| RdRelease                                     (* about to give its slot back *)
| RdFinish (e : nntp_err) (prePop : bool)
| RdExit.

(** [closeOnce]: not yet taken, inside [Close], done. *)
Inductive once : Type := OnceFree | OnceClosing | OnceDone.
#[export] Instance once_eq_dec : EqDecision once.
Proof. solve_decision. Defined.

Record Conn : Type := mkConn {
  c_state : State;
  c_cmds : gmap nat command;
  c_pending : list nat;
  c_sem : nat;
  c_sending : option nat;
  c_closed : option (option nntp_err);   (* [closeState] *)
  c_once : once;
  c_reader : reader;
  c_in : list Z;
  c_end : io_end;
  c_out : list (list Z);
  c_inFlight : Z;
  c_underflows : Z;
}.

Definition set_cmds (c : Conn) (m : gmap nat command) : Conn :=
  mkConn (c_state c) m (c_pending c) (c_sem c) (c_sending c) (c_closed c) (c_once c) (c_reader c) (c_in c) (c_end c) (c_out c) (c_inFlight c) (c_underflows c).
Definition set_pending (c : Conn) (l : list nat) : Conn :=
  mkConn (c_state c) (c_cmds c) l (c_sem c) (c_sending c) (c_closed c) (c_once c) (c_reader c) (c_in c) (c_end c) (c_out c) (c_inFlight c) (c_underflows c).
Definition set_sem (c : Conn) (n : nat) : Conn :=
  mkConn (c_state c) (c_cmds c) (c_pending c) n (c_sending c) (c_closed c) (c_once c) (c_reader c) (c_in c) (c_end c) (c_out c) (c_inFlight c) (c_underflows c).
Definition set_sending (c : Conn) (s : option nat) : Conn :=
  mkConn (c_state c) (c_cmds c) (c_pending c) (c_sem c) s (c_closed c) (c_once c) (c_reader c) (c_in c) (c_end c) (c_out c) (c_inFlight c) (c_underflows c).
Definition set_closed (c : Conn) (s : option (option nntp_err)) (o : once) : Conn :=
  mkConn (c_state c) (c_cmds c) (c_pending c) (c_sem c) (c_sending c) s o (c_reader c) (c_in c) (c_end c) (c_out c) (c_inFlight c) (c_underflows c).
Definition set_reader (c : Conn) (r : reader) : Conn :=
  mkConn (c_state c) (c_cmds c) (c_pending c) (c_sem c) (c_sending c) (c_closed c) (c_once c) r (c_in c) (c_end c) (c_out c) (c_inFlight c) (c_underflows c).
Definition set_in (c : Conn) (s : list Z) (e : io_end) : Conn :=
  mkConn (c_state c) (c_cmds c) (c_pending c) (c_sem c) (c_sending c) (c_closed c) (c_once c) (c_reader c) s e (c_out c) (c_inFlight c) (c_underflows c).
Definition set_out (c : Conn) (o : list (list Z)) : Conn :=
  mkConn (c_state c) (c_cmds c) (c_pending c) (c_sem c) (c_sending c) (c_closed c) (c_once c) (c_reader c) (c_in c) (c_end c) o (c_inFlight c) (c_underflows c).
Definition set_cstate (c : Conn) (s : State) : Conn :=
  mkConn s (c_cmds c) (c_pending c) (c_sem c) (c_sending c) (c_closed c) (c_once c) (c_reader c) (c_in c) (c_end c) (c_out c) (c_inFlight c) (c_underflows c).
Definition set_inFlight (c : Conn) (n u : Z) : Conn :=
  mkConn (c_state c) (c_cmds c) (c_pending c) (c_sem c) (c_sending c) (c_closed c) (c_once c) (c_reader c) (c_in c) (c_end c) (c_out c) n u.

(** The connection [Dial] returns, with what is left of the stream. *)
Definition dialled (s : list Z) (e : io_end) : Conn :=
  mkConn StateReady ∅ [] 0 None None OnceFree RdLoop s e [] 0 0.

Definition move_to (m : command) (a : caller) : command := mkCommand (m_kind m) (m_msgID m) a (m_done m).

(** The caller of [n] moves on. *)
Definition at_caller (c : Conn) (n : nat) (a : caller) : Conn := set_cmds c (alter (fun m => move_to m a) n (c_cmds c)).

(** [pc.result = r; close(pc.done)]; [None] is a panic. *)
Definition complete (c : Conn) (n : nat) (r : cmdResult) : option Conn :=
  m ← c_cmds c !! n;
  match m_done m with
  | Some _ => None
  | None => Some (set_cmds c (<[n := mkCommand (m_kind m) (m_msgID m) (m_at m) (Some r)]> (c_cmds c)))
  end.

Fixpoint complete_all (c : Conn) (l : list nat) (r : cmdResult) : option Conn :=
  match l with
  | [] => Some c
  | n :: l => c ← complete c n r; complete_all c l r
  end.

Definition beginCmd (c : Conn) : Conn := set_inFlight c (c_inFlight c + 1) (c_underflows c).
Definition endCmd (c : Conn) : Conn :=
  if decide (c_inFlight c <= 0) then set_inFlight c (c_inFlight c) (c_underflows c + 1)
  else set_inFlight c (c_inFlight c - 1) (c_underflows c).
Definition releaseSem (c : Conn) : Conn := set_sem c (pred (c_sem c)).

(** [unappendPending]. *)
Definition unappendPending (c : Conn) (n : nat) : Conn :=
  if decide (last (c_pending c) = Some n) then endCmd (set_pending c (take (length (c_pending c) - 1) (c_pending c))) else c.

Definition closeError (c : Conn) : nntp_err :=
  match c_closed c with Some (Some e) => e | _ => ErrClosed end.

(** ** Events *)
Inductive event : Type :=
| EvAcquire (n : nat) (k : cmdKind) (messageID : list Z)  (* a caller takes a slot *)
| EvSubmit (n : nat)                             (* [submit] up to its write *)
| EvWrite (n : nat) (ok : bool)                  (* the write and the flush *)
| EvCancel (n : nat)                             (* the caller's context ends *)
| EvReturn (n : nat)                             (* the caller sees [done] *)
| EvRead                                         (* the reader: a status line, and the FIFO's head *)
| EvAnswer                                       (* the reader: identity, body, result *)
| EvRelease                                      (* the reader gives the slot back *)
| EvFinish                                       (* the reader: [finishReader] *)
| EvCut (k : nat)                                (* the stream is cut short *)
| EvClose                                        (* [Close] up to closing the socket *)
| EvWake.                                        (* the rest of [Close] *)

Inductive outcome : Type :=
| Stepped (c : Conn)
| Blocked
| Panicked.

Definition or_panic (c : option Conn) : outcome := match c with Some c => Stepped c | None => Panicked end.

Section connection.
Variable size : nat.        (* the reader's buffer *)
Variable depth : nat.       (* [PipeliningRequests] *)

(** The reader's error [finishReaderWithMode] records. *)
Definition recorded (c : Conn) (e : nntp_err) (prePop : bool) : nntp_err :=
  if prePop && bool_decide (c_pending c = []) then ErrIdleClosed else e.

Definition finishReader (c : Conn) (e : nntp_err) (prePop : bool) : outcome :=
  match c_once c with
  | OnceClosing => Blocked
  | OnceDone => Stepped (set_reader c RdExit)
  | OnceFree =>
      let err := recorded c e prePop in
      let orphans := c_pending c in
      let c := set_closed (set_pending c []) (Some (Some err)) OnceDone in
      or_panic (complete_all (set_reader c RdExit) orphans (failed_result err))
  end.

(** The top of [runReader]'s loop. *)
Definition readHead (c : Conn) : Conn :=
  let '(r, rest) := readResponseLine size (c_in c) (c_end c) in
  let c := set_in c rest (c_end c) in
  match r with
  | Err e => set_reader c (RdFinish e true)
  | Ok line =>
      match parseStatus line with
      | Err e => set_reader c (RdFinish e true)
      | Ok (code, text) =>
          if isServerIdleDisconnect code text then set_reader c (RdFinish ErrIdleClosed false)
          else match c_pending c with
               | [] => set_reader c (RdFinish ErrIdleClosed false)
               | n :: rest => set_reader (set_pending c rest) (RdPopped n code text)
               end
      end
  end.

(** What follows for the command that was popped. *)
Definition answer (c : Conn) (n : nat) (code : Z) (text : list Z) : option Conn :=
  m ← c_cmds c !! n;
  let '(expected, hasBody, echoes) := successResponse (m_kind m) in
  let res := mkResult code text [] None (bool_decide (code = expected)) in
  let fail c e := c ← complete c n (with_err res e); Some (set_reader c (RdFinish e false)) in
  if r_success res && echoes && negb (bool_decide (messageIDFromStatusLine text = Some (m_msgID m))) then fail c ErrDesynced
  else if r_success res && hasBody then
    let '(b, rest) := readDotStuffedBody size (c_in c) (c_end c) in
    let c := set_in c rest (c_end c) in
    match b with
    | Err e => fail c e
    | Ok body => c ← complete c n (mkResult code text body None true); Some (set_reader (endCmd c) RdRelease)
    end
  else c ← complete c n res; Some (set_reader (endCmd c) RdRelease).

(** [submit] up to its write, under [sendLock]. *)
Definition submit (c : Conn) (n : nat) : Conn :=
  match c_closed c with
  | Some _ => at_caller (releaseSem c) n (Refused (closeError c))
  | None => at_caller (set_sending (beginCmd (set_pending c (c_pending c ++ [n]))) (Some n)) n Writing
  end.

(** The write, and what a failed one takes back. *)
Definition written (c : Conn) (n : nat) (m : command) (ok : bool) : Conn :=
  if ok then at_caller (set_sending (set_out c (c_out c ++ [article_wire (m_kind m) (m_msgID m)])) None) n Waiting
  else at_caller (set_sending (releaseSem (unappendPending c n)) None) n (WriteFailed (if bool_decide (closeError c = ErrIdleClosed) then ErrIdleClosed else ErrWrite)).

Definition cstep (c : Conn) (ev : event) : outcome :=
  match ev with
  | EvAcquire n k id =>
      if decide (c_state c = StateReady /\ (c_sem c < depth)%nat /\ c_cmds c !! n = None)
      then Stepped (set_sem (set_cmds c (<[n := mkCommand k id Acquired None]> (c_cmds c))) (S (c_sem c)))
      else Blocked
  | EvSubmit n =>
      match c_cmds c !! n, c_sending c with
      | Some (mkCommand _ _ Acquired _), None => Stepped (submit c n)
      | _, _ => Blocked
      end
  | EvWrite n ok =>
      match c_cmds c !! n with
      | Some (mkCommand _ _ Writing _ as m) => Stepped (written c n m ok)
      | _ => Blocked
      end
  | EvCancel n =>
      match c_cmds c !! n with
      | Some (mkCommand _ _ Waiting _) => Stepped (at_caller c n Orphaned)
      | _ => Blocked
      end
  | EvReturn n =>
      match c_cmds c !! n with
      | Some (mkCommand _ _ Waiting (Some r)) => Stepped (at_caller c n (Returned r))
      | _ => Blocked
      end
  | EvRead => match c_reader c with RdLoop => Stepped (readHead c) | _ => Blocked end
  | EvAnswer => match c_reader c with RdPopped n code text => or_panic (answer c n code text) | _ => Blocked end
  | EvRelease =>
      match c_reader c with
      | RdRelease =>
          Stepped (if decide (c_sem c = 0)%nat then set_reader c (RdFinish ErrUnderflow false) else set_reader (releaseSem c) RdLoop)
      | _ => Blocked
      end
  | EvFinish => match c_reader c with RdFinish e prePop => finishReader c e prePop | _ => Blocked end
  | EvCut k => Stepped (set_in c (take k (c_in c)) EndErr)
  | EvClose =>
      if decide (c_once c = OnceFree)
      then
        let c := set_closed c (Some None) OnceClosing in
        Stepped (if decide (c_state c = StateReady /\ c_sending c = None) then set_out c (c_out c ++ [bs "QUIT" ++ crlf]) else c)
      else Blocked
  | EvWake =>
      if decide (c_once c = OnceClosing)
      then
        let orphans := c_pending c in
        let c := set_closed (set_cstate (set_pending c []) (if canTransition (c_state c) StateClosed then StateClosed else c_state c))
                   (c_closed c) OnceDone in
        or_panic (complete_all c orphans (failed_result ErrClosed))
      else Blocked
  end.

(** A connection that runs through [evs]. *)
Fixpoint crun (c : Conn) (evs : list event) : outcome :=
  match evs with
  | [] => Stepped c
  | ev :: evs => match cstep c ev with Stepped c => crun c evs | o => o end
  end.

Definition conn_reachable (c : Conn) : Prop := exists s e evs, crun (dialled s e) evs = Stepped c.
End connection.
