(* ===== verification/NntpProps.v ===== *)
(** * Properties of an NNTP connection

    Over every interleaving of callers, reader and [Close], with any bytes
    from the server and the socket failing at any point. *)
From S2P Require Import Prelude GoBytes GoText Decoder Nntp NntpConn.
From stdpp Require Import base numbers gmap list strings.
From Stdlib Require Import ZArith Lia.
Local Open Scope Z_scope.

(** ** Counting the callers that hold a slot *)
Definition holds (m : command) : bool := match m_at m with Acquired => true | _ => false end.
Definition holders (cmds : gmap nat command) : nat := size (filter (fun p => holds (snd p) = true) cmds).

Lemma holders_insert cmds n m : holders (<[n := m]> cmds) = (holders (base.delete n cmds) + (if holds m then 1 else 0))%nat.
Proof.
  unfold holders. rewrite <- insert_delete_eq. destruct (holds m) eqn:E.
  - rewrite map_filter_insert_True by done. rewrite map_size_insert_None; [lia|]. apply map_lookup_filter_None. left. apply lookup_delete_eq.
  - rewrite map_filter_insert_False by (cbn; congruence). rewrite delete_delete_eq. lia.
Qed.

Lemma holders_delete cmds n m : cmds !! n = Some m -> holders cmds = (holders (base.delete n cmds) + (if holds m then 1 else 0))%nat.
Proof. intros H. rewrite <- holders_insert. by rewrite insert_id. Qed.

Lemma holders_replace cmds n m m' : cmds !! n = Some m ->
  (holders (<[n := m']> cmds) + (if holds m then 1 else 0) = holders cmds + (if holds m' then 1 else 0))%nat.
Proof. intros H. rewrite holders_insert, (holders_delete cmds n m H). lia. Qed.

Lemma holders_fresh cmds n m : cmds !! n = None -> holders (<[n := m]> cmds) = (holders cmds + (if holds m then 1 else 0))%nat.
Proof. intros H. rewrite holders_insert. by rewrite delete_id. Qed.

(** ** The invariant *)
Definition popped (c : Conn) : option nat := match c_reader c with RdPopped n _ _ => Some n | _ => None end.
Definition busy (c : Conn) : nat := match c_reader c with RdPopped _ _ _ | RdRelease => 1 | _ => 0 end.

(** No write has failed. *)
Definition write_failed (m : command) : bool := match m_at m with WriteFailed _ => true | _ => false end.
Definition quiet (c : Conn) : Prop := forall n m, c_cmds c !! n = Some m -> write_failed m = false.

(** A result delivered as a success answers the command it was asked for. *)
Definition answers_it (m : command) (r : cmdResult) : Prop :=
  let '(expected, _, echoes) := successResponse (m_kind m) in
  r_err r = None -> r_success r = bool_decide (r_code r = expected) /\
  (r_success r = true -> echoes = true -> messageIDFromStatusLine (r_line r) = Some (m_msgID m)).

(** What is true of a command wherever it is. *)
Definition command_ok (c : Conn) (n : nat) (m : command) : Prop :=
  (forall r, m_done m = Some r -> answers_it m r) /\
  match m_at m with
  | Acquired | Refused _ => m_done m = None /\ n ∉ c_pending c /\ popped c <> Some n
  | Writing => c_sending c = Some n /\ (is_Some (m_done m) \/ n ∈ c_pending c \/ popped c = Some n)
  | Waiting | Orphaned => is_Some (m_done m) \/ n ∈ c_pending c \/ popped c = Some n
  | WriteFailed _ => n ∉ c_pending c
  | Returned r => m_done m = Some r
  end /\
  (n ∈ c_pending c \/ popped c = Some n -> m_done m = None).

Record conn_ok (depth : nat) (c : Conn) : Prop := {
  co_nodup : NoDup (c_pending c);
  co_known : forall n, n ∈ c_pending c \/ popped c = Some n -> is_Some (c_cmds c !! n);
  co_popped : forall n, popped c = Some n -> n ∉ c_pending c;
  co_cmds : forall n m, c_cmds c !! n = Some m -> command_ok c n m;
  co_sending : forall n, c_sending c = Some n -> exists m, c_cmds c !! n = Some m /\ m_at m = Writing;
  co_last : forall n, c_sending c = Some n -> n ∈ c_pending c -> last (c_pending c) = Some n;
  co_closed : c_closed c = None <-> c_once c = OnceFree;
  co_drained : c_once c = OnceDone -> c_pending c = [];
  co_exit : c_reader c = RdExit -> c_once c = OnceDone;
  co_flight : Z.of_nat (length (c_pending c)) + Z.of_nat (if popped c then 1 else 0) <= c_inFlight c;
  co_underflows : c_underflows c = 0;
  co_depth : (c_sem c <= depth)%nat;
  co_slots : quiet c -> (holders (c_cmds c) + length (c_pending c) + busy c <= c_sem c)%nat;
}.

Lemma dialled_ok depth s e : conn_ok depth (dialled s e).
Proof.
  split; try done; cbn.
  - constructor.
  - intros n [H|H]; [by apply elem_of_nil in H|done].
  - lia.
Qed.

Lemma command_ok_ext c c' x m : (x ∈ c_pending c' <-> x ∈ c_pending c) -> (popped c' = Some x <-> popped c = Some x) ->
  (c_sending c = Some x -> c_sending c' = Some x) -> command_ok c x m -> command_ok c' x m.
Proof.
  intros E1 E2 E3 (H1 & H2 & H3). split; [done|]. rewrite E1, E2. split; [|done]. destruct (m_at m); naive_solver.
Qed.

(** Only the caller of one command moves. *)
Lemma at_caller_spec c0 c n a m : c_cmds c0 = c_cmds c -> c_cmds c !! n = Some m -> c_cmds (at_caller c0 n a) = <[n := move_to m a]> (c_cmds c).
Proof. intros <- H. unfold at_caller. cbn. apply map_eq. intros x. destruct (decide (x = n)) as [->|Hx].
  - by rewrite lookup_alter_eq, lookup_insert_eq, H.
  - by rewrite lookup_alter_ne, lookup_insert_ne.
Qed.

Lemma quiet_replace c c' n m m' : c_cmds c !! n = Some m -> c_cmds c' = <[n := m']> (c_cmds c) -> write_failed m = false -> quiet c' -> quiet c.
Proof.
  intros H E Hm Q x mx Hx. destruct (decide (x = n)) as [->|Hne]; [congruence|]. apply (Q x). by rewrite E, lookup_insert_ne.
Qed.

(** A step of one caller that leaves FIFO, reader and closing alone. *)
Lemma caller_step depth c c' n m m' : conn_ok depth c -> c_cmds c !! n = Some m -> c_cmds c' = <[n := m']> (c_cmds c) ->
  c_pending c' = c_pending c -> c_reader c' = c_reader c -> c_closed c' = c_closed c -> c_once c' = c_once c ->
  c_inFlight c' = c_inFlight c -> c_underflows c' = c_underflows c -> (c_sem c' <= c_sem c)%nat ->
  (forall x, c_sending c' = Some x <-> c_sending c = Some x /\ (x = n -> m_at m' = Writing)) ->
  command_ok c' n m' -> write_failed m = false ->
  (quiet c' -> holders (c_cmds c) + length (c_pending c) + busy c <= c_sem c ->
    holders (c_cmds c') + length (c_pending c) + busy c <= c_sem c')%nat -> conn_ok depth c'.
Proof.
  intros [O1 O2 O3 O4 O5 OL O6 O7 O8 O9 O10 O11 O12] H E Ep Er Ec Eo Ef Eu Es Esd Hok Hm Hs.
  assert (popped c' = popped c) as Epp by (unfold popped; by rewrite Er). assert (busy c' = busy c) as Eb by (unfold busy; by rewrite Er).
  split; rewrite ?Ep, ?Epp, ?Er, ?Ec, ?Eo, ?Ef, ?Eu, ?Eb; try done.
  - intros x Hx. rewrite E. apply lookup_insert_is_Some'. right. by apply O2.
  - intros x mx. rewrite E. intros [[-> ->]|[Hne Hx]]%lookup_insert_Some; [done|].
    eapply command_ok_ext; [by rewrite Ep|by rewrite Epp| |by apply O4]. intros Hsd. apply Esd. by split.
  - intros x Hx. rewrite E. destruct (decide (x = n)) as [->|Hne]; [rewrite lookup_insert_eq|].
    + exists m'. split; [done|]. by apply Esd in Hx as [_ Hx]; apply Hx.
    + rewrite lookup_insert_ne by done. apply O5. by apply Esd in Hx as [? _].
  - intros x Hx Hin. apply OL; [|done]. by apply Esd in Hx as [? _].
  - lia.
  - intros Q. apply Hs; [done|]. apply O12. by eapply quiet_replace.
Qed.

Definition safe (depth : nat) (o : outcome) : Prop :=
  match o with Stepped c => conn_ok depth c | Blocked => True | Panicked => False end.

Section steps.
Variables size depth : nat.
Notation step := (cstep size depth).

Lemma acquire_ok c n k id : conn_ok depth c -> safe depth (step c (EvAcquire n k id)).
Proof.
  intros C. cbn. destruct (decide _) as [(Hs & Hd & Hn)|]; [|done]. pose proof C as [O1 O2 O3 O4 O5 OL O6 O7 O8 O9 O10 O11 O12].
  assert (forall x, x ∈ c_pending c \/ popped c = Some x -> x <> n) as Hne.
  { intros x Hx ->. apply O2 in Hx as [? ?]. congruence. }
  split; cbn; try done.
  - intros x Hx. apply lookup_insert_is_Some'. right. by apply O2.
  - intros x mx [[<- <-]|[Hx Hmx]]%lookup_insert_Some.
    + split; [done|]. cbn. split; [|done]. split; [done|]. split; [intros H; by apply (Hne n); [by left|]|intros H; by apply (Hne n); [by right|]].
    + by eapply command_ok_ext; [| | |by apply O4].
  - intros x Hx. destruct (O5 _ Hx) as (mx & Hmx & Hw). exists mx. split; [|done]. rewrite lookup_insert_ne; [done|congruence].
  - intros Q. rewrite holders_fresh by done. cbn. unfold quiet in *. cbn in *.
    assert (forall x mx, c_cmds c !! x = Some mx -> write_failed mx = false) as Q'.
    { intros x mx Hx. apply (Q x). rewrite lookup_insert_ne; [done|congruence]. }
    specialize (O12 Q'). change (busy (set_sem _ _)) with (busy c). lia.
Qed.

Lemma submit_ok c n : conn_ok depth c -> safe depth (step c (EvSubmit n)).
Proof.
  intros C. cbn. destruct (c_cmds c !! n) as [[k id [] dn]|] eqn:Hn; try done. destruct (c_sending c) eqn:Es; [done|]. cbn.
  pose proof C as [O1 O2 O3 O4 O5 OL O6 O7 O8 O9 O10 O11 O12]. destruct (O4 _ _ Hn) as (_ & (Hd & Hp & Hpp) & _). cbn in Hd. subst dn.
  assert (forall c' a, c_cmds c' = c_cmds c -> c_cmds (at_caller c' n a) = <[n := mkCommand k id a None]> (c_cmds c)) as Hat.
  { intros c' a E. by rewrite (at_caller_spec c' c n a _ E Hn). }
  unfold submit. destruct (c_closed c) eqn:Ec.
  - eapply (caller_step depth c _ n); [done|exact Hn|by apply Hat|done..| | | |done|].
    + cbn. lia.
    + intros x. cbn. rewrite Es. naive_solver.
    + split; [done|]. split; [done|]. done.
    + intros Q Hs. rewrite Hat by done. pose proof (holders_replace _ n _ (mkCommand k id (Refused (closeError c)) None) Hn). cbn in *. lia.
  - set (c1 := at_caller _ n Writing). assert (c_cmds c1 = <[n := mkCommand k id Writing None]> (c_cmds c)) as E1 by (by apply Hat).
    assert (c_once c <> OnceDone) as Hno by (intros E; assert (c_once c = OnceFree) by (by apply O6); congruence).
    assert (popped c1 = popped c) as Epp by done.
    split; rewrite ?Epp; cbn -[c1]; try done.
    + change (c_pending c1) with (c_pending c ++ [n]). apply NoDup_app. split; [done|]. split; [|apply NoDup_singleton].
      intros x Hx ->%list_elem_of_singleton. done.
    + intros x. change (c_pending c1) with (c_pending c ++ [n]). rewrite elem_of_app, list_elem_of_singleton, E1, lookup_insert_is_Some'. naive_solver.
    + intros x Hx. change (c_pending c1) with (c_pending c ++ [n]). rewrite not_elem_of_app, list_elem_of_singleton. split; [by apply O3|].
      intros ->. done.
    + intros x mx. rewrite E1. intros [[<- <-]|[Hne Hx]]%lookup_insert_Some.
      * split; [done|]. cbn. split; [|done]. split; [done|]. right. left. set_solver.
      * eapply command_ok_ext; [|by rewrite Epp| |by apply O4]; [change (c_pending c1) with (c_pending c ++ [n]); set_solver|]. rewrite Es. done.
    + intros x [= <-]. rewrite E1, lookup_insert_eq. by eexists.
    + intros x [= <-] _. change (c_pending c1) with (c_pending c ++ [n]). apply last_snoc.
    + change (c_closed c1) with (c_closed c). by rewrite Ec.
    + change (c_pending c1) with (c_pending c ++ [n]). change (c_inFlight c1) with (c_inFlight c + 1). rewrite length_app. cbn. lia.
    + intros Q. rewrite E1. pose proof (holders_replace _ n _ (mkCommand k id Writing None) Hn) as Hh. cbn in Hh.
      change (c_pending c1) with (c_pending c ++ [n]). rewrite length_app. change (busy c1) with (busy c). cbn.
      assert (quiet c) as Q' by (eapply quiet_replace; [exact Hn|exact E1|done|done]). specialize (O12 Q'). lia.
Qed.

Lemma unappend_spec c n : conn_ok depth c -> c_sending c = Some n ->
  let c' := unappendPending c n in
  c_cmds c' = c_cmds c /\ c_sem c' = c_sem c /\ c_closed c' = c_closed c /\ c_once c' = c_once c /\ c_reader c' = c_reader c /\ c_underflows c' = 0 /\
  (forall x, x ∈ c_pending c' <-> x ∈ c_pending c /\ x <> n) /\ NoDup (c_pending c') /\
  Z.of_nat (length (c_pending c')) + Z.of_nat (if popped c then 1 else 0) <= c_inFlight c' /\ (c_pending c = [] -> c_pending c' = []).
Proof.
  intros [O1 O2 O3 O4 O5 OL O6 O7 O8 O9 O10 O11 O12] Es. cbv zeta. unfold unappendPending. case_decide as Hl.
  - apply last_Some in Hl as [l E]. rewrite E in O9. rewrite length_app in O9. cbn in O9.
    assert (take (length (c_pending c) - 1) (c_pending c) = l) as Et.
    { rewrite E, length_app. cbn. by rewrite Nat.add_sub, take_app_length. }
    unfold endCmd. rewrite decide_False by (cbn; lia). cbn [c_cmds set_inFlight set_pending c_sem c_closed c_once c_reader c_underflows c_pending c_inFlight].
    rewrite Et, E. rewrite E in O1. apply NoDup_app in O1 as (N1 & N2 & _). split_and!; try done.
    + intros x. rewrite elem_of_app, list_elem_of_singleton. split; [|naive_solver]. intros Hx. split; [by left|].
      intros ->. by apply (N2 n Hx), list_elem_of_singleton.
    + lia.
    + by destruct l.
  - split_and!; try done. intros x. split; [|naive_solver]. intros Hx. split; [done|]. intros ->. by apply Hl, OL.
Qed.

Lemma write_ok c n ok : conn_ok depth c -> safe depth (step c (EvWrite n ok)).
Proof.
  intros C. cbn. destruct (c_cmds c !! n) as [[k id [] dn]|] eqn:Hn; try done. cbn. set (m := mkCommand k id Writing dn) in *.
  pose proof C as [O1 O2 O3 O4 O5 OL O6 O7 O8 O9 O10 O11 O12]. destruct (O4 _ _ Hn) as (Ha & (Hs & Hw) & Hd). cbn in Hs, Hw, Hd.
  unfold written. destruct ok.
  - eapply (caller_step depth c _ n); [done|exact Hn|by apply at_caller_spec|done..| | | |].
    + intros x. cbn. rewrite Hs. naive_solver.
    + split; [done|]. split; [exact Hw|exact Hd].
    + done.
    + intros Q H. rewrite (at_caller_spec _ c n Waiting m) by done. pose proof (holders_replace _ n _ (move_to m Waiting) Hn) as Hh. cbn in *. lia.
  - destruct (unappend_spec c n C Hs) as (U1 & U2 & U3 & U4 & U5 & U6 & U7 & U8 & U9 & U10). set (cu := unappendPending c n) in *.
    set (we := WriteFailed _). set (c1 := at_caller _ n we).
    assert (c_cmds c1 = <[n := move_to m we]> (c_cmds c)) as E1 by (apply at_caller_spec; done).
    assert (popped c1 = popped c) as Epp by (unfold popped; cbn; by rewrite U5).
    split; rewrite ?Epp; cbn -[c1]; try done.
    + intros x Hx. rewrite E1. apply lookup_insert_is_Some'. right. apply O2. destruct Hx as [Hx%U7|Hx]; [left; apply Hx|by right].
    + intros x Hx [Hin _]%U7. by apply (O3 x).
    + intros x mx. rewrite E1. intros [[<- <-]|[Hne Hx]]%lookup_insert_Some.
      * split; [done|]. cbn. split; [intros [_ H]%U7; done|]. intros [[_ ?]%U7|H]; [done|]. apply Hd. right. by rewrite <- Epp.
      * eapply command_ok_ext; [| |intros H|by apply O4]; [change (c_pending c1) with (c_pending cu); rewrite U7; naive_solver|by rewrite Epp|congruence].
    + change (c_closed c1) with (c_closed cu). change (c_once c1) with (c_once cu). by rewrite U3, U4.
    + change (c_once c1) with (c_once cu). rewrite U4. intros H. by apply U10, O7.
    + change (c_reader c1) with (c_reader cu). change (c_once c1) with (c_once cu). by rewrite U5, U4.
    + change (c_sem c1) with (pred (c_sem cu)). rewrite U2. lia.
    + intros Q. assert (write_failed (move_to m we) = false) as H by (apply (Q n); by rewrite E1, lookup_insert_eq). done.
Qed.

Lemma cancel_ok c n : conn_ok depth c -> safe depth (step c (EvCancel n)).
Proof.
  intros C. cbn. destruct (c_cmds c !! n) as [[k id [] dn]|] eqn:Hn; try done. cbn.
  pose proof (co_cmds _ _ C _ _ Hn) as (Ha & Hw & Hd). cbn in Hw, Hd.
  eapply (caller_step depth c _ n); [done|exact Hn|by apply at_caller_spec|done..| | | |].
  - intros x. cbn. split; [|naive_solver]. intros H. split; [done|]. intros ->. destruct (co_sending _ _ C _ H) as (m & Hm & Hm'). rewrite Hn in Hm. by injection Hm as <-.
  - split; [done|]. by split.
  - done.
  - intros Q H. rewrite (at_caller_spec _ c n Orphaned _ eq_refl Hn). pose proof (holders_replace _ n _ (mkCommand k id Orphaned dn) Hn) as Hh. unfold move_to. cbn in *. lia.
Qed.

Lemma return_ok c n : conn_ok depth c -> safe depth (step c (EvReturn n)).
Proof.
  intros C. cbn. destruct (c_cmds c !! n) as [[k id [] [r|]]|] eqn:Hn; try done. cbn.
  pose proof (co_cmds _ _ C _ _ Hn) as (Ha & Hw & Hd). cbn in Hw, Hd.
  eapply (caller_step depth c _ n); [done|exact Hn|by apply at_caller_spec|done..| | | |].
  - intros x. cbn. split; [|naive_solver]. intros H. split; [done|]. intros ->. destruct (co_sending _ _ C _ H) as (m & Hm & Hm'). rewrite Hn in Hm. by injection Hm as <-.
  - split; [done|]. by split.
  - done.
  - intros Q H. rewrite (at_caller_spec _ c n (Returned r) _ eq_refl Hn). pose proof (holders_replace _ n _ (mkCommand k id (Returned r) (Some r)) Hn) as Hh. unfold move_to. cbn in *. lia.
Qed.

(** The reader's own moves: only its place, the stream and the slots change. *)
Lemma reader_step c c' : conn_ok depth c -> c_cmds c' = c_cmds c -> c_pending c' = c_pending c -> c_sending c' = c_sending c ->
  c_closed c' = c_closed c -> c_once c' = c_once c -> c_inFlight c' = c_inFlight c -> c_underflows c' = c_underflows c ->
  popped c' = popped c -> (c_reader c' = RdExit -> c_once c = OnceDone) -> (c_sem c' <= c_sem c)%nat ->
  (quiet c -> c_sem c - busy c <= c_sem c' - busy c' /\ busy c' <= c_sem c' )%nat -> conn_ok depth c'.
Proof.
  intros [O1 O2 O3 O4 O5 OL O6 O7 O8 O9 O10 O11 O12] E1 E2 E3 E4 E5 E6 E7 E8 E9 E10 E11.
  split; rewrite ?E1, ?E2, ?E3, ?E4, ?E5, ?E6, ?E7, ?E8; try done.
  - intros n m Hn. eapply command_ok_ext; [by rewrite E2|by rewrite E8|by rewrite E3|by apply O4].
  - lia.
  - intros Q. assert (quiet c) as Q' by (unfold quiet in *; by rewrite E1 in Q). specialize (O12 Q'). specialize (E11 Q'). lia.
Qed.

Lemma read_ok c : conn_ok depth c -> safe depth (step c EvRead).
Proof.
  intros C. cbn. destruct (c_reader c) eqn:Er; try done. cbn. unfold readHead.
  assert (popped c = None) as Hp by (unfold popped; by rewrite Er). assert (busy c = 0%nat) as Hb by (unfold busy; by rewrite Er).
  destruct (readResponseLine _ _ _) as [r rest]. set (c1 := set_in c rest (c_end c)).
  assert (forall e b, conn_ok depth (set_reader c1 (RdFinish e b))) as Hfin.
  { intros e b. apply (reader_step c); try done. cbn. intros _. lia. }
  destruct r as [line|e]; [|apply Hfin]. destruct (parseStatus line) as [[code text]|e]; [|apply Hfin].
  destruct (isServerIdleDisconnect code text); [apply Hfin|].
  change (c_pending c1) with (c_pending c). destruct (c_pending c) as [|n l] eqn:Ep; [apply Hfin|].
  destruct C as [O1 O2 O3 O4 O5 OL O6 O7 O8 O9 O10 O11 O12]. rewrite Ep in *. apply NoDup_cons in O1 as [N1 N2].
  assert (forall x, x ∈ n :: l <-> x = n \/ x ∈ l) as Hin by (intros x; apply elem_of_cons).
  split; cbn; try done.
  - intros x [Hx|[= <-]]; apply O2; left; set_solver.
  - by intros x [= <-].
  - intros x m Hx. destruct (O4 _ _ Hx) as (H1 & H2 & H3). unfold command_ok. rewrite Ep, Hp in H2, H3. cbn [c_pending set_reader set_pending popped c_reader c_sending c1 set_in].
    specialize (Hin x). split; [done|]. assert (Some n = Some x <-> x = n) as Hsn by naive_solver.
    assert (~ (None : option nat) = Some x) as Hno by done. rewrite Hsn. split; [|intros H; apply H3; left; rewrite Hin; naive_solver].
    destruct (m_at m); rewrite ?Hin, ?Hsn in H2 |- *; naive_solver.
  - intros x Hs Hx. assert (last (n :: l) = Some x) as H by (apply OL; [done|by rewrite Hin; right]). destruct l; [by apply elem_of_nil in Hx|done].
  - intros H. by apply O7 in H.
  - rewrite Hp in O9. cbn in O9. lia.
  - intros Q. specialize (O12 Q). cbn in O12. lia.
Qed.

Lemma slot_release_ok c : conn_ok depth c -> safe depth (step c EvRelease).
Proof.
  intros C. cbn. destruct (c_reader c) eqn:Er; try done. cbn.
  assert (busy c = 1%nat) as Hb by (unfold busy; by rewrite Er). pose proof (co_slots _ _ C) as Hs.
  assert (popped c = None) as Hp by (unfold popped; by rewrite Er).
  case_decide as H0; (eapply reader_step; [exact C|done..| |done| |]); cbn; try lia; try (intros Q; specialize (Hs Q); cbn; lia); by rewrite Hp.
Qed.

Lemma cut_ok c k : conn_ok depth c -> safe depth (step c (EvCut k)).
Proof.
  intros C. cbn. eapply reader_step; [exact C|done..| |done|]; [apply (co_exit _ _ C)|]. intros Q. pose proof (co_slots _ _ C Q).
  change (busy (set_in _ _ _)) with (busy c). cbn. lia.
Qed.

Lemma close_ok c : conn_ok depth c -> safe depth (step c EvClose).
Proof.
  intros C. cbn. case_decide as Ho; [|done]. destruct C as [O1 O2 O3 O4 O5 OL O6 O7 O8 O9 O10 O11 O12].
  assert (conn_ok depth (set_closed c (Some None) OnceClosing)) as C1.
  { split; try done. cbn. intros H. apply O8 in H. congruence. }
  cbn. case_decide; [|exact C1]. by destruct C1; split.
Qed.

(** ** Delivering results *)
Definition finished (m : command) (r : cmdResult) : command := mkCommand (m_kind m) (m_msgID m) (m_at m) (Some r).

Lemma complete_spec c n m r : c_cmds c !! n = Some m -> m_done m = None ->
  complete c n r = Some (set_cmds c (<[n := finished m r]> (c_cmds c))).
Proof. intros H Hd. unfold complete. rewrite H. cbn. by rewrite Hd. Qed.

Lemma holders_finished cmds n m r : cmds !! n = Some m -> holders (<[n := finished m r]> cmds) = holders cmds.
Proof. intros H. pose proof (holders_replace cmds n m (finished m r) H) as Hh. change (holds (finished m r)) with (holds m) in Hh. lia. Qed.

Lemma complete_all_spec l r : forall c, NoDup l -> (forall n, n ∈ l -> exists m, c_cmds c !! n = Some m /\ m_done m = None) ->
  exists cmds', complete_all c l r = Some (set_cmds c cmds') /\ holders cmds' = holders (c_cmds c) /\
    forall x, cmds' !! x = if decide (x ∈ l) then (fun m => finished m r) <$> (c_cmds c !! x) else c_cmds c !! x.
Proof.
  induction l as [|n l IH]; intros c Hnd H.
  - exists (c_cmds c). split; [by destruct c|]. split; [done|]. intros x. by rewrite decide_False by apply not_elem_of_nil.
  - apply NoDup_cons in Hnd as [Hn Hnd]. destruct (H n) as (m & Hm & Hd); [apply list_elem_of_here|]. cbn [complete_all].
    rewrite (complete_spec c n m r Hm Hd). cbn [mbind option_bind]. destruct (IH (set_cmds c (<[n := finished m r]> (c_cmds c))) Hnd) as (cmds' & E & Eh & Ex).
    { intros x Hx. cbn. rewrite lookup_insert_ne by (intros ->; done). apply H. by apply list_elem_of_further. }
    exists cmds'. split; [exact E|]. cbn in Eh, Ex. split; [by rewrite Eh, (holders_finished _ n m)|]. intros x. rewrite Ex. destruct (decide (x = n)) as [->|Hne].
    + rewrite decide_False, decide_True by (done || apply list_elem_of_here). by rewrite lookup_insert_eq, Hm.
    + rewrite !lookup_insert_ne by done. assert (x ∈ n :: l <-> x ∈ l) as Hx by (rewrite elem_of_cons; naive_solver).
      destruct (decide (x ∈ l)), (decide (x ∈ n :: l)); naive_solver.
Qed.

Lemma answers_failed m r e : r_err r = Some e -> answers_it m r.
Proof. intros H. unfold answers_it. destruct (successResponse (m_kind m)) as [[expected b] echoes]. by rewrite H. Qed.

(** The reader answers the popped command and moves on. *)
Lemma answered_ok c n m code text r c' : conn_ok depth c -> c_reader c = RdPopped n code text -> c_cmds c !! n = Some m -> answers_it m r ->
  c_cmds c' = <[n := finished m r]> (c_cmds c) -> c_pending c' = c_pending c -> c_sending c' = c_sending c -> c_closed c' = c_closed c ->
  c_once c' = c_once c -> c_sem c' = c_sem c -> c_underflows c' = 0 -> c_inFlight c - 1 <= c_inFlight c' -> popped c' = None ->
  (c_reader c' = RdExit -> False) -> conn_ok depth c'.
Proof.
  intros [O1 O2 O3 O4 O5 OL O6 O7 O8 O9 O10 O11 O12] Er Hm Ha E1 E2 E3 E4 E5 E6 E7 E8 E9 E10.
  assert (popped c = Some n) as Hp by (unfold popped; by rewrite Er). assert (busy c = 1%nat) as Hb by (unfold busy; by rewrite Er).
  split; rewrite ?E1, ?E2, ?E3, ?E4, ?E5, ?E6, ?E7, ?E9; try done.
  - intros x [Hx|]; [|done]. apply lookup_insert_is_Some'. right. apply O2. by left.
  - intros x mx [[<- <-]|[Hne Hx]]%lookup_insert_Some.
    + pose proof (O4 _ _ Hm) as (_ & H2 & H3). assert (n ∉ c_pending c) as Hn by (by apply O3). assert (m_done m = None) as Hd by (apply H3; by right).
      unfold command_ok. rewrite E2, E3, E9. unfold finished. cbn. split; [by intros ? [= <-]|]. split; [|by intros [?|?]].
      destruct (m_at m) eqn:Ea; cbn in H2 |- *; naive_solver.
    + eapply command_ok_ext; [by rewrite E2| |by rewrite E3|by apply O4]. rewrite E9, Hp. naive_solver.
  - intros x Hs. destruct (O5 _ Hs) as (mx & Hmx & Hw). destruct (decide (x = n)) as [->|Hne].
    + exists (finished m r). rewrite lookup_insert_eq. split; [done|]. cbn. congruence.
    + exists mx. by rewrite lookup_insert_ne.
  - rewrite Hp in O9. cbn in O9 |- *. lia.
  - intros Q. rewrite (holders_finished _ n m) by done. assert (quiet c) as Q'.
    { intros x mx Hx. destruct (decide (x = n)) as [->|Hne].
      - rewrite Hm in Hx. injection Hx as <-. apply (Q n (finished m r)). by rewrite E1, lookup_insert_eq.
      - apply (Q x). by rewrite E1, lookup_insert_ne. }
    specialize (O12 Q'). assert (busy c' <= 1)%nat by (unfold busy; destruct (c_reader c'); lia). lia.
Qed.

Lemma answer_ok c : conn_ok depth c -> safe depth (step c EvAnswer).
Proof.
  intros C. cbn. destruct (c_reader c) as [|n code text| | |] eqn:Er; try done.
  assert (popped c = Some n) as Hp by (unfold popped; by rewrite Er).
  destruct (co_known _ _ C n (or_intror Hp)) as [m Hm]. pose proof (co_cmds _ _ C _ _ Hm) as (_ & _ & Hd).
  assert (m_done m = None) as Hdn by (apply Hd; by right). pose proof (co_flight _ _ C) as Hfl. rewrite Hp in Hfl. cbn in Hfl.
  unfold answer. rewrite Hm. cbn [mbind option_bind]. destruct (successResponse (m_kind m)) as [[expected hasBody] echoes] eqn:Es.
  set (res := mkResult code text [] None (bool_decide (code = expected))).
  assert (forall s e, safe depth (or_panic (c0 ← complete (set_in c s (c_end c)) n (with_err res e); Some (set_reader c0 (RdFinish e false))))) as Hfail.
  { intros s e. rewrite (complete_spec _ n m) by done. cbn. eapply (answered_ok c n m); try done; [by eapply answers_failed|apply C|cbn; lia]. }
  assert (forall c0 r, c_cmds c0 = c_cmds c -> c_pending c0 = c_pending c -> c_sending c0 = c_sending c -> c_closed c0 = c_closed c ->
    c_once c0 = c_once c -> c_sem c0 = c_sem c -> c_underflows c0 = c_underflows c -> c_inFlight c0 = c_inFlight c -> answers_it m r ->
    safe depth (or_panic (c1 ← complete c0 n r; Some (set_reader (endCmd c1) RdRelease)))) as Hgood.
  { intros c0 r F1 F2 F3 F4 F5 F6 F7 F8 Ha. rewrite (complete_spec _ n m) by (by rewrite ?F1). cbn. unfold endCmd. rewrite decide_False by (cbn; lia).
    eapply (answered_ok c n m code text r); cbn; try done; [by rewrite F1|rewrite F7; apply C|lia]. }
  assert (r_success res = true -> echoes = true -> negb (bool_decide (messageIDFromStatusLine text = Some (m_msgID m))) = false ->
    messageIDFromStatusLine text = Some (m_msgID m)) as Hid by (intros _ _ H; by apply negb_false_iff, bool_decide_eq_true in H).
  destruct (r_success res && echoes && negb _) eqn:Eid.
  { specialize (Hfail (c_in c) ErrDesynced). by destruct c. }
  assert (forall b, answers_it m (mkResult code text b None (bool_decide (code = expected)))) as Hans.
  { intros b. unfold answers_it. rewrite Es. intros _. split; [done|]. cbn. intros H1 H2. apply Hid; [done|done|]. cbn [r_success res] in Eid.
    rewrite H1, H2 in Eid. done. }
  destruct (r_success res && hasBody) eqn:Eb; [|apply Hgood; try done; exact (Hans [])].
  destruct (readDotStuffedBody _ _ _) as [[body|e] rest]; [|by apply Hfail].
  apply andb_true_iff in Eb as [Eb _]. cbn [r_success res] in Eb. apply Hgood; try done. specialize (Hans body). by rewrite Eb in Hans.
Qed.

(** The FIFO is drained: every command on it gets the closing error. *)
Lemma drained_ok c c0 r : conn_ok depth c -> c_once c <> OnceDone -> r_err r <> None ->
  c_cmds c0 = c_cmds c -> c_pending c0 = [] -> c_sending c0 = c_sending c -> is_Some (c_closed c0) -> c_once c0 = OnceDone ->
  (c_sem c0 = c_sem c) -> c_inFlight c0 = c_inFlight c -> c_underflows c0 = 0 -> popped c0 = popped c -> (busy c0 <= busy c)%nat ->
  safe depth (or_panic (complete_all c0 (c_pending c) r)).
Proof.
  intros C Ho Hr E1 E2 E3 E4 E5 E6 E7 E8 E9 E10. pose proof C as [O1 O2 O3 O4 O5 OL O6 O7 O8 O9 O10 O11 O12].
  destruct (complete_all_spec (c_pending c) r c0 O1) as (cmds' & -> & Eh & Ex).
  { intros n Hn. rewrite E1. destruct (O2 n (or_introl Hn)) as [m Hm]. exists m. split; [done|]. apply (O4 _ _ Hm). by left. }
  cbn. rewrite E1 in Eh. assert (popped (set_cmds c0 cmds') = popped c) as Epp by (by rewrite <- E9).
  assert (forall x m', cmds' !! x = Some m' -> exists m, c_cmds c !! x = Some m /\ m_at m' = m_at m /\
    ((x ∈ c_pending c /\ m' = finished m r) \/ (x ∉ c_pending c /\ m' = m))) as Hx.
  { intros x m'. rewrite Ex, E1. case_decide as Hin; [|intros H; exists m'; naive_solver].
    destruct (c_cmds c !! x) as [m|] eqn:Hm; [|done]. intros [= <-]. exists m. split; [done|]. split; [done|]. by left. }
  assert (forall x m, c_cmds c !! x = Some m -> exists m', cmds' !! x = Some m' /\ m_at m' = m_at m) as Hx'.
  { intros x m Hm. rewrite Ex, E1, Hm. case_decide; by eexists. }
  assert (forall x, x ∈ c_pending c -> popped c <> Some x) as Hnp by (intros x Hin Hp; by apply (O3 x)).
  split; rewrite ?Epp; cbn; rewrite ?E2, ?E3, ?E5, ?E6, ?E7, ?E8; try done.
  - constructor.
  - intros n [H|H]; [by apply elem_of_nil in H|]. destruct (O2 n (or_intror H)) as [m Hm]. destruct (Hx' _ _ Hm) as (m' & Hm' & _). by eexists.
  - intros n _. apply not_elem_of_nil.
  - intros x m' Hm'. destruct (Hx _ _ Hm') as (m & Hm & Ea & [[Hin ->]|[Hout ->]]).
    + pose proof (O4 _ _ Hm) as (_ & H2 & H3). assert (m_done m = None) as Hd by (apply H3; by left). specialize (Hnp x Hin).
      split; [intros q [= <-]; destruct (r_err r) eqn:Er; [by eapply answers_failed|done]|]. rewrite Epp. cbn. rewrite E2, E3.
      assert (x ∉ ([] : list nat)) as Hnil by apply not_elem_of_nil. split; [|naive_solver].
      destruct (m_at m) eqn:Ea'; naive_solver.
    + eapply (command_ok_ext c); [|by rewrite Epp|by cbn; rewrite E3|by apply O4]. cbn. rewrite E2. split; [by intros H%elem_of_nil|done].
  - intros n Hs. destruct (O5 _ Hs) as (m & Hm & Hw). destruct (Hx' _ _ Hm) as (m' & Hm' & Ea). exists m'. split; [done|]. congruence.
  - intros n _ H. by apply elem_of_nil in H.
  - split; [intros H; rewrite H in E4; by destruct E4|done].
  - cbn. lia.
  - intros Q. rewrite Eh. assert (quiet c) as Q'.
    { intros x m Hm. destruct (Hx' _ _ Hm) as (m' & Hm' & Ea). pose proof (Q x m' Hm') as Hq. unfold write_failed in *. cbn in *. by rewrite Ea in Hq. }
    specialize (O12 Q'). change (busy (set_cmds c0 cmds')) with (busy c0). cbn [length]. lia.
Qed.

Lemma finish_ok c : conn_ok depth c -> safe depth (step c EvFinish).
Proof.
  intros C. cbn. destruct (c_reader c) as [| | |e pre|] eqn:Er; try done. assert (popped c = None) as Hp by (unfold popped; by rewrite Er).
  unfold finishReader. destruct (c_once c) eqn:Eo; [|done|].
  - apply (drained_ok c); try done; [by rewrite Eo|apply (co_underflows _ _ C)|cbn; lia].
  - apply (reader_step c); try done. intros Q. cbn. pose proof (co_slots _ _ C Q). unfold busy. rewrite Er. cbn. lia.
Qed.

Lemma wake_ok c : conn_ok depth c -> safe depth (step c EvWake).
Proof.
  intros C. cbn. case_decide as Ho; [|done].
  apply (drained_ok c); try done; [by rewrite Ho| |apply C]. cbn. destruct (c_closed c) eqn:E; [by eexists|]. apply (co_closed _ _ C) in E. congruence.
Qed.

Lemma step_ok c ev : conn_ok depth c -> safe depth (step c ev).
Proof.
  destruct ev; [apply acquire_ok|apply submit_ok|apply write_ok|apply cancel_ok|apply return_ok|apply read_ok|apply answer_ok|apply slot_release_ok|apply finish_ok
    |apply cut_ok|apply close_ok|apply wake_ok].
Qed.

Lemma run_ok evs : forall c, conn_ok depth c -> safe depth (crun size depth c evs).
Proof.
  induction evs as [|ev evs IH]; intros c C; [exact C|]. cbn. pose proof (step_ok c ev C) as S. destruct (step c ev); [by apply IH|done..].
Qed.

Lemma reachable_ok c : conn_reachable size depth c -> conn_ok depth c.
Proof. intros (s & e & evs & E). pose proof (run_ok evs _ (dialled_ok depth s e)) as S. by rewrite E in S. Qed.

(** ** The reader comes to an end *)
Lemma ReadSlice_rest s : (length (snd (ReadSlice size s)) <= length s)%nat /\
  (forall l, fst (ReadSlice size s) = SliceLine l -> (length (snd (ReadSlice size s)) < length s)%nat).
Proof.
  unfold ReadSlice. destruct (IndexByte (take size s) LF) as [i|] eqn:E.
  - cbn [fst snd]. rewrite length_drop. destruct s as [|b s]; [by destruct size|]. split; [lia|]. intros l _. cbn [length]. lia.
  - case_decide; cbn [fst snd]; rewrite ?length_drop; (split; [cbn; lia|done]).
Qed.

Lemma discard_rest k : forall s, (length (discard_line size k s) <= length s)%nat.
Proof.
  induction k as [|k IH]; intros s; [done|]. cbn [discard_line]. pose proof (ReadSlice_rest s) as [H _].
  destruct (ReadSlice size s) as [[?|?|?] q]; cbn [snd] in H; try done. etrans; [apply IH|done].
Qed.

Lemma line_loop_rest k : forall line s e r rest, line_loop size k line s e = (r, rest) ->
  (length rest <= length s)%nat /\ (is_ok r = true -> (length rest < length s)%nat).
Proof.
  induction k as [|k IH]; intros line s e r rest; [by intros [= <- <-]|]. cbn [line_loop]. pose proof (ReadSlice_rest s) as [H1 H2].
  destruct (ReadSlice size s) as [[ch|ch|ch] q]; cbn [fst snd] in H1, H2.
  - intros [= <- <-]. split; [done|]. intros _. by eapply H2.
  - case_decide.
    + intros [= <- <-]. split; [|done]. etrans; [apply discard_rest|done].
    + intros [H3 H4]%IH. split; [lia|]. intros Hr. specialize (H4 Hr). lia.
  - intros [= <- <-]. done.
Qed.

Lemma body_loop_rest k : forall buf s e r rest, body_loop size k buf s e = (r, rest) -> (length rest <= length s)%nat.
Proof.
  induction k as [|k IH]; intros buf s e r rest; [by intros [= <- <-]|]. cbn [body_loop]. pose proof (ReadSlice_rest s) as [H1 H2].
  destruct (ReadSlice size s) as [[ch|ch|ch] q]; cbn [fst snd] in H1, H2; try (intros [= <- <-]; done).
  cbv zeta. case_decide; [by intros [= <- <-]|]. case_decide; [by intros [= <- <-]|]. intros E%IH. lia.
Qed.

(** How much the reader still has to do. *)
Definition work (c : Conn) : nat :=
  (length (c_in c) * 4 + match c_reader c with RdLoop => 2 | RdPopped _ _ _ => 5 | RdRelease => 3 | RdFinish _ _ => 1 | RdExit => 0 end)%nat.

Definition reader_event (ev : event) : Prop := ev ∈ [EvRead; EvAnswer; EvRelease; EvFinish; EvWake].

Lemma readHead_work c : c_reader c = RdLoop -> (work (readHead size c) < work c)%nat.
Proof.
  intros Er. unfold readHead, readResponseLine. destruct (line_loop _ _ _ _ _) as [r rest] eqn:E. unfold work at 2. rewrite Er.
  apply line_loop_rest in E as [E1 E2]. destruct r as [line|e]; [|unfold work; cbn; lia]. specialize (E2 eq_refl).
  destruct (parseStatus line) as [[code text]|e]; [|unfold work; cbn; lia].
  destruct (isServerIdleDisconnect code text); [unfold work; cbn; lia|].
  cbn [c_pending set_in]. destruct (c_pending c); unfold work; cbn; lia.
Qed.

Lemma complete_in c n r c' : complete c n r = Some c' -> c_in c' = c_in c /\ c_reader c' = c_reader c.
Proof.
  unfold complete. destruct (c_cmds c !! n) as [m|]; [|done]. cbn. destruct (m_done m); [done|]. by intros [= <-].
Qed.

Lemma answer_work c n code text c' : c_reader c = RdPopped n code text -> answer size c n code text = Some c' -> (work c' < work c)%nat.
Proof.
  intros Er. unfold answer. destruct (c_cmds c !! n) as [m|]; [|done]. cbn [mbind option_bind]. destruct (successResponse _) as [[ex hb] ec].
  assert (forall c0 r rd, (length (c_in c0) <= length (c_in c))%nat -> rd = RdRelease \/ (exists e b, rd = RdFinish e b) ->
    (c1 ← complete c0 n r; Some (set_reader c1 rd)) = Some c' \/ (c1 ← complete c0 n r; Some (set_reader (endCmd c1) rd)) = Some c' -> (work c' < work c)%nat) as H.
  { intros c0 r rd Hl Hrd. destruct (complete c0 n r) as [c1|] eqn:E; [|by intros [?|?]]. apply complete_in in E as [E _].
    assert (c_in (endCmd c1) = c_in c1) as E' by (unfold endCmd; by case_decide).
    unfold work at 2. rewrite Er. intros [Hc|Hc]; injection Hc as <-; unfold work; cbn [c_in c_reader set_reader]; rewrite ?E', E;
      destruct Hrd as [->|(? & ? & ->)]; lia. }
  destruct (_ && _ && _); [intros E; eapply H; [reflexivity|right; by eexists _, _|left; exact E]|].
  destruct (_ && hb); [|intros E; eapply H; [reflexivity|by left|right; exact E]].
  unfold readDotStuffedBody. destruct (body_loop _ _ _ _ _) as [r rest] eqn:E. apply body_loop_rest in E.
  destruct r; intros E'; (eapply H; [| |first [right; exact E'|left; exact E']]); [exact E|by left|exact E|right; by eexists _, _].
Qed.

Lemma complete_all_in l r : forall c c', complete_all c l r = Some c' -> c_in c' = c_in c /\ c_reader c' = c_reader c.
Proof.
  induction l as [|n l IH]; intros c c'; [by intros [= <-]|]. cbn [complete_all]. destruct (complete c n r) as [c1|] eqn:E; [|done]. cbn.
  intros [H1 H2]%IH. apply complete_in in E as [E1 E2]. split; congruence.
Qed.

(** While the reader lives it can move, after [Close] if that is closing. *)
Lemma reader_moves c : conn_ok depth c -> c_reader c <> RdExit ->
  exists ev c', reader_event ev /\ step c ev = Stepped c' /\ (work c' < work c \/ ev = EvWake /\ work c' = work c /\ c_once c = OnceClosing /\ c_once c' = OnceDone)%nat.
Proof.
  intros C Hne. destruct (c_reader c) as [|n code text| |e pre|] eqn:Er; [..|done].
  - exists EvRead, (readHead size c). split; [by left|]. cbn. rewrite Er. split; [done|]. left. by apply readHead_work.
  - pose proof (step_ok c EvAnswer C) as S. cbn in S. rewrite Er in S. destruct (answer size c n code text) as [c'|] eqn:E; [|done].
    exists EvAnswer, c'. split; [unfold reader_event; set_solver|]. cbn. rewrite Er, E. split; [done|]. left. by eapply answer_work.
  - eexists EvRelease, _. split; [unfold reader_event; set_solver|]. cbn. rewrite Er. split; [done|]. left. unfold work. rewrite Er.
    case_decide; cbn; lia.
  - destruct (c_once c) eqn:Eo.
    + pose proof (step_ok c EvFinish C) as S. cbn in S. rewrite Er in S. unfold finishReader in S. rewrite Eo in S.
      destruct (complete_all _ _ _) as [c'|] eqn:E; [|done]. exists EvFinish, c'. split; [unfold reader_event; set_solver|].
      cbn. rewrite Er. unfold finishReader. rewrite Eo, E. split; [done|]. left. apply complete_all_in in E as [E1 E2]. unfold work. rewrite E1, E2, Er. cbn. lia.
    + pose proof (step_ok c EvWake C) as S. cbn in S. rewrite decide_True in S by done. destruct (complete_all _ _ _) as [c'|] eqn:E; [|done].
      exists EvWake, c'. split; [unfold reader_event; set_solver|]. cbn. rewrite decide_True, E by done. split; [done|]. right. split; [done|].
      assert (c_once c' = OnceDone) as Ho.
      { assert (forall l r c c', complete_all c l r = Some c' -> c_once c' = c_once c) as H; [|by eapply H in E].
        clear. induction l as [|n l IH]; intros r c c'; [by intros [= <-]|]. cbn [complete_all]. unfold complete at 1.
        destruct (c_cmds c !! n) as [m|]; [|done]. cbn. destruct (m_done m); [done|]. cbn. intros H%IH. done. }
      apply complete_all_in in E as [E1 E2]. unfold work. rewrite E1, E2. done.
    + exists EvFinish, (set_reader c RdExit). split; [unfold reader_event; set_solver|]. cbn. rewrite Er. unfold finishReader. rewrite Eo.
      split; [done|]. left. unfold work. rewrite Er. cbn. lia.
Qed.

Lemma exit_delivers c n m : conn_ok depth c -> c_reader c = RdExit -> c_cmds c !! n = Some m -> m_at m = Waiting -> is_Some (m_done m).
Proof.
  intros C Er Hm Ha. pose proof (co_cmds _ _ C _ _ Hm) as (_ & H & _). rewrite Ha in H. destruct H as [H|[H|H]]; [done| |].
  - rewrite (co_drained _ _ C) in H by (by apply (co_exit _ _ C)). by apply elem_of_nil in H.
  - unfold popped in H. by rewrite Er in H.
Qed.

Lemma reader_ends k : forall c, conn_ok depth c -> (work c * 2 + (if decide (c_once c = OnceClosing) then 1 else 0) < k)%nat ->
  exists evs c', Forall reader_event evs /\ crun size depth c evs = Stepped c' /\ conn_ok depth c' /\ c_reader c' = RdExit.
Proof.
  induction k as [|k IH]; intros c C Hk; [lia|]. assert (c_reader c = RdExit \/ c_reader c <> RdExit) as [Hr|Hr] by (destruct (c_reader c); [by right..|by left]).
  - exists [], c. by split_and!.
  - destruct (reader_moves c C Hr) as (ev & c1 & Hev & E & Hw). pose proof (step_ok c ev C) as S. rewrite E in S.
    destruct (IH c1 S) as (evs & c' & H1 & H2 & H3).
    { destruct Hw as [Hw|(_ & Hw & Ho & Ho')].
      - case_decide; case_decide; lia.
      - rewrite Ho, decide_True in Hk by done. rewrite Ho', decide_False by done. lia. }
    exists (ev :: evs), c'. split; [by constructor|]. cbn. by rewrite E.
Qed.
End steps.

(** C11: the request pipeline is safe.  Whatever the server sends, wherever
    the socket fails and however callers, reader and [Close] interleave: no
    event panics, in particular no command's [done] is closed twice; the
    count of commands in flight never underflows; at most [depth] slots are
    taken, and while no write has failed the slots cover every command on the
    FIFO or being answered, so at most [depth] of them are out. *)
Theorem pipeline_safe size depth c : conn_reachable size depth c ->
  (forall ev, cstep size depth c ev <> Panicked) /\ c_underflows c = 0 /\ (c_sem c <= depth)%nat /\ NoDup (c_pending c) /\
  (quiet c -> length (c_pending c) + busy c <= c_sem c)%nat.
Proof.
  intros C%reachable_ok. split_and!; try apply C.
  - intros ev E. pose proof (step_ok size depth c ev C) as S. by rewrite E in S.
  - intros Q. pose proof (co_slots _ _ C Q). lia.
Qed.

(** C10: a fetched body is the body of the article asked for.  Over every
    interleaving and whatever the server sends, when [Fetch] returns a body
    the status line it was paired with has the success code of BODY and names
    exactly the Message-ID the caller asked for. *)
Theorem fetch_gets_its_article size depth c n id r body : conn_reachable size depth c ->
  c_cmds c !! n = Some (mkCommand cmdBody id (Returned r) (Some r)) -> fetched r = Ok body ->
  r_code r = 222 /\ messageIDFromStatusLine (r_line r) = Some id /\ body = r_body r.
Proof.
  intros C%reachable_ok Hn Hf. pose proof (co_cmds _ _ C _ _ Hn) as (Ha & _ & _). specialize (Ha r eq_refl). unfold answers_it in Ha. cbn in Ha.
  unfold fetched in Hf. destruct (r_err r) eqn:He; [done|]. destruct (classifyStatus (r_code r)); [done|]. destruct (r_success r) eqn:Hs; [|done].
  injection Hf as <-. destruct (Ha eq_refl) as [H1 H2]. split; [by symmetry in H1; apply bool_decide_eq_true in H1|]. by split; [apply H2|].
Qed.


(** ** Dot-stuffed bodies *)
Definition stuff (line : list Z) : list Z := match line with b :: _ => if b =? dot then dot :: line else line | [] => [] end.
Definition wire_body (lines : list (list Z)) : list Z := concat ((fun l => stuff l ++ crlf) <$> lines) ++ [dot] ++ crlf.
Definition body_text (lines : list (list Z)) : list Z := concat ((fun l => l ++ [LF]) <$> lines).

Lemma ReadSlice_line size l r : Forall (fun b => b <> LF) l -> (length l < size)%nat -> ReadSlice size (l ++ LF :: r) = (SliceLine (l ++ [LF]), r).
Proof.
  intros Hl Hs. unfold ReadSlice.
  assert (take size (l ++ LF :: r) = l ++ LF :: take (size - length l - 1) r) as ->.
  { rewrite take_app, take_ge by lia. f_equal. destruct (size - length l)%nat as [|k] eqn:E; [lia|]. cbn. by rewrite Nat.sub_0_r. }
  rewrite IndexByte_app by done. replace (l ++ LF :: r) with ((l ++ [LF]) ++ r) by by rewrite <- app_assoc.
  assert (S (length l) = length (l ++ [LF])) as -> by (rewrite length_app; cbn; lia). by rewrite take_app_length, drop_app_length.
Qed.

Lemma body_line_crlf l : body_line (l ++ crlf) = l.
Proof.
  unfold body_line. assert (length (l ++ crlf) = length l + 2)%nat as -> by (rewrite length_app; done).
  assert ((l ++ crlf) !! (length l + 2 - 1 - 1)%nat = Some CR) as Hc.
  { replace (length l + 2 - 1 - 1)%nat with (length l) by lia. rewrite lookup_app_r by lia. by rewrite Nat.sub_diag. }
  rewrite decide_True by (split; [lia|exact Hc]). replace (length l + 2 - 1 - 1)%nat with (length l) by lia. apply take_app_length.
Qed.

Lemma stuff_no_LF l : Forall (fun b => b <> LF) l -> Forall (fun b => b <> LF) (stuff l ++ [CR]).
Proof.
  intros H. apply Forall_app. split; [|by repeat constructor]. destruct H as [|b l Hb H]; [done|]. cbn. destruct (b =? dot); by repeat constructor.
Qed.

Lemma body_loop_line size k buf l s e : Forall (fun b => b <> LF) l -> (length (stuff l) + 2 <= size)%nat ->
  Z.of_nat (length buf + length l + 1) <= maxBodySize ->
  body_loop size (S k) buf (stuff l ++ crlf ++ s) e = body_loop size k (buf ++ l ++ [LF]) s e.
Proof.
  intros Hl Hs Hm. cbn [body_loop]. replace (stuff l ++ crlf ++ s) with ((stuff l ++ [CR]) ++ LF :: s) by by rewrite <- app_assoc.
  rewrite ReadSlice_line by (try apply stuff_no_LF; rewrite ?length_app; cbn; lia || done).
  replace ((stuff l ++ [CR]) ++ [LF]) with (stuff l ++ crlf) by by rewrite <- app_assoc. rewrite body_line_crlf.
  assert (stuff l <> [dot] /\ match stuff l with b :: r => if b =? dot then r else stuff l | [] => stuff l end = l) as [H1 H2].
  { destruct l as [|b l]; [done|]. cbn [stuff]. destruct (b =? dot) eqn:Eb; cbn; [|rewrite Eb; split; [intros [= ->]|]; done].
    split; [done|]. done. }
  cbv zeta. rewrite decide_False by done. rewrite H2, decide_False by lia. done.
Qed.

Lemma body_loop_lines size lines rest e : forall k buf, (length lines < k)%nat -> (3 <= size)%nat ->
  Forall (fun l => Forall (fun b => b <> LF) l /\ (length (stuff l) + 2 <= size)%nat) lines ->
  Z.of_nat (length buf + length (body_text lines)) <= maxBodySize ->
  body_loop size k buf (wire_body lines ++ rest) e = (Ok (buf ++ body_text lines), rest).
Proof.
  induction lines as [|l lines IH]; intros [|k] buf Hk Hs Hl Hm; try (cbn in Hk; lia).
  - rewrite app_nil_r. unfold wire_body. cbn [concat fmap list_fmap app]. cbn [body_loop].
    change (dot :: crlf ++ rest) with ([dot; CR] ++ LF :: rest). rewrite ReadSlice_line by (repeat constructor; cbn; lia || done).
    change (body_line ([dot; CR] ++ [LF])) with [dot]. by rewrite decide_True.
  - apply Forall_cons in Hl as [[H1 H2] Hl]. unfold body_text in *. cbn [fmap list_fmap concat] in *. rewrite !length_app in Hm. cbn in Hm.
    replace (wire_body (l :: lines) ++ rest) with (stuff l ++ crlf ++ wire_body lines ++ rest).
    + rewrite body_loop_line by (done || lia). rewrite IH; [by rewrite <- !app_assoc|cbn in Hk; lia|done|done|]. rewrite !length_app. cbn. lia.
    + unfold wire_body. cbn [fmap list_fmap concat]. by rewrite <- !app_assoc.
Qed.

Lemma wire_length lines : (length lines < length (wire_body lines))%nat.
Proof.
  unfold wire_body. rewrite length_app. cbn [length app crlf]. induction lines as [|l lines IH]; [cbn; lia|]. cbn [fmap list_fmap concat length]. rewrite !length_app. cbn. lia.
Qed.

(** What a server posts is what is read.  A body of any lines without
    line feeds, dot-stuffed and terminated as RFC 3977 says, is read back as
    those lines, each ended by a line feed, and what follows it is left
    unread, as long as a line fits the reader's buffer and the body the
    limit. *)
Theorem body_roundtrip size lines rest e : (3 <= size)%nat ->
  Forall (fun l => Forall (fun b => b <> LF) l /\ (length (stuff l) + 2 <= size)%nat) lines ->
  Z.of_nat (length (body_text lines)) <= maxBodySize ->
  readDotStuffedBody size (wire_body lines ++ rest) e = (Ok (body_text lines), rest).
Proof.
  intros Hs Hl Hm. unfold readDotStuffedBody. apply (body_loop_lines size lines rest e _ []); try done.
  pose proof (wire_length lines). rewrite length_app. lia.
Qed.

(** ** The handshake *)
Definition single_line (s : list Z) : Prop := exists l, s = l ++ crlf /\ Forall (fun b => b <> CR /\ b <> LF /\ b <> 0) l.

(** A later state of the same handshake: more lines were sent. *)
Definition sent_more (w w' : wire) : Prop := exists l, k_out w' = k_out w ++ l /\ Forall single_line l.

Lemma sent_refl w w' : k_out w' = k_out w -> sent_more w w'.
Proof. intros E. exists []. by rewrite E, app_nil_r. Qed.

Lemma sent_trans w1 w2 w3 : sent_more w1 w2 -> sent_more w2 w3 -> sent_more w1 w3.
Proof. intros (l1 & E1 & F1) (l2 & E2 & F2). exists (l1 ++ l2). rewrite E2, E1, app_assoc. split; [done|]. by apply Forall_app. Qed.

Lemma send_sent w cmd : single_line cmd -> sent_more w (fst (send w cmd)) /\ k_state (fst (send w cmd)) = k_state w.
Proof.
  intros H. unfold send. destruct (match k_sends w with b :: _ => b | [] => true end); cbn; (split; [|done]); [exists [cmd]; split; [done|by constructor]|by apply sent_refl].
Qed.

Lemma readStatus_out size w : k_out (fst (readStatus size w)) = k_out w /\ k_state (fst (readStatus size w)) = k_state w.
Proof. unfold readStatus. by destruct (readResponseLine _ _ _). Qed.

Lemma setState_out w s : k_out (fst (setState w s)) = k_out w /\
  (snd (setState w s) = None -> canTransition (k_state w) s = true /\ k_state (fst (setState w s)) = s) /\
  (snd (setState w s) <> None -> k_state (fst (setState w s)) = k_state w).
Proof. unfold setState. destruct (canTransition _ _) eqn:E; cbn; split_and!; done. Qed.

Lemma credential_line (p : string) s : validateCredential s = true -> Forall (fun b => b <> CR /\ b <> LF /\ b <> 0) (bs p) ->
  single_line (bs p ++ s ++ crlf).
Proof.
  intros H Hp. exists (bs p ++ s). split; [by rewrite app_assoc|]. apply Forall_app. split; [done|]. apply Forall_forall. intros b Hb.
  apply negb_true_iff in H. unfold ContainsAny in H. assert (existsb (Z.eqb b) [CR; LF; 0] = false) as Hx.
  { destruct (existsb (Z.eqb b) [CR; LF; 0]) eqn:E; [|done]. rewrite <- H. symmetry. apply existsb_exists. exists b. by split; [apply list_elem_of_In|]. }
  cbn in Hx. unfold CR, LF in *. repeat (apply orb_false_iff in Hx as [? Hx]). repeat match goal with H : (_ =? _) = false |- _ => apply Z.eqb_neq in H end. lia.
Qed.

(** A stage of the handshake: what it sends are single lines, and it moves to
    [s'] or reports an error and stays where it was. *)
Definition stage (w : wire) (r : wire * option nntp_err) (s' : State) : Prop :=
  sent_more w (fst r) /\ match snd r with None => k_state (fst r) = s' | Some _ => k_state (fst r) = k_state w end.

Lemma setState_stage w s : stage w (setState w s) s.
Proof.
  destruct (setState_out w s) as (H1 & H2 & H3). split; [by apply sent_refl|]. destruct (snd (setState w s)); [by apply H3|by apply H2].
Qed.

Lemma stage_after w w1 r s : sent_more w w1 -> k_state w1 = k_state w -> stage w1 r s -> stage w r s.
Proof. intros H1 H2 [H3 H4]. split; [by eapply sent_trans|]. destruct (snd r); [by rewrite H4|done]. Qed.

Lemma stage_err w w1 e s : sent_more w w1 -> k_state w1 = k_state w -> stage w (w1, Some e) s.
Proof. by split. Qed.

Lemma expectGreeting_stage size w : stage w (expectGreeting size w) StateConnected.
Proof.
  unfold expectGreeting. destruct (readStatus_out size w) as [H1 H2]. destruct (readStatus size w) as [w1 r]. cbn [fst] in H1, H2.
  assert (sent_more w w1) as Hs by by apply sent_refl. destruct r as [[code text]|e]; [|by apply stage_err].
  case_decide; [by apply stage_err|]. eapply stage_after; [done|done|apply setState_stage].
Qed.

Lemma auth_answer_stage size w prompt : match auth_answer size w prompt with
  | (w', Some e) => stage w (w', e) StateAuthenticated
  | (w', None) => prompt = true /\ sent_more w w' /\ k_state w' = k_state w
  end.
Proof.
  unfold auth_answer. destruct (readStatus_out size w) as [H1 H2]. destruct (readStatus size w) as [w1 r]. cbn [fst] in H1, H2.
  assert (sent_more w w1) as Hs by by apply sent_refl. destruct r as [[code text]|e]; [|by apply stage_err].
  case_decide; [|case_decide as Hp; [by destruct Hp|case_decide; by apply stage_err]].
  pose proof (setState_stage w1 StateAuthenticated) as S. destruct (setState w1 StateAuthenticated). by eapply stage_after.
Qed.

Lemma authenticate_stage size w user pass : stage w (authenticate size w user pass) StateAuthenticated.
Proof.
  unfold authenticate. destruct (validateCredential user) eqn:Hu; [|by apply stage_err; [apply sent_refl|]].
  destruct (validateCredential pass) eqn:Hp; [|by apply stage_err; [apply sent_refl|]]. cbn [negb].
  assert (forall cmd, Forall (fun b => b <> CR /\ b <> LF /\ b <> 0) (bs cmd) -> forall s, validateCredential s = true -> single_line (bs cmd ++ s ++ crlf)) as Hc
    by (intros; by apply credential_line).
  destruct (send_sent w (bs "AUTHINFO USER " ++ user ++ crlf)) as [H1 H2]; [apply Hc; [repeat constructor; done|done]|].
  destruct (send w _) as [w1 ok]. cbn [fst] in H1, H2. destruct ok; cbn [negb]; [|by apply stage_err].
  pose proof (auth_answer_stage size w1 true) as A. destruct (auth_answer size w1 true) as [w2 [e|]]; [by eapply stage_after|].
  destruct A as (_ & A1 & A2). destruct (send_sent w2 (bs "AUTHINFO PASS " ++ pass ++ crlf)) as [H3 H4]; [apply Hc; [repeat constructor; done|done]|].
  destruct (send w2 _) as [w3 ok]. cbn [fst] in H3, H4. assert (sent_more w w3) as H5 by (eapply sent_trans; [exact H1|by eapply sent_trans]).
  assert (k_state w3 = k_state w) as H6 by congruence. destruct ok; cbn [negb]; [|by apply stage_err].
  pose proof (auth_answer_stage size w3 false) as B. destruct (auth_answer size w3 false) as [w4 [e|]]; [|by destruct B]. by eapply stage_after.
Qed.

Lemma probe_sent size w : sent_more w (fst (probeCapabilities size w)) /\ k_state (fst (probeCapabilities size w)) = k_state w.
Proof.
  unfold probeCapabilities. destruct (send_sent w (bs "CAPABILITIES" ++ crlf)) as [H1 H2].
  { exists (bs "CAPABILITIES"). split; [done|]. repeat constructor; done. }
  destruct (send w _) as [w1 ok]. cbn [fst] in H1, H2. destruct ok; cbn [negb]; [|done].
  destruct (readStatus_out size w1) as [H3 H4]. destruct (readStatus size w1) as [w2 r]. cbn [fst] in H3, H4.
  assert (sent_more w w2 /\ k_state w2 = k_state w) as [H5 H6] by (split; [eapply sent_trans; [exact H1|by apply sent_refl]|congruence]).
  assert (forall b, sent_more w (fst (let '(r, rest) := readDotStuffedBody size (k_in w2) (k_end w2) in
    (mkWire rest (k_end w2) (k_out w2) (k_sends w2) (k_state w2), match r with Ok body => parseCapabilities body | Err _ => b end))) /\
    k_state (fst (let '(r, rest) := readDotStuffedBody size (k_in w2) (k_end w2) in
    (mkWire rest (k_end w2) (k_out w2) (k_sends w2) (k_state w2), match r with Ok body => parseCapabilities body | Err _ => b end))) = k_state w) as Hb.
  { intros b. destruct (readDotStuffedBody _ _ _) as [r' rest]. cbn. split; [|done]. destruct H5 as (l & E & F). by exists l. }
  destruct r as [[code text]|e]; [|done]. destruct (decide (code = 101)) as [->|Hc]; [apply Hb|].
  repeat (case_match; try done).
Qed.

(** the handshake injects nothing and is ready exactly when it
    succeeds.  Whatever the server answers, wherever the socket fails and
    whatever bytes the configured credentials have: every write is one
    command line, ended by the only line break in it; and the connection is
    ready if and only if no error is returned. *)
Theorem handshake_safe size w user pass w' caps e : k_state w = StateDisconnected -> handshake size w user pass = (w', caps, e) ->
  sent_more w w' /\ (k_state w' = StateReady <-> e = None).
Proof.
  intros H0. unfold handshake. destruct (expectGreeting_stage size w) as [S1 T1]. destruct (expectGreeting size w) as [w1 [e1|]]; cbn [fst snd] in S1, T1.
  { intros [= <- <- <-]. split; [done|]. rewrite T1, H0. done. }
  set (auth := if decide (user = []) then (w1, None) else authenticate size w1 user pass).
  assert (sent_more w1 (fst auth) /\ match snd auth with None => k_state (fst auth) = StateConnected \/ k_state (fst auth) = StateAuthenticated | Some _ => k_state (fst auth) = StateConnected end) as [S2 T2].
  { subst auth. case_decide; [split; [by apply sent_refl|by left]|]. destruct (authenticate_stage size w1 user pass) as [A B].
    split; [done|]. destruct (snd _); [by rewrite B|by right]. }
  destruct auth as [w2 [e2|]]; cbn [fst snd] in S2, T2.
  { intros [= <- <- <-]. split; [by eapply sent_trans|]. by rewrite T2. }
  destruct (probe_sent size w2) as [S3 T3]. destruct (probeCapabilities size w2) as [w3 caps']. cbn [fst] in S3, T3.
  assert (sent_more w w3) as S4 by (eapply sent_trans; [exact S1|by eapply sent_trans]).
  destruct (setState_out w3 StateReady) as (O1 & O2 & O3). assert (canTransition (k_state w3) StateReady = true) as Hc by (rewrite T3; by destruct T2 as [->| ->]).
  destruct (setState w3 StateReady) as [w4 e4] eqn:E. unfold setState in E. rewrite Hc in E. injection E as <- <-. intros [= <- <- <-].
  split; [|done]. eapply sent_trans; [exact S4|by apply sent_refl].
Qed.

(** ** Witnesses: two fetches, the second answered with the wrong article *)
Definition ex_answer (id : string) (lines : list (list Z)) : list Z := bs "222 0 <" ++ bs id ++ bs ">" ++ crlf ++ wire_body lines.
Definition ex_lines : list (list Z) := [bs "hello"; bs ".hidden"; []].
Definition ex_stream : list Z := ex_answer "a@x" ex_lines ++ ex_answer "c@x" [bs "other"].
Definition ex_call (n : nat) (id : string) : list event := [EvAcquire n cmdBody (bs id); EvSubmit n; EvWrite n true].
Definition ex_events : list event := ex_call 0 "a@x" ++ ex_call 1 "b@x" ++ [EvRead; EvAnswer; EvRelease; EvReturn 0; EvRead; EvAnswer; EvFinish; EvReturn 1]%nat.
Definition ex_conn : Conn := match crun 64 2 (dialled ex_stream EndEOF) ex_events with Stepped c => c | _ => dialled [] EndEOF end.

Lemma ex_conn_reachable : conn_reachable 64 2 ex_conn.
Proof. exists ex_stream, EndEOF, ex_events. vm_compute. reflexivity. Qed.

Example ex_results : (fun n => m ← c_cmds ex_conn !! n; r ← m_done m; Some (fetched r)) <$> [0; 1]%nat =
  [Some (Ok (body_text ex_lines)); Some (Err ErrDesynced)].
Proof. vm_compute. reflexivity. Qed.

Lemma pipeline_safe_witness : c_underflows ex_conn = 0 /\ (c_sem ex_conn <= 2)%nat.
Proof. destruct (pipeline_safe 64 2 ex_conn ex_conn_reachable) as (_ & H1 & H2 & _). by split. Defined.

Lemma fetch_gets_its_article_witness :
  exists r, c_cmds ex_conn !! 0%nat = Some (mkCommand cmdBody (bs "a@x") (Returned r) (Some r)) /\ messageIDFromStatusLine (r_line r) = Some (bs "a@x").
Proof.
  exists (mkResult 222 (bs "0 <a@x>") (body_text ex_lines) None true). split; [vm_compute; reflexivity|].
  apply (fetch_gets_its_article 64 2 ex_conn 0 (bs "a@x") _ (body_text ex_lines) ex_conn_reachable); vm_compute; reflexivity.
Defined.


Lemma body_roundtrip_witness : readDotStuffedBody 64 (wire_body ex_lines ++ bs "222 next") EndEOF = (Ok (body_text ex_lines), bs "222 next").
Proof.
  apply (body_roundtrip 64 ex_lines (bs "222 next") EndEOF); [lia| |vm_compute; done].
  repeat constructor; try done; vm_compute; lia.
Defined.

Definition ex_wire : wire := mkWire (bs "200 ready" ++ crlf ++ bs "381 more" ++ crlf ++ bs "281 ok" ++ crlf ++ bs "101 caps" ++ crlf ++
  wire_body [bs "VERSION 2"; bs "READER"]) EndEOF [] [] StateDisconnected.
Example ex_handshake : let '(w, caps, e) := handshake 64 ex_wire (bs "user") (bs "pass") in
  k_out w = [bs "AUTHINFO USER user" ++ crlf; bs "AUTHINFO PASS pass" ++ crlf; bs "CAPABILITIES" ++ crlf] /\ Version caps = 2 /\ HasStat caps = true /\ e = None.
Proof. vm_compute. done. Qed.

Lemma handshake_safe_witness : k_state (fst (fst (handshake 64 ex_wire (bs "user") (bs "pass")))) = StateReady.
Proof.
  destruct (handshake_safe 64 ex_wire (bs "user") (bs "pass") (fst (fst (handshake 64 ex_wire (bs "user") (bs "pass"))))
    (snd (fst (handshake 64 ex_wire (bs "user") (bs "pass")))) None) as [_ H]; [reflexivity|vm_compute; reflexivity|]. by apply H.
Defined.
