(* ===== verification/Ranges.v ===== *)
(** * Written byte ranges of one file ([internal/assembler/ranges.go])

    [ownedRanges] answers, for an arriving article, who already owns the bytes
    it would write and how many of them are covered.  Offsets are [int64]. *)
From S2P Require Import Prelude.
From stdpp Require Import base numbers sorting list.
From Stdlib Require Import ZArith Lia.
Local Open Scope Z_scope.

Record Range : Type := mkRange { Off : Z; Len : Z }.

(** [Range.end]: the sum is an [int64]. *)
Definition rend (r : Range) : Z := wraps 64 (Off r + Len r).

(** [Range.intersects]. *)
Definition intersects (r s : Range) : bool :=
  bool_decide (Len r > 0) && bool_decide (Len s > 0) && bool_decide (Off r < rend s)
  && bool_decide (Off s < rend r).

(** [articleID] is its index. *)
Record ownedRange : Type := mkOwned { o_r : Range; o_id : Z }.

Definition seededOwner : Z := -1.

(** The binary search of [ownerOf], [covered] and [claim]. *)
Definition seek (s : list ownedRange) (r : Range) : nat :=
  Search (length s) (fun i =>
    match s !! i with
    | Some o => bool_decide (rend (o_r o) > Off r)
    | None => false
    end).

Fixpoint ownerOf_loop (l : list ownedRange) (r : Range) : option Z :=
  match l with
  | [] => None
  | o :: l =>
      if decide (Off (o_r o) < rend r) then
        if intersects (o_r o) r then Some (o_id o) else ownerOf_loop l r
      else None
  end.

Definition ownerOf (s : list ownedRange) (r : Range) : option Z :=
  ownerOf_loop (drop (seek s r) s) r.

Fixpoint covered_loop (l : list ownedRange) (r : Range) (n : Z) : Z :=
  match l with
  | [] => n
  | o :: l =>
      if decide (Off (o_r o) < rend r) then
        let lo := Z.max (Off (o_r o)) (Off r) in
        let hi := Z.min (rend (o_r o)) (rend r) in
        covered_loop l r (if decide (hi > lo) then wraps 64 (n + (hi - lo)) else n)
      else n
  end.

Definition covered (s : list ownedRange) (r : Range) : Z :=
  covered_loop (drop (seek s r) s) r 0.

(** [claim]; [None] is its panic. *)
Definition claim (s : list ownedRange) (r : Range) (id : Z) : option (list ownedRange) :=
  if decide (Len r <= 0) then Some s
  else
    let lo := seek s r in
    match s !! lo with
    | Some o =>
        if decide (Off (o_r o) < rend r) then None
        else Some (take lo s ++ mkOwned r id :: drop lo s)
    | None => Some (take lo s ++ mkOwned r id :: drop lo s)
    end.

Definition maxEnd (s : list ownedRange) : Z :=
  match last s with
  | None => 0
  | Some o => rend (o_r o)
  end.

(** One round of [seed]'s loop. *)
Definition seed_step (s : list ownedRange) (r : Range) : list ownedRange :=
  match last s with
  | Some o =>
      if decide (Off r <= rend (o_r o)) then
        if decide (rend r > rend (o_r o)) then
          <[(length s - 1)%nat :=
              mkOwned (mkRange (Off (o_r o)) (wraps 64 (rend r - Off (o_r o)))) (o_id o)]> s
        else s
      else s ++ [mkOwned r seededOwner]
  | None => s ++ [mkOwned r seededOwner]
  end.

Definition off_le (a b : Range) : Prop := Off a <= Off b.
#[export] Instance off_le_dec : RelDecision off_le := fun a b => Z_le_dec (Off a) (Off b).

(** [seed]; [None] is [errSeedNotEmpty]. *)
Definition seed (s : list ownedRange) (rs : list Range) : option (list ownedRange) :=
  if decide (s <> []) then None
  else Some (foldl seed_step s
               (merge_sort off_le (base.filter (fun r => ~ (Len r <= 0)) rs))).

(** ** Meaning *)

(** A range the callers hand in: no negative offset, no overflowing end. *)
Definition range_ok (r : Range) : Prop := 0 <= Off r /\ 0 <= Len r /\ Off r + Len r <= MaxInt64.

Definition in_range (b : Z) (r : Range) : Prop := Off r <= b < Off r + Len r.

Definition owned (s : list ownedRange) (b : Z) : Prop := Exists (fun o => in_range b (o_r o)) s.

Definition before (a b : ownedRange) : Prop := Off (o_r a) + Len (o_r a) <= Off (o_r b).

(** Sorted, disjoint, non-empty ranges. *)
Definition wf_ranges (s : list ownedRange) : Prop :=
  Forall (fun o => range_ok (o_r o) /\ 0 < Len (o_r o)) s /\ StronglySorted before s.

#[export] Instance in_range_dec b r : Decision (in_range b r).
Proof. unfold in_range. apply _. Defined.
#[export] Instance owned_dec s b : Decision (owned s b).
Proof. unfold owned. apply _. Defined.

Definition overlap (r s : Range) : Z :=
  Z.max 0 (Z.min (Off r + Len r) (Off s + Len s) - Z.max (Off r) (Off s)).

(** ** Lemmas *)
Lemma rend_ok r : range_ok r -> rend r = Off r + Len r.
Proof.
  intros (? & ? & ?). apply wraps64_id. unfold in_i64, MinInt64, MaxInt64 in *. lia.
Qed.

Lemma intersects_spec r s :
  range_ok r -> range_ok s ->
  intersects r s = true <-> exists b, in_range b r /\ in_range b s.
Proof.
  intros Hr Hs. unfold intersects. rewrite !andb_true_iff, !bool_decide_eq_true, !rend_ok by done.
  unfold in_range. split; [|intros (b & ? & ?); lia].
  intros [[[? ?] ?] ?]. exists (Z.max (Off r) (Off s)). lia.
Qed.

(** The search splits the set at the first range ending after [r] begins. *)
Lemma seek_spec s r :
  wf_ranges s ->
  (seek s r <= length s)%nat /\
  Forall (fun o => Off (o_r o) + Len (o_r o) <= Off r) (take (seek s r) s) /\
  Forall (fun o => Off r < Off (o_r o) + Len (o_r o)) (drop (seek s r) s).
Proof.
  intros [Hf Hs]. set (f := fun i => match s !! i with
    | Some o => bool_decide (rend (o_r o) > Off r) | None => false end).
  assert (Hend : forall i o, s !! i = Some o -> rend (o_r o) = Off (o_r o) + Len (o_r o)).
  { intros i o Hi. apply rend_ok. eapply Forall_lookup_1 in Hf; [|done]. apply Hf. }
  destruct (Search_spec (length s) f) as (H1 & H2 & H3).
  { intros i j Hij. unfold f. destruct (s !! i) as [oi|] eqn:Ei; [|done].
    destruct (lookup_lt_is_Some_2 s j) as [oj Ej]; [lia|]. rewrite Ej.
    rewrite !bool_decide_eq_true, (Hend _ _ Ei), (Hend _ _ Ej). intros Hlt.
    destruct (decide (i = j)) as [->|Hne]; [by simplify_eq|].
    assert (before oi oj) as Hb by (eapply (StronglySorted_lookup_lt before s i j); [done|lia|done|done]).
    unfold before in Hb. eapply Forall_lookup_1 in Hf; [|exact Ej]. lia. }
  fold f in H1, H2, H3. change (Search (length s) f) with (seek s r) in *.
  split_and!; [done| |].
  - apply Forall_lookup. intros i o Hi. apply lookup_take_Some in Hi as [Hi Hlt].
    specialize (H2 i Hlt). unfold f in H2. rewrite Hi, bool_decide_eq_false, (Hend _ _ Hi) in H2. lia.
  - apply Forall_lookup. intros i o Hi. rewrite lookup_drop in Hi.
    specialize (H3 (seek s r + i)%nat). unfold f in H3. rewrite Hi in H3.
    rewrite bool_decide_eq_true, (Hend _ _ Hi) in H3.
    apply lookup_lt_Some in Hi. lia.
Qed.

Lemma wf_drop n s : wf_ranges s -> wf_ranges (drop n s).
Proof.
  intros [Hf Hs]. split; [by apply Forall_drop|].
  rewrite <- (take_drop n s) in Hs. by eapply StronglySorted_app_1_r.
Qed.

Lemma wf_take n s : wf_ranges s -> wf_ranges (take n s).
Proof.
  intros [Hf Hs]. split; [by apply Forall_take|].
  rewrite <- (take_drop n s) in Hs. by eapply StronglySorted_app_1_l.
Qed.

Lemma wf_cons_inv o s :
  wf_ranges (o :: s) ->
  range_ok (o_r o) /\ 0 < Len (o_r o) /\ wf_ranges s /\
  Forall (fun o' => Off (o_r o) + Len (o_r o) <= Off (o_r o')) s.
Proof.
  intros [Hf Hs]. apply Forall_cons in Hf as [[? ?] Hf]. apply StronglySorted_cons in Hs as [? ?]. done.
Qed.

(** Past the first range beginning after [r] ends, nothing meets [r]. *)
Lemma beyond_no_overlap s o r :
  wf_ranges (o :: s) -> range_ok r -> Off r + Len r <= Off (o_r o) ->
  Forall (fun o' => overlap (o_r o') r = 0 /\ intersects (o_r o') r = false) (o :: s).
Proof.
  intros Hw Hr Hle. destruct (wf_cons_inv _ _ Hw) as (Ho & Hp & [Hf _] & Hlt).
  assert (Hall : Forall (fun o' => Off r + Len r <= Off (o_r o') /\ range_ok (o_r o')) (o :: s)).
  { constructor; [done|]. rewrite Forall_forall in *. intros o' Hin. split; [|by apply Hf].
    specialize (Hlt _ Hin). lia. }
  eapply Forall_impl; [exact Hall|]. intros o' [H1 H2]. split; [unfold overlap; destruct H2, Hr; lia|].
  apply not_true_is_false. rewrite intersects_spec by done. intros (b & ? & ?). unfold in_range in *. lia.
Qed.

Lemma ownerOf_loop_spec s r :
  wf_ranges s -> range_ok r ->
  match ownerOf_loop s r with
  | Some id => exists o, o ∈ s /\ o_id o = id /\ intersects (o_r o) r = true
  | None => Forall (fun o => intersects (o_r o) r = false) s
  end.
Proof.
  intros Hw Hr. induction s as [|o s IH]; [constructor|].
  destruct (wf_cons_inv _ _ Hw) as (Ho & Hp & Hw' & Hlt). cbn [ownerOf_loop].
  rewrite rend_ok by done. case_decide as Hd.
  - destruct (intersects (o_r o) r) eqn:Ei.
    + exists o. split_and!; [by left|done|done].
    + specialize (IH Hw'). destruct (ownerOf_loop s r).
      * destruct IH as (o' & ? & ? & ?). exists o'. split_and!; [by right|done|done].
      * by constructor.
  - eapply Forall_impl; [apply (beyond_no_overlap s o r); [done|done|lia]|]. by intros ? [].
Qed.

(** What lies before the search's split does not meet [r]. *)
Lemma prefix_no_overlap s r :
  wf_ranges s -> range_ok r ->
  Forall (fun o => overlap (o_r o) r = 0 /\ intersects (o_r o) r = false) (take (seek s r) s).
Proof.
  intros Hw Hr. destruct (seek_spec s r Hw) as (_ & Hp & _).
  pose proof (proj1 (wf_take (seek s r) s Hw)) as Hf.
  rewrite Forall_forall in *. intros o Hin. specialize (Hp _ Hin). destruct (Hf _ Hin) as [Ho _].
  split; [unfold overlap; destruct Ho, Hr; lia|].
  apply not_true_is_false. rewrite intersects_spec by done. intros (b & ? & ?). unfold in_range in *. lia.
Qed.

Lemma ownerOf_full s r :
  wf_ranges s -> range_ok r ->
  match ownerOf s r with
  | Some id => exists o, o ∈ s /\ o_id o = id /\ intersects (o_r o) r = true
  | None => Forall (fun o => intersects (o_r o) r = false) s
  end.
Proof.
  intros Hw Hr. unfold ownerOf.
  pose proof (ownerOf_loop_spec _ r (wf_drop (seek s r) s Hw) Hr) as H.
  destruct (ownerOf_loop _ r).
  - destruct H as (o & Hin & ? & ?). exists o. split_and!; try done.
    rewrite <- (take_drop (seek s r) s). apply elem_of_app. by right.
  - rewrite <- (take_drop (seek s r) s). apply Forall_app. split; [|done].
    eapply Forall_impl; [by apply prefix_no_overlap|]. by intros ? [].
Qed.

(** The loop of [covered] sums the overlaps, and the sum cannot overflow. *)
Definition overlaps (s : list ownedRange) (r : Range) : Z :=
  sumZ ((fun o => overlap (o_r o) r) <$> s).

Lemma overlaps_nonneg s r : 0 <= overlaps s r.
Proof.
  apply sumZ_nonneg. apply Forall_fmap, Forall_true. intros o. simpl. unfold overlap. lia.
Qed.

Lemma overlaps_cons o s r : overlaps (o :: s) r = overlap (o_r o) r + overlaps s r.
Proof. done. Qed.

Lemma overlaps_zero s r : Forall (fun o => overlap (o_r o) r = 0) s -> overlaps s r = 0.
Proof. induction 1 as [|o s Ho _ IH]; [done|]. rewrite overlaps_cons. lia. Qed.

Lemma overlaps_app s1 s2 r : overlaps (s1 ++ s2) r = overlaps s1 r + overlaps s2 r.
Proof. unfold overlaps. by rewrite fmap_app, sumZ_app. Qed.

(** Bytes of disjoint ranges inside a window number no more than the window. *)
Lemma overlaps_bound s lo r :
  wf_ranges s -> 0 <= Len r -> Forall (fun o => lo <= Off (o_r o)) s ->
  overlaps s r <= Z.max 0 (Off r + Len r - Z.max lo (Off r)).
Proof.
  revert lo. induction s as [|o s IH]; intros lo Hw Hr Hlo; [unfold overlaps; simpl; lia|].
  destruct (wf_cons_inv _ _ Hw) as (Ho & Hp & Hw' & Hlt). apply Forall_cons in Hlo as [Hl _].
  specialize (IH (Off (o_r o) + Len (o_r o)) Hw' Hr Hlt). rewrite overlaps_cons.
  unfold overlap. destruct Ho. lia.
Qed.

Lemma covered_loop_spec s r n :
  wf_ranges s -> range_ok r -> 0 <= n -> n + overlaps s r <= MaxInt64 ->
  covered_loop s r n = n + overlaps s r.
Proof.
  revert n. induction s as [|o s IH]; intros n Hw Hr Hn Hb; [unfold overlaps; simpl; lia|].
  destruct (wf_cons_inv _ _ Hw) as (Ho & Hp & Hw' & Hlt). cbn [covered_loop]. cbv zeta.
  rewrite !rend_ok by done. case_decide as Hd.
  - rewrite overlaps_cons in *. pose proof (overlaps_nonneg s r) as Hnn.
    assert ((if decide (Z.min (Off (o_r o) + Len (o_r o)) (Off r + Len r) > Z.max (Off (o_r o)) (Off r))
      then wraps 64 (n + (Z.min (Off (o_r o) + Len (o_r o)) (Off r + Len r) - Z.max (Off (o_r o)) (Off r)))
      else n) = n + overlap (o_r o) r) as ->.
    { unfold overlap in *. case_decide; [|lia]. rewrite wraps64_id; [lia|].
      unfold in_i64, MinInt64 in *. lia. }
    rewrite IH; [lia|done|done|unfold overlap; lia|lia].
  - rewrite (overlaps_zero (o :: s)); [lia|].
    eapply Forall_impl; [apply (beyond_no_overlap s o r); [done|done|lia]|]. by intros ? [].
Qed.

Lemma covered_overlaps s r : wf_ranges s -> range_ok r -> covered s r = overlaps s r /\ overlaps s r <= Len r.
Proof.
  intros Hw Hr.
  assert (overlaps s r <= Len r) as Hb.
  { pose proof (overlaps_bound s 0 r Hw ltac:(apply Hr)) as H. destruct Hr as (? & ? & ?).
    specialize (H ltac:(eapply Forall_impl; [apply Hw|]; intros o [[? _] _]; done)). lia. }
  split; [|done].
  assert (overlaps s r = overlaps (drop (seek s r) s) r) as E.
  { rewrite <- (take_drop (seek s r) s) at 1. rewrite overlaps_app, (overlaps_zero (take _ _)); [lia|].
    eapply Forall_impl; [by apply prefix_no_overlap|]. by intros ? []. }
  unfold covered. rewrite covered_loop_spec; [lia|by apply wf_drop|done|lia|].
  destruct Hr as (? & ? & ?). lia.
Qed.

(** Counting bytes. *)
Lemma filter_length_disjoint {A} (P Q : A -> Prop) `{!forall x, Decision (P x), !forall x, Decision (Q x)} l :
  (forall x, P x -> Q x -> False) ->
  length (base.filter (fun x => P x \/ Q x) l) = (length (base.filter P l) + length (base.filter Q l))%nat.
Proof.
  intros Hd. induction l as [|x l IH]; [done|]. rewrite !filter_cons.
  repeat case_decide; simpl; rewrite ?IH; try lia; exfalso; naive_solver.
Qed.

Lemma filter_length_ext {A} (P Q : A -> Prop) `{!forall x, Decision (P x), !forall x, Decision (Q x)} l :
  (forall x, P x <-> Q x) -> length (base.filter P l) = length (base.filter Q l).
Proof. intros HPQ. f_equal. by apply list_filter_iff. Qed.

Lemma count_interval s m n :
  Z.of_nat (length (base.filter (fun b => in_range b s) (seqZ m (Z.of_nat n)))) =
  Z.max 0 (Z.min (Off s + Len s) (m + Z.of_nat n) - Z.max (Off s) m).
Proof.
  induction n as [|n IH]; [simpl; lia|].
  rewrite Nat2Z.inj_succ, <- Z.add_1_r, seqZ_app by lia. rewrite filter_app, length_app.
  rewrite (seqZ_cons (m + Z.of_nat n) 1) by lia.
  rewrite (seqZ_nil _ (Z.pred 1)) by lia. rewrite filter_cons, filter_nil.
  rewrite Nat2Z.inj_add, IH. unfold in_range. case_decide; simpl; lia.
Qed.

Lemma count_owned s r :
  wf_ranges s -> 0 <= Len r ->
  Z.of_nat (length (base.filter (owned s) (seqZ (Off r) (Len r)))) = overlaps s r.
Proof.
  intros Hw Hr. induction s as [|o s IH].
  { generalize (seqZ (Off r) (Len r)). intros l. change (overlaps [] r) with 0.
    induction l as [|b l IH]; [done|]. rewrite filter_cons, decide_False; [done|]. by intros H%Exists_nil. }
  destruct (wf_cons_inv _ _ Hw) as (Ho & Hp & Hw' & Hlt).
  rewrite (filter_length_ext _ (fun b => in_range b (o_r o) \/ owned s b)) by (intros; apply Exists_cons).
  rewrite filter_length_disjoint.
  - rewrite Nat2Z.inj_add, IH by done. rewrite <- (Z2Nat.id (Len r)) by done. rewrite count_interval.
    rewrite overlaps_cons. unfold overlap. rewrite Z2Nat.id by done. lia.
  - intros b Hb Hs. apply Exists_exists in Hs as (o' & Hin & Hb').
    rewrite Forall_forall in Hlt. specialize (Hlt _ Hin). unfold in_range in *. lia.
Qed.

Lemma owned_app s1 s2 b : owned (s1 ++ s2) b <-> owned s1 b \/ owned s2 b.
Proof. apply Exists_app. Qed.

Lemma owned_cons o s b : owned (o :: s) b <-> in_range b (o_r o) \/ owned s b.
Proof. apply Exists_cons. Qed.

(** Inserting [r] where the search stopped keeps the set well-formed. *)
Lemma wf_insert_at s r id i :
  wf_ranges s -> range_ok r -> 0 < Len r ->
  Forall (fun o => Off (o_r o) + Len (o_r o) <= Off r) (take i s) ->
  Forall (fun o => Off r + Len r <= Off (o_r o)) (drop i s) ->
  wf_ranges (take i s ++ mkOwned r id :: drop i s).
Proof.
  intros Hw Hr Hp Hlo Hhi. destruct (wf_take i s Hw) as [F1 S1]. destruct (wf_drop i s Hw) as [F2 S2].
  split; [by apply Forall_app; split; [|constructor]|].
  rewrite Forall_forall in Hlo, Hhi. apply StronglySorted_app. split_and!; [|done|].
  - intros x y Hx [->|Hy]%elem_of_cons; [by apply Hlo|]. unfold before.
    specialize (Hlo _ Hx). specialize (Hhi _ Hy). lia.
  - apply StronglySorted_cons. split; [|done]. by apply Forall_forall.
Qed.

Lemma claim_full s r id :
  wf_ranges s -> range_ok r -> 0 < Len r ->
  match claim s r id with
  | Some s' => wf_ranges s' /\ s' ≡ₚ mkOwned r id :: s /\ Forall (fun o => intersects (o_r o) r = false) s
  | None => exists o, o ∈ s /\ intersects (o_r o) r = true
  end.
Proof.
  intros Hw Hr Hp. unfold claim. rewrite decide_False by lia. cbv zeta.
  destruct (seek_spec s r Hw) as (Hi & Hlo & Hhi). pose proof (prefix_no_overlap s r Hw Hr) as Hpre.
  assert (take (seek s r) s ++ mkOwned r id :: drop (seek s r) s ≡ₚ mkOwned r id :: s) as Hperm.
  { by rewrite <- Permutation_middle, take_drop. }
  pose proof (wf_drop (seek s r) s Hw) as Hwd.
  destruct (s !! seek s r) as [o|] eqn:Eo.
  - rewrite (drop_S s o (seek s r) Eo) in Hwd, Hhi. apply Forall_cons in Hhi as [Ho Hhi].
    destruct (wf_cons_inv _ _ Hwd) as (Hok & Hpo & _ & Hlt).
    rewrite rend_ok by done. case_decide as Hd.
    + exists o. split; [by eapply list_elem_of_lookup_2|]. apply intersects_spec; [done..|].
      exists (Z.max (Off (o_r o)) (Off r)). unfold in_range. lia.
    + assert (Forall (fun o => Off r + Len r <= Off (o_r o)) (drop (seek s r) s)) as Hge.
      { rewrite (drop_S s o (seek s r) Eo). constructor; [lia|].
        eapply Forall_impl; [exact Hlt|]. simpl. intros. lia. }
      split_and!; [by apply wf_insert_at|done|].
      rewrite <- (take_drop (seek s r) s). apply Forall_app. split.
      * eapply Forall_impl; [exact Hpre|]. by intros ? [].
      * rewrite (drop_S s o (seek s r) Eo).
        eapply Forall_impl; [apply (beyond_no_overlap _ o r); [done|done|lia]|]. by intros ? [].
  - apply lookup_ge_None in Eo. assert (seek s r = length s) as E by lia.
    rewrite E in *. rewrite drop_all, take_ge in * by done. split_and!.
    + rewrite <- (take_ge s (length s)) by done. rewrite <- (drop_all s).
      apply wf_insert_at; rewrite ?take_ge, ?drop_all by done; done.
    + done.
    + eapply Forall_impl; [exact Hpre|]. by intros ? [].
Qed.

(** ** [seed] *)
Definition apart (a b : ownedRange) : Prop := Off (o_r a) + Len (o_r a) < Off (o_r b).

(** What [seed] builds: ranges that neither meet nor abut. *)
Definition wf_seeded (s : list ownedRange) : Prop :=
  Forall (fun o => range_ok (o_r o) /\ 0 < Len (o_r o)) s /\ StronglySorted apart s.

Lemma wf_seeded_ranges s : wf_seeded s -> wf_ranges s.
Proof.
  intros [Hf Hs]. split; [done|]. clear Hf. induction Hs as [|o s _ IH Ho]; [constructor|].
  constructor; [done|]. eapply Forall_impl; [exact Ho|]. unfold apart, before. intros. lia.
Qed.

(** Every range of the set begins no later than [r]. *)
Definition begun (s : list ownedRange) (r : Range) : Prop := Forall (fun o => Off (o_r o) <= Off r) s.

Lemma seed_step_snoc s o r :
  range_ok (o_r o) -> range_ok r ->
  seed_step (s ++ [o]) r =
    if decide (Off r <= Off (o_r o) + Len (o_r o)) then
      if decide (Off r + Len r > Off (o_r o) + Len (o_r o))
      then s ++ [mkOwned (mkRange (Off (o_r o)) (Off r + Len r - Off (o_r o))) (o_id o)]
      else s ++ [o]
    else s ++ [o; mkOwned r seededOwner].
Proof.
  intros Ho Hr. unfold seed_step. rewrite last_snoc, !rend_ok by done.
  case_decide; [|by rewrite <- app_assoc]. case_decide; [|done].
  rewrite length_app. simpl. replace (length s + 1 - 1)%nat with (length s + 0)%nat by lia.
  rewrite insert_app_r. simpl. rewrite wraps64_id; [done|].
  destruct Ho, Hr. unfold in_i64, MinInt64, MaxInt64 in *. lia.
Qed.

Lemma seed_step_ok s r :
  wf_seeded s -> range_ok r -> 0 < Len r -> begun s r ->
  wf_seeded (seed_step s r) /\ (forall r', Off r <= Off r' -> begun (seed_step s r) r') /\
  (forall b, owned (seed_step s r) b <-> owned s b \/ in_range b r).
Proof.
  intros Hw Hr Hp Hb. destruct s as [|o s _] using rev_ind.
  { change (seed_step [] r) with [mkOwned r seededOwner]. split_and!.
    - split; [by apply Forall_singleton|repeat constructor].
    - intros r' Hle. by apply Forall_singleton.
    - intros b. rewrite owned_cons.
      split; [intros [?|H]; [by right|inv H]|intros [H|?]; [inv H|by left]]. }
  destruct Hw as [Hf Hs]. apply Forall_app in Hf as [Hf Ho]. apply Forall_singleton in Ho as [Ho Hpo].
  apply Forall_app in Hb as [Hb Hbo]. apply Forall_cons in Hbo as [Hbo _].
  apply StronglySorted_app in Hs as (Hcross & Hs & _).
  rewrite seed_step_snoc by done. case_decide as H1; [case_decide as H2|].
  - split_and!.
    + split.
      * apply Forall_app; split; [done|]. apply Forall_singleton; simpl. destruct Ho, Hr.
        unfold range_ok; simpl. lia.
      * apply StronglySorted_app. split_and!; [|done|repeat constructor].
        intros x y Hx ->%list_elem_of_singleton. unfold apart; simpl. by apply (Hcross x o); [|left].
    + intros r' Hle. apply Forall_app; split; [|apply Forall_singleton; simpl; lia].
      eapply Forall_impl; [exact Hb|]. simpl. intros; lia.
    + intros b. rewrite !owned_app, !owned_cons. unfold in_range; simpl.
      assert (owned [] b <-> False) as -> by (split; [intros H; inv H|done]). split; [|].
      * intros [?|[?|[]]]; [tauto|]. destruct (decide (b < Off (o_r o) + Len (o_r o))); [left; right; left; lia|right; lia].
      * intros [[?|[?|[]]]|?]; [tauto|right; left; lia|right; left; lia].
  - split_and!.
    + split; [by apply Forall_app; split; [|constructor]|].
      apply StronglySorted_app. by split_and!; [|done|repeat constructor].
    + intros r' Hle. apply Forall_app; split; [|apply Forall_singleton; lia].
      eapply Forall_impl; [exact Hb|]. simpl. intros; lia.
    + intros b. rewrite !owned_app, !owned_cons. unfold in_range.
      split; [tauto|]. intros [?|?]; [tauto|right; left; lia].
  - split_and!.
    + split; [apply Forall_app; split; [done|by constructor; [|apply Forall_singleton]]|].
      apply StronglySorted_app. split_and!; [|done|].
      * intros x y Hx [->| ->%list_elem_of_singleton]%elem_of_cons; [by apply (Hcross x o); [|left]|].
        unfold apart; simpl. pose proof (Hcross x o Hx ltac:(by left)) as Ha. unfold apart in Ha. lia.
      * constructor; [repeat constructor|]. apply Forall_singleton. unfold apart; simpl. lia.
    + intros r' Hle. apply Forall_app; split; [|constructor; [lia|apply Forall_singleton; simpl; lia]].
      eapply Forall_impl; [exact Hb|]. simpl. intros; lia.
    + intros b. rewrite !owned_app, !owned_cons. simpl. tauto.
Qed.

Lemma seed_fold_ok rs s :
  wf_seeded s -> Forall (fun r => range_ok r /\ 0 < Len r) rs -> StronglySorted off_le rs ->
  Forall (begun s) rs ->
  wf_seeded (foldl seed_step s rs) /\
  forall b, owned (foldl seed_step s rs) b <-> owned s b \/ Exists (in_range b) rs.
Proof.
  revert s. induction rs as [|r rs IH]; intros s Hw Hf Hs Hb.
  { split; [done|]. intros b. simpl. split; [tauto|]. intros [?|H]; [done|inv H]. }
  apply Forall_cons in Hf as [[Hr Hp] Hf]. apply StronglySorted_cons in Hs as [Hle Hs].
  apply Forall_cons in Hb as [Hb _].
  destruct (seed_step_ok s r Hw Hr Hp Hb) as (Hw' & Hb' & Ho).
  destruct (IH (seed_step s r) Hw' Hf Hs) as [H1 H2].
  { eapply Forall_impl; [exact Hle|]. exact Hb'. }
  split; [done|]. intros b. simpl. rewrite H2, Ho, Exists_cons. tauto.
Qed.

#[export] Instance off_le_trans : Transitive off_le.
Proof. intros x y z. unfold off_le. lia. Qed.
#[export] Instance off_le_total : Total off_le.
Proof. intros x y. unfold off_le. lia. Qed.

(** ** Properties *)

(** [ownerOf] is exact.  Over a well-formed set it returns the owner of a
    range that shares a byte with [r], and returns none exactly when no owned
    byte lies in [r]; the binary search and the early exit miss nothing. *)
Theorem ownerOf_spec s r :
  wf_ranges s -> range_ok r ->
  match ownerOf s r with
  | Some id => exists o b, o ∈ s /\ o_id o = id /\ in_range b (o_r o) /\ in_range b r
  | None => forall b, in_range b r -> ~ owned s b
  end.
Proof.
  intros Hw Hr. pose proof (ownerOf_full s r Hw Hr) as H. pose proof (proj1 Hw) as Hf.
  rewrite Forall_forall in Hf. destruct (ownerOf s r) as [id|].
  - destruct H as (o & Hin & Hid & (b & ? & ?)%intersects_spec); [|apply Hf, Hin|done].
    exists o, b. done.
  - intros b Hb (o & Hin & Ho)%Exists_exists. rewrite Forall_forall in H.
    assert (intersects (o_r o) r = true) as E.
    { apply intersects_spec; [apply Hf, Hin|done|eauto]. }
    by rewrite H in E.
Qed.

(** [covered] counts bytes.  Over a well-formed set it is the number of
    offsets of [r] that are owned, each once, and the [int64] sum does not
    overflow: it is at most [Len r]. *)
Theorem covered_spec s r :
  wf_ranges s -> range_ok r ->
  covered s r = Z.of_nat (length (base.filter (owned s) (seqZ (Off r) (Len r)))) /\
  0 <= covered s r <= Len r.
Proof.
  intros Hw Hr. destruct (covered_overlaps s r Hw Hr) as [-> Hle].
  rewrite count_owned by (done || apply Hr). pose proof (overlaps_nonneg s r). split; [done|lia].
Qed.

(** [claim] after [ownerOf] found no owner never panics, keeps the set
    sorted and disjoint, and adds exactly the bytes of [r]; [claim] panics
    exactly when a byte of a non-empty [r] is already owned. *)
Theorem claim_spec s r id :
  wf_ranges s -> range_ok r ->
  (ownerOf s r = None -> exists s', claim s r id = Some s' /\ wf_ranges s' /\
     forall b, owned s' b <-> owned s b \/ in_range b r) /\
  (claim s r id = None <-> exists b, in_range b r /\ owned s b).
Proof.
  intros Hw Hr. pose proof (proj1 Hw) as Hf. rewrite Forall_forall in Hf.
  destruct (decide (Len r <= 0)) as [Hz|Hp].
  { assert (claim s r id = Some s) as E by (unfold claim; by rewrite decide_True).
    assert (forall b, ~ in_range b r) as Hno by (intros b; unfold in_range; lia).
    split; [intros _; exists s; split_and!; naive_solver|]. rewrite E. naive_solver. }
  pose proof (claim_full s r id Hw Hr ltac:(lia)) as H. split.
  - intros Hn. pose proof (ownerOf_full s r Hw Hr) as Ho. rewrite Hn in Ho.
    destruct (claim s r id) as [s'|].
    + destruct H as (Hw' & Hp' & _). exists s'. split_and!; [done..|].
      intros b. unfold owned. rewrite Hp', Exists_cons. tauto.
    + destruct H as (o & Hin & E). rewrite Forall_forall in Ho. by rewrite Ho in E.
  - destruct (claim s r id) as [s'|].
    + split; [done|]. intros (b & Hb & (o & Hin & Ho)%Exists_exists).
      destruct H as (_ & _ & H). rewrite Forall_forall in H.
      assert (intersects (o_r o) r = true) as E by (apply intersects_spec; [apply Hf, Hin|done|eauto]).
      by rewrite H in E.
    + split; [intros _|done]. destruct H as (o & Hin & (b & ? & ?)%intersects_spec); [|apply Hf, Hin|done].
      exists b. split; [done|]. apply Exists_exists. eauto.
Qed.

(** [seed] merges.  From an empty set, over ranges whose ends do not
    overflow, it yields sorted ranges that neither meet nor abut, owning
    exactly the bytes of the non-empty inputs; on a non-empty set it refuses
    and changes nothing. *)
Theorem seed_spec rs :
  Forall (fun r => 0 < Len r -> range_ok r) rs ->
  (exists s, seed [] rs = Some s /\ wf_ranges s /\ StronglySorted apart s /\
     forall b, owned s b <-> Exists (in_range b) rs) /\
  (forall o s, seed (o :: s) rs = None).
Proof.
  intros Hok. split; [|done]. unfold seed. rewrite decide_False by (by intros ?).
  eexists. split; [reflexivity|]. set (fl := base.filter _ rs).
  pose proof (merge_sort_Permutation off_le fl) as Hp.
  destruct (seed_fold_ok (merge_sort off_le fl) []) as [H1 H2].
  - split; constructor.
  - rewrite Hp. apply Forall_forall. intros r [Hl Hin]%list_elem_of_filter.
    rewrite Forall_forall in Hok. split; [apply Hok; [done|lia]|lia].
  - apply (StronglySorted_merge_sort off_le).
  - apply Forall_true. intros r. constructor.
  - split_and!; [by apply wf_seeded_ranges|apply H1|]. intros b. rewrite H2.
    assert (owned [] b <-> False) as -> by (split; [intros H; inv H|done]).
    rewrite Hp, !Exists_exists. unfold fl. setoid_rewrite list_elem_of_filter. unfold in_range.
    split; [naive_solver|]. intros (r & Hin & Hb). right. exists r. split; [split; [lia|done]|done].
Qed.

(** ** Witnesses *)
Definition ex_ranges : list ownedRange := [mkOwned (mkRange 0 10) 1; mkOwned (mkRange 20 5) 2].

Lemma ex_ranges_wf : wf_ranges ex_ranges.
Proof.
  split; [repeat constructor; vm_compute; congruence|].
  repeat constructor. vm_compute. congruence.
Qed.

Lemma ownerOf_spec_witness :
  ownerOf ex_ranges (mkRange 22 9) = Some 2 /\
  exists o b, o ∈ ex_ranges /\ o_id o = 2 /\ in_range b (o_r o) /\ in_range b (mkRange 22 9).
Proof.
  split; [vm_compute; reflexivity|].
  apply (ownerOf_spec ex_ranges (mkRange 22 9) ex_ranges_wf). repeat split; vm_compute; congruence.
Defined.

Lemma covered_spec_witness :
  covered ex_ranges (mkRange 5 17) = 7 /\
  length (base.filter (owned ex_ranges) (seqZ 5 17)) = 7%nat.
Proof.
  split; [vm_compute; reflexivity|].
  apply Nat2Z.inj. symmetry.
  apply (covered_spec ex_ranges (mkRange 5 17) ex_ranges_wf). repeat split; vm_compute; congruence.
Defined.

Lemma claim_spec_witness :
  claim ex_ranges (mkRange 8 3) 3 = None /\
  exists s', claim ex_ranges (mkRange 10 10) 3 = Some s' /\ wf_ranges s' /\
    forall b, owned s' b <-> owned ex_ranges b \/ in_range b (mkRange 10 10).
Proof.
  split.
  - apply (claim_spec ex_ranges (mkRange 8 3) 3 ex_ranges_wf); [repeat split; vm_compute; congruence|].
    exists 9. split; [vm_compute; split; congruence|]. apply Exists_cons. left. vm_compute. split; congruence.
  - apply (claim_spec ex_ranges (mkRange 10 10) 3 ex_ranges_wf); [repeat split; vm_compute; congruence|].
    vm_compute. reflexivity.
Defined.

Lemma seed_spec_witness :
  exists s, seed [] [mkRange 5 5; mkRange 0 5; mkRange 20 0] = Some s /\ wf_ranges s.
Proof.
  destruct (seed_spec [mkRange 5 5; mkRange 0 5; mkRange 20 0]) as [(s & H1 & H2 & _) _].
  - repeat constructor; vm_compute; congruence.
  - exists s. split; [exact H1|exact H2].
Defined.
