(* ===== verification/FileWriter.v ===== *)
(** * The writer of one target file ([internal/assembler/filewriter.go],
    [internal/storagefault], [internal/fsutil/shrink.go])

    The duplicate sets, the part count and the owned ranges of an open file,
    and the disk it writes: a file is its bytes and its size, and the result
    of each system call is an input. *)
From S2P Require Import Prelude Ranges.
From stdpp Require Import base numbers gmap list strings.
From Stdlib Require Import ZArith Lia.
Local Open Scope Z_scope.

(** ** Storage faults *)
Inductive Errno : Type :=
| EROFS | ENOTDIR | EACCES | EPERM | EBADF | EFBIG | EINVAL
| OtherErrno (n : Z).
#[export] Instance Errno_eq_dec : EqDecision Errno.
Proof. solve_decision. Defined.

(** An error is the errnos [errors.Is] finds in its chain. *)
Definition error : Type := list Errno.

Definition permanentErrnos : list Errno := [EROFS; ENOTDIR; EACCES; EPERM; EBADF; EFBIG; EINVAL].

Record Fault : Type := mkFault { f_op : string; f_path : string; f_err : error; f_permanent : bool }.
#[export] Instance Fault_eq_dec : EqDecision Fault.
Proof. solve_decision. Defined.

Definition Classify (op path : string) (err : option error) : option Fault :=
  match err with
  | None => None
  | Some e => Some (mkFault op path e (existsb (fun p => bool_decide (p ∈ e)) permanentErrnos))
  end.

(** ** Files on disk *)

(** A byte never written reads as zero; [c_bytes] holds the others. *)
Record content : Type := mkContent { c_bytes : gmap Z Z; c_size : Z }.
Definition empty_content : content := mkContent ∅ 0.

Notation disk := (gmap string content) (only parsing).
Definition file_at (d : disk) (path : string) : content := default empty_content (d !! path).
Definition byte_at (d : disk) (path : string) (b : Z) : Z := default 0 (c_bytes (file_at d path) !! b).

Fixpoint put_bytes (m : gmap Z Z) (off : Z) (data : list Z) : gmap Z Z :=
  match data with
  | [] => m
  | x :: data => put_bytes (<[off := x]> m) (off + 1) data
  end.

Definition write_content (c : content) (off : Z) (data : list Z) : content :=
  mkContent (put_bytes (c_bytes c) off data)
    (if decide (data = []) then c_size c else Z.max (c_size c) (off + Z.of_nat (length data))).

(** [WriteAt]: on a fault an arbitrary prefix of the bytes has landed. *)
Definition WriteAt (d : disk) (path : string) (off : Z) (data : list Z) (r : option (nat * error)) :
    disk * option error :=
  match r with
  | None => (<[path := write_content (file_at d path) off data]> d, None)
  | Some (n, e) => (<[path := write_content (file_at d path) off (take n data)]> d, Some e)
  end.

Definition truncate_content (c : content) (n : Z) : content :=
  mkContent (base.filter (fun '(b, _) => b < n) (c_bytes c)) n.

(** ** Accounting *)
Inductive disposition : Type :=
| dispositionNone  (* the zero value *)
| dispositionWritten
| dispositionRejected
| dispositionFetchFailed
| dispositionRolledBack.
#[export] Instance disposition_eq_dec : EqDecision disposition.
Proof. solve_decision. Defined.

Record fileWriter : Type := mkWriter {
  w_path : string;
  seenDone : gset Z;
  seenFailed : gset Z;
  w_owned : list ownedRange;
  partsWritten : Z;
}.

Definition newFileWriter (path : string) : fileWriter := mkWriter path ∅ ∅ [] 0.

Definition holdsPart (w : fileWriter) (artIdx : Z) : bool :=
  bool_decide (artIdx ∈ seenDone w) || bool_decide (artIdx ∈ seenFailed w).

Definition admit_article (w : fileWriter) (artIdx : Z) : fileWriter * bool :=
  if decide (artIdx ∈ seenDone w) then (w, false)
  else (mkWriter (w_path w) ({[artIdx]} ∪ seenDone w) (seenFailed w) (w_owned w)
          (if holdsPart w artIdx then partsWritten w else partsWritten w + 1), true).

(** [resolve]; [None] is a panic. *)
Definition resolve (w : fileWriter) (artIdx : Z) (d : disposition) : option fileWriter :=
  let wasDone := bool_decide (artIdx ∈ seenDone w) in
  let wasFailed := bool_decide (artIdx ∈ seenFailed w) in
  if decide (d <> dispositionFetchFailed /\ wasDone = false) then None
  else
    match d with
    | dispositionWritten => Some w
    | dispositionRejected =>
        Some (mkWriter (w_path w) (seenDone w ∖ {[artIdx]}) ({[artIdx]} ∪ seenFailed w) (w_owned w) (partsWritten w))
    | dispositionFetchFailed =>
        Some (mkWriter (w_path w) (seenDone w) ({[artIdx]} ∪ seenFailed w) (w_owned w)
                (if negb wasDone && negb wasFailed then partsWritten w + 1 else partsWritten w))
    | dispositionRolledBack =>
        Some (mkWriter (w_path w) (seenDone w ∖ {[artIdx]}) (seenFailed w) (w_owned w)
                (if wasFailed then partsWritten w else partsWritten w - 1))
    | dispositionNone => None
    end.

(** [writeOne] (and [accept]): the writer, the disk, the fault and whether the
    buffer went back to the pool; [None] is [claim]'s panic. *)
Definition writeOne (w : fileWriter) (d : disk) (artIdx off : Z) (data : option (list Z)) (r : option (nat * error)) :
    option (fileWriter * disk * option Fault * bool) :=
  let bytes := default [] data in
  let put := bool_decide (data <> None) in
  match WriteAt d (w_path w) off bytes r with
  | (d, Some e) => Some (w, d, Classify "write" (w_path w) (Some e), put)
  | (d, None) =>
      o ← claim (w_owned w) (mkRange off (Z.of_nat (length bytes))) artIdx;
      Some (mkWriter (w_path w) (seenDone w) (seenFailed w) o (partsWritten w), d, None, put)
  end.

(** ** Closing *)
Definition sync_file (w : fileWriter) (r : option error) : option Fault := Classify "sync" (w_path w) r.
Definition close_file (w : fileWriter) (r : option error) : option Fault := Classify "close" (w_path w) r.

(** The results of the calls [finish] may make. *)
Record finish_io : Type := mkFinishIO { io_sync1 : option error; io_stat : option error; io_truncate : option error;
  io_sync2 : option error }.

Definition shrinkTo (d : disk) (path : string) (fin : Z) (io : finish_io) : disk * option Fault :=
  if decide (fin > 0) then
    match io_stat io with
    | Some e => (d, Classify "stat" path (Some e))
    | None =>
        if decide (c_size (file_at d path) > fin) then
          match io_truncate io with
          | Some e => (d, Classify "truncate" path (Some e))
          | None => (<[path := truncate_content (file_at d path) fin]> d, None)
          end
        else (d, None)
    end
  else (d, None).

Definition ShrinkAndSync (d : disk) (path : string) (fin : Z) (io : finish_io) : disk * option Fault :=
  match io_sync1 io with
  | Some e => (d, Classify "sync" path (Some e))
  | None =>
      match shrinkTo d path fin io with
      | (d, Some f) => (d, Some f)
      | (d, None) => (d, Classify "sync" path (io_sync2 io))
      end
  end.

(** [finish]: what it adds to the error's message is left out. *)
Definition finish (w : fileWriter) (d : disk) (io : finish_io) : disk * option Fault :=
  ShrinkAndSync d (w_path w) (maxEnd (w_owned w)) io.

(** ** Lemmas: the part count *)
Definition parts_ok (w : fileWriter) : Prop := partsWritten w = Z.of_nat (size (seenDone w ∪ seenFailed w)).

Lemma holdsPart_spec w a : holdsPart w a = true <-> a ∈ seenDone w ∪ seenFailed w.
Proof. unfold holdsPart. rewrite orb_true_iff, !bool_decide_eq_true. set_solver. Qed.

Lemma size_add (s : gset Z) a : a ∉ s -> size ({[a]} ∪ s) = S (size s).
Proof. intros H. rewrite size_union, size_singleton by set_solver. done. Qed.

Lemma size_remove (s : gset Z) a : a ∈ s -> S (size (s ∖ {[a]})) = size s.
Proof. intros H. rewrite <- (size_add (s ∖ {[a]}) a) by set_solver. f_equal. apply set_eq. intros x. 
  destruct (decide (x = a)); set_solver. Qed.

Lemma admit_parts w a w' b : parts_ok w -> admit_article w a = (w', b) -> parts_ok w'.
Proof.
  unfold parts_ok, admit_article. intros Hp H. case_decide as Hd; simplify_eq/=; [done|].
  destruct (holdsPart w a) eqn:E.
  - apply holdsPart_spec in E. rewrite Hp. do 2 f_equal. set_solver.
  - assert (a ∉ seenDone w ∪ seenFailed w) as Hn by (rewrite <- holdsPart_spec; congruence).
    rewrite <- union_assoc_L, size_add by done. lia.
Qed.

Lemma resolve_parts w a d w' : parts_ok w -> resolve w a d = Some w' -> parts_ok w'.
Proof.
  unfold parts_ok, resolve. intros Hp H. case_decide as Hd; [done|].
  destruct d; simplify_eq/=; [done|..].
  - rewrite Hp. do 2 f_equal. apply set_eq. intros x. destruct (decide (x = a)) as [->|]; [|set_solver].
    assert (a ∈ seenDone w); [|set_solver]. destruct (decide (a ∈ seenDone w)); [done|].
    destruct Hd. split; [done|]. by apply bool_decide_eq_false.
  - destruct (decide (a ∈ seenDone w ∪ seenFailed w)) as [Hin|Hn].
    + replace (_ && _) with false
        by (symmetry; destruct (decide (a ∈ seenDone w)); [rewrite bool_decide_eq_true_2 by done; done|];
            rewrite (bool_decide_eq_true_2 (a ∈ seenFailed w)) by set_solver; apply andb_false_r).
      rewrite Hp. do 2 f_equal. set_solver.
    + rewrite !bool_decide_eq_false_2 by set_solver. simpl. rewrite Hp.
      replace (seenDone w ∪ ({[a]} ∪ seenFailed w)) with ({[a]} ∪ (seenDone w ∪ seenFailed w)) by set_solver.
      rewrite size_add by done. lia.
  - assert (a ∈ seenDone w) as Ha.
    { destruct (decide (a ∈ seenDone w)); [done|]. destruct Hd. split; [done|]. by apply bool_decide_eq_false. }
    clear Hd. destruct (decide (a ∈ seenFailed w)); [rewrite bool_decide_eq_true_2 by done|rewrite bool_decide_eq_false_2 by done].
    + rewrite Hp. do 2 f_equal. apply set_eq. intros x. destruct (decide (x = a)) as [->|]; set_solver.
    + replace (seenDone w ∖ {[a]} ∪ seenFailed w) with ((seenDone w ∪ seenFailed w) ∖ {[a]}) by set_solver.
      pose proof (size_remove (seenDone w ∪ seenFailed w) a ltac:(set_solver)). lia.
Qed.

(** ** Lemmas: the disk *)
Lemma put_bytes_spec m off data b :
  put_bytes m off data !! b =
  if decide (off <= b < off + Z.of_nat (length data)) then data !! Z.to_nat (b - off) else m !! b.
Proof.
  revert m off. induction data as [|x data IH]; intros m off; cbn [put_bytes length].
  - rewrite decide_False by lia. done.
  - rewrite IH. repeat case_decide; try lia.
    + replace (Z.to_nat (b - off)) with (S (Z.to_nat (b - (off + 1)))) by lia. done.
    + assert (b = off) as -> by lia. rewrite lookup_insert_eq. by replace (Z.to_nat (off - off)) with 0%nat by lia.
    + by rewrite lookup_insert_ne by lia.
Qed.

Lemma byte_at_insert d p c q b :
  byte_at (<[p := c]> d) q b = if decide (p = q) then default 0 (c_bytes c !! b) else byte_at d q b.
Proof.
  unfold byte_at, file_at. case_decide as H; [subst; by rewrite lookup_insert_eq|by rewrite lookup_insert_ne].
Qed.

(** A write touches only its own range of its own file. *)
Lemma WriteAt_other d p off data r d' e q b : WriteAt d p off data r = (d', e) ->
  p <> q \/ ~ (off <= b < off + Z.of_nat (length data)) -> byte_at d' q b = byte_at d q b.
Proof.
  intros H Ho. assert (exists n, d' = <[p := write_content (file_at d p) off (take n data)]> d) as [n ->].
  { destruct r as [[n e']|]; simpl in H; simplify_eq; [by exists n|]. exists (length data). by rewrite firstn_all. }
  rewrite byte_at_insert. case_decide as E; [subst|done]. cbn. rewrite put_bytes_spec, decide_False; [done|].
  rewrite length_take. destruct Ho; [done|lia].
Qed.

(** A write that succeeds lands its bytes. *)
Lemma WriteAt_lands d p off data d' : WriteAt d p off data None = (d', None) ->
  forall i x, data !! i = Some x -> byte_at d' p (off + Z.of_nat i) = x.
Proof.
  intros H i x Hi. simpl in H. simplify_eq. rewrite byte_at_insert, decide_True by done. cbn.
  apply lookup_lt_Some in Hi as Hl. rewrite put_bytes_spec, decide_True by lia.
  replace (Z.to_nat (off + Z.of_nat i - off)) with i by lia. by rewrite Hi.
Qed.

(** A file is only ever cut above [fin]. *)
Lemma ShrinkAndSync_bytes d p fin io d' f q b : ShrinkAndSync d p fin io = (d', f) ->
  p <> q \/ b < fin -> byte_at d' q b = byte_at d q b.
Proof.
  unfold ShrinkAndSync, shrinkTo. intros H Hb.
  assert (d' = d \/ d' = <[p := truncate_content (file_at d p) fin]> d) as Hd.
  { repeat (case_match; simplify_eq/=; auto). }
  clear H. destruct Hd as [->| ->]; [done|].
  rewrite byte_at_insert. case_decide as E; [subst|done]. cbn. unfold byte_at. f_equal.
  destruct Hb as [?|Hb]; [done|]. destruct (c_bytes (file_at d q) !! b) eqn:E.
  - by apply map_lookup_filter_Some.
  - apply map_lookup_filter_None. by left.
Qed.
