(* ===== verification/Assembler.v ===== *)
(** * The assembler worker ([internal/assembler/assembler.go, control.go])

    One request at a time: the worker's state is its open files, the
    tombstones of the finished ones and the disk; a request is answered by the
    new state and the callbacks made, in order.  What the resolver and the
    system calls answer is an input; [None] is a panic.  Map iteration order
    only orders the callbacks of a control message. *)
From S2P Require Import Prelude Ranges FileWriter.
From stdpp Require Import base numbers gmap list strings.
From Stdlib Require Import ZArith Lia.
Local Open Scope Z_scope.

(** An owner is a job instance: an attempt and its retry share the ID. *)
Record Owner : Type := mkOwner { own_ID : string; own_inst : nat }.
#[export] Instance Owner_eq_dec : EqDecision Owner.
Proof. solve_decision. Defined.

Inductive FileDisposition : Type := KeepFiles | DeleteFiles.
#[export] Instance FileDisposition_eq_dec : EqDecision FileDisposition.
Proof. solve_decision. Defined.

Record WriteRequest : Type := mkRequest {
  r_Owner : option Owner;
  r_JobID : string;
  r_FileIdx : Z;
  r_ArtIdx : Z;
  r_MessageID : string;
  r_Offset : Z;
  r_Data : option (list Z);
  r_CRC32 : Z;
  r_Release : bool;
  r_FatalErr : bool;
  r_ackCh : bool;
  r_disposition : FileDisposition;
}.

Record FileInfo : Type := mkFileInfo {
  fi_Dir : string;
  fi_Name : string;
  TotalParts : Z;
  ExpectedSize : Z;
  fi_Owned : list Range;
}.

Definition Path (fi : FileInfo) : string := String.append (fi_Dir fi) (String.append "/" (fi_Name fi)).

Definition WholeArticle : Z := -1.

Definition fileIdxCancelJob : Z := -1.
Definition fileIdxCloseHandles : Z := -2.
Definition fileIdxForgetJob : Z := -4.
Definition fileIdxQuiesce : Z := -5.

Notation fileKey := (string * Z)%type (only parsing).

Record openFile : Type := mkOpen { of_w : fileWriter; of_info : FileInfo; of_owner : option Owner }.

Record world : Type := mkWorld {
  w_open : gmap (string * Z) openFile;
  w_completed : gset (string * Z);
  w_disk : gmap string content;
}.

(** What [Options.FileInfo] answers. *)
Inductive resolved : Type :=
| Resolved (fi : FileInfo)
| JobClosed
| ResolveErr (e : error).

(** The answers the environment gives while one request is processed. *)
Record env : Type := mkEnv {
  io_vet : resolved;
  io_resolve : resolved;
  io_mkdir : option error;
  io_open : option error;
  io_alloc : bool;
  io_write : option (nat * error);
  io_finish : finish_io;
  io_sync : string * Z -> option error;
  io_close : string * Z -> option error;
  io_unlink : string * Z -> bool;
}.

(** Callbacks, and what is given back. *)
Inductive event : Type :=
| OnArticleWritten (o : option Owner) (fileIdx artIdx off n crc : Z)
| OnArticleRejected (o : option Owner) (fileIdx artIdx : Z) (reason : string) (uncovered : Z)
| OnArticlesUnwritten (o : option Owner) (fileIdx : Z) (artIdxs : list Z)
| OnWriteFault (o : option Owner) (fileIdx : Z) (f : Fault)
| OnFileComplete (o : option Owner) (fileIdx : Z)
| OnFileUntrusted (o : option Owner) (fileIdx : Z)
| PutBufferEv      (* the request's data goes back to the decoder pool *)
| ReleaseEv        (* the request's [Release] is called *)
| Ack (err : list Fault).

Definition releaseBuffer (req : WriteRequest) : list event :=
  if decide (r_Data req = None) then [] else [PutBufferEv].

Definition put_event (put : bool) : list event := if put then [PutBufferEv] else [].

Definition data_len (req : WriteRequest) : Z := Z.of_nat (length (default [] (r_Data req))).

(** ** Opening *)
Definition valid_range (r : Range) : bool :=
  negb (bool_decide (Off r < 0) || bool_decide (Len r < 0) || bool_decide (Off r > MaxInt64 - Len r)).

Definition seedOwned (w : fileWriter) (rs : list Range) : fileWriter :=
  if decide (rs = []) then w
  else
    match seed (w_owned w) (base.filter (fun r => valid_range r = true) rs) with
    | Some o => mkWriter (w_path w) (seenDone w) (seenFailed w) o (partsWritten w)
    | None => w
    end.

Inductive opened : Type :=
| Opened (f : openFile) (d : gmap string content)
| OpenClosed
| OpenFault (e : option Fault).

Definition openTargetFile (io : env) (req : WriteRequest) (d : gmap string content) : opened :=
  match io_resolve io with
  | JobClosed => OpenClosed
  | ResolveErr e => OpenFault (Classify "resolve" "" (Some e))
  | Resolved info =>
      let path := Path info in
      match io_mkdir io with
      | Some e => OpenFault (Classify "mkdir" path (Some e))
      | None =>
          match io_open io with
          | Some e => OpenFault (Classify "open" path (Some e))
          | None =>
              let c := file_at d path in
              let c := if decide (ExpectedSize info > 0 /\ io_alloc io = true)
                       then mkContent (c_bytes c) (Z.max (c_size c) (ExpectedSize info)) else c in
              Opened (mkOpen (seedOwned (newFileWriter path) (fi_Owned info)) info (r_Owner req)) (<[path := c]> d)
          end
      end
  end.

(** ** One article *)
Definition offsetSlackDivisor : Z := 8.

Definition offsetOutOfRange (f : openFile) (req : WriteRequest) : option string :=
  if decide (r_Offset req < 0) then Some "negative offset"%string
  else
    let last := wraps 64 (r_Offset req + data_len req) in
    if decide (last < r_Offset req) then Some "offset+length overflows int64"%string
    else
      let size := ExpectedSize (of_info f) in
      if decide (size <= 0) then None
      else if decide (size > MaxInt64 - size `quot` offsetSlackDivisor) then None
      else if decide (last > size + size `quot` offsetSlackDivisor)
      then Some "write extends past declared file size"%string
      else None.

Record outcome : Type := mkOutcome {
  o_disposition : disposition;
  o_n : Z;
  o_reason : string;
  o_uncovered : Z;
  o_fault : option Fault;
}.

Definition rejected (reason : string) (uncovered : Z) : outcome :=
  mkOutcome dispositionRejected 0 reason uncovered None.

Definition acceptArticle (io : env) (f : openFile) (req : WriteRequest) (d : gmap string content) :
    option (outcome * fileWriter * gmap string content * list event) :=
  match offsetOutOfRange f req with
  | Some reason => Some (rejected reason WholeArticle, of_w f, d, releaseBuffer req)
  | None =>
      let rng := mkRange (r_Offset req) (data_len req) in
      match ownerOf (w_owned (of_w f)) rng with
      | Some _ =>
          let uncovered := wraps 64 (Len rng - covered (w_owned (of_w f)) rng) in
          Some (rejected "claims a byte range already written by another article" uncovered, of_w f, d, releaseBuffer req)
      | None =>
          '(w, d, fault, put) ← writeOne (of_w f) d (r_ArtIdx req) (r_Offset req) (r_Data req) (io_write io);
          let o := match fault with
                   | Some _ => mkOutcome dispositionRolledBack 0 "" 0 fault
                   | None => mkOutcome dispositionWritten (data_len req) "" 0 None
                   end in
          Some (o, w, d, put_event put)
      end
  end.

Definition noteWriteFault (req : WriteRequest) (err : option Fault) : list event :=
  match err with
  | Some f => [OnWriteFault (r_Owner req) (r_FileIdx req) f]
  | None => []
  end.

Definition noteArticlesUnwritten (req : WriteRequest) (arts : list Z) : list event :=
  if decide (arts = []) then [] else [OnArticlesUnwritten (r_Owner req) (r_FileIdx req) arts].

Definition routeOutcome (req : WriteRequest) (o : outcome) : option (list event) :=
  match o_disposition o with
  | dispositionWritten =>
      Some [OnArticleWritten (r_Owner req) (r_FileIdx req) (r_ArtIdx req) (r_Offset req) (o_n o) (r_CRC32 req)]
  | dispositionRejected =>
      Some [OnArticleRejected (r_Owner req) (r_FileIdx req) (r_ArtIdx req) (o_reason o) (o_uncovered o)]
  | dispositionRolledBack => Some (noteArticlesUnwritten req [r_ArtIdx req] ++ noteWriteFault req (o_fault o))
  | _ => None
  end.

Definition handleSuccessArticle (io : env) (f : openFile) (req : WriteRequest) (d : gmap string content) :
    option (openFile * gmap string content * list event) :=
  match admit_article (of_w f) (r_ArtIdx req) with
  | (_, false) => Some (f, d, releaseBuffer req)
  | (w, true) =>
      '(o, w, d, evs) ← acceptArticle io (mkOpen w (of_info f) (of_owner f)) req d;
      w ← resolve w (r_ArtIdx req) (o_disposition o);
      evs' ← routeOutcome req o;
      Some (mkOpen w (of_info f) (of_owner f), d, evs ++ evs')
  end.

Definition handleFatalArticle (f : openFile) (req : WriteRequest) : option (openFile * list event) :=
  w ← resolve (of_w f) (r_ArtIdx req) dispositionFetchFailed;
  Some (mkOpen w (of_info f) (of_owner f), releaseBuffer req).

Definition handleLateDuplicate (req : WriteRequest) : list event :=
  releaseBuffer req ++
  [OnArticleRejected (r_Owner req) (r_FileIdx req) (r_ArtIdx req) "redelivered after its file was completed" WholeArticle].

(** ** Closing files *)
Definition closeCancelledFile (io : env) (key : string * Z) (f : openFile) (disp : FileDisposition)
    (d : gmap string content) : gmap string content :=
  if decide (disp = DeleteFiles /\ io_unlink io key = true) then base.delete (Path (of_info f)) d else d.

(** The first fault, or the first permanent one if there is any. *)
Definition syncAndClose (io : env) (key : string * Z) (f : openFile) : option Fault :=
  let faults := omap id [sync_file (of_w f) (io_sync io key); close_file (of_w f) (io_close io key)] in
  match head (base.filter (fun x => f_permanent x = true) faults) with
  | Some p => Some p
  | None => head faults
  end.

Definition finalizeFile (io : env) (f : openFile) (key : string * Z) (req : WriteRequest) (w : world) :
    world * list event :=
  let '(d, err) := finish (of_w f) (w_disk w) (io_finish io) in
  let err := match err with None => close_file (of_w f) (io_close io key) | Some e => Some e end in
  let open := base.delete key (w_open w) in
  match err with
  | Some fault =>
      (mkWorld open (w_completed w) d,
       [OnFileUntrusted (r_Owner req) (r_FileIdx req); OnWriteFault (r_Owner req) (r_FileIdx req) fault])
  | None => (mkWorld open ({[key]} ∪ w_completed w) d, [OnFileComplete (r_Owner req) (r_FileIdx req)])
  end.

(** ** One request *)
Definition request_key (req : WriteRequest) : string * Z := (r_JobID req, r_FileIdx req).

(** [processRequest] once the file is open. *)
Definition process_open (io : env) (req : WriteRequest) (f : openFile) (w : world) : option (world * list event) :=
  let key := request_key req in
  let before := partsWritten (of_w f) in
  '(f, d, evs) ← (if r_FatalErr req then '(f, evs) ← handleFatalArticle f req; Some (f, w_disk w, evs)
                  else handleSuccessArticle io f req (w_disk w));
  let w := mkWorld (<[key := f]> (w_open w)) (w_completed w) d in
  let parts := partsWritten (of_w f) in
  if decide (parts = before) then Some (w, evs)
  else if decide (TotalParts (of_info f) > 0 /\ parts >= TotalParts (of_info f)) then
    let '(w, evs') := finalizeFile io f key req w in Some (w, evs ++ evs')
  else Some (w, evs).

Definition open_and_process (io : env) (req : WriteRequest) (w : world) : option (world * list event) :=
  match openTargetFile io req (w_disk w) with
  | OpenClosed => Some (w, releaseBuffer req)
  | OpenFault err =>
      Some (w, noteArticlesUnwritten req [r_ArtIdx req] ++ noteWriteFault req err ++ releaseBuffer req)
  | Opened f d =>
      process_open io req f (mkWorld (<[request_key req := f]> (w_open w)) (w_completed w) d)
  end.

Definition processRequest (io : env) (req : WriteRequest) (w : world) : option (world * list event) :=
  let key := request_key req in
  if decide (key ∈ w_completed w) then Some (w, handleLateDuplicate req)
  else
    match w_open w !! key with
    | None => open_and_process io req w
    | Some f =>
        if decide (of_owner f = r_Owner req) then process_open io req f w
        else
          match io_vet io with
          | JobClosed => Some (w, releaseBuffer req)
          | _ =>
              let d := closeCancelledFile io key f KeepFiles (w_disk w) in
              open_and_process io req (mkWorld (base.delete key (w_open w)) (w_completed w) d)
          end
    end.

Definition dropFileTombstones (completed : gset (string * Z)) (jobID : string) : gset (string * Z) :=
  base.filter (fun k => fst k <> jobID) completed.

(** The open files of a job, and the others. *)
Definition files_of (open : gmap (string * Z) openFile) (jobID : string) : list ((string * Z) * openFile) :=
  base.filter (fun kf => fst (fst kf) = jobID) (map_to_list open).
Definition files_but (open : gmap (string * Z) openFile) (jobID : string) : gmap (string * Z) openFile :=
  base.filter (fun kf => fst (fst kf) <> jobID) open.

(** The faults and the untrusted files of a list of files closed. *)
Definition close_all (io : env) (l : list ((string * Z) * openFile)) : list Fault * list event :=
  let failed := omap (fun kf => e ← syncAndClose io (fst kf) (snd kf); Some (kf, e)) l in
  (snd <$> failed, (fun x => OnFileUntrusted (of_owner (snd (fst x))) (snd (fst (fst x)))) <$> failed).

Definition dispatchRequest (io : env) (req : WriteRequest) (w : world) : option (world * list event * Z) :=
  let jobID := r_MessageID req in
  if decide (r_ackCh req = true /\ r_FileIdx req = fileIdxCancelJob) then
    let d := foldl (fun d kf => closeCancelledFile io (fst kf) (snd kf) (r_disposition req) d) (w_disk w)
               (files_of (w_open w) jobID) in
    Some (mkWorld (files_but (w_open w) jobID) (dropFileTombstones (w_completed w) jobID) d, [Ack []], 0)
  else if decide (r_ackCh req = true /\ r_FileIdx req = fileIdxCloseHandles) then
    let '(faults, evs) := close_all io (files_of (w_open w) jobID) in
    Some (mkWorld (files_but (w_open w) jobID) (dropFileTombstones (w_completed w) jobID) (w_disk w),
          evs ++ [Ack faults], 0)
  else if decide (r_ackCh req = true /\ r_FileIdx req = fileIdxForgetJob) then
    Some (mkWorld (w_open w) (dropFileTombstones (w_completed w) jobID) (w_disk w), [Ack []], 0)
  else if decide (r_ackCh req = true /\ r_FileIdx req = fileIdxQuiesce) then Some (w, [Ack []], 0)
  else
    '(w, evs) ← processRequest io req w;
    Some (w, evs ++ (if r_Release req then [ReleaseEv] else []), 1).

(** The worker's exit. *)
Definition syncAndCloseAll (io : env) (w : world) : list event := snd (close_all io (map_to_list (w_open w))).
