(* ===== verification/AssemblerProps.v ===== *)
(** * The assembler worker: accounting, owned bytes, reports

    The invariant of the worker's state, that no request panics, that bytes
    reported written stay on disk, and that every article is reported and its
    buffer returned exactly once. *)
From S2P Require Import Prelude Ranges FileWriter Assembler.
From stdpp Require Import base numbers gmap sorting list strings pretty.
From Stdlib Require Import ZArith Lia.
Local Open Scope Z_scope.

(** ** Owned ranges *)
Lemma maxEnd_bound s o : wf_ranges s -> o ∈ s -> Off (o_r o) + Len (o_r o) <= maxEnd s.
Proof.
  intros [Hf Hs] Ho. unfold maxEnd. destruct s as [|l s _] using rev_ind; [by apply not_elem_of_nil in Ho|].
  rewrite last_snoc. apply Forall_app in Hf as [Hf [[Hl Hlp] _]%Forall_cons]. rewrite rend_ok by done.
  apply elem_of_app in Ho as [Ho|Ho%list_elem_of_singleton]; [|subst; lia].
  apply StronglySorted_app in Hs as (Hb & _ & _). specialize (Hb o l Ho ltac:(by left)). unfold before in Hb.
  destruct Hl. lia.
Qed.

Lemma claim_ok s r id : wf_ranges s -> range_ok r -> ownerOf s r = None ->
  exists s', claim s r id = Some s' /\ wf_ranges s' /\ s' ≡ₚ (if decide (0 < Len r) then mkOwned r id :: s else s).
Proof.
  intros Hw Hr Hn. destruct (decide (0 < Len r)) as [Hp|Hz].
  - pose proof (claim_full s r id Hw Hr Hp) as Hc. pose proof (ownerOf_full s r Hw Hr) as Ho. rewrite Hn in Ho.
    destruct (claim s r id) as [s'|]; [exists s'; tauto|]. destruct Hc as (o & Hin & Hi).
    rewrite Forall_forall in Ho. rewrite (Ho _ Hin) in Hi. done.
  - exists s. unfold claim. rewrite decide_True by lia. done.
Qed.

(** Disjoint ranges share no byte. *)
Lemma ownerOf_none_disjoint s r o b : wf_ranges s -> range_ok r -> ownerOf s r = None -> o ∈ s ->
  in_range b (o_r o) -> ~ in_range b r.
Proof.
  intros Hw Hr Hn Ho Hb Hb'. pose proof (ownerOf_full s r Hw Hr) as H. rewrite Hn in H. rewrite Forall_forall in H.
  specialize (H _ Ho). destruct Hw as [Hf _]. rewrite Forall_forall in Hf. destruct (Hf _ Ho) as [Hok _].
  assert (intersects (o_r o) r = true) by (apply intersects_spec; eauto). congruence.
Qed.

(** ** One file *)
Definition writer_inv (w : fileWriter) : Prop := parts_ok w /\ wf_ranges (w_owned w).

(** The same handle later: its ranges are kept, and so are their bytes and
    every other file. *)
Record kept (f f' : openFile) (d d' : gmap string content) : Prop := {
  kept_info : of_info f' = of_info f;
  kept_owner : of_owner f' = of_owner f;
  kept_path : w_path (of_w f') = w_path (of_w f);
  kept_ranges : forall o, o ∈ w_owned (of_w f) -> o ∈ w_owned (of_w f');
  kept_bytes : forall o b, o ∈ w_owned (of_w f) -> in_range b (o_r o) ->
    byte_at d' (w_path (of_w f)) b = byte_at d (w_path (of_w f)) b;
  kept_others : forall q b, q <> w_path (of_w f) -> byte_at d' q b = byte_at d q b;
}.

Lemma kept_same f f' d : of_info f' = of_info f -> of_owner f' = of_owner f -> w_path (of_w f') = w_path (of_w f) ->
  w_owned (of_w f') = w_owned (of_w f) -> kept f f' d d.
Proof. intros H1 H2 H3 H4. split; rewrite ?H4; done. Qed.

(** A request's fields are machine integers. *)
Definition req_ok (req : WriteRequest) : Prop := in_i64 (r_Offset req) /\ data_len req <= MaxInt64.

Definition req_range (req : WriteRequest) : Range := mkRange (r_Offset req) (data_len req).

Lemma offset_ok f req : req_ok req -> offsetOutOfRange f req = None -> range_ok (req_range req).
Proof.
  unfold req_ok, offsetOutOfRange, range_ok, in_i64, MinInt64. intros [Ho Hd] H. cbn [Off Len req_range].
  assert (0 <= data_len req) by (unfold data_len; lia).
  case_decide; [done|]. case_decide as Hw; [done|]. split; [lia|]. split; [lia|].
  destruct (decide (r_Offset req + data_len req <= MaxInt64)); [done|]. exfalso. apply Hw. unfold wraps, MaxInt64 in *.
  change (2 ^ 63) with 9223372036854775808 in *. change (2 ^ 64) with 18446744073709551616.
  change (2 ^ (64 - 1)) with 9223372036854775808. rewrite Z.mod_small by lia. rewrite decide_False by lia. lia.
Qed.

(** The bytes of a request are on disk. *)
Definition landed (req : WriteRequest) (path : string) (d : gmap string content) : Prop :=
  forall i x, default [] (r_Data req) !! i = Some x -> byte_at d path (r_Offset req + Z.of_nat i) = x.

Lemma put_event_release req : put_event (bool_decide (r_Data req <> None)) = releaseBuffer req.
Proof. unfold put_event, releaseBuffer. by destruct (r_Data req). Qed.

(** What [acceptArticle] decides. *)
Lemma accept_spec io f req d : req_ok req -> wf_ranges (w_owned (of_w f)) ->
  exists o w' d', acceptArticle io f req d = Some (o, w', d', releaseBuffer req) /\
  kept f (mkOpen w' (of_info f) (of_owner f)) d d' /\ wf_ranges (w_owned w') /\
  seenDone w' = seenDone (of_w f) /\ seenFailed w' = seenFailed (of_w f) /\ partsWritten w' = partsWritten (of_w f) /\
  match o_disposition o with
  | dispositionWritten => o_n o = data_len req /\ landed req (w_path w') d' /\
      (0 < data_len req -> mkOwned (req_range req) (r_ArtIdx req) ∈ w_owned w')
  | dispositionRejected => True
  | dispositionRolledBack => is_Some (o_fault o)
  | _ => False
  end.
Proof.
  intros Hr Hw. unfold acceptArticle. destruct (offsetOutOfRange f req) as [reason|] eqn:Eo.
  { eexists _, _, _. split; [done|]. split; [by apply kept_same|]. done. }
  apply offset_ok in Eo as Hok; [|done]. fold (req_range req).
  destruct (ownerOf _ _) as [id|] eqn:Eown.
  { eexists _, _, _. split; [done|]. split; [by apply kept_same|]. done. }
  unfold writeOne.
  destruct (WriteAt d (w_path (of_w f)) (r_Offset req) (default [] (r_Data req)) (io_write io)) as [d' [e|]] eqn:Ewr.
  all: assert (forall o b, o ∈ w_owned (of_w f) -> in_range b (o_r o) ->
      byte_at d' (w_path (of_w f)) b = byte_at d (w_path (of_w f)) b) as Hbytes
    by (intros o b Ho Hb; eapply WriteAt_other; [exact Ewr|]; right;
        pose proof (ownerOf_none_disjoint _ _ _ _ Hw Hok Eown Ho Hb) as Hd;
        unfold in_range, req_range, data_len in Hd; cbn [Off Len] in Hd; lia).
  all: assert (forall q b, q <> w_path (of_w f) -> byte_at d' q b = byte_at d q b) as Hoth
    by (intros q b Hq; eapply WriteAt_other; [exact Ewr|]; left; congruence).
  - cbn [mbind option_bind]. rewrite put_event_release. eexists _, _, _. split; [done|]. split; [split; done|]. cbn. by split_and!.
  - destruct (claim_ok _ (req_range req) (r_ArtIdx req) Hw Hok Eown) as (s' & Ec & Hs' & Hp).
    unfold req_range, data_len in Ec. rewrite Ec. cbn [mbind option_bind]. rewrite put_event_release.
    assert (forall o, o ∈ w_owned (of_w f) -> o ∈ s') as Hinc
      by (intros o Ho; rewrite Hp; case_decide; [by right|done]).
    assert (io_write io = None) as Ew.
    { destruct (io_write io) as [[n e]|]; [|done]. simpl in Ewr. done. }
    eexists _, _, _. split; [done|]. split; [split; done|]. cbn. split_and!; try done.
    + rewrite Ew in Ewr. exact (WriteAt_lands _ _ _ _ _ Ewr).
    + intros Hpos. rewrite Hp, decide_True by done. by left.
Qed.

Lemma kept_trans_w f w1 w2 d d' :
  kept f (mkOpen w1 (of_info f) (of_owner f)) d d' -> w_path w2 = w_path w1 -> w_owned w2 = w_owned w1 ->
  kept f (mkOpen w2 (of_info f) (of_owner f)) d d'.
Proof. intros [H1 H2 H3 H4 H5 H6] Hp Ho. split; cbn in *; rewrite ?Hp, ?Ho; done. Qed.

(** What a request did to its open file, and what it reported: nothing for a
    duplicate or a failed fetch, and otherwise one report. *)
Definition is_report (e : event) : bool :=
  match e with
  | OnArticleWritten _ _ _ _ _ _ | OnArticleRejected _ _ _ _ _ | OnArticlesUnwritten _ _ _ => true
  | _ => false
  end.
Definition is_put (e : event) : bool := match e with PutBufferEv => true | _ => false end.
Definition count_ev (p : event -> bool) (evs : list event) : nat := length (base.filter (fun e => p e = true) evs).

Lemma count_app p l1 l2 : count_ev p (l1 ++ l2) = (count_ev p l1 + count_ev p l2)%nat.
Proof. unfold count_ev. by rewrite filter_app, length_app. Qed.

Lemma count_cons p e l : count_ev p (e :: l) = ((if p e then 1 else 0) + count_ev p l)%nat.
Proof. unfold count_ev. rewrite filter_cons. destruct (p e); case_decide; done. Qed.

Lemma count_nil p : count_ev p [] = 0%nat.
Proof. done. Qed.

Definition puts_of (req : WriteRequest) : nat := if decide (r_Data req = None) then 0%nat else 1%nat.

Lemma release_counts req : count_ev is_put (releaseBuffer req) = puts_of req /\ count_ev is_report (releaseBuffer req) = 0%nat.
Proof. unfold releaseBuffer, puts_of. by case_decide. Qed.

Lemma fault_counts req f : count_ev is_put (noteWriteFault req f) = 0%nat /\ count_ev is_report (noteWriteFault req f) = 0%nat.
Proof. by destruct f. Qed.

(** No completion or written event among those of a fault. *)
Definition written_ok (req : WriteRequest) (path : string) (w : fileWriter) (d : gmap string content) (evs : list event) : Prop :=
  forall o i a off n crc, OnArticleWritten o i a off n crc ∈ evs ->
    o = r_Owner req /\ i = r_FileIdx req /\ a = r_ArtIdx req /\ off = r_Offset req /\ n = data_len req /\
    crc = r_CRC32 req /\ landed req path d /\
    (0 < n -> mkOwned (req_range req) a ∈ w_owned w).

Record handled (f f' : openFile) (d d' : gmap string content) (req : WriteRequest) (evs : list event) : Prop := {
  hd_inv : writer_inv (of_w f');
  hd_kept : kept f f' d d';
  hd_parts : partsWritten (of_w f) <= partsWritten (of_w f') <= partsWritten (of_w f) + 1;
  hd_puts : count_ev is_put evs = puts_of req;
  hd_reports : (count_ev is_report evs <= 1)%nat;
  hd_silent : count_ev is_report evs = 0%nat -> r_FatalErr req = true \/ r_ArtIdx req ∈ seenDone (of_w f);
  hd_written : written_ok req (w_path (of_w f')) (of_w f') d' evs;
  hd_local : forall o i, OnFileComplete o i ∉ evs;
}.

Lemma resolve_fields w a d w' : resolve w a d = Some w' -> w_path w' = w_path w /\ w_owned w' = w_owned w.
Proof. unfold resolve. intros H. case_decide; [done|]. destruct d; by simplify_eq. Qed.

Lemma admit_fields w a w' b : admit_article w a = (w', b) ->
  w_path w' = w_path w /\ w_owned w' = w_owned w /\
  (if b then a ∉ seenDone w /\ a ∈ seenDone w' else a ∈ seenDone w /\ w' = w) /\
  partsWritten w <= partsWritten w' <= partsWritten w + 1 /\
  (partsWritten w' = partsWritten w + 1 <-> b = true /\ a ∉ seenFailed w) /\ seenFailed w' = seenFailed w.
Proof.
  unfold admit_article. intros H. case_decide as Hd; simplify_eq/=.
  - split_and!; try done; lia.
  - unfold holdsPart. rewrite bool_decide_eq_false_2 by done. cbn [orb].
    split_and!; try done; try set_solver; (case_bool_decide; [|tauto || lia]); try lia.
    split; [lia|]. by intros [_ ?].
Qed.

(** Resolving what was just admitted cannot panic. *)
Lemma resolve_admitted w a d : a ∈ seenDone w -> d <> dispositionNone ->
  exists w', resolve w a d = Some w' /\ partsWritten w - 1 <= partsWritten w' <= partsWritten w /\
  (partsWritten w' = partsWritten w - 1 -> a ∉ seenFailed w).
Proof.
  intros Ha Hd. unfold resolve. rewrite (bool_decide_eq_true_2 _ Ha). rewrite decide_False by (by intros [_ ?]).
  destruct d; try done; (eexists; split; [done|]); cbn; try (split; [lia|lia]).
  case_bool_decide; split; try lia; done.
Qed.

Lemma handleSuccess_spec io f req d : req_ok req -> writer_inv (of_w f) -> r_FatalErr req = false ->
  exists f' d' evs, handleSuccessArticle io f req d = Some (f', d', evs) /\ handled f f' d d' req evs.
Proof.
  intros Hr [Hp Hw] Hfat. unfold handleSuccessArticle.
  destruct (admit_article (of_w f) (r_ArtIdx req)) as [w1 [|]] eqn:Ea;
    apply admit_fields in Ea as Hf; destruct Hf as (E1 & E2 & E3 & E4 & E5 & E6).
  - destruct E3 as [Hnot Hin]. destruct (accept_spec io (mkOpen w1 (of_info f) (of_owner f)) req d Hr)
      as (o & w2 & d' & Ea2 & Hk & Hw2 & S1 & S2 & S3 & Ho); [by cbn; rewrite E2|].
    rewrite Ea2. cbn [of_w of_info of_owner] in *. cbn [mbind option_bind].
    assert (parts_ok w2) as Hp2.
    { apply admit_parts in Ea; [|done]. unfold parts_ok in *. congruence. }
    destruct (resolve_admitted w2 (r_ArtIdx req) (o_disposition o)) as (w3 & Er & Hpr & Hdec);
      [by rewrite S1|by intros E; rewrite E in Ho|].
    rewrite Er. cbn [mbind option_bind]. apply resolve_fields in Er as Hf. destruct Hf as [F1 F2].
    assert (exists evs', routeOutcome req o = Some evs' /\ count_ev is_put evs' = 0%nat /\ count_ev is_report evs' = 1%nat /\
      written_ok req (w_path w3) w3 d' evs' /\ (forall o i, OnFileComplete o i ∉ evs'))
      as (evs' & -> & C1 & C2 & C3 & C4).
    { unfold routeOutcome. destruct (o_disposition o); try done.
      - destruct Ho as (Hn & Hl & Hown). eexists. split_and!; try done.
        + intros ? ? ? ? ? ? E%list_elem_of_singleton. simplify_eq. rewrite Hn, F1, F2. split_and!; try done.
        + intros o1 i1 E%list_elem_of_singleton. done.
      - eexists. split_and!; try done.
        + intros ? ? ? ? ? ? E%list_elem_of_singleton. done.
        + intros o1 i1 E%list_elem_of_singleton. done.
      - destruct Ho as [flt ->]. eexists. split_and!; try done.
        + intros ? ? ? ? ? ? E. cbn in E. set_solver.
        + intros o1 i1 E. cbn in E. set_solver. }
    eexists _, _, _. split; [reflexivity|]. destruct (release_counts req) as [R1 R2].
    assert (kept f (mkOpen w3 (of_info f) (of_owner f)) d d') as Hk3.
    { eapply kept_trans_w; [|exact F1|exact F2]. destruct Hk as [K1 K2 K3 K4 K5 K6]. cbn in *.
      split; cbn; rewrite ?E1, ?E2 in *; try done. }
    split; cbn [of_w of_info of_owner].
    + split; [eapply resolve_parts; [exact Hp2|exact Er]|by rewrite F2].
    + done.
    + destruct (decide (partsWritten w3 = partsWritten w2 - 1)) as [Hd|]; [|lia].
      apply Hdec in Hd as Hn. rewrite S2, E6 in Hn. destruct E5 as [_ E5]. specialize (E5 (conj eq_refl Hn)). lia.
    + rewrite count_app. lia.
    + rewrite count_app. lia.
    + rewrite count_app. lia.
    + intros ? ? ? ? ? ? [E|E]%elem_of_app; [|by eapply C3]. unfold releaseBuffer in E. case_decide; set_solver.
    + intros o1 i1 [E|E]%elem_of_app; [|by eapply C4]. unfold releaseBuffer in E. case_decide; set_solver.
  - destruct E3 as [Hin ->]. destruct (release_counts req) as [R1 R2].
    eexists _, _, _. split; [reflexivity|]. split.
    + by split.
    + by apply kept_same.
    + lia.
    + done.
    + rewrite R2. lia.
    + intros _. by right.
    + intros ? ? ? ? ? ? E. unfold releaseBuffer in E. case_decide; set_solver.
    + intros o1 i1 E. unfold releaseBuffer in E. case_decide; set_solver.
Qed.

Lemma handleFatal_spec f req : writer_inv (of_w f) -> r_FatalErr req = true ->
  exists f' evs, handleFatalArticle f req = Some (f', evs) /\ forall d, handled f f' d d req evs.
Proof.
  intros [Hp Hw] Hf. unfold handleFatalArticle.
  destruct (resolve (of_w f) (r_ArtIdx req) dispositionFetchFailed) as [w'|] eqn:E.
  2:{ unfold resolve in E. rewrite decide_False in E by tauto. done. }
  apply resolve_fields in E as Hfld. destruct Hfld as [F1 F2]. destruct (release_counts req) as [R1 R2].
  cbn [mbind option_bind]. eexists _, _. split; [done|]. intros d. split; cbn [of_w of_info of_owner].
  - split; [by eapply resolve_parts|by rewrite F2].
  - by apply kept_same.
  - unfold resolve in E. rewrite decide_False in E by tauto. simplify_eq. cbn. case_match; lia.
  - done.
  - rewrite R2. lia.
  - by left.
  - intros ? ? ? ? ? ? Ev. unfold releaseBuffer in Ev. case_decide; set_solver.
  - intros o1 i1 Ev. unfold releaseBuffer in Ev. case_decide; set_solver.
Qed.

(** ** The worker's state *)
Section worker.
  (** Each file has a path of its own, the one the resolver answers. *)
  Context (path_of : string * Z -> string) `{!Inj (=) (=) path_of}.

Definition open_ok (key : string * Z) (f : openFile) : Prop :=
  writer_inv (of_w f) /\ (TotalParts (of_info f) > 0 -> partsWritten (of_w f) < TotalParts (of_info f)) /\
  w_path (of_w f) = path_of key /\ Path (of_info f) = path_of key.

Definition world_ok (w : world) : Prop :=
  (forall key f, w_open w !! key = Some f -> open_ok key f) /\
  (forall key, key ∈ w_completed w -> w_open w !! key = None).

Definition names (io : env) (key : string * Z) : Prop := forall fi, io_resolve io = Resolved fi -> Path fi = path_of key.

(** Requests from the empty worker, whatever is on disk. *)
Inductive worker_reachable : world -> Prop :=
| worker_start d : worker_reachable (mkWorld ∅ ∅ d)
| worker_next w io req w' evs n : worker_reachable w -> req_ok req -> names io (request_key req) ->
    dispatchRequest io req w = Some (w', evs, n) -> worker_reachable w'.

(** How a request to an open file ends. *)
Inductive processed (io : env) (req : WriteRequest) (f : openFile) (w : world) : world -> list event -> Prop :=
| processed_open f' d' evs : handled f f' (w_disk w) d' req evs ->
    (TotalParts (of_info f) > 0 -> partsWritten (of_w f') < TotalParts (of_info f)) ->
    processed io req f w (mkWorld (<[request_key req := f']> (w_open w)) (w_completed w) d') evs
| processed_final f' d' evs w' evs' : handled f f' (w_disk w) d' req evs ->
    TotalParts (of_info f) > 0 -> partsWritten (of_w f') = TotalParts (of_info f) ->
    finalizeFile io f' (request_key req) req (mkWorld (<[request_key req := f']> (w_open w)) (w_completed w) d') = (w', evs') ->
    processed io req f w w' (evs ++ evs').

Lemma process_open_spec io req f w : req_ok req -> open_ok (request_key req) f ->
  exists w' evs, process_open io req f w = Some (w', evs) /\ processed io req f w w' evs.
Proof.
  intros Hr (Hi & Ht & _). unfold process_open.
  assert (exists f' d' evs, (if r_FatalErr req then '(f, evs) ← handleFatalArticle f req; Some (f, w_disk w, evs)
    else handleSuccessArticle io f req (w_disk w)) = Some (f', d', evs) /\ handled f f' (w_disk w) d' req evs)
    as (f' & d' & evs & -> & Hh).
  { destruct (r_FatalErr req) eqn:Ef.
    - destruct (handleFatal_spec f req Hi Ef) as (f' & evs & -> & Hh). by eexists _, _, _.
    - by apply handleSuccess_spec. }
  cbn [mbind option_bind w_open w_completed w_disk]. pose proof (kept_info _ _ _ _ (hd_kept _ _ _ _ _ _ Hh)) as Hinfo.
  pose proof (hd_parts _ _ _ _ _ _ Hh) as Hp. rewrite Hinfo. case_decide as E1.
  - eexists _, _. split; [done|]. constructor; [done|]. rewrite E1. done.
  - case_decide as E2.
    + destruct (finalizeFile _ _ _ _ _) as [w2 evs2] eqn:Ef. eexists _, _. split; [done|].
      destruct E2 as [E2 E3]. specialize (Ht E2). eapply processed_final; [done|done|lia|done].
    + eexists _, _. split; [done|]. constructor; [done|]. intros Hpos. lia.
Qed.

(** [finalizeFile] drops the handle and keeps every owned byte. *)
Lemma finalize_spec io f key req w w' evs : wf_ranges (w_owned (of_w f)) -> finalizeFile io f key req w = (w', evs) ->
  w_open w' = base.delete key (w_open w) /\
  (forall q b, q <> w_path (of_w f) \/ b < maxEnd (w_owned (of_w f)) -> byte_at (w_disk w') q b = byte_at (w_disk w) q b) /\
  ((evs = [OnFileComplete (r_Owner req) (r_FileIdx req)] /\ w_completed w' = {[key]} ∪ w_completed w /\
    io_sync1 (io_finish io) = None /\ io_sync2 (io_finish io) = None /\ io_close io key = None /\
    (maxEnd (w_owned (of_w f)) > 0 -> c_size (file_at (w_disk w') (w_path (of_w f))) <= maxEnd (w_owned (of_w f)))) \/
   (exists flt, evs = [OnFileUntrusted (r_Owner req) (r_FileIdx req); OnWriteFault (r_Owner req) (r_FileIdx req) flt] /\
    w_completed w' = w_completed w)).
Proof.
  intros Hw. unfold finalizeFile. destruct (finish (of_w f) (w_disk w) (io_finish io)) as [d err] eqn:Ef.
  assert (forall q b, q <> w_path (of_w f) \/ b < maxEnd (w_owned (of_w f)) -> byte_at d q b = byte_at (w_disk w) q b) as Hb.
  { intros q b Hq. eapply ShrinkAndSync_bytes; [exact Ef|]. destruct Hq; [left; congruence|by right]. }
  destruct err as [flt|].
  - intros [= <- <-]. split_and!; [done|done|]. right. by eexists.
  - unfold close_file, Classify. destruct (io_close io key) as [e|] eqn:Ec; intros [= <- <-].
    + split_and!; [done|done|]. right. by eexists.
    + split_and!; [done|done|]. left. cbn [w_disk w_completed].
      unfold finish, ShrinkAndSync, shrinkTo, Classify in Ef.
      destruct (io_sync1 (io_finish io)); [done|]. split_and!; try done.
      * repeat (case_match; simplify_eq/=; try done).
      * intros Hpos. rewrite decide_True in Ef by done. destruct (io_stat (io_finish io)); [done|].
        case_decide as Hs; [destruct (io_truncate (io_finish io)); [done|]; simplify_eq|simplify_eq; lia].
        unfold file_at at 1. rewrite lookup_insert_eq. simpl. lia.
Qed.

Lemma opened_ok io req d f d' : names io (request_key req) -> openTargetFile io req d = Opened f d' ->
  open_ok (request_key req) f /\ of_owner f = r_Owner req /\ seenDone (of_w f) = ∅ /\
  (forall q b, byte_at d' q b = byte_at d q b).
Proof.
  intros Hn H. unfold openTargetFile in H. destruct (io_resolve io) as [info| |] eqn:Er; try done.
  destruct (io_mkdir io); [done|]. destruct (io_open io); [done|]. simplify_eq. cbn [of_w of_info of_owner].
  assert (wf_ranges (w_owned (seedOwned (newFileWriter (Path info)) (fi_Owned info))) /\
    seenDone (seedOwned (newFileWriter (Path info)) (fi_Owned info)) = ∅ /\
    seenFailed (seedOwned (newFileWriter (Path info)) (fi_Owned info)) = ∅ /\
    partsWritten (seedOwned (newFileWriter (Path info)) (fi_Owned info)) = 0 /\
    w_path (seedOwned (newFileWriter (Path info)) (fi_Owned info)) = Path info) as (H1 & H2 & H3 & H4 & H5).
  { unfold seedOwned. case_decide; [cbn; split_and!; try done; split; constructor|].
    change (w_owned (newFileWriter (Path info))) with (@nil ownedRange).
    destruct (seed_spec (base.filter (fun r => valid_range r = true) (fi_Owned info))) as [(s & -> & Hs & _) _];
      [|by cbn].
    apply Forall_forall. intros r [Hv _]%list_elem_of_filter _. unfold valid_range in Hv.
    apply negb_true_iff, orb_false_iff in Hv as [[Ho Hl]%orb_false_iff He].
    apply bool_decide_eq_false in Ho, Hl, He. unfold range_ok. lia. }
  split_and!; try done.
  - unfold open_ok. cbn [of_w of_info]. rewrite H4, H5. split_and!; [|lia|by apply Hn|by apply Hn].
    split; [unfold parts_ok; by rewrite H2, H3, H4|done].
  - intros q b. rewrite byte_at_insert. case_decide; [subst|done]. by case_decide.
Qed.

(** What a request is answered with when no file is written. *)
Inductive dropped (io : env) (req : WriteRequest) (w : world) : list event -> Prop :=
| drop_late : request_key req ∈ w_completed w -> dropped io req w (handleLateDuplicate req)
| drop_closed : io_vet io = JobClosed \/ io_resolve io = JobClosed -> dropped io req w (releaseBuffer req)
| drop_fault flt : dropped io req w
    (noteArticlesUnwritten req [r_ArtIdx req] ++ noteWriteFault req flt ++ releaseBuffer req).

(** The handle under the key, if any, belongs to another owner. *)
Definition no_own_handle (req : WriteRequest) (w : world) : Prop :=
  forall f, w_open w !! request_key req = Some f -> of_owner f <> r_Owner req.

(** Every request is dropped, perhaps after evicting a predecessor's handle,
    or processed by an open file: the one its owner had open or a fresh one. *)
Inductive result_of (io : env) (req : WriteRequest) (w : world) : world -> list event -> Prop :=
| res_dropped open evs : dropped io req w evs ->
    (open = w_open w \/ open = base.delete (request_key req) (w_open w) /\ no_own_handle req w) ->
    result_of io req w (mkWorld open (w_completed w) (w_disk w)) evs
| res_processed f w0 w' evs : open_ok (request_key req) f -> of_owner f = r_Owner req ->
    request_key req ∉ w_completed w ->
    w_open w0 !! request_key req = Some f -> (forall k, k <> request_key req -> w_open w0 !! k = w_open w !! k) ->
    w_completed w0 = w_completed w -> (forall q b, byte_at (w_disk w0) q b = byte_at (w_disk w) q b) ->
    (w_open w !! request_key req = Some f \/ seenDone (of_w f) = ∅ /\ no_own_handle req w) ->
    processed io req f w0 w' evs -> result_of io req w w' evs.

Lemma open_and_process_spec io req w open : req_ok req -> names io (request_key req) ->
  request_key req ∉ w_completed w -> no_own_handle req w ->
  (open = w_open w \/ open = base.delete (request_key req) (w_open w)) ->
  exists w' evs, open_and_process io req (mkWorld open (w_completed w) (w_disk w)) = Some (w', evs) /\ result_of io req w w' evs.
Proof.
  intros Hr Hn Hc Hown Ho. unfold open_and_process. cbn [w_disk w_open w_completed].
  assert (open = w_open w \/ open = base.delete (request_key req) (w_open w) /\ no_own_handle req w) as Ho' by tauto.
  destruct (openTargetFile io req (w_disk w)) as [f d| |flt] eqn:E.
  - apply opened_ok in E as (Hok & Hfo & Hs & Hb); [|done].
    destruct (process_open_spec io req f (mkWorld (<[request_key req:=f]> open) (w_completed w) d) Hr Hok)
      as (w' & evs & Ep & Hp).
    exists w', evs. split; [exact Ep|].
    apply (res_processed io req w f (mkWorld (<[request_key req:=f]> open) (w_completed w) d)); try done.
    + cbn. by rewrite lookup_insert_eq.
    + intros k Hk. cbn. rewrite lookup_insert_ne by done. destruct Ho as [->| ->]; [done|by rewrite lookup_delete_ne].
    + by right.
  - eexists _, _. split; [done|]. apply res_dropped; [|done]. apply drop_closed. right.
    unfold openTargetFile in E. by repeat (case_match; simplify_eq).
  - eexists _, _. split; [done|]. apply res_dropped; [apply drop_fault|done].
Qed.

Lemma request_spec io req w : world_ok w -> req_ok req -> names io (request_key req) ->
  exists w' evs, processRequest io req w = Some (w', evs) /\ result_of io req w w' evs.
Proof.
  intros [Hopen Hcomp] Hr Hn. unfold processRequest. destruct w as [open compl d]. cbn [w_open w_completed w_disk] in *.
  case_decide as Hc.
  { eexists _, _. split; [done|]. apply res_dropped; [by constructor|by left]. }
  destruct (open !! request_key req) as [f|] eqn:Ef.
  - case_decide as Ho.
    + destruct (process_open_spec io req f (mkWorld open compl d) Hr (Hopen _ _ Ef)) as (w' & evs & E & Hp).
      exists w', evs. split; [done|].
      apply (res_processed io req _ f (mkWorld open compl d)); try done; [by apply Hopen|by left].
    + assert (no_own_handle req (mkWorld open compl d)) as Hno by (intros f0 E; cbn in E; congruence).
      assert (io_vet io = JobClosed \/ io_vet io <> JobClosed) as [Hv|Hv] by (destruct (io_vet io); auto).
      * rewrite Hv. eexists _, _. split; [done|]. apply res_dropped; [apply drop_closed; by left|by left].
      * destruct (open_and_process_spec io req (mkWorld open compl d) (base.delete (request_key req) open))
          as (w' & evs & E & Hres); try done; [by right|].
        exists w', evs. split; [|done]. unfold closeCancelledFile. rewrite decide_False by (by intros [? ?]).
        by destruct (io_vet io).
  - apply (open_and_process_spec io req (mkWorld open compl d) open); try done; [|by left].
    intros f E. cbn in E. congruence.
Qed.

Lemma processed_ok io req f w w' evs : world_ok w -> w_open w !! request_key req = Some f ->
  open_ok (request_key req) f -> processed io req f w w' evs -> world_ok w'.
Proof.
  intros [Hopen Hcomp] Hf (Hi & Ht & Hp1 & Hp2) H. destruct H as [f' d' evs Hh Hlt|f' d' evs w' evs' Hh Hpos Heq Hfin].
  - pose proof (hd_kept _ _ _ _ _ _ Hh) as Hk. split; cbn.
    + intros key g. destruct (decide (key = request_key req)) as [->|Hne].
      * rewrite lookup_insert_eq. intros [= <-]. split; [apply Hh|]. rewrite (kept_info _ _ _ _ Hk), (kept_path _ _ _ _ Hk). done.
      * rewrite lookup_insert_ne by done. apply Hopen.
    + intros key Hc. destruct (decide (key = request_key req)) as [->|Hne]; [rewrite (Hcomp _ Hc) in Hf; done|].
      rewrite lookup_insert_ne by done. by apply Hcomp.
  - apply finalize_spec in Hfin as (Ho & _ & Hcase); [|apply Hh]. cbn [w_open w_completed] in *. split.
    + intros key g. rewrite Ho, delete_insert_eq. intros [_ Hg]%lookup_delete_Some. by apply Hopen.
    + intros key Hc. rewrite Ho, delete_insert_eq. apply lookup_delete_None.
      destruct Hcase as [(_ & Hc' & _)|(flt & _ & Hc')]; rewrite Hc' in Hc; [|right; by apply Hcomp].
      apply elem_of_union in Hc as [->%elem_of_singleton|Hc]; [by left|right; by apply Hcomp].
Qed.

Lemma result_ok io req w w' evs : world_ok w -> result_of io req w w' evs -> world_ok w'.
Proof.
  intros Hw H. destruct H as [open evs _ Ho|f w0 w' evs Hok _ Hnc Hf Hk Hc _ _ Hp].
  - destruct Hw as [Hopen Hcomp]. split; cbn.
    + intros key g Hg. apply Hopen. destruct Ho as [->|[-> _]]; [done|by apply lookup_delete_Some in Hg as [_ ?]].
    + intros key Hkey. destruct Ho as [->|[-> _]]; [by apply Hcomp|]. apply lookup_delete_None. right. by apply Hcomp.
  - eapply processed_ok; [|done|done|done]. destruct Hw as [Hopen Hcomp]. split.
    + intros key g Hg. destruct (decide (key = request_key req)) as [->|Hne]; [congruence|].
      rewrite Hk in Hg by done. by apply Hopen.
    + intros key Hkey. rewrite Hc in Hkey. destruct (decide (key = request_key req)) as [->|Hne]; [done|].
      rewrite Hk by done. by apply Hcomp.
Qed.

Lemma dropTombstones_sub completed jobID key : key ∈ dropFileTombstones completed jobID -> key ∈ completed.
Proof. unfold dropFileTombstones. set_solver. Qed.

Lemma files_but_lookup open jobID key f : files_but open jobID !! key = Some f <-> open !! key = Some f /\ fst key <> jobID.
Proof. unfold files_but. by rewrite map_lookup_filter_Some. Qed.

Lemma files_but_ok w jobID compl d : world_ok w -> (forall key, key ∈ compl -> key ∈ w_completed w) ->
  world_ok (mkWorld (files_but (w_open w) jobID) compl d).
Proof.
  intros [Hopen Hcomp] Hsub. split; cbn.
  - intros key f [Hf _]%files_but_lookup. by apply Hopen.
  - intros key Hk. specialize (Hcomp key (Hsub _ Hk)). apply map_lookup_filter_None. by left.
Qed.

(** A control message, or an article. *)
Lemma dispatch_cases io req w w' evs n : world_ok w -> req_ok req -> names io (request_key req) ->
  dispatchRequest io req w = Some (w', evs, n) ->
  (exists evs0, result_of io req w w' evs0 /\ evs = evs0 ++ (if r_Release req then [ReleaseEv] else []) /\ n = 1) \/
  (r_ackCh req = true /\ n = 0 /\
   (exists compl open, w' = mkWorld open compl (w_disk w') /\ (forall key, key ∈ compl -> key ∈ w_completed w) /\
      (open = w_open w \/ open = files_but (w_open w) (r_MessageID req))) /\
   (forall e, e ∈ evs -> exists l, e = Ack l \/ exists o i, e = OnFileUntrusted o i) /\
   (w_disk w' = w_disk w \/
    w_open w' = files_but (w_open w) (r_MessageID req) /\ w_disk w' =
      foldl (fun d kf => closeCancelledFile io (fst kf) (snd kf) (r_disposition req) d) (w_disk w)
        (files_of (w_open w) (r_MessageID req)))).
Proof.
  intros Hw Hr Hn. unfold dispatchRequest. pose proof (dropTombstones_sub (w_completed w) (r_MessageID req)) as Hsub.
  case_decide as H1; [|case_decide as H2; [|case_decide as H3; [|case_decide as H4]]].
  - intros [= <- <- <-]. right. destruct H1. split_and!; try done; [|set_solver|by right].
    eexists _, _. split; [done|]. split; [done|by right].
  - destruct (close_all io (files_of (w_open w) (r_MessageID req))) as [flts ev] eqn:E. intros [= <- <- <-].
    right. destruct H2. split_and!; try done; [| |by left].
    + eexists _, _. split; [done|]. split; [done|by right].
    + unfold close_all in E. simplify_eq. intros e [He|He]%elem_of_app; [|set_solver].
      apply list_elem_of_fmap in He as (x & -> & _). exists []. right. by eexists _, _.
  - intros [= <- <- <-]. right. destruct H3. split_and!; try done; [|set_solver|by left].
    eexists _, _. split; [done|]. split; [done|by left].
  - intros [= <- <- <-]. right. destruct H4. split_and!; try done; [|set_solver|by left].
    exists (w_completed w), (w_open w). split; [by destruct w|]. split; [done|by left].
  - destruct (request_spec io req w Hw Hr Hn) as (w1 & evs1 & -> & Hres). cbn [mbind option_bind].
    intros [= <- <- <-]. left. by exists evs1.
Qed.

Lemma worker_ok w : worker_reachable w -> world_ok w.
Proof.
  induction 1 as [d|w io req w' evs n _ Hw Hr Hn H]; [by split|].
  destruct (dispatch_cases io req w w' evs n Hw Hr Hn H) as [(evs0 & Hres & _)|(_ & _ & (compl & open & -> & Hsub & Ho) & _)].
  - by eapply result_ok.
  - destruct Ho as [->| ->]; [|by apply files_but_ok]. destruct Hw as [Hopen Hcomp]. split; cbn; auto.
Qed.

Lemma dispatch_total io req w : world_ok w -> req_ok req -> names io (request_key req) ->
  is_Some (dispatchRequest io req w).
Proof.
  intros Hw Hr Hn. unfold dispatchRequest. repeat case_decide; try done.
  destruct (request_spec io req w Hw Hr Hn) as (w1 & evs1 & -> & _). done.
Qed.

(** ** Theorems *)

(** the assembler's accounting.  Whatever requests and storage answers
    the worker has seen, no request can make it panic: no admission is
    resolved twice and no range is claimed twice.  Every open file's part
    count is the number of distinct articles written or failed, and is below
    its total, since reaching the total finishes the file; and its owned
    ranges are sorted and disjoint. *)
Theorem worker_accounting w : worker_reachable w ->
  (forall io req, req_ok req -> names io (request_key req) -> is_Some (dispatchRequest io req w)) /\
  (forall key f, w_open w !! key = Some f ->
    partsWritten (of_w f) = Z.of_nat (size (seenDone (of_w f) ∪ seenFailed (of_w f))) /\
    (TotalParts (of_info f) > 0 -> partsWritten (of_w f) < TotalParts (of_info f)) /\
    wf_ranges (w_owned (of_w f)) /\ key ∉ w_completed w).
Proof.
  intros Hw%worker_ok. split; [intros io req Hr Hn; by apply dispatch_total|]. intros key f Hf.
  destruct (proj1 Hw key f Hf) as ((Hp & Hwf) & Ht & _). split_and!; try done.
  intros Hc. by rewrite (proj2 Hw key Hc) in Hf.
Qed.

(** The worker gives the bytes of a range it owns to no one else. *)
Definition bytes_kept (f : openFile) (d d' : gmap string content) : Prop :=
  forall o b, o ∈ w_owned (of_w f) -> in_range b (o_r o) ->
    byte_at d' (w_path (of_w f)) b = byte_at d (w_path (of_w f)) b.

Lemma processed_bytes io req f w w' evs : writer_inv (of_w f) -> processed io req f w w' evs ->
  bytes_kept f (w_disk w) (w_disk w') /\
  (forall q b, q <> w_path (of_w f) -> byte_at (w_disk w') q b = byte_at (w_disk w) q b) /\
  (forall f', w_open w' !! request_key req = Some f' -> of_owner f' = of_owner f /\
     forall o, o ∈ w_owned (of_w f) -> o ∈ w_owned (of_w f')) /\
  (forall k, k <> request_key req -> w_open w' !! k = w_open w !! k) /\
  (forall o i a off n crc, OnArticleWritten o i a off n crc ∈ evs ->
     o = r_Owner req /\ i = r_FileIdx req /\ a = r_ArtIdx req /\ off = r_Offset req /\ n = data_len req /\
     crc = r_CRC32 req /\ landed req (w_path (of_w f)) (w_disk w')).
Proof.
  intros Hi H. destruct H as [f' d' evs Hh Hlt|f' d' evs w' evs' Hh Hpos Heq Hfin];
    pose proof (hd_kept _ _ _ _ _ _ Hh) as Hk; pose proof (kept_path _ _ _ _ Hk) as Hpath.
  - cbn. split_and!.
    + intros o b. apply Hk.
    + apply Hk.
    + intros g. rewrite lookup_insert_eq. intros [= <-]. split; apply Hk.
    + intros k Hne. by rewrite lookup_insert_ne.
    + intros o i a off n crc Hin. destruct (hd_written _ _ _ _ _ _ Hh _ _ _ _ _ _ Hin) as (? & ? & ? & ? & ? & ? & Hl & _).
      by rewrite <- Hpath.
  - apply finalize_spec in Hfin as (Ho & Hb & Hcase); [|apply Hh]. cbn [w_open w_disk] in *. rewrite Hpath in Hb.
    assert (forall o b, o ∈ w_owned (of_w f') -> in_range b (o_r o) -> b < maxEnd (w_owned (of_w f'))) as Hmax.
    { intros o b Hin Hr. pose proof (maxEnd_bound _ o (proj2 (hd_inv _ _ _ _ _ _ Hh)) Hin). unfold in_range in Hr. lia. }
    split_and!.
    + intros o b Hin Hr. rewrite Hb by (right; eapply Hmax; [by apply Hk|done]). by eapply Hk.
    + intros q b Hq. rewrite Hb by (by left). by apply Hk.
    + intros g Hg. by rewrite Ho, lookup_delete_eq in Hg.
    + intros k Hne. by rewrite Ho, lookup_delete_ne, lookup_insert_ne.
    + intros o i a off n crc [Hin|Hin]%elem_of_app.
      * destruct (hd_written _ _ _ _ _ _ Hh _ _ _ _ _ _ Hin) as (? & ? & ? & ? & Hn & ? & Hl & Hown).
        split_and!; try done. intros j x Hj. rewrite Hpath in Hl. rewrite Hb; [by apply Hl|]. right.
        apply lookup_lt_Some in Hj as Hlt. unfold data_len in Hn. eapply Hmax; [apply Hown; lia|].
        unfold in_range, req_range, data_len. cbn. lia.
      * destruct Hcase as [(-> & _)|(flt & -> & _)]; set_solver.
Qed.

(** Only a finish reports completion, and to the request's owner. *)
Lemma complete_owner io req f w w' evs o i : processed io req f w w' evs -> OnFileComplete o i ∈ evs ->
  o = r_Owner req.
Proof.
  intros H Hin. destruct H as [f' d' evs Hh _|f' d' evs w' evs' Hh _ _ Hfin].
  - by apply (hd_local _ _ _ _ _ _ Hh) in Hin.
  - apply elem_of_app in Hin as [Hin|Hin]; [by apply (hd_local _ _ _ _ _ _ Hh) in Hin|].
    apply finalize_spec in Hfin as (_ & _ & Hcase); [|apply Hh].
    destruct Hcase as [(-> & _)|(flt & -> & _)]; set_solver.
Qed.

Lemma delete_others io disp l d key : Forall (fun kf => open_ok (fst kf) (snd kf) /\ fst kf <> key) l ->
  forall b, byte_at (foldl (fun d kf => closeCancelledFile io (fst kf) (snd kf) disp d) d l) (path_of key) b = byte_at d (path_of key) b.
Proof.
  intros H. revert d. induction H as [|[k g] l [(_ & _ & _ & Hp) Hne] H IH]; intros d b; [done|]. cbn [foldl fst snd] in *.
  rewrite IH. unfold closeCancelledFile. case_decide; [|done]. unfold byte_at, file_at. rewrite Hp.
  rewrite lookup_delete_ne; [done|]. by intros ?%(inj path_of).
Qed.

Lemma files_of_ok w jobID : world_ok w -> Forall (fun kf => open_ok (fst kf) (snd kf) /\ fst (fst kf) = jobID) (files_of (w_open w) jobID).
Proof.
  intros [Hopen _]. apply Forall_forall. intros [k g] [Hj Hin]%list_elem_of_filter. split; [|done].
  apply Hopen. by apply elem_of_map_to_list in Hin.
Qed.


Definition is_release (e : event) : bool := match e with ReleaseEv => true | _ => false end.

Lemma dropped_counts io req w evs : dropped io req w evs ->
  count_ev is_put evs = puts_of req /\ (count_ev is_report evs <= 1)%nat /\
  (count_ev is_report evs = 0%nat -> io_vet io = JobClosed \/ io_resolve io = JobClosed).
Proof.
  destruct (release_counts req) as [R1 R2]. destruct 1 as [Hc|Hc|flt].
  - unfold handleLateDuplicate. rewrite !count_app, R1, R2, !count_cons, !count_nil. cbn [is_put is_report]. split_and!; lia.
  - rewrite R1, R2. split_and!; [done|lia|done].
  - destruct (fault_counts req flt) as [F1 F2]. unfold noteArticlesUnwritten. rewrite decide_False by done.
    rewrite !count_app, R1, R2, F1, F2, !count_cons, !count_nil. cbn [is_put is_report]. split_and!; lia.
Qed.

Lemma processed_counts io req f w w' evs : writer_inv (of_w f) -> processed io req f w w' evs ->
  count_ev is_put evs = puts_of req /\ (count_ev is_report evs <= 1)%nat /\
  (count_ev is_report evs = 0%nat -> r_FatalErr req = true \/ r_ArtIdx req ∈ seenDone (of_w f)).
Proof.
  intros Hi H. destruct H as [f' d' evs Hh _|f' d' evs w' evs' Hh _ _ Hfin].
  - split_and!; apply Hh.
  - apply finalize_spec in Hfin as (_ & _ & Hcase); [|apply Hh].
    assert (count_ev is_put evs' = 0%nat /\ count_ev is_report evs' = 0%nat) as [E1 E2]
      by (destruct Hcase as [(-> & _)|(flt & -> & _)]; done).
    rewrite !count_app, E1, E2. pose proof (hd_puts _ _ _ _ _ _ Hh). pose proof (hd_reports _ _ _ _ _ _ Hh).
    pose proof (hd_silent _ _ _ _ _ _ Hh) as Hs. split_and!; [lia|lia|]. intros Hz. apply Hs. lia.
Qed.

(** C9: every article is settled exactly once.  Its buffer goes back to the
    pool once if it has one, whatever became of it; and it is reported at
    most once: written, rejected, or returned as unwritten.  It goes
    unreported only if its job is closed, it is a failed fetch, or the file
    its owner has open already accepted a copy: so no article is dropped
    between the downloader and the queue. *)
Theorem article_settled_once w io req w' evs :
  worker_reachable w -> req_ok req -> names io (request_key req) ->
  dispatchRequest io req w = Some (w', evs, 1) ->
  count_ev is_put evs = puts_of req /\ (count_ev is_report evs <= 1)%nat /\
  (count_ev is_report evs = 0%nat ->
     r_FatalErr req = true \/ io_vet io = JobClosed \/ io_resolve io = JobClosed \/
     exists f, w_open w !! request_key req = Some f /\ of_owner f = r_Owner req /\ r_ArtIdx req ∈ seenDone (of_w f)).
Proof.
  intros Hw%worker_ok Hr Hn Hd.
  destruct (dispatch_cases _ _ _ _ _ _ Hw Hr Hn Hd) as [(evs0 & Hres & -> & _)|(_ & ? & _)]; [|done].
  assert (forall p, p ReleaseEv = false -> count_ev p (evs0 ++ (if r_Release req then [ReleaseEv] else [])) = count_ev p evs0) as Hrel.
  { intros p Hp. rewrite count_app. destruct (r_Release req); [|rewrite count_nil; lia].
    rewrite count_cons, count_nil, Hp. lia. }
  rewrite !Hrel by done. destruct Hres as [open evs0 Hdrop Ho|f0 w0 w' evs0 Hok Hfo Hnc Hf Hk Hc Hb Hor Hp].
  - destruct (dropped_counts _ _ _ _ Hdrop) as (H1 & H2 & H3). split_and!; try done. intros Hz. apply H3 in Hz. tauto.
  - destruct (processed_counts _ _ _ _ _ _ (proj1 Hok) Hp) as (H1 & H2 & H3). split_and!; try done.
    intros [Hz|Hz]%H3; [by left|]. do 3 right. destruct Hor as [Hw0|[Hs _]]; [by exists f0|]. rewrite Hs in Hz. set_solver.
Qed.

(** a file is reported complete exactly when it is.  The report follows
    the settling of the last of its [TotalParts] distinct articles, all the
    others having been settled before; both syncs and the close succeeded;
    the file is no longer than its last owned byte, its handle is gone and
    its tombstone set.  (That a file whose parts are all settled is never
    left open is part of the accounting.) *)
Theorem completion_exact w io req w' evs n o i :
  worker_reachable w -> req_ok req -> names io (request_key req) ->
  dispatchRequest io req w = Some (w', evs, n) -> OnFileComplete o i ∈ evs ->
  o = r_Owner req /\ i = r_FileIdx req /\
  request_key req ∈ w_completed w' /\ w_open w' !! request_key req = None /\
  io_sync1 (io_finish io) = None /\ io_sync2 (io_finish io) = None /\ io_close io (request_key req) = None /\
  exists f f', (w_open w !! request_key req = Some f \/ seenDone (of_w f) = ∅) /\ of_owner f = r_Owner req /\
    of_info f' = of_info f /\ TotalParts (of_info f) > 0 /\
    Z.of_nat (size (seenDone (of_w f) ∪ seenFailed (of_w f))) = TotalParts (of_info f) - 1 /\
    Z.of_nat (size (seenDone (of_w f') ∪ seenFailed (of_w f'))) = TotalParts (of_info f) /\
    (maxEnd (w_owned (of_w f')) > 0 ->
       c_size (file_at (w_disk w') (path_of (request_key req))) <= maxEnd (w_owned (of_w f'))).
Proof.
  intros Hw%worker_ok Hr Hn Hd Hin.
  destruct (dispatch_cases _ _ _ _ _ _ Hw Hr Hn Hd) as [(evs0 & Hres & -> & _)|(_ & _ & _ & Hev & _)].
  2:{ destruct (Hev _ Hin) as (l & [?|(? & ? & ?)]); done. }
  apply elem_of_app in Hin as [Hin|Hin]; [|destruct (r_Release req); set_solver].
  destruct Hres as [open evs0 Hdrop Ho|f w0 w' evs0 Hok Hfo Hnc Hf Hk Hc Hb Hor Hp].
  { exfalso. destruct Hdrop; unfold handleLateDuplicate, releaseBuffer in Hin;
      try destruct flt; repeat case_decide; cbn in Hin; set_solver. }
  destruct Hok as ((Hparts & Hwf) & Ht & Hpath & _).
  destruct Hp as [f' d' evs Hh _|f' d' evs w' evs' Hh Hpos Heq Hfin].
  { by apply (hd_local _ _ _ _ _ _ Hh) in Hin. }
  apply elem_of_app in Hin as [Hin|Hin]; [by apply (hd_local _ _ _ _ _ _ Hh) in Hin|].
  pose proof (hd_kept _ _ _ _ _ _ Hh) as Hkept. pose proof (hd_parts _ _ _ _ _ _ Hh) as Hpp. specialize (Ht Hpos).
  destruct (hd_inv _ _ _ _ _ _ Hh) as [Hparts' Hwf'].
  apply finalize_spec in Hfin as (Hop & _ & Hcase); [|done].
  destruct Hcase as [(-> & Hcomp & S1 & S2 & S3 & Hsz)|(flt & -> & _)]; [|set_solver].
  apply list_elem_of_singleton in Hin. simplify_eq. cbn [w_open w_completed w_disk] in *.
  rewrite (kept_path _ _ _ _ Hkept), Hpath in Hsz.
  split_and!; try done; [rewrite Hcomp; set_solver|by rewrite Hop, lookup_delete_eq|].
  exists f, f'. unfold parts_ok in *. split_and!; try done; [tauto|apply Hkept|lia|lia].
Qed.

End worker.

(** ** Witnesses: two articles of one file, the second completing it *)
Definition ex_path (k : string * Z) : string :=
  if decide (k = ("j", 0)%string) then "d/f0" else String.append "x" (pretty (encode k)).

#[export] Instance ex_path_inj : Inj (=) (=) ex_path.
Proof.
  intros k1 k2. unfold ex_path. repeat case_decide; try congruence; try done.
  intros E. injection E as E. change (pretty (encode k1) = pretty (encode k2)) in E.
  apply (inj (pretty (A:=positive))) in E. by apply (inj encode) in E.
Qed.

Definition ex_owner : Owner := mkOwner "j" 0.
Definition ex_info : FileInfo := mkFileInfo "d" "f0" 2 8 [].
Definition ex_io : env :=
  mkEnv (Resolved ex_info) (Resolved ex_info) None None true None (mkFinishIO None None None None)
    (fun _ => None) (fun _ => None) (fun _ => true).
Definition ex_req (art off : Z) (data : list Z) : WriteRequest :=
  mkRequest (Some ex_owner) "j" 0 art "m" off (Some data) 7 true false false KeepFiles.

Definition ex_w0 : world := mkWorld ∅ ∅ ∅.
Definition ex_w1 : world := default ex_w0 ((fun r => fst (fst r)) <$> dispatchRequest ex_io (ex_req 0 0 [1; 2; 3]) ex_w0).
Definition ex_w2 : world := default ex_w0 ((fun r => fst (fst r)) <$> dispatchRequest ex_io (ex_req 1 3 [4; 5]) ex_w1).

Definition ex_ev1 : list event := [PutBufferEv; OnArticleWritten (Some ex_owner) 0 0 0 3 7; ReleaseEv].
Definition ex_ev2 : list event :=
  [PutBufferEv; OnArticleWritten (Some ex_owner) 0 1 3 2 7; OnFileComplete (Some ex_owner) 0; ReleaseEv].

Lemma ex_names art off data : names ex_path ex_io (request_key (ex_req art off data)).
Proof. intros fi [= <-]. reflexivity. Qed.

Lemma ex_req_ok art off data : in_i64 off -> Z.of_nat (length data) <= MaxInt64 -> req_ok (ex_req art off data).
Proof. done. Qed.

Lemma ex_step1 : dispatchRequest ex_io (ex_req 0 0 [1; 2; 3]) ex_w0 = Some (ex_w1, ex_ev1, 1).
Proof. vm_compute. reflexivity. Qed.
Lemma ex_step2 : dispatchRequest ex_io (ex_req 1 3 [4; 5]) ex_w1 = Some (ex_w2, ex_ev2, 1).
Proof. vm_compute. reflexivity. Qed.

Lemma ex_ok1 : req_ok (ex_req 0 0 [1; 2; 3]).
Proof. apply ex_req_ok; [unfold in_i64|]; vm_compute; intuition congruence. Qed.
Lemma ex_ok2 : req_ok (ex_req 1 3 [4; 5]).
Proof. apply ex_req_ok; [unfold in_i64|]; vm_compute; intuition congruence. Qed.

Lemma ex_w1_reachable : worker_reachable ex_path ex_w1.
Proof. eapply worker_next; [apply (worker_start ex_path ∅)|apply ex_ok1|apply ex_names|exact ex_step1]. Qed.

Lemma worker_accounting_witness :
  worker_reachable ex_path ex_w1 /\ is_Some (dispatchRequest ex_io (ex_req 1 3 [4; 5]) ex_w1) /\
  exists f, w_open ex_w1 !! ("j", 0)%string = Some f /\
    partsWritten (of_w f) = Z.of_nat (size (seenDone (of_w f) ∪ seenFailed (of_w f))).
Proof.
  destruct (worker_accounting ex_path ex_w1 ex_w1_reachable) as [H1 H2].
  split; [exact ex_w1_reachable|]. split; [exact (H1 _ _ ex_ok2 (ex_names _ _ _))|].
  destruct (w_open ex_w1 !! ("j", 0)%string) as [f|] eqn:E; [|vm_compute in E; discriminate E].
  exists f. split; [reflexivity|]. apply (H2 _ _ E).
Defined.


Lemma article_settled_once_witness :
  count_ev is_put ex_ev1 = 1%nat /\ (count_ev is_report ex_ev1 <= 1)%nat.
Proof.
  destruct (article_settled_once ex_path _ _ _ _ _ (worker_start ex_path ∅) ex_ok1 (ex_names _ _ _) ex_step1) as (H1 & H2 & _).
  split; [exact H1|exact H2].
Defined.

Lemma completion_exact_witness :
  OnFileComplete (Some ex_owner) 0 ∈ ex_ev2 /\ request_key (ex_req 1 3 [4; 5]) ∈ w_completed ex_w2.
Proof.
  assert (OnFileComplete (Some ex_owner) 0 ∈ ex_ev2) as Hin by (unfold ex_ev2; right; right; left).
  split; [exact Hin|].
  apply (completion_exact ex_path _ _ _ _ _ _ _ _ ex_w1_reachable ex_ok2 (ex_names _ _ _) ex_step2 Hin).
Defined.
