(* ===== verification/Bitset.v ===== *)
(** * Packed bits ([internal/job/bitset.go])

    A [bitset] is a slice of 64-bit words and a length; one bit per article.
    An index out of range reads [false] and writes nothing. *)
From S2P Require Import Prelude.
From stdpp Require Import base list.
From Stdlib Require Import ZArith Lia.
Local Open Scope Z_scope.

Record bitset : Type := mkBitset { words : list Z; bits_n : nat }.

(** [newBitset]; its [int] argument is a count, clamped at zero. *)
Definition newBitset (n : Z) : bitset :=
  let n := Z.to_nat n in mkBitset (repeat 0 ((n + 63) / 64)) n.

Definition Len (b : bitset) : nat := bits_n b.

(** The word index and the mask of bit [i]. *)
Definition mask (i : nat) : Z := Z.shiftl 1 (Z.of_nat (i mod 64)).

Definition Get (b : bitset) (i : nat) : bool :=
  if decide (bits_n b <= i)%nat then false
  else negb (Z.land (nth (i / 64) (words b) 0) (mask i) =? 0).

Definition SetBit (b : bitset) (i : nat) : bitset :=
  if decide (bits_n b <= i)%nat then b
  else mkBitset (<[(i / 64)%nat := Z.lor (nth (i / 64) (words b) 0) (mask i)]> (words b)) (bits_n b).

(** [b.words[i/64] &^= 1 << (i%64)]. *)
Definition Clear (b : bitset) (i : nat) : bitset :=
  if decide (bits_n b <= i)%nat then b
  else mkBitset (<[(i / 64)%nat := Z.ldiff (nth (i / 64) (words b) 0) (mask i)]> (words b)) (bits_n b).

(** [Clone]: a copy; values are not shared in this model. *)
Definition Clone (b : bitset) : bitset := b.

(** The words cover the bits, and each is a [uint64]. *)
Definition wf_bits (b : bitset) : Prop :=
  length (words b) = ((bits_n b + 63) / 64)%nat /\ Forall (fun w => 0 <= w < 2 ^ 64) (words b).

(** ** Lemmas *)
Lemma word_lt b i : wf_bits b -> (i < bits_n b)%nat -> (i / 64 < length (words b))%nat.
Proof.
  intros [-> _] Hi. apply Nat.div_lt_upper_bound; [done|].
  pose proof (Nat.div_mod_eq (bits_n b + 63) 64). pose proof (Nat.mod_upper_bound (bits_n b + 63) 64). lia.
Qed.

(** A masked word is nonzero exactly when the bit is set. *)
Lemma land_mask w i : negb (Z.land w (mask i) =? 0) = Z.testbit w (Z.of_nat (i mod 64)).
Proof.
  unfold mask. rewrite Z.shiftl_1_l. set (k := Z.of_nat (i mod 64)).
  assert (0 <= k) as Hk by lia.
  destruct (Z.testbit w k) eqn:E.
  - apply negb_true_iff, Z.eqb_neq. intros H0.
    assert (Z.testbit (Z.land w (2 ^ k)) k = true) as H by (by rewrite Z.land_spec, E, Z.pow2_bits_true).
    by rewrite H0, Z.bits_0 in H.
  - apply negb_false_iff, Z.eqb_eq. apply Z.bits_inj'. intros j Hj. rewrite Z.land_spec, Z.bits_0.
    destruct (decide (j = k)) as [->|Hne]; [by rewrite E|].
    rewrite Z.pow2_bits_false by done. apply andb_false_r.
Qed.

Lemma Get_testbit b i : (i < bits_n b)%nat ->
  Get b i = Z.testbit (nth (i / 64) (words b) 0) (Z.of_nat (i mod 64)).
Proof. intros Hi. unfold Get. rewrite decide_False by lia. apply land_mask. Qed.

Lemma nth_insert (l : list Z) k k' x :
  (k < length l)%nat -> nth k' (<[k := x]> l) 0 = if decide (k' = k) then x else nth k' l 0.
Proof.
  intros Hk. rewrite !nth_lookup. case_decide as H.
  - subst k'. by rewrite list_lookup_insert_eq.
  - by rewrite list_lookup_insert_ne.
Qed.

(** Two indices in one word have different bits. *)
Lemma same_word i k : (i / 64 = k / 64)%nat -> i <> k -> (i mod 64 <> k mod 64)%nat.
Proof. pose proof (Nat.div_mod_eq i 64). pose proof (Nat.div_mod_eq k 64). lia. Qed.

Lemma Get_SetBit b i k : wf_bits b ->
  Get (SetBit b i) k = (bool_decide (i = k /\ (i < bits_n b)%nat) || Get b k).
Proof.
  intros Hw. unfold SetBit. case_decide as Hi.
  { rewrite bool_decide_eq_false_2 by lia. done. }
  destruct (decide (bits_n b <= k)%nat) as [Hk|Hk].
  { unfold Get; cbn [bits_n]. rewrite !decide_True by done. rewrite bool_decide_eq_false_2 by lia. done. }
  rewrite !Get_testbit by (cbn [bits_n]; lia). cbn [words]. rewrite nth_insert by (apply word_lt; [done|lia]).
  case_decide as Hd.
  - rewrite Z.lor_spec. unfold mask. rewrite Z.shiftl_1_l, Hd.
    destruct (decide (i = k)) as [->|Hne].
    + rewrite Z.pow2_bits_true, bool_decide_eq_true_2 by lia. by rewrite orb_true_r.
    + pose proof (same_word i k ltac:(lia) Hne). rewrite Z.pow2_bits_false by lia.
      rewrite bool_decide_eq_false_2 by naive_solver. by rewrite orb_false_r.
  - rewrite bool_decide_eq_false_2 by naive_solver. done.
Qed.

Lemma Get_Clear b i k : wf_bits b ->
  Get (Clear b i) k = (negb (bool_decide (i = k)) && Get b k).
Proof.
  intros Hw. unfold Clear. case_decide as Hi.
  { case_bool_decide; [|done]. subst k. unfold Get. by rewrite decide_True. }
  destruct (decide (bits_n b <= k)%nat) as [Hk|Hk].
  { unfold Get; cbn [bits_n]. rewrite !decide_True by done. by rewrite andb_false_r. }
  rewrite !Get_testbit by (cbn [bits_n]; lia). cbn [words]. rewrite nth_insert by (apply word_lt; [done|lia]).
  case_decide as Hd.
  - rewrite Z.ldiff_spec. unfold mask. rewrite Z.shiftl_1_l, Hd.
    destruct (decide (i = k)) as [->|Hne].
    + rewrite Z.pow2_bits_true, bool_decide_eq_true_2 by lia. by rewrite andb_false_r.
    + pose proof (same_word i k ltac:(lia) Hne). rewrite Z.pow2_bits_false by lia.
      rewrite bool_decide_eq_false_2 by done. by rewrite andb_true_r.
  - rewrite bool_decide_eq_false_2 by naive_solver. done.
Qed.

Lemma Len_SetBit b i : Len (SetBit b i) = Len b.
Proof. unfold SetBit. by case_decide. Qed.
Lemma Len_Clear b i : Len (Clear b i) = Len b.
Proof. unfold Clear. by case_decide. Qed.

Lemma mask_bound i : 0 <= mask i < 2 ^ 64.
Proof.
  unfold mask. rewrite Z.shiftl_1_l. pose proof (Nat.mod_upper_bound i 64 ltac:(lia)).
  split; [lia|]. apply Z.pow_lt_mono_r; lia.
Qed.

Lemma wf_word b k : wf_bits b -> 0 <= nth k (words b) 0 < 2 ^ 64.
Proof.
  intros [_ H]. rewrite nth_lookup. destruct (words b !! k) as [w|] eqn:E; [|simpl; lia].
  simpl. by eapply Forall_lookup_1 in H.
Qed.

Lemma wf_SetBit b i : wf_bits b -> wf_bits (SetBit b i).
Proof.
  intros Hw. unfold SetBit. case_decide; [done|]. pose proof (wf_word b (i / 64) Hw) as Hb.
  pose proof (mask_bound i) as Hm. destruct Hw as [Hl Hf]. split; simpl; [by rewrite length_insert|].
  apply Forall_insert; [done|]. apply bits_bound. intros j Hj. by rewrite Z.lor_spec, !high_bits.
Qed.

Lemma wf_Clear b i : wf_bits b -> wf_bits (Clear b i).
Proof.
  intros Hw. unfold Clear. case_decide; [done|]. pose proof (wf_word b (i / 64) Hw) as Hb.
  destruct Hw as [Hl Hf]. split; simpl; [by rewrite length_insert|].
  apply Forall_insert; [done|]. apply bits_bound. intros j Hj. rewrite Z.ldiff_spec, high_bits by done. done.
Qed.

Lemma wf_newBitset n : wf_bits (newBitset n).
Proof.
  split; simpl; [apply repeat_length|]. apply Forall_forall. intros w Hw.
  apply list_elem_of_In, repeat_spec in Hw. subst. lia.
Qed.

Lemma Get_newBitset n i : Get (newBitset n) i = false.
Proof.
  unfold Get. case_decide; [done|]. simpl. rewrite nth_lookup.
  destruct (repeat 0 _ !! _) as [w|] eqn:E; simpl; [|done].
  apply list_elem_of_lookup_2, list_elem_of_In, repeat_spec in E. by subst.
Qed.

Lemma Get_lt b i : Get b i = true -> (i < Len b)%nat.
Proof. unfold Get, Len. case_decide; [done|]. lia. Qed.

#[export] Hint Resolve wf_SetBit wf_Clear wf_newBitset : gonzbd.
#[export] Hint Rewrite Len_SetBit Len_Clear Get_newBitset : gonzbd.

(** ** Properties *)

(** a bitset is a set of booleans.  Over a well-formed bitset, [SetBit] and
    [Clear] change exactly the one bit they name, an index out of range changes
    nothing and reads [false], and both keep every word a [uint64]. *)
Theorem bitset_spec b i k :
  wf_bits b ->
  Get (SetBit b i) k = (if decide (i = k /\ (i < Len b)%nat) then true else Get b k) /\
  Get (Clear b i) k = (if decide (i = k) then false else Get b k) /\
  wf_bits (SetBit b i) /\ wf_bits (Clear b i) /\ ((Len b <= k)%nat -> Get b k = false).
Proof.
  intros Hw. rewrite Get_SetBit, Get_Clear by done. split_and!; auto with gonzbd.
  - unfold Len. destruct (decide _) as [H|H]; [by rewrite bool_decide_eq_true_2|by rewrite bool_decide_eq_false_2].
  - destruct (decide _) as [H|H]; [by rewrite bool_decide_eq_true_2|by rewrite bool_decide_eq_false_2].
  - unfold Get, Len. intros. by rewrite decide_True.
Qed.

Lemma bitset_spec_witness :
  Get (SetBit (newBitset 130) 65) 65 = true /\ Get (Clear (SetBit (newBitset 130) 65) 65) 65 = false.
Proof.
  split.
  - apply (bitset_spec (newBitset 130) 65 65 (wf_newBitset 130)).
  - apply (bitset_spec (SetBit (newBitset 130) 65) 65 65). apply wf_SetBit, wf_newBitset.
Defined.
