(* ===== verification/Tracker.v ===== *)
(** * Attempt tracking ([internal/downloader/mask.go, tracker.go])

    The mask of the servers an article was tried on, and the tracker's three
    maps: try-lists, requests in flight and connection faults per server.  A
    job instance (a weak pointer in the code) is a number; the model has no
    garbage collection. *)
From S2P Require Import Prelude Bitset.
From stdpp Require Import base numbers gmap sorting list strings.
From Stdlib Require Import ZArith Lia.
Local Open Scope Z_scope.

(** ** Server masks: words of 64 bits *)
Record serverMask : Type := mkMask { fast : Z; slow : list Z }.
Definition emptyMask : serverMask := mkMask 0 [].

Definition set_server (m : serverMask) (idx : nat) : serverMask :=
  if decide (idx < 64)%nat then mkMask (Z.lor (fast m) (Z.shiftl 1 (Z.of_nat idx))) (slow m)
  else
    let slowIdx := (idx / 64 - 1)%nat in
    let words := if decide (length (slow m) <= slowIdx)%nat
                 then slow m ++ replicate (slowIdx + 1 - length (slow m)) 0 else slow m in
    mkMask (fast m) (alter (fun w => Z.lor w (Z.shiftl 1 (Z.of_nat (idx mod 64)))) slowIdx words).

Definition has_server (m : serverMask) (idx : nat) : bool :=
  if decide (idx < 64)%nat then negb (Z.land (fast m) (Z.shiftl 1 (Z.of_nat idx)) =? 0)
  else
    let slowIdx := (idx / 64 - 1)%nat in
    if decide (length (slow m) <= slowIdx)%nat then false
    else negb (Z.land (nth slowIdx (slow m) 0) (Z.shiftl 1 (Z.of_nat (idx mod 64))) =? 0).

Definition unset_server (m : serverMask) (idx : nat) : serverMask :=
  if decide (idx < 64)%nat then mkMask (Z.ldiff (fast m) (Z.shiftl 1 (Z.of_nat idx))) (slow m)
  else
    let slowIdx := (idx / 64 - 1)%nat in
    if decide (length (slow m) <= slowIdx)%nat then m
    else mkMask (fast m) (alter (fun w => Z.ldiff w (Z.shiftl 1 (Z.of_nat (idx mod 64)))) slowIdx (slow m)).

Definition isEmpty (m : serverMask) : bool :=
  (fast m =? 0) && forallb (fun v => v =? 0) (slow m).

(** Kernighan's loop on one word: every round clears a bit, so a word of 64
    bits takes at most 64. *)
Fixpoint count_word (fuel : nat) (w : Z) (n : Z) : Z :=
  match fuel with
  | O => n
  | S fuel => if decide (w = 0) then n else count_word fuel (Z.land w (w - 1)) (n + 1)
  end.

Definition count_tried (m : serverMask) : Z :=
  foldl (fun n w => count_word 64 w n) (count_word 64 (fast m) 0) (slow m).

(** ** The tracker *)
Notation articleKey := (string * nat * Z)%type (only parsing).  (* job ID, instance, article *)

Record dispatchTracker : Type := mkTracker {
  tryList : gmap (string * nat * Z) serverMask;
  inFlight : gmap (string * nat * Z) Z;
  faults : gmap (string * nat * Z) (gmap nat Z);
}.

Definition newDispatchTracker : dispatchTracker := mkTracker ∅ ∅ ∅.

Definition InFlightLocked (t : dispatchTracker) (key : string * nat * Z) : Z := default 0 (inFlight t !! key).

Definition IncrementInFlightLocked (t : dispatchTracker) (key : string * nat * Z) : dispatchTracker :=
  mkTracker (tryList t) (<[key := InFlightLocked t key + 1]> (inFlight t)) (faults t).

Definition DecrementInFlight (t : dispatchTracker) (key : string * nat * Z) : dispatchTracker :=
  if decide (InFlightLocked t key <= 1) then mkTracker (tryList t) (base.delete key (inFlight t)) (faults t)
  else mkTracker (tryList t) (<[key := InFlightLocked t key - 1]> (inFlight t)) (faults t).

Definition TryListLocked (t : dispatchTracker) (key : string * nat * Z) : option serverMask := tryList t !! key.

Definition SetTriedLocked (t : dispatchTracker) (key : string * nat * Z) (mask : serverMask) : dispatchTracker :=
  mkTracker (<[key := mask]> (tryList t)) (inFlight t) (faults t).

(** A mask without the server; an empty one is dropped. *)
Definition drop_server (l : gmap (string * nat * Z) serverMask) (key : string * nat * Z) (serverIdx : nat) :
    gmap (string * nat * Z) serverMask :=
  match l !! key with
  | None => l
  | Some mask =>
      let mask := unset_server mask serverIdx in
      if isEmpty mask then base.delete key l else <[key := mask]> l
  end.

Definition UnmarkTried (t : dispatchTracker) (key : string * nat * Z) (serverIdx : nat) : dispatchTracker :=
  mkTracker (drop_server (tryList t) key serverIdx) (inFlight t) (faults t).

Definition maxConnFaultsPerArticle : Z := 3.

Definition UnmarkTriedAfterFault (t : dispatchTracker) (key : string * nat * Z) (serverIdx : nat) :
    dispatchTracker * bool :=
  let perServer := default ∅ (faults t !! key) in
  let n := default 0 (perServer !! serverIdx) + 1 in
  if decide (n >= maxConnFaultsPerArticle) then
    let perServer := base.delete serverIdx perServer in
    (mkTracker (tryList t) (inFlight t)
       (if decide (perServer = ∅) then base.delete key (faults t) else <[key := perServer]> (faults t)), true)
  else
    (mkTracker (drop_server (tryList t) key serverIdx) (inFlight t)
       (<[key := <[serverIdx := n]> perServer]> (faults t)), false).

Definition ClearTried (t : dispatchTracker) (key : string * nat * Z) : dispatchTracker :=
  mkTracker (base.delete key (tryList t)) (inFlight t) (base.delete key (faults t)).

Definition inst_of (key : string * nat * Z) : nat := snd (fst key).

(** [Instances]: the instances with an entry, once each. *)
Definition Instances (t : dispatchTracker) : gset nat :=
  set_map inst_of (dom (tryList t)) ∪ set_map inst_of (dom (inFlight t)) ∪ set_map inst_of (dom (faults t)).

Definition DropInstances (t : dispatchTracker) (stale : gset nat) : dispatchTracker :=
  mkTracker (base.filter (fun kv => inst_of (fst kv) ∉ stale) (tryList t))
    (base.filter (fun kv => inst_of (fst kv) ∉ stale) (inFlight t))
    (base.filter (fun kv => inst_of (fst kv) ∉ stale) (faults t)).

Definition TriedCount (t : dispatchTracker) (inst : nat) : nat :=
  size (base.filter (fun kv => inst_of (fst kv) = inst) (tryList t)).

Definition Len_entries (t : dispatchTracker) : nat * nat := (size (tryList t), size (inFlight t)).

(** ** Masks are sets *)
Definition mask_words (m : serverMask) : list Z := fast m :: slow m.
Definition mask_wf (m : serverMask) : Prop := Forall (fun w => 0 <= w < 2 ^ 64) (mask_words m).

Lemma div64_small i : (i < 64)%nat -> (i / 64 = 0 /\ i mod 64 = i)%nat.
Proof. intros. by rewrite Nat.div_small, Nat.mod_small. Qed.

Lemma div64_big i : (64 <= i)%nat -> (i / 64 = S (i / 64 - 1))%nat.
Proof. intros H. assert (1 <= i / 64)%nat by (apply Nat.div_le_lower_bound; lia). lia. Qed.

Lemma shift_mask i : (i < 64)%nat -> Z.shiftl 1 (Z.of_nat i) = Bitset.mask i.
Proof. intros H. unfold Bitset.mask. by rewrite Nat.mod_small. Qed.

Lemma has_spec m i : has_server m i = Z.testbit (nth (i / 64) (mask_words m) 0) (Z.of_nat (i mod 64)).
Proof.
  unfold has_server, mask_words. case_decide as Hi.
  - rewrite shift_mask, land_mask by done. by rewrite (proj1 (div64_small i Hi)).
  - rewrite (div64_big i) at 3 by lia. cbn [nth]. case_decide as Hl.
    + by rewrite nth_overflow, Z.bits_0.
    + apply land_mask.
Qed.

Lemma mask_testbit i j : Z.testbit (Bitset.mask i) (Z.of_nat (j mod 64)) = bool_decide (i mod 64 = j mod 64)%nat.
Proof.
  unfold Bitset.mask. rewrite Z.shiftl_1_l. case_bool_decide as E; [rewrite E; apply Z.pow2_bits_true; lia|].
  apply Z.pow2_bits_false. lia.
Qed.

Lemma same_bit i j : (i / 64 = j / 64 -> i mod 64 = j mod 64 -> i = j)%nat.
Proof. intros H1 H2. rewrite (Nat.div_mod_eq i 64), (Nat.div_mod_eq j 64). by rewrite H1, H2. Qed.

Lemma nth_alter (f : Z -> Z) k l j :
  nth j (alter f k l) 0 = if decide (j = k /\ (k < length l)%nat) then f (nth j l 0) else nth j l 0.
Proof.
  rewrite !nth_lookup. destruct (decide (j = k)) as [->|Hne].
  - rewrite list_lookup_alter_eq. destruct (l !! k) as [x|] eqn:E; simpl.
    + apply lookup_lt_Some in E. by rewrite decide_True.
    + apply lookup_ge_None in E. rewrite decide_False by lia. done.
  - rewrite list_lookup_alter_ne by done. rewrite decide_False by tauto. done.
Qed.

Lemma nth_pad l n j : nth j (l ++ replicate n 0) 0 = nth j l 0.
Proof.
  destruct (decide (j < length l)%nat); [by rewrite app_nth1 by done|].
  rewrite app_nth2 by lia. rewrite (nth_overflow l) by lia. rewrite nth_lookup.
  destruct (replicate n 0 !! (j - length l)%nat) as [x|] eqn:E; [|done]. by apply lookup_replicate in E as [-> _].
Qed.

(** The words after [set] and [unset]. *)
Lemma set_words m i : forall j, nth j (mask_words (set_server m i)) 0 =
  if decide (j = i / 64)%nat then Z.lor (nth j (mask_words m) 0) (Bitset.mask i) else nth j (mask_words m) 0.
Proof.
  intros j. unfold set_server, mask_words. case_decide as Hi.
  - destruct (div64_small i Hi) as [-> _]. rewrite shift_mask by done. destruct j; [done|]. done.
  - pose proof (div64_big i ltac:(lia)) as Hd. cbn [fast slow]. destruct j as [|j]; [destruct (decide (0 = i / 64)%nat); [lia|done]|].
    cbn [nth]. fold (Bitset.mask i). rewrite nth_alter.
    set (k := (i / 64 - 1)%nat) in *.
    assert (nth j (if decide (length (slow m) <= k)%nat then slow m ++ replicate (k + 1 - length (slow m)) 0 else slow m) 0
      = nth j (slow m) 0) as -> by (case_decide; [apply nth_pad|done]).
    destruct (decide (j = k)) as [->|Hne].
    + rewrite decide_True; [by rewrite decide_True by lia|]. split; [done|].
      case_decide; [rewrite length_app, length_replicate|]; lia.
    + rewrite !decide_False by lia. done.
Qed.

Lemma unset_words m i : forall j, nth j (mask_words (unset_server m i)) 0 =
  if decide (j = i / 64)%nat then Z.ldiff (nth j (mask_words m) 0) (Bitset.mask i) else nth j (mask_words m) 0.
Proof.
  intros j. unfold unset_server, mask_words. case_decide as Hi.
  - destruct (div64_small i Hi) as [-> _]. rewrite shift_mask by done. by destruct j.
  - pose proof (div64_big i ltac:(lia)) as Hd. case_decide as Hl.
    + case_decide as Hj; [|done]. subst j. rewrite Hd. cbn [nth]. rewrite nth_overflow by lia. by rewrite Z.ldiff_0_l.
    + cbn [fast slow]. destruct j as [|j]; [destruct (decide (0 = i / 64)%nat); [lia|done]|]. cbn [nth]. fold (Bitset.mask i).
      rewrite nth_alter. destruct (decide (j = i / 64 - 1)%nat) as [->|Hne].
      * rewrite !decide_True by lia. done.
      * rewrite !decide_False by lia. done.
Qed.

Lemma set_has m i j : has_server (set_server m i) j = bool_decide (i = j) || has_server m j.
Proof.
  rewrite !has_spec, set_words. case_decide as E.
  - rewrite Z.lor_spec, mask_testbit, orb_comm. f_equal. apply bool_decide_ext. split; [|by intros ->].
    intros. apply same_bit; lia.
  - rewrite (bool_decide_eq_false_2 (i = j)) by (intros ->; lia). done.
Qed.

Lemma unset_has m i j : has_server (unset_server m i) j = negb (bool_decide (i = j)) && has_server m j.
Proof.
  rewrite !has_spec, unset_words. case_decide as E.
  - rewrite Z.ldiff_spec, mask_testbit, andb_comm. do 2 f_equal. apply bool_decide_ext. split; [|by intros ->].
    intros. apply same_bit; lia.
  - rewrite (bool_decide_eq_false_2 (i = j)) by (intros ->; lia). done.
Qed.

Lemma word_zero w : 0 <= w < 2 ^ 64 -> w = 0 <-> forall k, (k < 64)%nat -> Z.testbit w (Z.of_nat k) = false.
Proof.
  intros Hw. split; [intros -> k _; apply Z.bits_0|]. intros H. apply Z.bits_inj'. intros n Hn. rewrite Z.bits_0.
  destruct (decide (n < 64)); [rewrite <- (Z2Nat.id n) by lia; apply H; lia|].
  destruct (decide (w = 0)) as [->|]; [apply Z.bits_0|]. apply Z.bits_above_log2; [lia|].
  assert (Z.log2 w < 64); [|lia]. apply Z.log2_lt_pow2; lia.
Qed.

Lemma has_word m k b : (b < 64)%nat -> has_server m (64 * k + b) = Z.testbit (nth k (mask_words m) 0) (Z.of_nat b).
Proof.
  intros Hb. rewrite has_spec. replace ((64 * k + b) / 64)%nat with k by (apply (Nat.div_unique _ _ k b); lia).
  by replace ((64 * k + b) mod 64)%nat with b by (apply (Nat.mod_unique _ _ k b); lia).
Qed.

Lemma isEmpty_spec m : mask_wf m -> isEmpty m = true <-> forall i, has_server m i = false.
Proof.
  intros Hw. unfold isEmpty. transitivity (Forall (fun w => w = 0) (mask_words m)).
  { unfold mask_words. rewrite Forall_cons, andb_true_iff, Z.eqb_eq, forallb_forall, Forall_forall.
    split; intros [H1 H2]; (split; [done|]); intros x Hx; [apply Z.eqb_eq|apply Z.eqb_eq]; [|].
    - rewrite Z.eqb_eq. apply Z.eqb_eq, H2. by apply list_elem_of_In.
    - by apply H2, list_elem_of_In. }
  unfold mask_wf in Hw. rewrite Forall_forall in Hw. rewrite Forall_forall. split.
  - intros H i. rewrite has_spec. destruct (mask_words m !! (i / 64)%nat) as [w|] eqn:E.
    + rewrite nth_lookup, E. simpl. rewrite (H w) by (by eapply list_elem_of_lookup_2). apply Z.bits_0.
    + rewrite nth_lookup, E. apply Z.bits_0.
  - intros H w Hin. apply word_zero; [by apply Hw|]. intros b Hb. apply list_elem_of_lookup in Hin as [k Hk].
    specialize (H (64 * k + b)%nat). rewrite has_word, nth_lookup, Hk in H by done. done.
Qed.

(** ** Counting *)
Definition b2z (b : bool) : Z := if b then 1 else 0.

Definition popcount (w : Z) : Z := sum_range (fun k => b2z (Z.testbit w (Z.of_nat k))) 0 64.

(** The lowest set bit. *)
Lemma lowest_bit n w : 0 < w < 2 ^ Z.of_nat n ->
  exists i q, (i < n)%nat /\ 0 <= q /\ w = 2 ^ Z.of_nat i * (2 * q + 1).
Proof.
  revert w. induction n as [|n IH]; intros w Hw; [simpl in Hw; lia|].
  rewrite Nat2Z.inj_succ, Z.pow_succ_r in Hw by lia.
  pose proof (Z.div_mod w 2 ltac:(lia)) as E. pose proof (Z.mod_pos_bound w 2 ltac:(lia)) as B.
  destruct (decide (w mod 2 = 1)) as [H1|H1].
  - exists 0%nat, (w / 2). split; [lia|]. split; [lia|]. rewrite Z.pow_0_r. lia.
  - destruct (IH (w / 2)) as (i & q & Hi & Hq & Ew); [lia|].
    exists (S i), q. split; [lia|]. split; [done|]. rewrite Nat2Z.inj_succ, Z.pow_succ_r by lia. lia.
Qed.

(** [w & (w-1)] clears it and nothing else. *)
Lemma clear_lowest i q j : 0 <= q -> 0 <= j ->
  Z.testbit (Z.land (2 ^ Z.of_nat i * (2 * q + 1)) (2 ^ Z.of_nat i * (2 * q + 1) - 1)) j =
  if decide (j = Z.of_nat i) then false else Z.testbit (2 ^ Z.of_nat i * (2 * q + 1)) j.
Proof.
  intros Hq Hj. set (p := 2 ^ Z.of_nat i). assert (0 < p) as Hp by (apply Z.pow_pos_nonneg; lia).
  rewrite Z.land_spec. destruct (decide (j < Z.of_nat i)) as [Hlt|Hge].
  - rewrite decide_False by lia. unfold p. rewrite Z.mul_comm, <- Z.shiftl_mul_pow2 by lia.
    rewrite Z.shiftl_spec_low by lia. done.
  - assert (Z.testbit (p * (2 * q + 1)) j = Z.testbit (2 * q + 1) (j - Z.of_nat i)) as E1.
    { unfold p. rewrite Z.mul_comm, <- Z.shiftl_mul_pow2 by lia. by rewrite Z.shiftl_spec by lia. }
    assert (Z.testbit (p * (2 * q + 1) - 1) j = Z.testbit (2 * q) (j - Z.of_nat i)) as E2.
    { assert ((p * (2 * q + 1) - 1) / p = 2 * q) as Hd
        by (symmetry; apply (Z.div_unique_pos _ p (2 * q) (p - 1)); lia).
      transitivity (Z.testbit ((p * (2 * q + 1) - 1) / p) (j - Z.of_nat i)); [|by rewrite Hd].
      unfold p. rewrite <- Z.shiftr_div_pow2, Z.shiftr_spec by lia. f_equal. lia. }
    rewrite E1, E2. case_decide as He.
    + subst j. rewrite Z.sub_diag, Z.testbit_even_0. apply andb_false_r.
    + replace (j - Z.of_nat i) with (Z.succ (j - Z.of_nat i - 1)) by lia.
      rewrite Z.testbit_odd_succ, Z.testbit_even_succ by lia. apply andb_diag.
Qed.

Lemma count_word_spec fuel w n : 0 <= w < 2 ^ 64 -> popcount w <= Z.of_nat fuel ->
  count_word fuel w n = n + popcount w.
Proof.
  revert w n. induction fuel as [|fuel IH]; intros w n Hw Hf; cbn [count_word].
  - assert (0 <= popcount w); [|lia]. apply sum_range_nonneg. intros k _. unfold b2z. case_match; lia.
  - case_decide as Hz; [subst; unfold popcount; rewrite (sum_range_ext _ (fun _ => 0));
      [change (sum_range (fun _ => 0) 0 64) with 0; lia|intros; by rewrite Z.bits_0]|].
    destruct (lowest_bit 64 w) as (i & q & Hi & Hq & Ew); [lia|].
    assert (forall j, 0 <= j -> Z.testbit (Z.land w (w - 1)) j = if decide (j = Z.of_nat i) then false else Z.testbit w j) as Hc
      by (intros j Hj; rewrite Ew; by apply clear_lowest).
    assert (popcount (Z.land w (w - 1)) = popcount w - 1) as Hp.
    { unfold popcount. rewrite (sum_range_change (fun k => b2z (Z.testbit w (Z.of_nat k)))
        (fun k => b2z (Z.testbit (Z.land w (w - 1)) (Z.of_nat k))) 0 64 i); [|lia|].
      - rewrite Hc, decide_True by lia.
        replace (Z.testbit w (Z.of_nat i)) with true; [simpl; lia|]. symmetry. rewrite Ew.
        rewrite Z.mul_comm, <- Z.shiftl_mul_pow2, Z.shiftl_spec by lia. rewrite Z.sub_diag. apply Z.testbit_odd_0.
      - intros k Hk. rewrite Hc, decide_False by lia. done. }
    rewrite IH.
    + lia.
    + apply bits_bound. intros j Hj. rewrite Z.land_spec, high_bits by done. done.
    + lia.
Qed.

Lemma popcount_le w : 0 <= popcount w <= 64.
Proof.
  split; [apply sum_range_nonneg; intros; unfold b2z; case_match; lia|].
  transitivity (sum_range (fun _ => 1) 0 64); [|done]. apply sum_range_le. intros. unfold b2z. case_match; lia.
Qed.

(** The number of servers below [64 * words] that are tried. *)
Definition tried_among (m : serverMask) (n : nat) : Z := sum_range (fun i => b2z (has_server m i)) 0 n.

Lemma sum_range_shift f lo n : sum_range f lo n = sum_range (fun k => f (lo + k)%nat) 0 n.
Proof.
  unfold sum_range. f_equal. rewrite <- (Nat.add_0_r lo) at 1. rewrite <- fmap_add_seq, <- list_fmap_compose. done.
Qed.

Lemma words_popcount m k : (k <= length (mask_words m))%nat ->
  tried_among m (64 * k) = sumZ (popcount <$> take k (mask_words m)).
Proof.
  induction k as [|k IH]; intros Hk; [done|].
  replace (64 * S k)%nat with (64 * k + 64)%nat by lia. unfold tried_among. rewrite sum_range_app.
  fold (tried_among m (64 * k)). rewrite IH by lia.
  destruct (lookup_lt_is_Some_2 (mask_words m) k) as [w Ew]; [lia|].
  rewrite (take_S_r _ _ _ Ew), fmap_app, sumZ_app. f_equal. simpl. rewrite Z.add_0_r.
  unfold popcount. rewrite (sum_range_shift _ (64 * k)). apply sum_range_ext. intros b Hb. f_equal.
  replace (0 + 64 * k + b)%nat with (64 * k + b)%nat by lia. rewrite has_word by lia. by rewrite nth_lookup, Ew.
Qed.

Lemma count_tried_spec m : mask_wf m -> count_tried m = tried_among m (64 * length (mask_words m)).
Proof.
  intros Hw. rewrite words_popcount, firstn_all by done. unfold count_tried, mask_words. cbn [fmap list_fmap sumZ foldr].
  unfold mask_wf, mask_words in Hw. apply Forall_cons in Hw as [Hf Hs].
  rewrite count_word_spec by (done || (pose proof (popcount_le (fast m)); lia)).
  rewrite Z.add_0_l. generalize (popcount (fast m)). induction Hs as [|w l Hw Hs IH]; intros n; cbn [foldl fmap list_fmap].
  - simpl. lia.
  - rewrite IH, count_word_spec by (done || (pose proof (popcount_le w); lia)). simpl. fold (sumZ (popcount <$> l)). lia.
Qed.

Lemma word_bound_ops w i : 0 <= w < 2 ^ 64 ->
  0 <= Z.lor w (Bitset.mask i) < 2 ^ 64 /\ 0 <= Z.ldiff w (Bitset.mask i) < 2 ^ 64.
Proof.
  intros Hw. assert (0 <= Bitset.mask i < 2 ^ 64) as Hm.
  { unfold Bitset.mask. rewrite Z.shiftl_1_l. pose proof (Nat.mod_upper_bound i 64 ltac:(lia)).
    split; [lia|]. apply Z.pow_lt_mono_r; lia. }
  split; apply bits_bound; intros j Hj; rewrite ?Z.lor_spec, ?Z.ldiff_spec, !high_bits by done; done.
Qed.

Lemma wf_nth m : mask_wf m <-> forall j, 0 <= nth j (mask_words m) 0 < 2 ^ 64.
Proof.
  unfold mask_wf. rewrite Forall_lookup. split.
  - intros H j. rewrite nth_lookup. destruct (mask_words m !! j) as [w|] eqn:E; [by apply (H j)|simpl; lia].
  - intros H j w E. specialize (H j). by rewrite nth_lookup, E in H.
Qed.

Lemma mask_wf_ops m i : mask_wf m -> mask_wf (set_server m i) /\ mask_wf (unset_server m i).
Proof.
  rewrite !wf_nth. intros Hw. split; intros j; rewrite ?set_words, ?unset_words;
    (case_decide; [by apply word_bound_ops|done]).
Qed.

Lemma empty_mask_has i : has_server emptyMask i = false.
Proof.
  rewrite has_spec. unfold mask_words, emptyMask. cbn [fast slow].
  destruct (i / 64)%nat as [|[|k]]; apply Z.bits_0.
Qed.

(** a server mask is a set of servers.  [set] adds one, [unset] removes
    one, [has] is membership, [isEmpty] says there is none, and [count], by
    clearing lowest bits, is their number; however many words the mask has
    grown, and its words stay 64-bit. *)
Theorem mask_is_a_set m i :
  mask_wf m ->
  mask_wf (set_server m i) /\ mask_wf (unset_server m i) /\
  (forall j, has_server (set_server m i) j = bool_decide (i = j) || has_server m j) /\
  (forall j, has_server (unset_server m i) j = negb (bool_decide (i = j)) && has_server m j) /\
  (isEmpty m = true <-> forall j, has_server m j = false) /\
  (forall j, has_server m j = true -> (j < 64 * S (length (slow m)))%nat) /\
  count_tried m = sum_range (fun j => b2z (has_server m j)) 0 (64 * S (length (slow m))).
Proof.
  intros Hw. destruct (mask_wf_ops m i Hw) as [H1 H2]. split_and!; [done|done| | | | |].
  - intros j. apply set_has.
  - intros j. apply unset_has.
  - by apply isEmpty_spec.
  - intros j Hj. destruct (decide (j < 64 * S (length (slow m)))%nat); [done|]. rewrite has_spec, nth_overflow, Z.bits_0 in Hj; [done|].
    unfold mask_words. cbn [length]. apply Nat.div_le_lower_bound; lia.
  - by apply count_tried_spec.
Qed.

(** ** The tracker's entries *)
Definition tracker_ok (t : dispatchTracker) : Prop :=
  (forall k m, tryList t !! k = Some m -> mask_wf m /\ exists i, has_server m i = true) /\
  (forall k n, inFlight t !! k = Some n -> 0 < n) /\
  (forall k fs, faults t !! k = Some fs -> fs <> ∅ /\ forall s n, fs !! s = Some n -> 0 < n < maxConnFaultsPerArticle).

Lemma drop_server_ok l key s k m :
  (forall k m, l !! k = Some m -> mask_wf m /\ exists i, has_server m i = true) ->
  drop_server l key s !! k = Some m -> mask_wf m /\ exists i, has_server m i = true.
Proof.
  intros Hl. unfold drop_server. destruct (l !! key) as [m0|] eqn:E; [|apply Hl].
  destruct (Hl _ _ E) as [Hw _]. destruct (mask_wf_ops m0 s Hw) as [_ Hw'].
  destruct (isEmpty (unset_server m0 s)) eqn:Ee.
  - intros [_ H]%lookup_delete_Some. by apply Hl in H.
  - intros [[-> <-]|[_ H]]%lookup_insert_Some; [|by apply Hl in H]. split; [done|].
    destruct (decide (Exists (fun i => has_server (unset_server m0 s) i = true)
      (seq 0 (64 * length (mask_words (unset_server m0 s)))))) as [Hex|Hn]; [apply Exists_exists in Hex; naive_solver|].
    exfalso. assert (isEmpty (unset_server m0 s) = true); [|congruence]. apply isEmpty_spec; [done|]. intros i.
    apply not_true_is_false. intros Hi. apply Hn, Exists_exists. exists i. split; [|done]. apply elem_of_seq.
    split; [lia|]. destruct (decide (i < 64 * length (mask_words (unset_server m0 s)))%nat); [lia|].
    rewrite has_spec, nth_overflow, Z.bits_0 in Hi; [done|]. apply Nat.div_le_lower_bound; lia.
Qed.

Definition tried_mask (t : dispatchTracker) (key : string * nat * Z) : serverMask := default emptyMask (tryList t !! key).
Definition fault_count (t : dispatchTracker) (key : string * nat * Z) (s : nat) : Z :=
  default 0 (default ∅ (faults t !! key) !! s).

Lemma tried_mask_wf t key : tracker_ok t -> mask_wf (tried_mask t key).
Proof.
  intros (Ht & _). unfold tried_mask. destruct (tryList t !! key) as [m|] eqn:E; [by destruct (Ht _ _ E)|].
  by repeat constructor.
Qed.

(** [unmark] removes the server from the article's mask. *)
Lemma drop_server_has t key s : tracker_ok t -> forall i,
  has_server (default emptyMask (drop_server (tryList t) key s !! key)) i =
  negb (bool_decide (s = i)) && has_server (tried_mask t key) i.
Proof.
  intros (Ht & _) i. unfold drop_server, tried_mask. destruct (tryList t !! key) as [m|] eqn:E.
  - destruct (Ht _ _ E) as [Hw _]. destruct (mask_wf_ops m s Hw) as [_ Hw'].
    rewrite <- unset_has. destruct (isEmpty (unset_server m s)) eqn:Ee.
    + rewrite lookup_delete_eq. simpl. rewrite empty_mask_has. symmetry. by apply isEmpty_spec.
    + by rewrite lookup_insert_eq.
  - rewrite E. simpl. by rewrite empty_mask_has, andb_false_r.
Qed.

(** Every operation of the tracker. *)
Inductive tracker_step : dispatchTracker -> dispatchTracker -> Prop :=
| ts_incr t key : tracker_step t (IncrementInFlightLocked t key)
| ts_decr t key : tracker_step t (DecrementInFlight t key)
| ts_mark t key s : tracker_step t (SetTriedLocked t key (set_server (tried_mask t key) s))
| ts_unmark t key s : tracker_step t (UnmarkTried t key s)
| ts_fault t key s t' b : UnmarkTriedAfterFault t key s = (t', b) -> tracker_step t t'
| ts_clear t key : tracker_step t (ClearTried t key)
| ts_drop t stale : tracker_step t (DropInstances t stale).

Inductive tracker_reachable : dispatchTracker -> Prop :=
| tracker_start : tracker_reachable newDispatchTracker
| tracker_next t t' : tracker_reachable t -> tracker_step t t' -> tracker_reachable t'.

Lemma fault_ok t key s t' b : tracker_ok t -> UnmarkTriedAfterFault t key s = (t', b) -> tracker_ok t'.
Proof.
  intros (Ht & Hi & Hf). unfold UnmarkTriedAfterFault, maxConnFaultsPerArticle.
  assert (forall s' n, default ∅ (faults t !! key) !! s' = Some n -> 0 < n < 3) as Hn.
  { intros s' n H. destruct (faults t !! key) as [fs|] eqn:E; [by apply (proj2 (Hf _ _ E) s')|]. simpl in H. by rewrite lookup_empty in H. }
  case_decide as Hge; intros [= <- <-]; (split; [|split]); cbn; try done.
  - intros k fs. case_decide as He.
    + intros [_ H]%lookup_delete_Some. by apply Hf in H.
    + intros [[-> <-]|[_ H]]%lookup_insert_Some; [|by apply Hf in H]. split; [done|].
      intros s' n [_ H]%lookup_delete_Some. by apply Hn in H.
  - intros k m. by apply drop_server_ok.
  - intros k fs [[-> <-]|[_ H]]%lookup_insert_Some; [|by apply Hf in H]. split; [apply insert_non_empty|].
    intros s' n [[-> <-]|[_ H]]%lookup_insert_Some; [|by apply Hn in H].
    destruct (default ∅ (faults t !! k) !! s') as [n0|] eqn:E; [apply Hn in E|]; unfold maxConnFaultsPerArticle; simpl in *; lia.
Qed.

Lemma tracker_step_ok t t' : tracker_ok t -> tracker_step t t' -> tracker_ok t'.
Proof.
  intros Hok Hs. pose proof Hok as (Ht & Hi & Hf).
  destruct Hs as [t key|t key|t key s|t key s|t key s t' b H|t key|t stale].
  - split; [done|]. split; [|done]. cbn. intros k n [[_ <-]|[_ H]]%lookup_insert_Some; [|by apply Hi in H].
    unfold InFlightLocked. destruct (inFlight t !! key) eqn:E; [apply Hi in E|]; simpl; lia.
  - unfold DecrementInFlight. case_decide as Hd; (split; [done|split; [|done]]); cbn.
    + intros k n [_ H]%lookup_delete_Some. by apply Hi in H.
    + intros k n [[_ <-]|[_ H]]%lookup_insert_Some; [lia|by apply Hi in H].
  - split; [|done]. cbn. intros k m [[-> <-]|[_ H]]%lookup_insert_Some; [|by apply Ht in H].
    split; [by apply mask_wf_ops, tried_mask_wf|]. exists s. by rewrite set_has, bool_decide_eq_true_2.
  - split; [|done]. cbn. intros k m. by apply drop_server_ok.
  - by eapply fault_ok.
  - split; [|split; [done|]]; cbn; intros k x [_ H]%lookup_delete_Some; [by apply Ht in H|by apply Hf in H].
  - split; [|split]; cbn; intros k x [H _]%map_lookup_filter_Some; [by apply Ht in H|by apply Hi in H|by apply Hf in H].
Qed.

Lemma tracker_reachable_ok t : tracker_reachable t -> tracker_ok t.
Proof. induction 1; [by repeat split|by eapply tracker_step_ok]. Qed.

(** the tracker keeps no empty entry.  In every reachable tracker a
    stored try-list marks at least one server, a stored in-flight count is
    positive, and a stored fault record is non-empty and below the limit; so
    a server's faults on an article always reach the limit on the third, and
    [DropInstances] leaves nothing of an instance and everything of the
    others. *)
Theorem tracker_entries t :
  tracker_reachable t ->
  (forall k m, tryList t !! k = Some m -> mask_wf m /\ exists i, has_server m i = true) /\
  (forall k n, inFlight t !! k = Some n -> 0 < n) /\
  (forall k fs, faults t !! k = Some fs -> fs <> ∅ /\ forall s n, fs !! s = Some n -> 0 < n < 3) /\
  (forall stale, Instances (DropInstances t stale) = Instances t ∖ stale /\
     forall k, inst_of k ∉ stale -> tryList (DropInstances t stale) !! k = tryList t !! k /\
       inFlight (DropInstances t stale) !! k = inFlight t !! k /\ faults (DropInstances t stale) !! k = faults t !! k).
Proof.
  intros (Ht & Hi & Hf)%tracker_reachable_ok. split_and!; try done. intros stale.
  assert (forall {A} (m : gmap (string * nat * Z) A), (set_map inst_of (dom (base.filter (fun kv => inst_of (fst kv) ∉ stale) m)) : gset nat)
    = set_map inst_of (dom m) ∖ stale) as Hdom.
  { intros A m. apply set_eq. intros i. rewrite elem_of_difference, !elem_of_map. split.
    - intros (k & -> & [x [Hx Hk]%map_lookup_filter_Some]%elem_of_dom). split; [|done]. exists k. split; [done|]. by apply elem_of_dom_2 in Hx.
    - intros [(k & -> & [x Hx]%elem_of_dom) Hn]. exists k. split; [done|]. apply elem_of_dom. exists x. by apply map_lookup_filter_Some. }
  split.
  - unfold Instances, DropInstances. cbn [tryList inFlight faults]. rewrite !Hdom. set_solver.
  - intros k Hk. unfold DropInstances. cbn.
    assert (forall {A} (m : gmap (string * nat * Z) A), base.filter (fun kv => inst_of (fst kv) ∉ stale) m !! k = m !! k) as Hl.
    { intros A m. destruct (m !! k) as [x|] eqn:E; [by apply map_lookup_filter_Some|]. apply map_lookup_filter_None. by left. }
    by rewrite !Hl.
Qed.

Lemma tracker_entries_witness :
  exists t, tracker_reachable t /\ faults t <> ∅ /\ forall k n, inFlight t !! k = Some n -> 0 < n.
Proof.
  destruct (UnmarkTriedAfterFault newDispatchTracker ("j"%string, 0%nat, 5) 1) as [t b] eqn:E.
  assert (tracker_reachable t) as Hr by (eapply tracker_next; [apply tracker_start|eapply ts_fault; exact E]).
  exists t. split; [exact Hr|]. split.
  - vm_compute in E. injection E as <- _. discriminate.
  - destruct (tracker_entries t Hr) as (_ & H & _). exact H.
Defined.

Lemma mask_is_a_set_witness :
  mask_wf (set_server emptyMask 70) /\ count_tried (set_server (set_server emptyMask 70) 3) = 2 /\
  forall j, has_server (set_server (set_server emptyMask 70) 3) j =
    bool_decide (3%nat = j) || has_server (set_server emptyMask 70) j.
Proof.
  assert (mask_wf (set_server emptyMask 70)) as Hw
    by (unfold mask_wf; repeat constructor; vm_compute; congruence).
  split; [exact Hw|]. split; [vm_compute; reflexivity|].
  destruct (mask_is_a_set (set_server emptyMask 70) 3 Hw) as (_ & _ & H & _). exact H.
Defined.
