(* ===== verification/FileTable.v ===== *)
(** * File tables, manifests and PAR2 names ([internal/job]: filetable.go,
    manifest.go, par2name.go)

    A job's files and articles under one global article index.  Subjects are
    byte strings; the one regular expression of [par2name.go] is the matcher
    [match_here], which is deterministic because a digit run is always followed
    by a non-digit. *)
From S2P Require Import Prelude.
From stdpp Require Import base list strings.
From Stdlib Require Import ZArith Lia Ascii.
Local Open Scope Z_scope.

(** ** Bytes of a Go string *)
Fixpoint bytes_of (s : string) : list Z :=
  match s with
  | EmptyString => []
  | String c s => Z.of_nat (nat_of_ascii c) :: bytes_of s
  end.

(** ASCII lower case; no byte of the literals matched here is the fold of a
    non-ASCII letter. *)
Definition lower (b : Z) : Z := if decide (65 <= b <= 90) then b + 32 else b.

Definition is_digit (b : Z) : bool := bool_decide (48 <= b <= 57).

Definition is_alpha (b : Z) : bool := bool_decide (97 <= lower b <= 122).

(** ** [par2name.go] *)

(** Strip the lower-case literal [lit], ignoring case. *)
Fixpoint strip (lit s : list Z) : option (list Z) :=
  match lit, s with
  | [], _ => Some s
  | l :: lit, b :: s => if decide (lower b = l) then strip lit s else None
  | _ :: _, [] => None
  end.

Fixpoint digits (s : list Z) : list Z * list Z :=
  match s with
  | b :: s' => if is_digit b then let '(d, r) := digits s' in (b :: d, r) else ([], s)
  | [] => ([], [])
  end.

Definition lit_vol : list Z := [46; 118; 111; 108].
Definition lit_par2 : list Z := [46; 112; 97; 114; 50].

(** [(?:[^a-zA-Z0-9.]|$)]: case folding adds U+017F and U+212A to the letters. *)
Definition ends_name (s : list Z) : bool :=
  match s with
  | [] => true
  | b :: s' =>
      negb (is_alpha b || is_digit b || bool_decide (b = 46)
            || bool_decide (take 2 s = [197; 191]) || bool_decide (take 3 s = [226; 132; 170]))
  end.

(** A match of [recoveryVolumePattern] starting here: the group, [None] inside
    when the group did not take part. *)
Definition match_here (s : list Z) : option (option (list Z)) :=
  match strip lit_vol s with
  | None => None
  | Some s1 =>
      let '(d1, s2) := digits s1 in
      if decide (d1 = []) then None
      else match s2 with
           | 45 :: s3 =>
               let '(d2, s4) := digits s3 in
               if decide (d2 = []) then None
               else match strip lit_par2 s4 with
                    | Some s5 => if ends_name s5 then Some None else None
                    | None => None
                    end
           | 43 :: s3 =>
               let '(d2, s4) := digits s3 in
               if existsb (fun b => negb (b =? 48)) d2 then
                 match strip lit_par2 s4 with
                 | Some s5 => if ends_name s5 then Some (Some d2) else None
                 | None => None
                 end
               else None
           | _ => None
           end
  end.

(** The leftmost match. *)
Fixpoint find_match (s : list Z) : option (option (list Z)) :=
  match match_here s with
  | Some g => Some g
  | None => match s with [] => None | _ :: s' => find_match s' end
  end.

Definition IsRecoveryVolume (filename : string) : bool :=
  match find_match (bytes_of filename) with
  | Some _ => true
  | None => false
  end.

Definition MaxVolumeBlocks : Z := 65535.

(** [strconv.Atoi] of a digit run; an unmatched group is the empty string. *)
Definition Atoi (d : list Z) : option Z :=
  if decide (d = []) then None
  else
    let v := foldl (fun acc b => acc * 10 + (b - 48)) 0 d in
    if decide (v <= MaxInt64) then Some v else None.

(** [RecoveryVolumeBlocks]; [None] is [(0, false)]. *)
Definition RecoveryVolumeBlocks (filename : string) : option Z :=
  match find_match (bytes_of filename) with
  | None => None
  | Some g =>
      match Atoi (default [] g) with
      | None => None
      | Some n => if decide (n > MaxVolumeBlocks) then None else Some n
      end
  end.

(** [strings.Contains(strings.ToLower(subject), ".par2")]. *)
Fixpoint contains_par2 (s : list Z) : bool :=
  match strip lit_par2 s with
  | Some _ => true
  | None => match s with [] => false | _ :: s' => contains_par2 s' end
  end.

Definition isPar2File (subject : string) : bool := contains_par2 (bytes_of subject).

(** ** [filetable.go] *)
Record FileSpec : Type := mkSpec { fs_subject : string; fs_bytes : Z; fs_articles : nat }.

Record fileEntry : Type := mkEntry {
  e_subject : string;
  e_bytes : Z;
  e_articleCount : nat;
  e_isPar2Recovery : bool
}.

Record FileTable : Type := mkTable {
  t_files : list fileEntry;
  t_offsets : list nat;
  t_totalBytes : Z;
  t_recoveryByteTotal : Z;
  t_recoveryFileTotal : nat
}.

Definition newEntry (s : FileSpec) : fileEntry :=
  mkEntry (fs_subject s) (fs_bytes s) (fs_articles s) (IsRecoveryVolume (fs_subject s)).

(** [offsets[fi]] is the articles before file [fi]; one more entry for the total. *)
Fixpoint offsets_from (next : nat) (counts : list nat) : list nat :=
  next :: match counts with
          | [] => []
          | c :: counts => offsets_from (next + c) counts
          end.

(** An [int64] accumulator over sizes. *)
Definition sum64 (l : list Z) : Z := foldl (fun acc x => wraps 64 (acc + x)) 0 l.

Definition recoveryFiguresOf (files : list fileEntry) : Z * nat :=
  let r := base.filter (fun f => e_isPar2Recovery f = true) files in
  (sum64 (e_bytes <$> r), length r).

Definition newFileTable (specs : list FileSpec) : FileTable :=
  let files := newEntry <$> specs in
  let rec := recoveryFiguresOf files in
  mkTable files (offsets_from 0 (fs_articles <$> specs)) (sum64 (fs_bytes <$> specs)) (fst rec) (snd rec).

Definition NumFiles (t : FileTable) : nat := length (t_files t).

Definition file_at (t : FileTable) (fi : nat) : fileEntry :=
  nth fi (t_files t) (mkEntry "" 0 0 false).
Definition Subject (t : FileTable) (fi : nat) : string := e_subject (file_at t fi).
Definition Bytes (t : FileTable) (fi : nat) : Z := e_bytes (file_at t fi).
Definition IsPar2Recovery (t : FileTable) (fi : nat) : bool := e_isPar2Recovery (file_at t fi).
Definition ArticleCount (t : FileTable) (fi : nat) : nat := e_articleCount (file_at t fi).

Definition offset (t : FileTable) (fi : nat) : nat := nth fi (t_offsets t) 0%nat.
Definition Range (t : FileTable) (fi : nat) : nat * nat := (offset t fi, offset t (S fi)).
Definition TotalArticles (t : FileTable) : nat := offset t (NumFiles t).

Definition Specs (t : FileTable) : list FileSpec :=
  (fun f => mkSpec (e_subject f) (e_bytes f) (e_articleCount f)) <$> t_files t.

(** ** [manifest.go] *)
Record JobArticle : Type := mkArticle { ja_id : string; ja_bytes : Z; ja_number : Z }.
Record JobFile : Type := mkFile { jf_subject : string; jf_articles : list JobArticle; jf_bytes : Z }.

Record Manifest : Type := mkManifest {
  m_ft : FileTable;
  m_ids : list string;
  m_bytes : list Z;
  m_numbers : list Z
}.

(** [newManifest]; [None] is the count mismatch it refuses. *)
Definition newManifest (ft : FileTable) (articles : list JobArticle) : option Manifest :=
  if decide (length articles <> TotalArticles ft) then None
  else Some (mkManifest ft (ja_id <$> articles) (ja_bytes <$> articles) (ja_number <$> articles)).

(** [NewManifest]; [None] is its panic. *)
Definition NewManifest (files : list JobFile) : option Manifest :=
  newManifest
    (newFileTable ((fun f => mkSpec (jf_subject f) (jf_bytes f) (length (jf_articles f))) <$> files))
    (files ≫= jf_articles).

Definition FileRange (m : Manifest) (fi : nat) : nat * nat := Range (m_ft m) fi.
Definition NumArticles (m : Manifest) : nat := length (m_ids m).
Definition ArticleID (m : Manifest) (i : nat) : string := nth i (m_ids m) ""%string.
Definition ArticleBytes (m : Manifest) (i : nat) : Z := nth i (m_bytes m) 0.
Definition ArticleNumber (m : Manifest) (i : nat) : Z := nth i (m_numbers m) 0.

Definition ArticleInFile (m : Manifest) (fileIdx artIdx : Z) : bool :=
  if decide (fileIdx < 0 \/ fileIdx >= Z.of_nat (NumFiles (m_ft m))) then false
  else
    let '(lo, hi) := FileRange m (Z.to_nat fileIdx) in
    bool_decide (Z.of_nat lo <= artIdx) && bool_decide (artIdx < Z.of_nat hi).

Definition fileIndexForArticle (m : Manifest) (i : nat) : nat :=
  Search (NumFiles (m_ft m)) (fun fi => bool_decide (i < offset (m_ft m) (S fi))%nat).

(** A table [newFileTable] built, and a manifest over one. *)
Definition wf_table (t : FileTable) : Prop := exists specs, t = newFileTable specs.
Definition wf_manifest (m : Manifest) : Prop :=
  wf_table (m_ft m) /\ length (m_ids m) = TotalArticles (m_ft m) /\
  length (m_bytes m) = length (m_ids m) /\ length (m_numbers m) = length (m_ids m).

(** [i] is one of file [fi]'s articles. *)
Definition in_file (t : FileTable) (fi i : nat) : Prop :=
  (fi < NumFiles t)%nat /\ (offset t fi <= i < offset t (S fi))%nat.

Example par2_1 : RecoveryVolumeBlocks "a.vol000+012.PAR2" = Some 12.
Proof. vm_compute. reflexivity. Qed.
Example par2_2 : IsRecoveryVolume "a.vol0-1.par2" = true /\ RecoveryVolumeBlocks "a.vol0-1.par2" = None.
Proof. vm_compute. done. Qed.
Example par2_3 : IsRecoveryVolume "a.vol0+00.par2" = false /\ IsRecoveryVolume "a.vol0+1.par2x" = false.
Proof. vm_compute. done. Qed.
Example par2_4 : isPar2File "x.Par2 (1/2)" = true.
Proof. vm_compute. done. Qed.

(** ** Lemmas *)
Lemma length_offsets next counts : length (offsets_from next counts) = S (length counts).
Proof. revert next. induction counts as [|c counts IH]; intros next; simpl; [done|]. by rewrite IH. Qed.

Lemma offsets_from_0 next counts : nth 0 (offsets_from next counts) 0%nat = next.
Proof. by destruct counts. Qed.

Lemma offsets_from_S next counts fi :
  (fi < length counts)%nat ->
  nth (S fi) (offsets_from next counts) 0%nat = (nth fi (offsets_from next counts) 0 + nth fi counts 0)%nat.
Proof.
  revert next fi. induction counts as [|c counts IH]; intros next fi Hfi; simpl in Hfi; [lia|].
  destruct fi as [|fi].
  - cbn [offsets_from nth]. by rewrite offsets_from_0.
  - change (nth (S (S fi)) (offsets_from next (c :: counts)) 0%nat)
      with (nth (S fi) (offsets_from (next + c) counts) 0%nat).
    rewrite IH by lia. done.
Qed.

Section Table.
  Context (t : FileTable) (Hwf : wf_table t).

Lemma offset_0 : offset t 0 = 0%nat.
Proof using Hwf. destruct Hwf as [specs ->]. unfold offset. simpl. by destruct specs. Qed.

Lemma offset_S fi : (fi < NumFiles t)%nat -> offset t (S fi) = (offset t fi + ArticleCount t fi)%nat.
Proof using Hwf.
  destruct Hwf as [specs ->]. unfold offset, NumFiles, ArticleCount, file_at. simpl. rewrite length_fmap.
  intros Hfi. rewrite offsets_from_S by (by rewrite length_fmap). f_equal.
  rewrite !nth_lookup, !list_lookup_fmap. by destruct (specs !! fi).
Qed.

Lemma offset_mono a b : (a <= b <= NumFiles t)%nat -> (offset t a <= offset t b)%nat.
Proof using Hwf.
  intros [Hab Hb]. induction Hab as [|b Hab IH]; [done|]. rewrite offset_S by lia. etrans; [apply IH; lia|lia].
Qed.

Lemma length_t_offsets : length (t_offsets t) = S (NumFiles t).
Proof using Hwf.
  destruct Hwf as [specs ->]. unfold NumFiles. simpl. by rewrite length_offsets, !length_fmap.
Qed.

Lemma in_file_unique fi fi' i : in_file t fi i -> in_file t fi' i -> fi = fi'.
Proof using Hwf.
  intros [H1 H2] [H3 H4]. destruct (lt_eq_lt_dec fi fi') as [[Hl|He]|Hl]; [|done|].
  - pose proof (offset_mono (S fi) fi'). lia.
  - pose proof (offset_mono (S fi') fi). lia.
Qed.

Lemma in_file_total fi i : in_file t fi i -> (i < TotalArticles t)%nat.
Proof using Hwf. intros [H1 H2]. pose proof (offset_mono (S fi) (NumFiles t)). unfold TotalArticles. lia. Qed.
End Table.

Lemma fileIndex_in_file m i :
  wf_table (m_ft m) -> (i < TotalArticles (m_ft m))%nat -> in_file (m_ft m) (fileIndexForArticle m i) i.
Proof.
  intros Hw Hi. unfold fileIndexForArticle, in_file.
  set (f := fun fi => bool_decide (i < offset (m_ft m) (S fi))%nat).
  destruct (Search_spec (NumFiles (m_ft m)) f) as (H1 & H2 & H3).
  { intros a b Hab. unfold f. rewrite !bool_decide_eq_true. intros.
    pose proof (offset_mono _ Hw (S a) (S b)). lia. }
  set (r := Search (NumFiles (m_ft m)) f) in *.
  assert (r < NumFiles (m_ft m))%nat as Hr.
  { destruct (decide (r < NumFiles (m_ft m))%nat) as [|Hge]; [done|].
    assert (r = NumFiles (m_ft m)) as E by lia. unfold TotalArticles in Hi.
    destruct (NumFiles (m_ft m)) as [|k] eqn:Ek.
    - rewrite (offset_0 _ Hw) in Hi. lia.
    - specialize (H2 k ltac:(lia)). unfold f in H2. rewrite bool_decide_eq_false in H2. lia. }
  split; [done|]. specialize (H3 r ltac:(lia)). unfold f in H3. rewrite bool_decide_eq_true in H3.
  split; [|done]. destruct r as [|k] eqn:Ek; [rewrite (offset_0 _ Hw); lia|].
  specialize (H2 k ltac:(lia)). unfold f in H2. rewrite bool_decide_eq_false in H2. lia.
Qed.

Lemma fileIndex_unique m fi i :
  wf_table (m_ft m) -> in_file (m_ft m) fi i -> fileIndexForArticle m i = fi.
Proof.
  intros Hw Hi. eapply in_file_unique; [done| |done].
  apply fileIndex_in_file; [done|]. by eapply in_file_total.
Qed.

Lemma wf_newManifest t articles m : wf_table t -> newManifest t articles = Some m -> wf_manifest m /\ m_ft m = t.
Proof.
  intros Hw. unfold newManifest. case_decide as H; [done|]. intros ?; simplify_eq.
  split; [|done]. split_and!; simpl; rewrite ?length_fmap; done.
Qed.

(** [digits] splits off a run of digits. *)
Lemma digits_all s d r : digits s = (d, r) -> Forall (fun b => 48 <= b <= 57) d.
Proof.
  revert d r. induction s as [|b s IH]; simpl; intros d r E; [by simplify_eq|].
  destruct (is_digit b) eqn:Eb; [|by simplify_eq].
  destruct (digits s) as [d' r']. simplify_eq. constructor; [by apply bool_decide_eq_true in Eb|]. by eapply IH.
Qed.

Lemma digits_value d acc :
  Forall (fun b => 48 <= b <= 57) d -> 0 <= acc ->
  acc <= foldl (fun acc b => acc * 10 + (b - 48)) acc d /\
  (existsb (fun b => negb (b =? 48)) d = true -> 0 < foldl (fun acc b => acc * 10 + (b - 48)) acc d).
Proof.
  intros Hd. revert acc. induction Hd as [|b d Hb _ IH]; intros acc Ha; simpl; [split; [lia|done]|].
  destruct (IH (acc * 10 + (b - 48))) as [H1 H2]; [lia|]. split; [lia|].
  intros [Hn|Hn]%orb_true_iff; [|auto]. apply negb_true_iff, Z.eqb_neq in Hn. lia.
Qed.

(** A match whose group took part has a positive digit run. *)
Lemma match_here_group s d :
  match_here s = Some (Some d) ->
  Forall (fun b => 48 <= b <= 57) d /\ existsb (fun b => negb (b =? 48)) d = true.
Proof.
  unfold match_here. intros E. case_in E.
  all: match goal with H : digits _ = (?d, _), H' : existsb _ ?d = true |- _ =>
    split; [by eapply digits_all|exact H'] end.
Qed.

Lemma find_match_group s d :
  find_match s = Some (Some d) ->
  Forall (fun b => 48 <= b <= 57) d /\ existsb (fun b => negb (b =? 48)) d = true.
Proof.
  induction s as [|b s IH]; cbn [find_match]; destruct (match_here _) eqn:E;
    intros ?; simplify_eq; eauto using match_here_group.
Qed.

(** ** Properties *)

(** every global article index belongs to exactly one file.  For a manifest
    over a file table, the binary search returns the one file whose range holds
    an index below the total, [ArticleInFile] accepts exactly that file, and an
    index past the total is in no file. *)
Theorem article_partition m i :
  wf_manifest m ->
  ((i < NumArticles m)%nat -> in_file (m_ft m) (fileIndexForArticle m i) i) /\
  (forall fi, in_file (m_ft m) fi i -> fi = fileIndexForArticle m i /\ (i < NumArticles m)%nat) /\
  (forall fi, ArticleInFile m (Z.of_nat fi) (Z.of_nat i) = true <-> in_file (m_ft m) fi i).
Proof.
  intros (Hw & Hn & _ & _). unfold NumArticles. rewrite Hn. split_and!.
  - by apply fileIndex_in_file.
  - intros fi Hi. split; [symmetry; by apply fileIndex_unique|by eapply in_file_total].
  - intros fi. unfold ArticleInFile, in_file. case_decide as Hd.
    { split; [done|]. intros [? _]. lia. }
    rewrite Nat2Z.id. unfold FileRange, Range. rewrite andb_true_iff, !bool_decide_eq_true. lia.
Qed.

(** a recovery volume's block count.  [RecoveryVolumeBlocks] answers only
    for a name [IsRecoveryVolume] accepts, and the count is between 1 and
    [MaxVolumeBlocks]. *)
Theorem RecoveryVolumeBlocks_bounds s n :
  RecoveryVolumeBlocks s = Some n -> IsRecoveryVolume s = true /\ 1 <= n <= MaxVolumeBlocks.
Proof.
  unfold RecoveryVolumeBlocks, IsRecoveryVolume. intros E.
  destruct (find_match (bytes_of s)) as [[d|]|] eqn:Em; simpl in E; [|by vm_compute in E|done].
  apply find_match_group in Em as [Hd He]. destruct (digits_value d 0 Hd ltac:(lia)) as [_ Hp].
  unfold Atoi in E. case_decide; [done|]. case_decide; simpl in E; [|done].
  case_decide; simplify_eq. split; [done|]. specialize (Hp He). lia.
Qed.

(** [NewManifest] never panics, and its file table describes exactly the
    files it was given: [Specs] returns them. *)
Theorem NewManifest_total files :
  exists m, NewManifest files = Some m /\ wf_manifest m /\
    Specs (m_ft m) = (fun f => mkSpec (jf_subject f) (jf_bytes f) (length (jf_articles f))) <$> files.
Proof.
  unfold NewManifest. set (specs := _ <$> files).
  assert (H : forall next, (length (files ≫= jf_articles) + next =
    nth (length files) (offsets_from next (fs_articles <$> specs)) 0)%nat).
  { unfold specs. induction files as [|f files IH]; intros next; [done|].
    etrans; [|exact (IH (next + length (jf_articles f))%nat)]. rewrite bind_cons, length_app. lia. }
  specialize (H 0%nat). rewrite Nat.add_0_r in H.
  assert (Ht : TotalArticles (newFileTable specs) = length (files ≫= jf_articles)).
  { rewrite H. unfold TotalArticles, offset, NumFiles. simpl. unfold specs. by rewrite !length_fmap. }
  destruct (newManifest (newFileTable specs) (files ≫= jf_articles)) as [m|] eqn:E.
  - exists m. split; [done|]. destruct (wf_newManifest _ _ _ (ex_intro _ specs eq_refl) E) as [Hw Hm].
    split; [done|]. rewrite Hm. unfold Specs, specs. simpl. rewrite <- !list_fmap_compose.
    apply list_fmap_ext. done.
  - exfalso. unfold newManifest in E. case_decide; [congruence|done].
Qed.

(** ** Witnesses *)
Definition ex_manifest : Manifest :=
  default (mkManifest (newFileTable []) [] [] [])
    (NewManifest [mkFile "a.rar" [mkArticle "x" 10 1; mkArticle "y" 10 2] 20; mkFile "e" [] 0;
                  mkFile "a.vol0+3.par2" [mkArticle "z" 5 1] 5]).

Lemma ex_manifest_wf : wf_manifest ex_manifest.
Proof.
  apply (wf_newManifest (m_ft ex_manifest) [mkArticle "x" 10 1; mkArticle "y" 10 2; mkArticle "z" 5 1]);
    [|vm_compute; reflexivity].
  exists (Specs (m_ft ex_manifest)). vm_compute. reflexivity.
Qed.

Lemma article_partition_witness :
  fileIndexForArticle ex_manifest 2 = 2%nat /\ ArticleInFile ex_manifest 2 2 = true.
Proof.
  assert (in_file (m_ft ex_manifest) 2 2) as H by (vm_compute; lia).
  split.
  - symmetry. apply (article_partition ex_manifest 2 ex_manifest_wf). exact H.
  - apply (proj2 (proj2 (article_partition ex_manifest 2 ex_manifest_wf)) 2%nat). exact H.
Defined.

Lemma RecoveryVolumeBlocks_bounds_witness :
  RecoveryVolumeBlocks "set.vol012+07.par2" = Some 7 /\ 1 <= 7 <= MaxVolumeBlocks.
Proof.
  split; [vm_compute; reflexivity|].
  apply (RecoveryVolumeBlocks_bounds "set.vol012+07.par2"). vm_compute. reflexivity.
Defined.
