(* ===== verification/Rows.v ===== *)
(** * Written-article rows ([internal/durability/written.go],
    [internal/job/verified.go])

    A row says which bytes of a file an article wrote and their checksum.
    Slices are values here: every function that would overwrite a shared row
    copies first, so no alias can see the change. *)
From S2P Require Import Prelude Crc.
From stdpp Require Import base gmap numbers sorting list.
From Stdlib Require Import ZArith Lia.
Local Open Scope Z_scope.

Record WrittenRow : Type := mkRow {
  r_file : Z;
  r_art : Z;
  r_off : Z;
  r_len : Z;
  r_crc : Z
}.

#[export] Instance WrittenRow_eq_dec : EqDecision WrittenRow.
Proof. solve_decision. Defined.

Definition HasValidShape (r : WrittenRow) : bool :=
  bool_decide (r_off r >= 0) && bool_decide (r_len r >= 0).

(** [CompareWrittenRows a b <= 0]: by offset, then by article. *)
Definition row_le (a b : WrittenRow) : Prop :=
  r_off a < r_off b \/ (r_off a = r_off b /\ r_art a <= r_art b).

#[export] Instance row_le_dec : RelDecision row_le.
Proof. intros a b. unfold row_le. apply _. Defined.

Definition sortedClone (rows : list WrittenRow) : list WrittenRow := merge_sort row_le rows.

(** The index map [upsertRows] builds over the current rows. *)
Definition at_index (out : list WrittenRow) : gmap Z nat :=
  foldl (fun at_ kr => <[r_art (snd kr) := fst kr]> at_) ∅ (imap (fun k r => (k, r)) out).

Definition upsert_step (st : list WrittenRow * gmap Z nat) (r : WrittenRow) :
    list WrittenRow * gmap Z nat :=
  let '(out, at_) := st in
  match at_ !! r_art r with
  | None => (out ++ [r], <[r_art r := length out]> at_)
  | Some k => (<[k := r]> out, at_)
  end.

(** [JobProgress.upsertRows] on one file's rows. *)
Definition upsertRows (out rows : list WrittenRow) : list WrittenRow :=
  if decide (rows = []) then out
  else fst (foldl upsert_step (out, at_index out) rows).

(** [JobProgress.dropRows] on one file's rows. *)
Definition dropRows (rows : list WrittenRow) (arts : list Z) : list WrittenRow :=
  base.filter (fun r => r_art r ∉ arts) rows.

(** The loop of [fileCRCFromRows]; [k = 0] is the first row. *)
Fixpoint crc_loop (rows : list WrittenRow) (first : bool) (seen : list bool) (crc end_ lo hi : Z) :
    option Z :=
  match rows with
  | [] => Some crc
  | r :: rows =>
      let a := r_art r in
      if decide (a < lo \/ a >= hi) then None
      else if nth (Z.to_nat (a - lo)) seen false then None
      else if decide (r_off r <> end_) then None
      else crc_loop rows false (<[Z.to_nat (a - lo) := true]> seen)
             (if first then r_crc r else Combine crc (r_crc r) (r_len r))
             (wraps 64 (r_off r + r_len r)) lo hi
  end.

(** [fileCRCFromRows]; [None] is [(0, false)]. *)
Definition fileCRCFromRows (rows : list WrittenRow) (failed : bool) (lo hi : Z) : option Z :=
  if failed then None
  else if decide (hi <= lo) then None
  else if decide (Z.of_nat (length rows) <> hi - lo) then None
  else crc_loop rows true (repeat false (Z.to_nat (hi - lo))) 0 0 lo hi.

(** The closure [run] of [DamagedSlices] over [(damaged, lastCounted)]. *)
Definition dmg_run (s : Z) (acc : Z * Z) (a b : Z) : Z * Z :=
  let '(damaged, lastCounted) := acc in
  let lo := Z.quot a s in
  let hi := Z.quot (b - 1) s in
  let lo := if decide (lo <= lastCounted) then lastCounted + 1 else lo in
  (if decide (hi >= lo) then damaged + (hi - lo + 1) else damaged, Z.max lastCounted hi).

Fixpoint dmg_loop (rows : list WrittenRow) (f s frontier : Z) (acc : Z * Z) : Z * Z :=
  match rows with
  | [] => if decide (frontier < f) then dmg_run s acc frontier f else acc
  | r :: rows =>
      if decide (frontier >= f) then acc
      else if decide (r_len r <= 0) then dmg_loop rows f s frontier acc
      else
        let acc := if decide (r_off r > frontier) then dmg_run s acc frontier (Z.min (r_off r) f)
                   else acc in
        dmg_loop rows f s (Z.max frontier (Z.min (wraps 64 (r_off r + r_len r)) f)) acc
  end.

(** [DamagedSlices]; the sizes are [uint64]. *)
Definition DamagedSlices (rows : list WrittenRow) (fileSize sliceSize : Z) : Z :=
  if decide (sliceSize = 0 \/ fileSize = 0) then 0
  else
    let sliceSize := Z.min sliceSize fileSize in
    fst (dmg_loop rows (wraps 64 fileSize) (wraps 64 sliceSize) 0 (0, -1)).

(** ** Meaning *)

(** The last row recorded for an article. *)
Definition row_of (rows : list WrittenRow) (a : Z) : option WrittenRow :=
  last (base.filter (fun r => r_art r = a) rows).

(** [r] describes the bytes [c]. *)
Definition describes (r : WrittenRow) (c : list Z) : Prop :=
  Forall is_byte c /\ r_len r = Z.of_nat (length c) /\ r_crc r = ChecksumIEEE c.

(** The rows tile a file from [at_] on, with no gap and no overlap. *)
Fixpoint tiles (at_ : Z) (rows : list WrittenRow) : Prop :=
  match rows with
  | [] => True
  | r :: rows => r_off r = at_ /\ tiles (at_ + r_len r) rows
  end.

(** A row whose range does not overflow. *)
Definition row_ok (r : WrittenRow) : Prop := 0 <= r_off r /\ 0 <= r_len r /\ r_off r + r_len r <= MaxInt64.

(** No row wrote byte [b]. *)
Definition missing (rows : list WrittenRow) (b : Z) : Prop :=
  forall r, r ∈ rows -> ~ (r_off r <= b < r_off r + r_len r).

(** [acc] counts the slices of size [s] that hold a byte of [P], all of them
    below [fr]. *)
Record counts (s fr : Z) (P : Z -> Prop) (acc : Z * Z) : Prop := {
  ct_below : forall b, P b -> 0 <= b < fr;
  ct_set : exists H : gset Z, fst acc = Z.of_nat (size H) /\
             (forall k, k ∈ H <-> exists b, P b /\ b / s = k);
  ct_last : forall b, P b -> b / s <= snd acc;
  ct_hit : snd acc = -1 \/ exists b, P b /\ b / s = snd acc
}.

(** ** Lemmas *)
Definition index_ok (out : list WrittenRow) (at_ : gmap Z nat) : Prop :=
  forall a k, at_ !! a = Some k <-> exists r, out !! k = Some r /\ r_art r = a.

Lemma imap_pair_snoc (out : list WrittenRow) r :
  imap (fun k r => (k, r)) (out ++ [r]) = imap (fun k r => (k, r)) out ++ [(length out, r)].
Proof. rewrite imap_app. simpl. by rewrite Nat.add_0_r. Qed.

Lemma NoDup_arts_lookup out k1 k2 r1 r2 :
  NoDup (r_art <$> out) -> out !! k1 = Some r1 -> out !! k2 = Some r2 -> r_art r1 = r_art r2 -> k1 = k2.
Proof.
  intros Hnd H1 H2 He. eapply (NoDup_lookup (r_art <$> out)); [done| |];
    rewrite list_lookup_fmap, ?H1, ?H2; simpl; by rewrite ?He.
Qed.

Lemma at_index_ok out : NoDup (r_art <$> out) -> index_ok out (at_index out).
Proof.
  induction out as [|r out IH] using rev_ind; intros Hnd.
  { intros a k. unfold at_index. simpl. split; [by rewrite lookup_empty|by intros (? & ? & _)]. }
  rewrite fmap_app in Hnd. apply NoDup_app in Hnd as (Hnd & Hni & _).
  unfold at_index. rewrite imap_pair_snoc, foldl_app. simpl. intros a k.
  specialize (IH Hnd). fold (at_index out). destruct (decide (a = r_art r)) as [->|Hne].
  - rewrite lookup_insert_eq. split.
    + intros ?; simplify_eq. exists r. split; [by apply list_lookup_middle|done].
    + intros (r' & Hk & He). apply lookup_app_Some in Hk as [Hk|[Hge Hk]].
      * exfalso. apply (Hni (r_art r')); [|rewrite He; set_solver].
        apply list_elem_of_fmap. exists r'. split; [done|]. by eapply list_elem_of_lookup_2.
      * apply list_lookup_singleton_Some in Hk as [? _]. f_equal. lia.
  - rewrite lookup_insert_ne by done. rewrite (IH a k). split.
    + intros (r' & Hk & He). exists r'. split; [by apply lookup_app_l_Some|done].
    + intros (r' & Hk & He). apply lookup_app_Some in Hk as [Hk|[Hge Hk]]; [eauto|].
      apply list_lookup_singleton_Some in Hk as [_ <-]. congruence.
Qed.

Lemma upsert_step_ok out at_ r out' at_' :
  NoDup (r_art <$> out) -> index_ok out at_ -> upsert_step (out, at_) r = (out', at_') ->
  NoDup (r_art <$> out') /\ index_ok out' at_' /\
  (forall r', r' ∈ out' <-> r' = r \/ (r' ∈ out /\ r_art r' <> r_art r)).
Proof.
  intros Hnd Hi E. unfold upsert_step in E. destruct (at_ !! r_art r) as [k|] eqn:Ek; simplify_eq.
  - apply Hi in Ek as (r0 & Hk & He).
    assert (r_art <$> <[k := r]> out = r_art <$> out) as Hf.
    { rewrite list_fmap_insert. apply list_insert_id. rewrite list_lookup_fmap, Hk. simpl. by rewrite He. }
    split_and!; [by rewrite Hf| |].
    + intros a k'. rewrite (Hi a k'). pose proof (lookup_lt_Some _ _ _ Hk) as Hlt.
      destruct (decide (k' = k)) as [->|Hne].
      * rewrite list_lookup_insert_eq by done. split; intros (r' & ? & ?); simplify_eq; eauto.
      * by rewrite list_lookup_insert_ne.
    + intros r'. rewrite list_elem_of_lookup. setoid_rewrite list_elem_of_lookup. split.
      * intros (k' & Hk'). destruct (decide (k' = k)) as [->|Hne].
        { rewrite list_lookup_insert_eq in Hk' by (by eapply lookup_lt_Some). simplify_eq. by left. }
        rewrite list_lookup_insert_ne in Hk' by done. right. split; [eauto|].
        intros Ha. apply Hne. eapply NoDup_arts_lookup; [done..|]. congruence.
      * intros [->|[(k' & Hk') Ha]].
        { exists k. apply list_lookup_insert_eq. by eapply lookup_lt_Some. }
        exists k'. rewrite list_lookup_insert_ne; [done|]. intros ->. congruence.
  - assert (Hni : forall r0, r0 ∈ out -> r_art r0 <> r_art r).
    { intros r0 (k & Hk)%list_elem_of_lookup_1 He.
      assert (at_ !! r_art r = Some k) as H by (apply Hi; eauto). congruence. }
    split_and!.
    + rewrite fmap_app. apply NoDup_app. split_and!; [done| |apply NoDup_singleton].
      intros a (r0 & -> & Hin)%list_elem_of_fmap Ha%list_elem_of_singleton. by eapply Hni.
    + intros a k. destruct (decide (a = r_art r)) as [->|Hne].
      * rewrite lookup_insert_eq. split.
        { intros ?; simplify_eq. exists r. split; [by apply list_lookup_middle|done]. }
        intros (r' & Hk & He). apply lookup_app_Some in Hk as [Hk|[Hge Hk]].
        { exfalso. eapply Hni; [by eapply list_elem_of_lookup_2|done]. }
        apply list_lookup_singleton_Some in Hk as [? _]. f_equal. lia.
      * rewrite lookup_insert_ne by done. rewrite (Hi a k). split.
        { intros (r' & Hk & He). exists r'. split; [by apply lookup_app_l_Some|done]. }
        intros (r' & Hk & He). apply lookup_app_Some in Hk as [Hk|[Hge Hk]]; [eauto|].
        apply list_lookup_singleton_Some in Hk as [_ <-]. congruence.
    + intros r'. rewrite elem_of_app, list_elem_of_singleton. split; [|tauto].
      intros [?|?]; [right; split; [done|by apply Hni]|by left].
Qed.

(** The rows after folding a whole batch. *)
Lemma upsert_fold_ok rows out at_ out' at_' :
  NoDup (r_art <$> out) -> index_ok out at_ -> foldl upsert_step (out, at_) rows = (out', at_') ->
  NoDup (r_art <$> out') /\
  forall r', r' ∈ out' <->
    row_of rows (r_art r') = Some r' \/ (r' ∈ out /\ row_of rows (r_art r') = None).
Proof.
  revert out at_ out' at_'. induction rows as [|r rows IH] using rev_ind; intros out at_ out' at_' Hnd Hi E.
  { simpl in E. simplify_eq. split; [done|]. intros r'. unfold row_of; simpl. naive_solver. }
  rewrite foldl_app in E. simpl in E. destruct (foldl upsert_step (out, at_) rows) as [o1 a1] eqn:E1.
  assert (index_ok o1 a1) as Hi1.
  { clear -Hnd Hi E1. revert out at_ Hnd Hi E1. induction rows as [|x rows IHr]; intros out at_ Hnd Hi E1;
      [simpl in E1; by simplify_eq|].
    cbn [foldl] in E1. destruct (upsert_step (out, at_) x) as [o2 a2] eqn:E2.
    destruct (upsert_step_ok _ _ _ _ _ Hnd Hi E2) as (? & ? & _). eauto. }
  destruct (IH out at_ o1 a1 Hnd Hi E1) as [Hnd1 Hin1].
  destruct (upsert_step_ok _ _ _ _ _ Hnd1 Hi1 E) as (Hnd2 & _ & Hin2). split; [done|].
  intros r'. rewrite Hin2, Hin1. unfold row_of. rewrite filter_app, filter_cons, filter_nil.
  case_decide as Ha.
  - rewrite last_snoc. naive_solver.
  - rewrite app_nil_r. naive_solver.
Qed.

Lemma crc_loop_Some rows first seen crc end_ lo hi :
  Forall row_ok rows -> (Z.of_nat (length seen) = hi - lo \/ rows = []) ->
  crc_loop rows first seen crc end_ lo hi <> None <->
  Forall (fun r => lo <= r_art r < hi) rows /\ NoDup (r_art <$> rows) /\
  Forall (fun r => nth (Z.to_nat (r_art r - lo)) seen false = false) rows /\ tiles end_ rows.
Proof.
  revert first seen crc end_. induction rows as [|r rows IH]; intros first seen crc end_ Hok Hl.
  { simpl. split; [|done]. intros _. repeat split; constructor. }
  apply Forall_cons in Hok as [Hr Hok]. destruct Hl as [Hl|?]; [|done]. cbn [crc_loop]. cbv zeta.
  rewrite fmap_cons, NoDup_cons, !Forall_cons. cbn [tiles].
  case_decide as Hrange; [split; [done|intros ((? & _) & _); lia]|].
  destruct (nth _ seen false) eqn:Es; [split; [done|naive_solver]|].
  case_decide as Hoff; [split; [done|naive_solver]|]. apply dec_stable in Hoff || (assert (r_off r = end_) by lia).
  rewrite IH by (rewrite ?length_insert; auto).
  assert (wraps 64 (r_off r + r_len r) = end_ + r_len r) as ->.
  { destruct Hr as (? & ? & ?). rewrite wraps64_id; [lia|]. unfold in_i64, MinInt64. lia. }
  assert (Hseen : forall x, lo <= r_art x < hi ->
    nth (Z.to_nat (r_art x - lo)) (<[Z.to_nat (r_art r - lo) := true]> seen) false = false <->
    r_art x <> r_art r /\ nth (Z.to_nat (r_art x - lo)) seen false = false).
  { intros x Hx. rewrite !nth_lookup. destruct (decide (r_art x = r_art r)) as [->|Hne].
    - rewrite list_lookup_insert_eq by lia. simpl. naive_solver.
    - rewrite list_lookup_insert_ne by lia. naive_solver. }
  rewrite !Forall_forall, list_elem_of_fmap. split.
  - intros (H1 & H2 & H3 & H4). split_and!; try done; try lia.
    + intros (x & He & Hx). apply (Hseen x (H1 x Hx)) in H3; [|done]. naive_solver.
    + intros x Hx. by apply (Hseen x (H1 x Hx)), H3.
  - intros ((_ & H1) & (Hni & H2) & (_ & H3) & _ & H4). split_and!; try done.
    intros x Hx. apply Hseen; [by apply H1|]. split; [|by apply H3]. intros He. apply Hni. eauto.
Qed.

Lemma crc_loop_value rows chunks (first : bool) seen crc end_ lo hi c pre :
  Forall2 describes rows chunks ->
  Forall (fun r => r_len r < 2 ^ 63) rows ->
  Forall is_byte pre -> (if first then pre = [] else crc = ChecksumIEEE pre) ->
  (first = true -> rows <> []) ->
  crc_loop rows first seen crc end_ lo hi = Some c -> c = ChecksumIEEE (pre ++ concat chunks).
Proof.
  intros Hd. revert first seen crc end_ pre. induction Hd as [|r ch rows chunks [Hb [Hl Hc]] _ IH];
    intros first seen crc end_ pre Hlen Hpre Hcrc Hne E.
  { simpl in E. destruct first; [by destruct Hne|]. simplify_eq. simpl. by rewrite app_nil_r. }
  apply Forall_cons in Hlen as [Hlr Hlen]. cbn [crc_loop] in E. cbv zeta in E.
  case_decide; [done|]. destruct (nth _ seen false); [done|]. case_decide; [done|].
  simpl. rewrite app_assoc. apply (IH false _ _ _ (pre ++ ch) Hlen) in E; [done| | |done].
  - by apply Forall_app.
  - destruct first.
    + subst pre. done.
    + subst crc. rewrite Hc, Hl. apply Combine_concat; [done|lia].
Qed.

(** ** [DamagedSlices] *)
Lemma div_range s a b k : 0 < s -> a < b ->
  (exists x, a <= x < b /\ x / s = k) <-> a / s <= k <= (b - 1) / s.
Proof.
  intros Hs Hab. split.
  - intros (x & Hx & <-). split; apply Z.div_le_mono; lia.
  - intros [H1 H2]. exists (Z.max a (k * s)).
    assert (k * s <= b - 1) as Hk.
    { transitivity ((b - 1) / s * s); [nia|]. pose proof (Z.mul_div_le (b - 1) s Hs). lia. }
    split; [lia|]. destruct (decide (k * s <= a)).
    + rewrite Z.max_l by lia. apply Z.le_antisymm; [done|].
      apply Z.div_le_lower_bound; lia.
    + rewrite Z.max_r by lia. apply Z.div_mul. lia.
Qed.

Lemma counts_ext s fr fr' P P' acc :
  counts s fr P acc -> fr <= fr' -> (forall b, P b <-> P' b) -> counts s fr' P' acc.
Proof.
  intros [C1 (H & C2 & C3) C4 C5] Hle He. split.
  - intros b Hb%He%C1. lia.
  - exists H. split; [done|]. intros k. rewrite C3. by setoid_rewrite He.
  - intros b Hb%He. auto.
  - destruct C5 as [?|(b & Hb & ?)]; [by left|right]. exists b. by rewrite <- He.
Qed.

(** One run of uncovered bytes. *)
Lemma counts_run s P acc a b :
  0 < s -> 0 <= a < b -> counts s a P acc ->
  counts s b (fun x => P x \/ a <= x < b) (dmg_run s acc a b).
Proof.
  intros Hs Hab [C1 (H & C2 & C3) C4 C5]. destruct acc as [d last]; simpl in *.
  rewrite !Z.quot_div_nonneg by lia.
  assert (last <= a / s) as Hla.
  { destruct C5 as [->|(x & Hx & <-)]; [pose proof (Z.div_pos a s); lia|].
    apply Z.div_le_mono; [done|]. specialize (C1 x Hx). lia. }
  assert (a / s <= (b - 1) / s) as Hle by (apply Z.div_le_mono; lia).
  set (lo := if decide (a / s <= last) then last + 1 else a / s).
  assert (Hlo : forall k, lo <= k <-> a / s <= k /\ last < k).
  { intros k. unfold lo. case_decide; lia. }
  assert (Hin : forall k, k ∈ H -> k <= last) by (intros k (x & Hx & <-)%C3; auto).
  split.
  - intros x [?%C1|?]; lia.
  - exists (H ∪ list_to_set (seqZ lo ((b - 1) / s - lo + 1))). simpl. split.
    + rewrite size_union, size_list_to_set by
        (first [apply NoDup_seqZ | intros k Hk%Hin Hk2%elem_of_list_to_set%elem_of_seqZ; specialize (Hlo k); lia]).
      rewrite length_seqZ. case_decide; lia.
    + intros k. rewrite elem_of_union, elem_of_list_to_set, elem_of_seqZ, C3.
      split.
      * intros [(x & ? & ?)|Hk]; [exists x; auto|].
        destruct (proj2 (div_range s a b k Hs ltac:(lia))) as (x & ? & ?);
          [specialize (Hlo k); lia|]. exists x; auto.
      * intros (x & [Hx|Hx] & Hk); [left; eauto|].
        destruct (decide (k ∈ H)) as [Hkh|Hkh]; [left; by apply C3|]. right.
        assert (a / s <= k <= (b - 1) / s) as Hr by (apply div_range; [done|lia|eauto]).
        assert (last < k) as Hlk.
        { destruct (decide (last < k)) as [|Hge]; [done|]. exfalso.
          assert (k = last) as -> by lia. destruct C5 as [->|Hl]; [|apply Hkh, C3; exact Hl].
          pose proof (Z.div_pos a s). lia. }
        specialize (Hlo k). lia.
  - simpl. intros x [Hx|Hx]; [specialize (C4 x Hx); lia|].
    assert (x / s <= (b - 1) / s) by (apply Z.div_le_mono; lia). lia.
  - simpl. right. exists (b - 1). split; [right; lia|]. lia.
Qed.

(** The loop, over rows sorted by offset. *)
Lemma dmg_loop_counts rows f s fr P acc :
  0 < s -> 0 <= fr <= f -> Forall row_ok rows -> StronglySorted (fun a b => r_off a <= r_off b) rows ->
  counts s fr P acc ->
  counts s f (fun b => P b \/ (fr <= b < f /\ missing rows b)) (dmg_loop rows f s fr acc).
Proof.
  intros Hs. revert fr P acc. induction rows as [|r rows IH]; intros fr P acc Hfr Hok Hso Hc; cbn [dmg_loop].
  - case_decide as Hd.
    + eapply counts_ext; [apply counts_run; [done|lia|done]|done|]. intros b. unfold missing. set_solver.
    + eapply counts_ext; [done|lia|]. intros b. split; [tauto|]. intros [?|[? _]]; [done|lia].
  - case_decide as Hf.
    { eapply counts_ext; [done|lia|]. intros b. split; [tauto|]. intros [?|[? _]]; [done|lia]. }
    apply Forall_cons in Hok as [Hr Hok]. apply StronglySorted_cons in Hso as [Hlt Hso].
    rewrite Forall_forall in Hlt.
    case_decide as Hz.
    { eapply counts_ext; [by apply IH|done|]. intros b. unfold missing.
      setoid_rewrite elem_of_cons. split; [|naive_solver].
      intros [?|[? Hm]]; [by left|right]. split; [done|]. intros r' [->|?]; [lia|auto]. }
    destruct Hr as (Ho & Hl & Hm). rewrite wraps64_id by (unfold in_i64, MinInt64; lia). cbv zeta.
    set (acc' := if decide (r_off r > fr) then dmg_run s acc fr (Z.min (r_off r) f) else acc).
    assert (counts s (Z.max fr (Z.min (r_off r) f))
      (fun b => P b \/ fr <= b < Z.min (r_off r) f) acc') as Hc'.
    { unfold acc'. case_decide as Hg.
      - eapply counts_ext; [apply counts_run; [done|lia|done]|lia|done].
      - eapply counts_ext; [done|lia|]. intros b. split; [tauto|]. intros [?|?]; [done|lia]. }
    eapply counts_ext; [apply IH; [lia|done|done|eapply counts_ext; [exact Hc'|lia|done]]|lia|].
    intros b. unfold missing. setoid_rewrite elem_of_cons. simpl. split.
    + intros [[?|?]|[? Hmi]]; [by left| |].
      * right. split; [lia|]. intros r' [->|Hin]; [lia|]. specialize (Hlt _ Hin). lia.
      * right. split; [lia|]. intros r' [->|Hin]; [lia|auto].
    + intros [?|[? Hmi]]; [tauto|]. specialize (Hmi r (or_introl eq_refl)) as Hmr.
      destruct (decide (b < r_off r)); [left; right; lia|]. right. split; [lia|]. auto.
Qed.

(** ** Properties *)

(** [upsertRows] is a keyed update.  Over rows with at most one row per
    article it keeps that, holds the last row of the batch for every article the
    batch names, and the old row for every other article. *)
Theorem upsertRows_spec out rows :
  NoDup (r_art <$> out) ->
  NoDup (r_art <$> upsertRows out rows) /\
  forall r, r ∈ upsertRows out rows <->
    row_of rows (r_art r) = Some r \/ (r ∈ out /\ row_of rows (r_art r) = None).
Proof.
  intros Hnd. unfold upsertRows. case_decide as He.
  - subst rows. split; [done|]. intros r. unfold row_of; simpl. naive_solver.
  - destruct (foldl upsert_step (out, at_index out) rows) as [out' at_'] eqn:E. simpl.
    by eapply upsert_fold_ok; [|apply at_index_ok|].
Qed.

(** a file's settled checksum.  [fileCRCFromRows] answers exactly when
    nothing failed and the rows are one per article of the file and tile it
    from offset 0 with no gap and no overlap; and when every row describes the
    bytes its article wrote, the answer is the CRC-32 of the whole file. *)
Theorem fileCRC_spec rows failed lo hi :
  Forall row_ok rows ->
  (fileCRCFromRows rows failed lo hi <> None <->
     failed = false /\ lo < hi /\ Z.of_nat (length rows) = hi - lo /\
     Forall (fun r => lo <= r_art r < hi) rows /\ NoDup (r_art <$> rows) /\ tiles 0 rows) /\
  (forall c chunks, fileCRCFromRows rows failed lo hi = Some c -> Forall2 describes rows chunks ->
     c = ChecksumIEEE (concat chunks)).
Proof.
  intros Hok. unfold fileCRCFromRows. destruct failed; [split; [naive_solver|done]|].
  case_decide as Hlo; [split; [naive_solver lia|done]|].
  case_decide as Hn; [split; [naive_solver|done]|]. assert (Z.of_nat (length rows) = hi - lo) as Hlen by lia.
  split.
  - rewrite crc_loop_Some; [|done|left; rewrite repeat_length; lia].
    assert (Forall (fun r => nth (Z.to_nat (r_art r - lo)) (repeat false (Z.to_nat (hi - lo))) false = false) rows) as Hs.
    { apply Forall_true. intros r. apply nth_repeat. }
    split; [naive_solver lia|naive_solver].
  - intros c chunks E Hd. apply (crc_loop_value rows chunks true (repeat false (Z.to_nat (hi - lo))) 0 0 lo hi c []); try done.
    + eapply Forall_impl; [exact Hok|]. intros r (? & ? & ?). unfold MaxInt64 in *. lia.
    + intros _ ->. simpl in Hlen. lia.
Qed.

(** [DamagedSlices] counts the repair blocks a file needs.  Over rows
    sorted by offset, for a file of [f] bytes in slices of [s], it is the number
    of slices holding a byte below [f] that no row wrote, each slice once
    however many holes it has. *)
Theorem DamagedSlices_spec rows f s :
  Forall row_ok rows -> StronglySorted (fun a b => r_off a <= r_off b) rows ->
  0 < f <= MaxInt64 -> 0 < s < 2 ^ 64 ->
  exists H : gset Z, DamagedSlices rows f s = Z.of_nat (size H) /\
    forall k, k ∈ H <-> exists b, 0 <= b < f /\ missing rows b /\ b / Z.min s f = k.
Proof.
  intros Hok Hso Hf Hs. unfold DamagedSlices. rewrite decide_False by lia. cbv zeta.
  rewrite !wraps64_id by (unfold in_i64, MinInt64; lia).
  destruct (dmg_loop_counts rows f (Z.min s f) 0 (fun _ => False) (0, -1)) as [_ (H & E & Hk) _ _];
    [lia|lia|done|done| |].
  - split; [done| |done|by left]. exists ∅. split; [done|]. set_solver.
  - exists H. split; [done|]. intros k. rewrite Hk. naive_solver.
Qed.

(** ** Witnesses *)
Definition ex_rows : list WrittenRow :=
  [mkRow 0 4 0 2 (ChecksumIEEE [1; 2]); mkRow 0 3 2 3 (ChecksumIEEE [3; 4; 5])].

Lemma upsertRows_spec_witness :
  upsertRows ex_rows [mkRow 0 3 7 7 7; mkRow 0 9 1 1 1] =
    [mkRow 0 4 0 2 (ChecksumIEEE [1; 2]); mkRow 0 3 7 7 7; mkRow 0 9 1 1 1] /\
  NoDup (r_art <$> upsertRows ex_rows [mkRow 0 3 7 7 7; mkRow 0 9 1 1 1]).
Proof.
  split; [vm_compute; reflexivity|]. apply (upsertRows_spec ex_rows).
  apply (bool_decide_unpack _). vm_compute. exact I.
Defined.

Lemma fileCRC_spec_witness :
  fileCRCFromRows ex_rows false 3 5 = Some (ChecksumIEEE [1; 2; 3; 4; 5]) /\
  forall c, fileCRCFromRows ex_rows false 3 5 = Some c -> c = ChecksumIEEE [1; 2; 3; 4; 5].
Proof.
  split; [vm_compute; reflexivity|]. intros c Hc.
  apply (fileCRC_spec ex_rows false 3 5) with (chunks := [[1; 2]; [3; 4; 5]]).
  - repeat constructor; vm_compute; congruence.
  - exact Hc.
  - repeat constructor; vm_compute; congruence.
Defined.

Lemma DamagedSlices_spec_witness :
  DamagedSlices [mkRow 0 0 0 4 0; mkRow 0 1 5 5 0] 20 4 = 4 /\
  exists H : gset Z, DamagedSlices [mkRow 0 0 0 4 0; mkRow 0 1 5 5 0] 20 4 = Z.of_nat (size H).
Proof.
  split; [vm_compute; reflexivity|].
  destruct (DamagedSlices_spec [mkRow 0 0 0 4 0; mkRow 0 1 5 5 0] 20 4) as (H & E & _).
  - repeat constructor; vm_compute; congruence.
  - repeat constructor; vm_compute; congruence.
  - vm_compute; split; congruence.
  - vm_compute; split; congruence.
  - exists H. exact E.
Defined.
