(* ===== verification/Progress.v ===== *)
(** * Download progress ([internal/job/progress.go], with the row
    operations of verified.go and the policy door of content.go)

    One record per job: three bits per article, one record per file, and
    counters cached from them.  [consistent] says the caches equal what
    [recompute] derives from the bits; every operation here keeps it. *)
From S2P Require Import Prelude Bitset FileTable Rows.
From stdpp Require Import base gmap list strings.
From Stdlib Require Import ZArith Lia.
Local Open Scope Z_scope.

Inductive FetchPolicy : Type := FetchAlways | FetchIfNeeded | FetchNever | FetchUndeclared (n : Z).

#[export] Instance FetchPolicy_eq_dec : EqDecision FetchPolicy.
Proof. solve_decision. Defined.

Record FileProgress : Type := mkFP {
  f_Complete : bool;
  f_Fetch : FetchPolicy;
  f_Pending : Z;
  f_Bytes : Z;
  f_BytesDownloaded : Z;
  f_Verified : bool;
  f_Recorded : Z;
  f_FailedBytes : Z;
  f_IsPar2 : bool;
  f_Filename : string;
  f_AssembledCRC32 : Z;
  f_fetchChanged : bool
}.

Definition zeroFile : FileProgress :=
  mkFP false FetchAlways 0 0 0 false 0 0 false "" 0 false.

Definition set_f_Complete (r : FileProgress) (x : bool) : FileProgress :=
  mkFP x (f_Fetch r) (f_Pending r) (f_Bytes r) (f_BytesDownloaded r) (f_Verified r) (f_Recorded r)
    (f_FailedBytes r) (f_IsPar2 r) (f_Filename r) (f_AssembledCRC32 r) (f_fetchChanged r).
Definition set_f_Fetch (r : FileProgress) (x : FetchPolicy) : FileProgress :=
  mkFP (f_Complete r) x (f_Pending r) (f_Bytes r) (f_BytesDownloaded r) (f_Verified r)
    (f_Recorded r) (f_FailedBytes r) (f_IsPar2 r) (f_Filename r) (f_AssembledCRC32 r)
    (f_fetchChanged r).
Definition set_f_Pending (r : FileProgress) (x : Z) : FileProgress :=
  mkFP (f_Complete r) (f_Fetch r) x (f_Bytes r) (f_BytesDownloaded r) (f_Verified r)
    (f_Recorded r) (f_FailedBytes r) (f_IsPar2 r) (f_Filename r) (f_AssembledCRC32 r)
    (f_fetchChanged r).
Definition set_f_Bytes (r : FileProgress) (x : Z) : FileProgress :=
  mkFP (f_Complete r) (f_Fetch r) (f_Pending r) x (f_BytesDownloaded r) (f_Verified r)
    (f_Recorded r) (f_FailedBytes r) (f_IsPar2 r) (f_Filename r) (f_AssembledCRC32 r)
    (f_fetchChanged r).
Definition set_f_BytesDownloaded (r : FileProgress) (x : Z) : FileProgress :=
  mkFP (f_Complete r) (f_Fetch r) (f_Pending r) (f_Bytes r) x (f_Verified r) (f_Recorded r)
    (f_FailedBytes r) (f_IsPar2 r) (f_Filename r) (f_AssembledCRC32 r) (f_fetchChanged r).
Definition set_f_Verified (r : FileProgress) (x : bool) : FileProgress :=
  mkFP (f_Complete r) (f_Fetch r) (f_Pending r) (f_Bytes r) (f_BytesDownloaded r) x (f_Recorded r)
    (f_FailedBytes r) (f_IsPar2 r) (f_Filename r) (f_AssembledCRC32 r) (f_fetchChanged r).
Definition set_f_Recorded (r : FileProgress) (x : Z) : FileProgress :=
  mkFP (f_Complete r) (f_Fetch r) (f_Pending r) (f_Bytes r) (f_BytesDownloaded r) (f_Verified r) x
    (f_FailedBytes r) (f_IsPar2 r) (f_Filename r) (f_AssembledCRC32 r) (f_fetchChanged r).
Definition set_f_FailedBytes (r : FileProgress) (x : Z) : FileProgress :=
  mkFP (f_Complete r) (f_Fetch r) (f_Pending r) (f_Bytes r) (f_BytesDownloaded r) (f_Verified r)
    (f_Recorded r) x (f_IsPar2 r) (f_Filename r) (f_AssembledCRC32 r) (f_fetchChanged r).
Definition set_f_Filename (r : FileProgress) (x : string) : FileProgress :=
  mkFP (f_Complete r) (f_Fetch r) (f_Pending r) (f_Bytes r) (f_BytesDownloaded r) (f_Verified r)
    (f_Recorded r) (f_FailedBytes r) (f_IsPar2 r) x (f_AssembledCRC32 r) (f_fetchChanged r).
Definition set_f_AssembledCRC32 (r : FileProgress) (x : Z) : FileProgress :=
  mkFP (f_Complete r) (f_Fetch r) (f_Pending r) (f_Bytes r) (f_BytesDownloaded r) (f_Verified r)
    (f_Recorded r) (f_FailedBytes r) (f_IsPar2 r) (f_Filename r) x (f_fetchChanged r).
Definition set_f_fetchChanged (r : FileProgress) (x : bool) : FileProgress :=
  mkFP (f_Complete r) (f_Fetch r) (f_Pending r) (f_Bytes r) (f_BytesDownloaded r) (f_Verified r)
    (f_Recorded r) (f_FailedBytes r) (f_IsPar2 r) (f_Filename r) (f_AssembledCRC32 r) x.

(** Times are nanoseconds since the zero [time.Time]; absent maps are empty. *)
Record JobProgress : Type := mkJP {
  p_done : bitset;
  p_failed : bitset;
  p_emitted : bitset;
  p_files : list FileProgress;
  p_fileStarts : list nat;
  p_fetchChanges : Z;
  p_failCharge : gmap nat Z;
  p_written : gmap nat (list WrittenRow);
  p_pendingArticles : Z;
  p_articlesResolved : Z;
  p_articlesFailed : Z;
  p_earlyAborted : bool;
  p_failedBytes : Z;
  p_serverStats : gmap string Z;
  p_downloadStarted : Z;
  p_downloadFinished : Z;
  p_par2ReleaseReason : string
}.

Definition set_p_done (r : JobProgress) (x : bitset) : JobProgress :=
  mkJP x (p_failed r) (p_emitted r) (p_files r) (p_fileStarts r) (p_fetchChanges r)
    (p_failCharge r) (p_written r) (p_pendingArticles r) (p_articlesResolved r)
    (p_articlesFailed r) (p_earlyAborted r) (p_failedBytes r) (p_serverStats r)
    (p_downloadStarted r) (p_downloadFinished r) (p_par2ReleaseReason r).
Definition set_p_failed (r : JobProgress) (x : bitset) : JobProgress :=
  mkJP (p_done r) x (p_emitted r) (p_files r) (p_fileStarts r) (p_fetchChanges r) (p_failCharge r)
    (p_written r) (p_pendingArticles r) (p_articlesResolved r) (p_articlesFailed r)
    (p_earlyAborted r) (p_failedBytes r) (p_serverStats r) (p_downloadStarted r)
    (p_downloadFinished r) (p_par2ReleaseReason r).
Definition set_p_emitted (r : JobProgress) (x : bitset) : JobProgress :=
  mkJP (p_done r) (p_failed r) x (p_files r) (p_fileStarts r) (p_fetchChanges r) (p_failCharge r)
    (p_written r) (p_pendingArticles r) (p_articlesResolved r) (p_articlesFailed r)
    (p_earlyAborted r) (p_failedBytes r) (p_serverStats r) (p_downloadStarted r)
    (p_downloadFinished r) (p_par2ReleaseReason r).
Definition set_p_files (r : JobProgress) (x : list FileProgress) : JobProgress :=
  mkJP (p_done r) (p_failed r) (p_emitted r) x (p_fileStarts r) (p_fetchChanges r)
    (p_failCharge r) (p_written r) (p_pendingArticles r) (p_articlesResolved r)
    (p_articlesFailed r) (p_earlyAborted r) (p_failedBytes r) (p_serverStats r)
    (p_downloadStarted r) (p_downloadFinished r) (p_par2ReleaseReason r).
Definition set_p_fetchChanges (r : JobProgress) (x : Z) : JobProgress :=
  mkJP (p_done r) (p_failed r) (p_emitted r) (p_files r) (p_fileStarts r) x (p_failCharge r)
    (p_written r) (p_pendingArticles r) (p_articlesResolved r) (p_articlesFailed r)
    (p_earlyAborted r) (p_failedBytes r) (p_serverStats r) (p_downloadStarted r)
    (p_downloadFinished r) (p_par2ReleaseReason r).
Definition set_p_failCharge (r : JobProgress) (x : gmap nat Z) : JobProgress :=
  mkJP (p_done r) (p_failed r) (p_emitted r) (p_files r) (p_fileStarts r) (p_fetchChanges r) x
    (p_written r) (p_pendingArticles r) (p_articlesResolved r) (p_articlesFailed r)
    (p_earlyAborted r) (p_failedBytes r) (p_serverStats r) (p_downloadStarted r)
    (p_downloadFinished r) (p_par2ReleaseReason r).
Definition set_p_written (r : JobProgress) (x : gmap nat (list WrittenRow)) : JobProgress :=
  mkJP (p_done r) (p_failed r) (p_emitted r) (p_files r) (p_fileStarts r) (p_fetchChanges r)
    (p_failCharge r) x (p_pendingArticles r) (p_articlesResolved r) (p_articlesFailed r)
    (p_earlyAborted r) (p_failedBytes r) (p_serverStats r) (p_downloadStarted r)
    (p_downloadFinished r) (p_par2ReleaseReason r).
Definition set_p_pendingArticles (r : JobProgress) (x : Z) : JobProgress :=
  mkJP (p_done r) (p_failed r) (p_emitted r) (p_files r) (p_fileStarts r) (p_fetchChanges r)
    (p_failCharge r) (p_written r) x (p_articlesResolved r) (p_articlesFailed r)
    (p_earlyAborted r) (p_failedBytes r) (p_serverStats r) (p_downloadStarted r)
    (p_downloadFinished r) (p_par2ReleaseReason r).
Definition set_p_articlesResolved (r : JobProgress) (x : Z) : JobProgress :=
  mkJP (p_done r) (p_failed r) (p_emitted r) (p_files r) (p_fileStarts r) (p_fetchChanges r)
    (p_failCharge r) (p_written r) (p_pendingArticles r) x (p_articlesFailed r) (p_earlyAborted r)
    (p_failedBytes r) (p_serverStats r) (p_downloadStarted r) (p_downloadFinished r)
    (p_par2ReleaseReason r).
Definition set_p_articlesFailed (r : JobProgress) (x : Z) : JobProgress :=
  mkJP (p_done r) (p_failed r) (p_emitted r) (p_files r) (p_fileStarts r) (p_fetchChanges r)
    (p_failCharge r) (p_written r) (p_pendingArticles r) (p_articlesResolved r) x
    (p_earlyAborted r) (p_failedBytes r) (p_serverStats r) (p_downloadStarted r)
    (p_downloadFinished r) (p_par2ReleaseReason r).
Definition set_p_earlyAborted (r : JobProgress) (x : bool) : JobProgress :=
  mkJP (p_done r) (p_failed r) (p_emitted r) (p_files r) (p_fileStarts r) (p_fetchChanges r)
    (p_failCharge r) (p_written r) (p_pendingArticles r) (p_articlesResolved r)
    (p_articlesFailed r) x (p_failedBytes r) (p_serverStats r) (p_downloadStarted r)
    (p_downloadFinished r) (p_par2ReleaseReason r).
Definition set_p_failedBytes (r : JobProgress) (x : Z) : JobProgress :=
  mkJP (p_done r) (p_failed r) (p_emitted r) (p_files r) (p_fileStarts r) (p_fetchChanges r)
    (p_failCharge r) (p_written r) (p_pendingArticles r) (p_articlesResolved r)
    (p_articlesFailed r) (p_earlyAborted r) x (p_serverStats r) (p_downloadStarted r)
    (p_downloadFinished r) (p_par2ReleaseReason r).
Definition set_p_serverStats (r : JobProgress) (x : gmap string Z) : JobProgress :=
  mkJP (p_done r) (p_failed r) (p_emitted r) (p_files r) (p_fileStarts r) (p_fetchChanges r)
    (p_failCharge r) (p_written r) (p_pendingArticles r) (p_articlesResolved r)
    (p_articlesFailed r) (p_earlyAborted r) (p_failedBytes r) x (p_downloadStarted r)
    (p_downloadFinished r) (p_par2ReleaseReason r).
Definition set_p_downloadStarted (r : JobProgress) (x : Z) : JobProgress :=
  mkJP (p_done r) (p_failed r) (p_emitted r) (p_files r) (p_fileStarts r) (p_fetchChanges r)
    (p_failCharge r) (p_written r) (p_pendingArticles r) (p_articlesResolved r)
    (p_articlesFailed r) (p_earlyAborted r) (p_failedBytes r) (p_serverStats r) x
    (p_downloadFinished r) (p_par2ReleaseReason r).
Definition set_p_downloadFinished (r : JobProgress) (x : Z) : JobProgress :=
  mkJP (p_done r) (p_failed r) (p_emitted r) (p_files r) (p_fileStarts r) (p_fetchChanges r)
    (p_failCharge r) (p_written r) (p_pendingArticles r) (p_articlesResolved r)
    (p_articlesFailed r) (p_earlyAborted r) (p_failedBytes r) (p_serverStats r)
    (p_downloadStarted r) x (p_par2ReleaseReason r).
Definition set_p_par2ReleaseReason (r : JobProgress) (x : string) : JobProgress :=
  mkJP (p_done r) (p_failed r) (p_emitted r) (p_files r) (p_fileStarts r) (p_fetchChanges r)
    (p_failCharge r) (p_written r) (p_pendingArticles r) (p_articlesResolved r)
    (p_articlesFailed r) (p_earlyAborted r) (p_failedBytes r) (p_serverStats r)
    (p_downloadStarted r) (p_downloadFinished r) x.

(** Reading and updating [p.files[fi]]. *)
Definition file_of (p : JobProgress) (fi : nat) : FileProgress := default zeroFile (p_files p !! fi).
Definition upd_file (p : JobProgress) (fi : nat) (g : FileProgress -> FileProgress) : JobProgress :=
  set_p_files p (alter g fi (p_files p)).

(** ** Construction *)
Record FileMeta : Type := mkMeta { fm_articles : nat; fm_bytes : Z; fm_isPar2 : bool }.

Definition fileMetaFromTable (ft : FileTable) : list FileMeta :=
  (fun fi => mkMeta (ArticleCount ft fi) (Bytes ft fi) (isPar2File (Subject ft fi))) <$> seq 0 (NumFiles ft).

Definition newJobProgressSized (files : list FileMeta) : JobProgress :=
  let total := sum_list (fm_articles <$> files) in
  mkJP (newBitset (Z.of_nat total)) (newBitset (Z.of_nat total)) (newBitset (Z.of_nat total))
    ((fun f => mkFP false FetchAlways (Z.of_nat (fm_articles f)) (fm_bytes f) 0 false 0 0
                 (fm_isPar2 f) "" 0 false) <$> files)
    (offsets_from 0 (fm_articles <$> files)) 0 ∅ ∅ (Z.of_nat total) 0 0 false 0 ∅ 0 0 "".

Definition fileRange (p : JobProgress) (fi : nat) : nat * nat :=
  (nth fi (p_fileStarts p) 0%nat, nth (S fi) (p_fileStarts p) 0%nat).

Definition countsPending (p : JobProgress) (fi : nat) : bool :=
  bool_decide (f_Fetch (file_of p fi) = FetchAlways).

(** The article [i] is neither done nor handed out. *)
Definition unstarted (p : JobProgress) (i : nat) : bool :=
  negb (Get (p_done p) i) && negb (Get (p_emitted p) i).

(** The count over [lo, hi) of the articles satisfying [f]. *)
Definition count_in (f : nat -> bool) (lo hi : nat) : Z :=
  sum_range (fun i => if f i then 1 else 0) lo (hi - lo).

Definition pendingOf (p : JobProgress) (fi : nat) : Z :=
  if negb (countsPending p fi) then 0
  else let '(lo, hi) := fileRange p fi in count_in (unstarted p) lo hi.

Definition setPending (p : JobProgress) (fi : nat) (n : Z) : JobProgress :=
  upd_file (set_p_pendingArticles p (p_pendingArticles p + (n - f_Pending (file_of p fi)))) fi
    (fun f => set_f_Pending f n).

Definition movePending (p : JobProgress) (fi : nat) (delta : Z) : JobProgress :=
  if negb (countsPending p fi) then p
  else
    let p := upd_file p fi (fun f => set_f_Pending f (f_Pending f + delta)) in
    set_p_pendingArticles p (p_pendingArticles p + delta).

(** [setFileFetchPolicy]. *)
Definition setFileFetchPolicy (p : JobProgress) (fi : nat) (policy : FetchPolicy) : JobProgress :=
  if decide (f_Fetch (file_of p fi) = policy) then p
  else
    let p := upd_file p fi (fun f => set_f_Fetch f policy) in
    let p := setPending p fi (pendingOf p fi) in
    if f_fetchChanged (file_of p fi) then p
    else set_p_fetchChanges (upd_file p fi (fun f => set_f_fetchChanged f true)) (p_fetchChanges p + 1).

Record FileSeed : Type := mkSeed {
  fse_Recorded : Z; fse_Complete : bool; fse_Filename : string; fse_Fetch : FetchPolicy }.

(** [newJobProgress]; [None] is a nil seed. *)
Definition seed_file (p : JobProgress) (fi : nat) (s : FileSeed) : JobProgress :=
  setFileFetchPolicy
    (upd_file p fi (fun f =>
       set_f_Filename (set_f_Complete (set_f_Recorded (set_f_Verified f false) (fse_Recorded s))
         (fse_Complete s)) (fse_Filename s)))
    fi (fse_Fetch s).

Definition newJobProgress (ft : FileTable) (seed : option (list FileSeed)) : JobProgress :=
  let p := newJobProgressSized (fileMetaFromTable ft) in
  match seed with
  | None => foldl (fun p fi => upd_file p fi (fun f => set_f_Verified f true)) p (seq 0 (NumFiles ft))
  | Some ss => foldl (fun p fs => seed_file p (fst fs) (snd fs)) p (imap pair ss)
  end.

(** ** Charges *)
Definition chargeOf (p : JobProgress) (m : Manifest) (i : nat) : Z :=
  match p_failCharge p !! i with
  | Some c => Z.min c (ArticleBytes m i)
  | None => ArticleBytes m i
  end.

Definition WholeArticle : Z := -1.

Definition limitCharge (p : JobProgress) (i : nat) (uncovered : Z) : JobProgress :=
  if decide (uncovered = WholeArticle) then p
  else set_p_failCharge p (<[i := uncovered]> (p_failCharge p)).

(** ** [recompute] *)
Definition failed_done (p : JobProgress) (i : nat) : bool := Get (p_done p) i && Get (p_failed p) i.

Definition failed_term (p : JobProgress) (m : Manifest) (i : nat) : Z :=
  if failed_done p i then chargeOf p m i else 0.

Definition down_term (p : JobProgress) (m : Manifest) (i : nat) : Z :=
  if Get (p_done p) i then ArticleBytes m i - failed_term p m i else 0.

Definition charged (p : JobProgress) (m : Manifest) (i : nat) : bool :=
  failed_done p i && bool_decide (chargeOf p m i > 0).

(** A sum over the articles of file [fi], and over every file. *)
Definition over_file (m : Manifest) (fi : nat) (g : nat -> Z) : Z :=
  let '(lo, hi) := FileRange m fi in sum_range g lo (hi - lo).
Definition over_files (m : Manifest) (g : nat -> Z) : Z := sum_range g 0 (NumFiles (m_ft m)).

Definition b2z (f : nat -> bool) (i : nat) : Z := if f i then 1 else 0.

(** [recompute]; [None] is its panic on a size mismatch. *)
Definition recompute (p : JobProgress) (m : Manifest) : option JobProgress :=
  if decide (Len (p_done p) <> NumArticles m) then None
  else
    let files := imap (fun fi f =>
      set_f_Bytes (set_f_FailedBytes (set_f_BytesDownloaded (set_f_Pending f (pendingOf p fi))
        (over_file m fi (down_term p m))) (over_file m fi (failed_term p m)))
        (Bytes (m_ft m) fi)) (p_files p) in
    let p1 := set_p_files p files in
    let p2 := set_p_pendingArticles p1 (over_files m (pendingOf p)) in
    let p3 := set_p_articlesResolved p2 (over_files m (fun fi => over_file m fi (b2z (Get (p_done p))))) in
    let p4 := set_p_articlesFailed p3 (over_files m (fun fi => over_file m fi (b2z (charged p m)))) in
    Some (set_p_failedBytes p4 (over_files m (fun fi => over_file m fi (failed_term p m)))).

(** ** Article transitions *)
Definition markEmitted (p : JobProgress) (m : Manifest) (i : nat) : JobProgress :=
  if Get (p_emitted p) i || Get (p_done p) i then p
  else movePending (set_p_emitted p (SetBit (p_emitted p) i)) (fileIndexForArticle m i) (-1).

Definition clearEmitted (p : JobProgress) (m : Manifest) (i : nat) : JobProgress :=
  if Get (p_emitted p) i && negb (Get (p_done p) i) then
    movePending (set_p_emitted p (Clear (p_emitted p) i)) (fileIndexForArticle m i) 1
  else if Get (p_emitted p) i then set_p_emitted p (Clear (p_emitted p) i)
  else p.

Definition markDone (p : JobProgress) (m : Manifest) (i : nat) : JobProgress * bool :=
  if Get (p_done p) i then (p, false)
  else
    let fi := fileIndexForArticle m i in
    let p := if negb (Get (p_emitted p) i) then movePending p fi (-1) else p in
    let p := set_p_done p (SetBit (p_done p) i) in
    let p := set_p_emitted p (Clear (p_emitted p) i) in
    let p := set_p_articlesResolved p (p_articlesResolved p + 1) in
    (upd_file p fi (fun f => set_f_BytesDownloaded f (f_BytesDownloaded f + ArticleBytes m i)), true).

Definition setFailedBits (p : JobProgress) (i : nat) : JobProgress * bool :=
  if Get (p_done p) i then (p, false)
  else
    let p := set_p_done p (SetBit (p_done p) i) in
    let p := set_p_failed p (SetBit (p_failed p) i) in
    (set_p_emitted p (Clear (p_emitted p) i), true).

Definition markFailedUncovered (p : JobProgress) (m : Manifest) (i : nat) (uncovered : Z) :
    JobProgress * bool :=
  let wasEmitted := Get (p_emitted p) i in
  let '(p, ok) := setFailedBits p i in
  if negb ok then (p, false)
  else
    let p := limitCharge p i uncovered in
    let fi := fileIndexForArticle m i in
    let p := if negb wasEmitted then movePending p fi (-1) else p in
    let charge := chargeOf p m i in
    let p := set_p_failedBytes p (p_failedBytes p + charge) in
    let p := upd_file p fi (fun f =>
      set_f_BytesDownloaded (set_f_FailedBytes f (f_FailedBytes f + charge))
        (f_BytesDownloaded f + (ArticleBytes m i - charge))) in
    let p := set_p_articlesResolved p (p_articlesResolved p + 1) in
    (if decide (charge > 0) then set_p_articlesFailed p (p_articlesFailed p + 1) else p, true).

Definition markFailed (p : JobProgress) (m : Manifest) (i : nat) : JobProgress * bool :=
  markFailedUncovered p m i WholeArticle.

(** [dropRows] on the progress. *)
Definition dropFileRows (p : JobProgress) (fi : nat) (arts : list nat) : JobProgress :=
  match p_written p !! fi with
  | None => p
  | Some rows => set_p_written p (<[fi := dropRows rows (Z.of_nat <$> arts)]> (p_written p))
  end.

(** [clearDone]. *)
Definition clearDone (p : JobProgress) (fi : nat) (arts : list nat) : JobProgress :=
  dropFileRows (foldl (fun p i =>
    set_p_failCharge (set_p_failed (set_p_done p (Clear (p_done p) i)) (Clear (p_failed p) i))
      (delete i (p_failCharge p))) p arts) fi arts.

Definition markNotDone (p : JobProgress) (fi i : nat) : JobProgress * bool :=
  if negb (Get (p_done p) i) || Get (p_failed p) i then (p, false)
  else (clearDone p fi [i], true).

(** [resetForReload]: what it cleared and what it retained. *)
Definition resetForReload (p : JobProgress) (fi : nat) (clearEm : bool) :
    JobProgress * (list nat * list nat) :=
  let '(lo, hi) := fileRange p fi in
  let arts := seq lo (hi - lo) in
  let complete := f_Complete (file_of p fi) in
  let failed := base.filter (fun i => Get (p_failed p) i = true) arts in
  let p := if clearEm then set_p_emitted p (foldl Clear (p_emitted p) arts) else p in
  if complete then (clearDone p fi [], ([], failed)) else (clearDone p fi failed, (failed, [])).

(** ** Rows and checksums *)
Definition upsertFileRows (p : JobProgress) (fi : nat) (rows : list WrittenRow) : JobProgress :=
  if decide (rows = []) then p
  else set_p_written p (<[fi := upsertRows (default [] (p_written p !! fi)) rows]> (p_written p)).

Definition appendRow (p : JobProgress) (fi : nat) (row : WrittenRow) : JobProgress :=
  set_p_written p (<[fi := default [] (p_written p !! fi) ++ [row]]> (p_written p)).

Definition installRows (p : JobProgress) (m : Manifest) (fi : nat) (rows : list WrittenRow) : JobProgress :=
  upsertFileRows (foldl (fun p r => fst (markDone p m (Z.to_nat (r_art r)))) p rows) fi rows.

Definition anyFailed (p : JobProgress) (lo hi : nat) : bool :=
  existsb (fun i => Get (p_failed p) i) (seq lo (hi - lo)).

Definition storeSettled (p : JobProgress) (fi : nat) (crc : option Z) : JobProgress :=
  let p := upd_file p fi (fun f => set_f_AssembledCRC32 f (default 0 crc)) in
  set_p_written p (delete fi (p_written p)).

Definition settleFileCRC (p : JobProgress) (m : Manifest) (fi : nat) : JobProgress * option Z :=
  let '(lo, hi) := FileRange m fi in
  let crc := fileCRCFromRows (sortedClone (default [] (p_written p !! fi))) (anyFailed p lo hi)
               (Z.of_nat lo) (Z.of_nat hi) in
  (storeSettled p fi crc, crc).

(** ** Invariants *)

(** The progress is sized for the manifest, and a failed article is done. *)
Record shape (m : Manifest) (p : JobProgress) : Prop := {
  sh_m : wf_manifest m;
  sh_done : wf_bits (p_done p) /\ Len (p_done p) = NumArticles m;
  sh_failedb : wf_bits (p_failed p) /\ Len (p_failed p) = NumArticles m;
  sh_emitted : wf_bits (p_emitted p) /\ Len (p_emitted p) = NumArticles m;
  sh_starts : p_fileStarts p = t_offsets (m_ft m);
  sh_files : length (p_files p) = NumFiles (m_ft m);
  sh_failed_done : forall i, Get (p_failed p) i = true -> Get (p_done p) i = true
}.

(** Every cached counter is what [recompute] derives. *)
Record counters (m : Manifest) (p : JobProgress) : Prop := {
  co_file : forall fi, (fi < NumFiles (m_ft m))%nat ->
    f_Pending (file_of p fi) = pendingOf p fi /\
    f_BytesDownloaded (file_of p fi) = over_file m fi (down_term p m) /\
    f_FailedBytes (file_of p fi) = over_file m fi (failed_term p m) /\
    f_Bytes (file_of p fi) = Bytes (m_ft m) fi;
  co_pending : p_pendingArticles p = over_files m (pendingOf p);
  co_resolved : p_articlesResolved p = over_files m (fun fi => over_file m fi (b2z (Get (p_done p))));
  co_failed : p_articlesFailed p = over_files m (fun fi => over_file m fi (b2z (charged p m)));
  co_bytes : p_failedBytes p = over_files m (fun fi => over_file m fi (failed_term p m))
}.

Definition consistent (m : Manifest) (p : JobProgress) : Prop := shape m p /\ counters m p.

(** One article's bits change, and the counters move by its terms. *)
Record article_step (m : Manifest) (i fi0 : nat) (p p' : JobProgress) : Prop := {
  as_starts : p_fileStarts p' = p_fileStarts p;
  as_len : length (p_files p') = length (p_files p);
  as_keep : forall fi, f_Fetch (file_of p' fi) = f_Fetch (file_of p fi) /\
                       f_Bytes (file_of p' fi) = f_Bytes (file_of p fi);
  as_wf : (wf_bits (p_done p') /\ Len (p_done p') = Len (p_done p)) /\
          (wf_bits (p_failed p') /\ Len (p_failed p') = Len (p_failed p)) /\
          (wf_bits (p_emitted p') /\ Len (p_emitted p') = Len (p_emitted p));
  as_bits : forall k, k <> i -> Get (p_done p') k = Get (p_done p) k /\
    Get (p_failed p') k = Get (p_failed p) k /\ Get (p_emitted p') k = Get (p_emitted p) k /\
    p_failCharge p' !! k = p_failCharge p !! k;
  as_fd : Get (p_failed p') i = true -> Get (p_done p') i = true;
  as_file : forall fi,
    f_Pending (file_of p' fi) = f_Pending (file_of p fi) +
      (if decide (fi = fi0) then
         if countsPending p fi0 then b2z (unstarted p') i - b2z (unstarted p) i else 0
       else 0) /\
    f_BytesDownloaded (file_of p' fi) = f_BytesDownloaded (file_of p fi) +
      (if decide (fi = fi0) then down_term p' m i - down_term p m i else 0) /\
    f_FailedBytes (file_of p' fi) = f_FailedBytes (file_of p fi) +
      (if decide (fi = fi0) then failed_term p' m i - failed_term p m i else 0);
  as_pending : p_pendingArticles p' = p_pendingArticles p +
    (if countsPending p fi0 then b2z (unstarted p') i - b2z (unstarted p) i else 0);
  as_resolved : p_articlesResolved p' = p_articlesResolved p +
    (b2z (Get (p_done p')) i - b2z (Get (p_done p)) i);
  as_failed : p_articlesFailed p' = p_articlesFailed p + (b2z (charged p' m) i - b2z (charged p m) i);
  as_bytes : p_failedBytes p' = p_failedBytes p + (failed_term p' m i - failed_term p m i)
}.

(** ** Lemmas *)
Lemma over_file_change m fi0 i g g' fi :
  wf_manifest m -> in_file (m_ft m) fi0 i -> (forall k, k <> i -> g k = g' k) ->
  (fi < NumFiles (m_ft m))%nat ->
  over_file m fi g' = over_file m fi g + (if decide (fi = fi0) then g' i - g i else 0).
Proof.
  intros (Hw & _) Hi Hg Hfi. unfold over_file, FileRange, FileTable.Range. case_decide as Hd.
  - subst fi. apply sum_range_change; [destruct Hi; lia|done].
  - rewrite (sum_range_ext g' g); [lia|]. intros k Hk. symmetry. apply Hg. intros ->.
    apply Hd. eapply (in_file_unique _ Hw); [|exact Hi]. split; [done|lia].
Qed.

Lemma over_files_change m fi0 G G' d :
  (fi0 < NumFiles (m_ft m))%nat ->
  (forall fi, (fi < NumFiles (m_ft m))%nat -> G' fi = G fi + (if decide (fi = fi0) then d else 0)) ->
  over_files m G' = over_files m G + d.
Proof.
  intros H0 H. unfold over_files.
  rewrite (sum_range_ext G' (fun fi => G fi + (if decide (fi = fi0) then d else 0))) by (intros; apply H; lia).
  rewrite (sum_range_change G _ 0 (NumFiles (m_ft m)) fi0); [|lia|].
  - rewrite decide_True by done. lia.
  - intros k Hk. rewrite decide_False by done. lia.
Qed.

Lemma over_files_ext m G G' :
  (forall fi, (fi < NumFiles (m_ft m))%nat -> G fi = G' fi) -> over_files m G = over_files m G'.
Proof. intros H. apply sum_range_ext. intros i Hi. apply H. lia. Qed.

Lemma fileRange_shape m p fi : shape m p -> fileRange p fi = FileRange m fi.
Proof. intros S. unfold fileRange, FileRange, FileTable.Range, offset. by rewrite (sh_starts _ _ S). Qed.

Lemma pendingOf_shape m p fi : shape m p ->
  pendingOf p fi = if countsPending p fi then over_file m fi (b2z (unstarted p)) else 0.
Proof.
  intros S. unfold pendingOf. rewrite (fileRange_shape m) by done. unfold over_file, count_in.
  destruct (countsPending p fi); [|done]. simpl. by destruct (FileRange m fi).
Qed.

Lemma file_of_upd p fi g fi' :
  (fi < length (p_files p))%nat ->
  file_of (upd_file p fi g) fi' = if decide (fi' = fi) then g (file_of p fi) else file_of p fi'.
Proof.
  intros Hlt. unfold file_of, upd_file; simpl. case_decide as H.
  - subst fi'. destruct (lookup_lt_is_Some_2 _ _ Hlt) as [f Hf].
    by rewrite list_lookup_alter_eq, Hf.
  - by rewrite list_lookup_alter_ne.
Qed.

Lemma files_upd p fi g : length (p_files (upd_file p fi g)) = length (p_files p).
Proof. unfold upd_file; simpl. apply length_alter. Qed.

(** A step at one article keeps the progress consistent. *)
Lemma article_step_consistent m p p' i fi0 :
  consistent m p -> in_file (m_ft m) fi0 i -> article_step m i fi0 p p' -> consistent m p'.
Proof.
  intros [S C] Hi A. pose proof (sh_m _ _ S) as Hm.
  assert (S' : shape m p').
  { destruct (as_wf _ _ _ _ _ A) as ((W1 & E1) & (W2 & E2) & (W3 & E3)). split.
    - done.
    - split; [done|]. rewrite E1. apply S.
    - split; [done|]. rewrite E2. apply S.
    - split; [done|]. rewrite E3. apply S.
    - rewrite (as_starts _ _ _ _ _ A). apply S.
    - rewrite (as_len _ _ _ _ _ A). apply S.
    - intros k Hk. destruct (decide (k = i)) as [->|Hne]; [by apply (as_fd _ _ _ _ _ A)|].
      destruct (as_bits _ _ _ _ _ A k Hne) as (B1 & B2 & _). rewrite B1.
      apply (sh_failed_done _ _ S). by rewrite <- B2. }
  split; [done|].
  assert (Hcp : forall fi, countsPending p' fi = countsPending p fi).
  { intros fi. unfold countsPending. by rewrite (proj1 (as_keep _ _ _ _ _ A fi)). }
  assert (Hoff : forall k, k <> i -> unstarted p k = unstarted p' k /\ failed_term p m k = failed_term p' m k /\
    down_term p m k = down_term p' m k /\ charged p m k = charged p' m k /\
    Get (p_done p) k = Get (p_done p') k).
  { intros k Hk. destruct (as_bits _ _ _ _ _ A k Hk) as (E1 & E2 & E3 & E4).
    unfold unstarted, down_term, failed_term, charged, failed_done, chargeOf. by rewrite E1, E2, E3, E4. }
  assert (Hov : forall g g' fi, (forall k, k <> i -> g k = g' k) -> (fi < NumFiles (m_ft m))%nat ->
    over_file m fi g' = over_file m fi g + (if decide (fi = fi0) then g' i - g i else 0))
    by (intros; by apply over_file_change).
  assert (Hpo : forall fi, (fi < NumFiles (m_ft m))%nat -> pendingOf p' fi = pendingOf p fi +
    (if decide (fi = fi0) then if countsPending p fi0 then b2z (unstarted p') i - b2z (unstarted p) i else 0
     else 0)).
  { intros fi Hfi. rewrite !(pendingOf_shape m) by done. rewrite Hcp.
    destruct (decide (fi = fi0)) as [->|Hne]; destruct (countsPending p _); try lia.
    - rewrite (Hov (b2z (unstarted p))); [by rewrite decide_True|intros k Hk|done].
      unfold b2z. by rewrite (proj1 (Hoff k Hk)).
    - rewrite (Hov (b2z (unstarted p))); [by rewrite decide_False|intros k Hk|done].
      unfold b2z. by rewrite (proj1 (Hoff k Hk)). }
  pose proof (proj1 Hi) as Hfi0. destruct C as [C1 C2 C3 C4 C5]. split.
  - intros fi Hfi. destruct (C1 fi Hfi) as (D1 & D2 & D3 & D4).
    destruct (as_file _ _ _ _ _ A fi) as (E1 & E2 & E3). split_and!.
    + by rewrite E1, Hpo, D1.
    + rewrite E2, D2, <- Hov; [done| |done]. intros k Hk. apply (Hoff k Hk).
    + rewrite E3, D3, <- Hov; [done| |done]. intros k Hk. apply (Hoff k Hk).
    + by rewrite (proj2 (as_keep _ _ _ _ _ A fi)).
  - rewrite (as_pending _ _ _ _ _ A), C2. symmetry. by apply over_files_change with (fi0 := fi0).
  - rewrite (as_resolved _ _ _ _ _ A), C3. symmetry. apply over_files_change with (fi0 := fi0); [done|].
    intros fi Hfi. apply Hov; [|done]. intros k Hk. unfold b2z. by rewrite (proj2 (proj2 (proj2 (proj2 (Hoff k Hk))))).
  - rewrite (as_failed _ _ _ _ _ A), C4. symmetry. apply over_files_change with (fi0 := fi0); [done|].
    intros fi Hfi. apply Hov; [|done]. intros k Hk. unfold b2z. by rewrite (proj1 (proj2 (proj2 (proj2 (Hoff k Hk))))).
  - rewrite (as_bytes _ _ _ _ _ A), C5. symmetry. apply over_files_change with (fi0 := fi0); [done|].
    intros fi Hfi. apply Hov; [|done]. intros k Hk. apply (Hoff k Hk).
Qed.

(** [movePending] touches the pending counters only. *)
Lemma movePending_keep p fi d :
  let q := movePending p fi d in
  p_done q = p_done p /\ p_failed q = p_failed p /\ p_emitted q = p_emitted p /\
  p_fileStarts q = p_fileStarts p /\ p_failCharge q = p_failCharge p /\
  p_articlesResolved q = p_articlesResolved p /\ p_articlesFailed q = p_articlesFailed p /\
  p_failedBytes q = p_failedBytes p /\ length (p_files q) = length (p_files p) /\
  p_pendingArticles q = p_pendingArticles p + (if countsPending p fi then d else 0).
Proof.
  unfold movePending. destruct (countsPending p fi); simpl; split_and!; try done; [apply length_alter|lia].
Qed.

Lemma file_of_movePending p fi d fi' :
  (fi < length (p_files p))%nat ->
  file_of (movePending p fi d) fi' =
    if decide (fi' = fi) then
      set_f_Pending (file_of p fi) (f_Pending (file_of p fi) + (if countsPending p fi then d else 0))
    else file_of p fi'.
Proof.
  intros Hlt. unfold movePending. destruct (countsPending p fi); simpl.
  - change (file_of (set_p_pendingArticles ?q ?x) fi') with (file_of q fi').
    by rewrite file_of_upd.
  - case_decide; [|done]. subst fi'. rewrite Z.add_0_r. by destruct (file_of p fi).
Qed.

(** What [in_file] gives about [i] under [shape]. *)
Lemma shape_index m p fi0 i : shape m p -> in_file (m_ft m) fi0 i ->
  (i < Len (p_done p))%nat /\ (i < Len (p_failed p))%nat /\ (i < Len (p_emitted p))%nat /\
  (fi0 < length (p_files p))%nat /\ fileIndexForArticle m i = fi0.
Proof.
  intros S Hi. pose proof (sh_m _ _ S) as (Hw & Hn & _). pose proof (in_file_total _ Hw _ _ Hi) as Ht.
  destruct (sh_done _ _ S) as [_ ->], (sh_failedb _ _ S) as [_ ->], (sh_emitted _ _ S) as [_ ->].
  rewrite (sh_files _ _ S). unfold NumArticles. rewrite Hn. split_and!; try done; [apply Hi|].
  by apply fileIndex_unique.
Qed.

Lemma Get_SetBit_eq b i : wf_bits b -> (i < Len b)%nat -> Get (SetBit b i) i = true.
Proof. intros Hw Hi. rewrite Get_SetBit by done. by rewrite bool_decide_eq_true_2. Qed.
Lemma Get_SetBit_ne b i k : wf_bits b -> k <> i -> Get (SetBit b i) k = Get b k.
Proof. intros Hw Hi. rewrite Get_SetBit by done. rewrite bool_decide_eq_false_2; [done|]. naive_solver. Qed.
Lemma Get_Clear_eq b i : wf_bits b -> Get (Clear b i) i = false.
Proof. intros Hw. rewrite Get_Clear by done. by rewrite bool_decide_eq_true_2. Qed.
Lemma Get_Clear_ne b i k : wf_bits b -> k <> i -> Get (Clear b i) k = Get b k.
Proof. intros Hw Hi. rewrite Get_Clear by done. rewrite bool_decide_eq_false_2; [done|]. naive_solver. Qed.

(** Handing an article out, and taking it back. *)
Lemma emitted_step m p fi0 i b d :
  shape m p -> in_file (m_ft m) fi0 i -> Get (p_done p) i = false ->
  wf_bits b -> Len b = Len (p_emitted p) -> (forall k, k <> i -> Get b k = Get (p_emitted p) k) ->
  d = b2z (fun _ => negb (Get b i)) i - b2z (fun _ => negb (Get (p_emitted p) i)) i ->
  article_step m i fi0 p (movePending (set_p_emitted p b) fi0 d).
Proof.
  intros S Hi Hd Hb Hl Hk Ed. destruct (shape_index _ _ _ _ S Hi) as (L1 & L2 & L3 & L4 & Hfi).
  destruct (movePending_keep (set_p_emitted p b) fi0 d) as (K1 & K2 & K3 & K4 & K5 & K6 & K7 & K8 & K9 & K10).
  set (p' := movePending _ _ _) in *. simpl in *.
  assert (Hff : forall fi, file_of p' fi = if decide (fi = fi0) then
    set_f_Pending (file_of p fi0) (f_Pending (file_of p fi0) + (if countsPending p fi0 then d else 0))
    else file_of p fi).
  { intros fi. unfold p'. rewrite file_of_movePending by done. done. }
  clearbody p'. change (countsPending (set_p_emitted p b) fi0) with (countsPending p fi0) in K10.
  assert (Hu : b2z (unstarted p') i - b2z (unstarted p) i = d).
  { unfold unstarted, b2z in *. rewrite K1, K3, Hd. simpl. lia. }
  assert (Ht : failed_term p' m i = failed_term p m i /\ down_term p' m i = down_term p m i /\
    charged p' m i = charged p m i).
  { unfold failed_term, down_term, failed_term, charged, failed_done, chargeOf. by rewrite K1, K2, K5. }
  destruct Ht as (T1 & T2 & T3). split; try done.
  - intros fi. rewrite Hff. case_decide; [by subst|done].
  - rewrite K1, K2, K3. split_and!; try done; apply S.
  - intros k Hne. rewrite K1, K2, K3, K5. split_and!; auto.
  - rewrite K1, K2. apply S.
  - intros fi. rewrite Hff, Hu, T1, T2. case_decide; subst; simpl; split_and!; lia.
  - by rewrite K10, Hu.
  - rewrite K6. unfold b2z. rewrite K1. lia.
  - rewrite K7. unfold b2z. rewrite T3. lia.
  - rewrite K8, T1. lia.
Qed.

Lemma markEmitted_consistent m p i :
  consistent m p -> (i < NumArticles m)%nat -> consistent m (markEmitted p m i).
Proof.
  intros C Hi. pose proof C as [S _]. pose proof (sh_m _ _ S) as (Hw & Hn & _).
  pose proof (fileIndex_in_file m i Hw ltac:(unfold NumArticles in Hi; lia)) as Hf.
  destruct (shape_index _ _ _ _ S Hf) as (L1 & L2 & L3 & _). unfold markEmitted.
  destruct (Get (p_emitted p) i) eqn:Ee; [done|]. destruct (Get (p_done p) i) eqn:Ed; [done|]. simpl.
  eapply article_step_consistent; [done|exact Hf|]. destruct (sh_emitted _ _ S) as [We _].
  apply emitted_step; auto with gonzbd; [apply Len_SetBit|intros; by apply Get_SetBit_ne|].
  unfold b2z. by rewrite Get_SetBit_eq, Ee.
Qed.

Lemma Clear_emitted_consistent m p i :
  consistent m p -> Get (p_done p) i = true -> consistent m (set_p_emitted p (Clear (p_emitted p) i)).
Proof.
  intros [S C] Hd. pose proof S as [S1 S2 S3 [S4 S5] S6 S7 S8].
  assert (Hu : forall k, unstarted (set_p_emitted p (Clear (p_emitted p) i)) k = unstarted p k).
  { intros k. unfold unstarted; simpl. destruct (decide (k = i)) as [->|Hne]; [by rewrite Hd|].
    by rewrite Get_Clear_ne. }
  assert (S' : shape m (set_p_emitted p (Clear (p_emitted p) i))).
  { split; simpl; try done. split; [auto with gonzbd|by rewrite Len_Clear]. }
  split; [done|]. destruct C as [C1 C2 C3 C4 C5].
  assert (Hp : forall fi, pendingOf (set_p_emitted p (Clear (p_emitted p) i)) fi = pendingOf p fi).
  { intros fi. rewrite !(pendingOf_shape m) by done.
    change (countsPending (set_p_emitted p _) fi) with (countsPending p fi).
    destruct (countsPending p fi); [|done]. unfold over_file. destruct (FileRange m fi).
    apply sum_range_ext. intros k _. unfold b2z. by rewrite Hu. }
  split; simpl; try done.
  - intros fi Hfi. rewrite Hp. by apply C1.
  - rewrite C2. apply over_files_ext. intros. by rewrite Hp.
Qed.

Lemma clearEmitted_consistent m p i :
  consistent m p -> (i < NumArticles m)%nat -> consistent m (clearEmitted p m i).
Proof.
  intros C Hi. pose proof C as [S _]. pose proof (sh_m _ _ S) as (Hw & Hn & _).
  pose proof (fileIndex_in_file m i Hw ltac:(unfold NumArticles in Hi; lia)) as Hf.
  unfold clearEmitted. destruct (Get (p_emitted p) i) eqn:Ee; [|done]. simpl.
  destruct (Get (p_done p) i) eqn:Ed; simpl; [by apply Clear_emitted_consistent|].
  eapply article_step_consistent; [done|exact Hf|]. destruct (sh_emitted _ _ S) as [We _].
  apply emitted_step; auto with gonzbd; [apply Len_Clear|intros; by apply Get_Clear_ne|].
  unfold b2z. by rewrite Get_Clear_eq, Ee.
Qed.

(** The state after article [i] is resolved: done, perhaps failed, its charge
    recorded in [cm], and the counters moved by [D], [F] and [X]. *)
Definition resolve (p : JobProgress) (fi0 i : nat) (fl : bool) (cm : gmap nat Z) (D F X : Z) :
    JobProgress :=
  let q := if negb (Get (p_emitted p) i) then movePending p fi0 (-1) else p in
  let q := set_p_emitted (set_p_failed (set_p_done q (SetBit (p_done p) i))
    (if fl then SetBit (p_failed p) i else p_failed p)) (Clear (p_emitted p) i) in
  let q := set_p_failedBytes (set_p_failCharge q cm) (p_failedBytes p + F) in
  let q := upd_file q fi0 (fun f => set_f_BytesDownloaded (set_f_FailedBytes f (f_FailedBytes f + F))
    (f_BytesDownloaded f + D)) in
  set_p_articlesFailed (set_p_articlesResolved q (p_articlesResolved p + 1)) (p_articlesFailed p + X).

Lemma resolve_proj p fi0 i fl cm D F X :
  let q := resolve p fi0 i fl cm D F X in
  p_done q = SetBit (p_done p) i /\ p_failed q = (if fl then SetBit (p_failed p) i else p_failed p) /\
  p_emitted q = Clear (p_emitted p) i /\ p_failCharge q = cm /\ p_fileStarts q = p_fileStarts p /\
  length (p_files q) = length (p_files p) /\ p_articlesResolved q = p_articlesResolved p + 1 /\
  p_articlesFailed q = p_articlesFailed p + X /\ p_failedBytes q = p_failedBytes p + F /\
  p_pendingArticles q = p_pendingArticles p +
    (if countsPending p fi0 then (if Get (p_emitted p) i then 0 else -1) else 0).
Proof.
  unfold resolve, movePending. destruct (Get (p_emitted p) i), (countsPending p fi0); simpl; split_and!;
    rewrite ?length_alter; try done; lia.
Qed.

Lemma file_of_resolve p fi0 i fl cm D F X fi :
  (fi0 < length (p_files p))%nat ->
  file_of (resolve p fi0 i fl cm D F X) fi =
    if decide (fi = fi0) then
      let f := file_of p fi0 in
      set_f_BytesDownloaded (set_f_FailedBytes (set_f_Pending f (f_Pending f +
        (if countsPending p fi0 then (if Get (p_emitted p) i then 0 else -1) else 0)))
        (f_FailedBytes f + F)) (f_BytesDownloaded f + D)
    else file_of p fi.
Proof.
  intros Hlt. unfold resolve.
  set (q := if negb (Get (p_emitted p) i) then movePending p fi0 (-1) else p).
  assert (length (p_files q) = length (p_files p)) as Hql.
  { unfold q. destruct (Get (p_emitted p) i); [done|]. apply movePending_keep. }
  assert (Hq : forall fi, file_of q fi = if decide (fi = fi0) then
    set_f_Pending (file_of p fi0) (f_Pending (file_of p fi0) +
      (if countsPending p fi0 then (if Get (p_emitted p) i then 0 else -1) else 0)) else file_of p fi).
  { intros fi'. unfold q. destruct (Get (p_emitted p) i); simpl.
    - case_decide; [|done]. subst fi'. destruct (countsPending p fi0); rewrite Z.add_0_r; by destruct (file_of p fi0).
    - by rewrite file_of_movePending. }
  change (file_of (set_p_articlesFailed (set_p_articlesResolved ?a ?b) ?c) fi) with (file_of a fi).
  rewrite file_of_upd by (simpl; lia).
  change (file_of (set_p_failedBytes (set_p_failCharge (set_p_emitted (set_p_failed (set_p_done q ?a) ?b) ?c) ?d) ?e))
    with (file_of q).
  rewrite !Hq. rewrite (decide_True (P := fi0 = fi0)) by done. by case_decide.
Qed.

Lemma resolve_step m p fi0 i (fl : bool) cm D F X :
  shape m p -> in_file (m_ft m) fi0 i -> Get (p_done p) i = false ->
  (forall k, k <> i -> cm !! k = p_failCharge p !! k) ->
  let c := match cm !! i with Some c => Z.min c (ArticleBytes m i) | None => ArticleBytes m i end in
  F = (if fl then c else 0) -> D = ArticleBytes m i - F -> X = (if fl && bool_decide (c > 0) then 1 else 0) ->
  article_step m i fi0 p (resolve p fi0 i fl cm D F X).
Proof.
  intros S Hi Hd Hcm c EF ED EX. destruct (shape_index _ _ _ _ S Hi) as (L1 & L2 & L3 & L4 & Hfi).
  pose proof (file_of_resolve p fi0 i fl cm D F X) as Hff.
  destruct (resolve_proj p fi0 i fl cm D F X) as (K1 & K2 & K3 & K4 & K5 & K6 & K7 & K8 & K9 & K10).
  set (p' := resolve p fi0 i fl cm D F X) in *. clearbody p'.
  destruct (sh_done _ _ S) as [Wd _], (sh_failedb _ _ S) as [Wf _], (sh_emitted _ _ S) as [We _].
  assert (Get (p_failed p) i = false) as Hnf.
  { destruct (Get (p_failed p) i) eqn:E; [|done]. apply (sh_failed_done _ _ S) in E. congruence. }
  assert (Get (p_done p') i = true) as Gd by (rewrite K1; by apply Get_SetBit_eq).
  assert (Get (p_failed p') i = fl) as Gf.
  { rewrite K2. destruct fl; [by apply Get_SetBit_eq|done]. }
  assert (chargeOf p' m i = c) as Hc by (unfold chargeOf; by rewrite K4).
  assert (failed_term p' m i = F) as T1.
  { unfold failed_term, failed_done. rewrite Gd, Gf, Hc. by destruct fl. }
  assert (down_term p' m i = D) as T2 by (unfold down_term; rewrite Gd, T1; lia).
  assert (b2z (charged p' m) i = X) as T3.
  { unfold b2z, charged, failed_done. rewrite Gd, Gf, Hc, EX. by destruct fl. }
  assert (failed_term p m i = 0 /\ down_term p m i = 0 /\ b2z (charged p m) i = 0) as (U1 & U2 & U3).
  { unfold down_term, failed_term, b2z, charged, failed_done. by rewrite Hd. }
  assert (b2z (unstarted p') i - b2z (unstarted p) i = (if Get (p_emitted p) i then 0 else -1)) as Hu.
  { unfold b2z, unstarted. rewrite Gd, Hd. simpl. by destruct (Get (p_emitted p) i). }
  split; try done.
  - intros fi. rewrite Hff by done. destruct (decide (fi = fi0)) as [Hfe|Hfe]; [by rewrite Hfe|]. by split.
  - rewrite K1, K2, K3. split_and!; auto with gonzbd; rewrite ?Len_SetBit, ?Len_Clear; try done.
    + destruct fl; auto with gonzbd.
    + destruct fl; [apply Len_SetBit|done].
  - intros k Hne. rewrite K1, K2, K3, K4. split_and!; [by apply Get_SetBit_ne| |by apply Get_Clear_ne|by apply Hcm].
    destruct fl; [by apply Get_SetBit_ne|done].
  - intros fi. rewrite Hff by done. rewrite Hu, T1, T2, U1, U2.
    destruct (decide (fi = fi0)) as [Hfe|Hfe]; simpl; [rewrite Hfe|split_and!; lia].
    destruct (countsPending p fi0); split_and!; lia.
  - by rewrite K10, Hu.
  - rewrite K7. unfold b2z. rewrite Gd, Hd. lia.
  - rewrite K8, T3, U3. lia.
  - rewrite K9, T1, U1. lia.
Qed.

(** Progresses are equal field by field. *)
Lemma JobProgress_eq p q :
  p_done p = p_done q -> p_failed p = p_failed q -> p_emitted p = p_emitted q -> p_files p = p_files q ->
  p_fileStarts p = p_fileStarts q -> p_fetchChanges p = p_fetchChanges q ->
  p_failCharge p = p_failCharge q -> p_written p = p_written q ->
  p_pendingArticles p = p_pendingArticles q -> p_articlesResolved p = p_articlesResolved q ->
  p_articlesFailed p = p_articlesFailed q -> p_earlyAborted p = p_earlyAborted q ->
  p_failedBytes p = p_failedBytes q -> p_serverStats p = p_serverStats q ->
  p_downloadStarted p = p_downloadStarted q -> p_downloadFinished p = p_downloadFinished q ->
  p_par2ReleaseReason p = p_par2ReleaseReason q -> p = q.
Proof. destruct p, q; simpl. intros. by subst. Qed.

Lemma alter_ext {A} (g g' : A -> A) fi (l : list A) : (forall f, g f = g' f) -> alter g fi l = alter g' fi l.
Proof.
  intros He. apply list_eq. intros k. destruct (decide (k = fi)) as [->|Hne].
  - rewrite !list_lookup_alter_eq. destruct (l !! fi); simpl; by rewrite ?He.
  - by rewrite !list_lookup_alter_ne.
Qed.

Lemma markDone_resolve p m i : Get (p_done p) i = false ->
  markDone p m i = (resolve p (fileIndexForArticle m i) i false (p_failCharge p) (ArticleBytes m i) 0 0, true).
Proof.
  intros Hd. unfold markDone. rewrite Hd. f_equal. unfold resolve, movePending.
  set (fi := fileIndexForArticle m i).
  destruct (Get (p_emitted p) i), (countsPending p fi); cbn [negb];
    apply JobProgress_eq; simpl; rewrite ?Z.add_0_r; try reflexivity;
    apply alter_ext; intros []; simpl; by rewrite Z.add_0_r.
Qed.

Lemma markDone_consistent m p i :
  consistent m p -> (i < NumArticles m)%nat -> consistent m (fst (markDone p m i)).
Proof.
  intros C Hi. destruct (Get (p_done p) i) eqn:Hd; [unfold markDone; by rewrite Hd|].
  pose proof C as [S _]. pose proof (sh_m _ _ S) as (Hw & Hn & _).
  pose proof (fileIndex_in_file m i Hw ltac:(unfold NumArticles in Hi; lia)) as Hf.
  rewrite markDone_resolve by done. simpl.
  eapply article_step_consistent; [done|exact Hf|]. by apply resolve_step; try done; lia.
Qed.

Lemma markFailed_resolve p m i u : Get (p_done p) i = false ->
  let cm := if decide (u = WholeArticle) then p_failCharge p else <[i := u]> (p_failCharge p) in
  let c := match cm !! i with Some c => Z.min c (ArticleBytes m i) | None => ArticleBytes m i end in
  markFailedUncovered p m i u =
    (resolve p (fileIndexForArticle m i) i true cm (ArticleBytes m i - c) c
       (if bool_decide (c > 0) then 1 else 0), true).
Proof.
  intros Hd cm c. unfold markFailedUncovered, setFailedBits. rewrite Hd. cbn [negb].
  set (q := limitCharge _ i u).
  assert (q = set_p_failCharge (set_p_emitted (set_p_failed (set_p_done p (SetBit (p_done p) i))
    (SetBit (p_failed p) i)) (Clear (p_emitted p) i)) cm) as ->.
  { unfold q, limitCharge, cm. simpl. case_decide; [|done]. done. }
  unfold resolve. set (fi := fileIndexForArticle m i).
  assert (forall r, p_failCharge r = cm -> chargeOf r m i = c) as Hch
    by (intros r Hr; unfold chargeOf; by rewrite Hr).
  cbv zeta. unfold movePending.
  change (countsPending (set_p_failCharge (set_p_emitted (set_p_failed (set_p_done p ?a) ?b) ?d) cm) fi)
    with (countsPending p fi).
  destruct (Get (p_emitted p) i), (countsPending p fi); cbn [negb]; rewrite Hch by done;
    (destruct (decide (c > 0)) as [Hc|Hc];
      [rewrite bool_decide_eq_true_2 by done | rewrite bool_decide_eq_false_2 by done]);
    f_equal; apply JobProgress_eq; simpl; rewrite ?Z.add_0_r; reflexivity.
Qed.

Lemma markFailedUncovered_consistent m p i u :
  consistent m p -> (i < NumArticles m)%nat -> consistent m (fst (markFailedUncovered p m i u)).
Proof.
  intros C Hi. destruct (Get (p_done p) i) eqn:Hd.
  { unfold markFailedUncovered, setFailedBits. by rewrite Hd. }
  pose proof C as [S _]. pose proof (sh_m _ _ S) as (Hw & Hn & _).
  pose proof (fileIndex_in_file m i Hw ltac:(unfold NumArticles in Hi; lia)) as Hf.
  rewrite markFailed_resolve by done. simpl.
  eapply article_step_consistent; [done|exact Hf|]. apply resolve_step; try done.
  intros k Hk. case_decide; [done|]. by rewrite lookup_insert_ne.
Qed.

(** ** Whole-record changes *)

(** The fields the counters are about. *)
Record same_core (p p' : JobProgress) : Prop := {
  sc_done : p_done p' = p_done p;
  sc_failed : p_failed p' = p_failed p;
  sc_emitted : p_emitted p' = p_emitted p;
  sc_starts : p_fileStarts p' = p_fileStarts p;
  sc_charge : p_failCharge p' = p_failCharge p;
  sc_len : length (p_files p') = length (p_files p);
  sc_file : forall fi, f_Fetch (file_of p' fi) = f_Fetch (file_of p fi) /\
    f_Pending (file_of p' fi) = f_Pending (file_of p fi) /\
    f_Bytes (file_of p' fi) = f_Bytes (file_of p fi) /\
    f_BytesDownloaded (file_of p' fi) = f_BytesDownloaded (file_of p fi) /\
    f_FailedBytes (file_of p' fi) = f_FailedBytes (file_of p fi);
  sc_counts : p_pendingArticles p' = p_pendingArticles p /\
    p_articlesResolved p' = p_articlesResolved p /\
    p_articlesFailed p' = p_articlesFailed p /\ p_failedBytes p' = p_failedBytes p
}.

Lemma same_core_consistent m p p' : same_core p p' -> consistent m p -> consistent m p'.
Proof.
  intros [E1 E2 E3 E4 E5 E6 E7 (E8 & E9 & E10 & E11)] [[S1 S2 S3 S4 S5 S6 S7] [C1 C2 C3 C4 C5]].
  assert (Hc : forall i, chargeOf p' m i = chargeOf p m i) by (intros; unfold chargeOf; by rewrite E5).
  assert (Hft : forall i, failed_term p' m i = failed_term p m i)
    by (intros; unfold failed_term, failed_done; by rewrite E1, E2, Hc).
  assert (Hdt : forall i, down_term p' m i = down_term p m i) by (intros; unfold down_term; by rewrite E1, Hft).
  assert (Hch : forall i, charged p' m i = charged p m i)
    by (intros; unfold charged, failed_done; by rewrite E1, E2, Hc).
  assert (Hp : forall fi, pendingOf p' fi = pendingOf p fi).
  { intros fi. unfold pendingOf, countsPending, fileRange. rewrite E4, (proj1 (E7 fi)).
    case_bool_decide; simpl; [|done]. apply sum_range_ext. intros. unfold unstarted. by rewrite E1, E3. }
  assert (Hov : forall fi g g', (forall i, g i = g' i) -> over_file m fi g = over_file m fi g').
  { intros fi g g' H. unfold over_file. destruct (FileRange m fi). by apply sum_range_ext. }
  split; split; rewrite ?E1, ?E2, ?E3, ?E4, ?E6; try done.
  - intros fi Hfi. destruct (C1 fi Hfi) as (D1 & D2 & D3 & D4), (E7 fi) as (_ & F2 & F3 & F4 & F5).
    rewrite F2, F3, F4, F5, Hp, D1, D2, D3, D4. split_and!; [done|apply Hov|apply Hov|done]; done.
  - rewrite E8, C2. apply over_files_ext. intros. by rewrite Hp.
  - by rewrite E9, C3.
  - rewrite E10, C4. apply over_files_ext. intros. apply Hov. intros. unfold b2z. by rewrite Hch.
  - rewrite E11, C5. apply over_files_ext. intros. by apply Hov.
Qed.

Lemma same_core_shape m p p' : same_core p p' -> shape m p -> shape m p'.
Proof.
  intros [E1 E2 E3 E4 E5 E6 E7 _] [S1 S2 S3 S4 S5 S6 S7]. split; rewrite ?E1, ?E2, ?E3, ?E4, ?E6; done.
Qed.

(** Updating a file's descriptive fields. *)
Lemma upd_file_core p fi g :
  (forall f, f_Fetch (g f) = f_Fetch f /\ f_Pending (g f) = f_Pending f /\ f_Bytes (g f) = f_Bytes f /\
    f_BytesDownloaded (g f) = f_BytesDownloaded f /\ f_FailedBytes (g f) = f_FailedBytes f) ->
  same_core p (upd_file p fi g).
Proof.
  intros Hg. split; try done; [apply files_upd|]. intros fi'.
  destruct (decide (fi < length (p_files p))%nat) as [Hlt|Hge].
  - rewrite file_of_upd by done. destruct (decide (fi' = fi)) as [->|?]; [apply Hg|done].
  - assert (upd_file p fi g = p) as ->; [|done]. unfold upd_file.
    assert (alter g fi (p_files p) = p_files p) as ->; [|by destruct p].
    apply list_eq. intros k. destruct (decide (k = fi)) as [->|Hne].
    + rewrite list_lookup_alter_eq. by rewrite (lookup_ge_None_2 (p_files p) fi) by lia.
    + by rewrite list_lookup_alter_ne.
Qed.

Lemma same_core_trans p q r : same_core p q -> same_core q r -> same_core p r.
Proof.
  intros [A1 A2 A3 A4 A5 A6 A7 A8] [B1 B2 B3 B4 B5 B6 B7 B8]. split; try congruence.
  - intros fi. destruct (A7 fi) as (? & ? & ? & ? & ?), (B7 fi) as (? & ? & ? & ? & ?). split_and!; congruence.
  - destruct A8 as (? & ? & ? & ?), B8 as (? & ? & ? & ?). split_and!; congruence.
Qed.

Lemma same_core_refl p : same_core p p.
Proof. by split. Qed.

(** ** [recompute] *)
Lemma recompute_spec m p :
  shape m p -> exists p', recompute p m = Some p' /\ consistent m p' /\
    p_done p' = p_done p /\ p_failed p' = p_failed p /\ p_emitted p' = p_emitted p /\
    p_written p' = p_written p /\ p_failCharge p' = p_failCharge p /\
    (forall fi, f_Fetch (file_of p' fi) = f_Fetch (file_of p fi)) /\
    (forall fi, f_Complete (file_of p' fi) = f_Complete (file_of p fi)).
Proof.
  intros [S1 S2 S3 S4 S5 S6 S7]. unfold recompute. rewrite decide_False by naive_solver.
  eexists. split; [done|]. set (p' := set_p_failedBytes _ _).
  assert (Hfile : forall fi, file_of p' fi =
    if decide (fi < length (p_files p))%nat then
      set_f_Bytes (set_f_FailedBytes (set_f_BytesDownloaded (set_f_Pending (file_of p fi) (pendingOf p fi))
        (over_file m fi (down_term p m))) (over_file m fi (failed_term p m))) (Bytes (m_ft m) fi)
    else zeroFile).
  { intros fi. unfold file_of, p'; simpl. rewrite list_lookup_imap. case_decide as H.
    - destruct (lookup_lt_is_Some_2 _ _ H) as [f ->]. done.
    - by rewrite lookup_ge_None_2 by lia. }
  assert (Hcp : forall fi, f_Fetch (file_of p' fi) = f_Fetch (file_of p fi)).
  { intros fi. rewrite Hfile. case_decide; [done|]. unfold file_of. by rewrite lookup_ge_None_2 by lia. }
  assert (Hp : forall fi, pendingOf p' fi = pendingOf p fi).
  { intros fi. unfold pendingOf, countsPending. rewrite Hcp. done. }
  split_and!; try done.
  - split; [split; try done; simpl; by rewrite length_imap|]. split.
    + intros fi Hfi. rewrite Hfile, decide_True by lia. rewrite Hp. done.
    + simpl. apply over_files_ext. intros. by rewrite Hp.
    + done.
    + done.
    + done.
  - intros fi. rewrite Hfile. case_decide; [done|]. unfold file_of. by rewrite lookup_ge_None_2 by lia.
Qed.

Lemma recompute_fixed m p : consistent m p -> recompute p m = Some p.
Proof.
  intros [S [C1 C2 C3 C4 C5]]. unfold recompute. rewrite decide_False by (pose proof (sh_done _ _ S); naive_solver).
  rewrite <- C2, <- C3, <- C4, <- C5. f_equal.
  assert (imap (fun fi f => set_f_Bytes (set_f_FailedBytes (set_f_BytesDownloaded
    (set_f_Pending f (pendingOf p fi)) (over_file m fi (down_term p m))) (over_file m fi (failed_term p m)))
    (Bytes (m_ft m) fi)) (p_files p) = p_files p) as ->; [|by destruct p].
  apply list_eq. intros fi. rewrite list_lookup_imap. destruct (p_files p !! fi) as [f|] eqn:E; [|done].
  simpl. f_equal. destruct (C1 fi) as (D1 & D2 & D3 & D4).
  { rewrite <- (sh_files _ _ S). by eapply lookup_lt_Some. }
  unfold file_of in D1, D2, D3, D4. rewrite E in D1, D2, D3, D4. simpl in *.
  rewrite <- D1, <- D2, <- D3, <- D4. by destruct f.
Qed.

(** ** The policy door *)
Lemma set_fetch_shape m p fi pol : shape m p -> shape m (setFileFetchPolicy p fi pol).
Proof.
  intros [S1 S2 S3 S4 S5 S6 S7]. unfold setFileFetchPolicy, setPending. case_decide; [done|].
  destruct (f_fetchChanged _); split; simpl; rewrite ?length_alter; done.
Qed.

Lemma set_fetch_consistent m p fi pol :
  consistent m p -> (fi < NumFiles (m_ft m))%nat -> consistent m (setFileFetchPolicy p fi pol).
Proof.
  intros [S C] Hfi. pose proof (set_fetch_shape m p fi pol S) as S'. revert S'.
  unfold setFileFetchPolicy. case_decide as Hpol; [done|]. cbv zeta.
  set (p1 := upd_file p fi (fun f => set_f_Fetch f pol)). set (n := pendingOf p1 fi).
  set (p2 := setPending p1 fi n).
  assert (Hfl : (fi < length (p_files p))%nat) by (by rewrite (sh_files _ _ S)).
  assert (Hf1 : forall fi', file_of p1 fi' = if decide (fi' = fi) then set_f_Fetch (file_of p fi) pol
    else file_of p fi') by (intros; by apply file_of_upd).
  assert (Hf2 : forall fi', file_of p2 fi' = if decide (fi' = fi) then
    set_f_Pending (set_f_Fetch (file_of p fi) pol) n else file_of p fi').
  { intros fi'. unfold p2, setPending. rewrite file_of_upd by (simpl; by rewrite length_alter).
    change (file_of (set_p_pendingArticles p1 ?x)) with (file_of p1). rewrite !Hf1.
    rewrite (decide_True (P := fi = fi)) by done. by destruct (decide (fi' = fi)). }
  assert (Hp2 : forall fi', pendingOf p2 fi' = if decide (fi' = fi) then n else pendingOf p fi').
  { intros fi'. destruct (decide (fi' = fi)) as [->|Hne].
    - unfold n, pendingOf, countsPending. rewrite Hf1, Hf2, !decide_True by done. done.
    - unfold pendingOf, countsPending. rewrite Hf2, decide_False by done. done. }
  assert (Ht2 : p_pendingArticles p2 = p_pendingArticles p + (n - f_Pending (file_of p fi))).
  { unfold p2, setPending; simpl. rewrite Hf1, decide_True by done. done. }
  assert (Hsh2 : shape m p2) by (destruct S; split; simpl; rewrite ?length_alter; done).
  assert (HC : consistent m p2).
  { split; [done|]. destruct C as [C1 C2 C3 C4 C5]. destruct (C1 fi Hfi) as (D1 & _). split; try done.
    - intros fi' Hfi'. rewrite Hf2, Hp2. destruct (C1 fi' Hfi') as (E1 & E2 & E3 & E4).
      destruct (decide (fi' = fi)) as [->|Hne]; simpl; done.
    - rewrite Ht2, C2. symmetry. apply over_files_change with (fi0 := fi); [done|].
      intros fi' Hfi'. rewrite Hp2. destruct (decide (fi' = fi)) as [->|Hne]; lia. }
  intros S'. destruct (f_fetchChanged (file_of p2 fi)); [done|].
  eapply same_core_consistent; [|exact HC]. eapply same_core_trans; [apply (upd_file_core p2 fi (fun f => set_f_fetchChanged f true)); by intros []|].
  by split.
Qed.
