(* ===== verification/ProgressOps.v ===== *)
(** * Progress without the manifest ([internal/job/progress.go])

    The operations that may run while the job's manifest is evicted change
    bits and leave the counters to [recompute]: [clearDone],
    [resetForReload], [setFailedBits].  They keep [shape], which is what
    [recompute] needs; [same_bits] says when two progresses recompute alike.
    Seeding a fresh progress is here too. *)
From S2P Require Import Prelude Bitset FileTable Rows Progress.
From stdpp Require Import base gmap list strings.
From Stdlib Require Import ZArith Lia.
Local Open Scope Z_scope.

(** ** Operations that leave the counters to [recompute] *)
Lemma shape_transfer m m' p : m_ft m' = m_ft m -> wf_manifest m' -> shape m p -> shape m' p.
Proof.
  intros E W [S1 S2 S3 S4 S5 S6 S7]. assert (NumArticles m' = NumArticles m) as En.
  { destruct W as (_ & N' & _), S1 as (_ & N & _). unfold NumArticles. by rewrite N, N', E. }
  split; rewrite ?En, ?E; done.
Qed.

(** A change of the three bit sets and of fields the shape ignores. *)
Record reshaped (p p' : JobProgress) : Prop := {
  rs_done : wf_bits (p_done p') /\ Len (p_done p') = Len (p_done p);
  rs_failed : wf_bits (p_failed p') /\ Len (p_failed p') = Len (p_failed p);
  rs_emitted : wf_bits (p_emitted p') /\ Len (p_emitted p') = Len (p_emitted p);
  rs_starts : p_fileStarts p' = p_fileStarts p;
  rs_files : length (p_files p') = length (p_files p);
  rs_fd : forall i, Get (p_failed p') i = true -> Get (p_done p') i = true
}.

Lemma reshaped_shape m p p' : shape m p -> reshaped p p' -> shape m p'.
Proof.
  intros [S1 [W1 L1] [W2 L2] [W3 L3] S5 S6 S7] [[V1 R1] [V2 R2] [V3 R3] R4 R5 R6].
  split; rewrite ?R1, ?R2, ?R3, ?R4, ?R5; done.
Qed.

Lemma setFailedBits_shape m p i : shape m p -> (i < NumArticles m)%nat -> shape m (fst (setFailedBits p i)).
Proof.
  intros S Hi. unfold setFailedBits. destruct (Get (p_done p) i) eqn:E; [done|].
  apply (reshaped_shape m p); [done|]. destruct S as [_ [W1 L1] [W2 L2] [W3 L3] _ _ S7]. split; simpl;
    rewrite ?Len_SetBit, ?Len_Clear; auto with gonzbd.
  intros k Hk. destruct (decide (k = i)) as [->|Hne].
  - apply Get_SetBit_eq; [done|lia].
  - rewrite Get_SetBit_ne in Hk |- * by done. auto.
Qed.

Lemma limitCharge_shape m p i u : shape m p -> shape m (limitCharge p i u).
Proof. intros []. unfold limitCharge. case_decide; [done|]. by split. Qed.

Lemma Clear_emitted_shape m p i : shape m p -> shape m (set_p_emitted p (Clear (p_emitted p) i)).
Proof.
  intros S. apply (reshaped_shape m p); [done|]. destruct S as [_ [W1 L1] [W2 L2] [W3 L3] _ _ S7].
  split; simpl; rewrite ?Len_Clear; auto with gonzbd.
Qed.

Lemma Clears_wf arts b : wf_bits b ->
  wf_bits (foldl Clear b arts) /\ Len (foldl Clear b arts) = Len b /\
  (forall k, Get (foldl Clear b arts) k = Get b k && negb (bool_decide (k ∈ arts))).
Proof.
  revert b. induction arts as [|i arts IH]; intros b Hw; simpl.
  - split_and!; try done. intros k. by rewrite andb_true_r.
  - destruct (IH (Clear b i)) as (A & B & C); [auto with gonzbd|]. rewrite B, Len_Clear. split_and!; try done.
    intros k. rewrite C, Get_Clear by done. rewrite (bool_decide_ext (k ∈ i :: arts) (k = i \/ k ∈ arts))
      by (by rewrite elem_of_cons). rewrite bool_decide_or. destruct (Get b k); simpl; [|by destruct (bool_decide _)].
    by repeat case_bool_decide.
Qed.

(** What [clearDone] leaves. *)
Definition clear_arts (p : JobProgress) (arts : list nat) : JobProgress :=
  foldl (fun p i => set_p_failCharge (set_p_failed (set_p_done p (Clear (p_done p) i)) (Clear (p_failed p) i))
    (delete i (p_failCharge p))) p arts.

Lemma clear_arts_spec p arts :
  p_done (clear_arts p arts) = foldl Clear (p_done p) arts /\
  p_failed (clear_arts p arts) = foldl Clear (p_failed p) arts /\
  (forall k, p_failCharge (clear_arts p arts) !! k = if decide (k ∈ arts) then None else p_failCharge p !! k) /\
  p_emitted (clear_arts p arts) = p_emitted p /\ p_files (clear_arts p arts) = p_files p /\
  p_fileStarts (clear_arts p arts) = p_fileStarts p /\ p_written (clear_arts p arts) = p_written p.
Proof.
  unfold clear_arts. revert p. induction arts as [|i arts IH]; intros p; [by split_and!|].
  cbn [foldl]. match goal with |- context [foldl _ ?q arts] => destruct (IH q) as (A & B & C & D & E & F & G) end.
  rewrite A, B, D, E, F, G. split_and!; try done. intros k. rewrite C. simpl.
  destruct (decide (k ∈ arts)) as [Hk|Hk].
  - rewrite decide_True; [done|]. by apply elem_of_cons; right.
  - destruct (decide (k = i)) as [->|Hne].
    + rewrite lookup_delete_eq, decide_True; [done|]. by apply elem_of_cons; left.
    + rewrite lookup_delete_ne by done. rewrite decide_False; [done|]. rewrite elem_of_cons. naive_solver.
Qed.

Lemma dropFileRows_core p fi arts : same_core p (dropFileRows p fi arts) /\
  p_files (dropFileRows p fi arts) = p_files p.
Proof. unfold dropFileRows. destruct (p_written p !! fi); [by repeat split|by split; [apply same_core_refl|]]. Qed.

Lemma upsertFileRows_core p fi rows : same_core p (upsertFileRows p fi rows).
Proof. unfold upsertFileRows. case_decide; [apply same_core_refl|by split]. Qed.

Lemma appendRow_core p fi row : same_core p (appendRow p fi row).
Proof. by split. Qed.

Lemma storeSettled_core p fi crc : same_core p (storeSettled p fi crc).
Proof.
  eapply same_core_trans; [apply (upd_file_core p fi (fun f => set_f_AssembledCRC32 f (default 0 crc))); by intros []|]. by split.
Qed.

Lemma settleFileCRC_core p m fi : same_core p (fst (settleFileCRC p m fi)).
Proof. unfold settleFileCRC. destruct (FileRange m fi). apply storeSettled_core. Qed.

Lemma clearDone_spec m p fi arts :
  shape m p ->
  let q := clearDone p fi arts in
  shape m q /\
  (forall k, Get (p_done q) k = Get (p_done p) k && negb (bool_decide (k ∈ arts))) /\
  (forall k, Get (p_failed q) k = Get (p_failed p) k && negb (bool_decide (k ∈ arts))) /\
  (forall k, p_failCharge q !! k = if decide (k ∈ arts) then None else p_failCharge p !! k) /\
  p_emitted q = p_emitted p /\ p_files q = p_files p.
Proof.
  intros S q. destruct (clear_arts_spec p arts) as (A & B & C & D & E & F & G).
  destruct (dropFileRows_core (clear_arts p arts) fi arts) as [[A' B' D' F' C' _ _ _] E'].
  change (dropFileRows (clear_arts p arts) fi arts) with q in *.
  rewrite A in A'. rewrite B in B'. rewrite D in D'. rewrite F in F'. rewrite E in E'.
  pose proof S as [_ [W1 L1] [W2 L2] [W3 L3] _ _ S7].
  destruct (Clears_wf arts _ W1) as (V1 & M1 & G1), (Clears_wf arts _ W2) as (V2 & M2 & G2).
  rewrite A', B', C'. split_and!; try done.
  apply (reshaped_shape m p); [done|]. split; rewrite ?A', ?B', ?D', ?F', ?E'; try done.
  intros k. rewrite G1, G2. rewrite !andb_true_iff. intros [Hf Hn]. auto.
Qed.

(** The articles [resetForReload] finds failed. *)
Lemma fileRange_seq m p fi k : shape m p -> k ∈ seq (fst (fileRange p fi)) (snd (fileRange p fi) - fst (fileRange p fi)) <->
  (fst (FileRange m fi) <= k < snd (FileRange m fi))%nat.
Proof. intros S. rewrite (fileRange_shape m) by done. rewrite elem_of_seq. lia. Qed.

Lemma resetForReload_spec m p fi ce :
  shape m p ->
  let '(q, (cleared, retained)) := resetForReload p fi ce in
  shape m q /\ p_files q = p_files p /\
  (forall k, k ∈ cleared <-> (fst (FileRange m fi) <= k < snd (FileRange m fi))%nat /\
    f_Complete (file_of p fi) = false /\ Get (p_failed p) k = true) /\
  (forall k, k ∈ retained <-> (fst (FileRange m fi) <= k < snd (FileRange m fi))%nat /\
    f_Complete (file_of p fi) = true /\ Get (p_failed p) k = true) /\
  (forall k, Get (p_done q) k = Get (p_done p) k && negb (bool_decide (k ∈ cleared))) /\
  (forall k, Get (p_failed q) k = Get (p_failed p) k && negb (bool_decide (k ∈ cleared))) /\
  (forall k, Get (p_emitted q) k = Get (p_emitted p) k && negb (ce && bool_decide
     (fst (FileRange m fi) <= k < snd (FileRange m fi))%nat)).
Proof.
  intros S. pose proof (fileRange_seq m p fi) as Hr. unfold resetForReload.
  destruct (fileRange p fi) as [lo hi]. cbn [fst snd] in Hr.
  set (arts := seq lo (hi - lo)) in *. set (failed := base.filter _ arts).
  set (p1 := if ce then set_p_emitted p (foldl Clear (p_emitted p) arts) else p).
  assert (forall k, k ∈ failed <-> (fst (FileRange m fi) <= k < snd (FileRange m fi))%nat /\ Get (p_failed p) k = true) as Hf.
  { intros k. unfold failed. rewrite list_elem_of_filter. rewrite Hr by done. tauto. }
  destruct (Clears_wf arts (p_emitted p)) as (We & Le & Ge); [apply S|].
  assert (shape m p1) as S1.
  { unfold p1. destruct ce; [|done]. apply (reshaped_shape m p); [done|].
    destruct S as [_ [W1 L1] [W2 L2] [W3 L3] _ _ S7]. by split. }
  assert (p_files p1 = p_files p /\ p_done p1 = p_done p /\ p_failed p1 = p_failed p /\
    forall k, Get (p_emitted p1) k = Get (p_emitted p) k && negb (ce && bool_decide
     (fst (FileRange m fi) <= k < snd (FileRange m fi))%nat)) as (F1 & D1 & G1 & E1).
  { unfold p1. destruct ce; split_and!; try done.
    - intros k. simpl. rewrite Ge. do 2 f_equal. apply bool_decide_ext. by apply Hr.
    - intros k. by rewrite andb_true_r. }
  clearbody p1. cbv zeta. destruct (f_Complete (file_of p fi)) eqn:Ec.
  - destruct (clearDone_spec m p1 fi [] S1) as (A & B & C & _ & E & F). cbv zeta in *.
    split; [done|]. rewrite F, E, F1. split_and!; try done.
    + intros k. split; [by rewrite elem_of_nil|by intros (_ & ? & _)].
    + intros k. rewrite Hf. tauto.
    + intros k. by rewrite B, D1.
    + intros k. by rewrite C, G1.
  - destruct (clearDone_spec m p1 fi failed S1) as (A & B & C & _ & E & F). cbv zeta in *.
    split; [done|]. rewrite F, E, F1. split_and!; try done.
    + intros k. rewrite Hf. tauto.
    + intros k. split; [by rewrite elem_of_nil|by intros (_ & ? & _)].
    + intros k. by rewrite B, D1.
    + intros k. by rewrite C, G1.
Qed.

(** ** Rows *)
Definition installed (m : Manifest) (p : JobProgress) (rows : list WrittenRow) : JobProgress :=
  foldl (fun p r => fst (markDone p m (Z.to_nat (r_art r)))) p rows.

Lemma installed_consistent m p rows :
  consistent m p -> Forall (fun r => (Z.to_nat (r_art r) < NumArticles m)%nat) rows ->
  consistent m (installed m p rows).
Proof.
  intros C H. revert p C. induction H as [|r rows Hr H IH]; intros p C; [done|]. simpl.
  apply IH. by apply markDone_consistent.
Qed.

Lemma installRows_consistent m p fi rows :
  consistent m p -> Forall (fun r => (Z.to_nat (r_art r) < NumArticles m)%nat) rows ->
  consistent m (installRows p m fi rows).
Proof.
  intros C H. eapply same_core_consistent; [apply upsertFileRows_core|]. by apply installed_consistent.
Qed.

(** Marking a file's articles failed, as a complete verification does. *)
Definition failAll (m : Manifest) (p : JobProgress) (arts : list nat) : JobProgress :=
  foldl (fun p i => fst (markFailed p m i)) p arts.

Lemma failAll_consistent m p arts :
  consistent m p -> Forall (fun i => (i < NumArticles m)%nat) arts -> consistent m (failAll m p arts).
Proof.
  intros C H. revert p C. induction H as [|i arts Hi H IH]; intros p C; [done|]. simpl.
  apply IH. by apply markFailedUncovered_consistent.
Qed.

(** Done only grows under [markDone] and [markFailed]. *)
Lemma markDone_done m p i k : shape m p -> (i < NumArticles m)%nat ->
  Get (p_done (fst (markDone p m i))) k = Get (p_done p) k || bool_decide (k = i).
Proof.
  intros S Hi. destruct (Get (p_done p) i) eqn:Hd.
  - unfold markDone. rewrite Hd. simpl. case_bool_decide; [subst; by rewrite Hd|by rewrite orb_false_r].
  - rewrite markDone_resolve by done. simpl fst. rewrite (proj1 (resolve_proj _ _ _ _ _ _ _ _)).
    destruct S as [_ [W L] _ _ _ _ _]. rewrite Get_SetBit by done.
    case_bool_decide as H1; [|case_bool_decide; [subst; exfalso; apply H1; split; [done|unfold Len in *; lia]|by rewrite orb_false_r]].
    rewrite (bool_decide_eq_true_2 (k = i)) by (destruct H1; congruence). by rewrite orb_true_r.
Qed.

Lemma markFailed_done m p i u k : shape m p -> (i < NumArticles m)%nat ->
  Get (p_done (fst (markFailedUncovered p m i u))) k = Get (p_done p) k || bool_decide (k = i).
Proof.
  intros S Hi. destruct (Get (p_done p) i) eqn:Hd.
  - unfold markFailedUncovered, setFailedBits. rewrite Hd. simpl.
    case_bool_decide; [subst; by rewrite Hd|by rewrite orb_false_r].
  - rewrite markFailed_resolve by done. simpl fst. rewrite (proj1 (resolve_proj _ _ _ _ _ _ _ _)).
    destruct S as [_ [W L] _ _ _ _ _]. rewrite Get_SetBit by done.
    case_bool_decide as H1; [|case_bool_decide; [subst; exfalso; apply H1; split; [done|unfold Len in *; lia]|by rewrite orb_false_r]].
    rewrite (bool_decide_eq_true_2 (k = i)) by (destruct H1; congruence). by rewrite orb_true_r.
Qed.

(** ** What [recompute] depends on *)
Record same_bits (p q : JobProgress) : Prop := {
  sb_bits : p_done p = p_done q /\ p_failed p = p_failed q /\ p_emitted p = p_emitted q;
  sb_files : length (p_files p) = length (p_files q) /\
    forall fi, let f := file_of p fi in let g := file_of q fi in
      f_Complete f = f_Complete g /\ f_Fetch f = f_Fetch g /\ f_Verified f = f_Verified g /\
      f_Recorded f = f_Recorded g /\ f_IsPar2 f = f_IsPar2 g /\ f_Filename f = f_Filename g /\
      f_AssembledCRC32 f = f_AssembledCRC32 g /\ f_fetchChanged f = f_fetchChanged g;
  sb_rest : p_fileStarts p = p_fileStarts q /\ p_fetchChanges p = p_fetchChanges q /\
    p_failCharge p = p_failCharge q /\ p_written p = p_written q /\ p_earlyAborted p = p_earlyAborted q /\
    p_serverStats p = p_serverStats q /\ p_downloadStarted p = p_downloadStarted q /\
    p_downloadFinished p = p_downloadFinished q /\ p_par2ReleaseReason p = p_par2ReleaseReason q
}.

Lemma recompute_same_bits m p q : same_bits p q -> recompute p m = recompute q m.
Proof.
  intros [(E1 & E2 & E3) [El Ef] (R1 & R2 & R3 & R4 & R5 & R6 & R7 & R8 & R9)].
  unfold recompute. rewrite E1. case_decide; [done|]. f_equal.
  assert (Hp : forall fi, pendingOf p fi = pendingOf q fi).
  { intros fi. unfold pendingOf, countsPending, fileRange. destruct (Ef fi) as (_ & -> & _). rewrite R1.
    destruct (negb _); [done|]. apply sum_range_ext. intros. unfold unstarted. by rewrite E1, E3. }
  assert (Hc : forall i, chargeOf p m i = chargeOf q m i) by (intros; unfold chargeOf; by rewrite R3).
  assert (Hf : forall i, failed_term p m i = failed_term q m i)
    by (intros; unfold failed_term, failed_done; by rewrite E1, E2, Hc).
  assert (Hd : forall i, down_term p m i = down_term q m i) by (intros; unfold down_term; by rewrite E1, Hf).
  assert (Hch : forall i, b2z (charged p m) i = b2z (charged q m) i)
    by (intros; unfold b2z, charged, failed_done; by rewrite E1, E2, Hc).
  assert (Hov : forall fi g g', (forall i, g i = g' i) -> over_file m fi g = over_file m fi g').
  { intros fi g g' H'. unfold over_file. destruct (FileRange m fi). by apply sum_range_ext. }
  apply JobProgress_eq; simpl; try done.
  - apply list_eq. intros fi. rewrite !list_lookup_imap.
    specialize (Ef fi). unfold file_of in Ef. cbv zeta in Ef.
    destruct (p_files p !! fi) as [f|] eqn:Ep, (p_files q !! fi) as [g|] eqn:Eq;
      [|apply lookup_lt_Some in Ep; apply lookup_ge_None in Eq; lia
       |apply lookup_lt_Some in Eq; apply lookup_ge_None in Ep; lia|done].
    simpl in *. destruct Ef as (F1 & F2 & F3 & F4 & F5 & F6 & F7 & F8). f_equal.
    rewrite Hp, (Hov fi (down_term p m) (down_term q m)), (Hov fi (failed_term p m) (failed_term q m)) by done.
    destruct f, g; simpl in *; subst; done.
  - apply over_files_ext. intros. by rewrite Hp.
  - apply over_files_ext. intros. by apply Hov.
  - apply over_files_ext. intros. by apply Hov.
Qed.

(** Marking an article failed with and without the manifest. *)
Lemma markFailed_same_bits m p i u :
  same_bits (fst (markFailedUncovered p m i u))
    (let '(q, ok) := setFailedBits p i in if ok then limitCharge q i u else q).
Proof.
  unfold markFailedUncovered, setFailedBits. destruct (Get (p_done p) i); [by repeat split|].
  cbn [negb]. set (q := limitCharge _ i u). set (fi := fileIndexForArticle m i).
  assert (Hf : forall r g, length (alter g fi (p_files r)) = length (p_files r)) by (intros; apply length_alter).
  cbv zeta. unfold movePending. destruct (negb (Get (p_emitted p) i)), (negb (countsPending q fi));
    case_decide; (split; [done|split; [simpl; by rewrite ?length_alter|]|done]); intros k; unfold file_of; simpl;
    (destruct (decide (k = fi)) as [->|Hne];
      [rewrite ?list_lookup_alter_eq; by destruct (p_files q !! fi) as [[]|]
      |by rewrite ?list_lookup_alter_ne by done]).
Qed.

Lemma clearEmitted_same_bits m p i :
  same_bits (clearEmitted p m i) (set_p_emitted p (Clear (p_emitted p) i)) \/
  (Get (p_emitted p) i = false /\ clearEmitted p m i = p).
Proof.
  unfold clearEmitted. destruct (Get (p_emitted p) i); [|by right]. left. simpl.
  set (fi := fileIndexForArticle m i). unfold movePending.
  destruct (negb (Get (p_done p) i)); [|by repeat split].
  destruct (negb _); [by repeat split|].
  split; [done|split; [simpl; by rewrite length_alter|]|done]. intros k. unfold file_of; simpl.
  destruct (decide (k = fi)) as [->|Hne];
    [rewrite list_lookup_alter_eq; by destruct (p_files p !! fi) as [[]|]|by rewrite list_lookup_alter_ne by done].
Qed.

(** ** A fresh progress fits its table *)
Lemma table_counts t : wf_table t ->
  (fm_articles <$> fileMetaFromTable t) = (e_articleCount <$> t_files t) /\
  t_offsets t = offsets_from 0 (e_articleCount <$> t_files t).
Proof.
  intros [specs ->]. split.
  - unfold fileMetaFromTable. rewrite <- list_fmap_compose. apply list_eq. intros k.
    rewrite !list_lookup_fmap. unfold NumFiles, ArticleCount, file_at. simpl.
    destruct (decide (k < length specs)%nat) as [Hk|Hk].
    + rewrite lookup_seq_lt by (by rewrite length_fmap). simpl.
      destruct (lookup_lt_is_Some_2 specs k Hk) as [s Hs]. rewrite list_lookup_fmap, Hs. simpl.
      rewrite (nth_lookup_Some _ _ _ (newEntry s)); [done|]. by rewrite list_lookup_fmap, Hs.
    + rewrite lookup_seq_ge by (rewrite length_fmap; lia). rewrite list_lookup_fmap.
      by rewrite (lookup_ge_None_2 specs k) by lia.
  - simpl. f_equal. rewrite <- list_fmap_compose. by apply list_fmap_ext.
Qed.

Lemma sized_shape m : wf_manifest m -> shape m (newJobProgressSized (fileMetaFromTable (m_ft m))).
Proof.
  intros W. pose proof W as (Wt & Hn & _). destruct (table_counts _ Wt) as [Hc Ho].
  assert (sum_list (fm_articles <$> fileMetaFromTable (m_ft m)) = NumArticles m) as Hs.
  { unfold NumArticles. rewrite Hn, Hc. unfold TotalArticles, offset, NumFiles. rewrite Ho.
    assert (forall l next, nth (length l) (offsets_from next l) 0%nat = (next + sum_list l)%nat) as Hl.
    { induction l as [|c l IH]; intros next; simpl; [lia|]. rewrite IH. lia. }
    rewrite <- (length_fmap e_articleCount (t_files (m_ft m))) at 1. by rewrite Hl. }
  unfold newJobProgressSized. split; simpl; rewrite ?Hs; auto.
  - split; [apply wf_newBitset|]. unfold Len, newBitset; simpl. lia.
  - split; [apply wf_newBitset|]. unfold Len, newBitset; simpl. lia.
  - split; [apply wf_newBitset|]. unfold Len, newBitset; simpl. lia.
  - by rewrite Hc, Ho.
  - rewrite length_fmap. unfold fileMetaFromTable. by rewrite length_fmap, length_seq.
Qed.

Lemma upd_file_shape m p fi g : shape m p -> shape m (upd_file p fi g).
Proof.
  intros S. apply (reshaped_shape m p); [done|]. destruct S as [_ [W1 L1] [W2 L2] [W3 L3] _ _ S7].
  split; try done. apply files_upd.
Qed.

Lemma newJobProgress_shape m seed : wf_manifest m -> shape m (newJobProgress (m_ft m) seed).
Proof.
  intros W. pose proof (sized_shape m W) as S. unfold newJobProgress. destruct seed as [ss|].
  - revert S. generalize (newJobProgressSized (fileMetaFromTable (m_ft m))) as p.
    induction (imap pair ss) as [|[fi s] l IH]; intros p S; [done|]. simpl. apply IH.
    unfold seed_file. apply set_fetch_shape. by apply upd_file_shape.
  - revert S. generalize (newJobProgressSized (fileMetaFromTable (m_ft m))) as p.
    induction (seq 0 (NumFiles (m_ft m))) as [|fi l IH]; intros p S; [done|]. simpl. apply IH.
    by apply upd_file_shape.
Qed.

(** Every table has a manifest: one article per slot. *)
Lemma table_manifest t : wf_table t -> exists m, m_ft m = t /\ wf_manifest m.
Proof.
  intros W. set (arts := repeat (mkArticle "" 0 0) (TotalArticles t)).
  assert (newManifest t arts = Some (mkManifest t (ja_id <$> arts) (ja_bytes <$> arts) (ja_number <$> arts))) as E.
  { unfold newManifest. rewrite decide_False; [done|]. unfold arts. rewrite repeat_length. lia. }
  destruct (wf_newManifest _ _ _ W E) as [Wm Et]. eauto.
Qed.

(** A fresh job over the example manifest. *)
Definition ex_progress : JobProgress :=
  default (newJobProgressSized []) (recompute (newJobProgress (m_ft ex_manifest) None) ex_manifest).

Lemma ex_progress_consistent : consistent ex_manifest ex_progress.
Proof.
  destruct (recompute_spec ex_manifest (newJobProgress (m_ft ex_manifest) None)) as (p & E & C & _).
  - apply newJobProgress_shape. exact ex_manifest_wf.
  - unfold ex_progress. by rewrite E.
Qed.
