(* ===== verification/Figures.v ===== *)
(** * Figures derived from a progress ([internal/job/progress.go],
    [internal/job/repair.go])

    The read-only accessors, the byte figures of the queue row, the repair
    verdict, the stamps and the early-abort test.  A [*JobProgress] that may
    be nil is an option; indices are Go's [int]. *)
From S2P Require Import Prelude Bitset FileTable Rows Progress ProgressOps.
From stdpp Require Import base gmap list strings.
From Stdlib Require Import ZArith Lia SpecFloat.
Local Open Scope Z_scope.

(** ** Accessors *)

(** [p.files[fi]] when [p] is not nil and [fi] is in range. *)
Definition file_in (p : option JobProgress) (fi : Z) : option FileProgress :=
  match p with
  | None => None
  | Some p => if decide (fi < 0 \/ fi >= Z.of_nat (length (p_files p))) then None
              else p_files p !! Z.to_nat fi
  end.

Definition AllVerified (p : option JobProgress) : bool :=
  match p with None => false | Some p => forallb f_Verified (p_files p) end.

Definition FileVerified (p : option JobProgress) (fi : Z) : bool :=
  match file_in p fi with None => false | Some f => f_Verified f end.

Definition ProgressNumFiles (p : option JobProgress) : nat :=
  match p with None => 0%nat | Some p => length (p_files p) end.

Definition ProgressTotalArticles (p : option JobProgress) : nat :=
  match p with None => 0%nat | Some p => Len (p_done p) end.

Definition ArticleDone (p : option JobProgress) (i : Z) : bool :=
  match p with
  | None => false
  | Some p => if decide (i < 0 \/ i >= Z.of_nat (Len (p_done p))) then false else Get (p_done p) (Z.to_nat i)
  end.

Definition ArticleFailed (p : option JobProgress) (i : Z) : bool :=
  match p with
  | None => false
  | Some p => if decide (i < 0 \/ i >= Z.of_nat (Len (p_failed p))) then false
              else Get (p_failed p) (Z.to_nat i)
  end.

Definition FileComplete (p : option JobProgress) (fi : Z) : bool :=
  match file_in p fi with None => false | Some f => f_Complete f end.

Definition FileFetchPolicy (p : option JobProgress) (fi : Z) : FetchPolicy :=
  match file_in p fi with None => FetchAlways | Some f => f_Fetch f end.

Definition FileFailedBytes (p : option JobProgress) (fi : Z) : Z :=
  match file_in p fi with None => 0 | Some f => f_FailedBytes f end.

Definition FileFilename (p : option JobProgress) (fi : Z) : string :=
  match file_in p fi with None => ""%string | Some f => f_Filename f end.

Definition FileAssembledCRC32 (p : option JobProgress) (fi : Z) : Z :=
  match file_in p fi with None => 0 | Some f => f_AssembledCRC32 f end.

Definition PendingArticles (p : option JobProgress) : Z :=
  match p with None => 0 | Some p => p_pendingArticles p end.
Definition ArticlesFailed (p : option JobProgress) : Z :=
  match p with None => 0 | Some p => p_articlesFailed p end.
Definition FailedBytes (p : option JobProgress) : Z :=
  match p with None => 0 | Some p => p_failedBytes p end.

(** ** Bytes *)

(** [fileBytesDownloaded]: the recorded share of an unverified file, else the
    counter.  The product is an [int64]; Go's division truncates. *)
Definition fileBytesDownloaded (p : JobProgress) (fi : nat) : Z :=
  let f := file_of p fi in
  if f_Verified f then f_BytesDownloaded f
  else
    let n := Z.of_nat (snd (fileRange p fi)) - Z.of_nat (fst (fileRange p fi)) in
    if decide (n = 0) then 0
    else
      let recorded := Z.min (Z.max (f_Recorded f) 0) n in
      Z.quot (wraps 64 (f_Bytes f * recorded)) n.

Definition FileBytesDownloaded (p : option JobProgress) (fi : Z) : Z :=
  match p, file_in p fi with
  | Some q, Some _ => fileBytesDownloaded q (Z.to_nat fi)
  | _, _ => 0
  end.

Definition ContentFailedBytes (p : option JobProgress) : Z :=
  match p with
  | None => 0
  | Some p => foldl (fun n f => if f_IsPar2 f then n else n + f_FailedBytes f) 0 (p_files p)
  end.

Definition HasPar2Files (p : option JobProgress) : bool :=
  match p with None => false | Some p => existsb f_IsPar2 (p_files p) end.

(** One file's step in the loop of [sizeFigures]. *)
Definition size_step (p : JobProgress) (acc : Z * Z) (fi : nat) : Z * Z :=
  let f := file_of p fi in
  let '(expected, remaining) := acc in
  if decide (f_Fetch f <> FetchAlways) then acc
  else
    let expected := expected + f_Bytes f in
    if f_Complete f then (expected, remaining)
    else
      let left := f_Bytes f - fileBytesDownloaded p fi - f_FailedBytes f in
      (expected, if decide (left > 0) then remaining + left else remaining).

Definition sizeFigures (p : option JobProgress) : Z * Z :=
  match p with
  | None => (0, 0)
  | Some p => foldl (size_step p) (0, 0) (seq 0 (length (p_files p)))
  end.

Definition derivedRemainingBytes (p : JobProgress) : Z := snd (sizeFigures (Some p)).
Definition RemainingBytes (p : option JobProgress) : Z :=
  match p with None => 0 | Some p => derivedRemainingBytes p end.
Definition ExpectedBytes (p : option JobProgress) : Z := fst (sizeFigures p).
Definition ProgressFigures (p : option JobProgress) : Z * Z * Z :=
  match p with None => (0, 0, 0) | Some q => (sizeFigures p, p_failedBytes q) end.

Definition WrittenBytes (expected remaining failed : Z) : Z := Z.max (expected - failed - remaining) 0.

(** ** Recovery volumes *)

(** [RecoveryReleased]: fetched, held, total; the table is the classifier. *)
Definition RecoveryReleased (p : option JobProgress) (isRecovery : nat -> bool) : Z * Z * Z :=
  match p with
  | None => (0, 0, 0)
  | Some p =>
      let '(held, total) := foldl (fun acc fi =>
        let '(held, total) := acc in
        if negb (isRecovery fi) then acc
        else (if decide (f_Fetch (file_of p fi) <> FetchAlways) then held + 1 else held, total + 1))
        (0, 0) (seq 0 (length (p_files p))) in
      (if decide (p_par2ReleaseReason p <> ""%string) then total - held else 0, held, total)
  end.

Definition FetchedRecoveryBlocks (p : option JobProgress) (m : Manifest) : Z :=
  match p with
  | None => 0
  | Some p => foldl (fun n fi =>
      let f := file_of p fi in
      if negb (IsPar2Recovery (m_ft m) fi) || bool_decide (f_Fetch f <> FetchAlways) ||
         negb (f_Complete f) || bool_decide (f_FailedBytes f <> 0) then n
      else match RecoveryVolumeBlocks (Subject (m_ft m) fi) with
           | Some b => n + b
           | None => n
           end) 0 (seq 0 (length (p_files p)))
  end.

Definition HasPar2Verdict (p : option JobProgress) : bool :=
  match p with None => false | Some p => bool_decide (p_par2ReleaseReason p <> ""%string) end.
Definition HasDeferredPar2 (p : option JobProgress) : bool :=
  match p with None => false | Some p => existsb (fun f => bool_decide (f_Fetch f = FetchIfNeeded)) (p_files p) end.
Definition UsesOnDemandPar2 (p : option JobProgress) : bool :=
  match p with None => false | Some p => existsb (fun f => bool_decide (f_Fetch f <> FetchAlways)) (p_files p) end.
Definition DeferredRecoveryIndices (p : JobProgress) : list nat :=
  base.filter (fun fi => f_Fetch (file_of p fi) = FetchIfNeeded) (seq 0 (length (p_files p))).

(** ** The repair verdict ([repair.go]) *)
Inductive RepairState : Type :=
| RepairIntact | RepairPossible | RepairUnknown | RepairNoCapacity | RepairBeyondCapacity.

#[export] Instance RepairState_eq_dec : EqDecision RepairState.
Proof. solve_decision. Defined.

Definition AllRepairStates : list RepairState :=
  [RepairIntact; RepairPossible; RepairUnknown; RepairNoCapacity; RepairBeyondCapacity].

Definition Hopeless (s : RepairState) : bool :=
  bool_decide (s = RepairNoCapacity) || bool_decide (s = RepairBeyondCapacity).

Definition RepairStateFrom (contentFailedBytes recoveryBytes : Z) (hasPar2Files : bool) : RepairState :=
  if decide (contentFailedBytes = 0) then RepairIntact
  else if decide (recoveryBytes = 0) then
    if hasPar2Files then RepairUnknown else RepairNoCapacity
  else if decide (contentFailedBytes > recoveryBytes) then RepairBeyondCapacity
  else RepairPossible.

(** ** Stamps: nanoseconds since the zero [time.Time] *)

(** [t.Unix()]: the zero time is 62135596800 seconds before the epoch. *)
Definition Unix (t : Z) : Z := t / 1000000000 - 62135596800.
Definition isJobStamp (t : Z) : bool := bool_decide (Unix t > 0).
Definition jobStampOrZero (t : Z) : Z := if isJobStamp t then t else 0.

Definition setDownloadStartedOnce (p : JobProgress) (t : Z) : JobProgress * bool :=
  if negb (isJobStamp t) || negb (p_downloadStarted p =? 0) || negb (p_downloadFinished p =? 0)
  then (p, false) else (set_p_downloadStarted p t, true).

Definition setDownloadFinishedOnce (p : JobProgress) (t : Z) : JobProgress * bool :=
  if negb (isJobStamp t) || negb (p_downloadFinished p =? 0)
  then (p, false) else (set_p_downloadFinished p t, true).

Definition clearDownloadFinished (p : JobProgress) : JobProgress := set_p_downloadFinished p 0.
Definition clearDownloadStamps (p : JobProgress) : JobProgress :=
  set_p_downloadFinished (set_p_downloadStarted p 0) 0.
Definition restoreDownloadStamps (p : JobProgress) (started finished : Z) : JobProgress :=
  let p := clearDownloadStamps p in
  let p := set_p_downloadStarted p (jobStampOrZero started) in
  set_p_downloadFinished p (jobStampOrZero finished).

(** ** Early abort *)
Definition earlyAbortSample : Z := 10.

(** [float64(z)]; [earlyAbortThreshold] is the double nearest 0.80. *)
Definition float64 (z : Z) : spec_float := binary_normalize 53 1024 z 0 false.
Definition earlyAbortThreshold : spec_float := S754_finite false 7205759403792794 (-53).

Definition isEarlyAbort (p : JobProgress) : JobProgress * bool :=
  if p_earlyAborted p then (p, false)
  else if decide (p_articlesResolved p < earlyAbortSample) then (p, false)
  else
    let rate := SFdiv 53 1024 (float64 (p_articlesFailed p)) (float64 (p_articlesResolved p)) in
    if SFleb earlyAbortThreshold rate then (set_p_earlyAborted p true, true)
    else (p, false).

Example threshold_is_0_8 : SFdiv 53 1024 (float64 8) (float64 10) = earlyAbortThreshold.
Proof. vm_compute. reflexivity. Qed.
Example rate_7999 : SFleb earlyAbortThreshold (SFdiv 53 1024 (float64 79999) (float64 100000)) = false.
Proof. vm_compute. reflexivity. Qed.

(** ** Lemmas *)
Definition fetched (p : JobProgress) (fi : nat) : bool := bool_decide (f_Fetch (file_of p fi) = FetchAlways).

Definition left_of (p : JobProgress) (fi : nat) : Z :=
  if fetched p fi && negb (f_Complete (file_of p fi)) then
    Z.max 0 (f_Bytes (file_of p fi) - fileBytesDownloaded p fi - f_FailedBytes (file_of p fi))
  else 0.

(** The loop of [sizeFigures] is a pair of sums. *)
Lemma sizeFigures_sums p :
  sizeFigures (Some p) =
    (sum_range (fun fi => if fetched p fi then f_Bytes (file_of p fi) else 0) 0 (length (p_files p)),
     sum_range (left_of p) 0 (length (p_files p))).
Proof.
  unfold sizeFigures. generalize (length (p_files p)) as n, 0%nat as lo.
  assert (H : forall l e r, foldl (size_step p) (e, r) l =
    (e + sumZ ((fun fi => if fetched p fi then f_Bytes (file_of p fi) else 0) <$> l), r + sumZ (left_of p <$> l))).
  { induction l as [|fi l IH]; intros e r; cbn [foldl fmap list_fmap sumZ foldr]; [f_equal; lia|].
    unfold size_step at 2, left_of at 1, fetched at 1 3.
    destruct (decide (f_Fetch (file_of p fi) <> FetchAlways)) as [Hf|Hf].
    - rewrite IH, bool_decide_eq_false_2 by done. simpl. f_equal; unfold sumZ; lia.
    - rewrite bool_decide_eq_true_2 by (destruct (decide (f_Fetch (file_of p fi) = FetchAlways)); [done|tauto]).
      destruct (f_Complete (file_of p fi)); rewrite IH; simpl; f_equal; unfold sumZ; try lia.
      case_decide; lia. }
  intros n lo. rewrite H. unfold sum_range. f_equal; lia.
Qed.

(** The bytes of file [fi]'s articles that are done ([b = true]) or not. *)
Definition masked (m : Manifest) (p : JobProgress) (b : bool) (i : nat) : Z :=
  if Bool.eqb (Get (p_done p) i) b then ArticleBytes m i else 0.

(** A consistent file's counters add up to the bytes of its done articles. *)
Lemma file_bytes_done m p fi :
  consistent m p -> (fi < NumFiles (m_ft m))%nat ->
  f_BytesDownloaded (file_of p fi) + f_FailedBytes (file_of p fi) =
    over_file m fi (masked m p true).
Proof.
  intros [S C] Hfi. destruct (co_file _ _ C fi Hfi) as (_ & -> & -> & _). unfold over_file.
  destruct (FileRange m fi) as [lo hi]. generalize (hi - lo)%nat as n. intros n. revert lo.
  induction n as [|n IH]; intros lo; [done|]. rewrite !sum_range_S. specialize (IH (Datatypes.S lo)).
  assert (down_term p m lo + failed_term p m lo = masked m p true lo) as Hlo.
  { unfold masked, down_term, failed_term, failed_done. destruct (Get (p_done p) lo); simpl; lia. }
  lia.
Qed.

Lemma over_file_split m fi f g h :
  (forall i, f i = g i + h i) -> over_file m fi f = over_file m fi g + over_file m fi h.
Proof.
  intros H. unfold over_file. destruct (FileRange m fi) as [lo hi]. generalize (hi - lo)%nat as n.
  intros n. revert lo. induction n as [|n IH]; intros lo; [done|]. rewrite !sum_range_S, IH, H. lia.
Qed.

Lemma over_file_nonneg m fi f : wf_manifest m -> (fi < NumFiles (m_ft m))%nat ->
  (forall i, (i < NumArticles m)%nat -> 0 <= f i) -> 0 <= over_file m fi f.
Proof.
  intros (Hw & Hn & _) Hfi H. unfold over_file, FileRange, FileTable.Range. apply sum_range_nonneg.
  intros i Hi. apply H. unfold NumArticles. rewrite Hn. apply (in_file_total _ Hw fi). split; [done|lia].
Qed.

Lemma done_split m p fi :
  over_file m fi (ArticleBytes m) = over_file m fi (masked m p true) + over_file m fi (masked m p false).
Proof. apply over_file_split. intros i. unfold masked. destruct (Get (p_done p) i); simpl; lia. Qed.

Lemma masked_nonneg m p fi b : wf_manifest m -> (fi < NumFiles (m_ft m))%nat ->
  (forall i, (i < NumArticles m)%nat -> 0 <= ArticleBytes m i) -> 0 <= over_file m fi (masked m p b).
Proof.
  intros W Hfi Ha. apply over_file_nonneg; [done..|]. intros i Hi. unfold masked.
  destruct (Bool.eqb _ _); [by apply Ha|lia].
Qed.

(** The bytes of file [fi] that are still to come: those of its articles not
    done, while it is fetched and not complete. *)
Definition outstanding (m : Manifest) (p : JobProgress) (fi : nat) : Z :=
  if fetched p fi && negb (f_Complete (file_of p fi)) then
    over_file m fi (masked m p false)
  else 0.

(** ** Properties *)

(** The remaining bytes a verified job reports are exactly the bytes of
    the articles not yet done in the fetched files that are not complete,
    whatever partial charges the failed articles carry, and they never exceed
    the expected bytes, which are the sizes of the fetched files. *)
Theorem RemainingBytes_exact m p :
  consistent m p -> AllVerified (Some p) = true ->
  (forall i, (i < NumArticles m)%nat -> 0 <= ArticleBytes m i) ->
  (forall fi, (fi < NumFiles (m_ft m))%nat -> Bytes (m_ft m) fi = over_file m fi (ArticleBytes m)) ->
  RemainingBytes (Some p) = over_files m (outstanding m p) /\
  ExpectedBytes (Some p) = over_files m (fun fi => if fetched p fi then Bytes (m_ft m) fi else 0) /\
  0 <= RemainingBytes (Some p) <= ExpectedBytes (Some p).
Proof.
  intros C Hv Ha Hb. pose proof C as [S Cn]. pose proof (sh_m _ _ S) as W.
  assert (Hleft : forall fi, (fi < NumFiles (m_ft m))%nat -> left_of p fi = outstanding m p fi).
  { intros fi Hfi. unfold left_of, outstanding. destruct (_ && _); [|done].
    assert (f_Verified (file_of p fi) = true) as Hvf.
    { unfold AllVerified in Hv. rewrite forallb_forall in Hv. apply Hv. unfold file_of.
      rewrite <- (sh_files _ _ S) in Hfi. destruct (lookup_lt_is_Some_2 _ _ Hfi) as [f Hf]. rewrite Hf. simpl.
      apply list_elem_of_In. by eapply list_elem_of_lookup_2. }
    unfold fileBytesDownloaded. rewrite Hvf. pose proof (file_bytes_done m p fi C Hfi) as Hd.
    destruct (co_file _ _ Cn fi Hfi) as (_ & _ & _ & E4). rewrite E4, (Hb fi Hfi).
    pose proof (done_split m p fi).
    pose proof (masked_nonneg m p fi false W Hfi Ha).
    lia. }
  assert (Hexp : forall fi, (fi < NumFiles (m_ft m))%nat ->
    (if fetched p fi then f_Bytes (file_of p fi) else 0) = (if fetched p fi then Bytes (m_ft m) fi else 0)).
  { intros fi Hfi. by destruct (co_file _ _ Cn fi Hfi) as (_ & _ & _ & ->). }
  unfold ExpectedBytes, RemainingBytes, derivedRemainingBytes. rewrite !sizeFigures_sums, (sh_files _ _ S). simpl.
  rewrite (sum_range_ext (left_of p) (outstanding m p)) by (intros; apply Hleft; lia).
  rewrite (sum_range_ext (fun fi => if fetched p fi then f_Bytes (file_of p fi) else 0)
    (fun fi => if fetched p fi then Bytes (m_ft m) fi else 0) 0 (NumFiles (m_ft m)))
    by (intros; apply Hexp; lia).
  assert (Hle : forall fi, (fi < NumFiles (m_ft m))%nat ->
    0 <= outstanding m p fi <= (if fetched p fi then Bytes (m_ft m) fi else 0)).
  { intros fi Hfi. unfold outstanding. rewrite (Hb fi Hfi).
    pose proof (over_file_nonneg m fi (ArticleBytes m) W Hfi Ha).
    pose proof (done_split m p fi).
    pose proof (masked_nonneg m p fi false W Hfi Ha).
    pose proof (masked_nonneg m p fi true W Hfi Ha).
    destruct (fetched p fi), (f_Complete (file_of p fi)); simpl; lia. }
  split_and!; try done.
  - apply sum_range_nonneg. intros fi Hfi. apply Hle. lia.
  - apply sum_range_le. intros fi Hfi. apply Hle. lia.
Qed.

(** ** Witness: one of three articles arrived, another is charged in part *)
Definition ex_partly : JobProgress :=
  fst (markFailedUncovered (fst (markDone ex_progress ex_manifest 0)) ex_manifest 2 3).

Lemma ex_partly_consistent : consistent ex_manifest ex_partly.
Proof.
  apply markFailedUncovered_consistent; [|vm_compute; lia].
  apply markDone_consistent; [exact ex_progress_consistent|vm_compute; lia].
Qed.

Lemma RemainingBytes_exact_witness :
  RemainingBytes (Some ex_partly) = 10 /\
  RemainingBytes (Some ex_partly) = over_files ex_manifest (outstanding ex_manifest ex_partly).
Proof.
  split; [vm_compute; reflexivity|].
  refine (proj1 (RemainingBytes_exact ex_manifest ex_partly ex_partly_consistent _ _ _)).
  - vm_compute. reflexivity.
  - intros [|[|[|i]]] H; vm_compute; try congruence. destruct i; congruence.
  - intros [|[|[|i]]] H; [vm_compute; reflexivity..|]. exfalso. change (NumFiles (m_ft ex_manifest)) with 3%nat in H. lia.
Defined.
