(* ===== verification/Downloader.v ===== *)
(** * The downloader's decisions ([internal/downloader])

    Servers and their penalties, the choice of a server for an article, one
    dispatch attempt, and what the end of a fetch does to the tracker, to the
    server and to the job.  The channels are their occupancy; sockets, TLS and
    the goroutines around the decisions are left out.  Time is in
    nanoseconds. *)
From S2P Require Import Prelude Bitset Crc GoBytes Decoder UU Figures Tracker.
From stdpp Require Import base numbers gmap sorting list strings.
From Stdlib Require Import ZArith Lia.
From Stdlib Require Import Floats.SpecFloat.
Local Open Scope Z_scope.

(** ** Errors of an NNTP operation *)
Inductive sentinel : Type :=
| ErrAuthRejected | ErrServerUnavailable | ErrTransient | ErrNoArticle | ErrIdleClosed | ErrAuthRequired
| ErrClosed | ErrDesynced | ErrInvalidState | ErrInvalidCredential
| EOF | ErrUnexpectedEOF | ECONNRESET | ECONNABORTED | EPIPE
| Timeout          (* a [Timeout() bool] that answers true *)
| OpError.         (* a [*net.OpError] *)
#[export] Instance sentinel_eq_dec : EqDecision sentinel.
Proof. solve_decision. Defined.

(** An error is what [errors.Is] and [errors.AsType] find in its chain. *)
Notation nntp_error := (list sentinel) (only parsing).
Definition Is (err : list sentinel) (s : sentinel) : bool := bool_decide (s ∈ err).

Definition second : Z := 1000000000.
Definition minute : Z := 60 * second.
Definition PenaltyUnknown : Z := 3 * minute.
Definition PenaltyVeryShort : Z := 6 * second.
Definition PenaltyShort : Z := 1 * minute.
Definition Penalty502 : Z := 5 * minute.
Definition PenaltyTimeout : Z := 10 * minute.
Definition PenaltyPerm : Z := 10 * minute.

Definition isTimeout (err : list sentinel) : bool := Is err Timeout.

Definition PenaltyFor (err : list sentinel) : Z :=
  if Is err ErrAuthRejected then PenaltyPerm
  else if Is err ErrServerUnavailable then Penalty502
  else if Is err ErrTransient then PenaltyVeryShort
  else if Is err ErrNoArticle then 0
  else if Is err ErrIdleClosed then 0
  else if Is err ErrAuthRequired then PenaltyShort
  else if Is err ErrClosed then PenaltyUnknown
  else if Is err ErrDesynced then PenaltyUnknown
  else if Is err ErrInvalidState then PenaltyShort
  else if isTimeout err then PenaltyUnknown
  else PenaltyUnknown.

Definition isConnFault (err : list sentinel) : bool :=
  Is err EOF || Is err ErrUnexpectedEOF || Is err ECONNRESET || Is err ECONNABORTED || Is err EPIPE || isTimeout err.

Definition classifyConnError (err : list sentinel) : string :=
  if Is err ErrAuthRejected then "nntp_auth_rejected"
  else if Is err ErrServerUnavailable then "nntp_server_unavailable"
  else if Is err ErrTransient then "nntp_transient"
  else if Is err ErrAuthRequired then "nntp_auth_required"
  else if Is err ErrClosed then "conn_closed"
  else if Is err ErrInvalidState then "nntp_invalid_state"
  else if Is err ErrInvalidCredential then "invalid_credential"
  else if Is err ErrDesynced then "nntp_desynced"
  else if isTimeout err then "timeout"
  else if Is err OpError then "network_error"
  else "other_connection_error".

(** ** Servers *)
Record ServerConfig : Type := mkConfig {
  cfg_Name : string;
  cfg_Connections : Z;
  cfg_Priority : Z;
  cfg_Optional : bool;
  cfg_Enable : bool;
}.

(** [penaltyExpiry] is [None] for the zero time. *)
Record Server : Type := mkServer {
  cfg : ServerConfig;
  badConns : Z;
  goodConns : Z;
  penaltyExpiry : option Z;
  deactivated : bool;
}.

Definition NewServer (c : ServerConfig) : Server := mkServer c 0 0 None false.

Definition RecordBadConnection (s : Server) : Server :=
  mkServer (cfg s) (badConns s + 1) (goodConns s) (penaltyExpiry s) (deactivated s).

(** [RecordConnFault], its compare-and-swap undisturbed. *)
Definition RecordConnFault (s : Server) : Server * bool :=
  let n := badConns s + 1 in
  if decide (n > cfg_Connections (cfg s))
  then (mkServer (cfg s) 0 (goodConns s) (penaltyExpiry s) (deactivated s), true)
  else (mkServer (cfg s) n (goodConns s) (penaltyExpiry s) (deactivated s), false).

Definition RecordGoodConnection (s : Server) : Server :=
  mkServer (cfg s) 0 (goodConns s + 1) (penaltyExpiry s) (deactivated s).

(** The double nearest 0.3. *)
Definition OptionalDeactivationThreshold : spec_float := S754_finite false 5404319552844595 (-54).

Definition shouldDeactivateOptional (s : Server) : bool :=
  if negb (cfg_Optional (cfg s)) then false
  else
    let ratio := SFdiv 53 1024 (float64 (badConns s)) (float64 (cfg_Connections (cfg s))) in
    SFltb OptionalDeactivationThreshold ratio.

Definition ApplyPenalty (s : Server) (now d : Z) : Server :=
  mkServer (cfg s) (badConns s) (goodConns s) (Some (now + d))
    (if shouldDeactivateOptional s then true else deactivated s).

Definition Active (s : Server) (now : Z) : bool :=
  if negb (cfg_Enable (cfg s)) then false
  else
    let expired := match penaltyExpiry s with None => false | Some e => bool_decide (now > e) end in
    if deactivated s then expired
    else match penaltyExpiry s with None => true | Some _ => expired end.

Definition ClearDeactivation (s : Server) : Server :=
  mkServer (cfg s) (badConns s) (goodConns s) None false.

Definition checkExpiredPenalties (servers : list Server) (now : Z) : list Server :=
  (fun s => if Active s now then ClearDeactivation s else s) <$> servers.

(** [Options.NoPenalties] and [Options.MaxPenalty]. *)
Definition clampPenalty (noPenalties : bool) (maxPenalty pen : Z) : Z :=
  let maxPen := if decide (noPenalties = true /\ (maxPenalty = 0 \/ maxPenalty > PenaltyShort))
                then PenaltyShort else maxPenalty in
  if decide (maxPen > 0 /\ pen > maxPen) then maxPen else pen.

Definition chargeFetchFailure (noPenalties : bool) (maxPenalty now : Z) (s : Server) (err : list sentinel) : Server :=
  let '(s, pen) :=
    if isConnFault err then
      let '(s, owed) := RecordConnFault s in (s, if owed then Some PenaltyTimeout else None)
    else (RecordBadConnection s, Some (PenaltyFor err)) in
  match pen with
  | None => s
  | Some pen =>
      let pen := clampPenalty noPenalties maxPenalty pen in
      if decide (pen > 0) then ApplyPenalty s now pen else s
  end.

(** ** Choosing a server *)
Record dispatchOpts : Type := mkOpts { now : Z; maxArtTries : Z; maxArtOpt : Z; topOnly : bool }.

(** The work channels: what each holds and its capacity; a server without
    one has no room. *)
Notation channels := (gmap string (Z * Z)) (only parsing).
Definition hasRoom (workCh : gmap string (Z * Z)) (name : string) : bool :=
  match workCh !! name with
  | Some (len, cap) => bool_decide (len < cap)
  | None => false
  end.

Definition getMinServerPriority (cfgs : list ServerConfig) : Z :=
  foldl (fun m c => if cfg_Enable c then (if decide (m < 0 \/ cfg_Priority c < m) then cfg_Priority c else m) else m)
    (-1) cfgs.

Definition isServerCandidate (c : ServerConfig) (mask : serverMask) (hasTried : bool) (idx : nat) (topOnly : bool)
    (minPriority optionalTried maxArtOpt : Z) : bool :=
  if hasTried && has_server mask idx then false
  else if negb (cfg_Enable c) then false
  else if topOnly && bool_decide (cfg_Priority c > minPriority) then false
  else if cfg_Optional c && bool_decide (maxArtOpt > 0) && bool_decide (optionalTried >= maxArtOpt) then false
  else true.

Inductive selection : Type :=
| Picked (idx : nat)
| NoCandidate   (* -1 *)
| AllBusy.      (* -2 *)

(** What the loop over the servers keeps. *)
Record scan : Type := mkScanState { anyCandidate : bool; tier : option Z; pick : option nat }.

Definition select_step (workCh : gmap string (Z * Z)) (opts : dispatchOpts) (candidate : nat -> ServerConfig -> bool)
    (st : scan) (x : nat * Server) : scan :=
  let '(idx, srv) := x in
  let c := cfg srv in
  if negb (candidate idx c) then st
  else if negb (Active srv (now opts)) then mkScanState true (tier st) (pick st)
  else
    match tier st with
    | Some t =>
        if decide (cfg_Priority c > t) then mkScanState true (tier st) (pick st)
        else
          let '(t, p) := if decide (cfg_Priority c < t) then (cfg_Priority c, None) else (t, pick st) in
          mkScanState true (Some t)
            (if decide (p = None /\ hasRoom workCh (cfg_Name c) = true) then Some idx else p)
    | None =>
        mkScanState true (Some (cfg_Priority c)) (if hasRoom workCh (cfg_Name c) then Some idx else None)
    end.

Definition indexed {A} (l : list A) : list (nat * A) := imap (fun i x => (i, x)) l.

(** How many optional servers the mask holds. *)
Definition optional_tried (servers : list Server) (mask : serverMask) (hasTried : bool) : Z :=
  if hasTried
  then sumZ ((fun x => if cfg_Optional (cfg (snd x)) && has_server mask (fst x) then 1 else 0) <$> indexed servers)
  else 0.

Definition candidate_of (servers : list Server) (mask : serverMask) (hasTried : bool) (opts : dispatchOpts)
    (idx : nat) (c : ServerConfig) : bool :=
  let minPriority := if topOnly opts then getMinServerPriority (cfg <$> servers) else 0 in
  isServerCandidate c mask hasTried idx (topOnly opts) minPriority (optional_tried servers mask hasTried) (maxArtOpt opts).

Definition selectServerForArticle (servers : list Server) (workCh : gmap string (Z * Z)) (mask : serverMask)
    (hasTried : bool) (opts : dispatchOpts) : selection :=
  let st := foldl (select_step workCh opts (candidate_of servers mask hasTried opts)) (mkScanState false None None)
              (indexed servers) in
  match pick st with
  | Some idx => Picked idx
  | None => if anyCandidate st then AllBusy else NoCandidate
  end.

(** A fresh article would find every candidate server busy. *)
Definition freshArticlesWait (servers : list Server) (workCh : gmap string (Z * Z)) (opts : dispatchOpts) : bool :=
  match selectServerForArticle servers workCh emptyMask false opts with
  | AllBusy => true
  | _ => false
  end.

(** Every active server that has a channel is full, and there is one. *)
Definition allServersFull (servers : list Server) (workCh : gmap string (Z * Z)) (t : Z) : bool :=
  let active := base.filter (fun s => cfg_Enable (cfg s) = true /\ Active s t = true /\ is_Some (workCh !! cfg_Name (cfg s)))
                  servers in
  negb (bool_decide (active = [])) && forallb (fun s => negb (hasRoom workCh (cfg_Name (cfg s)))) active.

(** ** One dispatch attempt *)
Record attempt : Type := mkAttempt {
  a_tracker : dispatchTracker;
  a_workCh : gmap string (Z * Z);
  a_handled : bool;
  a_exhausted : bool;
  a_hadTryList : bool;
  a_server : option nat;   (* the server the request was sent to *)
}.

Definition tryDispatch (servers : list Server) (ctxDone : bool) (opts : dispatchOpts) (t : dispatchTracker)
    (workCh : gmap string (Z * Z)) (key : string * nat * Z) : attempt :=
  let tried := TryListLocked t key in
  let mask := default emptyMask tried in
  let hasTried := bool_decide (is_Some tried) in
  if decide (InFlightLocked t key > 0) then mkAttempt t workCh false false hasTried None
  else if ctxDone then mkAttempt t workCh false false hasTried None
  else if decide (maxArtTries opts > 0 /\ hasTried = true /\ count_tried mask >= maxArtTries opts)
  then mkAttempt t workCh true true hasTried None
  else
    match selectServerForArticle servers workCh mask hasTried opts with
    | Picked idx =>
        let name := default ""%string (cfg_Name ∘ cfg <$> servers !! idx) in
        match workCh !! name with
        | Some (len, cap) =>
            if decide (len < cap) then
              let t := SetTriedLocked t key (set_server mask idx) in
              mkAttempt (IncrementInFlightLocked t key) (<[name := (len + 1, cap)]> workCh) true false hasTried (Some idx)
            else mkAttempt t workCh false false hasTried None
        | None => mkAttempt t workCh false false hasTried None
        end
    | NoCandidate => mkAttempt t workCh true true hasTried None
    | AllBusy => mkAttempt t workCh false false hasTried None
    end.

(** ** The end of a fetch *)
Record decodedPayload : Type := mkPayload { pl_data : list Z; pl_offset : Z; pl_crc : Z }.

Inductive payloadErr : Type :=
| ErrOffsetUnknownForPart
| ErrArticleRemoved
| DecodeFailed (e : decErr)
| BothFailed (yenc uu : decErr).

Definition dmcaKeywords : list (list Z) := [bs "dmca"; bs "removed"; bs "cancel"; bs "blocked"].

(** [bytes.SplitSeq] at a single byte. *)
Fixpoint SplitSeq (s : list Z) (c : Z) : list (list Z) :=
  match s with
  | [] => [[]]
  | b :: s =>
      if b =? c then [] :: SplitSeq s c
      else match SplitSeq s c with
           | [] => [[b]]
           | l :: ls => (b :: l) :: ls
           end
  end.

Definition Contains (s p : list Z) : bool := bool_decide (is_Some (Index s p)).

(** [isDMCA].  [ToLower] is [bytes.ToLower], whose Unicode tables are an
    argument. *)
Definition isDMCA (ToLower : list Z -> list Z) (body : list Z) : bool :=
  existsb (fun line =>
    let lower := ToLower (TrimRight line [CR]) in
    if HasPrefix lower (bs "x-") then false else existsb (Contains lower) dmcaKeywords)
    (SplitSeq body LF).

(** [bytes.ToLower] of a line of ASCII bytes. *)
Definition ToLower_ascii (s : list Z) : list Z := (fun b => if decide (65 <= b <= 90) then b + 32 else b) <$> s.

(** [decodePayload].  [None] is a panic of the UU decoder.  The pools the
    rejected buffers go back to are left out. *)
Definition decodePayload (ToLower : list Z -> list Z) (body : list Z) (requestedPartNumber : Z) :
    option (result payloadErr decodedPayload) :=
  let r := DecodeArticle body in
  match d_err r with
  | None =>
      let art := d_art r in
      if decide (HasOffset art = false /\ requestedPartNumber > 1) then Some (Err ErrOffsetUnknownForPart)
      else Some (Ok (mkPayload (Data art) (Offset art) (CRC art)))
  | Some ErrNotYEnc =>
      u ← DecodeUU body;
      match u with
      | Ok (data, _) =>
          if decide (requestedPartNumber > 1) then Some (Err ErrOffsetUnknownForPart)
          else Some (Ok (mkPayload data 0 (ChecksumIEEE data)))
      | Err uuErr => if isDMCA ToLower body then Some (Err ErrArticleRemoved) else Some (Err (BothFailed ErrNotYEnc uuErr))
      end
  | Some e => Some (Err (DecodeFailed e))
  end.

Inductive resultErr : Type :=
| ErrNoServersLeft
| ErrMissing           (* [nntp.ErrNoArticle] *)
| ErrPayload (e : payloadErr).

(** What leaves the downloader while a request is handled: the job's emitted
    bit, the byte budget's share, and the result. *)
Inductive effect : Type :=
| EfMarkEmitted
| EfClearEmitted
| EfReleaseHeld
| EfResult (payload : option decodedPayload) (err : option resultErr) (held : bool).

(** [emitResult]: [dropped] when the context ended before it was taken. *)
Definition emitResult (dropped : bool) (payload : option decodedPayload) (err : option resultErr) (held : bool) :
    list effect :=
  if dropped then (if held then [EfReleaseHeld] else []) ++ [EfClearEmitted] else [EfResult payload err held].

Inductive get_result : Type :=
| GotConn
| GetPenalized
| GetFailed (err : list sentinel) (cancelled : bool).

Inductive fetch_result : Type :=
| FetchBody (body : list Z)
| FetchFailed (err : list sentinel).

(** What one request meets. *)
Record fetch_env : Type := mkFetchEnv {
  fe_acquired : bool;       (* the byte budget granted its share *)
  fe_gated : bool;          (* the job left, stopped running or was handed off *)
  fe_paused : bool;
  fe_get : get_result;
  fe_fetch : fetch_result;
  fe_cancelled : bool;
  fe_first : bool;          (* first to report this connection lost *)
  fe_dropped : bool;
  fe_now : Z;
  fe_noPenalties : bool;
  fe_maxPenalty : Z;
}.

(** [fetchArticle]: the body, if there is one. *)
Definition fetchArticle (io : fetch_env) (t : dispatchTracker) (s : Server) (key : string * nat * Z) (serverIdx : nat) :
    dispatchTracker * Server * list effect * option (list Z) :=
  if fe_gated io then (UnmarkTried t key serverIdx, s, [EfClearEmitted], None)
  else if fe_paused io then (UnmarkTried t key serverIdx, s, [EfClearEmitted], None)
  else
    match fe_get io with
    | GetPenalized => (UnmarkTried t key serverIdx, s, [], None)
    | GetFailed err cancelled =>
        let t := UnmarkTried t key serverIdx in
        if cancelled then (t, s, [], None)
        else
          let s := RecordBadConnection s in
          let pen := clampPenalty (fe_noPenalties io) (fe_maxPenalty io) (PenaltyFor err) in
          (t, if decide (pen > 0) then ApplyPenalty s (fe_now io) pen else s, [], None)
    | GotConn =>
        match fe_fetch io with
        | FetchBody body => (t, RecordGoodConnection s, [], Some body)
        | FetchFailed err =>
            if Is err ErrIdleClosed then (UnmarkTried t key serverIdx, s, [], None)
            else if Is err ErrNoArticle then
              (t, RecordGoodConnection s, emitResult (fe_dropped io) None (Some ErrMissing) false, None)
            else
              let s := if negb (fe_cancelled io) && fe_first io
                       then chargeFetchFailure (fe_noPenalties io) (fe_maxPenalty io) (fe_now io) s err else s in
              if negb (fe_cancelled io) && isConnFault err
              then (fst (UnmarkTriedAfterFault t key serverIdx), s, [], None)
              else (UnmarkTried t key serverIdx, s, [], None)
        end
    end.

(** [processFetchedArticle]; [None] is a panic of the decoder. *)
Definition processFetchedArticle (ToLower : list Z -> list Z) (io : fetch_env) (t : dispatchTracker) (s : Server)
    (key : string * nat * Z) (part : Z) (body : list Z) : option (dispatchTracker * Server * list effect) :=
  r ← decodePayload ToLower body part;
  match r with
  | Err (DecodeFailed ErrCRCMismatch) =>
      Some (t, RecordGoodConnection s,
            [EfReleaseHeld] ++ emitResult (fe_dropped io) None (Some (ErrPayload (DecodeFailed ErrCRCMismatch))) false)
  | Err e =>
      Some (ClearTried t key, s,
            [EfReleaseHeld; EfMarkEmitted] ++ emitResult (fe_dropped io) None (Some (ErrPayload e)) false)
  | Ok payload => Some (ClearTried t key, s, [EfMarkEmitted] ++ emitResult (fe_dropped io) (Some payload) None true)
  end.

(** [handleRequest], its deferred [clearInFlight] last. *)
Definition handleRequest (ToLower : list Z -> list Z) (io : fetch_env) (t : dispatchTracker) (s : Server)
    (key : string * nat * Z) (part : Z) (serverIdx : nat) : option (dispatchTracker * Server * list effect) :=
  if negb (fe_acquired io) then Some (DecrementInFlight (UnmarkTried t key serverIdx) key, s, [])
  else
    let '(t, s, evs, body) := fetchArticle io t s key serverIdx in
    match body with
    | None => Some (DecrementInFlight t key, s, evs ++ [EfReleaseHeld])
    | Some body =>
        '(t, s, evs') ← processFetchedArticle ToLower io t s key part body;
        Some (DecrementInFlight t key, s, evs ++ evs')
    end.

(** What [applyDispatchPlan] does with an article no server is left for. *)
Definition applyExhausted (dropped : bool) (t : dispatchTracker) (key : string * nat * Z) : dispatchTracker * list effect :=
  (ClearTried t key, [EfMarkEmitted] ++ emitResult dropped None (Some ErrNoServersLeft) false).
