(* ===== verification/DownloaderProps.v ===== *)
(** * Properties of the downloader's decisions

    The server an article goes to, what a dispatch attempt may do, how often
    one article can be attempted, and what becomes of a request's share of
    the byte budget. *)
From S2P Require Import Prelude Bitset Crc GoBytes Decoder DecoderProps UU Figures Tracker Downloader.
From stdpp Require Import base numbers gmap sorting list strings.
From Stdlib Require Import ZArith Lia.
Local Open Scope Z_scope.

(** ** The choice of a server *)
Section choice.
Context (workCh : gmap string (Z * Z)) (opts : dispatchOpts) (candidate : nat -> ServerConfig -> bool).

Definition cand (x : nat * Server) : Prop := candidate (fst x) (cfg (snd x)) = true.
Definition act (x : nat * Server) : Prop := cand x /\ Active (snd x) (now opts) = true.
Definition prio (x : nat * Server) : Z := cfg_Priority (cfg (snd x)).
Definition room (x : nat * Server) : bool := hasRoom workCh (cfg_Name (cfg (snd x))).

(** The active candidates of [l] in tier [t] have no free slot. *)
Definition tier_full (l : list (nat * Server)) (t : option Z) : Prop :=
  forall x, x ∈ l -> act x -> Some (prio x) = t -> room x = false.

Definition scan_inv (l : list (nat * Server)) (st : scan) : Prop :=
  (anyCandidate st = true <-> exists x, x ∈ l /\ cand x) /\
  match tier st with
  | None => forall x, x ∈ l -> ~ act x
  | Some t => (exists x, x ∈ l /\ act x /\ prio x = t) /\ forall x, x ∈ l -> act x -> t <= prio x
  end /\
  match pick st with
  | None => tier_full l (tier st)
  | Some i => exists l1 s l2, l = l1 ++ (i, s) :: l2 /\ act (i, s) /\ Some (prio (i, s)) = tier st /\
      room (i, s) = true /\ tier_full l1 (tier st)
  end.

Lemma elem_snoc {A} (x y : A) l : x ∈ l ++ [y] <-> x ∈ l \/ x = y.
Proof. rewrite elem_of_app, list_elem_of_singleton. done. Qed.

(** A server that changes neither the tier nor the pick. *)
Lemma scan_skip l st x c : scan_inv l st ->
  (c = true <-> anyCandidate st = true \/ cand x) ->
  (act x -> exists t, tier st = Some t /\ t <= prio x /\ (t = prio x -> is_Some (pick st) \/ room x = false)) ->
  scan_inv (l ++ [x]) (mkScanState c (tier st) (pick st)).
Proof.
  intros (Ha & Ht & Hp) Hc Hx. split; [|split]; cbn [anyCandidate tier pick].
  - rewrite Hc, Ha. setoid_rewrite elem_snoc. naive_solver.
  - destruct (tier st) as [t|].
    + destruct Ht as [(y & Hy & Hact & Hpr) Hle]. split; [exists y; rewrite elem_snoc; tauto|].
      intros z [Hz| ->]%elem_snoc Hz'; [by apply Hle|]. destruct (Hx Hz') as (t' & [= ->] & ? & _). done.
    + intros z [Hz| ->]%elem_snoc Hz'; [by apply (Ht z)|]. by destruct (Hx Hz') as (t' & ? & _).
  - destruct (pick st) as [i|].
    + destruct Hp as (l1 & s & l2 & -> & H). exists l1, s, (l2 ++ [x]). by rewrite <- app_assoc.
    + intros z [Hz| ->]%elem_snoc Hz' Hpr; [by apply Hp|]. destruct (Hx Hz') as (t' & Et & _ & H).
      destruct H as [[? ?]|?]; [congruence|done|done].
Qed.

(** A server that opens its tier, or the first with room in it. *)
Lemma scan_take l st x : scan_inv l st -> act x ->
  match tier st with
  | None => True
  | Some t => prio x < t \/ (prio x = t /\ pick st = None)
  end ->
  scan_inv (l ++ [x]) (mkScanState true (Some (prio x)) (if room x then Some (fst x) else None)).
Proof.
  intros (Ha & Ht & Hp) Hx Hc. assert (tier_full l (Some (prio x))) as Hfull.
  { intros y Hy Hact [= Hpr]. destruct (tier st) as [t|]; [|by apply Ht in Hy].
    destruct Ht as [_ Hle]. specialize (Hle y Hy Hact). destruct Hc as [Hlt|[Heq Hn]]; [lia|].
    rewrite Hn in Hp. apply Hp; [done|done|]. f_equal. lia. }
  split; [|split]; cbn [anyCandidate tier pick].
  - split; [intros _|done]. exists x. rewrite elem_snoc. split; [by right|]. by destruct Hx.
  - split; [exists x; rewrite elem_snoc; tauto|]. intros y [Hy| ->]%elem_snoc Hact; [|lia].
    destruct (tier st) as [t|]; [|by apply Ht in Hy]. destruct Ht as [_ Hle]. specialize (Hle y Hy Hact). lia.
  - destruct (room x) eqn:Er.
    + exists l, (snd x), []. destruct x as [i s]. by split_and!.
    + intros y [Hy| ->]%elem_snoc Hact Hpr; [by apply Hfull|done].
Qed.

Lemma select_step_inv l st x : scan_inv l st -> scan_inv (l ++ [x]) (select_step workCh opts candidate st x).
Proof.
  intros Hi. destruct x as [idx srv]. unfold select_step. destruct (candidate idx (cfg srv)) eqn:Ec; cbn [negb].
  2: { destruct st as [c t p]. apply (scan_skip _ (mkScanState c t p) _ c Hi); unfold act, cand; cbn; [|]; rewrite Ec; naive_solver. }
  destruct (Active srv (now opts)) eqn:Ea; cbn [negb].
  2: { apply scan_skip; unfold act, cand; cbn; rewrite ?Ea, ?Ec; naive_solver. }
  assert (act (idx, srv)) as Hact by (unfold act, cand; cbn; by rewrite Ec).
  assert (true = true <-> anyCandidate st = true \/ cand (idx, srv)) as Hc
    by (split; [intros _; right; apply Hact|done]).
  destruct (tier st) as [t|] eqn:Et.
  - case_decide as Hgt.
    + rewrite <- Et. apply scan_skip; [done|done|]. intros _. exists t. split; [done|]. unfold prio. cbn. lia.
    + destruct (decide (cfg_Priority (cfg srv) < t)) as [Hlt|Hge].
      * pose proof (scan_take l st (idx, srv) Hi Hact) as H. rewrite Et in H. specialize (H (or_introl Hlt)).
        unfold prio, room in H. cbn [fst snd] in H. destruct (hasRoom workCh (cfg_Name (cfg srv)));
          [rewrite decide_True by done|rewrite decide_False by naive_solver]; done.
      * assert (cfg_Priority (cfg srv) = t) as Heq by lia. destruct (pick st) as [i|] eqn:Ep.
        { rewrite decide_False by naive_solver. rewrite <- Et, <- Ep. apply scan_skip; [done|done|].
          intros _. exists t. split; [done|]. rewrite Ep. unfold prio. cbn. split; [lia|]. intros _. left. eauto. }
        pose proof (scan_take l st (idx, srv) Hi Hact) as H. rewrite Et in H. specialize (H (or_intror (conj Heq Ep))).
        unfold prio, room in H. cbn [fst snd] in H. rewrite Heq in H. destruct (hasRoom workCh (cfg_Name (cfg srv)));
          [rewrite decide_True by done|rewrite decide_False by naive_solver]; done.
  - pose proof (scan_take l st (idx, srv) Hi Hact) as H. rewrite Et in H. apply (H I).
Qed.

Lemma scan_all l : scan_inv l (foldl (select_step workCh opts candidate) (mkScanState false None None) l).
Proof.
  induction l as [|x l IH] using rev_ind.
  - split; [|split]; cbn; [split; [done|]; intros (x & ? & _); set_solver|intros x ?; set_solver|intros x ?; set_solver].
  - rewrite foldl_snoc. by apply select_step_inv.
Qed.
End choice.

Lemma indexed_lookup {A} (l : list A) i x : (i, x) ∈ indexed l <-> l !! i = Some x.
Proof.
  unfold indexed. rewrite elem_of_lookup_imap. split; [intros (j & y & [= -> ->] & H); done|]. intros H. by exists i, x.
Qed.

Lemma indexed_split {A} (l : list A) l1 i x l2 : indexed l = l1 ++ (i, x) :: l2 ->
  l !! i = Some x /\ forall j y, l !! j = Some y -> (j < i)%nat -> (j, y) ∈ l1.
Proof.
  intros E. assert (indexed l !! length l1 = Some (i, x)) as Hl by (rewrite E; apply list_lookup_middle; done).
  unfold indexed in Hl. rewrite list_lookup_imap in Hl. destruct (l !! length l1) as [z|] eqn:Ez; [|done].
  injection Hl as <- ->. split; [done|]. intros j y Hj Hlt. apply list_elem_of_lookup. exists j.
  assert (indexed l !! j = Some (j, y)) as H by (unfold indexed; by rewrite list_lookup_imap, Hj).
  rewrite E, lookup_app_l in H by done. done.
Qed.

Section selection.
Context (servers : list Server) (workCh : gmap string (Z * Z)) (m : serverMask) (hasTried : bool) (opts : dispatchOpts).

(** What rules a server out for an article. *)
Definition eligible (i : nat) (s : Server) : Prop :=
  servers !! i = Some s /\ cfg_Enable (cfg s) = true /\
  ~ (hasTried = true /\ has_server m i = true) /\
  ~ (topOnly opts = true /\ cfg_Priority (cfg s) > getMinServerPriority (cfg <$> servers)) /\
  ~ (cfg_Optional (cfg s) = true /\ maxArtOpt opts > 0 /\ optional_tried servers m hasTried >= maxArtOpt opts).

(** The active ones of the lowest priority value. *)
Definition best_tier (i : nat) (s : Server) : Prop :=
  (eligible i s /\ Active s (now opts) = true) /\
  forall j s', eligible j s' -> Active s' (now opts) = true -> cfg_Priority (cfg s) <= cfg_Priority (cfg s').

Lemma cand_eligible i s : servers !! i = Some s ->
  cand (candidate_of servers m hasTried opts) (i, s) <-> eligible i s.
Proof.
  intros Hi. unfold cand, candidate_of, isServerCandidate, eligible. cbn [fst snd].
  destruct hasTried, (has_server m i); cbn [andb]; try (split; [done|naive_solver]).
  all: destruct (cfg_Enable (cfg s)); cbn [negb]; [|split; [done|naive_solver]].
  all: destruct (topOnly opts); cbn [andb]; [case_bool_decide as Hp; [split; [done|naive_solver]|]|].
  all: destruct (cfg_Optional (cfg s)); cbn [andb]; [|naive_solver].
  all: repeat case_bool_decide; cbn [andb]; naive_solver.
Qed.

Lemma select_spec :
  match selectServerForArticle servers workCh m hasTried opts with
  | Picked i => exists s, best_tier i s /\ hasRoom workCh (cfg_Name (cfg s)) = true /\
      forall j s', best_tier j s' -> (j < i)%nat -> hasRoom workCh (cfg_Name (cfg s')) = false
  | NoCandidate => forall i s, ~ eligible i s
  | AllBusy => (exists i s, eligible i s) /\ forall i s, best_tier i s -> hasRoom workCh (cfg_Name (cfg s)) = false
  end.
Proof.
  unfold selectServerForArticle. pose proof (scan_all workCh opts (candidate_of servers m hasTried opts) (indexed servers)) as H.
  set (st := foldl _ _ _) in *. destruct H as (Ha & Ht & Hp).
  assert (forall i s, best_tier i s -> (i, s) ∈ indexed servers /\ act opts (candidate_of servers m hasTried opts) (i, s) /\
    Some (prio (i, s)) = tier st) as Hbest.
  { intros i s [[He Hact] Hle]. pose proof (proj1 He) as Hi. split; [by apply indexed_lookup|].
    assert (act opts (candidate_of servers m hasTried opts) (i, s)) as Hact' by (split; [by apply cand_eligible|done]).
    split; [done|]. destruct (tier st) as [t|]; [|by destruct (Ht (i, s)); [apply indexed_lookup|]].
    destruct Ht as [([j s'] & Hj & [Hc Ha'] & Hpr) Hmin]. apply indexed_lookup in Hj.
    specialize (Hmin (i, s)). rewrite indexed_lookup in Hmin. specialize (Hmin Hi Hact'). f_equal.
    specialize (Hle j s'). rewrite <- cand_eligible in Hle by done. specialize (Hle Hc Ha'). unfold prio in *. cbn in *. lia. }
  destruct (pick st) as [i|].
  - destruct Hp as (l1 & s & l2 & El & [Hc Hact] & Hpr & Hr & Hf). apply indexed_split in El as [Hi Hbefore].
    exists s. split; [|split; [done|]].
    + split; [split; [by apply cand_eligible in Hc|done]|]. intros j s' He Ha'. rewrite <- Hpr in Ht.
      destruct Ht as [_ Hmin]. apply (Hmin (j, s')); [by apply indexed_lookup, He|]. split; [|done].
      apply cand_eligible; [apply He|done].
    + intros j s' Hb Hlt. destruct (Hbest j s' Hb) as (_ & Hact' & Hpr'). apply (Hf (j, s')); [|done|done].
      apply Hbefore; [apply Hb|done].
  - destruct (anyCandidate st) eqn:Eany.
    + split.
      * destruct (proj1 Ha eq_refl) as ([i s] & Hin%indexed_lookup & Hc). exists i, s. by apply cand_eligible in Hc.
      * intros i s Hb. destruct (Hbest i s Hb) as (Hin & Hact & Hpr). by apply (Hp (i, s)).
    + intros i s He. assert (false = true); [|done]. apply Ha. exists (i, s).
      split; [apply indexed_lookup, He|]. apply cand_eligible; [apply He|done].
Qed.
End selection.

(** ** One attempt *)
Definition same_entry (t t' : dispatchTracker) (k : string * nat * Z) : Prop :=
  tryList t' !! k = tryList t !! k /\ inFlight t' !! k = inFlight t !! k /\ faults t' !! k = faults t !! k.

Lemma same_entry_refl t k : same_entry t t k.
Proof. done. Qed.

Lemma same_entry_trans t1 t2 t3 k : same_entry t1 t2 k -> same_entry t2 t3 k -> same_entry t1 t3 k.
Proof. intros (?&?&?) (?&?&?). split_and!; congruence. Qed.

(** The tracker after a server's mark and the count of its request. *)
Lemma marked_entry t key i :
  let t' := IncrementInFlightLocked (SetTriedLocked t key (set_server (tried_mask t key) i)) key in
  (forall j, has_server (tried_mask t' key) j = bool_decide (i = j) || has_server (tried_mask t key) j) /\
  InFlightLocked t' key = InFlightLocked t key + 1 /\ faults t' = faults t /\
  forall k, k <> key -> same_entry t t' k.
Proof.
  cbn. split_and!.
  - intros j. unfold tried_mask at 1. cbn. rewrite lookup_insert_eq. cbn. apply set_has.
  - unfold InFlightLocked. cbn. by rewrite lookup_insert_eq.
  - done.
  - intros k Hk. unfold same_entry. cbn. by rewrite !lookup_insert_ne by done.
Qed.

(** The mask the choice is made with. *)
Lemma eligible_untried servers t key opts i s :
  eligible servers (tried_mask t key) (bool_decide (is_Some (TryListLocked t key))) opts i s ->
  has_server (tried_mask t key) i = false.
Proof.
  intros (_ & _ & Hn & _). unfold tried_mask, TryListLocked in *. destruct (tryList t !! key) as [m|]; cbn in *.
  - destruct (has_server m i) eqn:E; [|done]. exfalso. by apply Hn.
  - apply empty_mask_has.
Qed.

(** What an attempt did with an article. *)
Definition attempt_sent (servers : list Server) (opts : dispatchOpts) (t : dispatchTracker) (workCh : gmap string (Z * Z))
    (key : string * nat * Z) (r : attempt) (i : nat) : Prop :=
  exists s len cap, best_tier servers (tried_mask t key) (bool_decide (is_Some (TryListLocked t key))) opts i s /\
    workCh !! cfg_Name (cfg s) = Some (len, cap) /\ len < cap /\
    InFlightLocked t key <= 0 /\ has_server (tried_mask t key) i = false /\
    a_tracker r = IncrementInFlightLocked (SetTriedLocked t key (set_server (tried_mask t key) i)) key /\
    a_workCh r = <[cfg_Name (cfg s) := (len + 1, cap)]> workCh /\ a_handled r = true /\ a_exhausted r = false.

Definition attempt_exhausted (servers : list Server) (opts : dispatchOpts) (t : dispatchTracker) (key : string * nat * Z) : Prop :=
  InFlightLocked t key <= 0 /\
  ((maxArtTries opts > 0 /\ is_Some (TryListLocked t key) /\ count_tried (tried_mask t key) >= maxArtTries opts) \/
   forall i s, ~ eligible servers (tried_mask t key) (bool_decide (is_Some (TryListLocked t key))) opts i s).

Lemma tryDispatch_cases servers ctxDone opts t workCh key :
  let r := tryDispatch servers ctxDone opts t workCh key in
  a_hadTryList r = bool_decide (is_Some (TryListLocked t key)) /\
  match a_server r with
  | Some i => ctxDone = false /\ attempt_sent servers opts t workCh key r i
  | None => a_tracker r = t /\ a_workCh r = workCh /\ a_handled r = a_exhausted r /\
      (a_exhausted r = true -> ctxDone = false /\ attempt_exhausted servers opts t key)
  end.
Proof.
  unfold tryDispatch. cbv zeta. change (default emptyMask (TryListLocked t key)) with (tried_mask t key).
  case_decide as Hf; [by cbn|]. destruct ctxDone; [by cbn|].
  case_decide as Hm.
  { cbn. split_and!; try done. intros _. split; [done|]. split; [lia|]. left.
    destruct Hm as (? & Ht & ?). by apply bool_decide_eq_true in Ht. }
  set (hasTried := bool_decide (is_Some (TryListLocked t key))) in *.
  pose proof (select_spec servers workCh (tried_mask t key) hasTried opts) as Hs.
  destruct (selectServerForArticle servers workCh (tried_mask t key) hasTried opts) as [i| |].
  - destruct Hs as (s & Hb & Hr & _). pose proof (proj1 (proj1 (proj1 Hb))) as Hi. rewrite Hi. cbn [fmap option_fmap option_map default].
    unfold compose, hasRoom in *. cbn. destruct (workCh !! cfg_Name (cfg s)) as [[len cap]|] eqn:Ew; [|done].
    apply bool_decide_eq_true in Hr. rewrite decide_True by done. cbn. split; [done|]. split; [done|].
    exists s, len, cap. split; [exact Hb|]. split; [done|]. split; [done|]. split; [lia|].
    split; [|done]. apply (eligible_untried servers t key opts i s). apply Hb.
  - cbn. split_and!; try done. intros _. split; [done|]. split; [lia|]. by right.
  - by cbn.
Qed.

(** ** What a request does to the tracker *)
Inductive touched (t : dispatchTracker) (key : string * nat * Z) (s : nat) : dispatchTracker -> Prop :=
| touch_none : touched t key s t
| touch_unmark : touched t key s (UnmarkTried t key s)
| touch_fault : touched t key s (fst (UnmarkTriedAfterFault t key s))
| touch_clear : touched t key s (ClearTried t key).

Lemma drop_server_ne l key s k : k <> key -> drop_server l key s !! k = l !! k.
Proof.
  intros Hk. unfold drop_server. destruct (l !! key); [|done]. case_match; [by rewrite lookup_delete_ne|].
  by rewrite lookup_insert_ne.
Qed.

Lemma touched_other t key s t' : touched t key s t' ->
  inFlight t' = inFlight t /\ forall k, k <> key -> same_entry t t' k.
Proof.
  destruct 1; [done| | |]; unfold UnmarkTriedAfterFault; repeat case_decide; cbn; (split; [done|]); intros k Hk;
    unfold same_entry; cbn; rewrite ?drop_server_ne, ?lookup_delete_ne, ?lookup_insert_ne by done; done.
Qed.

Lemma touched_ok t key s t' : tracker_ok t -> touched t key s t' -> tracker_ok t'.
Proof.
  intros Hok [| | |]; [done|eapply tracker_step_ok; [done|apply ts_unmark]| |eapply tracker_step_ok; [done|apply ts_clear]].
  destruct (UnmarkTriedAfterFault t key s) as [t1 b] eqn:E. cbn. by eapply fault_ok.
Qed.

Lemma decrement_other t key k : k <> key -> same_entry t (DecrementInFlight t key) k.
Proof.
  intros Hk. unfold DecrementInFlight, same_entry. case_decide; cbn;
    rewrite ?lookup_delete_ne, ?lookup_insert_ne by done; done.
Qed.

Lemma decrement_own t key : InFlightLocked t key >= 0 ->
  InFlightLocked (DecrementInFlight t key) key = Z.max 0 (InFlightLocked t key - 1) /\
  tryList (DecrementInFlight t key) = tryList t /\ faults (DecrementInFlight t key) = faults t.
Proof.
  intros H. unfold DecrementInFlight. case_decide; cbn; (split; [|done]); unfold InFlightLocked in *; cbn.
  - rewrite lookup_delete_eq. cbn. lia.
  - rewrite lookup_insert_eq. cbn. lia.
Qed.

(** The pure part of a fetch: the tracker is touched once. *)
Lemma fetchArticle_cases io t s key i t' s' evs body : fetchArticle io t s key i = (t', s', evs, body) ->
  match body with
  | Some b => t' = t /\ evs = [] /\ fe_get io = GotConn /\ fe_fetch io = FetchBody b
  | None => touched t key i t' /\
      (evs = [] \/ evs = [EfClearEmitted] \/ evs = emitResult (fe_dropped io) None (Some ErrMissing) false)
  end.
Proof.
  unfold fetchArticle. intros H.
  repeat case_match; simplify_eq/=; split_and?; auto using touched; by repeat split.
Qed.

Lemma decodePayload_total ToLower body part : is_Some (decodePayload ToLower body part).
Proof.
  unfold decodePayload. destruct (d_err (DecodeArticle body)) as [e|]; [|case_match; eauto].
  destruct e; eauto. destruct (DecodeUU_cases body) as ([[data f]|e] & -> & _); cbn; case_match; eauto.
Qed.

(** The share of the byte budget a request holds goes back, or goes out with
    the result. *)
Definition hold_moved (e : effect) : bool :=
  match e with
  | EfReleaseHeld => true
  | EfResult _ _ held => held
  | _ => false
  end.
Definition hold_moves (evs : list effect) : Z := sumZ ((fun e => if hold_moved e then 1 else 0) <$> evs).

Definition is_result (e : effect) : bool := match e with EfResult _ _ _ => true | _ => false end.

Lemma process_cases ToLower io t s key part i body : exists t' s' evs,
  processFetchedArticle ToLower io t s key part body = Some (t', s', evs) /\ touched t key i t' /\ hold_moves evs = 1 /\
  (forall p e h, EfResult (Some p) e h ∈ evs -> e = None /\ h = true /\ decodePayload ToLower body part = Some (Ok p)) /\
  (if fe_dropped io then existsb is_result evs = false /\ last evs = Some EfClearEmitted
   else exists p e h, last evs = Some (EfResult p e h)).
Proof.
  unfold processFetchedArticle. destruct (decodePayload_total ToLower body part) as [r ->]. cbn [mbind option_bind].
  destruct r as [p|e].
  - eexists _, _, _. split; [done|]. split; [apply touch_clear|]. unfold emitResult. destruct (fe_dropped io); cbn.
    + split; [done|]. split; [|done]. intros p' e h. set_solver.
    + split; [done|]. split; [|eauto]. intros p' e h. rewrite !elem_of_cons. intros [?|[?|?%elem_of_nil]]; naive_solver.
  - assert (exists t' s' err evs0, (match e with
        | DecodeFailed ErrCRCMismatch => Some (t, RecordGoodConnection s,
            [EfReleaseHeld] ++ emitResult (fe_dropped io) None (Some (ErrPayload (DecodeFailed ErrCRCMismatch))) false)
        | _ => Some (ClearTried t key, s, [EfReleaseHeld; EfMarkEmitted] ++ emitResult (fe_dropped io) None (Some (ErrPayload e)) false)
        end) = Some (t', s', evs0 ++ emitResult (fe_dropped io) None (Some err) false) /\ touched t key i t' /\
      (evs0 = [EfReleaseHeld] \/ evs0 = [EfReleaseHeld; EfMarkEmitted])) as (t' & s' & err & evs0 & E & Ht & H0).
    { destruct e as [| |[]|]; eexists _, _, _, _; (split; [reflexivity|]); auto using touched. }
    exists t', s', (evs0 ++ emitResult (fe_dropped io) None (Some err) false).
    split; [destruct e as [| |[]|]; exact E|]. split; [done|]. unfold emitResult.
    destruct H0 as [-> | ->], (fe_dropped io); cbn; (split; [done|]); (split; [|eauto]);
      intros p' e' h'; rewrite ?elem_of_cons, ?elem_of_nil; naive_solver.
Qed.

(** What handling a request comes to. *)
Definition settles (ToLower : list Z -> list Z) (io : fetch_env) (t : dispatchTracker) (key : string * nat * Z)
    (part : Z) (i : nat) (t' : dispatchTracker) (evs : list effect) : Prop :=
  (exists t1, touched t key i t1 /\ t' = DecrementInFlight t1 key) /\
  hold_moves evs = (if fe_acquired io then 1 else 0) /\
  (forall p e h, EfResult (Some p) e h ∈ evs -> e = None /\ h = true /\ fe_acquired io = true /\
     exists body, fe_fetch io = FetchBody body /\ decodePayload ToLower body part = Some (Ok p)) /\
  (existsb is_result evs = true -> fe_dropped io = false) /\
  (EfMarkEmitted ∈ evs -> (exists p e h, last evs = Some (EfResult p e h)) \/ last evs = Some EfClearEmitted).

Lemma handleRequest_settles ToLower io t s key part i : exists t' s' evs,
  handleRequest ToLower io t s key part i = Some (t', s', evs) /\ settles ToLower io t key part i t' evs.
Proof.
  unfold handleRequest, settles. destruct (fe_acquired io); cbn [negb].
  2: { eexists _, _, _. split; [done|]. split; [eauto using touched|]. split; [done|].
       split; [intros p e h ?%elem_of_nil; done|]. split; [done|]. intros ?%elem_of_nil. done. }
  destruct (fetchArticle io t s key i) as [[[t1 s1] evs] body] eqn:E. apply fetchArticle_cases in E.
  destruct body as [body|].
  - destruct E as (-> & -> & _ & Ef). destruct (process_cases ToLower io t s1 key part i body) as (t' & s' & evs & -> & Ht & Hh & Hp & Hl).
    cbn. eexists _, _, _. split; [done|]. split; [eauto|]. split; [done|].
    split; [intros p e h Hin; destruct (Hp p e h Hin) as (? & ? & ?); eauto 10|].
    destruct (fe_dropped io); [destruct Hl as [Hn Hl]; rewrite Hn|]; auto.
  - destruct E as [Ht Hev]. eexists _, _, _. split; [done|]. split; [eauto|].
    unfold emitResult in Hev. destruct (fe_dropped io), Hev as [->|[->| ->]]; cbn; (split; [done|]); split_and!; try done;
      try (intros p e h; rewrite ?elem_of_cons, ?elem_of_nil; naive_solver); rewrite ?elem_of_cons, ?elem_of_nil; naive_solver.
Qed.

(** ** How often one article is attempted *)

(** What server [i] can still cost the article: nothing once tried, and
    otherwise the faults it has left. *)
Definition budget_of (t : dispatchTracker) (key : string * nat * Z) (i : nat) : Z :=
  if has_server (tried_mask t key) i then 0 else maxConnFaultsPerArticle - fault_count t key i.
Definition budget (t : dispatchTracker) (key : string * nat * Z) (n : nat) : Z := sum_range (budget_of t key) 0 n.

Lemma fault_count_bounds t key i : tracker_ok t -> 0 <= fault_count t key i < maxConnFaultsPerArticle.
Proof.
  intros (_ & _ & Hf). unfold fault_count. destruct (faults t !! key) as [fs|] eqn:E; cbn.
  - destruct (fs !! i) as [n|] eqn:En; cbn; [|unfold maxConnFaultsPerArticle; lia]. apply (proj2 (Hf _ _ E)) in En. lia.
  - rewrite lookup_empty. cbn. unfold maxConnFaultsPerArticle. lia.
Qed.

Lemma budget_of_bounds t key i : tracker_ok t -> 0 <= budget_of t key i <= 3.
Proof.
  intros H. pose proof (fault_count_bounds t key i H). unfold budget_of. unfold maxConnFaultsPerArticle in *. case_match; lia.
Qed.

Lemma budget_same t t' key n : same_entry t t' key -> budget t' key n = budget t key n.
Proof.
  intros (H1 & _ & H3). apply sum_range_ext. intros i _. unfold budget_of, tried_mask, fault_count. by rewrite H1, H3.
Qed.

Lemma budget_change t t' key n i : (i < n)%nat ->
  (forall j, j <> i -> budget_of t' key j = budget_of t key j) ->
  budget t' key n = budget t key n - budget_of t key i + budget_of t' key i.
Proof.
  intros Hi H. unfold budget. rewrite (sum_range_change (budget_of t key) (budget_of t' key) 0 n i); [lia|lia|].
  intros. symmetry. by apply H.
Qed.

(** The tracker between the mark and the outcome. *)
Section round.
Context (t : dispatchTracker) (key : string * nat * Z) (i : nat).
Hypothesis Hok : tracker_ok t.
Hypothesis Hnew : has_server (tried_mask t key) i = false.
Let t1 := IncrementInFlightLocked (SetTriedLocked t key (set_server (tried_mask t key) i)) key.

Lemma marked_ok : tracker_ok t1.
Proof. eapply tracker_step_ok; [eapply tracker_step_ok; [exact Hok|apply ts_mark]|apply ts_incr]. Qed.

Lemma unmark_has j : has_server (tried_mask (UnmarkTried t1 key i) key) j = has_server (tried_mask t key) j.
Proof.
  unfold tried_mask at 1. cbn. pose proof (drop_server_has t1 key i marked_ok j) as H. unfold t1 in H at 1. cbn in H.
  rewrite H. destruct (marked_entry t key i) as (-> & _). destruct (decide (i = j)) as [->|Hne].
  - by rewrite bool_decide_eq_true_2.
  - by rewrite bool_decide_eq_false_2.
Qed.

(** A round that ends by unmarking costs nothing. *)
Lemma budget_unmark n : budget (UnmarkTried t1 key i) key n = budget t key n.
Proof. apply sum_range_ext. intros j _. unfold budget_of. by rewrite unmark_has. Qed.

(** One that leaves the mark costs what the server had left. *)
Lemma budget_marked n : (i < n)%nat -> budget t1 key n < budget t key n.
Proof.
  intros Hi. destruct (marked_entry t key i) as (Hm & _ & _ & _). fold t1 in Hm.
  rewrite (budget_change t t1 key n i); [|done|].
  - pose proof (fault_count_bounds t key i Hok). unfold budget_of. rewrite Hm, Hnew, bool_decide_eq_true_2 by done. cbn. lia.
  - intros j Hj. unfold budget_of. by rewrite Hm, bool_decide_eq_false_2.
Qed.

(** A connection fault costs one. *)
Lemma budget_fault n : (i < n)%nat -> budget (fst (UnmarkTriedAfterFault t1 key i)) key n < budget t key n.
Proof.
  intros Hi. unfold UnmarkTriedAfterFault. change (default ∅ (faults t1 !! key)) with (default ∅ (faults t !! key)).
  fold (fault_count t key i). pose proof (fault_count_bounds t key i Hok) as Hb. case_decide as Hge; cbn [fst].
  - eapply Z.le_lt_trans; [|by apply budget_marked]. destruct (marked_entry t key i) as (Hm & _).
    fold t1 in Hm. apply Z.eq_le_incl, sum_range_ext. intros j _. unfold budget_of.
    change (tried_mask _ key) with (tried_mask t1 key) at 1. rewrite !Hm. destruct (decide (i = j)) as [->|Hne].
    + by rewrite bool_decide_eq_true_2.
    + rewrite bool_decide_eq_false_2 by done. cbn [orb]. case_match; [done|]. f_equal. unfold fault_count. cbn.
      case_decide as He; [rewrite lookup_delete_eq|rewrite lookup_insert_eq]; cbn.
      * rewrite lookup_empty. assert (base.delete i (default ∅ (faults t !! key)) !! j = None) as Hd by (by rewrite He).
        rewrite lookup_delete_ne in Hd by done. by rewrite Hd.
      * by rewrite lookup_delete_ne.
  - set (t2 := mkTracker _ _ _). assert (forall j, has_server (tried_mask t2 key) j = has_server (tried_mask t key) j) as Hm
      by (intros j; apply (unmark_has j)).
    assert (forall j, fault_count t2 key j = if decide (j = i) then fault_count t key i + 1 else fault_count t key j) as Hf.
    { intros j. unfold fault_count at 1, t2. cbn. rewrite lookup_insert_eq. cbn. case_decide as Hj.
      - subst. by rewrite lookup_insert_eq.
      - by rewrite lookup_insert_ne. }
    rewrite (budget_change t t2 key n i); [|done|].
    + unfold budget_of. rewrite Hm, Hnew, Hf, decide_True by done. unfold maxConnFaultsPerArticle in *. lia.
    + intros j Hj. unfold budget_of. by rewrite Hm, Hf, decide_False.
Qed.
End round.

(** A fetch that got as far as its answer. *)
Definition answered (io : fetch_env) : bool :=
  fe_acquired io && negb (fe_gated io) && negb (fe_paused io) && match fe_get io with GotConn => true | _ => false end.

(** An answer that says the server does not have the article, or not whole. *)
Definition adverse (ToLower : list Z -> list Z) (io : fetch_env) (part : Z) : bool :=
  answered io &&
  match fe_fetch io with
  | FetchFailed err =>
      negb (Is err ErrIdleClosed) && (Is err ErrNoArticle || negb (fe_cancelled io) && isConnFault err)
  | FetchBody body =>
      match decodePayload ToLower body part with
      | Some (Err (DecodeFailed ErrCRCMismatch)) => true
      | _ => false
      end
  end.

(** An answer the article is done with: its data, or a decoding error. *)
Definition ends (ToLower : list Z -> list Z) (io : fetch_env) (part : Z) : bool :=
  answered io && match fe_fetch io with FetchBody _ => negb (adverse ToLower io part) | FetchFailed _ => false end.

(** A sequence of attempts on one article, on [n] servers, none of which ends
    it; [k] of them were answered adversely.  Anything may happen to other
    articles in between. *)
Inductive attempts (n : nat) (key : string * nat * Z) : dispatchTracker -> nat -> dispatchTracker -> Prop :=
| attempts_none t : attempts n key t 0 t
| attempts_else t k t1 t2 : attempts n key t k t1 -> tracker_ok t2 -> same_entry t1 t2 key -> attempts n key t k t2
| attempts_round t k t1 servers ctxDone opts workCh i ToLower io s part t2 s2 evs :
    attempts n key t k t1 -> length servers = n ->
    a_server (tryDispatch servers ctxDone opts t1 workCh key) = Some i ->
    handleRequest ToLower io (a_tracker (tryDispatch servers ctxDone opts t1 workCh key)) s key part i = Some (t2, s2, evs) ->
    ends ToLower io part = false ->
    attempts n key t (if adverse ToLower io part then S k else k) t2.

Lemma budget_decrement t key n : budget (DecrementInFlight t key) key n = budget t key n.
Proof.
  apply sum_range_ext. intros i _. unfold budget_of, tried_mask, fault_count, DecrementInFlight. by case_decide.
Qed.

Lemma decrement_ok t key : tracker_ok t -> tracker_ok (DecrementInFlight t key).
Proof. intros H. eapply tracker_step_ok; [exact H|apply ts_decr]. Qed.

(** One round. *)
Lemma round_budget ToLower io t s key part i n t2 s2 evs :
  tracker_ok t -> has_server (tried_mask t key) i = false -> (i < n)%nat ->
  let t1 := IncrementInFlightLocked (SetTriedLocked t key (set_server (tried_mask t key) i)) key in
  handleRequest ToLower io t1 s key part i = Some (t2, s2, evs) -> ends ToLower io part = false ->
  tracker_ok t2 /\ budget t2 key n + (if adverse ToLower io part then 1 else 0) <= budget t key n.
Proof.
  intros Hok Hnew Hi t1 Hr Hend. pose proof (marked_ok t key i Hok) as Hok1. fold t1 in Hok1. split.
  { destruct (handleRequest_settles ToLower io t1 s key part i) as (t2' & s2' & evs' & E & (t1' & Ht & Hd) & _).
    rewrite Hr in E. injection E as -> -> ->. rewrite Hd. apply decrement_ok. by eapply touched_ok. }
  pose proof (budget_unmark t key i Hok Hnew n) as Hu. pose proof (budget_marked t key i Hok Hnew n Hi) as Hm.
  pose proof (budget_fault t key i Hok Hnew n Hi) as Hf. fold t1 in Hu, Hm, Hf.
  unfold handleRequest in Hr. destruct (fe_acquired io) eqn:Ea; cbn [negb] in Hr.
  2: { injection Hr as <- _ _. rewrite budget_decrement, Hu. unfold adverse, answered. rewrite Ea. cbn. lia. }
  unfold fetchArticle in Hr. unfold ends, adverse, answered in *. rewrite Ea in *.
  destruct (fe_gated io); [injection Hr as <- _ _; rewrite budget_decrement, Hu; cbn; lia|].
  destruct (fe_paused io); [injection Hr as <- _ _; rewrite budget_decrement, Hu; cbn; lia|].
  destruct (fe_get io) as [| |err c].
  2: { injection Hr as <- _ _. rewrite budget_decrement, Hu. cbn. lia. }
  2: { destruct c; injection Hr as <- _ _; rewrite budget_decrement, Hu; cbn; lia. }
  destruct (fe_fetch io) as [body|err]; cbn [andb negb] in *.
  - unfold processFetchedArticle in Hr. destruct (decodePayload ToLower body part) as [[p|[| |[]|]]|]; cbn in *; try discriminate Hend.
    injection Hr as <- _ _. rewrite budget_decrement. lia.
  - destruct (Is err ErrIdleClosed); cbn [negb andb] in *; [injection Hr as <- _ _; rewrite budget_decrement, Hu; lia|].
    destruct (Is err ErrNoArticle); cbn [orb] in *; [injection Hr as <- _ _; rewrite budget_decrement; lia|].
    destruct (negb (fe_cancelled io)), (isConnFault err); cbn in *;
      injection Hr as <- _ _; rewrite budget_decrement, ?Hu; cbn in *; lia.
Qed.

Lemma attempts_budget n key t k t' : tracker_ok t -> attempts n key t k t' ->
  tracker_ok t' /\ Z.of_nat k + budget t' key n <= budget t key n.
Proof.
  intros Hok. induction 1 as [t|t k t1 t2 _ IH Hok2 Hs|t k t1 servers ctxDone opts workCh i ToLower io s part t2 s2 evs _ IH Hn Hd Hr He].
  - split; [done|lia].
  - destruct (IH Hok) as [_ H]. split; [done|]. by rewrite (budget_same t1 t2).
  - destruct (IH Hok) as [Hok1 H]. pose proof (tryDispatch_cases servers ctxDone opts t1 workCh key) as [_ Hc].
    rewrite Hd in Hc. destruct Hc as (_ & srv & len & cap & Hb & _ & _ & _ & Hnew & Ht & _). rewrite Ht in Hr.
    assert (i < n)%nat as Hi by (rewrite <- Hn; eapply lookup_lt_Some; apply Hb).
    destruct (round_budget ToLower io t1 s key part i n t2 s2 evs Hok1 Hnew Hi Hr He) as [Hok2 Hle].
    split; [done|]. destruct (adverse ToLower io part); lia.
Qed.

Lemma budget_start t key n : tracker_ok t -> 0 <= budget t key n <= 3 * Z.of_nat n.
Proof.
  intros H. split; [apply sum_range_nonneg; intros; by apply budget_of_bounds|].
  transitivity (sum_range (fun _ => 3) 0 n); [apply sum_range_le; intros; by apply budget_of_bounds|].
  unfold sum_range. induction n as [|n IH]; [done|]. rewrite seq_S, fmap_app, sumZ_app. cbn. lia.
Qed.

Lemma budget_zero t key n i : tracker_ok t -> budget t key n = 0 -> (i < n)%nat -> has_server (tried_mask t key) i = true.
Proof.
  intros Hok H Hi. destruct (has_server (tried_mask t key) i) eqn:E; [done|]. exfalso.
  assert (budget_of t key i <= budget t key n) as Hle.
  { unfold budget. rewrite (sum_range_change (fun j => if decide (j = i) then 0 else budget_of t key j) (budget_of t key) 0 n i);
      [|lia|intros k Hk; by rewrite decide_False]. rewrite decide_True by done.
    assert (0 <= sum_range (fun j => if decide (j = i) then 0 else budget_of t key j) 0 n); [|lia].
    apply sum_range_nonneg. intros j _. case_decide; [lia|]. by apply budget_of_bounds. }
  pose proof (fault_count_bounds t key i Hok). unfold budget_of in Hle. rewrite E in Hle. lia.
Qed.

(** ** The tracker and the requests in the pipeline *)
Record pipeline : Type := mkPipeline {
  p_tracker : dispatchTracker;
  p_requests : list ((string * nat * Z) * nat);   (* sent to a server, and not finished *)
  p_gone : gset nat;                              (* instances reaped, never dispatched again *)
}.

(** A dispatch attempt, the steps of a request, its end, an article given up
    and a reap, each under the tracker's lock. *)
Inductive pipeline_step : pipeline -> pipeline -> Prop :=
| ps_dispatch t reqs gone servers ctxDone opts workCh key i : inst_of key ∉ gone ->
    a_server (tryDispatch servers ctxDone opts t workCh key) = Some i ->
    pipeline_step (mkPipeline t reqs gone)
      (mkPipeline (a_tracker (tryDispatch servers ctxDone opts t workCh key)) (reqs ++ [(key, i)]) gone)
| ps_touch t reqs gone key i t' : (key, i) ∈ reqs -> touched t key i t' ->
    pipeline_step (mkPipeline t reqs gone) (mkPipeline t' reqs gone)
| ps_finish t l1 l2 gone key i :
    pipeline_step (mkPipeline t (l1 ++ (key, i) :: l2) gone) (mkPipeline (DecrementInFlight t key) (l1 ++ l2) gone)
| ps_exhausted t reqs gone dropped key :
    pipeline_step (mkPipeline t reqs gone) (mkPipeline (fst (applyExhausted dropped t key)) reqs gone)
| ps_reap t reqs gone stale :
    pipeline_step (mkPipeline t reqs gone) (mkPipeline (DropInstances t stale) reqs (stale ∪ gone)).

Inductive pipeline_reachable : pipeline -> Prop :=
| pipeline_start : pipeline_reachable (mkPipeline newDispatchTracker [] ∅)
| pipeline_next p p' : pipeline_reachable p -> pipeline_step p p' -> pipeline_reachable p'.

(** The requests for one article. *)
Definition outstanding (reqs : list ((string * nat * Z) * nat)) (key : string * nat * Z) : Z :=
  sumZ ((fun r => if decide (fst r = key) then 1 else 0) <$> reqs).

Definition pipeline_ok (p : pipeline) : Prop :=
  tracker_ok (p_tracker p) /\
  forall key, inst_of key ∉ p_gone p ->
    InFlightLocked (p_tracker p) key = outstanding (p_requests p) key /\ outstanding (p_requests p) key <= 1.

Lemma outstanding_app l1 l2 key : outstanding (l1 ++ l2) key = outstanding l1 key + outstanding l2 key.
Proof. unfold outstanding. by rewrite fmap_app, sumZ_app. Qed.

Lemma outstanding_one k i key : outstanding [(k, i)] key = if decide (k = key) then 1 else 0.
Proof. unfold outstanding. cbn. lia. Qed.

Lemma outstanding_nonneg l key : 0 <= outstanding l key.
Proof. apply sumZ_nonneg, Forall_forall. intros x (r & -> & _)%list_elem_of_fmap. by case_decide. Qed.

Lemma same_flight t t' k : same_entry t t' k -> InFlightLocked t' k = InFlightLocked t k.
Proof. intros (_ & H & _). unfold InFlightLocked. by rewrite H. Qed.

Lemma drop_instances_flight t stale k : inst_of k ∉ stale -> InFlightLocked (DropInstances t stale) k = InFlightLocked t k.
Proof.
  intros Hk. unfold InFlightLocked. cbn. f_equal. destruct (inFlight t !! k) as [n|] eqn:E.
  - by apply map_lookup_filter_Some.
  - apply map_lookup_filter_None. by left.
Qed.

Lemma pipeline_step_ok p p' : pipeline_ok p -> pipeline_step p p' -> pipeline_ok p'.
Proof.
  intros [Hok Hp] Hs. destruct Hs as [t reqs gone servers ctxDone opts workCh key i Hg Hd|t reqs gone key i t' Hin Ht
    |t l1 l2 gone key i|t reqs gone dropped key|t reqs gone stale]; unfold pipeline_ok in *; cbn [p_tracker p_requests p_gone] in *.
  - pose proof (tryDispatch_cases servers ctxDone opts t workCh key) as [_ Hc]. rewrite Hd in Hc.
    destruct Hc as (_ & s & len & cap & _ & _ & _ & Hz & _ & -> & _). split; [by apply marked_ok|].
    intros k Hk. destruct (Hp k Hk) as [He Hle]. rewrite outstanding_app, outstanding_one.
    destruct (marked_entry t key i) as (_ & Hown & _ & Hother). case_decide as Hkk.
    + subst k. rewrite Hown, He. split; [done|]. lia.
    + rewrite (same_flight _ _ _ (Hother k (not_eq_sym Hkk))), He. lia.
  - split; [by eapply touched_ok|]. intros k Hk. destruct (touched_other _ _ _ _ Ht) as [Hf _].
    unfold InFlightLocked. cbn. rewrite Hf. by apply Hp.
  - split; [by apply decrement_ok|]. intros k Hk. destruct (Hp k Hk) as [He Hle].
    rewrite outstanding_app in *. change (outstanding ((key, i) :: l2) k) with (outstanding ([(key, i)] ++ l2) k) in *.
    rewrite outstanding_app, outstanding_one in *. case_decide as Hkk.
    + subst k. pose proof (outstanding_nonneg l1 key). pose proof (outstanding_nonneg l2 key).
      destruct (decrement_own t key) as (-> & _); lia.
    + rewrite (same_flight _ _ _ (decrement_other t key k (not_eq_sym Hkk))). lia.
  - split; [eapply tracker_step_ok; [exact Hok|apply ts_clear]|]. apply Hp.
  - split; [eapply tracker_step_ok; [exact Hok|apply ts_drop]|]. intros k Hk.
    rewrite drop_instances_flight by set_solver. apply Hp. set_solver.
Qed.

Lemma pipeline_reachable_ok p : pipeline_reachable p -> pipeline_ok p.
Proof.
  induction 1; [|by eapply pipeline_step_ok]. split; [apply tracker_reachable_ok, tracker_start|]. intros k _. cbn.
  split; [done|]. unfold outstanding. cbn. lia.
Qed.

(** ** The properties *)

(** the server [selectServerForArticle] picks is the first with a free
    slot among the best tier: the servers that are active and eligible for
    the article (enabled, not yet tried, in the top group if that is asked
    for, not optional once the optional tries are spent) and whose priority
    value no active eligible server undercuts.  It answers -1 exactly when no
    server is eligible, and otherwise that the article must wait, because the
    best tier is full or no eligible server is active; a worse tier is never
    used while a better one is active. *)
Theorem selectServerForArticle_spec servers workCh m hasTried opts :
  match selectServerForArticle servers workCh m hasTried opts with
  | Picked i => exists s, best_tier servers m hasTried opts i s /\ hasRoom workCh (cfg_Name (cfg s)) = true /\
      forall j s', best_tier servers m hasTried opts j s' -> (j < i)%nat -> hasRoom workCh (cfg_Name (cfg s')) = false
  | NoCandidate => forall i s, ~ eligible servers m hasTried opts i s
  | AllBusy => (exists i s, eligible servers m hasTried opts i s) /\
      forall i s, best_tier servers m hasTried opts i s -> hasRoom workCh (cfg_Name (cfg s)) = false
  end.
Proof. apply select_spec. Qed.

(** C13: at most one request for an article is out at any time, over every
    interleaving of dispatch passes, the steps of requests on the tracker,
    their ends and the reaping of removed instances.  For an article of an
    instance not reaped, the in-flight count is the number of its unfinished
    requests, and that is zero or one. *)
Theorem one_fetch_at_a_time p key :
  pipeline_reachable p -> inst_of key ∉ p_gone p ->
  InFlightLocked (p_tracker p) key = outstanding (p_requests p) key /\ 0 <= outstanding (p_requests p) key <= 1.
Proof.
  intros [_ H]%pipeline_reachable_ok Hk. destruct (H key Hk). split; [done|]. split; [apply outstanding_nonneg|done].
Qed.

(** C14: an article is attempted finitely often.  On [n] servers, at most
    three attempts per server can be answered adversely (missing, checksum
    mismatch or a lost connection), whatever else happens in between,
    attempts that never reached an answer included; and once every server's
    share is spent a dispatch attempt reports the article exhausted instead
    of sending it. *)
Theorem attempts_bounded n key t k t' :
  tracker_reachable t -> attempts n key t k t' ->
  Z.of_nat k + budget t' key n <= 3 * Z.of_nat n /\ 0 <= budget t' key n /\
  (budget t' key n = 0 -> forall servers opts workCh, length servers = n -> InFlightLocked t' key <= 0 ->
     a_exhausted (tryDispatch servers false opts t' workCh key) = true).
Proof.
  intros Hok%tracker_reachable_ok Ha. destruct (attempts_budget n key t k t' Hok Ha) as [Hok' Hle].
  pose proof (budget_start t key n Hok). split; [lia|]. split; [apply budget_start; done|].
  intros Hz servers opts workCh Hn Hf. unfold tryDispatch. cbv zeta. rewrite decide_False by lia.
  change (default emptyMask (TryListLocked t' key)) with (tried_mask t' key). case_decide; [done|].
  pose proof (select_spec servers workCh (tried_mask t' key) (bool_decide (is_Some (TryListLocked t' key))) opts) as Hs.
  assert (forall i s, ~ eligible servers (tried_mask t' key) (bool_decide (is_Some (TryListLocked t' key))) opts i s) as Hno.
  { intros i s He. pose proof (eligible_untried _ _ _ _ _ _ He) as Hu.
    rewrite (budget_zero t' key n i) in Hu; [done|done|done|]. rewrite <- Hn. eapply lookup_lt_Some. apply He. }
  destruct (selectServerForArticle _ _ _ _ _) as [i| |]; [|done|].
  - destruct Hs as (s & Hb & _). exfalso. eapply Hno. apply Hb.
  - destruct Hs as ((i & s & He) & _). exfalso. by eapply Hno.
Qed.


(** [decodePayload] returns for every body, and what it accepts can be
    written: the checksum is the data's, the offset is in range, and a body
    that does not say where its bytes go is accepted for the first part
    only.  A body is reported removed only if it is no yEnc article and a
    takedown word occurs in it. *)
Theorem decodePayload_sound ToLower body part :
  exists r, decodePayload ToLower body part = Some r /\
  match r with
  | Ok p => pl_crc p = ChecksumIEEE (pl_data p) /\ 0 <= pl_offset p < maxPartOffset /\
      (part > 1 -> d_err (DecodeArticle body) = None /\ HasOffset (d_art (DecodeArticle body)) = true /\
         pl_data p = Data (d_art (DecodeArticle body)) /\ pl_offset p = Offset (d_art (DecodeArticle body)))
  | Err ErrOffsetUnknownForPart => part > 1
  | Err ErrArticleRemoved => d_err (DecodeArticle body) = Some ErrNotYEnc /\ isDMCA ToLower body = true
  | Err (DecodeFailed e) => d_err (DecodeArticle body) = Some e /\ e <> ErrNotYEnc
  | Err (BothFailed _ _) => d_err (DecodeArticle body) = Some ErrNotYEnc /\ isDMCA ToLower body = false
  end.
Proof.
  pose proof (DecodeArticleBuf_facts body None) as (Hcrc & Hoff & _). fold (DecodeArticle body) in Hcrc, Hoff.
  unfold decodePayload. destruct (d_err (DecodeArticle body)) as [e|] eqn:Ee.
  - destruct e; try (eexists; split; [reflexivity|done]).
    destruct (DecodeUU_cases body) as ([[data f]|e] & -> & _); cbn.
    + case_decide; eexists; (split; [reflexivity|]); [done|]. cbn. rewrite maxPartOffset_val. split_and!; try done; lia.
    + destruct (isDMCA ToLower body); eexists; (split; [reflexivity|]); done.
  - case_decide as Hd; eexists; (split; [reflexivity|]); [by destruct Hd|]. cbn. split; [done|]. split; [done|].
    intros Hp. destruct (HasOffset (d_art (DecodeArticle body))); [done|]. by destruct Hd.
Qed.

(** ** Witnesses *)
Definition ex_servers : list Server :=
  [NewServer (mkConfig "a" 2 0 false true); NewServer (mkConfig "b" 2 1 false true)].
Definition ex_opts : dispatchOpts := mkOpts 0 3 0 false.
Definition ex_key : string * nat * Z := ("job"%string, 0%nat, 7).
Definition ex_chans (used : Z) : gmap string (Z * Z) := <["a"%string := (used, 2)]> {["b"%string := (0, 2)]}.

(** The better tier is full: the article waits, although the worse has room. *)
Lemma selectServerForArticle_spec_witness :
  selectServerForArticle ex_servers (ex_chans 2) emptyMask false ex_opts = AllBusy /\
  exists s, best_tier ex_servers emptyMask false ex_opts 0 s /\ hasRoom (ex_chans 1) (cfg_Name (cfg s)) = true.
Proof.
  split; [vm_compute; reflexivity|].
  pose proof (selectServerForArticle_spec ex_servers (ex_chans 1) emptyMask false ex_opts) as H.
  replace (selectServerForArticle ex_servers (ex_chans 1) emptyMask false ex_opts) with (Picked 0) in H by (vm_compute; reflexivity).
  destruct H as (s & H1 & H2 & _). exists s. split; [exact H1|exact H2].
Defined.

Definition ex_sent : attempt := tryDispatch ex_servers false ex_opts newDispatchTracker (ex_chans 0) ex_key.

Lemma one_fetch_at_a_time_witness :
  exists p, pipeline_reachable p /\ p_requests p <> [] /\ InFlightLocked (p_tracker p) ex_key = outstanding (p_requests p) ex_key.
Proof.
  assert (pipeline_reachable (mkPipeline (a_tracker ex_sent) [(ex_key, 0%nat)] ∅)) as Hr.
  { eapply pipeline_next; [apply pipeline_start|].
    apply (ps_dispatch newDispatchTracker [] ∅ ex_servers false ex_opts (ex_chans 0) ex_key 0); [apply not_elem_of_empty|].
    vm_compute. reflexivity. }
  eexists. split; [exact Hr|]. split; [discriminate|].
  apply (one_fetch_at_a_time _ ex_key Hr). apply not_elem_of_empty.
Defined.

(** A server that answers 430. *)
Definition ex_missing : fetch_env :=
  mkFetchEnv true false false GotConn (FetchFailed [ErrNoArticle]) false true false 0 false 0.

Lemma attempts_bounded_witness :
  exists t', attempts 1 ex_key newDispatchTracker 1 t' /\
    a_exhausted (tryDispatch (take 1 ex_servers) false ex_opts t' (ex_chans 0) ex_key) = true.
Proof.
  destruct (handleRequest ToLower_ascii ex_missing (a_tracker (tryDispatch (take 1 ex_servers) false ex_opts newDispatchTracker (ex_chans 0) ex_key))
    (NewServer (mkConfig "a" 2 0 false true)) ex_key 1 0) as [[[t' s'] evs]|] eqn:E; [|vm_compute in E; discriminate E].
  assert (attempts 1 ex_key newDispatchTracker 1 t') as Ha.
  { apply (attempts_round 1 ex_key newDispatchTracker 0 newDispatchTracker (take 1 ex_servers) false ex_opts (ex_chans 0) 0
      ToLower_ascii ex_missing (NewServer (mkConfig "a" 2 0 false true)) 1 t' s' evs);
      [apply attempts_none|reflexivity|vm_compute; reflexivity|exact E|vm_compute; reflexivity]. }
  exists t'. split; [exact Ha|].
  destruct (attempts_bounded 1 ex_key newDispatchTracker 1 t' tracker_start Ha) as (_ & _ & H).
  vm_compute in E. injection E as <- _ _. apply H; [vm_compute; reflexivity|reflexivity|vm_compute; discriminate].
Defined.

(** A fetched article whose result is delivered with its share. *)
Definition ex_fetched : fetch_env :=
  mkFetchEnv true false false GotConn (FetchBody ex_body) false true false 0 false 0.


(** A takedown notice, and the small article. *)
Lemma decodePayload_sound_witness :
  decodePayload ToLower_ascii (bs "This article was REMOVED") 1 = Some (Err ErrArticleRemoved) /\
  exists p, decodePayload ToLower_ascii ex_body 1 = Some (Ok p) /\ pl_crc p = ChecksumIEEE (pl_data p).
Proof.
  split; [vm_compute; reflexivity|].
  destruct (decodePayload_sound ToLower_ascii ex_body 1) as (r & E & H).
  destruct r as [p|e]; [exists p; split; [exact E|]; destruct H as [H _]; exact H|vm_compute in E; discriminate E].
Defined.
