(* ===== verification/Dispatch.v ===== *)
(** * The dispatch pass ([internal/downloader/dispatch.go])

    One pass over the queue: the plan it builds, what is then done with it,
    and the tracker's reaping.  The clock and the registry stand still during
    a pass; the context may end anywhere in it. *)
From S2P Require Import Prelude Lifecycle Bitset Figures Tracker Downloader DownloaderProps.
From stdpp Require Import base numbers gmap sorting list strings.
From Stdlib Require Import ZArith Lia.
Local Open Scope Z_scope.

(** What the pass reads of a registered job instance. *)
Record live_job : Type := mkLive {
  lj_inst : nat;
  lj_resident : bool;
  lj_handedOff : bool;
  lj_added : Z;
  lj_hopeless : bool;
  lj_unfinished : list Z;   (* the articles [ForEachUnfinishedArticle] visits *)
}.

(** A row of [Dispatcher.List], and the job [Dispatcher.Job] answers for it. *)
Record queue_row : Type := mkRow {
  qr_ID : string;
  qr_Intent : Intent;
  qr_Running : bool;
  qr_State : State;
  qr_Outcome : Outcome;
  qr_Next : State;
  qr_job : option live_job;
}.

Record dispatchPlan : Type := mkPlan {
  dispatched : Z;
  scanned : nat;
  activeJobs : gset string;
  hopelessJobs : gset string;
  exhausted : list (string * nat * Z);
}.

Definition emptyPlan : dispatchPlan := mkPlan 0 0 ∅ ∅ [].

(** The tracker, the channels and the plan so far. *)
Record pass : Type := mkPass { ps_tracker : dispatchTracker; ps_workCh : gmap string (Z * Z); ps_plan : dispatchPlan }.

(** What a pass is given; [ctxDone n] is the context when [n] articles have
    been examined. *)
Record pass_env : Type := mkPassEnv {
  pe_servers : list Server;
  pe_opts : dispatchOpts;
  pe_clock : Z;                 (* [time.Now] in [allServersFull] *)
  pe_propagationDelay : Z;
  pe_ctxDone : nat -> bool;
}.

Definition full (e : pass_env) (st : pass) : bool := allServersFull (pe_servers e) (ps_workCh st) (pe_clock e).
Definition fresh_wait (e : pass_env) (st : pass) : bool := freshArticlesWait (pe_servers e) (ps_workCh st) (pe_opts e).

(** One article of the walk: [tryDispatch] and the plan's bookkeeping, and
    whether it had a try-list. *)
Definition visit (e : pass_env) (id : string) (inst : nat) (st : pass) (art : Z) : pass * bool :=
  let p := ps_plan st in
  let r := tryDispatch (pe_servers e) (pe_ctxDone e (scanned p)) (pe_opts e) (ps_tracker st) (ps_workCh st) (id, inst, art) in
  (mkPass (a_tracker r) (a_workCh r)
     (mkPlan (if a_handled r then dispatched p + 1 else dispatched p) (S (scanned p))
        (if a_handled r then {[id]} ∪ activeJobs p else activeJobs p) (hopelessJobs p)
        (if a_exhausted r then exhausted p ++ [(id, inst, art)] else exhausted p)),
   a_hadTryList r).

(** The callback over a job's unfinished articles; the flag is [stopAll]. *)
Fixpoint walk_job (e : pass_env) (id : string) (inst : nat) (arts : list Z) (triedLeft : Z) (st : pass) : pass * bool :=
  match arts with
  | [] => (st, false)
  | art :: arts =>
      let '(st, had) := visit e id inst st art in
      let triedLeft := if had then triedLeft - 1 else triedLeft in
      if pe_ctxDone e (scanned (ps_plan st)) then (st, true)
      else if bool_decide (triedLeft > 0) || negb (fresh_wait e st)
      then if full e st then (st, true) else walk_job e id inst arts triedLeft st
      else (st, full e st)
  end.

(** The checks that let a row's job be walked. *)
Definition walkable (row : queue_row) : option live_job :=
  if negb (bool_decide (qr_Intent row = IntentRun)) then None
  else if negb (qr_Running row) || negb (bool_decide (qr_State row = Fetching)) then None
  else match qr_job row with
       | None => None
       | Some j => if negb (lj_resident j) || lj_handedOff j then None else Some j
       end.

Definition too_young (e : pass_env) (j : live_job) : bool :=
  bool_decide (pe_propagationDelay e > 0) && bool_decide (now (pe_opts e) < lj_added j + pe_propagationDelay e).

Definition add_hopeless (st : pass) (id : string) : pass :=
  let p := ps_plan st in
  mkPass (ps_tracker st) (ps_workCh st) (mkPlan (dispatched p) (scanned p) (activeJobs p) ({[id]} ∪ hopelessJobs p) (exhausted p)).

(** The loop over the rows; [tried] are the entries per instance when the
    pass began. *)
Fixpoint walk_rows (e : pass_env) (tried : nat -> Z) (rows : list queue_row) (st : pass) : pass :=
  match rows with
  | [] => st
  | row :: rows =>
      match walkable row with
      | None => walk_rows e tried rows st
      | Some j =>
          if too_young e j then walk_rows e tried rows st
          else if lj_hopeless j then walk_rows e tried rows (add_hopeless st (qr_ID row))
          else if bool_decide (tried (lj_inst j) = 0) && fresh_wait e st then walk_rows e tried rows st
          else
            let '(st, stopAll) := walk_job e (qr_ID row) (lj_inst j) (lj_unfinished j) (tried (lj_inst j)) st in
            if stopAll then st else walk_rows e tried rows st
      end
  end.

Definition buildDispatchPlan (e : pass_env) (rows : list queue_row) (t : dispatchTracker) (workCh : gmap string (Z * Z)) : pass :=
  let st := mkPass t workCh emptyPlan in
  if full e st then st
  else walk_rows e (fun inst => Z.of_nat (TriedCount t inst)) rows st.

(** [hasDownloadableJobs]. *)
Definition hasDownloadableJobs (paused : bool) (rows : list queue_row) : bool :=
  if paused then false
  else existsb (fun row =>
    if negb (bool_decide (qr_Intent row = IntentRun)) || IsSettled (qr_Outcome row) then false
    else if match qr_job row with Some j => lj_handedOff j | None => false end then false
    else bool_decide (qr_State row = Fetching) ||
         (bool_decide (qr_State row = StateUnset) && bool_decide (qr_Next row = Fetching))) rows.

(** What [applyDispatchPlan] does: the exhausted articles' effects, the jobs
    reported hopeless, and whether the connections are closed.  [dropped]
    says of each exhausted article whether its result found no taker. *)
Record applied : Type := mkApplied {
  ap_tracker : dispatchTracker;
  ap_effects : list ((string * nat * Z) * list effect);
  ap_hopeless : gset string;
  ap_disconnect : bool;
}.

Definition applyDispatchPlan (dropped : string * nat * Z -> bool) (paused activeConnections : bool) (rows : list queue_row)
    (st : pass) : applied :=
  let '(t, evs) := foldl (fun acc key =>
      let '(t, evs) := acc in
      let '(t, ev) := applyExhausted (dropped key) t key in (t, evs ++ [(key, ev)]))
    (ps_tracker st, []) (exhausted (ps_plan st)) in
  mkApplied t evs (hopelessJobs (ps_plan st))
    (bool_decide (dispatched (ps_plan st) = 0) && negb (hasDownloadableJobs paused rows) && activeConnections).

(** [dispatchPass]: nothing while paused or once the context has ended. *)
Definition dispatchPass (e : pass_env) (dropped : string * nat * Z -> bool) (paused queuePaused activeConnections : bool)
    (rows : list queue_row) (t : dispatchTracker) (workCh : gmap string (Z * Z)) :
    option (applied * gmap string (Z * Z)) :=
  if paused || queuePaused || pe_ctxDone e 0 then None
  else
    let st := buildDispatchPlan e rows t workCh in
    Some (applyDispatchPlan dropped queuePaused activeConnections rows st, ps_workCh st).

(** [reapTracker]; [job] answers for an ID the instance registered under it. *)
Definition stale_key (job : string -> option nat) (aborted : string) (key : string * nat * Z) : bool :=
  let '(id, inst, _) := key in
  bool_decide (id = aborted) || negb (bool_decide (job id = Some inst)).

(** The instance of such an entry loses all its entries; an instance belongs
    to one ID. *)
Definition reapTracker (job : string -> option nat) (aborted : string) (t : dispatchTracker) : dispatchTracker :=
  DropInstances t
    (set_map inst_of (base.filter (fun key => stale_key job aborted key = true)
       (dom (tryList t) ∪ dom (inFlight t) ∪ dom (faults t)) : gset (string * nat * Z))).

(** ** The walk without its shortcut

    The reference: every unfinished article of every walkable job is offered,
    until no server has room. *)
Fixpoint walk_job_all (e : pass_env) (id : string) (inst : nat) (arts : list Z) (st : pass) : pass * bool :=
  match arts with
  | [] => (st, false)
  | art :: arts =>
      let '(st, _) := visit e id inst st art in
      if pe_ctxDone e (scanned (ps_plan st)) then (st, true)
      else if full e st then (st, true) else walk_job_all e id inst arts st
  end.

Fixpoint walk_rows_all (e : pass_env) (rows : list queue_row) (st : pass) : pass :=
  match rows with
  | [] => st
  | row :: rows =>
      match walkable row with
      | None => walk_rows_all e rows st
      | Some j =>
          if too_young e j then walk_rows_all e rows st
          else if lj_hopeless j then walk_rows_all e rows (add_hopeless st (qr_ID row))
          else
            let '(st, stopAll) := walk_job_all e (qr_ID row) (lj_inst j) (lj_unfinished j) st in
            if stopAll then st else walk_rows_all e rows st
      end
  end.

(** The same pass, up to how many articles it examined. *)
Definition same_pass (st st' : pass) : Prop :=
  ps_tracker st = ps_tracker st' /\ ps_workCh st = ps_workCh st' /\
  dispatched (ps_plan st) = dispatched (ps_plan st') /\ activeJobs (ps_plan st) = activeJobs (ps_plan st') /\
  hopelessJobs (ps_plan st) = hopelessJobs (ps_plan st') /\ exhausted (ps_plan st) = exhausted (ps_plan st').

#[export] Instance same_pass_equiv : Equivalence same_pass.
Proof.
  split.
  - intros st. by split_and!.
  - intros st st' (?&?&?&?&?&?). by split_and!.
  - intros a b c (?&?&?&?&?&?) (?&?&?&?&?&?). split_and!; congruence.
Qed.

#[export] Instance full_proper e : Proper (same_pass ==> eq) (full e).
Proof. intros st st' (_ & H & _). unfold full. by rewrite H. Qed.

#[export] Instance fresh_wait_proper e : Proper (same_pass ==> eq) (fresh_wait e).
Proof. intros st st' (_ & H & _). unfold fresh_wait. by rewrite H. Qed.

#[export] Instance add_hopeless_proper : Proper (same_pass ==> eq ==> same_pass) add_hopeless.
Proof. intros st st' (?&?&?&?&?&?) i ? <-. split_and!; cbn; congruence. Qed.

Section shortcut.
Context (e : pass_env).
Hypothesis alive : forall n, pe_ctxDone e n = false.

#[local] Instance visit_proper id inst : Proper (same_pass ==> eq ==> prod_relation same_pass eq) (visit e id inst).
Proof.
  intros st st' (Ht & Hw & Hd & Ha & Hh & Hx) art ? <-. unfold visit. cbv zeta. rewrite !alive, Ht, Hw.
  split; [|done]. split_and!; cbn; by rewrite ?Hd, ?Ha, ?Hh, ?Hx.
Qed.

#[local] Instance walk_job_all_proper id inst arts :
  Proper (same_pass ==> prod_relation same_pass eq) (walk_job_all e id inst arts).
Proof.
  induction arts as [|art arts IH]; intros st st' H; [by split|]. cbn [walk_job_all].
  pose proof (visit_proper id inst st st' H art art eq_refl) as [Hv _].
  destruct (visit e id inst st art) as [st1 b], (visit e id inst st' art) as [st1' b']. cbn in Hv.
  rewrite !alive, (full_proper e _ _ Hv). destruct (full e st1'); [by split|]. by apply IH.
Qed.

(** The article's entry is looked at before, and nobody else's changes. *)
Lemma visit_entries id inst st art :
  snd (visit e id inst st art) = bool_decide (is_Some (tryList (ps_tracker st) !! (id, inst, art))) /\
  forall k, k <> (id, inst, art) -> tryList (ps_tracker (fst (visit e id inst st art))) !! k = tryList (ps_tracker st) !! k.
Proof.
  unfold visit. cbv zeta. rewrite alive.
  destruct (tryDispatch_cases (pe_servers e) false (pe_opts e) (ps_tracker st) (ps_workCh st) (id, inst, art)) as [Hh Hc].
  cbn [fst snd ps_tracker]. split; [exact Hh|]. intros k Hk. destruct (a_server _) as [i|].
  - destruct Hc as (_ & s & len & cap & _ & _ & _ & _ & _ & -> & _). cbn. by rewrite lookup_insert_ne.
  - by destruct Hc as (-> & _).
Qed.

(** An article with no try-list, when such articles wait: nothing happens. *)
Lemma visit_fresh id inst st art : tryList (ps_tracker st) !! (id, inst, art) = None -> fresh_wait e st = true ->
  same_pass (fst (visit e id inst st art)) st /\ snd (visit e id inst st art) = false.
Proof.
  intros Hn Hf. split; [|by rewrite (proj1 (visit_entries _ _ _ _)), Hn].
  unfold visit, tryDispatch, TryListLocked. cbv zeta. rewrite Hn, alive. cbn [default from_option].
  unfold fresh_wait, freshArticlesWait in Hf. rewrite (bool_decide_eq_false_2 (is_Some None)) by (intros [? [=]]).
  case_decide; [by split_and!|]. rewrite decide_False by naive_solver.
  destruct (selectServerForArticle _ _ _ _ _); [done|done|by split_and!].
Qed.

Lemma walk_all_fresh id inst arts st :
  (forall art, art ∈ arts -> tryList (ps_tracker st) !! (id, inst, art) = None) -> fresh_wait e st = true -> full e st = false ->
  same_pass (fst (walk_job_all e id inst arts st)) st /\ snd (walk_job_all e id inst arts st) = false.
Proof.
  revert st. induction arts as [|art arts IH]; intros st Hn Hf Hfull; [by split|]. cbn [walk_job_all].
  destruct (visit_fresh id inst st art) as [Hv _]; [apply Hn; by left|done|].
  destruct (visit e id inst st art) as [st1 b]. cbn [fst snd] in Hv. rewrite alive, (full_proper e _ _ Hv), Hfull.
  destruct (IH st1) as [H1 H2].
  - intros a Ha. rewrite (proj1 Hv). apply Hn. by right.
  - by rewrite (fresh_wait_proper e _ _ Hv).
  - by rewrite (full_proper e _ _ Hv).
  - split; [by rewrite H1|done].
Qed.

(** How many of the articles have an entry. *)
Definition entries (t : dispatchTracker) (id : string) (inst : nat) (arts : list Z) : Z :=
  sumZ ((fun art => if bool_decide (is_Some (tryList t !! (id, inst, art))) then 1 else 0) <$> arts).

Lemma indicator_sum {A} (f : A -> bool) l : 0 <= sumZ ((fun x => if f x then 1 else 0) <$> l).
Proof. induction l as [|x l IH]; cbn; [done|]. unfold sumZ in IH. destruct (f x); lia. Qed.

Lemma entries_none t id inst arts : entries t id inst arts <= 0 ->
  forall art, art ∈ arts -> tryList t !! (id, inst, art) = None.
Proof.
  unfold entries. induction arts as [|a arts IH]; intros H art Hin; [by apply elem_of_nil in Hin|]. cbn in H.
  fold (sumZ ((fun art => if bool_decide (is_Some (tryList t !! (id, inst, art))) then 1 else 0) <$> arts)) in H.
  assert (0 <= sumZ ((fun art => if bool_decide (is_Some (tryList t !! (id, inst, art))) then 1 else 0) <$> arts))
    by apply indicator_sum.
  apply elem_of_cons in Hin as [->|Hin].
  - case_bool_decide as Hs; [lia|]. by apply eq_None_not_Some.
  - apply IH; [|done]. revert H. case_bool_decide; lia.
Qed.

Lemma entries_ext t t' id inst arts :
  (forall art, art ∈ arts -> tryList t !! (id, inst, art) = tryList t' !! (id, inst, art)) ->
  entries t id inst arts = entries t' id inst arts.
Proof.
  unfold entries. induction arts as [|a arts IH]; intros H; [done|]. cbn. rewrite (H a) by (by left). f_equal.
  apply IH. intros art Hin. apply H. by right.
Qed.

Lemma walk_job_same id inst arts triedLeft st st' :
  NoDup arts -> entries (ps_tracker st) id inst arts <= triedLeft -> full e st = false -> same_pass st st' ->
  let r := walk_job e id inst arts triedLeft st in let r' := walk_job_all e id inst arts st' in
  same_pass (fst r) (fst r') /\ snd r = snd r' /\ (snd r = false -> full e (fst r) = false).
Proof.
  revert triedLeft st st'. induction arts as [|art arts IH]; intros triedLeft st st' Hnd Hle Hfull Hs; [by split_and!|].
  apply NoDup_cons in Hnd as [Hart Hnd]. cbv zeta. cbn [walk_job walk_job_all].
  pose proof (visit_proper id inst st st' Hs art art eq_refl) as [Hv _]. destruct (visit_entries id inst st art) as [Hhad Hother].
  destruct (visit e id inst st art) as [st1 had], (visit e id inst st' art) as [st1' b']. cbn [fst snd] in *.
  rewrite !alive. assert (entries (ps_tracker st1) id inst arts <= (if had then triedLeft - 1 else triedLeft)) as Hle'.
  { rewrite (entries_ext _ (ps_tracker st)); [|intros a Ha; apply Hother; by intros [= ->]].
    unfold entries in Hle. cbn in Hle. rewrite <- Hhad in Hle. unfold entries, sumZ. destruct had; lia. }
  destruct (bool_decide ((if had then triedLeft - 1 else triedLeft) > 0) || negb (fresh_wait e st1)) eqn:Eb.
  - rewrite <- (full_proper e _ _ Hv). destruct (full e st1) eqn:Ef; [by split_and!|]. by apply IH.
  - apply orb_false_iff in Eb as [Hz%bool_decide_eq_false Hw%negb_false_iff]. cbn [fst snd].
    rewrite <- (full_proper e _ _ Hv). destruct (full e st1) eqn:Ef; [by split_and!|].
    destruct (walk_all_fresh id inst arts st1') as [H1 H2].
    + intros a Ha. rewrite <- (proj1 Hv). apply (entries_none _ id inst arts); [lia|done].
    + by rewrite <- (fresh_wait_proper e _ _ Hv).
    + by rewrite <- (full_proper e _ _ Hv).
    + rewrite H2. split_and!; [by rewrite H1|done|done].
Qed.
(** A walk leaves other instances' entries alone. *)
Lemma walk_job_other id inst arts triedLeft st k : inst_of k <> inst ->
  tryList (ps_tracker (fst (walk_job e id inst arts triedLeft st))) !! k = tryList (ps_tracker st) !! k.
Proof.
  intros Hk. revert triedLeft st. induction arts as [|art arts IH]; intros triedLeft st; [done|]. cbn [walk_job].
  destruct (visit_entries id inst st art) as [_ Hother]. specialize (Hother k ltac:(intros ->; by apply Hk)).
  destruct (visit e id inst st art) as [st1 had]. cbn [fst] in Hother.
  repeat case_match; cbn [fst]; by rewrite ?IH.
Qed.

(** The entries of a walk are among its instance's. *)
Lemma entries_bound t id inst arts : NoDup arts -> entries t id inst arts <= Z.of_nat (TriedCount t inst).
Proof.
  intros Hnd. unfold TriedCount, entries.
  set (present := base.filter (fun art => is_Some (tryList t !! (id, inst, art))) arts).
  transitivity (Z.of_nat (length present)).
  - unfold present. clear Hnd. induction arts as [|a arts IH]; [done|]. rewrite filter_cons. cbn. unfold sumZ in IH.
    case_decide as Hd; [rewrite bool_decide_eq_true_2 by done|rewrite bool_decide_eq_false_2 by done]; cbn [length]; lia.
  - apply Nat2Z.inj_le. rewrite <- size_dom.
    assert (NoDup present) as Hp by by apply NoDup_filter.
    rewrite <- (length_fmap (fun art => (id, inst, art))). rewrite <- (size_list_to_set (C := gset (string * nat * Z))).
    2: { apply NoDup_fmap_2; [|done]. by intros ? ? [= ->]. }
    apply subseteq_size. intros k. rewrite elem_of_list_to_set, list_elem_of_fmap.
    intros (art & -> & [[m Hm] _]%list_elem_of_filter). apply elem_of_dom. exists m. by apply map_lookup_filter_Some.
Qed.

(** The jobs a pass may walk are different instances with different articles. *)
Definition rows_ok (rows : list queue_row) : Prop :=
  NoDup (omap (fun row => lj_inst <$> qr_job row) rows) /\
  forall row j, row ∈ rows -> qr_job row = Some j -> NoDup (lj_unfinished j).

Lemma walkable_job row j : walkable row = Some j -> qr_job row = Some j.
Proof. unfold walkable. intros H. repeat case_match; by simplify_eq. Qed.

Lemma rows_ok_cons row rows : rows_ok (row :: rows) -> rows_ok rows /\
  forall j, qr_job row = Some j -> NoDup (lj_unfinished j) /\
    forall row' j', row' ∈ rows -> qr_job row' = Some j' -> lj_inst j' <> lj_inst j.
Proof.
  intros [Hnd Ha]. split.
  - split; [|intros ? ? ?; apply Ha; by right]. cbn in Hnd. destruct (qr_job row); cbn in Hnd; [by apply NoDup_cons in Hnd as [_ ?]|done].
  - intros j Hj. split; [apply (Ha row); [by left|done]|]. intros row' j' Hin Hj' Heq. cbn in Hnd. rewrite Hj in Hnd. cbn in Hnd.
    apply NoDup_cons in Hnd as [Hn _]. apply Hn. apply list_elem_of_omap. exists row'. split; [done|]. by rewrite Hj', <- Heq.
Qed.

Lemma walk_rows_same t0 rows st st' :
  rows_ok rows ->
  (forall row j, row ∈ rows -> qr_job row = Some j -> forall k, inst_of k = lj_inst j ->
     tryList (ps_tracker st) !! k = tryList t0 !! k) ->
  full e st = false -> same_pass st st' ->
  same_pass (walk_rows e (fun inst => Z.of_nat (TriedCount t0 inst)) rows st) (walk_rows_all e rows st').
Proof.
  revert st st'. induction rows as [|row rows IH]; intros st st' Hok Hold Hfull Hs; [done|]. cbn [walk_rows walk_rows_all].
  apply rows_ok_cons in Hok as [Hok Hrow].
  assert (forall row j, row ∈ rows -> qr_job row = Some j -> forall k, inst_of k = lj_inst j ->
     tryList (ps_tracker st) !! k = tryList t0 !! k) as Hold' by (intros r j Hin; apply Hold; by right).
  destruct (walkable row) as [j|] eqn:Ew; [|by apply IH]. apply walkable_job in Ew.
  destruct (Hrow j Ew) as [Hnd Hdiff].
  destruct (too_young e j); [by apply IH|]. destruct (lj_hopeless j).
  { apply IH; [done|done|done|]. by apply add_hopeless_proper. }
  assert (entries (ps_tracker st) (qr_ID row) (lj_inst j) (lj_unfinished j) <= Z.of_nat (TriedCount t0 (lj_inst j))) as Hle.
  { rewrite (entries_ext _ t0); [by apply entries_bound|]. intros art _. by apply (Hold row j); [left| |]. }
  destruct (bool_decide (Z.of_nat (TriedCount t0 (lj_inst j)) = 0) && fresh_wait e st) eqn:Eb.
  - apply andb_true_iff in Eb as [Hz%bool_decide_eq_true Hw].
    destruct (walk_all_fresh (qr_ID row) (lj_inst j) (lj_unfinished j) st') as [H1 H2].
    + intros a Ha. rewrite <- (proj1 Hs). apply (entries_none _ (qr_ID row) (lj_inst j) (lj_unfinished j)); [lia|done].
    + by rewrite <- (fresh_wait_proper e _ _ Hs).
    + by rewrite <- (full_proper e _ _ Hs).
    + destruct (walk_job_all _ _ _ _ _) as [st1' stop]. cbn [fst snd] in *. subst stop. apply IH; [done|done|done|by rewrite H1].
  - pose proof (walk_job_same (qr_ID row) (lj_inst j) (lj_unfinished j) _ st st' Hnd Hle Hfull Hs) as (H1 & H2 & H3). cbv zeta in *.
    pose proof (fun k => walk_job_other (qr_ID row) (lj_inst j) (lj_unfinished j) (Z.of_nat (TriedCount t0 (lj_inst j))) st k) as Hother.
    destruct (walk_job e _ _ _ _ _) as [st1 stop], (walk_job_all _ _ _ _ _) as [st1' stop']. cbn [fst snd] in *. subst stop'.
    destruct stop; [done|]. apply IH; [done| |by apply H3|done].
    intros r j' Hin Hj' k Hk. rewrite Hother; [by apply (Hold' r j')|]. rewrite Hk. by apply (Hdiff r j').
Qed.
End shortcut.

(** C16: the pass's shortcut loses nothing.  [buildDispatchPlan] leaves a job
    as soon as no article of it that is still to come can be sent, which it
    knows from the count of the job's try-lists when the pass began; it ends
    with the same tracker, the same channels and the same plan (articles
    sent, active and hopeless jobs, exhausted articles in order) as the pass
    that offers every unfinished article of every such job until no server
    has room. *)
Theorem buildDispatchPlan_complete e rows t workCh :
  (forall n, pe_ctxDone e n = false) -> rows_ok rows ->
  same_pass (buildDispatchPlan e rows t workCh)
    (if full e (mkPass t workCh emptyPlan) then mkPass t workCh emptyPlan else walk_rows_all e rows (mkPass t workCh emptyPlan)).
Proof.
  intros Halive Hok. unfold buildDispatchPlan. destruct (full e _) eqn:Ef; [done|].
  by apply walk_rows_same.
Qed.

(** ** Witness: the better server is full, and one of three articles was
    tried on it *)
Definition ex_row : queue_row :=
  mkRow "job" IntentRun true Fetching OutcomePending StateUnset (Some (mkLive 0 true false 0 false [7; 8; 9])).
Definition ex_pass : pass_env := mkPassEnv ex_servers ex_opts 0 0 (fun _ => false).
Definition ex_tracker : dispatchTracker :=
  SetTriedLocked newDispatchTracker ("job"%string, 0%nat, 8) (set_server emptyMask 0).

Lemma buildDispatchPlan_complete_witness :
  let st := buildDispatchPlan ex_pass [ex_row] ex_tracker (ex_chans 2) in
  dispatched (ps_plan st) = 1 /\ scanned (ps_plan st) = 2%nat /\
  same_pass st (walk_rows_all ex_pass [ex_row] (mkPass ex_tracker (ex_chans 2) emptyPlan)).
Proof.
  cbv zeta. split; [vm_compute; reflexivity|]. split; [vm_compute; reflexivity|].
  assert (rows_ok [ex_row]) as Hok.
  { split; [apply (bool_decide_unpack _); vm_compute; reflexivity|].
    intros row j Hin Hj. apply list_elem_of_singleton in Hin. subst row. cbn in Hj. injection Hj as <-.
    apply (bool_decide_unpack _). vm_compute. reflexivity. }
  pose proof (buildDispatchPlan_complete ex_pass [ex_row] ex_tracker (ex_chans 2) (fun _ => eq_refl) Hok) as H.
  replace (full ex_pass (mkPass ex_tracker (ex_chans 2) emptyPlan)) with false in H by (vm_compute; reflexivity).
  exact H.
Defined.
