(* ===== verification/Cover.v ===== *)
(** * The cheapest cover of a recovery need ([internal/job/cover.go])

    A 0/1 knapsack by dynamic programming over one row of costs, filled
    downwards in place, with a bit per (volume, sum) to walk back.  The packed
    [took] words are the bits of Bitset.v; [math.MaxInt64] is "unreachable".
    Costs are [int64]; the volume count and [need] are bounded by the caller,
    so the index arithmetic does not overflow. *)
From S2P Require Import Prelude Bitset.
From stdpp Require Import base numbers list.
From Stdlib Require Import ZArith Lia.
Local Open Scope Z_scope.

Record cov : Type := mkCov { cv_best : list Z; cv_took : bitset; cv_into : list Z }.

Definition best_at (st : cov) (c : nat) : Z := nth c (cv_best st) MaxInt64.

(** The body of the inner loop, for volume [v] of [b] blocks at sum [c]. *)
Definition relax (need v b : nat) (byt : Z) (st : cov) (c : nat) : cov :=
  if decide (best_at st c = MaxInt64) then st
  else
    let nc := Nat.min need (c + b) in
    let cost := wraps 64 (best_at st c + byt) in
    if decide (cost < best_at st nc) then
      mkCov (<[nc := cost]> (cv_best st)) (SetBit (cv_took st) (v * S need + nc))
        (if decide (nc = need) then <[v := Z.of_nat c]> (cv_into st) else cv_into st)
    else st.

(** [for c := need; c >= 0; c--]. *)
Fixpoint relax_down (need v b : nat) (byt : Z) (k : nat) (st : cov) : cov :=
  match k with
  | O => st
  | S c => relax_down need v b byt c (relax need v b byt st c)
  end.

(** The outer loop over the volumes from [v] on. *)
Fixpoint cover_rows (need v : nat) (vols : list (nat * Z)) (st : cov) : cov :=
  match vols with
  | [] => st
  | (b, byt) :: vols =>
      cover_rows need (S v) vols
        (if decide (b = 0%nat) then st else relax_down need v b byt (S need) st)
  end.

(** [for v := range slices.Backward(blocks)]. *)
Fixpoint backtrack (need : nat) (blocks : list nat) (st : cov) (v c : nat) : list nat :=
  match v with
  | O => []
  | S v =>
      if Get (cv_took st) (v * S need + c) then
        v :: backtrack need blocks st v
               (if decide (c = need) then Z.to_nat (nth v (cv_into st) 0%Z) else c - nth v blocks 0)%nat
      else backtrack need blocks st v c
  end.

Definition clamp (need b : Z) : Z := Z.min (Z.max b 0) need.

Definition initial_cov (need nvols : nat) : cov :=
  mkCov (0 :: repeat MaxInt64 need) (newBitset (Z.of_nat (nvols * S need))) (repeat 0 nvols).

(** [None] is [(nil, false)]. *)
Definition cheapestCover (inBlocks bytes : list Z) (need : Z) : option (list nat) :=
  if decide (need <= 0) then Some []
  else
    let blocks := (fun b => Z.to_nat (clamp need b)) <$> inBlocks in
    if decide (Z.of_nat (sum_list blocks) < need) then None
    else
      let n := Z.to_nat need in
      let st := cover_rows n 0 (zip blocks bytes) (initial_cov n (length blocks)) in
      Some (backtrack n blocks st (length blocks) n).

Example cover1 : cheapestCover [4; 2; 3; 1] [40; 20; 25; 11] 5 = Some [2; 1]%nat.
Proof. vm_compute. reflexivity. Qed.
Example cover2 : cheapestCover [4; 2] [1; 1] 7 = None.
Proof. vm_compute. reflexivity. Qed.

(** ** Selections

    A selection of the first [v] volumes is a list of booleans, the latest
    volume first, as the volumes in [rvols] are. *)
Fixpoint picked (need : nat) (bs : list bool) (rvols : list (nat * Z)) : nat :=
  match bs, rvols with
  | true :: bs, (b, _) :: rvols => Nat.min need (picked need bs rvols + b)
  | false :: bs, _ :: rvols => picked need bs rvols
  | _, _ => 0%nat
  end.

Fixpoint price (bs : list bool) (rvols : list (nat * Z)) : Z :=
  match bs, rvols with
  | true :: bs, (_, byt) :: rvols => price bs rvols + byt
  | false :: bs, _ :: rvols => price bs rvols
  | _, _ => 0
  end.

Definition total_price (rvols : list (nat * Z)) : Z := sumZ (snd <$> rvols).

(** The selection the marks record for sum [c]. *)
Fixpoint marked (need : nat) (st : cov) (rvols : list (nat * Z)) (c : nat) : list bool :=
  match rvols with
  | [] => []
  | (b, _) :: rvols =>
      let v := length rvols in
      if Get (cv_took st) (v * S need + c) then
        true :: marked need st rvols
                  (if decide (c = need) then Z.to_nat (nth v (cv_into st) 0%Z) else c - b)%nat
      else false :: marked need st rvols c
  end.

Record dp_ok (need nvols : nat) (rvols : list (nat * Z)) (st : cov) : Prop := {
  dp_best : length (cv_best st) = S need;
  dp_took : wf_bits (cv_took st) /\ Len (cv_took st) = (nvols * S need)%nat;
  dp_into : length (cv_into st) = nvols;
  dp_fresh : forall v c, (length rvols <= v)%nat -> (c <= need)%nat -> Get (cv_took st) (v * S need + c) = false;
  dp_sound : forall c, (c <= need)%nat -> best_at st c <> MaxInt64 ->
    picked need (marked need st rvols c) rvols = c /\ price (marked need st rvols c) rvols = best_at st c;
  dp_lower : forall bs, length bs = length rvols -> best_at st (picked need bs rvols) <= price bs rvols;
  dp_max : forall c, best_at st c <= MaxInt64
}.

Lemma picked_le need bs rvols : (picked need bs rvols <= need)%nat.
Proof.
  revert rvols. induction bs as [|[] bs IH]; intros [|[b byt] rvols]; simpl; try lia. apply IH.
Qed.

Lemma price_bounds bs rvols : Forall (fun x => 0 <= snd x) rvols -> 0 <= price bs rvols <= total_price rvols.
Proof.
  intros H. revert bs. induction H as [|[b byt] rvols Hb H IH]; intros bs; [by destruct bs as [|[]]|].
  assert (total_price ((b, byt) :: rvols) = byt + total_price rvols) as -> by done. simpl in Hb.
  pose proof (IH []) as H0. destruct bs as [|[] bs]; simpl; [|specialize (IH bs); lia..].
  destruct rvols; simpl in H0; lia.
Qed.

Lemma nth_insert_z (l : list Z) k k' x d :
  nth k' (<[k := x]> l) d = if decide (k' = k /\ (k < length l)%nat) then x else nth k' l d.
Proof.
  rewrite !nth_lookup. case_decide as H.
  - destruct H as [-> H]. by rewrite list_lookup_insert_eq.
  - destruct (decide (k' = k)) as [->|Hne]; [|by rewrite list_lookup_insert_ne].
    rewrite list_insert_ge; [done|]. destruct (decide (k < length l)%nat); [exfalso; auto|lia].
Qed.

Lemma took_index need v c v' c' :
  (c <= need)%nat -> (c' <= need)%nat -> (v * S need + c = v' * S need + c')%nat -> v = v' /\ c = c'.
Proof.
  intros Hc Hc' E. assert (v = v').
  { destruct (lt_eq_lt_dec v v') as [[H|H]|H]; [|done|]; exfalso; nia. }
  subst. split; [done|lia].
Qed.

(** ** One volume *)
Section Volume.
Context (need nvols : nat) (rvols : list (nat * Z)) (b : nat) (byt : Z) (st0 : cov).
Let v := length rvols.
Hypothesis (Hok : dp_ok need nvols rvols st0) (Hb : (0 < b)%nat) (Hbyt : 0 <= byt) (Hv : (v < nvols)%nat)
    (Hnn : Forall (fun x => 0 <= snd x) rvols) (Hsum : total_price rvols + byt < MaxInt64).

(** The state when the sums from [k] up have been tried. *)
Record relaxed (k : nat) (st : cov) : Prop := {
    rl_len : length (cv_best st) = S need /\ length (cv_into st) = nvols /\
             wf_bits (cv_took st) /\ Len (cv_took st) = (nvols * S need)%nat;
    rl_low : forall j, (j < k)%nat -> best_at st j = best_at st0 j;
    rl_down : forall j, best_at st j <= best_at st0 j;
    rl_case : forall j, (j <= need)%nat ->
      (best_at st j = best_at st0 j /\ Get (cv_took st) (v * S need + j) = false) \/
      (exists c, (k <= c <= need)%nat /\ best_at st0 c <> MaxInt64 /\ Nat.min need (c + b) = j /\
         best_at st j = best_at st0 c + byt /\ best_at st j < best_at st0 j /\
         Get (cv_took st) (v * S need + j) = true /\
         (j = need -> nth v (cv_into st) 0 = Z.of_nat c));
    rl_all : forall c, (k <= c <= need)%nat -> best_at st0 c <> MaxInt64 ->
      best_at st (Nat.min need (c + b)) <= best_at st0 c + byt;
    rl_rest : (forall v' c, v' <> v -> (c <= need)%nat ->
                 Get (cv_took st) (v' * S need + c) = Get (cv_took st0) (v' * S need + c)) /\
              (forall v', v' <> v -> nth v' (cv_into st) 0 = nth v' (cv_into st0) 0)
  }.

Lemma best0_bounds c : (c <= need)%nat -> best_at st0 c <> MaxInt64 -> 0 <= best_at st0 c <= total_price rvols.
Proof using Hok Hnn.
    intros Hc Hf. destruct (dp_sound _ _ _ _ Hok c Hc Hf) as [_ <-]. by apply price_bounds.
Qed.

Lemma relaxed_start : relaxed (S need) st0.
Proof using Hok Hb Hv.
    pose proof Hok as [H1 [H2 H2'] H3 H4 _ _]. split; try done.
    - intros j Hj. left. split; [done|]. by apply H4.
    - intros c Hc. lia.
Qed.

Lemma relaxed_step k st : (k <= need)%nat -> relaxed (S k) st -> relaxed k (relax need v b byt st k).
Proof using Hok Hb Hbyt Hv Hnn Hsum.
    intros Hk [(L1 & L2 & L3 & L4) R1 R2 R3 R4 [R5 R6]]. unfold relax. rewrite (R1 k) by lia.
    destruct (decide (best_at st0 k = MaxInt64)) as [Hinf|Hfin].
    { split; try done; [intros; apply R1; lia| |].
      - intros j Hj. destruct (R3 j Hj) as [?|(c & ? & ?)]; [by left|]. right. exists c. split; [lia|done].
      - intros c Hc Hf. destruct (decide (c = k)) as [->|?]; [done|]. apply R4; [lia|done]. }
    pose proof (best0_bounds k Hk Hfin) as Hbd.
    rewrite (wraps64_id (best_at st0 k + byt)) by (unfold in_i64, MinInt64; lia).
    set (nc := Nat.min need (k + b)). set (cost := best_at st0 k + byt).
    destruct (decide (cost < best_at st nc)) as [Hlt|Hge].
    2:{ split; try done; [intros; apply R1; lia| |].
      - intros j Hj. destruct (R3 j Hj) as [?|(c & ? & ?)]; [by left|]. right. exists c. split; [lia|done].
      - intros c Hc Hf. destruct (decide (c = k)) as [->|?]; [fold nc; unfold cost in Hge; lia|]. apply R4; [lia|done]. }
    assert (k < nc)%nat as Hnc.
    { destruct (decide (k = need)) as [->|?]; [|unfold nc; lia]. exfalso. unfold nc in Hlt.
      rewrite Nat.min_l in Hlt by lia. rewrite R1 in Hlt by lia. unfold cost in Hlt. lia. }
    assert (nc <= need)%nat as Hnc' by (unfold nc; lia).
    set (st' := mkCov _ _ _).
    assert (Hbest : forall j, best_at st' j = if decide (j = nc) then cost else best_at st j).
    { intros j. unfold best_at at 1; simpl. rewrite nth_insert_z. unfold best_at.
      destruct (decide (j = nc)) as [->|?]; [rewrite decide_True by (split; [done|lia]); done|].
      rewrite decide_False by tauto. done. }
    assert (Htk : forall v' c, (c <= need)%nat -> Get (cv_took st') (v' * S need + c) =
      (if decide (v' = v /\ c = nc) then true else Get (cv_took st) (v' * S need + c))).
    { intros v' c Hc. simpl. rewrite Get_SetBit by done. case_decide as Hd.
      - destruct Hd as [-> ->]. rewrite bool_decide_eq_true_2; [done|]. split; [done|].
        unfold Len in L4. rewrite L4. nia.
      - rewrite bool_decide_eq_false_2; [done|]. intros [E _]. apply Hd.
        destruct (took_index need v nc v' c) as [-> ->]; done. }
    split.
    - simpl. rewrite length_insert. split_and!; [done| |by apply wf_SetBit|by rewrite Len_SetBit].
      case_decide; [by rewrite length_insert|done].
    - intros j Hj. rewrite Hbest, decide_False by lia. apply R1. lia.
    - intros j. rewrite Hbest. case_decide as Hj; [|apply R2]. subst j. specialize (R2 nc). lia.
    - intros j Hj. rewrite Hbest, Htk by done. destruct (decide (j = nc)) as [->|Hne].
      + right. exists k. rewrite decide_True by done. split_and!; try done; try lia.
        * specialize (R2 nc). lia.
        * intros ->. simpl. rewrite decide_True, nth_insert_z, decide_True by (split; [done|lia] || done). done.
      + rewrite decide_False by tauto. destruct (R3 j Hj) as [?|(c & Hc & ? & ? & ? & ? & ? & Hi)]; [by left|].
        right. exists c. split_and!; try done; try lia. intros Hjn. simpl. rewrite decide_False by congruence. auto.
    - intros c Hc Hf. rewrite Hbest. destruct (decide (c = k)) as [->|Hne].
      + fold nc. rewrite decide_True by done. unfold cost. lia.
      + specialize (R4 c ltac:(lia) Hf). case_decide as E; [|done]. rewrite E in R4. lia.
    - split.
      + intros v' c Hne Hc. rewrite Htk by done. rewrite decide_False by tauto. by apply R5.
      + intros v' Hne. simpl. case_decide; [|by apply R6]. rewrite nth_insert_z, decide_False by tauto. by apply R6.
Qed.

Lemma relaxed_down k st : (k <= S need)%nat -> relaxed k st -> relaxed 0 (relax_down need v b byt k st).
Proof using Hok Hb Hbyt Hv Hnn Hsum.
    revert st. induction k as [|k IH]; intros st Hk R; [done|]. simpl. apply IH; [lia|].
    apply relaxed_step; [lia|done].
Qed.
End Volume.

Lemma marked_ext need st st' rvols c :
  (c <= need)%nat ->
  (forall v c, (v < length rvols)%nat -> (c <= need)%nat ->
     Get (cv_took st') (v * S need + c) = Get (cv_took st) (v * S need + c)) ->
  (forall v, (v < length rvols)%nat -> nth v (cv_into st') 0 = nth v (cv_into st) 0) ->
  (forall v, (v < length rvols)%nat -> (Z.to_nat (nth v (cv_into st) 0%Z) <= need)%nat) ->
  marked need st' rvols c = marked need st rvols c.
Proof.
  intros Hc Ht Hi Hn. revert c Hc. induction rvols as [|[b byt] rvols IH]; intros c Hc; simpl in *; [done|].
  rewrite Ht, Hi by lia. rewrite !IH; try (intros; (apply Ht || apply Hi || apply Hn); lia); try done.
  case_decide; [apply Hn; lia|lia].
Qed.

(** The bookkeeping [marked_ext] needs. *)
Definition into_le (need : nat) (st : cov) : Prop := forall v, (Z.to_nat (nth v (cv_into st) 0%Z) <= need)%nat.

Lemma relax_into need v b byt st c : (c <= need)%nat -> into_le need st -> into_le need (relax need v b byt st c).
Proof.
  intros Hc H v'. unfold relax. repeat case_decide; simpl; try apply H.
  rewrite nth_insert_z. case_decide; [by rewrite Nat2Z.id|apply H].
Qed.

Lemma relax_down_into need v b byt k st : (k <= S need)%nat -> into_le need st ->
  into_le need (relax_down need v b byt k st).
Proof.
  revert st. induction k as [|k IH]; intros st Hk H; [done|]. simpl. apply IH; [lia|]. by apply relax_into; [lia|].
Qed.

Lemma volume_ok need nvols rvols b byt st :
  dp_ok need nvols rvols st -> into_le need st -> 0 <= byt -> (length rvols < nvols)%nat ->
  Forall (fun x => 0 <= snd x) rvols -> total_price rvols + byt < MaxInt64 -> (0 < b)%nat ->
  dp_ok need nvols ((b, byt) :: rvols) (relax_down need (length rvols) b byt (S need) st).
Proof.
  intros Hok Hi Hbyt Hv Hnn Hsum Hb.
  pose proof (relaxed_down need nvols rvols b byt st Hok Hb Hbyt Hv Hnn Hsum (S need) st
    ltac:(lia) (relaxed_start need nvols rvols b byt st Hok Hb Hv)) as R.
  set (st' := relax_down _ _ _ _ _ _) in *. clearbody st'.
  destruct R as [(L1 & L2 & L3 & L4) R1 R2 R3 R4 [R5 R6]].
  assert (Hm : forall c, (c <= need)%nat -> marked need st' rvols c = marked need st rvols c).
  { intros c Hc. apply marked_ext; [done| | |]; intros; [apply R5|apply R6|apply Hi]; lia. }
  split; try done.
  - intros v' c Hv' Hc. simpl in Hv'. rewrite R5 by (lia). apply (dp_fresh _ _ _ _ Hok); [lia|done].
  - intros c Hc Hf. cbn [marked]. cbv zeta. destruct (R3 c Hc) as [[E1 E2]|(c0 & Hc0 & Hf0 & Ec & E1 & E2 & E3 & E4)].
    + rewrite E2, E1. cbn [picked price]. rewrite Hm by done. apply (dp_sound _ _ _ _ Hok); [done|by rewrite <- E1].
    + rewrite E3. cbn [picked price].
      assert ((if decide (c = need) then Z.to_nat (nth (length rvols) (cv_into st') 0%Z) else c - b)%nat = c0) as ->.
      { case_decide as Hd; [rewrite E4 by done; lia|lia]. }
      rewrite Hm by lia. destruct (dp_sound _ _ _ _ Hok c0 ltac:(lia) Hf0) as [-> ->]. done.
  - intros bs Hl. destruct bs as [|x bs]; [done|]. simpl in Hl. injection Hl as Hl. destruct x; simpl.
    + pose proof (dp_lower _ _ _ _ Hok bs Hl). pose proof (price_bounds bs rvols Hnn).
      pose proof (picked_le need bs rvols).
      specialize (R4 (picked need bs rvols) ltac:(lia) ltac:(lia)). lia.
    + pose proof (dp_lower _ _ _ _ Hok bs Hl). specialize (R2 (picked need bs rvols)). lia.
  - intros c. specialize (R2 c). pose proof (dp_max _ _ _ _ Hok c). lia.
Qed.

Lemma volume_skip need nvols rvols byt st :
  dp_ok need nvols rvols st -> 0 <= byt -> dp_ok need nvols ((0%nat, byt) :: rvols) st.
Proof.
  intros [H1 H2 H3 H4 H5 H6 H7] Hbyt. split; try done.
  - intros v c Hv Hc. apply H4; [simpl in Hv; lia|done].
  - intros c Hc Hf. cbn [marked]. rewrite H4 by lia. by apply H5.
  - intros bs Hl. destruct bs as [|x bs]; [done|]. simpl in Hl. injection Hl as Hl. specialize (H6 bs Hl).
    destruct x; simpl; [|done]. rewrite Nat.add_0_r, Nat.min_r by apply picked_le. lia.
Qed.

Lemma cover_rows_ok need nvols vols rvols st :
  dp_ok need nvols rvols st -> into_le need st -> (length rvols + length vols <= nvols)%nat ->
  Forall (fun x => 0 <= snd x) rvols -> Forall (fun x => 0 <= snd x) vols ->
  total_price rvols + total_price vols < MaxInt64 ->
  dp_ok need nvols (rev vols ++ rvols) (cover_rows need (length rvols) vols st).
Proof.
  revert rvols st. induction vols as [|[b byt] vols IH]; intros rvols st Hok Hi Hl Hn1 Hn2 Hs; [done|].
  cbn [cover_rows rev]. rewrite <- app_assoc. change (S (length rvols)) with (length ((b, byt) :: rvols)).
  inversion Hn2 as [|? ? Hbyt Hn3]; subst. simpl in Hbyt.
  assert (total_price ((b, byt) :: vols) = byt + total_price vols) as Ht by done.
  assert (total_price ((b, byt) :: rvols) = byt + total_price rvols) as Ht' by done.
  assert (0 <= total_price vols) by (pose proof (price_bounds [] vols Hn3); destruct vols; simpl in *; lia).
  simpl in Hl. apply IH; try done; try (simpl; lia).
  - destruct (decide (b = 0%nat)) as [->|Hb]; [by apply volume_skip|]. apply volume_ok; try done; lia.
  - case_decide; [done|]. by apply relax_down_into.
  - by constructor.
Qed.

Lemma initial_ok need nvols : dp_ok need nvols [] (initial_cov need nvols) /\ into_le need (initial_cov need nvols).
Proof.
  assert (Hb : forall c, best_at (initial_cov need nvols) c = if decide (c = 0%nat) then 0 else MaxInt64).
  { intros [|c]; [done|]. unfold best_at; simpl. clear. revert c.
    induction need as [|n IH]; intros [|c]; simpl; done. }
  split; [split; simpl|].
  - by rewrite repeat_length.
  - split; [apply wf_newBitset|]. unfold Len, newBitset; simpl. lia.
  - apply repeat_length.
  - intros v c _ _. apply Get_newBitset.
  - intros c Hc. rewrite Hb. case_decide; [subst; done|done].
  - intros [|x bs] Hl; [|done]. by rewrite Hb.
  - intros c. rewrite Hb. case_decide; unfold MaxInt64; lia.
  - intros v. simpl. assert (nth v (repeat 0 nvols) 0 = 0) as ->; [|lia]. clear Hb. revert v.
    induction nvols as [|n IH]; intros [|v]; simpl; done.
Qed.

(** ** Selections as index lists *)
Fixpoint sel (bs : list bool) : list nat :=
  match bs with
  | [] => []
  | true :: bs => length bs :: sel bs
  | false :: bs => sel bs
  end.

Fixpoint choose (P : nat -> bool) (n : nat) : list bool :=
  match n with
  | O => []
  | S n => P n :: choose P n
  end.

Lemma sel_lt bs i : i ∈ sel bs -> (i < length bs)%nat.
Proof.
  induction bs as [|[] bs IH]; simpl; rewrite ?elem_of_nil, ?elem_of_cons; [done| |]; intros H.
  - destruct H as [->|H]; [lia|]. apply IH in H. lia.
  - apply IH in H. lia.
Qed.

Lemma sel_NoDup bs : NoDup (sel bs).
Proof.
  induction bs as [|[] bs IH]; simpl; [constructor| |done]. constructor; [|done].
  intros H%sel_lt. lia.
Qed.

Lemma length_choose P n : length (choose P n) = n.
Proof. induction n; simpl; lia. Qed.

Lemma sel_choose P n i : i ∈ sel (choose P n) <-> (i < n)%nat /\ P i = true.
Proof.
  induction n as [|n IH]; simpl; [rewrite elem_of_nil; lia|].
  destruct (P n) eqn:E; rewrite ?elem_of_cons, IH, ?length_choose; split.
  - intros [->|[? ?]]; auto with lia.
  - intros [Hi Hp]. destruct (decide (i = n)) as [->|]; [by left|right; split; [lia|done]].
  - intros [? ?]; auto with lia.
  - intros [Hi Hp]. split; [|done]. destruct (decide (i = n)) as [->|]; [congruence|lia].
Qed.

Lemma sumZ_Permutation l1 l2 : Permutation l1 l2 -> sumZ l1 = sumZ l2.
Proof. induction 1; simpl; lia. Qed.

Lemma choose_perm l n : NoDup l -> Forall (fun i => (i < n)%nat) l ->
  Permutation (sel (choose (fun i => bool_decide (i ∈ l)) n)) l.
Proof.
  intros Hl Hn. apply NoDup_Permutation; [apply sel_NoDup|done|]. intros i. rewrite sel_choose.
  rewrite bool_decide_eq_true. split; [tauto|]. intros Hi. split; [|done].
  rewrite Forall_forall in Hn. by apply Hn.
Qed.

(** The blocks and the price of a selection, as sums. *)
Definition blocks_of (vols : list (nat * Z)) (l : list nat) : Z :=
  sumZ ((fun i => Z.of_nat (nth i (fst <$> vols) 0%nat)) <$> l).
Definition bytes_of (bytes : list Z) (l : list nat) : Z := sumZ ((fun i => nth i bytes 0) <$> l).

Lemma rev_take_S {A} (l : list A) v x : l !! v = Some x -> rev (take (S v) l) = x :: rev (take v l).
Proof. intros H. by rewrite (take_S_r _ _ _ H), rev_app_distr. Qed.

Lemma sel_sums need vols bs :
  (length bs <= length vols)%nat ->
  price bs (rev (take (length bs) vols)) = bytes_of (snd <$> vols) (sel bs) /\
  Z.of_nat (picked need bs (rev (take (length bs) vols))) = Z.min (Z.of_nat need) (blocks_of vols (sel bs)).
Proof.
  induction bs as [|x bs IH]; intros Hl; [split; [done|]; unfold blocks_of; simpl; lia|].
  simpl in Hl. cbn [length]. destruct (lookup_lt_is_Some_2 vols (length bs)) as [[b byt] E]; [lia|].
  rewrite (rev_take_S _ _ _ E). destruct (IH ltac:(lia)) as [IH1 IH2].
  assert (nth (length bs) (fst <$> vols) 0%nat = b /\ nth (length bs) (snd <$> vols) 0 = byt) as [E1 E2].
  { rewrite !nth_lookup, !list_lookup_fmap, E. done. }
  destruct x; cbn [price picked sel]; [|done].
  unfold bytes_of, blocks_of in *. cbn [fmap list_fmap sumZ foldr]. rewrite E1, E2. unfold sumZ in *.
  split; [lia|].
  assert (0 <= foldr Z.add 0 ((fun i => Z.of_nat (nth i (fst <$> vols) 0%nat)) <$> sel bs)).
  { apply sumZ_nonneg. apply Forall_fmap, Forall_forall. intros; simpl; lia. }
  unfold fmap in *. lia.
Qed.

Lemma backtrack_marked need vols st v c :
  (v <= length vols)%nat ->
  backtrack need (fst <$> vols) st v c = sel (marked need st (rev (take v vols)) c) /\
  length (marked need st (rev (take v vols)) c) = v.
Proof.
  revert c. induction v as [|v IH]; intros c Hv; [done|].
  destruct (lookup_lt_is_Some_2 vols v) as [[b byt] E]; [lia|]. rewrite (rev_take_S _ _ _ E).
  assert (length (rev (take v vols)) = v) as Hlen by (rewrite rev_length, length_take; lia).
  assert (nth v (fst <$> vols) 0%nat = b) as E1 by (by rewrite nth_lookup, list_lookup_fmap, E).
  cbn [marked backtrack]. rewrite Hlen, E1. destruct (Get _ _); cbn [sel length].
  - match goal with |- context [backtrack _ _ _ v ?c'] => destruct (IH c' ltac:(lia)) as [-> ->] end. done.
  - destruct (IH c ltac:(lia)) as [-> ->]. done.
Qed.

(** The blocks a set of volumes really brings. *)
Definition recovered (inBlocks : list Z) (l : list nat) : Z := sumZ ((fun i => Z.max (nth i inBlocks 0) 0) <$> l).

Lemma clamp_min need inBlocks l :
  0 < need ->
  Z.min need (sumZ ((fun i => clamp need (nth i inBlocks 0)) <$> l)) = Z.min need (recovered inBlocks l) /\
  0 <= sumZ ((fun i => clamp need (nth i inBlocks 0)) <$> l).
Proof.
  intros Hn. unfold recovered. induction l as [|i l [IH1 IH2]]; [done|].
  assert (0 <= sumZ ((fun i => Z.max (nth i inBlocks 0) 0) <$> l))
    by (apply sumZ_nonneg, Forall_fmap, Forall_forall; intros; simpl; lia).
  cbn [fmap list_fmap sumZ foldr]. unfold sumZ, fmap, clamp in *. lia.
Qed.

Lemma min_need need inBlocks bytes l : 0 < need -> length bytes = length inBlocks ->
  Z.min need (blocks_of (zip ((fun b => Z.to_nat (clamp need b)) <$> inBlocks) bytes) l) =
  Z.min need (recovered inBlocks l).
Proof.
  intros Hn Hl. rewrite <- (proj1 (clamp_min need inBlocks l Hn)). f_equal. unfold blocks_of. f_equal.
  apply list_fmap_ext. intros _ i _. rewrite fst_zip by (rewrite length_fmap; lia).
  rewrite !nth_lookup, list_lookup_fmap. destruct (inBlocks !! i); simpl; unfold clamp; lia.
Qed.

Lemma sumZ_seq {A} (f : A -> Z) (l : list A) d : sumZ (f <$> l) = sumZ ((fun i => f (nth i l d)) <$> seq 0 (length l)).
Proof.
  f_equal. apply list_eq. intros i. rewrite !list_lookup_fmap.
  destruct (decide (i < length l)%nat) as [Hi|Hi].
  - rewrite lookup_seq_lt by done. simpl. destruct (lookup_lt_is_Some_2 l i Hi) as [x Hx].
    by rewrite Hx, (nth_lookup_Some _ _ _ _ Hx).
  - by rewrite lookup_seq_ge, (lookup_ge_None_2 l) by lia.
Qed.

Lemma sum_list_Z l : Z.of_nat (sum_list l) = sumZ (Z.of_nat <$> l).
Proof. induction l as [|x l IH]; [done|]. simpl. unfold sumZ, fmap in *. lia. Qed.

(** ** Property *)

(** The cover is the cheapest.  When the volumes together bring fewer
    blocks than are needed there is none, and the result says so; otherwise
    the result names distinct volumes that bring the blocks needed, and no
    set of volumes that does costs fewer bytes. *)
Theorem cheapestCover_spec inBlocks bytes need :
  length bytes = length inBlocks -> Forall (fun b => 0 <= b) bytes -> sumZ bytes < MaxInt64 -> 0 < need ->
  match cheapestCover inBlocks bytes need with
  | None => recovered inBlocks (seq 0 (length inBlocks)) < need
  | Some cover =>
      NoDup cover /\ Forall (fun i => (i < length inBlocks)%nat) cover /\ need <= recovered inBlocks cover /\
      forall l, NoDup l -> Forall (fun i => (i < length inBlocks)%nat) l -> need <= recovered inBlocks l ->
        bytes_of bytes cover <= bytes_of bytes l
  end.
Proof.
  intros Hl Hb Hs Hn. unfold cheapestCover. rewrite decide_False by lia.
  set (blocks := (fun b => Z.to_nat (clamp need b)) <$> inBlocks). set (vols := zip blocks bytes).
  assert (Hlb : length blocks = length inBlocks) by (unfold blocks; by rewrite length_fmap).
  assert (Hfst : fst <$> vols = blocks) by (unfold vols; rewrite fst_zip by lia; done).
  assert (Hsnd : snd <$> vols = bytes) by (unfold vols; rewrite snd_zip by lia; done).
  assert (Hlv : length vols = length inBlocks) by (unfold vols; rewrite length_zip; lia).
  set (all := seq 0 (length inBlocks)).
  assert (Hmin : forall l, Z.min need (blocks_of vols l) = Z.min need (recovered inBlocks l))
    by (intros; by apply min_need).
  assert (Htot : Z.of_nat (sum_list blocks) = blocks_of vols all).
  { rewrite sum_list_Z. unfold blocks_of, all. rewrite Hfst, <- Hlb. apply (sumZ_seq Z.of_nat). }
  case_decide as Hshort.
  { specialize (Hmin all). lia. }
  set (n := Z.to_nat need). destruct (initial_ok n (length blocks)) as [Hok0 Hin0].
  pose proof (cover_rows_ok n (length blocks) vols [] _ Hok0 Hin0 ltac:(simpl; lia) ltac:(constructor)) as Hok.
  rewrite app_nil_r in Hok. change (length (@nil (nat * Z))) with 0%nat in Hok.
  set (st := cover_rows n 0 vols _) in *.
  assert (Htp : total_price vols = sumZ bytes) by (unfold total_price; by rewrite Hsnd).
  assert (Hnn : Forall (fun x : nat * Z => 0 <= snd x) vols) by (apply (proj1 (Forall_fmap snd (fun b => 0 <= b) vols)); by rewrite Hsnd).
  specialize (Hok Hnn). rewrite Htp in Hok. change (total_price []) with 0 in Hok. specialize (Hok ltac:(lia)).
  assert (Hlow : forall l, NoDup l -> Forall (fun i => (i < length inBlocks)%nat) l ->
    need <= recovered inBlocks l -> best_at st n <= bytes_of bytes l).
  { intros l Hd Hf Hc. set (bs := choose (fun i => bool_decide (i ∈ l)) (length vols)).
    assert (length bs = length vols) as Hbl by apply length_choose.
    destruct (sel_sums n vols bs) as [Hp Hk]; [lia|]. rewrite Hbl, take_ge in Hp, Hk by lia.
    pose proof (choose_perm l (length vols) Hd ltac:(by rewrite Hlv)) as Hperm. fold bs in Hperm.
    assert (bytes_of bytes (sel bs) = bytes_of bytes l) as <-
      by (apply sumZ_Permutation; by apply fmap_Permutation).
    assert (recovered inBlocks (sel bs) = recovered inBlocks l) as Hr
      by (apply sumZ_Permutation; by apply fmap_Permutation).
    rewrite Hsnd in Hp. rewrite <- Hp.
    assert (picked n bs (rev vols) = n) as <- by (specialize (Hmin (sel bs)); lia).
    apply (dp_lower _ _ _ _ Hok). by rewrite rev_length. }
  assert (Hfin : best_at st n <> MaxInt64).
  { assert (Hall : bytes_of bytes all = sumZ bytes).
    { unfold bytes_of, all. rewrite <- Hl. symmetry. etrans; [|apply (sumZ_seq (fun x => x) bytes 0)].
      by rewrite list_fmap_id. }
    pose proof (Hlow all (NoDup_seq _ _)) as H. rewrite Hall in H.
    assert (best_at st n <= sumZ bytes); [|lia]. apply H.
    - apply Forall_forall. intros i Hi%elem_of_seq. lia.
    - specialize (Hmin all). lia. }
  destruct (dp_sound _ _ _ _ Hok n ltac:(lia) Hfin) as [Hp Hc].
  destruct (backtrack_marked n vols st (length vols) n ltac:(lia)) as [Hbt Hml].
  rewrite Hfst, take_ge in Hbt by lia. rewrite take_ge in Hml by lia. rewrite Hlb, <- Hlv, Hbt.
  set (bs := marked n st (rev vols) n) in *. destruct (sel_sums n vols bs) as [Hp' Hc']; [lia|].
  rewrite Hml, take_ge in Hp', Hc' by lia. rewrite Hsnd in Hp'. split_and!.
  - apply sel_NoDup.
  - apply Forall_forall. intros i Hi%sel_lt. lia.
  - specialize (Hmin (sel bs)). lia.
  - intros l Hd Hf Hr. rewrite <- Hp', Hc. apply Hlow; [done| |done]. by rewrite <- Hlv.
Qed.

(** ** Witness *)
Lemma cheapestCover_spec_witness :
  cheapestCover [4; 2; 3; 1] [40; 20; 25; 11] 5 = Some [2; 1]%nat /\
  forall l, NoDup l -> Forall (fun i => (i < 4)%nat) l -> 5 <= recovered [4; 2; 3; 1] l ->
    bytes_of [40; 20; 25; 11] [2; 1]%nat <= bytes_of [40; 20; 25; 11] l.
Proof.
  split; [vm_compute; reflexivity|].
  refine (proj2 (proj2 (proj2 (cheapestCover_spec [4; 2; 3; 1] [40; 20; 25; 11] 5 _ _ _ _)))).
  - reflexivity.
  - repeat constructor; lia.
  - vm_compute. reflexivity.
  - lia.
Defined.
