(* ===== verification/Content.v ===== *)
(** * A job's content tier ([internal/job/content.go], [verified.go],
    [verification.go], [release.go])

    The part of [Job] that [contentMu] guards: the file table, the manifest
    (absent while the job is evicted), the progress record and the state
    restored before there was one.  One definition per method; a method that
    can panic returns an option.  Tables are immutable and compared by
    pointer, so a pointer is an address and [mem] is what it points to. *)
From S2P Require Import Prelude Bitset FileTable Rows Progress ProgressOps Figures Cover.
From stdpp Require Import base gmap list strings.
From Stdlib Require Import ZArith Lia.
Local Open Scope Z_scope.

Inductive content_err : Type :=
| ErrNotResident | ErrNilTable | ErrSeedLen | ErrFilesAttached | ErrNilManifest | ErrNoTable
| ErrForeignTable | ErrManifestAttached | ErrNegativeCharge | ErrArticleRange | ErrFileRange
| ErrNotInFile | ErrRowShape | ErrNameChanged.

#[export] Instance content_err_eq_dec : EqDecision content_err.
Proof. solve_decision. Defined.

Record JobContent : Type := mkJC {
  j_name : string;
  j_fileTable : option nat;
  j_manifest : option (nat * Manifest);  (* the address of [m.Files()], and [m] *)
  j_progress : option JobProgress;
  j_totalBytes : Z;
  j_recoveryBytes : Z;
  j_recoveryFiles : nat;
  j_restoredDLStarted : Z;
  j_restoredDLFinished : Z;
  j_restoredPar2Reason : string
}.

Definition newContent (name : string) : JobContent := mkJC name None None None 0 0 0 0 0 "".

Definition set_j_manifest (j : JobContent) (x : option (nat * Manifest)) : JobContent :=
  mkJC (j_name j) (j_fileTable j) x (j_progress j) (j_totalBytes j) (j_recoveryBytes j)
    (j_recoveryFiles j) (j_restoredDLStarted j) (j_restoredDLFinished j) (j_restoredPar2Reason j).
Definition set_j_progress (j : JobContent) (x : JobProgress) : JobContent :=
  mkJC (j_name j) (j_fileTable j) (j_manifest j) (Some x) (j_totalBytes j) (j_recoveryBytes j)
    (j_recoveryFiles j) (j_restoredDLStarted j) (j_restoredDLFinished j) (j_restoredPar2Reason j).
Definition set_j_restored (j : JobContent) (reason : string) (started finished : Z) : JobContent :=
  mkJC (j_name j) (j_fileTable j) (j_manifest j) (j_progress j) (j_totalBytes j) (j_recoveryBytes j)
    (j_recoveryFiles j) started finished reason.

(** [fi < 0 || fi >= n]. *)
Definition out_of_range (fi : Z) (n : nat) : bool := bool_decide (fi < 0 \/ fi >= Z.of_nat n).

(** A method on a job with a progress record. *)
Definition on_progress {A} (j : JobContent) (none : A) (f : JobProgress -> JobProgress * A) : JobContent * A :=
  match j_progress j with
  | None => (j, none)
  | Some p => let '(p', a) := f p in (set_j_progress j p', a)
  end.

(** ** Verification results ([verification.go]) *)
Record FileVerification : Type := mkFV {
  v_FileIdx : Z;
  v_Filename : string;
  v_RestorePolicy : bool;
  v_Policy : FetchPolicy;
  v_Complete : bool;
  v_Rows : list WrittenRow;
  v_Failed : list Z;
  v_Settle : bool
}.

(** [placeRows]: the rows kept and how many were dropped. *)
Definition placeRows (m : Manifest) (fileIdx : Z) (rows : list WrittenRow) :
    result content_err (list WrittenRow * nat) :=
  if out_of_range fileIdx (NumFiles (m_ft m)) then Err ErrFileRange
  else
    let keep r := bool_decide (r_file r = fileIdx) && ArticleInFile m (r_file r) (r_art r) && HasValidShape r in
    Ok (base.filter (fun r => keep r = true) rows, length (base.filter (fun r => keep r = false) rows)).

(** [markArticleFailed], on the manifest if resident and the progress. *)
Definition markArticleFailed (m : option Manifest) (p : JobProgress) (artIdx charge : Z) :
    JobProgress * option content_err :=
  if out_of_range artIdx (Len (p_done p)) then (p, Some ErrArticleRange)
  else
    let i := Z.to_nat artIdx in
    match m with
    | None => (let '(q, ok) := setFailedBits p i in if ok then limitCharge q i charge else q, None)
    | Some m => (fst (markFailedUncovered p m i charge), None)
    end.

(** [installFileVerificationLocked] on a resident job. *)
Definition install_verification (m : Manifest) (p : JobProgress) (v : FileVerification) :
    JobProgress * result content_err nat :=
  match placeRows m (v_FileIdx v) (v_Rows v) with
  | Err e => (p, Err e)
  | Ok (kept, dropped) =>
      let fi := Z.to_nat (v_FileIdx v) in
      let p := if decide (v_Filename v <> ""%string)
               then upd_file p fi (fun f => set_f_Filename f (v_Filename v)) else p in
      let p := if v_RestorePolicy v then setFileFetchPolicy p fi (v_Policy v) else p in
      let p := installRows p m fi kept in
      let p := if v_Complete v then
                 let '(lo, hi) := FileRange m fi in
                 upd_file (failAll m p (seq lo (hi - lo))) fi (fun f => set_f_Complete f true)
               else p in
      let p := foldl (fun p a => fst (markArticleFailed (Some m) p a WholeArticle)) p (v_Failed v) in
      let p := if v_Complete v || v_Settle v then fst (settleFileCRC p m fi) else p in
      (upd_file p fi (fun f => set_f_Recorded (set_f_Verified f true) 0), Ok dropped)
  end.

Definition installFileVerificationLocked (j : JobContent) (v : FileVerification) :
    JobContent * result content_err nat :=
  match j_manifest j, j_progress j with
  | Some (_, m), Some p => let '(p', r) := install_verification m p v in (set_j_progress j p', r)
  | _, _ => (j, Err ErrNotResident)
  end.

Definition InstallFileVerification := installFileVerificationLocked.

(** ** Attaching and evicting ([content.go]) *)
Section Memory.
  Context (mem : nat -> FileTable).

Definition AttachFiles (j : JobContent) (ft : option nat) (seed : option (list FileSeed)) :
    JobContent * option content_err :=
  match ft with
  | None => (j, Some ErrNilTable)
  | Some a =>
      let t := mem a in
      if match seed with Some ss => bool_decide (length ss <> NumFiles t) | None => false end
      then (j, Some ErrSeedLen)
      else match j_progress j, j_fileTable j with
           | None, None =>
               let p := newJobProgress t seed in
               let p := restoreDownloadStamps p (j_restoredDLStarted j) (j_restoredDLFinished j) in
               let p := set_p_par2ReleaseReason p (j_restoredPar2Reason j) in
               (mkJC (j_name j) (Some a) (j_manifest j) (Some p) (t_totalBytes t) (t_recoveryByteTotal t)
                  (t_recoveryFileTotal t) 0 0 "", None)
           | _, _ => (j, Some ErrFilesAttached)
           end
  end.

(** Installing every verification, whatever became of the one before. *)
Fixpoint install_all (j : JobContent) (vs : list FileVerification) :
    JobContent * list (result content_err nat) :=
  match vs with
  | [] => (j, [])
  | v :: vs =>
      let '(j, r) := installFileVerificationLocked j v in
      let '(j, rs) := install_all j vs in (j, r :: rs)
  end.

(** [AttachArticles]; [None] is a panic: [recompute]'s, or a nil progress. *)
Definition AttachArticles (j : JobContent) (m : option (nat * Manifest)) (vs : list FileVerification) :
    option (JobContent * result content_err (list (result content_err nat))) :=
  match m with
  | None => Some (j, Err ErrNilManifest)
  | Some (a, m) =>
      match j_fileTable j with
      | None => Some (j, Err ErrNoTable)
      | Some b =>
          if decide (a <> b) then Some (j, Err ErrForeignTable)
          else match j_manifest j with
               | Some _ => Some (j, Err ErrManifestAttached)
               | None =>
                   match j_progress j with
                   | None => None
                   | Some p =>
                       match recompute p m with
                       | None => None
                       | Some p =>
                           let '(j, rs) := install_all (set_j_manifest (set_j_progress j p) (Some (a, m))) vs in
                           Some (j, Ok rs)
                       end
                   end
               end
      end
  end.

Definition AttachContent (j : JobContent) (m : option (nat * Manifest)) :
    option (JobContent * option content_err) :=
  match m with
  | None => Some (j, Some ErrNilManifest)
  | Some (a, m) =>
      let '(j, e) := AttachFiles j (Some a) None in
      match e with
      | Some e => Some (j, Some e)
      | None =>
          match AttachArticles j (Some (a, m)) [] with
          | None => None
          | Some (j, Err e) => Some (j, Some e)
          | Some (j, Ok _) => Some (j, None)
          end
      end
  end.
End Memory.

Definition Evict (j : JobContent) : JobContent := set_j_manifest j None.
Definition Resident (j : JobContent) : bool := match j_manifest j with Some _ => true | None => false end.

(** ** Articles *)
Definition MarkArticleFailed (j : JobContent) (artIdx charge : Z) : JobContent * option content_err :=
  if decide (charge < 0 /\ charge <> WholeArticle) then (j, Some ErrNegativeCharge)
  else on_progress j (Some ErrNotResident)
         (fun p => markArticleFailed (snd <$> j_manifest j) p artIdx charge).

Definition MarkArticleEmitted (j : JobContent) (artIdx : Z) : JobContent * option content_err :=
  match j_progress j, j_manifest j with
  | Some p, Some (_, m) =>
      if out_of_range artIdx (NumArticles m) then (j, Some ErrArticleRange)
      else (set_j_progress j (markEmitted p m (Z.to_nat artIdx)), None)
  | _, _ => (j, Some ErrNotResident)
  end.

Definition ClearArticleEmitted (j : JobContent) (artIdx : Z) : JobContent * option content_err :=
  match j_progress j with
  | None => (j, Some ErrNotResident)
  | Some p =>
      if out_of_range artIdx (Len (p_done p)) then (j, Some ErrArticleRange)
      else
        let i := Z.to_nat artIdx in
        match j_manifest j with
        | None => (set_j_progress j (set_p_emitted p (Clear (p_emitted p) i)), None)
        | Some (_, m) => (set_j_progress j (clearEmitted p m i), None)
        end
  end.

Definition MarkArticleWritten (j : JobContent) (row : WrittenRow) : JobContent * option content_err :=
  match j_progress j, j_manifest j with
  | Some p, Some (_, m) =>
      if negb (ArticleInFile m (r_file row) (r_art row)) then (j, Some ErrNotInFile)
      else if negb (HasValidShape row) then (j, Some ErrRowShape)
      else
        let '(p, fresh) := markDone p m (Z.to_nat (r_art row)) in
        let fi := Z.to_nat (r_file row) in
        (set_j_progress j (if fresh then appendRow p fi row else upsertFileRows p fi [row]), None)
  | _, _ => (j, Some ErrNotResident)
  end.

Definition InstallVerified (j : JobContent) (fileIdx : Z) (rows : list WrittenRow) :
    JobContent * result content_err nat :=
  match j_manifest j, j_progress j with
  | Some (_, m), Some p =>
      match placeRows m fileIdx rows with
      | Err e => (j, Err e)
      | Ok (kept, dropped) => (set_j_progress j (installRows p m (Z.to_nat fileIdx) kept), Ok dropped)
      end
  | _, _ => (j, Err ErrNotResident)
  end.

(** The arguments of the callback of [ForEachUnfinishedArticle]. *)
Record call : Type := mkCall {
  k_fileIdx : nat; k_artIdx : nat; k_id : string; k_bytes : Z; k_number : Z; k_subject : string }.

Definition call_of (m : Manifest) (fi i : nat) : call :=
  mkCall fi i (ArticleID m i) (ArticleBytes m i) (ArticleNumber m i) (Subject (m_ft m) fi).

(** The inner loop: the calls made, and whether the callback stopped it. *)
Fixpoint each_article (m : Manifest) (p : JobProgress) (fn : call -> bool) (fi : nat) (arts : list nat) :
    list call * bool :=
  match arts with
  | [] => ([], false)
  | i :: arts =>
      if Get (p_done p) i || Get (p_emitted p) i then each_article m p fn fi arts
      else if negb (fn (call_of m fi i)) then ([call_of m fi i], true)
      else let '(cs, stop) := each_article m p fn fi arts in (call_of m fi i :: cs, stop)
  end.

Fixpoint each_file (m : Manifest) (p : JobProgress) (fn : call -> bool) (files : list nat) : list call :=
  match files with
  | [] => []
  | fi :: files =>
      let f := file_of p fi in
      if f_Complete f || bool_decide (f_Pending f = 0) || bool_decide (f_Fetch f <> FetchAlways)
      then each_file m p fn files
      else
        let '(lo, hi) := FileRange m fi in
        let '(cs, stop) := each_article m p fn fi (seq lo (hi - lo)) in
        if stop then cs else cs ++ each_file m p fn files
  end.

(** The calls [ForEachUnfinishedArticle] makes. *)
Definition ForEachUnfinishedArticle (j : JobContent) (fn : call -> bool) : result content_err (list call) :=
  match j_manifest j, j_progress j with
  | Some (_, m), Some p =>
      if decide (p_pendingArticles p = 0) then Ok []
      else Ok (each_file m p fn (seq 0 (NumFiles (m_ft m))))
  | _, _ => Err ErrNotResident
  end.

Definition CountUnfinishedArticles (j : JobContent) (fileIdx : Z) : result content_err Z :=
  match j_manifest j, j_progress j with
  | Some (_, m), Some p =>
      if out_of_range fileIdx (NumFiles (m_ft m)) then Err ErrFileRange
      else let '(lo, hi) := FileRange m (Z.to_nat fileIdx) in
           Ok (count_in (fun i => negb (Get (p_done p) i)) lo hi)
  | _, _ => Err ErrNotResident
  end.

(** ** Files *)
Definition MarkFileComplete (j : JobContent) (fileIdx : Z) : JobContent * option content_err :=
  on_progress j (Some ErrNotResident) (fun p =>
    if out_of_range fileIdx (length (p_files p)) then (p, Some ErrFileRange)
    else (upd_file p (Z.to_nat fileIdx) (fun f => set_f_Complete f true), None)).

Definition SetFileFetchPolicy (j : JobContent) (fi : Z) (policy : FetchPolicy) : JobContent * option content_err :=
  on_progress j (Some ErrNotResident) (fun p =>
    if out_of_range fi (length (p_files p)) then (p, Some ErrFileRange)
    else (setFileFetchPolicy p (Z.to_nat fi) policy, None)).

(** [fileState]: the [durability.FileState] of a file. *)
Definition fileState (p : JobProgress) (fi : nat) : nat * bool * string * FetchPolicy :=
  let f := file_of p fi in (fi, f_Complete f, f_Filename f, f_Fetch f).

Definition TakeFetchPolicyChanges (j : JobContent) : JobContent * list (nat * bool * string * FetchPolicy) :=
  on_progress j [] (fun p =>
    if decide (p_fetchChanges p = 0) then (p, [])
    else
      let fis := base.filter (fun fi => f_fetchChanged (file_of p fi) = true) (seq 0 (length (p_files p))) in
      (set_p_fetchChanges (set_p_files p ((fun f => set_f_fetchChanged f false) <$> p_files p)) 0,
       fileState p <$> fis)).

Definition RecordFileFilename (j : JobContent) (fileIdx : Z) (name filename : string) :
    JobContent * option content_err :=
  if decide (j_name j <> name) then (j, Some ErrNameChanged)
  else on_progress j (Some ErrNotResident) (fun p =>
    if out_of_range fileIdx (length (p_files p)) then (p, Some ErrFileRange)
    else (upd_file p (Z.to_nat fileIdx) (fun f => set_f_Filename f filename), None)).

(** [isSinglePathComponent]: the name holds neither a slash nor a backslash. *)
Fixpoint contains_separator (s : string) : bool :=
  match s with
  | EmptyString => false
  | String c s => let n := Ascii.nat_of_ascii c in (n =? 47)%nat || (n =? 92)%nat || contains_separator s
  end.
Definition isSinglePathComponent (name : string) : bool :=
  bool_decide (name <> ""%string) && bool_decide (name <> "."%string) && bool_decide (name <> ".."%string) &&
  negb (contains_separator name).

Definition RecordFileRename (j : JobContent) (from to : string) : JobContent * bool :=
  if bool_decide (from = to) || negb (isSinglePathComponent from) || negb (isSinglePathComponent to)
  then (j, false)
  else on_progress j false (fun p =>
    match list_find (fun f => f_Filename f = from) (p_files p) with
    | None => (p, false)
    | Some (fi, f) =>
        let p := upd_file p fi (fun f => set_f_Filename f to) in
        (if f_fetchChanged f then p
         else set_p_fetchChanges (upd_file p fi (fun f => set_f_fetchChanged f true)) (p_fetchChanges p + 1),
         true)
    end).

(** [UntrustFile]; [None] is [recompute]'s panic. *)
Definition UntrustFile (j : JobContent) (fileIdx : Z) : option (JobContent * option content_err) :=
  match j_manifest j, j_progress j with
  | Some (_, m), Some p =>
      if out_of_range fileIdx (NumFiles (m_ft m)) then Some (j, Some ErrFileRange)
      else
        let fi := Z.to_nat fileIdx in
        let p := set_p_written p (delete fi (p_written p)) in
        let '(lo, hi) := FileRange m fi in
        let p := foldl (fun p i => fst (markNotDone p fi i)) p (seq lo (hi - lo)) in
        let p := upd_file p fi (fun f => set_f_AssembledCRC32 (set_f_Complete f false) 0) in
        match recompute p m with
        | None => None
        | Some p => Some (set_j_progress j p, None)
        end
  | _, _ => Some (j, Some ErrNotResident)
  end.

(** ** Settling a file's checksum ([verified.go])

    [SettleFileCRC] reads its inputs under the lock, combines without it, and
    installs under it again; [same] is [sameSlice]'s verdict on the rows. *)
Record settleSnapshot : Type := mkSnap { sn_rows : list WrittenRow; sn_failed : bool; sn_lo : nat; sn_hi : nat }.

Definition settleInputs (j : JobContent) (fileIdx : Z) : result content_err settleSnapshot :=
  match j_manifest j, j_progress j with
  | Some (_, m), Some p =>
      if out_of_range fileIdx (NumFiles (m_ft m)) then Err ErrFileRange
      else
        let fi := Z.to_nat fileIdx in
        let '(lo, hi) := FileRange m fi in
        Ok (mkSnap (default [] (p_written p !! fi)) (anyFailed p lo hi) lo hi)
  | _, _ => Err ErrNotResident
  end.

Definition combineSettled (sn : settleSnapshot) : option Z :=
  fileCRCFromRows (sortedClone (sn_rows sn)) (sn_failed sn) (Z.of_nat (sn_lo sn)) (Z.of_nat (sn_hi sn)).

Definition installSettled (j : JobContent) (fileIdx : Z) (same : bool) (combined : option Z) :
    JobContent * result content_err (option Z) :=
  match j_manifest j, j_progress j with
  | Some (_, m), Some p =>
      let fi := Z.to_nat fileIdx in
      if negb same then
        let '(p, crc) := settleFileCRC p m fi in (set_j_progress j p, Ok crc)
      else (set_j_progress j (storeSettled p fi combined), Ok combined)
  | _, _ => (j, Err ErrNotResident)
  end.

(** [SettleFileCRC] with nothing in between. *)
Definition SettleFileCRC (j : JobContent) (fileIdx : Z) : JobContent * result content_err (option Z) :=
  match settleInputs j fileIdx with
  | Err e => (j, Err e)
  | Ok sn => installSettled j fileIdx true (combineSettled sn)
  end.

Definition FileRows (j : JobContent) (fileIdx : nat) : list WrittenRow :=
  match j_progress j with
  | None => []
  | Some p => sortedClone (default [] (p_written p !! fileIdx))
  end.

(** ** Reload and retry *)

(** [ClearEmittedForReload]: the articles cleared and retained. *)
Definition ClearEmittedForReload (j : JobContent) (skipEmitted : bool) :
    option (JobContent * (list nat * list nat)) :=
  match j_progress j with
  | None => Some (j, ([], []))
  | Some p =>
      let '(p, cr) := foldl (fun acc fi =>
        let '(p, (cleared, retained)) := acc in
        let '(p, (c, r)) := resetForReload p fi (negb skipEmitted) in
        (p, (cleared ++ c, retained ++ r))) (p, ([], [])) (seq 0 (length (p_files p))) in
      match j_manifest j with
      | None => Some (set_j_progress j p, cr)
      | Some (_, m) =>
          match recompute p m with
          | None => None
          | Some p => Some (set_j_progress j p, cr)
          end
      end
  end.

(** One file of [ResetForRetry]. *)
Definition retry_file (m : Manifest) (p : JobProgress) (fi : nat) : JobProgress :=
  let '(lo, hi) := FileRange m fi in
  let arts := seq lo (hi - lo) in
  let reset := base.filter (fun i => Get (p_failed p) i = true) arts in
  let unresolved := existsb (fun i => Get (p_failed p) i || negb (Get (p_done p) i)) arts in
  let p := clearDone p fi reset in
  if unresolved then upd_file p fi (fun f => set_f_AssembledCRC32 (set_f_Complete f false) 0) else p.

Definition ResetForRetry (j : JobContent) : option JobContent :=
  match j_manifest j, j_progress j with
  | Some (_, m), Some p =>
      let p := clearDownloadStamps (set_p_par2ReleaseReason (set_p_earlyAborted p false) "") in
      let p := foldl (retry_file m) p (seq 0 (NumFiles (m_ft m))) in
      match recompute p m with
      | None => None
      | Some p => Some (set_j_progress j p)
      end
  | _, _ => Some j
  end.

(** ** Recovery volumes ([release.go]) *)
Definition repairStateLocked (j : JobContent) : RepairState :=
  match j_progress j with
  | None => RepairUnknown
  | Some p => RepairStateFrom (ContentFailedBytes (Some p)) (j_recoveryBytes j) (HasPar2Files (Some p))
  end.

Definition undeferRecovery (p : JobProgress) (fis : list nat) : JobProgress :=
  foldl (fun p fi =>
    if decide (~ (fi < length (p_files p))%nat \/ f_Fetch (file_of p fi) <> FetchIfNeeded) then p
    else setFileFetchPolicy p fi FetchAlways) p fis.

Definition DiscardDeferredPar2 (j : JobContent) : JobContent * bool :=
  on_progress j false (fun p =>
    foldl (fun acc fi =>
      let '(p, changed) := acc in
      if decide (f_Fetch (file_of p fi) = FetchIfNeeded) then (setFileFetchPolicy p fi FetchNever, true)
      else (p, changed)) (p, false) (seq 0 (length (p_files p)))).

Record RecoverySizing : Type := mkSizing { rs_need : Z; rs_sized : bool }.
Definition NeedBlocks (n : Z) : RecoverySizing := mkSizing (Z.max n 0) true.
Definition Unsized : RecoverySizing := mkSizing 0 false.
Definition MaxPar2Slices : Z := 32768.
Definition maxCoverCells : Z := 2 ^ 25.

(** The held volumes narrowed to the cheapest cover of the need. *)
Definition narrow (t : FileTable) (s : RecoverySizing) (held : list nat) : list nat :=
  if negb (rs_sized s) then held
  else
    let named := omap (fun i => b ← RecoveryVolumeBlocks (Subject t i); Some (i, b)) held in
    let idxs := fst <$> named in
    if decide (rs_need s <= MaxPar2Slices /\ Z.of_nat (length idxs) * (rs_need s + 1) <= maxCoverCells) then
      match cheapestCover (snd <$> named) (Bytes t <$> idxs) (rs_need s) with
      | Some cover => (fun k => nth k idxs 0%nat) <$> cover
      | None => held
      end
    else held.

(** [ReleaseRecovery]; [t] is what [j.fileTable] points to. *)
Definition ReleaseRecovery (t : FileTable) (j : JobContent) (s : RecoverySizing) :
    JobContent * result content_err nat :=
  match j_progress j with
  | None => (j, Err ErrNotResident)
  | Some p =>
      if Hopeless (repairStateLocked j) then (j, Ok 0%nat)
      else
        let on_disk i := f_Complete (file_of p i) && bool_decide (f_FailedBytes (file_of p i) = 0) in
        let deferred := DeferredRecoveryIndices p in
        let onDisk := base.filter (fun i => on_disk i = true) deferred in
        let held := base.filter (fun i => on_disk i = false) deferred in
        let p := undeferRecovery p onDisk in
        let held := narrow t s held in
        (set_j_progress j (undeferRecovery p held), Ok (length held))
  end.

(** ** Completion, early abort and stamps *)
Definition IsComplete (j : JobContent) : bool :=
  match j_progress j with
  | None => false
  | Some p => forallb (fun f => bool_decide (f_Fetch f <> FetchAlways) || f_Complete f) (p_files p)
  end.

Definition CheckEarlyAbort (j : JobContent) : JobContent * bool :=
  match j_progress j with
  | None => (j, false)
  | Some p =>
      if bool_decide (repairStateLocked j = RepairPossible) || bool_decide (repairStateLocked j = RepairIntact)
      then (j, false)
      else let '(p, b) := isEarlyAbort p in (set_j_progress j p, b)
  end.

Definition MarkJobStarted (j : JobContent) (t : Z) : JobContent * option content_err :=
  on_progress j (Some ErrNotResident) (fun p => (fst (setDownloadStartedOnce p t), None)).
Definition MarkDownloadFinished (j : JobContent) (t : Z) : JobContent * option content_err :=
  on_progress j (Some ErrNotResident) (fun p => (fst (setDownloadFinishedOnce p t), None)).
Definition ClearDownloadFinished (j : JobContent) : JobContent * option content_err :=
  on_progress j (Some ErrNotResident) (fun p => (clearDownloadFinished p, None)).
Definition RecordDownload (j : JobContent) (server : string) (bytes : Z) : JobContent * option content_err :=
  on_progress j (Some ErrNotResident) (fun p =>
    (set_p_serverStats p (<[server := wraps 64 (default 0 (p_serverStats p !! server) + bytes)]> (p_serverStats p)),
     None)).

Definition SetPar2ReleaseReason (j : JobContent) (reason : string) : JobContent :=
  match j_progress j with
  | Some p => set_j_progress j (set_p_par2ReleaseReason p reason)
  | None => set_j_restored j reason (j_restoredDLStarted j) (j_restoredDLFinished j)
  end.

Definition RestoreProgressState (j : JobContent) (reason : string) (started finished : Z) : JobContent :=
  match j_progress j with
  | Some p => set_j_progress j (set_p_par2ReleaseReason (restoreDownloadStamps p started finished) reason)
  | None => set_j_restored j reason (jobStampOrZero started) (jobStampOrZero finished)
  end.

Definition DownloadStarted (j : JobContent) : Z :=
  match j_progress j with None => j_restoredDLStarted j | Some p => p_downloadStarted p end.
Definition DownloadFinished (j : JobContent) : Z :=
  match j_progress j with None => j_restoredDLFinished j | Some p => p_downloadFinished p end.
Definition Par2ReleaseReason (j : JobContent) : string :=
  match j_progress j with None => j_restoredPar2Reason j | Some p => p_par2ReleaseReason p end.
Definition DownloadBegun (j : JobContent) : bool :=
  match j_progress j with
  | None => negb (j_restoredDLStarted j =? 0)
  | Some p => existsb (fun f => bool_decide (f_Filename f <> ""%string)) (p_files p)
  end.
