(* ===== verification/ContentSafe.v ===== *)
(** * The content tier as a step relation, and its invariant

    Every state a job's content tier can reach through its methods, in any
    order and at any residency: while the job is resident every cached
    counter is exactly what the bits say, while it is evicted the bits still
    fit the table, so the next attach cannot panic. *)
From S2P Require Import Prelude Bitset FileTable Rows Progress ProgressOps Figures Cover Content.
From stdpp Require Import base gmap list strings.
From Stdlib Require Import ZArith Lia.
Local Open Scope Z_scope.

Section Steps.
Context (mem : nat -> FileTable).

(** A manifest and the address of the table it was built from. *)
Definition good_ref (r : nat * Manifest) : Prop := wf_manifest (snd r) /\ m_ft (snd r) = mem (fst r).

(** One method call. *)
Inductive cstep : JobContent -> JobContent -> Prop :=
| cs_AttachFiles j ft seed : cstep j (fst (AttachFiles mem j ft seed))
| cs_AttachArticles j r vs j' e : good_ref r -> AttachArticles j (Some r) vs = Some (j', e) -> cstep j j'
| cs_AttachContent j r j' e : good_ref r -> AttachContent mem j (Some r) = Some (j', e) -> cstep j j'
| cs_Evict j : cstep j (Evict j)
| cs_InstallFileVerification j v : cstep j (fst (InstallFileVerification j v))
| cs_MarkArticleFailed j i c : cstep j (fst (MarkArticleFailed j i c))
| cs_MarkArticleEmitted j i : cstep j (fst (MarkArticleEmitted j i))
| cs_ClearArticleEmitted j i : cstep j (fst (ClearArticleEmitted j i))
| cs_MarkArticleWritten j row : cstep j (fst (MarkArticleWritten j row))
| cs_InstallVerified j fi rows : cstep j (fst (InstallVerified j fi rows))
| cs_MarkFileComplete j fi : cstep j (fst (MarkFileComplete j fi))
| cs_SetFileFetchPolicy j fi pol : cstep j (fst (SetFileFetchPolicy j fi pol))
| cs_TakeFetchPolicyChanges j : cstep j (fst (TakeFetchPolicyChanges j))
| cs_RecordFileFilename j fi n f : cstep j (fst (RecordFileFilename j fi n f))
| cs_RecordFileRename j from to : cstep j (fst (RecordFileRename j from to))
| cs_UntrustFile j fi j' e : UntrustFile j fi = Some (j', e) -> cstep j j'
| cs_installSettled j fi same crc : cstep j (fst (installSettled j fi same crc))
| cs_ClearEmittedForReload j skip j' r : ClearEmittedForReload j skip = Some (j', r) -> cstep j j'
| cs_ResetForRetry j j' : ResetForRetry j = Some j' -> cstep j j'
| cs_DiscardDeferredPar2 j : cstep j (fst (DiscardDeferredPar2 j))
| cs_ReleaseRecovery j t s : cstep j (fst (ReleaseRecovery t j s))
| cs_CheckEarlyAbort j : cstep j (fst (CheckEarlyAbort j))
| cs_MarkJobStarted j t : cstep j (fst (MarkJobStarted j t))
| cs_MarkDownloadFinished j t : cstep j (fst (MarkDownloadFinished j t))
| cs_ClearDownloadFinished j : cstep j (fst (ClearDownloadFinished j))
| cs_RecordDownload j s b : cstep j (fst (RecordDownload j s b))
| cs_SetPar2ReleaseReason j r : cstep j (SetPar2ReleaseReason j r)
| cs_RestoreProgressState j r s f : cstep j (RestoreProgressState j r s f).

Inductive creachable (name : string) : JobContent -> Prop :=
| cr_new : creachable name (newContent name)
| cr_step j j' : creachable name j -> cstep j j' -> creachable name j'.

(** The progress against the table at [a], and against the manifest if the
    job is resident. *)
Definition progress_ok (a : nat) (m : option Manifest) (p : JobProgress) : Prop :=
  match m with
  | Some m => m_ft m = mem a /\ consistent m p
  | None => exists m, m_ft m = mem a /\ shape m p
  end.

Definition content_ok (j : JobContent) : Prop :=
  match j_fileTable j, j_progress j with
  | None, None => j_manifest j = None
  | Some a, Some p =>
      match j_manifest j with Some (b, _) => b = a | None => True end /\
      progress_ok a (snd <$> j_manifest j) p
  | _, _ => False
  end.

(** ** The progress operations keep [progress_ok] *)
Context (a : nat).

Lemma progress_ok_shape m p : progress_ok a m p -> exists m', m_ft m' = mem a /\ shape m' p.
Proof. destruct m as [m|]; simpl; [|done]. intros (E & S & _). by exists m. Qed.

Lemma progress_ok_core m p p' : same_core p p' -> progress_ok a m p -> progress_ok a m p'.
Proof.
  intros C. destruct m as [m|]; simpl.
  - intros [E H]. split; [done|]. by eapply same_core_consistent.
  - intros (m & E & S). exists m. split; [done|]. by eapply same_core_shape.
Qed.

(** A function of the progress that leaves the counted fields. *)
Lemma progress_ok_file m p fi g :
  (forall f, f_Fetch (g f) = f_Fetch f /\ f_Pending (g f) = f_Pending f /\ f_Bytes (g f) = f_Bytes f /\
    f_BytesDownloaded (g f) = f_BytesDownloaded f /\ f_FailedBytes (g f) = f_FailedBytes f) ->
  progress_ok a m p -> progress_ok a m (upd_file p fi g).
Proof. intros H. apply progress_ok_core. by apply upd_file_core. Qed.

Lemma progress_ok_fetch m p fi pol :
  (fi < length (p_files p))%nat -> progress_ok a m p -> progress_ok a m (setFileFetchPolicy p fi pol).
Proof.
  destruct m as [m|]; simpl.
  - intros Hfi [E H]. split; [done|]. apply set_fetch_consistent; [done|].
    by rewrite <- (sh_files _ _ (proj1 H)).
  - intros Hfi (m & E & S). exists m. split; [done|]. by apply set_fetch_shape.
Qed.

Lemma files_set_fetch p fi pol : length (p_files (setFileFetchPolicy p fi pol)) = length (p_files p).
Proof.
  unfold setFileFetchPolicy, setPending. case_decide; [done|]. case_match; simpl; by rewrite !length_alter.
Qed.

Lemma progress_ok_undefer m p fis : progress_ok a m p -> progress_ok a m (undeferRecovery p fis).
Proof.
  revert p. unfold undeferRecovery. induction fis as [|fi fis IH]; intros p H; [done|]. simpl. apply IH.
  case_decide as Hd; [done|]. apply progress_ok_fetch; [|done].
  destruct (decide (fi < length (p_files p))%nat); [done|]. exfalso. auto.
Qed.

(** [recompute] repairs whatever kept the shape. *)
Lemma progress_ok_recompute m p : m_ft m = mem a -> shape m p ->
  exists p', recompute p m = Some p' /\ progress_ok a (Some m) p'.
Proof. intros E S. destruct (recompute_spec m p S) as (p' & H & C & _). exists p'. by split. Qed.

Lemma progress_ok_failed m p i c : progress_ok a m p ->
  progress_ok a m (fst (markArticleFailed m p i c)).
Proof.
  intros H. unfold markArticleFailed, out_of_range. case_bool_decide as Hr; [done|].
  destruct m as [m|]; simpl in *.
  - destruct H as [E H]. split; [done|]. apply markFailedUncovered_consistent; [done|].
    rewrite <- (proj2 (sh_done _ _ (proj1 H))). lia.
  - destruct H as (m & E & S). exists m. split; [done|].
    pose proof (setFailedBits_shape m p (Z.to_nat i) S ltac:(rewrite <- (proj2 (sh_done _ _ S)); lia)) as H.
    destruct (setFailedBits p (Z.to_nat i)) as [q []]; simpl in *; [by apply limitCharge_shape|done].
Qed.

Lemma placeRows_in m fi rows kept d : placeRows m fi rows = Ok (kept, d) -> wf_manifest m ->
  (Z.to_nat fi < NumFiles (m_ft m))%nat /\ 0 <= fi /\
  Forall (fun r => r_file r = fi /\ (Z.to_nat (r_art r) < NumArticles m)%nat /\
    in_file (m_ft m) (Z.to_nat fi) (Z.to_nat (r_art r))) kept.
Proof.
  intros H (Wt & Hn & _). unfold placeRows, out_of_range in H. case_bool_decide as Hr; [done|]. injection H as <- _.
  split; [lia|]. split; [lia|]. apply Forall_forall. intros r Hr'. apply list_elem_of_filter in Hr' as [Hk _].
  rewrite !andb_true_iff in Hk. destruct Hk as [[Hf Ha] _]. apply bool_decide_eq_true in Hf. subst fi.
  unfold ArticleInFile in Ha. case_decide; [done|]. unfold FileRange, FileTable.Range in Ha.
  apply andb_true_iff in Ha as [H1 H2]. apply bool_decide_eq_true in H1, H2.
  assert (in_file (m_ft m) (Z.to_nat (r_file r)) (Z.to_nat (r_art r))) as Hin by (split; lia).
  split; [done|]. split; [|done]. unfold NumArticles. rewrite Hn. by eapply in_file_total.
Qed.

Lemma progress_ok_install m p v : progress_ok a (Some m) p ->
  progress_ok a (Some m) (fst (install_verification m p v)).
Proof.
  intros H. pose proof H as [E [S _]]. unfold install_verification.
  destruct (placeRows m (v_FileIdx v) (v_Rows v)) as [[kept d]|] eqn:Ep; [|done].
  destruct (placeRows_in _ _ _ _ _ Ep (sh_m _ _ S)) as (Hfi & Hfi0 & Hk).
  set (fi := Z.to_nat (v_FileIdx v)) in *. simpl fst.
  apply progress_ok_file; [by intros []|].
  set (p1 := if decide (v_Filename v <> ""%string) then _ else p).
  assert (H1 : progress_ok a (Some m) p1) by (unfold p1; case_decide; [apply progress_ok_file; [by intros []|done]|done]).
  clearbody p1. set (p2 := if v_RestorePolicy v then _ else p1).
  assert (H2 : progress_ok a (Some m) p2).
  { unfold p2. destruct (v_RestorePolicy v); [|done]. apply progress_ok_fetch; [|done].
    destruct H1 as [_ [S1 _]]. by rewrite (sh_files _ _ S1). }
  clearbody p2. set (p3 := installRows p2 m fi kept).
  assert (H3 : progress_ok a (Some m) p3).
  { split; [done|]. apply installRows_consistent; [apply H2|]. eapply Forall_impl; [exact Hk|]. by intros r (_ & ? & _). }
  clearbody p3. set (p4 := if v_Complete v then _ else p3).
  assert (H4 : progress_ok a (Some m) p4).
  { unfold p4. destruct (v_Complete v); [|done]. destruct (FileRange m fi) as [lo hi] eqn:Er.
    apply progress_ok_file; [by intros []|]. split; [done|]. apply failAll_consistent; [apply H3|].
    apply Forall_forall. intros i Hi%elem_of_seq. destruct (sh_m _ _ S) as (Wt & Hn & _).
    unfold NumArticles. rewrite Hn. apply (in_file_total _ Wt fi). unfold FileRange, FileTable.Range in Er.
    simplify_eq. split; [done|lia]. }
  clearbody p4. set (p5 := foldl _ p4 (v_Failed v)).
  assert (H5 : progress_ok a (Some m) p5).
  { unfold p5. revert p4 p5 H4. induction (v_Failed v) as [|i l IH]; intros p4 p5 H4; [done|].
    simpl. apply IH. by apply progress_ok_failed. }
  clearbody p5. destruct (v_Complete v || v_Settle v); [|done].
  eapply progress_ok_core; [apply settleFileCRC_core|done].
Qed.

Lemma retry_file_shape m p fi : shape m p -> shape m (retry_file m p fi).
Proof.
  intros S. unfold retry_file. destruct (FileRange m fi) as [lo hi].
  pose proof (clearDone_spec m p fi (base.filter (fun i => Get (p_failed p) i = true) (seq lo (hi - lo))) S) as [S' _].
  destruct (existsb _ _); [by apply upd_file_shape|done].
Qed.

Lemma untrust_shape m p fi arts : shape m p -> shape m (foldl (fun p i => fst (markNotDone p fi i)) p arts).
Proof.
  revert p. induction arts as [|i arts IH]; intros p S; [done|]. simpl. apply IH. unfold markNotDone.
  destruct (_ || _); [done|]. simpl. by apply (clearDone_spec m p fi [i] S).
Qed.

Lemma progress_ok_discard m p fis : progress_ok a m p ->
  Forall (fun fi => (fi < length (p_files p))%nat) fis -> forall b,
  progress_ok a m (fst (foldl (fun acc fi =>
      let '(p, changed) := acc in
      if decide (f_Fetch (file_of p fi) = FetchIfNeeded) then (setFileFetchPolicy p fi FetchNever, true)
      else (p, changed)) (p, b) fis)).
Proof.
  intros H Hf. revert p H Hf. induction fis as [|fi fis IH]; intros p H Hf b; [done|].
  inversion Hf; subst. simpl. case_decide; (apply IH; [|]); try done.
  - by apply progress_ok_fetch.
  - by rewrite files_set_fetch.
Qed.
End Steps.

(** ** Every method keeps [content_ok] *)
Section Preserved.
Context (mem : nat -> FileTable) (Hmem : forall a, wf_table (mem a)).
Notation cok := (content_ok mem).
Notation pok := (progress_ok mem).

(** What [content_ok] gives when there is a progress. *)
Lemma content_ok_progress j p : cok j -> j_progress j = Some p ->
  exists a, j_fileTable j = Some a /\
    match j_manifest j with Some (b, _) => b = a | None => True end /\
    pok a (snd <$> j_manifest j) p.
Proof. unfold content_ok. intros H Hp. rewrite Hp in H. destruct (j_fileTable j); [eauto|done]. Qed.

Lemma content_ok_resident j a m : cok j -> j_manifest j = Some (a, m) ->
  exists p, j_progress j = Some p /\ j_fileTable j = Some a /\ m_ft m = mem a /\ consistent m p.
Proof.
  unfold content_ok. intros H Hm. rewrite Hm in H.
  destruct (j_fileTable j), (j_progress j); try done. destruct H as [-> [E C]]. by exists j0.
Qed.

Lemma content_ok_set j p p' : cok j -> j_progress j = Some p ->
  (forall a, pok a (snd <$> j_manifest j) p -> pok a (snd <$> j_manifest j) p') ->
  cok (set_j_progress j p').
Proof.
  unfold content_ok. intros H Hp Hk. rewrite Hp in H. simpl.
  destruct (j_fileTable j) as [a|]; [|done]. destruct H as [H1 H2]. split; [done|]. by apply Hk.
Qed.

Lemma content_ok_put j a p p' : cok j -> j_progress j = Some p -> j_fileTable j = Some a ->
  pok a (snd <$> j_manifest j) p' -> cok (set_j_progress j p').
Proof.
  unfold content_ok. intros H Hp Ha Hk. rewrite Hp, Ha in H. simpl. rewrite Ha. by destruct H.
Qed.

Lemma on_progress_ok {A} j (none : A) f : cok j ->
  (forall a p, pok a (snd <$> j_manifest j) p -> pok a (snd <$> j_manifest j) (fst (f p))) ->
  cok (fst (on_progress j none f)).
Proof.
  intros H Hf. unfold on_progress. destruct (j_progress j) as [p|] eqn:Ep; [|done].
  destruct (f p) as [p' x] eqn:E. simpl. apply (content_ok_set j p); [done..|]. intros a Ha.
  pose proof (Hf a p Ha) as Hq. by rewrite E in Hq.
Qed.

Lemma AttachFiles_ok j ft seed : cok j -> cok (fst (AttachFiles mem j ft seed)).
Proof.
  intros H. unfold AttachFiles. destruct ft as [a|]; [|done]. destruct (match seed with Some _ => _ | None => _ end); [done|].
  destruct (j_progress j) as [p|] eqn:Ep; [done|]. destruct (j_fileTable j) as [b|] eqn:Eb; [done|].
  unfold content_ok in H. rewrite Ep, Eb in H. unfold content_ok; simpl. rewrite H. simpl.
  split; [done|]. destruct (table_manifest (mem a) (Hmem a)) as (m & Em & Wm). exists m. split; [done|].
  rewrite <- Em. pose proof (newJobProgress_shape m seed Wm) as S. destruct S. by split.
Qed.

Lemma install_ok j v : cok j -> cok (fst (installFileVerificationLocked j v)).
Proof.
  intros H. unfold installFileVerificationLocked. destruct (j_manifest j) as [[b m]|] eqn:Em; [|done].
  destruct (j_progress j) as [p|] eqn:Ep; [|done].
  pose proof (fun a => progress_ok_install mem a m p v) as Hi.
  destruct (install_verification m p v) as [p' r]. apply (content_ok_set j p); [done..|]. rewrite Em. exact Hi.
Qed.

Lemma install_manifest j v : j_manifest (fst (installFileVerificationLocked j v)) = j_manifest j.
Proof.
  unfold installFileVerificationLocked. destruct (j_manifest j) as [[b m]|] eqn:E, (j_progress j); try done.
  destruct (install_verification _ _ _). simpl. by rewrite E.
Qed.

Lemma install_all_ok j vs : cok j -> cok (fst (install_all j vs)).
Proof.
  revert j. induction vs as [|v vs IH]; intros j H; [done|]. simpl. pose proof (install_ok j v H) as H1.
  destruct (installFileVerificationLocked j v) as [j1 r]. specialize (IH j1 H1).
  destruct (install_all j1 vs) as [j2 rs]. done.
Qed.

(** [AttachArticles] never panics, and keeps the invariant. *)
Lemma AttachArticles_ok j r vs : good_ref mem r -> cok j ->
  exists j' e, AttachArticles j (Some r) vs = Some (j', e) /\ cok j'.
Proof.
  intros [Wm Em] H. destruct r as [a m]. simpl in Wm, Em. unfold AttachArticles.
  destruct (j_fileTable j) as [b|] eqn:Eb; [|by eauto].
  case_decide as Hab; [by eauto|]. assert (a = b) as <- by (destruct (decide (a = b)); tauto).
  destruct (j_manifest j) as [r|] eqn:Er; [by eauto|].
  unfold content_ok in H. rewrite Eb, Er in H. destruct (j_progress j) as [p|] eqn:Ep; [|done].
  destruct H as [_ (m' & E' & S)]. pose proof (shape_transfer m' m p ltac:(congruence) Wm S) as Sm.
  destruct (recompute_spec m p Sm) as (p' & -> & C & _).
  pose proof (install_all_ok (set_j_manifest (set_j_progress j p') (Some (a, m))) vs) as Hi.
  destruct (install_all _ vs) as [j' rs]. eexists j', _. split; [done|]. apply Hi.
  unfold content_ok; simpl. rewrite Eb. done.
Qed.

Lemma AttachContent_ok j r : good_ref mem r -> cok j ->
  exists j' e, AttachContent mem j (Some r) = Some (j', e) /\ cok j'.
Proof.
  intros Hr H. destruct r as [a m]. cbn [AttachContent].
  pose proof (AttachFiles_ok j (Some a) None H) as H1. destruct (AttachFiles mem j (Some a) None) as [j1 [e|]]; [by eauto|].
  destruct (AttachArticles_ok j1 (a, m) [] Hr H1) as (j2 & [rs|e] & -> & H2); eauto.
Qed.

Lemma UntrustFile_ok j fi : cok j -> exists j' e, UntrustFile j fi = Some (j', e) /\ cok j'.
Proof.
  intros H. unfold UntrustFile. destruct (j_manifest j) as [[b m]|] eqn:Em; [|by eauto].
  destruct (content_ok_resident j b m H Em) as (p & Ep & Eft & E & [S _]). rewrite Ep.
  destruct (out_of_range _ _); [by eauto|]. destruct (FileRange m (Z.to_nat fi)) as [lo hi].
  match goal with |- context [recompute ?q m] => assert (shape m q) as Sq end.
  { apply upd_file_shape, untrust_shape. destruct S. by split. }
  destruct (progress_ok_recompute mem b m _ E Sq) as (p' & -> & Hp'). eexists _, _. split; [done|].
  apply (content_ok_set j p); [done..|]. rewrite Em. intros a [Ea _]. split; [done|]. apply Hp'.
Qed.

Lemma ResetForRetry_ok j : cok j -> exists j', ResetForRetry j = Some j' /\ cok j'.
Proof.
  intros H. unfold ResetForRetry. destruct (j_manifest j) as [[b m]|] eqn:Em; [|by eauto].
  destruct (content_ok_resident j b m H Em) as (p & Ep & Eft & E & [S _]). rewrite Ep.
  match goal with |- context [recompute ?q m] => assert (shape m q) as Sq end.
  { assert (shape m (clearDownloadStamps (set_p_par2ReleaseReason (set_p_earlyAborted p false) ""))) as S0
      by (destruct S; by split).
    revert S0. generalize (clearDownloadStamps (set_p_par2ReleaseReason (set_p_earlyAborted p false) "")) as q.
    induction (seq 0 (NumFiles (m_ft m))) as [|fi l IH]; intros q S0; [done|]. simpl. apply IH. by apply retry_file_shape. }
  destruct (progress_ok_recompute mem b m _ E Sq) as (p' & -> & Hp'). eexists. split; [done|].
  apply (content_ok_set j p); [done..|]. rewrite Em. intros a [Ea _]. split; [done|]. apply Hp'.
Qed.

Lemma ClearEmittedForReload_ok j skip : cok j ->
  exists j' r, ClearEmittedForReload j skip = Some (j', r) /\ cok j'.
Proof.
  intros H. unfold ClearEmittedForReload. destruct (j_progress j) as [p|] eqn:Ep; [|by eauto].
  destruct (content_ok_progress j p H Ep) as (a & Ea & Hb & Hok).
  destruct (progress_ok_shape _ _ _ _ Hok) as (m' & E' & S).
  set (step := fun acc fi => _).
  assert (Hfold : forall l q cr, shape m' q -> shape m' (fst (foldl step (q, cr) l))).
  { induction l as [|fi l IH]; intros q [c r] Sq; [done|]. simpl.
    pose proof (resetForReload_spec m' q fi (negb skip) Sq) as R.
    destruct (resetForReload q fi (negb skip)) as [q' [c' r']]. apply IH, R. }
  pose proof (Hfold (seq 0 (length (p_files p))) p ([], []) S) as Sq.
  destruct (foldl step (p, ([], [])) _) as [q cr]. simpl in Sq.
  destruct (j_manifest j) as [[b m]|] eqn:Em.
  - subst b. destruct Hok as [Et Cm]. simpl in Et, Cm.
    assert (shape m q) as Sm by (apply (shape_transfer m'); [congruence|apply (proj1 Cm)|done]).
    destruct (progress_ok_recompute mem a m q Et Sm) as (p' & -> & Hp'). eexists _, _. split; [done|].
    apply (content_ok_put j a p); [done..|]. by rewrite Em.
  - eexists _, _. split; [done|]. apply (content_ok_put j a p); [done..|]. rewrite Em. by exists m'.
Qed.

(** Updates of fields the counters do not read. *)
Ltac same_core_step p := apply (progress_ok_core _ _ _ p); [by split|done].

Lemma settle_ok j fi same crc : cok j -> cok (fst (installSettled j fi same crc)).
Proof.
  intros H. unfold installSettled. destruct (j_manifest j) as [[b m]|] eqn:Em; [|done].
  destruct (j_progress j) as [p|] eqn:Ep; [|done]. destruct (negb same).
  - pose proof (settleFileCRC_core p m (Z.to_nat fi)) as C. destruct (settleFileCRC p m (Z.to_nat fi)) as [q r].
    apply (content_ok_set j p); [done..|]. intros a. by apply progress_ok_core.
  - apply (content_ok_set j p); [done..|]. intros a. apply progress_ok_core. apply storeSettled_core.
Qed.

Lemma MarkArticleEmitted_ok j i : cok j -> cok (fst (MarkArticleEmitted j i)).
Proof.
  intros H. unfold MarkArticleEmitted. destruct (j_progress j) as [p|] eqn:Ep; [|done].
  destruct (j_manifest j) as [[b m]|] eqn:Em; [|done]. unfold out_of_range. case_bool_decide; [done|].
  apply (content_ok_set j p); [done..|]. rewrite Em. intros a [E C]. split; [done|].
  apply markEmitted_consistent; [done|lia].
Qed.

Lemma ClearArticleEmitted_ok j i : cok j -> cok (fst (ClearArticleEmitted j i)).
Proof.
  intros H. unfold ClearArticleEmitted. destruct (j_progress j) as [p|] eqn:Ep; [|done].
  unfold out_of_range. case_bool_decide; [done|]. destruct (j_manifest j) as [[b m]|] eqn:Em.
  - apply (content_ok_set j p); [done..|]. rewrite Em. intros a [E C]. split; [done|].
    apply clearEmitted_consistent; [done|]. simpl in *. rewrite <- (proj2 (sh_done _ _ (proj1 C))). lia.
  - apply (content_ok_set j p); [done..|]. rewrite Em. intros a (m & E & S). exists m. split; [done|].
    by apply Clear_emitted_shape.
Qed.

Lemma article_in_range m fi i : wf_manifest m -> ArticleInFile m fi i = true ->
  in_file (m_ft m) (Z.to_nat fi) (Z.to_nat i) /\ (Z.to_nat i < NumArticles m)%nat.
Proof.
  intros (Wt & Hn & _) H. unfold ArticleInFile in H. case_decide; [done|].
  unfold FileRange, FileTable.Range in H. apply andb_true_iff in H as [H1 H2].
  apply bool_decide_eq_true in H1, H2.
  assert (in_file (m_ft m) (Z.to_nat fi) (Z.to_nat i)) as Hin by (split; lia).
  split; [done|]. unfold NumArticles. rewrite Hn. by eapply in_file_total.
Qed.

Lemma MarkArticleWritten_ok j row : cok j -> cok (fst (MarkArticleWritten j row)).
Proof.
  intros H. unfold MarkArticleWritten. destruct (j_progress j) as [p|] eqn:Ep; [|done].
  destruct (j_manifest j) as [[b m]|] eqn:Em; [|done].
  destruct (ArticleInFile m (r_file row) (r_art row)) eqn:Ea; [|done]. destruct (HasValidShape row); [|done]. simpl.
  destruct (content_ok_resident j b m H Em) as (p0 & Ep' & _ & _ & [S _]).
  destruct (article_in_range m _ _ (sh_m _ _ S) Ea) as [_ Hr].
  pose proof (fun C => markDone_consistent m p (Z.to_nat (r_art row)) C Hr) as Hd.
  destruct (markDone p m (Z.to_nat (r_art row))) as [q fresh]. simpl in *.
  apply (content_ok_set j p); [done..|]. rewrite Em. intros a [E C]. split; [done|]. simpl in *. specialize (Hd C).
  destruct fresh; (eapply same_core_consistent; [|exact Hd]); [apply appendRow_core|apply upsertFileRows_core].
Qed.

Lemma InstallVerified_ok j fi rows : cok j -> cok (fst (InstallVerified j fi rows)).
Proof.
  intros H. unfold InstallVerified. destruct (j_manifest j) as [[b m]|] eqn:Em; [|done].
  destruct (j_progress j) as [p|] eqn:Ep; [|done]. destruct (placeRows m fi rows) as [[kept d]|] eqn:Er; [|done].
  apply (content_ok_set j p); [done..|]. rewrite Em. intros a [E C]. split; [done|]. simpl in *.
  destruct (placeRows_in _ _ _ _ _ Er (sh_m _ _ (proj1 C))) as (_ & _ & Hk).
  apply installRows_consistent; [done|]. eapply Forall_impl; [exact Hk|]. by intros r (_ & ? & _).
Qed.

Lemma ReleaseRecovery_ok t j s : cok j -> cok (fst (ReleaseRecovery t j s)).
Proof.
  intros H. unfold ReleaseRecovery. destruct (j_progress j) as [p|] eqn:Ep; [|done].
  destruct (Hopeless _); [done|]. apply (content_ok_set j p); [done..|]. intros a Ha.
  by apply progress_ok_undefer, progress_ok_undefer.
Qed.

Lemma CheckEarlyAbort_ok j : cok j -> cok (fst (CheckEarlyAbort j)).
Proof.
  intros H. unfold CheckEarlyAbort. destruct (j_progress j) as [p|] eqn:Ep; [|done].
  destruct (_ || _); [done|].
  assert (same_core p (fst (isEarlyAbort p))) as C by (unfold isEarlyAbort; repeat case_match; by split).
  destruct (isEarlyAbort p) as [q b]. apply (content_ok_set j p); [done..|]. intros a.
  by apply progress_ok_core.
Qed.

Lemma rename_core p from to :
  same_core p (fst (match list_find (fun f => f_Filename f = from) (p_files p) with
    | None => (p, false)
    | Some (fi, f) =>
        let p := upd_file p fi (fun f => set_f_Filename f to) in
        (if f_fetchChanged f then p
         else set_p_fetchChanges (upd_file p fi (fun f => set_f_fetchChanged f true)) (p_fetchChanges p + 1),
         true)
    end)).
Proof.
  destruct (list_find _ _) as [[fi f]|]; [|apply same_core_refl]. cbn [fst].
  assert (same_core p (upd_file p fi (fun f => set_f_Filename f to))) as C1 by (apply upd_file_core; by intros []).
  destruct (f_fetchChanged f); [done|]. eapply same_core_trans; [exact C1|].
  eapply same_core_trans; [apply (upd_file_core _ fi (fun f => set_f_fetchChanged f true)); by intros []|by split].
Qed.

Lemma take_core p :
  same_core p (set_p_fetchChanges (set_p_files p ((fun f => set_f_fetchChanged f false) <$> p_files p)) 0).
Proof.
  split; try done; simpl; [by rewrite length_fmap|]. intros fi. unfold file_of; simpl. rewrite list_lookup_fmap.
  by destruct (p_files p !! fi).
Qed.

Lemma cstep_ok j j' : cstep mem j j' -> cok j -> cok j'.
Proof.
  intros St H. destruct St.
  - by apply AttachFiles_ok.
  - destruct (AttachArticles_ok j r vs) as (j2 & e2 & E & ?); [done..|]. by simplify_eq.
  - destruct (AttachContent_ok j r) as (j2 & e2 & E & ?); [done..|]. by simplify_eq.
  - unfold content_ok, Evict in *; simpl. destruct (j_fileTable j), (j_progress j); try done.
    destruct H as [_ H]. split; [done|]. by eapply progress_ok_shape.
  - by apply install_ok.
  - unfold MarkArticleFailed. case_decide; [done|]. apply on_progress_ok; [done|]. intros a p. apply progress_ok_failed.
  - by apply MarkArticleEmitted_ok.
  - by apply ClearArticleEmitted_ok.
  - by apply MarkArticleWritten_ok.
  - by apply InstallVerified_ok.
  - apply on_progress_ok; [done|]. intros a p Hp. destruct (out_of_range _ _); [done|].
    apply progress_ok_file; [by intros []|done].
  - apply on_progress_ok; [done|]. intros a p Hp. unfold out_of_range. case_bool_decide; [done|].
    apply progress_ok_fetch; [lia|done].
  - apply on_progress_ok; [done|]. intros a p Hp. case_decide; [done|]. eapply progress_ok_core; [apply take_core|done].
  - unfold RecordFileFilename. case_decide; [done|]. apply on_progress_ok; [done|]. intros a p Hp.
    destruct (out_of_range _ _); [done|]. apply progress_ok_file; [by intros []|done].
  - unfold RecordFileRename. destruct (_ || _); [done|]. apply on_progress_ok; [done|]. intros a p Hp.
    eapply progress_ok_core; [apply rename_core|done].
  - destruct (UntrustFile_ok j fi) as (j2 & e2 & E & ?); [done..|]. by simplify_eq.
  - by apply settle_ok.
  - destruct (ClearEmittedForReload_ok j skip) as (j2 & e2 & E & ?); [done..|]. by simplify_eq.
  - destruct (ResetForRetry_ok j) as (j2 & E & ?); [done..|]. by simplify_eq.
  - apply on_progress_ok; [done|]. intros a p Hp. apply progress_ok_discard; [done|].
    apply Forall_forall. intros fi Hfi%elem_of_seq. lia.
  - by apply ReleaseRecovery_ok.
  - by apply CheckEarlyAbort_ok.
  - apply on_progress_ok; [done|]. intros a p Hp. simpl. unfold setDownloadStartedOnce. case_match; [done|same_core_step p].
  - apply on_progress_ok; [done|]. intros a p Hp. simpl. unfold setDownloadFinishedOnce. case_match; [done|same_core_step p].
  - apply on_progress_ok; [done|]. intros a p Hp. same_core_step p.
  - apply on_progress_ok; [done|]. intros a p Hp. same_core_step p.
  - unfold SetPar2ReleaseReason. destruct (j_progress j) as [p|] eqn:Ep; [|done].
    apply (content_ok_set j p); [done..|]. intros a. apply progress_ok_core. by split.
  - unfold RestoreProgressState. destruct (j_progress j) as [p|] eqn:Ep; [|done].
    apply (content_ok_set j p); [done..|]. intros a. apply progress_ok_core. by split.
Qed.

Lemma creachable_ok name j : creachable mem name j -> cok j.
Proof. induction 1; [done|]. by eapply cstep_ok. Qed.
End Preserved.
