(* ===== verification/ContentProps.v ===== *)
(** * What the content tier promises its callers

    Over every reachable state: the cached counters are exact, no method
    panics, the downloader is handed exactly the unfinished articles, eviction
    is invisible, a retry loses no article, and the release of recovery
    volumes is minimal. *)
From S2P Require Import Prelude Bitset FileTable Rows Progress ProgressOps Figures Cover Content ContentSafe.
From stdpp Require Import base gmap list strings.
From Stdlib Require Import ZArith Lia.
Local Open Scope Z_scope.

(** ** The calls of [ForEachUnfinishedArticle] *)

(** The calls made when the callback stops at its first refusal. *)
Fixpoint upto (fn : call -> bool) (l : list call) : list call :=
  match l with
  | [] => []
  | c :: l => c :: if fn c then upto fn l else []
  end.

(** The article is neither done nor handed out, and its file is fetched and
    not complete. *)
Definition wanted (m : Manifest) (p : JobProgress) (i : nat) : bool :=
  let f := file_of p (fileIndexForArticle m i) in
  unstarted p i && negb (f_Complete f) && bool_decide (f_Fetch f = FetchAlways).

Definition wanted_calls (m : Manifest) (p : JobProgress) (arts : list nat) : list call :=
  (fun i => call_of m (fileIndexForArticle m i) i) <$> base.filter (fun i => wanted m p i = true) arts.

Lemma upto_app fn l1 l2 : upto fn (l1 ++ l2) = if forallb fn l1 then upto fn l1 ++ upto fn l2 else upto fn l1.
Proof.
  induction l1 as [|c l1 IH]; [done|]. simpl. destruct (fn c); [|done]. simpl. rewrite IH. by destruct (forallb fn l1).
Qed.

Lemma wanted_calls_app m p l1 l2 : wanted_calls m p (l1 ++ l2) = wanted_calls m p l1 ++ wanted_calls m p l2.
Proof. unfold wanted_calls. by rewrite filter_app, fmap_app. Qed.

Lemma wanted_calls_none m p arts : (forall i, i ∈ arts -> wanted m p i = false) -> wanted_calls m p arts = [].
Proof.
  intros H. unfold wanted_calls. induction arts as [|i arts IH]; [done|].
  rewrite filter_cons, decide_False by (rewrite H by (by left); done). apply IH. intros k Hk. apply H. by right.
Qed.

(** The inner loop over articles of a file that is not skipped. *)
Lemma each_article_spec m p fn fi arts :
  (forall i, i ∈ arts -> fileIndexForArticle m i = fi) ->
  f_Complete (file_of p fi) = false -> f_Fetch (file_of p fi) = FetchAlways ->
  each_article m p fn fi arts =
    (upto fn (wanted_calls m p arts), negb (forallb fn (wanted_calls m p arts))).
Proof.
  intros Hin Hc Hf. induction arts as [|i arts IH]; [done|]. cbn [each_article].
  rewrite IH by (intros k Hk; apply Hin; by right).
  assert (wanted m p i = negb (Get (p_done p) i || Get (p_emitted p) i)) as Hw.
  { unfold wanted. rewrite (Hin i) by (by left). rewrite Hc, Hf. unfold unstarted.
    by destruct (Get (p_done p) i), (Get (p_emitted p) i). }
  unfold wanted_calls. rewrite filter_cons. destruct (Get (p_done p) i || Get (p_emitted p) i).
  - rewrite decide_False by (by rewrite Hw). done.
  - rewrite decide_True by done. rewrite fmap_cons, (Hin i) by (by left). cbn [upto forallb].
    by destruct (fn (call_of m fi i)).
Qed.

Lemma range_index m fi i : wf_manifest m -> (fi < NumFiles (m_ft m))%nat ->
  i ∈ seq (offset (m_ft m) fi) (offset (m_ft m) (S fi) - offset (m_ft m) fi) ->
  in_file (m_ft m) fi i /\ fileIndexForArticle m i = fi.
Proof.
  intros (Wt & _) Hfi Hi%elem_of_seq.
  assert (in_file (m_ft m) fi i) as Hin by (split; lia). split; [done|]. by apply fileIndex_unique.
Qed.

(** A file with no pending article wants none. *)
Lemma pending_zero m p fi : consistent m p -> (fi < NumFiles (m_ft m))%nat -> pendingOf p fi = 0 ->
  forall i, in_file (m_ft m) fi i -> wanted m p i = false.
Proof.
  intros [S C] Hfi Hz i Hi. destruct (shape_index _ _ _ _ S Hi) as (_ & _ & _ & _ & E).
  unfold wanted. rewrite E. rewrite (pendingOf_shape m) in Hz by done. unfold countsPending in Hz.
  destruct (bool_decide (f_Fetch (file_of p fi) = FetchAlways)); [|by rewrite andb_false_r].
  destruct (unstarted p i) eqn:Eu; [|done]. exfalso. unfold over_file, FileRange, FileTable.Range in Hz.
  destruct Hi as [_ Hi]. set (lo := offset (m_ft m) fi) in *. set (hi := offset (m_ft m) (Datatypes.S fi)) in *.
  replace (hi - lo)%nat with ((i - lo) + Datatypes.S (hi - i - 1))%nat in Hz by lia.
  rewrite sum_range_app, sum_range_S in Hz. replace (lo + (i - lo))%nat with i in Hz by lia.
  assert (forall k n, 0 <= sum_range (b2z (unstarted p)) k n) as Hnn
    by (intros; apply sum_range_nonneg; intros; unfold b2z; case_match; lia).
  pose proof (Hnn lo (i - lo)%nat). pose proof (Hnn (Datatypes.S i) (hi - i - 1)%nat).
  unfold b2z at 2 in Hz. rewrite Eu in Hz. lia.
Qed.

Lemma each_file_spec m p fn fi n :
  consistent m p -> (fi + n = NumFiles (m_ft m))%nat ->
  each_file m p fn (seq fi n) =
    upto fn (wanted_calls m p (seq (offset (m_ft m) fi) (TotalArticles (m_ft m) - offset (m_ft m) fi))).
Proof.
  intros C. pose proof C as [S Cn]. pose proof (sh_m _ _ S) as W. revert fi. induction n as [|n IH]; intros fi Hn.
  - assert (fi = NumFiles (m_ft m)) as -> by lia. unfold TotalArticles. by rewrite Nat.sub_diag.
  - cbn [seq each_file]. rewrite IH by lia. pose proof W as (Wt & _).
    pose proof (offset_mono _ Wt fi (Datatypes.S fi) ltac:(lia)) as Hm1.
    pose proof (offset_mono _ Wt (Datatypes.S fi) (NumFiles (m_ft m)) ltac:(lia)) as Hm2.
    fold (TotalArticles (m_ft m)) in Hm2.
    set (lo := offset (m_ft m) fi) in *. set (hi := offset (m_ft m) (Datatypes.S fi)) in *.
    set (rest := seq hi (TotalArticles (m_ft m) - hi)).
    replace (TotalArticles (m_ft m) - lo)%nat with ((hi - lo) + (TotalArticles (m_ft m) - hi))%nat by lia.
    rewrite seq_app. replace (lo + (hi - lo))%nat with hi by lia. fold rest. rewrite wanted_calls_app, upto_app.
    destruct (co_file _ _ Cn fi ltac:(lia)) as (Hp & _).
    assert (Hr : forall i, i ∈ seq lo (hi - lo) -> in_file (m_ft m) fi i /\ fileIndexForArticle m i = fi)
      by (intros i Hi; apply range_index; [done|lia|done]).
    unfold FileRange, FileTable.Range. fold lo hi.
    destruct (f_Complete (file_of p fi)) eqn:Ec; [|destruct (decide (f_Pending (file_of p fi) = 0)) as [Hz|Hz];
      [|destruct (decide (f_Fetch (file_of p fi) = FetchAlways)) as [Hf|Hf]]]; cbn [orb].
    + rewrite (wanted_calls_none m p (seq lo (hi - lo))); [done|]. intros i Hi. destruct (Hr i Hi) as [_ E]. unfold wanted.
      rewrite E, Ec. by rewrite andb_false_r.
    + rewrite bool_decide_eq_true_2 by done. cbn [orb]. rewrite (wanted_calls_none m p (seq lo (hi - lo))); [done|]. intros i Hi.
      apply (pending_zero m p fi); [done|lia|congruence|]. by apply Hr.
    + rewrite !bool_decide_eq_false_2 by (rewrite ?Hf; tauto). cbn [orb].
      rewrite each_article_spec; [|intros i Hi; by apply Hr|done|done].
      by destruct (forallb fn (wanted_calls m p (seq lo (hi - lo)))).
    + rewrite (bool_decide_eq_true_2 (f_Fetch _ <> _)) by done. rewrite orb_true_r.
      rewrite (wanted_calls_none m p (seq lo (hi - lo))); [done|]. intros i Hi. destruct (Hr i Hi) as [_ E]. unfold wanted.
      rewrite E, (bool_decide_eq_false_2 (_ = FetchAlways)) by done. apply andb_false_r.
Qed.

(** No article is wanted when none is pending. *)
Lemma none_pending m p : consistent m p -> p_pendingArticles p = 0 ->
  wanted_calls m p (seq 0 (NumArticles m)) = [].
Proof.
  intros C Hz. pose proof C as [S Cn]. pose proof (sh_m _ _ S) as (Wt & Hn & _). apply wanted_calls_none.
  intros i Hi%elem_of_seq.
  pose proof (fileIndex_in_file m i Wt ltac:(unfold NumArticles in Hi; lia)) as Hin.
  apply (pending_zero m p (fileIndexForArticle m i)); [done|apply Hin| |done].
  rewrite (co_pending _ _ Cn) in Hz. unfold over_files in Hz.
  assert (Hnn : forall fi, 0 <= pendingOf p fi).
  { intros fi. rewrite (pendingOf_shape m) by done. case_match; [|lia]. unfold over_file. destruct (FileRange m fi).
    apply sum_range_nonneg. intros. unfold b2z. case_match; lia. }
  set (fi := fileIndexForArticle m i) in *. destruct Hin as [Hfi _].
  replace (NumFiles (m_ft m)) with (fi + Datatypes.S (NumFiles (m_ft m) - fi - 1))%nat in Hz by lia.
  rewrite sum_range_app, sum_range_S in Hz. rewrite Nat.add_0_l in Hz.
  pose proof (sum_range_nonneg (pendingOf p) 0 fi ltac:(intros; apply Hnn)).
  pose proof (sum_range_nonneg (pendingOf p) (Datatypes.S fi) (NumFiles (m_ft m) - fi - 1) ltac:(intros; apply Hnn)).
  specialize (Hnn fi). lia.
Qed.

(** ** Methods that run at any residency *)
Lemma Clear_id b i : wf_bits b -> Get b i = false -> Clear b i = b.
Proof.
  intros W H. unfold Clear. case_decide as Hi; [done|]. assert (i < bits_n b)%nat as Hlt by lia.
  rewrite Get_testbit in H by done. pose proof (word_lt b i W Hlt) as Hw.
  assert (Z.ldiff (nth (i / 64) (words b) 0) (Bitset.mask i) = nth (i / 64) (words b) 0) as ->.
  { apply Z.bits_inj'. intros k Hk. rewrite Z.ldiff_spec. unfold Bitset.mask. rewrite Z.shiftl_1_l.
    destruct (decide (k = Z.of_nat (i mod 64))) as [->|Hne]; [by rewrite H|].
    rewrite Z.pow2_bits_false by done. apply andb_true_r. }
  rewrite list_insert_id; [by destruct b|]. rewrite nth_lookup.
  destruct (lookup_lt_is_Some_2 _ _ Hw) as [w Hw']. by rewrite Hw'.
Qed.

Lemma same_bits_refl p : same_bits p p.
Proof. by repeat split. Qed.

Lemma same_bits_sym p q : same_bits p q -> same_bits q p.
Proof.
  intros [(E1 & E2 & E3) [El Ef] (R1 & R2 & R3 & R4 & R5 & R6 & R7 & R8 & R9)].
  split; [by split_and!|split; [done|]|by split_and!].
  intros fi. destruct (Ef fi) as (? & ? & ? & ? & ? & ? & ? & ?). by split_and!.
Qed.

Lemma same_bits_trans p q r : same_bits p q -> same_bits q r -> same_bits p r.
Proof.
  intros [(E1 & E2 & E3) [El Ef] (R1 & R2 & R3 & R4 & R5 & R6 & R7 & R8 & R9)].
  intros [(D1 & D2 & D3) [Dl Df] (Q1 & Q2 & Q3 & Q4 & Q5 & Q6 & Q7 & Q8 & Q9)].
  split; [split_and!; congruence|split; [congruence|]|split_and!; congruence].
  intros fi. destruct (Ef fi) as (? & ? & ? & ? & ? & ? & ? & ?), (Df fi) as (? & ? & ? & ? & ? & ? & ? & ?).
  split_and!; congruence.
Qed.

Ltac bits_step :=
  let H := fresh "HB" in
  intros H; pose proof (sb_bits _ _ H) as (? & ? & ?);
  pose proof (sb_rest _ _ H) as (? & ? & ? & ? & ? & ? & ? & ? & ?);
  split; [split_and!; simpl; congruence | exact (sb_files _ _ H) | split_and!; simpl; congruence].

Lemma clear_arts_bits p q arts : same_bits p q -> same_bits (clear_arts p arts) (clear_arts q arts).
Proof.
  unfold clear_arts. revert p q. induction arts as [|i arts IH]; intros p q H; [done|]. simpl. apply IH.
  revert H. bits_step.
Qed.

Lemma dropFileRows_bits p q fi arts : same_bits p q -> same_bits (dropFileRows p fi arts) (dropFileRows q fi arts).
Proof.
  intros H. pose proof H as [_ _ (_ & _ & _ & E & _)]. unfold dropFileRows. rewrite E.
  destruct (p_written q !! fi); [|done]. revert H. bits_step.
Qed.

Lemma reload_bits p q fi ce : same_bits p q ->
  same_bits (fst (resetForReload p fi ce)) (fst (resetForReload q fi ce)) /\
  snd (resetForReload p fi ce) = snd (resetForReload q fi ce).
Proof.
  intros H. pose proof H as [(E1 & E2 & E3) [El Ef] (R1 & _)]. unfold resetForReload, fileRange.
  rewrite R1, E2, E3. destruct (Ef fi) as (-> & _). set (arts := seq _ _). set (failed := base.filter _ arts).
  assert (H1 : same_bits (if ce then set_p_emitted p (foldl Clear (p_emitted q) arts) else p)
    (if ce then set_p_emitted q (foldl Clear (p_emitted q) arts) else q)).
  { destruct ce; [|done]. revert H. bits_step. }
  destruct (f_Complete (file_of q fi)); (split; [|done]); apply dropFileRows_bits, (clear_arts_bits _ _ _ H1).
Qed.

Lemma failedBits_bits p q i u : same_bits p q ->
  same_bits (let '(r, ok) := setFailedBits p i in if ok then limitCharge r i u else r)
            (let '(r, ok) := setFailedBits q i in if ok then limitCharge r i u else r).
Proof.
  intros H. pose proof H as [(E1 & E2 & E3) _ (_ & _ & E4 & _)]. unfold setFailedBits. rewrite E1.
  destruct (Get (p_done q) i); [done|]. unfold limitCharge. case_decide; revert H; bits_step.
Qed.

Lemma upd_file_bits p q fi g : same_bits p q ->
  (forall f f', f_Complete f = f_Complete f' -> f_Fetch f = f_Fetch f' -> f_Verified f = f_Verified f' ->
    f_Recorded f = f_Recorded f' -> f_IsPar2 f = f_IsPar2 f' -> f_Filename f = f_Filename f' ->
    f_AssembledCRC32 f = f_AssembledCRC32 f' -> f_fetchChanged f = f_fetchChanged f' ->
    f_Complete (g f) = f_Complete (g f') /\ f_Fetch (g f) = f_Fetch (g f') /\ f_Verified (g f) = f_Verified (g f') /\
    f_Recorded (g f) = f_Recorded (g f') /\ f_IsPar2 (g f) = f_IsPar2 (g f') /\ f_Filename (g f) = f_Filename (g f') /\
    f_AssembledCRC32 (g f) = f_AssembledCRC32 (g f') /\ f_fetchChanged (g f) = f_fetchChanged (g f')) ->
  same_bits (upd_file p fi g) (upd_file q fi g).
Proof.
  intros [E [El Ef] R] Hg. split; [done|split; [by rewrite !files_upd|]|done]. intros k.
  destruct (decide (fi < length (p_files p))%nat) as [Hlt|Hge].
  - rewrite !file_of_upd by lia. destruct (decide (k = fi)) as [->|Hne]; [|apply Ef].
    destruct (Ef fi) as (? & ? & ? & ? & ? & ? & ? & ?). by apply Hg.
  - assert (forall r, ~ (fi < length (p_files r))%nat -> file_of (upd_file r fi g) k = file_of r k) as Hs.
    { intros r Hr. unfold file_of, upd_file; simpl. destruct (decide (k = fi)) as [->|Hne].
      - rewrite list_lookup_alter_eq. by rewrite (lookup_ge_None_2 (p_files r) fi) by lia.
      - by rewrite list_lookup_alter_ne. }
    rewrite !Hs by lia. apply Ef.
Qed.

Lemma recompute_bits m p q : recompute p m = Some q -> same_bits p q.
Proof.
  unfold recompute. case_decide; [done|]. intros [= <-]. split; [done|split; [simpl; by rewrite length_imap|]|done].
  intros fi. unfold file_of; simpl. rewrite list_lookup_imap. by destruct (p_files p !! fi).
Qed.

(** The methods the downloader and the reload path call while the job may be
    evicted. *)
Inductive evop : Type :=
| EvFailed (i c : Z) | EvUnemit (i : Z) | EvReload (skip : bool) | EvComplete (fi : Z).

Definition do_evop (j : JobContent) (o : evop) : option JobContent :=
  match o with
  | EvFailed i c => Some (fst (MarkArticleFailed j i c))
  | EvUnemit i => Some (fst (ClearArticleEmitted j i))
  | EvReload skip => fst <$> ClearEmittedForReload j skip
  | EvComplete fi => Some (fst (MarkFileComplete j fi))
  end.

Fixpoint do_evops (j : JobContent) (os : list evop) : option JobContent :=
  match os with
  | [] => Some j
  | o :: os => j' ← do_evop j o; do_evops j' os
  end.

(** The evicted twin of a resident job. *)
Definition twin (j j' : JobContent) : Prop :=
  exists p q, j_progress j = Some p /\ same_bits p q /\ j' = Evict (set_j_progress j q).

Lemma twin_put j p q0 q : same_bits p q ->
  twin (set_j_progress j p) (set_j_progress (Evict (set_j_progress j q0)) q).
Proof. intros H. exists p, q. by split_and!. Qed.

Lemma evop_twin mem j j' a m o : content_ok mem j -> j_manifest j = Some (a, m) -> twin j j' ->
  (forall b, wf_table (mem b)) ->
  exists j1 j1', do_evop j o = Some j1 /\ do_evop j' o = Some j1' /\ twin j1 j1' /\
    j_manifest j1 = Some (a, m) /\ content_ok mem j1.
Proof.
  intros Hok Em (p & q & Ep & Hb & ->) Hmem. pose proof Hb as [(B1 & B2 & B3) [Bl Bf] _].
  destruct (content_ok_resident mem j a m Hok Em) as (p0 & Ep0 & _ & _ & Cm). assert (p0 = p) as -> by congruence.
  assert (Hk : forall j1, cstep mem j j1 -> content_ok mem j1) by (intros; by eapply cstep_ok).
  destruct o as [i c|i|skip|fi]; cbn [do_evop].
  - eexists _, _. split; [done|]. split; [done|]. unfold MarkArticleFailed, on_progress.
    pose proof (Hk _ (cs_MarkArticleFailed mem j i c)) as Hok'. unfold MarkArticleFailed, on_progress in Hok'.
    case_decide; [split_and!; [by exists p, q|done|done]|]. rewrite Ep, Em in Hok' |- *. simpl in Hok' |- *.
    unfold markArticleFailed, out_of_range in Hok' |- *. rewrite <- B1. case_bool_decide; simpl in Hok' |- *.
    { split_and!; [by apply twin_put|done|done]. }
    split_and!; [|done|done]. apply twin_put.
    eapply same_bits_trans; [apply markFailed_same_bits|]. by apply failedBits_bits.
  - eexists _, _. split; [done|]. split; [done|]. unfold ClearArticleEmitted.
    pose proof (Hk _ (cs_ClearArticleEmitted mem j i)) as Hok'. unfold ClearArticleEmitted in Hok'.
    rewrite Ep, Em in Hok' |- *. simpl in Hok' |- *. rewrite <- B1. unfold out_of_range in *.
    case_bool_decide; simpl in Hok' |- *; [split_and!; [by exists p, q|done|done]|].
    split_and!; [|done|done]. apply twin_put.
    destruct (clearEmitted_same_bits m p (Z.to_nat i)) as [H1|[H1 H2]].
    + eapply same_bits_trans; [exact H1|]. rewrite B3. revert Hb. bits_step.
    + rewrite H2. rewrite <- B3, Clear_id; [|by apply (sh_emitted _ _ (proj1 Cm))|done].
      revert Hb. bits_step.
  - cbn [do_evop] in *. unfold ClearEmittedForReload. rewrite Ep, Em. simpl. rewrite <- Bl.
    destruct (ClearEmittedForReload_ok mem j skip Hok) as (j1 & r & E1 & Hok1).
    unfold ClearEmittedForReload in E1. rewrite Ep, Em in E1.
    set (step := fun acc fi => _) in *.
    assert (Hf : forall l x y cr, same_bits x y ->
      same_bits (fst (foldl step (x, cr) l)) (fst (foldl step (y, cr) l)) /\
      snd (foldl step (x, cr) l) = snd (foldl step (y, cr) l)).
    { induction l as [|fi l IH]; intros x y [c d] Hxy; [done|]. simpl.
      destruct (reload_bits x y fi (negb skip) Hxy) as [R1 R2].
      destruct (resetForReload x fi (negb skip)) as [x' [c' d']], (resetForReload y fi (negb skip)) as [y' [c2 d2]].
      simpl in R1, R2. injection R2 as -> ->. by apply IH. }
    destruct (Hf (seq 0 (length (p_files p))) p q ([], []) Hb) as [F1 F2].
    destruct (foldl step (p, ([], [])) _) as [x cr], (foldl step (q, ([], [])) _) as [y cr']. simpl in F1, F2, E1 |- *.
    destruct (recompute x m) as [x'|] eqn:Ex; [|done]. injection E1 as <- <-. simpl.
    eexists _, _. split; [done|]. split; [done|]. split_and!; [|done|done]. apply twin_put.
    eapply same_bits_trans; [|exact F1]. apply same_bits_sym. by apply recompute_bits in Ex.
  - eexists _, _. split; [done|]. split; [done|]. unfold MarkFileComplete, on_progress.
    pose proof (Hk _ (cs_MarkFileComplete mem j fi)) as Hok'. unfold MarkFileComplete, on_progress in Hok'.
    rewrite Ep in Hok' |- *. simpl in Hok' |- *. unfold out_of_range in *. rewrite <- Bl.
    case_bool_decide; simpl in Hok' |- *; (split_and!; [|done|done]); apply twin_put; [done|].
    apply upd_file_bits; [done|]. intros; simpl; by split_and!.
Qed.

(** ** Retry and verification *)
Definition file_arts (m : Manifest) (fi : nat) : list nat :=
  seq (offset (m_ft m) fi) (offset (m_ft m) (S fi) - offset (m_ft m) fi).

(** Every article of the file arrived. *)
Definition all_arrived (m : Manifest) (p : JobProgress) (fi : nat) : bool :=
  forallb (fun i => Get (p_done p) i && negb (Get (p_failed p) i)) (file_arts m fi).

Lemma existsb_all m p fi :
  existsb (fun i => Get (p_failed p) i || negb (Get (p_done p) i)) (file_arts m fi) = negb (all_arrived m p fi).
Proof.
  unfold all_arrived. induction (file_arts m fi) as [|i l IH]; [done|]. simpl. rewrite IH, negb_andb.
  by destruct (Get (p_done p) i), (Get (p_failed p) i).
Qed.

(** One file of the retry loop. *)
Lemma retry_file_spec m p fi : shape m p -> (fi < NumFiles (m_ft m))%nat ->
  let q := retry_file m p fi in
  shape m q /\
  (forall k, Get (p_done q) k = Get (p_done p) k && negb (bool_decide (k ∈ file_arts m fi) && Get (p_failed p) k)) /\
  (forall k, Get (p_failed q) k = Get (p_failed p) k && negb (bool_decide (k ∈ file_arts m fi))) /\
  p_emitted q = p_emitted p /\
  (forall k, f_Fetch (file_of q k) = f_Fetch (file_of p k)) /\
  (forall k, f_Complete (file_of q k) =
     if decide (k = fi) then f_Complete (file_of p k) && all_arrived m p fi else f_Complete (file_of p k)).
Proof.
  intros S Hfi q. pose proof (retry_file_shape m p fi S) as Sq. unfold q, retry_file in *.
  change (FileRange m fi) with (offset (m_ft m) fi, offset (m_ft m) (Datatypes.S fi)) in *. cbv iota in *.
  fold (file_arts m fi) in *. rewrite existsb_all in *.
  set (reset := base.filter (fun i => Get (p_failed p) i = true) (file_arts m fi)) in *.
  destruct (clearDone_spec m p fi reset S) as (Sc & Hd & Hf & _ & He & Hfi'). set (c := clearDone p fi reset) in *.
  assert (Hr : forall k, bool_decide (k ∈ reset) = bool_decide (k ∈ file_arts m fi) && Get (p_failed p) k).
  { intros k. unfold reset. case_bool_decide as H; rewrite list_elem_of_filter in H.
    - destruct H as [-> H]. by rewrite bool_decide_eq_true_2.
    - case_bool_decide; [|done]. destruct (Get (p_failed p) k); [exfalso; auto|done]. }
  assert (Hff : forall k, file_of c k = file_of p k) by (intros; unfold file_of; by rewrite Hfi').
  set (q' := if negb (all_arrived m p fi) then _ else c) in *.
  assert (p_done q' = p_done c /\ p_failed q' = p_failed c /\ p_emitted q' = p_emitted c) as (-> & -> & ->)
    by (unfold q'; by destruct (negb _)).
  assert (Hfile : forall k, file_of q' k = if decide (k = fi) then
    (if negb (all_arrived m p fi) then set_f_AssembledCRC32 (set_f_Complete (file_of p fi) false) 0 else file_of p fi)
    else file_of p k).
  { intros k. unfold q'. destruct (negb (all_arrived m p fi)).
    - rewrite file_of_upd by (rewrite Hfi', (sh_files _ _ S); done). by rewrite !Hff.
    - rewrite Hff. case_decide; congruence. }
  split_and!; try done.
  - intros k. by rewrite Hd, Hr.
  - intros k. rewrite Hf, Hr. destruct (bool_decide (k ∈ file_arts m fi)), (Get (p_failed p) k); done.
  - intros k. rewrite Hfile. case_decide; [subst|done]. by destruct (negb _).
  - intros k. rewrite Hfile. case_decide; [subst|done]. destruct (all_arrived m p fi); simpl; [by rewrite andb_true_r|by rewrite andb_false_r].
Qed.

(** The whole loop, over the files from [fi] on. *)
Lemma retry_files_spec m n : forall p fi, shape m p -> (fi + n <= NumFiles (m_ft m))%nat ->
  let q := foldl (retry_file m) p (seq fi n) in
  let hit k := exists f, (fi <= f < fi + n)%nat /\ k ∈ file_arts m f in
  shape m q /\
  (forall k, hit k -> Get (p_done q) k = Get (p_done p) k && negb (Get (p_failed p) k) /\ Get (p_failed q) k = false) /\
  (forall k, ~ hit k -> Get (p_done q) k = Get (p_done p) k /\ Get (p_failed q) k = Get (p_failed p) k) /\
  p_emitted q = p_emitted p /\
  (forall k, f_Fetch (file_of q k) = f_Fetch (file_of p k)) /\
  (forall k, f_Complete (file_of q k) =
     if decide (fi <= k < fi + n)%nat then f_Complete (file_of p k) && all_arrived m p k else f_Complete (file_of p k)).
Proof.
  induction n as [|n IH]; intros p fi S Hn.
  - simpl. split_and!; try done.
    + intros k (f & ? & _). lia.
    + intros k. rewrite decide_False by lia. done.
  - cbn [seq foldl]. destruct (retry_file_spec m p fi S ltac:(lia)) as (S1 & D1 & F1 & E1 & P1 & C1).
    set (p1 := retry_file m p fi) in *. destruct (IH p1 (Datatypes.S fi) S1 ltac:(lia)) as (S2 & H2 & N2 & E2 & P2 & C2).
    set (q := foldl (retry_file m) p1 _) in *. pose proof (sh_m _ _ S) as W.
    assert (Huniq : forall f k, (f <> fi)%nat -> (f < NumFiles (m_ft m))%nat -> k ∈ file_arts m f -> k ∉ file_arts m fi).
    { intros f k Hne Hf Hk Hk'. apply Hne. apply (range_index m f k W Hf) in Hk as [_ <-].
      by apply (range_index m fi k W ltac:(lia)) in Hk' as [_ ->]. }
    split_and!; try done; try congruence.
    + intros k (f & Hf & Hk). destruct (decide (f = fi)) as [->|Hne].
      * assert (~ exists f, (Datatypes.S fi <= f < Datatypes.S fi + n)%nat /\ k ∈ file_arts m f) as Hnot.
        { intros (f & Hf' & Hk'). eapply (Huniq f k); [lia|lia|done|done]. }
        destruct (N2 k Hnot) as [-> ->]. rewrite D1, F1, bool_decide_eq_true_2 by done. simpl. by rewrite andb_false_r.
      * destruct (H2 k) as [-> ->]; [exists f; split; [lia|done]|].
        rewrite D1, F1, bool_decide_eq_false_2 by (apply (Huniq f); [done|lia|done]). simpl. by rewrite !andb_true_r.
    + intros k Hnot. destruct (N2 k) as [-> ->]; [intros (f & Hf & Hk); apply Hnot; exists f; split; [lia|done]|].
      rewrite D1, F1, bool_decide_eq_false_2; [simpl; by rewrite !andb_true_r|].
      intros Hk. apply Hnot. exists fi. split; [lia|done].
    + intros k. rewrite C2, C1. destruct (decide (k = fi)) as [->|Hne].
      * rewrite decide_False by lia. by rewrite decide_True by lia.
      * destruct (decide (Datatypes.S fi <= k < Datatypes.S fi + n)%nat).
        -- rewrite (decide_True (P := (fi <= k < fi + Datatypes.S n)%nat)) by lia. f_equal. unfold all_arrived.
           assert (forall i, i ∈ file_arts m k -> Get (p_done p1) i && negb (Get (p_failed p1) i) =
             Get (p_done p) i && negb (Get (p_failed p) i)) as Hall.
           { intros i Hi. rewrite D1, F1, bool_decide_eq_false_2 by (apply (Huniq k); [done|lia|done]). simpl.
             by rewrite !andb_true_r. }
           revert Hall. generalize (file_arts m k) as l. induction l as [|i l IHl]; intros Hall; [done|]. simpl.
           rewrite Hall by (by left). rewrite IHl by (intros; apply Hall; by right). done.
        -- by rewrite decide_False by lia.
Qed.

Lemma hit_all m k : wf_manifest m -> (k < NumArticles m)%nat ->
  exists f, (0 <= f < 0 + NumFiles (m_ft m))%nat /\ k ∈ file_arts m f.
Proof.
  intros (Wt & Hn & _) Hk. pose proof (fileIndex_in_file m k Wt ltac:(unfold NumArticles in Hk; lia)) as [H1 H2].
  exists (fileIndexForArticle m k). split; [lia|]. unfold file_arts. rewrite elem_of_seq. lia.
Qed.

(** Done only grows while a verification is installed. *)
Lemma failAll_done m p arts k : shape m p -> Forall (fun i => (i < NumArticles m)%nat) arts ->
  consistent m p ->
  Get (p_done (failAll m p arts)) k = Get (p_done p) k || bool_decide (k ∈ arts).
Proof.
  intros S H. revert p S. induction H as [|i arts Hi H IH]; intros p S C; simpl; [by rewrite orb_false_r|].
  pose proof (markFailedUncovered_consistent m p i WholeArticle C Hi) as C'.
  unfold markFailed. rewrite IH by (try apply C'; done). rewrite markFailed_done by done.
  rewrite <- orb_assoc. f_equal. rewrite <- bool_decide_or. apply bool_decide_ext. by rewrite elem_of_cons.
Qed.

Lemma markArticleFailed_grows m p i c k : shape m p ->
  Get (p_done p) k = true -> Get (p_done (fst (markArticleFailed (Some m) p i c))) k = true.
Proof.
  intros S H. unfold markArticleFailed, out_of_range. case_bool_decide; [done|]. simpl.
  rewrite markFailed_done; [by rewrite H|done|]. rewrite <- (proj2 (sh_done _ _ S)). lia.
Qed.

(** ** Properties *)

(** C18: Exact counters.  In every state a job's content tier can reach by its
    methods, in any order, while the job is resident every cached counter
    equals what a recount from the article bits gives, so recomputing changes
    nothing. *)
Theorem content_counters_exact mem name j a m :
  (forall b, wf_table (mem b)) -> creachable mem name j -> j_manifest j = Some (a, m) ->
  exists p, j_progress j = Some p /\ j_fileTable j = Some a /\ m_ft m = mem a /\
    counters m p /\ recompute p m = Some p.
Proof.
  intros Hmem R Em. destruct (content_ok_resident mem j a m (creachable_ok mem Hmem name j R) Em)
    as (p & Ep & Ea & E & C).
  exists p. split_and!; try done; [apply C|by apply recompute_fixed].
Qed.


(** The downloader is handed exactly the unfinished articles.  In every
    reachable resident state the callback sees, in article order and up to
    its first refusal, each article that is neither done nor handed out and
    whose file is fetched and not complete; the shortcuts on the pending
    counters skip none of them. *)
Theorem ForEachUnfinished_exact mem name j a m p fn :
  (forall b, wf_table (mem b)) -> creachable mem name j ->
  j_manifest j = Some (a, m) -> j_progress j = Some p ->
  ForEachUnfinishedArticle j fn = Ok (upto fn (wanted_calls m p (seq 0 (NumArticles m)))).
Proof.
  intros Hmem R Em Ep. destruct (content_ok_resident mem j a m (creachable_ok mem Hmem name j R) Em)
    as (p' & Ep' & _ & _ & C). assert (p' = p) as -> by congruence.
  unfold ForEachUnfinishedArticle. rewrite Em, Ep. case_decide as Hz; f_equal.
  - by rewrite none_pending.
  - rewrite (each_file_spec m p fn 0) by (done || lia). pose proof (sh_m _ _ (proj1 C)) as (Wt & Hn & _).
    rewrite (offset_0 _ Wt), Nat.sub_0_r. unfold NumArticles. by rewrite Hn.
Qed.

(** C19: Eviction is invisible.  Any sequence of the calls that may find the
    job evicted (failing an article, taking one back, resetting for a reload,
    completing a file) leaves, once the manifest is attached again, exactly
    the job that the same calls would have left had it stayed resident. *)
Theorem eviction_transparent mem name j a m os :
  (forall b, wf_table (mem b)) -> creachable mem name j -> j_manifest j = Some (a, m) ->
  exists j1 j1', do_evops j os = Some j1 /\ do_evops (Evict j) os = Some j1' /\
    AttachArticles j1' (Some (a, m)) [] = Some (j1, Ok []).
Proof.
  intros Hmem R Em. pose proof (creachable_ok mem Hmem name j R) as Hok.
  destruct (content_ok_resident mem j a m Hok Em) as (p & Ep & _ & _ & C).
  assert (T : twin j (Evict j)).
  { exists p, p. split_and!; [done|apply same_bits_refl|]. unfold Evict, set_j_manifest, set_j_progress.
    rewrite Ep. by destruct j. }
  clear R C Ep p. revert j Hok Em T. generalize (Evict) as ev. intros ev j. generalize (ev j) as j'. clear ev.
  revert j. induction os as [|o os IH]; intros j j' Hok Em T.
  - exists j, j'. split_and!; [done..|]. destruct T as (p & q & Ep & Hb & ->).
    destruct (content_ok_resident mem j a m Hok Em) as (p0 & Ep0 & Ea & _ & C). assert (p0 = p) as -> by congruence.
    unfold AttachArticles. simpl. rewrite Ea, decide_False by tauto.
    rewrite <- (recompute_same_bits m p q Hb), (recompute_fixed m p C). simpl. do 2 f_equal.
    unfold set_j_manifest, set_j_progress. destruct j; simpl in *. by subst.
  - destruct (evop_twin mem j j' a m o Hok Em T Hmem) as (j1 & j1' & E1 & E1' & T1 & Em1 & Hok1).
    cbn [do_evops]. rewrite E1, E1'. simpl. by apply IH.
Qed.

(** A retry loses nothing and forgives every failure.  After
    [ResetForRetry] on a reachable resident job no article is failed, the done
    articles are exactly the ones that had arrived, a file stays complete only
    if all its articles had arrived, and every failed article of a fetched
    file that was not in flight is wanted again. *)
Theorem ResetForRetry_spec mem name j a m p :
  (forall b, wf_table (mem b)) -> creachable mem name j ->
  j_manifest j = Some (a, m) -> j_progress j = Some p ->
  exists q, ResetForRetry j = Some (set_j_progress j q) /\ consistent m q /\
    (forall i, (i < NumArticles m)%nat ->
       Get (p_done q) i = Get (p_done p) i && negb (Get (p_failed p) i) /\ Get (p_failed q) i = false) /\
    (forall fi, (fi < NumFiles (m_ft m))%nat ->
       f_Complete (file_of q fi) = f_Complete (file_of p fi) && all_arrived m p fi) /\
    (forall i, (i < NumArticles m)%nat -> Get (p_failed p) i = true -> Get (p_emitted p) i = false ->
       f_Fetch (file_of p (fileIndexForArticle m i)) = FetchAlways -> wanted m q i = true).
Proof.
  intros Hmem R Em Ep. destruct (content_ok_resident mem j a m (creachable_ok mem Hmem name j R) Em)
    as (p' & Ep' & _ & _ & C). assert (p' = p) as -> by congruence. destruct C as [S _].
  unfold ResetForRetry. rewrite Em, Ep.
  set (p0 := clearDownloadStamps _). assert (S0 : shape m p0) by (destruct S; by split).
  destruct (retry_files_spec m (NumFiles (m_ft m)) p0 0 S0 ltac:(lia)) as (S1 & D1 & _ & E1 & P1 & C1).
  set (p1 := foldl (retry_file m) p0 _) in *.
  destruct (recompute_spec m p1 S1) as (q & -> & Cq & Dq & Fq & Eq & _ & _ & Pq & Kq).
  pose proof (sh_m _ _ S) as W. exists q. split; [done|]. split; [done|].
  assert (Hbits : forall i, (i < NumArticles m)%nat ->
    Get (p_done q) i = Get (p_done p) i && negb (Get (p_failed p) i) /\ Get (p_failed q) i = false).
  { intros i Hi. rewrite Dq, Fq. apply D1. by apply hit_all. }
  assert (Hcomp : forall fi, (fi < NumFiles (m_ft m))%nat ->
    f_Complete (file_of q fi) = f_Complete (file_of p fi) && all_arrived m p fi).
  { intros fi Hfi. rewrite Kq, C1, decide_True by lia. done. }
  split_and!; try done.
  intros i Hi Hf He Hp. destruct (Hbits i Hi) as [Hd _]. unfold wanted, unstarted.
  destruct W as (Wt & Hn & _).
  pose proof (fileIndex_in_file m i Wt ltac:(unfold NumArticles in Hi; lia)) as Hin.
  rewrite Hd, Hf, andb_false_r, Eq, E1. change (p_emitted p0) with (p_emitted p). rewrite He. simpl.
  rewrite Hcomp by apply Hin. rewrite Pq, P1. change (file_of p0) with (file_of p). rewrite Hp.
  rewrite bool_decide_eq_true_2 by done. rewrite andb_true_r. apply negb_true_iff, andb_false_iff. right.
  unfold all_arrived. apply not_true_is_false. rewrite forallb_forall. intros Hall.
  specialize (Hall i). rewrite Hf, andb_false_r in Hall. discriminate Hall. apply list_elem_of_In.
  unfold file_arts. rewrite elem_of_seq. destruct Hin as [_ Hin]. lia.
Qed.

(** ** A complete verification *)
Lemma set_fetch_bits p fi pol : p_done (setFileFetchPolicy p fi pol) = p_done p.
Proof. unfold setFileFetchPolicy, setPending. case_decide; [done|]. by case_match. Qed.

Lemma installed_done m p rows k : consistent m p ->
  Forall (fun r => (Z.to_nat (r_art r) < NumArticles m)%nat) rows ->
  Get (p_done p) k = true -> Get (p_done (installed m p rows)) k = true.
Proof.
  intros C H. revert p C. induction H as [|r rows Hr H IH]; intros p C Hk; [done|]. simpl.
  apply IH; [by apply markDone_consistent|]. rewrite markDone_done by (try apply C; done). by rewrite Hk.
Qed.

Lemma markArticleFailed_file m p i c fi : consistent m p ->
  f_Complete (file_of (fst (markArticleFailed (Some m) p i c)) fi) = f_Complete (file_of p fi).
Proof.
  intros [S _]. unfold markArticleFailed, out_of_range. case_bool_decide; [done|]. simpl.
  destruct (sb_files _ _ (markFailed_same_bits m p (Z.to_nat i) c)) as [_ Hs]. destruct (Hs fi) as (-> & _).
  unfold setFailedBits. destruct (Get _ _); [done|]. unfold limitCharge. by case_decide.
Qed.

(** Everything [install_verification] does after the rows, for a complete
    file. *)
Lemma complete_tail m p fi failed lo hi :
  consistent m p -> (fi < NumFiles (m_ft m))%nat -> FileRange m fi = (lo, hi) ->
  let q := foldl (fun p a => fst (markArticleFailed (Some m) p a WholeArticle))
             (upd_file (failAll m p (seq lo (hi - lo))) fi (fun f => set_f_Complete f true)) failed in
  consistent m q /\ f_Complete (file_of q fi) = true /\
  (forall i, in_file (m_ft m) fi i -> Get (p_done q) i = true) /\
  (forall i, Get (p_done p) i = true -> Get (p_done q) i = true).
Proof.
  intros C Hfi Er q. pose proof C as [S _]. pose proof (sh_m _ _ S) as (Wt & Hn & _).
  unfold FileRange, FileTable.Range in Er. simplify_eq.
  set (lo := offset (m_ft m) fi) in *. set (hi := offset (m_ft m) (Datatypes.S fi)) in *.
  assert (Hin : Forall (fun i => (i < NumArticles m)%nat) (seq lo (hi - lo))).
  { apply Forall_forall. intros i Hi%elem_of_seq. unfold NumArticles. rewrite Hn.
    apply (in_file_total _ Wt fi). split; [done|lia]. }
  pose proof (failAll_consistent m p _ C Hin) as C1. set (p1 := failAll m p (seq lo (hi - lo))) in *.
  assert (C2 : consistent m (upd_file p1 fi (fun f => set_f_Complete f true))).
  { eapply same_core_consistent; [apply (upd_file_core p1 fi (fun f => set_f_Complete f true)); by intros []|done]. }
  assert (H2 : f_Complete (file_of (upd_file p1 fi (fun f => set_f_Complete f true)) fi) = true).
  { rewrite file_of_upd by (rewrite (sh_files _ _ (proj1 C1)); done). by rewrite decide_True. }
  assert (D2 : forall i, Get (p_done p1) i = Get (p_done p) i || bool_decide (i ∈ seq lo (hi - lo)))
    by (intros; by apply failAll_done).
  set (p2 := upd_file p1 fi _) in *.
  assert (Hfold : consistent m q /\ f_Complete (file_of q fi) = true /\
    forall i, Get (p_done p1) i = true -> Get (p_done q) i = true).
  { unfold q. change (p_done p1) with (p_done p2). clearbody p2. clear q. revert p2 C2 H2.
    induction failed as [|a l IH]; intros p2 C2 H2; [done|]. simpl.
    destruct (IH (fst (markArticleFailed (Some m) p2 a WholeArticle))) as (A & B & D).
    - unfold markArticleFailed, out_of_range. case_bool_decide; [done|]. simpl.
      apply markFailedUncovered_consistent; [done|]. rewrite <- (proj2 (sh_done _ _ (proj1 C2))). lia.
    - by rewrite markArticleFailed_file.
    - split_and!; [done..|]. intros i Hi. apply D. apply markArticleFailed_grows; [apply C2|done]. }
  destruct Hfold as (A & B & D). split_and!; try done.
  - intros i [_ Hi]. apply D. rewrite D2, bool_decide_eq_true_2; [by rewrite orb_true_r|]. apply elem_of_seq.
    fold lo hi in Hi. lia.
  - intros i Hi. apply D. by rewrite D2, Hi.
Qed.

(** A complete verification finishes its file.  Installing the
    verification of a complete file on a reachable resident job leaves every
    article of that file done (failed where no row covers it), the file
    complete, verified and settled, no article of it wanted again, and no
    article of any file un-done. *)
Theorem verification_completes mem name j a m p v j' d :
  (forall b, wf_table (mem b)) -> creachable mem name j ->
  j_manifest j = Some (a, m) -> j_progress j = Some p -> v_Complete v = true ->
  InstallFileVerification j v = (j', Ok d) ->
  exists q, j' = set_j_progress j q /\ consistent m q /\
    let fi := Z.to_nat (v_FileIdx v) in
    (forall i, in_file (m_ft m) fi i -> Get (p_done q) i = true /\ wanted m q i = false) /\
    (forall i, Get (p_done p) i = true -> Get (p_done q) i = true) /\
    f_Complete (file_of q fi) = true /\ f_Verified (file_of q fi) = true /\ f_Recorded (file_of q fi) = 0 /\
    p_written q !! fi = None.
Proof.
  intros Hmem R Em Ep Hv H. destruct (content_ok_resident mem j a m (creachable_ok mem Hmem name j R) Em)
    as (p' & Ep' & _ & Et & C). assert (p' = p) as -> by congruence.
  unfold InstallFileVerification, installFileVerificationLocked in H. rewrite Em, Ep in H.
  pose proof (progress_ok_install mem a m p v (conj Et C)) as [_ Cq].
  destruct (install_verification m p v) as [q r] eqn:Ei. injection H as <- ->. simpl in Cq.
  exists q. split; [done|]. split; [done|]. cbv zeta. unfold install_verification in Ei.
  destruct (placeRows m (v_FileIdx v) (v_Rows v)) as [[kept dr]|] eqn:Er; [|done].
  destruct (placeRows_in _ _ _ _ _ Er (sh_m _ _ (proj1 C))) as (Hfi & _ & Hk).
  set (fi := Z.to_nat (v_FileIdx v)) in *. rewrite Hv in Ei. cbv beta iota zeta delta [orb] in Ei.
  set (p1 := if decide (v_Filename v <> ""%string) then _ else p) in *.
  assert (H1 : progress_ok mem a (Some m) p1 /\ p_done p1 = p_done p).
  { unfold p1; case_decide; [split; [apply progress_ok_file; [by intros []|done]|done]|done]. }
  clearbody p1. set (p2 := if v_RestorePolicy v then _ else p1) in *.
  assert (H2 : progress_ok mem a (Some m) p2 /\ p_done p2 = p_done p).
  { destruct H1 as [O1 D1]. unfold p2. destruct (v_RestorePolicy v); [|done]. split; [|by rewrite set_fetch_bits].
    apply progress_ok_fetch; [|done]. by rewrite (sh_files _ _ (proj1 (proj2 O1))). }
  clearbody p2. destruct H2 as [[_ C2] D2].
  assert (Hk' : Forall (fun r => (Z.to_nat (r_art r) < NumArticles m)%nat) kept)
    by (eapply Forall_impl; [exact Hk|]; by intros r (_ & ? & _)).
  pose proof (installRows_consistent m p2 fi kept C2 Hk') as C3.
  assert (D3 : forall i, Get (p_done p) i = true -> Get (p_done (installRows p2 m fi kept)) i = true).
  { intros i Hi. unfold installRows. rewrite (sc_done _ _ (upsertFileRows_core _ _ _)).
    apply installed_done; [done|done|by rewrite D2]. }
  set (p3 := installRows p2 m fi kept) in *. clearbody p3. destruct (FileRange m fi) as [lo hi] eqn:Erg.
  destruct (complete_tail m p3 fi (v_Failed v) lo hi C3 Hfi Erg) as (C5 & K5 & A5 & M5).
  cbv beta iota in Ei. set (p5 := foldl _ _ (v_Failed v)) in *. clearbody p5.
  assert (Hl5 : (fi < length (p_files p5))%nat) by (rewrite (sh_files _ _ (proj1 C5)); done).
  unfold settleFileCRC in Ei. rewrite Erg in Ei. simpl in Ei. set (crc := fileCRCFromRows _ _ _ _) in Ei.
  injection Ei as <- _.
  assert (Hfile : file_of (upd_file (storeSettled p5 fi crc) fi (fun f => set_f_Recorded (set_f_Verified f true) 0)) fi =
    set_f_Recorded (set_f_Verified (set_f_AssembledCRC32 (file_of p5 fi) (default 0 crc)) true) 0).
  { rewrite file_of_upd by (simpl; by rewrite length_alter). rewrite decide_True by done. do 2 f_equal.
    change (file_of (storeSettled p5 fi crc)) with (file_of (upd_file p5 fi (fun f => set_f_AssembledCRC32 f (default 0 crc)))).
    rewrite file_of_upd by done. by rewrite decide_True. }
  split_and!; try (rewrite Hfile; done).
  - intros i Hi. split; [by apply A5|]. unfold wanted, unstarted.
    change (p_done (upd_file (storeSettled p5 fi crc) fi _)) with (p_done p5). by rewrite (A5 i Hi).
  - intros i Hi. apply M5, D3, Hi.
  - simpl. by rewrite lookup_delete_eq.
Qed.

(** ** Witnesses: a job with an article failed, then one written *)
Definition ex_mem : nat -> FileTable := fun _ => m_ft ex_manifest.

Lemma ex_mem_wf b : wf_table (ex_mem b).
Proof. apply ex_manifest_wf. Qed.

Definition ex_attached : JobContent :=
  match AttachContent ex_mem (newContent "j") (Some (7%nat, ex_manifest)) with
  | Some (j, _) => j
  | None => newContent "j"
  end.

Definition ex_job : JobContent := fst (MarkArticleFailed ex_attached 0 WholeArticle).

Lemma ex_good : good_ref ex_mem (7%nat, ex_manifest).
Proof. split; [exact ex_manifest_wf|done]. Qed.

Lemma ex_attached_reachable : creachable ex_mem "j" ex_attached.
Proof.
  eapply cr_step; [apply cr_new|]. unfold ex_attached.
  destruct (AttachContent ex_mem (newContent "j") (Some (7%nat, ex_manifest))) as [[j e]|] eqn:E.
  - by eapply cs_AttachContent; [exact ex_good|].
  - destruct (AttachContent_ok ex_mem ex_mem_wf (newContent "j") _ ex_good) as (? & ? & E' & _); [done|]. congruence.
Qed.

Lemma ex_job_reachable : creachable ex_mem "j" ex_job.
Proof. eapply cr_step; [exact ex_attached_reachable|]. apply cs_MarkArticleFailed. Qed.

Definition ex_job_progress : JobProgress := default ex_progress (j_progress ex_job).

Lemma content_counters_exact_witness :
  p_failedBytes ex_job_progress = 10 /\
  exists p, j_progress ex_job = Some p /\ recompute p ex_manifest = Some p.
Proof.
  split; [vm_compute; reflexivity|].
  destruct (content_counters_exact ex_mem "j" ex_job 7 ex_manifest ex_mem_wf ex_job_reachable) as (p & E & _ & _ & _ & H).
  - vm_compute. reflexivity.
  - exists p. split; [exact E|exact H].
Defined.


Lemma ForEachUnfinished_exact_witness :
  ForEachUnfinishedArticle ex_job (fun _ => true) =
    Ok [mkCall 0 1 "y" 10 2 "a.rar"; mkCall 2 2 "z" 5 1 "a.vol0+3.par2"] /\
  ForEachUnfinishedArticle ex_job (fun _ => true) =
    Ok (upto (fun _ => true) (wanted_calls ex_manifest ex_job_progress (seq 0 3))).
Proof.
  split; [vm_compute; reflexivity|].
  apply (ForEachUnfinished_exact ex_mem "j" ex_job 7 ex_manifest ex_job_progress (fun _ => true) ex_mem_wf ex_job_reachable);
    vm_compute; reflexivity.
Defined.

Lemma eviction_transparent_witness :
  exists j1 j1', do_evops ex_job [EvFailed 2 1; EvReload false] = Some j1 /\
    do_evops (Evict ex_job) [EvFailed 2 1; EvReload false] = Some j1' /\
    AttachArticles j1' (Some (7%nat, ex_manifest)) [] = Some (j1, Ok []).
Proof.
  apply (eviction_transparent ex_mem "j" ex_job 7 ex_manifest [EvFailed 2 1; EvReload false] ex_mem_wf ex_job_reachable).
  vm_compute. reflexivity.
Defined.

Lemma ResetForRetry_spec_witness :
  exists q, ResetForRetry ex_job = Some (set_j_progress ex_job q) /\ wanted ex_manifest q 0 = true.
Proof.
  destruct (ResetForRetry_spec ex_mem "j" ex_job 7 ex_manifest ex_job_progress ex_mem_wf ex_job_reachable)
    as (q & E & _ & _ & _ & Hw); [vm_compute; reflexivity..|].
  exists q. split; [exact E|]. apply Hw; vm_compute; (reflexivity || lia).
Defined.

Lemma verification_completes_witness :
  exists q, fst (InstallFileVerification ex_job (mkFV 0 "a.rar" false FetchAlways true [mkRow 0 1 10 10 0] [] false)) =
    set_j_progress ex_job q /\ f_Complete (file_of q 0) = true /\ Get (p_done q) 1 = true.
Proof.
  destruct (verification_completes ex_mem "j" ex_job 7 ex_manifest ex_job_progress
    (mkFV 0 "a.rar" false FetchAlways true [mkRow 0 1 10 10 0] [] false)
    (fst (InstallFileVerification ex_job (mkFV 0 "a.rar" false FetchAlways true [mkRow 0 1 10 10 0] [] false))) 0
    ex_mem_wf ex_job_reachable) as (q & E & _ & Hd & _ & Hc & _); [vm_compute; reflexivity..|].
  exists q. split; [exact E|]. split; [exact Hc|]. apply Hd. vm_compute. lia.
Defined.
