(* ===== verification/RarSize.v ===== *)
(** * The unpacked size a RAR archive declares ([internal/rarheader/unpacked_size.go])

    A volume is the bytes of its file.  The walk over the blocks of a volume
    has no bound in the code: its definitions take fuel, [None] is a walk
    that has not ended.  Sums are [int64]. *)
From S2P Require Import Prelude GoBytes.
From stdpp Require Import base numbers gmap list strings.
From Stdlib Require Import ZArith Lia.
Local Open Scope Z_scope.

Definition rar3Sig : list Z := [82; 97; 114; 33; 26; 7; 0].
Definition rar5Sig : list Z := [82; 97; 114; 33; 26; 7; 1; 0].

Inductive size_err : Type :=
| ErrSizeUnknown
| SizeEOF            (* [io.EOF] itself: the walk is over *)
| SizeTruncated      (* [io.ErrUnexpectedEOF], wrapped or not *)
| SizeRange          (* a value out of range *)
| SizeVint           (* a variable-length integer of more than 10 bytes *)
| SizeSeek.          (* [ReadAt] at a negative offset *)
#[export] Instance size_err_eq_dec : EqDecision size_err.
Proof. solve_decision. Defined.

(** [readMagic]: the version, 0 where the file is not a RAR archive. *)
Definition readMagic (file : list Z) : Z :=
  if HasPrefix file rar5Sig then 5 else if HasPrefix file rar3Sig then 3 else 0.

Definition maxBlockHeader : Z := 2097152.

(** ** Variable-length integers

    [readVint] on the bytes that can be read: the value, and what is left.
    [eof] is what [ReadByte] returns past them. *)
Fixpoint readVint_loop (fuel : nat) (i v : Z) (s : list Z) (eof : size_err) : result size_err (Z * list Z) :=
  match fuel with
  | O => Err SizeVint
  | S k =>
      match s with
      | [] => Err eof
      | b :: s =>
          let v := Z.lor v (wrapu 64 (Z.shiftl (Z.land b 127) (7 * i))) in
          if decide (Z.land b 128 = 0) then Ok (v, s) else readVint_loop k (i + 1) v s eof
      end
  end.
Definition readVint (s : list Z) (eof : size_err) : result size_err (Z * list Z) := readVint_loop 10 0 0 s eof.
Definition vint (s : list Z) : result size_err (Z * list Z) := readVint s SizeTruncated.

(** ** RAR 5 *)
Definition rar5TypeFile : Z := 2.
Definition rar5TypeEncryption : Z := 4.
Definition rar5TypeEnd : Z := 5.
Definition rar5FlagExtra : Z := 1.
Definition rar5FlagData : Z := 2.
Definition rar5FlagDataNotFirst : Z := 8.
Definition rar5FileDir : Z := 1.
Definition rar5FileSizeUnknown : Z := 8.

Record rar5Header : Type := mkRar5 { h_typ : Z; h_flags : Z; h_body : list Z }.

(** [vint] in the middle of a function that returns its error. *)
Definition optional_vint (present : bool) (s : list Z) : result size_err (Z * list Z) := if present then vint s else Ok (0, s).

Local Open Scope go_scope.

(** [rar5Block]: the header at [off] and the offset of the next block. *)
Definition rar5Block (file : list Z) (off : Z) : result size_err (rar5Header * Z) :=
  let s := take (Z.to_nat (maxBlockHeader + 16)) (drop (Z.to_nat off) file) in
  if decide (length s < 4)%nat then Err SizeEOF
  else
    let s := drop 4 s in
    let? (size, s') := readVint s SizeEOF in
    if decide (size = 0 \/ size > maxBlockHeader) then Err SizeRange
    else if decide (Z.of_nat (length s') < size) then Err (if decide (s' = []) then SizeEOF else SizeTruncated)
    else
      let? (typ, rest) := vint (take (Z.to_nat size) s') in
      let? (flags, rest) := vint rest in
      let? (_, rest) := optional_vint (negb (bool_decide (Z.land flags rar5FlagExtra = 0))) rest in
      let? (data, rest) := optional_vint (negb (bool_decide (Z.land flags rar5FlagData = 0))) rest in
      let next := off + 4 + Z.of_nat (length s - length s') + size in
      if decide (data > 2 ^ 62) then Err SizeRange
      else Ok (mkRar5 typ flags rest, wraps 64 (next + data)).

Definition rar5FileSize (body : list Z) : result size_err Z :=
  let? (fileFlags, rest) := vint body in
  let? (size, _) := vint rest in
  if negb (bool_decide (Z.land fileFlags rar5FileSizeUnknown = 0)) then Err ErrSizeUnknown
  else if negb (bool_decide (Z.land fileFlags rar5FileDir = 0)) then Ok 0
  else if decide (size > 2 ^ 62) then Err SizeRange
  else Ok size.

Fixpoint rar5_loop (fuel : nat) (file : list Z) (off total : Z) : option (result size_err Z) :=
  match fuel with
  | O => None
  | S k =>
      match rar5Block file off with
      | Err SizeEOF => Some (Ok total)
      | Err e => Some (Err e)
      | Ok (hdr, next) =>
          if decide (h_typ hdr = rar5TypeEncryption) then Some (Err ErrSizeUnknown)
          else if decide (h_typ hdr = rar5TypeEnd) then Some (Ok total)
          else if decide (h_typ hdr = rar5TypeFile /\ Z.land (h_flags hdr) rar5FlagDataNotFirst = 0) then
            match rar5FileSize (h_body hdr) with
            | Err e => Some (Err e)
            | Ok size => rar5_loop k file next (wraps 64 (total + size))
            end
          else rar5_loop k file next total
      end
  end.
Definition rar5UnpackedSize (fuel : nat) (file : list Z) : option (result size_err Z) := rar5_loop fuel file 8 0.

(** ** RAR 3 *)
Definition rar3TypeMain : Z := 115.
Definition rar3TypeFile : Z := 116.
Definition rar3TypeSub : Z := 122.
Definition rar3TypeEnd : Z := 123.
Definition rar3LongBlock : Z := 32768.
Definition rar3MainPassword : Z := 128.
Definition rar3FileSplitBefore : Z := 1.
Definition rar3FileDirMask : Z := 224.
Definition rar3FileLarge : Z := 256.
Definition rar3BaseHeader : Z := 7.
Definition rar3FileFixed : Z := 25.

(** The little-endian integer at [buf[a:b]]. *)
Definition field (buf : list Z) (a b : nat) : Z := LittleEndian (take (b - a) (drop a buf)).

(** What one block says: the end of the archive, or its own size and data and
    what it adds to the total. *)
Inductive rar3_block : Type :=
| Rar3End
| Rar3Block (headSize data adds : Z).

Definition rar3Block (buf : list Z) : result size_err rar3_block :=
  let n := Z.of_nat (length buf) in
  let typ := field buf 2 3 in
  let flags := field buf 3 5 in
  let headSize := field buf 5 7 in
  if decide (headSize < rar3BaseHeader) then Err SizeRange
  else if decide (typ = rar3TypeMain) then
    if negb (bool_decide (Z.land flags rar3MainPassword = 0)) then Err ErrSizeUnknown else Ok (Rar3Block headSize 0 0)
  else if decide (typ = rar3TypeEnd) then Ok Rar3End
  else if decide (typ = rar3TypeFile \/ typ = rar3TypeSub) then
    let large := negb (bool_decide (Z.land flags rar3FileLarge = 0)) in
    let fixed := rar3BaseHeader + rar3FileFixed + (if large then 8 else 0) in
    if decide (n < fixed \/ headSize < fixed) then Err SizeTruncated
    else
      let widen (lo : Z) (a b : nat) := if large then Z.lor lo (wraps 64 (Z.shiftl (field buf a b) 32)) else lo in
      let packed := widen (field buf 7 11) 32%nat 36%nat in
      let unpacked := widen (field buf 11 15) 36%nat 40%nat in
      let counted := bool_decide (typ = rar3TypeFile) && bool_decide (Z.land flags rar3FileSplitBefore = 0) &&
                     negb (bool_decide (Z.land flags rar3FileDirMask = rar3FileDirMask)) in
      Ok (Rar3Block headSize packed (if counted then unpacked else 0))
  else if negb (bool_decide (Z.land flags rar3LongBlock = 0)) then
    if decide (n < rar3BaseHeader + 4) then Err SizeTruncated else Ok (Rar3Block headSize (field buf 7 11) 0)
  else Ok (Rar3Block headSize 0 0).

Definition rar3_bufsize : nat := 40.

Fixpoint rar3_loop (fuel : nat) (file : list Z) (off total : Z) : option (result size_err Z) :=
  match fuel with
  | O => None
  | S k =>
      if decide (off < 0) then Some (Err SizeSeek)
      else
        let buf := take rar3_bufsize (drop (Z.to_nat off) file) in
        if decide (Z.of_nat (length buf) < rar3BaseHeader) then Some (Ok total)
        else
          match rar3Block buf with
          | Err e => Some (Err e)
          | Ok Rar3End => Some (Ok total)
          | Ok (Rar3Block headSize data adds) => rar3_loop k file (wraps 64 (off + wraps 64 (headSize + data))) (wraps 64 (total + adds))
          end
  end.
Definition rar3UnpackedSize (fuel : nat) (file : list Z) : option (result size_err Z) := rar3_loop fuel file 7 0.

(** ** A set of volumes *)
Definition volumeUnpackedSize (fuel : nat) (file : list Z) : option (result size_err Z) :=
  if decide (readMagic file = 0) then Some (Err ErrSizeUnknown)
  else if decide (readMagic file = 5) then rar5UnpackedSize fuel file
  else rar3UnpackedSize fuel file.

Fixpoint UnpackedSize (fuel : nat) (total : Z) (volumes : list (list Z)) : option (result size_err Z) :=
  match volumes with
  | [] => Some (Ok total)
  | v :: volumes =>
      r ← volumeUnpackedSize fuel v;
      match r with
      | Err e => Some (Err e)
      | Ok n => UnpackedSize fuel (wraps 64 (total + n)) volumes
      end
  end.

(** [fits] of [internal/unpack/free_space.go]. *)
Definition fits (declared free minFree : Z) : bool := bool_decide (declared <= wraps 64 (free - minFree)).
