(* ===== verification/RarSizeProps.v ===== *)
(** * The walk over RAR blocks: where it ends, and where it does not *)
From S2P Require Import Prelude GoBytes RarSize.
From stdpp Require Import base numbers gmap list strings.
From Stdlib Require Import ZArith Lia.
Local Open Scope Z_scope.

(** ** Variable-length integers *)
Lemma readVint_loop_rest k eof : forall i v s w r, readVint_loop k i v s eof = Ok (w, r) -> (length r < length s)%nat.
Proof.
  induction k as [|k IH]; intros i v s w r; [done|]. cbn [readVint_loop]. destruct s as [|b s]; [done|]. cbv zeta. case_decide.
  - intros [= _ <-]. cbn. lia.
  - intros E%IH. cbn. lia.
Qed.

Lemma readVint_loop_nonneg k eof : forall i v s w r, 0 <= v -> readVint_loop k i v s eof = Ok (w, r) -> 0 <= w.
Proof.
  induction k as [|k IH]; intros i v s w r Hv; [done|]. cbn [readVint_loop]. destruct s as [|b s]; [done|]. cbv zeta.
  assert (0 <= Z.lor v (wrapu 64 (Z.shiftl (Z.land b 127) (7 * i)))) as H.
  { apply Z.lor_nonneg. split; [done|]. unfold wrapu. apply Z.mod_pos_bound. lia. }
  case_decide; [by intros [= <- _]|]. by apply IH.
Qed.

Lemma vint_nonneg s w r : vint s = Ok (w, r) -> 0 <= w.
Proof. by apply readVint_loop_nonneg. Qed.
Lemma optional_vint_nonneg b s w r : optional_vint b s = Ok (w, r) -> 0 <= w.
Proof. destruct b; [apply vint_nonneg|by intros [= <- _]]. Qed.

(** A block that is read lies in the file, and the next one is further on. *)
Lemma rar5Block_next file off hdr next : 0 <= off -> Z.of_nat (length file) < 2 ^ 62 -> rar5Block file off = Ok (hdr, next) ->
  off + 6 <= Z.of_nat (length file) /\ off + 6 <= next.
Proof.
  intros Hoff Hfile. unfold rar5Block. set (s := take _ _). case_decide as Hs; [done|]. intros E.
  apply rbind_Ok_inv in E as ([size s'] & E1 & E). apply readVint_loop_rest in E1 as Hl.
  assert (Z.of_nat (length s) <= Z.of_nat (length file) - off) as Hlen.
  { assert (length s <= length file - Z.to_nat off)%nat as H by (subst s; rewrite length_take, length_drop; lia). lia. }
  rewrite length_drop in Hl. apply readVint_loop_nonneg in E1 as Hn; [|done]. case_decide as Hz; [done|]. case_decide as Ht; [done|].
  apply rbind_Ok_inv in E as ([typ r1] & _ & E). apply rbind_Ok_inv in E as ([flags r2] & _ & E).
  apply rbind_Ok_inv in E as ([x r3] & _ & E). apply rbind_Ok_inv in E as ([data r4] & Hd & E).
  apply optional_vint_nonneg in Hd. cbv zeta in E. case_decide; [done|]. injection E as _ <-.
  rewrite length_drop. unfold maxBlockHeader in Hz. rewrite wraps64_id; unfold in_i64, MinInt64, MaxInt64; lia.
Qed.

Lemma rar5_loop_ends file : Z.of_nat (length file) < 2 ^ 62 -> forall fuel off total, 0 <= off -> Z.of_nat (length file) - off < Z.of_nat fuel -> (0 < fuel)%nat ->
  is_Some (rar5_loop fuel file off total).
Proof.
  intros Hfile. induction fuel as [|k IH]; intros off total Hoff Hk Hpos; [lia|].
  cbn [rar5_loop]. destruct (rar5Block file off) as [[hdr next]|e] eqn:E; [|destruct e; by eexists].
  apply rar5Block_next in E as [H1 H2]; [|done..]. case_decide; [by eexists|]. case_decide; [by eexists|]. case_decide.
  - destruct (rar5FileSize (h_body hdr)) as [size|e]; [|by eexists]. apply IH; lia.
  - apply IH; lia.
Qed.

(** ** RAR 3 *)
Definition rar3_buf (file : list Z) (off : Z) : list Z := take rar3_bufsize (drop (Z.to_nat off) file).

(** No block of the file declares packed data that an [int64] makes
    negative. *)
Definition no_negative_data (file : list Z) : Prop :=
  forall off headSize data adds, rar3Block (rar3_buf file off) = Ok (Rar3Block headSize data adds) -> 0 <= data < 2 ^ 62.

Lemma field_nonneg buf a b : Forall (fun x => 0 <= x) buf -> 0 <= field buf a b.
Proof.
  intros H. unfold field. assert (Forall (fun x => 0 <= x) (take (b - a) (drop a buf))) as Hf by by apply Forall_take, Forall_drop.
  induction Hf as [|x l Hx Hl IH]; cbn; lia.
Qed.

Lemma rar3Block_head buf h d a : rar3Block buf = Ok (Rar3Block h d a) -> h = field buf 5 7 /\ rar3BaseHeader <= h.
Proof. unfold rar3Block. cbv zeta. repeat case_decide; repeat case_match; try done; intros [= <- <- <-]; split; done || lia. Qed.

Lemma field_bound buf : Forall (fun x => 0 <= x < 256) buf -> field buf 5 7 < 65536.
Proof.
  intros H. unfold field. assert (Forall (fun x => 0 <= x < 256) (take (7 - 5) (drop 5 buf))) as Hf by by apply Forall_take, Forall_drop.
  destruct (take (7 - 5) (drop 5 buf)) as [|x [|y [|z l]]] eqn:E; cbn [LittleEndian]; [lia|..].
  - inversion Hf; subst. lia.
  - inversion Hf as [|? ? ? Hf']; subst. inversion Hf'; subst. lia.
  - assert (length (take (7 - 5) (drop 5 buf)) <= 2)%nat as Hl by (rewrite length_take; lia). rewrite E in Hl. cbn in Hl. lia.
Qed.

Lemma rar3_loop_ends file : Z.of_nat (length file) < 2 ^ 61 -> Forall (fun x => 0 <= x < 256) file -> no_negative_data file ->
  forall fuel off total, 0 <= off -> Z.of_nat (length file) - off < Z.of_nat fuel -> (0 < fuel)%nat -> is_Some (rar3_loop fuel file off total).
Proof.
  intros Hfile Hb Hd. induction fuel as [|k IH]; intros off total Hoff Hk Hpos; [lia|]. cbn [rar3_loop]. rewrite decide_False by lia.
  fold (rar3_buf file off). cbv zeta. case_decide as Hl; [by eexists|].
  destruct (rar3Block (rar3_buf file off)) as [[|h d a]|e] eqn:E; [by eexists| |by eexists].
  apply Hd in E as Hdata. apply rar3Block_head in E as [-> Hh].
  assert (field (rar3_buf file off) 5 7 < 65536) as Hf by by apply field_bound, Forall_take, Forall_drop.
  assert (off + 7 <= Z.of_nat (length file)) as Hin.
  { unfold rar3BaseHeader, rar3_buf in Hl. rewrite length_take, length_drop in Hl. lia. }
  unfold rar3BaseHeader in Hh.
  rewrite (wraps64_id (field _ _ _ + d)), (wraps64_id (off + _)) by (unfold in_i64, MinInt64, MaxInt64; lia). apply IH; lia.
Qed.

(** Walking the blocks of a volume ends.  For any file of less than 2^61
    bytes, [rar5UnpackedSize] returns after at most one step per byte,
    whatever the bytes are; [rar3UnpackedSize] does so when no block declares
    packed data that is negative as an [int64]. *)
Theorem unpacked_size_ends file : Z.of_nat (length file) < 2 ^ 61 -> Forall (fun x => 0 <= x < 256) file ->
  (exists r, rar5UnpackedSize (S (length file)) file = Some r) /\
  (no_negative_data file -> exists r, rar3UnpackedSize (S (length file)) file = Some r).
Proof.
  intros Hf Hb. split_and!.
  - destruct (rar5_loop_ends file ltac:(lia) (S (length file)) 8 0) as [r Hr]; [lia..|]. by exists r.
  - intros Hd. destruct (rar3_loop_ends file Hf Hb Hd (S (length file)) 7 0) as [r Hr]; [lia..|]. by exists r.
Qed.

(** A volume of one file block, 40 bytes long, whose 64-bit packed size is
    2^64 - 40. *)
Definition looping_volume : list Z :=
  rar3Sig ++ [0; 0; 116; 0; 1; 40; 0] ++ [216; 255; 255; 255] ++ [0; 0; 0; 0] ++ replicate 17 0 ++ [255; 255; 255; 255] ++ [0; 0; 0; 0].

(** a RAR 3 volume can hold the walk forever.  A file of 47 bytes with
    the RAR 3 signature, whose only block declares a 64-bit packed size that
    an [int64] reads as minus the size of its header, brings the walk back to
    the same block each time: [volumeUnpackedSize] does not return. *)
Theorem rar3_walk_can_loop fuel : length looping_volume = 47%nat /\ readMagic looping_volume = 3 /\ volumeUnpackedSize fuel looping_volume = None.
Proof.
  split; [done|]. split; [done|]. change (volumeUnpackedSize fuel looping_volume) with (rar3_loop fuel looping_volume 7 0).
  generalize 0. induction fuel as [|k IH]; intros total; [done|]. cbn [rar3_loop]. cbv zeta.
  change (rar3Block (take rar3_bufsize (drop (Z.to_nat 7) looping_volume))) with (@Ok size_err _ (Rar3Block 40 (-40) 0)).
  apply IH.
Qed.

(** ** Witness and examples *)
Example rar5_one_file : rar5UnpackedSize 40 (rar5Sig ++ [1; 2; 3; 4; 6; 2; 0; 0; 216; 4; 9; 1; 2; 3; 4; 3; 5; 0; 0]) = Some (Ok 600).
Proof. vm_compute. reflexivity. Qed.

(** The sum of sizes the code bounds one by one is not bounded: two files of
    2^62 bytes are a negative size, which fits anywhere. *)
Example rar5_sum_wraps :
  let block := [1; 2; 3; 4; 13; 2; 0; 0; 128; 128; 128; 128; 128; 128; 128; 128; 64; 9] in
  rar5UnpackedSize 100 (rar5Sig ++ block ++ block) = Some (Ok (- 2 ^ 63)) /\ fits (- 2 ^ 63) 0 0 = true.
Proof. vm_compute. done. Qed.

Lemma unpacked_size_ends_witness : exists r, rar5UnpackedSize 47 (rar5Sig ++ replicate 38 255) = Some r.
Proof.
  apply (unpacked_size_ends (rar5Sig ++ replicate 38 255)); [vm_compute; done|].
  apply Forall_app. split; [repeat constructor; done|]. apply Forall_replicate. lia.
Defined.
