(* ===== verification/PostEngine.v ===== *)
(** * The post-processor's queue and worker ([internal/postproc])

    [queue.go], [cancel.go], [has.go] and the worker loop of [postproc.go]:
    jobs are pushed by any goroutine, taken by one worker, cancelled by any
    goroutine, and each is handed back through one callback.  A definition
    is one span that holds [ppQueue.mu] or [busyMu], or one operation of a
    channel or a context; [step] interleaves them.  What the worker does to
    a job between taking it and handing it back is [PostPipeline]. *)
From S2P Require Import Prelude.
From stdpp Require Import base numbers gmap list.
From Stdlib Require Import ZArith Lia.

(** ** Data

    A queued [postproc.Job]: the number of the push that queued it (its
    pointer), the download job it wraps ([Job.Job], nil for none) and its
    [JobID].  Every entry taken gets a context; [c_ctx] is its number. *)
Record entry : Type := mkEntry { e_uid : nat; e_rec : option nat; e_id : list Z }.
#[export] Instance entry_eq_dec : EqDecision entry.
Proof. solve_decision. Defined.

(** What the callbacks have been called with, in order. *)
Inductive call : Type :=
| OnJobDone (e : entry)
| OnJobCancelled (e : entry)
| OnEmpty.

(** Where the worker goroutine ([run]) stands. *)
Inductive wpc : Type :=
| WNone                              (* not started *)
| WTop                               (* at the head of the loop *)
| WPop                               (* in Pop, before tryPop *)
| WWait                              (* in Pop, at the select *)
| WStages (e : entry) (ctx : nat)    (* in processJob *)
| WReadJob (e : entry) (ctx : nat)   (* processJob has returned *)
| WReadWorker (e : entry) (jobCancelled : bool)
| WShutdown (e : entry)              (* before setBusyWithJob, shutdown *)
| WDropped (e : entry)               (* before setBusyWithJob, cancelled *)
| WCancelled (e : entry)             (* before onJobCancelled *)
| WFinished (e : entry)              (* before addHistory *)
| WUnbusy (e : entry)                (* before setBusyWithJob, finished *)
| WDone (e : entry)                  (* before onJobDone *)
| WEmpty                             (* before the queue is looked at *)
| WOnEmpty                           (* before onEmpty *)
| WExit.

(** Where a caller of [CancelJob] stands. *)
Inductive cpc : Type :=
| CBusy (j : nat) (removed : option entry)                  (* before busyMu *)
| CCancel (ctx : nat) (removed : option entry)              (* before cancel() *)
| CCall (removed : option entry).                           (* before the callback *)

Record pstate : Type := mkP {
  p_jobs : list entry;            (* ppQueue.jobs *)
  p_notify : bool;                (* notifyCh holds a token *)
  p_pushing : nat;                (* callers of Push between the append and notify *)
  p_started : bool;
  p_busy : bool;
  p_current : option (entry * nat);   (* currentJob and currentJobCancel *)
  p_worker_err : bool;            (* workerCtx.Err() != nil *)
  p_ctx_err : gset nat;           (* the job contexts that are cancelled *)
  p_next_ctx : nat;
  p_history : list entry;
  p_pc : wpc;
  p_cans : list cpc;
  p_calls : list call;
  p_pushed : nat;                 (* how many entries were pushed *)
  p_asked : list nat;             (* the download jobs CancelJob was called for *)
  p_kept : list entry             (* what a shutdown left for recovery *)
}.

Definition New : pstate := mkP [] false 0 false false None false ∅ 0 [] WNone [] [] 0 [] [].

Definition set_pc (pc : wpc) (s : pstate) : pstate :=
  mkP (p_jobs s) (p_notify s) (p_pushing s) (p_started s) (p_busy s) (p_current s) (p_worker_err s) (p_ctx_err s)
      (p_next_ctx s) (p_history s) pc (p_cans s) (p_calls s) (p_pushed s) (p_asked s) (p_kept s).
Definition set_jobs (l : list entry) (s : pstate) : pstate :=
  mkP l (p_notify s) (p_pushing s) (p_started s) (p_busy s) (p_current s) (p_worker_err s) (p_ctx_err s)
      (p_next_ctx s) (p_history s) (p_pc s) (p_cans s) (p_calls s) (p_pushed s) (p_asked s) (p_kept s).
Definition set_cans (l : list cpc) (s : pstate) : pstate :=
  mkP (p_jobs s) (p_notify s) (p_pushing s) (p_started s) (p_busy s) (p_current s) (p_worker_err s) (p_ctx_err s)
      (p_next_ctx s) (p_history s) (p_pc s) l (p_calls s) (p_pushed s) (p_asked s) (p_kept s).
Definition cancel_ctx (c : nat) (s : pstate) : pstate :=
  mkP (p_jobs s) (p_notify s) (p_pushing s) (p_started s) (p_busy s) (p_current s) (p_worker_err s) ({[ c ]} ∪ p_ctx_err s)
      (p_next_ctx s) (p_history s) (p_pc s) (p_cans s) (p_calls s) (p_pushed s) (p_asked s) (p_kept s).
Definition callback (c : call) (s : pstate) : pstate :=
  mkP (p_jobs s) (p_notify s) (p_pushing s) (p_started s) (p_busy s) (p_current s) (p_worker_err s) (p_ctx_err s)
      (p_next_ctx s) (p_history s) (p_pc s) (p_cans s) (p_calls s ++ [c]) (p_pushed s) (p_asked s) (p_kept s).

(** [Process]: the job is appended under [q.mu], and [notify] follows. *)
Definition Push (rec : option nat) (id : list Z) (s : pstate) : pstate :=
  mkP (p_jobs s ++ [mkEntry (p_pushed s) rec id]) (p_notify s) (S (p_pushing s)) (p_started s) (p_busy s) (p_current s)
      (p_worker_err s) (p_ctx_err s) (p_next_ctx s) (p_history s) (p_pc s) (p_cans s) (p_calls s) (S (p_pushed s)) (p_asked s)
      (p_kept s).

Definition notify (s : pstate) : pstate :=
  mkP (p_jobs s) true (pred (p_pushing s)) (p_started s) (p_busy s) (p_current s) (p_worker_err s) (p_ctx_err s)
      (p_next_ctx s) (p_history s) (p_pc s) (p_cans s) (p_calls s) (p_pushed s) (p_asked s) (p_kept s).

Definition setBusyWithJob (v : bool) (j : option (entry * nat)) (s : pstate) : pstate :=
  mkP (p_jobs s) (p_notify s) (p_pushing s) (p_started s) v j (p_worker_err s) (p_ctx_err s)
      (p_next_ctx s) (p_history s) (p_pc s) (p_cans s) (p_calls s) (p_pushed s) (p_asked s) (p_kept s).

(** [popJob]'s mark: a context that is a child of [workerCtx], cancelled at
    birth when [workerCtx] is, and the job published as in flight. *)
Definition mark (e : entry) (s : pstate) : pstate :=
  let c := p_next_ctx s in
  let s := mkP (p_jobs s) (p_notify s) (p_pushing s) (p_started s) (p_busy s) (p_current s) (p_worker_err s)
               (if p_worker_err s then {[ c ]} ∪ p_ctx_err s else p_ctx_err s)
               (S c) (p_history s) (p_pc s) (p_cans s) (p_calls s) (p_pushed s) (p_asked s) (p_kept s) in
  setBusyWithJob true (Some (e, c)) s.

Definition tryPop (s : pstate) : pstate * option (entry * nat) :=
  match p_jobs s with
  | [] => (s, None)
  | e :: rest => (mark e (set_jobs rest s), Some (e, p_next_ctx s))
  end.

Definition queue_empty (s : pstate) : bool := bool_decide (p_jobs s = []).

(** [PostProcessor.Empty], one critical section of both locks. *)
Definition Empty (s : pstate) : bool := queue_empty s && negb (p_busy s).

Definition HasJob (j : nat) (s : pstate) : bool :=
  existsb (fun e => bool_decide (e_rec e = Some j)) (p_jobs s)
  || match p_current s with
     | Some (e, _) => bool_decide (e_rec e = Some j)
     | None => false
     end.

Definition HasJobID (id : list Z) (s : pstate) : bool :=
  negb (bool_decide (id = []))
  && (existsb (fun e => bool_decide (e_id e = id)) (p_jobs s)
      || match p_current s with
         | Some (e, _) => bool_decide (e_id e = id)
         | None => false
         end).

(** [ppQueue.CancelJob]: the first entry that carries the job leaves the
    queue. *)
Fixpoint remove_first (j : nat) (l : list entry) : option (entry * list entry) :=
  match l with
  | [] => None
  | e :: rest =>
      if bool_decide (e_rec e = Some j) then Some (e, rest)
      else match remove_first j rest with
           | Some (x, rest') => Some (x, e :: rest')
           | None => None
           end
  end.

Definition ask (j : nat) (s : pstate) : pstate :=
  mkP (p_jobs s) (p_notify s) (p_pushing s) (p_started s) (p_busy s) (p_current s) (p_worker_err s) (p_ctx_err s)
      (p_next_ctx s) (p_history s) (p_pc s) (p_cans s) (p_calls s) (p_pushed s) (j :: p_asked s) (p_kept s).

(** [PostProcessor.CancelJob] as it starts: under [q.mu]. *)
Definition CancelJob_queue (j : nat) (s : pstate) : pstate :=
  let s := ask j s in
  match remove_first j (p_jobs s) with
  | Some (e, rest) => set_cans (p_cans s ++ [CBusy j (Some e)]) (set_jobs rest s)
  | None => set_cans (p_cans s ++ [CBusy j None]) s
  end.

(** Its second span, under [busyMu]: is the job the one in flight? *)
Definition CancelJob_busy (j : nat) (removed : option entry) (s : pstate) : cpc :=
  match p_current s with
  | Some (e, c) => if bool_decide (e_rec e = Some j) then CCancel c removed else CCall removed
  | None => CCall removed
  end.

Definition maxHistory : nat := 1000.

Definition addHistory (e : entry) (s : pstate) : pstate :=
  let h := p_history s ++ [e] in
  mkP (p_jobs s) (p_notify s) (p_pushing s) (p_started s) (p_busy s) (p_current s) (p_worker_err s) (p_ctx_err s)
      (p_next_ctx s) (drop (length h - maxHistory) h) (p_pc s) (p_cans s) (p_calls s) (p_pushed s) (p_asked s) (p_kept s).

(** [Start] and [Stop]'s call of [workerCancel]; the return of [Stop] waits
    for [WExit]. *)
Definition Start (s : pstate) : result unit pstate :=
  if p_started s then Err tt
  else Ok (mkP (p_jobs s) (p_notify s) (p_pushing s) true (p_busy s) (p_current s) false (p_ctx_err s)
              (p_next_ctx s) (p_history s) WTop (p_cans s) (p_calls s) (p_pushed s) (p_asked s) (p_kept s)).

Definition workerCancel (s : pstate) : pstate :=
  mkP (p_jobs s) (p_notify s) (p_pushing s) (p_started s) (p_busy s) (p_current s) true (p_ctx_err s)
      (p_next_ctx s) (p_history s) (p_pc s) (p_cans s) (p_calls s) (p_pushed s) (p_asked s) (p_kept s).

Definition keep (e : entry) (s : pstate) : pstate :=
  mkP (p_jobs s) (p_notify s) (p_pushing s) (p_started s) (p_busy s) (p_current s) (p_worker_err s) (p_ctx_err s)
      (p_next_ctx s) (p_history s) (p_pc s) (p_cans s) (p_calls s) (p_pushed s) (p_asked s) (p_kept s ++ [e]).

Definition take_token (s : pstate) : pstate :=
  mkP (p_jobs s) false (p_pushing s) (p_started s) (p_busy s) (p_current s) (p_worker_err s) (p_ctx_err s)
      (p_next_ctx s) (p_history s) (p_pc s) (p_cans s) (p_calls s) (p_pushed s) (p_asked s) (p_kept s).

(** One span of the worker.  [token] says which ready arm the [select] of
    [Pop] takes when the context is done and a token is there; [None] is a
    worker that cannot move. *)
Definition work (token : bool) (s : pstate) : option pstate :=
  match p_pc s with
  | WNone | WExit => None
  | WTop => Some (if p_worker_err s then set_pc WExit s else set_pc WPop s)
  | WPop =>
      match tryPop s with
      | (s', Some (e, c)) => Some (set_pc (WStages e c) s')
      | (s', None) => Some (set_pc WWait s')
      end
  | WWait =>
      if p_notify s && (token || negb (p_worker_err s)) then Some (set_pc WPop (take_token s))
      else if p_worker_err s then Some (set_pc WExit s)
      else None
  | WStages e c => Some (set_pc (WReadJob e c) s)
  | WReadJob e c => Some (set_pc (WReadWorker e (bool_decide (c ∈ p_ctx_err s))) s)
  | WReadWorker e jobCancelled =>
      if p_worker_err s then Some (set_pc (WShutdown e) s)
      else if jobCancelled then Some (set_pc (WDropped e) s)
      else Some (set_pc (WFinished e) s)
  | WShutdown e => Some (set_pc WExit (keep e (setBusyWithJob false None s)))
  | WDropped e => Some (set_pc (WCancelled e) (setBusyWithJob false None s))
  | WCancelled e => Some (set_pc WTop (callback (OnJobCancelled e) s))
  | WFinished e => Some (set_pc (WUnbusy e) (addHistory e s))
  | WUnbusy e => Some (set_pc (WDone e) (setBusyWithJob false None s))
  | WDone e => Some (set_pc WEmpty (callback (OnJobDone e) s))
  | WEmpty => Some (if queue_empty s then set_pc WOnEmpty s else set_pc WTop s)
  | WOnEmpty => Some (set_pc WTop (callback OnEmpty s))
  end.

(** One span of the [i]-th caller of [CancelJob]. *)
Definition cancel_work (i : nat) (s : pstate) : option pstate :=
  match p_cans s !! i with
  | Some (CBusy j removed) => Some (set_cans (<[i := CancelJob_busy j removed s]> (p_cans s)) s)
  | Some (CCancel c removed) => Some (set_cans (<[i := CCall removed]> (p_cans s)) (cancel_ctx c s))
  | Some (CCall removed) =>
      let s := set_cans (base.delete i (p_cans s)) s in
      Some (match removed with Some e => callback (OnJobCancelled e) s | None => s end)
  | None => None
  end.

(** The interleavings.  A context cancelled through its parent shows its
    error only after the parent does, so the propagation is a step of its
    own. *)
Inductive step (s : pstate) : pstate -> Prop :=
| SPush rec id : step s (Push rec id s)
| SNotify : p_pushing s <> 0 -> step s (notify s)
| SStart s' : Start s = Ok s' -> step s s'
| SStop : p_started s = true -> step s (workerCancel s)
| SPropagate e c : p_worker_err s = true -> p_current s = Some (e, c) -> step s (cancel_ctx c s)
| SCancel j : step s (CancelJob_queue j s)
| SCanceller i s' : cancel_work i s = Some s' -> step s s'
| SWork token s' : work token s = Some s' -> step s s'.

Inductive reachable : pstate -> Prop :=
| reach_new : reachable New
| reach_step s s' : reachable s -> step s s' -> reachable s'.
