(* ===== verification/PostEngineProps.v ===== *)
(** * Every job handed to the post-processor is answered once

    Properties of [PostEngine], over every interleaving of the callers of
    [Process], [CancelJob], [Stop] and the worker. *)
From S2P Require Import Prelude PostEngine.
From stdpp Require Import base numbers gmap list.
From Stdlib Require Import ZArith Lia.

(** ** Where an entry can be *)

(** What the worker holds between taking a job and the callback's return. *)
Definition held (pc : wpc) : list entry :=
  match pc with
  | WStages e _ | WReadJob e _ | WReadWorker e _ | WShutdown e | WDropped e | WCancelled e | WFinished e | WUnbusy e | WDone e => [e]
  | _ => []
  end.

(** What a caller of [CancelJob] removed and has not handed back yet. *)
Definition removed_by (c : cpc) : list entry :=
  match c with
  | CBusy _ (Some e) | CCancel _ (Some e) | CCall (Some e) => [e]
  | _ => []
  end.

Definition answer (c : call) : list entry :=
  match c with
  | OnJobDone e | OnJobCancelled e => [e]
  | OnEmpty => []
  end.

Definition everything (s : pstate) : list entry :=
  p_jobs s ++ held (p_pc s) ++ concat (removed_by <$> p_cans s) ++ concat (answer <$> p_calls s) ++ p_kept s.

(** The worker runs stages for [e], or has not published that it stopped. *)
Definition in_flight (pc : wpc) : list entry :=
  match pc with
  | WStages e _ | WReadJob e _ | WReadWorker e _ | WShutdown e | WDropped e | WFinished e | WUnbusy e => [e]
  | _ => []
  end.

Definition ctx_of (pc : wpc) : option nat :=
  match pc with
  | WStages _ c | WReadJob _ c => Some c
  | _ => None
  end.

Definition asked_for (s : pstate) (e : entry) : Prop := exists j, e_rec e = Some j /\ j ∈ p_asked s.

(** ** The invariant *)
Record engine_wf (s : pstate) : Prop := {
  wf_current : fst <$> p_current s = head (in_flight (p_pc s));
  wf_busy : p_busy s = bool_decide (in_flight (p_pc s) <> []);
  wf_ctx : forall c, ctx_of (p_pc s) = Some c -> snd <$> p_current s = Some c;
  wf_fresh : (forall c, c ∈ p_ctx_err s -> c < p_next_ctx s) /\ (forall c r, CCancel c r ∈ p_cans s -> c < p_next_ctx s)
             /\ (forall e c, p_current s = Some (e, c) -> c < p_next_ctx s);
  wf_why : forall e c, p_current s = Some (e, c) -> c ∈ p_ctx_err s \/ (exists r, CCancel c r ∈ p_cans s) ->
           p_worker_err s = true \/ asked_for s e;
  wf_read : forall e, p_pc s = WReadWorker e true -> p_worker_err s = true \/ asked_for s e;
  wf_asked : forall e, p_pc s = WDropped e \/ p_pc s = WCancelled e \/ e ∈ concat (removed_by <$> p_cans s)
             \/ OnJobCancelled e ∈ p_calls s -> asked_for s e;
  wf_reqs : forall j r, CBusy j r ∈ p_cans s -> j ∈ p_asked s;
  wf_kept : p_kept s <> [] \/ (exists e, p_pc s = WShutdown e) \/ p_pc s = WExit -> p_worker_err s = true;
  wf_started : p_pc s = WNone \/ p_started s = true;
  wf_running : p_started s = true -> p_pc s <> WNone;
  wf_err : p_worker_err s = true -> p_started s = true;
  wf_wakeup : p_pc s = WWait -> p_jobs s <> [] -> p_notify s = true \/ p_pushing s <> 0
}.

Lemma remove_first_Some j l e rest : remove_first j l = Some (e, rest) ->
  e_rec e = Some j /\ exists a b, l = a ++ e :: b /\ rest = a ++ b.
Proof.
  revert rest. induction l as [|x l IH]; intros rest H; simpl in H; [done|]. case_bool_decide as Hx.
  - simplify_eq. split; [done|]. by exists [], rest.
  - destruct (remove_first j l) as [[y r]|] eqn:Hr; [|done]. simplify_eq.
    destruct (IH _ eq_refl) as (He & a & b & -> & ->). split; [done|]. by exists (x :: a), b.
Qed.

Lemma concat_insert {A B} (f : A -> list B) l i x y : l !! i = Some x -> f x = f y -> concat (f <$> <[i := y]> l) = concat (f <$> l).
Proof.
  revert i. induction l as [|a l IH]; intros [|i] H E; simplify_eq/=; [by rewrite E|]. by rewrite (IH i).
Qed.

Lemma concat_delete {A B} (f : A -> list B) l i x : l !! i = Some x -> concat (f <$> l) ≡ₚ f x ++ concat (f <$> base.delete i l).
Proof.
  revert i. induction l as [|a l IH]; intros [|i] H; simplify_eq/=; [done|]. rewrite (IH i) by done. solve_Permutation.
Qed.

Lemma asked_mono s s' e : (forall j, j ∈ p_asked s -> j ∈ p_asked s') -> asked_for s e -> asked_for s' e.
Proof. intros H (j & Hj & Hin). exists j. auto. Qed.

(** ** Each entry in one place *)
Lemma everything_step s s' : p_pc s = WNone \/ p_started s = true -> step s s' -> (e_uid <$> everything s) ≡ₚ seq 0 (p_pushed s) -> (e_uid <$> everything s') ≡ₚ seq 0 (p_pushed s').
Proof.
  intros Hst Hs Hp.
  assert (forall k l, everything s' ≡ₚ l ++ everything s -> p_pushed s' = k + p_pushed s -> e_uid <$> l = seq (p_pushed s) k ->
          e_uid <$> everything s' ≡ₚ seq 0 (p_pushed s')) as Hsame.
  { intros k l E Ep El. rewrite E, fmap_app, Hp, El, Ep, (Nat.add_comm k), seq_app. simpl. solve_Permutation. }
  destruct Hs as [rec id| |s' H| |e c _ _|j|i s' H|token s' H].
  - apply (Hsame 1 [mkEntry (p_pushed s) rec id]); [|done|done]. unfold everything. simpl. solve_Permutation.
  - by apply (Hsame 0 []).
  - unfold Start in H. case_match; [done|]. simplify_eq. destruct Hst as [Hpc|]; [|congruence].
    apply (Hsame 0 []); [|done|done]. unfold everything. simpl. by rewrite Hpc.
  - by apply (Hsame 0 []).
  - by apply (Hsame 0 []).
  - apply (Hsame 0 []); [|unfold CancelJob_queue; by repeat case_match|done]. unfold CancelJob_queue, everything. simpl.
    destruct (remove_first j (p_jobs s)) as [[e rest]|] eqn:Hr; simpl.
    + apply remove_first_Some in Hr as (_ & a & b & Hj & ->). rewrite Hj, fmap_app, concat_app. simpl. solve_Permutation.
    + rewrite fmap_app, concat_app. simpl. by rewrite app_nil_r.
  - unfold cancel_work in H. destruct (p_cans s !! i) as [[j r|c r|r]|] eqn:Hi; [| | |done]; simplify_eq.
    + apply (Hsame 0 []); [|done|done]. unfold everything. simpl. rewrite (concat_insert _ _ _ _ _ Hi); [done|].
      unfold CancelJob_busy. destruct (p_current s) as [[? ?]|]; [case_bool_decide|]; done.
    + apply (Hsame 0 []); [|done|done]. unfold everything. simpl. by rewrite (concat_insert _ _ _ _ _ Hi).
    + apply (Hsame 0 []); [|by destruct r|done]. unfold everything. destruct r as [e|]; simpl.
      * rewrite (concat_delete _ _ _ _ Hi), fmap_app, concat_app. simpl. solve_Permutation.
      * by rewrite (concat_delete _ _ _ _ Hi).
  - apply (Hsame 0 []).
    + unfold work in H. unfold everything.
      destruct (p_pc s) eqn:Hpc; try done; unfold tryPop in H; repeat case_match; simplify_eq; simpl;
        rewrite ?fmap_app, ?concat_app; simpl; try solve_Permutation.
      all: match goal with E : p_jobs ?x = _ |- _ => rewrite E; simpl; solve_Permutation end.
    + unfold work, tryPop in H. repeat case_match; by simplify_eq.
    + done.
Qed.

(** ** The steps keep the invariant *)
Lemma New_wf : engine_wf New.
Proof. split; simpl; try done; try (intros; set_solver); intros; naive_solver. Qed.

Lemma asked_cancel j s e : asked_for s e -> asked_for (CancelJob_queue j s) e.
Proof. apply asked_mono. unfold CancelJob_queue. intros k Hk. repeat case_match; simpl; set_solver. Qed.

Lemma in_delete {A B} (f : A -> list B) l i x : x ∈ concat (f <$> base.delete i l) -> x ∈ concat (f <$> l).
Proof.
  intros H. apply list_elem_of_In, in_concat in H as (y & Hy & Hx). apply list_elem_of_In, in_concat. exists y. split; [|done].
  apply list_elem_of_In. apply list_elem_of_In, list_elem_of_fmap in Hy as (z & -> & Hz). apply list_elem_of_fmap_2.
  apply list_elem_of_lookup in Hz as (k & Hk). rewrite list_lookup_delete in Hk. case_decide; eauto using list_elem_of_lookup_2.
Qed.

Lemma in_insert {A} (l : list A) i x y z : l !! i = Some x -> z ∈ <[i := y]> l -> z = y \/ z ∈ l.
Proof. intros _ H. apply list_elem_of_lookup in H as (k & Hk). apply list_lookup_insert_Some in Hk as [(-> & -> & _)|[_ Hk]]; eauto using list_elem_of_lookup_2. Qed.

Lemma busy_removed j r s : removed_by (CBusy j r) = removed_by (CancelJob_busy j r s).
Proof. unfold CancelJob_busy. destruct (p_current s) as [[? ?]|]; [case_bool_decide|]; done. Qed.

Lemma in_removed (c : cpc) l e : c ∈ l -> e ∈ removed_by c -> e ∈ concat (removed_by <$> l).
Proof.
  intros Hc He. apply list_elem_of_In, in_concat. exists (removed_by c).
  split; apply list_elem_of_In; [by apply list_elem_of_fmap_2|done].
Qed.

Lemma canceller_wf s i s' : engine_wf s -> cancel_work i s = Some s' -> engine_wf s'.
Proof.
  intros W H. destruct W as [W1 W2 W3 (F1 & F2 & F3) W4 W5 W6 W7 W8 W9 W10 WR WE]. unfold cancel_work in H.
  destruct (p_cans s !! i) as [c|] eqn:Hi; [|done]. pose proof (list_elem_of_lookup_2 _ _ _ Hi) as Hin.
  pose proof (fun e => in_removed c _ e Hin) as Hrem.
  destruct c as [j r|c r|r]; simplify_eq.
  - assert (forall c' r', CCancel c' r' ∈ <[i := CancelJob_busy j r s]> (p_cans s) ->
      CCancel c' r' ∈ p_cans s \/ exists e, p_current s = Some (e, c') /\ asked_for s e) as Hnew.
    { intros c' r' Hc. apply (in_insert _ _ _ _ _ Hi) in Hc as [Hc|Hc]; [|by left]. right.
      unfold CancelJob_busy in Hc. destruct (p_current s) as [[e c]|]; [|done]. case_bool_decide; simplify_eq.
      exists e. split; [done|]. exists j. eauto. }
    split; simpl; try done.
    + split; [done|]. split; [|done]. intros c' r' Hc. destruct (Hnew _ _ Hc) as [|(e & He & _)]; eauto.
    + intros e c He [Hc|(r' & Hc)]; [by apply (W4 e c); auto|].
      destruct (Hnew _ _ Hc) as [|(e' & He' & Ha)]; [apply (W4 e c); eauto|]. right. by simplify_eq.
    + intros e He. apply W6. rewrite (concat_insert _ _ _ _ _ Hi) in He by apply busy_removed. done.
    + intros j' r' Hc. apply (in_insert _ _ _ _ _ Hi) in Hc as [Hc|Hc]; [|eauto]. unfold CancelJob_busy in Hc.
      destruct (p_current s) as [[e c]|]; [case_bool_decide|]; done.
  - split; simpl; try done.
    + split; [|split; [|done]].
      * intros c' Hc. apply elem_of_union in Hc as [Hc|Hc]; [|eauto]. apply elem_of_singleton in Hc as ->. eauto.
      * intros c' r' Hc. apply (in_insert _ _ _ _ _ Hi) in Hc as [Hc|Hc]; [done|eauto].
    + intros e c' He [Hc|(r' & Hc)].
      * apply elem_of_union in Hc as [Hc|Hc]; [|apply (W4 e c'); eauto]. apply elem_of_singleton in Hc as ->. apply (W4 e c); eauto.
      * apply (in_insert _ _ _ _ _ Hi) in Hc as [Hc|Hc]; [done|]. apply (W4 e c'); eauto.
    + intros e He. apply W6. rewrite (concat_insert _ _ _ _ _ Hi) in He by done. done.
    + intros j' r' Hc. apply (in_insert _ _ _ _ _ Hi) in Hc as [Hc|Hc]; [done|eauto].
  - assert (engine_wf (set_cans (base.delete i (p_cans s)) s)) as Hw.
    { assert (forall c, c ∈ base.delete i (p_cans s) -> c ∈ p_cans s) as Hsub.
      { intros c Hc. apply list_elem_of_lookup in Hc as (k & Hk). rewrite list_lookup_delete in Hk.
        case_decide; eauto using list_elem_of_lookup_2. }
      split; simpl; try done.
      - eauto 6.
      - intros e c He Hc. apply (W4 e c); [done|]. destruct Hc as [|(r' & ?)]; eauto.
      - intros e He. apply W6. destruct He as [|[|[He|]]]; eauto. apply in_delete in He. eauto.
      - eauto. }
    destruct r as [e|]; [|done]. destruct Hw as [V1 V2 V3 V4 V5 V6 V7 V8 V9 V10 VR VE V11]. split; try done.
    intros e' He. simpl in He. rewrite elem_of_app, list_elem_of_singleton in He.
    destruct He as [|[|[|[He|He]]]]; try (apply V7; by eauto). simplify_eq. apply W6. right. right. left. apply Hrem. simpl. set_solver.
Qed.

(** The spans that only move the worker, or record a callback. *)
Lemma move_wf s pc : engine_wf s -> in_flight pc = in_flight (p_pc s) -> ctx_of pc = None \/ ctx_of pc = ctx_of (p_pc s) ->
  (forall e, pc = WReadWorker e true -> p_worker_err s = true \/ asked_for s e) ->
  (forall e, pc = WDropped e \/ pc = WCancelled e -> asked_for s e) ->
  (forall e, pc = WShutdown e -> p_worker_err s = true) -> (pc = WExit -> p_worker_err s = true) -> pc <> WNone -> p_started s = true ->
  (pc = WWait -> p_jobs s = []) -> engine_wf (set_pc pc s).
Proof.
  intros [W1 W2 W3 W4 W5 W6 W7 W8 W9 W10 WR WE W11] Hf Hc Hr Ha Hk Hx Hn Hs Hw. split; simpl; try done.
  - by rewrite Hf.
  - by rewrite Hf.
  - destruct Hc as [Hc|Hc]; rewrite Hc; [done|exact W3].
  - intros e [H|[H|[H|H]]]; [apply Ha|apply Ha|apply W7|apply W7]; auto.
  - intros [H|[(e & H)|H]]; [apply W9; by left|by eapply Hk|by apply Hx].
  - by right.
  - intros E Hj. exfalso. apply Hj, Hw, E.
Qed.

Lemma callback_wf s c : engine_wf s -> (forall e, c = OnJobCancelled e -> asked_for s e) -> engine_wf (callback c s).
Proof.
  intros [W1 W2 W3 W4 W5 W6 W7 W8 W9 W10 WR WE W11] Hc. split; simpl; try done.
  intros e He. rewrite elem_of_app, list_elem_of_singleton in He.
  destruct He as [|[|[|[He|He]]]]; try (apply W7; by eauto). by apply Hc.
Qed.

(** A worker that publishes that it stopped has nothing in flight. *)
Lemma unbusy_wf s pc : engine_wf s -> in_flight pc = [] -> ctx_of pc = None ->
  (forall e b, pc <> WReadWorker e b) -> (forall e, pc <> WShutdown e) -> (pc = WExit -> p_worker_err s = true) -> pc <> WNone -> pc <> WWait ->
  (forall e, pc = WDropped e \/ pc = WCancelled e -> asked_for s e) -> p_started s = true ->
  engine_wf (set_pc pc (setBusyWithJob false None s)).
Proof.
  intros [W1 W2 W3 (F1 & F2 & F3) W5 W6 W7 W8 W9 W10 WR WE W11] Hf Hc Hn1 Hn2 Hx Hn4 Hn3 Ha Hs. split; simpl; try done.
  - by rewrite Hf.
  - by rewrite Hf.
  - by rewrite Hc.
  - intros e H. by destruct (Hn1 e true).
  - intros e [H|[H|[H|H]]]; [apply Ha|apply Ha|apply W7|apply W7]; auto.
  - intros [H|[(e & H)|H]]; [apply W9; by left|by destruct (Hn2 e)|by apply Hx].
  - by right.
Qed.

Lemma pop_wf s e rest : engine_wf s -> p_pc s = WPop -> p_jobs s = e :: rest -> 
  engine_wf (set_pc (WStages e (p_next_ctx s)) (mark e (set_jobs rest s))).
Proof.
  intros [W1 W2 W3 (F1 & F2 & F3) W5 W6 W7 W8 W9 W10 WR WE W11] Hpc Hj. split; simpl; try done.
  - split; [|split].
    + intros c Hc. assert (c = p_next_ctx s \/ c ∈ p_ctx_err s) as [->|Hc'] by (destruct (p_worker_err s); set_solver); [lia|].
      specialize (F1 c Hc'). lia.
    + intros c r Hc. specialize (F2 c r Hc). lia.
    + intros e' c ?. simplify_eq. lia.
  - intros e' c ? Hc. simplify_eq. destruct (p_worker_err s) eqn:Hw; [by left|]. exfalso.
    destruct Hc as [Hc|(r & Hc)]; [apply F1 in Hc|apply F2 in Hc]; lia.
  - intros e' [H|[H|H]]; [done|done|by apply W7; auto].
  - intros [H|[(e' & H)|H]]; [|done..]. by apply W9; left.
  - right. destruct W10 as [H|H]; [congruence|done].
Qed.

(** The side conditions of the three lemmas, by the shape of the counters. *)
Local Ltac pc_side :=
  intros; repeat match goal with
  | H : _ \/ _ |- _ => destruct H
  | H : ?a = ?b |- _ => first [discriminate H | is_var a; fail 1 | injection H as ->; subst]
  end; try congruence; try done; auto.

Lemma work_wf token s s' : engine_wf s -> work token s = Some s' -> engine_wf s'.
Proof.
  intros W H. pose proof W as [W1 W2 W3 (F1 & F2 & F3) W5 W6 W7 W8 W9 W10 WR WE W11]. unfold work in H.
  assert (p_pc s <> WNone -> p_started s = true) as Hst by (destruct W10; done).
  destruct (p_pc s) eqn:Hpc; try done; assert (p_started s = true) as Hs by (by apply Hst).
  - simplify_eq. destruct (p_worker_err s) eqn:Hw; apply move_wf; rewrite ?Hpc; pc_side.
  - unfold tryPop in H. destruct (p_jobs s) as [|e rest] eqn:Hj; simplify_eq.
    + apply move_wf; rewrite ?Hpc; pc_side.
    + by apply pop_wf.
  - assert (engine_wf (set_pc WPop s)) as Hm by (apply move_wf; rewrite ?Hpc; pc_side).
    case_match; simplify_eq; [|case_match; simplify_eq; apply move_wf; rewrite ?Hpc; pc_side].
    destruct Hm as [V1 V2 V3 V4 V5 V6 V7 V8 V9 V10 VR VE V11]. by split.
  - simplify_eq. apply move_wf; rewrite ?Hpc; pc_side.
  - simplify_eq. apply move_wf; rewrite ?Hpc; try (by pc_side). intros e' Heq. simplify_eq.
    assert (c' : ctx ∈ p_ctx_err s) by (by apply (bool_decide_eq_true_1 (ctx ∈ p_ctx_err s))).
    specialize (W3 ctx eq_refl). destruct (p_current s) as [[e c]|]; simplify_eq/=.
    apply (W5 e' ctx); auto.
  - destruct (p_worker_err s) eqn:Hw; simplify_eq.
    + apply move_wf; rewrite ?Hpc; pc_side.
    + destruct jobCancelled; simplify_eq; apply move_wf; rewrite ?Hpc; try (by pc_side).
      intros e' [?|?]; simplify_eq. by destruct (W6 e' eq_refl).
  - simplify_eq. assert (p_worker_err s = true) as Hw by (apply W9; eauto).
    assert (engine_wf (set_pc WExit (setBusyWithJob false None s))) as Hm by (apply unbusy_wf; pc_side).
    destruct Hm as [V1 V2 V3 V4 V5 V6 V7 V8 V9 V10 VR VE V11]. by split.
  - simplify_eq. apply unbusy_wf; pc_side.
  - simplify_eq. assert (engine_wf (callback (OnJobCancelled e) s)) as Hm.
    { apply callback_wf; [done|]. intros e' ?. simplify_eq. apply W7. auto. }
    apply move_wf; simpl; rewrite ?Hpc; pc_side.
  - simplify_eq. assert (engine_wf (set_pc (WUnbusy e) s)) as Hm by (apply move_wf; rewrite ?Hpc; pc_side).
    destruct Hm as [V1 V2 V3 V4 V5 V6 V7 V8 V9 V10 VR VE V11]. by split.
  - simplify_eq. apply unbusy_wf; pc_side.
  - simplify_eq. assert (engine_wf (callback (OnJobDone e) s)) as Hm by (apply callback_wf; done).
    apply move_wf; simpl; rewrite ?Hpc; pc_side.
  - simplify_eq. destruct (queue_empty s); apply move_wf; rewrite ?Hpc; pc_side.
  - simplify_eq. assert (engine_wf (callback OnEmpty s)) as Hm by (apply callback_wf; done).
    apply move_wf; simpl; rewrite ?Hpc; pc_side.
Qed.

Lemma cancel_wf j s : engine_wf s -> engine_wf (CancelJob_queue j s).
Proof.
  intros [W1 W2 W3 (F1 & F2 & F3) W5 W6 W7 W8 W9 W10 WR WE W11].
  assert (exists r rest, CancelJob_queue j s = set_cans (p_cans s ++ [CBusy j r]) (set_jobs rest (ask j s))
    /\ (rest <> [] -> p_jobs s <> []) /\ (forall e, r = Some e -> e_rec e = Some j)) as (r & rest & -> & Hj & Hr).
  { unfold CancelJob_queue. simpl. destruct (remove_first j (p_jobs s)) as [[e rest]|] eqn:Hr.
    - apply remove_first_Some in Hr as (He & a & b & Hj & ->). exists (Some e), (a ++ b). split; [done|].
      split; [rewrite Hj; by destruct a|]. intros e' ?. by simplify_eq.
    - by exists None, (p_jobs s). }
  assert (forall c r', CCancel c r' ∈ p_cans s ++ [CBusy j r] -> CCancel c r' ∈ p_cans s) as Hin.
  { intros c r' Hc. apply elem_of_app in Hc as [|Hc]; [done|]. by apply list_elem_of_singleton in Hc. }
  assert (forall e, asked_for s e -> asked_for (set_cans (p_cans s ++ [CBusy j r]) (set_jobs rest (ask j s))) e) as Ha.
  { intros e. apply asked_mono. simpl. set_solver. }
  split; simpl; try done.
  - eauto 6.
  - intros e c He Hc. destruct (W5 e c He) as [|]; [|by left|right; by apply Ha]. destruct Hc as [|(r' & ?)]; eauto.
  - intros e He. destruct (W6 e He); auto.
  - intros e He. rewrite fmap_app, concat_app, elem_of_app in He. destruct He as [H|[H|[[H|H]|H]]]; try (apply Ha, W7; by auto).
    destruct r as [e'|]; simpl in H; [|by apply elem_of_nil in H]. apply list_elem_of_singleton in H as ->.
    exists j. split; [by apply Hr|]. simpl. set_solver.
  - intros j' r' Hc. apply elem_of_app in Hc as [Hc|Hc]; [apply W8 in Hc; set_solver|].
    apply list_elem_of_singleton in Hc. simplify_eq. set_solver.
  - intros E Hne. apply W11; auto.
Qed.

Lemma step_wf s s' : engine_wf s -> step s s' -> engine_wf s'.
Proof.
  intros W Hs. pose proof W as [W1 W2 W3 (F1 & F2 & F3) W5 W6 W7 W8 W9 W10 WR WE W11].
  destruct Hs as [rec id|Hn|s' H|Hst|e c Hw Hc|j|i s' H|token s' H].
  - split; simpl; try done. intros. right. lia.
  - split; simpl; try done. by left.
  - unfold Start in H. destruct (p_started s) eqn:Hst; [done|]. destruct W10 as [Hpc|]; [|congruence]. simplify_eq.
    rewrite Hpc in *. split; simpl; try done.
    + intros e c He. simpl in W1. by rewrite He in W1.
    + intros e [?|[?|[?|?]]]; try done; apply W7; auto.
    + intros [H|[(e & H)|H]]; [|done..]. exfalso. enough (false = true) by done. by apply WE, W9; left.
    + by right.
  - split; simpl; try done; by auto.
  - split; simpl; try done.
    + split; [|done]. intros c' Hc'. apply elem_of_union in Hc' as [Hc'|Hc']; [|eauto]. apply elem_of_singleton in Hc' as ->. eauto.
    + auto.
  - by apply cancel_wf.
  - by eapply canceller_wf.
  - by eapply work_wf.
Qed.

Lemma reachable_wf s : reachable s -> engine_wf s /\ (e_uid <$> everything s) ≡ₚ seq 0 (p_pushed s).
Proof.
  induction 1 as [|s s' _ [W P] Hs]; [split; [apply New_wf|done]|].
  split; [by eapply step_wf|]. eapply everything_step; [|done|done]. apply W.
Qed.

(** ** The properties *)

(** *** The worker alone *)
Fixpoint run_alone (n : nat) (s : pstate) : pstate :=
  match n with
  | O => s
  | S k => match work true s with
           | Some s' => run_alone k s'
           | None => s
           end
  end.

Definition rank (pc : wpc) : nat :=
  match pc with
  | WWait | WNone | WExit => 0
  | WPop => 1
  | WTop => 2
  | WOnEmpty => 3
  | WEmpty => 4
  | WDone _ | WCancelled _ => 5
  | WUnbusy _ | WDropped _ | WShutdown _ => 6
  | WFinished _ => 7
  | WReadWorker _ _ => 8
  | WReadJob _ _ => 9
  | WStages _ _ => 10
  end.

Definition distance (s : pstate) : nat := 12 * length (p_jobs s) + (if p_notify s then 2 else 0) + rank (p_pc s).

Lemma work_alone s s' : p_worker_err s = false -> work true s = Some s' ->
  p_worker_err s' = false /\ p_started s' = p_started s /\ p_pushing s' = p_pushing s /\ p_cans s' = p_cans s
  /\ p_pushed s' = p_pushed s /\ distance s' < distance s.
Proof.
  unfold work, distance. intros He H.
  destruct (p_pc s) eqn:Hpc; try done; unfold tryPop in H; repeat case_match; simplify_eq; simpl; rewrite ?He in *; try done;
    repeat (split; [done|]); simpl in *; try lia.
  all: repeat match goal with E : p_jobs _ = _ |- _ => rewrite E end; simpl; try lia.
  all: destruct (p_notify _); simpl in *; try done; lia.
Qed.

Lemma run_alone_reachable n : forall s, reachable s -> reachable (run_alone n s).
Proof.
  induction n as [|n IH]; intros s H; [done|]. simpl. destruct (work true s) as [s'|] eqn:Hw; [|done].
  apply IH. eapply reach_step; [done|]. by eapply SWork.
Qed.

Lemma run_alone_stops n : forall s, distance s <= n -> p_worker_err s = false ->
  let s' := run_alone n s in
  work true s' = None /\ p_worker_err s' = false /\ p_started s' = p_started s /\ p_pushing s' = p_pushing s
  /\ p_cans s' = p_cans s /\ p_pushed s' = p_pushed s.
Proof.
  induction n as [|n IH]; intros s Hd He; simpl.
  - split; [|done]. destruct (work true s) as [s'|] eqn:Hw; [|done]. apply work_alone in Hw; [lia|done].
  - destruct (work true s) as [s'|] eqn:Hw; [|done]. apply work_alone in Hw as (E1 & E2 & E3 & E4 & E5 & Hlt); [|done].
    destruct (IH s') as (R1 & R2 & R3 & R4 & R5 & R6); [lia|done|]. rewrite R3, R4, R5, R6. done.
Qed.

(** C30: whatever the callers of [Process], [CancelJob] and [Stop] do, every
    pushed job is in exactly one place: waiting, with the worker, with the
    caller of [CancelJob] that took it out of the queue, handed to exactly
    one of [OnJobDone] and [OnJobCancelled] exactly once, or left for
    recovery.  [OnJobCancelled] is only called for a job [CancelJob] was
    called for, so a shutdown never passes for a cancellation, and only a
    shutdown leaves a job for recovery. *)
Theorem every_job_answered_once s :
  reachable s ->
  (e_uid <$> everything s) ≡ₚ seq 0 (p_pushed s)
  /\ (forall e, OnJobCancelled e ∈ p_calls s -> exists j, e_rec e = Some j /\ j ∈ p_asked s)
  /\ (p_kept s <> [] -> p_worker_err s = true).
Proof.
  intros H. destruct (reachable_wf _ H) as [W P]. split; [done|]. split.
  - intros e He. apply (wf_asked _ W). auto.
  - intros Hk. apply (wf_kept _ W). by left.
Qed.

(** A job is visible from the moment it is pushed until the worker is
    done with it: [HasJob] reports every job that waits or is in flight, and
    [Empty] holds exactly when no job waits and none is in flight.  There is
    no moment between the two in which a job is in neither. *)
Theorem jobs_stay_visible s :
  reachable s ->
  (forall e j, e ∈ p_jobs s ++ in_flight (p_pc s) -> e_rec e = Some j -> HasJob j s = true)
  /\ (PostEngine.Empty s = true <-> p_jobs s = [] /\ in_flight (p_pc s) = []).
Proof.
  intros H. destruct (reachable_wf _ H) as [W _]. split.
  - intros e j He Hj. unfold HasJob. apply orb_true_iff. apply elem_of_app in He as [He|He].
    + left. apply existsb_exists. exists e. split; [by apply list_elem_of_In|]. by apply bool_decide_eq_true.
    + right. pose proof (wf_current _ W) as Hc. destruct (p_pc s); simpl in He; try (by apply elem_of_nil in He);
        apply list_elem_of_singleton in He as ->; simpl in Hc; destruct (p_current s) as [[e' c]|]; simplify_eq/=;
        by apply bool_decide_eq_true.
  - unfold PostEngine.Empty, queue_empty. rewrite (wf_busy _ W), andb_true_iff, negb_true_iff, bool_decide_eq_true, bool_decide_eq_false.
    destruct (in_flight (p_pc s)); naive_solver.
Qed.

(** C31: no wakeup is lost and nothing starves.  From any moment at which
    the worker is running, not shut down, and no call of [Process] is half
    way, the worker on its own reaches, within [distance] spans, an empty
    queue at the select of [Pop], with every job pushed so far answered or in
    the hands of a caller of [CancelJob]. *)
Theorem worker_drains_the_queue s :
  reachable s -> p_started s = true -> p_worker_err s = false -> p_pushing s = 0 ->
  let s' := run_alone (distance s) s in
  p_jobs s' = [] /\ p_pc s' = WWait
  /\ (e_uid <$> concat (removed_by <$> p_cans s) ++ concat (answer <$> p_calls s')) ≡ₚ seq 0 (p_pushed s).
Proof.
  intros H Hst He Hp s'.
  destruct (run_alone_stops (distance s) s) as (Hw & E1 & E2 & E3 & E4 & E5); [lia|done|]. fold s' in Hw, E1, E2, E3, E4, E5.
  destruct (reachable_wf _ (run_alone_reachable (distance s) _ H)) as [W P]. fold s' in W, P.
  rewrite Hst in E2. rewrite Hp in E3.
  assert (p_pc s' = WWait /\ p_notify s' = false) as [Hpc Hn].
  { unfold work in Hw. rewrite E1 in Hw. destruct (p_pc s') eqn:Hpc; try done.
    - by destruct (wf_running _ W).
    - by destruct (tryPop s') as [? [[? ?]|]].
    - by destruct (p_notify s').
    - by destruct jobCancelled.
    - pose proof (wf_kept _ W) as Hk. rewrite E1 in Hk. by discriminate Hk; auto. }
  assert (p_jobs s' = []) as Hj.
  { destruct (p_jobs s') eqn:Hj; [done|]. destruct (wf_wakeup _ W) as [|]; [done|by rewrite Hj|congruence|lia]. }
  split; [done|]. split; [done|]. rewrite <- E4, <- E5, <- P. unfold everything. rewrite Hj, Hpc. simpl.
  assert (p_kept s' = []) as ->; [|by rewrite app_nil_r].
  destruct (p_kept s') eqn:Hk; [done|]. pose proof (wf_kept _ W) as Hk'. rewrite E1, Hk in Hk'. by discriminate Hk'; left.
Qed.

(** ** Witnesses

    Three jobs are pushed; the second is cancelled while it waits, and the
    first while its stages run. *)
Definition ex_pushed : pstate := notify (Push (Some 9) [67%Z] (notify (Push (Some 8) [66%Z] (notify (Push (Some 7) [65%Z] New))))).

Lemma ex_pushed_reachable : reachable ex_pushed.
Proof.
  repeat lazymatch goal with
  | |- reachable New => apply reach_new
  | |- reachable (notify ?s) => apply (reach_step s); [|apply SNotify; discriminate]
  | |- reachable (Push ?r ?i ?s) => apply (reach_step s); [|apply SPush]
  | |- reachable ex_pushed => unfold ex_pushed
  end.
Qed.

Definition ex_started : pstate := match Start ex_pushed with Ok s => s | Err _ => New end.

(** The worker has taken the first job; both cancellations are under way. *)
Definition ex_cancelling : pstate := CancelJob_queue 7 (CancelJob_queue 8 (run_alone 2 ex_started)).

Definition canceller (i : nat) (s : pstate) : pstate := match cancel_work i s with Some s' => s' | None => s end.

Definition ex_cancelled : pstate := canceller 0 (canceller 1 (canceller 1 (canceller 1 (canceller 0 ex_cancelling)))).

Lemma canceller_reachable i s : reachable s -> reachable (canceller i s).
Proof.
  intros H. unfold canceller. destruct (cancel_work i s) eqn:Hc; [|done]. eapply reach_step; [done|]. by eapply SCanceller.
Qed.

Lemma ex_started_reachable : reachable ex_started.
Proof. apply (reach_step ex_pushed); [apply ex_pushed_reachable|]. by apply SStart. Qed.

Lemma ex_cancelled_reachable : reachable ex_cancelled.
Proof.
  repeat apply canceller_reachable. unfold ex_cancelling. apply (reach_step (CancelJob_queue 8 (run_alone 2 ex_started))); [|apply SCancel].
  apply (reach_step (run_alone 2 ex_started)); [|apply SCancel]. apply run_alone_reachable, ex_started_reachable.
Qed.

Definition ex_final : pstate := run_alone (distance ex_cancelled) ex_cancelled.

Lemma every_job_answered_once_witness :
  p_calls ex_final = [OnJobCancelled (mkEntry 1 (Some 8) [66%Z]); OnJobCancelled (mkEntry 0 (Some 7) [65%Z]);
                      OnJobDone (mkEntry 2 (Some 9) [67%Z]); OnEmpty]
  /\ (e_uid <$> everything ex_final) ≡ₚ seq 0 3.
Proof. split; [vm_compute; reflexivity|]. apply (every_job_answered_once ex_final). apply run_alone_reachable, ex_cancelled_reachable. Defined.

Lemma jobs_stay_visible_witness : HasJob 7 ex_cancelled = true /\ PostEngine.Empty ex_cancelled = false.
Proof.
  split; [|vm_compute; reflexivity].
  apply (proj1 (jobs_stay_visible ex_cancelled ex_cancelled_reachable) (mkEntry 0 (Some 7) [65%Z])); [|reflexivity].
  vm_compute. right. left.
Defined.

Lemma worker_drains_the_queue_witness :
  p_jobs (run_alone (distance ex_started) ex_started) = []
  /\ p_calls (run_alone (distance ex_started) ex_started)
     = [OnJobDone (mkEntry 0 (Some 7) [65%Z]); OnJobDone (mkEntry 1 (Some 8) [66%Z]); OnJobDone (mkEntry 2 (Some 9) [67%Z]); OnEmpty].
Proof.
  split; [|vm_compute; reflexivity].
  apply (worker_drains_the_queue ex_started ex_started_reachable); vm_compute; reflexivity.
Defined.
