(* ===== verification/GoPath.v ===== *)
(** * Go's [path/filepath]

    What the source uses of the package on a system whose separator is the
    slash: a path is split at its slashes into components, [Clean] is the
    lexical simplification, [Rel] the way from one clean path to another. *)
From S2P Require Import Prelude GoBytes GoText.
From stdpp Require Import base numbers gmap sorting list strings.
From Stdlib Require Import ZArith Lia.
Local Open Scope Z_scope.

Definition dotdot : list Z := [dot; dot].

Fixpoint split_slash (s : list Z) : list (list Z) :=
  match s with
  | [] => [[]]
  | b :: s => match split_slash s with
              | c :: cs => if b =? slash then [] :: c :: cs else (b :: c) :: cs
              | [] => [[b]]
              end
  end.

Fixpoint join_slash (l : list (list Z)) : list Z :=
  match l with
  | [] => []
  | [c] => c
  | c :: rest => c ++ slash :: join_slash rest
  end.

(** A clean path: rooted or not, with its components; the empty relative one
    is the dot. *)
Record gopath : Type := mkPath { rooted : bool; comps : list (list Z) }.
#[export] Instance gopath_eq_dec : EqDecision gopath.
Proof. solve_decision. Defined.

(** One component of the path taken after those already kept: [..] takes the
    last one back, unless that is a [..] itself or there is none. *)
Definition clean_step (root : bool) (acc : list (list Z)) (c : list Z) : list (list Z) :=
  if bool_decide (c = [] \/ c = [dot]) then acc
  else if bool_decide (c = dotdot) then
    match last acc with
    | None => if root then acc else [dotdot]
    | Some l => if bool_decide (l = dotdot) then acc ++ [dotdot] else take (length acc - 1) acc
    end
  else acc ++ [c].

Definition IsAbs (s : list Z) : bool := HasPrefix s [slash].

Definition Clean (s : list Z) : gopath := mkPath (IsAbs s) (foldl (clean_step (IsAbs s)) [] (split_slash s)).

Definition path_string (p : gopath) : list Z :=
  if rooted p then slash :: join_slash (comps p)
  else if bool_decide (comps p = []) then [dot] else join_slash (comps p).

(** [Join] of two paths: the empty ones are left out. *)
Definition Join (a b : list Z) : gopath :=
  if bool_decide (a = []) then (if bool_decide (b = []) then mkPath false [] else Clean b)
  else if bool_decide (b = []) then Clean a else Clean (a ++ slash :: b).

(** What is before the last slash, with it. *)
Fixpoint upto_last_slash (s : list Z) : list Z :=
  match s with
  | [] => []
  | b :: s => match upto_last_slash s with
              | [] => if b =? slash then [b] else []
              | d => b :: d
              end
  end.
Definition PathDir (s : list Z) : gopath := Clean (upto_last_slash s).

Fixpoint strip_common (a b : list (list Z)) : list (list Z) * list (list Z) :=
  match a, b with
  | x :: a', y :: b' => if bool_decide (x = y) then strip_common a' b' else (a, b)
  | _, _ => (a, b)
  end.

(** [Rel] between clean paths; an error when one is rooted and the other is
    not, or when the base climbs. *)
Definition Rel (base targ : gopath) : option (list (list Z)) :=
  if negb (Bool.eqb (rooted base) (rooted targ)) then None
  else
    let '(b, t) := strip_common (comps base) (comps targ) in
    if bool_decide (head b = Some dotdot) then None
    else Some (((fun _ => dotdot) <$> b) ++ t).

(** ** Clean paths *)
Definition plain (c : list Z) : Prop := c <> [] /\ c <> [dot] /\ c <> dotdot /\ slash ∉ c.

(** The components [Clean] returns: some [..] first, none when rooted, and
    plain names after them. *)
Definition clean_comps (root : bool) (l : list (list Z)) : Prop :=
  exists n names, l = replicate n dotdot ++ names /\ Forall plain names /\ (root = true -> n = O).

Lemma split_slash_ne s : split_slash s <> [].
Proof. induction s as [|b s IH]; simpl; [done|]. destruct (split_slash s); [done|]. by case_match. Qed.

Lemma split_slash_no_slash s : Forall (fun c => slash ∉ c) (split_slash s).
Proof.
  induction s as [|b s IH]; simpl; [constructor; [set_solver|done]|].
  destruct (split_slash s) as [|c cs] eqn:E; [by destruct (split_slash_ne s)|].
  inversion IH as [|? ? Hc Hcs]. destruct (Z.eqb_spec b slash); constructor; set_solver.
Qed.

Lemma clean_step_clean root acc c : clean_comps root acc -> slash ∉ c -> clean_comps root (clean_step root acc c).
Proof.
  intros (n & names & -> & Hn & Hr) Hc. unfold clean_step. case_bool_decide as H1; [by exists n, names|].
  case_bool_decide as H2.
  - destruct names as [|x names] using rev_ind; [clear Hn|clear IHnames].
    + rewrite app_nil_r. destruct n as [|n].
      * simpl. destruct root; [by exists O, []|]. exists 1%nat, []. by split.
      * rewrite replicate_S_end, last_snoc, bool_decide_eq_true_2 by done. exists (S (S n)), [].
        rewrite !replicate_S_end, <- replicate_S_end, app_nil_r. split; [done|]. split; [constructor|]. intros E. by specialize (Hr E).
    + rewrite app_assoc, last_snoc. apply Forall_app in Hn as [Hn Hx]. rewrite Forall_singleton in Hx. assert (x <> dotdot) as Hxd by apply Hx.
        rewrite bool_decide_eq_false_2 by done. exists n, names. rewrite length_app. simpl.
      rewrite take_app_le by lia. rewrite Nat.add_sub, take_ge by lia. done.
  - exists n, (names ++ [c]). rewrite app_assoc. split; [done|]. split; [|done]. apply Forall_app. split; [done|].
    apply Forall_singleton. unfold plain. naive_solver.
Qed.

Lemma Clean_clean s : clean_comps (rooted (Clean s)) (comps (Clean s)).
Proof.
  unfold Clean. simpl. pose proof (split_slash_no_slash s) as Hs. generalize (IsAbs s) as root. intros root.
  assert (clean_comps root []) as H by by exists O, []. revert H. generalize (@nil (list Z)) as acc.
  induction Hs as [|c cs Hc Hcs IH]; intros acc H; [done|]. simpl. apply IH. by apply clean_step_clean.
Qed.
