(* ===== verification/FileTree.v ===== *)
(** * A file system the code's calls act on

    What the source uses of the [os] package, on a tree of nodes.  A path is
    the list of its components from the root; a system call either does what
    it does on the tree or fails with an error the caller of the model
    chooses ([fs_faults], one entry per call), so every theorem covers every
    pattern of failures.  [fsutil]'s [Remove] and [MoveFile]
    ([internal/fsutil/remove.go], [move.go]) are built on it. *)
From S2P Require Import Prelude GoBytes GoText.
From stdpp Require Import base numbers gmap sorting list strings.
From Stdlib Require Import ZArith Lia.
Local Open Scope Z_scope.

Notation fname := (list Z) (only parsing).
Notation path := (list (list Z)) (only parsing).

(** A symbolic link, device or socket is [Special]. *)
Inductive node : Type :=
| File (content : list Z)
| Dir
| Special.
#[export] Instance node_eq_dec : EqDecision node.
Proof. solve_decision. Defined.

Inductive errno : Type := ENOENT | EEXIST | ENOTEMPTY | EXDEV | ENOTDIR | EISDIR | EINVAL | EBUSY | EPERM | EACCES | EIO | ENOSPC.
#[export] Instance errno_eq_dec : EqDecision errno.
Proof. solve_decision. Defined.

Notation tree := (gmap path node) (only parsing).

(** A fault is the error of a call, with how much a failing copy wrote. *)
Record fs : Type := mkFS { fs_tree : gmap path node; fs_faults : list (option (errno * nat)) }.

(** ** The calls as a state monad *)

Definition fsM (A : Type) : Type := fs -> A * fs.
Definition fret {A} (a : A) : fsM A := fun s => (a, s).
Definition fbind {A B} (c : fsM A) (k : A -> fsM B) : fsM B := fun s => k (fst (c s)) (snd (c s)).
Notation "'do!' x '<-' c 'in' k" := (fbind c (fun x => k)) (at level 10, x pattern, c at level 100, k at level 200) : go_scope.
Local Open Scope go_scope.

(** The next call's fault, if it fails. *)
Definition next_fault : fsM (option (errno * nat)) :=
  fun s => (match fs_faults s with f :: _ => f | [] => None end, mkFS (fs_tree s) (tail (fs_faults s))).

Definition get : fsM (gmap path node) := fun s => (fs_tree s, s).
Definition put (t : gmap path node) : fsM unit := fun s => (tt, mkFS t (fs_faults s)).

(** A call: its fault, or what it does to the tree. *)
Definition call {A} (f : gmap path node -> result errno A * gmap path node) : fsM (result errno A) :=
  do! o <- next_fault in
  match o with
  | Some (e, _) => fret (Err e)
  | None => do! t <- get in
            do! _ <- put (snd (f t)) in
            fret (fst (f t))
  end.

(** An error ends the function. *)
Definition try_bind {E A B} (c : fsM (result E A)) (k : A -> fsM (result E B)) : fsM (result E B) :=
  do! r <- c in match r with Ok a => k a | Err e => fret (Err e) end.
Notation "'try!' x '<-' c 'in' k" := (try_bind c (fun x => k)) (at level 10, x pattern, c at level 100, k at level 200) : go_scope.

(** ** Paths *)
Definition is_prefix (a p : path) : bool := bool_decide (a `prefix_of` p).

Definition parent (p : path) : path := take (length p - 1) p.
Definition base_name (p : path) : fname := default [] (last p).

(** [ENOTDIR] when something on the way is not a directory. *)
Definition missing (t : gmap path node) (p : path) : errno :=
  if existsb (fun k => match t !! take k p with Some (File _) | Some Special => true | _ => false end) (seq 0 (length p))
  then ENOTDIR else ENOENT.

Definition below (t : gmap path node) (p : path) : list path :=
  base.filter (fun q => is_prefix p q && negb (bool_decide (q = p))) ((map_to_list t).*1).

(** A regular file is at the path. *)
Definition is_file (t : gmap path node) (p : path) : bool := match t !! p with Some (File _) => true | _ => false end.

Definition children (t : gmap path node) (p : path) : list fname :=
  merge_sort str_le (omap (fun q => if bool_decide (parent q = p) && negb (bool_decide (q = [])) then last q else None) ((map_to_list t).*1)).

(** The tree with everything at [src] moved to [dst]. *)
Definition moved_key (src dst p : path) : option path :=
  if is_prefix src p then Some (dst ++ drop (length src) p)
  else if is_prefix dst p then None
  else Some p.

Definition move_tree (t : gmap path node) (src dst : path) : gmap path node :=
  list_to_map (omap (fun kn => (fun k => (k, snd kn)) <$> moved_key src dst (fst kn)) (map_to_list t)).

Definition cut_tree (t : gmap path node) (p : path) : gmap path node := base.filter (fun q => ~ p `prefix_of` fst q) t.

(** ** System calls *)
Definition Lstat (p : path) : fsM (result errno node) :=
  call (fun t => (match t !! p with Some n => Ok n | None => Err (missing t p) end, t)).

Definition ReadDir (p : path) : fsM (result errno (list fname)) :=
  call (fun t => (match t !! p with
                  | Some Dir => Ok (children t p)
                  | Some _ => Err ENOTDIR
                  | None => Err (missing t p)
                  end, t)).

(** [os.Rename]: onto a directory it is always [EEXIST]. *)
Definition Rename (src dst : path) : fsM (result errno unit) :=
  call (fun t =>
    match t !! src, t !! dst with
    | None, _ => (Err (missing t src), t)
    | Some _, Some Dir => (Err EEXIST, t)
    | Some Dir, Some _ => (Err ENOTDIR, t)
    | Some _, _ =>
        if bool_decide (src = dst) then (Ok tt, t)
        else if bool_decide (t !! parent dst <> Some Dir) then (Err (missing t dst), t)
        else if is_prefix src dst then (Err EINVAL, t)
        else (Ok tt, move_tree t src dst)
    end).

Definition os_Remove (p : path) : fsM (result errno unit) :=
  call (fun t =>
    match t !! p with
    | None => (Err (missing t p), t)
    | Some Dir => if bool_decide (below t p <> []) then (Err ENOTEMPTY, t) else (Ok tt, base.delete p t)
    | Some _ => (Ok tt, base.delete p t)
    end).

Definition Mkdir (p : path) : fsM (result errno unit) :=
  call (fun t =>
    match t !! p with
    | Some _ => (Err EEXIST, t)
    | None => if bool_decide (t !! parent p <> Some Dir) then (Err (missing t p), t) else (Ok tt, <[p := Dir]> t)
    end).

(** [os.MkdirAll]: the missing parents, then the directory. *)
Fixpoint mkdir_each (ps : list path) : fsM (result errno unit) :=
  match ps with
  | [] => fret (Ok tt)
  | p :: rest =>
      do! r <- Mkdir p in
      match r with
      | Ok _ => mkdir_each rest
      | Err e => do! t <- get in
                 match t !! p with
                 | Some Dir => mkdir_each rest
                 | Some _ => fret (Err ENOTDIR)
                 | None => fret (Err e)
                 end
      end
  end.

Definition MkdirAll (p : path) : fsM (result errno unit) :=
  do! t <- get in
  match t !! p with
  | Some Dir => fret (Ok tt)
  | Some _ => fret (Err ENOTDIR)
  | None => mkdir_each ((fun k => take k p) <$> seq 1 (length p))
  end.

(** [os.RemoveAll]; a fault leaves the tree as it is. *)
Definition os_RemoveAll (p : path) : fsM (result errno unit) := call (fun t => (Ok tt, cut_tree t p)).

(** [WriteAtomicBytesPerm]: a temporary file renamed into place. *)
Definition WriteAtomicBytes (p : path) (data : list Z) : fsM (result errno unit) :=
  call (fun t => match t !! p with
                 | Some Dir => (Err EEXIST, t)
                 | _ => if bool_decide (t !! parent p <> Some Dir) then (Err (missing t p), t) else (Ok tt, <[p := File data]> t)
                 end).

Definition ReadFile (p : path) : fsM (result errno (list Z)) :=
  call (fun t => (match t !! p with
                  | Some (File c) => Ok c
                  | Some Dir => Err EISDIR
                  | Some Special => Err EIO
                  | None => Err (missing t p)
                  end, t)).

(** ** [fsutil.Remove] *)
Definition isBusyOrNotEmpty (e : errno) : bool :=
  bool_decide (e = EBUSY) || bool_decide (e = ENOTEMPTY) || bool_decide (e = EEXIST) || bool_decide (e = EPERM) || bool_decide (e = EACCES).

Definition IsSillyRenameFile (p : path) : bool :=
  HasPrefix (base_name p) (bs ".nfs") || HasPrefix (base_name p) (bs ".smbdelete") || HasPrefix (base_name p) (bs ".fuse_hidden").

Definition removeBackoffs : nat := 5.

Fixpoint remove_loop (left : nat) (rm : fsM (result errno unit)) : fsM (option errno) :=
  do! r <- rm in
  match r with
  | Ok _ => fret None
  | Err e =>
      if bool_decide (e = ENOENT) then fret None
      else if negb (isBusyOrNotEmpty e) then fret (Some e)
      else match left with
           | O => fret (Some e)
           | S k => remove_loop k rm
           end
  end.

Definition Remove (p : path) : fsM (result errno unit) :=
  do! last <- remove_loop removeBackoffs (os_Remove p) in
  match last with
  | None => fret (Ok tt)
  | Some e => if IsSillyRenameFile p then fret (Ok tt) else fret (Err e)
  end.

(** [RemoveAll]: a directory that only holds the leftovers of a network file
    system counts as removed. *)
Definition ContainsOnlySillyRenames (t : gmap path node) (dir : path) : bool :=
  let files := base.filter (fun q => negb (bool_decide (t !! q = Some Dir))) (below t dir) in
  negb (bool_decide (files = [])) && forallb IsSillyRenameFile files.

Definition RemoveAll (p : path) : fsM (result errno unit) :=
  do! last <- remove_loop removeBackoffs (os_RemoveAll p) in
  match last with
  | None => fret (Ok tt)
  | Some e =>
      do! t <- get in
      match t !! p with
      | Some Dir => if ContainsOnlySillyRenames t p then fret (Ok tt) else fret (Err e)
      | _ => if IsSillyRenameFile p then fret (Ok tt) else fret (Err e)
      end
  end.

(** ** [fsutil.MoveFile] *)
Definition Create (p : path) : fsM (result errno unit) :=
  call (fun t => match t !! p with
                 | Some Dir => (Err EISDIR, t)
                 | _ => if bool_decide (t !! parent p <> Some Dir) then (Err (missing t p), t) else (Ok tt, <[p := File []]> t)
                 end).

(** [io.Copy] into the created file: a fault leaves what it wrote. *)
Definition Copy (p : path) (content : list Z) : fsM (result errno unit) :=
  do! o <- next_fault in
  do! t <- get in
  match o with
  | Some (e, n) => do! _ <- put (<[p := File (take n content)]> t) in fret (Err e)
  | None => do! _ <- put (<[p := File content]> t) in fret (Ok tt)
  end.

(** [Open], [Close] and [Chmod] change nothing in the tree. *)
Definition noop : fsM (result errno unit) := call (fun t => (Ok tt, t)).

Definition discard (dst : path) (e : errno) : fsM (result errno unit) :=
  do! _ <- os_Remove dst in fret (Err e).

Definition copyAndRemove (src dst : path) : fsM (result errno unit) :=
  do! info <- Lstat src in
  match info with
  | Err e => fret (Err e)
  | Ok (File content) =>
      do! opened <- noop in
      match opened with
      | Err e => fret (Err e)
      | Ok _ =>
          do! created <- Create dst in
          match created with
          | Err e => fret (Err e)
          | Ok _ =>
              do! copied <- Copy dst content in
              match copied with
              | Err e => discard dst e
              | Ok _ =>
                  do! closed <- noop in
                  match closed with
                  | Err e => discard dst e
                  | Ok _ =>
                      do! moded <- noop in
                      match moded with
                      | Err e => discard dst e
                      | Ok _ => os_Remove src
                      end
                  end
              end
          end
      end
  | Ok _ => fret (Err EINVAL)
  end.

Definition MoveFile (src dst : path) : fsM (result errno unit) :=
  do! r <- Rename src dst in
  match r with
  | Ok _ => fret (Ok tt)
  | Err e => if bool_decide (e = EXDEV) then copyAndRemove src dst else fret (Err e)
  end.

Definition IsRenameMergeNeeded (e : errno) : bool :=
  bool_decide (e = EXDEV) || bool_decide (e = ENOTEMPTY) || bool_decide (e = EEXIST).

(** [os.OpenRoot] *)
Definition OpenRoot (dir : path) : fsM (result errno unit) :=
  call (fun t => (match t !! dir with Some Dir => Ok tt | Some _ => Err ENOTDIR | None => Err (missing t dir) end, t)).
