(* ===== verification/FileTreeProps.v ===== *)
(** * What the file-system calls keep

    A weakest precondition over every pattern of faults, the well-formedness
    every call keeps (a node lies in a directory), and what each call does to
    the other nodes of the tree. *)
From S2P Require Import Prelude GoBytes GoText FileTree.
From stdpp Require Import base numbers gmap sorting list strings.
From Stdlib Require Import ZArith Lia.
Local Open Scope go_scope.

(** ** Reasoning about calls *)
Definition wp {A} (c : fsM A) (Q : A -> gmap path node -> Prop) (t : gmap path node) : Prop :=
  forall faults, Q (fst (c (mkFS t faults))) (fs_tree (snd (c (mkFS t faults)))).

Lemma wp_ret {A} (a : A) Q t : Q a t -> wp (fret a) Q t.
Proof. by intros H f. Qed.

Lemma wp_bind {A B} (c : fsM A) (k : A -> fsM B) Q t : wp c (fun a => wp (k a) Q) t -> wp (fbind c k) Q t.
Proof.
  intros H f. unfold fbind. specialize (H f). destruct (c (mkFS t f)) as [a [t' f']]. simpl in *. apply H.
Qed.

Lemma wp_mono {A} (c : fsM A) (Q Q' : A -> gmap path node -> Prop) t : wp c Q t -> (forall a t', Q a t' -> Q' a t') -> wp c Q' t.
Proof. intros H HQ f. apply HQ, H. Qed.

Lemma wp_try {E A B} (c : fsM (result E A)) (k : A -> fsM (result E B)) Q t :
  wp c (fun r t' => match r with Ok a => wp (k a) Q t' | Err e => Q (Err e) t' end) t -> wp (try_bind c k) Q t.
Proof. intros H. apply wp_bind. eapply wp_mono; [exact H|]. intros [a|e] t' Ha; [done|by apply wp_ret]. Qed.

Lemma wp_get Q t : Q t t -> wp get Q t.
Proof. by intros H f. Qed.

Lemma wp_call {A} (f : gmap path node -> result errno A * gmap path node) Q t :
  (forall e, Q (Err e) t) -> Q (fst (f t)) (snd (f t)) -> wp (call f) Q t.
Proof. intros He Hf [|[[e n]|] faults]; [exact Hf|apply He|exact Hf]. Qed.

(** ** Paths *)
Definition disj (a b : path) : Prop := ~ a `prefix_of` b /\ ~ b `prefix_of` a.

Lemma disj_sym a b : disj a b -> disj b a.
Proof. intros [? ?]. by split. Qed.

Lemma disj_below a b r : disj a b -> ~ b `prefix_of` a ++ r.
Proof. intros [H1 H2] H. destruct (prefix_weak_total a b (a ++ r)) as [?|?]; [by apply prefix_app_r|done|done|done]. Qed.

Lemma disj_ext a b r r' : disj a b -> disj (a ++ r) (b ++ r').
Proof.
  intros Hd. split; intros [k E].
  - rewrite <- app_assoc in E. apply (disj_below b a r'); [by apply disj_sym|]. exists (r ++ k). done.
  - rewrite <- app_assoc in E. apply (disj_below a b r); [done|]. exists (r' ++ k). done.
Qed.

Lemma disj_children a n m : n <> m -> disj (a ++ [n]) (a ++ [m]).
Proof. intros Hn. split; intros H; apply prefix_app_inv in H as [k E]; by simplify_eq/=. Qed.

Lemma is_prefix_true a p : is_prefix a p = true <-> a `prefix_of` p.
Proof. unfold is_prefix. apply bool_decide_eq_true. Qed.
Lemma is_prefix_false a p : is_prefix a p = false <-> ~ a `prefix_of` p.
Proof. unfold is_prefix. apply bool_decide_eq_false. Qed.

(** ** Well-formed trees *)
Definition wf_tree (t : gmap path node) : Prop := forall p n x, t !! (p ++ [x]) = Some n -> t !! p = Some Dir.

Lemma wf_above t p r n : wf_tree t -> t !! (p ++ r) = Some n -> r <> [] -> t !! p = Some Dir.
Proof.
  intros Hw. revert n. induction r as [|x r IH] using rev_ind; intros n H Hr; [done|]. rewrite app_assoc in H. apply Hw in H.
  destruct r; [by rewrite app_nil_r in H|]. by eapply IH.
Qed.

Lemma parent_snoc p x : parent (p ++ [x]) = p.
Proof. unfold parent. rewrite length_app. simpl. rewrite Nat.add_sub, take_app_length. done. Qed.

(** Putting a node where there was none, or none that is a directory. *)
Lemma wf_insert t p n : wf_tree t -> p <> [] -> t !! parent p = Some Dir -> t !! p <> Some Dir -> wf_tree (<[p := n]> t).
Proof.
  intros Hw Hp Hd Hn q m x H. destruct (decide (q ++ [x] = p)) as [<-|Hne].
  - rewrite parent_snoc in Hd. rewrite lookup_insert_ne; [done|]. intros E. apply (f_equal length) in E. rewrite length_app in E. simpl in E. lia.
  - rewrite lookup_insert_ne in H by done. apply Hw in H. rewrite lookup_insert_ne; [done|]. intros ->. done.
Qed.

Lemma elem_below t p q : q ∈ below t p <-> is_Some (t !! q) /\ p `prefix_of` q /\ q <> p.
Proof.
  unfold below. rewrite list_elem_of_filter, Is_true_true, andb_true_iff, negb_true_iff, is_prefix_true, bool_decide_eq_false.
  rewrite list_elem_of_fmap. split.
  - intros [[Hp Hq] ([q' n] & -> & H)]. apply elem_of_map_to_list in H. simpl. eauto.
  - intros ((n & H) & Hp & Hq). split; [done|]. exists (q, n). split; [done|]. by apply elem_of_map_to_list.
Qed.

Lemma wf_delete t p : wf_tree t -> (t !! p <> Some Dir \/ below t p = []) -> wf_tree (base.delete p t).
Proof.
  intros Hw Hp q m x H. apply lookup_delete_Some in H as [Hne H]. pose proof (Hw _ _ _ H) as Hq.
  rewrite lookup_delete_ne; [done|]. intros ->. destruct Hp as [|Hp]; [done|].
  assert (q ++ [x] ∈ below t q) as Hin.
  { apply elem_below. split; [eauto|]. split; [by apply prefix_app_r|]. intros E. apply (f_equal length) in E. rewrite length_app in E. simpl in E. lia. }
  rewrite Hp in Hin. by apply elem_of_nil in Hin.
Qed.

Lemma elem_children t p x : x ∈ children t p <-> is_Some (t !! (p ++ [x])).
Proof.
  unfold children. rewrite merge_sort_Permutation, list_elem_of_omap. split.
  - intros (q & Hq & H). apply list_elem_of_fmap in Hq as ([q' n] & -> & Hq). simpl in H. case_match eqn:E; [|done].
    apply andb_true_iff in E as [E1 E2]. apply bool_decide_eq_true in E1. apply negb_true_iff, bool_decide_eq_false in E2.
    apply elem_of_map_to_list in Hq. destruct q' as [|y q' _] using rev_ind; [done|]. rewrite parent_snoc in E1. subst q'.
    rewrite last_snoc in H. simplify_eq. eauto.
  - intros (n & H). exists (p ++ [x]). split; [apply list_elem_of_fmap; exists (p ++ [x], n); split; [done|]; by apply elem_of_map_to_list|].
    rewrite parent_snoc, bool_decide_eq_true_2, bool_decide_eq_false_2, last_snoc; [done| |done]. by destruct p.
Qed.

(** ** A moved tree *)
Section rekey.
Context (h : path -> option path) (Hinj : forall k1 k2 k, h k1 = Some k -> h k2 = Some k -> k1 = k2).

Lemma elem_rekey (l : list (path * node)) k n :
  (k, n) ∈ omap (fun kn => (fun k => (k, snd kn)) <$> h (fst kn)) l <-> exists k0, (k0, n) ∈ l /\ h k0 = Some k.
Proof.
  rewrite list_elem_of_omap. split.
  - intros ([k0 n0] & Hl & H). simpl in H. destruct (h k0) eqn:E; simplify_eq/=. eauto.
  - intros (k0 & Hl & H). exists (k0, n). simpl. by rewrite H.
Qed.

Lemma rekey_NoDup (l : list (path * node)) :
  NoDup l.*1 -> NoDup (omap (fun kn => (fun k => (k, snd kn)) <$> h (fst kn)) l).*1.
Proof.
  induction l as [|[k n] l IH]; simpl; [by constructor|]. intros H. apply NoDup_cons in H as [Hk H].
  destruct (h k) as [k'|] eqn:E; simpl; [|by apply IH]. apply NoDup_cons. split; [|by apply IH]. intros Hin.
  apply list_elem_of_fmap in Hin as ([k2 n2] & -> & Hin). apply elem_rekey in Hin as (k0 & Hl & Hh). simpl in *.
  rewrite (Hinj _ _ _ E Hh) in Hk. apply Hk, list_elem_of_fmap. by exists (k0, n2).
Qed.

Lemma lookup_rekey (t : gmap path node) k n :
  (list_to_map (omap (fun kn => (fun k => (k, snd kn)) <$> h (fst kn)) (map_to_list t)) : gmap path node) !! k = Some n
  <-> exists k0, t !! k0 = Some n /\ h k0 = Some k.
Proof.
  rewrite <- elem_of_list_to_map by apply rekey_NoDup, NoDup_fst_map_to_list. rewrite elem_rekey.
  by setoid_rewrite elem_of_map_to_list.
Qed.
End rekey.

Lemma moved_key_inj src dst k1 k2 k : disj src dst -> moved_key src dst k1 = Some k -> moved_key src dst k2 = Some k -> k1 = k2.
Proof.
  intros Hd. unfold moved_key.
  destruct (is_prefix src k1) eqn:E1, (is_prefix src k2) eqn:E2; rewrite ?is_prefix_true in *.
  - destruct E1 as [r1 ->], E2 as [r2 ->]. rewrite !drop_app_length. intros. simplify_eq. done.
  - destruct E1 as [r1 ->]. rewrite drop_app_length. intros ?. simplify_eq. case_match eqn:E; [done|]. intros. simplify_eq.
    apply is_prefix_false in E. destruct E. by apply prefix_app_r.
  - destruct E2 as [r2 ->]. rewrite drop_app_length. case_match eqn:E; [done|]. intros ? ?. simplify_eq.
    apply is_prefix_false in E. destruct E. by apply prefix_app_r.
  - repeat case_match; intros; by simplify_eq.
Qed.

Lemma lookup_move_tree t src dst p n : disj src dst ->
  move_tree t src dst !! p = Some n <->
  (exists r, p = dst ++ r /\ t !! (src ++ r) = Some n) \/ (~ src `prefix_of` p /\ ~ dst `prefix_of` p /\ t !! p = Some n).
Proof.
  intros Hd. unfold move_tree. rewrite (lookup_rekey (moved_key src dst)) by (intros k1 k2 k; by apply moved_key_inj). unfold moved_key. split.
  - intros (k0 & Hk & H). destruct (is_prefix src k0) eqn:E1; [|destruct (is_prefix dst k0) eqn:E2; [done|]]; simplify_eq.
    + apply is_prefix_true in E1 as [r ->]. rewrite drop_app_length. left. by exists r.
    + right. by rewrite <- !is_prefix_false.
  - intros [(r & -> & H)|(H1 & H2 & H)].
    + exists (src ++ r). rewrite (proj2 (is_prefix_true _ _)) by by apply prefix_app_r. by rewrite drop_app_length.
    + exists p. by rewrite (proj2 (is_prefix_false _ _) H1), (proj2 (is_prefix_false _ _) H2).
Qed.

Lemma move_tree_dst t src dst r : disj src dst -> move_tree t src dst !! (dst ++ r) = t !! (src ++ r).
Proof.
  intros Hd. apply option_eq. intros n. rewrite lookup_move_tree by done. split.
  - intros [(r' & E & H)|(_ & H & _)]; [by simplify_eq|]. destruct H. by apply prefix_app_r.
  - eauto.
Qed.

Lemma wf_move_tree t src dst : wf_tree t -> disj src dst -> dst <> [] -> t !! parent dst = Some Dir -> is_Some (t !! src) -> wf_tree (move_tree t src dst).
Proof.
  intros Hw Hd Hn Hp Hs q m x H. apply lookup_move_tree in H as [(r & E & H)|(H1 & H2 & H)]; [| |done].
  - destruct r as [|y r _] using rev_ind.
    + rewrite app_nil_r in E. subst dst. rewrite parent_snoc in Hp. apply lookup_move_tree; [done|]. right. split; [|split; [|done]].
      * intros Hpre. apply (proj1 Hd). by apply prefix_app_r.
      * intros [k E]. apply (f_equal length) in E. rewrite !length_app in E. simpl in E. lia.
    + rewrite !app_assoc in *. apply app_inj_tail in E as [-> ->]. apply Hw in H. by rewrite move_tree_dst.
  - apply Hw in H. apply lookup_move_tree; [done|]. right. split; [|split; [|done]]; intros Hpre; [apply H1|apply H2]; by apply prefix_app_r.
Qed.

(** ** Each call *)
Definition same_or (Q : gmap path node -> Prop) (t : gmap path node) (t' : gmap path node) : Prop := t' = t \/ Q t'.

Lemma wp_Lstat Q t p : (forall e, Q (Err e) t) -> (forall n, t !! p = Some n -> Q (Ok n) t) -> wp (Lstat p) Q t.
Proof. intros He Hok. apply wp_call; [done|]. simpl. destruct (t !! p) eqn:E; simpl; auto. Qed.

Lemma wp_ReadDir Q t p : (forall e, Q (Err e) t) -> (t !! p = Some Dir -> Q (Ok (children t p)) t) -> wp (ReadDir p) Q t.
Proof. intros He Hok. apply wp_call; [done|]. simpl. destruct (t !! p) as [[| |]|] eqn:E; simpl; auto. Qed.

Lemma wp_noop Q t : (forall r, Q r t) -> wp noop Q t.
Proof. intros H. apply wp_call; auto. Qed.

Lemma wp_os_Remove Q t p :
  (forall e, Q (Err e) t) -> (is_Some (t !! p) -> (t !! p <> Some Dir \/ below t p = []) -> Q (Ok tt) (base.delete p t)) -> wp (os_Remove p) Q t.
Proof.
  intros He Hok. apply wp_call; [done|]. simpl. destruct (t !! p) as [[| |]|] eqn:E; simpl; eauto.
  case_bool_decide as H; simpl; [auto|]. apply Hok; [eauto|]. by right.
Qed.

Lemma wp_remove_loop (rm : fsM (result errno unit)) (R : gmap path node -> gmap path node -> Prop) :
  (forall t, R t t) -> (forall t1 t2 t3, R t1 t2 -> R t2 t3 -> R t1 t3) ->
  (forall t, wp rm (fun _ t' => R t t') t) -> forall n t, wp (remove_loop n rm) (fun _ t' => R t t') t.
Proof.
  intros Hr Ht Hrm n. induction n as [|n IH]; intros t; simpl; apply wp_bind; (eapply wp_mono; [apply Hrm|]); intros [u|e] t' H; simpl in *.
  - by apply wp_ret.
  - repeat case_match; by apply wp_ret.
  - by apply wp_ret.
  - repeat case_match; try (by apply wp_ret). eapply wp_mono; [apply IH|]. simpl. eauto.
Qed.

(** [p] is still as it was, or gone and nothing else with it. *)
Definition pruned (p : path) (t t' : gmap path node) : Prop :=
  t' = t \/ t' = base.delete p t /\ (t !! p <> Some Dir \/ below t p = []).

Lemma pruned_trans p t1 t2 t3 : pruned p t1 t2 -> pruned p t2 t3 -> pruned p t1 t3.
Proof.
  intros [->|[-> H]]; [done|]. intros [->|[-> _]]; right; (split; [|done]); [done|apply delete_delete_eq].
Qed.

Lemma wp_Remove p t : wp (Remove p) (fun _ t' => pruned p t t') t.
Proof.
  unfold Remove. apply wp_bind. eapply wp_mono; [apply (wp_remove_loop _ (pruned p))|].
  - by left.
  - apply pruned_trans.
  - intros t0. apply wp_os_Remove; [by left|]. intros _ H. by right.
  - intros [e|] t' H; simpl; [case_match|]; by apply wp_ret.
Qed.

Lemma wp_os_Remove_pruned p t : wp (os_Remove p) (fun _ t' => pruned p t t') t.
Proof. apply wp_os_Remove; [by left|]. intros _ H. by right. Qed.

Lemma pruned_wf p t t' : wf_tree t -> pruned p t t' -> wf_tree t'.
Proof. intros Hw [->|[-> H]]; [done|by apply wf_delete]. Qed.

Lemma pruned_lookup p t t' q n : pruned p t t' -> t' !! q = Some n -> t !! q = Some n.
Proof. intros [->|[-> _]]; [done|]. by intros [_ ?]%lookup_delete_Some. Qed.

Lemma pruned_ne p t t' q : pruned p t t' -> q <> p -> t' !! q = t !! q.
Proof. intros [->|[-> _]] Hne; [done|]. by rewrite lookup_delete_ne. Qed.

(** Directories made on the way to [p]. *)
Definition made (p : path) (t t' : gmap path node) : Prop :=
  wf_tree t' /\ (forall q n, t !! q = Some n -> t' !! q = Some n)
  /\ (forall q n, t' !! q = Some n -> t !! q = Some n \/ (q `prefix_of` p /\ n = Dir)).

Lemma made_refl p t : wf_tree t -> made p t t.
Proof. intros. split; [done|]. split; auto. Qed.

Lemma made_trans p t1 t2 t3 : made p t1 t2 -> made p t2 t3 -> made p t1 t3.
Proof.
  intros (_ & H2 & H3) (W & G2 & G3). split; [done|]. split; [auto|]. intros q n H. destruct (G3 _ _ H) as [H'|]; auto.
Qed.

Lemma wp_Mkdir p q t : wf_tree t -> q `prefix_of` p -> q <> [] -> wp (Mkdir q) (fun r t' => made p t t' /\ (r = Ok tt -> t' !! q = Some Dir)) t.
Proof.
  intros Hw Hq Hn. apply wp_call; [intros e; split; [by apply made_refl|done]|]. simpl. destruct (t !! q) eqn:E; simpl; [split; [by apply made_refl|done]|].
  case_bool_decide as Hp; simpl; [split; [by apply made_refl|done]|]. split; [|by rewrite lookup_insert_eq].
  split; [by apply wf_insert; [| | |congruence]|]. split.
  - intros q' n H. rewrite lookup_insert_ne; [done|]. intros ->. congruence.
  - intros q' n H. destruct (decide (q = q')) as [<-|]; [rewrite lookup_insert_eq in H; simplify_eq; auto|].
    rewrite lookup_insert_ne in H by done. auto.
Qed.

Lemma wp_mkdir_each p l t : wf_tree t -> Forall (fun q => q `prefix_of` p /\ q <> []) l ->
  wp (mkdir_each l) (fun r t' => made p t t' /\ (r = Ok tt -> Forall (fun q => t' !! q = Some Dir) l)) t.
Proof.
  intros Hw Hl. revert t Hw. induction Hl as [|q l [Hq Hn] Hl IH]; intros t Hw; simpl; [apply wp_ret; split; [by apply made_refl|constructor]|].
  apply wp_bind. eapply wp_mono; [by apply (wp_Mkdir p q)|]. intros r t1 [M1 Hr]. simpl.
  assert (forall t1, made p t t1 -> t1 !! q = Some Dir -> wp (mkdir_each l) (fun r t' => made p t t' /\ (r = Ok tt -> Forall (fun q => t' !! q = Some Dir) (q :: l))) t1) as Hgo.
  { clear t1 M1 Hr. intros t1 M1 Hd. eapply wp_mono; [apply IH, M1|]. intros r' t2 [M2 H2]. split; [by eapply made_trans|].
    intros Hok. constructor; [by apply M2|by apply H2]. }
  destruct r as [[]|e]; [by apply Hgo; auto|]. apply wp_bind, wp_get. simpl. destruct (t1 !! q) as [[| |]|] eqn:E; try (by apply wp_ret; split).
  by apply Hgo.
Qed.

Lemma wp_MkdirAll p t : wf_tree t -> p <> [] -> wp (MkdirAll p) (fun r t' => made p t t' /\ (r = Ok tt -> t' !! p = Some Dir)) t.
Proof.
  intros Hw Hp. unfold MkdirAll. apply wp_bind, wp_get. destruct (t !! p) as [[| |]|] eqn:E; try (apply wp_ret; split; [by apply made_refl|done]).
  assert (0 < length p)%nat as Hlen by (destruct p; simpl; [done|lia]).
  eapply wp_mono; [apply (wp_mkdir_each p); [done|]|].
  - apply Forall_fmap, Forall_forall. intros k Hk. apply elem_of_seq in Hk. simpl. split; [apply prefix_take|].
    intros E'. apply (f_equal length) in E'. rewrite length_take in E'. simpl in E'. lia.
  - simpl. intros r t' [M H]. split; [done|]. intros Hr. specialize (H Hr). rewrite Forall_fmap, Forall_forall in H.
    specialize (H (length p)). simpl in H. rewrite take_ge in H by lia. apply H, elem_of_seq. lia.
Qed.

Lemma wp_Copy Q p c t : (forall e n, Q (Err e) (<[p := File (take n c)]> t)) -> Q (Ok tt) (<[p := File c]> t) -> wp (Copy p c) Q t.
Proof. intros He Hok [|[[e n]|] faults]; [exact Hok|apply He|exact Hok]. Qed.

Lemma wp_MkdirAll_made p t : wf_tree t -> wp (MkdirAll p) (fun _ t' => made p t t') t.
Proof.
  intros Hw. destruct (decide (p = [])) as [->|Hp]; [|eapply wp_mono; [by apply wp_MkdirAll|]; by intros r t' [M _]].
  unfold MkdirAll. apply wp_bind, wp_get. destruct (t !! []) as [[| |]|]; by apply wp_ret, made_refl.
Qed.
