(* ===== verification/PostJob.v ===== *)
(** * A job being post-processed ([internal/postproc/stages.go])

    The fields of [postproc.Job] that a stage of the pipeline decides on, how
    a failed stage is recorded, and the list of files whose deletion waits
    for [finalize].  Log lines ([OutputLines], [StageLogEntry.Lines]) are not
    carried. *)
From S2P Require Import Prelude GoBytes GoText GoPath FileTree.
From stdpp Require Import base numbers gmap sorting list strings.
From Stdlib Require Import ZArith Lia.
Local Open Scope Z_scope.

Inductive QuickCheckOutcome : Type :=
| QuickCheckNotRun | QuickCheckClean | QuickCheckDamaged | QuickCheckInconclusive | QuickCheckUnidentified.
#[export] Instance qc_eq_dec : EqDecision QuickCheckOutcome.
Proof. solve_decision. Defined.

Definition AllQuickCheckOutcomes : list QuickCheckOutcome :=
  [QuickCheckNotRun; QuickCheckClean; QuickCheckDamaged; QuickCheckInconclusive; QuickCheckUnidentified].

(** What a stage returns as its error: the text, and the blocks of a
    [ShortfallError] when it wraps one. *)
Record stage_err : Type := mkErr { err_text : list Z; err_shortfall : option Z }.

Record StageLogEntry : Type := mkEntry { log_stage : list Z; log_err : option stage_err; log_skipped : bool }.

(** [DownloadDir] and [FinalDir] are absolute and clean; [None] is the empty
    string. *)
Record ppjob : Type := mkJob {
  PP : Z;
  DownloadDir : option path;
  FinalDir : option path;
  outputFiles : option (list (list Z));   (* set by finalize; None is an error or not set *)
  Approved : bool;                    (* Unwanted = StateApproved *)
  StageLog : list StageLogEntry;
  FailMsg : list Z;
  ParError : bool;
  UnpackError : bool;
  parCause : list Z;
  unpackCause : list Z;
  shortfall : Z;
  quickCheck : QuickCheckOutcome;
  deferredPar2Sets : list (list Z);
  unverifiedPar2Sets : list (list Z);
  deferredPar2Verified : bool;
  ConsumedFiles : list path;
  pendingDeletions : list path;
  par2Backups : list path
}.

Definition set_log (l : list StageLogEntry) (j : ppjob) : ppjob :=
  mkJob (PP j) (DownloadDir j) (FinalDir j) (outputFiles j) (Approved j) l (FailMsg j) (ParError j) (UnpackError j) (parCause j)
        (unpackCause j) (shortfall j) (quickCheck j) (deferredPar2Sets j) (unverifiedPar2Sets j) (deferredPar2Verified j)
        (ConsumedFiles j) (pendingDeletions j) (par2Backups j).
Definition set_dir (d : option path) (j : ppjob) : ppjob :=
  mkJob (PP j) d (FinalDir j) (outputFiles j) (Approved j) (StageLog j) (FailMsg j) (ParError j) (UnpackError j) (parCause j)
        (unpackCause j) (shortfall j) (quickCheck j) (deferredPar2Sets j) (unverifiedPar2Sets j) (deferredPar2Verified j)
        (ConsumedFiles j) (pendingDeletions j) (par2Backups j).
Definition set_output (o : option (list (list Z))) (j : ppjob) : ppjob :=
  mkJob (PP j) (DownloadDir j) (FinalDir j) o (Approved j) (StageLog j) (FailMsg j) (ParError j) (UnpackError j) (parCause j)
        (unpackCause j) (shortfall j) (quickCheck j) (deferredPar2Sets j) (unverifiedPar2Sets j) (deferredPar2Verified j)
        (ConsumedFiles j) (pendingDeletions j) (par2Backups j).
Definition set_fail (m : list Z) (j : ppjob) : ppjob :=
  mkJob (PP j) (DownloadDir j) (FinalDir j) (outputFiles j) (Approved j) (StageLog j) m (ParError j) (UnpackError j) (parCause j)
        (unpackCause j) (shortfall j) (quickCheck j) (deferredPar2Sets j) (unverifiedPar2Sets j) (deferredPar2Verified j)
        (ConsumedFiles j) (pendingDeletions j) (par2Backups j).
Definition set_par (b : bool) (j : ppjob) : ppjob :=
  mkJob (PP j) (DownloadDir j) (FinalDir j) (outputFiles j) (Approved j) (StageLog j) (FailMsg j) b (UnpackError j) (parCause j)
        (unpackCause j) (shortfall j) (quickCheck j) (deferredPar2Sets j) (unverifiedPar2Sets j) (deferredPar2Verified j)
        (ConsumedFiles j) (pendingDeletions j) (par2Backups j).
Definition set_unpack (b : bool) (j : ppjob) : ppjob :=
  mkJob (PP j) (DownloadDir j) (FinalDir j) (outputFiles j) (Approved j) (StageLog j) (FailMsg j) (ParError j) b (parCause j)
        (unpackCause j) (shortfall j) (quickCheck j) (deferredPar2Sets j) (unverifiedPar2Sets j) (deferredPar2Verified j)
        (ConsumedFiles j) (pendingDeletions j) (par2Backups j).
Definition set_causes (p u : list Z) (n : Z) (j : ppjob) : ppjob :=
  mkJob (PP j) (DownloadDir j) (FinalDir j) (outputFiles j) (Approved j) (StageLog j) (FailMsg j) (ParError j) (UnpackError j) p
        u n (quickCheck j) (deferredPar2Sets j) (unverifiedPar2Sets j) (deferredPar2Verified j)
        (ConsumedFiles j) (pendingDeletions j) (par2Backups j).
Definition set_verdict (q : QuickCheckOutcome) (j : ppjob) : ppjob :=
  mkJob (PP j) (DownloadDir j) (FinalDir j) (outputFiles j) (Approved j) (StageLog j) (FailMsg j) (ParError j) (UnpackError j) (parCause j)
        (unpackCause j) (shortfall j) q (deferredPar2Sets j) (unverifiedPar2Sets j) (deferredPar2Verified j)
        (ConsumedFiles j) (pendingDeletions j) (par2Backups j).
Definition set_sets (d u : list (list Z)) (v : bool) (j : ppjob) : ppjob :=
  mkJob (PP j) (DownloadDir j) (FinalDir j) (outputFiles j) (Approved j) (StageLog j) (FailMsg j) (ParError j) (UnpackError j) (parCause j)
        (unpackCause j) (shortfall j) (quickCheck j) d u v
        (ConsumedFiles j) (pendingDeletions j) (par2Backups j).
Definition set_files (c p b : list path) (j : ppjob) : ppjob :=
  mkJob (PP j) (DownloadDir j) (FinalDir j) (outputFiles j) (Approved j) (StageLog j) (FailMsg j) (ParError j) (UnpackError j) (parCause j)
        (unpackCause j) (shortfall j) (quickCheck j) (deferredPar2Sets j) (unverifiedPar2Sets j) (deferredPar2Verified j)
        c p b.

(** ** Failure *)
Definition Failed (j : ppjob) : bool := ParError j || UnpackError j || negb (bool_decide (FailMsg j = [])).

Definition cmp_Or (a b : list Z) : list Z := if bool_decide (a = []) then b else a.

Fixpoint strings_Join (l : list (list Z)) (sep : list Z) : list Z :=
  match l with
  | [] => []
  | [x] => x
  | x :: rest => x ++ sep ++ strings_Join rest sep
  end.

Definition FailReason (j : ppjob) : list Z :=
  strings_Join ((if ParError j then [cmp_Or (parCause j) (bs "repair failed")] else [])
                ++ (if UnpackError j then [cmp_Or (unpackCause j) (bs "unpack failed")] else [])
                ++ (if bool_decide (FailMsg j = []) then [] else [FailMsg j])) (bs "; ").

Definition recordStageFailure (parBefore unpackBefore : bool) (err : option stage_err) (j : ppjob) : ppjob :=
  match err with
  | None => j
  | Some e =>
      let newPar := ParError j && negb parBefore in
      let newUnpack := UnpackError j && negb unpackBefore in
      set_causes (if newPar then err_text e else parCause j)
                 (if newUnpack then err_text e else unpackCause j)
                 (if newPar then match err_shortfall e with Some n => n | None => 0 end else shortfall j) j
  end.

Definition RepairShortfall (j : ppjob) : Z * bool := (shortfall j, bool_decide (shortfall j > 0)).

Definition par2Unverified (j : ppjob) (set : list Z) : bool := bool_decide (set ∈ unverifiedPar2Sets j).
Definition par2Deferred (j : ppjob) (set : list Z) : bool := bool_decide (set ∈ deferredPar2Sets j).

(** ** Deletions that wait for finalize *)

(** The clean path relative to [DownloadDir], unless it leads out of it or is
    the directory itself. *)
Definition relative_to (dir : option path) (p : gopath) : option path :=
  let rel := if rooted p then match dir with
                              | None => None
                              | Some d => Rel (mkPath true d) p
                              end
             else Some (comps p) in
  match rel with
  | None => None
  | Some r => if bool_decide (r = [] \/ head r = Some dotdot) then None else Some r
  end.

Definition pendingDeletionRel (j : ppjob) (path : list Z) : option (list (list Z)) :=
  if bool_decide (path = []) then None else relative_to (DownloadDir j) (Clean path).

Definition add_path (l : list path) (r : path) : list path := if bool_decide (r ∈ l) then l else l ++ [r].

Definition recordPendingDeletion (path : list Z) (j : ppjob) : ppjob * bool :=
  match pendingDeletionRel j path with
  | None => (j, false)
  | Some rel => (set_files (ConsumedFiles j) (add_path (pendingDeletions j) rel) (par2Backups j) j, true)
  end.

Definition clearPendingDeletions (j : ppjob) : ppjob := set_files (ConsumedFiles j) [] (par2Backups j) j.

(** [loadPendingDeletions], the decoded list given. *)
Definition loadPendingDeletions (paths : list (list Z)) (j : ppjob) : ppjob :=
  foldl (fun j p => fst (recordPendingDeletion p j)) (clearPendingDeletions j) paths.

(** [isPendingDeletion] of a path below the root, and of any string. *)
Definition is_pending (j : ppjob) (p : path) : bool :=
  negb (bool_decide (pendingDeletions j = []))
  && match relative_to (DownloadDir j) (mkPath true p) with
     | Some rel => bool_decide (rel ∈ pendingDeletions j)
     | None => false
     end.

Definition isPendingDeletion (j : ppjob) (path : list Z) : bool :=
  negb (bool_decide (pendingDeletions j = []))
  && match pendingDeletionRel j path with
     | Some rel => bool_decide (rel ∈ pendingDeletions j)
     | None => false
     end.

Definition recordPar2Backup (path : list Z) (j : ppjob) : ppjob :=
  match pendingDeletionRel j path with
  | None => j
  | Some rel => set_files (ConsumedFiles j) (pendingDeletions j) (add_path (par2Backups j) rel) j
  end.

Definition par2RenameExclusions (j : ppjob) : list path := pendingDeletions j ++ par2Backups j.

(** ** Lemmas *)
Lemma Rel_below d r : Rel (mkPath true d) (mkPath true (d ++ r)) = Some r.
Proof.
  unfold Rel. simpl. induction d as [|x d IH]; [by destruct r|]. simpl. rewrite bool_decide_eq_true_2 by done. exact IH.
Qed.

Lemma Rel_below_inv d p r : Rel (mkPath true d) (mkPath true p) = Some r -> head r <> Some dotdot -> p = d ++ r.
Proof.
  unfold Rel. simpl. revert p. induction d as [|x d IH]; intros [|y p] H Hr; simplify_eq/=; try done.
  - repeat case_bool_decide; simplify_eq/=; done.
  - case_bool_decide; subst; simpl in H; [by f_equal; apply IH|]. repeat case_bool_decide; simplify_eq/=; done.
Qed.

Lemma is_pending_below j d r : DownloadDir j = Some d -> r <> [] -> head r <> Some dotdot ->
  is_pending j (d ++ r) = bool_decide (r ∈ pendingDeletions j).
Proof.
  intros Hd Hr Hh. unfold is_pending, relative_to. simpl. rewrite Hd, Rel_below, (bool_decide_eq_false_2 (r = [] \/ _)) by naive_solver.
  case_bool_decide as H; [by rewrite H|done].
Qed.

Lemma join_nonempty l sep : Forall (fun x => x <> []) l -> strings_Join l sep = [] <-> l = [].
Proof.
  intros H. split; [|by intros ->]. destruct H as [|x l Hx Hl]; [done|]. simpl. destruct l; [done|]. by destruct x.
Qed.

(** Recording an error changes no flag, only the causes. *)
Lemma record_Failed p u e j : Failed (recordStageFailure p u e j) = Failed j.
Proof. by destruct e. Qed.
Lemma record_fields p u e j : let j' := recordStageFailure p u e j in
  ParError j' = ParError j /\ UnpackError j' = UnpackError j /\ FailMsg j' = FailMsg j /\ DownloadDir j' = DownloadDir j
  /\ pendingDeletions j' = pendingDeletions j /\ PP j' = PP j.
Proof. by destruct e. Qed.

(** [FailReason] is empty exactly when the job has not failed. *)
Lemma FailReason_empty j : FailReason j = [] <-> Failed j = false.
Proof.
  unfold FailReason, Failed. rewrite join_nonempty.
  - destruct (ParError j), (UnpackError j); simpl; try done. case_bool_decide; naive_solver.
  - apply Forall_app. split; [|apply Forall_app; split].
    + destruct (ParError j); [|constructor]. apply Forall_singleton. unfold cmp_Or. case_bool_decide; done.
    + destruct (UnpackError j); [|constructor]. apply Forall_singleton. unfold cmp_Or. case_bool_decide; done.
    + case_bool_decide; [constructor|]. by apply Forall_singleton.
Qed.
