(* ===== verification/Finalize.v ===== *)
(** * The finalize stage ([internal/postproc/stage_finalize.go])

    The last stage that touches a job's files: the download directory
    becomes the final one by one rename, or, when the two are on different
    file systems or the final one exists, file by file; what earlier stages
    queued for deletion goes only then.  A failed job's files stay.

    Error texts are reduced to their constant part, and a context is
    cancelled where its check is given a fault. *)
From S2P Require Import Prelude GoBytes GoText Sanitize GoPath FileTree PostJob.
From stdpp Require Import base numbers gmap sorting list strings.
From Stdlib Require Import ZArith Lia.
Local Open Scope Z_scope.
Local Open Scope go_scope.

Definition pendingDeletionsFile : list Z := bs ".gonzbd-pending-deletions".

Definition plain_err (text : list Z) : stage_err := mkErr text None.

(** [prefixDirName] and [FailedDir] *)
Definition prefixDirName (dir : path) (prefix : list Z) : path := parent dir ++ [prefix ++ base_name dir].
Definition FailedDir (dir : path) : path := prefixDirName dir (bs "_FAILED_").
Definition unpack_dir (dir : path) : path := prefixDirName dir (bs "_UNPACK_").

Definition PathWithin (base target : path) : bool :=
  match Rel (mkPath true base) (mkPath true target) with
  | None => false
  | Some r => negb (bool_decide (head r = Some dotdot))
  end.

Definition removePendingSidecar (dir : path) : fsM unit :=
  do! _ <- os_Remove (dir ++ [pendingDeletionsFile]) in fret tt.

(** [walkFiles]: the regular files below, as slash paths, sorted. *)
Definition walkFiles (dir : path) : fsM (result errno (list (list Z))) :=
  call (fun t => (match t !! dir with
                  | None => Err (missing t dir)
                  | Some _ => Ok (merge_sort str_le ((fun q => join_slash (drop (length dir) q))
                                    <$> base.filter (fun q => is_file t q) (below t dir)))
                  end, t)).

Definition recordWalkedOutputFiles (j : ppjob) : fsM ppjob :=
  match DownloadDir j with
  | None => fret (set_output None j)
  | Some d => do! files <- walkFiles d in
              fret (set_output (match files with Ok l => Some l | Err _ => None end) j)
  end.

Section finalize.
Variable NFC : list Z -> list Z.
Variable stripDiacritics : list Z -> list Z.
Variable Sanitize : SanitizeOptions.
(** [json.Marshal] of the list of deletions. *)
Variable marshal : list path -> list Z.

(** [JoinSafe(dir, "", name)] *)
Definition safe_child (dir : path) (name : list Z) : path := dir ++ JoinSafe NFC stripDiacritics [] name Sanitize.

(** ** The queued deletions *)
Definition deletion_target (dir rel : path) : fsM (option path) :=
  let target := dir ++ rel in
  if negb (PathWithin dir target) then fret None
  else
    do! there <- Lstat target in
    do! target <- fret (match there with
                        | Err ENOENT =>
                            match rel with
                            | [] => target
                            | first :: rest =>
                                let sanitized := safe_child dir first ++ rest in
                                if PathWithin dir sanitized then sanitized else target
                            end
                        | _ => target
                        end) in
    do! there <- Lstat target in
    fret (match there with Err ENOENT => None | _ => Some target end).

Fixpoint delete_each (dir : path) (rels : list path) : fsM unit :=
  match rels with
  | [] => fret tt
  | rel :: rest =>
      do! target <- deletion_target dir rel in
      match target with
      | None => delete_each dir rest
      | Some p => do! _ <- Remove p in delete_each dir rest
      end
  end.

Definition deletePending (j : ppjob) : fsM ppjob :=
  match pendingDeletions j, DownloadDir j with
  | [], _ | _, None => fret j
  | rels, Some d =>
      do! _ <- delete_each d rels in
      do! _ <- removePendingSidecar d in
      fret (clearPendingDeletions j)
  end.

(** ** Moving a tree file by file *)
Inductive move_err : Type := OSError (e : errno) | OutOfFuel.

Definition os {A} (c : fsM (result errno A)) : fsM (result move_err A) :=
  do! r <- c in fret (match r with Ok a => Ok a | Err e => Err (OSError e) end).

(** The entries of a directory in turn, up to the first error. *)
Fixpoint move_each (move : path -> path -> fsM (result move_err unit)) (src dst : path) (names : list (list Z)) : fsM (result move_err unit) :=
  match names with
  | [] => fret (Ok tt)
  | n :: rest =>
      do! r <- move (src ++ [n]) (dst ++ [n]) in
      match r with
      | Err e => fret (Err e)
      | Ok _ => move_each move src dst rest
      end
  end.

Fixpoint moveRecursive (fuel : nat) (isPending : path -> bool) (src dst : path) : fsM (result move_err unit) :=
  match fuel with
  | O => fret (Err OutOfFuel)
  | S k =>
      do! ctx <- noop in
      match ctx with
      | Err e => fret (Err (OSError e))
      | Ok _ =>
          if isPending src then fret (Ok tt)
          else
            do! info <- Lstat src in
            match info with
            | Err e => fret (Err (OSError e))
            | Ok Dir =>
                do! made <- MkdirAll dst in
                match made with
                | Err e => fret (Err (OSError e))
                | Ok _ =>
                    do! entries <- ReadDir src in
                    match entries with
                    | Err e => fret (Err (OSError e))
                    | Ok names =>
                        do! r <- move_each (moveRecursive k isPending) src dst names in
                        match r with
                        | Err e => fret (Err e)
                        | Ok _ =>
                            do! rem <- ReadDir src in
                            match rem with
                            | Ok (_ :: _) => fret (Ok tt)
                            | _ => os (Remove src)
                            end
                        end
                    end
                end
            | Ok _ => os (MoveFile src dst)
            end
      end
  end.

(** Enough fuel: a level of the tree takes one. *)
Definition depth (t : gmap path node) : nat := S (foldr max O (length <$> (map_to_list t).*1)).

(** ** Moving the directory *)

(** The top-level entries; each failure is noted and the rest still moves. *)
Fixpoint move_entries (isPending : path -> bool) (src dest : path) (names : list (list Z)) : fsM (list (list Z)) :=
  match names with
  | [] => fret []
  | n :: rest =>
      if isPending (src ++ [n]) then move_entries isPending src dest rest
      else
        do! t <- get in
        do! r <- moveRecursive (depth t) isPending (src ++ [n]) (safe_child dest n) in
        do! failed <- move_entries isPending src dest rest in
        fret (match r with Ok _ => failed | Err _ => n :: failed end)
  end.

(** The [_UNPACK_] prefix is stripped at the end; a failure is only logged. *)
Definition strip_prefix_dir (strip : bool) (dest final : path) (j : ppjob) : fsM ppjob :=
  if strip then
    do! r <- Rename dest final in
    fret (match r with Ok _ => set_dir (Some final) j | Err _ => j end)
  else fret j.

Definition moveFileByFile (j : ppjob) (d dest final : path) (folderRename : bool) : fsM (ppjob * option stage_err) :=
  do! entries <- ReadDir d in
  match entries with
  | Err _ => fret (j, Some (plain_err (bs "finalize: readdir")))
  | Ok names =>
      do! made <- MkdirAll dest in
      match made with
      | Err _ => fret (j, Some (plain_err (bs "finalize: mkdir")))
      | Ok _ =>
          do! failed <- move_entries (is_pending j) d dest names in
          match failed with
          | _ :: _ => fret (j, Some (plain_err (bs "finalize: partial move")))
          | [] =>
              do! j <- deletePending j in
              do! _ <- RemoveAll d in
              do! j <- strip_prefix_dir folderRename dest final (set_dir (Some dest) j) in
              do! j <- recordWalkedOutputFiles j in
              fret (j, None)
          end
      end
  end.

Definition write_sidecar (j : ppjob) (d : path) : fsM unit :=
  match pendingDeletions j with
  | [] => fret tt
  | rels => do! _ <- WriteAtomicBytes (d ++ [pendingDeletionsFile]) (marshal rels) in fret tt
  end.

Definition moveToDest (j : ppjob) (d dest final : path) (folderRename : bool) : fsM (ppjob * option stage_err) :=
  do! made <- MkdirAll (parent dest) in
  match made with
  | Err _ => fret (j, Some (plain_err (bs "finalize: mkdir")))
  | Ok _ =>
      do! _ <- write_sidecar j d in
      do! r <- Rename d dest in
      match r with
      | Ok _ =>
          do! j <- deletePending (set_dir (Some dest) j) in
          do! j <- strip_prefix_dir folderRename dest final j in
          do! j <- recordWalkedOutputFiles j in
          fret (j, None)
      | Err e =>
          do! _ <- removePendingSidecar d in
          if negb (IsRenameMergeNeeded e) then fret (j, Some (plain_err (bs "finalize: rename")))
          else moveFileByFile j d dest final folderRename
      end
  end.

(** ** The stage *)
Definition handleFailure (j : ppjob) (folderRename : bool) : fsM (ppjob * option stage_err) :=
  do! j <- match DownloadDir j with
           | Some d => if folderRename then
                         do! r <- Rename d (FailedDir d) in
                         fret (match r with Ok _ => set_dir (Some (FailedDir d)) j | Err _ => j end)
                       else fret j
           | None => fret j
           end in
  do! j <- recordWalkedOutputFiles j in
  fret (j, None).

(** Is the directory reached through [_UNPACK_]: when folders are renamed, or
    when deletions are queued and the final directory is not there yet. *)
Definition via_unpack (j : ppjob) (final : path) (folderRename : bool) : fsM bool :=
  if folderRename then fret true
  else if bool_decide (pendingDeletions j = []) then fret false
  else do! there <- Lstat final in fret (match there with Err ENOENT => true | _ => false end).

Definition fail_with (e : stage_err) (j : ppjob) : fsM (ppjob * option stage_err) :=
  do! j <- recordWalkedOutputFiles (set_fail (err_text e) j) in fret (j, Some e).

Definition Run (folderRename : bool) (j : ppjob) : fsM (ppjob * option stage_err) :=
  if Failed j then handleFailure j folderRename
  else
    match FinalDir j with
    | None => fail_with (plain_err (bs "finalize: FinalDir not set")) j
    | Some final =>
        do! _ <- match DownloadDir j with Some d => removePendingSidecar d | None => fret tt end in
        if bool_decide (DownloadDir j = Some final) then
          do! j <- deletePending j in
          do! j <- recordWalkedOutputFiles j in
          fret (j, None)
        else
          do! staged <- via_unpack j final folderRename in
          let dest := if staged then unpack_dir final else final in
          do! r <- match DownloadDir j with
                   | Some d => moveToDest j d dest final staged
                   | None => fret (j, Some (plain_err (bs "finalize: rename")))
                   end in
          match snd r with
          | None => fret r
          | Some e => fail_with e (fst r)
          end
    end.
End finalize.
