(* ===== verification/FinalizeMove.v ===== *)
(** * Moving files loses none ([Finalize.moveRecursive])

    What a move of one subtree, and of several side by side, does to the
    tree, whichever calls fail and wherever it stops. *)
From S2P Require Import Prelude GoBytes GoText Sanitize GoPath FileTree FileTreeProps PostJob Finalize.
From stdpp Require Import base numbers gmap sorting list strings.
From Stdlib Require Import ZArith Lia.
Local Open Scope go_scope.

(** Nothing that is not a directory lies where a node of [s] would go. *)
Definition noclash (s d : path) (t : gmap path node) : Prop :=
  forall r n, t !! (s ++ r) = Some n -> n <> Dir -> t !! (d ++ r) = None \/ t !! (d ++ r) = Some Dir.

(** Part of [s] is now under [d]: nodes elsewhere stay, new ones are under
    [d] or on the way to it, and each file of [s] is in one of the two. *)
Record moved (s d : path) (t t' : gmap path node) : Prop := {
  mv_wf : wf_tree t';
  mv_keep : forall p n, ~ s `prefix_of` p -> t !! p = Some n -> t' !! p = Some n;
  mv_new : forall p n, ~ s `prefix_of` p -> t' !! p = Some n -> t !! p = Some n \/ d `prefix_of` p \/ p `prefix_of` d;
  mv_file : forall r c, t !! (s ++ r) = Some (File c) -> t' !! (s ++ r) = Some (File c) \/ t' !! (d ++ r) = Some (File c);
  mv_rest : forall r n, t' !! (s ++ r) = Some n -> t !! (s ++ r) = Some n
}.

(** Every file of [s] that does not wait for its deletion is under [d]. *)
Definition arrived (P : path -> bool) (s d : path) (t t' : gmap path node) : Prop :=
  forall r c, t !! (s ++ r) = Some (File c) -> P (s ++ r) = false -> t' !! (d ++ r) = Some (File c).

Lemma moved_refl s d t : wf_tree t -> moved s d t t.
Proof. intros. split; auto. Qed.

Lemma prefix_app_self (a r : path) : a `prefix_of` a ++ r.
Proof. by exists r. Qed.

Lemma leaf_alone t p r n m : wf_tree t -> t !! p = Some n -> n <> Dir -> t !! (p ++ r) = Some m -> r = [].
Proof. intros Hw Hp Hn Hr. destruct r; [done|]. apply wf_above in Hr; [congruence|done|done]. Qed.

Lemma free_below t p r : wf_tree t -> t !! p = None -> t !! (p ++ r) = None.
Proof.
  intros Hw Hp. destruct (t !! (p ++ r)) eqn:E; [|done]. destruct r; [by rewrite app_nil_r in E; congruence|].
  apply wf_above in E; [congruence|done|done].
Qed.

Lemma moved_rename s d t n : wf_tree t -> disj s d -> d <> [] -> t !! s = Some n -> n <> Dir -> t !! d = None -> t !! parent d = Some Dir ->
  moved s d t (move_tree t s d) /\ forall P, arrived P s d t (move_tree t s d).
Proof.
  intros Hw Hd Hdn Hs Hn Hfree Hp. split; [split|].
  - apply wf_move_tree; eauto.
  - intros p m Hsp H. apply lookup_move_tree; [done|]. right. split; [done|]. split; [|done]. intros [r ->].
    by rewrite free_below in H.
  - intros p m Hsp H. apply lookup_move_tree in H as [(r & -> & _)|(_ & _ & H)]; [|by left|done]. right. left. apply prefix_app_self.
  - intros r c H. right. by rewrite move_tree_dst.
  - intros r m H. apply lookup_move_tree in H as [(r' & E & H)|(H1 & _ & H)]; [|by destruct H1; apply prefix_app_self|done].
    destruct (disj_below s d r); [done|]. rewrite E. apply prefix_app_self.
  - intros P r c H _. by rewrite move_tree_dst.
Qed.

Lemma moved_created s d t x : wf_tree t -> disj s d -> d <> [] -> t !! d = None -> t !! parent d = Some Dir -> moved s d t (<[d := File x]> t).
Proof.
  intros Hw Hd Hdn Hfree Hp.
  assert (forall r, s ++ r <> d) as Hne by (intros r <-; destruct Hd as [H _]; destruct H; apply prefix_app_self).
  split.
  - apply wf_insert; [done|done|done|congruence].
  - intros p n _ H. rewrite lookup_insert_ne; [done|]. intros ->. congruence.
  - intros p n _ H. apply lookup_insert_Some in H as [[-> _]|[_ H]]; auto.
  - intros r c H. left. by rewrite lookup_insert_ne by (symmetry; apply Hne).
  - intros r n H. by rewrite lookup_insert_ne in H by (symmetry; apply Hne).
Qed.

Lemma moved_copied s d t c t2 : wf_tree t -> disj s d -> d <> [] -> t !! s = Some (File c) -> t !! d = None -> t !! parent d = Some Dir ->
  pruned s (<[d := File c]> t) t2 -> moved s d t t2 /\ forall P, arrived P s d t t2.
Proof.
  intros Hw Hd Hdn Hs Hfree Hp Hpr.
  assert (d <> s) as Hne by (intros ->; by destruct Hd).
  assert (t2 !! d = Some (File c)) as Hc by (rewrite (pruned_ne _ _ _ _ Hpr) by done; apply lookup_insert_eq).
  assert (forall r m, t !! (s ++ r) = Some m -> r = [] /\ m = File c) as Hleaf.
  { intros r m H. pose proof (leaf_alone _ _ _ _ _ Hw Hs ltac:(done) H) as ->. rewrite app_nil_r in H. by simplify_eq. }
  destruct (moved_created s d t c) as [M1 M2 M3 M4 M5]; [done..|]. split; [split|].
  - by eapply pruned_wf.
  - intros p n Hsp H. rewrite (pruned_ne _ _ _ _ Hpr); [auto|]. intros ->. by destruct Hsp.
  - intros p n Hsp H. apply (M3 p n Hsp). by eapply pruned_lookup.
  - intros r c' H. destruct (Hleaf _ _ H) as [-> ?]. simplify_eq. right. by rewrite app_nil_r.
  - intros r n H. apply M5. by eapply pruned_lookup.
  - intros P r c' H _. destruct (Hleaf _ _ H) as [-> ?]. simplify_eq. by rewrite app_nil_r.
Qed.

Lemma wp_discard s d t e (x : list Z) :
  wf_tree t -> disj s d -> d <> [] -> t !! d = None -> t !! parent d = Some Dir ->
  wp (discard d e) (fun r t' => moved s d t t' /\ r = Err e) (<[d := File x]> t).
Proof.
  intros Hw Hd Hdn Hfree Hp. unfold discard. apply wp_bind. eapply wp_mono; [apply wp_os_Remove_pruned|]. intros r t' H. apply wp_ret.
  split; [|done]. destruct H as [->|[-> _]]; [by apply moved_created|]. rewrite delete_insert_id by done. by apply moved_refl.
Qed.

Lemma wp_copyAndRemove s d t n :
  wf_tree t -> disj s d -> d <> [] -> t !! s = Some n -> n <> Dir -> t !! d = None \/ t !! d = Some Dir ->
  wp (copyAndRemove s d) (fun r t' => moved s d t t' /\ (r = Ok tt -> forall P, arrived P s d t t')) t.
Proof.
  intros Hw Hd Hdn Hs Hn Hfree. unfold copyAndRemove. apply wp_bind, wp_Lstat; [intros e; apply wp_ret; split; [by apply moved_refl|done]|].
  intros n' Hn'. simplify_eq. destruct n as [c| |]; [|done|apply wp_ret; split; [by apply moved_refl|done]].
  apply wp_bind, wp_noop. intros [u|e]; [|apply wp_ret; split; [by apply moved_refl|done]].
  apply wp_bind, wp_call; [intros e; apply wp_ret; split; [by apply moved_refl|done]|].
  destruct Hfree as [Hfree|Hdir]; [|rewrite Hdir; apply wp_ret; split; [by apply moved_refl|done]]. rewrite Hfree.
  case_bool_decide as Hp; simpl; [apply wp_ret; split; [by apply moved_refl|done]|].
  assert (forall x e, wp (discard d e) (fun r t' => moved s d t t' /\ (r = Ok tt -> forall P, arrived P s d t t')) (<[d := File x]> t)) as Hdis.
  { intros x e. eapply wp_mono; [by apply wp_discard|]. intros r t' [H ->]. by split. }
  apply wp_bind, wp_Copy; [intros e k|]; rewrite insert_insert_eq; [apply Hdis|].
  apply wp_bind, wp_noop. intros [u'|e]; [|apply Hdis]. apply wp_bind, wp_noop. intros [u''|e]; [|apply Hdis].
  eapply wp_mono; [apply wp_os_Remove_pruned|]. intros r t' Hpr.
  destruct (moved_copied s d t c t') as [M A]; [done..|]. by split.
Qed.

Lemma wp_MoveFile s d t n :
  wf_tree t -> disj s d -> d <> [] -> t !! s = Some n -> n <> Dir -> noclash s d t ->
  wp (MoveFile s d) (fun r t' => moved s d t t' /\ (r = Ok tt -> forall P, arrived P s d t t')) t.
Proof.
  intros Hw Hd Hdn Hs Hn Hc. pose proof (Hc [] n) as Hfree. rewrite !app_nil_r in Hfree. specialize (Hfree Hs Hn).
  unfold MoveFile. apply wp_bind.
  assert (forall e, wp (if bool_decide (e = EXDEV) then copyAndRemove s d else fret (Err e))
                      (fun r t' => moved s d t t' /\ (r = Ok tt -> forall P, arrived P s d t t')) t) as Herr.
  { intros e. case_bool_decide; [by eapply wp_copyAndRemove|]. apply wp_ret. split; [by apply moved_refl|done]. }
  apply wp_call; [apply Herr|]. rewrite Hs.
  destruct Hfree as [Hfree|Hdir]; [rewrite Hfree|rewrite Hdir; by destruct n; try exact (Herr EEXIST)].
  destruct n as [c| |]; [|done|]; rewrite (bool_decide_eq_false_2 (s = d)) by (intros ->; by destruct Hd).
  all: case_bool_decide as Hp; simpl; [apply Herr|]; rewrite (proj2 (is_prefix_false s d) (proj1 Hd)); simpl.
  all: apply wp_ret; edestruct moved_rename as [M A]; [exact Hw|exact Hd|exact Hdn|exact Hs|done|exact Hfree|done|]; by split.
Qed.

(** ** Several moves side by side *)
Record moved_all (L : list (path * path)) (t t' : gmap path node) : Prop := {
  ma_wf : wf_tree t';
  ma_keep : forall p n, (forall s d, (s, d) ∈ L -> ~ s `prefix_of` p) -> t !! p = Some n -> t' !! p = Some n;
  ma_new : forall p n, (forall s d, (s, d) ∈ L -> ~ s `prefix_of` p) -> t' !! p = Some n ->
           t !! p = Some n \/ exists s d, (s, d) ∈ L /\ (d `prefix_of` p \/ p `prefix_of` d);
  ma_file : forall s d, (s, d) ∈ L -> forall r c, t !! (s ++ r) = Some (File c) -> t' !! (s ++ r) = Some (File c) \/ t' !! (d ++ r) = Some (File c);
  ma_rest : forall s d, (s, d) ∈ L -> forall r n, t' !! (s ++ r) = Some n -> t !! (s ++ r) = Some n
}.

Definition apart (s d : path) (L : list (path * path)) : Prop :=
  forall s' d', (s', d') ∈ L -> disj s s' /\ disj s d' /\ disj d s' /\ disj d d'.

Lemma moved_all_refl L t : wf_tree t -> moved_all L t t.
Proof. intros. split; auto. Qed.

Lemma keep_of L s d t t' r n : moved_all L t t' -> apart s d L -> t !! (s ++ r) = Some n -> t' !! (s ++ r) = Some n.
Proof.
  intros M A H. eapply ma_keep; [done| |done]. intros s' d' Hin Hp. destruct (A _ _ Hin) as (H1 & _).
  by apply (disj_below s s' r).
Qed.

Lemma keep_of_dst L s d t t' r n : moved_all L t t' -> apart s d L -> t !! (d ++ r) = Some n -> t' !! (d ++ r) = Some n.
Proof.
  intros M A H. eapply ma_keep; [done| |done]. intros s' d' Hin Hp. destruct (A _ _ Hin) as (_ & _ & H1 & _).
  by apply (disj_below d s' r).
Qed.

Lemma disj_not_on (a b : path) r : disj a b -> ~ (a `prefix_of` b ++ r \/ b ++ r `prefix_of` a).
Proof.
  intros Hd [H|H]; [by apply (disj_below b a r); [apply disj_sym|]|]. destruct Hd as [_ Hd]. apply Hd. by eapply prefix_app_l.
Qed.

Lemma old_of L s d t t' r n : moved_all L t t' -> apart s d L -> t' !! (s ++ r) = Some n -> t !! (s ++ r) = Some n.
Proof.
  intros M A H. destruct (ma_new _ _ _ M (s ++ r) n) as [|(s' & d' & Hin & Hon)]; [|done|done|].
  - intros s' d' Hin Hp. destruct (A _ _ Hin) as (H1 & _). by apply (disj_below s s' r).
  - exfalso. destruct (A _ _ Hin) as (_ & H2 & _). by apply (disj_not_on d' s r); [apply disj_sym|].
Qed.

Lemma moved_keep_other s d t t1 L s' d' r n : moved s d t t1 -> apart s d L -> (s', d') ∈ L -> t !! (s' ++ r) = Some n <-> t1 !! (s' ++ r) = Some n.
Proof.
  intros M A Hin. destruct (A _ _ Hin) as (H1 & H2 & H3 & H4).
  assert (~ s `prefix_of` s' ++ r) as Hs by (apply disj_below, disj_sym, H1). split; [by apply (mv_keep _ _ _ _ M)|].
  intros H. destruct (mv_new _ _ _ _ M _ _ Hs H) as [|Hon]; [done|]. exfalso. by apply (disj_not_on d s' r).
Qed.

Lemma moved_keep_other_dst s d t t1 L s' d' r n : moved s d t t1 -> apart s d L -> (s', d') ∈ L -> t !! (d' ++ r) = Some n <-> t1 !! (d' ++ r) = Some n.
Proof.
  intros M A Hin. destruct (A _ _ Hin) as (H1 & H2 & H3 & H4).
  assert (~ s `prefix_of` d' ++ r) as Hs by (apply disj_below, disj_sym, H2). split; [by apply (mv_keep _ _ _ _ M)|].
  intros H. destruct (mv_new _ _ _ _ M _ _ Hs H) as [|Hon]; [done|]. exfalso. by apply (disj_not_on d d' r).
Qed.

Lemma moved_all_cons s d L t t1 t2 : apart s d L -> moved s d t t1 -> moved_all L t1 t2 -> moved_all ((s, d) :: L) t t2.
Proof.
  intros A M1 M2. split.
  - apply M2.
  - intros p n Hp H. eapply ma_keep; [done| |]; [intros; eapply Hp; by right|]. eapply mv_keep; [done|eapply Hp; by left|done].
  - intros p n Hp H. destruct (ma_new _ _ _ M2 p n) as [H1|(s' & d' & Hin & Hon)]; [intros; eapply Hp; by right|done| |].
    + destruct (mv_new _ _ _ _ M1 p n) as [|Hon]; [eapply Hp; by left|done|by left|]. right. exists s, d. split; [by left|done].
    + right. exists s', d'. split; [by right|done].
  - intros s' d' Hin r c H. apply elem_of_cons in Hin as [Heq|Hin].
    + simplify_eq. destruct (mv_file _ _ _ _ M1 r c H) as [H1|H1]; [left; by eapply keep_of|right; by eapply keep_of_dst].
    + apply (ma_file _ _ _ M2 _ _ Hin). by apply (moved_keep_other s d t t1 L s' d' r).
  - intros s' d' Hin r n H. apply elem_of_cons in Hin as [Heq|Hin].
    + simplify_eq. eapply mv_rest; [done|]. by eapply old_of.
    + apply (moved_keep_other s d t t1 L s' d' r); [done..|]. by eapply ma_rest.
Qed.

(** What a move needs: room at its target, no directory that waits for its
    deletion, and fuel for the levels of the tree. *)
Record movable (P : path -> bool) (f : nat) (s d : path) (t : gmap path node) : Prop := {
  mo_there : is_Some (t !! s);
  mo_room : noclash s d t;
  mo_pending : forall r, P (s ++ r) = true -> t !! (s ++ r) <> Some Dir;
  mo_depth : forall r n, t !! (s ++ r) = Some n -> length r < f
}.

Lemma movable_other P f s d t t1 L s' d' : moved s d t t1 -> apart s d L -> (s', d') ∈ L -> movable P f s' d' t -> movable P f s' d' t1.
Proof.
  intros M A Hin [H0 H1 H2 H3].
  pose proof (moved_keep_other s d t t1 L s' d') as Hs. pose proof (moved_keep_other_dst s d t t1 L s' d') as Hd. split.
  - destruct H0 as [n H0]. exists n. rewrite <- (app_nil_r s'), <- Hs, app_nil_r; done.
  - intros r n H Hn. rewrite <- Hs in H by done. destruct (t1 !! (d' ++ r)) as [m|] eqn:E; [|by left]. right.
    rewrite <- Hd in E by done. destruct (H1 r n H Hn); congruence.
  - intros r Hp H. rewrite <- Hs in H by done. by apply (H2 r Hp).
  - intros r n H. rewrite <- Hs in H by done. eauto.
Qed.

(** A move of one subtree that does what [moved] says. *)
Definition good_move (P : path -> bool) (f : nat) (move : path -> path -> fsM (result move_err unit)) : Prop :=
  forall s d t, wf_tree t -> disj s d -> d <> [] -> movable P f s d t ->
  wp (move s d) (fun res t' => moved s d t t' /\ (res = Ok tt -> arrived P s d t t') /\ res <> Err OutOfFuel) t.

Lemma arrived_later P s d L t t1 t2 : arrived P s d t t1 -> apart s d L -> moved_all L t1 t2 -> arrived P s d t t2.
Proof. intros H A M r c Hr Hp. eapply keep_of_dst; [done|done|]. by apply H. Qed.

Lemma arrived_before P s d L s' d' t t1 t2 : moved s d t t1 -> apart s d L -> (s', d') ∈ L -> arrived P s' d' t1 t2 -> arrived P s' d' t t2.
Proof. intros M A Hin H r c Hr Hp. apply H; [|done]. by apply (moved_keep_other s d t t1 L s' d' r). Qed.

Lemma wp_move_each P f move src dst names t :
  good_move P f move -> wf_tree t -> disj src dst -> NoDup names ->
  (forall n, n ∈ names -> movable P f (src ++ [n]) (dst ++ [n]) t) ->
  let L := (fun n => (src ++ [n], dst ++ [n])) <$> names in
  wp (move_each move src dst names) (fun res t' => moved_all L t t' /\ (res = Ok tt -> forall s d, (s, d) ∈ L -> arrived P s d t t')
                                                   /\ res <> Err OutOfFuel) t.
Proof.
  intros Hgood Hw Hd Hnd Hm. revert t Hw Hm.
  induction Hnd as [|n names Hn Hnd IH]; intros t Hw Hm; simpl.
  { apply wp_ret. split; [by apply moved_all_refl|]. split; [|done]. intros _ s d H. by apply elem_of_nil in H. }
  set (L := (fun n => (src ++ [n], dst ++ [n])) <$> names). simpl in IH. fold L in IH.
  assert (apart (src ++ [n]) (dst ++ [n]) L) as A.
  { intros s' d' Hin. apply list_elem_of_fmap in Hin as (m & ? & Hm'). simplify_eq. assert (n <> m) by (by intros ->).
    split; [by apply disj_children|]. split; [by apply disj_ext|]. split; [by apply disj_ext, disj_sym|by apply disj_children]. }
  apply wp_bind. eapply wp_mono; [apply Hgood; [done|by apply disj_ext|by destruct dst|apply Hm; by left]|].
  intros r t1 (M & Ar & Hf). destruct r as [[]|e].
  - eapply wp_mono; [apply IH; [apply M|]|].
    + intros m Hin. eapply movable_other; [done|done| |apply Hm; by right]. apply list_elem_of_fmap. by exists m.
    + intros r t2 (M2 & Ar2 & Hf2). split; [by eapply moved_all_cons|]. split; [|done]. intros Hr s d Hin.
      apply elem_of_cons in Hin as [?|Hin]; simplify_eq; [by eapply arrived_later; [apply Ar|..]|].
      eapply arrived_before; [done|done|done|]. by apply Ar2.
  - apply wp_ret. split; [eapply moved_all_cons; [done|done|apply moved_all_refl, M]|]. split; [done|]. intros ?. by simplify_eq.
Qed.

(** ** A whole subtree *)
Definition children_pairs (t : gmap path node) (s d : path) : list (path * path) := (fun n => (s ++ [n], d ++ [n])) <$> children t s.

Lemma children_NoDup t p : NoDup (children t p).
Proof.
  unfold children. rewrite merge_sort_Permutation. pose proof (NoDup_fst_map_to_list t) as Hn.
  induction Hn as [|q l Hq Hl IH]; simpl; [constructor|]. destruct (_ && _) eqn:E; [|done]. destruct (last q) as [x|] eqn:Hx; [|done].
  constructor; [|done]. intros Hin. apply list_elem_of_omap in Hin as (q' & Hq' & H). case_match eqn:E'; [|done].
  apply andb_true_iff in E as [E _], E' as [E' _]. apply bool_decide_eq_true in E, E'. subst p.
  destruct q as [|y q _] using rev_ind; [done|]. destruct q' as [|y' q' _] using rev_ind; [done|].
  rewrite !parent_snoc in E'. rewrite !last_snoc in *. by simplify_eq.
Qed.

Lemma in_children_pairs t s d n r m : wf_tree t -> t !! (s ++ n :: r) = Some m -> (s ++ [n], d ++ [n]) ∈ children_pairs t s d.
Proof.
  intros Hw H. apply list_elem_of_fmap. exists n. split; [done|]. apply elem_children. rewrite cons_middle, app_assoc in H.
  destruct r; [rewrite app_nil_r in H; eauto|]. apply wf_above in H; eauto.
Qed.

Lemma not_under_children t s d s' d' p : (s', d') ∈ children_pairs t s d -> ~ s `prefix_of` p -> ~ s' `prefix_of` p.
Proof. intros Hin Hp H. apply list_elem_of_fmap in Hin as (n & ? & _). simplify_eq. apply Hp. by eapply prefix_app_l. Qed.

(** The directory's own part in the move of its children. *)
Lemma moved_dir s d t t1 t2 t3 : wf_tree t -> disj s d -> t !! s = Some Dir -> made d t t1 ->
  moved_all (children_pairs t1 s d) t1 t2 -> t3 = t2 \/ pruned s t2 t3 -> moved s d t t3.
Proof.
  intros Hw Hd Hs (Hw1 & K1 & N1) M Hp.
  assert (forall q, q <> s -> t3 !! q = t2 !! q) as K3 by (intros q Hq; destruct Hp as [->|Hp]; [done|by apply (pruned_ne _ _ _ _ Hp)]).
  assert (forall q n, t3 !! q = Some n -> t2 !! q = Some n) as N3 by (intros q n H; destruct Hp as [->|Hp]; [done|by eapply pruned_lookup]).
  assert (forall r n, t1 !! (s ++ r) = Some n -> t !! (s ++ r) = Some n) as O1.
  { intros r n H. destruct (N1 _ _ H) as [|[Hpre _]]; [done|]. exfalso. apply (proj1 Hd). by eapply prefix_app_l. }
  assert (forall n r, s ++ n :: r <> s) as Hne by (intros n r E; apply (f_equal length) in E; rewrite length_app in E; simpl in E; lia).
  assert (forall n (r : path), s ++ n :: r = (s ++ [n]) ++ r) as Ha by (intros; by rewrite <- app_assoc).
  split.
  - destruct Hp as [->|Hp]; [apply M|]. eapply pruned_wf; [apply M|done].
  - intros p n Hsp H. rewrite K3 by (intros ->; by destruct Hsp). eapply ma_keep; [done| |by apply K1].
    intros s' d' Hin. by eapply not_under_children.
  - intros p n Hsp H. apply N3 in H. destruct (ma_new _ _ _ M p n) as [H1|(s' & d' & Hin & Hon)]; [|done| |].
    + intros s' d' Hin. by eapply not_under_children.
    + destruct (N1 _ _ H1) as [|[? _]]; auto.
    + right. apply list_elem_of_fmap in Hin as (m & ? & _). simplify_eq. destruct Hon as [Hon|[k E]]; [left; by eapply prefix_app_l|].
      destruct k as [|x k _] using rev_ind; [rewrite app_nil_r in E; subst; left; apply prefix_app_self|].
      rewrite app_assoc in E. apply app_inj_tail in E as [-> _]. right. apply prefix_app_self.
  - intros r c H. destruct r as [|n r]; [rewrite app_nil_r in H; congruence|]. pose proof (K1 _ _ H) as H1.
    pose proof (in_children_pairs t1 s d n r _ Hw1 H1) as Hin. rewrite Ha in H1.
    destruct (ma_file _ _ _ M _ _ Hin _ _ H1) as [H2|H2]; rewrite <- app_assoc in H2; simpl in H2.
    + left. by rewrite K3.
    + right. rewrite K3; [done|]. intros E. apply (proj2 Hd). rewrite <- E. apply prefix_app_self.
  - intros r n H. apply N3 in H. apply O1.
    assert ((forall s' d', (s', d') ∈ children_pairs t1 s d -> ~ s' `prefix_of` s ++ r) -> t1 !! (s ++ r) = Some n) as Hout.
    { intros Hn. destruct (ma_new _ _ _ M _ _ Hn H) as [|(s' & d' & Hin & Hon)]; [done|]. exfalso.
      apply list_elem_of_fmap in Hin as (m & ? & _). simplify_eq. apply (disj_not_on (d ++ [m]) s r); [|done].
      rewrite <- (app_nil_r s). by apply disj_ext, disj_sym. }
    destruct r as [|x r]; [apply Hout; intros s' d' Hin; apply list_elem_of_fmap in Hin as (m & ? & _); simplify_eq; rewrite app_nil_r; apply prefix_snoc_not|].
    destruct (decide (x ∈ children t1 s)) as [Hx|Hx].
    + rewrite Ha in *. eapply ma_rest; [done| |done]. apply list_elem_of_fmap. by exists x.
    + apply Hout. intros s' d' Hin Hpre. apply list_elem_of_fmap in Hin as (m & ? & Hm). simplify_eq.
      apply prefix_app_inv, prefix_cons_inv_1 in Hpre. by subst.
Qed.

Lemma arrived_dir P s d t t1 t2 t3 : wf_tree t -> disj s d -> t !! s = Some Dir -> made d t t1 ->
  (forall s' d', (s', d') ∈ children_pairs t1 s d -> arrived P s' d' t1 t2) -> t3 = t2 \/ pruned s t2 t3 -> arrived P s d t t3.
Proof.
  intros Hw Hd Hs (Hw1 & K1 & _) Ar Hp r c H HP.
  assert (t3 !! (d ++ r) = t2 !! (d ++ r)) as ->.
  { destruct Hp as [->|Hp]; [done|]. apply (pruned_ne _ _ _ _ Hp). intros E. apply (proj2 Hd). rewrite <- E. apply prefix_app_self. }
  destruct r as [|n r]; [rewrite app_nil_r in H; congruence|]. apply K1 in H.
  pose proof (in_children_pairs t1 s d n r _ Hw1 H) as Hin. rewrite (cons_middle n s r), app_assoc in H, HP.
  pose proof (Ar _ _ Hin _ _ H HP) as Hr. by rewrite <- app_assoc in Hr.
Qed.

Lemma movable_child P f s d t n : disj s d -> movable P (S f) s d t -> n ∈ children t s -> movable P f (s ++ [n]) (d ++ [n]) t.
Proof.
  intros Hd [_ H1 H2 H3] Hn. apply elem_children in Hn. split; [done|..].
  - intros r m. rewrite <- !app_assoc. apply H1.
  - intros r. rewrite <- app_assoc. apply H2.
  - intros r m H. rewrite <- app_assoc in H. apply H3 in H. simpl in H. lia.
Qed.

Lemma movable_made P f s d t t1 : disj s d -> movable P f s d t -> made d t t1 -> movable P f s d t1.
Proof.
  intros Hd [[m H0] H1 H2 H3] (_ & K & N).
  assert (forall r n, t1 !! (s ++ r) = Some n -> t !! (s ++ r) = Some n) as O.
  { intros r n H. destruct (N _ _ H) as [|[Hpre _]]; [done|]. exfalso. apply (proj1 Hd). by eapply prefix_app_l. }
  split.
  - eauto.
  - intros r n H Hn. destruct (t1 !! (d ++ r)) as [k|] eqn:E; [|by left]. right. destruct (N _ _ E) as [E'|[_ ->]]; [|done].
    destruct (H1 r n (O _ _ H) Hn); congruence.
  - intros r HP H. by apply (H2 r HP), O.
  - intros r n H. eauto.
Qed.

Lemma wp_moveRecursive P f : good_move P f (moveRecursive f P).
Proof.
  induction f as [|f IH]; intros s d t Hw Hd Hdn Hm.
  { destruct Hm as [[n H0] _ _ H3]. rewrite <- (app_nil_r s) in H0. apply H3 in H0. simpl in H0. lia. }
  assert (forall res, res <> Ok tt -> res <> Err OutOfFuel -> moved s d t t /\ (res = Ok tt -> arrived P s d t t) /\ res <> Err OutOfFuel) as Hsame.
  { intros res H1 H2. split; [by apply moved_refl|]. split; [done|done]. }
  assert (forall c t0, wp c (fun r t' => moved s d t t' /\ (r = Ok tt -> arrived P s d t t')) t0 ->
                  wp (os c) (fun res t' => moved s d t t' /\ (res = Ok tt -> arrived P s d t t') /\ res <> Err OutOfFuel) t0) as Hos.
  { intros c t0 H. apply wp_bind. eapply wp_mono; [exact H|]. intros [[]|e] t' [H1 H2]; apply wp_ret; (split; [done|]); split; auto; done. }
  simpl. apply wp_bind, wp_noop. intros [u|e]; [|by apply wp_ret, Hsame]. destruct (P s) eqn:HP.
  { apply wp_ret. split; [by apply moved_refl|]. split; [|done]. intros _ r c H HPr. exfalso.
    pose proof (mo_pending _ _ _ _ _ Hm []) as Hnd. rewrite app_nil_r in Hnd. specialize (Hnd HP).
    destruct r; [rewrite app_nil_r in HPr; congruence|]. apply Hnd. by eapply wf_above. }
  apply wp_bind, wp_Lstat; [intros e; by apply wp_ret, Hsame|]. intros n Hn. destruct n as [c| |].
  1,3: apply Hos; eapply wp_mono; [eapply wp_MoveFile; [done..|apply Hm]|]; intros r t' [M A]; by split; [|intros Hr; apply A].
  apply wp_bind. eapply wp_mono; [by apply wp_MkdirAll|]. intros [[]|e] t1 [Hmade Hdir].
  2: { apply wp_ret. split; [|by split].
       apply (moved_dir s d t t1 t1); [done|done|done|done|by apply moved_all_refl, Hmade|by left]. }
  pose proof (movable_made _ _ _ _ _ _ Hd Hm Hmade) as Hm1.
  assert (forall t2, moved_all (children_pairs t1 s d) t1 t2 -> forall res, res <> Ok tt -> res <> Err OutOfFuel ->
     moved s d t t2 /\ (res = Ok tt -> arrived P s d t t2) /\ res <> Err OutOfFuel) as Hstop.
  { intros t2 M res H1 H2. split; [|by split]. apply (moved_dir s d t t1 t2); auto. }
  apply wp_bind, wp_ReadDir; [intros e; apply wp_ret, Hstop; [apply moved_all_refl, Hmade|done|done]|]. intros Hs1.
  apply wp_bind. eapply wp_mono; [apply (wp_move_each P f); [apply IH|apply Hmade|done|apply children_NoDup|]|].
  { intros m Hin. by apply movable_child. }
  fold (children_pairs t1 s d). intros r t2 (M & Ar & Hf). simpl. destruct r as [[]|e]; [|by apply wp_ret, Hstop].
  specialize (Ar eq_refl).
  assert (forall t3, t3 = t2 \/ pruned s t2 t3 -> moved s d t t3 /\ arrived P s d t t3) as Hend.
  { intros t3 Hp. split; [by apply (moved_dir s d t t1 t2)|by apply (arrived_dir P s d t t1 t2)]. }
  assert (wp (os (Remove s)) (fun res t' => moved s d t t' /\ (res = Ok tt -> arrived P s d t t') /\ res <> Err OutOfFuel) t2) as Hrm.
  { apply Hos. eapply wp_mono; [apply wp_Remove|]. intros r t3 Hp. destruct (Hend t3); auto. }
  apply wp_bind, wp_ReadDir; [done|]. intros _. destruct (children t2 s); [done|].
  apply wp_ret. destruct (Hend t2); auto.
Qed.
