(* ===== verification/FinalizeProps.v ===== *)
(** * Finalize keeps every file ([internal/postproc/stage_finalize.go])

    The theorem on [Finalize.Run]: whichever calls fail, a file of the job
    that does not wait for its deletion is afterwards where the job says its
    files are, or still where it was. *)
From S2P Require Import Prelude GoBytes GoText Sanitize GoPath FileTree FileTreeProps PostJob Finalize FinalizeMove.
From stdpp Require Import base numbers gmap sorting list strings.
From Stdlib Require Import ZArith Lia.
Local Open Scope go_scope.

(** ** Calls that leave the files alone *)
Lemma wp_recordWalked j t : wp (recordWalkedOutputFiles j) (fun j' t' => t' = t /\ exists o, j' = set_output o j) t.
Proof.
  unfold recordWalkedOutputFiles. destruct (DownloadDir j); [|apply wp_ret; split; [done|by eexists]].
  apply wp_bind, wp_call; [intros e; apply wp_ret; split; [done|by eexists]|]. destruct (t !! l); apply wp_ret; (split; [done|by eexists]).
Qed.

Lemma wp_Rename s d t Q : disj s d -> (forall e, Q (Err e) t) ->
  (is_Some (t !! s) -> t !! d <> Some Dir -> t !! parent d = Some Dir -> Q (Ok tt) (move_tree t s d)) -> wp (Rename s d) Q t.
Proof.
  intros Hd He Hok. apply wp_call; [done|].
  destruct (t !! s) as [n|] eqn:Hs; [|apply He]. destruct (t !! d) as [m|] eqn:Hdd.
  - destruct m; destruct n; try apply He; rewrite (bool_decide_eq_false_2 (s = d)) by (intros ->; by destruct Hd);
      case_bool_decide as Hp; simpl; try apply He; rewrite (proj2 (is_prefix_false s d) (proj1 Hd)); apply Hok; eauto; congruence.
  - assert (Q (Ok tt) (move_tree t s d) \/ t !! parent d <> Some Dir) as Hq by (destruct (decide (t !! parent d = Some Dir)); [left; apply Hok; eauto|by right]).
    destruct n; rewrite (bool_decide_eq_false_2 (s = d)) by (intros ->; by destruct Hd);
      case_bool_decide as Hp; simpl; try apply He; rewrite (proj2 (is_prefix_false s d) (proj1 Hd)); simpl; by destruct Hq.
Qed.

(** Only what is at one of [ps] can go. *)
Definition trimmed (ps : path -> Prop) (t t' : gmap path node) : Prop :=
  (wf_tree t -> wf_tree t') /\ (forall p n, t' !! p = Some n -> t !! p = Some n) /\ (forall p, ~ ps p -> t' !! p = t !! p).

Lemma trimmed_refl ps t : trimmed ps t t.
Proof. by split. Qed.

Lemma trimmed_trans ps t1 t2 t3 : trimmed ps t1 t2 -> trimmed ps t2 t3 -> trimmed ps t1 t3.
Proof. intros (A1 & A2 & A3) (B1 & B2 & B3). split; [auto|]. split; [auto|]. intros p Hp. by rewrite B3, A3. Qed.

Lemma trimmed_pruned (ps : path -> Prop) p t t' : ps p -> pruned p t t' -> trimmed ps t t'.
Proof.
  intros Hp H. split; [intros; by eapply pruned_wf|]. split; [intros q n; by eapply pruned_lookup|].
  intros q Hq. apply (pruned_ne p); [done|]. by intros ->.
Qed.

Lemma trimmed_weaken (ps qs : path -> Prop) t t' : (forall p, ps p -> qs p) -> trimmed ps t t' -> trimmed qs t t'.
Proof. intros H (A1 & A2 & A3). split; [done|]. split; [done|]. intros p Hp. apply A3. auto. Qed.

Lemma trimmed_cut p t : trimmed (fun q => p `prefix_of` q) t (cut_tree t p).
Proof.
  unfold cut_tree. split; [|split].
  - intros Hw q n x [H Hx]%map_lookup_filter_Some. apply map_lookup_filter_Some. split; [by eapply Hw|]. simpl in *.
    intros Hpre. apply Hx. by apply prefix_app_r.
  - by intros q n [H _]%map_lookup_filter_Some.
  - intros q Hq. apply option_eq. intros n. rewrite map_lookup_filter_Some. simpl. naive_solver.
Qed.

Section finalize.
Variable NFC : list Z -> list Z.
Variable stripDiacritics : list Z -> list Z.
Variable opts : SanitizeOptions.
Variable marshal : list path -> list Z.

Notation SF n := (SanitizeFilename NFC stripDiacritics n opts).
Notation safe_child := (safe_child NFC stripDiacritics opts).

Lemma SF_nonempty n : SF n <> [].
Proof. unfold SanitizeFilename. repeat case_decide; done. Qed.

Lemma safe_child_eq d n : n <> [] -> safe_child d n = d ++ [SF n].
Proof.
  intros Hn. unfold Finalize.safe_child, JoinSafe. rewrite (decide_False (P := n = [])) by done. f_equal. simpl.
  repeat case_decide; try tauto; done || (exfalso; by eapply SF_nonempty).
Qed.

(** ** The queued deletions *)
Definition target_of (d : path) (rels : list path) (p : path) : Prop :=
  (exists rel, rel ∈ rels /\ p = d ++ rel) \/ (exists first rest, first :: rest ∈ rels /\ p = safe_child d first ++ rest)
  \/ p = d ++ [pendingDeletionsFile].

Lemma wp_deletion_target d rel t :
  wp (deletion_target NFC stripDiacritics opts d rel) (fun o t' => t' = t /\ forall p, o = Some p -> target_of d [rel] p) t.
Proof.
  unfold deletion_target. case_match; [apply wp_ret; split; [done|by intros]|].
  assert (forall (r : result errno node) q, target_of d [rel] q -> wp (fret (match r with Err ENOENT => None | _ => Some q end : option path))
            (fun o t' => t' = t /\ forall p, o = Some p -> target_of d [rel] p) t) as Hend.
  { intros r q Hq. apply wp_ret. split; [done|]. intros p Hp. by repeat case_match; simplify_eq. }
  assert (target_of d [rel] (d ++ rel)) as H1 by (left; exists rel; split; [by left|done]).
  assert (forall q, target_of d [rel] q -> wp (do! there <- Lstat q in fret (match there with Err ENOENT => None | _ => Some q end : option path))
            (fun o t' => t' = t /\ forall p, o = Some p -> target_of d [rel] p) t) as Hlast.
  { intros q Hq. apply wp_bind, wp_Lstat; intros; [by apply (Hend (Err e))|by apply (Hend (Ok n))]. }
  apply wp_bind, wp_Lstat; [|intros; apply wp_bind, wp_ret; by apply Hlast].
  intros e. apply wp_bind, wp_ret. destruct e; try (by apply Hlast). destruct rel as [|first rest]; [by apply Hlast|].
  case_match; apply Hlast; [|done]. right. left. exists first, rest. split; [by left|done].
Qed.

Lemma wp_delete_each d rels : forall t, wp (delete_each NFC stripDiacritics opts d rels) (fun _ t' => trimmed (target_of d rels) t t') t.
Proof.
  induction rels as [|rel rels IH]; intros t; simpl; [apply wp_ret, trimmed_refl|].
  assert (forall t, wp (delete_each NFC stripDiacritics opts d rels) (fun _ t' => trimmed (target_of d (rel :: rels)) t t') t) as IH'.
  { intros t0. eapply wp_mono; [apply IH|]. intros u t'. apply trimmed_weaken. unfold target_of.
    intros p [(r & Hr & ?)|[(f & r & Hr & ?)|?]]; [left; exists r|right; left; exists f, r|auto]; split; try done; by right. }
  apply wp_bind. eapply wp_mono; [apply wp_deletion_target|]. intros [p|] t' [-> Hp]; [|by apply IH'].
  apply wp_bind. eapply wp_mono; [apply wp_Remove|]. intros r t1 H1. eapply wp_mono; [apply IH'|]. intros u t2 H2.
  eapply trimmed_trans; [|exact H2]. eapply (trimmed_pruned _ p); [|done]. destruct (Hp p eq_refl) as [(r' & Hr & ?)|[(f & r' & Hr & ?)|?]].
  - left. exists r'. split; [|done]. apply list_elem_of_singleton in Hr as ->. by left.
  - right. left. exists f, r'. split; [|done]. apply list_elem_of_singleton in Hr as ->. by left.
  - by right; right.
Qed.

Lemma wp_removePendingSidecar d t : wp (removePendingSidecar d) (fun _ t' => trimmed (fun p => p = d ++ [pendingDeletionsFile]) t t') t.
Proof.
  unfold removePendingSidecar. apply wp_bind. eapply wp_mono; [apply wp_os_Remove_pruned|]. intros r t' H. apply wp_ret.
  by eapply trimmed_pruned.
Qed.

Lemma wp_deletePending j d t : DownloadDir j = Some d ->
  wp (deletePending NFC stripDiacritics opts j)
     (fun j' t' => trimmed (target_of d (pendingDeletions j)) t t' /\ DownloadDir j' = Some d /\ Failed j' = Failed j) t.
Proof.
  intros Hd. unfold deletePending. rewrite Hd. destruct (pendingDeletions j) as [|rel rels] eqn:Hp; [apply wp_ret; split; [apply trimmed_refl|done]|].
  apply wp_bind. eapply wp_mono; [apply wp_delete_each|]. intros u t1 H1.
  apply wp_bind. eapply wp_mono; [apply wp_removePendingSidecar|]. intros u' t2 H2. apply wp_ret. split; [|done].
  eapply trimmed_trans; [exact H1|]. eapply trimmed_weaken; [|exact H2]. intros p ->. by right; right.
Qed.

Lemma wp_RemoveAll d t : wp (RemoveAll d) (fun _ t' => trimmed (fun p => d `prefix_of` p) t t') t.
Proof.
  unfold RemoveAll. apply wp_bind. eapply wp_mono; [apply (wp_remove_loop _ (trimmed (fun p => d `prefix_of` p)))|].
  - apply trimmed_refl.
  - apply trimmed_trans.
  - intros t0. apply wp_call; [intros; apply trimmed_refl|apply trimmed_cut].
  - intros [e|] t' H; simpl; [|by apply wp_ret]. apply wp_bind, wp_get. repeat case_match; by apply wp_ret.
Qed.

Lemma target_under d rels p : target_of d rels p -> d `prefix_of` p.
Proof.
  intros [(r & _ & ->)|[(f & r & _ & ->)| ->]]; [apply prefix_app_self| |apply prefix_app_self].
  apply prefix_app_r. unfold Finalize.safe_child. apply prefix_app_self.
Qed.

Lemma target_shift d rels r : target_of d rels (d ++ r) -> target_of [] rels r.
Proof.
  unfold target_of, Finalize.safe_child. intros [(r' & H & E)|[(f & r' & H & E)|E]].
  - apply app_inv_head in E as ->. left. by exists r'.
  - rewrite <- app_assoc in E. apply app_inv_head in E as ->. right. left. by exists f, r'.
  - apply app_inv_head in E as ->. by right; right.
Qed.

(** ** The top-level entries *)
Definition entry_pairs (d dest : path) (names : list (list Z)) : list (path * path) := (fun n => (d ++ [n], safe_child dest n)) <$> names.

Definition ready (P : path -> bool) (s d : path) (t : gmap path node) : Prop := exists f, movable P f s d t.

Lemma max_In x l : x ∈ l -> (x <= foldr max O l)%nat.
Proof. induction 1; simpl; lia. Qed.

Lemma ready_depth P s d t : ready P s d t -> movable P (depth t) s d t.
Proof.
  intros (f & [H0 H1 H2 _]). split; [done..|]. intros r n H. unfold depth.
  assert ((length (s ++ r) <= foldr max O (length <$> (map_to_list t).*1))%nat) as Hl.
  { apply max_In, list_elem_of_fmap. exists (s ++ r). split; [done|]. apply list_elem_of_fmap. exists (s ++ r, n). split; [done|].
    by apply elem_of_map_to_list. }
  rewrite length_app in Hl. lia.
Qed.

Lemma wp_move_entries P d dest names t :
  wf_tree t -> disj d dest -> dest <> [] -> NoDup names -> Forall (fun n => n <> []) names ->
  (forall n m, n ∈ names -> m ∈ names -> SF n = SF m -> n = m) ->
  (forall n, n ∈ names -> ready P (d ++ [n]) (safe_child dest n) t) ->
  wp (move_entries NFC stripDiacritics opts P d dest names)
     (fun failed t' => moved_all (entry_pairs d dest names) t t'
                       /\ (failed = [] -> forall s x, (s, x) ∈ entry_pairs d dest names -> arrived P s x t t')) t.
Proof.
  intros Hw Hd Hdn Hnd Hne Hinj Hm. revert t Hw Hm.
  induction Hnd as [|n names Hn Hnd IH]; intros t Hw Hm; cbn [move_entries].
  { apply wp_ret. split; [by apply moved_all_refl|]. intros _ s x H. by apply elem_of_nil in H. }
  apply Forall_cons in Hne as [Hn0 Hne]. specialize (IH Hne (fun a b Ha Hb => Hinj a b (list_elem_of_further _ _ _ Ha) (list_elem_of_further _ _ _ Hb))).
  set (L := entry_pairs d dest names) in *.
  assert (apart (d ++ [n]) (safe_child dest n) L) as A.
  { intros s x Hin. apply list_elem_of_fmap in Hin as (m & ? & Hm'). simplify_eq.
    assert (n <> m) as Hnm by (by intros ->). assert (m <> []) as Hm0 by (by eapply Forall_forall in Hne).
    rewrite !safe_child_eq by done. split; [by apply disj_children|]. split; [by apply disj_ext|]. split; [by apply disj_ext, disj_sym|].
    apply disj_children. intros E. apply Hnm, Hinj; [by left|by right|done]. }
  assert (disj (d ++ [n]) (safe_child dest n)) as Hdd by (rewrite safe_child_eq by done; by apply disj_ext).
  assert (safe_child dest n <> []) as Hsn by (rewrite safe_child_eq by done; by destruct dest).
  assert (forall m t1, moved (d ++ [n]) (safe_child dest n) t t1 -> m ∈ names -> ready P (d ++ [m]) (safe_child dest m) t1) as Hnext.
  { intros m t1 M Hin. destruct (Hm m) as (f & Hf); [by right|]. exists f. eapply movable_other; [done|done| |done].
    apply list_elem_of_fmap. by exists m. }
  assert (entry_pairs d dest (n :: names) = (d ++ [n], safe_child dest n) :: L) as HL by done. rewrite HL.
  destruct (P (d ++ [n])) eqn:HP.
  - eapply wp_mono; [apply IH; [done|intros; apply Hnext; [by apply moved_refl|done]]|]. intros failed t' [M Ar].
    split; [eapply moved_all_cons; [done|by apply moved_refl|done]|]. intros Hf s x Hin. apply elem_of_cons in Hin as [?|Hin]; [|by apply Ar]. simplify_eq.
    intros r c H HPr. exfalso. destruct (Hm n) as (f & [_ _ H2 _]); [by left|]. specialize (H2 []). rewrite app_nil_r in H2. specialize (H2 HP).
    destruct r; [rewrite app_nil_r in HPr; congruence|]. apply H2. by eapply wf_above.
  - apply wp_bind, wp_get, wp_bind. eapply wp_mono; [apply (wp_moveRecursive P (depth t)); [done|done|done|apply ready_depth, Hm; by left]|].
    intros r t1 (M & Ar & _). apply wp_bind. eapply wp_mono; [apply IH; [apply M|intros; by apply Hnext]|].
    intros failed t' [M' Ar']. apply wp_ret. split; [by eapply moved_all_cons|]. intros Hf.
    destruct r as [[]|e]; [|done]. intros s x Hin. apply elem_of_cons in Hin as [?|Hin].
    + simplify_eq. eapply arrived_later; [by apply Ar|done|done].
    + eapply arrived_before; [done|done|done|]. by apply Ar'.
Qed.

(** ** What the directories must be

    [d] is a directory of its own, apart from the final one and its
    [_UNPACK_] twin; the names at its top stay apart when they are sanitized;
    nothing but a directory lies where a node of the job would go; and what
    waits for deletion is no directory. *)
Record finalizable (j : ppjob) (d final : path) (t : gmap path node) : Prop := {
  fz_wf : wf_tree t;
  fz_job : DownloadDir j = Some d;
  fz_apart : forall dest, dest = final \/ dest = unpack_dir final -> disj d dest /\ dest <> [];
  fz_names : forall n, n ∈ children t d -> n <> [];
  fz_inj : forall n m, n ∈ pendingDeletionsFile :: children t d -> m ∈ pendingDeletionsFile :: children t d -> SF n = SF m -> n = m;
  fz_room : forall dest n r x, dest = final \/ dest = unpack_dir final ->
            (n = pendingDeletionsFile /\ r = []) \/ (t !! (d ++ n :: r) = Some x /\ x <> Dir) ->
            t !! (dest ++ SF n :: r) = None \/ t !! (dest ++ SF n :: r) = Some Dir;
  fz_pending : forall p, is_pending j p = true -> t !! p <> Some Dir
}.

(** A file of the job that finalize may not delete. *)
Definition kept (j : ppjob) (r : path) : Prop := ~ target_of [] (pendingDeletions j) r.

Section job.
Context (j : ppjob) (d final : path) (t : gmap path node) (F : finalizable j d final t).

Definition side : path := d ++ [pendingDeletionsFile].
Definition on_way (p : path) : Prop := p `prefix_of` final \/ p `prefix_of` unpack_dir final.

(** The tree before the move: nothing changed but the list of deletions
    beside the files and directories on the way to the target. *)
Record prepared (t' : gmap path node) : Prop := {
  pr_wf : wf_tree t';
  pr_keep : forall p n, p <> side -> t !! p = Some n -> t' !! p = Some n;
  pr_new : forall p n, p <> side -> t' !! p = Some n -> t !! p = Some n \/ (on_way p /\ n = Dir);
  pr_side : t' !! side = Some Dir -> t !! side = Some Dir
}.

Lemma prepared_refl : prepared t.
Proof. split; auto. apply F. Qed.

Lemma not_on_way r : ~ on_way (d ++ r).
Proof.
  intros [H|H]; eapply prefix_app_l in H; [destruct (fz_apart _ _ _ _ F final) as [[? ?] _]; auto|].
  destruct (fz_apart _ _ _ _ F (unpack_dir final)) as [[? ?] _]; auto.
Qed.

Lemma prepared_in t' r n : prepared t' -> d ++ r <> side -> t' !! (d ++ r) = Some n <-> t !! (d ++ r) = Some n.
Proof.
  intros P Hr. split; [|by apply (pr_keep _ P)]. intros H. destruct (pr_new _ P _ _ Hr H) as [|[Ho _]]; [done|]. by apply not_on_way in Ho.
Qed.

Lemma prepared_trimmed t1 t2 : prepared t1 -> trimmed (fun p => p = side) t1 t2 -> prepared t2.
Proof.
  intros [P1 P2 P3 P4] (A1 & A2 & A3). split; [auto|..].
  - intros p n Hp H. rewrite A3 by done. auto.
  - intros p n Hp H. apply A2 in H. auto.
  - intros H. apply P4. by apply A2.
Qed.

Lemma prepared_made x t1 t2 : (forall q, q `prefix_of` x -> on_way q) -> prepared t1 -> made x t1 t2 -> prepared t2.
Proof.
  intros Hx [P1 P2 P3 P4] (W & K & N). split; [done|auto|..].
  - intros p n Hp H. destruct (N _ _ H) as [|[Hpre ->]]; auto.
  - intros H. destruct (N _ _ H) as [|[Hpre _]]; [auto|]. exfalso. by apply (not_on_way [pendingDeletionsFile]), Hx.
Qed.

Lemma wp_write_sidecar t1 : prepared t1 -> wp (write_sidecar marshal j d) (fun _ t' => prepared t') t1.
Proof.
  intros P. unfold write_sidecar. destruct (pendingDeletions j) as [|rel rels]; [by apply wp_ret|].
  apply wp_bind, wp_call; [intros e; by apply wp_ret|].
  assert (t1 !! side <> Some Dir -> t1 !! parent side = Some Dir -> prepared (<[side := File (marshal (rel :: rels))]> t1)) as Hins.
  { intros Hn Hp. split.
    - apply wf_insert; [apply P|intros E; by apply app_nil in E as [_ ?]|done|done].
    - intros p n Hne H. rewrite lookup_insert_ne by done. by apply (pr_keep _ P).
    - intros p n Hne H. rewrite lookup_insert_ne in H by done. by apply (pr_new _ P).
    - by rewrite lookup_insert_eq. }
  fold side. destruct (t1 !! side) as [[| |]|] eqn:E; [|by apply wp_ret|..]; case_bool_decide; apply wp_ret; try done; by apply Hins.
Qed.

Lemma wp_sidecar t1 : prepared t1 -> wp (removePendingSidecar d) (fun _ t' => prepared t') t1.
Proof. intros P. eapply wp_mono; [apply wp_removePendingSidecar|]. intros [] t'. by apply prepared_trimmed. Qed.

Lemma kept_not_side r : kept j r -> d ++ r <> side.
Proof. intros Hk E. apply app_inv_head in E as ->. apply Hk. by right; right. Qed.

Lemma kept_file t' r c : prepared t' -> kept j r -> t !! (d ++ r) = Some (File c) -> t' !! (d ++ r) = Some (File c).
Proof. intros P Hk H. apply prepared_in; [done|by apply kept_not_side|done]. Qed.

(** The top-level entries can be moved to [dest]. *)
Lemma prepared_children t' n : prepared t' -> n ∈ children t' d -> n ∈ pendingDeletionsFile :: children t d.
Proof.
  intros P H. apply elem_children in H as [x H]. destruct (decide (n = pendingDeletionsFile)) as [->|Hne]; [by left|right].
  apply elem_children. exists x. apply prepared_in in H; [done|done|]. unfold side. intros E. by apply app_inj_tail in E as [_ ?].
Qed.

Lemma prepared_nonempty t' n : prepared t' -> n ∈ children t' d -> n <> [].
Proof. intros P H. apply prepared_children in H as [->|H]%elem_of_cons; [done|by eapply fz_names|done]. Qed.

Lemma prepared_ready t' dest n : dest = final \/ dest = unpack_dir final -> prepared t' -> n ∈ children t' d ->
  ready (is_pending j) (d ++ [n]) (safe_child dest n) t'.
Proof.
  intros Hdest P Hn. pose proof (prepared_nonempty _ _ P Hn) as Hn0. pose proof (proj1 (elem_children _ _ _) Hn) as [x Hx].
  destruct (fz_apart _ _ _ _ F dest Hdest) as [Hd _].
  exists (depth t'). apply ready_depth. exists (depth t'). split; [eauto|..].
  - intros r y H Hy. rewrite safe_child_eq by done. rewrite <- !app_assoc in *. simpl in *.
    assert (t !! (dest ++ SF n :: r) = None \/ t !! (dest ++ SF n :: r) = Some Dir) as Hroom.
    { destruct (decide (d ++ n :: r = side)) as [E|E].
      - apply app_inv_head in E. simplify_eq. apply (fz_room _ _ _ _ F dest _ _ Dir); auto.
      - apply prepared_in in H; [|done|done]. apply (fz_room _ _ _ _ F dest _ _ y); auto. }
    destruct (t' !! (dest ++ SF n :: r)) as [z|] eqn:Hz; [|by left]. right.
    destruct (pr_new _ P _ _ ltac:(unfold side; intros E; apply (disj_below d dest [pendingDeletionsFile]); [done|rewrite <- E; apply prefix_app_self]) Hz) as [Hz'|[_ ->]]; [|done].
    destruct Hroom; congruence.
  - intros r Hp H. rewrite <- app_assoc in *. simpl in *. apply (fz_pending _ _ _ _ F _ Hp).
    destruct (decide (d ++ n :: r = side)) as [E|E]; [rewrite E in *; by apply (pr_side _ P)|by apply prepared_in in H].
  - intros r y H. unfold depth.
    assert ((length ((d ++ [n]) ++ r) <= foldr max O (length <$> (map_to_list t').*1))%nat) as Hl.
    { apply max_In, list_elem_of_fmap. eexists. split; [done|]. apply list_elem_of_fmap. exists ((d ++ [n]) ++ r, y). split; [done|].
      by apply elem_of_map_to_list. }
    rewrite length_app in Hl. lia.
Qed.

(** ** Where a file is afterwards *)
Definition located (t' : gmap path node) (x r : path) (c : list Z) : Prop :=
  t' !! (x ++ r) = Some (File c) \/ exists n r', r = n :: r' /\ t' !! (x ++ SF n :: r') = Some (File c).

(** Every file that may not be deleted is under [x]. *)
Definition all_under (t' : gmap path node) (x : path) : Prop :=
  forall r c, kept j r -> t !! (d ++ r) = Some (File c) -> located t' x r c.

(** With no error the job says where; with one, it is where it was, or under
    the directory it was being moved to. *)
Definition safe_end (res : ppjob * option stage_err) (t' : gmap path node) : Prop :=
  match snd res with
  | None => exists x, DownloadDir (fst res) = Some x /\ all_under t' x
  | Some _ => DownloadDir (fst res) = Some d /\
      forall r c, kept j r -> t !! (d ++ r) = Some (File c) ->
        t' !! (d ++ r) = Some (File c) \/ located t' final r c \/ located t' (unpack_dir final) r c
  end.

Lemma disj_prefixed x p : x <> [] -> p <> [] -> disj (prefixDirName x p) x.
Proof.
  intros Hx Hp. destruct x as [|y x _] using rev_ind; [done|]. unfold prefixDirName, base_name. rewrite parent_snoc, last_snoc.
  apply disj_children. simpl. intros E. apply (f_equal length) in E. rewrite length_app in E. destruct p; simpl in E; [done|lia].
Qed.

Lemma final_nonempty : final <> [].
Proof. destruct (fz_apart _ _ _ _ F final) as [_ ?]; auto. Qed.
Lemma d_nonempty : d <> [].
Proof. intros E. destruct (fz_apart _ _ _ _ F final) as [[H _] _]; [auto|]. apply H. rewrite E. apply prefix_nil. Qed.
Lemma unpack_apart : disj (unpack_dir final) final.
Proof. apply disj_prefixed; [apply final_nonempty|done]. Qed.

Lemma stays_put t' e : prepared t' -> safe_end (j, Some e) t'.
Proof. intros P. split; [apply F|]. intros r c Hk H. left. by eapply kept_file. Qed.

(** A directory that is renamed takes its files along. *)
Lemma renamed_under t1 x y : disj x y -> all_under t1 x -> all_under (move_tree t1 x y) y.
Proof.
  intros Hd H r c Hk Hr. destruct (H r c Hk Hr) as [H1|(n & r' & -> & H1)].
  - left. by rewrite move_tree_dst.
  - right. exists n, r'. split; [done|]. by rewrite move_tree_dst.
Qed.

Lemma wp_strip t1 j1 dest strip : dest = final \/ dest = unpack_dir final -> (strip = true -> dest = unpack_dir final) ->
  DownloadDir j1 = Some dest -> all_under t1 dest ->
  wp (strip_prefix_dir strip dest final j1) (fun j' t' => exists x, DownloadDir j' = Some x /\ all_under t' x) t1.
Proof.
  intros _ Hs Hj H. unfold strip_prefix_dir. destruct strip; [|apply wp_ret; eauto]. rewrite (Hs eq_refl) in *.
  apply wp_bind, wp_Rename; [apply unpack_apart|intros e; apply wp_ret; eauto|]. intros _ _ _. apply wp_ret. exists final.
  split; [done|]. by apply renamed_under; [apply unpack_apart|].
Qed.

Lemma wp_finish t1 c : wp c (fun j' t' => exists x, DownloadDir j' = Some x /\ all_under t' x) t1 ->
  wp (do! j <- c in do! j <- recordWalkedOutputFiles j in fret (j, None)) safe_end t1.
Proof.
  intros H. apply wp_bind. eapply wp_mono; [exact H|]. intros j1 t2 (x & Hx & Hu).
  apply wp_bind. eapply wp_mono; [apply wp_recordWalked|]. intros j2 t3 [-> (o & ->)]. apply wp_ret. exists x. by split.
Qed.

Lemma trimmed_under x t1 t2 (ps : path -> Prop) : trimmed ps t1 t2 -> (forall r, ps (x ++ r) -> False) -> all_under t1 x -> all_under t2 x.
Proof.
  intros (_ & _ & A) Hx H r c Hk Hr. destruct (H r c Hk Hr) as [H1|(n & r' & -> & H1)].
  - left. rewrite A; [done|exact (Hx _)].
  - right. exists n, r'. split; [done|]. rewrite A; [done|exact (Hx _)].
Qed.

Lemma kept_not_pending r : kept j r -> is_pending j (d ++ r) = false.
Proof.
  intros Hk. unfold is_pending. rewrite (fz_job _ _ _ _ F). unfold relative_to. simpl. rewrite Rel_below.
  case_bool_decide as Hr; [done|]. case_bool_decide as Hr'; [done|]. apply bool_decide_eq_false.
  intros Hin. apply Hk. left. by exists r.
Qed.

(** After the entries were moved: each file is in one of the two places, and
    in the new one when none failed. *)
Lemma entries_moved t1 t2 t3 dest (failed : list (list Z)) : dest = final \/ dest = unpack_dir final -> prepared t1 -> prepared t2 ->
  t1 !! d = Some Dir -> moved_all (entry_pairs d dest (children t1 d)) t2 t3 ->
  (failed = [] -> forall s x, (s, x) ∈ entry_pairs d dest (children t1 d) -> arrived (is_pending j) s x t2 t3) ->
  forall r c, kept j r -> t !! (d ++ r) = Some (File c) ->
    (t3 !! (d ++ r) = Some (File c) \/ located t3 dest r c) /\ (failed = [] -> located t3 dest r c).
Proof.
  intros Hdest P1 P2 Hd M Ar r c Hk H. pose proof (kept_file _ _ _ P1 Hk H) as H1. pose proof (kept_file _ _ _ P2 Hk H) as H2.
  destruct r as [|n r]; [rewrite app_nil_r in H1; congruence|].
  pose proof (in_children_pairs t1 d dest n r _ (pr_wf _ P1) H1) as Hin. apply list_elem_of_fmap in Hin as (m & E & Hm). simplify_eq.
  rename m into n.
  pose proof (prepared_nonempty _ _ P1 Hm) as Hn0.
  assert ((d ++ [n], safe_child dest n) ∈ entry_pairs d dest (children t1 d)) as Hin by (apply list_elem_of_fmap; by exists n).
  pose proof (kept_not_pending _ Hk) as Hp. rewrite cons_middle, app_assoc in H2, Hp.
  pose proof (ma_file _ _ _ M _ _ Hin r c H2) as Hf. rewrite safe_child_eq in * by done. rewrite <- !app_assoc in *. simpl in *.
  assert (forall q, t3 !! (dest ++ SF n :: r) = q -> q = Some (File c) -> located t3 dest (n :: r) c) as Hloc.
  { intros q Hq ->. right. by exists n, r. }
  split; [destruct Hf; [by left|right; by eapply Hloc]|]. intros Hnil. eapply Hloc; [done|].
  pose proof (Ar Hnil _ _ Hin r c) as Ha. rewrite <- !app_assoc in Ha. simpl in Ha. by apply Ha.
Qed.

Lemma wp_moveFileByFile t1 dest strip : dest = final \/ dest = unpack_dir final -> (strip = true -> dest = unpack_dir final) -> prepared t1 ->
  wp (moveFileByFile NFC stripDiacritics opts j d dest final strip) safe_end t1.
Proof.
  intros Hdest Hs P. destruct (fz_apart _ _ _ _ F dest Hdest) as [Hd Hdn]. unfold moveFileByFile.
  apply wp_bind, wp_ReadDir; [intros e; by apply wp_ret, stays_put|]. intros Hdir.
  apply wp_bind. eapply wp_mono; [apply wp_MkdirAll_made, P|]. intros r t2 M.
  assert (prepared t2) as P2.
  { eapply (prepared_made dest); [|exact P|done]. intros q Hq. destruct Hdest as [->| ->]; [by left|by right]. }
  destruct r as [[]|e]; [|by apply wp_ret, stays_put].
  apply wp_bind. eapply wp_mono.
  { apply wp_move_entries; [apply P2|done|done|apply children_NoDup|..].
    - apply Forall_forall. intros n. by apply (prepared_nonempty t1).
    - intros n m Hn Hm. apply (fz_inj _ _ _ _ F); by apply (prepared_children t1).
    - intros n Hn. apply prepared_ready; [done|done|]. apply elem_children. apply elem_children in Hn as [x Hx]. exists x. by apply M. }
  intros failed t3 [Mv Ar]. pose proof (entries_moved _ _ _ _ failed Hdest P P2 Hdir Mv Ar) as Hloc.
  destruct failed as [|f fs].
  - apply wp_bind. eapply wp_mono; [by apply wp_deletePending, F|]. intros j1 t4 (T1 & Hj1 & _).
    apply wp_bind. eapply wp_mono; [apply wp_RemoveAll|]. intros r5 t5 T2. apply wp_finish, wp_strip; [done|done|done|].
    eapply (trimmed_under _ _ _ _ T2); [intros r; by apply disj_below, disj_sym|].
    eapply (trimmed_under _ _ _ _ T1); [intros r Ht; apply target_under in Ht; by apply (disj_below dest d r); [apply disj_sym|]|].
    intros r c Hk H. by apply Hloc.
  - apply wp_ret. split; [apply F|]. intros r c Hk H. destruct (Hloc r c Hk H) as [[|Hl] _]; [by left|right].
    destruct Hdest as [->| ->]; auto.
Qed.

Lemma wp_moveToDest t1 dest strip : dest = final \/ dest = unpack_dir final -> (strip = true -> dest = unpack_dir final) -> prepared t1 ->
  wp (moveToDest NFC stripDiacritics opts marshal j d dest final strip) safe_end t1.
Proof.
  intros Hdest Hs P. destruct (fz_apart _ _ _ _ F dest Hdest) as [Hd Hdn]. unfold moveToDest.
  apply wp_bind. eapply wp_mono; [apply wp_MkdirAll_made, P|]. intros r t2 M.
  assert (prepared t2) as P2.
  { eapply (prepared_made (parent dest)); [|exact P|done]. intros q Hq. assert (q `prefix_of` dest) by (etrans; [exact Hq|apply prefix_take]).
    destruct Hdest as [->| ->]; [by left|by right]. }
  destruct r as [[]|e]; [|by apply wp_ret, stays_put].
  apply wp_bind. eapply wp_mono; [by apply wp_write_sidecar|]. intros [] t3 P3.
  apply wp_bind, wp_Rename; [done|..].
  - intros e. apply wp_bind. eapply wp_mono; [by apply wp_sidecar|]. intros [] t4 P4. case_match; [by apply wp_ret, stays_put|].
    by apply wp_moveFileByFile.
  - intros _ _ _. apply wp_bind. eapply wp_mono; [by apply (wp_deletePending (set_dir (Some dest) j) dest)|].
    intros j1 t4 ((_ & _ & T) & Hj1 & _). apply wp_finish, wp_strip; [done|done|done|].
    intros r c Hk H. left. rewrite T.
    + rewrite move_tree_dst by done. by apply kept_file.
    + intros Ht. by apply target_shift in Ht.
Qed.

Lemma wp_fail_with t1 e : (forall j' , DownloadDir j' = DownloadDir j -> safe_end (j', Some e) t1) ->
  forall j0, DownloadDir j0 = DownloadDir j -> wp (fail_with e j0) safe_end t1.
Proof.
  intros H j0 Hj. unfold fail_with. apply wp_bind. eapply wp_mono; [apply wp_recordWalked|]. intros j' t' [-> (o & ->)].
  apply wp_ret, H. exact Hj.
Qed.

Lemma wp_via_unpack final' folderRename t1 : wp (via_unpack j final' folderRename) (fun _ t' => t' = t1) t1.
Proof.
  unfold via_unpack. destruct folderRename; [by apply wp_ret|]. case_bool_decide; [by apply wp_ret|].
  apply wp_bind, wp_Lstat; intros; by apply wp_ret.
Qed.

Lemma wp_handleFailure folderRename : wp (handleFailure j folderRename) safe_end t.
Proof.
  assert (all_under t d) as Hu by (intros r c Hk H; by left).
  unfold handleFailure. rewrite (fz_job _ _ _ _ F). apply wp_finish. destruct folderRename.
  - apply wp_bind, wp_Rename; [apply disj_sym, disj_prefixed; [apply d_nonempty|done]| |].
    + intros e. apply wp_ret. exists d. by split; [apply F|].
    + intros _ _ _. apply wp_ret. exists (FailedDir d). split; [done|]. by apply renamed_under; [apply disj_sym, disj_prefixed; [apply d_nonempty|]|].
  - apply wp_ret. exists d. by split; [apply F|].
Qed.

Lemma wp_Run folderRename : FinalDir j = Some final -> wp (Run NFC stripDiacritics opts marshal folderRename j) safe_end t.
Proof.
  intros Hfinal. unfold Run. destruct (Failed j) eqn:Hf; [apply wp_handleFailure|]. rewrite Hfinal, (fz_job _ _ _ _ F).
  rewrite (bool_decide_eq_false_2 (Some d = Some final)).
  2: { intros E. simplify_eq. destruct (fz_apart _ _ _ _ F final) as [[H _] _]; [auto|]. by apply H. }
  apply wp_bind. eapply wp_mono; [apply wp_sidecar, prepared_refl|]. intros [] t1 P.
  apply wp_bind. eapply wp_mono; [apply wp_via_unpack|]. intros staged t2 ->.
  apply wp_bind. eapply wp_mono; [apply (wp_moveToDest t1 (if staged then unpack_dir final else final) staged); [destruct staged; auto|by intros ->|done]|].
  intros [j1 [e|]] t3 H; [|by apply wp_ret]. destruct H as [H1 H]. simpl in H1.
  apply wp_fail_with; [|simpl; by rewrite H1, (fz_job _ _ _ _ F)]. intros j' Hj'. split; [by rewrite <- (fz_job _ _ _ _ F)|exact H].
Qed.
End job.
End finalize.

(** ** The properties *)


(** The file-by-file move of one subtree always ends: with the fuel its
    callers give it, the depth of the tree, the recursion never runs out. *)
Theorem moveRecursive_ends P s d t faults :
  wf_tree t -> disj s d -> d <> [] -> is_Some (t !! s) -> noclash s d t -> (forall r, P (s ++ r) = true -> t !! (s ++ r) <> Some Dir) ->
  fst (moveRecursive (depth t) P s d (mkFS t faults)) <> Err OutOfFuel.
Proof.
  intros Hw Hd Hdn Hs Hc HP. assert (movable P (depth t) s d t) as Hm.
  { apply ready_depth. exists (depth t). split; [done..|]. intros r n H.
    pose proof (max_In (length (s ++ r)) (length <$> (map_to_list t).*1)) as Hl. unfold depth. rewrite length_app in Hl.
    specialize (Hl ltac:(rewrite <- length_app; apply list_elem_of_fmap; eexists; split; [done|]; apply list_elem_of_fmap; exists (s ++ r, n); split; [done|]; by apply elem_of_map_to_list)). lia. }
  apply (wp_moveRecursive P (depth t) s d t Hw Hd Hdn Hm).
Qed.

(** ** Witnesses *)
Definition wf_check (t : gmap path node) : bool :=
  forallb (fun '(p, _) => bool_decide (p = []) || bool_decide (t !! parent p = Some Dir)) (map_to_list t).

Lemma wf_check_ok t : wf_check t = true -> wf_tree t.
Proof.
  intros H p n x Hp. unfold wf_check in H. rewrite forallb_forall in H. specialize (H (p ++ [x], n)).
  apply elem_of_map_to_list, list_elem_of_In in Hp. specialize (H Hp). simpl in H. apply orb_true_iff in H as [H|H]; apply bool_decide_eq_true in H.
  - by apply app_nil in H as [_ ?].
  - by rewrite parent_snoc in H.
Qed.

Definition ex_tree : gmap path node :=
  list_to_map [([], Dir); ([bs "dl"], Dir); ([bs "dl"; bs "job"], Dir); ([bs "dl"; bs "job"; bs "movie.mkv"], File [1%Z; 2%Z]);
               ([bs "dl"; bs "job"; bs "sub"], Dir); ([bs "dl"; bs "job"; bs "sub"; bs "a.nfo"], File [3%Z]);
               ([bs "dl"; bs "job"; bs "old.rar"], File [9%Z]); ([bs "done"], Dir)].
Definition ex_dl : path := [bs "dl"; bs "job"].
Definition ex_final : path := [bs "done"; bs "job"].
Definition ex_job : ppjob :=
  mkJob 3 (Some ex_dl) (Some ex_final) None false [] [] false false [] [] 0 QuickCheckNotRun [] [] false [] [[bs "old.rar"]] [].
(** The rename of the whole directory fails, so the files move one by one;
    so does the rename of the movie, which is copied. *)
Definition ex_faults : list (option (errno * nat)) := replicate 3 None ++ [Some (EXDEV, 0)] ++ replicate 6 None ++ [Some (EXDEV, 0)].

Lemma ex_finalizable : finalizable id id noSanitizeOptions ex_job ex_dl ex_final ex_tree.
Proof.
  split.
  - by apply wf_check_ok.
  - done.
  - intros dest [->| ->]; (split; [split|done]); intros [k E]; vm_compute in E; discriminate E.
  - assert (Forall (fun n => n <> []) (children ex_tree ex_dl)) as H by (vm_compute; repeat constructor; discriminate).
    by apply Forall_forall.
  - assert (NoDup ((fun n => SanitizeFilename id id n noSanitizeOptions) <$> (pendingDeletionsFile :: children ex_tree ex_dl))) as H.
    { apply (bool_decide_eq_true_1 (NoDup _)). vm_compute. reflexivity. }
    intros n m Hn Hm E. apply list_elem_of_lookup in Hn as [a Ha], Hm as [b Hb].
    assert (a = b) as ->; [|congruence]. eapply (NoDup_lookup _ a b _ H); rewrite list_lookup_fmap; [by rewrite Ha|by rewrite Hb, E].
  - intros dest n r x Hdest _. left. apply free_below; [by apply wf_check_ok|]. destruct Hdest as [->| ->]; reflexivity.
  - intros p Hp H. unfold is_pending in Hp. apply andb_true_iff in Hp as [_ Hp]. unfold relative_to in Hp. simpl in Hp.
    destruct (Rel _ _) as [r|] eqn:HR; [|done]. case_bool_decide as Hr; [done|]. apply bool_decide_eq_true in Hp.
    apply Rel_below_inv in HR; [|naive_solver]. subst p. apply list_elem_of_singleton in Hp as ->. vm_compute in H. discriminate H.
Qed.

Definition ex_marshal (l : list path) : list Z := concat (join_slash <$> l).


Lemma moveRecursive_ends_witness :
  fst (moveRecursive (depth ex_tree) (fun _ => false) ex_dl ex_final (mkFS ex_tree [])) <> Err OutOfFuel.
Proof.
  apply (moveRecursive_ends (fun _ => false) ex_dl ex_final ex_tree []).
  - by apply wf_check_ok.
  - split; intros [k E]; vm_compute in E; discriminate E.
  - discriminate.
  - eexists. reflexivity.
  - intros r n H _. left. apply free_below; [by apply wf_check_ok|reflexivity].
  - discriminate.
Defined.

(** Two names of the job that sanitize to one: the file-by-file move puts the
    second file over the first, reports no error and removes the source. *)
Definition clash_tree : gmap path node :=
  list_to_map [([], Dir); ([bs "dl"], Dir); ([bs "dl"; bs "job"], Dir); ([bs "dl"; bs "job"; bs "disc"], File [1%Z]);
               ([bs "dl"; bs "job"; bs "disc."], File [2%Z]); ([bs "done"], Dir)].
Definition clash_job : ppjob :=
  mkJob 3 (Some ex_dl) (Some ex_final) None false [] [] false false [] [] 0 QuickCheckNotRun [] [] false [] [] [].

(** without the names staying apart the property fails: of the files
    disc and disc. of one job the move across file systems keeps one, and
    finalize reports success. *)
Theorem colliding_names_lose_a_file :
  let run := Run id id noSanitizeOptions ex_marshal false clash_job (mkFS clash_tree [None; Some (EXDEV, 0)]) in
  snd (fst run) = None /\ DownloadDir (fst (fst run)) = Some ex_final
  /\ fs_tree (snd run) !! (ex_final ++ [bs "disc"]) = Some (File [2%Z])
  /\ (forall p, fs_tree (snd run) !! p <> Some (File [1%Z])).
Proof.
  split; [vm_compute; reflexivity|]. split; [vm_compute; reflexivity|]. split; [vm_compute; reflexivity|].
  assert (forallb (fun pn => negb (bool_decide (pn.2 = File [1%Z])))
    (map_to_list (fs_tree (snd (Run id id noSanitizeOptions ex_marshal false clash_job (mkFS clash_tree [None; Some (EXDEV, 0)]))))) = true) as H
    by (vm_compute; reflexivity).
  intros p Hp. apply elem_of_map_to_list, list_elem_of_In in Hp. rewrite forallb_forall in H. apply H in Hp.
  by rewrite bool_decide_eq_true_2 in Hp.
Qed.
