(* ===== verification/PostPipeline.v ===== *)
(** * The stages of a job in order ([internal/postproc/postproc.go])

    What the worker does to one job: leftovers are swept, an interrupted
    delivery is recognised and completed, and the stages run one after the
    other.  A stage is the interface of [stages.go]: its name, whether it is
    a [payloadDeleter], and its [Run]; the pipeline is the same for every
    list of them.  A context is cancelled where its check is given a fault. *)
From S2P Require Import Prelude GoBytes GoText Sanitize GoPath FileTree PostJob Finalize.
From stdpp Require Import base numbers gmap sorting list strings.
From Stdlib Require Import ZArith Lia.
Local Open Scope Z_scope.
Local Open Scope go_scope.

(** ** Stages *)
Record Stage : Type := mkStage {
  Name : list Z;
  deletesPayload : bool;
  stage_run : ppjob -> fsM (ppjob * option stage_err)
}.

(** [types]' post-processing levels. *)
Definition PPVerify : Z := 1.
Definition PPUnpack : Z := 2.

Definition shouldSkipForPP (stageName : list Z) (pp : Z) : bool :=
  if bool_decide (stageName = bs "quickcheck" \/ stageName = bs "repair" \/ stageName = bs "par2_cleanup") then bool_decide (pp < PPVerify)
  else if bool_decide (stageName = bs "unpack") then bool_decide (pp < PPUnpack)
  else false.

(** The check of a context: true when it is cancelled. *)
Definition ctx_done : fsM bool := do! r <- noop in fret (negb (is_ok r)).

(** [runStage]: the job, the entry for the log, and whether to abort. *)
Definition runStage (stage : Stage) (j : ppjob) : fsM (ppjob * StageLogEntry * bool) :=
  if shouldSkipForPP (Name stage) (PP j) then fret (j, mkEntry (Name stage) None true, false)
  else if deletesPayload stage && Failed j then fret (j, mkEntry (Name stage) None true, false)
  else
    do! r <- stage_run stage j in
    let j' := recordStageFailure (ParError j) (UnpackError j) (snd r) (fst r) in
    do! done <- ctx_done in
    fret (j', mkEntry (Name stage) (snd r) false, done).

Definition add_log (e : StageLogEntry) (j : ppjob) : ppjob := set_log (StageLog j ++ [e]) j.

Fixpoint run_stages (stages : list Stage) (j : ppjob) : fsM (ppjob * bool) :=
  match stages with
  | [] => fret (j, false)
  | s :: rest =>
      do! r <- runStage s j in
      let '(j, entry, abort) := r in
      let j := add_log entry j in
      if abort then fret (j, true) else run_stages rest j
  end.

(** ** Leftovers *)
Definition TempFilePrefix : list Z := bs ".gonzbd-tmp-".
Definition unpackStagePrefix : list Z := bs ".gonzbd-tmp-unpack-".

Definition HasSuffix (s p : list Z) : bool := bool_decide (drop (length s - length p) s = p).

Definition isGonzbdTempFile (name : list Z) : bool :=
  HasPrefix name TempFilePrefix
  && (let suffix := drop (length TempFilePrefix) name in
      bool_decide (length suffix = 16%nat) && forallb (fun c => bool_decide (48 <= c <= 57) || bool_decide (97 <= c <= 102)) suffix).

Definition par2TempMarker : list Z := bs ".par2engine-".
Definition par2TempExt : list Z := bs ".tmp".

Definition isPar2EngineTempFile (name : list Z) : bool :=
  let n := (length par2TempMarker + 16 + length par2TempExt)%nat in
  bool_decide (n < length name)%nat && HasSuffix name par2TempExt
  && (let tail := drop (length name - n) name in
      HasPrefix tail par2TempMarker
      && forallb (fun c => bool_decide (65 <= c <= 90) || bool_decide (50 <= c <= 55)) (take 16 (drop (length par2TempMarker) tail))).

Definition IsTempFile (name : list Z) : bool := isGonzbdTempFile name || isPar2EngineTempFile name.

(** [removeStageTree], without the second try its permissions allow. *)
Fixpoint remove_stage_dirs (dir : path) (names : list (list Z)) : fsM unit :=
  match names with
  | [] => fret tt
  | n :: rest =>
      do! t <- get in
      do! _ <- (if HasPrefix n unpackStagePrefix && bool_decide (t !! (dir ++ [n]) = Some Dir) then os_RemoveAll (dir ++ [n]) else noop) in
      remove_stage_dirs dir rest
  end.

Definition CleanupStageDirs (dir : path) : fsM unit :=
  do! entries <- ReadDir dir in
  match entries with
  | Err _ => fret tt
  | Ok names => remove_stage_dirs dir names
  end.

Fixpoint remove_each (ps : list path) : fsM unit :=
  match ps with
  | [] => fret tt
  | p :: rest => do! _ <- os_Remove p in remove_each rest
  end.

(** The walk of the sweep, which passes over what it cannot read. *)
Definition temp_files (t : gmap path node) (dir : path) : list path :=
  base.filter (fun p => negb (bool_decide (t !! p = Some Dir)) && IsTempFile (base_name p)) (below t dir).

Definition sweepTempFiles (dir : option path) : fsM unit :=
  match dir with
  | None => fret tt
  | Some d =>
      do! _ <- CleanupStageDirs d in
      do! _ <- removePendingSidecar d in
      do! t <- get in
      remove_each (temp_files t d)
  end.

(** ** A delivery a crash interrupted *)
Section pipeline.
Variable NFC : list Z -> list Z.
Variable stripDiacritics : list Z -> list Z.
(** [json.Unmarshal] of a list of strings. *)
Variable unmarshal : list Z -> option (list (list Z)).

Definition recoverUnpackFinalDir (j : ppjob) : fsM (ppjob * option stage_err) :=
  match FinalDir j with
  | None => fret (j, None)
  | Some final =>
      do! there <- Lstat final in
      match there with
      | Err ENOENT =>
          let staged := unpack_dir final in
          do! there <- Lstat staged in
          match there with
          | Err _ => fret (j, None)
          | Ok _ =>
              do! data <- ReadFile (staged ++ [pendingDeletionsFile]) in
              do! j <- match data with
                       | Err _ => fret j
                       | Ok bytes =>
                           match unmarshal bytes with
                           | None => fret j
                           | Some paths =>
                               let prevDir := DownloadDir j in
                               do! j <- deletePending NFC stripDiacritics noSanitizeOptions (set_dir (Some staged) (loadPendingDeletions paths j)) in
                               fret (set_dir prevDir j)
                           end
                       end in
              do! r <- Rename staged final in
              fret (j, match r with Ok _ => None | Err _ => Some (plain_err (bs "staged directory recovery failed")) end)
          end
      | _ => fret (j, None)
      end
  end.

Definition alreadyDelivered (j : ppjob) : fsM bool :=
  match FinalDir j with
  | None => fret false
  | Some final =>
      do! entries <- ReadDir final in
      fret (match entries with
            | Ok names => negb (bool_decide (base.filter (fun n => negb (IsTempFile n)) names = []))
            | Err _ => false
            end)
  end.

Fixpoint stagesAfterFinalize (stages : list Stage) : list Stage :=
  match stages with
  | [] => []
  | s :: rest => if bool_decide (Name s = bs "finalize") then rest else stagesAfterFinalize rest
  end.

(** ** One job *)
Definition log_entry (name : list Z) : StageLogEntry := mkEntry name None false.

(** The pre-check: the job, the stages to run, and why none may. *)
Definition precheck (stages : list Stage) (j : ppjob) : fsM (ppjob * list Stage * list Z) :=
  match DownloadDir j with
  | None => fret (j, stages, [])
  | Some d =>
      if negb (bool_decide (FailMsg j = [])) then fret (j, stages, [])
      else
        do! entries <- ReadDir d in
        match entries with
        | Ok (_ :: _) => fret (j, stages, [])
        | Ok [] => fret (j, stages, bs "download directory is empty")
        | Err ENOENT =>
            do! r <- recoverUnpackFinalDir j in
            let '(j, recoverErr) := r in
            do! delivered <- alreadyDelivered j in
            if delivered then
              let j := set_dir (FinalDir j) j in
              do! j <- recordWalkedOutputFiles j in
              do! _ <- sweepTempFiles (DownloadDir j) in
              fret (j, stagesAfterFinalize stages, [])
            else fret (j, stages, bs "download directory unavailable")
        | Err _ => fret (j, stages, bs "download directory unavailable")
        end
  end.

Definition processJob (stages : list Stage) (directUnpack : bool) (j : ppjob) : fsM ppjob :=
  do! _ <- sweepTempFiles (DownloadDir j) in
  do! r <- precheck stages j in
  let '(j, stages, reason) := r in
  let j := add_log (log_entry (bs "download")) j in
  let j := if directUnpack then add_log (log_entry (bs "direct unpack")) j else j in
  if negb (bool_decide (FailMsg j = [])) then fret (add_log (log_entry (bs "skipped")) j)
  else if negb (bool_decide (reason = [])) then fret (add_log (log_entry (bs "pre-check")) (set_fail reason j))
  else
    do! r <- run_stages stages j in
    let '(j, aborted) := r in
    fret (if aborted : bool then j else add_log (log_entry (bs "summary")) j).
End pipeline.
