(* ===== verification/PostPipelineProps.v ===== *)
(** * What the pipeline promises

    A failed job keeps its files, every stage is logged in order, and an
    interrupted delivery is completed. *)
From S2P Require Import Prelude GoBytes GoText Sanitize GoPath FileTree FileTreeProps PostJob Finalize FinalizeMove FinalizeProps PostPipeline.
From stdpp Require Import base numbers gmap sorting list strings.
From Stdlib Require Import ZArith Lia.
Local Open Scope go_scope.

(** ** What a stage promises the pipeline *)

(** The content of every file under [d] is under [d'], by whatever name. *)
Definition retained (t : gmap path node) (d : path) (t' : gmap path node) (d' : path) : Prop :=
  forall r c, t !! (d ++ r) = Some (File c) -> exists r', t' !! (d' ++ r') = Some (File c).

Lemma retained_refl t d : retained t d t d.
Proof. intros r c H. by exists r. Qed.

Lemma retained_trans t1 d1 t2 d2 t3 d3 : retained t1 d1 t2 d2 -> retained t2 d2 t3 d3 -> retained t1 d1 t3 d3.
Proof. intros H1 H2 r c H. destruct (H1 r c H) as (r' & H'). by eapply H2. Qed.

(** A job in a directory of its own, in a well-formed tree. *)
Definition placed (j : ppjob) (d : path) (t : gmap path node) : Prop := DownloadDir j = Some d /\ d <> [] /\ wf_tree t.

(** On a failed job a stage leaves the failure recorded and the files alive. *)
Class KeepsFailed (s : Stage) : Prop :=
  keeps_failed : forall j d t, Failed j = true -> placed j d t ->
    wp (stage_run s j) (fun r t' => Failed (fst r) = true /\ exists d', placed (fst r) d' t' /\ retained t d t' d') t.

(** No stage touches the log: the pipeline writes it. *)
Class KeepsLog (s : Stage) : Prop :=
  keeps_log : forall j t, wp (stage_run s j) (fun r _ => StageLog (fst r) = StageLog j) t.

Lemma wp_ctx_done t Q : (forall b, Q b t) -> wp ctx_done Q t.
Proof. intros H. unfold ctx_done. apply wp_bind, wp_noop. intros r. by apply wp_ret. Qed.

Lemma add_log_placed e j d t : placed (add_log e j) d t <-> placed j d t.
Proof. done. Qed.

Lemma run_stages_failed stages : Forall (fun s => deletesPayload s = true \/ KeepsFailed s) stages ->
  forall j d t, Failed j = true -> placed j d t ->
  wp (run_stages stages j) (fun r t' => Failed (fst r) = true /\ exists d', placed (fst r) d' t' /\ retained t d t' d') t.
Proof.
  induction 1 as [|s stages Hs _ IH]; intros j d t Hf Hp; simpl; [apply wp_ret; split; [done|]; exists d; split; [done|apply retained_refl]|].
  assert (forall j1 t1 e (b : bool), Failed j1 = true -> (exists d1, placed j1 d1 t1 /\ retained t d t1 d1) ->
    wp (if b then fret (add_log e j1, true) else run_stages stages (add_log e j1))
       (fun r t' => Failed (fst r) = true /\ exists d', placed (fst r) d' t' /\ retained t d t' d') t1) as Hnext.
  { intros j1 t1 e b Hf1 (d1 & Hp1 & Hr1). destruct b; [by apply wp_ret; split; [|exists d1]|].
    eapply wp_mono; [by apply (IH (add_log e j1) d1 t1)|]. intros r t' (H1 & d' & H2 & H3). split; [done|]. exists d'. split; [done|].
    by eapply retained_trans. }
  assert (exists d1, placed j d1 t /\ retained t d t d1) as Hsame by (exists d; split; [done|apply retained_refl]).
  apply wp_bind. unfold runStage. case_match; [apply wp_ret; by apply (Hnext j t _ false)|].
  destruct Hs as [Hs|Hs].
  - rewrite Hs, Hf. apply wp_ret. by apply (Hnext j t _ false).
  - destruct (deletesPayload s); rewrite ?Hf; [apply wp_ret; by apply (Hnext j t _ false)|].
    apply wp_bind. eapply wp_mono; [by apply (Hs j d t)|]. intros [j1 e] t1 (Hf1 & d1 & Hp1 & Hr1). simpl in *.
    apply wp_bind, wp_ctx_done. intros b. apply wp_ret. apply Hnext; [by rewrite record_Failed|]. exists d1. split; [|done].
    destruct Hp1 as (H1 & H2 & H3). split; [|done]. by destruct e.
Qed.

(** ** The finalize stage keeps the promise *)
Section finalize_stage.
Variables (NFC stripDiacritics : list Z -> list Z) (opts : SanitizeOptions) (marshal : list path -> list Z) (folderRename : bool).

Definition FinalizeStage : Stage := mkStage (bs "finalize") false (Run NFC stripDiacritics opts marshal folderRename).


#[global] Instance FinalizeStage_keeps : KeepsFailed FinalizeStage.
Proof.
  intros j d t Hf (Hd & Hdn & Hw). simpl. unfold Run. rewrite Hf. unfold handleFailure. rewrite Hd.
  apply wp_bind. eapply (wp_mono _ (fun j' t' => Failed j' = true /\ exists d', placed j' d' t' /\ retained t d t' d')).
  - destruct folderRename; [|apply wp_ret; split; [done|]; exists d; split; [done|apply retained_refl]].
    pose proof (disj_sym _ _ (disj_prefixed d (bs "_FAILED_") Hdn ltac:(done))) as Hdd. fold (FailedDir d) in Hdd.
    apply wp_bind, wp_Rename; [done|intros e; apply wp_ret; split; [done|]; exists d; split; [done|apply retained_refl]|].
    intros Hs Ht Hp. apply wp_ret. split; [done|]. exists (FailedDir d).
    assert (FailedDir d <> []) as Hn by (unfold FailedDir, prefixDirName; intros E; by apply app_nil in E as [_ ?]).
    split; [split; [done|split; [done|by apply wf_move_tree]]|]. intros r c H. exists r. by rewrite move_tree_dst.
  - intros j1 t1 (Hf1 & d1 & Hp1 & Hr1). apply wp_bind. eapply wp_mono; [apply wp_recordWalked|]. intros j2 t2 [-> (o & ->)].
    apply wp_ret. split; [done|]. by exists d1.
Qed.

End finalize_stage.

(** ** The sweep *)

(** Below [d], what the sweep may take: leftovers by their name. *)
Definition sweepable (r : path) : Prop :=
  r = [pendingDeletionsFile] \/ (exists n rest, r = n :: rest /\ HasPrefix n unpackStagePrefix = true) \/ IsTempFile (base_name r) = true.

Definition swept (d : path) : path -> Prop := fun p => exists r, p = d ++ r /\ sweepable r.

Lemma wp_remove_stage_dirs d names : forall t, wp (remove_stage_dirs d names) (fun _ t' => trimmed (swept d) t t') t.
Proof.
  induction names as [|n names IH]; intros t; cbn [remove_stage_dirs]; [apply wp_ret, trimmed_refl|].
  apply wp_bind, wp_get, wp_bind. destruct (HasPrefix n unpackStagePrefix) eqn:Hn; cbn [andb].
  - destruct (bool_decide _); [|apply wp_noop; intros; apply IH].
    apply wp_call; cbn [fst snd]; [intros; apply IH|]. eapply wp_mono; [apply IH|]. intros u2 t2 H2.
    eapply trimmed_trans; [|exact H2]. eapply trimmed_weaken; [|apply trimmed_cut].
    intros p [k ->]. exists (n :: k). split; [by rewrite <- app_assoc|]. right. left. eauto.
  - apply wp_noop. intros. apply IH.
Qed.

Lemma wp_remove_each ps : forall t, wp (remove_each ps) (fun _ t' => trimmed (fun p => p ∈ ps) t t') t.
Proof.
  induction ps as [|p ps IH]; intros t; simpl; [apply wp_ret, trimmed_refl|].
  apply wp_bind. eapply wp_mono; [apply wp_os_Remove_pruned|]. intros r t1 H1. eapply wp_mono; [apply IH|]. intros u2 t2 H2.
  eapply trimmed_trans; [|eapply trimmed_weaken; [|exact H2]; by right]. eapply trimmed_pruned; [by left|done].
Qed.

Lemma base_name_app d r : r <> [] -> base_name (d ++ r) = base_name r.
Proof. intros Hr. destruct r as [|x r _] using rev_ind; [done|]. unfold base_name. by rewrite app_assoc, !last_snoc. Qed.

Lemma wp_sweepTempFiles d t : wp (sweepTempFiles (Some d)) (fun _ t' => trimmed (swept d) t t') t.
Proof.
  unfold sweepTempFiles, CleanupStageDirs. apply wp_bind, wp_bind.
  assert (forall t0, trimmed (swept d) t t0 -> wp (do! _ <- removePendingSidecar d in do! t1 <- get in remove_each (temp_files t1 d))
                      (fun _ t' => trimmed (swept d) t t') t0) as Hrest.
  { intros t0 H0. apply wp_bind. eapply wp_mono; [apply wp_removePendingSidecar|]. intros u1 t1 H1. apply wp_bind, wp_get.
    eapply wp_mono; [apply wp_remove_each|]. intros u2 t2 H2. eapply trimmed_trans; [exact H0|]. eapply trimmed_trans.
    - eapply trimmed_weaken; [|exact H1]. intros p ->. exists [pendingDeletionsFile]. split; [done|by left].
    - eapply trimmed_weaken; [|exact H2]. intros p [Ht Hp]%list_elem_of_filter. apply Is_true_true, andb_true_iff in Ht as [_ Ht].
      apply elem_below in Hp as (_ & [r ->] & Hne). exists r. split; [done|]. right. right. rewrite base_name_app in Ht; [done|]. by intros ->; rewrite app_nil_r in Hne. }
  apply wp_ReadDir; [intros; by apply wp_ret, Hrest, trimmed_refl|]. intros _.
  eapply wp_mono; [apply wp_remove_stage_dirs|]. intros u1 t1 H1. by apply Hrest.
Qed.

(** ** A delivery a crash interrupted *)
Section recovery.
Variables (NFC stripDiacritics : list Z -> list Z) (unmarshal : list Z -> option (list (list Z))).

(** The deletions the staged directory still waits for. *)
Definition sidecar_rels (j : ppjob) (staged : path) (t : gmap path node) : list path :=
  match t !! (staged ++ [pendingDeletionsFile]) with
  | Some (File bytes) => match unmarshal bytes with Some paths => pendingDeletions (loadPendingDeletions paths j) | None => [] end
  | _ => []
  end.

(** What the recovery must keep of the staged directory. *)
Definition staged_kept (j : ppjob) (staged r : path) (t : gmap path node) : Prop :=
  ~ target_of NFC stripDiacritics noSanitizeOptions [] (sidecar_rels j staged t) r.

Definition same_place (j j' : ppjob) : Prop := DownloadDir j' = DownloadDir j /\ FinalDir j' = FinalDir j /\ FailMsg j' = FailMsg j.

(** Either the staged directory is left as it was, but for its deletions, or
    it has become the final one. *)
Definition recovered (j : ppjob) (final : path) (t t' : gmap path node) : Prop :=
  let staged := unpack_dir final in
  let keeps d := forall r c, staged_kept j staged r t -> t !! (staged ++ r) = Some (File c) -> t' !! (d ++ r) = Some (File c) in
  (keeps staged /\ forall p, ~ staged `prefix_of` p -> t' !! p = t !! p)
  \/ (keeps final /\ t !! final <> Some Dir /\ forall p, ~ staged `prefix_of` p -> ~ final `prefix_of` p -> t' !! p = t !! p).

Lemma load_same_place paths j : same_place j (loadPendingDeletions paths j).
Proof.
  unfold loadPendingDeletions. assert (same_place j (clearPendingDeletions j)) as H by done. revert H.
  generalize (clearPendingDeletions j). induction paths as [|p paths IH]; intros j1 H; simpl; [done|]. apply IH.
  unfold recordPendingDeletion. by destruct (pendingDeletionRel j1 p).
Qed.

Lemma wp_and {A} (c : fsM A) Q Q' t : wp c Q t -> wp c Q' t -> wp c (fun a t' => Q a t' /\ Q' a t') t.
Proof. intros H H' f. by split. Qed.

Lemma deletePending_same_place j t : wp (deletePending NFC stripDiacritics noSanitizeOptions j) (fun j' _ => same_place j j') t.
Proof.
  intros f. unfold deletePending. destruct (pendingDeletions j); [done|]. destruct (DownloadDir j) eqn:E; [|done]. unfold fbind, fret. simpl. done.
Qed.

Lemma wp_rename_staged j final t t1 Q : final <> [] -> trimmed (target_of NFC stripDiacritics noSanitizeOptions (unpack_dir final) (sidecar_rels j (unpack_dir final) t)) t t1 ->
  (forall r t', recovered j final t t' -> Q r t') -> wp (Rename (unpack_dir final) final) Q t1.
Proof.
  intros Hf (_ & _ & H1) HQ. pose proof (disj_prefixed final (bs "_UNPACK_") Hf ltac:(done)) as Hd. fold (unpack_dir final) in Hd.
  assert (forall p, ~ unpack_dir final `prefix_of` p -> t1 !! p = t !! p) as Hout by (intros p Hp; apply H1; intros Ht; by apply target_under in Ht).
  assert (forall r c, staged_kept j (unpack_dir final) r t -> t !! (unpack_dir final ++ r) = Some (File c) -> t1 !! (unpack_dir final ++ r) = Some (File c)) as Hin.
  { intros r c Hr Hc. rewrite H1; [done|]. intros Ht. by apply target_shift in Ht. }
  apply wp_Rename; [done|intros e; apply HQ; by left|]. intros Hs Hnd Hp. apply HQ. right. split; [|split].
  - intros r c Hr Hc. rewrite move_tree_dst by done. by apply Hin.
  - rewrite <- Hout; [done|]. apply Hd.
  - intros p Hp1 Hp2. rewrite <- (Hout p Hp1). apply option_eq. intros n. rewrite lookup_move_tree by done. split; [|naive_solver].
    intros [(r & -> & _)|(_ & _ & H)]; [|done]. exfalso. apply Hp2, prefix_app_self.
Qed.

Lemma wp_recover j final t : FinalDir j = Some final -> final <> [] ->
  wp (recoverUnpackFinalDir NFC stripDiacritics unmarshal j) (fun r t' => same_place j (fst r) /\ recovered j final t t') t.
Proof.
  intros Hf Hn. unfold recoverUnpackFinalDir. rewrite Hf.
  assert (recovered j final t t) as Hid by (left; by split).
  assert (forall e : option stage_err, wp (fret (j, e)) (fun (r : ppjob * option stage_err) t' => same_place j (fst r) /\ recovered j final t t') t) as Hret by (intros; by apply wp_ret).
  apply wp_bind, wp_Lstat; [|intros n _; exact (Hret None)]. intros e. destruct e; try exact (Hret None).
  apply wp_bind, wp_Lstat; [intros e; exact (Hret None)|]. intros n _.
  assert (forall j1 t1, same_place j j1 -> trimmed (target_of NFC stripDiacritics noSanitizeOptions (unpack_dir final) (sidecar_rels j (unpack_dir final) t)) t t1 ->
    wp (do! r <- Rename (unpack_dir final) final in fret (j1, match r with Ok _ => None | Err _ => Some (plain_err (bs "staged directory recovery failed")) end))
       (fun r t' => same_place j (fst r) /\ recovered j final t t') t1) as Hren.
  { intros j1 t1 Hj H1. apply wp_bind. eapply wp_rename_staged; [done|exact H1|]. intros r t' Hr. by apply wp_ret. }
  assert (wp (ReadFile (unpack_dir final ++ [pendingDeletionsFile])) (fun d t' => t' = t /\
            forall bytes, d = Ok bytes -> t !! (unpack_dir final ++ [pendingDeletionsFile]) = Some (File bytes)) t) as Hread.
  { apply wp_call; [by intros|]. cbn [fst snd]. split; [done|]. intros bytes H. by repeat case_match; simplify_eq. }
  apply wp_bind. eapply wp_mono; [exact Hread|]. intros data t0 [-> Hdata].
  destruct data as [bytes|e]; [|apply wp_bind, wp_ret; by apply Hren; [|apply trimmed_refl]].
  destruct (unmarshal bytes) as [paths|] eqn:Hu; [|apply wp_bind, wp_ret; by apply Hren; [|apply trimmed_refl]].
  apply wp_bind, wp_bind. eapply wp_mono; [apply wp_and; [by apply (wp_deletePending _ _ _ _ (unpack_dir final))|apply deletePending_same_place]|].
  intros j1 t1 ((H1 & _) & Hj1). apply wp_ret. apply Hren.
  - destruct (load_same_place paths j) as (A1 & A2 & A3), Hj1 as (B1 & B2 & B3). split; [done|]. split; [exact (eq_trans B2 A2)|exact (eq_trans B3 A3)].
  - unfold sidecar_rels. by rewrite (Hdata bytes eq_refl), Hu.
Qed.

Lemma wp_alreadyDelivered j final t : FinalDir j = Some final ->
  wp (alreadyDelivered j) (fun b t' => t' = t /\ (b = true -> t !! final = Some Dir)) t.
Proof.
  intros Hf. unfold alreadyDelivered. rewrite Hf. apply wp_bind, wp_ReadDir; [intros e; by apply wp_ret|].
  intros H. by apply wp_ret.
Qed.

(** A job of which the download directory is gone. *)
Record interrupted (j : ppjob) (d final : path) (t : gmap path node) : Prop := {
  in_dir : DownloadDir j = Some d;
  in_final : FinalDir j = Some final;
  in_named : final <> [];
  in_ok : FailMsg j = [];
  in_gone : t !! d = None
}.

(** Where its files are after the pre-check: none is lost, and when the job
    goes on it does so on the delivered directory, with the stages after
    finalize. *)
Definition resumed (stages : list Stage) (j : ppjob) (d final : path) (t : gmap path node)
    (res : ppjob * list Stage * list Z) (t' : gmap path node) : Prop :=
  let '(j', stages', reason) := res in
  FailMsg j' = []
  /\ (reason = [] -> DownloadDir j' = Some final /\ stages' = stagesAfterFinalize stages)
  /\ (reason <> [] -> DownloadDir j' = Some d /\ stages' = stages)
  /\ (forall r c, staged_kept j (unpack_dir final) r t -> ~ sweepable r -> t !! (unpack_dir final ++ r) = Some (File c) ->
        t' !! (final ++ r) = Some (File c) \/ ((reason = [] -> t !! final = Some Dir) /\ t' !! (unpack_dir final ++ r) = Some (File c)))
  /\ (t !! final = Some Dir -> forall r c, ~ sweepable r -> t !! (final ++ r) = Some (File c) -> t' !! (final ++ r) = Some (File c)).

Lemma resumed_refused stages j d final t t1 j1 reason : interrupted j d final t -> same_place j j1 -> reason <> [] -> recovered j final t t1 ->
  resumed stages j d final t (j1, stages, reason) t1.
Proof.
  intros [] (H1 & H2 & H3) Hr Hrec. pose proof (disj_prefixed final (bs "_UNPACK_") in_named0 ltac:(done)) as Hd. fold (unpack_dir final) in Hd.
  split; [congruence|]. split; [done|]. split; [by rewrite H1|]. split.
  - intros r c Hk _ Hc. destruct Hrec as [[Hkeep _]|(Hkeep & _ & _)]; [right; split; [done|]|left]; by apply Hkeep.
  - intros Hfin r c _ Hc. destruct Hrec as [[_ Hout]|(_ & Hnot & _)]; [|done]. rewrite Hout; [done|]. apply disj_below. by apply disj_sym.
Qed.

Lemma resumed_swept stages j d final t t1 t2 j1 o : interrupted j d final t -> same_place j j1 -> recovered j final t t1 ->
  t1 !! final = Some Dir -> trimmed (swept final) t1 t2 ->
  resumed stages j d final t (set_output o (set_dir (FinalDir j1) j1), stagesAfterFinalize stages, []) t2.
Proof.
  intros [] (H1 & H2 & H3) Hrec Hthere (_ & _ & Ht). pose proof (disj_prefixed final (bs "_UNPACK_") in_named0 ltac:(done)) as Hd. fold (unpack_dir final) in Hd.
  assert (forall r, ~ sweepable r -> t2 !! (final ++ r) = t1 !! (final ++ r)) as Hin.
  { intros r Hr. apply Ht. intros (r' & E & Hs). by apply app_inv_head in E as ->. }
  assert (forall r, t2 !! (unpack_dir final ++ r) = t1 !! (unpack_dir final ++ r)) as Hst.
  { intros r. apply Ht. intros (r' & E & _). apply (disj_below (unpack_dir final) final r Hd). rewrite E. apply prefix_app_self. }
  split; [simpl; congruence|]. split; [intros _; simpl; split; [congruence|done]|]. split; [done|]. split.
  - intros r c Hk Hs Hc. destruct Hrec as [[Hkeep Hout]|(Hkeep & _ & _)]; [right|left; rewrite Hin by done; by apply Hkeep].
    split; [intros _; rewrite <- Hout; [done|]; apply Hd|]. rewrite Hst. by apply Hkeep.
  - intros Hfin r c Hs Hc. rewrite Hin by done. destruct Hrec as [[_ Hout]|(_ & Hnot & _)]; [|done].
    rewrite Hout; [done|]. apply disj_below. by apply disj_sym.
Qed.

End recovery.

(** ** Examples *)

(** A stage that deletes payload, which a failed job does not reach. *)
Definition wipe : Stage := mkStage (bs "cleanup") true (fun j => do! _ <- (match DownloadDir j with Some d => os_RemoveAll d | None => noop end) in fret (j, None)).
Definition failed_job : ppjob := set_par true ex_job.

(** C33: from the moment a job has failed no stage that deletes payload runs,
    and if the others keep a failed job's files, which finalize does, every
    file of the job is at the end under the directory the job names, whichever
    calls fail. *)
Theorem failed_job_keeps_files stages j d t faults :
  Forall (fun s => deletesPayload s = true \/ KeepsFailed s) stages -> Failed j = true -> placed j d t ->
  let run := run_stages stages j (mkFS t faults) in
  Failed (fst (fst run)) = true /\ exists d', placed (fst (fst run)) d' (fs_tree (snd run)) /\ retained t d (fs_tree (snd run)) d'.
Proof. intros Hs Hf Hp. by apply run_stages_failed. Qed.

Lemma failed_job_keeps_files_witness :
  let stages := [wipe; FinalizeStage id id noSanitizeOptions ex_marshal true] in
  let run := run_stages stages failed_job (mkFS ex_tree []) in
  DownloadDir (fst (fst run)) = Some (FailedDir ex_dl)
  /\ fs_tree (snd run) !! (FailedDir ex_dl ++ [bs "old.rar"]) = Some (File [9%Z])
  /\ Failed (fst (fst run)) = true /\ exists d', placed (fst (fst run)) d' (fs_tree (snd run)) /\ retained ex_tree ex_dl (fs_tree (snd run)) d'.
Proof.
  split; [vm_compute; reflexivity|]. split; [vm_compute; reflexivity|].
  apply (failed_job_keeps_files [wipe; FinalizeStage id id noSanitizeOptions ex_marshal true] failed_job ex_dl ex_tree []).
  - constructor; [by left|]. constructor; [right; apply FinalizeStage_keeps|constructor].
  - reflexivity.
  - split; [reflexivity|]. split; [discriminate|by apply wf_check_ok].
Defined.

(** The cross-device delivery of [ex_job] had moved every file when the
    program died: the staged directory holds them and the queued deletion. *)
Definition staged_tree : gmap path node :=
  list_to_map [([], Dir); ([bs "dl"], Dir); ([bs "done"], Dir); ([bs "done"; bs "_UNPACK_job"], Dir);
               ([bs "done"; bs "_UNPACK_job"; bs "movie.mkv"], File [1%Z; 2%Z]); ([bs "done"; bs "_UNPACK_job"; bs "old.rar"], File [9%Z]);
               ([bs "done"; bs "_UNPACK_job"; pendingDeletionsFile], File (bs "old.rar"))].
Definition ex_unmarshal (data : list Z) : option (list (list Z)) := Some [data].
Definition notify_stage : Stage := mkStage (bs "notify") false (fun j => fret (j, None)).

