(* ===== verification/Extract.v ===== *)
(** * Extracting an archive into a job's directory ([internal/unpack])

    The in-process extraction of a tar archive, whole: the names of the
    members ([sanitized_path.go], [unique_path.go]), writing one
    ([write_entry.go], [fsutil/rootedcreate.go]), the archive ([go_tar.go]),
    the free-space check ([free_space.go]), and the stage it goes through
    ([snapshot.go]).  The members are what [archive/tar] delivers, from an
    archive nobody vouches for.  An [os.Root] is the directory it was opened
    on: a name that leads out of it is refused.  A file of the tree has one
    name, so what [countStagedNames] finds about hard links is that there are
    none. *)
From S2P Require Import Prelude GoBytes GoText GoPath FileTree RarSize Finalize PostPipeline.
From stdpp Require Import base numbers gmap sorting list strings.
From Stdlib Require Import ZArith Lia.
Local Open Scope Z_scope.
Local Open Scope go_scope.

Inductive xerr : Type :=
| XOS (e : errno)
| XEscapes            (* refused by the os.Root *)
| XCancelled
| XRead               (* the member's reader failed *)
| XHeader             (* [tr.Next] failed *)
| XExhausted
| XNoSpace            (* [ErrInsufficientSpace] *)
| XOutOfFuel.

Definition x_call {A} (c : fsM (result errno A)) : fsM (result xerr A) :=
  do! r <- c in fret (match r with Ok a => Ok a | Err e => Err (XOS e) end).
Definition x_ctx : fsM (result xerr unit) :=
  do! r <- noop in fret (match r with Ok _ => Ok tt | Err _ => Err XCancelled end).

Definition not_exist {A} (r : result xerr A) : bool :=
  match r with
  | Err (XOS ENOENT) => true
  | _ => false
  end.

(** ** An [os.Root] *)

(** [filepath.IsLocal] *)
Definition IsLocal (s : list Z) : bool :=
  negb (bool_decide (s = [])) && negb (rooted (Clean s)) && negb (bool_decide (head (comps (Clean s)) = Some dotdot)).

Definition inside (dir : list (list Z)) (rel : list Z) : option (list (list Z)) :=
  if IsLocal rel then Some (dir ++ comps (Clean rel)) else None.

Definition rooted_call {A} (dir : list (list Z)) (rel : list Z) (f : list (list Z) -> fsM (result errno A)) : fsM (result xerr A) :=
  match inside dir rel with
  | Some p => x_call (f p)
  | None => fret (Err XEscapes)
  end.

(** What removes or renames a name: the root itself is not one. *)
Definition rooted_entry {A} (dir : list (list Z)) (rel : list Z) (f : list (list Z) -> fsM (result errno A)) : fsM (result xerr A) :=
  match inside dir rel with
  | Some p => if bool_decide (p = dir) then fret (Err (XOS EINVAL)) else x_call (f p)
  | None => fret (Err XEscapes)
  end.

Definition rooted_rename (dir : list (list Z)) (a b : list Z) : fsM (result xerr unit) :=
  rooted_entry dir a (fun p => do! r <- rooted_entry dir b (Rename p) in
                               fret (match r with Ok _ => Ok tt | Err (XOS e) => Err e | Err _ => Err EINVAL end)).

(** [O_CREATE|O_EXCL] *)
Definition OpenExcl (p : list (list Z)) : fsM (result errno unit) :=
  call (fun t => match t !! p with
                 | Some _ => (Err EEXIST, t)
                 | None => if bool_decide (t !! parent p <> Some Dir) then (Err (missing t p), t) else (Ok tt, <[p := File []]> t)
                 end).

(** ** Temporary files ([fsutil/rootedcreate.go]) *)
Definition hex_digit (d : Z) : Z := if bool_decide (d < 10) then 48 + d else 87 + d.
Definition hex_encode (b : list Z) : list Z := concat ((fun x => [hex_digit (x / 16); hex_digit (x mod 16)]) <$> b).

Definition maxAttempts : nat := Z.to_nat 10000.

Definition DirName (rel : list Z) : list Z := path_string (PathDir rel).

Section create.
(** The random bytes of each attempt. *)
Variable rand : nat -> list Z.

Fixpoint temp_loop (left_ : nat) (dir : list (list Z)) (d : list Z) (i : nat) : fsM (result xerr (list Z)) :=
  match left_ with
  | O => fret (Err XExhausted)
  | S left_ =>
      try! _ <- x_ctx in
      let tmpRel := path_string (GoPath.Join d (TempFilePrefix ++ hex_encode (u8 <$> rand i))) in
      do! f <- rooted_call dir tmpRel OpenExcl in
      match f with
      | Ok _ => fret (Ok tmpRel)
      | Err (XOS EEXIST) => temp_loop left_ dir d (S i)
      | Err e => fret (Err e)
      end
  end.

Definition RootedCreateTemp (dir : list (list Z)) (rel : list Z) : fsM (result xerr (list Z)) :=
  try! _ <- x_ctx in
  let d := DirName rel in
  try! _ <- (if bool_decide (d = [dot]) then fret (Ok tt) else rooted_call dir d MkdirAll) in
  temp_loop maxAttempts dir d O.
End create.

(** ** Names *)
Definition TrimPrefix (s p : list Z) : list Z := if HasPrefix s p then drop (length p) s else s.

Definition SanitizeArchivePath (name : list Z) (oneFolder : bool) : option (list Z) :=
  let name := ReplaceAll name 92 slash in
  if ContainsByte name 0 then None
  else
    let checked :=
      if oneFolder then Some (Base name)
      else
        let name := TrimPrefix (path_string (Clean name)) [slash] in
        if existsb (fun c => bool_decide (c = dotdot)) (split_slash name) then None else Some name in
    match checked with
    | None => None
    | Some name => if bool_decide (name = [] \/ name = [dot]) then None else Some name
    end.

Definition nameIsFree (dir : list (list Z)) (rel : list Z) : fsM bool :=
  do! r <- rooted_call dir rel Lstat in fret (not_exist r).

Fixpoint unique_loop (left_ : nat) (root : list (list Z)) (rel dir name ext : list Z) (i : Z) : fsM (list Z) :=
  match left_ with
  | O => fret rel
  | S left_ =>
      let candidate := path_string (GoPath.Join dir (name ++ [95] ++ print_dec i ++ ext)) in
      do! free <- nameIsFree root candidate in
      if free then fret candidate else unique_loop left_ root rel dir name ext (i + 1)
  end.

(** [strings.TrimSuffix(base, ext)], where [ext] ends [base] *)
Definition uniquePath (root : list (list Z)) (rel : list Z) : fsM (list Z) :=
  do! free <- nameIsFree root rel in
  if free then fret rel
  else
    let base := Base rel in
    let ext := Ext base in
    unique_loop (maxAttempts - 1) root rel (DirName rel) (take (length base - length ext) base) ext 1.

Record Options : Type := mkOptions { OneFolder : bool; OverwriteFiles : bool; IgnoreUnrarDates : bool; MinFreeSpace : Z }.

Definition memberPath (root : list (list Z)) (name : list Z) (isDir : bool) (opts : Options) : fsM (option (list Z)) :=
  match SanitizeArchivePath name (OneFolder opts) with
  | None => fret None
  | Some rel =>
      if negb (OneFolder opts) then fret (Some rel)
      else if isDir then fret None
      else if OverwriteFiles opts then fret (Some rel)
      else do! u <- uniquePath root rel in fret (Some u)
  end.

(** ** Writing a member *)

(** What the member's reader gives before it ends, or fails. *)
Record reader : Type := mkReader { r_data : list Z; r_ok : bool }.

Definition contextCopy (root : list (list Z)) (rel : list Z) (src : reader) : fsM (result xerr unit) :=
  try! _ <- rooted_call root rel (fun p => Copy p (r_data src)) in
  fret (if r_ok src then Ok tt else Err XRead).

Definition contextDiscard (src : reader) : fsM (result xerr unit) :=
  try! _ <- x_ctx in fret (if r_ok src then Ok tt else Err XRead).

Section write.
Variable rand : nat -> list Z.

Definition writeEntrySafely (root : list (list Z)) (destRel : list Z) (src : reader) (drainOnSkip : bool) (mode : Z)
    (modTimeZero : bool) (opts : Options) (verify : option xerr) : fsM (result xerr bool) :=
  do! skip <- (if OverwriteFiles opts then fret false else do! there <- rooted_call root destRel Lstat in fret (is_ok there)) in
  if skip : bool then
    if drainOnSkip then try! _ <- contextDiscard src in fret (Ok false) else fret (Ok false)
  else
    try! tmpRel <- RootedCreateTemp rand root destRel in
    do! r <- (try! _ <- contextCopy root tmpRel src in
              try! _ <- x_call noop in                                           (* Close *)
              try! _ <- fret (match verify with Some e => Err e | None => Ok tt end) in
              do! _ <- (if bool_decide (mode = 0) then fret (Ok tt) else noop) in                            (* Chmod *)
              do! _ <- (if IgnoreUnrarDates opts || modTimeZero then fret (Ok tt) else noop) in              (* Chtimes *)
              rooted_rename root tmpRel destRel) in
    match r with
    | Ok _ => fret (Ok true)
    | Err e =>
        do! _ <- noop in
        do! _ <- rooted_entry root tmpRel os_Remove in                            (* [DiscardTemp] *)
        fret (Err e)
    end.

(** ** The archive ([go_tar.go]) *)
Inductive tar_type : Type := TypeReg | TypeDir | TypeOther.

Record tar_entry : Type := mkTarEntry { h_type : tar_type; h_name : list Z; h_mode : Z; h_size : Z; h_time_zero : bool; h_body : reader }.

(** What [tr.Next] returns, call by call; it ends in [io.EOF] or an error. *)
Record tar_stream : Type := mkStream { ts_entries : list tar_entry; ts_broken : bool }.

Definition extractTarFile (root : list (list Z)) (destRel : list Z) (h : tar_entry) (opts : Options) : fsM (result xerr unit) :=
  try! _ <- writeEntrySafely root destRel (h_body h) true (Z.land (h_mode h) 438) (h_time_zero h) opts None in
  fret (Ok tt).

Definition extractTarEntry (root : list (list Z)) (h : tar_entry) (opts : Options) : fsM (result xerr bool) :=
  match h_type h with
  | TypeReg =>
      do! dest <- memberPath root (h_name h) false opts in
      match dest with
      | None => fret (Ok false)
      | Some destRel => try! _ <- extractTarFile root destRel h opts in fret (Ok true)
      end
  | TypeDir =>
      do! rel <- memberPath root (h_name h) true opts in
      match rel with
      | None => fret (Ok false)
      | Some rel => try! _ <- rooted_call root rel MkdirAll in fret (Ok false)
      end
  | TypeOther => fret (Ok false)
  end.

Fixpoint tar_loop (root : list (list Z)) (entries : list tar_entry) (broken : bool) (opts : Options) : fsM (result xerr unit) :=
  try! _ <- x_ctx in
  match entries with
  | [] => fret (if broken then Err XHeader else Ok tt)
  | h :: rest => try! _ <- extractTarEntry root h opts in tar_loop root rest broken opts
  end.

Definition goTarInternal (stageDir : list (list Z)) (archive : tar_stream) (opts : Options) : fsM (result xerr unit) :=
  try! _ <- x_call noop in                                                       (* os.Open *)
  try! _ <- x_call (OpenRoot stageDir) in
  tar_loop stageDir (ts_entries archive) (ts_broken archive) opts.

(** ** Free space *)
Definition tarDeclaredSize (archive : tar_stream) : fsM (result xerr Z) :=
  try! _ <- x_call noop in
  fret (if ts_broken archive then Err XHeader
        else Ok (foldl (fun n h => match h_type h with TypeReg => wraps 64 (n + h_size h) | _ => n end) 0 (ts_entries archive))).

(** [free] is what the file system reports, when it can be read. *)
Definition refuseUnlessItFits (declared : result xerr Z) (free : option Z) (minFree : Z) : result xerr unit :=
  match declared with
  | Err _ => Ok tt
  | Ok declared =>
      if bool_decide (declared = 0) then Ok tt
      else match free with
           | None => Ok tt
           | Some free => if fits declared free minFree then Ok tt else Err XNoSpace
           end
  end.

(** ** The stage ([snapshot.go]) *)

(** [removeStageTree]; the permissions [ownStageDirs] changes are not in the tree. *)
Definition removeStageTree (stageDir : list (list Z)) : fsM unit :=
  do! r <- os_RemoveAll stageDir in
  match r with
  | Ok _ => fret tt
  | Err _ =>
      do! owned <- noop in
      if is_ok owned then do! _ <- os_RemoveAll stageDir in fret tt else fret tt
  end.

(** [os.MkdirTemp] with the numbers it draws. *)
Variable draw : nat -> Z.

Fixpoint mkdir_temp (left_ : nat) (outDir : list (list Z)) (i : nat) : fsM (result xerr (list Z)) :=
  match left_ with
  | O => fret (Err (XOS EEXIST))
  | S left_ =>
      let name := unpackStagePrefix ++ print_dec (wrapu 32 (draw i)) in
      do! r <- Mkdir (outDir ++ [name]) in
      match r with
      | Ok _ => fret (Ok name)
      | Err EEXIST => mkdir_temp left_ outDir (S i)
      | Err e => fret (Err (XOS e))
      end
  end.

Definition prepareStageDir (outDir : list (list Z)) : fsM (result xerr (list Z)) :=
  do! _ <- CleanupStageDirs outDir in mkdir_temp maxAttempts outDir O.

(** What a publish keeps between its visits. *)
Record pstate : Type := mkPub {
  pub_published : list (list Z);
  pub_added : list (list Z);
  pub_created : list (list Z);
  pub_known : list (list Z)
}.

(** The levels of [rel] that are not there, deepest first. *)
Fixpoint missing_dirs (fuel : nat) (root : list (list Z)) (known : list (list Z)) (dir : list Z) : fsM (list (list Z)) :=
  match fuel with
  | O => fret []
  | S fuel =>
      if bool_decide (dir = [dot] \/ dir = [slash]) || bool_decide (dir ∈ known) then fret []
      else
        do! r <- rooted_call root dir Lstat in
        if negb (not_exist r) then fret []
        else do! up <- missing_dirs fuel root known (DirName dir) in fret (dir :: up)
  end.

Definition mkdirAllTracked (root : list (list Z)) (rel : list Z) (st : pstate) : fsM (pstate * result xerr unit) :=
  if bool_decide (rel ∈ pub_known st) then fret (st, Ok tt)
  else
    do! missing <- missing_dirs (S (length rel)) root (pub_known st) rel in
    do! r <- rooted_call root rel MkdirAll in
    let created := pub_created st ++ reverse missing in
    match r with
    | Err e => fret (mkPub (pub_published st) (pub_added st) created (pub_known st), Err e)
    | Ok _ => fret (mkPub (pub_published st) (pub_added st) created (rel :: missing ++ pub_known st), Ok tt)
    end.

(** One regular file of the stage. *)
Definition publish_file (outDir : list (list Z)) (stageBase rel : list Z) (opts : Options) (st : pstate) : fsM (pstate * result xerr unit) :=
  do! dest <- (if OneFolder opts && negb (OverwriteFiles opts) then uniquePath outDir rel else fret rel) in
  do! there <- rooted_call outDir dest Lstat in
  if is_ok there && negb (OverwriteFiles opts) then fret (st, Ok tt)
  else
    do! made <- (if bool_decide (DirName dest = [dot]) then fret (st, Ok tt) else mkdirAllTracked outDir (DirName dest) st) in
    let '(st, r) := made in
    match r with
    | Err e => fret (st, Err e)
    | Ok _ =>
        do! moved <- rooted_rename outDir (path_string (GoPath.Join stageBase rel)) dest in
        match moved with
        | Err e => fret (st, Err e)
        | Ok _ =>
            fret (mkPub (pub_published st ++ [dest]) (if not_exist there then pub_added st ++ [dest] else pub_added st)
                    (pub_created st) (pub_known st), Ok tt)
        end
    end.

(** [filepath.WalkDir] below the stage: a directory, then what it holds. *)
Fixpoint publish_dir (fuel : nat) (outDir : list (list Z)) (stageBase : list Z) (rel : list (list Z)) (opts : Options) (st : pstate)
    : fsM (pstate * result xerr unit) :=
  match fuel with
  | O => fret (st, Err XOutOfFuel)
  | S fuel =>
      do! entries <- ReadDir (outDir ++ stageBase :: rel) in
      match entries with
      | Err e => fret (st, Err (XOS e))
      | Ok names =>
          (fix each (names : list (list Z)) (st : pstate) : fsM (pstate * result xerr unit) :=
             match names with
             | [] => fret (st, Ok tt)
             | n :: names =>
                 let here := rel ++ [n] in
                 do! t <- get in
                 do! visited <- (match t !! (outDir ++ stageBase :: here) with
                                 | Some Dir =>
                                     do! made <- (if OneFolder opts then fret (st, Ok tt) else mkdirAllTracked outDir (join_slash here) st) in
                                     match snd made with
                                     | Err e => fret made
                                     | Ok _ => publish_dir fuel outDir stageBase here opts (fst made)
                                     end
                                 | Some (File _) => publish_file outDir stageBase (join_slash here) opts st
                                 | Some Special => fret (st, Ok tt)
                                 | None => fret (st, Err (XOS ENOENT))
                                 end) in
                 match snd visited with
                 | Err e => fret visited
                 | Ok _ => each names (fst visited)
                 end
             end) names st
      end
  end.

(** [undoPublish] *)
Fixpoint remove_added (outDir : list (list Z)) (added : list (list Z)) : fsM unit :=
  match added with
  | [] => fret tt
  | p :: rest => do! _ <- rooted_entry outDir p RemoveAll in remove_added outDir rest
  end.

Fixpoint remove_created (outDir : list (list Z)) (created : list (list Z)) : fsM unit :=
  match created with
  | [] => fret tt
  | d :: rest => do! _ <- rooted_entry outDir d os_Remove in remove_created outDir rest
  end.

Definition undoPublish (outDir : list (list Z)) (added created : list (list Z)) : fsM unit :=
  do! _ <- remove_added outDir added in remove_created outDir (reverse created).

Definition publishStagedExtraction (outDir : list (list Z)) (stageBase : list Z) (opts : Options) : fsM (result xerr (list (list Z))) :=
  try! _ <- x_call (OpenRoot outDir) in
  try! _ <- x_call noop in                                                       (* ownStageDirs *)
  try! _ <- x_call noop in                                                       (* countStagedNames *)
  do! t <- get in
  do! r <- publish_dir (depth t) outDir stageBase [] opts (mkPub [] [] [] []) in
  match snd r with
  | Ok _ => fret (Ok (pub_published (fst r)))
  | Err e => do! _ <- undoPublish outDir (pub_added (fst r)) (pub_created (fst r)) in fret (Err e)
  end.

Definition ExtractStaged (outDir : list (list Z)) (opts : Options) (extract : list (list Z) -> fsM (result xerr unit)) : fsM (result xerr (list (list Z))) :=
  try! stageBase <- prepareStageDir outDir in
  do! r <- (try! _ <- extract (outDir ++ [stageBase]) in publishStagedExtraction outDir stageBase opts) in
  do! _ <- removeStageTree (outDir ++ [stageBase]) in
  fret r.

Definition GoTar (outDir : list (list Z)) (archive : tar_stream) (free : option Z) (opts : Options) : fsM (result xerr (list (list Z))) :=
  do! declared <- tarDeclaredSize archive in
  match refuseUnlessItFits declared free (MinFreeSpace opts) with
  | Err e => fret (Err e)
  | Ok _ => ExtractStaged outDir opts (fun stageDir => goTarInternal stageDir archive opts)
  end.
End write.
