(* ===== verification/ExtractProps.v ===== *)
(** * What an extraction can touch

    Whatever the names in the archive, the options and the calls that fail,
    an extraction changes nothing outside the directory it extracts into. *)
From S2P Require Import Prelude GoBytes GoText GoPath FileTree FileTreeProps RarSize Finalize PostPipeline Extract.
From stdpp Require Import base numbers gmap sorting list strings.
From Stdlib Require Import ZArith Lia.
Local Open Scope Z_scope.
Local Open Scope go_scope.

(** ** Staying below a directory *)
Definition under (d p : list (list Z)) : Prop := d `prefix_of` p /\ p <> d.

(** A tree a file system can have: nodes lie in directories, and names are names. *)
Definition plain_tree (t : gmap (list (list Z)) node) : Prop := forall p n, t !! p = Some n -> Forall plain p.
Definition good (t : gmap (list (list Z)) node) : Prop := wf_tree t /\ plain_tree t.

Definition contained (d : list (list Z)) (t t' : gmap (list (list Z)) node) : Prop :=
  good t' /\ forall p, ~ under d p -> t' !! p = t !! p.

Lemma contained_refl d t : good t -> contained d t t.
Proof. by split. Qed.

Lemma contained_trans d t1 t2 t3 : contained d t1 t2 -> contained d t2 t3 -> contained d t1 t3.
Proof. intros [_ H1] [W H2]. split; [done|]. intros p Hp. by rewrite H2, H1. Qed.

Lemma contained_dir d t t' : contained d t t' -> t !! d = Some Dir -> t' !! d = Some Dir.
Proof. intros [_ H] Hd. rewrite H; [done|]. by intros [_ ?]. Qed.

(** A computation that keeps to what is below [d]. *)
Definition keeps (d : list (list Z)) {A} (c : fsM A) : Prop :=
  forall t, good t -> t !! d = Some Dir -> wp c (fun _ t' => contained d t t') t.

Lemma keeps_ret (d : list (list Z)) {A} (a : A) : keeps d (fret a).
Proof. intros t Hw _. by apply wp_ret, contained_refl. Qed.

Lemma keeps_bind (d : list (list Z)) {A B} (c : fsM A) (k : A -> fsM B) : keeps d c -> (forall a, keeps d (k a)) -> keeps d (fbind c k).
Proof.
  intros Hc Hk t Hw Hd. apply wp_bind. eapply wp_mono; [by apply Hc|]. intros a t1 H1.
  eapply wp_mono; [apply Hk; [apply H1|exact (contained_dir _ _ _ H1 Hd)]|]. intros b t2. by apply contained_trans.
Qed.

Lemma keeps_try (d : list (list Z)) {E A B} (c : fsM (result E A)) (k : A -> fsM (result E B)) : keeps d c -> (forall a, keeps d (k a)) -> keeps d (try_bind c k).
Proof. intros Hc Hk. apply keeps_bind; [done|]. intros [a|e]; [done|apply keeps_ret]. Qed.

Lemma keeps_x_call (d : list (list Z)) {A} (c : fsM (result errno A)) : keeps d c -> keeps d (x_call c).
Proof. intros Hc. apply keeps_bind; [done|]. intros r. apply keeps_ret. Qed.

(** A call that reads. *)
Lemma keeps_reads (d : list (list Z)) {A} (f : gmap (list (list Z)) node -> result errno A) : keeps d (call (fun t => (f t, t))).
Proof. intros t Hw _. apply wp_call; [intros e|]; by apply contained_refl. Qed.

Lemma keeps_noop (d : list (list Z)) : keeps d noop.
Proof. apply (keeps_reads d (fun _ => Ok tt)). Qed.

Lemma keeps_get (d : list (list Z)) {A} (k : gmap (list (list Z)) node -> fsM A) : (forall t, keeps d (k t)) -> keeps d (fbind get k).
Proof. intros H. apply keeps_bind; [|done]. intros t Hw _. by apply wp_get, contained_refl. Qed.

Lemma keeps_ctx (d : list (list Z)) : keeps d x_ctx.
Proof. apply keeps_bind; [apply keeps_noop|]. intros r. apply keeps_ret. Qed.

Lemma contained_insert d p n t : good t -> Forall plain p -> under d p -> t !! parent p = Some Dir -> t !! p <> Some Dir -> contained d t (<[p := n]> t).
Proof.
  intros [Hw Hpl] Hpp Hp Hpa Hn. split; [split|].
  - apply wf_insert; [done| |done|done]. destruct Hp as [[k ->] Hk]. intros E. apply Hk. destruct d, k; done.
  - intros q m. destruct (decide (q = p)) as [->|Hq]; [done|]. rewrite lookup_insert_ne by done. apply Hpl.
  - intros q Hq. rewrite lookup_insert_ne; [done|]. by intros ->.
Qed.

Lemma keeps_MkdirAll (d p : list (list Z)) : Forall plain p -> d `prefix_of` p -> keeps d (MkdirAll p).
Proof.
  intros Hpp Hp t [Hw Hpl] Hd. eapply wp_mono; [by apply wp_MkdirAll_made|]. intros _ t' (W & H1 & H2). split; [split; [done|]|].
  { intros q n [Hq|[[k E] _]]%H2; [by eapply Hpl|]. subst p. by apply Forall_app in Hpp as [? _]. }
  intros q Hq.
  destruct (t' !! q) as [n|] eqn:E'; [|destruct (t !! q) eqn:E; [|done]; apply H1 in E; congruence].
  destruct (H2 q n E') as [->|[Hqp ->]]; [done|]. assert (q `prefix_of` d) as [k Hk].
  { destruct (prefix_weak_total q d p) as [?|[k ->]]; [done|done|done|]. destruct (decide (k = [])) as [->|]; [exists []; by rewrite !app_nil_r|].
    destruct Hq. split; [by exists k|]. intros Hx. apply (f_equal length) in Hx. rewrite length_app in Hx. destruct k; [done|simpl in Hx; lia]. }
  destruct (decide (k = [])) as [->|Hne]; [rewrite app_nil_r in Hk; congruence|]. subst d. symmetry. by eapply wf_above.
Qed.

Lemma contained_pruned d p t t' : good t -> under d p -> pruned p t t' -> contained d t t'.
Proof.
  intros [Hw Hpl] Hp H. split; [split; [by eapply pruned_wf|intros q n Hq; eapply Hpl, pruned_lookup; done]|]. intros q Hq. eapply pruned_ne; [done|]. by intros ->.
Qed.

Lemma keeps_os_Remove (d : list (list Z)) p : under d p -> keeps d (os_Remove p).
Proof. intros Hp t Hw _. eapply wp_mono; [apply wp_os_Remove_pruned|]. intros r t' Hr. by eapply contained_pruned. Qed.

Lemma contained_cut d p t : good t -> under d p -> contained d t (cut_tree t p).
Proof.
  intros [Hw Hpl] Hp. unfold cut_tree. split; [split|].
  - intros q n x [H1 H2]%map_lookup_filter_Some. apply map_lookup_filter_Some. simpl in *. split; [by eapply Hw|].
    intros Hx. apply H2. by apply prefix_app_r.
  - intros q n [H _]%map_lookup_filter_Some. by eapply Hpl.
  - intros q Hq. apply option_eq. intros n. rewrite map_lookup_filter_Some. simpl. split; [by intros [? _]|]. intros H. split; [done|].
    intros Hpq. apply Hq. destruct Hp as [[k ->] Hk]. split; [etrans; [|exact Hpq]; by apply prefix_app_r|].
    intros ->. apply Hk. destruct Hpq as [k' E]. apply (f_equal length) in E. rewrite !length_app in E.
    destruct k; [by rewrite app_nil_r|simpl in E; lia].
Qed.

Lemma keeps_os_RemoveAll (d : list (list Z)) p : under d p -> keeps d (os_RemoveAll p).
Proof. intros Hp t Hw _. apply wp_call; [intros e; by apply contained_refl|]. by apply contained_cut. Qed.

Lemma keeps_remove_loop (d : list (list Z)) n rm : keeps d rm -> keeps d (remove_loop n rm).
Proof.
  intros H. induction n as [|n IH]; simpl; (apply keeps_bind; [exact H|]); intros [u|e]; try apply keeps_ret; repeat case_match; try apply keeps_ret. exact IH.
Qed.

Lemma keeps_RemoveAll (d : list (list Z)) p : under d p -> keeps d (RemoveAll p).
Proof.
  intros Hp. apply keeps_bind; [by apply keeps_remove_loop, keeps_os_RemoveAll|]. intros [e|]; [|apply keeps_ret].
  apply keeps_get. intros t. repeat case_match; apply keeps_ret.
Qed.

Lemma keeps_Rename (d p q : list (list Z)) : Forall plain q -> under d p -> under d q -> keeps d (Rename p q).
Proof.
  intros Hpq Hp Hq t Hg Hd. pose proof Hg as [Hw Hpl]. apply wp_call; [intros e; by apply contained_refl|]. simpl.
  destruct (t !! p) as [n|] eqn:Ep; [|by apply contained_refl].
  assert (contained d t (snd (if bool_decide (p = q) then (Ok tt, t)
     else if bool_decide (t !! parent q <> Some Dir) then (Err (missing t q), t)
     else if is_prefix p q then (Err EINVAL, t) else (Ok tt, move_tree t p q))) \/ t !! q = Some Dir) as Hm.
  { destruct (decide (t !! q = Some Dir)) as [|Hnd]; [by right|left]. case_bool_decide as Hne; simpl; [by apply contained_refl|].
    destruct (bool_decide_reflect (t !! parent q <> Some Dir)) as [|Hpa]; simpl; [by apply contained_refl|].
    destruct (is_prefix p q) eqn:Epq; simpl; [by apply contained_refl|]. apply is_prefix_false in Epq.
    assert (t !! parent q = Some Dir) as Hpa' by (destruct (decide (t !! parent q = Some Dir)); [done|by destruct Hpa]).
    assert (disj p q) as Hdj.
    { split; [done|]. intros [k ->]. apply Hnd. eapply wf_above; [done|exact Ep|]. intros ->. by rewrite app_nil_r in Hne. }
    split; [split|].
    - apply wf_move_tree; [done|done| |done|by eexists]. intros ->. destruct Hq as [[k E] Hk]. by destruct d.
    - intros r m [(k & -> & Hk)|(_ & _ & Hk)]%lookup_move_tree; [|by eapply Hpl|done]. apply Hpl, Forall_app in Hk as [_ Hk]. by apply Forall_app.
    - intros r Hr. apply option_eq. intros m. rewrite lookup_move_tree by done. split; [|intros H; right].
      + intros [(k & -> & _)|(_ & _ & ?)]; [|done]. destruct Hr. destruct Hq as [[k' ->] Hk']. split; [rewrite <- app_assoc; by apply prefix_app_r|].
        intros E. apply (f_equal length) in E. rewrite !length_app in E. destruct k'; [by rewrite app_nil_r in Hk'|simpl in E; lia].
      + assert (forall x, under d x -> ~ x `prefix_of` r) as Hx; [|by split; [apply Hx|split; [apply Hx|]]].
        intros x [[k ->] Hk] [k' ->]. apply Hr. split; [rewrite <- app_assoc; by apply prefix_app_r|].
        intros E. apply (f_equal length) in E. rewrite !length_app in E. destruct k; [by rewrite app_nil_r in Hk|simpl in E; lia]. }
  destruct n as [c| |]; destruct (t !! q) as [[c'| |]|] eqn:Eq; try (by apply contained_refl); destruct Hm as [Hm|Hm]; try done.
Qed.

Create HintDb keeps.
#[export] Hint Resolve keeps_ret keeps_noop keeps_ctx keeps_bind keeps_try keeps_x_call : keeps.

(** ** Through an [os.Root] *)
Lemma inside_prefix dir rel p : inside dir rel = Some p -> dir `prefix_of` p.
Proof. unfold inside. destruct (IsLocal rel); [|done]. intros [= <-]. by apply prefix_app_r. Qed.

Lemma IsLocal_plain rel : IsLocal rel = true -> rooted (Clean rel) = false /\ Forall plain (comps (Clean rel)).
Proof.
  unfold IsLocal. rewrite !andb_true_iff, !negb_true_iff. intros [[_ Hr] Hh]. split; [done|]. apply bool_decide_eq_false in Hh.
  destruct (Clean_clean rel) as (n & names & E & Hpl & _). rewrite E in *. by destruct n.
Qed.

Lemma inside_plain dir rel p : Forall plain dir -> inside dir rel = Some p -> Forall plain p.
Proof.
  intros Hd. unfold inside. destruct (IsLocal rel) eqn:E; [|done]. intros [= <-]. apply Forall_app. split; [done|]. by apply IsLocal_plain.
Qed.

Lemma keeps_Lstat (d p : list (list Z)) : keeps d (Lstat p).
Proof. apply keeps_reads. Qed.

Lemma keeps_rooted_Lstat (d : list (list Z)) rel : keeps d (rooted_call d rel Lstat).
Proof. unfold rooted_call. destruct (inside d rel); [apply keeps_x_call, keeps_Lstat|apply keeps_ret]. Qed.

Lemma keeps_rooted_MkdirAll (d : list (list Z)) rel : keeps d (rooted_call d rel MkdirAll).
Proof.
  intros t Hg Hd. revert t Hg Hd. unfold rooted_call. destruct (inside d rel) as [p|] eqn:E; [|apply keeps_ret]. intros t Hg Hd.
  apply keeps_x_call; [|done..]. apply keeps_MkdirAll; [|by eapply inside_prefix]. eapply inside_plain; [exact (proj2 Hg _ _ Hd)|done].
Qed.

Lemma keeps_rooted_entry (d : list (list Z)) rel {A} (f : list (list Z) -> fsM (result errno A)) :
  (forall p, Forall plain p -> under d p -> keeps d (f p)) -> keeps d (rooted_entry d rel f).
Proof.
  intros Hf t Hg Hd. revert t Hg Hd. unfold rooted_entry. destruct (inside d rel) as [p|] eqn:E; [|apply keeps_ret]. case_bool_decide; [apply keeps_ret|].
  intros t Hg Hd. apply keeps_x_call; [|done..]. apply Hf; [|split; [by eapply inside_prefix|done]]. eapply inside_plain; [exact (proj2 Hg _ _ Hd)|done].
Qed.

Lemma keeps_rooted_rename (d : list (list Z)) a b : keeps d (rooted_rename d a b).
Proof.
  apply keeps_rooted_entry. intros p _ Hp. apply keeps_bind; [|intros x; apply keeps_ret]. apply keeps_rooted_entry. intros q Hqp Hq. by apply keeps_Rename.
Qed.

Lemma contained_mono (d r : list (list Z)) t t' : d `prefix_of` r -> contained r t t' -> contained d t t'.
Proof.
  intros Hr [W H]. split; [done|]. intros p Hp. apply H. intros [Hrp Hne]. apply Hp. split; [by etrans|]. intros ->.
  apply Hne. destruct Hr as [k ->], Hrp as [k' E]. apply (f_equal length) in E. rewrite !length_app in E.
  destruct k; [by rewrite app_nil_r|simpl in E; lia].
Qed.

(** [c] from any tree [d] keeps to, and the rest from there. *)
Lemma wp_then {A B} (d : list (list Z)) (c : fsM A) (k : A -> fsM B) (Q : A -> gmap (list (list Z)) node -> Prop) t : good t -> t !! d = Some Dir ->
  wp c (fun a t' => contained d t t' /\ Q a t') t ->
  (forall a t', good t' -> t' !! d = Some Dir -> Q a t' -> wp (k a) (fun _ t'' => contained d t' t'') t') ->
  wp (fbind c k) (fun _ t' => contained d t t') t.
Proof.
  intros Hw Hd Hc Hk. apply wp_bind. eapply wp_mono; [exact Hc|]. intros a t1 [H1 HQ].
  eapply wp_mono; [apply Hk; [apply H1|exact (contained_dir _ _ _ H1 Hd)|exact HQ]|]. intros b t2. by apply contained_trans.
Qed.

(** The file [os.Root.OpenFile] just created. *)
Definition new_file (d : list (list Z)) (res : result xerr (list Z)) (t : gmap (list (list Z)) node) : Prop :=
  match res with
  | Ok rel => exists p, inside d rel = Some p /\ t !! p = Some (File [])
  | Err _ => True
  end.

Section extract.
Variable rand : nat -> list Z.
Variable draw : nat -> Z.

Lemma wp_temp_loop (d : list (list Z)) dir n : forall i t, good t -> t !! d = Some Dir ->
  wp (temp_loop rand n d dir i) (fun res t' => contained d t t' /\ new_file d res t') t.
Proof.
  induction n as [|n IH]; intros i t Hw Hd; [apply wp_ret; split; [by apply contained_refl|done]|].
  cbn [temp_loop]. apply wp_bind. unfold x_ctx. apply wp_bind, wp_noop. intros o. apply wp_ret. destruct o as [u|e]; [|apply wp_ret; split; [by apply contained_refl|done]].
  set (tmpRel := path_string _). unfold rooted_call. destruct (inside d tmpRel) as [p|] eqn:Ein.
  2: { apply wp_bind, wp_ret, wp_ret. split; [by apply contained_refl|done]. }
  assert (forall e : errno, wp (match Err (XOS e) : result xerr unit with
      | Ok _ => fret (Ok tmpRel) | Err (XOS EEXIST) => temp_loop rand n d dir (S i) | Err e => fret (Err e) end)
      (fun res t' => contained d t t' /\ new_file d res t') t) as Herr.
  { intros e. destruct e; try (apply wp_ret; split; [by apply contained_refl|done]). by apply IH. }
  apply wp_bind, wp_bind. apply wp_call; [intros e; apply wp_ret, (Herr e)|]. simpl. destruct (t !! p) eqn:Ep; simpl; [apply wp_ret, (Herr EEXIST)|].
  destruct (bool_decide_reflect (t !! parent p <> Some Dir)) as [|Hpa]; simpl; [apply wp_ret, (Herr (missing t p))|]. apply wp_ret, wp_ret.
  assert (t !! parent p = Some Dir) as Hpa' by (destruct (decide (t !! parent p = Some Dir)); [done|by destruct Hpa]).
  assert (under d p) as Hp by (split; [by eapply inside_prefix|congruence]).
  split; [apply contained_insert; [done| |done..|congruence]; eapply inside_plain; [exact (proj2 Hw _ _ Hd)|done]|]. exists p. split; [done|]. apply lookup_insert_eq.
Qed.

Lemma wp_RootedCreateTemp (d : list (list Z)) rel t : good t -> t !! d = Some Dir ->
  wp (RootedCreateTemp rand d rel) (fun res t' => contained d t t' /\ new_file d res t') t.
Proof.
  intros Hw Hd. unfold RootedCreateTemp. apply wp_bind. unfold x_ctx. apply wp_bind, wp_noop. intros o. apply wp_ret.
  destruct o as [u|e]; [|apply wp_ret; split; [by apply contained_refl|done]]. apply wp_bind.
  assert (keeps d (if bool_decide (DirName rel = [dot]) then fret (Ok tt) else rooted_call d (DirName rel) MkdirAll)) as Hk
    by (case_bool_decide; [apply keeps_ret|apply keeps_rooted_MkdirAll]).
  eapply wp_mono; [by apply Hk|]. intros res t1 H1. destruct res as [x|e]; [|apply wp_ret; split; [exact H1|done]].
  eapply wp_mono; [apply wp_temp_loop; [apply H1|exact (contained_dir _ _ _ H1 Hd)]|]. intros r t2 [A B].
  split; [by eapply contained_trans|exact B].
Qed.

(** What the new file is filled with. *)
Lemma wp_fill (d p : list (list Z)) rel src t c : good t -> t !! d = Some Dir -> inside d rel = Some p -> t !! p = Some (File c) ->
  wp (contextCopy d rel src) (fun _ t' => contained d t t') t.
Proof.
  intros Hw Hd Ein Hp. unfold contextCopy, rooted_call. rewrite Ein. apply wp_bind, wp_bind.
  assert (forall x, contained d t (<[p := File x]> t)) as Hx.
  { intros x. assert (under d p) as Hu by (split; [by eapply inside_prefix|congruence]). apply contained_insert; [done|eapply inside_plain; [exact (proj2 Hw _ _ Hd)|done]|done| |congruence].
    destruct p as [|z p _] using rev_ind; [|rewrite parent_snoc; by eapply (proj1 Hw)]. destruct Hu as [[k E] Hk]. by destruct d. }
  apply wp_Copy; intros; by repeat apply wp_ret.
Qed.

Lemma keeps_writeEntrySafely (d : list (list Z)) dest src drain mode mt opts ver : keeps d (writeEntrySafely rand d dest src drain mode mt opts ver).
Proof.
  apply keeps_bind.
  { destruct (OverwriteFiles opts); [apply keeps_ret|]. apply keeps_bind; [apply keeps_rooted_Lstat|intros; apply keeps_ret]. }
  intros [|].
  { destruct drain; [|apply keeps_ret]. apply keeps_try; [|intros; apply keeps_ret]. apply keeps_try; [apply keeps_ctx|]. intros; apply keeps_ret. }
  intros t Hw Hd. eapply wp_then; [done|done|by apply wp_RootedCreateTemp|]. clear t Hw Hd. intros [tmp|e] t Hw Hd Hnew; [|by apply keeps_ret].
  destruct Hnew as (p & Ein & Hp). eapply (wp_then d _ _ (fun _ _ => True)); [done|done| |].
  - apply wp_bind. eapply wp_mono; [by eapply wp_fill|]. intros r t1 H1. destruct r as [u|e]; [|by apply wp_ret].
    assert (keeps d (try! _ <- x_call noop in
                     try! _ <- fret (match ver with Some e => Err e | None => Ok tt end) in
                     do! _ <- (if bool_decide (mode = 0) then fret (Ok tt) else noop) in
                     do! _ <- (if IgnoreUnrarDates opts || mt then fret (Ok tt) else noop) in
                     rooted_rename d tmp dest)) as Hk.
    { apply keeps_try; [apply keeps_x_call, keeps_noop|]. intros _. apply keeps_try; [apply keeps_ret|]. intros _.
      apply keeps_bind; [case_bool_decide; [apply keeps_ret|apply keeps_noop]|]. intros _.
      apply keeps_bind; [destruct (_ || _); [apply keeps_ret|apply keeps_noop]|]. intros _. apply keeps_rooted_rename. }
    eapply wp_mono; [apply Hk; [apply H1|exact (contained_dir _ _ _ H1 Hd)]|]. intros r t2 H2. split; [by eapply contained_trans|done].
  - clear. intros [u|e] t Hw Hd _; [by apply keeps_ret|]. apply keeps_bind; [apply keeps_noop| |done..]. intros _.
    apply keeps_bind; [|intros; apply keeps_ret]. apply keeps_rooted_entry. intros q _ Hq. by apply keeps_os_Remove.
Qed.

Lemma keeps_nameIsFree (d : list (list Z)) rel : keeps d (nameIsFree d rel).
Proof. apply keeps_bind; [apply keeps_rooted_Lstat|]. intros; apply keeps_ret. Qed.

Lemma keeps_uniquePath (d : list (list Z)) rel : keeps d (uniquePath d rel).
Proof.
  apply keeps_bind; [apply keeps_nameIsFree|]. intros [|]; [apply keeps_ret|]. generalize 1 as i. generalize (maxAttempts - 1)%nat as n.
  induction n as [|n IH]; intros i; [apply keeps_ret|]. cbn [unique_loop]. apply keeps_bind; [apply keeps_nameIsFree|]. intros [|]; [apply keeps_ret|apply IH].
Qed.

Lemma keeps_memberPath (d : list (list Z)) name isDir opts : keeps d (memberPath d name isDir opts).
Proof.
  unfold memberPath. destruct (SanitizeArchivePath _ _); [|apply keeps_ret]. destruct (negb _); [apply keeps_ret|].
  destruct isDir; [apply keeps_ret|]. destruct (OverwriteFiles opts); [apply keeps_ret|]. apply keeps_bind; [apply keeps_uniquePath|intros; apply keeps_ret].
Qed.

Lemma keeps_extractTarEntry (d : list (list Z)) h opts : keeps d (extractTarEntry rand d h opts).
Proof.
  unfold extractTarEntry. destruct (h_type h); [| |apply keeps_ret]; (apply keeps_bind; [apply keeps_memberPath|]); intros [rel|]; try apply keeps_ret;
    (apply keeps_try; [|intros; apply keeps_ret]); [|apply keeps_rooted_MkdirAll]. apply keeps_try; [apply keeps_writeEntrySafely|intros; apply keeps_ret].
Qed.

Lemma keeps_goTarInternal (d : list (list Z)) a opts : keeps d (goTarInternal rand d a opts).
Proof.
  apply keeps_try; [apply keeps_x_call, keeps_noop|]. intros _. apply keeps_try; [apply keeps_x_call; apply (keeps_reads d (fun t => match t !! d with Some Dir => Ok tt | Some _ => Err ENOTDIR | None => Err (missing t d) end))|]. intros _.
  induction (ts_entries a) as [|h l IH]; (apply keeps_try; [apply keeps_ctx|]); intros _; [apply keeps_ret|].
  apply keeps_try; [apply keeps_extractTarEntry|intros _; exact IH].
Qed.

(** ** The publish *)
Lemma keeps_missing_dirs (d : list (list Z)) known n : forall dir, keeps d (missing_dirs n d known dir).
Proof.
  induction n as [|n IH]; intros dir; [apply keeps_ret|]. cbn [missing_dirs]. destruct (_ || _); [apply keeps_ret|].
  apply keeps_bind; [apply keeps_rooted_Lstat|]. intros r. destruct (negb _); [apply keeps_ret|]. apply keeps_bind; [apply IH|intros; apply keeps_ret].
Qed.

Lemma keeps_mkdirAllTracked (d : list (list Z)) rel st : keeps d (mkdirAllTracked d rel st).
Proof.
  unfold mkdirAllTracked. case_bool_decide; [apply keeps_ret|]. apply keeps_bind; [apply keeps_missing_dirs|]. intros ms.
  apply keeps_bind; [apply keeps_rooted_MkdirAll|]. intros [u|e]; apply keeps_ret.
Qed.

Lemma keeps_publish_file (d : list (list Z)) base rel opts st : keeps d (publish_file d base rel opts st).
Proof.
  apply keeps_bind; [destruct (_ && _); [apply keeps_uniquePath|apply keeps_ret]|]. intros dest.
  apply keeps_bind; [apply keeps_rooted_Lstat|]. intros there. destruct (_ && _); [apply keeps_ret|].
  apply keeps_bind; [case_bool_decide; [apply keeps_ret|apply keeps_mkdirAllTracked]|]. intros [st' [u|e]]; [|apply keeps_ret].
  apply keeps_bind; [apply keeps_rooted_rename|]. intros [u'|e]; apply keeps_ret.
Qed.

Lemma keeps_publish_dir (d : list (list Z)) base opts fuel : forall rel st, keeps d (publish_dir fuel d base rel opts st).
Proof.
  induction fuel as [|fuel IH]; intros rel st; [apply keeps_ret|]. cbn [publish_dir].
  apply keeps_bind; [apply (keeps_reads d (fun t => match t !! (d ++ base :: rel) with Some Dir => Ok (children t (d ++ base :: rel)) | Some _ => Err ENOTDIR | None => Err (missing t (d ++ base :: rel)) end))|].
  intros [names|e]; [|apply keeps_ret]. revert st. induction names as [|n names IHn]; intros st; [apply keeps_ret|].
  apply keeps_get. intros t. apply keeps_bind.
  - destruct (t !! _) as [[c| |]|]; [apply keeps_publish_file| |apply keeps_ret|apply keeps_ret].
    apply keeps_bind; [destruct (OneFolder opts); [apply keeps_ret|apply keeps_mkdirAllTracked]|]. intros [st' [u|e]]; simpl; [apply IH|apply keeps_ret].
  - intros [st' [u|e]]; simpl; [apply IHn|apply keeps_ret].
Qed.

Lemma keeps_undoPublish (d : list (list Z)) added created : keeps d (undoPublish d added created).
Proof.
  apply keeps_bind.
  - induction added as [|p l IH]; [apply keeps_ret|]. apply keeps_bind; [|intros _; exact IH]. apply keeps_rooted_entry. intros q _ Hq. by apply keeps_RemoveAll.
  - intros _. generalize (reverse created) as l. induction l as [|p l IH]; [apply keeps_ret|]. apply keeps_bind; [|intros _; exact IH].
    apply keeps_rooted_entry. intros q _ Hq. by apply keeps_os_Remove.
Qed.

Lemma keeps_publish (d : list (list Z)) base opts : keeps d (publishStagedExtraction d base opts).
Proof.
  apply keeps_try; [apply keeps_x_call; apply (keeps_reads d (fun t => match t !! d with Some Dir => Ok tt | Some _ => Err ENOTDIR | None => Err (missing t d) end))|].
  intros _. apply keeps_try; [apply keeps_x_call, keeps_noop|]. intros _. apply keeps_try; [apply keeps_x_call, keeps_noop|]. intros _.
  apply keeps_get. intros t. apply keeps_bind; [apply keeps_publish_dir|]. intros [st [u|e]]; simpl; [apply keeps_ret|].
  apply keeps_bind; [apply keeps_undoPublish|]. intros _. apply keeps_ret.
Qed.

(** ** The stage *)
Lemma under_child (d : list (list Z)) n : under d (d ++ [n]).
Proof. split; [by apply prefix_app_r|]. intros E. apply (f_equal length) in E. rewrite length_app in E. simpl in E. lia. Qed.

Lemma keeps_CleanupStageDirs (d : list (list Z)) : keeps d (CleanupStageDirs d).
Proof.
  apply keeps_bind; [apply (keeps_reads d (fun t => match t !! d with Some Dir => Ok (children t d) | Some _ => Err ENOTDIR | None => Err (missing t d) end))|].
  intros [names|e]; [|apply keeps_ret]. induction names as [|n l IH]; [apply keeps_ret|]. apply keeps_get. intros t.
  apply keeps_bind; [destruct (_ && _); [apply keeps_os_RemoveAll, under_child|apply keeps_noop]|]. intros _. exact IH.
Qed.

Lemma stage_name_plain i : plain (unpackStagePrefix ++ print_dec (wrapu 32 (draw i))).
Proof.
  split; [done|]. split; [done|]. split; [done|]. intros [H|H]%elem_of_app; [apply list_elem_of_In in H; vm_compute in H; naive_solver|].
  assert (Forall (fun b => 48 <= b <= 57) (print_dec (wrapu 32 (draw i)))) as Hd.
  { apply print_digits_all; [lia|by apply wrapu_bound|intros; lia]. }
  rewrite Forall_forall in Hd. apply Hd in H. lia.
Qed.

Lemma wp_mkdir_temp (d : list (list Z)) n : forall i t, good t -> t !! d = Some Dir ->
  wp (mkdir_temp draw n d i) (fun r t' => contained d t t' /\ (forall name, r = Ok name -> t' !! (d ++ [name]) = Some Dir)) t.
Proof.
  induction n as [|n IH]; intros i t Hw Hd; [apply wp_ret; split; [by apply contained_refl|done]|]. cbn [mkdir_temp].
  set (name := unpackStagePrefix ++ _). apply wp_bind. apply wp_call.
  - intros e. destruct e; try (apply wp_ret; split; [by apply contained_refl|done]). by apply IH.
  - simpl. destruct (t !! (d ++ [name])) eqn:E; simpl; [by apply IH|]. rewrite parent_snoc, Hd, bool_decide_eq_false_2 by congruence. simpl.
    apply wp_ret. split; [|intros ? [= <-]; apply lookup_insert_eq]. apply contained_insert; [done| |apply under_child|by rewrite parent_snoc|congruence].
    apply Forall_app. split; [exact (proj2 Hw _ _ Hd)|]. apply Forall_singleton, stage_name_plain.
Qed.

Lemma keeps_removeStageTree (d p : list (list Z)) : under d p -> keeps d (removeStageTree p).
Proof.
  intros Hp. apply keeps_bind; [by apply keeps_os_RemoveAll|]. intros [u|e]; [apply keeps_ret|]. apply keeps_bind; [apply keeps_noop|].
  intros o. destruct (is_ok o); [|apply keeps_ret]. apply keeps_bind; [by apply keeps_os_RemoveAll|intros; apply keeps_ret].
Qed.

(** C40: Whatever the names of an archive's members, its order and its damage, the
    options and the calls that fail, extracting it changes nothing but what is
    below the directory it extracts into, and leaves a well-formed tree. *)
Theorem extraction_contained outDir archive free opts t : good t -> t !! outDir = Some Dir ->
  wp (GoTar rand draw outDir archive free opts) (fun _ t' => good t' /\ forall p, ~ under outDir p -> t' !! p = t !! p) t.
Proof.
  intros Hw Hd. change (wp (GoTar rand draw outDir archive free opts) (fun _ t' => contained outDir t t') t).
  revert t Hw Hd. fold (keeps outDir (GoTar rand draw outDir archive free opts)). unfold GoTar.
  apply keeps_bind; [apply keeps_try; [apply keeps_x_call, keeps_noop|intros; apply keeps_ret]|]. intros declared. destruct (refuseUnlessItFits _ _ _); [|apply keeps_ret].
  intros t Hw Hd. unfold ExtractStaged. eapply (wp_then outDir _ _ (fun r t' => forall name, r = Ok name -> t' !! (outDir ++ [name]) = Some Dir)); [done|done| |].
  - unfold prepareStageDir. apply wp_bind. eapply wp_mono; [by apply keeps_CleanupStageDirs|]. intros u t1 H1.
    eapply wp_mono; [apply wp_mkdir_temp; [apply H1|exact (contained_dir _ _ _ H1 Hd)]|]. intros r t2 [A B]. split; [exact (contained_trans _ _ _ _ H1 A)|done].
  - clear t Hw Hd. intros [base|e] t Hw Hd Hbase; [|by apply keeps_ret]. eapply (wp_then outDir _ _ (fun _ _ => True)); [done|done| |].
    + apply wp_bind. eapply wp_mono; [apply (keeps_goTarInternal (outDir ++ [base])); [done|by apply Hbase]|]. intros r t1 H1.
      apply (contained_mono outDir) in H1; [|by apply prefix_app_r]. destruct r as [u|e]; [|by apply wp_ret].
      eapply wp_mono; [apply keeps_publish; [apply H1|exact (contained_dir _ _ _ H1 Hd)]|]. intros r t2 H2. split; [by eapply contained_trans|done].
    + intros r t1 Hw1 Hd1 _. apply keeps_bind; [apply keeps_removeStageTree, under_child| |done..]. intros _. apply keeps_ret.
Qed.
End extract.

(** *** Witness: the third member's name is in the way of the publish *)
Definition demo_tree : gmap (list (list Z)) node := {[ [] := Dir; [bs "d"] := Dir; [bs "d"; bs "k"] := File [7]; [bs "d"; bs "f"] := File [9] ]}.
Definition demo_entry (n : list Z) (b : list Z) : tar_entry := mkTarEntry TypeReg n 420 (Z.of_nat (length b)) true (mkReader b true).
Definition demo_archive : tar_stream := mkStream [demo_entry (bs "a/b") [1; 2]; demo_entry (bs "c") [3]; demo_entry (bs "f/x") [4]] false.
Definition demo_options : Options := mkOptions false false false 0.
Definition demo_run := GoTar (fun i => [Z.of_nat i]) Z.of_nat [bs "d"] demo_archive None demo_options (mkFS demo_tree []).

Lemma demo_good : good demo_tree.
Proof.
  assert (forall p n, demo_tree !! p = Some n -> p = [] \/ p = [bs "d"] \/ p = [bs "d"; bs "k"] \/ p = [bs "d"; bs "f"]) as H.
  { intros p n Hp. assert (p ∈ (map_to_list demo_tree).*1) as Hin by (apply list_elem_of_fmap; exists (p, n); split; [done|by apply elem_of_map_to_list]).
    assert (forall q, bool_decide (q ∈ (map_to_list demo_tree).*1) = true -> q ∈ [[]; [bs "d"]; [bs "d"; bs "k"]; [bs "d"; bs "f"]]) as Hq.
    { intros q Hq%bool_decide_eq_true. revert q Hq. apply Forall_forall. apply (bool_decide_unpack _). vm_compute. exact I. }
    specialize (Hq p). rewrite bool_decide_eq_true_2 in Hq by done. specialize (Hq eq_refl). rewrite !elem_of_cons, elem_of_nil in Hq. naive_solver. }
  assert (forall b, b ∈ [bs "d"; bs "k"; bs "f"] -> plain b) as Hpl.
  { apply Forall_forall. apply (bool_decide_unpack _). vm_compute. exact I. }
  split.
  - intros p n x Hp. apply H in Hp as [E|[E|[E|E]]].
    + by destruct p.
    + assert (p = []) as -> by (destruct p as [|? [|]]; by inversion E). reflexivity.
    + assert (p = [bs "d"]) as -> by (destruct p as [|? [|? [|]]]; inversion E; done). reflexivity.
    + assert (p = [bs "d"]) as -> by (destruct p as [|? [|? [|]]]; inversion E; done). reflexivity.
  - intros p n Hp. apply H in Hp as [->|[->|[->| ->]]]; repeat constructor; apply Hpl; set_solver.
Qed.

Lemma extraction_contained_witness : good demo_tree /\ wp (GoTar (fun i => [Z.of_nat i]) Z.of_nat [bs "d"] demo_archive None demo_options)
  (fun _ t' => good t' /\ forall p, ~ under [bs "d"] p -> t' !! p = demo_tree !! p) demo_tree.
Proof. split; [exact demo_good|]. apply extraction_contained; [exact demo_good|reflexivity]. Defined.

(** Flattened, a name is not checked: the [os.Root] is what keeps it inside. *)
Example one_folder_names :
  SanitizeArchivePath (bs "a/..") true = Some dotdot /\ SanitizeArchivePath (bs "/") true = Some [slash]
  /\ SanitizeArchivePath (bs "a/../..") false = None /\ inside [bs "d"] dotdot = None.
Proof. vm_compute. auto. Qed.
