(* ===== verification/PublishProps.v ===== *)
(** * A failed publish takes back what it added

    With no system call failing of itself, an extraction that fails (for the
    archive, for a name in the way, for space) leaves the directory as it
    was; one that succeeds changed only what it published. *)
From S2P Require Import Prelude GoBytes GoText GoPath FileTree FileTreeProps SanitizeProps RarSize Finalize PostPipeline Extract ExtractProps.
From stdpp Require Import base numbers gmap sorting list strings.
From Stdlib Require Import ZArith Lia.
Local Open Scope Z_scope.
Local Open Scope go_scope.

(** ** Runs in which no call fails of itself *)
Definition quiet {A} (c : fsM A) : Prop := forall t, fs_faults (snd (c (mkFS t []))) = [].

Lemma quiet_ret {A} (a : A) : quiet (fret a).
Proof. done. Qed.
Lemma quiet_bind {A B} (c : fsM A) (k : A -> fsM B) : quiet c -> (forall a, quiet (k a)) -> quiet (fbind c k).
Proof. intros Hc Hk t. unfold fbind. specialize (Hc t). destruct (c (mkFS t [])) as [a [t' f]]. simpl in *. subst f. apply Hk. Qed.
Lemma quiet_try {E A B} (c : fsM (result E A)) (k : A -> fsM (result E B)) : quiet c -> (forall a, quiet (k a)) -> quiet (try_bind c k).
Proof. intros Hc Hk. apply quiet_bind; [done|]. intros [a|e]; [done|apply quiet_ret]. Qed.
Lemma quiet_call {A} (f : gmap (list (list Z)) node -> result errno A * gmap (list (list Z)) node) : quiet (call f).
Proof. done. Qed.
Lemma quiet_get {A} (k : gmap (list (list Z)) node -> fsM A) : (forall t, quiet (k t)) -> quiet (fbind get k).
Proof. intros H t. apply H. Qed.
Lemma quiet_Copy p c : quiet (Copy p c).
Proof. done. Qed.

(** Decomposes a computation down to its calls. *)
Ltac quiet :=
  repeat match goal with
  | |- forall _, _ => intros
  | |- quiet (fret _) => apply quiet_ret
  | |- quiet (call _) => apply quiet_call
  | |- quiet (Copy _ _) => apply quiet_Copy
  | |- quiet (fbind get _) => apply quiet_get
  | |- quiet (fbind _ _) => apply quiet_bind
  | |- quiet (try_bind _ _) => apply quiet_try
  | |- quiet (x_call _) => unfold x_call
  | |- quiet x_ctx => unfold x_ctx
  | |- quiet noop => unfold noop
  | |- quiet (Lstat _) => unfold Lstat
  | |- quiet (ReadDir _) => unfold ReadDir
  | |- quiet (Rename _ _) => unfold Rename
  | |- quiet (os_Remove _) => unfold os_Remove
  | |- quiet (os_RemoveAll _) => unfold os_RemoveAll
  | |- quiet (Mkdir _) => unfold Mkdir
  | |- quiet (OpenExcl _) => unfold OpenExcl
  | |- quiet (OpenRoot _) => unfold OpenRoot
  | |- quiet (rooted_call _ _ _) => unfold rooted_call
  | |- quiet (rooted_entry _ _ _) => unfold rooted_entry
  | |- quiet (rooted_rename _ _ _) => unfold rooted_rename
  | H : context [quiet _] |- quiet _ => apply H
  | |- quiet (match ?x with _ => _ end) => destruct x
  | |- quiet (if ?x then _ else _) => destruct x
  end.

Lemma quiet_MkdirAll p : quiet (MkdirAll p).
Proof.
  unfold MkdirAll. quiet. generalize ((fun k => take k p) <$> seq 1 (length p)) as l. induction l as [|q l IH]; [by quiet|]. cbn [mkdir_each]. quiet.
Qed.

Lemma quiet_remove_loop n rm : quiet rm -> quiet (remove_loop n rm).
Proof. intros H. induction n as [|n IH]; cbn [remove_loop]; quiet. Qed.

Lemma quiet_RemoveAll p : quiet (RemoveAll p).
Proof. unfold RemoveAll. apply quiet_bind; [apply quiet_remove_loop; quiet|]. quiet. Qed.

Section quiet.
Variable rand : nat -> list Z.
Variable draw : nat -> Z.

Lemma quiet_temp_loop n d dir : forall i, quiet (temp_loop rand n d dir i).
Proof. induction n as [|n IH]; intros i; cbn [temp_loop]; quiet. Qed.

Lemma quiet_RootedCreateTemp d rel : quiet (RootedCreateTemp rand d rel).
Proof. unfold RootedCreateTemp. pose proof quiet_MkdirAll. pose proof quiet_temp_loop. quiet. Qed.

Lemma quiet_uniquePath d rel : quiet (uniquePath d rel).
Proof.
  assert (forall r, quiet (nameIsFree d r)) as Hf by (unfold nameIsFree; quiet). unfold uniquePath. apply quiet_bind; [apply Hf|]. intros [|]; [quiet|].
  generalize 1 as i. generalize (maxAttempts - 1)%nat as n. induction n as [|n IH]; intros i; cbn [unique_loop]; [by quiet|].
  apply quiet_bind; [apply Hf|]. intros [|]; [by quiet|apply IH].
Qed.

Lemma quiet_goTarInternal d a opts : quiet (goTarInternal rand d a opts).
Proof.
  unfold goTarInternal. apply quiet_try; [by quiet|]. intros _. apply quiet_try; [by quiet|]. intros _. pose proof quiet_uniquePath. pose proof quiet_MkdirAll. pose proof quiet_RootedCreateTemp.
  induction (ts_entries a) as [|h l IH]; cbn [tar_loop]; [by quiet|]. apply quiet_try; [by quiet|]. intros _. apply quiet_try; [|intros; exact IH].
  unfold extractTarEntry, extractTarFile, writeEntrySafely, memberPath, contextCopy, contextDiscard. quiet.
Qed.

Lemma quiet_prepareStageDir d : quiet (prepareStageDir draw d).
Proof.
  unfold prepareStageDir. apply quiet_bind.
  - unfold CleanupStageDirs. apply quiet_bind; [by quiet|]. intros [names|e]; [|by quiet]. induction names as [|n l IH]; cbn [remove_stage_dirs]; quiet.
  - intros _. generalize O as i. induction maxAttempts as [|n IH]; intros i; cbn [mkdir_temp]; quiet.
Qed.
End quiet.

Definition calm {A} (c : fsM A) (Q : A -> gmap (list (list Z)) node -> Prop) (t : gmap (list (list Z)) node) : Prop :=
  Q (fst (c (mkFS t []))) (fs_tree (snd (c (mkFS t [])))).

Lemma calm_ret {A} (a : A) Q t : Q a t -> calm (fret a) Q t.
Proof. done. Qed.
Lemma calm_bind {A B} (c : fsM A) (k : A -> fsM B) Q t : quiet c -> calm c (fun a t' => calm (k a) Q t') t -> calm (fbind c k) Q t.
Proof. unfold calm, fbind. intros Hq. specialize (Hq t). destruct (c (mkFS t [])) as [a [t' f]]. simpl in *. by subst f. Qed.
Lemma calm_mono {A} (c : fsM A) (Q Q' : A -> gmap (list (list Z)) node -> Prop) t : calm c Q t -> (forall a t', Q a t' -> Q' a t') -> calm c Q' t.
Proof. intros H HQ. apply HQ, H. Qed.
Lemma calm_wp {A} (c : fsM A) Q t : wp c Q t -> calm c Q t.
Proof. intros H. apply (H []). Qed.
Lemma calm_get {A} (k : gmap (list (list Z)) node -> fsM A) Q t : calm (k t) Q t -> calm (fbind get k) Q t.
Proof. done. Qed.
Lemma calm_call {A} (f : gmap (list (list Z)) node -> result errno A * gmap (list (list Z)) node) Q t : Q (fst (f t)) (snd (f t)) -> calm (call f) Q t.
Proof. done. Qed.

(** ** Slash paths of plain names *)
Lemma split_slash_app a b : slash ∉ a -> split_slash (a ++ slash :: b) = a :: split_slash b.
Proof.
  intros Ha. induction a as [|x a IH]; simpl; [destruct (split_slash b) eqn:E; [by apply split_slash_ne in E|done]|].
  apply not_elem_of_cons in Ha as [Hx Ha]. rewrite IH by done. by destruct (Z.eqb_spec x slash).
Qed.

Lemma split_slash_single a : slash ∉ a -> split_slash a = [a].
Proof.
  intros Ha. induction a as [|x a IH]; simpl; [done|]. apply not_elem_of_cons in Ha as [Hx Ha]. rewrite IH by done. by destruct (Z.eqb_spec x slash).
Qed.

Lemma join_slash_cons c cs : cs <> [] -> join_slash (c :: cs) = c ++ slash :: join_slash cs.
Proof. by destruct cs. Qed.

Lemma split_join cs : cs <> [] -> Forall plain cs -> split_slash (join_slash cs) = cs.
Proof.
  intros Hne Hp. induction Hp as [|c cs (Hc1 & _ & _ & Hc2) _ IH]; [done|]. destruct (decide (cs = [])) as [->|Hcs]; [by apply split_slash_single|].
  by rewrite join_slash_cons, split_slash_app, IH.
Qed.

Lemma clean_plain root cs : Forall plain cs -> forall acc, foldl (clean_step root) acc cs = acc ++ cs.
Proof.
  induction 1 as [|c cs (Hc1 & Hc2 & Hc3 & _) _ IH]; intros acc; simpl; [by rewrite app_nil_r|]. rewrite IH. unfold clean_step.
  rewrite bool_decide_eq_false_2 by naive_solver. rewrite bool_decide_eq_false_2 by done. by rewrite <- app_assoc.
Qed.

Lemma IsAbs_join cs x : cs <> [] -> Forall plain cs -> IsAbs (join_slash cs ++ x) = false.
Proof.
  intros Hne Hp. destruct cs as [|c cs]; [done|]. apply Forall_cons in Hp as [(Hc1 & _ & _ & Hc2) _]. destruct c as [|b c]; [done|].
  assert (exists y, join_slash ((b :: c) :: cs) ++ x = b :: y) as [y ->] by (destruct cs; eauto). unfold IsAbs. cbn [HasPrefix].
  apply not_elem_of_cons in Hc2 as [Hb _]. by destruct (Z.eqb_spec slash b).
Qed.

Lemma Clean_join cs : cs <> [] -> Forall plain cs -> Clean (join_slash cs) = mkPath false cs.
Proof.
  intros Hne Hp. unfold Clean. rewrite split_join, clean_plain by done. pose proof (IsAbs_join cs [] Hne Hp) as H. rewrite app_nil_r in H. by rewrite H.
Qed.

Lemma join_slash_ne cs : cs <> [] -> Forall plain cs -> join_slash cs <> [] /\ join_slash cs <> [dot] /\ join_slash cs <> [slash].
Proof.
  intros Hne Hp. pose proof (split_join cs Hne Hp) as Hs. split; [|split]; intros E; rewrite E in Hs; vm_compute in Hs; subst cs;
    apply Forall_cons in Hp as [(H1 & H2 & _) _]; done.
Qed.

Lemma inside_join d cs : cs <> [] -> Forall plain cs -> inside d (join_slash cs) = Some (d ++ cs).
Proof.
  intros Hne Hp. unfold inside, IsLocal. rewrite Clean_join by done. simpl. rewrite bool_decide_eq_false_2 by by apply join_slash_ne.
  rewrite bool_decide_eq_false_2; [done|]. destruct Hp as [|c cs (_ & _ & Hc & _) _]; simpl; congruence.
Qed.

Lemma upto_last_slash_app a b : slash ∉ b -> upto_last_slash (a ++ slash :: b) = a ++ [slash].
Proof.
  intros Hb. assert (upto_last_slash b = []) as Hn.
  { induction b as [|x b IH]; [done|]. apply not_elem_of_cons in Hb as [Hx Hb]. simpl. rewrite IH by done. by destruct (Z.eqb_spec x slash). }
  induction a as [|x a IH]; simpl; [by rewrite Hn|]. rewrite IH. by destruct a.
Qed.

Lemma join_slash_snoc cs c : cs <> [] -> join_slash (cs ++ [c]) = join_slash cs ++ slash :: c.
Proof.
  intros Hne. induction cs as [|x cs IH]; [done|]. destruct (decide (cs = [])) as [->|Hcs]; [done|].
  rewrite <- app_comm_cons, join_slash_cons by (by destruct cs). rewrite IH by done. rewrite join_slash_cons by done. by rewrite <- app_assoc.
Qed.

Lemma DirName_join cs c : Forall plain cs -> plain c -> DirName (join_slash (cs ++ [c])) = if bool_decide (cs = []) then [dot] else join_slash cs.
Proof.
  intros Hp (Hc1 & _ & _ & Hc2). unfold DirName, PathDir. case_bool_decide as Hcs.
  - subst cs. simpl. assert (upto_last_slash c = []) as ->; [|done]. clear Hc1.
    induction c as [|x b IH]; [done|]. apply not_elem_of_cons in Hc2 as [Hx Hb]. simpl. rewrite IH by done. by destruct (Z.eqb_spec x slash).
  - rewrite join_slash_snoc, upto_last_slash_app by done. unfold Clean. rewrite IsAbs_join by done.
    assert (split_slash (join_slash cs ++ [slash]) = cs ++ [[]]) as ->.
    { clear -Hp Hcs. induction Hp as [|x l (_ & _ & _ & Hx) _ IH]; [done|]. destruct (decide (l = [])) as [->|Hl]; [by apply split_slash_app|].
      rewrite join_slash_cons by done. rewrite <- app_assoc. simpl. by rewrite split_slash_app, IH. }
    rewrite foldl_app, (clean_plain false cs Hp). cbn [foldl app]. unfold clean_step. rewrite bool_decide_eq_true_2 by (by left).
    unfold path_string. cbn [rooted comps]. by rewrite bool_decide_eq_false_2.
Qed.

Lemma Join_join s cs : plain s -> cs <> [] -> Forall plain cs -> path_string (GoPath.Join s (join_slash cs)) = join_slash (s :: cs).
Proof.
  intros Hs Hne Hp. unfold GoPath.Join. rewrite bool_decide_eq_false_2 by (by destruct Hs). rewrite bool_decide_eq_false_2 by by apply join_slash_ne.
  rewrite <- join_slash_cons by done. rewrite Clean_join by (done || by constructor). done.
Qed.

Lemma after_last_none c s : c ∉ s -> after_last c s = None.
Proof.
  induction s as [|b s IH]; [done|]. intros [Hb Hs]%not_elem_of_cons. simpl. rewrite IH by done. by destruct (Z.eqb_spec b c).
Qed.

Lemma after_last_app c a b : c ∉ b -> after_last c (a ++ c :: b) = Some b.
Proof.
  intros Hb. induction a as [|x a IH]; simpl; [by rewrite after_last_none, Z.eqb_refl|]. by rewrite IH.
Qed.

Lemma Base_join cs c : Forall plain cs -> plain c -> Base (join_slash (cs ++ [c])) = c.
Proof.
  intros Hp Hc. destruct (join_slash_ne (cs ++ [c])) as (Hne & _ & _); [by destruct cs|apply Forall_app; split; [done|by apply Forall_singleton]|].
  unfold Base. destruct (decide (join_slash (cs ++ [c]) = [])); [done|]. destruct Hc as (Hc1 & _ & _ & Hc2).
  assert (forall a, TrimRight (a ++ c) [slash] = a ++ c) as Ht.
  { intros a. apply TrimRight_id. intros b Hb. destruct c as [|x c _] using rev_ind; [done|]. rewrite app_assoc, last_snoc in Hb. injection Hb as ->. simpl.
    destruct (Z.eqb_spec b slash) as [->|]; [|done]. destruct Hc2. apply elem_of_app. right. by left. }
  destruct (decide (cs = [])) as [->|Hcs].
  - simpl. specialize (Ht []). simpl in Ht. rewrite Ht. destruct (decide (c = [])); [done|]. by rewrite after_last_none.
  - rewrite join_slash_snoc by done. replace (join_slash cs ++ slash :: c) with ((join_slash cs ++ [slash]) ++ c) by by rewrite <- app_assoc.
    rewrite Ht. destruct (decide _) as [E|_]; [by apply app_nil in E as [_ ?]|]. assert (after_last slash ((join_slash cs ++ [slash]) ++ c) = Some c) as ->; [|done].
    rewrite <- app_assoc. by apply (after_last_app slash).
Qed.

Lemma plain_suffixed c i : plain c -> plain (take (length c - length (Ext c)) c ++ [95] ++ print_dec i ++ Ext c) \/ ~ 0 <= i < 10 ^ 20.
Proof.
  intros (_ & _ & _ & Hc). destruct (decide (0 <= i < 10 ^ 20)) as [Hi|]; [left|by right]. set (a := take _ c).
  assert (slash ∉ a) as Ha by (intros H; apply Hc; by eapply elem_of_take in H as (k & H & _); eapply list_elem_of_lookup_2).
  assert (slash ∉ Ext c) as He.
  { intros H. assert (Forall (fun b => b <> slash) (Ext c)) as HF by (apply Ext_Forall; [done|]; apply Forall_forall; intros x Hx ->; done).
    rewrite Forall_forall in HF. by apply (HF slash). }
  assert (slash ∉ print_dec i) as Hd.
  { intros H. pose proof (decimal_print i Hi) as HF. rewrite Forall_forall in HF. apply HF in H. lia. }
  assert (forall x, x = a ++ [95] ++ print_dec i ++ Ext c -> 95 ∈ x) as H95 by (intros x ->; apply elem_of_app; right; by left).
  split; [by destruct a|]. split; [intros E; specialize (H95 _ (eq_sym E)); rewrite list_elem_of_In in H95; simpl in H95; lia|].
  split; [intros E; specialize (H95 _ (eq_sym E)); rewrite list_elem_of_In in H95; simpl in H95; lia|].
  rewrite !elem_of_app. rewrite list_elem_of_singleton. intros [H|[H|[H|H]]]; [done|lia|done|done].
Qed.

Lemma wp_unique_loop d cs c n : Forall plain cs -> plain c -> forall i t, 0 <= i -> i + Z.of_nat n < 10 ^ 20 ->
  wp (unique_loop n d (join_slash (cs ++ [c])) (DirName (join_slash (cs ++ [c]))) (take (length c - length (Ext c)) c) (Ext c) i)
     (fun r t' => t' = t /\ exists cs', cs' <> [] /\ Forall plain cs' /\ r = join_slash cs') t.
Proof.
  intros Hcs Hc. induction n as [|n IH]; intros i t Hi Hn; [apply wp_ret; split; [done|]; exists (cs ++ [c]); split; [by destruct cs|split; [apply Forall_app; split; [done|by apply Forall_singleton]|done]]|].
  cbn [unique_loop]. destruct (plain_suffixed c i Hc) as [Hp|]; [|lia]. set (nm := _ ++ [95] ++ _) in *.
  assert (exists cs', cs' <> [] /\ Forall plain cs' /\ path_string (GoPath.Join (DirName (join_slash (cs ++ [c]))) nm) = join_slash cs') as (cs' & H1 & H2 & ->).
  { rewrite DirName_join by done. exists (cs ++ [nm]). split; [by destruct cs|]. split; [apply Forall_app; split; [done|by apply Forall_singleton]|]. case_bool_decide as E.
    - subst cs. unfold GoPath.Join. rewrite bool_decide_eq_false_2 by done. rewrite bool_decide_eq_false_2 by by destruct Hp.
      unfold Clean. change ([dot] ++ slash :: nm) with ([dot] ++ slash :: nm). rewrite split_slash_app by (rewrite list_elem_of_singleton; done).
      rewrite split_slash_single by apply Hp. simpl. destruct Hp as (P1 & P2 & P3 & _). unfold clean_step at 2. simpl. unfold clean_step.
      rewrite bool_decide_eq_false_2 by naive_solver. rewrite bool_decide_eq_false_2 by done. done.
    - unfold GoPath.Join. rewrite bool_decide_eq_false_2 by by apply join_slash_ne. rewrite bool_decide_eq_false_2 by by destruct Hp.
      rewrite <- join_slash_snoc by done. rewrite Clean_join; [|by destruct cs|apply Forall_app; split; [done|by apply Forall_singleton]].
      unfold path_string. simpl. rewrite bool_decide_eq_false_2; [done|by destruct cs]. }
  apply wp_bind. unfold nameIsFree. apply wp_bind. unfold rooted_call. rewrite inside_join by done. apply wp_bind.
  apply wp_Lstat; intros; repeat apply wp_ret.
  - destruct (not_exist _); [|apply IH; lia]. apply wp_ret. eauto 10.
  - simpl. apply IH; lia.
Qed.

Lemma wp_uniquePath d cs t : cs <> [] -> Forall plain cs ->
  wp (uniquePath d (join_slash cs)) (fun r t' => t' = t /\ exists cs', cs' <> [] /\ Forall plain cs' /\ r = join_slash cs') t.
Proof.
  intros Hne Hp. unfold uniquePath. assert (exists cs0 c, cs = cs0 ++ [c]) as (cs0 & c & ->) by (destruct cs as [|c cs0 _] using rev_ind; eauto; done).
  pose proof Hp as [Hp0 Hc]%Forall_app. rewrite Forall_singleton in Hc.
  assert (forall b : bool, wp (if b then fret (join_slash (cs0 ++ [c])) else
     unique_loop (maxAttempts - 1) d (join_slash (cs0 ++ [c])) (DirName (join_slash (cs0 ++ [c])))
       (take (length (Base (join_slash (cs0 ++ [c]))) - length (Ext (Base (join_slash (cs0 ++ [c]))))) (Base (join_slash (cs0 ++ [c])))) (Ext (Base (join_slash (cs0 ++ [c])))) 1)
     (fun r t' => t' = t /\ exists cs', cs' <> [] /\ Forall plain cs' /\ r = join_slash cs') t) as Hb.
  { intros [|]; [apply wp_ret; eauto 10|]. rewrite Base_join by done. apply wp_unique_loop; [done|done|lia|]. unfold maxAttempts. lia. }
  apply wp_bind. unfold nameIsFree. apply wp_bind. unfold rooted_call. rewrite inside_join by done. apply wp_bind.
  apply wp_Lstat; intros; repeat apply wp_ret; apply Hb.
Qed.

(** ** The tree while a publish walks *)
Lemma move_file t src dst c : wf_tree t -> t !! src = Some (File c) -> t !! dst <> Some Dir -> ~ src `prefix_of` dst ->
  forall q, move_tree t src dst !! q = if bool_decide (q = dst) then Some (File c) else if bool_decide (q = src) then None else t !! q.
Proof.
  intros Hw Hs Hd Hp q. assert (forall r, r <> [] -> t !! (src ++ r) = None) as Hb.
  { intros r Hr. destruct (t !! (src ++ r)) eqn:E; [|done]. assert (t !! src = Some Dir) by (by eapply wf_above). congruence. }
  assert (disj src dst) as Hdj.
  { split; [done|]. intros [k ->]. apply Hd. eapply wf_above; [done|exact Hs|]. intros ->. by rewrite app_nil_r in Hp. }
  case_bool_decide as E1; [subst q; pose proof (move_tree_dst t src dst [] Hdj) as H; rewrite !app_nil_r in H; congruence|].
  apply option_eq. intros n. rewrite lookup_move_tree by done. split.
  - intros [(r & -> & Hr)|(H1 & H2 & H3)]; [destruct r; [by rewrite app_nil_r in E1|by rewrite Hb in Hr]|].
    rewrite bool_decide_eq_false_2; [done|]. by intros ->.
  - case_bool_decide as E2; [done|]. intros H. right. split; [|split; [|done]].
    + intros [r ->]. destruct r; [by rewrite app_nil_r in E2|by rewrite Hb in H].
    + intros [r ->]. apply Hd. eapply wf_above; [done|exact H|]. intros ->. by rewrite app_nil_r in E1.
Qed.

Lemma missing_ENOTDIR t p : missing t p = ENOTDIR -> exists k, (k < length p)%nat /\ is_Some (t !! take k p) /\ t !! take k p <> Some Dir.
Proof.
  unfold missing. destruct (existsb _ _) eqn:E; [|done]. intros _. apply existsb_exists in E as (k & Hk & H). apply in_seq in Hk.
  exists k. split; [lia|]. destruct (t !! take k p) as [[| |]|]; [by eauto|done|by eauto|done].
Qed.

Lemma missing_cases t p : missing t p = ENOENT \/ missing t p = ENOTDIR.
Proof. unfold missing. destruct (existsb _ _); auto. Qed.

Section publish.
Variable d : list (list Z).
Variable base : list Z.
Variable t0 : gmap (list (list Z)) node.
Variable opts : Options.
Hypothesis base_plain : plain base.
Hypothesis stage_dir : t0 !! (d ++ [base]) = Some Dir.
Hypothesis d_dir : t0 !! d = Some Dir.
Hypothesis t0_good : good t0.

(** Not in the stage. *)
Definition outside (p : list (list Z)) : Prop := ~ (d ++ [base]) `prefix_of` p.

Definition pathof (rel : list Z) : list (list Z) := d ++ comps (Clean rel).

Definition canonical (rel : list Z) : Prop := exists cs, cs <> [] /\ Forall plain cs /\ rel = join_slash cs.

Lemma canonical_inside rel : canonical rel -> inside d rel = Some (pathof rel) /\ pathof rel <> d.
Proof.
  intros (cs & Hne & Hp & ->). unfold pathof. rewrite Clean_join by done. simpl. split; [by apply inside_join|].
  intros E. apply (f_equal length) in E. rewrite length_app in E. destruct cs; [done|simpl in E; lia].
Qed.

Definition replaced (st : pstate) (t : gmap (list (list Z)) node) (p : list (list Z)) : Prop :=
  OverwriteFiles opts = true /\ p ∈ pathof <$> pub_published st /\ exists n c, t0 !! p = Some n /\ n <> Dir /\ t !! p = Some (File c).

Record pinv (ok : bool) (t : gmap (list (list Z)) node) (st : pstate) : Prop := mkPinv {
  pi_good : good t;
  pi_canon : Forall canonical (pub_published st ++ pub_created st ++ pub_known st);
  pi_dir : t !! d = Some Dir;
  pi_known : forall k, k ∈ pub_known st -> t !! pathof k = Some Dir;
  pi_published : forall a, a ∈ pub_added st -> a ∈ pub_published st;
  pi_added : forall a, a ∈ pub_added st -> outside (pathof a) -> t0 !! pathof a = None /\ exists c, t !! pathof a = Some (File c);
  pi_created : forall c, c ∈ pub_created st -> (outside (pathof c) -> t0 !! pathof c = None) /\ (t !! pathof c = Some Dir \/ ok = false /\ t !! pathof c = None);
  pi_order : StronglySorted (fun a b => ~ (pathof b `prefix_of` pathof a /\ pathof b <> pathof a)) (pub_created st);
  pi_rest : forall p, outside p -> t !! p = t0 !! p \/ p ∈ pathof <$> pub_added st \/ p ∈ pathof <$> pub_created st \/ replaced st t p
}.

Lemma pinv_start : pinv true t0 (mkPub [] [] [] []).
Proof. constructor; simpl; try done; try (by intros ? ?%elem_of_nil); [constructor|]. by left. Qed.

(** A path that is not there now was not there before. *)
Lemma pinv_absent ok t st p : pinv ok t st -> outside p -> t !! p = None -> ok = true -> t0 !! p = None.
Proof.
  intros H Hp Ht ->. destruct (pi_rest _ _ _ H p Hp) as [E|[(a & -> & Ha)%list_elem_of_fmap|[(c & -> & Hc)%list_elem_of_fmap|(_ & _ & n & c & _ & _ & E)]]].
  - congruence.
  - by destruct (pi_added _ _ _ H a Ha Hp).
  - by destruct (pi_created _ _ _ H c Hc) as [E _]; apply E.
  - congruence.
Qed.

(** ** Directories *)
Definition up (cs : list (list Z)) (k : nat) : list Z := join_slash (take k cs).

(** The missing levels, from the deepest. *)
Lemma calm_missing_dirs known cs t : Forall plain cs -> good t -> t !! d = Some Dir -> (forall k, k ∈ known -> t !! pathof k = Some Dir) ->
  forall n k, (k <= length cs)%nat -> (k < n)%nat ->
  calm (missing_dirs n d known (if bool_decide (k = O) then [dot] else up cs k))
    (fun ms t' => t' = t /\ exists j, (j <= k)%nat /\ ms = (fun i => up cs (k - i)) <$> seq 0 (k - j)
       /\ (forall i, (j < i <= k)%nat -> t !! (d ++ take i cs) = None)
       /\ (is_Some (t !! (d ++ take j cs)) \/ missing t (d ++ take j cs) = ENOTDIR)) t.
Proof.
  intros Hp Hg Hd Hk n. induction n as [|n IH]; intros k Hkl Hkn; [lia|]. cbn [missing_dirs].
  destruct (decide (k = O)) as [->|Hk0].
  { rewrite !(bool_decide_eq_true_2 (O = O)) by done. rewrite bool_decide_eq_true_2 by by left. simpl. apply calm_ret. split; [done|]. exists O.
    split; [done|]. split; [done|]. split; [lia|]. left. rewrite app_nil_r. by eexists. }
  rewrite !(bool_decide_eq_false_2 (k = O)) by done. assert (take k cs <> []) as Hne by (intros E; apply (f_equal length) in E; rewrite length_take in E; simpl in E; lia).
  assert (Forall plain (take k cs)) as Hpk by by apply Forall_take.
  assert (Clean (up cs k) = mkPath false (take k cs)) as Hcl by by apply Clean_join.
  rewrite (bool_decide_eq_false_2 (_ \/ _)) by (pose proof (join_slash_ne _ Hne Hpk); unfold up; tauto). cbn [orb].
  case_bool_decide as Hkn'.
  { apply calm_ret. split; [done|]. exists k. split; [done|]. rewrite Nat.sub_diag. split; [done|]. split; [lia|]. left.
    apply Hk in Hkn'. unfold pathof in Hkn'. fold (up cs k) in Hkn'. rewrite Hcl in Hkn'. simpl in Hkn'. rewrite Hkn'. by eexists. }
  apply calm_bind; [by quiet|]. unfold rooted_call, up. rewrite inside_join by done. unfold x_call, Lstat. apply calm_bind; [by quiet|]. apply calm_call. simpl. apply calm_ret.
  destruct (t !! (d ++ take k cs)) as [nd|] eqn:Et; simpl.
  { apply calm_ret. split; [done|]. exists k. split; [done|]. rewrite Nat.sub_diag. split; [done|]. split; [lia|]. left. rewrite Et. by eexists. }
  destruct (missing_cases t (d ++ take k cs)) as [Em|Em]; rewrite Em; simpl.
  2: { apply calm_ret. split; [done|]. exists k. split; [done|]. rewrite Nat.sub_diag. split; [done|]. split; [lia|]. by right. }
  assert (DirName (join_slash (take k cs)) = if bool_decide ((k - 1)%nat = O) then [dot] else up cs (k - 1)) as ->.
  { assert (exists c, take k cs = take (k - 1) cs ++ [c]) as [c Ec].
    { destruct (lookup_lt_is_Some_2 cs (k - 1)) as [c Hc]; [lia|]. exists c. rewrite <- take_S_r by done. f_equal. lia. }
    rewrite Ec in Hpk |- *. apply Forall_app in Hpk as [Hp1 Hp2]. rewrite Forall_singleton in Hp2. rewrite DirName_join by done.
    destruct (decide (k = 1%nat)) as [->|]; [done|]. rewrite (bool_decide_eq_false_2 ((k - 1)%nat = O)) by lia.
    rewrite bool_decide_eq_false_2; [done|]. intros E. apply (f_equal length) in E. rewrite length_take in E. simpl in E. lia. }
  apply calm_bind; [|eapply calm_mono; [apply (IH (k - 1)%nat); lia|]].
  { clear. generalize (if bool_decide ((k - 1)%nat = 0%nat) then [dot] else up cs (k - 1)) as x. induction n as [|n IH]; intros x; cbn [missing_dirs]; quiet. }
  intros ms t' [-> (j & Hj & -> & H1 & H2)]. apply calm_ret. split; [done|]. exists j. split; [lia|]. split; [|split; [|done]].
  - replace (k - j)%nat with (S (k - 1 - j)) by lia. simpl. f_equal; [unfold up; by rewrite Nat.sub_0_r|]. rewrite <- seq_shift, <- list_fmap_compose. apply list_fmap_ext. intros i x _. simpl.
    unfold up. do 2 f_equal. lia.
  - intros i Hi. destruct (decide (i = k)) as [->|]; [done|]. apply H1. lia.
Qed.

Lemma length_join_slash cs : Forall plain cs -> (length cs <= length (join_slash cs))%nat.
Proof.
  induction 1 as [|c cs (Hc & _) _ IH]; [simpl; lia|]. destruct (decide (cs = [])) as [->|Hne]; [destruct c; simpl; [done|lia]|].
  rewrite join_slash_cons by done. rewrite length_app. simpl. lia.
Qed.

Lemma pathof_up cs i : Forall plain cs -> (0 < i <= length cs)%nat -> pathof (up cs i) = d ++ take i cs.
Proof.
  intros Hp Hi. unfold pathof, up. rewrite Clean_join; [done| |by apply Forall_take]. intros E. apply (f_equal length) in E. rewrite length_take in E. simpl in E. lia.
Qed.

Lemma up_canonical cs i : Forall plain cs -> (0 < i <= length cs)%nat -> canonical (up cs i).
Proof.
  intros Hp Hi. exists (take i cs). split; [|split; [by apply Forall_take|done]]. intros E. apply (f_equal length) in E. rewrite length_take in E. simpl in E. lia.
Qed.

(** The levels [mkdirAllTracked] records, parents first. *)
Definition levels (cs : list (list Z)) (j k : nat) : list (list Z) := (fun i => up cs (S j + i)) <$> seq 0 (k - j).

Lemma levels_reverse cs j k : (j <= k)%nat -> reverse ((fun i => up cs (k - i)) <$> seq 0 (k - j)) = levels cs j k.
Proof.
  intros Hj. unfold levels. rewrite <- fmap_reverse. apply list_eq. intros i. rewrite !list_lookup_fmap. destruct (decide (i < k - j)%nat) as [Hi|Hi].
  - rewrite reverse_lookup by (rewrite length_seq; lia). rewrite length_seq, !lookup_seq_lt by lia. simpl. f_equal. f_equal. lia.
  - rewrite !lookup_ge_None_2; [done|rewrite length_seq; lia|rewrite length_reverse, length_seq; lia].
Qed.

Lemma elem_levels cs j k x : x ∈ levels cs j k <-> exists i, (j < i <= k)%nat /\ x = up cs i.
Proof.
  unfold levels. rewrite list_elem_of_fmap. setoid_rewrite elem_of_seq. split; [intros (i & -> & Hi); exists (S j + i)%nat; split; [lia|done]|].
  intros (i & Hi & ->). exists (i - S j)%nat. split; [f_equal; lia|lia].
Qed.

Lemma levels_order cs j k : Forall plain cs -> (k <= length cs)%nat ->
  StronglySorted (fun a b => ~ (pathof b `prefix_of` pathof a /\ pathof b <> pathof a)) (levels cs j k).
Proof.
  intros Hp Hk. unfold levels. assert (forall n m, (S j + m + n <= S k)%nat -> StronglySorted (fun a b => ~ (pathof b `prefix_of` pathof a /\ pathof b <> pathof a)) ((fun i => up cs (S j + i)) <$> seq m n)) as H.
  { induction n as [|n IH]; intros m Hm; [constructor|]. simpl. constructor; [apply (IH (S m)); lia|]. apply Forall_forall. intros x (i & -> & Hi)%list_elem_of_fmap.
    apply elem_of_seq in Hi. change (S (j + m)) with (S j + m)%nat. change (S (j + i)) with (S j + i)%nat. rewrite !pathof_up by (done || lia).
    intros [Hpre _]. apply prefix_length in Hpre. rewrite !length_app, !length_take in Hpre. lia. }
  destruct (decide (j < k)%nat); [apply H; lia|]. replace (k - j)%nat with O by lia. constructor.
Qed.

(** What [MkdirAll] makes is among the levels. *)
Lemma made_levels cs t t' j q : wf_tree t -> t !! d = Some Dir -> (j <= length cs)%nat ->
  (is_Some (t !! (d ++ take j cs)) \/ missing t (d ++ take j cs) = ENOTDIR) -> made (d ++ cs) t t' -> t !! q = None -> t' !! q <> None ->
  exists i, (j < i <= length cs)%nat /\ q = d ++ take i cs.
Proof.
  intros Hw Hd Hj Hstop (W & M1 & M2) Hq Hq'. destruct (t' !! q) as [n|] eqn:Eq; [|done]. destruct (M2 q n Eq) as [?|[Hpre ->]]; [congruence|].
  assert (forall p r n, t !! (p ++ r) = Some n -> t !! p <> None) as Habove.
  { intros p r m Hm. destruct (decide (r = [])) as [->|Hr]; [rewrite app_nil_r in Hm; congruence|]. rewrite (wf_above t p r m); done. }
  destruct (prefix_weak_total q d (d ++ cs)) as [[k ->]|[k ->]]; [done|by apply prefix_app_r|by destruct (Habove q k Dir)|].
  apply prefix_app_inv in Hpre. assert (k = take (length k) cs) as Ek by (destruct Hpre as [k' ->]; by rewrite take_app_length).
  apply prefix_length in Hpre. exists (length k). split; [|by f_equal]. split; [|done].
  destruct (decide (length k <= j)%nat) as [Hle|]; [exfalso|lia]. assert (take j cs = k ++ drop (length k) (take j cs)) as Ej.
  { rewrite Ek at 1. replace (take (length k) cs) with (take (length k) (take j cs)) by (rewrite take_take; f_equal; lia). by rewrite take_drop. }
  destruct Hstop as [[m Hm]|Hm].
  - rewrite Ej, app_assoc in Hm. by destruct (Habove _ _ _ Hm).
  - destruct (missing_ENOTDIR _ _ Hm) as (i & Hi & [m Hm'] & Hnd). rewrite Hm' in Hnd.
    assert (t' !! take i (d ++ take j cs) = Some m) as Hm2 by by apply M1.
    rewrite Ej, app_assoc in Hm', Hm2. destruct (decide (i <= length (d ++ k))%nat) as [Hik|Hik].
    + rewrite take_app_le in Hm2 by done. assert (d ++ k = take i (d ++ k) ++ drop i (d ++ k)) as E by by rewrite take_drop.
      destruct (decide (drop i (d ++ k) = [])) as [En|En]; [rewrite En, app_nil_r in E; rewrite take_app_le in Hm' by done; congruence|].
      rewrite E in Eq. pose proof (wf_above t' _ _ _ W Eq En). congruence.
    + rewrite take_app_ge in Hm' by lia. by destruct (Habove _ _ _ Hm').
Qed.

Lemma made_Dir p q t t' : made p t t' -> t !! q = None -> t' !! q <> None -> t' !! q = Some Dir.
Proof. intros (_ & _ & M) Hq Hq'. destruct (t' !! q) as [n|] eqn:E; [|done]. destruct (M q n E) as [?|[_ ->]]; [congruence|done]. Qed.

(** The invariant across [MkdirAll] of [cs], its missing levels recorded. *)
Lemma pinv_made cs t t' st j ok known' : cs <> [] -> Forall plain cs -> pinv true t st -> (j <= length cs)%nat ->
  (forall i, (j < i <= length cs)%nat -> t !! (d ++ take i cs) = None) ->
  (is_Some (t !! (d ++ take j cs)) \/ missing t (d ++ take j cs) = ENOTDIR) ->
  made (d ++ cs) t t' -> good t' -> (ok = true -> t' !! (d ++ cs) = Some Dir) ->
  Forall canonical known' -> (forall k, k ∈ known' -> t' !! pathof k = Some Dir) ->
  pinv ok t' (mkPub (pub_published st) (pub_added st) (pub_created st ++ levels cs j (length cs)) known').
Proof.
  intros Hne Hp H Hj Hnone Hstop Hm Hg' Hok Hkc Hkd. pose proof Hm as (W & M1 & M2). pose proof (proj1 (pi_good _ _ _ H)) as Hw.
  constructor; simpl.
  - done.
  - pose proof (pi_canon _ _ _ H) as Hc. rewrite !Forall_app in Hc |- *. destruct Hc as (C1 & C2 & _). split; [done|]. split; [|done]. apply Forall_app. split; [done|].
    apply Forall_forall. intros x (i & Hi & ->)%elem_levels. apply up_canonical; [done|lia].
  - apply M1, (pi_dir _ _ _ H).
  - exact Hkd.
  - apply (pi_published _ _ _ H).
  - intros a Ha Ho. destruct (pi_added _ _ _ H a Ha Ho) as (A1 & c & A2). split; [done|]. exists c. by apply M1.
  - intros c [Hc|(i & Hi & ->)%elem_levels]%elem_of_app.
    + destruct (pi_created _ _ _ H c Hc) as (A1 & [A2|[? _]]); [|done]. split; [done|]. left. by apply M1.
    + rewrite pathof_up by (done || lia). split; [intros Ho; eapply pinv_absent; [exact H|done|by apply Hnone|done]|].
      destruct (t' !! (d ++ take i cs)) as [n|] eqn:E; [left; destruct (M2 _ _ E) as [E'|[_ ->]]; [rewrite Hnone in E'; [done|lia]|done]|].
      right. split; [|done]. destruct ok; [|done]. specialize (Hok eq_refl). assert (d ++ cs = (d ++ take i cs) ++ drop i cs) as Ecs by by rewrite <- app_assoc, take_drop.
      destruct (decide (drop i cs = [])) as [En|En]; [rewrite En, app_nil_r in Ecs; congruence|]. rewrite Ecs in Hok. pose proof (wf_above _ _ _ _ W Hok En). congruence.
  - assert (forall l1 l2, StronglySorted (fun a b => ~ (pathof b `prefix_of` pathof a /\ pathof b <> pathof a)) l1 -> StronglySorted (fun a b => ~ (pathof b `prefix_of` pathof a /\ pathof b <> pathof a)) l2 ->
      (forall a b, a ∈ l1 -> b ∈ l2 -> ~ (pathof b `prefix_of` pathof a /\ pathof b <> pathof a)) ->
      StronglySorted (fun a b => ~ (pathof b `prefix_of` pathof a /\ pathof b <> pathof a)) (l1 ++ l2)) as Happ.
    { clear. induction l1 as [|x l1 IH]; intros l2 H1 H2 H12; [done|]. apply StronglySorted_inv in H1 as [H1 Hx]. simpl. constructor.
      - apply IH; [done|done|]. intros a b Ha Hb. apply H12; [by right|done].
      - apply Forall_app. split; [done|]. apply Forall_forall. intros b Hb. apply H12; [by left|done]. }
    apply Happ; [apply (pi_order _ _ _ H)|by apply levels_order|]. intros a b Ha (i & Hi & ->)%elem_levels. rewrite pathof_up by (done || lia).
    destruct (pi_created _ _ _ H a Ha) as (_ & [A2|[? _]]); [|done]. intros [[k Hk] Hpne]. rewrite Hk in A2, Hpne.
    specialize (Hnone i Hi). rewrite (wf_above t _ k Dir Hw A2) in Hnone; [done|]. intros ->. by rewrite app_nil_r in Hpne.
  - intros p Ho. assert (forall x, t !! p = x -> t' !! p = x \/ x = None /\ t' !! p <> None) as Hsame.
    { intros [x|] Hx; [left; by apply M1|]. destruct (t' !! p); [right|left]; done. }
    destruct (t !! p) as [x|] eqn:Ex.
    + assert (t' !! p = Some x) as Ex' by by apply M1. destruct (pi_rest _ _ _ H p Ho) as [E|[E|[E|(R1 & R2 & n & c & R3 & R4 & R5)]]].
      * left. congruence.
      * right. by left.
      * right. right. left. rewrite fmap_app. apply elem_of_app. by left.
      * right. right. right. split; [done|]. split; [done|]. exists n, c. split; [done|]. split; [done|]. congruence.
    + destruct (t' !! p) as [y|] eqn:Ey.
      * right. right. left. destruct (made_levels cs t t' j p Hw (pi_dir _ _ _ H) Hj Hstop Hm Ex) as (i & Hi & ->); [congruence|].
        rewrite fmap_app. apply elem_of_app. right. rewrite <- (pathof_up cs i) by (done || lia). apply list_elem_of_fmap_2. apply elem_levels. eauto.
      * left. symmetry. by eapply pinv_absent.
Qed.

Lemma calm_mkdirAllTracked cs t st : cs <> [] -> Forall plain cs -> pinv true t st ->
  calm (mkdirAllTracked d (join_slash cs) st)
    (fun r t' => made (d ++ cs) t t' /\ (forall u, snd r = Ok u -> t' !! (d ++ cs) = Some Dir)
       /\ pinv (match snd r with Ok _ => true | Err _ => false end) t' (fst r)) t.
Proof.
  intros Hne Hp H. unfold mkdirAllTracked. pose proof (pi_canon _ _ _ H) as Hcan. rewrite !Forall_app in Hcan. destruct Hcan as (C1 & C2 & C3).
  assert (pathof (join_slash cs) = d ++ cs) as Hpo by (unfold pathof; by rewrite Clean_join).
  case_bool_decide as Hkn.
  { apply calm_ret. split; [apply made_refl, (pi_good _ _ _ H)|]. split; [|done]. intros _ _. rewrite <- Hpo. by apply (pi_known _ _ _ H). }
  apply calm_bind.
  { generalize (S (length (join_slash cs))) as n. generalize (join_slash cs) as x. intros x n. revert x. induction n as [|n IH]; intros x; cbn [missing_dirs]; quiet. }
  assert (join_slash cs = up cs (length cs)) as Eup by (unfold up; by rewrite take_ge).
  pose proof (calm_missing_dirs (pub_known st) cs t Hp (pi_good _ _ _ H) (pi_dir _ _ _ H) (pi_known _ _ _ H) (S (length (join_slash cs))) (length cs) (le_n _)) as Hmd.
  rewrite bool_decide_eq_false_2 in Hmd by (by destruct cs). rewrite <- Eup in Hmd. pose proof (length_join_slash cs Hp) as Hl.
  eapply calm_mono; [apply Hmd; lia|]. intros ms t' [-> (j & Hj & -> & Hnone & Hstop)]. rewrite levels_reverse by done.
  unfold rooted_call. rewrite inside_join by done. apply calm_bind; [pose proof quiet_MkdirAll; quiet|]. unfold x_call. apply calm_bind; [apply quiet_MkdirAll|].
  assert (d ++ cs <> []) as Hdne by (by intros [_ ?]%app_nil). apply calm_wp.
  assert (wp (MkdirAll (d ++ cs)) (fun r t' => (made (d ++ cs) t t' /\ (r = Ok tt -> t' !! (d ++ cs) = Some Dir)) /\ good t') t) as Hmk.
  { intros f. split; [by apply wp_MkdirAll; [apply (pi_good _ _ _ H)|]|]. apply (keeps_MkdirAll d (d ++ cs)); [| |apply (pi_good _ _ _ H)|apply (pi_dir _ _ _ H)].
    - apply Forall_app. split; [|done]. exact (proj2 (pi_good _ _ _ H) _ _ (pi_dir _ _ _ H)).
    - by apply prefix_app_r. }
  eapply wp_mono; [exact Hmk|]. intros r t1 [[Hmade Hr] Hg1]. apply calm_ret. destruct r as [[]|e]; simpl; apply calm_ret.
  - specialize (Hr eq_refl). split; [done|]. split; [done|]. simpl. eapply pinv_made; try done.
    + constructor; [by exists cs|]. apply Forall_app. split; [|done]. apply Forall_forall. intros x (i & -> & Hi%elem_of_seq)%list_elem_of_fmap. apply up_canonical; [done|lia].
    + intros k [->|[(i & -> & Hi%elem_of_seq)%list_elem_of_fmap|Hk]%elem_of_app]%elem_of_cons.
      * congruence.
      * rewrite pathof_up by (done || lia). assert (d ++ cs = (d ++ take (length cs - i) cs) ++ drop (length cs - i) cs) as Ecs by by rewrite <- app_assoc, take_drop.
        destruct (decide (drop (length cs - i) cs = [])) as [En|En]; [rewrite En, app_nil_r in Ecs; congruence|]. rewrite Ecs in Hr. by eapply wf_above; [apply Hmade|exact Hr|].
      * destruct Hmade as (_ & M1 & _). apply M1. by apply (pi_known _ _ _ H).
  - split; [done|]. split; [done|]. simpl. eapply pinv_made; try done. intros k Hk. destruct Hmade as (_ & M1 & _). apply M1. by apply (pi_known _ _ _ H).
Qed.

Lemma quiet_mkdirAllTracked rel st : quiet (mkdirAllTracked d rel st).
Proof.
  unfold mkdirAllTracked. case_bool_decide; [by quiet|]. pose proof quiet_MkdirAll. apply quiet_bind; [|quiet].
  generalize (S (length rel)) as n. intros n. revert rel H. clear. intros rel _. revert rel. induction n as [|n IH]; intros rel; cbn [missing_dirs]; quiet.
Qed.

Lemma quiet_publish_file rel st : quiet (publish_file d base rel opts st).
Proof. unfold publish_file. pose proof quiet_uniquePath. pose proof quiet_mkdirAllTracked. quiet. Qed.

Lemma pinv_weaken t st : pinv true t st -> pinv false t st.
Proof.
  intros [? ? ? ? ? ? C ? ?]. constructor; try done. intros c Hc. destruct (C c Hc) as [C1 [C2|[? _]]]; [|done]. split; [done|]. by left.
Qed.

Lemma outside_stage r : ~ outside (d ++ base :: r).
Proof. intros H. apply H. exists r. by rewrite <- app_assoc. Qed.

(** Nothing is not a directory above a node. *)
Lemma not_ENOTDIR t t1 p : wf_tree t1 -> (forall q n, t !! q = Some n -> t1 !! q = Some n) -> t1 !! parent p = Some Dir -> missing t p <> ENOTDIR.
Proof.
  intros Hw Hk Hp (k & Hl & [n Hn] & Hnd)%missing_ENOTDIR. apply Hk in Hn as Hn1. rewrite Hn in Hnd.
  destruct p as [|x p _] using rev_ind; [simpl in Hl; lia|]. rewrite parent_snoc in Hp. rewrite length_app in Hl. simpl in Hl.
  rewrite take_app_le in Hn1 by lia. assert (p = take k p ++ drop k p) as E by by rewrite take_drop.
  destruct (decide (drop k p = [])) as [En|En]; [rewrite En, app_nil_r in E; rewrite <- E, Hp in Hn1; congruence|].
  rewrite E in Hp. pose proof (wf_above _ _ _ _ Hw Hp En). congruence.
Qed.

(** One file renamed out of the stage. *)
Lemma pinv_renamed t t1 st dest c there : pinv true t1 st -> canonical dest -> (forall q n, t !! q = Some n -> t1 !! q = Some n) ->
  (t !! pathof dest = None -> outside (pathof dest) -> t0 !! pathof dest = None) ->
  there = match t !! pathof dest with Some n => Ok n | None => Err (XOS (missing t (pathof dest))) end ->
  negb (is_ok there && negb (OverwriteFiles opts)) = true ->
  forall r, r <> [] -> Forall plain r -> t1 !! (d ++ base :: r) = Some (File c) -> t1 !! pathof dest <> Some Dir -> t1 !! parent (pathof dest) = Some Dir ->
  ~ (d ++ base :: r) `prefix_of` pathof dest ->
  pinv true (move_tree t1 (d ++ base :: r) (pathof dest))
    (mkPub (pub_published st ++ [dest]) (if not_exist there then pub_added st ++ [dest] else pub_added st) (pub_created st) (pub_known st)).
Proof.
  intros H Hcan Hkeep Habs Hth Hskip r Hr Hrp Hsrc Hnd Hpa Hnp. set (src := d ++ base :: r) in *. set (p := pathof dest) in *.
  pose proof (pi_good _ _ _ H) as Hg. pose proof (move_file t1 src p c (proj1 Hg) Hsrc Hnd Hnp) as Hmv.
  destruct (canonical_inside dest Hcan) as [Hin Hpd]. fold p in Hin, Hpd.
  assert (under d p) as Hup by (split; [by eapply inside_prefix|done]).
  assert (under d src) as Hus. { split; [by apply prefix_app_r|]. intros E. apply (f_equal length) in E. unfold src in E. rewrite length_app in E. simpl in E. lia. }
  assert (Forall plain p) as Hpp by (eapply inside_plain; [exact (proj2 Hg _ _ (pi_dir _ _ _ H))|exact Hin]).
  assert (forall q, q <> p -> q <> src -> move_tree t1 src p !! q = t1 !! q) as Hother by (intros q H1 H2; by rewrite Hmv, !bool_decide_eq_false_2).
  assert (forall q, t1 !! q = Some Dir -> move_tree t1 src p !! q = Some Dir) as Hdirs by (intros q Hq; rewrite Hother; congruence).
  constructor; simpl.
  - pose proof (keeps_Rename d src p Hpp Hus Hup t1 Hg (pi_dir _ _ _ H) []) as [Hgood _]. simpl in Hgood. unfold Rename, call in Hgood. simpl in Hgood. rewrite Hsrc in Hgood.
    assert (src <> p) by (intros E; by apply Hnp; rewrite E).
    destruct (t1 !! p) as [[]|] eqn:Ep; try congruence; rewrite bool_decide_eq_false_2 in Hgood by done; rewrite bool_decide_eq_false_2 in Hgood by (by intros ?);
      rewrite (proj2 (is_prefix_false _ _) Hnp) in Hgood; exact Hgood.
  - pose proof (pi_canon _ _ _ H) as Hc. rewrite !Forall_app in Hc. destruct Hc as (C1 & C2 & C3).
    repeat (apply Forall_app; split); try done. by apply Forall_singleton.
  - apply Hdirs, (pi_dir _ _ _ H).
  - intros k Hk. by apply Hdirs, (pi_known _ _ _ H).
  - intros a Ha. apply elem_of_app. destruct (not_exist there); [apply elem_of_app in Ha as [Ha| ->%list_elem_of_singleton]; [|right; by apply list_elem_of_singleton]|]; left; by apply (pi_published _ _ _ H).
  - intros a Ha Ho. assert (pathof a <> src) as Hns by (intros E; rewrite E in Ho; by apply (outside_stage r)).
    destruct (decide (pathof a = p)) as [Eap|Eap].
    + rewrite Eap in *. split; [|exists c; by rewrite Hmv, bool_decide_eq_true_2]. destruct (decide (a ∈ pub_added st)) as [Ha'|Ha'].
      * rewrite <- Eap in *. by apply (pi_added _ _ _ H).
      * apply Habs; [|done]. destruct (not_exist there) eqn:E; [|done]. rewrite Hth in E. by destruct (t !! p).
    + rewrite Hother by done. apply (pi_added _ _ _ H); [|done]. destruct (not_exist there); [|done]. apply elem_of_app in Ha as [Ha| ->%list_elem_of_singleton]; [done|done].
  - intros x Hx. destruct (pi_created _ _ _ H x Hx) as (C1 & [C2|[? _]]); [|done]. split; [done|]. left. by apply Hdirs.
  - apply (pi_order _ _ _ H).
  - intros q Ho. destruct (decide (q = p)) as [->|Hqp].
    + assert (p ∈ pathof <$> pub_published st ++ [dest]) as Hpub by (rewrite fmap_app; apply elem_of_app; right; by apply list_elem_of_singleton).
      destruct (not_exist there) eqn:Ene; [right; left; rewrite fmap_app; apply elem_of_app; right; by apply list_elem_of_singleton|].
      rewrite Hth in *. destruct (t !! p) as [n|] eqn:Et.
      * simpl in Hskip. destruct (OverwriteFiles opts) eqn:Eov; [|done]. apply Hkeep in Et as Et1. assert (n <> Dir) as Hn by congruence.
        assert (move_tree t1 src p !! p = Some (File c)) as Emv by by rewrite Hmv, bool_decide_eq_true_2.
        destruct (pi_rest _ _ _ H p Ho) as [E|[E|[(x & E & Hx)%list_elem_of_fmap|(R1 & R2 & n0 & c0 & R3 & R4 & R5)]]].
        -- right. right. right. split; [done|]. split; [done|]. exists n, c. split; [congruence|done].
        -- right. by left.
        -- destruct (pi_created _ _ _ H x Hx) as (_ & [C2|[? _]]); [|done]. rewrite <- E in C2. congruence.
        -- right. right. right. split; [done|]. split; [done|]. by exists n0, c.
      * exfalso. simpl in Ene. destruct (missing_cases t p) as [Em|Em]; rewrite Em in Ene; [done|]. by eapply (not_ENOTDIR t t1 p); [apply Hg| |exact Hpa|].
    + assert (q <> src) as Hqs by (intros ->; by apply (outside_stage r)). unfold replaced. simpl. rewrite Hother by done.
      destruct (pi_rest _ _ _ H q Ho) as [E|[E|[E|(R1 & R2 & R3)]]]; [by left| |right; right; by left|].
      * right. left. destruct (not_exist there); [rewrite fmap_app; apply elem_of_app; by left|done].
      * right. right. right. split; [done|]. split; [rewrite fmap_app; apply elem_of_app; by left|done].
Qed.

Lemma calm_rename a b src p c Q t : inside d a = Some src -> src <> d -> inside d b = Some p -> p <> d -> t !! src = Some (File c) ->
  (forall e, Q (Err e) t) -> (src = p -> Q (Ok tt) t) ->
  (t !! p <> Some Dir -> t !! parent p = Some Dir -> ~ src `prefix_of` p -> Q (Ok tt) (move_tree t src p)) ->
  calm (rooted_rename d a b) Q t.
Proof.
  intros Ha Hsd Hb Hpd Hs He Hsame Hmv. unfold rooted_rename, rooted_entry. rewrite Ha, Hb, !bool_decide_eq_false_2 by done.
  unfold x_call. apply calm_bind; [quiet|]. apply calm_bind; [quiet|]. apply calm_bind; [quiet|]. unfold Rename. apply calm_call. rewrite Hs.
  destruct (decide (t !! p = Some Dir)) as [Ep|Ep]; [rewrite Ep; apply He|].
  destruct (t !! p) as [[]|] eqn:Ept; try done;
  (destruct (bool_decide_reflect (src = p)); simpl; [by apply Hsame|]; destruct (bool_decide_reflect (t !! parent p <> Some Dir)) as [|Hpa]; simpl; [apply He|];
   destruct (is_prefix src p) eqn:Epr; simpl; [apply He|]; apply Hmv; [congruence| |by apply is_prefix_false]; destruct (decide (t !! parent p = Some Dir)); [done|by destruct Hpa]).
Qed.

Definition stepped (r : pstate * result xerr unit) (t : gmap (list (list Z)) node) : Prop :=
  pinv (match snd r with Ok _ => true | Err _ => false end) t (fst r).

Lemma pathof_join cs : cs <> [] -> Forall plain cs -> pathof (join_slash cs) = d ++ cs.
Proof. intros Hne Hp. unfold pathof. by rewrite Clean_join. Qed.

(** What comes before the rename: the directory of the destination. *)
Lemma calm_dest_dir cs t st : cs <> [] -> Forall plain cs -> pinv true t st ->
  calm (if bool_decide (DirName (join_slash cs) = [dot]) then fret (st, Ok tt) else mkdirAllTracked d (DirName (join_slash cs)) st)
    (fun r t1 => stepped r t1 /\ (forall q n, t !! q = Some n -> t1 !! q = Some n)) t.
Proof.
  intros Hne Hp H. assert (exists cs0 x, cs = cs0 ++ [x]) as (cs0 & x & ->) by (destruct cs as [|x cs0 _] using rev_ind; eauto; done).
  pose proof Hp as [Hp0 Hx]%Forall_app. rewrite Forall_singleton in Hx. rewrite DirName_join by done. destruct (decide (cs0 = [])) as [->|Hcs0].
  - rewrite bool_decide_eq_true_2 by (by rewrite bool_decide_eq_true_2). by apply calm_ret.
  - rewrite (bool_decide_eq_false_2 (cs0 = [])) by done. rewrite bool_decide_eq_false_2 by by apply join_slash_ne.
    eapply calm_mono; [by apply calm_mkdirAllTracked|]. intros r t1 ((_ & M & _) & _ & Hi). by split.
Qed.

Lemma calm_publish_file cs t st c : cs <> [] -> Forall plain cs -> pinv true t st -> t !! (d ++ base :: cs) = Some (File c) ->
  calm (publish_file d base (join_slash cs) opts st) stepped t.
Proof.
  intros Hne Hp H Hsrc. unfold publish_file. pose proof quiet_uniquePath as Hqu. pose proof quiet_mkdirAllTracked as Hqm. apply calm_bind; [quiet|].
  assert (wp (if OneFolder opts && negb (OverwriteFiles opts) then uniquePath d (join_slash cs) else fret (join_slash cs))
    (fun r t' => t' = t /\ exists cs', cs' <> [] /\ Forall plain cs' /\ r = join_slash cs') t) as Hd.
  { destruct (_ && _); [by apply wp_uniquePath|]. apply wp_ret. eauto. }
  eapply calm_mono; [apply calm_wp, Hd|]. intros dest t' [-> (ds & Hds & Hdp & ->)].
  apply calm_bind; [quiet|]. unfold rooted_call. rewrite inside_join by done. unfold x_call, Lstat. apply calm_bind; [quiet|]. apply calm_call. simpl. apply calm_ret.
  set (there := match _ with Ok a => Ok a | Err e => Err (XOS e) end : result xerr node).
  assert (there = match t !! pathof (join_slash ds) with Some n => Ok n | None => Err (XOS (missing t (pathof (join_slash ds)))) end) as Hth
    by (unfold there; rewrite pathof_join by done; by destruct (t !! (d ++ ds))).
  destruct (is_ok there && negb (OverwriteFiles opts)) eqn:Hskip; [by apply calm_ret|].
  apply calm_bind; [quiet|]. eapply calm_mono; [by apply calm_dest_dir|]. intros [st1 [u|e]] t1 [H1 Hkeep]; [|by apply calm_ret].
  unfold stepped in H1. simpl in H1. apply calm_bind; [quiet|].
  assert (Forall plain (base :: cs)) as Hbp by by constructor. pose proof (inside_join d (base :: cs) ltac:(done) Hbp) as Hins.
  rewrite Join_join by done. eapply (calm_rename _ _ (d ++ base :: cs) (d ++ ds) c); [done| |by apply inside_join| |by apply Hkeep| | |].
  - intros E. apply (f_equal length) in E. rewrite length_app in E. simpl in E. lia.
  - intros E. apply (f_equal length) in E. rewrite length_app in E. destruct ds; [done|simpl in E; lia].
  - intros e. apply calm_ret. by apply pinv_weaken.
  - intros E. apply calm_ret. unfold stepped. simpl. pose proof H1 as [G C D K A1 A2 Cr O R].
    assert (forall x, outside x -> x <> d ++ ds) as Hod by (intros x Hx ->; rewrite <- E in Hx; by apply (outside_stage cs)).
    constructor; simpl; try done.
    + rewrite !Forall_app in C. destruct C as (C1 & C2 & C3). repeat (apply Forall_app; split); try done. apply Forall_singleton. by exists ds.
    + intros a Ha. apply elem_of_app. destruct (not_exist there); [apply elem_of_app in Ha as [Ha| ->%list_elem_of_singleton]; [|right; by apply list_elem_of_singleton]|]; left; by apply A1.
    + intros a Ha Ho. apply A2; [|done]. destruct (not_exist there); [|done]. apply elem_of_app in Ha as [Ha| ->%list_elem_of_singleton]; [done|].
      rewrite pathof_join in Ho by done. by apply Hod in Ho.
    + intros p Ho. unfold replaced in *. simpl. destruct (R p Ho) as [Er|[Er|[Er|(R1 & R2 & R3)]]]; [by left| |right; right; by left|].
      * right. left. destruct (not_exist there); [rewrite fmap_app; apply elem_of_app; by left|done].
      * right. right. right. split; [done|]. split; [rewrite fmap_app; apply elem_of_app; by left|done].
  - intros Hnd Hpa Hnp. apply calm_ret. unfold stepped. simpl. rewrite <- (pathof_join ds) in * by done.
    eapply pinv_renamed; try done; [by exists ds| |by rewrite Hskip|by apply Hkeep]. intros Ht Ho. exact (pinv_absent true t st _ H Ho Ht eq_refl).
Qed.

Lemma quiet_publish_dir fuel : forall rel st, quiet (publish_dir fuel d base rel opts st).
Proof.
  pose proof quiet_publish_file. pose proof quiet_mkdirAllTracked.
  induction fuel as [|fuel IH]; intros rel st; [by quiet|]. cbn [publish_dir]. apply quiet_bind; [by quiet|]. intros [names|e]; [|by quiet].
  revert st. induction names as [|n names IHn]; intros st; [by quiet|]. apply quiet_get. intros t. apply quiet_bind; [quiet|]. quiet.
Qed.

Lemma plain_child t p n : good t -> t !! p <> None -> p = d ++ base :: n -> Forall plain n.
Proof.
  intros [_ Hpl] Hp ->. destruct (t !! _) eqn:E; [|done]. apply Hpl, Forall_app in E as [_ E]. by apply Forall_cons in E as [_ E].
Qed.

Lemma calm_publish_dir fuel : forall rel t st, pinv true t st -> calm (publish_dir fuel d base rel opts st) stepped t.
Proof.
  induction fuel as [|fuel IH]; intros rel t st H; [apply calm_ret; by apply pinv_weaken|]. cbn [publish_dir].
  pose proof quiet_publish_file as Hqf. pose proof quiet_mkdirAllTracked as Hqm. pose proof quiet_publish_dir as Hqd.
  apply calm_bind; [quiet|]. unfold ReadDir. apply calm_call. cbn [fst snd].
  destruct (match t !! (d ++ base :: rel) with Some Dir => _ | _ => _ end) as [names|e]; [|apply calm_ret; by apply pinv_weaken].
  revert t st H. induction names as [|n names IHn]; intros t st H; [by apply calm_ret|]. apply calm_get. apply calm_bind; [quiet|].
  eapply (calm_mono _ stepped).
  - destruct (t !! (d ++ base :: rel ++ [n])) as [[c| |]|] eqn:E.
    + eapply calm_publish_file; [by destruct rel| |done|exact E]. eapply (plain_child t); [apply (pi_good _ _ _ H)| |reflexivity]. congruence.
    + assert (Forall plain (rel ++ [n])) as Hp by (eapply (plain_child t); [apply (pi_good _ _ _ H)| |reflexivity]; congruence).
      apply calm_bind; [quiet|]. eapply (calm_mono _ stepped).
      * destruct (OneFolder opts); [by apply calm_ret|]. eapply calm_mono; [apply calm_mkdirAllTracked; [by destruct rel|done|done]|]. by intros r t1 (_ & _ & ?).
      * intros [st1 [u|e]] t1 H1; simpl; [by apply IH|by apply calm_ret].
    + by apply calm_ret.
    + apply calm_ret. by apply pinv_weaken.
  - intros [st1 [u|e]] t1 H1; simpl; [by apply IHn|by apply calm_ret].
Qed.
(** ** Taking a publish back *)
Lemma lookup_cut t p q : cut_tree t p !! q = if is_prefix p q then None else t !! q.
Proof.
  unfold cut_tree. apply option_eq. intros n. rewrite map_lookup_filter_Some. simpl. destruct (is_prefix p q) eqn:E.
  - apply is_prefix_true in E. naive_solver.
  - apply is_prefix_false in E. naive_solver.
Qed.

Definition overwritten (t : gmap (list (list Z)) node) (p : list (list Z)) : Prop :=
  OverwriteFiles opts = true /\ exists n c, t0 !! p = Some n /\ n <> Dir /\ t !! p = Some (File c).

(** What is left to take back: the files of [added], then the directories of [created]. *)
Record uinv (added created : list (list Z)) (t : gmap (list (list Z)) node) : Prop := mkUinv {
  ui_good : good t;
  ui_dir : t !! d = Some Dir;
  ui_canon : Forall canonical (added ++ created);
  ui_added : forall a, a ∈ added -> outside (pathof a) -> t0 !! pathof a = None /\ t !! pathof a <> Some Dir;
  ui_created : forall c, c ∈ created -> outside (pathof c) -> t0 !! pathof c = None /\ (t !! pathof c = Some Dir \/ t !! pathof c = None);
  ui_order : StronglySorted (fun a b => ~ (pathof a `prefix_of` pathof b /\ pathof a <> pathof b)) created;
  ui_rest : forall p, outside p -> t !! p = t0 !! p \/ p ∈ pathof <$> added \/ p ∈ pathof <$> created \/ overwritten t p
}.

Lemma sorted_reverse {A} (R : A -> A -> Prop) l : StronglySorted R l -> StronglySorted (fun a b => R b a) (reverse l).
Proof.
  induction 1 as [|x l _ IH Hx]; [constructor|]. rewrite reverse_cons. clear -IH Hx. assert (Forall (fun y => R x y) (reverse l)) as Hr by (by apply Forall_reverse).
  induction IH as [|y l' _ IH' Hy]; simpl; [constructor; constructor|]. apply Forall_cons in Hr as [H1 H2]. constructor; [by apply IH'|].
  apply Forall_app. split; [done|]. by apply Forall_singleton.
Qed.

Lemma uinv_start t st : pinv false t st -> uinv (pub_added st) (reverse (pub_created st)) t.
Proof.
  intros H. pose proof (pi_canon _ _ _ H) as Hc. rewrite !Forall_app in Hc. destruct Hc as (C1 & C2 & _). constructor.
  - apply (pi_good _ _ _ H).
  - apply (pi_dir _ _ _ H).
  - apply Forall_app. split; [|by apply Forall_reverse]. rewrite Forall_forall in C1 |- *. intros a Ha. by apply C1, (pi_published _ _ _ H).
  - intros a Ha Ho. destruct (pi_added _ _ _ H a Ha Ho) as (A1 & c & A2). split; [done|congruence].
  - intros c Hc Ho. rewrite elem_of_reverse in Hc. destruct (pi_created _ _ _ H c Hc) as (A1 & A2). split; [by apply A1|naive_solver].
  - apply (sorted_reverse _ _ (pi_order _ _ _ H)).
  - intros p Ho. destruct (pi_rest _ _ _ H p Ho) as [E|[E|[E|(R1 & _ & R3)]]]; [by left|right; by left| |].
    + right. right. left. rewrite fmap_reverse, elem_of_reverse. done.
    + right. right. right. by split.
Qed.

Lemma calm_RemoveAll p Q t : Q (Ok tt) (cut_tree t p) -> calm (RemoveAll p) Q t.
Proof. done. Qed.

Lemma outside_up p q : outside q -> p `prefix_of` q -> outside p.
Proof. intros Hq Hp Hs. apply Hq. by etrans. Qed.

Lemma uinv_remove_added created added : forall t, uinv added created t -> calm (remove_added d added) (fun _ t' => uinv [] created t') t.
Proof.
  induction added as [|a added IH]; intros t H; [by apply calm_ret|]. cbn [remove_added]. pose proof quiet_RemoveAll as Hq.
  pose proof (ui_canon _ _ _ H) as Hc. simpl in Hc. apply Forall_cons in Hc as [Hca Hc]. destruct (canonical_inside a Hca) as [Hin Hpd].
  apply calm_bind; [quiet|]. unfold rooted_entry. rewrite Hin, bool_decide_eq_false_2 by done. unfold x_call. apply calm_bind; [apply quiet_RemoveAll|].
  apply calm_RemoveAll, calm_ret, IH. clear IH. assert (under d (pathof a)) as Hu by (split; [by eapply inside_prefix|done]).
  pose proof (contained_cut d (pathof a) t (ui_good _ _ _ H) Hu) as [Hg Hout].
  assert (forall p, outside p -> p <> pathof a -> cut_tree t (pathof a) !! p = t !! p) as Hother.
  { intros p Ho Hne. rewrite lookup_cut. destruct (is_prefix (pathof a) p) eqn:E; [|done]. apply is_prefix_true in E as [k ->].
    destruct (t !! (pathof a ++ k)) as [n|] eqn:En; [|done]. exfalso. eapply wf_above in En; [|apply (ui_good _ _ _ H)|intros ->; by rewrite app_nil_r in Hne].
    destruct (ui_added _ _ _ H a) as [_ Hn]; [by left| |done]. eapply outside_up; [exact Ho|by apply prefix_app_r]. }
  assert (cut_tree t (pathof a) !! pathof a = None) as Hgone by (rewrite lookup_cut; by rewrite (proj2 (is_prefix_true _ _))).
  constructor; [done| |done| | |apply (ui_order _ _ _ H)|].
  - rewrite Hout; [apply (ui_dir _ _ _ H)|]. by intros [_ ?].
  - intros x Hx Ho. destruct (ui_added _ _ _ H x) as [A1 A2]; [by right|done|]. split; [done|]. destruct (decide (pathof x = pathof a)) as [->|]; [congruence|by rewrite Hother].
  - intros x Hx Ho. destruct (ui_created _ _ _ H x) as [A1 A2]; [done|done|]. split; [done|]. destruct (decide (pathof x = pathof a)) as [->|]; [by right|by rewrite Hother].
  - intros p Ho. destruct (decide (p = pathof a)) as [->|Hne].
    + left. rewrite Hgone. symmetry. by apply (ui_added _ _ _ H a); [left|].
    + unfold overwritten. rewrite Hother by done. destruct (ui_rest _ _ _ H p Ho) as [E|[E|[E|E]]]; [by left| |right; right; by left|right; by right; right].
      rewrite fmap_cons in E. apply elem_of_cons in E as [?|E]; [done|]. right. by left.
Qed.

(** A directory that was not there holds nothing but what is yet to take back. *)
Lemma uinv_below c created t : uinv [] (c :: created) t -> outside (pathof c) -> t !! pathof c = Some Dir -> below t (pathof c) = [].
Proof.
  intros H Ho Hc. destruct (below t (pathof c)) as [|q l] eqn:E; [done|exfalso]. assert (q ∈ below t (pathof c)) as Hq by (rewrite E; by left).
  apply elem_below in Hq as ([n Hn] & Hp & Hne). destruct (ui_created _ _ _ H c) as [A1 _]; [by left|done|].
  assert (forall p m, t0 !! p = Some m -> pathof c `prefix_of` p -> p <> pathof c -> False) as Habove.
  { intros p m Hm [k ->] Hk. eapply wf_above in Hm; [|apply t0_good|intros ->; by rewrite app_nil_r in Hk]. congruence. }
  assert (outside q) as Hoq.
  { intros Hs. destruct (prefix_weak_total (d ++ [base]) (pathof c) q) as [?|Hcs]; [done|done|done|]. apply (Habove _ _ stage_dir); [done|]. intros Es. apply Ho. by rewrite <- Es. }
  destruct (ui_rest _ _ _ H q Hoq) as [E0|[E0|[E0|(_ & m & c' & E0 & _)]]].
  - apply (Habove q n); [congruence|done|done].
  - by apply elem_of_nil in E0.
  - pose proof (ui_order _ _ _ H) as Hs. apply StronglySorted_inv in Hs as [_ Hs]. rewrite fmap_cons in E0. apply elem_of_cons in E0 as [?|(x & -> & Hx)%list_elem_of_fmap]; [done|].
    rewrite Forall_forall in Hs. by apply (Hs x Hx).
  - by apply (Habove q m).
Qed.

Lemma calm_os_Remove p Q t : (t !! p = None -> Q t) -> (t !! p = Some Dir -> below t p <> [] -> Q t) -> ((t !! p = Some Dir -> below t p = []) -> t !! p <> None -> Q (base.delete p t)) ->
  calm (os_Remove p) (fun _ t' => Q t') t.
Proof.
  intros H1 H2 H3. unfold os_Remove. apply calm_call. destruct (t !! p) as [[c| |]|] eqn:E; simpl; [by apply H3| |by apply H3|by apply H1].
  case_bool_decide as Hb; simpl; [by apply H2|]. apply H3; [|done]. intros _. destruct (below t p); [done|]. by destruct Hb.
Qed.

Lemma uinv_remove_created created : forall t, uinv [] created t -> calm (remove_created d created) (fun _ t' => uinv [] [] t') t.
Proof.
  induction created as [|c created IH]; intros t H; [by apply calm_ret|]. cbn [remove_created].
  pose proof (ui_canon _ _ _ H) as Hc. simpl in Hc. apply Forall_cons in Hc as [Hca Hc]. destruct (canonical_inside c Hca) as [Hin Hpd].
  apply calm_bind; [quiet|]. unfold rooted_entry. rewrite Hin, bool_decide_eq_false_2 by done. unfold x_call. apply calm_bind; [quiet|].
  assert (forall t', good t' -> (forall p, p <> pathof c -> t' !! p = t !! p) -> (outside (pathof c) -> t' !! pathof c = None) -> uinv [] created t') as Hstep.
  { intros t' Hg Hother Hgone. constructor; [done| |done|by intros ? ?%elem_of_nil| | |].
    - rewrite Hother by done. apply (ui_dir _ _ _ H).
    - intros x Hx Ho. destruct (ui_created _ _ _ H x) as [A1 A2]; [by right|done|]. split; [done|]. destruct (decide (pathof x = pathof c)) as [E|]; [rewrite E in *; right; by apply Hgone|by rewrite Hother].
    - by apply StronglySorted_inv in H as [H _] || (pose proof (ui_order _ _ _ H) as Hs; by apply StronglySorted_inv in Hs as [Hs _]).
    - intros p Ho. destruct (decide (p = pathof c)) as [->|Hne].
      + left. rewrite Hgone by done. symmetry. by apply (ui_created _ _ _ H c); [left|].
      + unfold overwritten. rewrite Hother by done. destruct (ui_rest _ _ _ H p Ho) as [E|[E|[E|E]]]; [by left|right; by left| |right; by right; right].
        rewrite fmap_cons in E. apply elem_of_cons in E as [?|E]; [done|]. right. right. by left. }
  apply (calm_os_Remove (pathof c) (fun t' => calm _ _ t')).
  - intros Hn. apply calm_ret, IH, Hstep; [apply (ui_good _ _ _ H)|done|done].
  - intros Hd Hb. apply calm_ret, IH, Hstep; [apply (ui_good _ _ _ H)|done|]. intros Ho. by destruct Hb; apply (uinv_below c created).
  - intros Hb _. apply calm_ret, IH, Hstep.
    + apply (contained_pruned d (pathof c) t); [apply (ui_good _ _ _ H)|split; [by eapply inside_prefix|done]|]. right. split; [done|].
      destruct (decide (t !! pathof c = Some Dir)); [right; by apply Hb|by left].
    + intros p Hp. by rewrite lookup_delete_ne.
    + intros _. apply lookup_delete_eq.
Qed.

Lemma calm_undoPublish t st : pinv false t st ->
  calm (undoPublish d (pub_added st) (pub_created st)) (fun _ t' => good t' /\ t' !! d = Some Dir /\ forall p, outside p -> t' !! p = t0 !! p \/ overwritten t' p) t.
Proof.
  intros H. unfold undoPublish. pose proof quiet_RemoveAll. apply calm_bind; [induction (pub_added st); cbn [remove_added]; quiet|].
  eapply calm_mono; [by apply uinv_remove_added, uinv_start|]. intros u1 t1 H1. eapply calm_mono; [by apply uinv_remove_created|]. intros u2 t2 H2.
  split; [apply (ui_good _ _ _ H2)|]. split; [apply (ui_dir _ _ _ H2)|]. intros p Ho.
  destruct (ui_rest _ _ _ H2 p Ho) as [E|[E|[E|E]]]; [by left|by apply elem_of_nil in E|by apply elem_of_nil in E|by right].
Qed.
End publish.

(** ** The whole extraction *)
Lemma quiet_undoPublish d added created : quiet (undoPublish d added created).
Proof.
  pose proof quiet_RemoveAll. unfold undoPublish. apply quiet_bind; [induction added; cbn [remove_added]; quiet|]. intros _.
  induction (reverse created); cbn [remove_created]; quiet.
Qed.

Lemma quiet_publish d base opts : quiet (publishStagedExtraction d base opts).
Proof.
  unfold publishStagedExtraction. pose proof quiet_publish_dir. pose proof quiet_undoPublish. apply quiet_try; [by quiet|]. intros _.
  apply quiet_try; [by quiet|]. intros _. apply quiet_try; [by quiet|]. intros _. apply quiet_get. intros t. apply quiet_bind; [quiet|].
  intros [st [u|e]]; cbn [fst snd]; quiet.
Qed.

Lemma quiet_CleanupStageDirs d : quiet (CleanupStageDirs d).
Proof.
  unfold CleanupStageDirs. apply quiet_bind; [by quiet|]. intros [names|e]; [|by quiet]. induction names as [|n l IH]; cbn [remove_stage_dirs]; quiet.
Qed.

Lemma calm_publish d base opts t0 : plain base -> good t0 -> t0 !! d = Some Dir -> t0 !! (d ++ [base]) = Some Dir ->
  calm (publishStagedExtraction d base opts) (fun r t' => good t' /\ t' !! d = Some Dir /\ forall p, outside d base p ->
    t' !! p = t0 !! p \/ overwritten t0 opts t' p
    \/ exists names, r = Ok names /\ t0 !! p = None /\ (t' !! p = Some Dir \/ p ∈ pathof d <$> names /\ exists c, t' !! p = Some (File c))) t0.
Proof.
  intros Hb Hg Hd Hs. unfold publishStagedExtraction. apply calm_bind; [quiet|]. unfold x_call at 1. apply calm_bind; [quiet|]. unfold OpenRoot. apply calm_call. cbn [fst snd]. rewrite Hd.
  apply calm_ret. unfold x_call at 1. unfold try_bind at 1. apply calm_bind; [quiet|]. apply calm_bind; [quiet|]. apply calm_call. cbn [fst snd]. apply calm_ret.
  unfold x_call. unfold try_bind. apply calm_bind; [quiet|]. apply calm_bind; [quiet|]. apply calm_call. cbn [fst snd]. apply calm_ret.
  apply calm_get. apply calm_bind; [apply quiet_publish_dir|].
  eapply calm_mono; [apply (calm_publish_dir d base t0 opts); try done; by apply pinv_start|]. intros [st r] t H. unfold stepped in H. cbn [fst snd] in *. destruct r as [u|e].
  - apply calm_ret. split; [apply (pi_good _ _ _ _ _ _ _ H)|]. split; [apply (pi_dir _ _ _ _ _ _ _ H)|]. intros p Ho.
    destruct (pi_rest _ _ _ _ _ _ _ H p Ho) as [E|[(a & -> & Ha)%list_elem_of_fmap|[(c & -> & Hc)%list_elem_of_fmap|(R1 & _ & R3)]]]; [by left| | |right; left; by split].
    + destruct (pi_added _ _ _ _ _ _ _ H a Ha Ho) as [A1 A2]. right. right. exists (pub_published st). split; [done|]. split; [done|]. right. split; [|done].
      apply list_elem_of_fmap_2. by apply (pi_published _ _ _ _ _ _ _ H).
    + destruct (pi_created _ _ _ _ _ _ _ H c Hc) as [A1 [A2|[? _]]]; [|done]. right. right. exists (pub_published st). split; [done|]. split; [by apply A1|by left].
  - apply calm_bind; [apply quiet_undoPublish|].
    eapply calm_mono; [by eapply calm_undoPublish|]. intros u t1 (G & D & R). apply calm_ret. split; [done|]. split; [done|]. intros p Ho. destruct (R p Ho); [by left|by right; left].
Qed.

(** In a stage an earlier run left behind. *)
Definition stale (d : list (list Z)) (t : gmap (list (list Z)) node) (p : list (list Z)) : Prop :=
  exists n, HasPrefix n unpackStagePrefix = true /\ t !! (d ++ [n]) = Some Dir /\ (d ++ [n]) `prefix_of` p.

Lemma calm_CleanupStageDirs (d : list (list Z)) t : good t -> t !! d = Some Dir ->
  calm (CleanupStageDirs d) (fun _ t' => good t' /\ t' !! d = Some Dir /\ forall p, ~ stale d t p -> t' !! p = t !! p) t.
Proof.
  intros Hg Hd. unfold CleanupStageDirs. apply calm_bind; [quiet|]. unfold ReadDir. apply calm_call. simpl. rewrite Hd.
  generalize (children t d) as names. intros names.
  assert (forall t1, good t1 -> t1 !! d = Some Dir -> (forall p, ~ stale d t p -> t1 !! p = t !! p) -> (forall p n, t1 !! p = Some n -> t !! p = Some n) ->
    calm (remove_stage_dirs d names) (fun _ t' => good t' /\ t' !! d = Some Dir /\ forall p, ~ stale d t p -> t' !! p = t !! p) t1) as H.
  2: { by apply H. }
  induction names as [|n names IH]; intros t1 G D R S; [by apply calm_ret|]. cbn [remove_stage_dirs]. apply calm_get. apply calm_bind; [quiet|].
  destruct (HasPrefix n unpackStagePrefix) eqn:En; [|by apply calm_call, IH]. cbn [andb]. case_bool_decide as Ed; [|by apply calm_call, IH].
  unfold os_RemoveAll. apply calm_call. simpl. pose proof (contained_cut d (d ++ [n]) t1 G (under_child d n)) as [G' O]. apply IH.
  - done.
  - rewrite O; [done|]. by intros [_ ?].
  - intros p Hp. rewrite lookup_cut. destruct (is_prefix (d ++ [n]) p) eqn:E; [|by apply R]. destruct Hp. exists n. split; [done|]. split; [by apply S|]. by apply is_prefix_true.
  - intros p m. rewrite lookup_cut. destruct (is_prefix _ _); [done|]. apply S.
Qed.

Section extraction.
Variable rand : nat -> list Z.
Variable draw : nat -> Z.

Lemma calm_mkdir_temp (d : list (list Z)) t n : t !! d = Some Dir -> forall i,
  calm (mkdir_temp draw n d i) (fun r t' => match r with
    | Ok base => plain base /\ HasPrefix base unpackStagePrefix = true /\ t !! (d ++ [base]) = None /\ t' = <[d ++ [base] := Dir]> t
    | Err _ => t' = t end) t.
Proof.
  intros Hd. induction n as [|n IH]; intros i; [by apply calm_ret|]. cbn [mkdir_temp]. apply calm_bind; [quiet|]. unfold Mkdir. apply calm_call.
  set (name := unpackStagePrefix ++ _). destruct (t !! (d ++ [name])) eqn:E; cbn [fst snd]; [apply IH|]. rewrite parent_snoc, Hd, bool_decide_eq_false_2 by congruence. cbn [fst snd].
  apply calm_ret. split; [apply (stage_name_plain rand)|]. split; [done|]. by split.
Qed.

Lemma calm_removeStageTree p Q t : Q tt (cut_tree t p) -> calm (removeStageTree p) Q t.
Proof. done. Qed.

Definition outcome (d : list (list Z)) (opts : Options) (t : gmap (list (list Z)) node) (r : result xerr (list (list Z))) (t' : gmap (list (list Z)) node) (p : list (list Z)) : Prop :=
  t' !! p = t !! p \/ overwritten t opts t' p
  \/ exists names, r = Ok names /\ t !! p = None /\ (t' !! p = Some Dir \/ p ∈ pathof d <$> names /\ exists c, t' !! p = Some (File c)).

(** C39: When no system call fails of itself, an extraction that ends in an
    error - a damaged archive, a member that cannot be written, no space, a
    name in the way of the publish - leaves every path as it was, except the
    files it was told to overwrite; and one that succeeds adds only the files
    it reports and directories that were not there.  Stages an earlier run
    left behind are cleared first. *)
Theorem extraction_all_or_nothing outDir archive free opts t : good t -> t !! outDir = Some Dir ->
  calm (GoTar rand draw outDir archive free opts) (fun r t' => forall p, ~ stale outDir t p -> outcome outDir opts t r t' p) t.
Proof.
  intros Hg Hd. unfold GoTar, tarDeclaredSize. apply calm_bind; [quiet|]. apply calm_bind; [quiet|]. unfold x_call. apply calm_bind; [quiet|]. apply calm_call. simpl. apply calm_ret, calm_ret.
  destruct (refuseUnlessItFits _ _ _); [|apply calm_ret; intros p _; by left].
  unfold ExtractStaged. apply calm_bind; [apply quiet_prepareStageDir|]. unfold prepareStageDir. apply calm_bind; [apply quiet_CleanupStageDirs|].
  eapply calm_mono; [by apply calm_CleanupStageDirs|]. intros u1 t1 (G1 & D1 & R1). eapply calm_mono; [by apply calm_mkdir_temp|]. intros [base|e] t2; cycle 1.
  { intros ->. apply calm_ret. intros p Hp. left. by apply R1. }
  intros (Hb & Hpre & Hnone & ->). set (stage := outDir ++ [base]) in *.
  assert (under outDir stage) as Hu by apply under_child.
  assert (contained outDir t1 (<[stage := Dir]> t1)) as [G2 O2].
  { apply contained_insert; [done| |done|by unfold stage; rewrite parent_snoc|congruence]. apply Forall_app. split; [exact (proj2 G1 _ _ D1)|by apply Forall_singleton]. }
  set (t2 := <[stage := Dir]> t1) in *. assert (t2 !! stage = Some Dir) as S2 by apply lookup_insert_eq.
  (* what the stage held before and after *)
  assert (forall p, ~ stale outDir t p -> stage `prefix_of` p -> t !! p = None) as Hstage.
  { intros p Hp Hs. assert (t !! stage = None) as Hn.
    { rewrite <- R1; [done|]. intros (n & H1 & H2 & H3). apply Hp. exists n. split; [done|]. split; [done|]. by etrans. }
    destruct (t !! p) as [m|] eqn:Em; [|done]. destruct Hs as [k ->]. destruct (decide (k = [])) as [->|Hk]; [by rewrite app_nil_r, Hn in Em|].
    rewrite (wf_above t stage k m) in Hn; [done|apply Hg|done|done]. }
  assert (forall r t3, (forall p, outside outDir base p -> t3 !! p = t1 !! p \/ overwritten t1 opts t3 p
      \/ exists names, r = Ok names /\ t1 !! p = None /\ (t3 !! p = Some Dir \/ p ∈ pathof outDir <$> names /\ exists c, t3 !! p = Some (File c))) ->
    calm (do! _ <- removeStageTree stage in fret r) (fun r t' => forall p, ~ stale outDir t p -> outcome outDir opts t r t' p) t3) as Hend.
  { intros r t3 H3. apply calm_bind; [unfold removeStageTree; quiet|]. apply calm_removeStageTree, calm_ret. intros p Hp. unfold outcome, overwritten in *. rewrite lookup_cut.
    destruct (is_prefix stage p) eqn:E; [left; symmetry; apply Hstage; [done|by apply is_prefix_true]|]. apply is_prefix_false in E. specialize (H3 p E). rewrite R1 in H3 by done. exact H3. }
  pose proof (quiet_goTarInternal rand) as Hq. apply calm_bind.
  { apply quiet_try; [apply Hq|]. intros _. apply quiet_publish. }
  apply calm_bind; [apply Hq|]. apply calm_wp. eapply wp_mono; [by apply (keeps_goTarInternal rand stage)|]. intros r t3 [G3 O3].
  assert (forall p, outside outDir base p -> t3 !! p = t1 !! p) as H31.
  { intros p Hp. rewrite O3; [|by intros [? _]]. unfold t2. rewrite lookup_insert_ne; [done|]. intros <-. by apply Hp. }
  destruct r as [u|e]; [|apply calm_ret, Hend; intros p Hp; left; by apply H31].
  assert (t3 !! stage = Some Dir) as S3 by (rewrite O3; [done|by intros [_ ?]]).
  assert (t3 !! outDir = Some Dir) as D3 by (eapply wf_above; [apply G3|exact S3|done]).
  eapply calm_mono; [by apply calm_publish|]. intros r t4 (_ & _ & H4). apply Hend. intros p Hp. specialize (H4 p Hp). unfold overwritten in *. by rewrite H31 in H4.
Qed.
End extraction.

Lemma extraction_all_or_nothing_witness :
  fst demo_run = Err (XOS ENOTDIR) /\ calm (GoTar (fun i => [Z.of_nat i]) Z.of_nat [bs "d"] demo_archive None demo_options)
    (fun r t' => forall p, ~ stale [bs "d"] demo_tree p -> outcome [bs "d"] demo_options demo_tree r t' p) demo_tree.
Proof.
  split; [vm_compute; reflexivity|]. apply extraction_all_or_nothing; [exact demo_good|reflexivity].
Defined.

(** Told to overwrite, a failed extraction leaves the file it replaced. *)
Example overwritten_not_restored :
  let r := GoTar (fun i => [Z.of_nat i]) Z.of_nat [bs "d"] (mkStream [demo_entry (bs "a/b") [1; 2]; demo_entry (bs "f") [3]; demo_entry (bs "k/x") [4]] false)
             None (mkOptions false true false 0) (mkFS demo_tree []) in
  fst r = Err (XOS ENOTDIR) /\ demo_tree !! [bs "d"; bs "f"] = Some (File [9]) /\ fs_tree (snd r) = <[[bs "d"; bs "f"] := File [3]]> demo_tree.
Proof. vm_compute. auto. Qed.

(** The declared sizes are summed without an overflow check. *)
Example tar_sum_wraps :
  let sparse n := mkTarEntry TypeReg (bs "s") 420 n true (mkReader [] true) in
  fst (tarDeclaredSize (mkStream [sparse (2 ^ 63 - 1); sparse (2 ^ 63 - 1)] false) (mkFS demo_tree [])) = Ok (-2)
  /\ refuseUnlessItFits (Ok (-2)) (Some 0) 0 = Ok tt.
Proof. vm_compute. auto. Qed.
