(* ===== verification/Durable.v ===== *)
(** * The durability store ([internal/durability], [internal/history/migrations])

    The tables [job_files] and [written_articles] and the statements on them.
    A table is a map from its key to the other columns; a statement is its
    effect on the tables, refused when a CHECK of the schema fails.  A
    transaction runs statements, any of which (and its begin and commit) may
    fail, and leaves the tables as they were unless all of it succeeded. *)
From S2P Require Import Prelude Rows.
From stdpp Require Import base numbers gmap sorting list strings.
From Stdlib Require Import ZArith Lia.
Local Open Scope Z_scope.

(** ** What callers pass *)
Record AdmitFile : Type := mkAdmit { af_subject : string; af_bytes : Z; af_articles : Z; af_policy : Z }.

Record FileState : Type := mkState { FileIdx : Z; Complete : bool; Filename : string; FetchPolicy : Z }.

Record FileVerdict : Type := mkVerdict {
  v_file : Z;
  DeleteAll : bool;
  DeleteArtIdxs : list Z;
  ClearComplete : bool;
  SetComplete : bool
}.

Record RecordBatch : Type := mkBatch {
  JobID : string;
  b_rows : list WrittenRow;
  b_files : list FileState;
  b_verdicts : list FileVerdict
}.

#[export] Instance FileState_eq_dec : EqDecision FileState.
Proof. solve_decision. Defined.
#[export] Instance FileVerdict_eq_dec : EqDecision FileVerdict.
Proof. solve_decision. Defined.

(** ** The tables *)
Record file_cols : Type := mkCols {
  c_subject : string;
  c_bytes : Z;
  c_articles : Z;
  c_complete : Z;
  c_filename : string;
  c_policy : Z
}.

Record tables : Type := mkTables {
  job_files : gmap (string * Z) file_cols;
  written_articles : gmap (string * Z * Z) (Z * Z * Z);   (* offset, length, crc32 *)
  dispatch_jobs : gset string;                            (* the ids *)
  history : gmap string string                            (* nzo_id to status *)
}.

Definition set_job_files (m : gmap (string * Z) file_cols) (d : tables) : tables :=
  mkTables m (written_articles d) (dispatch_jobs d) (history d).
Definition set_written (m : gmap (string * Z * Z) (Z * Z * Z)) (d : tables) : tables :=
  mkTables (job_files d) m (dispatch_jobs d) (history d).

(** The CHECK constraints of [job_files]. *)
Definition cols_ok (c : file_cols) : bool :=
  bool_decide (0 <= c_bytes c) && bool_decide (0 <= c_articles c) && bool_decide (0 <= c_policy c <= 2).

(** ** Statements and transactions *)
Inductive sql_err : Type := Fault | CheckFailed | errVerdictBothWays.

Record session : Type := mkSession { ss_db : tables; ss_faults : list bool }.

Definition sqlM (A : Type) : Type := session -> result sql_err A * session.
Definition sql_ret {A} (a : A) : sqlM A := fun s => (Ok a, s).
Definition sql_fail {A} (e : sql_err) : sqlM A := fun s => (Err e, s).
Definition sql_bind {A B} (c : sqlM A) (k : A -> sqlM B) : sqlM B :=
  fun s => match c s with
           | (Ok a, s') => k a s'
           | (Err e, s') => (Err e, s')
           end.
Notation "'sql!' x '<-' c 'in' k" := (sql_bind c (fun x => k)) (at level 10, x pattern, c at level 100, k at level 200) : go_scope.
Local Open Scope go_scope.

(** A call to the database: it fails, or does what it says. *)
Definition sql_call {A} (f : tables -> result sql_err (A * tables)) : sqlM A :=
  fun s => let rest := tail (ss_faults s) in
           if default false (head (ss_faults s)) then (Err Fault, mkSession (ss_db s) rest)
           else match f (ss_db s) with
                | Ok (a, d) => (Ok a, mkSession d rest)
                | Err e => (Err e, mkSession (ss_db s) rest)
                end.

Definition exec (f : tables -> tables) : sqlM unit := sql_call (fun d => Ok (tt, f d)).
Definition query {A} (f : tables -> A) : sqlM A := sql_call (fun d => Ok (f d, d)).
Definition sql_noop : sqlM unit := exec (fun d => d).

(** [inTx]: begin, the statements, commit; the deferred rollback. *)
Definition inTx (fn : sqlM unit) : sqlM unit :=
  sql! _ <- sql_noop in
  fun s => match (sql! _ <- fn in sql_noop) s with
           | (Ok tt, s') => (Ok tt, s')
           | (Err e, s') => (Err e, mkSession (ss_db s) (ss_faults s'))
           end.

Fixpoint each {A} (f : A -> sqlM unit) (l : list A) : sqlM unit :=
  match l with
  | [] => sql_ret tt
  | x :: l => sql! _ <- f x in each f l
  end.

(** ** Seeding *)
Definition seed_cols (f : AdmitFile) : file_cols := mkCols (af_subject f) (af_bytes f) (af_articles f) 0 EmptyString (af_policy f).

(** [INSERT ... ON CONFLICT(job_id, file_index) DO NOTHING] *)
Definition insert_file (jobID : string) (i : Z) (c : file_cols) : sqlM unit :=
  sql_call (fun d => if cols_ok c then
                       Ok (tt, match job_files d !! (jobID, i) with
                               | Some _ => d
                               | None => set_job_files (<[(jobID, i) := c]> (job_files d)) d
                               end)
                     else Err CheckFailed).

Definition Admit (jobID : string) (files : list AdmitFile) : sqlM unit :=
  inTx (sql! _ <- sql_noop in
        each (fun '(i, f) => insert_file jobID (Z.of_nat i) (seed_cols f)) (imap pair files)).

(** ** Recording *)
Definition boolInt (b : bool) : Z := if b then 1 else 0.

(** [UPDATE job_files SET ... WHERE job_id = ? AND file_index = ?] *)
Definition update_file (jobID : string) (fi : Z) (f : file_cols -> file_cols) : sqlM unit :=
  sql_call (fun d => match job_files d !! (jobID, fi) with
                     | None => Ok (tt, d)
                     | Some c => if cols_ok (f c) then Ok (tt, set_job_files (<[(jobID, fi) := f c]> (job_files d)) d) else Err CheckFailed
                     end).

Definition with_state (f : FileState) (c : file_cols) : file_cols :=
  mkCols (c_subject c) (c_bytes c) (c_articles c) (boolInt (Complete f)) (Filename f) (FetchPolicy f).
Definition with_complete (b : bool) (c : file_cols) : file_cols :=
  mkCols (c_subject c) (c_bytes c) (c_articles c) (boolInt b) (c_filename c) (c_policy c).

Definition delete_written (P : string * Z * Z -> Prop) `{!forall k, Decision (P k)} (d : tables) : tables :=
  set_written (base.filter (fun kv => ~ P (fst kv)) (written_articles d)) d.

Definition deleteVerdict (jobID : string) (v : FileVerdict) : sqlM unit :=
  if DeleteAll v then exec (delete_written (fun k => fst k = (jobID, v_file v)))
  else each (fun a => exec (delete_written (fun k => k = (jobID, v_file v, a)))) (DeleteArtIdxs v).

Definition has_files (jobID : string) (d : tables) : bool := existsb (fun k => bool_decide (fst k = jobID)) ((map_to_list (job_files d)).*1).

(** The verdict names the article: what its deletes select. *)
Definition names (v : FileVerdict) (fi a : Z) : bool :=
  bool_decide (v_file v = fi) && (DeleteAll v || bool_decide (a ∈ DeleteArtIdxs v)).

(** [INSERT OR REPLACE INTO written_articles] *)
Definition put_row (jobID : string) (r : WrittenRow) (d : tables) : tables :=
  set_written (<[(jobID, r_file r, r_art r) := (r_off r, r_len r, r_crc r)]> (written_articles d)) d.

Definition insertRows (b : RecordBatch) : sqlM unit :=
  if bool_decide (b_rows b = []) then sql_ret tt
  else
    sql! live <- query (has_files (JobID b)) in
    if negb live then sql_ret tt
    else sql! _ <- sql_noop in each (fun r => exec (put_row (JobID b) r)) (b_rows b).

Definition applyBatch (b : RecordBatch) : sqlM unit :=
  sql! _ <- each (fun v => if SetComplete v && ClearComplete v then sql_fail errVerdictBothWays else deleteVerdict (JobID b) v) (b_verdicts b) in
  sql! _ <- insertRows b in
  sql! _ <- each (fun f => update_file (JobID b) (FileIdx f) (with_state f)) (b_files b) in
  each (fun v => if negb (SetComplete v) && negb (ClearComplete v) then sql_ret tt
                 else update_file (JobID b) (v_file v) (with_complete (SetComplete v))) (b_verdicts b).

Definition ApplyRecord (batches : list RecordBatch) : sqlM unit :=
  match batches with
  | [] => sql_ret tt
  | _ => inTx (each applyBatch batches)
  end.

(** ** Reclaiming *)
Definition StatusFailed : string := "Failed".

Inductive table_name : Type := JobFiles | WrittenArticles.
Record perJobTable : Type := mkTable { t_name : table_name; keptForFailedEntry : bool }.
Definition perJobTables : list perJobTable := [mkTable JobFiles true; mkTable WrittenArticles true].

(** The rule's WHERE for one job id; [ids] empty names every job. *)
Definition reclaimable (t : perJobTable) (ids : list string) (d : tables) (id : string) : bool :=
  bool_decide (id ∉ dispatch_jobs d)
  && negb (keptForFailedEntry t && bool_decide (history d !! id = Some StatusFailed))
  && (bool_decide (ids = []) || bool_decide (id ∈ ids)).

Definition ruleStatement (t : perJobTable) (ids : list string) (d : tables) : tables :=
  match t_name t with
  | JobFiles => set_job_files (base.filter (fun kv => reclaimable t ids d (fst (fst kv)) = false) (job_files d)) d
  | WrittenArticles => set_written (base.filter (fun kv => reclaimable t ids d (fst (fst (fst kv))) = false) (written_articles d)) d
  end.

Definition applyRule (ids : list string) : sqlM unit := each (fun t => exec (ruleStatement t ids)) perJobTables.

Definition reclaimChunk : nat := 500.

(** [slices.Chunk] *)
Fixpoint chunks {A} (fuel n : nat) (l : list A) : list (list A) :=
  match fuel, l with
  | O, _ | _, [] => []
  | S fuel, _ => take n l :: chunks fuel n (drop n l)
  end.

Definition Reclaim (id : string) (more : list string) : sqlM unit :=
  let ids := id :: more in
  inTx (each applyRule (chunks (length ids) reclaimChunk ids)).

Definition SweepOrphans : sqlM unit := inTx (applyRule []).

(** ** Reading *)

(** [ORDER BY file_idx, offset]; rows that tie stay in key order. *)
Definition written_le (a b : WrittenRow) : Prop :=
  r_file a < r_file b \/ (r_file a = r_file b /\ row_le a b).
#[export] Instance written_le_dec : RelDecision written_le.
Proof. intros a b. unfold written_le. apply _. Defined.

Definition row_at (kv : string * Z * Z * (Z * Z * Z)) : WrittenRow :=
  mkRow (snd (fst (fst kv))) (snd (fst kv)) (fst (fst (snd kv))) (snd (fst (snd kv))) (snd (snd kv)).

Definition WrittenRows (jobID : string) : sqlM (list WrittenRow) :=
  query (fun d => merge_sort written_le
    (row_at <$> base.filter (fun kv => fst (fst (fst kv)) = jobID) (map_to_list (written_articles d)))).

Record FileRow : Type := mkFileRow {
  FileIndex : Z;
  Subject : string;
  Bytes : Z;
  ArticleCount : Z;
  fr_Complete : bool;
  fr_FetchPolicy : Z;
  fr_Filename : string
}.

Definition index_le (a b : FileRow) : Prop := FileIndex a <= FileIndex b.
#[export] Instance index_le_dec : RelDecision index_le.
Proof. intros a b. unfold index_le. apply _. Defined.

Definition file_row (kc : string * Z * file_cols) : FileRow :=
  let c := snd kc in
  mkFileRow (snd (fst kc)) (c_subject c) (c_bytes c) (c_articles c) (negb (bool_decide (c_complete c = 0))) (wrapu 8 (c_policy c)) (c_filename c).

Definition FileRows (jobID : string) : sqlM (list FileRow) :=
  query (fun d => merge_sort index_le (file_row <$> base.filter (fun kc => fst (fst kc) = jobID) (map_to_list (job_files d)))).

(** A column as the driver delivers it: SQLite types a value, not a column. *)
Inductive anyval : Type := VInt (z : Z) | VText (s : string) | VOther.

Inductive seed_err : Type := BadIndex | BadColumn (name : string).
Record SeedRow : Type := mkSeedRow { s_row : FileRow; Recorded : Z }.

Definition MaxInt32 : Z := 2 ^ 31 - 1.

Definition int_col (name : string) (v : anyval) (max : Z) : result seed_err Z :=
  match v with
  | VInt z => if bool_decide (z < 0) || bool_decide (z > max) then Err (BadColumn name) else Ok z
  | _ => Err (BadColumn name)
  end.
Definition text_col (name : string) (v : anyval) : result seed_err string :=
  match v with
  | VText s => Ok s
  | _ => Err (BadColumn name)
  end.

Record seed_cols8 : Type := mkCols8 { q_index : anyval; q_subject : anyval; q_bytes : anyval; q_articles : anyval;
  q_filename : anyval; q_complete : anyval; q_policy : anyval; q_recorded : anyval }.

Definition seedRowOf (c : seed_cols8) : result seed_err SeedRow :=
  match q_index c with
  | VInt idx =>
      let? bytes := int_col "bytes" (q_bytes c) MaxInt64 in
      let? articles := int_col "article_count" (q_articles c) MaxInt32 in
      let? complete := int_col "complete" (q_complete c) MaxInt64 in
      let? policy := int_col "fetch_policy" (q_policy c) 2 in
      let? recorded := int_col "recorded" (q_recorded c) MaxInt32 in
      let? subject := text_col "subject" (q_subject c) in
      let? filename := text_col "filename" (q_filename c) in
      Ok (mkSeedRow (mkFileRow idx subject bytes articles (negb (bool_decide (complete = 0))) (wrapu 8 policy) filename) recorded)
  | _ => Err BadIndex
  end.

(** The loop of [SeedRows] over the result set. *)
Definition seed_step (st : gmap string (list SeedRow) * gmap string seed_err) (r : string * seed_cols8) :
    gmap string (list SeedRow) * gmap string seed_err :=
  let '(rows, unreadable) := st in
  let '(jobID, cols) := r in
  match unreadable !! jobID with
  | Some _ => st
  | None =>
      match seedRowOf cols with
      | Err e => (base.delete jobID rows, <[jobID := e]> unreadable)
      | Ok row => (<[jobID := default [] (rows !! jobID) ++ [row]]> rows, unreadable)
      end
  end.

Definition seed_rows_of (res : list (string * seed_cols8)) : gmap string (list SeedRow) * gmap string seed_err :=
  foldl seed_step (∅, ∅) res.

(** The query: the files of every job, each with its count of rows. *)
Definition count_written (d : tables) (id : string) (fi : Z) : Z :=
  Z.of_nat (length (base.filter (fun kv => fst (fst kv) = (id, fi)) (map_to_list (written_articles d)))).

Definition seed_query_row (d : tables) (kc : string * Z * file_cols) : string * seed_cols8 :=
  let '(id, fi, c) := kc in
  (id, mkCols8 (VInt fi) (VText (c_subject c)) (VInt (c_bytes c)) (VInt (c_articles c)) (VText (c_filename c))
        (VInt (c_complete c)) (VInt (c_policy c)) (VInt (count_written d id fi))).

Definition file_key_le (a b : string * Z * file_cols) : Prop :=
  String.le (fst (fst a)) (fst (fst b)) /\ (fst (fst a) = fst (fst b) -> snd (fst a) <= snd (fst b)).
#[export] Instance file_key_le_dec : RelDecision file_key_le.
Proof. intros a b. unfold file_key_le. destruct (decide (fst (fst a) = fst (fst b))); [destruct (decide (snd (fst a) <= snd (fst b)))|]; 
  destruct (decide (String.le (fst (fst a)) (fst (fst b)))); solve [left; tauto | right; tauto]. Defined.

Definition seed_query (d : tables) : list (string * seed_cols8) :=
  seed_query_row d <$> merge_sort file_key_le (map_to_list (job_files d)).

Definition SeedRows : sqlM (gmap string (list SeedRow) * gmap string seed_err) :=
  query (fun d => seed_rows_of (seed_query d)).
