(* ===== verification/DurableProps.v ===== *)
(** * What the store promises

    Every operation is all or nothing, whichever statement fails; what a
    recorded batch leaves in the tables; that the reclaim rule deletes exactly
    the rows nothing reaches; and that the seed of a restart is what the
    per-job reads return. *)
From S2P Require Import Prelude Rows Durable.
From stdpp Require Import base numbers gmap sorting list strings.
From Stdlib Require Import ZArith Lia.
Local Open Scope Z_scope.
Local Open Scope go_scope.

(** ** Reasoning about statements *)

(** [c] run on any tables under any faults: a success meets [Q]. *)
Definition sat {A} (c : sqlM A) (Q : A -> tables -> Prop) (d : tables) : Prop :=
  forall faults, match c (mkSession d faults) with
                 | (Ok a, s) => Q a (ss_db s)
                 | (Err _, _) => True
                 end.

Lemma sat_ret {A} (a : A) Q d : Q a d -> sat (sql_ret a) Q d.
Proof. by intros H f. Qed.

Lemma sat_fail {A} e (Q : A -> tables -> Prop) d : sat (sql_fail e) Q d.
Proof. done. Qed.

Lemma sat_bind {A B} (c : sqlM A) (k : A -> sqlM B) Q d : sat c (fun a d' => sat (k a) Q d') d -> sat (sql_bind c k) Q d.
Proof.
  intros H f. unfold sql_bind. specialize (H f). destruct (c _) as [[a|e] [d' f']]; [apply H|done].
Qed.

Lemma sat_mono {A} (c : sqlM A) (Q Q' : A -> tables -> Prop) d : sat c Q d -> (forall a d', Q a d' -> Q' a d') -> sat c Q' d.
Proof. intros H HQ f. specialize (H f). destruct (c _) as [[a|e] s]; [by apply HQ|done]. Qed.

Lemma sat_call {A} (f : tables -> result sql_err (A * tables)) Q d :
  match f d with Ok (a, d') => Q a d' | Err _ => True end -> sat (sql_call f) Q d.
Proof.
  intros H faults. unfold sql_call. simpl. destruct (default false (head faults)); [done|]. by destruct (f d) as [[a d']|e].
Qed.

Lemma sat_exec f Q d : Q tt (f d) -> sat (exec f) Q d.
Proof. intros H. by apply sat_call. Qed.

Lemma sat_query {A} (f : tables -> A) Q d : Q (f d) d -> sat (query f) Q d.
Proof. intros H. by apply sat_call. Qed.

(** A loop of statements computes a loop of effects. *)
Lemma sat_each {A} (f : A -> sqlM unit) (g : A -> tables -> tables) l d :
  (forall x d, x ∈ l -> sat (f x) (fun _ d' => d' = g x d) d) -> sat (each f l) (fun _ d' => d' = foldl (fun d x => g x d) d l) d.
Proof.
  revert d. induction l as [|x l IH]; intros d H; simpl; [by apply sat_ret|].
  apply sat_bind. eapply sat_mono; [apply H; by left|]. intros u d' ->. apply IH. intros y d' Hy. apply H. by right.
Qed.

(** A transaction: what its body does, or nothing at all. *)
Lemma inTx_atomic (fn : sqlM unit) Q d faults : sat fn (fun _ d' => Q d') d ->
  match inTx fn (mkSession d faults) with
  | (Ok tt, s) => Q (ss_db s)
  | (Err _, s) => ss_db s = d
  end.
Proof.
  intros H. unfold inTx, sql_bind at 1, sql_noop, exec, sql_call at 1. simpl. destruct (default false (head faults)); [done|]. simpl.
  unfold sql_bind. specialize (H (tail faults)). destruct (fn _) as [[[]|e] [d1 f1]]; [|done]. simpl in *.
  unfold sql_call. simpl. by destruct (default false (head f1)).
Qed.

(** ** Recording *)
Definition pure_delete (id : string) (v : FileVerdict) (d : tables) : tables :=
  if DeleteAll v then delete_written (fun k => fst k = (id, v_file v)) d
  else foldl (fun d a => delete_written (fun k => k = (id, v_file v, a)) d) d (DeleteArtIdxs v).

Definition pure_rows (b : RecordBatch) (d : tables) : tables :=
  if has_files (JobID b) d then foldl (fun d r => put_row (JobID b) r d) d (b_rows b) else d.

Definition pure_update (id : string) (fi : Z) (f : file_cols -> file_cols) (d : tables) : tables :=
  match job_files d !! (id, fi) with
  | None => d
  | Some c => set_job_files (<[(id, fi) := f c]> (job_files d)) d
  end.

Definition pure_verdict (id : string) (v : FileVerdict) (d : tables) : tables :=
  if negb (SetComplete v) && negb (ClearComplete v) then d else pure_update id (v_file v) (with_complete (SetComplete v)) d.

Definition pure_batch (b : RecordBatch) (d : tables) : tables :=
  let id := JobID b in
  let d := foldl (fun d v => pure_delete id v d) d (b_verdicts b) in
  let d := pure_rows b d in
  let d := foldl (fun d f => pure_update id (FileIdx f) (with_state f) d) d (b_files b) in
  foldl (fun d v => pure_verdict id v d) d (b_verdicts b).

Lemma sat_delete id v d : sat (deleteVerdict id v) (fun _ d' => d' = pure_delete id v d) d.
Proof.
  unfold deleteVerdict, pure_delete. destruct (DeleteAll v); [by apply sat_exec|].
  apply (sat_each _ (fun a => delete_written (fun k => k = (id, v_file v, a)))). intros a d' _. by apply sat_exec.
Qed.

Lemma sat_update id fi f d : sat (update_file id fi f) (fun _ d' => d' = pure_update id fi f d) d.
Proof. unfold update_file, pure_update. apply sat_call. repeat case_match; by simplify_eq. Qed.

Lemma sat_rows b d : sat (insertRows b) (fun _ d' => d' = pure_rows b d) d.
Proof.
  unfold insertRows, pure_rows. case_bool_decide as Hb; [rewrite Hb; apply sat_ret; by destruct (has_files _ _)|].
  apply sat_bind, sat_query. destruct (has_files _ _); simpl; [|by apply sat_ret].
  apply sat_bind, sat_exec. apply (sat_each _ (put_row (JobID b))). intros r d' _. by apply sat_exec.
Qed.

Lemma sat_batch b d : sat (applyBatch b) (fun _ d' => d' = pure_batch b d /\ Forall (fun v => SetComplete v && ClearComplete v = false) (b_verdicts b)) d.
Proof.
  unfold applyBatch, pure_batch. set (deletes := fun v => if SetComplete v && ClearComplete v then sql_fail errVerdictBothWays else deleteVerdict (JobID b) v).
  assert (sat (each deletes (b_verdicts b)) (fun _ d' => d' = foldl (fun d v => pure_delete (JobID b) v d) d (b_verdicts b)
            /\ Forall (fun v => SetComplete v && ClearComplete v = false) (b_verdicts b)) d) as Hdel.
  { generalize (b_verdicts b) as vs. intros vs. revert d. induction vs as [|v vs IH]; intros d; simpl; [by apply sat_ret|].
    apply sat_bind. unfold deletes at 1. destruct (SetComplete v && ClearComplete v) eqn:E; [apply sat_fail|].
    eapply sat_mono; [apply sat_delete|]. intros u d' ->. eapply sat_mono; [apply IH|]. intros u' d' [-> H]. split; [done|by constructor]. }
  apply sat_bind. eapply sat_mono; [exact Hdel|]. intros u1 d1 [-> Hv]. apply sat_bind.
  eapply sat_mono; [apply sat_rows|]. intros u2 d2 ->. apply sat_bind.
  eapply sat_mono; [apply (sat_each _ (fun f => pure_update (JobID b) (FileIdx f) (with_state f))); intros; apply sat_update|].
  intros u3 d3 ->. eapply sat_mono; [apply (sat_each _ (pure_verdict (JobID b)))|intros u4 d4 ->; done].
  intros v d' _. unfold pure_verdict. destruct (negb _ && negb _); [by apply sat_ret|apply sat_update].
Qed.

Definition pure_record (batches : list RecordBatch) (d : tables) : tables := foldl (fun d b => pure_batch b d) d batches.

Lemma ApplyRecord_run batches d faults :
  match ApplyRecord batches (mkSession d faults) with
  | (Ok tt, s) => ss_db s = pure_record batches d /\ Forall (fun b => Forall (fun v => SetComplete v && ClearComplete v = false) (b_verdicts b)) batches
  | (Err _, s) => ss_db s = d
  end.
Proof.
  unfold ApplyRecord. destruct batches as [|b bs]; [done|].
  apply (inTx_atomic _ (fun d' => d' = pure_record (b :: bs) d /\ Forall (fun b => Forall (fun v => SetComplete v && ClearComplete v = false) (b_verdicts b)) (b :: bs))).
  generalize (b :: bs) as l. intros l. clear. revert d. induction l as [|b l IH]; intros d; simpl; [by apply sat_ret|].
  apply sat_bind. eapply sat_mono; [apply sat_batch|]. intros u d' [-> Hb]. eapply sat_mono; [apply IH|].
  intros u' d' [-> H]. split; [done|by constructor].
Qed.

(** ** What a batch means for one key *)

Definition row_cols (r : WrittenRow) : Z * Z * Z := (r_off r, r_len r, r_crc r).

(** The last row of the batch for an article: it is the one that stays. *)
Definition last_row (rows : list WrittenRow) (fi a : Z) : option WrittenRow :=
  last (base.filter (fun r => r_file r = fi /\ r_art r = a) rows).

Definition row_after (live : bool) (id : string) (fi a : Z) (o : option (Z * Z * Z)) (b : RecordBatch) : option (Z * Z * Z) :=
  if bool_decide (JobID b = id) then
    match (if live then last_row (b_rows b) fi a else None) with
    | Some r => Some (row_cols r)
    | None => if existsb (fun v => names v fi a) (b_verdicts b) then None else o
    end
  else o.

Definition file_after (id : string) (fi : Z) (c : file_cols) (b : RecordBatch) : file_cols :=
  if bool_decide (JobID b = id) then
    foldl (fun c v => if bool_decide (v_file v = fi) && (SetComplete v || ClearComplete v) then with_complete (SetComplete v) c else c)
      (foldl (fun c f => if bool_decide (FileIdx f = fi) then with_state f c else c) c (b_files b)) (b_verdicts b)
  else c.

(** Effects on one table leave the others. *)
Definition only_written (d d' : tables) : Prop :=
  job_files d' = job_files d /\ dispatch_jobs d' = dispatch_jobs d /\ history d' = history d.
Definition only_files (d d' : tables) : Prop :=
  written_articles d' = written_articles d /\ dispatch_jobs d' = dispatch_jobs d /\ history d' = history d.

Lemma foldl_keeps {A} (R : tables -> tables -> Prop) (f : tables -> A -> tables) l d :
  (forall d, R d d) -> (forall d1 d2 d3, R d1 d2 -> R d2 d3 -> R d1 d3) -> (forall d x, R d (f d x)) -> R d (foldl f d l).
Proof. intros Hr Ht Hf. revert d. induction l as [|x l IH]; intros d; simpl; [done|]. eapply Ht; [apply Hf|apply IH]. Qed.

Lemma only_written_refl d : only_written d d.
Proof. done. Qed.
Lemma only_written_trans d1 d2 d3 : only_written d1 d2 -> only_written d2 d3 -> only_written d1 d3.
Proof. unfold only_written. intuition congruence. Qed.
Lemma only_files_refl d : only_files d d.
Proof. done. Qed.
Lemma only_files_trans d1 d2 d3 : only_files d1 d2 -> only_files d2 d3 -> only_files d1 d3.
Proof. unfold only_files. intuition congruence. Qed.
#[local] Hint Resolve only_written_refl only_written_trans only_files_refl only_files_trans : core.

Lemma delete_only id v d : only_written d (pure_delete id v d).
Proof. unfold pure_delete. destruct (DeleteAll v); [done|]. apply foldl_keeps; eauto. done. Qed.

Lemma rows_only b d : only_written d (pure_rows b d).
Proof. unfold pure_rows. destruct (has_files _ _); [|done]. apply foldl_keeps; eauto. done. Qed.

Lemma update_only id fi f d : only_files d (pure_update id fi f d).
Proof. unfold pure_update. by destruct (job_files d !! (id, fi)). Qed.

Lemma lookup_delete_written (P : string * Z * Z -> Prop) `{!forall k, Decision (P k)} d k :
  written_articles (delete_written P d) !! k = if decide (P k) then None else written_articles d !! k.
Proof.
  unfold delete_written. simpl. apply option_eq. intros x. rewrite map_lookup_filter_Some. simpl. destruct (decide (P k)); naive_solver.
Qed.

Lemma written_delete id v d id' fi a :
  written_articles (pure_delete id v d) !! (id', fi, a) = if bool_decide (id = id') && names v fi a then None else written_articles d !! (id', fi, a).
Proof.
  unfold pure_delete, names. destruct (DeleteAll v) eqn:E; cbn [orb].
  - rewrite lookup_delete_written. cbn [fst]. destruct (decide ((id', fi) = (id, v_file v))) as [H|H]; [simplify_eq|]; repeat case_bool_decide; simplify_eq/=; done.
  - revert d. induction (DeleteArtIdxs v) as [|x l IH]; intros d; cbn [foldl].
    + rewrite (bool_decide_eq_false_2 (a ∈ [])), !andb_false_r; [done|by intros ?%elem_of_nil].
    + rewrite IH, lookup_delete_written. destruct (decide ((id', fi, a) = (id, v_file v, x))) as [H|H].
      * simplify_eq. rewrite (bool_decide_eq_true_2 (x ∈ x :: l)) by (by left). rewrite !bool_decide_eq_true_2 by done. by destruct (bool_decide (x ∈ l)).
      * replace (bool_decide (a ∈ x :: l)) with (bool_decide (a = x) || bool_decide (a ∈ l)).
        -- repeat case_bool_decide; simplify_eq/=; done.
        -- repeat case_bool_decide; simpl; try done; set_solver.
Qed.

Lemma written_deletes id vs d id' fi a :
  written_articles (foldl (fun d v => pure_delete id v d) d vs) !! (id', fi, a)
  = if bool_decide (id = id') && existsb (fun v => names v fi a) vs then None else written_articles d !! (id', fi, a).
Proof.
  revert d. induction vs as [|v vs IH]; intros d; simpl; [by rewrite andb_false_r|]. rewrite IH, written_delete.
  destruct (bool_decide (id = id')); simpl; [|done]. by destruct (names v fi a), (existsb _ vs).
Qed.

Lemma written_puts id rows d id' fi a :
  written_articles (foldl (fun d r => put_row id r d) d rows) !! (id', fi, a)
  = match (if bool_decide (id = id') then last_row rows fi a else None) with
    | Some r => Some (row_cols r)
    | None => written_articles d !! (id', fi, a)
    end.
Proof.
  induction rows as [|r rows IH] using rev_ind; simpl; [by destruct (bool_decide _)|].
  rewrite foldl_snoc. simpl. unfold last_row in *. rewrite filter_app, filter_cons, filter_nil. simpl.
  destruct (decide ((id', fi, a) = (id, r_file r, r_art r))) as [H|H].
  - simplify_eq. rewrite lookup_insert_eq, bool_decide_eq_true_2, decide_True by done. by rewrite last_snoc.
  - rewrite lookup_insert_ne by done. rewrite IH. case_bool_decide; [|done]. rewrite decide_False by (intros [? ?]; by subst). by rewrite app_nil_r.
Qed.

Lemma files_update id fi f d k : job_files (pure_update id fi f d) !! k = if bool_decide ((id, fi) = k) then f <$> job_files d !! k else job_files d !! k.
Proof.
  unfold pure_update. destruct (job_files d !! (id, fi)) eqn:E; case_bool_decide as H; subst; simpl; rewrite ?E; try done.
  - by rewrite lookup_insert_eq.
  - by rewrite lookup_insert_ne.
Qed.

Lemma has_files_spec id d : has_files id d = true <-> exists fi, is_Some (job_files d !! (id, fi)).
Proof.
  unfold has_files. rewrite existsb_exists. split.
  - intros ([id' fi] & Hin & H). apply bool_decide_eq_true in H. simpl in H. subst. exists fi. apply list_elem_of_In, list_elem_of_fmap in Hin as ([k c] & E & Hc).
    apply elem_of_map_to_list in Hc. simpl in E. subst k. eauto.
  - intros (fi & c & H). exists (id, fi). split; [|by apply bool_decide_eq_true].
    apply list_elem_of_In, list_elem_of_fmap. exists ((id, fi), c). split; [done|]. by apply elem_of_map_to_list.
Qed.

Lemma pure_batch_written b d id fi a :
  written_articles (pure_batch b d) !! (id, fi, a) = row_after (has_files id d) id fi a (written_articles d !! (id, fi, a)) b.
Proof.
  unfold pure_batch. set (d1 := foldl _ d _). set (d2 := pure_rows b d1). set (d3 := foldl _ d2 _).
  assert (only_files d2 d3) as H3 by (apply foldl_keeps; eauto using update_only).
  assert (only_files d3 (foldl (fun d v => pure_verdict (JobID b) v d) d3 (b_verdicts b))) as H4.
  { clearbody d3. apply (foldl_keeps only_files); eauto. intros x v. unfold pure_verdict. destruct (negb _ && negb _); [done|apply update_only]. }
  destruct H3 as [H3 _], H4 as [H4 _]. rewrite H4, H3. clear H3 H4 d3. unfold d2, pure_rows, row_after.
  assert (only_written d d1) as H1 by (apply foldl_keeps; eauto using delete_only).
  replace (has_files (JobID b) d1) with (has_files (JobID b) d) by (unfold has_files; by rewrite (proj1 H1)).
  assert (written_articles d1 !! (id, fi, a) = if bool_decide (JobID b = id) && existsb (fun v => names v fi a) (b_verdicts b) then None else written_articles d !! (id, fi, a))
    as Hd1 by apply written_deletes.
  destruct (has_files (JobID b) d) eqn:Hl.
  - rewrite written_puts, Hd1. case_bool_decide as Hid; [subst; by rewrite Hl|done].
  - rewrite Hd1. case_bool_decide as Hid; [subst; by rewrite Hl|done].
Qed.

Lemma pure_batch_files b d id fi :
  job_files (pure_batch b d) !! (id, fi) = (fun c => file_after id fi c b) <$> job_files d !! (id, fi).
Proof.
  unfold pure_batch, file_after. set (d1 := foldl _ d _). set (d2 := pure_rows b d1).
  assert (job_files d2 = job_files d) as <-.
  { assert (only_written d d1) as H1 by (apply foldl_keeps; eauto using delete_only). transitivity (job_files d1); [apply rows_only|apply H1]. }
  generalize d2. clear. intros d. destruct (bool_decide (JobID b = id)) eqn:E.
  - apply bool_decide_eq_true in E. subst id. 
    assert (forall fs d, job_files (foldl (fun d f => pure_update (JobID b) (FileIdx f) (with_state f) d) d fs) !! (JobID b, fi)
              = (fun c => foldl (fun c f => if bool_decide (FileIdx f = fi) then with_state f c else c) c fs) <$> job_files d !! (JobID b, fi)) as Hf.
    { clear. induction fs as [|f fs IH]; intros d; simpl; [by destruct (job_files d !! _)|]. rewrite IH, files_update. 
      destruct (job_files d !! (JobID b, fi)); repeat case_bool_decide; simplify_eq/=; done. }
    assert (forall vs d, job_files (foldl (fun d v => pure_verdict (JobID b) v d) d vs) !! (JobID b, fi)
              = (fun c => foldl (fun c v => if bool_decide (v_file v = fi) && (SetComplete v || ClearComplete v) then with_complete (SetComplete v) c else c) c vs)
                <$> job_files d !! (JobID b, fi)) as Hv.
    { clear. induction vs as [|v vs IH]; intros d; simpl; [by destruct (job_files d !! _)|]. rewrite IH. unfold pure_verdict.
      destruct (SetComplete v), (ClearComplete v); simpl; rewrite ?andb_false_r, ?files_update; destruct (job_files d !! (JobID b, fi));
        repeat case_bool_decide; simplify_eq/=; done. }
    rewrite Hv, Hf. by destruct (job_files d !! (JobID b, fi)).
  - apply bool_decide_eq_false in E. replace (job_files (foldl _ _ (b_verdicts b)) !! (id, fi)) with (job_files d !! (id, fi)); [by destruct (job_files d !! _)|].
    symmetry. generalize (b_verdicts b) as vs. intros vs. revert d. generalize (b_files b) as fs.
    assert (forall x f d, job_files (pure_update (JobID b) x f d) !! (id, fi) = job_files d !! (id, fi)) as Hu
      by (intros; rewrite files_update, bool_decide_eq_false_2; [done|congruence]).
    intros fs d. transitivity (job_files (foldl (fun d f => pure_update (JobID b) (FileIdx f) (with_state f) d) d fs) !! (id, fi)).
    + generalize (foldl (fun d f => pure_update (JobID b) (FileIdx f) (with_state f) d) d fs) as d'. intros d'. revert d'.
      induction vs as [|v vs IH]; intros d'; simpl; [done|]. rewrite IH. unfold pure_verdict. by destruct (negb _ && negb _).
    + revert d. induction fs as [|f fs IH]; intros d; simpl; [done|]. by rewrite IH.
Qed.

Lemma pure_record_written batches d id fi a :
  written_articles (pure_record batches d) !! (id, fi, a) = foldl (row_after (has_files id d) id fi a) (written_articles d !! (id, fi, a)) batches.
Proof.
  revert d. induction batches as [|b bs IH]; intros d; simpl; [done|]. unfold pure_record in *. simpl. rewrite IH, pure_batch_written. f_equal.
  f_equal. apply eq_bool_prop_intro. rewrite !Is_true_true, !has_files_spec.
  split; intros (x & H); exists x; rewrite pure_batch_files in *; by rewrite fmap_is_Some in *.
Qed.

Lemma pure_record_files batches d id fi :
  job_files (pure_record batches d) !! (id, fi) = (fun c => foldl (file_after id fi) c batches) <$> job_files d !! (id, fi).
Proof.
  revert d. induction batches as [|b bs IH]; intros d; simpl; [by destruct (job_files d !! _)|]. unfold pure_record in *. simpl.
  rewrite IH, pure_batch_files. by destruct (job_files d !! _).
Qed.

(** C35: recording is all or nothing, and exact: when a statement, the begin
    or the commit fails the tables are as they were; otherwise an article has
    its batch's last row for it, no row when a verdict names it and the batch
    has none, and its old row otherwise, and a file the state and completion
    the batches give it, in their order. *)
Theorem record_exact batches d faults :
  match ApplyRecord batches (mkSession d faults) with
  | (Err _, s) => ss_db s = d
  | (Ok _, s) =>
      (forall id fi a, written_articles (ss_db s) !! (id, fi, a)
         = foldl (row_after (has_files id d) id fi a) (written_articles d !! (id, fi, a)) batches)
      /\ (forall id fi, job_files (ss_db s) !! (id, fi) = (fun c => foldl (file_after id fi) c batches) <$> job_files d !! (id, fi))
  end.
Proof.
  pose proof (ApplyRecord_run batches d faults) as H. destruct (ApplyRecord _ _) as [[[]|e] s]; [|done]. destruct H as [-> _].
  split; intros; [apply pure_record_written|apply pure_record_files].
Qed.

(** ** Reclaiming *)

(** Nothing reaches the job: no queue row and no failed history entry. *)
Definition unreachable (d : tables) (id : string) : bool :=
  bool_decide (id ∉ dispatch_jobs d) && negb (bool_decide (history d !! id = Some StatusFailed)).

Definition same_reach (d d' : tables) : Prop := dispatch_jobs d' = dispatch_jobs d /\ history d' = history d.

(** What a rule over [P] leaves. *)
Definition reclaimed (P : string -> bool) (d d' : tables) : Prop :=
  same_reach d d'
  /\ (forall id fi, job_files d' !! (id, fi) = if unreachable d id && P id then None else job_files d !! (id, fi))
  /\ (forall id fi a, written_articles d' !! (id, fi, a) = if unreachable d id && P id then None else written_articles d !! (id, fi, a)).

Definition named (ids : list string) (id : string) : bool := bool_decide (ids = []) || bool_decide (id ∈ ids).

Lemma reclaimable_kept t ids d id : keptForFailedEntry t = true -> reclaimable t ids d id = unreachable d id && named ids id.
Proof. intros H. unfold reclaimable, unreachable, named. rewrite H. by destruct (bool_decide (id ∉ _)), (negb _). Qed.

Lemma rule_reclaimed ids d : reclaimed (named ids) d (foldl (fun d t => ruleStatement t ids d) d perJobTables).
Proof.
  simpl. split; [done|]. unfold ruleStatement. simpl. split.
  - intros id fi. apply option_eq. intros c. rewrite map_lookup_filter_Some. simpl. rewrite (reclaimable_kept _ ids d) by done.
    destruct (unreachable d id && named ids id); naive_solver.
  - intros id fi a. apply option_eq. intros c. rewrite map_lookup_filter_Some. simpl. rewrite reclaimable_kept by done.
    change (unreachable (set_job_files _ d) id) with (unreachable d id). destruct (unreachable d id && named ids id); naive_solver.
Qed.

Lemma reclaimed_trans P Q d1 d2 d3 : reclaimed P d1 d2 -> reclaimed Q d2 d3 -> reclaimed (fun id => P id || Q id) d1 d3.
Proof.
  intros ((A1 & A2) & A3 & A4) ((B1 & B2) & B3 & B4). assert (forall id, unreachable d2 id = unreachable d1 id) as Hu by (intros; unfold unreachable; by rewrite A1, A2).
  split; [split; congruence|]. split; intros.
  - rewrite B3, A3, Hu. by destruct (unreachable d1 id), (P id), (Q id).
  - rewrite B4, A4, Hu. by destruct (unreachable d1 id), (P id), (Q id).
Qed.

Lemma reclaimed_ext P Q d d' : (forall id, P id = Q id) -> reclaimed P d d' -> reclaimed Q d d'.
Proof. intros H (A1 & A2 & A3). split; [done|]. split; intros; [rewrite A2|rewrite A3]; by rewrite H. Qed.

Lemma chunks_concat {A} fuel n (l : list A) : (0 < n)%nat -> (length l <= fuel)%nat -> concat (chunks fuel n l) = l /\ Forall (fun c => c <> []) (chunks fuel n l).
Proof.
  intros Hn. revert l. induction fuel as [|fuel IH]; intros l Hl; destruct l as [|x l]; simpl in *; try done; [lia|].
  destruct n as [|n]; [lia|]. destruct (IH (drop (S n) (x :: l))) as [H1 H2]; [simpl; rewrite length_drop; lia|]. split.
  - rewrite H1. by rewrite take_drop.
  - by constructor.
Qed.

Lemma sat_rule ids d : sat (applyRule ids) (fun _ d' => d' = foldl (fun d t => ruleStatement t ids d) d perJobTables) d.
Proof. apply sat_each. intros t d' _. by apply sat_exec. Qed.

Lemma sat_chunks cs d : Forall (fun c => c <> []) cs ->
  sat (each applyRule cs) (fun _ d' => reclaimed (fun id => bool_decide (id ∈ concat cs)) d d') d.
Proof.
  intros H. revert d. induction H as [|c cs Hc _ IH]; intros d; simpl.
  - apply sat_ret. split; [done|]. split; intros; by rewrite andb_false_r.
  - apply sat_bind. eapply sat_mono; [apply sat_rule|]. intros u d' ->. eapply sat_mono; [apply IH|]. intros u' d'' H.
    eapply reclaimed_ext; [|eapply reclaimed_trans; [apply rule_reclaimed|exact H]]. intros id. simpl. unfold named.
    rewrite (bool_decide_eq_false_2 (c = [])) by done. repeat case_bool_decide; simpl; try done; set_solver.
Qed.

(** the reclaim rule never takes a row something still reaches: for a
    job with a queue row or a failed history entry both tables keep every row,
    for a named job with neither both lose every row, all in one transaction
    however many jobs are named. *)
Theorem reclaim_exact id more d faults :
  match Reclaim id more (mkSession d faults) with
  | (Err _, s) => ss_db s = d
  | (Ok _, s) => reclaimed (fun i => bool_decide (i ∈ id :: more)) d (ss_db s)
  end.
Proof.
  destruct (chunks_concat (length (id :: more)) reclaimChunk (id :: more)) as [H1 H2]; [unfold reclaimChunk; lia|done|].
  assert (sat (each applyRule (chunks (length (id :: more)) reclaimChunk (id :: more))) (fun _ d' => reclaimed (fun i => bool_decide (i ∈ id :: more)) d d') d) as Hs.
  { eapply sat_mono; [by apply sat_chunks|]. intros u d' Hr. by rewrite H1 in Hr. }
  pose proof (inTx_atomic _ _ d faults Hs) as H. unfold Reclaim. destruct (inTx _ _) as [[[]|e] s]; done.
Qed.

(** The startup sweep is the same rule over every job. *)
Theorem sweep_exact d faults :
  match SweepOrphans (mkSession d faults) with
  | (Err _, s) => ss_db s = d
  | (Ok _, s) => reclaimed (fun _ => true) d (ss_db s)
  end.
Proof.
  assert (sat (applyRule []) (fun _ d' => reclaimed (fun _ => true) d d') d) as Hs.
  { eapply sat_mono; [apply sat_rule|]. intros u d' ->. apply (rule_reclaimed []). }
  pose proof (inTx_atomic _ _ d faults Hs) as H. unfold SweepOrphans. destruct (inTx _ _) as [[[]|e] s]; done.
Qed.

(** ** Reading back *)

Fixpoint collect {E A} (l : list (result E A)) : result E (list A) :=
  match l with
  | [] => Ok []
  | Ok a :: l => match collect l with Ok r => Ok (a :: r) | Err e => Err e end
  | Err e :: _ => Err e
  end.

Lemma collect_snoc {E A} (l : list (result E A)) x :
  collect (l ++ [x]) = match collect l with Ok r => match x with Ok a => Ok (r ++ [a]) | Err e => Err e end | Err e => Err e end.
Proof.
  induction l as [|y l IH]; simpl; [by destruct x|]. rewrite IH. destruct y; [|done]. destruct (collect l); [|done]. by destruct x.
Qed.

Definition rows_of (res : list (string * seed_cols8)) (id : string) : list seed_cols8 := snd <$> base.filter (fun r => fst r = id) res.

Definition seeded (st : gmap string (list SeedRow) * gmap string seed_err) (id : string) (o : result seed_err (list SeedRow)) : Prop :=
  match o with
  | Ok [] => fst st !! id = None /\ snd st !! id = None
  | Ok l => fst st !! id = Some l /\ snd st !! id = None
  | Err e => fst st !! id = None /\ snd st !! id = Some e
  end.

(** one damaged row makes its own job unreadable and no other: whatever
    the result set of the startup read holds, a job's seed is its rows in
    order when all of them scan, and otherwise the job is reported unreadable
    with its first bad row's error and has no seed. *)
Theorem damaged_row_isolated res id : seeded (seed_rows_of res) id (collect (seedRowOf <$> rows_of res id)).
Proof.
  unfold seed_rows_of, rows_of. induction res as [|[i cols] res IH] using rev_ind; [done|].
  rewrite foldl_snoc, filter_app, fmap_app, fmap_app. destruct (foldl seed_step (∅, ∅) res) as [rows bad]. unfold seed_step. simpl.
  destruct (decide (i = id)) as [->|Hne].
  - rewrite filter_cons_True, filter_nil by done. simpl. rewrite collect_snoc. unfold seeded in *. simpl in *.
    destruct (collect _) as [l|e]; [|destruct IH as [H1 H2]; by rewrite H2].
    assert (bad !! id = None /\ default [] (rows !! id) = l) as [Hb Hl] by (destruct l; destruct IH as [H1 H2]; by rewrite H1).
    rewrite Hb, Hl. destruct (seedRowOf cols) as [r|e]; simpl.
    + rewrite lookup_insert_eq. by destruct l.
    + by rewrite lookup_delete_eq, lookup_insert_eq.
  - rewrite filter_cons_False, filter_nil by done. simpl. rewrite app_nil_r. unfold seeded in *. simpl in *.
    destruct (bad !! i); [done|]. destruct (seedRowOf cols); simpl; rewrite ?lookup_insert_ne, ?lookup_delete_ne by done; exact IH.
Qed.

(** The values a table written by this program holds. *)
Definition cols_in_range (d : tables) (id : string) : Prop :=
  forall fi c, job_files d !! (id, fi) = Some c ->
    0 <= c_bytes c <= MaxInt64 /\ 0 <= c_articles c <= MaxInt32 /\ 0 <= c_complete c <= MaxInt64 /\ 0 <= c_policy c <= 2
    /\ count_written d id fi <= MaxInt32.

Definition seed_of (d : tables) (id : string) (r : FileRow) : SeedRow := mkSeedRow r (count_written d id (FileIndex r)).

Lemma int_col_ok name z max : 0 <= z <= max -> int_col name (VInt z) max = Ok z.
Proof. intros H. unfold int_col. rewrite !bool_decide_eq_false_2 by lia. done. Qed.

Lemma seedRowOf_query d id fi c : cols_in_range d id -> job_files d !! (id, fi) = Some c ->
  seedRowOf (snd (seed_query_row d ((id, fi), c))) = Ok (seed_of d id (file_row ((id, fi), c))).
Proof.
  intros H Hc. destruct (H fi c Hc) as (H1 & H2 & H3 & H4 & H5). unfold seedRowOf. cbn [seed_query_row snd q_index q_subject q_bytes q_articles q_filename q_complete q_policy q_recorded].
  rewrite !int_col_ok; [done| | | | |]; try done. unfold count_written in *. lia.
Qed.

Lemma collect_ok {E A B} (f : B -> result E A) (g : B -> A) l : (forall x, x ∈ l -> f x = Ok (g x)) -> collect (f <$> l) = Ok (g <$> l).
Proof.
  induction l as [|x l IH]; intros H; [done|]. rewrite !fmap_cons. simpl. rewrite H by by left. rewrite IH; [done|]. intros y Hy. apply H. by right.
Qed.

#[local] Instance file_key_total : Total file_key_le.
Proof.
  intros [[i x] c] [[j y] e]. unfold file_key_le. simpl. destruct (decide (i = j)) as [->|Hne].
  - destruct (Z.le_total x y); [left|right]; by split; [|intros _].
  - destruct (total String.le i j); [left|right]; split; try done; congruence.
Qed.
#[local] Instance file_key_trans : Transitive file_key_le.
Proof.
  intros [[i x] c] [[j y] e] [[k z] f] [H1 H2] [H3 H4]. unfold file_key_le in *. simpl in *. split; [by etransitivity|]. intros ->.
  assert (k = j) as -> by (by apply (anti_symm String.le)). etransitivity; [by apply H2|by apply H4].
Qed.

#[local] Instance index_total : Total index_le.
Proof. intros a b. unfold index_le. apply Z.le_total. Qed.
#[local] Instance index_trans : Transitive index_le.
Proof. intros a b c. unfold index_le. lia. Qed.

Lemma StronglySorted_filter {A} (R : A -> A -> Prop) (P : A -> Prop) `{!forall x, Decision (P x)} l :
  StronglySorted R l -> StronglySorted R (base.filter P l).
Proof.
  induction 1 as [|x l _ IH Hx]; [constructor|]. rewrite filter_cons. case_decide; [|done]. constructor; [done|].
  apply Forall_forall. intros y [_ Hy]%list_elem_of_filter. rewrite Forall_forall in Hx. auto.
Qed.

(** The files of one job in the order of their index. *)
Lemma files_in_order d id :
  file_row <$> base.filter (fun kc => fst (fst kc) = id) (merge_sort file_key_le (map_to_list (job_files d)))
  = merge_sort index_le (file_row <$> base.filter (fun kc => fst (fst kc) = id) (map_to_list (job_files d))).
Proof.
  set (l := base.filter (fun kc => fst (fst kc) = id) (merge_sort file_key_le (map_to_list (job_files d)))).
  assert (forall kc, kc ∈ l -> fst (fst kc) = id /\ job_files d !! (fst kc) = Some (snd kc)) as Hl.
  { intros [k c] [H1 H2]%list_elem_of_filter. split; [done|]. apply elem_of_map_to_list. by rewrite <- (merge_sort_Permutation file_key_le). }
  assert (l ≡ₚ base.filter (fun kc => fst (fst kc) = id) (map_to_list (job_files d))) as Hp by (apply filter_Permutation, merge_sort_Permutation).
  apply (StronglySorted_unique_strong index_le).
  - intros x y [[[i a] c] [-> Hx]]%list_elem_of_fmap Hy. rewrite merge_sort_Permutation, <- Hp in Hy. 
    apply list_elem_of_fmap in Hy as [[[j b] e] [-> Hy]]. apply Hl in Hx as [Hi Hx], Hy as [Hj Hy]. unfold index_le. simpl in *. intros ? ?.
    assert (a = b) as -> by lia. subst. congruence.
  - assert (StronglySorted file_key_le l) as Hs by (apply StronglySorted_filter, (StronglySorted_merge_sort file_key_le)).
    revert Hl Hs. clear. induction l as [|x l IH]; intros Hl Hs; simpl; [constructor|]. inversion Hs as [|? ? Hs' Hx]; subst. constructor.
    + apply IH; [|done]. intros y Hy. apply Hl. by right.
    + apply Forall_fmap, Forall_forall. intros y Hy. rewrite Forall_forall in Hx. destruct (Hx y Hy) as [_ H]. unfold index_le. simpl. apply H.
      destruct (Hl x) as [-> _]; [by left|]. destruct (Hl y) as [-> _]; [by right|done].
  - apply (StronglySorted_merge_sort index_le).
  - rewrite merge_sort_Permutation. by apply fmap_Permutation.
Qed.

Lemma rows_of_query d (id : string) (l : list (string * Z * file_cols)) :
  seedRowOf <$> (snd <$> base.filter (fun r => fst r = id) (seed_query_row d <$> l))
  = (fun kc => seedRowOf (snd (seed_query_row d kc))) <$> base.filter (fun kc => fst (fst kc) = id) l.
Proof.
  induction l as [|[[i x] c] l IH]; [done|]. rewrite fmap_cons, !filter_cons. simpl. case_decide; simpl; [by f_equal|done].
Qed.

(** the one read of every job's files at startup agrees with the per-job
    reads: a job whose stored values are in range is readable, and its seed is
    its file rows in order, each with the number of its written rows. *)
Theorem seed_rows_agree d id : cols_in_range d id ->
  let '(seeds, unreadable) := seed_rows_of (seed_query d) in
  unreadable !! id = None
  /\ default [] (seeds !! id) = seed_of d id <$> merge_sort index_le (file_row <$> base.filter (fun kc => fst (fst kc) = id) (map_to_list (job_files d))).
Proof.
  intros Hr. pose proof (damaged_row_isolated (seed_query d) id) as H. destruct (seed_rows_of (seed_query d)) as [seeds bad].
  rewrite <- files_in_order. unfold rows_of, seed_query in H. rewrite rows_of_query in H.
  rewrite (collect_ok _ (seed_of d id ∘ file_row)) in H.
  - rewrite list_fmap_compose in H. destruct (seed_of d id <$> _); simpl in H; destruct H as [-> ->]; done.
  - intros [[i x] c] [Hi Hx]%list_elem_of_filter. simpl in Hi. subst i. rewrite merge_sort_Permutation in Hx. apply elem_of_map_to_list in Hx.
    by apply seedRowOf_query.
Qed.

(** ** Admission *)

(** Seeding adds rows of files not complete, and touches no other. *)
Definition seeded_over (d d' : tables) : Prop :=
  written_articles d' = written_articles d
  /\ (forall k c, job_files d !! k = Some c -> job_files d' !! k = Some c)
  /\ (forall k c, job_files d' !! k = Some c -> job_files d !! k = Some c \/ c_complete c = 0).

Lemma insert_file_seeds id i f d : sat (insert_file id i (seed_cols f)) (fun _ d' => seeded_over d d' /\ is_Some (job_files d' !! (id, i))) d.
Proof.
  unfold insert_file. apply sat_call. destruct (cols_ok (seed_cols f)); [|done]. destruct (job_files d !! (id, i)) as [c0|] eqn:E.
  - split; [|by rewrite E; eexists]. split; [done|]. split; [done|]. by left.
  - split; [|simpl; rewrite lookup_insert_eq; by eexists]. split; [done|]. split; simpl.
    + intros k c H. rewrite lookup_insert_ne; [done|congruence].
    + intros k c H. destruct (decide (k = (id, i))) as [->|Hk]; [rewrite lookup_insert_eq in H; simplify_eq; by right|rewrite lookup_insert_ne in H by done; by left].
Qed.

Lemma seeded_over_trans d1 d2 d3 : seeded_over d1 d2 -> seeded_over d2 d3 -> seeded_over d1 d3.
Proof.
  intros (A1 & A2 & A3) (B1 & B2 & B3). split; [congruence|]. split; [eauto|]. intros k c H. destruct (B3 k c H) as [H'|H']; [by apply A3|by right].
Qed.

Lemma Admit_seeds id files d faults :
  match Admit id files (mkSession d faults) with
  | (Err _, s) => ss_db s = d
  | (Ok _, s) => seeded_over d (ss_db s) /\ forall i, (i < length files)%nat -> is_Some (job_files (ss_db s) !! (id, Z.of_nat i))
  end.
Proof.
  assert (forall l d, sat (each (fun '(i, f) => insert_file id (Z.of_nat i) (seed_cols f)) l)
            (fun _ d' => seeded_over d d' /\ forall i f, (i, f) ∈ l -> is_Some (job_files d' !! (id, Z.of_nat i))) d) as Hl.
  { clear. induction l as [|[i f] l IH]; intros d; simpl; [apply sat_ret; split; [by split; [|split; [|left]]|by intros i f ?%elem_of_nil]|].
    apply sat_bind. eapply sat_mono; [apply insert_file_seeds|]. intros u d1 [H1 H1']. eapply sat_mono; [apply IH|]. intros u' d2 [H2 H2'].
    split; [by eapply seeded_over_trans|]. intros i' f' [E|Hin]%elem_of_cons; [|by eapply H2']. simplify_eq. destruct H1' as [c Hc]. exists c. by apply H2. }
  pose proof (inTx_atomic (sql! _ <- sql_noop in each (fun '(i, f) => insert_file id (Z.of_nat i) (seed_cols f)) (imap pair files))
    (fun d' => seeded_over d d' /\ forall i, (i < length files)%nat -> is_Some (job_files d' !! (id, Z.of_nat i))) d faults) as H.
  unfold Admit. destruct (inTx _ _) as [[[]|e] s]; apply H; apply sat_bind, sat_exec; (eapply sat_mono; [apply Hl|]); intros u d' [H1 H2]; (split; [done|]);
    intros i [f Hf]%lookup_lt_is_Some; (apply (H2 i f)); apply list_elem_of_lookup; exists i; by rewrite list_lookup_imap, Hf.
Qed.

(** A job of two files with one written row, next to a job with a row whose
    count of articles is out of range. *)
Definition ex_tables : tables :=
  mkTables {[("a"%string, 1) := mkCols "g" 7 1 0 "" 2; ("a"%string, 0) := mkCols "f" 10 2 1 "f.bin" 0; ("z"%string, 0) := mkCols "h" 1 (2 ^ 31) 0 "" 0]}
           {[("a"%string, 0, 1) := (0, 5, 7)]} {["a"%string]} ∅.

Lemma seed_rows_agree_witness :
  let '(seeds, unreadable) := seed_rows_of (seed_query ex_tables) in
  (FileIndex ∘ s_row <$> default [] (seeds !! "a"%string)) = [0; 1] /\ unreadable !! "z"%string = Some (BadColumn "article_count")
  /\ unreadable !! "a"%string = None
  /\ default [] (seeds !! "a"%string)
     = seed_of ex_tables "a" <$> merge_sort index_le (file_row <$> base.filter (fun kc => fst (fst kc) = "a"%string) (map_to_list (job_files ex_tables))).
Proof.
  assert (cols_in_range ex_tables "a") as Hr.
  { intros fi c H. apply elem_of_map_to_list, list_elem_of_In in H. vm_compute in H. 
    destruct H as [H|[H|[H|[]]]]; inversion H; subst; vm_compute; intuition discriminate. }
  pose proof (seed_rows_agree ex_tables "a" Hr) as H. destruct (seed_rows_of (seed_query ex_tables)) as [seeds bad] eqn:E.
  split; [|split; [|exact H]]; vm_compute in E; injection E as <- <-; vm_compute; reflexivity.
Defined.
