(* ===== verification/Recorder.v ===== *)
(** * The recorder of download progress ([internal/app/record.go])

    The recorder buffers the rows of written articles and the states of
    changed files per job instance, and writes them to the store of
    [Durable] in one transaction per flush.  A failed fsync untrusts a file:
    its rows and its completion must go, now or with the next write.

    One definition per span that holds [mu]; [rstep] interleaves them with
    the holder of the writer lock [wmu], the assembler's worker, the
    dispatcher's map of current instances, and the other writers of the
    store.  Log lines are not carried. *)
From S2P Require Import Prelude Rows Durable.
From stdpp Require Import base numbers gmap sorting list strings.
From Stdlib Require Import ZArith Lia.
Local Open Scope Z_scope.

(** ** The buffers ([recorder], what [mu] guards)

    Instances are numbered; [owedSeq] counts untrusts and cannot reach 2^64. *)
Record recorder : Type := mkRec {
  pending : gmap nat (list WrittenRow);
  dirty : gmap nat (gmap Z FileState);
  owed : gmap nat (gmap Z nat);
  owedSeq : nat
}.

Definition newRecorder : recorder := mkRec ∅ ∅ ∅ 0.

Definition set_pending (m : gmap nat (list WrittenRow)) (r : recorder) : recorder := mkRec m (dirty r) (owed r) (owedSeq r).
Definition set_dirty (m : gmap nat (gmap Z FileState)) (r : recorder) : recorder := mkRec (pending r) m (owed r) (owedSeq r).
Definition set_owed (m : gmap nat (gmap Z nat)) (r : recorder) : recorder := mkRec (pending r) (dirty r) m (owedSeq r).

Definition at2 {V} (m : gmap nat (gmap Z V)) (j : nat) (fi : Z) : option V := m !! j ≫= fun o => o !! fi.
Definition rows_at (m : gmap nat (list WrittenRow)) (j : nat) : list WrittenRow := default [] (m !! j).
Definition map_at {V} (m : gmap nat (gmap Z V)) (j : nat) : gmap Z V := default ∅ (m !! j).

(** Writing back an entry that may have become empty. *)
Definition put_rows (j : nat) (l : list WrittenRow) (m : gmap nat (list WrittenRow)) : gmap nat (list WrittenRow) :=
  if bool_decide (l = []) then base.delete j m else <[j := l]> m.
Definition put_map {V} (j : nat) (o : gmap Z V) (m : gmap nat (gmap Z V)) : gmap nat (gmap Z V) :=
  match map_to_list o with
  | [] => base.delete j m
  | _ => <[j := o]> m
  end.

Definition untrustVerdict (fi : Z) : FileVerdict := mkVerdict fi true [] true false.

Definition with_idx (fi : Z) (st : FileState) : FileState := mkState fi (Complete st) (Filename st) (FetchPolicy st).
Definition set_done (b : bool) (st : FileState) : FileState := mkState (FileIdx st) b (Filename st) (FetchPolicy st).

(** [noteWritten]'s span of [mu]; the mark on the job is [Content]'s. *)
Definition noteWritten (j : nat) (row : WrittenRow) (r : recorder) : recorder :=
  set_pending (<[j := rows_at (pending r) j ++ [row]]> (pending r)) r.

Definition markDirty (j : nat) (fi : Z) (st : FileState) (r : recorder) : recorder :=
  set_dirty (<[j := <[fi := with_idx fi st]> (map_at (dirty r) j)]> (dirty r)) r.

(** [takeFetchPolicyChanges], what each job hands over given. *)
Definition takeFetchPolicyChanges (changes : list (nat * FileState)) (r : recorder) : recorder :=
  foldl (fun r js => markDirty (fst js) (FileIdx (snd js)) (snd js) r) r changes.

(** The jobs [liveInstances] lists under [mu]. *)
Definition listed (r : recorder) : gset nat := dom (pending r) ∪ dom (dirty r) ∪ dom (owed r).

(** ** The snapshot of a flush *)
Definition takeRowsLocked (live : gmap nat bool) (r : recorder) : gmap nat (list WrittenRow) * recorder :=
  (base.filter (fun kv => live !! fst kv = Some true) (pending r),
   set_pending (base.filter (fun kv => live !! fst kv = None) (pending r)) r).

Definition takeFilesLocked (live : gmap nat bool) (r : recorder) : gmap nat (gmap Z FileState) * recorder :=
  (base.filter (fun kv => live !! fst kv = Some true) (dirty r),
   set_dirty (base.filter (fun kv => live !! fst kv = None) (dirty r)) r).

Definition owedLocked (live : gmap nat bool) (r : recorder) : gmap nat (gmap Z nat) * recorder :=
  (base.filter (fun kv => live !! fst kv = Some true) (owed r),
   set_owed (base.filter (fun kv => live !! fst kv <> Some false) (owed r)) r).

(** ** Debts *)
Definition settleLocked (j : nat) (fi : Z) (seq : nat) (r : recorder) : recorder :=
  if bool_decide (at2 (owed r) j fi = Some seq) then set_owed (put_map j (base.delete fi (map_at (owed r) j)) (owed r)) r else r.

Definition triples (carried : gmap nat (gmap Z nat)) : list (nat * Z * nat) :=
  concat ((fun jo => (fun fs => (fst jo, fst fs, snd fs)) <$> map_to_list (snd jo)) <$> map_to_list carried).

Definition settle (carried : gmap nat (gmap Z nat)) (r : recorder) : recorder :=
  foldl (fun r t => settleLocked (fst (fst t)) (snd (fst t)) (snd t) r) r (triples carried).

Definition overrunLocked (r : recorder) (j : nat) (carried : gmap Z nat) (fi : Z) : bool :=
  match at2 (owed r) j fi with
  | Some cur => bool_decide (default O (carried !! fi) < cur)%nat
  | None => false
  end.

(** A failed snapshot put back: its rows in front, its states where there is
    no newer one, nothing of a file untrusted since. *)
Definition remerge_rows (carried : gmap nat (gmap Z nat)) (r : recorder) (jr : nat * list WrittenRow) : recorder :=
  let '(j, rs) := jr in
  let kept := base.filter (fun row => overrunLocked r j (map_at carried j) (r_file row) = false) rs in
  if bool_decide (kept = []) then r else set_pending (<[j := kept ++ rows_at (pending r) j]> (pending r)) r.

Definition remerge_files (carried : gmap nat (gmap Z nat)) (r : recorder) (jf : nat * gmap Z FileState) : recorder :=
  let '(j, fs) := jf in
  let back := base.filter (fun kv => overrunLocked r j (map_at carried j) (fst kv) = false) fs in
  match map_to_list back with
  | [] => r
  | _ => set_dirty (<[j := map_at (dirty r) j ∪ back]> (dirty r)) r
  end.

Definition remerge (rows : gmap nat (list WrittenRow)) (files : gmap nat (gmap Z FileState)) (carried : gmap nat (gmap Z nat)) (r : recorder) : recorder :=
  let r := foldl (remerge_rows carried) r (map_to_list rows) in
  foldl (remerge_files carried) r (map_to_list files).

(** ** Verdicts *)
Definition purge_pending (j : nat) (fv : FileVerdict) (r : recorder) : recorder :=
  if DeleteAll fv || negb (bool_decide (DeleteArtIdxs fv = [])) then
    let kept := base.filter (fun row => ~ (r_file row = v_file fv /\ (DeleteAll fv = true \/ r_art row ∈ DeleteArtIdxs fv))) (rows_at (pending r) j) in
    set_pending (put_rows j kept (pending r)) r
  else r.

Definition purge_dirty (j : nat) (fv : FileVerdict) (r : recorder) : recorder :=
  let m := map_at (dirty r) j in
  let m' := if DeleteAll fv then base.delete (v_file fv) m
            else match m !! v_file fv with
                 | Some st => if SetComplete fv || ClearComplete fv then <[v_file fv := set_done (SetComplete fv) st]> m else m
                 | None => m
                 end in
  set_dirty (put_map j m' (dirty r)) r.

Definition purgeLocked (j : nat) (fv : FileVerdict) (r : recorder) : recorder := purge_dirty j fv (purge_pending j fv r).

(** [apply]'s span of [mu]. *)
Definition apply_purge (j : nat) (v : list FileVerdict) (files : list FileState) (r : recorder) : recorder :=
  let r := foldl (fun r fv => purgeLocked j fv r) r v in
  match dirty r !! j with
  | None => r
  | Some m => set_dirty (put_map j (foldl (fun m f => base.delete (FileIdx f) m) m files) (dirty r)) r
  end.

(** [untrust]'s first span: the purge and the debt. *)
Definition untrust_owe (j : nat) (fi : Z) (r : recorder) : nat * recorder :=
  let r := purgeLocked j (untrustVerdict fi) r in
  let seq := S (owedSeq r) in
  (seq, mkRec (pending r) (dirty r) (<[j := <[fi := seq]> (map_at (owed r) j)]> (owed r)) seq).

(** ** Batches *)
Section batches.
(** [Job.ID] of an instance. *)
Variable id_of : nat -> string.

Definition owed_verdicts (files : gmap Z FileState) (o : gmap Z nat) : list FileVerdict :=
  (fun fi => let v := untrustVerdict fi in
             match files !! fi with
             | Some _ => mkVerdict fi (DeleteAll v) (DeleteArtIdxs v) false (SetComplete v)
             | None => v
             end) <$> merge_sort Z.le ((map_to_list o).*1).

Definition batchOf (rows : gmap nat (list WrittenRow)) (files : gmap nat (gmap Z FileState)) (o : gmap nat (gmap Z nat)) (j : nat) : RecordBatch :=
  mkBatch (id_of j) (rows_at rows j) ((map_to_list (map_at files j)).*2) (owed_verdicts (map_at files j) (map_at o j)).

(** The jobs of a snapshot; Go's map order is an argument. *)
Definition in_snapshot (rows : gmap nat (list WrittenRow)) (files : gmap nat (gmap Z FileState)) (o : gmap nat (gmap Z nat)) : gset nat :=
  dom rows ∪ dom files ∪ dom o.

(** ** The interleavings *)

(** Who holds [wmu], and how far it is. *)
Inductive phase : Type :=
| Idle
| FlushLocked
| FlushAsking (jobs : gset nat) (live : gmap nat bool)
| FlushTaken (rows : gmap nat (list WrittenRow)) (files : gmap nat (gmap Z FileState)) (carried : gmap nat (gmap Z nat))
| FlushFailed (rows : gmap nat (list WrittenRow)) (files : gmap nat (gmap Z FileState)) (carried : gmap nat (gmap Z nat))
| FlushWritten (carried : gmap nat (gmap Z nat))
| Untrusting (j : nat) (fi : Z) (seq : nat)
| Untrusted (j : nat) (fi : Z) (seq : nat)
| Applying (j : nat) (v : list FileVerdict) (files : list FileState).

(** What a table can say of a file: a written article, or completion. *)
Inductive filefact : Type := FRow (r : WrittenRow) | FDone.

(** The program, and what an observer remembers of it: [noted], the facts
    noted of a file since it was last untrusted; [latest], the last row noted
    for an article since then and not deleted by a verdict; [dropped], the
    instances a flush found replaced or gone; [unrecorded], those whose rows
    the store refused, because the job was not admitted, or reclaimed. *)
Record sys : Type := mkSys {
  rc : recorder;
  db : tables;
  wmu : phase;
  asm : option (nat * Z * nat);       (* the untrust the assembler's worker is in *)
  current : gmap string nat;
  noted : nat -> Z -> filefact -> Prop;
  latest : nat -> Z -> Z -> option WrittenRow;
  dropped : nat -> Prop;
  unrecorded : nat -> Prop
}.

Definition upd_rc (r : recorder) (s : sys) : sys := mkSys r (db s) (wmu s) (asm s) (current s) (noted s) (latest s) (dropped s) (unrecorded s).
Definition upd_db (d : tables) (s : sys) : sys := mkSys (rc s) d (wmu s) (asm s) (current s) (noted s) (latest s) (dropped s) (unrecorded s).
Definition upd_wmu (w : phase) (s : sys) : sys := mkSys (rc s) (db s) w (asm s) (current s) (noted s) (latest s) (dropped s) (unrecorded s).
Definition upd_asm (a : option (nat * Z * nat)) (s : sys) : sys := mkSys (rc s) (db s) (wmu s) a (current s) (noted s) (latest s) (dropped s) (unrecorded s).
Definition upd_current (c : gmap string nat) (s : sys) : sys := mkSys (rc s) (db s) (wmu s) (asm s) c (noted s) (latest s) (dropped s) (unrecorded s).
Definition upd_noted (f : nat -> Z -> filefact -> Prop) (s : sys) : sys := mkSys (rc s) (db s) (wmu s) (asm s) (current s) f (latest s) (dropped s) (unrecorded s).
Definition upd_latest (l : nat -> Z -> Z -> option WrittenRow) (s : sys) : sys := mkSys (rc s) (db s) (wmu s) (asm s) (current s) (noted s) l (dropped s) (unrecorded s).
Definition upd_dropped (p : nat -> Prop) (s : sys) : sys := mkSys (rc s) (db s) (wmu s) (asm s) (current s) (noted s) (latest s) p (unrecorded s).
Definition upd_unrecorded (p : nat -> Prop) (s : sys) : sys := mkSys (rc s) (db s) (wmu s) (asm s) (current s) (noted s) (latest s) (dropped s) p.

(** The observer's notes. *)
Definition add_fact (j : nat) (fi : Z) (f : filefact) (s : sys) : sys :=
  upd_noted (fun j' fi' f' => noted s j' fi' f' \/ (j' = j /\ fi' = fi /\ f' = f)) s.
Definition add_latest (j : nat) (row : WrittenRow) (s : sys) : sys :=
  upd_latest (fun j' fi a => if bool_decide (j' = j /\ fi = r_file row /\ a = r_art row) then Some row else latest s j' fi a) s.
Definition forget (j : nat) (fi : Z) (s : sys) : sys :=
  upd_latest (fun j' fi' a => if bool_decide (j' = j /\ fi' = fi) then None else latest s j' fi' a)
    (upd_noted (fun j' fi' f => noted s j' fi' f /\ ~ (j' = j /\ fi' = fi)) s).

Definition note_apply (j : nat) (v : list FileVerdict) (files : list FileState) (s : sys) : sys :=
  upd_latest (fun j' fi a => if bool_decide (j' = j) && existsb (fun fv => names fv fi a) v then None else latest s j' fi a)
    (upd_noted (fun j' fi f => noted s j' fi f
       \/ (j' = j /\ f = FDone /\ ((exists st, st ∈ files /\ FileIdx st = fi /\ Complete st = true)
                                  \/ (exists fv, fv ∈ v /\ v_file fv = fi /\ SetComplete fv = true)))) s).

Definition untrust_batch (j : nat) (fi : Z) : RecordBatch := mkBatch (id_of j) [] [] [untrustVerdict fi].

(** One step of the program. *)
Inductive rstep : sys -> sys -> Prop :=
| SNote j row s : asm s = None ->
    rstep s (add_latest j row (add_fact j (r_file row) (FRow row) (upd_rc (noteWritten j row (rc s)) s)))
| SDirty j fi st s :
    rstep s (let s' := upd_rc (markDirty j fi st (rc s)) s in if Complete st then add_fact j fi FDone s' else s')
| SUntrust j fi s : asm s = None ->
    rstep s (let '(seq, r) := untrust_owe j fi (rc s) in forget j fi (upd_asm (Some (j, fi, seq)) (upd_rc r s)))
| SUntrustGiveUp s : (forall j fi seq, wmu s <> Untrusting j fi seq /\ wmu s <> Untrusted j fi seq) ->
    rstep s (upd_asm None s)
| SUntrustLock j fi seq s : asm s = Some (j, fi, seq) -> wmu s = Idle -> rstep s (upd_wmu (Untrusting j fi seq) s)
| SUntrustWrite j fi seq faults s : wmu s = Untrusting j fi seq ->
    rstep s (match ApplyRecord [untrust_batch j fi] (mkSession (db s) faults) with
             | (Ok _, ss) => upd_wmu (Untrusted j fi seq) (upd_db (ss_db ss) s)
             | (Err _, ss) => upd_asm None (upd_wmu Idle (upd_db (ss_db ss) s))
             end)
| SUntrustSettle j fi seq s : wmu s = Untrusted j fi seq ->
    rstep s (upd_asm None (upd_wmu Idle (upd_rc (settleLocked j fi seq (rc s)) s)))
| SFlushLock s : wmu s = Idle -> rstep s (upd_wmu FlushLocked s)
| SFlushList s : wmu s = FlushLocked -> rstep s (upd_wmu (FlushAsking (listed (rc s)) ∅) s)
| SFlushAsk jobs live j s : wmu s = FlushAsking jobs live -> j ∈ jobs -> live !! j = None ->
    rstep s (upd_wmu (FlushAsking jobs (<[j := bool_decide (current s !! id_of j = Some j)]> live)) s)
| SFlushTake jobs live s : wmu s = FlushAsking jobs live -> dom live = jobs ->
    rstep s (let '(rows, r) := takeRowsLocked live (rc s) in
             let '(files, r) := takeFilesLocked live r in
             let '(o, r) := owedLocked live r in
             upd_dropped (fun j => dropped s j \/ live !! j = Some false) (upd_wmu (FlushTaken rows files o) (upd_rc r s)))
| SFlushWrite rows files o order faults s : wmu s = FlushTaken rows files o ->
    NoDup order -> (forall j, j ∈ order <-> j ∈ in_snapshot rows files o) ->
    rstep s (match ApplyRecord (batchOf rows files o <$> order) (mkSession (db s) faults) with
             | (Ok _, ss) => upd_unrecorded (fun j => unrecorded s j \/ (j ∈ order /\ has_files (id_of j) (db s) = false))
                               (upd_wmu (FlushWritten o) (upd_db (ss_db ss) s))
             | (Err _, ss) => upd_wmu (FlushFailed rows files o) (upd_db (ss_db ss) s)
             end)
| SFlushRemerge rows files o s : wmu s = FlushFailed rows files o -> rstep s (upd_wmu Idle (upd_rc (remerge rows files o (rc s)) s))
| SFlushSettle o s : wmu s = FlushWritten o -> rstep s (upd_wmu Idle (upd_rc (settle o (rc s)) s))
| SApply j v files s : wmu s = Idle ->
    rstep s (note_apply j v files (upd_wmu (Applying j v files) (upd_rc (apply_purge j v files (rc s)) s)))
| SApplyWrite j v files faults s : wmu s = Applying j v files ->
    rstep s (upd_wmu Idle (upd_db (ss_db (snd (ApplyRecord [mkBatch (id_of j) [] files v] (mkSession (db s) faults)))) s))
| SCurrent c s : rstep s (upd_current c s)
| SAdmit id files faults s : rstep s (upd_db (ss_db (snd (Admit id files (mkSession (db s) faults)))) s)
| SReclaim id more faults s :
    rstep s (upd_unrecorded (fun j => unrecorded s j \/ (id_of j ∈ id :: more /\ id_of j ∉ dispatch_jobs (db s)))
               (upd_db (ss_db (snd (Reclaim id more (mkSession (db s) faults)))) s))
| SReach d s : job_files d = job_files (db s) -> written_articles d = written_articles (db s) -> rstep s (upd_db d s).

(** The facts a table states of a file. *)
Definition db_fact (d : tables) (id : string) (fi : Z) (f : filefact) : Prop :=
  match f with
  | FRow r => r_file r = fi /\ written_articles d !! (id, fi, r_art r) = Some (r_off r, r_len r, r_crc r)
  | FDone => exists c, job_files d !! (id, fi) = Some c /\ c_complete c <> 0
  end.

(** At the start nothing is buffered, and what the tables hold counts as
    noted: a restart has verified it or fetches it again. *)
Definition rec_init (d : tables) : sys :=
  mkSys newRecorder d Idle None ∅ (fun j fi f => db_fact d (id_of j) fi f)
    (fun j fi a => match written_articles d !! (id_of j, fi, a) with Some (off, len, crc) => Some (mkRow fi a off len crc) | None => None end)
    (fun _ => False) (fun _ => False).

Definition rec_reachable (d : tables) : sys -> Prop := rtc rstep (rec_init d).
End batches.
