(* ===== verification/RecorderProps.v ===== *)
(** * What the recorder promises

    A row or a completion noted before a file was untrusted is in the store
    only while its deletion is owed, and what was noted since is never lost,
    under every interleaving and every failure of the store. *)
From S2P Require Import Prelude Rows Durable DurableProps Recorder.
From stdpp Require Import base numbers gmap sorting list strings.
From Stdlib Require Import ZArith Lia.
Local Open Scope Z_scope.

(** ** The buffers, entry by entry *)
Lemma rows_at_insert m j l j' : rows_at (<[j := l]> m) j' = if bool_decide (j' = j) then l else rows_at m j'.
Proof. unfold rows_at. case_bool_decide; subst; [by rewrite lookup_insert_eq|by rewrite lookup_insert_ne]. Qed.

Lemma rows_at_put m j l j' : rows_at (put_rows j l m) j' = if bool_decide (j' = j) then l else rows_at m j'.
Proof.
  unfold put_rows. case_bool_decide as H; [|apply rows_at_insert]. unfold rows_at.
  case_bool_decide; subst; [by rewrite lookup_delete_eq|by rewrite lookup_delete_ne].
Qed.

Lemma map_at_insert {V} (m : gmap nat (gmap Z V)) j o j' : map_at (<[j := o]> m) j' = if bool_decide (j' = j) then o else map_at m j'.
Proof. unfold map_at. case_bool_decide; subst; [by rewrite lookup_insert_eq|by rewrite lookup_insert_ne]. Qed.

Lemma map_at_put {V} (m : gmap nat (gmap Z V)) j o j' : map_at (put_map j o m) j' = if bool_decide (j' = j) then o else map_at m j'.
Proof.
  unfold put_map. destruct (map_to_list o) eqn:E; [|apply map_at_insert]. apply map_to_list_empty_iff in E as ->. unfold map_at.
  case_bool_decide; subst; [by rewrite lookup_delete_eq|by rewrite lookup_delete_ne].
Qed.

Lemma at2_map_at {V} (m : gmap nat (gmap Z V)) j fi : at2 m j fi = map_at m j !! fi.
Proof. unfold at2, map_at. by destruct (m !! j). Qed.

Lemma rows_at_filter (Q : nat * list WrittenRow -> Prop) `{!forall x, Decision (Q x)} m j (b : bool) :
  (forall l, Q (j, l) <-> b = true) -> rows_at (base.filter Q m) j = if b then rows_at m j else [].
Proof.
  intros Hb. unfold rows_at. destruct (base.filter _ m !! j) eqn:E.
  - apply map_lookup_filter_Some in E as [E Hj]. apply Hb in Hj. by rewrite E, Hj.
  - apply map_lookup_filter_None in E as [E|E]; [rewrite E; by destruct b|].
    destruct b; [|done]. destruct (m !! j) eqn:Em; [|done]. destruct (E _ eq_refl). by apply Hb.
Qed.

Lemma map_at_filter {V} (Q : nat * gmap Z V -> Prop) `{!forall x, Decision (Q x)} (m : gmap nat (gmap Z V)) j (b : bool) :
  (forall o, Q (j, o) <-> b = true) -> map_at (base.filter Q m) j = if b then map_at m j else ∅.
Proof.
  intros Hb. unfold map_at. destruct (base.filter _ m !! j) eqn:E.
  - apply map_lookup_filter_Some in E as [E Hj]. apply Hb in Hj. by rewrite E, Hj.
  - apply map_lookup_filter_None in E as [E|E]; [rewrite E; by destruct b|].
    destruct b; [|done]. destruct (m !! j) eqn:Em; [|done]. destruct (E _ eq_refl). by apply Hb.
Qed.

(** ** What each span does to one instance *)

(** The rows and states of an instance, and its debts. *)
Notation P r j := (rows_at (pending r) j).
Notation D r j := (map_at (dirty r) j).
Notation O_ r j := (map_at (owed r) j).

Lemma filter_keeps_all {A} (Q : A -> Prop) `{!forall x, Decision (Q x)} l : Forall Q l -> base.filter Q l = l.
Proof. induction 1 as [|x l Hx _ IH]; [done|]. by rewrite filter_cons_True, IH. Qed.

Lemma purge_pending_at j fv r j' : P (purgeLocked j fv r) j' = if bool_decide (j' = j) then base.filter (fun row => names fv (r_file row) (r_art row) = false) (P r j') else P r j'.
Proof.
  unfold purgeLocked, purge_dirty, purge_pending. simpl.
  destruct (DeleteAll fv || negb (bool_decide (DeleteArtIdxs fv = []))) eqn:E; simpl.
  - clear E. rewrite rows_at_put. destruct (bool_decide_reflect (j' = j)); [|done]. subst. apply list_filter_iff. intros row. unfold names.
    destruct (DeleteAll fv); repeat case_bool_decide; simpl; naive_solver.
  - apply orb_false_iff in E as [E1 E2]. apply negb_false_iff, bool_decide_eq_true in E2. case_bool_decide; [|done]. unfold names. rewrite E1, E2.
    symmetry. apply filter_keeps_all. apply Forall_forall. intros row _. rewrite (bool_decide_eq_false_2 (_ ∈ [])) by (by intros ?%elem_of_nil). simpl. by rewrite andb_false_r.
Qed.

Lemma purge_dirty_at j fv r j' : j' <> j -> D (purgeLocked j fv r) j' = D r j'.
Proof.
  intros Hj. unfold purgeLocked, purge_dirty. simpl. rewrite map_at_put, bool_decide_eq_false_2 by done.
  unfold purge_pending. by destruct (DeleteAll fv || _).
Qed.

Lemma purge_dirty_same j fv r fi :
  D (purgeLocked j fv r) j !! fi =
  (if bool_decide (fi = v_file fv) then
     if DeleteAll fv then None
     else (fun st => if SetComplete fv || ClearComplete fv then set_done (SetComplete fv) st else st) <$> D r j !! fi
   else D r j !! fi).
Proof.
  unfold purgeLocked, purge_dirty. simpl. rewrite map_at_put, bool_decide_eq_true_2 by done.
  assert (D (purge_pending j fv r) j = D r j) as -> by (unfold purge_pending; by destruct (DeleteAll fv || _)).
  destruct (DeleteAll fv); [case_bool_decide; subst; [by rewrite lookup_delete_eq|by rewrite lookup_delete_ne]|].
  destruct (D r j !! v_file fv) as [st|] eqn:E; [|case_bool_decide; subst; [by rewrite E|done]].
  destruct (SetComplete fv || ClearComplete fv) eqn:Es.
  - case_bool_decide; subst; [by rewrite lookup_insert_eq, E|by rewrite lookup_insert_ne].
  - case_bool_decide; subst; [by rewrite E|done].
Qed.

Lemma purge_owed j fv r : owed (purgeLocked j fv r) = owed r /\ owedSeq (purgeLocked j fv r) = owedSeq r.
Proof. unfold purgeLocked, purge_dirty, purge_pending. simpl. by destruct (DeleteAll fv || _). Qed.

Lemma purges_pending j v r j' :
  P (foldl (fun r fv => purgeLocked j fv r) r v) j'
  = if bool_decide (j' = j) then base.filter (fun row => existsb (fun fv => names fv (r_file row) (r_art row)) v = false) (P r j') else P r j'.
Proof.
  revert r. induction v as [|fv v IH]; intros r; simpl.
  - case_bool_decide; [|done]. symmetry. apply filter_keeps_all, Forall_forall. done.
  - rewrite IH, purge_pending_at. case_bool_decide; [|done]. rewrite list_filter_filter. apply list_filter_iff. intros row.
    rewrite orb_false_iff. tauto.
Qed.

Lemma purges_owed j v r : owed (foldl (fun r fv => purgeLocked j fv r) r v) = owed r /\ owedSeq (foldl (fun r fv => purgeLocked j fv r) r v) = owedSeq r.
Proof. revert r. induction v as [|fv v IH]; intros r; simpl; [done|]. destruct (IH (purgeLocked j fv r)) as [-> ->]. apply purge_owed. Qed.

Lemma purges_dirty_ne j v r j' : j' <> j -> D (foldl (fun r fv => purgeLocked j fv r) r v) j' = D r j'.
Proof. intros Hj. revert r. induction v as [|fv v IH]; intros r; simpl; [done|]. by rewrite IH, purge_dirty_at. Qed.

(** A state that survives the purge keeps its index, and is complete only if
    it was or a verdict says so. *)
Definition outlives (v : list FileVerdict) (fi : Z) (st st' : FileState) : Prop :=
  FileIdx st' = FileIdx st /\ (Complete st' = true -> Complete st = true \/ exists fv, fv ∈ v /\ v_file fv = fi /\ SetComplete fv = true).

Lemma purges_dirty_same j v r fi st' : D (foldl (fun r fv => purgeLocked j fv r) r v) j !! fi = Some st' ->
  exists st, D r j !! fi = Some st /\ outlives v fi st st'.
Proof.
  revert r. induction v as [|fv v IH]; intros r H; simpl in H; [exists st'; split; [done|split; [done|by left]]|].
  apply IH in H as (st1 & H1 & Hi & Hc). rewrite purge_dirty_same in H1.
  assert (forall st, D r j !! fi = Some st -> FileIdx st1 = FileIdx st -> (Complete st1 = true -> Complete st = true \/ exists fv', fv' ∈ fv :: v /\ v_file fv' = fi /\ SetComplete fv' = true) ->
    exists st, D r j !! fi = Some st /\ outlives (fv :: v) fi st st') as Hmk.
  { intros st E1 E2 E3. exists st. split; [done|]. split; [congruence|]. intros Hs. destruct (Hc Hs) as [Hs1|(fv' & A & B & C)]; [auto|].
    right. exists fv'. split; [by right|done]. }
  case_bool_decide as Hfi; [|apply (Hmk st1); auto]. destruct (DeleteAll fv); [done|]. apply fmap_Some in H1 as (st & E1 & E2).
  destruct (SetComplete fv || ClearComplete fv); subst st1; (apply (Hmk st); [done|done|]); simpl; [|auto].
  intros Hs. right. exists fv. split; [by left|done].
Qed.

Lemma drop_files_at fs m fi : (foldl (fun m f => base.delete (FileIdx f) m) m fs : gmap Z FileState) !! fi = if existsb (fun f => bool_decide (FileIdx f = fi)) fs then None else m !! fi.
Proof.
  revert m. induction fs as [|f fs IH]; intros m; simpl; [done|]. rewrite IH. case_bool_decide as H; simpl.
  - subst. rewrite lookup_delete_eq. by destruct (existsb _ fs).
  - by rewrite lookup_delete_ne.
Qed.

Lemma apply_purge_at j v files r :
  (forall j', P (apply_purge j v files r) j' = if bool_decide (j' = j) then base.filter (fun row => existsb (fun fv => names fv (r_file row) (r_art row)) v = false) (P r j') else P r j')
  /\ owed (apply_purge j v files r) = owed r /\ owedSeq (apply_purge j v files r) = owedSeq r
  /\ (forall j' fi st', D (apply_purge j v files r) j' !! fi = Some st' -> exists st, D r j' !! fi = Some st /\ (j' = j \/ st' = st) /\ outlives v fi st st').
Proof.
  unfold apply_purge. set (r1 := foldl _ r v).
  assert (forall r2, pending r2 = pending r1 -> owed r2 = owed r1 -> owedSeq r2 = owedSeq r1 ->
    (forall j' fi st', D r2 j' !! fi = Some st' -> D r1 j' !! fi = Some st') ->
    (forall j', P r2 j' = if bool_decide (j' = j) then base.filter (fun row => existsb (fun fv => names fv (r_file row) (r_art row)) v = false) (P r j') else P r j')
    /\ owed r2 = owed r /\ owedSeq r2 = owedSeq r
    /\ (forall j' fi st', D r2 j' !! fi = Some st' -> exists st, D r j' !! fi = Some st /\ (j' = j \/ st' = st) /\ outlives v fi st st')) as Hmk.
  { intros r2 E1 E2 E3 E4. rewrite E1, E2, E3. destruct (purges_owed j v r) as [H1 H2]. split; [intros; apply purges_pending|]. split; [done|]. split; [done|].
    intros j' fi st' H. apply E4 in H. destruct (decide (j' = j)) as [->|Hj].
    - apply purges_dirty_same in H as (st & A & B). exists st. eauto.
    - unfold r1 in H. rewrite purges_dirty_ne in H by done. exists st'. split; [done|]. split; [by right|]. split; [done|by left]. }
  destruct (dirty r1 !! j) as [m|] eqn:E; [|by apply Hmk]. apply Hmk; try done.
  intros j' fi st' H. simpl in H. rewrite map_at_put in H. case_bool_decide as Hj; [|done]. subst. rewrite drop_files_at in H.
  destruct (existsb _ files); [done|]. unfold map_at. by rewrite E.
Qed.

Lemma untrust_owe_at j fi r : let '(seq, r') := untrust_owe j fi r in
  seq = S (owedSeq r) /\ owedSeq r' = seq
  /\ (forall j', P r' j' = if bool_decide (j' = j) then base.filter (fun row => r_file row <> fi) (P r j') else P r j')
  /\ (forall j' fi', D r' j' !! fi' = if bool_decide (j' = j /\ fi' = fi) then None else D r j' !! fi')
  /\ (forall j' fi', O_ r' j' !! fi' = if bool_decide (j' = j /\ fi' = fi) then Some seq else O_ r j' !! fi').
Proof.
  unfold untrust_owe. destruct (purge_owed j (untrustVerdict fi) r) as [H1 H2].
  pose proof (purge_pending_at j (untrustVerdict fi) r) as HP. pose proof (purge_dirty_at j (untrustVerdict fi) r) as HD.
  pose proof (purge_dirty_same j (untrustVerdict fi) r) as HDs. revert H1 H2 HP HD HDs.
  generalize (purgeLocked j (untrustVerdict fi) r) as r1. intros r1 H1 H2 HP HD HDs. simpl. rewrite H2. split; [done|]. split; [done|]. split; [|split].
  - intros j'. rewrite HP. case_bool_decide; [|done]. apply list_filter_iff.
    intros row. unfold names. simpl. rewrite andb_true_r, bool_decide_eq_false. naive_solver.
  - intros j' fi'. destruct (decide (j' = j)) as [->|Hj].
    + rewrite HDs. simpl. repeat case_bool_decide; naive_solver.
    + rewrite HD by done. case_bool_decide; naive_solver.
  - intros j' fi'. rewrite H1, map_at_insert. repeat case_bool_decide; destruct_and?; subst; try tauto.
    + by rewrite lookup_insert_eq.
    + rewrite lookup_insert_ne; [done|naive_solver].
Qed.

(** ** Debts *)
Lemma settleLocked_at j fi seq r :
  pending (settleLocked j fi seq r) = pending r /\ dirty (settleLocked j fi seq r) = dirty r /\ owedSeq (settleLocked j fi seq r) = owedSeq r
  /\ forall j' fi', O_ (settleLocked j fi seq r) j' !! fi' = if bool_decide (j' = j /\ fi' = fi /\ O_ r j' !! fi' = Some seq) then None else O_ r j' !! fi'.
Proof.
  unfold settleLocked. rewrite at2_map_at. case_bool_decide as H; (split; [done|]; split; [done|]; split; [done|]); intros j' fi'; simpl.
  - rewrite map_at_put. repeat case_bool_decide; destruct_and?; subst; try tauto.
    + by rewrite lookup_delete_eq.
    + rewrite lookup_delete_ne; [done|naive_solver].
  - case_bool_decide; naive_solver.
Qed.

Lemma elem_triples carried j fi seq : (j, fi, seq) ∈ triples carried <-> map_at carried j !! fi = Some seq.
Proof.
  unfold triples, map_at. rewrite list_elem_of_In, in_concat. setoid_rewrite <- list_elem_of_In. setoid_rewrite list_elem_of_fmap. split.
  - intros (l & ([j' o] & -> & Ho) & H). apply list_elem_of_fmap in H as ([f s] & E & H). simpl in *. simplify_eq.
    apply elem_of_map_to_list in Ho, H. by rewrite Ho.
  - intros H. destruct (carried !! j) as [o|] eqn:E; [|done]. simpl in H. eexists. split; [exists (j, o); split; [done|by apply elem_of_map_to_list]|].
    apply list_elem_of_fmap. exists (fi, seq). split; [done|]. by apply elem_of_map_to_list.
Qed.

Lemma settle_at carried r :
  pending (settle carried r) = pending r /\ dirty (settle carried r) = dirty r /\ owedSeq (settle carried r) = owedSeq r
  /\ forall j fi cur, O_ (settle carried r) j !! fi = Some cur <-> O_ r j !! fi = Some cur /\ map_at carried j !! fi <> Some cur.
Proof.
  assert (forall l r, let r' := foldl (fun r t => settleLocked (fst (fst t)) (snd (fst t)) (snd t) r) r l in
    pending r' = pending r /\ dirty r' = dirty r /\ owedSeq r' = owedSeq r
    /\ forall j fi cur, O_ r' j !! fi = Some cur <-> O_ r j !! fi = Some cur /\ (j, fi, cur) ∉ l) as H.
  { clear. induction l as [|[[j fi] seq] l IH]; intros r; simpl; [split; [done|]; split; [done|]; split; [done|]; intros; by rewrite elem_of_nil; tauto|].
    destruct (IH (settleLocked j fi seq r)) as (-> & -> & -> & H), (settleLocked_at j fi seq r) as (-> & -> & -> & Hs).
    split; [done|]. split; [done|]. split; [done|]. intros j' fi' cur. rewrite H, Hs, elem_of_cons. case_bool_decide as Hc.
    - destruct Hc as (-> & -> & Hc). rewrite Hc. split; [intros [? _]; done|]. intros [E Hn]. simplify_eq. destruct Hn. by left.
    - split; intros [E Hn]; (split; [done|]); [|tauto]. intros [E'|E']; [|done]. simplify_eq. by destruct Hc. }
  destruct (H (triples carried) r) as (H1 & H2 & H3 & H4). split; [exact H1|]. split; [exact H2|]. split; [exact H3|].
  intros j fi cur. rewrite (H4 j fi cur), elem_triples. done.
Qed.

(** ** Putting a failed snapshot back *)
Lemma overrun_owed r r' j c fi : owed r' = owed r -> overrunLocked r' j c fi = overrunLocked r j c fi.
Proof. intros H. unfold overrunLocked. by rewrite H. Qed.

Lemma remerge_rows_at carried r j rs :
  owed (remerge_rows carried r (j, rs)) = owed r /\ dirty (remerge_rows carried r (j, rs)) = dirty r /\ owedSeq (remerge_rows carried r (j, rs)) = owedSeq r
  /\ forall j', P (remerge_rows carried r (j, rs)) j'
       = if bool_decide (j' = j) then base.filter (fun row => overrunLocked r j (map_at carried j) (r_file row) = false) rs ++ P r j' else P r j'.
Proof.
  unfold remerge_rows. case_bool_decide as H; (split; [done|]; split; [done|]; split; [done|]); intros j'; simpl.
  - rewrite H. by case_bool_decide.
  - rewrite rows_at_insert. case_bool_decide; by subst.
Qed.

Lemma remerge_files_at carried r j fs :
  owed (remerge_files carried r (j, fs)) = owed r /\ pending (remerge_files carried r (j, fs)) = pending r /\ owedSeq (remerge_files carried r (j, fs)) = owedSeq r
  /\ forall j' fi st, D (remerge_files carried r (j, fs)) j' !! fi = Some st ->
       D r j' !! fi = Some st \/ (j' = j /\ fs !! fi = Some st /\ overrunLocked r j (map_at carried j) fi = false).
Proof.
  unfold remerge_files. destruct (map_to_list _) eqn:E; (split; [done|]; split; [done|]; split; [done|]); intros j' fi st; simpl; [by left|].
  rewrite map_at_insert. case_bool_decide; [|by left]. subst. intros [H|[_ H]]%lookup_union_Some_raw; [by left|].
  apply map_lookup_filter_Some in H as [H1 H2]. by right.
Qed.

Lemma remerge_at rows files carried r :
  owed (remerge rows files carried r) = owed r /\ owedSeq (remerge rows files carried r) = owedSeq r
  /\ (forall j, P (remerge rows files carried r) j = base.filter (fun row => overrunLocked r j (map_at carried j) (r_file row) = false) (rows_at rows j) ++ P r j)
  /\ (forall j fi st, D (remerge rows files carried r) j !! fi = Some st ->
        D r j !! fi = Some st \/ (map_at files j !! fi = Some st /\ overrunLocked r j (map_at carried j) fi = false)).
Proof.
  unfold remerge.
  assert (forall l r, NoDup (l.*1) -> let r' := foldl (remerge_rows carried) r l in
    owed r' = owed r /\ dirty r' = dirty r /\ owedSeq r' = owedSeq r
    /\ (forall j rs, (j, rs) ∈ l -> P r' j = base.filter (fun row => overrunLocked r j (map_at carried j) (r_file row) = false) rs ++ P r j)
    /\ (forall j, j ∉ l.*1 -> P r' j = P r j)) as Hrows.
  { clear. induction l as [|[j rs] l IH]; intros r Hnd; cbn [foldl]; [split; [done|]; split; [done|]; split; [done|]; split; [intros j rs ?%elem_of_nil; done|done]|].
    rewrite fmap_cons in *. simpl in Hnd. apply NoDup_cons in Hnd as [Hj Hnd]. destruct (IH (remerge_rows carried r (j, rs)) Hnd) as (-> & -> & -> & H1 & H2).
    destruct (remerge_rows_at carried r j rs) as (Ho & -> & -> & Hp). rewrite Ho. split; [done|]. split; [done|]. split; [done|]. split.
    - intros j' rs' [E|Hin]%elem_of_cons.
      + simplify_eq. rewrite H2 by done. rewrite Hp, bool_decide_eq_true_2; done.
      + rewrite (H1 j' rs' Hin), Hp, bool_decide_eq_false_2.
        * f_equal. apply list_filter_iff. intros row. by rewrite (overrun_owed _ _ _ _ _ Ho).
        * intros ->. apply Hj, list_elem_of_fmap. by exists (j, rs').
    - intros j' Hnin. apply not_elem_of_cons in Hnin as [Hne Hnin]. simpl in Hne. rewrite H2 by done. rewrite Hp, bool_decide_eq_false_2; done. }
  assert (forall l r, (forall j fs, (j, fs) ∈ l -> files !! j = Some fs) -> let r' := foldl (remerge_files carried) r l in
    owed r' = owed r /\ pending r' = pending r /\ owedSeq r' = owedSeq r
    /\ forall j fi st, D r' j !! fi = Some st -> D r j !! fi = Some st \/ (map_at files j !! fi = Some st /\ overrunLocked r j (map_at carried j) fi = false)) as Hfiles.
  { clear. induction l as [|[j fs] l IH]; intros r Hin; cbn [foldl]; [split; [done|]; split; [done|]; split; [done|]; by left|].
    destruct (IH (remerge_files carried r (j, fs))) as (-> & -> & -> & H); [intros; apply Hin; by right|].
    destruct (remerge_files_at carried r j fs) as (Ho & -> & -> & Hd). rewrite Ho. split; [done|]. split; [done|]. split; [done|].
    intros j' fi st [H1|[H1 H2]]%H.
    - apply Hd in H1 as [H1|(-> & H1 & H2)]; [by left|]. right. split; [|done]. unfold map_at. by rewrite (Hin j fs ltac:(by left)).
    - right. split; [done|]. by rewrite <- (overrun_owed _ _ _ _ _ Ho). }
  destruct (Hrows (map_to_list rows) r (NoDup_fst_map_to_list _)) as (A1 & A2 & A3 & A4 & A5).
  destruct (Hfiles (map_to_list files) (foldl (remerge_rows carried) r (map_to_list rows))) as (B1 & B2 & B3 & B4); [intros j fs H; by apply elem_of_map_to_list|].
  rewrite B1, B2, B3, A1, A3. split; [done|]. split; [done|]. split.
  - intros j. unfold rows_at at 2. destruct (rows !! j) as [rs|] eqn:E; simpl; [apply A4; by apply elem_of_map_to_list|].
    apply A5. intros ([j' rs] & -> & H)%list_elem_of_fmap. apply elem_of_map_to_list in H. simpl in E. congruence.
  - intros j fi st [H|[H1 H2]]%B4; [rewrite A2 in H; by left|]. right. split; [done|]. by rewrite <- (overrun_owed _ _ _ _ _ A1).
Qed.

(** ** The snapshot *)
Lemma takeRows_at live r j :
  rows_at (fst (takeRowsLocked live r)) j = (if bool_decide (live !! j = Some true) then P r j else [])
  /\ P (snd (takeRowsLocked live r)) j = (if bool_decide (live !! j = None) then P r j else []).
Proof. split; apply rows_at_filter; intros; by rewrite bool_decide_eq_true. Qed.

Lemma takeFiles_at live r j :
  map_at (fst (takeFilesLocked live r)) j = (if bool_decide (live !! j = Some true) then D r j else ∅)
  /\ D (snd (takeFilesLocked live r)) j = (if bool_decide (live !! j = None) then D r j else ∅).
Proof. split; apply map_at_filter; intros; by rewrite bool_decide_eq_true. Qed.

Lemma owedLocked_at live r j :
  map_at (fst (owedLocked live r)) j = (if bool_decide (live !! j = Some true) then O_ r j else ∅)
  /\ O_ (snd (owedLocked live r)) j = (if bool_decide (live !! j <> Some false) then O_ r j else ∅).
Proof. split; apply map_at_filter; intros; by rewrite bool_decide_eq_true. Qed.

(** ** What a write states and erases *)
Definition states (b : RecordBatch) (fi : Z) (f : filefact) : Prop :=
  match f with
  | FRow r => r ∈ b_rows b /\ r_file r = fi
  | FDone => (exists st, st ∈ b_files b /\ FileIdx st = fi /\ Complete st = true)
             \/ (exists v, v ∈ b_verdicts b /\ v_file v = fi /\ SetComplete v = true)
  end.

Definition erases (b : RecordBatch) (fi : Z) (f : filefact) : Prop :=
  match f with
  | FRow r => exists v, v ∈ b_verdicts b /\ names v fi (r_art r) = true
  | FDone => (exists st, st ∈ b_files b /\ FileIdx st = fi) \/ (exists v, v ∈ b_verdicts b /\ v_file v = fi /\ SetComplete v || ClearComplete v = true)
  end.

Lemma row_ext a b : r_file a = r_file b -> r_art a = r_art b -> row_cols a = row_cols b -> a = b.
Proof. destruct a, b. unfold row_cols. simpl. intros -> -> E. by simplify_eq. Qed.

Lemma last_row_In rows fi a r : last_row rows fi a = Some r -> r ∈ rows /\ r_file r = fi /\ r_art r = a.
Proof. unfold last_row. intros H%last_Some_elem_of. apply list_elem_of_filter in H. tauto. Qed.

Lemma complete_states fs fi c : c_complete (foldl (fun c f => if bool_decide (FileIdx f = fi) then with_state f c else c) c fs) <> 0 ->
  (exists st, st ∈ fs /\ FileIdx st = fi /\ Complete st = true) \/ (c_complete c <> 0 /\ forall st, st ∈ fs -> FileIdx st <> fi).
Proof.
  induction fs as [|f fs IH] using rev_ind; [intros H; right; split; [done|]; by intros st ?%elem_of_nil|].
  rewrite foldl_snoc. case_bool_decide as Hf.
  - intros H. left. exists f. split; [apply elem_of_app; right; by left|]. split; [done|]. simpl in H. by destruct (Complete f).
  - intros H. destruct (IH H) as [(st & A & B)|[A B]]; [left; exists st; split; [apply elem_of_app; by left|done]|right].
    split; [done|]. intros st [Hst|Hst%list_elem_of_singleton]%elem_of_app; [by apply B|by subst].
Qed.

Lemma complete_verdicts vs fi c :
  c_complete (foldl (fun c v => if bool_decide (v_file v = fi) && (SetComplete v || ClearComplete v) then with_complete (SetComplete v) c else c) c vs) <> 0 ->
  (exists v, v ∈ vs /\ v_file v = fi /\ SetComplete v = true) \/ (c_complete c <> 0 /\ forall v, v ∈ vs -> v_file v = fi -> SetComplete v || ClearComplete v = false).
Proof.
  induction vs as [|v vs IH] using rev_ind; [intros H; right; split; [done|]; by intros st ?%elem_of_nil|].
  rewrite foldl_snoc. destruct (bool_decide (v_file v = fi) && _) eqn:E.
  - intros H. left. exists v. apply andb_true_iff in E as [E _]. apply bool_decide_eq_true in E. split; [apply elem_of_app; right; by left|].
    split; [done|]. simpl in H. by destruct (SetComplete v).
  - intros H. destruct (IH H) as [(u & A & B)|[A B]]; [left; exists u; split; [apply elem_of_app; by left|done]|right].
    split; [done|]. intros u [Hu|Hu%list_elem_of_singleton]%elem_of_app Hf; [by apply B|]. subst u. by rewrite bool_decide_eq_true_2 in E.
Qed.

Lemma fact_after_batch b d id fi f : db_fact (pure_batch b d) id fi f ->
  (JobID b = id /\ states b fi f) \/ (db_fact d id fi f /\ (JobID b = id -> ~ erases b fi f)).
Proof.
  destruct f as [r|]; simpl.
  - intros [Hr H]. rewrite pure_batch_written in H. unfold row_after in H. case_bool_decide as Hid; [|by right].
    destruct (if has_files id d then last_row (b_rows b) fi (r_art r) else None) as [r0|] eqn:El.
    + destruct (has_files id d); [|done]. apply last_row_In in El as (H1 & H2 & H3). left. split; [done|]. split; [|done].
      assert (r = r0) as ->; [|done]. apply row_ext; [congruence|done|]. unfold row_cols in *. congruence.
    + destruct (existsb _ (b_verdicts b)) eqn:Ee; [done|]. right. split; [done|]. intros _ (v & Hv & Hn).
      assert (existsb (fun v => names v fi (r_art r)) (b_verdicts b) = true) as He by (apply existsb_exists; exists v; split; [by apply list_elem_of_In|done]).
      congruence.
  - intros (c & H & Hc). rewrite pure_batch_files in H. apply fmap_Some in H as (c0 & H & ->). unfold file_after in Hc.
    case_bool_decide as Hid; [|right; split; [eauto|done]].
    apply complete_verdicts in Hc as [Hv|[Hc Hv]]; [left; split; [done|by right]|].
    apply complete_states in Hc as [Hs|[Hc Hs]]; [left; split; [done|by left]|]. right. split; [eauto|]. intros _ [(st & A & B)|(v & A & B & C)].
    + by apply (Hs st).
    + rewrite (Hv v A B) in C. done.
Qed.

Lemma fact_after_record bs d id fi f : db_fact (pure_record bs d) id fi f ->
  (exists b, b ∈ bs /\ JobID b = id /\ states b fi f) \/ (db_fact d id fi f /\ forall b, b ∈ bs -> JobID b = id -> ~ erases b fi f).
Proof.
  revert d. induction bs as [|b bs IH]; intros d H; [right; split; [done|]; by intros b ?%elem_of_nil|].
  unfold pure_record in *. simpl in H. apply IH in H as [(b' & A & B)|[H A]]; [left; exists b'; split; [by right|done]|].
  apply fact_after_batch in H as [H|[H B]]; [left; exists b; split; [by left|done]|]. right. split; [done|].
  intros b' [->|Hb]%elem_of_cons Hid; [by apply B|by apply A].
Qed.

Lemma elem_owed_verdicts files o v : v ∈ owed_verdicts files o <->
  exists fi, is_Some (o !! fi) /\ v = mkVerdict fi true [] (match files !! fi with Some _ => false | None => true end) false.
Proof.
  unfold owed_verdicts. rewrite list_elem_of_fmap. split.
  - intros (fi & -> & H). rewrite merge_sort_Permutation in H. apply list_elem_of_fmap in H as ([k s] & -> & H). apply elem_of_map_to_list in H.
    exists k. split; [eauto|]. simpl. by destruct (files !! k).
  - intros (fi & [s H] & ->). exists fi. split; [by destruct (files !! fi)|]. rewrite merge_sort_Permutation. apply list_elem_of_fmap.
    exists (fi, s). split; [done|by apply elem_of_map_to_list].
Qed.

(** ** Safety *)
Section instance.
Variable id_of : nat -> string.
Variable j0 : nat.
Hypothesis solo : forall j, id_of j = id_of j0 -> j = j0.

Definition settling (w : phase) : gmap Z nat :=
  match w with
  | FlushWritten o => map_at o j0
  | Untrusted j fi seq => if bool_decide (j = j0) then {[fi := seq]} else ∅
  | _ => ∅
  end.

Definition in_flight (w : phase) : gmap Z nat :=
  match w with
  | FlushTaken _ _ o | FlushFailed _ _ o | FlushWritten o => map_at o j0
  | Untrusting j fi seq | Untrusted j fi seq => if bool_decide (j = j0) then {[fi := seq]} else ∅
  | _ => ∅
  end.

(** Why a fact may be in the store: noted since the last untrust, or its
    deletion is owed and not yet written, or the job left the queue. *)
Definition justified (s : sys) (fi : Z) (f : filefact) : Prop :=
  noted s j0 fi f \/ dropped s j0 \/ exists cur, O_ (rc s) j0 !! fi = Some cur /\ settling (wmu s) !! fi <> Some cur.

Definition phase_ok (s : sys) : Prop :=
  match wmu s with
  | FlushTaken rows files o | FlushFailed rows files o =>
      (forall row, row ∈ rows_at rows j0 -> noted s j0 (r_file row) (FRow row) \/ overrunLocked (rc s) j0 (map_at o j0) (r_file row) = true)
      /\ (forall fi st, map_at files j0 !! fi = Some st ->
            FileIdx st = fi /\ (Complete st = true -> noted s j0 fi FDone \/ overrunLocked (rc s) j0 (map_at o j0) fi = true))
  | Applying j v files =>
      j = j0 -> forall fi, states (mkBatch (id_of j) [] files v) fi FDone -> noted s j0 fi FDone \/ is_Some (O_ (rc s) j0 !! fi)
  | _ => True
  end.

Record rinv (s : sys) : Prop := {
  ri_db : forall fi f, db_fact (db s) (id_of j0) fi f -> justified s fi f;
  ri_pending : forall row, row ∈ P (rc s) j0 -> noted s j0 (r_file row) (FRow row);
  ri_dirty : forall fi st, D (rc s) j0 !! fi = Some st -> FileIdx st = fi /\ (Complete st = true -> noted s j0 fi FDone);
  ri_phase : phase_ok s;
  ri_seq : forall fi cur, O_ (rc s) j0 !! fi = Some cur -> (1 <= cur <= owedSeq (rc s))%nat;
  ri_flight : forall fi seq, in_flight (wmu s) !! fi = Some seq -> (1 <= seq <= owedSeq (rc s))%nat;
  ri_asm : forall fi seq, asm s = Some (j0, fi, seq) -> (1 <= seq <= owedSeq (rc s))%nat
}.

Lemma settling_in_flight w fi seq : settling w !! fi = Some seq -> in_flight w !! fi = Some seq.
Proof. by destruct w. Qed.

(** Noting more facts keeps what was justified. *)
Lemma justified_more s s' fi f : (forall fi f, noted s j0 fi f -> noted s' j0 fi f) -> (dropped s j0 -> dropped s' j0) ->
  owed (rc s') = owed (rc s) -> settling (wmu s') = settling (wmu s) -> justified s fi f -> justified s' fi f.
Proof. intros H1 H2 H3 H4 [H|[H|(cur & A & B)]]; [left; auto|right; left; auto|right; right]. exists cur. by rewrite H3, H4. Qed.

Lemma phase_ok_more s s' : (forall fi f, noted s j0 fi f -> noted s' j0 fi f) -> owed (rc s') = owed (rc s) -> wmu s' = wmu s -> phase_ok s -> phase_ok s'.
Proof.
  intros H1 H2 H3. unfold phase_ok. rewrite H3. destruct (wmu s); try done.
  - intros [A B]. split; [intros row Hr; rewrite (overrun_owed _ _ _ _ _ H2); destruct (A row Hr); auto|].
    intros fi st Hst. rewrite (overrun_owed _ _ _ _ _ H2). destruct (B fi st Hst) as [Hi Hc]. split; [done|]. intros Hd. destruct (Hc Hd); auto.
  - intros [A B]. split; [intros row Hr; rewrite (overrun_owed _ _ _ _ _ H2); destruct (A row Hr); auto|].
    intros fi st Hst. rewrite (overrun_owed _ _ _ _ _ H2). destruct (B fi st Hst) as [Hi Hc]. split; [done|]. intros Hd. destruct (Hc Hd); auto.
  - intros A Hj fi Hs. rewrite H2. destruct (A Hj fi Hs); auto.
Qed.

Lemma rinv_note j row s : rinv s -> rinv (add_latest j row (add_fact j (r_file row) (FRow row) (upd_rc (noteWritten j row (rc s)) s))).
Proof.
  intros []. set (s' := add_latest _ _ _). assert (forall fi f, noted s j0 fi f -> noted s' j0 fi f) as Hm by (intros; by left). split; try done.
  - intros fi f H. eapply justified_more; [exact Hm|done|done|done|auto].
  - intros row' H. simpl in H. rewrite rows_at_insert in H. case_bool_decide as Hj; [|auto].
    apply elem_of_app in H as [H|H%list_elem_of_singleton]; [rewrite <- Hj in H; auto|]. subst. by right.
  - intros fi st H. destruct (ri_dirty0 fi st H). auto.
  - by eapply phase_ok_more.
Qed.

Lemma rinv_dirty j fi st s : rinv s ->
  rinv (let s' := upd_rc (markDirty j fi st (rc s)) s in if Complete st then add_fact j fi FDone s' else s').
Proof.
  intros []. set (s' := if Complete st then _ else _). assert (forall fi f, noted s j0 fi f -> noted s' j0 fi f) as Hm by (intros; unfold s'; destruct (Complete st); [by left|done]).
  assert (rc s' = markDirty j fi st (rc s) /\ db s' = db s /\ wmu s' = wmu s /\ asm s' = asm s /\ dropped s' = dropped s) as (E1 & E2 & E3 & E4 & E5)
    by (unfold s'; by destruct (Complete st)).
  split; rewrite ?E1, ?E2, ?E3, ?E4; try done.
  - intros fi' f H. eapply justified_more; [exact Hm|by rewrite E5|by rewrite E1|by rewrite E3|auto].
  - intros row H. auto.
  - intros fi' st' H. simpl in H. rewrite map_at_insert in H. case_bool_decide as Hj; [|destruct (ri_dirty0 fi' st' H); auto].
    destruct (decide (fi' = fi)) as [->|Hf].
    + rewrite lookup_insert_eq in H. simplify_eq. split; [done|]. simpl. intros Hc. unfold s'. rewrite Hc. by right.
    + rewrite lookup_insert_ne in H by done. rewrite <- Hj in H. destruct (ri_dirty0 fi' st' H). auto.
  - eapply phase_ok_more; [exact Hm|by rewrite E1|done|done].
Qed.

(** An untrust: everything noted of the file is stale, and owed. *)
Lemma rinv_untrust j fi s : rinv s ->
  rinv (let '(seq, r) := untrust_owe j fi (rc s) in forget j fi (upd_asm (Some (j, fi, seq)) (upd_rc r s))).
Proof.
  intros []. pose proof (untrust_owe_at j fi (rc s)) as H. destruct (untrust_owe j fi (rc s)) as [seq r]. destruct H as (Hs & Hseq & Hp & Hd & Ho).
  assert (forall fi', j0 = j /\ fi' = fi -> forall c, (forall x, c !! fi = Some x -> (x < seq)%nat) -> overrunLocked r j0 c fi' = true) as Hover.
  { intros fi' [<- ->] c Hc. unfold overrunLocked. rewrite at2_map_at, Ho, bool_decide_eq_true_2 by done. apply bool_decide_eq_true.
    destruct (c !! fi) as [x|] eqn:E; simpl; [by apply Hc|lia]. }
  assert (forall fi' c, ~ (j0 = j /\ fi' = fi) -> overrunLocked r j0 c fi' = overrunLocked (rc s) j0 c fi') as Hsame.
  { intros fi' c Hn. unfold overrunLocked. by rewrite !at2_map_at, Ho, bool_decide_eq_false_2. }
  assert (forall rows files o, in_flight (wmu s) = map_at o j0 ->
     (forall row, row ∈ rows_at rows j0 -> noted s j0 (r_file row) (FRow row) \/ overrunLocked (rc s) j0 (map_at o j0) (r_file row) = true)
      /\ (forall fi st, map_at files j0 !! fi = Some st ->
            FileIdx st = fi /\ (Complete st = true -> noted s j0 fi FDone \/ overrunLocked (rc s) j0 (map_at o j0) fi = true)) ->
     (forall row, row ∈ rows_at rows j0 -> (noted s j0 (r_file row) (FRow row) /\ ~ (j0 = j /\ r_file row = fi)) \/ overrunLocked r j0 (map_at o j0) (r_file row) = true)
      /\ (forall fi' st, map_at files j0 !! fi' = Some st ->
            FileIdx st = fi' /\ (Complete st = true -> (noted s j0 fi' FDone /\ ~ (j0 = j /\ fi' = fi)) \/ overrunLocked r j0 (map_at o j0) fi' = true))) as Hphase.
  { intros rows files o Ef [A B]. assert (forall x, map_at o j0 !! fi = Some x -> (x < seq)%nat) as Hc by (intros x Hx; rewrite <- Ef in Hx; apply ri_flight0 in Hx; lia).
    split.
    - intros row Hr. destruct (decide (j0 = j /\ r_file row = fi)) as [Hy|Hn]; [right; by apply Hover|]. rewrite Hsame by done. destruct (A row Hr); auto.
    - intros fi' st Hst. destruct (B fi' st Hst) as [Hi Hcc]. split; [done|]. intros Hd'.
      destruct (decide (j0 = j /\ fi' = fi)) as [Hy|Hn]; [right; by apply Hover|]. rewrite Hsame by done. destruct (Hcc Hd'); auto. }
  split; simpl.
  - intros fi' f H. destruct (decide (j0 = j /\ fi' = fi)) as [Hy|Hn].
    + right. right. exists seq. simpl. rewrite Ho, bool_decide_eq_true_2 by tauto. split; [done|]. intros E. apply settling_in_flight, ri_flight0 in E. lia.
    + destruct (ri_db0 fi' f H) as [A|[A|(cur & A & B)]]; [by left|by right; left|]. right. right. exists cur. simpl. by rewrite Ho, bool_decide_eq_false_2.
  - intros row H. rewrite Hp in H. case_bool_decide as Hj; [|split; [auto|naive_solver]]. apply list_elem_of_filter in H as [Hf H]. split; [auto|naive_solver].
  - intros fi' st H. rewrite Hd in H. case_bool_decide as Hj; [done|]. destruct (ri_dirty0 fi' st H) as [A B]. auto.
  - revert ri_phase0. unfold phase_ok. simpl. destruct (wmu s) eqn:Ew; try done.
    + by apply Hphase.
    + by apply Hphase.
    + intros A Hj' fi' Hst. rewrite Ho. case_bool_decide as Hc; [by right; eexists|]. destruct (A Hj' fi' Hst); [left; split; [done|tauto]|by right].
  - intros fi' cur H. rewrite Ho in H. rewrite Hseq. case_bool_decide; [simplify_eq; lia|]. apply ri_seq0 in H. lia.
  - intros fi' sq H. apply ri_flight0 in H. lia.
  - intros fi' sq H. simplify_eq. lia.
Qed.

(** Steps that move a writer and touch no buffer and no table. *)
Lemma rinv_writer s s' : rc s' = rc s -> db s' = db s -> noted s' = noted s -> dropped s' = dropped s ->
  (asm s' = asm s \/ asm s' = None) -> (forall fi cur, settling (wmu s') !! fi = Some cur -> settling (wmu s) !! fi = Some cur) ->
  (forall fi seq, in_flight (wmu s') !! fi = Some seq -> in_flight (wmu s) !! fi = Some seq \/ asm s = Some (j0, fi, seq)) ->
  (wmu s' = wmu s \/ match wmu s' with FlushTaken _ _ _ | FlushFailed _ _ _ | Applying _ _ _ => False | _ => True end) -> rinv s -> rinv s'.
Proof.
  intros E1 E2 E3 E4 E5 E6 E7 E8 []. split; rewrite ?E1, ?E2, ?E3.
  - intros fi f H. destruct (ri_db0 fi f H) as [A|[A|(cur & A & B)]]; [left; by rewrite E3|right; left; by rewrite E4|right; right].
    exists cur. rewrite E1. split; [done|]. intros Hc. by apply B, E6.
  - done.
  - done.
  - destruct E8 as [E8|E8]; [|unfold phase_ok; by destruct (wmu s')]. apply (phase_ok_more s); [by rewrite E3|by rewrite E1|done|done].
  - done.
  - intros fi seq H. apply E7 in H as [H|H]; eauto.
  - intros fi seq H. destruct E5 as [E5|E5]; rewrite E5 in H; [eauto|done].
Qed.

(** A write to the tables that states only what is justified. *)
Lemma rinv_write s s' : rc s' = rc s -> noted s' = noted s -> dropped s' = dropped s -> (asm s' = asm s \/ asm s' = None) ->
  (forall fi f, db_fact (db s') (id_of j0) fi f -> justified s' fi f) ->
  (forall fi seq, in_flight (wmu s') !! fi = Some seq -> in_flight (wmu s) !! fi = Some seq) -> phase_ok s' -> rinv s -> rinv s'.
Proof.
  intros E1 E3 E4 E5 E6 E7 E8 []. split; rewrite ?E1, ?E3; try done.
  - intros fi seq H. eauto.
  - intros fi seq H. destruct E5 as [E5|E5]; rewrite E5 in H; [eauto|done].
Qed.

Lemma db_fact_rows d d' id fi f : job_files d' = job_files d -> written_articles d' = written_articles d -> db_fact d' id fi f -> db_fact d id fi f.
Proof. intros H1 H2. destruct f; simpl; by rewrite ?H1, ?H2. Qed.

Lemma rinv_untrust_write j fi seq faults s : wmu s = Untrusting j fi seq -> rinv s ->
  rinv (match ApplyRecord [untrust_batch id_of j fi] (mkSession (db s) faults) with
        | (Ok _, ss) => upd_wmu (Untrusted j fi seq) (upd_db (ss_db ss) s)
        | (Err _, ss) => upd_asm None (upd_wmu Idle (upd_db (ss_db ss) s))
        end).
Proof.
  intros Ew Hi. pose proof Hi as []. pose proof (ApplyRecord_run [untrust_batch id_of j fi] (db s) faults) as H.
  destruct (ApplyRecord _ _) as [[[]|e] ss]; [destruct H as [H _]|].
  - apply (rinv_write s); try done; [by left| |by rewrite Ew]. simpl. rewrite H. intros fi' f Hf.
    apply fact_after_record in Hf as [(b & ->%list_elem_of_singleton & Hid & Hs)|[Hf Hn]].
    + exfalso. destruct f; simpl in Hs; [by destruct Hs as [Hs%elem_of_nil _]|]. destruct Hs as [(st & Hs%elem_of_nil & _)|(v & ->%list_elem_of_singleton & _ & Hs)]; done.
    + destruct (ri_db0 fi' f Hf) as [A|[A|(cur & A & B)]]; [by left|by right; left|right; right]. exists cur. split; [done|]. simpl.
      case_bool_decide as Hj; [|by rewrite lookup_empty]. intros Hc. apply lookup_singleton_Some in Hc as [<- ->]. subst j.
      apply (Hn (untrust_batch id_of j0 fi)); [by left|done|]. destruct f as [r|]; simpl.
      * eexists. split; [by left|]. unfold names. simpl. by rewrite bool_decide_eq_true_2.
      * right. eexists. split; [by left|done].
  - apply (rinv_write s); simpl; try done; [by right|]. rewrite H. intros fi' f Hf.
    destruct (ri_db0 fi' f Hf) as [A|[A|(cur & A & B)]]; [by left|by right; left|right; right]. exists cur. split; [done|]. simpl. by rewrite lookup_empty.
Qed.

(** Settling what a write carried. *)
Lemma rinv_settle r a s : pending r = pending (rc s) -> dirty r = dirty (rc s) -> owedSeq r = owedSeq (rc s) ->
  (forall fi cur, O_ r j0 !! fi = Some cur <-> O_ (rc s) j0 !! fi = Some cur /\ settling (wmu s) !! fi <> Some cur) ->
  (a = asm s \/ a = None) -> rinv s -> rinv (upd_asm a (upd_wmu Idle (upd_rc r s))).
Proof.
  intros E1 E2 E3 E4 Ea []. split; simpl; rewrite ?E1, ?E2, ?E3; try done.
  - intros fi f H. destruct (ri_db0 fi f H) as [A|[A|(cur & A & B)]]; [by left|by right; left|right; right]. exists cur. simpl.
    split; [by apply E4|by rewrite lookup_empty].
  - intros fi cur [H _]%E4. eauto.
  - intros fi seq H. destruct Ea as [-> | ->]; [eauto|done].
Qed.

Lemma rinv_take jobs live s : wmu s = FlushAsking jobs live -> rinv s ->
  rinv (let '(rows, r) := takeRowsLocked live (rc s) in
        let '(files, r) := takeFilesLocked live r in
        let '(o, r) := owedLocked live r in
        upd_dropped (fun j => dropped s j \/ live !! j = Some false) (upd_wmu (FlushTaken rows files o) (upd_rc r s))).
Proof.
  intros Ew []. destruct (takeRowsLocked live (rc s)) as [rows r1] eqn:E1. destruct (takeFilesLocked live r1) as [files r2] eqn:E2. destruct (owedLocked live r2) as [o r3] eqn:E3.
  destruct (takeRows_at live (rc s) j0) as [R1 R2], (takeFiles_at live r1 j0) as [F1 F2], (owedLocked_at live r2 j0) as [O1 O2].
  rewrite E1 in R1, R2. rewrite E2 in F1, F2. rewrite E3 in O1, O2. simpl in R1, R2, F1, F2, O1, O2.
  assert (dirty r1 = dirty (rc s) /\ owed r2 = owed (rc s) /\ pending r3 = pending r1 /\ dirty r3 = dirty r2 /\ owedSeq r3 = owedSeq (rc s)) as (C1 & C2 & C3 & C4 & C5).
  { unfold takeRowsLocked in E1. unfold takeFilesLocked in E2. unfold owedLocked in E3. simplify_eq/=. done. }
  rewrite C1 in F1, F2. rewrite C2 in O1, O2. split; simpl; rewrite ?C3, ?C4, ?C5.
  - intros fi f H. destruct (ri_db0 fi f H) as [A|[A|(cur & A & B)]]; [by left|by right; left; left|]. destruct (decide (live !! j0 = Some false)) as [Hl|Hl]; [right; left; by right|].
    right. right. exists cur. simpl. rewrite O2, bool_decide_eq_true_2 by done. split; [done|by rewrite lookup_empty].
  - intros row H. rewrite R2 in H. case_bool_decide; [auto|by apply elem_of_nil in H].
  - intros fi st H. rewrite F2 in H. case_bool_decide; [auto|by rewrite lookup_empty in H].
  - unfold phase_ok. simpl. split.
    + intros row H. left. rewrite R1 in H. case_bool_decide; [auto|by apply elem_of_nil in H].
    + intros fi st H. rewrite F1 in H. case_bool_decide; [|by rewrite lookup_empty in H]. destruct (ri_dirty0 fi st H) as [A B]. auto.
  - intros fi cur H. rewrite O2 in H. case_bool_decide; [eauto|by rewrite lookup_empty in H].
  - intros fi seq H. rewrite O1 in H. case_bool_decide; [eauto|by rewrite lookup_empty in H].
  - done.
Qed.

Lemma batchOf_erases rows files o fi f cur : map_at o j0 !! fi = Some cur -> (forall st, map_at files j0 !! fi = Some st -> FileIdx st = fi) ->
  erases (batchOf id_of rows files o j0) fi f.
Proof.
  intros Hc Hf. destruct f as [r|]; simpl.
  - eexists. split; [apply elem_owed_verdicts; exists fi; split; [by eexists|reflexivity]|]. unfold names. simpl. by rewrite bool_decide_eq_true_2.
  - destruct (map_at files j0 !! fi) as [st|] eqn:Ef.
    + left. exists st. split; [|by apply Hf]. apply list_elem_of_fmap. exists (fi, st). split; [done|by apply elem_of_map_to_list].
    + right. eexists. split; [apply elem_owed_verdicts; exists fi; split; [by eexists|reflexivity]|]. simpl. by rewrite Ef.
Qed.

Lemma batchOf_states rows files o fi f : (forall fi st, map_at files j0 !! fi = Some st -> FileIdx st = fi) ->
  states (batchOf id_of rows files o j0) fi f ->
  match f with
  | FRow r => r ∈ rows_at rows j0 /\ r_file r = fi
  | FDone => exists st, map_at files j0 !! fi = Some st /\ Complete st = true
  end.
Proof.
  intros Hf. destruct f as [r|]; simpl; [done|]. intros [(st & H & Hi & Hc)|(v & H & _ & Hc)].
  - apply list_elem_of_fmap in H as ([k st'] & -> & H). apply elem_of_map_to_list in H. simpl in *. pose proof (Hf _ _ H). exists st'. by subst.
  - apply elem_owed_verdicts in H as (k & _ & ->). done.
Qed.

Lemma map_at_dom {V} (m : gmap nat (gmap Z V)) j fi x : map_at m j !! fi = Some x -> j ∈ dom m.
Proof. unfold map_at. intros H. apply elem_of_dom. destruct (m !! j); [by eexists|done]. Qed.

Lemma overrun_justified s s' o fi f : rc s' = rc s -> settling (wmu s') = map_at o j0 \/ settling (wmu s') = ∅ ->
  overrunLocked (rc s) j0 (map_at o j0) fi = true -> justified s' fi f.
Proof.
  intros E1 E2 H. unfold overrunLocked in H. rewrite at2_map_at in H. destruct (O_ (rc s) j0 !! fi) as [cur|] eqn:Eo; [|done].
  apply bool_decide_eq_true in H. right. right. exists cur. rewrite E1. split; [done|]. destruct E2 as [->| ->]; [|by rewrite lookup_empty].
  intros E. rewrite E in H. simpl in H. lia.
Qed.

Lemma rinv_flush_write rows files o order faults s : wmu s = FlushTaken rows files o ->
  (forall j, j ∈ order <-> j ∈ in_snapshot rows files o) -> rinv s ->
  rinv (match ApplyRecord (batchOf id_of rows files o <$> order) (mkSession (db s) faults) with
        | (Ok _, ss) => upd_unrecorded (fun j => unrecorded s j \/ (j ∈ order /\ has_files (id_of j) (db s) = false))
                          (upd_wmu (FlushWritten o) (upd_db (ss_db ss) s))
        | (Err _, ss) => upd_wmu (FlushFailed rows files o) (upd_db (ss_db ss) s)
        end).
Proof.
  intros Ew Hord Hi. pose proof Hi as []. pose proof ri_phase0 as Hph. unfold phase_ok in Hph. rewrite Ew in Hph. destruct Hph as [Hrows Hfiles].
  pose proof (ApplyRecord_run (batchOf id_of rows files o <$> order) (db s) faults) as H.
  destruct (ApplyRecord _ _) as [[[]|e] ss]; [destruct H as [H _]|].
  - apply (rinv_write s); try done; [by left| |by rewrite Ew]. simpl. rewrite H. intros fi f Hf.
    set (s' := upd_unrecorded _ _).
    assert (forall fi st, map_at files j0 !! fi = Some st -> FileIdx st = fi) as Hidx by (intros; by destruct (Hfiles fi0 st)).
    apply fact_after_record in Hf as [(b & (j & -> & Hj)%list_elem_of_fmap & Hid & Hs)|[Hf Hn]].
    + apply solo in Hid as ->. apply batchOf_states in Hs; [|done]. destruct f as [r|].
      * destruct Hs as [Hr <-]. destruct (Hrows r Hr) as [A|A]; [by left|]. apply (overrun_justified s s' o); [done|by left|done].
      * destruct Hs as (st & Hst & Hc). destruct (Hfiles fi st Hst) as [_ B]. destruct (B Hc) as [A|A]; [by left|]. apply (overrun_justified s s' o); [done|by left|done].
    + destruct (ri_db0 fi f Hf) as [A|[A|(cur & A & B)]]; [by left|by right; left|right; right]. exists cur. split; [done|]. simpl. intros Hc.
      apply (Hn (batchOf id_of rows files o j0)); [|done|by eapply batchOf_erases; eauto]. apply list_elem_of_fmap. exists j0. split; [done|]. apply Hord.
      unfold in_snapshot. apply elem_of_union. right. by eapply map_at_dom.
  - apply (rinv_write s); simpl; try done; [by left| |by rewrite Ew]. rewrite H. intros fi f Hf.
    destruct (ri_db0 fi f Hf) as [A|[A|(cur & A & B)]]; [by left|by right; left|right; right]. exists cur. split; [done|]. simpl. by rewrite lookup_empty.
Qed.

Lemma rinv_remerge rows files o s : wmu s = FlushFailed rows files o -> rinv s -> rinv (upd_wmu Idle (upd_rc (remerge rows files o (rc s)) s)).
Proof.
  intros Ew []. pose proof ri_phase0 as Hph. unfold phase_ok in Hph. rewrite Ew in Hph. destruct Hph as [Hrows Hfiles].
  destruct (remerge_at rows files o (rc s)) as (E1 & E2 & E3 & E4). split; simpl; rewrite ?E1, ?E2; try done.
  - intros fi f H. destruct (ri_db0 fi f H) as [A|[A|(cur & A & B)]]; [by left|by right; left|right; right]. exists cur. simpl. rewrite E1. split; [done|by rewrite lookup_empty].
  - intros row H. rewrite E3 in H. apply elem_of_app in H as [H|H]; [|auto]. apply list_elem_of_filter in H as [Hov H]. destruct (Hrows row H) as [A|A]; [done|congruence].
  - intros fi st H. apply E4 in H as [H|[H Hov]]; [auto|]. destruct (Hfiles fi st H) as [A B]. split; [done|]. intros Hc. destruct (B Hc); [done|congruence].
Qed.

Lemma rinv_apply j v files s : wmu s = Idle -> rinv s ->
  rinv (note_apply j v files (upd_wmu (Applying j v files) (upd_rc (apply_purge j v files (rc s)) s))).
Proof.
  intros Ew []. destruct (apply_purge_at j v files (rc s)) as (E1 & E2 & E3 & E4). set (s' := note_apply _ _ _ _).
  assert (forall fi f, noted s j0 fi f -> noted s' j0 fi f) as Hm by (intros; by left). split; simpl; rewrite ?E2, ?E3; try done.
  - intros fi f H. apply (justified_more s); [exact Hm|done|simpl; by rewrite E2|by rewrite Ew|auto].
  - intros row H. rewrite E1 in H. left. case_bool_decide; [apply list_elem_of_filter in H as [_ H]|]; auto.
  - intros fi st' H. apply E4 in H as (st & H & Hsame & Hi & Hc). destruct (ri_dirty0 fi st H) as [A B]. split; [congruence|]. intros Hd.
    destruct Hsame as [Hj|Hsame]; [|subst; left; auto]. destruct (Hc Hd) as [Hs|Hs]; [left; auto|]. right. split; [done|]. split; [done|]. by right.
  - unfold phase_ok. simpl. intros -> fi [(st & H)|(fv & H)]; left; right; (split; [done|]); (split; [done|]); [left; by exists st|right; by exists fv].
Qed.

Lemma rinv_apply_write j v files faults s : wmu s = Applying j v files -> rinv s ->
  rinv (upd_wmu Idle (upd_db (ss_db (snd (ApplyRecord [mkBatch (id_of j) [] files v] (mkSession (db s) faults)))) s)).
Proof.
  intros Ew Hi. pose proof Hi as []. pose proof ri_phase0 as Hph. unfold phase_ok in Hph. rewrite Ew in Hph.
  assert (forall fi f, db_fact (db s) (id_of j0) fi f -> noted s j0 fi f \/ dropped s j0 \/ is_Some (O_ (rc s) j0 !! fi)) as Hold.
  { intros fi f Hf. destruct (ri_db0 fi f Hf) as [A|[A|(cur & A & B)]]; eauto. }
  apply (rinv_write s); try done; [by left|]. intros fi f Hf. cbn [db upd_wmu upd_db] in Hf.
  assert (noted s j0 fi f \/ dropped s j0 \/ is_Some (O_ (rc s) j0 !! fi)) as Hd; [|destruct Hd as [A|[A|[cur A]]]; [by left|by right; left|right; right; exists cur; split; [done|simpl; by rewrite lookup_empty]]].
  pose proof (ApplyRecord_run [mkBatch (id_of j) [] files v] (db s) faults) as H. destruct (ApplyRecord _ _) as [[[]|e] ss]; cbn [snd] in Hf; [destruct H as [H _]|].
  - rewrite H in Hf. apply fact_after_record in Hf as [(b & ->%list_elem_of_singleton & Hid & Hs)|[Hf _]]; [|auto]. simpl in Hid. apply solo in Hid as ->.
    destruct f as [r|]; [by destruct Hs as [Hs%elem_of_nil _]|]. destruct (Hph eq_refl fi Hs); auto.
  - rewrite H in Hf. auto.
Qed.

(** Another writer of the tables that states no new fact. *)
Lemma rinv_shrink d s : (forall fi f, db_fact d (id_of j0) fi f -> db_fact (db s) (id_of j0) fi f) -> rinv s -> rinv (upd_db d s).
Proof. intros H Hi. pose proof Hi as []. apply (rinv_write s); try done; [by left|]. intros fi f Hf. by apply ri_db0, H. Qed.

Lemma rinv_unrecorded p s : rinv s -> rinv (upd_unrecorded p s).
Proof. by intros []. Qed.

Lemma rinv_init d : rinv (rec_init id_of d).
Proof.
  split; simpl; try done.
  - intros fi f H. by left.
  - intros row H. unfold rows_at in H. rewrite lookup_empty in H. by apply elem_of_nil in H.
Qed.

Lemma admit_facts id files d faults i fi f : db_fact (ss_db (snd (Admit id files (mkSession d faults)))) i fi f -> db_fact d i fi f.
Proof.
  pose proof (Admit_seeds id files d faults) as H. destruct (Admit _ _ _) as [[[]|e] ss]; cbn [snd]; [destruct H as [(Hw & _ & Hf) _]|by rewrite H].
  destruct f as [r|]; simpl; [by rewrite Hw|]. intros (c & A & B). destruct (Hf (i, fi) c A) as [A'|A']; [eauto|done].
Qed.

Lemma reclaim_facts id more d faults i fi f : db_fact (ss_db (snd (Reclaim id more (mkSession d faults)))) i fi f -> db_fact d i fi f.
Proof.
  pose proof (reclaim_exact id more d faults) as H. destruct (Reclaim _ _ _) as [[u|e] ss]; simpl; [|by rewrite H].
  destruct H as (_ & Hf & Hw). destruct f as [r|]; simpl.
  - intros [A B]. rewrite Hw in B. by destruct (unreachable d i && _).
  - intros (c & A & B). rewrite Hf in A. destruct (unreachable d i && _); [done|]. eauto.
Qed.

Lemma rinv_step s s' : rstep id_of s s' -> rinv s -> rinv s'.
Proof.
  intros Hstep Hi. destruct Hstep.
  - by apply rinv_note.
  - by apply rinv_dirty.
  - by apply rinv_untrust.
  - apply (rinv_writer s); try done; auto.
  - pose proof Hi as []. apply (rinv_writer s); try done; [by left| |by right]. simpl. intros fi' sq H'. case_bool_decide as Hj; [|by rewrite lookup_empty in H'].
    right. apply lookup_singleton_Some in H' as [<- <-]. by subst.
  - by eapply rinv_untrust_write.
  - destruct (settleLocked_at j fi seq (rc s)) as (E1 & E2 & E3 & E4). apply rinv_settle; try done; [|by right].
    intros fi' cur. rewrite E4, H. simpl. case_bool_decide as Hc.
    + destruct Hc as (-> & -> & Hc). rewrite Hc. rewrite bool_decide_eq_true_2 by done. rewrite lookup_singleton_eq. split; [done|]. intros [A B]. congruence.
    + split; [|tauto]. intros A. split; [done|]. case_bool_decide; [|by rewrite lookup_empty]. intros [-> ->]%lookup_singleton_Some. by apply Hc.
  - apply (rinv_writer s); try done; [by left|by right].
  - apply (rinv_writer s); try done; [by left|by right].
  - apply (rinv_writer s); try done; [by left|by right].
  - by eapply rinv_take.
  - by apply rinv_flush_write.
  - by apply rinv_remerge.
  - destruct (settle_at o (rc s)) as (E1 & E2 & E3 & E4).
    replace (upd_wmu Idle (upd_rc (settle o (rc s)) s)) with (upd_asm (asm s) (upd_wmu Idle (upd_rc (settle o (rc s)) s))) by done.
    apply rinv_settle; try done; [|by left]. intros fi cur. rewrite E4, H. done.
  - by apply rinv_apply.
  - by eapply rinv_apply_write.
  - by destruct Hi.
  - apply rinv_shrink; [|done]. intros fi f. apply admit_facts.
  - apply rinv_unrecorded, rinv_shrink; [|done]. intros fi f. apply reclaim_facts.
  - apply rinv_shrink; [|done]. intros fi f. by apply db_fact_rows.
Qed.

Lemma rinv_reachable d s : rec_reachable id_of d s -> rinv s.
Proof. intros H. eapply (rtc_ind_l (fun s1 => rinv s1 -> rinv s)); [done| |exact H|apply rinv_init]. intros s1 s2 Hs _ IH Hi. apply IH. by eapply rinv_step. Qed.

(** ** Nothing noted is lost *)
Lemma last_row_app l1 l2 fi a : last_row (l1 ++ l2) fi a = match last_row l2 fi a with Some r => Some r | None => last_row l1 fi a end.
Proof.
  unfold last_row. rewrite filter_app. destruct (base.filter _ l2) as [|x l _] using rev_ind; [by rewrite app_nil_r|]. by rewrite app_assoc, !last_snoc.
Qed.

Lemma last_row_one r fi a : last_row [r] fi a = if bool_decide (fi = r_file r /\ a = r_art r) then Some r else None.
Proof. unfold last_row. rewrite filter_cons, filter_nil. case_bool_decide; case_decide; try done; naive_solver. Qed.

(** A filter that keeps every row for the article keeps its last. *)
Lemma last_row_filter (Q : WrittenRow -> Prop) `{!forall x, Decision (Q x)} l fi a :
  (forall r, r_file r = fi -> r_art r = a -> Q r) -> last_row (base.filter Q l) fi a = last_row l fi a.
Proof. intros HQ. unfold last_row. f_equal. rewrite list_filter_filter. apply list_filter_iff. naive_solver. Qed.

Lemma last_row_gone (Q : WrittenRow -> Prop) `{!forall x, Decision (Q x)} l fi a :
  (forall r, r_file r = fi -> r_art r = a -> ~ Q r) -> last_row (base.filter Q l) fi a = None.
Proof.
  intros HQ. unfold last_row. rewrite list_filter_filter. induction l as [|x l IH]; [done|].
  rewrite filter_cons_False; [done|]. intros [[A B] C]. by apply (HQ x).
Qed.

Definition flying (w : phase) (fi a : Z) : option (WrittenRow * gmap Z nat) :=
  match w with
  | FlushTaken rows _ o | FlushFailed rows _ o => (fun r => (r, map_at o j0)) <$> last_row (rows_at rows j0) fi a
  | _ => None
  end.

(** The row is in the store, and no write in flight will delete it. *)
Definition stored (s : sys) (fi a : Z) (row : WrittenRow) : Prop :=
  written_articles (db s) !! (id_of j0, fi, a) = Some (row_cols row)
  /\ (forall cur, O_ (rc s) j0 !! fi = Some cur -> settling (wmu s) !! fi = Some cur)
  /\ (forall v files, wmu s = Applying j0 v files -> existsb (fun fv => names fv fi a) v = false).

Definition held (s : sys) (fi a : Z) (row : WrittenRow) : Prop :=
  match last_row (P (rc s) j0) fi a with
  | Some r => r = row
  | None =>
      match flying (wmu s) fi a with
      | Some (r, c) => r = row /\ overrunLocked (rc s) j0 c fi = false
      | None => stored s fi a row
      end
  end.

Record linv (s : sys) : Prop := {
  li_held : forall fi a row, latest s j0 fi a = Some row -> ~ dropped s j0 -> ~ unrecorded s j0 -> held s fi a row;
  li_row : forall fi a row, latest s j0 fi a = Some row -> r_file row = fi /\ r_art row = a;
  li_asm : forall fi seq, asm s = Some (j0, fi, seq) -> forall a, latest s j0 fi a = None;
  li_untrust : forall fi seq, wmu s = Untrusting j0 fi seq -> asm s = Some (j0, fi, seq);
  li_carried : match wmu s with
               | FlushTaken _ _ o | FlushFailed _ _ o => forall fi seq, map_at o j0 !! fi = Some seq -> exists cur, O_ (rc s) j0 !! fi = Some cur /\ (seq <= cur)%nat
               | _ => True
               end
}.

(** Steps that change neither the instance's buffers nor its tables. *)
Lemma held_same s s' fi a row : P (rc s') j0 = P (rc s) j0 -> O_ (rc s') j0 = O_ (rc s) j0 -> wmu s' = wmu s ->
  written_articles (db s') !! (id_of j0, fi, a) = written_articles (db s) !! (id_of j0, fi, a) -> held s fi a row -> held s' fi a row.
Proof.
  intros E1 E2 E3 E4. unfold held, stored, overrunLocked. rewrite !at2_map_at. rewrite E1, E3.
  destruct (last_row _ fi a); [done|]. destruct (flying _ fi a) as [[r c]|]; [by rewrite E2|]. by rewrite E2, E4.
Qed.

Lemma linv_same s s' : P (rc s') j0 = P (rc s) j0 -> O_ (rc s') j0 = O_ (rc s) j0 -> wmu s' = wmu s -> latest s' = latest s -> dropped s' = dropped s ->
  (asm s' = asm s \/ (asm s' = None /\ forall fi seq, wmu s <> Untrusting j0 fi seq)) ->
  (unrecorded s' j0 \/ forall fi a, written_articles (db s') !! (id_of j0, fi, a) = written_articles (db s) !! (id_of j0, fi, a)) ->
  (unrecorded s j0 -> unrecorded s' j0) -> linv s -> linv s'.
Proof.
  intros E1 E2 E3 E4 E5 E6 E7 E8 []. split; rewrite ?E3, ?E4, ?E5.
  - intros fi a row Hl Hd Hu. destruct E7 as [E7|E7]; [done|]. apply (held_same s); try done. apply li_held0; auto.
  - done.
  - intros fi seq H. destruct E6 as [E6|[E6 _]]; rewrite E6 in H; [eauto|done].
  - intros fi seq H. destruct E6 as [E6|[_ E6]]; [rewrite E6; auto|by destruct (E6 fi seq)].
  - destruct (wmu s); try done; by rewrite E2.
Qed.

(** What [held] becomes when the buffers of the file are unchanged. *)
Lemma held_cases s fi a row : held s fi a row ->
  last_row (P (rc s) j0) fi a = Some row
  \/ (last_row (P (rc s) j0) fi a = None /\ exists c, flying (wmu s) fi a = Some (row, c) /\ overrunLocked (rc s) j0 c fi = false)
  \/ (last_row (P (rc s) j0) fi a = None /\ flying (wmu s) fi a = None /\ stored s fi a row).
Proof.
  unfold held. destruct (last_row _ fi a); [intros ->; by left|]. destruct (flying _ fi a) as [[r c]|]; [intros [-> H]; right; left; eauto|auto].
Qed.

Lemma linv_note j row s : asm s = None -> linv s -> linv (add_latest j row (add_fact j (r_file row) (FRow row) (upd_rc (noteWritten j row (rc s)) s))).
Proof.
  intros Ha []. split; simpl; try done.
  - intros fi a row' Hl Hd Hu. case_bool_decide as Hk.
    + simplify_eq. destruct Hk as (<- & -> & ->). unfold held. simpl. by rewrite rows_at_insert, bool_decide_eq_true_2, last_row_app, last_row_one, bool_decide_eq_true_2.
    + specialize (li_held0 fi a row' Hl Hd Hu). revert li_held0. unfold held. simpl. rewrite rows_at_insert. case_bool_decide as Hj; [|done].
      rewrite last_row_app, last_row_one, bool_decide_eq_false_2 by naive_solver. by rewrite <- Hj.
  - intros fi a row' Hl. case_bool_decide as Hk; [simplify_eq; naive_solver|by apply li_row0].
  - by rewrite Ha.
Qed.

Lemma linv_untrust j fi s : asm s = None -> rinv s -> linv s -> linv (let '(seq, r) := untrust_owe j fi (rc s) in forget j fi (upd_asm (Some (j, fi, seq)) (upd_rc r s))).
Proof.
  intros Ha Hri []. pose proof (untrust_owe_at j fi (rc s)) as H. destruct (untrust_owe j fi (rc s)) as [seq r]. destruct H as (Hs & Hseq & Hp & Hd & Ho). split; simpl.
  - intros fi' a row Hl Hdr Hu. case_bool_decide as Hk; [done|]. specialize (li_held0 fi' a row Hl Hdr Hu). revert li_held0. unfold held, stored, overrunLocked. simpl. rewrite !at2_map_at.
    rewrite Hp, Ho, (bool_decide_eq_false_2 (j0 = j /\ fi' = fi)) by done.
    assert (last_row (if bool_decide (j0 = j) then base.filter (fun row => r_file row <> fi) (P (rc s) j0) else P (rc s) j0) fi' a = last_row (P (rc s) j0) fi' a) as ->; [|done].
    case_bool_decide; [|done]. apply last_row_filter. intros r0 <- _ E. apply Hk. done.
  - intros fi' a row Hl. case_bool_decide; [done|by apply li_row0].
  - intros fi' sq E a. simplify_eq. by rewrite bool_decide_eq_true_2.
  - intros fi' sq E. apply li_untrust0 in E. congruence.
  - assert (forall o, in_flight (wmu s) = map_at o j0 ->
      (forall fi sq, map_at o j0 !! fi = Some sq -> exists cur, O_ (rc s) j0 !! fi = Some cur /\ (sq <= cur)%nat) ->
      forall fi sq, map_at o j0 !! fi = Some sq -> exists cur, O_ r j0 !! fi = Some cur /\ (sq <= cur)%nat) as Hc.
    { intros o Ef A fi' sq E. rewrite Ho. case_bool_decide; [|by apply A]. exists seq. split; [done|]. rewrite <- Ef in E. apply (ri_flight _ Hri) in E. lia. }
    destruct (wmu s); try done; by apply Hc.
Qed.

Lemma linv_take jobs live s : wmu s = FlushAsking jobs live -> rinv s -> linv s ->
  linv (let '(rows, r) := takeRowsLocked live (rc s) in
        let '(files, r) := takeFilesLocked live r in
        let '(o, r) := owedLocked live r in
        upd_dropped (fun j => dropped s j \/ live !! j = Some false) (upd_wmu (FlushTaken rows files o) (upd_rc r s))).
Proof.
  intros Ew Hri []. destruct (takeRowsLocked live (rc s)) as [rows r1] eqn:E1. destruct (takeFilesLocked live r1) as [files r2] eqn:E2. destruct (owedLocked live r2) as [o r3] eqn:E3.
  destruct (takeRows_at live (rc s) j0) as [R1 R2], (owedLocked_at live r2 j0) as [O1 O2].
  rewrite E1 in R1, R2. rewrite E3 in O1, O2. simpl in R1, R2, O1, O2.
  assert (owed r2 = owed (rc s) /\ pending r3 = pending r1) as (C2 & C3).
  { unfold takeRowsLocked in E1. unfold takeFilesLocked in E2. unfold owedLocked in E3. simplify_eq/=. done. }
  rewrite C2 in O1, O2. split; simpl; try done.
  - intros fi a row Hl Hd Hu. assert (live !! j0 <> Some false /\ ~ dropped s j0) as [Hlv Hd'] by tauto.
    specialize (li_held0 fi a row Hl Hd' Hu). rewrite (bool_decide_eq_true_2 (_ <> _)) in O2 by done.
    unfold held, stored, flying, overrunLocked. simpl. rewrite !at2_map_at. rewrite C3, R2, R1, O2, O1.
    unfold held, stored, flying in li_held0. rewrite Ew in li_held0. simpl in li_held0.
    destruct (live !! j0) as [[]|] eqn:El; [|done|].
    + rewrite bool_decide_eq_false_2, bool_decide_eq_true_2 by done. simpl. destruct (last_row (P (rc s) j0) fi a) as [r|].
      * simpl. split; [done|]. destruct (O_ (rc s) j0 !! fi) as [cur|]; simpl; [|done]. apply bool_decide_eq_false. lia.
      * simpl. destruct li_held0 as (A & B & C). split; [done|]. split; [done|]. by intros.
    + rewrite bool_decide_eq_true_2, bool_decide_eq_false_2 by done. simpl. destruct (last_row (P (rc s) j0) fi a) as [r|]; [done|].
      destruct li_held0 as (A & B & C). split; [done|]. split; [done|]. by intros.
  - intros fi seq H. rewrite O1 in H. case_bool_decide as Hl; [|by rewrite lookup_empty in H]. exists seq. rewrite O2, bool_decide_eq_true_2 by (rewrite Hl; done). done.
Qed.

(** A write of batches of other jobs. *)
Lemma row_after_other live fi a o bs : (forall b, b ∈ bs -> JobID b <> id_of j0) -> foldl (row_after live (id_of j0) fi a) o bs = o.
Proof.
  revert o. induction bs as [|b bs IH]; intros o H; simpl; [done|]. unfold row_after at 2. rewrite bool_decide_eq_false_2 by (apply H; by left).
  apply IH. intros b' Hb. apply H. by right.
Qed.

Lemma row_after_order live fi a o f order : NoDup order -> (forall j, JobID (f j) = id_of j) ->
  foldl (row_after live (id_of j0) fi a) o (f <$> order) = if bool_decide (j0 ∈ order) then row_after live (id_of j0) fi a o (f j0) else o.
Proof.
  intros Hnd Hf. assert (forall l o, j0 ∉ l -> foldl (row_after live (id_of j0) fi a) o (f <$> l) = o) as Hn.
  { intros l o' Hl. apply row_after_other. intros b (j & -> & Hj)%list_elem_of_fmap E. rewrite Hf in E. apply solo in E as ->. done. }
  case_bool_decide as Hj; [|by apply Hn]. apply list_elem_of_split in Hj as (l1 & l2 & ->). apply NoDup_app in Hnd as (_ & Hd & H2). apply NoDup_cons in H2 as [Hl2 _].
  rewrite fmap_app, fmap_cons, foldl_app. simpl. rewrite (Hn l1), Hn; [done|done|]. intros H. apply (Hd j0 H). by left.
Qed.

Lemma linv_flush_write rows files o order faults s : wmu s = FlushTaken rows files o -> NoDup order ->
  (forall j, j ∈ order <-> j ∈ in_snapshot rows files o) -> rinv s -> linv s ->
  linv (match ApplyRecord (batchOf id_of rows files o <$> order) (mkSession (db s) faults) with
        | (Ok _, ss) => upd_unrecorded (fun j => unrecorded s j \/ (j ∈ order /\ has_files (id_of j) (db s) = false))
                          (upd_wmu (FlushWritten o) (upd_db (ss_db ss) s))
        | (Err _, ss) => upd_wmu (FlushFailed rows files o) (upd_db (ss_db ss) s)
        end).
Proof.
  intros Ew Hnd Hord Hri []. pose proof (ApplyRecord_run (batchOf id_of rows files o <$> order) (db s) faults) as H.
  destruct (ApplyRecord _ _) as [[[]|e] ss]; [destruct H as [H _]|]; (split; simpl; try done).
  - intros fi a row Hl Hd Hu. specialize (li_held0 fi a row Hl Hd ltac:(tauto)). rewrite Ew in li_carried0.
    unfold held, stored. simpl. apply held_cases in li_held0 as [E|[(E & c & Hf & Hov)|(E & Hf & (H1 & H2 & H3))]]; rewrite E; [done| |].
    + rewrite Ew in Hf. simpl in Hf. apply fmap_Some in Hf as (r & Hr & [= -> ->]).
      assert (j0 ∈ order) as Hin.
      { apply Hord. unfold in_snapshot. rewrite !elem_of_union. left; left. apply elem_of_dom. unfold rows_at in Hr. destruct (rows !! j0); [by eexists|done]. }
      assert (has_files (id_of j0) (db s) = true) as Hh by (destruct (has_files _ _) eqn:?; [done|exfalso; apply Hu; by right]).
      split; [|split; [|done]].
      * rewrite H, pure_record_written, row_after_order, bool_decide_eq_true_2 by done. unfold row_after. rewrite bool_decide_eq_true_2 by done. simpl. by rewrite Hh, Hr.
      * intros cur Hc. unfold overrunLocked in Hov. rewrite at2_map_at, Hc in Hov. apply bool_decide_eq_false in Hov. pose proof (ri_seq _ Hri _ _ Hc).
        destruct (map_at o j0 !! fi) as [sq|] eqn:Eo; simpl in Hov; [|lia]. apply li_carried0 in Eo as (cur' & A & B). rewrite Hc in A. simplify_eq. f_equal. lia.
    + rewrite Ew in H2, Hf. simpl in H2, Hf. apply fmap_None in Hf.
      assert (O_ (rc s) j0 !! fi = None) as Hno by (destruct (O_ (rc s) j0 !! fi); [by specialize (H2 _ eq_refl); rewrite lookup_empty in H2|done]).
      split; [|split; [by rewrite Hno|done]]. rewrite H, pure_record_written, row_after_order by done. case_bool_decide; [|done]. unfold row_after.
      rewrite bool_decide_eq_true_2 by done. simpl. rewrite Hf. replace (if has_files _ _ then None else None) with (None : option WrittenRow) by by destruct (has_files _ _).
      destruct (existsb _ _) eqn:Ee; [|done]. apply existsb_exists in Ee as (v & Hv & Hn). apply list_elem_of_In, elem_owed_verdicts in Hv as (k & [sq Hk] & ->).
      unfold names in Hn. simpl in Hn. rewrite andb_true_r in Hn. apply bool_decide_eq_true in Hn as ->. apply li_carried0 in Hk as (cur & A & _). congruence.
  - intros fi a row Hl Hd Hu. specialize (li_held0 fi a row Hl Hd Hu). unfold held, stored in *. rewrite Ew in li_held0. simpl in *. rewrite H.
    destruct (last_row _ fi a); [done|]. destruct (_ <$> _) as [[r c]|]; [done|]. destruct li_held0 as (A & B & C). split; [done|]. split; [done|by intros].
  - by rewrite Ew in li_carried0.
Qed.

Lemma linv_remerge rows files o s : wmu s = FlushFailed rows files o -> linv s -> linv (upd_wmu Idle (upd_rc (remerge rows files o (rc s)) s)).
Proof.
  intros Ew []. destruct (remerge_at rows files o (rc s)) as (E1 & E2 & E3 & _). split; simpl; try done.
  intros fi a row Hl Hd Hu. specialize (li_held0 fi a row Hl Hd Hu). unfold held, stored. simpl. rewrite E3, last_row_app, E1.
  apply held_cases in li_held0 as [E|[(E & c & Hf & Hov)|(E & Hf & (H1 & H2 & H3))]]; rewrite E; [done| |].
  - rewrite Ew in Hf. simpl in Hf. apply fmap_Some in Hf as (r & Hr & [= -> ->]). rewrite last_row_filter; [by rewrite Hr|]. by intros r' -> _.
  - rewrite Ew in Hf, H2. simpl in Hf, H2. apply fmap_None in Hf. destruct (last_row (base.filter _ _) fi a) as [r|] eqn:El.
    + exfalso. destruct (overrunLocked (rc s) j0 (map_at o j0) fi) eqn:Eo.
      * rewrite last_row_gone in El; [done|]. intros r' -> _. congruence.
      * rewrite last_row_filter in El; [congruence|]. by intros r' -> _.
    + split; [done|]. split; [done|by intros].
Qed.

Lemma linv_settle r a s : pending r = pending (rc s) ->
  (forall fi cur, O_ r j0 !! fi = Some cur <-> O_ (rc s) j0 !! fi = Some cur /\ settling (wmu s) !! fi <> Some cur) ->
  (forall fi a, flying (wmu s) fi a = None) -> (a = asm s \/ a = None) -> linv s -> linv (upd_asm a (upd_wmu Idle (upd_rc r s))).
Proof.
  intros E1 E4 Hfl Ea []. split; simpl; try done.
  - intros fi b row Hl Hd Hu. specialize (li_held0 fi b row Hl Hd Hu). unfold held, stored in *. simpl. rewrite E1. rewrite Hfl in li_held0.
    destruct (last_row _ fi b); [done|]. destruct li_held0 as (A & B & C). split; [done|]. split; [|by intros]. intros cur [H Hn]%E4. by destruct Hn; apply B.
  - intros fi seq H. destruct Ea as [-> | ->]; [eauto|done].
Qed.

Lemma linv_untrust_write j fi seq faults s : wmu s = Untrusting j fi seq -> linv s ->
  linv (match ApplyRecord [untrust_batch id_of j fi] (mkSession (db s) faults) with
        | (Ok _, ss) => upd_wmu (Untrusted j fi seq) (upd_db (ss_db ss) s)
        | (Err _, ss) => upd_asm None (upd_wmu Idle (upd_db (ss_db ss) s))
        end).
Proof.
  intros Ew []. pose proof (ApplyRecord_run [untrust_batch id_of j fi] (db s) faults) as H.
  destruct (ApplyRecord _ _) as [[[]|e] ss]; [destruct H as [H _]|]; (split; simpl; try done).
  - intros fi' a row Hl Hd Hu. pose proof (li_held0 fi' a row Hl Hd Hu) as Hh. unfold held, stored in *. rewrite Ew in Hh. simpl in Hh |- *.
    destruct (last_row _ fi' a); [done|]. destruct Hh as (A & B & C).
    assert (O_ (rc s) j0 !! fi' = None) as Hno by (destruct (O_ (rc s) j0 !! fi'); [by specialize (B _ eq_refl); rewrite lookup_empty in B|done]).
    split; [|split; [by rewrite Hno|done]]. rewrite H, pure_record_written. simpl. unfold row_after. case_bool_decide as Hj; [|done]. simpl in Hj. apply solo in Hj as ->.
    simpl. replace (if has_files _ _ then None else None) with (None : option WrittenRow) by by destruct (has_files _ _).
    unfold names. simpl. case_bool_decide; [|done]. subst fi'. rewrite (li_asm0 fi seq) in Hl; [done|]. by apply li_untrust0.
  - intros fi' a row Hl Hd Hu. pose proof (li_held0 fi' a row Hl Hd Hu) as Hh. unfold held, stored in *. rewrite Ew in Hh. simpl in Hh |- *. rewrite H.
    destruct (last_row _ fi' a); [done|]. destruct Hh as (A & B & C). split; [done|]. split; [done|by intros].
Qed.

Lemma linv_apply j v files s : wmu s = Idle -> linv s ->
  linv (note_apply j v files (upd_wmu (Applying j v files) (upd_rc (apply_purge j v files (rc s)) s))).
Proof.
  intros Ew []. destruct (apply_purge_at j v files (rc s)) as (E1 & E2 & E3 & _). split; simpl; try done.
  - intros fi a row Hl Hd Hu. destruct (bool_decide (j0 = j) && _) eqn:En; [done|]. specialize (li_held0 fi a row Hl Hd Hu).
    unfold held, stored in *. rewrite Ew in li_held0. simpl in *. rewrite E1, E2.
    assert (last_row (if bool_decide (j0 = j) then base.filter (fun row => existsb (fun fv => names fv (r_file row) (r_art row)) v = false) (P (rc s) j0) else P (rc s) j0) fi a
            = last_row (P (rc s) j0) fi a) as ->.
    { destruct (bool_decide (j0 = j)); [|done]. apply last_row_filter. by intros r -> ->. }
    destruct (last_row _ fi a); [done|]. destruct li_held0 as (A & B & C). split; [done|]. split; [done|]. intros v' files' [= -> -> ->].
    by rewrite bool_decide_eq_true_2 in En.
  - intros fi a row Hl. destruct (bool_decide (j0 = j) && _); [done|]. by apply li_row0.
  - intros fi seq H a. destruct (bool_decide (j0 = j) && _); [done|]. by eapply li_asm0.
Qed.

Lemma linv_apply_write j v files faults s : wmu s = Applying j v files -> linv s ->
  linv (upd_wmu Idle (upd_db (ss_db (snd (ApplyRecord [mkBatch (id_of j) [] files v] (mkSession (db s) faults)))) s)).
Proof.
  intros Ew []. split; try done. intros fi a row Hl Hd Hu. specialize (li_held0 fi a row Hl Hd Hu). unfold held, stored in *. rewrite Ew in li_held0.
  cbn [rc db wmu upd_wmu upd_db flying settling] in *. destruct (last_row _ fi a); [done|]. destruct li_held0 as (A & B & C). split; [|split; [done|by intros]].
  pose proof (ApplyRecord_run [mkBatch (id_of j) [] files v] (db s) faults) as H. destruct (ApplyRecord _ _) as [[[]|e] ss]; cbn [snd]; [destruct H as [H _]|by rewrite H].
  rewrite H, pure_record_written. simpl. unfold row_after. case_bool_decide as Hj; [|done]. simpl in Hj. apply solo in Hj as ->. simpl.
  replace (if has_files _ _ then None else None) with (None : option WrittenRow) by by destruct (has_files _ _). by rewrite (C v files).
Qed.

Lemma linv_init d : linv (rec_init id_of d).
Proof.
  split; simpl; try done.
  - intros fi a row Hl _ _. unfold held, stored. simpl. unfold rows_at. rewrite lookup_empty. simpl.
    destruct (written_articles d !! _) as [[[off len] crc]|] eqn:E; simplify_eq/=. split; [done|]. split; [|by intros].
    intros cur H. unfold map_at in H. by rewrite !lookup_empty in H.
  - intros fi a row Hl. destruct (written_articles d !! _) as [[[off len] crc]|]; by simplify_eq/=.
Qed.

(** Steps of the writer that leave buffers and tables. *)
Lemma linv_writer s w : (forall fi a, flying w fi a = flying (wmu s) fi a) -> settling w = settling (wmu s) ->
  (forall j v files, w <> Applying j v files) -> (forall fi seq, w = Untrusting j0 fi seq -> asm s = Some (j0, fi, seq)) ->
  match w with FlushTaken _ _ _ | FlushFailed _ _ _ => False | _ => True end -> linv s -> linv (upd_wmu w s).
Proof.
  intros H1 H2 H3 H4 H5 []. split; simpl; try done.
  - intros fi a row Hl Hd Hu. specialize (li_held0 fi a row Hl Hd Hu). unfold held, stored in *. simpl. rewrite H1, H2.
    destruct (last_row _ fi a); [done|]. destruct (flying _ fi a) as [[r c]|]; [done|]. destruct li_held0 as (A & B & C). split; [done|]. split; [done|].
    intros v files Hw. by apply H3 in Hw.
  - by destruct w.
Qed.

Lemma linv_step s s' : rstep id_of s s' -> rinv s -> linv s -> linv s'.
Proof.
  intros Hstep Hr Hi. destruct Hstep.
  - by apply linv_note.
  - apply (linv_same s); destruct (Complete st); try done; try (by left); try (by right); simpl; unfold map_at; done.
  - by apply linv_untrust.
  - apply (linv_same s); try done; [|by right]. right. split; [done|]. intros fi seq. apply H.
  - apply linv_writer; try done; [by rewrite H0|by rewrite H0|]. intros fi' seq' [= -> -> ->]. done.
  - by apply linv_untrust_write.
  - destruct (settleLocked_at j fi seq (rc s)) as (E1 & E2 & E3 & E4). apply linv_settle; try done; [|by rewrite H|by right].
    intros fi' cur. rewrite E4, H. simpl. case_bool_decide as Hc.
    + destruct Hc as (-> & -> & Hc). rewrite Hc. rewrite bool_decide_eq_true_2 by done. rewrite lookup_singleton_eq. split; [done|]. intros [A B]. congruence.
    + split; [|tauto]. intros A. split; [done|]. case_bool_decide; [|by rewrite lookup_empty]. intros [-> ->]%lookup_singleton_Some. by apply Hc.
  - apply linv_writer; try done; by rewrite H.
  - apply linv_writer; try done; by rewrite H.
  - apply linv_writer; try done; by rewrite H.
  - by eapply linv_take.
  - by apply linv_flush_write.
  - by apply linv_remerge.
  - destruct (settle_at o (rc s)) as (E1 & E2 & E3 & E4).
    replace (upd_wmu Idle (upd_rc (settle o (rc s)) s)) with (upd_asm (asm s) (upd_wmu Idle (upd_rc (settle o (rc s)) s))) by done.
    apply linv_settle; try done; [|by rewrite H|by left]. intros fi cur. rewrite E4, H. done.
  - by apply linv_apply.
  - by apply linv_apply_write.
  - by destruct Hi.
  - apply (linv_same s); try done; [by left|]. right. intros fi a. simpl.
    pose proof (Admit_seeds id files (db s) faults) as H. destruct (Admit _ _ _) as [[[]|e] ss]; cbn [snd]; [by destruct H as [(-> & _) _]|by rewrite H].
  - pose proof (reclaim_exact id more (db s) faults) as H. apply (linv_same s); try done; [by left| |by intros; left]. simpl.
    destruct (decide (id_of j0 ∈ id :: more /\ id_of j0 ∉ dispatch_jobs (db s))) as [Hd|Hd]; [left; by right|right]. intros fi a.
    destruct (Reclaim _ _ _) as [[u|e] ss]; cbn [snd]; [|by rewrite H]. destruct H as (_ & _ & Hw). rewrite Hw.
    destruct (unreachable (db s) (id_of j0) && _) eqn:E; [|done]. exfalso. apply Hd. apply andb_true_iff in E as [E1 E2]. apply bool_decide_eq_true in E2.
    unfold unreachable in E1. apply andb_true_iff in E1 as [E1 _]. by apply bool_decide_eq_true in E1.
  - apply (linv_same s); try done; [by left|]. right. intros fi a. simpl. by rewrite H0.
Qed.

Lemma linv_reachable d s : rec_reachable id_of d s -> rinv s /\ linv s.
Proof.
  intros H. eapply (rtc_ind_l (fun s1 => rinv s1 /\ linv s1 -> rinv s /\ linv s)); [done| |exact H|split; [apply rinv_init|apply linv_init]].
  intros s1 s2 Hs _ IH [Hr Hl]. apply IH. split; [by eapply rinv_step|by eapply linv_step].
Qed.
End instance.

(** The changes a flush collects are marked one by one. *)
Lemma takeFetchPolicyChanges_steps id_of changes s : exists s', rtc (rstep id_of) s s' /\ rc s' = takeFetchPolicyChanges changes (rc s) /\ wmu s' = wmu s.
Proof.
  revert s. induction changes as [|[j st] l IH]; intros s; [by exists s|]. unfold takeFetchPolicyChanges in *. simpl.
  destruct (IH (let s' := upd_rc (markDirty j (FileIdx st) st (rc s)) s in if Complete st then add_fact j (FileIdx st) FDone s' else s')) as (s' & A & B & C).
  exists s'. split; [eapply rtc_l; [apply SDirty|exact A]|]. rewrite B, C. by destruct (Complete st).
Qed.

(** ** The promises *)


(** Where a noted row is. *)
Definition buffered (s : sys) (j : nat) (row : WrittenRow) : Prop :=
  row ∈ rows_at (pending (rc s)) j
  \/ match wmu s with FlushTaken rows _ _ | FlushFailed rows _ _ => row ∈ rows_at rows j | _ => False end.


(** *** An example: an untrust the store refuses *)
Definition ex_id (j : nat) : string := match j with O => "a" | S _ => "b" end%string.
Definition ex_db : tables := mkTables {[("a"%string, 0) := mkCols "f" 10 2 0 "f" 0]} ∅ {["a"%string]} ∅.
Definition ex_row1 : WrittenRow := mkRow 0 0 0 5 7.
Definition ex_row2 : WrittenRow := mkRow 0 1 5 5 9.

Lemma ex_snapshot (S : gset nat) : S = {[0%nat]} -> forall j, j ∈ [0%nat] <-> j ∈ S.
Proof. intros -> j. rewrite elem_of_singleton, list_elem_of_singleton. done. Qed.

Definition ex_note (row : WrittenRow) (s : sys) : sys := add_latest 0 row (add_fact 0 (r_file row) (FRow row) (upd_rc (noteWritten 0 row (rc s)) s)).

Definition ex1 : sys := ex_note ex_row1 (upd_current {["a"%string := 0%nat]} (rec_init ex_id ex_db)).
Definition ex_live : gmap nat bool := {[0%nat := true]}.
Definition ex_rows : gmap nat (list WrittenRow) := {[0%nat := [ex_row1]]}.
Definition ex2 : sys := upd_wmu (FlushAsking {[0%nat]} ex_live) ex1.
Definition ex3 : sys :=
  let '(rows, r) := takeRowsLocked ex_live (rc ex2) in
  let '(files, r) := takeFilesLocked ex_live r in
  let '(o, r) := owedLocked ex_live r in
  upd_dropped (fun j => dropped ex2 j \/ ex_live !! j = Some false) (upd_wmu (FlushTaken rows files o) (upd_rc r ex2)).
Definition ex4 : sys :=
  match ApplyRecord (batchOf ex_id ex_rows ∅ ∅ <$> [0%nat]) (mkSession (db ex3) []) with
  | (Ok _, ss) => upd_unrecorded (fun j => unrecorded ex3 j \/ (j ∈ [0%nat] /\ has_files (ex_id j) (db ex3) = false)) (upd_wmu (FlushWritten ∅) (upd_db (ss_db ss) ex3))
  | (Err _, ss) => upd_wmu (FlushFailed ex_rows ∅ ∅) (upd_db (ss_db ss) ex3)
  end.
Definition ex5 : sys := upd_wmu Idle (upd_rc (settle ∅ (rc ex4)) ex4).
Definition ex6 : sys := let '(seq, r) := untrust_owe 0 0 (rc ex5) in forget 0 0 (upd_asm (Some (0%nat, 0, seq)) (upd_rc r ex5)).
Definition ex7 : sys := upd_wmu (Untrusting 0 0 1) ex6.
Definition ex8 : sys :=
  match ApplyRecord [untrust_batch ex_id 0 0] (mkSession (db ex7) [true]) with
  | (Ok _, ss) => upd_wmu (Untrusted 0 0 1) (upd_db (ss_db ss) ex7)
  | (Err _, ss) => upd_asm None (upd_wmu Idle (upd_db (ss_db ss) ex7))
  end.
Definition ex9 : sys := ex_note ex_row2 ex8.

Lemma ex_start : rtc (rstep ex_id) (rec_init ex_id ex_db) ex2.
Proof.
  eapply rtc_l; [apply (SCurrent ex_id {["a"%string := 0%nat]})|].
  eapply rtc_l; [apply (SNote ex_id 0 ex_row1); reflexivity|]. fold ex1.
  eapply rtc_l; [apply SFlushLock; reflexivity|]. eapply rtc_l; [apply SFlushList; reflexivity|].
  assert (forall w w' s, upd_wmu w (upd_wmu w' s) = upd_wmu w s) as Hw by done. rewrite Hw.
  replace (listed (rc (upd_wmu FlushLocked ex1))) with ({[0%nat]} : gset nat) by (vm_compute; reflexivity).
  eapply rtc_l; [eapply (SFlushAsk ex_id {[0%nat]} ∅ 0); [reflexivity|by apply elem_of_singleton|reflexivity]|]. rewrite Hw.
  apply rtc_refl.
Qed.

Lemma ex_steps : rstep ex_id ex2 ex3 /\ rstep ex_id ex3 ex4 /\ rstep ex_id ex4 ex5 /\ rstep ex_id ex5 ex6 /\ rstep ex_id ex6 ex7 /\ rstep ex_id ex7 ex8 /\ rstep ex_id ex8 ex9.
Proof.
  split; [apply (SFlushTake ex_id {[0%nat]}); [reflexivity|vm_compute; reflexivity]|].
  split; [apply (SFlushWrite ex_id ex_rows ∅ ∅ [0%nat] [])|].
  { vm_compute; reflexivity. } { repeat constructor; by intros ?%elem_of_nil. } { apply ex_snapshot; vm_compute; reflexivity. }
  split; [apply SFlushSettle; vm_compute; reflexivity|].
  split; [apply (SUntrust ex_id 0 0); vm_compute; reflexivity|].
  split; [apply SUntrustLock; vm_compute; reflexivity|].
  split; [apply SUntrustWrite; vm_compute; reflexivity|].
  apply SNote. vm_compute; reflexivity.
Qed.

(** Row 1 is written, then the file is untrusted while the store fails, then
    row 2 is noted. *)
Lemma ex_reachable : rec_reachable ex_id ex_db ex9.
Proof.
  destruct ex_steps as (H1 & H2 & H3 & H4 & H5 & H6 & H7). unfold rec_reachable. etransitivity; [apply ex_start|].
  repeat (eapply rtc_l; [eassumption|]). apply rtc_refl.
Qed.

Lemma ex_solo j' : ex_id j' = ex_id 0 -> j' = 0%nat.
Proof. by destruct j'. Qed.


