(* ===== verification/Verify.v ===== *)
(** * What a restart believes ([internal/app/verify.go])

    After a restart (or before a retry) the recorded rows of every file that
    is not complete are read back from disk: a row is kept when the file's
    bytes have its checksum, and the rest are deleted.  A file whose articles
    are all accounted for is finished.  The disk is the tree of [FileTree]; a
    context is cancelled where its check is given a fault. *)
From S2P Require Import Prelude Crc Rows GoBytes GoText Sanitize FileTable Durable FileTree PostJob Finalize PostPipeline.
From stdpp Require Import base numbers gmap sorting list strings.
From Stdlib Require Import ZArith Lia.
Local Open Scope Z_scope.
Local Open Scope go_scope.

Inductive verify_err : Type := VOS (e : errno) | VNotOneComponent | VCancelled | VNoProgress.

(** [errVerifyFault]: the file or directory, and the error. *)
Record verify_fault : Type := mkFault { vf_path : list (list Z); vf_err : verify_err }.

Definition os_call {A} (c : fsM (result errno A)) : fsM (result verify_err A) :=
  do! r <- c in fret (match r with Ok a => Ok a | Err e => Err (VOS e) end).
Definition ctx_err : fsM (result verify_err unit) :=
  do! r <- noop in fret (match r with Ok _ => Ok tt | Err _ => Err VCancelled end).

(** ** Opening ([internal/fsutil/nofollow_unix.go]) *)
Definition CheckOneComponent (name : list Z) : result verify_err unit :=
  if bool_decide (name = [] \/ name = bs "." \/ name = bs ".." \/ 47 ∈ name) then Err VNotOneComponent else Ok tt.

Definition openRoot (dir : list (list Z)) : fsM (result verify_err unit) :=
  os_call (OpenRoot dir).

(** Anything but a regular file in its place is refused. *)
Definition OpenNoFollow (dir : list (list Z)) (name : list Z) : fsM (result verify_err unit) :=
  match CheckOneComponent name with
  | Err e => fret (Err e)
  | Ok _ => os_call (call (fun t => (match t !! (dir ++ [name]) with
                                     | Some (File _) => Ok tt
                                     | Some _ => Err EINVAL
                                     | None => Err ENOENT
                                     end, t)))
  end.

(** ** Reading one row back *)
Inductive read_end : Type := EOF | ReadErr (e : errno).

(** [ReadAt]: the bytes read, and why there are no more. *)
Definition preadAt (p : list (list Z)) (n : nat) (off : Z) : fsM (list Z * option read_end) :=
  do! f <- next_fault in
  do! t <- get in
  let content := match t !! p with Some (File c) => c | _ => [] end in
  if bool_decide (off < 0) then fret ([], Some (ReadErr EINVAL))
  else
    let data := take n (drop (Z.to_nat off) content) in
    match f with
    | Some (e, k) => fret (take k data, if bool_decide (n <= length (take k data))%nat then None else Some (ReadErr e))
    | None => fret (data, if bool_decide (length data < n)%nat then Some EOF else None)
    end.

Definition verifyBufSize : Z := 2 ^ 20.

(** [crc32.Update] with the IEEE table. *)
Definition crc_Update (crc : Z) (p : list Z) : Z := Z.lxor (crc_raw (Z.lxor crc ones32) p) ones32.

(** [rowMatches]; every turn of the loop but the last reads a whole buffer. *)
Fixpoint match_loop (fuel : nat) (p : list (list Z)) (r : WrittenRow) (crc done_ : Z) (B : Z) : fsM (result verify_err bool) :=
  if bool_decide (done_ < r_len r) then
    match fuel with
    | O => fret (Err VNoProgress)
    | S fuel =>
        let n := Z.to_nat (Z.min B (r_len r - done_)) in
        do! res <- preadAt p n (wraps 64 (r_off r + done_)) in
        let '(data, err) := res in
        let crc := crc_Update crc data in
        if bool_decide (length data = n) then match_loop fuel p r crc (done_ + Z.of_nat (length data)) B
        else match err with
             | Some EOF => fret (Ok false)
             | Some (ReadErr e) => fret (Err (VOS e))
             | None => fret (Err VNoProgress)
             end
    end
  else fret (Ok (bool_decide (crc = r_crc r))).

Definition rowMatches (p : list (list Z)) (r : WrittenRow) (B : Z) : fsM (result verify_err bool) :=
  match_loop (Z.to_nat (r_len r)) p r 0 0 B.

(** ** Rows that share bytes *)
Definition intersects (a b : WrittenRow) : bool :=
  bool_decide (r_off a < wraps 64 (r_off b + r_len b)) && bool_decide (r_off b < wraps 64 (r_off a + r_len a)).

Record fileReadback : Type := mkReadback {
  deleteAll : bool;
  deleted : list Z;
  verified : list WrittenRow;
  failed : list Z
}.

(** The first loop of [resolveRows]: which rows are kept. *)
Fixpoint keep_rows (rows : list WrittenRow) (matches : list bool) (last_ : option WrittenRow) : list bool :=
  match rows, matches with
  | r :: rows, m :: matches =>
      if negb m then false :: keep_rows rows matches last_
      else if (match last_ with Some l => intersects r l | None => false end) then false :: keep_rows rows matches last_
      else true :: keep_rows rows matches (Some r)
  | _, _ => []
  end.

(** The second: the rows not kept. *)
Fixpoint drop_rows (rows : list WrittenRow) (kept : list bool) (vs : list WrittenRow) (before : nat) : list Z * list Z :=
  match rows, kept with
  | r :: rows, k :: kept =>
      if k : bool then drop_rows rows kept vs (S before)
      else
        let hit := (match before with O => false | S b => match vs !! b with Some v => intersects r v | None => false end end)
                   || match vs !! before with Some v => intersects r v | None => false end in
        let '(fl, dl) := drop_rows rows kept vs before in
        (if hit then r_art r :: fl else fl, r_art r :: dl)
  | _, _ => ([], [])
  end.

Definition resolveRows (rows : list WrittenRow) (matches : list bool) : fileReadback :=
  let kept := keep_rows rows matches None in
  let vs := (fun rk => fst rk) <$> base.filter (fun rk => snd rk = true) (zip rows kept) in
  let '(fl, dl) := drop_rows rows kept vs 0 in
  mkReadback false dl vs fl.

(** ** One file *)
Fixpoint match_each (p : list (list Z)) (rows : list WrittenRow) (B : Z) : fsM (result verify_err (list bool)) :=
  match rows with
  | [] => fret (Ok [])
  | r :: rows =>
      try! _ <- ctx_err in
      try! m <- rowMatches p r B in
      try! ms <- match_each p rows B in
      fret (Ok (m :: ms))
  end.

Definition all_deleted : fileReadback := mkReadback true [] [] [].

Definition readBackFile (dir : list (list Z)) (name : list Z) (rows : list WrittenRow) (B : Z) (retry : bool) : fsM (result verify_fault fileReadback) :=
  let path := dir ++ [name] in
  let as_fault {A} (c : fsM (result verify_err A)) : fsM (result verify_fault A) :=
    do! r <- c in fret (match r with Ok a => Ok a | Err e => Err (mkFault path e) end) in
  do! root <- openRoot dir in
  match root with
  | Err (VOS ENOENT) => if retry then fret (Ok all_deleted) else fret (Err (mkFault dir (VOS ENOENT)))
  | Err e => fret (Err (mkFault dir e))
  | Ok _ =>
      do! fh <- OpenNoFollow dir name in
      match fh with
      | Err (VOS ENOENT) => fret (Ok all_deleted)
      | Err e => fret (Err (mkFault path e))
      | Ok _ =>
          do! synced <- noop in
          if negb (is_ok synced) then fret (Ok all_deleted)
          else
            try! _ <- as_fault (os_call noop) in
            let valid := base.filter (fun r => HasValidShape r = true /\ r_len r <> 0) rows in
            let empty := base.filter (fun r => HasValidShape r = true /\ r_len r = 0) rows in
            let invalid := r_art <$> base.filter (fun r => HasValidShape r = false) rows in
            try! ms <- as_fault (match_each path valid B) in
            let out := resolveRows valid ms in
            fret (Ok (mkReadback false
                        (deleted out ++ invalid ++ (r_art <$> base.filter (fun r => r_crc r <> 0) empty))
                        (verified out ++ base.filter (fun r => r_crc r = 0) empty)
                        (failed out)))
      end
  end.

(** ** Finishing a file *)
Definition fileFinishable (ft : option FileTable.FileTable) (fi policy : Z) (complete : bool) (resolved : Z -> bool) : bool :=
  match ft with
  | None => false
  | Some ft =>
      if bool_decide (fi < 0) || bool_decide (fi >= Z.of_nat (FileTable.NumFiles ft)) then false
      else if negb (bool_decide (policy = 0)) || complete then false   (* FetchAlways is 0 *)
      else
        let '(lo, hi) := FileTable.Range ft (Z.to_nat fi) in
        if bool_decide (hi <= lo)%nat then false
        else forallb (fun i => resolved (Z.of_nat i)) (seq lo (hi - lo))
  end.

(** [fsutil.ShrinkAfterSync] *)
Definition shrinkTo (p : list (list Z)) (end_ : Z) : fsM (result verify_err bool) :=
  if bool_decide (end_ > 0) then
    try! size <- os_call (call (fun t => (Ok (match t !! p with Some (File c) => Z.of_nat (length c) | _ => 0 end), t))) in
    if bool_decide (size > end_) then
      try! _ <- os_call (call (fun t => (Ok tt, match t !! p with Some (File c) => <[p := File (take (Z.to_nat end_) c)]> t | _ => t end))) in
      fret (Ok true)
    else fret (Ok false)
  else fret (Ok false).

Definition ShrinkAfterSync (p : list (list Z)) (end_ : Z) : fsM (result verify_err unit) :=
  try! shrunk <- shrinkTo p end_ in
  if negb shrunk then fret (Ok tt) else os_call noop.

Definition finishFileByPath (dir : list (list Z)) (name : list Z) (maxEnd prealloc : Z) : fsM (result verify_err unit) :=
  let path := dir ++ [name] in
  try! _ <- openRoot dir in
  try! _ <- OpenNoFollow dir name in
  do! r <- (try! size <- os_call (call (fun t => (Ok (match t !! path with Some (File c) => Z.of_nat (length c) | _ => 0 end), t))) in
            ShrinkAfterSync path (if bool_decide (size = prealloc) then maxEnd else 0)) in
  do! closed <- os_call noop in
  fret (match r, closed with Ok _, Err e => Err e | _, _ => r end).

Definition max_end (rows : list WrittenRow) : Z :=
  foldl (fun m r => if bool_decide (r_len r > 0) then Z.max m (wraps 64 (r_off r + r_len r)) else m) 0 rows.

Definition finishIfResolved (ft : option FileTable.FileTable) (f : FileRow) (dir : list (list Z)) (name : list Z)
    (out : fileReadback) (retry : bool) : fsM (result verify_err bool) :=
  if deleteAll out || bool_decide (verified out = []) then fret (Ok false)
  else
    let arts := (r_art <$> verified out) ++ (if retry then [] else failed out) in
    if negb (fileFinishable ft (FileIndex f) (fr_FetchPolicy f) (fr_Complete f) (fun i => bool_decide (i ∈ arts))) then fret (Ok false)
    else
      try! _ <- ctx_err in
      try! _ <- finishFileByPath dir name (max_end (verified out))
                  (match ft with Some ft => FileTable.Bytes ft (Z.to_nat (FileIndex f)) | None => 0 end) in
      fret (Ok true).

(** ** All files *)
Record verifyResult : Type := mkVResult {
  Verdicts : list FileVerdict;
  Verified : gmap Z (list WrittenRow);
  FailedArts : gmap Z (list Z)
}.

Definition rowsOf (rows : list WrittenRow) (fi : Z) : list WrittenRow := sortedClone (base.filter (fun r => r_file r = fi) rows).

(** [pipeline.jobFileLocation]: the recorded name in the job's directory. *)
Definition jobFileLocation (jobDir : list (list Z)) (recorded : string) : result verify_err (list (list Z) * list Z) :=
  match CheckOneComponent (bytes_of recorded) with
  | Ok _ => Ok (jobDir, bytes_of recorded)
  | Err e => Err e
  end.

Definition put_nonempty {A} (fi : Z) (l : list A) (m : gmap Z (list A)) : gmap Z (list A) :=
  match l with [] => m | _ => <[fi := l]> m end.

Definition verify_file (ft : option FileTable.FileTable) (jobDir : list (list Z)) (rows : list WrittenRow) (retry : bool) (B : Z)
    (res : verifyResult) (f : FileRow) : fsM (result verify_fault verifyResult) :=
  let fi := FileIndex f in
  let fr := rowsOf rows fi in
  if bool_decide (fr = []) then fret (Ok res)
  else if fr_Complete f then fret (Ok (mkVResult (Verdicts res) (<[fi := fr]> (Verified res)) (FailedArts res)))
  else if bool_decide (fr_Filename f = EmptyString) then
    fret (Ok (mkVResult (Verdicts res ++ [mkVerdict fi true [] false false]) (Verified res) (FailedArts res)))
  else
    let path := jobDir ++ [bytes_of (fr_Filename f)] in
    match jobFileLocation jobDir (fr_Filename f) with
    | Err e => fret (Err (mkFault path e))
    | Ok (dir, name) =>
        try! out <- readBackFile dir name fr B retry in
        do! fin <- finishIfResolved ft f dir name out retry in
        match fin with
        | Err e => fret (Err (mkFault path e))
        | Ok finish =>
            let v := mkVerdict fi (deleteAll out) (deleted out) false finish in
            fret (Ok (mkVResult
                        (if DeleteAll v || negb (bool_decide (DeleteArtIdxs v = [])) || SetComplete v then Verdicts res ++ [v] else Verdicts res)
                        (put_nonempty fi (verified out) (Verified res))
                        (put_nonempty fi (failed out) (FailedArts res))))
        end
    end.

Fixpoint verify_files (ft : option FileTable.FileTable) (jobDir : list (list Z)) (rows : list WrittenRow) (retry : bool) (B : Z)
    (files : list FileRow) (res : verifyResult) : fsM (result verify_fault verifyResult) :=
  match files with
  | [] => fret (Ok res)
  | f :: files => try! res <- verify_file ft jobDir rows retry B res f in verify_files ft jobDir rows retry B files res
  end.

Definition verifyJobFiles (ft : option FileTable.FileTable) (files : list FileRow) (rows : list WrittenRow) (jobDir : list (list Z)) (retry : bool)
    : fsM (result verify_fault verifyResult) :=
  verify_files ft jobDir rows retry verifyBufSize files (mkVResult [] ∅ ∅).

(** ** Files nothing records *)

(** Removing regular files of the job directory by name. *)
Fixpoint remove_named (dir : list (list Z)) (P : list Z -> bool) (names : list (list Z)) : fsM unit :=
  match names with
  | [] => fret tt
  | n :: rest =>
      do! t <- get in
      do! _ <- (if is_file t (dir ++ [n]) && P n then os_Remove (dir ++ [n]) else noop) in
      remove_named dir P rest
  end.

Definition clean_names (dir : list (list Z)) (P : list Z -> bool) : fsM unit :=
  do! root <- openRoot dir in
  match root with
  | Err _ => fret tt
  | Ok _ =>
      do! entries <- ReadDir dir in
      match entries with
      | Err _ => fret tt
      | Ok names => remove_named dir P names
      end
  end.

Definition recorded_names (files : list FileRow) : list (list Z) :=
  (fun f => bytes_of (fr_Filename f)) <$> base.filter (fun f => fr_Filename f <> EmptyString) files.

Definition cleanUnrecordedFetchingFiles (jobDir : list (list Z)) (files : list FileRow) : fsM unit :=
  do! _ <- CleanupStageDirs jobDir in
  clean_names jobDir (fun n => negb (bool_decide (n ∈ recorded_names files))).

Section retry.
Variables (NFC stripDiacritics : list Z -> list Z) (sanitize : SanitizeOptions).

Definition unrecordedSubjects (ft : FileTable.FileTable) (files : list FileRow) : list (list Z) :=
  omap (fun fi => if existsb (fun f => bool_decide (fr_Filename f = EmptyString) && bool_decide (FileIndex f = Z.of_nat fi)) files then
                    let cand := SanitizeFilename NFC stripDiacritics (bytes_of (FileTable.Subject ft fi)) sanitize in
                    if bool_decide (cand <> [] /\ cand ∉ recorded_names files) then Some cand else None
                  else None) (seq 0 (FileTable.NumFiles ft)).

Definition cleanUnrecordedRetryFiles (jobDir : list (list Z)) (ft : FileTable.FileTable) (files : list FileRow) : fsM unit :=
  do! _ <- CleanupStageDirs jobDir in
  match unrecordedSubjects ft files with
  | [] => fret tt
  | names => clean_names jobDir (fun n => bool_decide (n ∈ names))
  end.
End retry.
