(* ===== verification/VerifyProps.v ===== *)
(** * What a restart believes is on disk

    Every row the verifier keeps describes bytes that are in the file, with
    their checksum; every other row is deleted; rows kept of one file share no
    byte; and after its verdicts are applied the store holds only such rows. *)
From S2P Require Import Prelude Crc Rows GoBytes GoText Sanitize FileTable Durable DurableProps FileTree FileTreeProps PostJob Finalize PostPipeline Verify.
From stdpp Require Import base numbers gmap sorting list strings.
From Stdlib Require Import ZArith Lia.
Local Open Scope Z_scope.
Local Open Scope go_scope.

(** ** Checksums in pieces *)
Lemma crc_Update_app crc a b : crc_Update (crc_Update crc a) b = crc_Update crc (a ++ b).
Proof.
  unfold crc_Update, crc_raw. rewrite foldl_app. f_equal. f_equal. rewrite Z.lxor_assoc, Z.lxor_nilpotent, Z.lxor_0_r. done.
Qed.

Lemma crc_Update_nil crc : crc_Update crc [] = crc.
Proof. unfold crc_Update, crc_raw. simpl. by rewrite Z.lxor_assoc, Z.lxor_nilpotent, Z.lxor_0_r. Qed.

Lemma crc_Update_0 bs : crc_Update 0 bs = ChecksumIEEE bs.
Proof. unfold crc_Update, ChecksumIEEE. by rewrite Z.lxor_0_l. Qed.

(** The [n] bytes of a file from [off]. *)
Definition slice (c : list Z) (off n : Z) : list Z := take (Z.to_nat n) (drop (Z.to_nat off) c).

(** The file's bytes are the row's. *)
Definition row_on_disk (c : list Z) (r : WrittenRow) : Prop :=
  0 <= r_off r /\ 0 <= r_len r /\ r_off r + r_len r <= Z.of_nat (length c) /\ ChecksumIEEE (slice c (r_off r) (r_len r)) = r_crc r.

Lemma wp_next_fault Q t : (forall f, Q f t) -> wp next_fault Q t.
Proof. intros H [|f l]; apply H. Qed.

Lemma wp_os_noop Q t : Q (Ok tt) t -> (forall e, Q (Err (VOS e)) t) -> wp (os_call noop) Q t.
Proof. intros H1 H2. apply wp_bind, wp_noop. intros [[]|e]; by apply wp_ret. Qed.

Lemma wp_ctx_err Q t : Q (Ok tt) t -> Q (Err VCancelled) t -> wp ctx_err Q t.
Proof. intros H1 H2. apply wp_bind, wp_noop. intros [[]|e]; by apply wp_ret. Qed.

(** ** Reading a row *)
Definition good_match (c : list Z) (r : WrittenRow) (res : result verify_err bool) : Prop :=
  match res with
  | Ok b => b = true <-> row_on_disk c r
  | Err VNoProgress => False
  | Err _ => True
  end.

Lemma wp_preadAt p n off c Q t : t !! p = Some (File c) ->
  (forall (data : list Z) e, data = [] /\ off < 0 \/ (length data < n)%nat -> Q (data, Some (ReadErr e)) t) ->
  (0 <= off -> Q (take n (drop (Z.to_nat off) c), if bool_decide (length (take n (drop (Z.to_nat off) c)) < n)%nat then Some EOF else None) t) ->
  wp (preadAt p n off) Q t.
Proof.
  intros Hc He Hok. unfold preadAt. apply wp_bind, wp_next_fault. intros f. apply wp_bind, wp_get. rewrite Hc.
  destruct (bool_decide_reflect (off < 0)); [apply wp_ret, He; by left|]. assert (0 <= off) as H0 by lia. specialize (Hok H0). destruct f as [[e k]|]; [|by apply wp_ret].
  apply wp_ret. set (d := take n (drop (Z.to_nat off) c)) in *. destruct (bool_decide_reflect (n <= length (take k d))%nat) as [Hn|Hn].
  - assert (length d <= n)%nat by (unfold d; rewrite length_take; lia). rewrite length_take in Hn.
    rewrite take_ge by lia. rewrite bool_decide_eq_false_2 in Hok by lia. done.
  - apply He. right. lia.
Qed.

Lemma slice_split c off n m : 0 <= off -> 0 <= n <= m -> slice c off m = slice c off n ++ slice c (off + n) (m - n).
Proof.
  intros Ho Hn. unfold slice. rewrite Z2Nat.inj_add, <- drop_drop by lia. set (l := drop (Z.to_nat off) c).
  rewrite <- (take_drop (Z.to_nat n) (take (Z.to_nat m) l)) at 1. rewrite take_take, Nat.min_l by lia. f_equal.
  rewrite skipn_firstn_comm. f_equal. lia.
Qed.

Lemma length_slice c off n : 0 <= off -> 0 <= n -> length (slice c off n) = Z.to_nat n <-> n = 0 \/ off + n <= Z.of_nat (length c).
Proof. intros. unfold slice. rewrite length_take, length_drop. lia. Qed.

(** A nonnegative wrapped sum of two nonnegative integers did not wrap. *)
Lemma wraps_sum x y : 0 <= x <= MaxInt64 -> 0 <= y <= MaxInt64 -> 0 <= wraps 64 (x + y) -> wraps 64 (x + y) = x + y.
Proof.
  intros Hx Hy H. unfold MaxInt64 in *. unfold wraps in *. change (2 ^ (64 - 1)) with 9223372036854775808 in *. change (2 ^ 63) with 9223372036854775808 in *.
  change (2 ^ 64) with 18446744073709551616 in *. rewrite Z.mod_small in * by lia. case_decide; lia.
Qed.

Definition row_i64 (r : WrittenRow) : Prop := r_off r <= MaxInt64 /\ r_len r <= MaxInt64.

Lemma wp_match_loop p r c B t : t !! p = Some (File c) -> row_i64 r -> 0 <= r_off r -> 0 < r_len r -> 0 < B ->
  forall fuel crc d, 0 <= d <= r_len r -> r_len r - d <= Z.of_nat fuel -> d = 0 \/ r_off r + d <= Z.of_nat (length c) ->
  wp (match_loop fuel p r crc d B)
     (fun res t' => t' = t /\ match res with
        | Ok b => b = true <-> r_off r + r_len r <= Z.of_nat (length c) /\ crc_Update crc (slice c (r_off r + d) (r_len r - d)) = r_crc r
        | Err VNoProgress => False
        | Err _ => True
        end) t.
Proof.
  intros Hc [Hi1 Hi2] Ho Hl HB. induction fuel as [|fuel IH]; intros crc d Hd Hf Hend; simpl; case_bool_decide as Hlt; try lia.
  1,3: apply wp_ret; split; [done|]; assert (d = r_len r) as -> by lia; rewrite bool_decide_eq_true, Z.sub_diag; unfold slice; simpl;
    rewrite crc_Update_nil; split; [intros ->; split; [lia|done]|by intros [_ ?]].
  set (n := Z.to_nat (Z.min B (r_len r - d))). assert (0 < n)%nat as Hn by lia.
  apply wp_bind. apply (wp_preadAt p n _ c); [done| |].
  - intros data e H. rewrite bool_decide_eq_false_2; [by apply wp_ret|]. destruct H as [[-> _]|H]; simpl; lia.
  - intros Hoff. assert (wraps 64 (r_off r + d) = r_off r + d) as -> by (apply wraps_sum; lia).
    change (take n (drop (Z.to_nat (r_off r + d)) c)) with (take n (drop (Z.to_nat (r_off r + d)) c)).
    assert (take n (drop (Z.to_nat (r_off r + d)) c) = slice c (r_off r + d) (Z.of_nat n)) as -> by (unfold slice; by rewrite Nat2Z.id).
    case_bool_decide as Hfull.
    + eapply wp_mono; [apply IH|].
      * rewrite Hfull. lia.
      * rewrite Hfull. lia.
      * right. pose proof (proj1 (length_slice c (r_off r + d) (Z.of_nat n) ltac:(lia) ltac:(lia)) ltac:(rewrite Hfull; lia)). lia.
      * intros res t' [-> H]. split; [done|]. destruct res as [b|[]]; try done. rewrite H, Hfull, crc_Update_app.
        rewrite (slice_split c (r_off r + d) (Z.of_nat n) (r_len r - d)) by lia. by rewrite Z.add_assoc, Z.sub_add_distr.
    + rewrite bool_decide_eq_true_2; [|unfold slice in *; rewrite length_take in *; lia]. apply wp_ret. split; [done|]. split; [done|]. intros [H _].
      exfalso. apply Hfull. rewrite (proj2 (length_slice c (r_off r + d) (Z.of_nat n) ltac:(lia) ltac:(lia))); lia.
Qed.

Lemma wp_rowMatches p r c B t : t !! p = Some (File c) -> row_i64 r -> HasValidShape r = true -> r_len r <> 0 -> 0 < B ->
  wp (rowMatches p r B) (fun res t' => t' = t /\ good_match c r res) t.
Proof.
  intros Hc Hi Hs Hl HB. unfold HasValidShape in Hs. apply andb_true_iff in Hs as [H1 H2]. apply bool_decide_eq_true in H1, H2. unfold rowMatches.
  eapply wp_mono; [apply wp_match_loop; try done; lia|]. intros res t' [-> H]. split; [done|]. unfold good_match, row_on_disk.
  destruct res as [b|[]]; try done. rewrite H, Z.add_0_r, Z.sub_0_r, crc_Update_0. split; [intros [A B']; split; [lia|]; split; [lia|]; done|tauto].
Qed.

Lemma wp_match_each p c B t : t !! p = Some (File c) -> 0 < B ->
  forall rows, Forall (fun r => row_i64 r /\ HasValidShape r = true /\ r_len r <> 0) rows ->
  wp (match_each p rows B) (fun res t' => t' = t /\ match res with Ok ms => Forall2 (fun r m => m = true <-> row_on_disk c r) rows ms | Err VNoProgress => False | Err _ => True end) t.
Proof.
  intros Hc HB. induction 1 as [|r rows (Hi & Hs & Hl) _ IH]; simpl; [by apply wp_ret|].
  apply wp_try, wp_ctx_err; [|done]. apply wp_try. eapply wp_mono; [by apply wp_rowMatches|]. intros [m|e] t' [-> Hm]; [|by destruct e].
  apply wp_try. eapply wp_mono; [exact IH|]. intros [ms|e] t' [-> Hms]; [|by destruct e]. apply wp_ret. split; [done|]. by constructor.
Qed.

(** ** Rows that share bytes *)
Definition before_ (a b : WrittenRow) : Prop := r_off a + r_len a <= r_off b.

Definition kept_of (rows : list WrittenRow) (kept : list bool) : list WrittenRow := fst <$> base.filter (fun rk => snd rk = true) (zip rows kept).

(** A row that claims bytes, below the end of every file. *)
Definition claims (r : WrittenRow) : Prop := 0 <= r_off r /\ 0 < r_len r /\ r_off r + r_len r <= MaxInt64.

Lemma wraps_end r : claims r -> wraps 64 (r_off r + r_len r) = r_off r + r_len r.
Proof. intros (H1 & H2 & H3). apply wraps64_id. unfold in_i64, MinInt64. lia. Qed.

Lemma not_intersects l r : claims l -> claims r -> r_off l <= r_off r -> intersects r l = false -> before_ l r.
Proof.
  intros Hl Hr Ho H. unfold intersects in H. rewrite !wraps_end in H by done. destruct Hl as (? & ? & ?), Hr as (? & ? & ?).
  rewrite (bool_decide_eq_true_2 (r_off l < _)), andb_true_r in H by lia. apply bool_decide_eq_false in H. unfold before_. lia.
Qed.

Lemma keep_rows_spec rows : forall ms last_, length ms = length rows -> StronglySorted (fun a b => r_off a <= r_off b) rows ->
  (forall r, (r, true) ∈ zip rows ms -> claims r) -> (forall l, last_ = Some l -> claims l /\ Forall (fun r => r_off l <= r_off r) rows) ->
  let kept := keep_rows rows ms last_ in
  length kept = length rows /\ StronglySorted before_ (kept_of rows kept) /\ (forall l, last_ = Some l -> Forall (before_ l) (kept_of rows kept))
  /\ (forall r, r ∈ kept_of rows kept -> (r, true) ∈ zip rows ms).
Proof.
  unfold kept_of. induction rows as [|r rows IH]; intros [|m ms] last_ Hlen Hs Hc Hl; try done.
  - simpl. split; [done|]. split; [constructor|]. split; [intros; constructor|]. by intros r ?%elem_of_nil.
  - apply StronglySorted_inv in Hs as [Hs Hr]. injection Hlen as Hlen.
    assert (forall l, last_ = Some l -> claims l /\ Forall (fun r => r_off l <= r_off r) rows) as Hl'.
    { intros l E. destruct (Hl l E) as [A B]. split; [done|]. by apply Forall_cons in B as [_ B]. }
    assert (forall r, (r, true) ∈ zip rows ms -> claims r) as Hc' by (intros x Hx; apply Hc; by right).
    assert (let kept := false :: keep_rows rows ms last_ in
      length kept = length (r :: rows) /\ StronglySorted before_ (fst <$> base.filter (fun rk => snd rk = true) (zip (r :: rows) kept))
      /\ (forall l, last_ = Some l -> Forall (before_ l) (fst <$> base.filter (fun rk => snd rk = true) (zip (r :: rows) kept)))
      /\ (forall x, x ∈ fst <$> base.filter (fun rk => snd rk = true) (zip (r :: rows) kept) -> (x, true) ∈ zip (r :: rows) (m :: ms))) as Hskip.
    { destruct (IH ms last_ Hlen Hs Hc' Hl') as (A & B & C & D). simpl. split; [by rewrite A|]. split; [done|]. split; [done|].
      intros x Hx. right. by apply D. }
    cbn [keep_rows]. destruct m; simpl; [|exact Hskip].
    destruct (match last_ with Some l => intersects r l | None => false end) eqn:Ei; [exact Hskip|].
    assert (claims r) as Hcr by (apply Hc; by left).
    destruct (IH ms (Some r) Hlen Hs Hc') as (A & B & C & D); [intros l [= <-]; done|].
    simpl. split; [by rewrite A|].
    split; [constructor; [done|by apply C]|]. split.
    + intros l ->. destruct (Hl l eq_refl) as [Hcl Hfl]. apply Forall_cons in Hfl as [Hfl _]. pose proof (not_intersects l r Hcl Hcr Hfl Ei) as Hb.
      constructor; [done|]. eapply Forall_impl; [by apply C|]. intros x Hx. unfold before_ in *. destruct Hcr as (? & ? & ?). lia.
    + intros x [->|Hx]%elem_of_cons; [by left|]. right. by apply D.
Qed.

Lemma drop_rows_spec rows : forall kept vs b, length kept = length rows ->
  let '(fl, dl) := drop_rows rows kept vs b in
  (forall r, r ∈ rows -> r ∈ kept_of rows kept \/ r_art r ∈ dl)
  /\ (forall a, a ∈ fl -> a ∈ dl /\ exists r v, r ∈ rows /\ r_art r = a /\ v ∈ vs /\ intersects r v = true).
Proof.
  unfold kept_of. induction rows as [|r rows IH]; intros [|k kept] vs b Hlen; try done; [split; [by intros r ?%elem_of_nil|by intros a ?%elem_of_nil]|].
  injection Hlen as Hlen. cbn [drop_rows]. destruct k.
  - specialize (IH kept vs (S b) Hlen). destruct (drop_rows rows kept vs (S b)) as [fl dl]. destruct IH as [A B]. simpl. split.
    + intros x [->|Hx]%elem_of_cons; [left; by left|]. destruct (A x Hx); [left; by right|by right].
    + intros a Ha. destruct (B a Ha) as (C & x & v & D & E). split; [done|]. exists x, v. split; [by right|done].
  - specialize (IH kept vs b Hlen). destruct (drop_rows rows kept vs b) as [fl dl]. destruct IH as [A B]. simpl.
    set (hit := _ || _).
    assert (hit = true -> exists v, v ∈ vs /\ intersects r v = true) as Hhit.
    { unfold hit. intros [H|H]%orb_true_iff.
      - destruct b as [|b']; [done|]. destruct (vs !! b') as [v|] eqn:E; [|done]. exists v. split; [by eapply list_elem_of_lookup_2|done].
      - destruct (vs !! b) as [v|] eqn:E; [|done]. exists v. split; [by eapply list_elem_of_lookup_2|done]. }
    split.
    + intros x [->|Hx]%elem_of_cons; [right; by left|]. destruct (A x Hx); [by left|right; by right].
    + assert (forall a, a ∈ fl -> a ∈ r_art r :: dl /\ exists x v, x ∈ r :: rows /\ r_art x = a /\ v ∈ vs /\ intersects x v = true) as Hold.
      { intros a Ha. destruct (B a Ha) as (C & x & v & D & E). split; [by right|]. exists x, v. split; [by right|done]. }
      destruct hit; [|done]. intros a [->|Ha]%elem_of_cons; [|by apply Hold]. destruct (Hhit eq_refl) as (v & Hv & Hi).
      split; [by left|]. exists r, v. split; [by left|done].
Qed.

Lemma resolveRows_spec rows ms : length ms = length rows -> StronglySorted (fun a b => r_off a <= r_off b) rows ->
  (forall r, (r, true) ∈ zip rows ms -> claims r) ->
  let out := resolveRows rows ms in
  StronglySorted before_ (verified out)
  /\ (forall r, r ∈ verified out -> (r, true) ∈ zip rows ms)
  /\ (forall r, r ∈ rows -> r ∈ verified out \/ r_art r ∈ deleted out)
  /\ (forall a, a ∈ failed out -> a ∈ deleted out /\ exists r v, r ∈ rows /\ r_art r = a /\ v ∈ verified out /\ intersects r v = true).
Proof.
  intros Hlen Hs Hc. destruct (keep_rows_spec rows ms None Hlen Hs Hc) as (A & B & _ & D); [done|]. unfold resolveRows.
  change (fst <$> base.filter (fun rk : WrittenRow * bool => snd rk = true) (zip rows (keep_rows rows ms None))) with (kept_of rows (keep_rows rows ms None)).
  pose proof (drop_rows_spec rows (keep_rows rows ms None) (kept_of rows (keep_rows rows ms None)) 0 A) as H.
  destruct (drop_rows _ _ _ 0) as [fl dl]. destruct H as [H1 H2]. simpl. auto.
Qed.

Lemma keep_rows_length rows : forall ms last_, length ms = length rows -> length (keep_rows rows ms last_) = length rows.
Proof.
  induction rows as [|x rows IH]; intros [|m ms] last_ H; try done. injection H as H. cbn [keep_rows].
  destruct m; simpl; [destruct (match last_ with Some l => intersects x l | None => false end); simpl|]; by rewrite IH.
Qed.

Lemma art_inj (rows : list WrittenRow) x y : NoDup (r_art <$> rows) -> x ∈ rows -> y ∈ rows -> r_art x = r_art y -> x = y.
Proof.
  intros Hn [i Hi]%list_elem_of_lookup [j Hj]%list_elem_of_lookup E.
  assert (i = j) as -> by (eapply NoDup_lookup; [exact Hn|by rewrite list_lookup_fmap, Hi|rewrite list_lookup_fmap, Hj; simpl; by f_equal]). congruence.
Qed.

Lemma elem_zip_l {A B} (l : list A) (k : list B) x y : (x, y) ∈ zip l k -> x ∈ l.
Proof. intros H. by apply elem_of_zip_l in H. Qed.

Lemma keep_rows_dropped rows : forall ms last_, length ms = length rows ->
  forall r, (r, false) ∈ zip rows (keep_rows rows ms last_) ->
  (r, false) ∈ zip rows ms \/ exists v, (v ∈ kept_of rows (keep_rows rows ms last_) \/ last_ = Some v) /\ intersects r v = true.
Proof.
  unfold kept_of. induction rows as [|x rows IH]; intros [|m ms] last_ Hlen r; try done; [by intros ?%elem_of_nil|]. injection Hlen as Hlen. cbn [keep_rows].
  assert (forall l b K, (r, false) ∈ zip rows (keep_rows rows ms l) -> (forall v, v ∈ fst <$> base.filter (fun rk => snd rk = true) (zip rows (keep_rows rows ms l)) \/ l = Some v -> K v) ->
    (r, false) ∈ (x, b) :: zip rows ms \/ exists v, K v /\ intersects r v = true) as Hgo.
  { intros l b K H HK. destruct (IH ms l Hlen r H) as [|(v & Hv & Hi)]; [left; by right|right; eauto]. }
  destruct m; [destruct (match last_ with Some l => intersects x l | None => false end) eqn:Ei|]; simpl; intros [E|H]%elem_of_cons; simplify_eq.
  - right. destruct last_ as [l|]; [|done]. exists l. split; [by right|done].
  - apply (Hgo last_); [done|tauto].
  - apply (Hgo (Some x)); [done|]. intros v [Hv|[= <-]]; left; [by right|by left].
  - left. by left.
  - apply (Hgo last_); [done|tauto].
Qed.

Lemma drop_rows_deleted rows : forall kept vs b, length kept = length rows ->
  forall a, a ∈ snd (drop_rows rows kept vs b) <-> exists r, (r, false) ∈ zip rows kept /\ r_art r = a.
Proof.
  induction rows as [|x rows IH]; intros [|k kept] vs b Hlen a; try done; [split; [by intros ?%elem_of_nil|by intros (? & ?%elem_of_nil & _)]|].
  injection Hlen as Hlen. cbn [drop_rows zip zip_with]. destruct k.
  - rewrite IH by done. apply exist_proper. intros r. rewrite elem_of_cons. intuition congruence.
  - destruct (drop_rows rows kept vs b) as [fl dl] eqn:E. assert (a ∈ dl <-> exists r, (r, false) ∈ zip rows kept /\ r_art r = a) as IHd
      by (rewrite <- (IH kept vs b Hlen), E; done).
    simpl. rewrite elem_of_cons, IHd. split.
    + intros [->|(r & Hr & Ha)]; [exists x; split; [by left|done]|exists r; split; [by right|done]].
    + intros (r & [[= ->]|Hr]%elem_of_cons & <-); [by left|right; eauto].
Qed.

Lemma elem_kept_of rows kept r : r ∈ kept_of rows kept <-> (r, true) ∈ zip rows kept.
Proof.
  unfold kept_of. rewrite list_elem_of_fmap. setoid_rewrite list_elem_of_filter. split; [|intros H; by exists (r, true)].
  intros ([x b] & -> & Hb & H). simpl in *. by subst.
Qed.

Lemma zip_functional {A B} (l : list A) (k : list B) x y y' : NoDup l -> (x, y) ∈ zip l k -> (x, y') ∈ zip l k -> y = y'.
Proof.
  intros Hn [i Hi]%list_elem_of_lookup [j Hj]%list_elem_of_lookup. apply lookup_zip_with_Some in Hi as (? & ? & [= <- <-] & H1 & H2), Hj as (? & ? & [= <- <-] & H3 & H4).
  assert (i = j) as -> by (eapply NoDup_lookup; eauto). congruence.
Qed.

Lemma failed_deleted rows ms a : length ms = length rows -> a ∈ failed (resolveRows rows ms) -> a ∈ deleted (resolveRows rows ms).
Proof.
  intros Hlen. unfold resolveRows. set (kept := keep_rows rows ms None). assert (length kept = length rows) as Hk by apply keep_rows_length, Hlen.
  pose proof (drop_rows_spec rows kept (kept_of rows kept) 0 Hk) as H. unfold kept_of in H. simpl in *.
  destruct (drop_rows _ _ _ 0) as [fl dl]. intros Ha. by apply H.
Qed.

(** A row given up is one the file's bytes contradict, or that shares bytes with a kept one. *)
Lemma resolveRows_dropped rows ms : length ms = length rows -> NoDup (r_art <$> rows) ->
  forall a, a ∈ deleted (resolveRows rows ms) ->
  (forall r, r ∈ verified (resolveRows rows ms) -> r_art r <> a)
  /\ exists r, r ∈ rows /\ r_art r = a /\ ((r, false) ∈ zip rows ms \/ exists v, v ∈ verified (resolveRows rows ms) /\ intersects r v = true).
Proof.
  intros Hlen Hn a. unfold resolveRows. set (kept := keep_rows rows ms None). assert (length kept = length rows) as Hk by apply keep_rows_length, Hlen.
  change (fst <$> base.filter (fun rk : WrittenRow * bool => snd rk = true) (zip rows kept)) with (kept_of rows kept).
  pose proof (drop_rows_deleted rows kept (kept_of rows kept) 0 Hk a) as Hd. destruct (drop_rows _ _ _ 0) as [fl dl]. simpl in *.
  intros (r & Hr & Ha)%Hd. pose proof Hr as Hin%elem_zip_l. split.
  - intros x Hx Hxa. apply elem_kept_of in Hx. pose proof Hx as Hxin%elem_zip_l.
    assert (x = r) as -> by (apply (art_inj rows); congruence).
    pose proof (zip_functional _ _ _ _ _ (NoDup_fmap_1 _ _ Hn) Hx Hr). done.
  - exists r. split; [done|]. split; [done|]. destruct (keep_rows_dropped rows ms None Hlen r Hr) as [|(v & [Hv|?] & Hi)]; [by left|right; eauto|done].
Qed.

(** ** One file *)

(** What a kept row says of the file: its bytes are there, or it has none. *)
Definition backed (c : list Z) (r : WrittenRow) : Prop := 0 <= r_off r /\ ((r_len r = 0 /\ r_crc r = 0) \/ row_on_disk c r).

(** The rows of one file, as [rowsByFile] hands them over. *)
Definition rows_of_file (rows : list WrittenRow) : Prop :=
  StronglySorted (fun a b => r_off a <= r_off b) rows /\ Forall row_i64 rows /\ NoDup (r_art <$> rows).

(** [kept] are the rows of the file's content, [dropped] the articles of the others. *)
Definition settled (c : list Z) (rows kept : list WrittenRow) (dropped : list Z) : Prop :=
  (forall r, r ∈ kept -> r ∈ rows /\ backed c r /\ r_art r ∉ dropped)
  /\ StronglySorted before_ (base.filter (fun r => r_len r <> 0) kept)
  /\ (forall r, r ∈ rows -> r ∈ kept \/ r_art r ∈ dropped)
  /\ (forall a, a ∈ dropped -> exists r, r ∈ rows /\ r_art r = a /\ (~ backed c r \/ exists k, k ∈ kept /\ intersects r k = true)).

Definition readback_ok (content : option node) (rows : list WrittenRow) (out : fileReadback) : Prop :=
  (deleteAll out = true /\ verified out = [] /\ failed out = [])
  \/ (deleteAll out = false /\ exists c, content = Some (File c) /\ settled c rows (verified out) (deleted out)
      /\ Forall (fun a => a ∈ deleted out) (failed out)).

Lemma StronglySorted_sub {A} (R : A -> A -> Prop) (Q : A -> Prop) `{!forall x, Decision (Q x)} l : StronglySorted R l -> StronglySorted R (base.filter Q l).
Proof.
  induction 1 as [|x l _ IH Hx]; [constructor|]. rewrite filter_cons. case_decide; [|done]. constructor; [done|].
  apply Forall_forall. intros y [_ Hy]%list_elem_of_filter. rewrite Forall_forall in Hx. auto.
Qed.

Lemma elem_zip_Forall2 {A B} (R : A -> B -> Prop) l k x y : Forall2 R l k -> (x, y) ∈ zip l k -> R x y /\ x ∈ l.
Proof.
  induction 1 as [|a b l k Hab _ IH]; simpl; [by intros ?%elem_of_nil|]. intros [E|H]%elem_of_cons; [simplify_eq; split; [done|by left]|].
  destruct (IH H). split; [done|by right].
Qed.

Lemma wp_openRoot dir Q t : (forall e, Q (Err (VOS e)) t) -> Q (Ok tt) t -> wp (openRoot dir) Q t.
Proof.
  intros He Hok. apply wp_bind, wp_call; simpl; [intros e; by apply wp_ret|]. destruct (t !! dir) as [[| |]|]; simpl; by apply wp_ret.
Qed.

Lemma wp_OpenNoFollow dir name Q t : (forall e, Q (Err e) t) -> (forall c, t !! (dir ++ [name]) = Some (File c) -> Q (Ok tt) t) -> wp (OpenNoFollow dir name) Q t.
Proof.
  intros He Hok. unfold OpenNoFollow. destruct (CheckOneComponent name); [|by apply wp_ret].
  apply wp_bind, wp_call; simpl; [intros e; by apply wp_ret|]. destruct (t !! (dir ++ [name])) as [[| |]|] eqn:E; simpl; apply wp_ret; eauto.
Qed.

Lemma resolved_readback c rows ms (valid := base.filter (fun r => HasValidShape r = true /\ r_len r <> 0) rows)
    (empty := base.filter (fun r => HasValidShape r = true /\ r_len r = 0) rows) : rows_of_file rows -> Z.of_nat (length c) <= MaxInt64 ->
  Forall2 (fun r m => m = true <-> row_on_disk c r) valid ms ->
  settled c rows (verified (resolveRows valid ms) ++ base.filter (fun r => r_crc r = 0) empty)
    (deleted (resolveRows valid ms) ++ (r_art <$> base.filter (fun r => HasValidShape r = false) rows) ++ (r_art <$> base.filter (fun r => r_crc r <> 0) empty)).
Proof.
  intros (Hs & Hi & Hn) Hc Hm. assert (forall r b, (r, b) ∈ zip valid ms -> (b = true <-> row_on_disk c r) /\ r ∈ valid) as Hz
    by (intros r b H; exact (elem_zip_Forall2 _ _ _ _ _ Hm H)).
  assert (length ms = length valid) as Hlen by by rewrite (Forall2_length _ _ _ Hm).
  assert (NoDup (r_art <$> valid)) as Hnv by (eapply sublist_NoDup; [exact Hn|apply fmap_sublist, sublist_filter]).
  destruct (resolveRows_spec valid ms) as (R1 & R2 & R3 & _); [done|by apply StronglySorted_sub| |].
  { intros r H. destruct (Hz r _ H) as [Hd Hv]. destruct (proj1 Hd eq_refl) as (A & B & C & _). apply list_elem_of_filter in Hv as [[_ Hr] _].
    split; [done|]. split; [lia|]. lia. }
  pose proof (resolveRows_dropped valid ms Hlen Hnv) as R4. set (vs := verified (resolveRows valid ms)) in *.
  assert (forall r, r ∈ vs -> row_on_disk c r /\ HasValidShape r = true /\ r_len r <> 0 /\ r ∈ rows) as Hvs.
  { intros r H. destruct (Hz r _ (R2 r H)) as [A B]. apply list_elem_of_filter in B as [[? ?] ?]. split; [by apply A|done]. }
  assert (forall r, r ∈ base.filter (fun r => r_crc r = 0) empty <-> r_crc r = 0 /\ (HasValidShape r = true /\ r_len r = 0) /\ r ∈ rows) as Hes
    by (intros r; unfold empty; by rewrite !list_elem_of_filter).
  split; [|split; [|split]].
  - intros r Hr. assert (r ∈ rows /\ backed c r) as [Hin Hb].
    { apply elem_of_app in Hr as [H|H]; [destruct (Hvs r H) as (A & B & C & D)|apply Hes in H as (A & [B C] & D)].
      - split; [done|]. split; [by destruct A|by right].
      - split; [done|]. unfold HasValidShape in B. apply andb_true_iff in B as [B _]. apply bool_decide_eq_true in B. split; [lia|by left]. }
    split; [done|]. split; [done|]. rewrite !elem_of_app, !list_elem_of_fmap. unfold empty. setoid_rewrite list_elem_of_filter. setoid_rewrite list_elem_of_filter.
    intros [H|[(x & E & Hx & Hxr)|(x & E & Hx & [Hx1 Hx2] & Hxr)]].
    + destruct (R4 _ H) as (A & x & Hx & E & _). apply elem_of_app in Hr as [Hr|Hr]; [by apply (A r)|].
      apply Hes in Hr as (_ & [_ Hl] & _). apply list_elem_of_filter in Hx as [[_ Hxl] Hx]. by rewrite (art_inj rows x r) in Hxl.
    + assert (r = x) as -> by by apply (art_inj rows). apply elem_of_app in Hr as [H|H]; [destruct (Hvs x H) as (_ & ? & _)|apply Hes in H as (_ & [? _] & _)]; congruence.
    + assert (r = x) as -> by by apply (art_inj rows). apply elem_of_app in Hr as [H|H]; [destruct (Hvs x H) as (_ & _ & ? & _)|apply Hes in H as (? & _ & _)]; congruence.
  - rewrite filter_app. replace (base.filter (fun r => r_len r <> 0) (base.filter (fun r => r_crc r = 0) empty)) with ([] : list WrittenRow).
    + rewrite app_nil_r. by apply StronglySorted_sub.
    + symmetry. destruct (base.filter _ (base.filter _ empty)) as [|x l] eqn:E; [done|].
      assert (x ∈ base.filter (fun r => r_len r <> 0) (base.filter (fun r => r_crc r = 0) empty)) as Hx by (rewrite E; by left).
      apply list_elem_of_filter in Hx as [Hl Hx%Hes]. tauto.
  - intros r H. rewrite !elem_of_app. destruct (HasValidShape r) eqn:Hv.
    + destruct (decide (r_len r = 0)) as [Hl|Hl].
      * assert (r ∈ empty) as He by by apply list_elem_of_filter. destruct (decide (r_crc r = 0)).
        -- left. right. by apply list_elem_of_filter.
        -- right. right. right. apply list_elem_of_fmap. exists r. split; [done|]. by apply list_elem_of_filter.
      * destruct (R3 r) as [A|A]; [by apply list_elem_of_filter|left; by left|right; by left].
    + right. right. left. apply list_elem_of_fmap. exists r. split; [done|]. by apply list_elem_of_filter.
  - intros a. rewrite !elem_of_app, !list_elem_of_fmap. unfold empty. setoid_rewrite list_elem_of_filter. setoid_rewrite list_elem_of_filter.
    intros [H|[(x & -> & Hx & Hxr)|(x & -> & Hx & [Hx1 Hx2] & Hxr)]].
    + destruct (R4 _ H) as (_ & x & Hx & E & Hw). pose proof Hx as [[_ Hl] Hxr]%list_elem_of_filter. exists x. split; [done|]. split; [done|].
      destruct Hw as [Hw|(v & Hv & Hw)]; [|right; exists v; split; [apply elem_of_app; by left|done]].
      left. intros [_ [[? _]|Hd]]; [done|]. destruct (Hz x _ Hw) as [A _]. by apply A in Hd.
    + exists x. split; [done|]. split; [done|]. left. intros [Ho [[Hl _]|(_ & ? & _)]]; unfold HasValidShape in Hx; [|];
      apply andb_false_iff in Hx as [Hx|Hx]; apply bool_decide_eq_false in Hx; lia.
    + exists x. split; [done|]. split; [done|]. left. intros [_ [[_ ?]|(_ & _ & _ & Hd)]]; [done|]. apply Hx. rewrite <- Hd, Hx2. reflexivity.
Qed.

Definition small_files (t : gmap (list (list Z)) node) : Prop := forall p c, t !! p = Some (File c) -> Z.of_nat (length c) <= MaxInt64.

Lemma wp_readBackFile dir name rows B retry t : rows_of_file rows -> small_files t -> 0 < B ->
  wp (readBackFile dir name rows B retry)
     (fun res t' => t' = t /\ match res with Ok out => readback_ok (t !! (dir ++ [name])) rows out | Err _ => True end) t.
Proof.
  intros Hr Hsm HB. unfold readBackFile.
  assert (readback_ok (t !! (dir ++ [name])) rows all_deleted) as Hall by by left.
  apply wp_bind, wp_openRoot; [intros [] ; try (by apply wp_ret); destruct retry; by apply wp_ret|].
  apply wp_bind, wp_OpenNoFollow; [intros [e| | |]; try (by apply wp_ret); destruct e; by apply wp_ret|]. intros c Hc. rewrite Hc in *.
  apply wp_bind, wp_noop. intros synced. destruct (is_ok synced); simpl; [|by apply wp_ret].
  apply wp_try, wp_bind, wp_os_noop; [|intros e; by apply wp_ret]. apply wp_ret. apply wp_try, wp_bind.
  eapply wp_mono; [apply (wp_match_each _ c); [done|done|]|].
  - apply Forall_forall. intros r [[Hv Hl] H]%list_elem_of_filter. destruct Hr as [_ Hr]. destruct Hr as [Hr _]. rewrite Forall_forall in Hr. auto.
  - intros [ms|e] t' [-> Hm]; apply wp_ret; [|done]. apply wp_ret. split; [done|]. right. split; [done|]. exists c. split; [done|]. split; [apply resolved_readback; eauto|].
    apply Forall_forall. intros a Ha. apply elem_of_app. left. by apply failed_deleted; [eapply eq_sym, Forall2_length|].
Qed.

(** ** Finishing *)

(** A file shortened, to no less than [e] bytes. *)
Definition shortened (p : list (list Z)) (e : Z) (t t' : gmap (list (list Z)) node) : Prop :=
  t' = t \/ exists c k, t !! p = Some (File c) /\ e <= k /\ t' = <[p := File (take (Z.to_nat k) c)]> t.

Lemma wp_ShrinkAfterSync p e t : wp (ShrinkAfterSync p e) (fun _ t' => shortened p e t t') t.
Proof.
  unfold ShrinkAfterSync, shrinkTo. apply wp_try. case_bool_decide as He; [|apply wp_ret, wp_ret; by left].
  apply wp_try, wp_bind, wp_call; simpl; [intros x; apply wp_ret; by left|]. apply wp_ret.
  case_bool_decide as Hs; [|apply wp_ret, wp_ret; by left].
  apply wp_try, wp_bind, wp_call; simpl; [intros x; apply wp_ret; by left|]. apply wp_ret, wp_ret. simpl.
  assert (shortened p e t (match t !! p with Some (File c) => <[p := File (take (Z.to_nat e) c)]> t | _ => t end)) as H.
  { destruct (t !! p) as [[c| |]|] eqn:E; try (by left). right. by exists c, e. }
  by apply wp_os_noop.
Qed.

(** With nothing verified to keep, nothing is cut. *)
Lemma wp_ShrinkAfterSync_0 p e t : e <= 0 -> wp (ShrinkAfterSync p e) (fun _ t' => t' = t) t.
Proof. intros He. unfold ShrinkAfterSync, shrinkTo. rewrite bool_decide_eq_false_2 by lia. by apply wp_try, wp_ret, wp_ret. Qed.

Lemma wp_finishFileByPath dir name e prealloc t :
  wp (finishFileByPath dir name e prealloc) (fun _ t' => shortened (dir ++ [name]) e t t') t.
Proof.
  unfold finishFileByPath. apply wp_try, wp_openRoot; [by left|]. apply wp_try, wp_OpenNoFollow; [by left|]. intros c Hc.
  apply wp_bind, wp_try, wp_bind, wp_call; simpl.
  - intros x. apply wp_ret. apply wp_bind, wp_os_noop; intros; apply wp_ret; by left.
  - apply wp_ret. eapply wp_mono; [instantiate (1 := fun _ t' => shortened (dir ++ [name]) e t t')|].
    + case_bool_decide; [apply wp_ShrinkAfterSync|]. eapply wp_mono; [by apply wp_ShrinkAfterSync_0|]. intros _ t' ->. by left.
    + intros r t' H. apply wp_bind, wp_os_noop; intros; apply wp_ret; exact H.
Qed.

Definition end_step (m : Z) (r : WrittenRow) : Z := if bool_decide (r_len r > 0) then Z.max m (wraps 64 (r_off r + r_len r)) else m.

Lemma end_step_ge l : forall m, m <= foldl end_step m l.
Proof. induction l as [|x l IH]; intros m; simpl; [done|]. etrans; [|apply IH]. unfold end_step. case_bool_decide; lia. Qed.

Lemma max_end_ge rows : 0 <= max_end rows.
Proof. apply (end_step_ge rows 0). Qed.

Lemma max_end_spec rows r : r ∈ rows -> claims r -> r_off r + r_len r <= max_end rows.
Proof.
  change (max_end rows) with (foldl end_step 0 rows). generalize 0 as m. induction rows as [|x rows IH]; intros m; [by intros ?%elem_of_nil|].
  intros [->|Hr]%elem_of_cons Hc; simpl; [|by apply IH]. etrans; [|apply end_step_ge]. unfold end_step.
  rewrite bool_decide_eq_true_2 by (destruct Hc as (_ & ? & _); lia). rewrite (wraps_end x Hc). lia.
Qed.

Lemma slice_take k c off n : 0 <= off -> 0 <= n -> off + n <= k -> slice (take (Z.to_nat k) c) off n = slice c off n.
Proof. intros. unfold slice. rewrite skipn_firstn_comm, take_take. f_equal. lia. Qed.

Lemma backed_empty c r : r_len r = 0 -> backed c r <-> 0 <= r_off r /\ r_crc r = 0.
Proof.
  intros Hl. split; [|intros [? ?]; split; [done|by left]]. intros [Ho [[_ ?]|(_ & _ & _ & H)]]; [done|]. split; [done|]. by rewrite <- H, Hl.
Qed.

(** Cutting a file after the rows kept of it changes what none of them says. *)
Lemma settled_shrink c k rows kept dropped : Z.of_nat (length c) <= MaxInt64 -> max_end kept <= k ->
  settled c rows kept dropped -> settled (take (Z.to_nat k) c) rows kept dropped.
Proof.
  intros Hc Hk (A & B & C & D). pose proof (max_end_ge kept) as H0. split; [|split; [|split]]; [|done|done|].
  - intros r Hr. destruct (A r Hr) as (A1 & A2 & A3). split; [done|]. split; [|done]. destruct (decide (r_len r = 0)) as [Hl|Hl]; [by apply backed_empty in A2; [apply backed_empty|]|].
    destruct A2 as [Ho [[? _]|(_ & A4 & A5 & A6)]]; [done|]. assert (r_off r + r_len r <= max_end kept) as He by (apply max_end_spec; [done|split; [done|split; lia]]).
    split; [done|]. right. split; [done|]. split; [done|]. rewrite length_take, slice_take by lia. split; [lia|done].
  - intros a Ha. destruct (D a Ha) as (r & D1 & D2 & D3). exists r. split; [done|]. split; [done|]. destruct D3 as [D3|D3]; [left|by right].
    intros H. apply D3. destruct (decide (r_len r = 0)) as [Hl|Hl]; [by apply backed_empty in H; [apply backed_empty|]|].
    destruct H as [Ho [[? _]|(_ & A4 & A5 & A6)]]; [done|]. rewrite length_take in A5. rewrite slice_take in A6 by lia.
    split; [done|]. right. split; [done|]. split; [done|]. split; [lia|done].
Qed.

(** ** One file's verdict *)
Definition rows_ok (rows : list WrittenRow) : Prop := Forall row_i64 rows /\ NoDup ((fun r => (r_file r, r_art r)) <$> rows).

Lemma rowsOf_elem rows fi r : r ∈ rowsOf rows fi <-> r ∈ rows /\ r_file r = fi.
Proof. unfold rowsOf, sortedClone. rewrite merge_sort_Permutation, list_elem_of_filter. tauto. Qed.

#[export] Instance row_le_total : Total row_le.
Proof. intros a b. unfold row_le. lia. Qed.
#[export] Instance row_le_trans : Transitive row_le.
Proof. intros a b c. unfold row_le. lia. Qed.

Lemma rowsOf_ok rows fi : rows_ok rows -> rows_of_file (rowsOf rows fi).
Proof.
  intros [Hi Hn]. split; [|split].
  - assert (StronglySorted row_le (rowsOf rows fi)) as H by (apply StronglySorted_merge_sort; apply _).
    revert H. generalize (rowsOf rows fi). intros l. induction 1 as [|x l _ IH Hx]; constructor; [done|].
    eapply Forall_impl; [exact Hx|]. unfold row_le. intros; lia.
  - apply Forall_forall. intros r [Hr _]%rowsOf_elem. rewrite Forall_forall in Hi. auto.
  - unfold rowsOf, sortedClone. rewrite merge_sort_Permutation. induction rows as [|x rows IH]; [constructor|].
    apply Forall_cons in Hi as [_ Hi]. apply NoDup_cons in Hn as [Hx Hn]. rewrite filter_cons. case_decide as Hf; [|by apply IH].
    simpl. constructor; [|by apply IH]. intros (y & E & [Hy1 Hy2]%list_elem_of_filter)%list_elem_of_fmap. apply Hx. apply list_elem_of_fmap.
    exists y. split; [congruence|done].
Qed.

Definition own (vs : list FileVerdict) (fi : Z) : list FileVerdict := base.filter (fun v => v_file v = fi) vs.

(** What the verdicts say of a file that was not complete. *)
Definition file_settled (ft : option FileTable.FileTable) (retry : bool) (jobDir : list (list Z)) (rows : list WrittenRow)
    (t : gmap (list (list Z)) node) (vs : list FileVerdict) (f : FileRow) : Prop :=
  let mine := own vs (FileIndex f) in
  (rowsOf rows (FileIndex f) = [] /\ mine = [])
  \/ (existsb DeleteAll mine = true /\ existsb SetComplete mine = false)
  \/ (existsb DeleteAll mine = false /\ fr_Filename f <> EmptyString /\ exists c kept, t !! (jobDir ++ [bytes_of (fr_Filename f)]) = Some (File c)
      /\ settled c (rowsOf rows (FileIndex f)) kept (mine ≫= DeleteArtIdxs)
      /\ (existsb SetComplete mine = true ->
          fileFinishable ft (FileIndex f) (fr_FetchPolicy f) (fr_Complete f)
            (fun i => bool_decide (i ∈ (r_art <$> kept) ++ (if retry then [] else mine ≫= DeleteArtIdxs))) = true)).

Lemma fileFinishable_mono ft fi pol cp P Q : (forall i, P i = true -> Q i = true) -> fileFinishable ft fi pol cp P = true -> fileFinishable ft fi pol cp Q = true.
Proof.
  intros HPQ. unfold fileFinishable. destruct ft as [ft|]; [|done]. destruct (_ || _); [done|]. destruct (_ || _); [done|].
  destruct (FileTable.Range ft _) as [lo hi]. case_bool_decide; [done|]. rewrite !forallb_forall. auto.
Qed.

Lemma wp_finishIfResolved ft f dir name out retry t :
  wp (finishIfResolved ft f dir name out retry) (fun res t' => shortened (dir ++ [name]) (max_end (verified out)) t t'
    /\ (res = Ok true -> deleteAll out = false /\ fileFinishable ft (FileIndex f) (fr_FetchPolicy f) (fr_Complete f)
          (fun i => bool_decide (i ∈ (r_art <$> verified out) ++ (if retry then [] else failed out))) = true)) t.
Proof.
  unfold finishIfResolved. destruct (deleteAll out || _) eqn:Hd; [apply wp_ret; split; [by left|done]|]. apply orb_false_iff in Hd as [Hd _].
  destruct (fileFinishable _ _ _ _ _) eqn:Hf; simpl; [|apply wp_ret; split; [by left|done]].
  apply wp_try, wp_ctx_err; [|split; [by left|done]]. apply wp_try. eapply wp_mono; [apply wp_finishFileByPath|]. intros [u|e] t' H; [|done].
  apply wp_ret. split; [exact H|]. done.
Qed.

(** ** All files *)
Lemma own_same vs fi : Forall (fun v => v_file v = fi) vs -> own vs fi = vs.
Proof. unfold own. induction 1 as [|v vs Hv _ IH]; [done|]. rewrite filter_cons_True by done. by rewrite IH. Qed.

Lemma own_none vs fi : Forall (fun v => v_file v <> fi) vs -> own vs fi = [].
Proof. unfold own. induction 1 as [|v vs Hv _ IH]; [done|]. by rewrite filter_cons_False. Qed.

(** What verifying one file did: verdicts on it alone, and at most its own path cut. *)
Definition one_verified (ft : option FileTable.FileTable) (retry : bool) (jobDir : list (list Z)) (rows : list WrittenRow) (f : FileRow)
    (t t' : gmap (list (list Z)) node) (added : list FileVerdict) : Prop :=
  Forall (fun v => v_file v = FileIndex f /\ ClearComplete v = false) added
  /\ (if fr_Complete f then added = [] else file_settled ft retry jobDir rows t' added f)
  /\ small_files t'
  /\ (t' = t \/ fr_Filename f <> EmptyString /\ forall q, q <> jobDir ++ [bytes_of (fr_Filename f)] -> t' !! q = t !! q).

Lemma shortened_small p e t t' : small_files t -> shortened p e t t' -> small_files t'.
Proof.
  intros Hsm [->|(c & k & Hc & _ & ->)]; [done|]. intros q c'. destruct (decide (q = p)) as [->|Hq]; [|rewrite lookup_insert_ne by done; apply Hsm].
  rewrite lookup_insert_eq. intros [= <-]. pose proof (Hsm p c Hc). rewrite length_take. lia.
Qed.

Lemma shortened_settled p out rows t t' c : small_files t -> shortened p (max_end (verified out)) t t' -> t !! p = Some (File c) ->
  settled c rows (verified out) (deleted out) -> exists c', t' !! p = Some (File c') /\ settled c' rows (verified out) (deleted out).
Proof.
  intros Hsm [->|(c0 & k & Hc0 & Hk & ->)] Hc Hs; [by eexists|]. rewrite Hc in Hc0. injection Hc0 as <-. exists (take (Z.to_nat k) c). rewrite lookup_insert_eq. split; [done|].
  apply settled_shrink; [by eapply Hsm|done|done].
Qed.

Lemma wp_verify_file ft jobDir rows retry B res f t : rows_ok rows -> small_files t -> 0 < B ->
  wp (verify_file ft jobDir rows retry B res f)
     (fun out t' => match out with
        | Err _ => True
        | Ok res' => exists added, Verdicts res' = Verdicts res ++ added /\ one_verified ft retry jobDir rows f t t' added
        end) t.
Proof.
  intros Hr Hsm HB. unfold verify_file. destruct (bool_decide_reflect (rowsOf rows (FileIndex f) = [])) as [Hnil|Hne].
  { apply wp_ret. exists []. rewrite app_nil_r. split; [done|]. split; [constructor|]. split; [destruct (fr_Complete f); [done|by left]|]. split; [done|by left]. }
  destruct (fr_Complete f) eqn:Hcp; [apply wp_ret; exists []; rewrite app_nil_r; split; [done|]; split; [constructor|]; rewrite Hcp; split; [done|]; split; [done|by left]|].
  destruct (bool_decide_reflect (fr_Filename f = EmptyString)) as [He|He].
  { apply wp_ret. eexists [_]. split; [done|]. split; [by repeat constructor|]. rewrite Hcp. split; [|split; [done|by left]].
    right. left. by rewrite own_same by by repeat constructor. }
  unfold jobFileLocation. destruct (CheckOneComponent _); [|by apply wp_ret].
  apply wp_try. eapply wp_mono; [apply wp_readBackFile; [by apply rowsOf_ok|done|done]|]. intros [out|e] t1 [-> Hout]; [|done].
  apply wp_bind. eapply wp_mono; [apply wp_finishIfResolved|]. intros [fin|e] t' [Hsh Hfin]; [|by apply wp_ret].
  apply wp_ret. set (v := mkVerdict _ _ _ _ _).
  assert (forall l, (l = [v] \/ (l = [] /\ DeleteAll v = false /\ DeleteArtIdxs v = [] /\ SetComplete v = false)) -> one_verified ft retry jobDir rows f t t' l) as Hl.
  2: { destruct (DeleteAll v || _ || _) eqn:Hv; [exists [v]; split; [done|]; apply Hl; by left|].
       exists []. split; [simpl; by rewrite app_nil_r|]. apply Hl. right. apply orb_false_iff in Hv as [[H1 H2]%orb_false_iff H3].
       split; [done|]. split; [done|]. split; [|done]. apply negb_false_iff in H2. by apply bool_decide_eq_true in H2. }
  intros l Hl. assert (Forall (fun v => v_file v = FileIndex f) l) as Hmine by (destruct Hl as [->|[-> _]]; by repeat constructor).
  split; [destruct Hl as [->|[-> _]]; by repeat constructor|]. rewrite Hcp. split; [|split; [by eapply shortened_small|]].
  2: { destruct Hsh as [->|(c & k & _ & _ & ->)]; [by left|right]. split; [done|]. intros q Hq. by rewrite lookup_insert_ne. }
  unfold file_settled. rewrite own_same by done.
  assert (existsb DeleteAll l = deleteAll out /\ l ≫= DeleteArtIdxs = deleted out /\ existsb SetComplete l = fin) as (E1 & E2 & E3).
  { destruct Hl as [->|(-> & H1 & H2 & H3)]; simpl in *; [rewrite !orb_false_r, app_nil_r; done|done]. }
  rewrite E1, E2, E3. destruct Hout as [(Hd & Hv & Hfl)|(Hd & c & Hc & Hs & Hfd)]; rewrite Hd in *.
  - right. left. split; [done|]. destruct fin; [|done]. by destruct (Hfin eq_refl) as [? _].
  - right. right. split; [done|]. split; [done|]. destruct (shortened_settled _ out _ _ _ c Hsm Hsh Hc Hs) as (c' & Hc' & Hs'). exists c', (verified out).
    split; [done|]. split; [done|]. intros ->. destruct (Hfin eq_refl) as [_ Hff]. revert Hff. apply fileFinishable_mono. intros i.
    rewrite !bool_decide_eq_true, !elem_of_app. intros [|H]; [by left|right]. destruct retry; [done|]. rewrite Forall_forall in Hfd. auto.
Qed.

Lemma file_settled_stable ft retry jobDir rows t t' vs vs' f : own vs (FileIndex f) = own vs' (FileIndex f) ->
  (fr_Filename f <> EmptyString -> t' !! (jobDir ++ [bytes_of (fr_Filename f)]) = t !! (jobDir ++ [bytes_of (fr_Filename f)])) ->
  file_settled ft retry jobDir rows t vs f -> file_settled ft retry jobDir rows t' vs' f.
Proof.
  unfold file_settled. intros <- Ht [H|[H|(Hd & Hn & c & kept & Hc & H)]]; [by left|right; by left|].
  right. right. split; [done|]. split; [done|]. exists c, kept. by rewrite (Ht Hn).
Qed.

Definition all_verified (ft : option FileTable.FileTable) (retry : bool) (jobDir : list (list Z)) (rows : list WrittenRow) (files : list FileRow)
    (t t' : gmap (list (list Z)) node) (added : list FileVerdict) : Prop :=
  Forall (fun v => ClearComplete v = false /\ v_file v ∈ FileIndex <$> base.filter (fun f => fr_Complete f = false) files) added
  /\ Forall (fun f => fr_Complete f = false -> file_settled ft retry jobDir rows t' added f) files
  /\ (forall q, (forall n, n ∈ recorded_names files -> q <> jobDir ++ [n]) -> t' !! q = t !! q).

Lemma recorded_names_cons f files : recorded_names (f :: files) =
  if bool_decide (fr_Filename f = EmptyString) then recorded_names files else bytes_of (fr_Filename f) :: recorded_names files.
Proof. unfold recorded_names. rewrite filter_cons. by repeat case_decide; case_bool_decide. Qed.

Lemma all_verified_cons ft retry jobDir rows f files t t1 t' a1 a2 : FileIndex f ∉ FileIndex <$> files -> NoDup (recorded_names (f :: files)) ->
  one_verified ft retry jobDir rows f t t1 a1 -> all_verified ft retry jobDir rows files t1 t' a2 ->
  all_verified ft retry jobDir rows (f :: files) t t' (a1 ++ a2).
Proof.
  intros Hf Hn (A1 & A2 & _ & A3) (B1 & B2 & B3). rewrite recorded_names_cons in Hn. unfold all_verified. rewrite recorded_names_cons.
  assert (Forall (fun v => v_file v <> FileIndex f) a2) as Ha2.
  { eapply Forall_impl; [exact B1|]. intros v [_ (g & E & [_ Hg]%list_elem_of_filter)%list_elem_of_fmap] Hv. apply Hf. apply list_elem_of_fmap. exists g. split; [congruence|done]. }
  split; [|split].
  - apply Forall_app. split.
    + destruct (fr_Complete f) eqn:Hcp; [by subst|]. eapply Forall_impl; [exact A1|]. intros v [Hv Hc]. split; [done|].
      rewrite filter_cons_True by done. rewrite Hv. by left.
    + eapply Forall_impl; [exact B1|]. intros v [Hc Hv]. split; [done|]. rewrite filter_cons.
      destruct (decide (fr_Complete f = false)); [by right|done].
  - constructor.
    + intros Hcp. rewrite Hcp in A2. eapply file_settled_stable; [| |exact A2].
      * unfold own. rewrite filter_app. fold (own a2 (FileIndex f)). by rewrite (own_none a2), app_nil_r.
      * intros He. rewrite bool_decide_eq_false_2 in Hn by done. apply NoDup_cons in Hn as [Hn _]. apply B3. intros n Hin E.
        apply app_inj_2 in E as [_ [= <-]]; done.
    + rewrite Forall_forall in B2 |- *. intros g Hg Hcp. eapply file_settled_stable; [| |by apply B2]; [|done].
      unfold own. rewrite filter_app. fold (own a1 (FileIndex g)). rewrite (own_none a1); [done|]. eapply Forall_impl; [exact A1|].
      intros v [Hv _] E. apply Hf. apply list_elem_of_fmap. exists g. split; [congruence|done].
  - intros q Hq. rewrite B3.
    + destruct A3 as [->|[He A3]]; [done|]. apply A3. rewrite bool_decide_eq_false_2 in Hq by done. apply Hq. by left.
    + intros n Hin. apply Hq. case_bool_decide; [done|by right].
Qed.

Lemma wp_verify_files ft jobDir rows retry B : rows_ok rows -> 0 < B -> forall files res t,
  NoDup (FileIndex <$> files) -> NoDup (recorded_names files) -> small_files t ->
  wp (verify_files ft jobDir rows retry B files res)
     (fun out t' => match out with
        | Err _ => True
        | Ok res' => exists added, Verdicts res' = Verdicts res ++ added /\ all_verified ft retry jobDir rows files t t' added
        end) t.
Proof.
  intros Hr HB. induction files as [|f files IH]; intros res t Hi Hn Hsm; simpl.
  - apply wp_ret. exists []. rewrite app_nil_r. split; [done|]. split; [constructor|]. by split.
  - apply NoDup_cons in Hi as [Hf Hi]. apply wp_try. eapply wp_mono; [by apply wp_verify_file|]. intros [res1|e] t1; [|done].
    intros (a1 & E1 & H1). pose proof H1 as (_ & _ & Hsm1 & _).
    assert (NoDup (recorded_names files)) as Hn' by (rewrite recorded_names_cons in Hn; case_bool_decide; [done|by apply NoDup_cons in Hn as [_ ?]]).
    eapply wp_mono; [by apply IH|]. intros [res2|e] t2; [|done]. intros (a2 & E2 & H2). exists (a1 ++ a2).
    split; [by rewrite E2, E1, app_assoc|]. by eapply all_verified_cons.
Qed.

(** ** Against the store *)
Lemma written_stored d id r : r ∈ merge_sort written_le (row_at <$> base.filter (fun kv => fst (fst (fst kv)) = id) (map_to_list (written_articles d))) <->
  written_articles d !! (id, r_file r, r_art r) = Some (row_cols r).
Proof.
  rewrite merge_sort_Permutation, list_elem_of_fmap. split.
  - intros ([[[i fi] a] [[o n] k]] & -> & [Hi H]%list_elem_of_filter). simpl in Hi. subst i. by apply elem_of_map_to_list in H.
  - intros H. exists (id, r_file r, r_art r, row_cols r). split; [by destruct r|]. apply list_elem_of_filter. split; [done|]. by apply elem_of_map_to_list.
Qed.

Lemma stored_keys d id (rows : list WrittenRow) :
  rows = merge_sort written_le (row_at <$> base.filter (fun kv => fst (fst (fst kv)) = id) (map_to_list (written_articles d))) ->
  NoDup ((fun r => (r_file r, r_art r)) <$> rows).
Proof.
  intros ->. rewrite merge_sort_Permutation. rewrite <- list_fmap_compose. apply (NoDup_fmap_1 (fun k => (id, fst k, snd k))).
  assert (NoDup (fst <$> base.filter (fun kv => fst (fst (fst kv)) = id) (map_to_list (written_articles d)))) as H.
  { eapply sublist_NoDup; [apply (NoDup_fst_map_to_list (written_articles d))|apply fmap_sublist, sublist_filter]. }
  rewrite <- list_fmap_compose. erewrite list_fmap_ext; [exact H|]. intros i [[[j fi] a] c] Hin. 
  apply list_elem_of_lookup_2, list_elem_of_filter in Hin as [Hj _]. simpl in *. by subst.
Qed.

Lemma stored_files d id files : files = merge_sort index_le (file_row <$> base.filter (fun kc => fst (fst kc) = id) (map_to_list (job_files d))) ->
  NoDup (FileIndex <$> files) /\ (forall f, f ∈ files -> exists c, job_files d !! (id, FileIndex f) = Some c /\ f = file_row (id, FileIndex f, c)).
Proof.
  intros ->. split.
  - rewrite merge_sort_Permutation. rewrite <- list_fmap_compose. apply (NoDup_fmap_1 (fun k => (id, k))). rewrite <- list_fmap_compose.
    assert (NoDup (fst <$> base.filter (fun kc => fst (fst kc) = id) (map_to_list (job_files d)))) as H.
    { eapply sublist_NoDup; [apply (NoDup_fst_map_to_list (job_files d))|apply fmap_sublist, sublist_filter]. }
    erewrite list_fmap_ext; [exact H|]. intros i [[j fi] c] Hin. apply list_elem_of_lookup_2, list_elem_of_filter in Hin as [Hj _]. simpl in *. by subst.
  - intros f. rewrite merge_sort_Permutation. intros ([[i fi] c] & -> & [Hi H]%list_elem_of_filter)%list_elem_of_fmap. simpl in Hi. subst i.
    exists c. split; [by apply elem_of_map_to_list in H|done].
Qed.

Lemma existsb_names vs fi a : existsb (fun v => names v fi a) vs = existsb DeleteAll (own vs fi) || bool_decide (a ∈ own vs fi ≫= DeleteArtIdxs).
Proof.
  unfold own. induction vs as [|v vs IH]; [done|]. simpl. rewrite IH. unfold names. rewrite filter_cons. destruct (decide (v_file v = fi)) as [E|E].
  - rewrite bool_decide_eq_true_2 by done. simpl. destruct (DeleteAll v); simpl; [done|].
    destruct (existsb DeleteAll _); [by rewrite orb_true_r|]. simpl. apply eq_bool_prop_intro. rewrite !Is_true_true, orb_true_iff, !bool_decide_eq_true, elem_of_app. done.
  - by rewrite bool_decide_eq_false_2.
Qed.

(** What the store holds of a file that was not complete, after the verdicts:
    nothing, or exactly the rows the file's bytes bear out, none sharing a byte
    with another. *)
Definition file_trusted (t : gmap (list (list Z)) node) (p : list (list Z)) (id : string) (fi : Z) (d d' : tables) : Prop :=
  (forall a, written_articles d' !! (id, fi, a) = None)
  \/ exists c, t !! p = Some (File c)
    /\ (forall a r, written_articles d !! (id, fi, a) = Some (row_cols r) -> r_file r = fi -> r_art r = a ->
          (written_articles d' !! (id, fi, a) = Some (row_cols r) /\ backed c r)
          \/ (written_articles d' !! (id, fi, a) = None
              /\ (~ backed c r \/ exists k, written_articles d' !! (id, fi, r_art k) = Some (row_cols k) /\ intersects r k = true)))
    /\ (forall a, written_articles d !! (id, fi, a) = None -> written_articles d' !! (id, fi, a) = None)
    /\ (forall r k, r_file r = fi -> r_file k = fi -> r_art r <> r_art k -> r_len r <> 0 -> r_len k <> 0 ->
          written_articles d' !! (id, fi, r_art r) = Some (row_cols r) -> written_articles d' !! (id, fi, r_art k) = Some (row_cols k) ->
          before_ r k \/ before_ k r).

Lemma StronglySorted_either {A} (R : A -> A -> Prop) l x y : StronglySorted R l -> x ∈ l -> y ∈ l -> x = y \/ R x y \/ R y x.
Proof.
  induction 1 as [|z l _ IH Hz]; [by intros ?%elem_of_nil|]. rewrite Forall_forall in Hz.
  intros [->|Hx]%elem_of_cons [->|Hy]%elem_of_cons; auto.
Qed.

Lemma settled_trusted ft retry jobDir rows t vs f id d d' :
  (forall r, r ∈ rows <-> written_articles d !! (id, r_file r, r_art r) = Some (row_cols r)) ->
  (forall a, written_articles d' !! (id, FileIndex f, a) =
     if existsb (fun v => names v (FileIndex f) a) vs then None else written_articles d !! (id, FileIndex f, a)) ->
  file_settled ft retry jobDir rows t vs f -> file_trusted t (jobDir ++ [bytes_of (fr_Filename f)]) id (FileIndex f) d d'.
Proof.
  intros Hrows Hd' H. setoid_rewrite existsb_names in Hd'. set (fi := FileIndex f) in *.
  assert (forall a r, written_articles d !! (id, fi, a) = Some (row_cols r) -> r_file r = fi -> r_art r = a -> r ∈ rowsOf rows fi) as Hin.
  { intros a r Hr Hf Ha. apply rowsOf_elem. split; [|done]. apply Hrows. by rewrite Hf, Ha. }
  unfold file_settled in H. fold fi in H. destruct H as [[Hnil _]|[[Hall _]|(Hall & _ & c & kept & Hc & (A & B & C & D) & _)]].
  - left. intros a. rewrite Hd'. destruct (_ || _); [done|]. destruct (written_articles d !! (id, fi, a)) as [[[o n] k]|] eqn:E; [|done].
    pose proof (Hin a (mkRow fi a o n k) E eq_refl eq_refl) as H. rewrite Hnil in H. by apply elem_of_nil in H.
  - left. intros a. by rewrite Hd', Hall.
  - setoid_rewrite Hall in Hd'. simpl in Hd'. set (dropped := own vs fi ≫= DeleteArtIdxs) in *. right. exists c. split; [done|].
    assert (forall r, r ∈ kept -> written_articles d' !! (id, fi, r_art r) = Some (row_cols r)) as Hk.
    { intros r Hr. destruct (A r Hr) as ([A1 A2]%rowsOf_elem & _ & A4). rewrite Hd', bool_decide_eq_false_2 by done. rewrite <- A2. by apply Hrows. }
    split; [|split].
    + intros a r Hr Hf Ha. pose proof (Hin a r Hr Hf Ha) as Hro. destruct (decide (a ∈ dropped)) as [Hd|Hd].
      * right. rewrite Hd', bool_decide_eq_true_2 by done. split; [done|]. destruct (D a Hd) as (x & Hx & Hxa & Hw).
        assert (x = r) as ->.
        { apply rowsOf_elem in Hx as [Hx Hxf]. apply Hrows in Hx. rewrite Hxf, Hxa, Hr in Hx. destruct x, r; unfold row_cols in *; simpl in *. congruence. }
        destruct Hw as [Hw|(k & Hkk & Hw)]; [by left|right]. exists k. auto.
      * left. rewrite Hd', bool_decide_eq_false_2 by done. split; [done|]. destruct (C r Hro) as [Hkr|Hkr]; [by apply A|by rewrite Ha in Hkr].
    + intros a Ha. rewrite Hd', Ha. by destruct (bool_decide _).
    + intros r k Hrf Hkf Hne Hrl Hkl Hr Hk'. assert (forall x, r_file x = fi -> r_len x <> 0 -> written_articles d' !! (id, fi, r_art x) = Some (row_cols x) ->
        x ∈ base.filter (fun r => r_len r <> 0) kept) as Hx.
      { intros x Hxf Hxl Hx. apply list_elem_of_filter. split; [done|]. rewrite Hd' in Hx. case_bool_decide as Hdr; [done|].
        destruct (C x (Hin _ x Hx Hxf eq_refl)); done. }
      destruct (StronglySorted_either _ _ r k B (Hx r Hrf Hrl Hr) (Hx k Hkf Hkl Hk')) as [->|?]; done.
Qed.

Lemma file_after_unmarked id fi c vs : Forall (fun v => ClearComplete v = false) vs -> existsb SetComplete (own vs fi) = false ->
  file_after id fi c (mkBatch id [] [] vs) = c.
Proof.
  unfold file_after. simpl. rewrite bool_decide_eq_true_2 by done. unfold own. induction 1 as [|v vs Hv _ IH] in c |- *; [done|].
  rewrite filter_cons. simpl. rewrite Hv, orb_false_r. case_decide as E.
  - simpl. intros [Hs H]%orb_false_iff. rewrite Hs, andb_false_r. by apply IH.
  - rewrite bool_decide_eq_false_2 by done. apply IH.
Qed.

(** Every article of the file has a row left or, when a row that shared bytes
    counts, had one. *)
Definition fetched_whole (ft : option FileTable.FileTable) (retry : bool) (f : FileRow) (id : string) (d d' : tables) : bool :=
  fileFinishable ft (FileIndex f) (fr_FetchPolicy f) false
    (fun i => bool_decide (is_Some (written_articles d' !! (id, FileIndex f, i)))
              || negb retry && bool_decide (is_Some (written_articles d !! (id, FileIndex f, i)))).

Lemma settled_marked ft retry jobDir rows t vs f id d d' c : fr_Complete f = false -> c_complete c = 0 ->
  (forall r, r ∈ rows <-> written_articles d !! (id, r_file r, r_art r) = Some (row_cols r)) ->
  (forall a, written_articles d' !! (id, FileIndex f, a) =
     if existsb (fun v => names v (FileIndex f) a) vs then None else written_articles d !! (id, FileIndex f, a)) ->
  Forall (fun v => ClearComplete v = false) vs -> file_settled ft retry jobDir rows t vs f ->
  c_complete (file_after id (FileIndex f) c (mkBatch id [] [] vs)) <> 0 -> fetched_whole ft retry f id d d' = true.
Proof.
  intros Hcp Hc Hrows Hd' Hcl H Hm. setoid_rewrite existsb_names in Hd'. set (fi := FileIndex f) in *.
  destruct (existsb SetComplete (own vs fi)) eqn:Hs; [|by rewrite file_after_unmarked in Hm].
  unfold file_settled in H. fold fi in H. destruct H as [[_ Hnil]|[[_ Hall]|(Hall & _ & c0 & kept & _ & (A & _ & _ & D) & Hf)]];
    [by rewrite Hnil in Hs|congruence|].
  rewrite Hall in Hd'. simpl in Hd'. specialize (Hf Hs). rewrite Hcp in Hf. revert Hf. apply fileFinishable_mono. intros i.
  rewrite bool_decide_eq_true, orb_true_iff, andb_true_iff, negb_true_iff, !bool_decide_eq_true, elem_of_app.
  assert (forall r, r ∈ rowsOf rows fi -> written_articles d !! (id, fi, r_art r) = Some (row_cols r)) as Hw.
  { intros r [Hr <-]%rowsOf_elem. by apply Hrows. }
  intros [(r & -> & Hr)%list_elem_of_fmap|Hi].
  - left. destruct (A r Hr) as (A1 & _ & A3). fold fi. rewrite Hd', bool_decide_eq_false_2 by done. rewrite (Hw r A1). by eexists.
  - destruct retry; [by apply elem_of_nil in Hi|]. right. split; [done|]. destruct (D i Hi) as (r & Hr & <- & _). fold fi. rewrite (Hw r Hr). by eexists.
Qed.

(** C38: after a restart or at a retry, once the verdicts of a verification are
    recorded, the store holds of every file that was not complete either
    nothing, or exactly the rows whose bytes are in the file with their
    checksum (one row of those sharing bytes), whatever calls failed on the
    way; a complete file keeps its rows; and a file is marked complete only
    when every one of its articles is such a row or, on a restart, was failed
    for sharing bytes. *)
Theorem restart_trusts_only_the_disk ft d id files rows jobDir retry faults t :
  fst (FileRows id (mkSession d [])) = Ok files -> fst (WrittenRows id (mkSession d [])) = Ok rows ->
  Forall row_i64 rows -> NoDup (recorded_names files) -> small_files t ->
  wp (verifyJobFiles ft files rows jobDir retry)
     (fun out t' => match out with
        | Err _ => True
        | Ok v => match ApplyRecord [mkBatch id [] [] (Verdicts v)] (mkSession d faults) with
            | (Err _, s) => ss_db s = d
            | (Ok _, s) => forall f, f ∈ files ->
                if fr_Complete f then forall a, written_articles (ss_db s) !! (id, FileIndex f, a) = written_articles d !! (id, FileIndex f, a)
                else file_trusted t' (jobDir ++ [bytes_of (fr_Filename f)]) id (FileIndex f) d (ss_db s)
                     /\ (forall c, job_files (ss_db s) !! (id, FileIndex f) = Some c -> c_complete c <> 0 -> fetched_whole ft retry f id d (ss_db s) = true)
            end
        end) t.
Proof.
  intros Hf Hr Hi Hn Hsm. simpl in Hf, Hr. injection Hf as Hf. injection Hr as Hr. destruct (stored_files d id files (eq_sym Hf)) as [Hfi Hcols].
  assert (rows_ok rows) as Hok by (split; [done|by eapply stored_keys]). unfold verifyJobFiles.
  eapply wp_mono; [apply wp_verify_files; try done; unfold verifyBufSize; lia|]. intros [v|e] t'; [|done]. intros (vs & Hv & H1 & H2 & _). simpl in Hv. subst vs.
  pose proof (ApplyRecord_run [mkBatch id [] [] (Verdicts v)] d faults) as H. destruct (ApplyRecord _ _) as [[[]|e] s]; [|done].
  destruct H as [H _]. intros f Hin.
  assert (forall a, written_articles (ss_db s) !! (id, FileIndex f, a) =
     if existsb (fun v => names v (FileIndex f) a) (Verdicts v) then None else written_articles d !! (id, FileIndex f, a)) as Hd'.
  { intros a. rewrite H, pure_record_written. simpl. unfold row_after. simpl. rewrite bool_decide_eq_true_2 by done. unfold last_row. simpl. by destruct (has_files id d). }
  destruct (fr_Complete f) eqn:Hcp.
  - intros a. rewrite Hd', existsb_names, own_none; [done|]. eapply Forall_impl; [exact H1|].
    intros x [_ (g & E & [Hg1 Hg2]%list_elem_of_filter)%list_elem_of_fmap] Hx.
    apply list_elem_of_lookup in Hg2 as [i Hig], Hin as [j Hjf].
    assert (i = j) as -> by (eapply NoDup_lookup; [exact Hfi|rewrite list_lookup_fmap, Hig; simpl; reflexivity|rewrite list_lookup_fmap, Hjf; simpl; congruence]). congruence.
  - assert (forall r, r ∈ rows <-> written_articles d !! (id, r_file r, r_art r) = Some (row_cols r)) as Hrows by (intros r; rewrite <- Hr; apply written_stored).
    rewrite Forall_forall in H2. pose proof (H2 f Hin Hcp) as Hs. split; [by eapply settled_trusted|]. intros c' Hc'. destruct (Hcols f Hin) as (c & Hc & Hfc).
    rewrite H, pure_record_files, Hc in Hc'. simpl in Hc'. injection Hc' as <-. eapply settled_marked; [done| |exact Hrows|exact Hd'| |exact Hs].
    + rewrite Hfc in Hcp. simpl in Hcp. apply negb_false_iff, bool_decide_eq_true in Hcp. done.
    + eapply Forall_impl; [exact H1|]. by intros x [? _].
Qed.

(** Two files were being fetched: the first is all there (in a file still at
    its allocated six bytes), the second holds a row its bytes contradict. *)
Definition ex_files_db : tables :=
  mkTables {[("a"%string, 0) := mkCols "f" 6 2 0 "f" 0; ("a"%string, 1) := mkCols "g" 3 1 0 "g" 0]}
           {[("a"%string, 0, 0) := (0, 2, ChecksumIEEE [1; 2]); ("a"%string, 0, 1) := (2, 2, ChecksumIEEE [3; 4]); ("a"%string, 1, 2) := (0, 3, 7)]}
           {["a"%string]} ∅.
Definition ex_files_tree : gmap (list (list Z)) node :=
  {[[bs "job"] := Dir; [bs "job"; bs "f"] := File [1; 2; 3; 4; 0; 0]; [bs "job"; bs "g"] := File [9; 9; 9]]}.
Definition ex_files_table : FileTable.FileTable :=
  FileTable.newFileTable [FileTable.mkSpec "f" 6 2; FileTable.mkSpec "g" 3 1].

Lemma ex_files_small : small_files ex_files_tree.
Proof.
  intros p c H. unfold ex_files_tree in H. repeat (apply lookup_insert_Some in H as [[_ H]|[_ H]]; [simplify_eq; vm_compute; discriminate|]).
  apply lookup_singleton_Some in H as [_ H]. simplify_eq. vm_compute. discriminate.
Qed.

Lemma restart_trusts_only_the_disk_witness : exists files rows,
  fst (FileRows "a" (mkSession ex_files_db [])) = Ok files /\ fst (WrittenRows "a" (mkSession ex_files_db [])) = Ok rows
  /\ (exists v, fst (verifyJobFiles (Some ex_files_table) files rows [bs "job"] false (mkFS ex_files_tree []))
        = Ok v /\ Verdicts v = [mkVerdict 0 false [] false true; mkVerdict 1 false [2] false false])
  /\ fs_tree (snd (verifyJobFiles (Some ex_files_table) files rows [bs "job"] false (mkFS ex_files_tree []))) !! [bs "job"; bs "f"] = Some (File [1; 2; 3; 4])
  /\ forall faults, wp (verifyJobFiles (Some ex_files_table) files rows [bs "job"] false)
     (fun out t' => match out with
        | Err _ => True
        | Ok v => match ApplyRecord [mkBatch "a" [] [] (Verdicts v)] (mkSession ex_files_db faults) with
            | (Err _, s) => ss_db s = ex_files_db
            | (Ok _, s) => forall f, f ∈ files ->
                if fr_Complete f then forall a, written_articles (ss_db s) !! ("a"%string, FileIndex f, a) = written_articles ex_files_db !! ("a"%string, FileIndex f, a)
                else file_trusted t' ([bs "job"] ++ [bytes_of (fr_Filename f)]) "a" (FileIndex f) ex_files_db (ss_db s)
                     /\ (forall c, job_files (ss_db s) !! ("a"%string, FileIndex f) = Some c -> c_complete c <> 0 ->
                          fetched_whole (Some ex_files_table) false f "a" ex_files_db (ss_db s) = true)
            end
        end) ex_files_tree.
Proof.
  eexists _, _. split; [vm_compute; reflexivity|]. split; [vm_compute; reflexivity|]. split; [eexists; split; [vm_compute; reflexivity|reflexivity]|].
  split; [vm_compute; reflexivity|]. intros faults. apply restart_trusts_only_the_disk.
  - vm_compute. reflexivity.
  - vm_compute. reflexivity.
  - repeat constructor; vm_compute; discriminate.
  - vm_compute. repeat constructor; rewrite ?list_elem_of_In; simpl; intuition discriminate.
  - exact ex_files_small.
Defined.
